(* ===== verification/_CoqProject ===== *)
-Q . S2P
Prelude.v
Coding.v
Comparator.v
DbFormat.v
Crc32cTables.v
Crc32c.v
Status.v
MemEnv.v
Iterator.v
Block.v
BlockSpec.v
Merger.v
FileName.v
Log.v
LogSpec.v
LogConcurrent.v
Hash.v
Cache.v
CacheSpec.v
Bloom.v
FilterBlock.v
TwoLevel.v
Format.v
Table.v
TableSpec.v
WriteBatch.v
SkipList.v
SkipListSpec.v
Arena.v
Snapshot.v
MemTable.v
MemIter.v
WritePath.v
WakeUps.v
VersionEdit.v
Guards.v
VersionBuilder.v
VersionBuilderSpec.v
VersionHistory.v
VersionGet.v
LevelIter.v
Compaction.v
Manifest.v
ManifestSpec.v
DbIter.v
Reads.v
FileFilters.v
CompactionInput.v
Background.v
TableFiles.v
TableCache.v
Obsolete.v
CompactionWork.v
Level0.v
Recovery.v
Replay.v
