(* ===== verification/Prelude.v ===== *)
(** * PebblesDB: a verified model of the storage engine

    PebblesDB (src/src) is a key-value store derived from HyperLevelDB.  A
    write goes to a write-ahead log and to a memtable; a full memtable is
    flushed to level-0 tables; compactions merge tables into deeper levels.
    Unlike in LevelDB the files of a level may overlap: the keys of a level are
    split by guards, chosen by hashing, and only files of different guards (or
    of the sentinel before the first guard) are disjoint.  A version lists the
    files and guards of each level; edits of versions are logged in the
    MANIFEST.

    This library is a shallow embedding of that code: a C++ function is a Gallina
    function of the same name, a class a record, an interface with several
    implementations a record of operations with a class of laws
    ([Comparator]/[ComparatorOk], [IterOps]/[IterOk], [FilterPolicy], [Snappy]).
    Bytes are [Byte.byte]; fixed-width integers are [Z] with the wrap-around of
    their width written out ([u8], [u32], [u64] below) where a value can reach
    it; a pointer into a buffer is an offset or the rest of the buffer; NULL, a
    failed assert and an exhausted loop bound are [None]; errors are values of
    [Status].  Definitions are executable.

    ** The files, from the bottom up

    Prelude holds the integers, bytes, lists and tactics that the others share.

    - Coding (util/coding), Comparator (slice, comparator), DbFormat
      (db/dbformat), Crc32cTables and Crc32c (util/crc32c), Status
      (util/status), FileName (util/logging, db/filename), Hash (util/hash,
      db/murmurhash3): the encodings and small components.
    - Cache, CacheSpec (util/cache): the sharded LRU cache over a heap of nodes.
      Arena (util/arena): the lock-free allocator of the memtables.  MemEnv
      (helpers/memenv): the environment that keeps its files in memory.
    - Log, LogSpec, LogConcurrent (db/log_format, log_writer, log_reader): the
      log, what it recovers after a crash, and its lock-free writers.
    - Iterator (iterator, iterator_wrapper), Block and BlockSpec (block_builder,
      block), Merger (merger), TwoLevel (two_level_iterator): the Iterator
      contract and what implements it.
    - Bloom, FilterBlock, Format, Table, TableSpec (util/bloom,
      table/filter_block, format, table_builder, table): table files.
    - WriteBatch (db/write_batch), SkipList and SkipListSpec (db/skiplist),
      MemTable and MemIter (db/memtable): batches, the memtable and its
      iterator.  Snapshot (db/snapshot): the list of snapshots.
    - WritePath (db/db_impl: Write, SequenceWriteBegin, SequenceWriteEnd,
      WaitOutWriters, GetSnapshot): concurrent writers as an interleaving of
      their steps.  WakeUps (the same functions and CompactMemTableThread): the
      condition variables they sleep on, and who signals them.
    - VersionEdit (db/version_edit), Guards, VersionBuilder,
      VersionBuilderSpec, VersionHistory, VersionGet, LevelIter, Compaction
      (db/version_set): the edits, the searches over files and guards, the
      builder of versions, lookups and the iterators of levels, and the choice
      of compactions.
    - Manifest, ManifestSpec (db/version_set: LogAndApply, WriteSnapshot,
      Recover; db/db_impl: NewDB; util/env; db/filename: SetCurrentFile): edits
      that become durable, over files that may fail and lose what was not
      synced.
    - DbIter (db/db_iter): the iterator a user sees.  Reads (db/db_impl: Get,
      NewIterator, RecordReadSample): lookups and scans over the memtables and
      the current version.  FileFilters (db/version_set:
      PopulateFileLevelBloomFilter): the Bloom filters of whole files.
      TableCache (db/table_cache): open tables, over Cache.  Replay
      (db/replay_iterator, db/db_impl: GetReplayTimestamp to GetReplayIterator):
      the iterator over the writes since a timestamp.
    - CompactionInput (db/version_set: MakeInputIteratorForGuardsInALevel): what
      a compaction reads.  Background (db/db_impl: BackgroundCompactionGuards,
      TEST_CompactRange): which levels the compaction threads work on, and
      manual compactions.
    - TableFiles, CompactionWork (db/db_impl: DoCompactionWorkGuards), Level0
      (db/builder, WriteLevel0TableGuards): how compactions and flushes write
      tables, with every call of the file system free to fail.  Obsolete
      (db/db_impl: DeleteObsoleteFiles): which files are removed.
    - Recovery (db/db_impl: RecoverLogFile, Recover): the logs that the MANIFEST
      does not cover are read back into level-0 tables.

    ** What the theorems show

    - Round trips: encodings, batches, version edits, blocks, filters and whole
      tables give back what was put in; a log cut anywhere gives back the
      records before the cut.
    - Refinement: blocks, tables, merges, levels and DBIter are iterators over
      the list they stand for; concurrent log writers are linearizable; the
      cache behaves as a list in the order of last use; the in-memory environment
      is a file system of byte strings; the slicing CRC is the bit-serial one.
    - Invariants: the order of internal keys, the skip list's links and hints,
      the order of files and guards in every version that arises, the queue and
      the number ranges of concurrent writers, the list of snapshots and the
      bound that compactions take from it.
    - Concurrency and memory: calls of the arena, interleaved in any way, never
      share memory and never wait for each other; open tables are not freed
      under a reader; concurrent compactions never work on the same level; no
      writer or snapshot sleeps without somebody who will wake it up, and every
      call can finish.
    - Behaviour: Get of a memtable, of a version and of the database report the
      newest visible entry, and scans show exactly these; the filters of files
      never hide a key; a compaction reads exactly the files it was given,
      writes exactly what it keeps and keeps what any snapshot sees; a flush
      writes exactly the memtable, per guard; recovery brings the whole records
      of a cut log back to level 0; garbage collection removes no file that is
      still needed; a replay shows the newest write of every key since its
      timestamp.
    - Crashes: whatever call of the environment fails, and wherever a crash
      falls, LogAndApply leaves a MANIFEST from which Recover finds the old or
      the new version, and the new one after a reported success; the edits
      rebuild the version they made.
    - Totality: readers of logs, blocks and batches end on arbitrary bytes.
    - Where the code does not do what it means to, a theorem shows it, often on
      a concrete run: a deleted key that a compaction brings back, a snapshot that
      changes after it was returned, a synced write that a crash loses, a flush
      that reports OK and loses a table, a new database whose MANIFEST was not
      synced, a recovery that reads past its filters, a file that is put where
      lookups do not look, a log record that is skipped, an offset that wraps, a
      read error that makes a filter hide keys, a rename that deletes, a mark
      written past its array, a withdrawn manual compaction that is followed
      through NULL, and a replay that shows a write from before its timestamp.

    ** Bounds

    Loops that are not structural take fuel.  The theorems ask for fuel above
    the length of what is walked (the entries of an input, the bytes of a
    record) and then prove that the function returns; the functions that close
    over their fuel compute it from their input.  Hypotheses that bound sizes
    (2^31 bytes of a block, 2^32 of a string, 2^56 sequence numbers, 2^63 of a
    file) are the widths of the fields that hold them.

    ** What is not modelled

    The environment (util/env_posix, port, threads and mutexes) appears as files
    whose calls return arbitrary statuses, and concurrency where a component is
    written for it (Log, WritePath, WakeUps, Arena); elsewhere a function runs with its
    lock held.  Background has the locks of levels; how its threads wait, are
    woken and back off is not modelled, and neither are backups (in WritePath
    only the flag that holds up writers), DB::Open around
    the recovery and the repair tool.  Memory management outside Cache, Arena
    and MemEnv (reference counts, cleanup functions, destructors), timers,
    statistics and log messages are left out, and so are benchmarks, tests, the
    C binding and the snappy library (a class with the law of a lossless
    compressor). *)

From Stdlib Require Import ZArith Lia Bool.
From Stdlib Require Strings.Byte.
From stdpp Require Import base decidable countable numbers list.

Set Default Goal Selector "!".
Local Open Scope Z_scope.

(** ** Bytes *)

Notation byte := Byte.byte.
Notation bytes := (list byte).

Definition b2z (b : byte) : Z := Z.of_N (Byte.to_N b).

Definition z2b (z : Z) : byte :=
  match Byte.of_N (Z.to_N (z mod 256)) with
  | Some b => b
  | None => Byte.x00
  end.

(** [len l] is [size()] of a container, as an integer. *)
Definition len {A} (l : list A) : Z := Z.of_nat (length l).
Arguments len {A} l : simpl never.

(** ** Fixed-width unsigned integers: the value of an operation on [uintN_t]
    is the mathematical value wrapped by [uN]. *)

Definition u8 (z : Z) : Z := z mod 2 ^ 8.
Definition u32 (z : Z) : Z := z mod 2 ^ 32.
Definition u64 (z : Z) : Z := z mod 2 ^ 64.

(** Sign extension of a [char] to [int] (the targets' [char] is signed). *)
Definition schar (b : byte) : Z := if b2z b <? 128 then b2z b else b2z b - 256.

Lemma b2z_range b : 0 <= b2z b < 256.
Proof.
  unfold b2z. pose proof (Byte.to_N_bounded b). lia.
Qed.

Lemma b2z_z2b z : b2z (z2b z) = z mod 256.
Proof.
  unfold z2b, b2z.
  pose proof (Z.mod_pos_bound z 256 ltac:(lia)) as Hr.
  destruct (Byte.of_N (Z.to_N (z mod 256))) as [b|] eqn:E.
  - apply Byte.to_of_N in E. rewrite E. lia.
  - apply Byte.of_N_None_iff in E. lia.
Qed.

Lemma b2z_inj b1 b2 : b2z b1 = b2z b2 -> b1 = b2.
Proof.
  unfold b2z. intros H%N2Z.inj.
  pose proof (Byte.of_to_N b1) as E1. pose proof (Byte.of_to_N b2) as E2.
  rewrite H in E1. congruence.
Qed.

Lemma z2b_b2z b : z2b (b2z b) = b.
Proof.
  apply b2z_inj. rewrite b2z_z2b. apply Z.mod_small, b2z_range.
Qed.

Lemma b2z_z2b_small z : 0 <= z < 256 -> b2z (z2b z) = z.
Proof. intros. rewrite b2z_z2b. by apply Z.mod_small. Qed.

Lemma z2b_mod z w : 8 <= w -> z2b (z mod 2 ^ w) = z2b z.
Proof.
  intros Hw. apply b2z_inj. rewrite !b2z_z2b.
  change 256 with (2 ^ 8). symmetry.
  rewrite <- (Z.mod_mod_divide z (2 ^ w) (2 ^ 8)); [done|].
  exists (2 ^ (w - 8)). rewrite <- Z.pow_add_r by lia. f_equal; lia.
Qed.

#[export] Instance byte_eq_dec : EqDecision byte.
Proof. intros a b. destruct (Byte.byte_eq_dec a b); [by left|by right]. Defined.

#[export] Instance byte_inhabited : Inhabited byte := populate Byte.x00.

#[export] Program Instance byte_countable : Countable byte :=
  {| encode b := encode (Byte.to_N b);
     decode p := n ← decode p; Byte.of_N n |}.
Next Obligation.
  intros b. simpl. rewrite decode_encode. simpl. apply Byte.of_to_N.
Qed.

(** ** Lengths *)

Lemma len_nil {A} : len (@nil A) = 0.
Proof. done. Qed.

Lemma len_cons {A} (x : A) l : len (x :: l) = 1 + len l.
Proof. unfold len. simpl. lia. Qed.

Lemma len_app {A} (l k : list A) : len (l ++ k) = len l + len k.
Proof. unfold len. rewrite length_app. lia. Qed.

Lemma len_nonneg {A} (l : list A) : 0 <= len l.
Proof. unfold len. lia. Qed.

Lemma len_take {A} n (l : list A) : len (take n l) = Z.min (Z.of_nat n) (len l).
Proof. unfold len. rewrite length_take. lia. Qed.

Lemma len_drop {A} n (l : list A) : len (drop n l) = Z.max 0 (len l - Z.of_nat n).
Proof. unfold len. rewrite length_drop. lia. Qed.

Lemma len_replicate {A} n (x : A) : len (replicate n x) = Z.of_nat n.
Proof. unfold len. by rewrite length_replicate. Qed.

Lemma to_nat_len {A} (l : list A) : Z.to_nat (len l) = length l.
Proof. unfold len. lia. Qed.

Lemma len_0_nil {A} (l : list A) : len l = 0 -> l = [].
Proof. destruct l; [done|]. rewrite len_cons. pose proof (len_nonneg l). lia. Qed.

Create Rewrite HintDb len.
#[export] Hint Rewrite @len_cons @len_app @len_take @len_drop
  @len_replicate @to_nat_len @length_app @length_take @length_drop
  @length_replicate : len.

(** [len_solve]: arithmetic about lengths of list expressions. *)
Ltac len_facts :=
  repeat match goal with
  | |- context [len ?l] =>
      lazymatch goal with
      | _ : 0 <= len l |- _ => fail
      | _ => pose proof (len_nonneg l)
      end
  | _ : context [len ?l] |- _ =>
      lazymatch goal with
      | _ : 0 <= len l |- _ => fail
      | _ => pose proof (len_nonneg l)
      end
  end.
Ltac len_nils :=
  repeat match goal with
  | |- context [@len ?A (@nil ?A)] => change (@len A (@nil A)) with 0
  | H : context [@len ?A (@nil ?A)] |- _ => change (@len A (@nil A)) with 0 in H
  end.
Ltac len_simpl := autorewrite with len in *; len_nils.
Ltac len_solve := len_simpl; len_facts; first [lia | unfold len in *; lia].

(** ** Lists: taking and dropping at a known split point *)

Lemma take_len_app {A} (l k : list A) n : n = length l -> take n (l ++ k) = l.
Proof. intros ->. by rewrite take_app_length. Qed.

Lemma drop_len_app {A} (l k : list A) n : n = length l -> drop n (l ++ k) = k.
Proof. intros ->. by rewrite drop_app_length. Qed.

(** ** Little-endian numbers *)

Fixpoint le_combine (l : bytes) : Z :=
  match l with
  | [] => 0
  | b :: l => b2z b + 256 * le_combine l
  end.

Fixpoint le_split (n : nat) (z : Z) : bytes :=
  match n with
  | O => []
  | S n => z2b z :: le_split n (Z.shiftr z 8)
  end.

Lemma length_le_split n z : length (le_split n z) = n.
Proof. revert z. induction n as [|n IH]; intros z; simpl; [done|]. by rewrite IH. Qed.

Lemma len_le_split n z : len (le_split n z) = Z.of_nat n.
Proof. unfold len. by rewrite length_le_split. Qed.

#[export] Hint Rewrite length_le_split len_le_split : len.

Lemma le_combine_split n z : le_combine (le_split n z) = z mod 2 ^ (8 * Z.of_nat n).
Proof.
  revert z. induction n as [|n IH]; intros z; simpl le_split; simpl le_combine.
  { change (8 * Z.of_nat 0) with 0. by rewrite Z.mod_1_r. }
  rewrite IH, b2z_z2b, Z.shiftr_div_pow2 by lia.
  replace (8 * Z.of_nat (S n)) with (8 + 8 * Z.of_nat n) by lia.
  rewrite Z.pow_add_r by lia. change (2 ^ 8) with 256.
  rewrite Z.rem_mul_r; [done|lia|].
  apply Z.pow_pos_nonneg; lia.
Qed.

Lemma le_combine_range l : 0 <= le_combine l < 2 ^ (8 * len l).
Proof.
  induction l as [|b l IH]; [done|].
  simpl le_combine. rewrite len_cons.
  replace (8 * (1 + len l)) with (8 + 8 * len l) by lia.
  pose proof (len_nonneg l). rewrite Z.pow_add_r by lia.
  pose proof (b2z_range b). change (2 ^ 8) with 256. lia.
Qed.

Lemma le_split_combine l : le_split (length l) (le_combine l) = l.
Proof.
  induction l as [|b l IH]; [done|].
  simpl. rewrite Z.shiftr_div_pow2 by lia. change (2 ^ 8) with 256.
  pose proof (b2z_range b). f_equal.
  - apply b2z_inj. rewrite b2z_z2b, Z.mul_comm, Z_mod_plus_full.
    by apply Z.mod_small.
  - rewrite Z.mul_comm, Z.div_add, Z.div_small by lia. exact IH.
Qed.

Lemma le_combine_split_small n z :
  0 <= z < 2 ^ (8 * Z.of_nat n) -> le_combine (le_split n z) = z.
Proof. intros. rewrite le_combine_split. by apply Z.mod_small. Qed.

Lemma le_combine_app l k :
  le_combine (l ++ k) = le_combine l + 2 ^ (8 * len l) * le_combine k.
Proof.
  induction l as [|b l IH]; cbn [le_combine app].
  - unfold len. simpl. lia.
  - rewrite IH, len_cons. pose proof (len_nonneg l).
    replace (8 * (1 + len l)) with (8 + 8 * len l) by lia.
    rewrite Z.pow_add_r by lia. change (2 ^ 8) with 256. lia.
Qed.

(** ** Machine-width facts *)

Lemma u8_range z : 0 <= u8 z < 2 ^ 8.
Proof. by apply Z.mod_pos_bound. Qed.
Lemma u32_range z : 0 <= u32 z < 2 ^ 32.
Proof. by apply Z.mod_pos_bound. Qed.
Lemma u64_range z : 0 <= u64 z < 2 ^ 64.
Proof. by apply Z.mod_pos_bound. Qed.

Lemma u32_small z : 0 <= z < 2 ^ 32 -> u32 z = z.
Proof. apply Z.mod_small. Qed.
Lemma u64_small z : 0 <= z < 2 ^ 64 -> u64 z = z.
Proof. apply Z.mod_small. Qed.

Create HintDb pebbles discriminated.
#[export] Hint Resolve b2z_range u8_range u32_range u64_range len_nonneg : pebbles.

(** [zcompute]: conjunctions of closed comparisons, by evaluation. *)
Ltac zcompute :=
  repeat match goal with |- _ /\ _ => split end;
  vm_compute; first [reflexivity | discriminate].

(** ** Bit-level equalities

    [zbits] proves an equation between integers bit by bit; side conditions
    of the shift lemmas are arithmetic. *)

Lemma testbit_small z w i : 0 <= z < 2 ^ w -> w <= i -> Z.testbit z i = false.
Proof.
  intros Hz Hi. destruct (Z.le_gt_cases 0 w) as [Hw|Hw].
  - rewrite <- (Z.mod_small z (2 ^ w)) by done. apply Z.mod_pow2_bits_high. lia.
  - rewrite Z.pow_neg_r in Hz by lia. lia.
Qed.

Lemma land_shift_disjoint a b w :
  0 <= w -> 0 <= a < 2 ^ w -> Z.land a (Z.shiftl b w) = 0.
Proof.
  intros Hw Ha. apply Z.bits_inj'. intros i Hi. rewrite Z.land_spec, Z.bits_0.
  destruct (Z.lt_ge_cases i w).
  - rewrite Z.shiftl_spec_low by lia. by rewrite andb_false_r.
  - by rewrite (testbit_small a w).
Qed.

(** Adding a multiple of a power of two to something below it is a
    bitwise or, and a bitwise exclusive or. *)
Lemma lxor_add_shift a b w :
  0 <= w -> 0 <= a < 2 ^ w -> Z.lxor a (Z.shiftl b w) = a + 2 ^ w * b.
Proof.
  intros Hw Ha. rewrite <- Z.add_nocarry_lxor by (by apply land_shift_disjoint).
  rewrite Z.shiftl_mul_pow2 by lia. lia.
Qed.

Lemma lor_add_shift a b w :
  0 <= w -> 0 <= a < 2 ^ w -> Z.lor a (Z.shiftl b w) = a + 2 ^ w * b.
Proof.
  intros Hw Ha. rewrite <- Z.lxor_lor by (by apply land_shift_disjoint).
  by apply lxor_add_shift.
Qed.

(** Bitwise operations stay below a power of two. *)
Lemma below_pow2_bits z w :
  0 <= w -> 0 <= z -> (forall i, w <= i -> Z.testbit z i = false) -> z < 2 ^ w.
Proof.
  intros Hw Hz Hb. replace z with (z mod 2 ^ w).
  { apply Z.mod_pos_bound, Z.pow_pos_nonneg; lia. }
  apply Z.bits_inj'. intros i Hi. destruct (Z.lt_ge_cases i w).
  - by rewrite Z.mod_pow2_bits_low by lia.
  - rewrite Z.mod_pow2_bits_high by lia. by rewrite Hb.
Qed.

Lemma lor_range a b w : 0 <= w -> 0 <= a < 2 ^ w -> 0 <= b < 2 ^ w -> 0 <= Z.lor a b < 2 ^ w.
Proof.
  intros Hw Ha Hb. assert (0 <= Z.lor a b) by (apply Z.lor_nonneg; lia).
  split; [done|]. apply below_pow2_bits; [done..|]. intros i Hi.
  by rewrite Z.lor_spec, (testbit_small a w), (testbit_small b w).
Qed.

Lemma lxor_range a b w : 0 <= w -> 0 <= a < 2 ^ w -> 0 <= b < 2 ^ w -> 0 <= Z.lxor a b < 2 ^ w.
Proof.
  intros Hw Ha Hb. assert (0 <= Z.lxor a b) by (apply Z.lxor_nonneg; lia).
  split; [done|]. apply below_pow2_bits; [done..|]. intros i Hi.
  by rewrite Z.lxor_spec, (testbit_small a w), (testbit_small b w).
Qed.

(** ** Partition points

    [prefix_len p l] is the number of leading elements of [l] that satisfy
    [p]: what the binary searches of the program look for. *)
Fixpoint prefix_len {A} (p : A -> bool) (l : list A) : nat :=
  match l with
  | [] => 0
  | x :: l => if p x then S (prefix_len p l) else 0
  end.

(** [p] holds on a prefix of [l] and nowhere else. *)
Definition prefix_closed {A} (p : A -> bool) (l : list A) : Prop :=
  forall i j x y, (i <= j)%nat -> l !! i = Some x -> l !! j = Some y -> p y = true -> p x = true.

Lemma prefix_len_le {A} (p : A -> bool) l : (prefix_len p l <= length l)%nat.
Proof. induction l as [|x l IH]; simpl; [lia|]. destruct (p x); lia. Qed.

Lemma prefix_len_before {A} (p : A -> bool) l i x :
  (i < prefix_len p l)%nat -> l !! i = Some x -> p x = true.
Proof.
  revert i. induction l as [|y l IH]; intros i; simpl; [lia|].
  destruct (p y) eqn:E; [|lia]. destruct i as [|i]; simpl; [by intros _ [= <-]|].
  intros Hi. apply IH. lia.
Qed.

Lemma prefix_len_at {A} (p : A -> bool) l x : l !! prefix_len p l = Some x -> p x = false.
Proof.
  induction l as [|y l IH]; simpl; [done|]. destruct (p y) eqn:E; [done|]. simpl. by intros [= <-].
Qed.

Lemma prefix_len_closed {A} (p : A -> bool) l i x :
  prefix_closed p l -> l !! i = Some x -> p x = true <-> (i < prefix_len p l)%nat.
Proof.
  intros Hc Hx. split.
  - intros Hp. destruct (Nat.lt_ge_cases i (prefix_len p l)) as [|Hge]; [done|].
    destruct (lookup_lt_is_Some_2 l (prefix_len p l)) as [y Hy].
    { apply lookup_lt_Some in Hx. lia. }
    pose proof (prefix_len_at p l y Hy) as Hf. by rewrite (Hc _ _ _ _ Hge Hy Hx Hp) in Hf.
  - intros Hi. by eapply prefix_len_before.
Qed.

Lemma prefix_len_unique {A} (p : A -> bool) l n :
  (n <= length l)%nat -> (forall i x, (i < n)%nat -> l !! i = Some x -> p x = true) ->
  (forall x, l !! n = Some x -> p x = false) -> prefix_len p l = n.
Proof.
  revert n. induction l as [|y l IH]; intros n Hn Hb Ha; simpl in *; [lia|].
  destruct n as [|n].
  - by rewrite (Ha y).
  - rewrite (Hb 0%nat y) by (lia || done). f_equal. apply IH; [lia| |done].
    intros i x Hi. apply (Hb (S i)). lia.
Qed.

Lemma prefix_len_app {A} (p : A -> bool) l1 l2 : Forall (fun x => p x = true) l1 ->
  prefix_len p (l1 ++ l2) = (length l1 + prefix_len p l2)%nat.
Proof. induction 1 as [|x l1 Hx _ IH]; [done|]. simpl. by rewrite Hx, IH. Qed.

Lemma prefix_len_ext {A} (p q : A -> bool) l :
  Forall (fun x => p x = q x) l -> prefix_len p l = prefix_len q l.
Proof. induction 1 as [|x l Hx _ IH]; simpl; [done|]. by rewrite Hx, IH. Qed.

Lemma prefix_len_mono {A} (p q : A -> bool) l :
  Forall (fun x => p x = true -> q x = true) l -> (prefix_len p l <= prefix_len q l)%nat.
Proof.
  induction 1 as [|x l Hx _ IH]; simpl; [lia|]. destruct (p x); [|lia]. rewrite Hx by done. lia.
Qed.

(** ** Outcomes of code with asserts: the call returns, an assert fails, or the
    model's loop runs out of fuel, which the components exclude. *)
Inductive Outcome (A : Type) := Returned (a : A) | AssertFailed | NoFuel.
Arguments Returned {A} a.
Arguments AssertFailed {A}.
Arguments NoFuel {A}.

(** ** Folds *)

Lemma fold_left_ok {A B} (P : A -> Prop) (f : A -> B -> A) l a :
  (forall a b, P a -> P (f a b)) -> P a -> P (fold_left f l a).
Proof. intros Hf. revert a. induction l as [|b l IH]; intros a Ha; simpl; [done|]. by apply IH, Hf. Qed.
