(* ===== verification/Coding.v ===== *)
(** * Endian-neutral integer and string encodings (util/coding.h, util/coding.cc)

    Fixed-width little-endian numbers, base-128 varints and length-prefixed
    strings.  A [std::string] written to is modelled by the bytes appended; a
    pointer pair [p, limit) or a [Slice*] advanced past what was parsed is the
    list of bytes that remain, and a NULL or [false] result is [None]. *)

From Stdlib Require Import ZArith Lia Bool.
From stdpp Require Import base list.
From S2P Require Import Prelude.

Set Default Goal Selector "!".
Local Open Scope Z_scope.

(** port::kLittleEndian of the supported targets (port/port_posix.h). *)
Definition kLittleEndian : bool := true.

(** ** Fixed-width numbers *)

(** The two branches of the source: the memory image of the value on a
    little-endian machine, and the byte-by-byte stores. *)
Definition EncodeFixed32 (value : Z) : bytes :=
  if kLittleEndian then le_split 4 value
  else [z2b (Z.land value 255);
        z2b (Z.land (Z.shiftr value 8) 255);
        z2b (Z.land (Z.shiftr value 16) 255);
        z2b (Z.land (Z.shiftr value 24) 255)].

Definition EncodeFixed64 (value : Z) : bytes :=
  if kLittleEndian then le_split 8 value
  else [z2b (Z.land value 255);
        z2b (Z.land (Z.shiftr value 8) 255);
        z2b (Z.land (Z.shiftr value 16) 255);
        z2b (Z.land (Z.shiftr value 24) 255);
        z2b (Z.land (Z.shiftr value 32) 255);
        z2b (Z.land (Z.shiftr value 40) 255);
        z2b (Z.land (Z.shiftr value 48) 255);
        z2b (Z.land (Z.shiftr value 56) 255)].

(** [ptr] is the memory from the pointer on; the code reads without bounds
    checking, and its callers have at least four (eight) bytes there. *)
Definition DecodeFixed32 (ptr : bytes) : Z :=
  if kLittleEndian then le_combine (take 4 ptr)
  else
    let at_ i := b2z (nth i ptr Byte.x00) in
    Z.lor (Z.lor (Z.lor (at_ 0%nat) (Z.shiftl (at_ 1%nat) 8))
                 (Z.shiftl (at_ 2%nat) 16))
          (Z.shiftl (at_ 3%nat) 24).

Definition DecodeFixed64 (ptr : bytes) : Z :=
  if kLittleEndian then le_combine (take 8 ptr)
  else
    let lo := DecodeFixed32 ptr in
    let hi := DecodeFixed32 (drop 4 ptr) in
    Z.lor (u64 (Z.shiftl hi 32)) lo.

Definition PutFixed32 (dst : bytes) (value : Z) : bytes := dst ++ EncodeFixed32 value.
Definition PutFixed64 (dst : bytes) (value : Z) : bytes := dst ++ EncodeFixed64 value.

(** ** Varints *)

Definition EncodeVarint32 (v : Z) : bytes :=
  let B := 128 in
  if v <? Z.shiftl 1 7 then [z2b v]
  else if v <? Z.shiftl 1 14 then
    [z2b (Z.lor v B); z2b (Z.shiftr v 7)]
  else if v <? Z.shiftl 1 21 then
    [z2b (Z.lor v B); z2b (Z.lor (Z.shiftr v 7) B); z2b (Z.shiftr v 14)]
  else if v <? Z.shiftl 1 28 then
    [z2b (Z.lor v B); z2b (Z.lor (Z.shiftr v 7) B);
     z2b (Z.lor (Z.shiftr v 14) B); z2b (Z.shiftr v 21)]
  else
    [z2b (Z.lor v B); z2b (Z.lor (Z.shiftr v 7) B);
     z2b (Z.lor (Z.shiftr v 14) B); z2b (Z.lor (Z.shiftr v 21) B);
     z2b (Z.shiftr v 28)].

Definition PutVarint32 (dst : bytes) (v : Z) : bytes := dst ++ EncodeVarint32 v.

(** The loop [while (v >= B)]; nine iterations are enough for a [uint64_t]
    ([EncodeVarint64_fuel]). *)
Fixpoint EncodeVarint64_loop (fuel : nat) (v : Z) : bytes :=
  match fuel with
  | O => [z2b v]
  | S fuel =>
      if 128 <=? v then
        z2b (Z.lor (Z.land v 127) 128) :: EncodeVarint64_loop fuel (Z.shiftr v 7)
      else [z2b v]
  end.

Definition EncodeVarint64 (v : Z) : bytes := EncodeVarint64_loop 9 v.

Definition PutVarint64 (dst : bytes) (v : Z) : bytes := dst ++ EncodeVarint64 v.

Fixpoint VarintLength_loop (fuel : nat) (v n : Z) : Z :=
  match fuel with
  | O => n
  | S fuel => if 128 <=? v then VarintLength_loop fuel (Z.shiftr v 7) (n + 1) else n
  end.

Definition VarintLength (v : Z) : Z := VarintLength_loop 9 v 1.

(** The parsing loop shared by GetVarint32PtrFallback (an accumulator of
    width 32 and shifts up to 28) and GetVarint64Ptr (64, 63). *)
Fixpoint GetVarint_loop (w maxshift shift result : Z) (p : bytes) : option (Z * bytes) :=
  match p with
  | [] => None
  | c :: p' =>
      if shift <=? maxshift then
        let byte := b2z c in
        if Z.land byte 128 =? 0 then
          Some (Z.lor result (Z.shiftl byte shift mod 2 ^ w), p')
        else
          GetVarint_loop w maxshift (shift + 7)
            (Z.lor result (Z.shiftl (Z.land byte 127) shift mod 2 ^ w)) p'
      else None
  end.

Definition GetVarint32PtrFallback (p : bytes) : option (Z * bytes) :=
  GetVarint_loop 32 28 0 0 p.

Definition GetVarint32Ptr (p : bytes) : option (Z * bytes) :=
  match p with
  | c :: p' =>
      let result := b2z c in
      if Z.land result 128 =? 0 then Some (result, p') else GetVarint32PtrFallback p
  | [] => GetVarint32PtrFallback p
  end.

Definition GetVarint32 (input : bytes) : option (Z * bytes) := GetVarint32Ptr input.

Definition GetVarint64Ptr (p : bytes) : option (Z * bytes) := GetVarint_loop 64 63 0 0 p.

Definition GetVarint64 (input : bytes) : option (Z * bytes) := GetVarint64Ptr input.

(** ** Length-prefixed strings *)

(** [value.size()] is converted to [uint32_t] at the call of PutVarint32. *)
Definition PutLengthPrefixedSlice (dst value : bytes) : bytes :=
  PutVarint32 dst (u32 (len value)) ++ value.

Definition GetLengthPrefixedSlice (input : bytes) : option (bytes * bytes) :=
  match GetVarint32 input with
  | Some (n, input) =>
      if n <=? len input then Some (take (Z.to_nat n) input, drop (Z.to_nat n) input)
      else None
  | None => None
  end.

(** ** Fixed-width numbers: layout and round trip *)

Lemma len_EncodeFixed32 v : len (EncodeFixed32 v) = 4.
Proof. done. Qed.
Lemma len_EncodeFixed64 v : len (EncodeFixed64 v) = 8.
Proof. done. Qed.
#[export] Hint Rewrite len_EncodeFixed32 len_EncodeFixed64 : len.

Lemma DecodeFixed32_range p : 0 <= DecodeFixed32 p < 2 ^ 32.
Proof.
  unfold DecodeFixed32. simpl. pose proof (le_combine_range (take 4 p)) as [? Hu].
  split; [done|]. eapply Z.lt_le_trans; [exact Hu|].
  apply Z.pow_le_mono_r; [lia|]. rewrite len_take. lia.
Qed.

Lemma DecodeFixed64_range p : 0 <= DecodeFixed64 p < 2 ^ 64.
Proof.
  unfold DecodeFixed64. simpl. pose proof (le_combine_range (take 8 p)) as [? Hu].
  split; [done|]. eapply Z.lt_le_trans; [exact Hu|].
  apply Z.pow_le_mono_r; [lia|]. rewrite len_take. lia.
Qed.

Lemma DecodeFixed32_EncodeFixed32 v rest :
  DecodeFixed32 (EncodeFixed32 v ++ rest) = u32 v.
Proof.
  unfold DecodeFixed32, EncodeFixed32, kLittleEndian.
  rewrite take_len_app by (by rewrite length_le_split).
  by rewrite le_combine_split.
Qed.

Lemma DecodeFixed64_EncodeFixed64 v rest :
  DecodeFixed64 (EncodeFixed64 v ++ rest) = u64 v.
Proof.
  unfold DecodeFixed64, EncodeFixed64, kLittleEndian.
  rewrite take_len_app by (by rewrite length_le_split).
  by rewrite le_combine_split.
Qed.

(** An encoder's bytes determine the decoded prefix: reading back eight bytes
    and writing them again gives the same bytes. *)
Lemma EncodeFixed64_DecodeFixed64 p :
  length p = 8%nat -> EncodeFixed64 (DecodeFixed64 p) = p.
Proof.
  intros Hp. unfold DecodeFixed64, EncodeFixed64, kLittleEndian.
  rewrite take_ge by lia. rewrite <- Hp. apply le_split_combine.
Qed.

(** ** Varints: the byte-level facts *)

Lemma land128_ltb b : (Z.land (b2z b) 128 =? 0) = (b2z b <? 128).
Proof. by destruct b. Qed.

Lemma land127 z : Z.land z 127 = z mod 128.
Proof. change 127 with (Z.ones 7). by rewrite Z.land_ones. Qed.

Lemma lor_mod128 v : Z.lor (v mod 128) 128 = v mod 128 + 128.
Proof.
  change 128 with (Z.shiftl 1 7) at 2. rewrite lor_add_shift; [lia|lia|].
  change (2 ^ 7) with 128. apply Z.mod_pos_bound. lia.
Qed.

(** Only the low seven bits of [v] survive in the byte [v | B]. *)
Lemma z2b_lor128 v : z2b (Z.lor v 128) = z2b (Z.lor (Z.land v 127) 128).
Proof.
  apply b2z_inj. rewrite !b2z_z2b. change 256 with (2 ^ 8).
  rewrite <- !Z.land_ones by lia. rewrite !Z.land_lor_distr_l.
  rewrite <- Z.land_assoc. change (Z.land 127 (Z.ones 8)) with 127.
  change (Z.land 128 (Z.ones 8)) with 128.
  apply Z.bits_inj'. intros i Hi. rewrite !Z.lor_spec, !Z.land_spec.
  destruct (Z.eq_dec i 7) as [->|Hne]; [by rewrite !orb_true_r|].
  f_equal. f_equal. change 127 with (Z.ones 7).
  destruct (Z.lt_ge_cases i 7).
  - by rewrite !Z.ones_spec_low by lia.
  - by rewrite !Z.ones_spec_high by lia.
Qed.

Lemma b2z_more v : b2z (z2b (Z.lor (Z.land v 127) 128)) = v mod 128 + 128.
Proof.
  rewrite land127, lor_mod128. apply b2z_z2b_small.
  pose proof (Z.mod_pos_bound v 128 ltac:(lia)). lia.
Qed.

Lemma shiftr7 v : Z.shiftr v 7 = v / 128.
Proof. by rewrite Z.shiftr_div_pow2 by lia. Qed.

(** EncodeVarint32's unrolled branches produce the loop's bytes. *)
Lemma EncodeVarint32_loop v :
  0 <= v < 2 ^ 32 -> EncodeVarint32 v = EncodeVarint64 v.
Proof.
  intros Hv. unfold EncodeVarint32, EncodeVarint64.
  change (Z.shiftl 1 7) with 128. change (Z.shiftl 1 14) with 16384.
  change (Z.shiftl 1 21) with 2097152. change (Z.shiftl 1 28) with 268435456.
  cbn [EncodeVarint64_loop]. rewrite !Z.shiftr_shiftr by lia.
  cbn [Z.add Pos.add Pos.succ Pos.add_carry].
  rewrite !Z.shiftr_div_pow2 by lia.
  change (2 ^ 7) with 128. change (2 ^ 14) with 16384.
  change (2 ^ 21) with 2097152. change (2 ^ 28) with 268435456.
  rewrite (z2b_lor128 v), (z2b_lor128 (v / 128)),
    (z2b_lor128 (v / 16384)), (z2b_lor128 (v / 2097152)).
  repeat match goal with
  | |- context [?a <? ?b] => destruct (Z.ltb_spec a b)
  | |- context [?a <=? ?b] => destruct (Z.leb_spec a b)
  end; try done; exfalso; Z.div_mod_to_equations; lia.
Qed.

(** Seven fewer bits after each continuation byte. *)
Lemma shiftr7_range n v :
  0 <= v < 2 ^ (7 * Z.of_nat (S (S n))) -> 0 <= Z.shiftr v 7 < 2 ^ (7 * Z.of_nat (S n)).
Proof.
  rewrite shiftr7. intros Hv.
  replace (7 * Z.of_nat (S (S n))) with (7 + 7 * Z.of_nat (S n)) in Hv by lia.
  rewrite Z.pow_add_r in Hv by lia. change (2 ^ 7) with 128 in Hv.
  split; [apply Z.div_pos; lia|]. apply Z.div_lt_upper_bound; lia.
Qed.

(** Nine iterations suffice: more fuel changes nothing. *)
Lemma EncodeVarint64_fuel n v :
  0 <= v < 2 ^ 64 -> EncodeVarint64_loop (9 + n) v = EncodeVarint64 v.
Proof.
  intros Hv. unfold EncodeVarint64.
  assert (forall k m u, 0 <= u < 2 ^ (7 * Z.of_nat (S k)) ->
    EncodeVarint64_loop (k + m) u = EncodeVarint64_loop k u) as Hgen.
  { induction k as [|k IH]; intros m u Hu.
    - change (2 ^ (7 * Z.of_nat 1)) with 128 in Hu. destruct m as [|m]; [done|].
      simpl. destruct (Z.leb_spec 128 u); [lia|done].
    - simpl. destruct (Z.leb_spec 128 u); [|done]. f_equal. by apply IH, shiftr7_range. }
  apply Hgen. change (2 ^ (7 * Z.of_nat 10)) with (2 ^ 70). lia.
Qed.

(** ** Varints: the parsing loop inverts the encoding loop *)

Lemma GetVarint_loop_last w maxshift v shift result rest :
  0 <= shift <= maxshift -> 0 <= v < 128 -> 2 ^ shift * v < 2 ^ w ->
  0 <= result < 2 ^ shift ->
  GetVarint_loop w maxshift shift result (z2b v :: rest)
  = Some (result + 2 ^ shift * v, rest).
Proof.
  intros Hs Hv Hfit Hr. simpl.
  rewrite (proj2 (Z.leb_le shift maxshift)) by lia.
  rewrite land128_ltb, b2z_z2b_small by lia.
  rewrite (proj2 (Z.ltb_lt v 128)) by lia.
  rewrite Z.shiftl_mul_pow2 by lia.
  rewrite Z.mod_small by lia. rewrite <- Z.shiftl_mul_pow2 by lia.
  by rewrite lor_add_shift by lia.
Qed.

Lemma GetVarint_loop_more w maxshift v shift result p :
  0 <= shift <= maxshift -> 0 <= v -> 2 ^ shift * v < 2 ^ w ->
  0 <= result < 2 ^ shift ->
  GetVarint_loop w maxshift shift result (z2b (Z.lor (Z.land v 127) 128) :: p)
  = GetVarint_loop w maxshift (shift + 7) (result + 2 ^ shift * (v mod 128)) p.
Proof.
  intros Hs Hv Hfit Hr. cbn [GetVarint_loop].
  rewrite (proj2 (Z.leb_le shift maxshift)) by lia.
  rewrite land128_ltb, b2z_more.
  pose proof (Z.mod_pos_bound v 128 ltac:(lia)) as Hm.
  rewrite (proj2 (Z.ltb_ge (v mod 128 + 128) 128)) by lia.
  rewrite land127. replace ((v mod 128 + 128) mod 128) with (v mod 128)
    by (Z.div_mod_to_equations; lia).
  assert (0 < 2 ^ shift) by (apply Z.pow_pos_nonneg; lia).
  assert (v mod 128 <= v) by (apply Z.mod_le; lia).
  rewrite Z.shiftl_mul_pow2 by lia.
  rewrite (Z.mod_small (_ * _)) by nia.
  rewrite <- Z.shiftl_mul_pow2 by lia.
  by rewrite lor_add_shift by lia.
Qed.

Lemma GetVarint_loop_encode w maxshift n v shift result rest :
  0 < w -> 0 <= shift -> (7 | shift) ->
  (forall s, (7 | s) -> s < w -> s <= maxshift) ->
  0 <= v < 2 ^ (7 * Z.of_nat (S n)) -> 2 ^ shift * v < 2 ^ w -> shift < w ->
  0 <= result < 2 ^ shift ->
  GetVarint_loop w maxshift shift result (EncodeVarint64_loop n v ++ rest)
  = Some (result + 2 ^ shift * v, rest).
Proof.
  intros Hw. revert v shift result.
  induction n as [|n IH]; intros v shift result Hs Hdiv Hmax Hv Hfit Hsw Hr;
    cbn [EncodeVarint64_loop app].
  { change (2 ^ (7 * Z.of_nat 1)) with 128 in Hv.
    apply GetVarint_loop_last; auto with lia. }
  destruct (Z.leb_spec 128 v) as [Hbig|Hlow]; cbn [app].
  2: { apply GetVarint_loop_last; auto with lia. }
  rewrite GetVarint_loop_more by auto with lia.
  pose proof (Z.mod_pos_bound v 128 ltac:(lia)) as Hm.
  assert (2 ^ (shift + 7) = 2 ^ shift * 128) as Hp by (rewrite Z.pow_add_r; lia).
  pose proof (Z.div_mod v 128 ltac:(lia)) as Hdm.
  assert (0 < 2 ^ shift) by (apply Z.pow_pos_nonneg; lia).
  rewrite IH.
  - rewrite Hp, shiftr7. f_equal. f_equal. nia.
  - lia.
  - apply Z.divide_add_r; [done|by exists 1].
  - done.
  - by apply shiftr7_range.
  - rewrite Hp, shiftr7. nia.
  - apply (Z.pow_lt_mono_r_iff 2); [lia|lia|]. rewrite Hp. nia.
  - rewrite Hp. nia.
Qed.

Lemma GetVarint64_EncodeVarint64 v rest :
  0 <= v < 2 ^ 64 -> GetVarint64 (EncodeVarint64 v ++ rest) = Some (v, rest).
Proof.
  intros Hv. unfold GetVarint64, GetVarint64Ptr, EncodeVarint64.
  replace (Some (v, rest)) with (Some (0 + 2 ^ 0 * v, rest)) by (repeat f_equal; lia).
  apply GetVarint_loop_encode; try lia; try (by exists 0).
Qed.

(** The one-byte fast path of GetVarint32Ptr agrees with the loop. *)
Lemma GetVarint32Ptr_fallback p : GetVarint32Ptr p = GetVarint32PtrFallback p.
Proof.
  destruct p as [|c p]; [done|]. unfold GetVarint32Ptr, GetVarint32PtrFallback.
  cbn [GetVarint_loop]. change (0 <=? 28) with true. cbv iota.
  destruct (Z.land (b2z c) 128 =? 0); [|done].
  rewrite Z.shiftl_0_r, Z.lor_0_l, Z.mod_small; [done|].
  pose proof (b2z_range c). lia.
Qed.

Lemma GetVarint32_EncodeVarint32 v rest :
  0 <= v < 2 ^ 32 -> GetVarint32 (EncodeVarint32 v ++ rest) = Some (v, rest).
Proof.
  intros Hv. rewrite EncodeVarint32_loop by done.
  unfold GetVarint32. rewrite GetVarint32Ptr_fallback.
  unfold GetVarint32PtrFallback, EncodeVarint64.
  replace (Some (v, rest)) with (Some (0 + 2 ^ 0 * v, rest)) by (repeat f_equal; lia).
  apply GetVarint_loop_encode; try lia; try (by exists 0).
  intros s [k ->] ?. lia.
Qed.

(** What the parsing loop accepts: at least one byte is consumed, at most one
    per admissible shift, the remaining input is a suffix, and the value fits
    the accumulator. *)
Lemma GetVarint_loop_inv w maxshift p shift result v rest :
  0 <= w -> 0 <= result < 2 ^ w ->
  GetVarint_loop w maxshift shift result p = Some (v, rest) ->
  0 <= v < 2 ^ w /\
  exists pre, p = pre ++ rest /\ 1 <= len pre /\ shift + 7 * (len pre - 1) <= maxshift.
Proof.
  intros Hw. revert shift result. induction p as [|c p IH]; intros shift result Hr; [done|].
  cbn [GetVarint_loop]. destruct (Z.leb_spec shift maxshift) as [Hs|]; [|done].
  assert (0 < 2 ^ w) by (apply Z.pow_pos_nonneg; lia).
  assert (forall x, 0 <= x mod 2 ^ w < 2 ^ w) as Hmod by (intros; by apply Z.mod_pos_bound).
  destruct (Z.land (b2z c) 128 =? 0).
  - intros [= <- <-]. split; [by apply lor_range|].
    exists [c]. split; [done|]. rewrite len_cons. len_nils. lia.
  - intros Hl. apply IH in Hl as (Hv & pre & -> & H1 & Hk); [|by apply lor_range].
    split; [done|]. exists (c :: pre). split; [done|]. rewrite len_cons. lia.
Qed.

Lemma GetVarint32_inv p v rest :
  GetVarint32 p = Some (v, rest) ->
  0 <= v < 2 ^ 32 /\ exists pre, p = pre ++ rest /\ 1 <= len pre <= 5.
Proof.
  unfold GetVarint32. rewrite GetVarint32Ptr_fallback. intros H.
  apply GetVarint_loop_inv in H as (Hv & pre & -> & H1 & Hk); [|lia|lia].
  split; [done|]. exists pre. split; [done|]. lia.
Qed.

Lemma GetVarint64_inv p v rest :
  GetVarint64 p = Some (v, rest) ->
  0 <= v < 2 ^ 64 /\ exists pre, p = pre ++ rest /\ 1 <= len pre <= 10.
Proof.
  intros H. apply GetVarint_loop_inv in H as (Hv & pre & -> & H1 & Hk); [|lia|lia].
  split; [done|]. exists pre. split; [done|]. lia.
Qed.

(** VarintLength is the length of the encoding. *)
Lemma VarintLength_loop_spec fuel v n :
  VarintLength_loop fuel v n = n - 1 + len (EncodeVarint64_loop fuel v).
Proof.
  revert v n. induction fuel as [|fuel IH]; intros v n; simpl.
  - rewrite len_cons. len_nils. lia.
  - destruct (128 <=? v); [|rewrite len_cons; len_nils; lia].
    rewrite IH, len_cons. lia.
Qed.

Lemma VarintLength_encode v : VarintLength v = len (EncodeVarint64 v).
Proof. unfold VarintLength. rewrite VarintLength_loop_spec. unfold EncodeVarint64. lia. Qed.

Lemma len_EncodeVarint32_bounds v : 1 <= len (EncodeVarint32 v) <= 5.
Proof.
  unfold EncodeVarint32. repeat case_match; rewrite ?len_cons; len_nils; lia.
Qed.

Lemma len_EncodeVarint64_bounds v : 1 <= len (EncodeVarint64 v) <= 10.
Proof.
  unfold EncodeVarint64.
  assert (forall n u, 1 <= len (EncodeVarint64_loop n u) <= 1 + Z.of_nat n) as H.
  { induction n as [|n IH]; intros u; simpl; [rewrite len_cons; len_nils; lia|].
    destruct (128 <=? u); rewrite len_cons; [|len_nils; lia].
    specialize (IH (Z.shiftr u 7)). lia. }
  specialize (H 9%nat v). lia.
Qed.

(** ** Length-prefixed strings *)

Lemma PutLengthPrefixedSlice_app dst s :
  PutLengthPrefixedSlice dst s = dst ++ PutLengthPrefixedSlice [] s.
Proof. unfold PutLengthPrefixedSlice, PutVarint32. by rewrite app_nil_l, app_assoc. Qed.

Lemma GetLengthPrefixedSlice_Put s rest :
  len s < 2 ^ 32 ->
  GetLengthPrefixedSlice (PutLengthPrefixedSlice [] s ++ rest) = Some (s, rest).
Proof.
  intros Hs. unfold GetLengthPrefixedSlice, PutLengthPrefixedSlice, PutVarint32.
  pose proof (len_nonneg s). rewrite u32_small by lia.
  rewrite app_nil_l, <- app_assoc, GetVarint32_EncodeVarint32 by lia.
  rewrite len_app. pose proof (len_nonneg rest).
  destruct (Z.leb_spec (len s) (len s + len rest)); [|lia].
  by rewrite take_len_app, drop_len_app by (unfold len; lia).
Qed.

Lemma GetLengthPrefixedSlice_inv input s rest :
  GetLengthPrefixedSlice input = Some (s, rest) ->
  exists pre, input = pre ++ s ++ rest /\ 1 <= len pre <= 5.
Proof.
  unfold GetLengthPrefixedSlice.
  destruct (GetVarint32 input) as [[n input']|] eqn:E; [|done].
  apply GetVarint32_inv in E as (Hn & pre & -> & Hp).
  destruct (Z.leb_spec n (len input')); [|done]. intros [= <- <-].
  exists pre. split; [|done]. by rewrite take_drop.
Qed.

(** ** Arrays of fixed32 words: filter offsets, restart points *)

Definition words (ws : list Z) : bytes := concat (map EncodeFixed32 ws).

Lemma len_words ws : len (words ws) = 4 * len ws.
Proof.
  induction ws as [|w ws IH]; [done|]. unfold words in *. cbn [map concat].
  rewrite len_app, len_EncodeFixed32, IH, len_cons. lia.
Qed.

Lemma fold_PutFixed32 ws r : fold_left PutFixed32 ws r = r ++ words ws.
Proof.
  revert r. induction ws as [|w ws IH]; intros r; simpl; [by rewrite app_nil_r|].
  rewrite IH. unfold PutFixed32, words. simpl. by rewrite <- app_assoc.
Qed.

Lemma DecodeFixed32_words pre ws post i w :
  ws !! i = Some w ->
  DecodeFixed32 (drop (length pre + 4 * i) (pre ++ words ws ++ post)) = u32 w.
Proof.
  intros Hi. rewrite drop_app_add. revert i Hi.
  induction ws as [|w0 ws IH]; intros i Hi; [done|]. unfold words in *. cbn [map concat].
  assert (length (EncodeFixed32 w0) = 4%nat) as E4 by (pose proof (len_EncodeFixed32 w0); unfold len in *; lia).
  destruct i as [|i]; simpl in Hi.
  - injection Hi as ->. rewrite Nat.mul_0_r, drop_0, <- app_assoc. apply DecodeFixed32_EncodeFixed32.
  - replace (4 * S i)%nat with (length (EncodeFixed32 w0) + 4 * i)%nat by lia.
    rewrite <- app_assoc, drop_app_add. by apply IH.
Qed.

(** Every number survives its varint encoding: the parsers read back exactly
    the value that was put (32 and 64 bits wide) and stop exactly after it,
    whatever bytes follow. *)
Theorem varint_roundtrip (v32 v64 : Z) (rest : bytes) :
  0 <= v32 < 2 ^ 32 -> 0 <= v64 < 2 ^ 64 ->
  GetVarint32 (PutVarint32 [] v32 ++ rest) = Some (v32, rest) /\
  GetVarint64 (PutVarint64 [] v64 ++ rest) = Some (v64, rest).
Proof.
  intros H32 H64. split.
  - by apply GetVarint32_EncodeVarint32.
  - by apply GetVarint64_EncodeVarint64.
Qed.

Lemma varint_roundtrip_witness :
  GetVarint32 (PutVarint32 [] 300 ++ [Byte.x07]) = Some (300, [Byte.x07]) /\
  GetVarint64 (PutVarint64 [] (2 ^ 64 - 1) ++ [Byte.x07]) = Some (2 ^ 64 - 1, [Byte.x07]).
Proof. apply (varint_roundtrip 300 (2 ^ 64 - 1) [Byte.x07]); lia. Defined.

(** The parsers are memory safe on arbitrary input: when they accept, the
    value fits its type, at least one and at most five (ten) bytes of the
    input are consumed, and what is left is the rest of the input; the
    length-prefixed string that is returned lies inside the input. *)
Theorem varint_parse_bounds (p : bytes) :
  (forall v rest, GetVarint32 p = Some (v, rest) ->
     0 <= v < 2 ^ 32 /\ exists pre, p = pre ++ rest /\ 1 <= len pre <= 5) /\
  (forall v rest, GetVarint64 p = Some (v, rest) ->
     0 <= v < 2 ^ 64 /\ exists pre, p = pre ++ rest /\ 1 <= len pre <= 10) /\
  (forall s rest, GetLengthPrefixedSlice p = Some (s, rest) ->
     exists pre, p = pre ++ s ++ rest /\ 1 <= len pre <= 5).
Proof.
  split; [|split]; intros *.
  - apply GetVarint32_inv.
  - apply GetVarint64_inv.
  - apply GetLengthPrefixedSlice_inv.
Qed.

Lemma varint_parse_bounds_witness :
  GetVarint32 [Byte.xac; Byte.x02; Byte.x55] = Some (300, [Byte.x55]) /\
  (0 <= 300 < 2 ^ 32 /\
   exists pre, [Byte.xac; Byte.x02; Byte.x55] = pre ++ [Byte.x55] /\ 1 <= len pre <= 5).
Proof.
  split; [vm_compute; reflexivity|].
  apply (proj1 (varint_parse_bounds [Byte.xac; Byte.x02; Byte.x55])).
  vm_compute; reflexivity.
Defined.
