(* ===== verification/Comparator.v ===== *)
(** * Slices and comparators (include/pebblesdb/slice.h, comparator.h,
      util/comparator.cc)

    The [Comparator] interface is a record of operations; [ComparatorOk] states
    the documented contract of the interface, and every component above is
    verified against that class.  The bytewise comparator discharges it. *)

From Stdlib Require Import ZArith Lia Bool.
From stdpp Require Import base list.
From S2P Require Import Prelude.

Set Default Goal Selector "!".
Local Open Scope Z_scope.

(** memcmp(a, b, n): the difference of the first two bytes that differ. *)
Fixpoint memcmp (n : nat) (a b : bytes) : Z :=
  match n, a, b with
  | S n, x :: a, y :: b => if b2z x =? b2z y then memcmp n a b else b2z x - b2z y
  | _, _, _ => 0
  end.

(** Slice::compare *)
Definition Slice_compare (a b : bytes) : Z :=
  let min_len := if len a <? len b then len a else len b in
  let r := memcmp (Z.to_nat min_len) a b in
  if r =? 0 then
    if len a <? len b then -1 else if len b <? len a then 1 else r
  else r.

(** Slice::starts_with and operator== *)
Definition Slice_starts_with (s x : bytes) : bool :=
  (len x <=? len s) && (memcmp (length x) s x =? 0).

Definition Slice_eqb (x y : bytes) : bool :=
  (len x =? len y) && (memcmp (length x) x y =? 0).

(** The virtual interface. *)
Record Comparator := {
  Compare : bytes -> bytes -> Z;
  FindShortestSeparator : bytes -> bytes -> bytes;
  FindShortSuccessor : bytes -> bytes;
  KeyNum : bytes -> Z;
}.

(** The loop that counts the common prefix of [start] and [limit]. *)
Fixpoint common_prefix (start limit : bytes) : nat :=
  match start, limit with
  | x :: start, y :: limit =>
      if b2z x =? b2z y then S (common_prefix start limit) else O
  | _, _ => O
  end.

Definition bytewise_FindShortestSeparator (start limit : bytes) : bytes :=
  let min_length := Nat.min (length start) (length limit) in
  let diff_index := common_prefix start limit in
  if (min_length <=? diff_index)%nat then start
  else
    let diff_byte := b2z (nth diff_index start Byte.x00) in
    if (diff_byte <? 255) && (diff_byte + 1 <? b2z (nth diff_index limit Byte.x00))
    then take diff_index start ++ [z2b (diff_byte + 1)]
    else start.

(** The first byte other than 0xff is incremented and the rest dropped; a run
    of 0xffs is left alone.  [key] is scanned from the front, [done_] being
    what was passed. *)
Fixpoint bytewise_successor_loop (done_ key : bytes) : bytes :=
  match key with
  | [] => done_
  | c :: key' =>
      if negb (b2z c =? 255) then done_ ++ [z2b (b2z c + 1)]
      else bytewise_successor_loop (done_ ++ [c]) key'
  end.

Definition bytewise_FindShortSuccessor (key : bytes) : bytes :=
  bytewise_successor_loop [] key.

Definition bytewise_KeyNum (key : bytes) : Z :=
  let buf i := b2z (nth i (take 8 key) Byte.x00) in
  Z.lor (Z.lor (Z.lor (Z.lor (Z.lor (Z.lor (Z.lor
    (Z.shiftl (buf 0%nat) 56) (Z.shiftl (buf 1%nat) 48))
    (Z.shiftl (buf 2%nat) 40)) (Z.shiftl (buf 3%nat) 32))
    (Z.shiftl (buf 4%nat) 24)) (Z.shiftl (buf 5%nat) 16))
    (Z.shiftl (buf 6%nat) 8)) (buf 7%nat).

Definition BytewiseComparator : Comparator := {|
  Compare := Slice_compare;
  FindShortestSeparator := bytewise_FindShortestSeparator;
  FindShortSuccessor := bytewise_FindShortSuccessor;
  KeyNum := bytewise_KeyNum;
|}.

(** ** The contract of the interface

    [dom] is the set of keys the comparator is used on: all strings for a user
    comparator, strings of at least eight bytes for internal keys.  The law
    [cmp_separator_same] is not written in comparator.h, which speaks only of
    [start < limit]; InternalKeyComparator relies on it when two internal keys
    differ in their tags only. *)
Class ComparatorOk (c : Comparator) (dom : bytes -> Prop) : Prop := {
  cmp_eq a b : dom a -> dom b -> (Compare c a b = 0 <-> a = b);
  cmp_anti a b : dom a -> dom b -> (Compare c a b < 0 <-> 0 < Compare c b a);
  cmp_lt_trans a b d : dom a -> dom b -> dom d ->
    Compare c a b < 0 -> Compare c b d < 0 -> Compare c a d < 0;
  cmp_separator a b : dom a -> dom b -> Compare c a b < 0 ->
    dom (FindShortestSeparator c a b) /\
    Compare c a (FindShortestSeparator c a b) <= 0 /\
    Compare c (FindShortestSeparator c a b) b < 0;
  cmp_separator_same a : dom a -> FindShortestSeparator c a a = a;
  cmp_successor a : dom a ->
    dom (FindShortSuccessor c a) /\ Compare c a (FindShortSuccessor c a) <= 0;
  cmp_keynum_range a : 0 <= KeyNum c a < 2 ^ 64;
  cmp_keynum a b : dom a -> dom b -> KeyNum c a < KeyNum c b -> Compare c a b < 0;
}.

(** User comparators accept every string. *)
Definition all_keys (_ : bytes) : Prop := True.

Section ComparatorFacts.
Context {c : Comparator} {dom : bytes -> Prop} `{!ComparatorOk c dom}.

Lemma cmp_refl a : dom a -> Compare c a a = 0.
Proof. intros Ha. by apply cmp_eq. Qed.

Lemma cmp_le_lt_trans a b d : dom a -> dom b -> dom d ->
  Compare c a b <= 0 -> Compare c b d < 0 -> Compare c a d < 0.
Proof.
  intros Ha Hb Hd Hab Hbd. destruct (Z.eq_dec (Compare c a b) 0) as [E|E].
  - apply cmp_eq in E; [|done..]. by subst.
  - apply (cmp_lt_trans a b d); auto with lia.
Qed.

Lemma cmp_lt_le_trans a b d : dom a -> dom b -> dom d ->
  Compare c a b < 0 -> Compare c b d <= 0 -> Compare c a d < 0.
Proof.
  intros Ha Hb Hd Hab Hbd. destruct (Z.eq_dec (Compare c b d) 0) as [E|E].
  - apply cmp_eq in E; [|done..]. by subst.
  - apply (cmp_lt_trans a b d); auto with lia.
Qed.

Lemma cmp_le_trans a b d : dom a -> dom b -> dom d ->
  Compare c a b <= 0 -> Compare c b d <= 0 -> Compare c a d <= 0.
Proof.
  intros Ha Hb Hd Hab Hbd. destruct (Z.eq_dec (Compare c b d) 0) as [E|E].
  - apply cmp_eq in E; [|done..]. by subst.
  - enough (Compare c a d < 0) by lia. apply (cmp_le_lt_trans a b d); auto with lia.
Qed.

Lemma cmp_ge_le a b : dom a -> dom b -> (0 <= Compare c a b <-> Compare c b a <= 0).
Proof.
  intros Ha Hb. pose proof (cmp_anti a b Ha Hb). pose proof (cmp_anti b a Hb Ha). lia.
Qed.

Lemma cmp_gt_lt a b : dom a -> dom b -> (0 < Compare c a b <-> Compare c b a < 0).
Proof. intros Ha Hb. pose proof (cmp_anti b a Hb Ha). lia. Qed.
End ComparatorFacts.

(** ** The bytewise order is lexicographic *)

Fixpoint lex (a b : bytes) : Z :=
  match a, b with
  | [], [] => 0
  | [], _ :: _ => -1
  | _ :: _, [] => 1
  | x :: a, y :: b => if b2z x =? b2z y then lex a b else b2z x - b2z y
  end.

Lemma Slice_compare_lex a b : Slice_compare a b = lex a b.
Proof.
  unfold Slice_compare.
  assert (Z.to_nat (if len a <? len b then len a else len b)
          = Nat.min (length a) (length b)) as ->.
  { unfold len. destruct (Z.ltb_spec (Z.of_nat (length a)) (Z.of_nat (length b))); lia. }
  revert b. induction a as [|x a IH]; intros [|y b]; cbn [lex memcmp length Nat.min]; try done.
  rewrite !len_cons.
  specialize (IH b).
  destruct (Z.eqb_spec (b2z x) (b2z y)) as [E|E].
  - rewrite <- IH. destruct (memcmp _ a b =? 0); [|done].
    destruct (Z.ltb_spec (1 + len a) (1 + len b)), (Z.ltb_spec (len a) (len b)); try lia.
    destruct (Z.ltb_spec (1 + len b) (1 + len a)), (Z.ltb_spec (len b) (len a)); lia.
  - destruct (Z.eqb_spec (b2z x - b2z y) 0); [lia|done].
Qed.

Lemma lex_eq a b : lex a b = 0 <-> a = b.
Proof.
  revert b. induction a as [|x a IH]; intros [|y b]; simpl; try done.
  destruct (Z.eqb_spec (b2z x) (b2z y)) as [E|E].
  - apply b2z_inj in E. subst y. rewrite IH. split; [by intros ->|by intros [= ->]].
  - split; [lia|]. intros [= -> ->]. lia.
Qed.

Lemma lex_anti a b : lex a b < 0 <-> 0 < lex b a.
Proof.
  revert b. induction a as [|x a IH]; intros [|y b]; simpl; try lia.
  rewrite (Z.eqb_sym (b2z y)). destruct (Z.eqb_spec (b2z x) (b2z y)); [apply IH|lia].
Qed.

Lemma lex_lt_trans a b d : lex a b < 0 -> lex b d < 0 -> lex a d < 0.
Proof.
  revert b d. induction a as [|x a IH]; intros [|y b] [|z d]; simpl; try lia.
  destruct (Z.eqb_spec (b2z x) (b2z y)), (Z.eqb_spec (b2z y) (b2z z)),
    (Z.eqb_spec (b2z x) (b2z z)); try lia. apply IH.
Qed.

Lemma lex_app_same p a b : lex (p ++ a) (p ++ b) = lex a b.
Proof. induction p as [|x p IH]; [done|]. simpl. by rewrite Z.eqb_refl. Qed.

Lemma bytewise_separator_lex a b :
  lex a b < 0 ->
  lex a (bytewise_FindShortestSeparator a b) <= 0 /\
  lex (bytewise_FindShortestSeparator a b) b < 0.
Proof.
  intros Hlt. unfold bytewise_FindShortestSeparator.
  assert (forall s, lex s s = 0) as Hrefl by (intros; by apply lex_eq).
  destruct (Nat.leb_spec (Nat.min (length a) (length b)) (common_prefix a b)) as [|Hd].
  { rewrite Hrefl. lia. }
  revert b Hlt Hd. induction a as [|x a IH]; intros [|y b] Hlt Hd; simpl in Hd; try lia.
  cbn [common_prefix lex] in Hlt, Hd |- *. destruct (Z.eqb_spec (b2z x) (b2z y)) as [E|E].
  - specialize (IH b Hlt ltac:(lia)). cbn [nth take app].
    destruct (_ && _); cbn [lex]; rewrite !Z.eqb_refl, ?E, ?Z.eqb_refl; exact IH.
  - assert (lex (x :: a) (x :: a) <= 0 /\ lex (x :: a) (y :: b) < 0) as Hkeep.
    { rewrite Hrefl. simpl. destruct (Z.eqb_spec (b2z x) (b2z y)); lia. }
    cbn [nth take app].
    destruct (Z.ltb_spec (b2z x) 255) as [H255|]; [|exact Hkeep].
    destruct (Z.ltb_spec (b2z x + 1) (b2z y)) as [Hy|]; [|exact Hkeep].
    cbn [andb lex]. pose proof (b2z_range x). rewrite b2z_z2b_small by lia.
    destruct (Z.eqb_spec (b2z x) (b2z x + 1)), (Z.eqb_spec (b2z x + 1) (b2z y)); lia.
Qed.

Lemma bytewise_separator_same a : bytewise_FindShortestSeparator a a = a.
Proof.
  unfold bytewise_FindShortestSeparator.
  assert (common_prefix a a = length a) as ->.
  { induction a as [|x a IH]; [done|]. simpl. by rewrite Z.eqb_refl, IH. }
  by rewrite (proj2 (Nat.leb_le _ _)) by lia.
Qed.

Lemma bytewise_successor_loop_app d k :
  bytewise_successor_loop d k = d ++ bytewise_successor_loop [] k.
Proof.
  revert d. induction k as [|x k IH]; intros d; simpl; [by rewrite app_nil_r|].
  destruct (negb _); [done|]. rewrite IH, (IH [x]). by rewrite <- app_assoc.
Qed.

Lemma bytewise_successor_lex a : lex a (bytewise_FindShortSuccessor a) <= 0.
Proof.
  unfold bytewise_FindShortSuccessor. induction a as [|x a IH]; simpl; [done|].
  pose proof (b2z_range x).
  destruct (Z.eqb_spec (b2z x) 255) as [E|E]; simpl.
  - rewrite bytewise_successor_loop_app. simpl. by rewrite Z.eqb_refl.
  - rewrite b2z_z2b_small by lia. destruct (Z.eqb_spec (b2z x) (b2z x + 1)); lia.
Qed.

(** KeyNum is the number whose big-endian digits are the first eight bytes,
    padded with zeros. *)
Fixpoint be_num (n : nat) (key : bytes) : Z :=
  match n with
  | O => 0
  | S n => b2z (nth 0 key Byte.x00) * 256 ^ Z.of_nat n + be_num n (tl key)
  end.

Lemma be_num_range n key : 0 <= be_num n key < 256 ^ Z.of_nat n.
Proof.
  revert key. induction n as [|n IH]; intros key; [simpl; lia|].
  cbn [be_num]. specialize (IH (tl key)). pose proof (b2z_range (nth 0 key Byte.x00)).
  replace (Z.of_nat (S n)) with (Z.succ (Z.of_nat n)) by lia.
  rewrite Z.pow_succ_r by lia. nia.
Qed.

Lemma lor_mul_add k b w : 0 <= w -> 0 <= b < 2 ^ w -> Z.lor (k * 2 ^ w) b = k * 2 ^ w + b.
Proof.
  intros Hw Hb. rewrite <- Z.shiftl_mul_pow2, Z.lor_comm, lor_add_shift by lia.
  rewrite Z.shiftl_mul_pow2 by lia. lia.
Qed.

(** One more byte of a big-endian number. *)
Lemma lor_next_byte k b w' w : w' = 8 + w -> 0 <= w -> 0 <= b < 256 ->
  Z.lor (k * 2 ^ w') (Z.shiftl b w) = (k * 256 + b) * 2 ^ w.
Proof.
  intros -> Hw Hb. rewrite Z.shiftl_mul_pow2 by lia.
  assert (0 < 2 ^ w) by (apply Z.pow_pos_nonneg; lia).
  rewrite lor_mul_add; rewrite ?Z.pow_add_r; change (2 ^ 8) with 256; nia.
Qed.

Lemma bytewise_KeyNum_be key : bytewise_KeyNum key = be_num 8 key.
Proof.
  unfold bytewise_KeyNum.
  set (B i := b2z (nth i (take 8 key) Byte.x00)). cbv zeta.
  assert (forall i, 0 <= B i < 256) as HB by (intros; apply b2z_range).
  assert (be_num 8 key = ((((((B 0%nat * 256 + B 1%nat) * 256 + B 2%nat) * 256 + B 3%nat)
    * 256 + B 4%nat) * 256 + B 5%nat) * 256 + B 6%nat) * 256 + B 7%nat) as ->.
  { unfold B. do 8 (destruct key as [|? key]; [simpl; lia|]). simpl. lia. }
  rewrite (Z.shiftl_mul_pow2 _ 56) by lia.
  rewrite (lor_next_byte _ _ 56 48), (lor_next_byte _ _ 48 40), (lor_next_byte _ _ 40 32),
    (lor_next_byte _ _ 32 24), (lor_next_byte _ _ 24 16), (lor_next_byte _ _ 16 8)
    by (done || apply HB).
  rewrite lor_mul_add by (done || apply HB). done.
Qed.

Lemma be_num_lex n a b : be_num n a < be_num n b -> lex a b < 0.
Proof.
  revert a b. induction n as [|n IH]; intros a b; cbn [be_num]; [lia|].
  pose proof (be_num_range n (tl a)). pose proof (be_num_range n (tl b)).
  pose proof (b2z_range (nth 0 a Byte.x00)). pose proof (b2z_range (nth 0 b Byte.x00)).
  set (P := 256 ^ Z.of_nat n) in *. intros Hlt.
  destruct b as [|y b].
  { simpl in *. replace (b2z Byte.x00) with 0 in * by done.
    assert (be_num n [] = 0) as Hz.
    { clear. induction n as [|n IH]; [done|]. cbn [be_num tl nth]. by rewrite IH. }
    rewrite Hz in Hlt. nia. }
  destruct a as [|x a]; [simpl; lia|]. simpl in *.
  destruct (Z.eqb_spec (b2z x) (b2z y)) as [E|E]; [apply IH; nia|]. nia.
Qed.

#[export] Instance BytewiseComparator_ok : ComparatorOk BytewiseComparator all_keys.
Proof.
  split; cbn [BytewiseComparator Compare FindShortestSeparator FindShortSuccessor KeyNum].
  - intros a b _ _. rewrite Slice_compare_lex. apply lex_eq.
  - intros a b _ _. rewrite !Slice_compare_lex. apply lex_anti.
  - intros a b d _ _ _. rewrite !Slice_compare_lex. apply lex_lt_trans.
  - intros a b _ _. rewrite !Slice_compare_lex. intros H.
    split; [done|]. by apply bytewise_separator_lex.
  - intros a _. apply bytewise_separator_same.
  - intros a _. rewrite Slice_compare_lex. split; [done|]. apply bytewise_successor_lex.
  - intros a. rewrite bytewise_KeyNum_be. pose proof (be_num_range 8 a). lia.
  - intros a b _ _. rewrite !bytewise_KeyNum_be, Slice_compare_lex. apply be_num_lex.
Qed.

(** Slice equality and prefixes mean what they say. *)
Lemma memcmp_app_eq x s : memcmp (length x) (x ++ s) x = 0.
Proof. induction x as [|c x IH]; [done|]. simpl. by rewrite Z.eqb_refl. Qed.

Lemma memcmp_0_prefix x s :
  (length x <= length s)%nat -> memcmp (length x) s x = 0 -> take (length x) s = x.
Proof.
  revert s. induction x as [|c x IH]; intros [|d s] Hl; simpl in *; try done; [lia|].
  destruct (Z.eqb_spec (b2z d) (b2z c)) as [E|E]; [|lia].
  intros H. apply b2z_inj in E as ->. f_equal. apply IH; [lia|done].
Qed.

Lemma Slice_starts_with_spec s x :
  Slice_starts_with s x = true <-> exists t, s = x ++ t.
Proof.
  unfold Slice_starts_with. rewrite andb_true_iff, Z.leb_le, Z.eqb_eq. split.
  - intros [Hl Hm]. exists (drop (length x) s).
    apply memcmp_0_prefix in Hm; [|unfold len in Hl; lia].
    rewrite <- Hm at 1. by rewrite take_drop.
  - intros [t ->]. split; [len_solve|]. apply memcmp_app_eq.
Qed.

Lemma Slice_eqb_spec x y : Slice_eqb x y = true <-> x = y.
Proof.
  unfold Slice_eqb. rewrite andb_true_iff, !Z.eqb_eq. split.
  - intros [Hl Hm]. unfold len in Hl. apply Nat2Z.inj in Hl.
    rewrite Hl in Hm. apply memcmp_0_prefix in Hm; [|lia].
    rewrite <- Hl, firstn_all in Hm. done.
  - intros ->. split; [done|]. rewrite <- (app_nil_r y) at 2. apply memcmp_app_eq.
Qed.

(** The bytewise comparator fulfils the Comparator contract: Compare is a
    total order whose equality is equality of strings, FindShortestSeparator
    of [a < b] lands in [a, b), FindShortSuccessor lands at or after its key,
    and KeyNum (which the memtable's skip list compares first) is a 64-bit
    number that never disagrees with Compare. *)
Theorem bytewise_comparator_contract (a b d : bytes) :
  let c := BytewiseComparator in
  (Compare c a b = 0 <-> a = b) /\
  (Compare c a b < 0 <-> 0 < Compare c b a) /\
  (Compare c a b < 0 -> Compare c b d < 0 -> Compare c a d < 0) /\
  (Compare c a b < 0 ->
     Compare c a (FindShortestSeparator c a b) <= 0 /\
     Compare c (FindShortestSeparator c a b) b < 0) /\
  Compare c a (FindShortSuccessor c a) <= 0 /\
  0 <= KeyNum c a < 2 ^ 64 /\
  (KeyNum c a < KeyNum c b -> Compare c a b < 0).
Proof.
  cbv zeta. repeat match goal with |- _ /\ _ => split end.
  - by apply (cmp_eq (dom := all_keys)).
  - by apply (cmp_anti (dom := all_keys)).
  - by apply (cmp_lt_trans (dom := all_keys)).
  - intros H. by apply (cmp_separator (dom := all_keys)).
  - by apply (cmp_successor (dom := all_keys)).
  - apply (cmp_keynum_range (dom := all_keys)).
  - by apply (cmp_keynum_range (dom := all_keys)).
  - by apply (cmp_keynum (dom := all_keys)).
Qed.

Lemma bytewise_comparator_contract_witness :
  let c := BytewiseComparator in
  let a := [Byte.x61; Byte.x62; Byte.x63] in
  let b := [Byte.x61; Byte.x78] in
  FindShortestSeparator c a b = [Byte.x61; Byte.x63] /\
  Compare c a (FindShortestSeparator c a b) <= 0 /\
  Compare c (FindShortestSeparator c a b) b < 0.
Proof.
  cbv zeta. split; [vm_compute; reflexivity|].
  destruct (bytewise_comparator_contract [Byte.x61; Byte.x62; Byte.x63] [Byte.x61; Byte.x78] [])
    as (_ & _ & _ & H & _).
  apply H. vm_compute. reflexivity.
Defined.
