(* ===== verification/DbFormat.v ===== *)
(** * Internal keys (db/dbformat.h, db/dbformat.cc)

    An internal key is a user key followed by eight bytes that pack a 56-bit
    sequence number and a value type.  The file models the packing, the
    comparator that orders internal keys (user key ascending, then sequence
    number descending), the separators it computes, and LookupKey. *)

From Stdlib Require Import ZArith Lia Bool.
From stdpp Require Import base list.
From S2P Require Import Prelude Coding Comparator.

Set Default Goal Selector "!".
Local Open Scope Z_scope.

(** ** namespace config *)
Definition kNumLevels : Z := 7.
Definition kL0_CompactionTrigger : Z := 4.
Definition kL0_GuardCompactionTrigger : Z := 2.
Definition kMaxFilesPerGuardSentinel : Z := 2.
Definition kMaxMemCompactLevel : Z := 2.

(** ** ValueType: the enum's values; a cast from a byte may hold any other. *)
Definition kTypeDeletion : Z := 0.
Definition kTypeValue : Z := 1.
Definition kTypeGuard : Z := 2.
Definition kValueTypeForSeek : Z := kTypeValue.

Definition kMaxSequenceNumber : Z := Z.shiftl 1 56 - 1.

Record ParsedInternalKey := {
  user_key : bytes;
  sequence : Z;
  type_ : Z;
}.

(** ParsedInternalKey(): all fields zero. *)
Definition ParsedInternalKey_default : ParsedInternalKey :=
  {| user_key := []; sequence := 0; type_ := 0 |}.

Definition InternalKeyEncodingLength (key : ParsedInternalKey) : Z :=
  len (user_key key) + 8.

Definition PackSequenceAndType (seq t : Z) : Z :=
  Z.lor (u64 (Z.shiftl seq 8)) t.

Definition AppendInternalKey (result : bytes) (key : ParsedInternalKey) : bytes :=
  PutFixed64 (result ++ user_key key) (PackSequenceAndType (sequence key) (type_ key)).

(** InternalKey(user_key, s, t).Encode() *)
Definition InternalKey (u : bytes) (s t : Z) : bytes :=
  AppendInternalKey [] {| user_key := u; sequence := s; type_ := t |}.

Definition ExtractUserKey (internal_key : bytes) : bytes :=
  take (Z.to_nat (len internal_key - 8)) internal_key.

(** The eight bytes at [data() + size() - 8]. *)
Definition ExtractTag (internal_key : bytes) : Z :=
  DecodeFixed64 (drop (Z.to_nat (len internal_key - 8)) internal_key).

Definition ExtractValueType (internal_key : bytes) : Z :=
  Z.land (ExtractTag internal_key) 255.

(** The result parameter keeps its previous contents when the key is too
    short, and is filled in (also when [false] is returned) otherwise. *)
Definition ParseInternalKey (internal_key : bytes) (result : ParsedInternalKey)
  : bool * ParsedInternalKey :=
  let n := len internal_key in
  if n <? 8 then (false, result)
  else
    let num := ExtractTag internal_key in
    let c := Z.land num 255 in
    (c <=? kTypeValue,
     {| user_key := take (Z.to_nat (n - 8)) internal_key;
        sequence := Z.shiftr num 8;
        type_ := c |}).

(** ** InternalKeyComparator *)
Section InternalKeyComparator.
Variable user_comparator : Comparator.

Definition ikc_Compare (akey bkey : bytes) : Z :=
  let r := Compare user_comparator (ExtractUserKey akey) (ExtractUserKey bkey) in
  if r =? 0 then
    let anum := ExtractTag akey in
    let bnum := ExtractTag bkey in
    if bnum <? anum then -1 else if anum <? bnum then 1 else r
  else r.

Definition ikc_FindShortestSeparator (start limit : bytes) : bytes :=
  let user_start := ExtractUserKey start in
  let user_limit := ExtractUserKey limit in
  let tmp := FindShortestSeparator user_comparator user_start user_limit in
  if (len tmp <? len user_start) && (Compare user_comparator user_start tmp <? 0) then
    PutFixed64 tmp (PackSequenceAndType kMaxSequenceNumber kValueTypeForSeek)
  else start.

Definition ikc_FindShortSuccessor (key : bytes) : bytes :=
  let ukey := ExtractUserKey key in
  let tmp := FindShortSuccessor user_comparator ukey in
  if (len tmp <? len ukey) && (Compare user_comparator ukey tmp <? 0) then
    PutFixed64 tmp (PackSequenceAndType kMaxSequenceNumber kValueTypeForSeek)
  else key.

(** KeyNum is not overridden: Comparator::KeyNum returns 0. *)
Definition InternalKeyComparator : Comparator := {|
  Compare := ikc_Compare;
  FindShortestSeparator := ikc_FindShortestSeparator;
  FindShortSuccessor := ikc_FindShortSuccessor;
  KeyNum := fun _ => 0;
|}.
End InternalKeyComparator.

(** ** LookupKey: [start_ .. end_) and the offset [kstart_ - start_] *)
Record LookupKey := {
  lk_start : bytes;
  lk_kstart : nat;
}.

Definition mkLookupKey (ukey : bytes) (s : Z) : LookupKey :=
  let klen := EncodeVarint32 (u32 (len ukey + 8)) in
  {| lk_start := klen ++ ukey ++ EncodeFixed64 (PackSequenceAndType s kValueTypeForSeek);
     lk_kstart := length klen |}.

Definition memtable_key (k : LookupKey) : bytes := lk_start k.
Definition internal_key (k : LookupKey) : bytes := drop (lk_kstart k) (lk_start k).
Definition lk_user_key (k : LookupKey) : bytes :=
  take (Z.to_nat (len (lk_start k) - Z.of_nat (lk_kstart k) - 8)) (internal_key k).

(** Internal keys proper: at least the eight tag bytes. *)
Definition is_ikey (k : bytes) : Prop := 8 <= len k.

(** A sequence number and a type that PackSequenceAndType accepts (its
    assertions). *)
Definition tag_ok (s t : Z) : Prop :=
  0 <= s <= kMaxSequenceNumber /\ 0 <= t <= kValueTypeForSeek.

(** ** Packing *)

Lemma PackSequenceAndType_eq s t :
  0 <= s <= kMaxSequenceNumber -> 0 <= t < 256 -> PackSequenceAndType s t = 256 * s + t.
Proof.
  intros Hs Ht. unfold PackSequenceAndType, kMaxSequenceNumber in *.
  change (Z.shiftl 1 56 - 1) with (2 ^ 56 - 1) in Hs.
  rewrite u64_small by (rewrite Z.shiftl_mul_pow2; lia).
  rewrite Z.lor_comm, lor_add_shift by lia. lia.
Qed.

Lemma pack_range s t :
  0 <= s <= kMaxSequenceNumber -> 0 <= t < 256 -> 0 <= 256 * s + t < 2 ^ 64.
Proof. unfold kMaxSequenceNumber. change (Z.shiftl 1 56 - 1) with (2 ^ 56 - 1). lia. Qed.

(** Every internal key is a user key followed by its tag. *)
Lemma ExtractUserKey_app u tag : length tag = 8%nat -> ExtractUserKey (u ++ tag) = u.
Proof. intros Ht. unfold ExtractUserKey. apply take_len_app. len_solve. Qed.

Lemma ExtractTag_app u v : ExtractTag (u ++ EncodeFixed64 v) = u64 v.
Proof.
  unfold ExtractTag. rewrite drop_len_app.
  - rewrite <- (app_nil_r (EncodeFixed64 v)). apply DecodeFixed64_EncodeFixed64.
  - rewrite len_app, len_EncodeFixed64. unfold len. lia.
Qed.

Lemma ikey_split k : is_ikey k -> k = ExtractUserKey k ++ EncodeFixed64 (ExtractTag k).
Proof.
  unfold is_ikey. intros Hk. unfold ExtractUserKey, ExtractTag.
  rewrite EncodeFixed64_DecodeFixed64; [by rewrite take_drop|].
  rewrite length_drop. unfold len in *. lia.
Qed.

Lemma len_ExtractUserKey k : is_ikey k -> len (ExtractUserKey k) = len k - 8.
Proof. unfold is_ikey, ExtractUserKey. intros. len_solve. Qed.

Lemma ExtractTag_range k : 0 <= ExtractTag k < 2 ^ 64.
Proof. apply DecodeFixed64_range. Qed.

Lemma InternalKey_eq u s t :
  0 <= s <= kMaxSequenceNumber -> 0 <= t < 256 ->
  InternalKey u s t = u ++ EncodeFixed64 (256 * s + t).
Proof.
  intros Hs Ht. unfold InternalKey, AppendInternalKey, PutFixed64. simpl.
  by rewrite PackSequenceAndType_eq.
Qed.

Lemma is_ikey_app u v : is_ikey (u ++ EncodeFixed64 v).
Proof. unfold is_ikey. len_solve. Qed.

Lemma is_ikey_InternalKey u s t : is_ikey (InternalKey u s t).
Proof. apply is_ikey_app. Qed.
#[export] Hint Resolve is_ikey_app is_ikey_InternalKey : pebbles.

Lemma ExtractUserKey_InternalKey u s t : ExtractUserKey (InternalKey u s t) = u.
Proof. by apply ExtractUserKey_app. Qed.

Lemma ExtractTag_InternalKey u s t :
  0 <= s <= kMaxSequenceNumber -> 0 <= t < 256 ->
  ExtractTag (InternalKey u s t) = 256 * s + t.
Proof.
  intros Hs Ht. rewrite InternalKey_eq, ExtractTag_app by done.
  apply u64_small. by apply pack_range.
Qed.

(** ** The order of internal keys *)
Section InternalOrder.
Context {ucmp : Comparator} `{!ComparatorOk ucmp all_keys}.
Let icmp := InternalKeyComparator ucmp.

Lemma ikc_Compare_user a b :
  Compare ucmp (ExtractUserKey a) (ExtractUserKey b) <> 0 ->
  Compare icmp a b = Compare ucmp (ExtractUserKey a) (ExtractUserKey b).
Proof.
  intros H. cbn [icmp InternalKeyComparator Compare]. unfold ikc_Compare. cbv zeta.
  destruct (Z.eqb_spec (Compare ucmp (ExtractUserKey a) (ExtractUserKey b)) 0); [lia|done].
Qed.

Lemma ikc_Compare_same a b :
  ExtractUserKey a = ExtractUserKey b ->
  Compare icmp a b = Z.sgn (ExtractTag b - ExtractTag a).
Proof.
  intros E. cbn [icmp InternalKeyComparator Compare]. unfold ikc_Compare. cbv zeta.
  rewrite E, (cmp_refl (dom := all_keys)) by done.
  change (0 =? 0) with true. cbv iota.
  destruct (Z.ltb_spec (ExtractTag b) (ExtractTag a)), (Z.ltb_spec (ExtractTag a) (ExtractTag b)); lia.
Qed.

(** The case analysis every order proof below starts from. *)
Lemma ikc_Compare_cases a b :
  (Compare ucmp (ExtractUserKey a) (ExtractUserKey b) <> 0 /\
   Compare icmp a b = Compare ucmp (ExtractUserKey a) (ExtractUserKey b)) \/
  (ExtractUserKey a = ExtractUserKey b /\
   Compare icmp a b = Z.sgn (ExtractTag b - ExtractTag a)).
Proof.
  destruct (Z.eq_dec (Compare ucmp (ExtractUserKey a) (ExtractUserKey b)) 0) as [E|E].
  - right. apply (cmp_eq (dom := all_keys)) in E; [|done..].
    split; [done|]. by apply ikc_Compare_same.
  - left. split; [done|]. by apply ikc_Compare_user.
Qed.

(** A strictly smaller user key decides the comparison. *)
Lemma ikc_lt_of_user a b :
  Compare ucmp (ExtractUserKey a) (ExtractUserKey b) < 0 -> Compare icmp a b < 0.
Proof. intros H. rewrite ikc_Compare_user; lia. Qed.

(** The converse: the user keys of ordered internal keys are ordered. *)
Lemma ikc_user_le a b :
  Compare icmp a b <= 0 -> Compare ucmp (ExtractUserKey a) (ExtractUserKey b) <= 0.
Proof.
  destruct (ikc_Compare_cases a b) as [[? ->]|[-> _]]; [done|].
  rewrite (cmp_refl (dom := all_keys)); [lia|done].
Qed.

Lemma ikc_eq a b : is_ikey a -> is_ikey b -> (Compare icmp a b = 0 <-> a = b).
Proof.
  intros Ha Hb. split.
  - destruct (ikc_Compare_cases a b) as [[? ->]|[Hu ->]]; [done|]. intros H.
    assert (ExtractTag a = ExtractTag b) as Ht by lia.
    by rewrite (ikey_split a), (ikey_split b), Hu, Ht by done.
  - intros ->. rewrite ikc_Compare_same by done. lia.
Qed.

Lemma ikc_anti a b : Compare icmp a b < 0 <-> 0 < Compare icmp b a.
Proof.
  pose proof (cmp_anti (dom := all_keys) (ExtractUserKey a) (ExtractUserKey b) I I).
  pose proof (cmp_anti (dom := all_keys) (ExtractUserKey b) (ExtractUserKey a) I I).
  destruct (ikc_Compare_cases a b) as [[Hne ->]|[Hu ->]];
    destruct (ikc_Compare_cases b a) as [[Hne' ->]|[Hu' ->]]; try lia.
  - by rewrite Hu', (cmp_refl (dom := all_keys)) in Hne by done.
  - by rewrite Hu, (cmp_refl (dom := all_keys)) in Hne' by done.
Qed.

Lemma ikc_lt_trans a b d :
  Compare icmp a b < 0 -> Compare icmp b d < 0 -> Compare icmp a d < 0.
Proof.
  pose proof (fun P Q => cmp_lt_trans (dom := all_keys) (ExtractUserKey a) (ExtractUserKey b)
    (ExtractUserKey d) I I I P Q) as Ht.
  destruct (ikc_Compare_cases a b) as [[? ->]|[Hab ->]];
    destruct (ikc_Compare_cases b d) as [[? ->]|[Hbd ->]]; intros H1 H2.
  - apply ikc_lt_of_user. auto.
  - apply ikc_lt_of_user. by rewrite <- Hbd.
  - apply ikc_lt_of_user. by rewrite Hab.
  - rewrite ikc_Compare_same by congruence. lia.
Qed.

(** Appending the largest tag to a user key gives the first internal key of
    that user key. *)
Lemma shortened_key tmp :
  let k := PutFixed64 tmp (PackSequenceAndType kMaxSequenceNumber kValueTypeForSeek) in
  is_ikey k /\ ExtractUserKey k = tmp.
Proof.
  cbv zeta. unfold PutFixed64. split; [apply is_ikey_app|]. by apply ExtractUserKey_app.
Qed.

Lemma ikc_separator a b :
  is_ikey a -> is_ikey b -> Compare icmp a b < 0 ->
  let s := FindShortestSeparator icmp a b in
  is_ikey s /\ Compare icmp a s <= 0 /\ Compare icmp s b < 0.
Proof.
  intros Ha Hb Hlt. cbv zeta. cbn [icmp InternalKeyComparator FindShortestSeparator].
  unfold ikc_FindShortestSeparator.
  set (tmp := FindShortestSeparator ucmp (ExtractUserKey a) (ExtractUserKey b)).
  assert (is_ikey a /\ Compare icmp a a <= 0 /\ Compare icmp a b < 0) as Hkeep.
  { split; [done|]. split; [|done]. rewrite ikc_Compare_same by done. lia. }
  destruct (Z.ltb_spec (len tmp) (len (ExtractUserKey a))) as [Hlen|]; [|exact Hkeep].
  destruct (Z.ltb_spec (Compare ucmp (ExtractUserKey a) tmp) 0) as [Hcmp|]; [|exact Hkeep].
  cbn [andb]. destruct (shortened_key tmp) as [Hik Huk]. cbv zeta in Hik, Huk.
  set (k := PutFixed64 _ _) in *. split; [done|]. split.
  - enough (Compare icmp a k < 0) by (unfold icmp in *; lia).
    apply ikc_lt_of_user. by rewrite Huk.
  - apply ikc_lt_of_user. rewrite Huk.
    assert (Compare ucmp (ExtractUserKey a) (ExtractUserKey b) <= 0) as Hle
      by (apply ikc_user_le; unfold icmp in *; lia).
    destruct (Z.eq_dec (Compare ucmp (ExtractUserKey a) (ExtractUserKey b)) 0) as [E|E].
    + apply (cmp_eq (dom := all_keys)) in E; [|done..].
      unfold tmp in Hlen. rewrite <- E, (cmp_separator_same (dom := all_keys)) in Hlen by done. lia.
    + apply (cmp_separator (dom := all_keys)); [done..|lia].
Qed.

Lemma ikc_separator_same a : FindShortestSeparator icmp a a = a.
Proof.
  cbn [icmp InternalKeyComparator FindShortestSeparator]. unfold ikc_FindShortestSeparator.
  rewrite (cmp_separator_same (dom := all_keys)) by done. by rewrite Z.ltb_irrefl.
Qed.

Lemma ikc_successor a :
  is_ikey a -> is_ikey (FindShortSuccessor icmp a) /\ Compare icmp a (FindShortSuccessor icmp a) <= 0.
Proof.
  intros Ha. cbn [icmp InternalKeyComparator FindShortSuccessor].
  unfold ikc_FindShortSuccessor. set (tmp := FindShortSuccessor ucmp (ExtractUserKey a)).
  assert (is_ikey a /\ Compare icmp a a <= 0) as Hkeep.
  { split; [done|]. rewrite ikc_Compare_same by done. lia. }
  destruct (Z.ltb_spec (len tmp) (len (ExtractUserKey a))); [|exact Hkeep].
  destruct (Z.ltb_spec (Compare ucmp (ExtractUserKey a) tmp) 0); [|exact Hkeep].
  cbn [andb]. destruct (shortened_key tmp) as [Hik Huk]. cbv zeta in Hik, Huk.
  set (k := PutFixed64 _ _) in *. split; [done|].
  enough (Compare icmp a k < 0) by (unfold icmp in *; lia).
  apply ikc_lt_of_user. by rewrite Huk.
Qed.

(** The internal comparator fulfils the interface's contract whenever the user
    comparator does. *)
#[export] Instance InternalKeyComparator_ok : ComparatorOk icmp is_ikey.
Proof.
  split.
  - apply ikc_eq.
  - intros a b _ _. apply ikc_anti.
  - intros a b d _ _ _. apply ikc_lt_trans.
  - apply ikc_separator.
  - intros a _. apply ikc_separator_same.
  - apply ikc_successor.
  - simpl. lia.
  - simpl. lia.
Qed.

(** Keys of one user key are ordered by decreasing sequence number. *)
Lemma ikc_Compare_InternalKey u s t s' t' :
  tag_ok s t -> tag_ok s' t' ->
  Compare icmp (InternalKey u s t) (InternalKey u s' t') = Z.sgn (256 * s' + t' - (256 * s + t)).
Proof.
  unfold tag_ok, kValueTypeForSeek, kTypeValue. intros [Hs Ht] [Hs' Ht'].
  rewrite ikc_Compare_same by (by rewrite !ExtractUserKey_InternalKey).
  by rewrite !ExtractTag_InternalKey by lia.
Qed.
End InternalOrder.

(** ** LookupKey *)

Lemma internal_key_mkLookupKey u s :
  0 <= s <= kMaxSequenceNumber ->
  internal_key (mkLookupKey u s) = InternalKey u s kValueTypeForSeek.
Proof.
  intros Hs. unfold internal_key, mkLookupKey. simpl.
  rewrite drop_len_app by done.
  rewrite InternalKey_eq, PackSequenceAndType_eq by (done || unfold kValueTypeForSeek, kTypeValue; lia).
  done.
Qed.

Lemma lk_user_key_mkLookupKey u s : lk_user_key (mkLookupKey u s) = u.
Proof.
  unfold lk_user_key, internal_key, mkLookupKey. simpl.
  rewrite drop_len_app by done. apply take_len_app. len_solve.
Qed.

Lemma ParseInternalKey_InternalKey u s t r :
  0 <= s <= kMaxSequenceNumber -> 0 <= t < 256 ->
  ParseInternalKey (InternalKey u s t) r
  = (t <=? kTypeValue, {| user_key := u; sequence := s; type_ := t |}).
Proof.
  intros Hs Ht. unfold ParseInternalKey.
  pose proof (is_ikey_InternalKey u s t) as Hik. unfold is_ikey in Hik.
  destruct (Z.ltb_spec (len (InternalKey u s t)) 8); [lia|].
  rewrite ExtractTag_InternalKey by done.
  change (take _ (InternalKey u s t)) with (ExtractUserKey (InternalKey u s t)).
  rewrite ExtractUserKey_InternalKey.
  change 255 with (Z.ones 8). rewrite Z.land_ones, Z.shiftr_div_pow2 by lia.
  change (2 ^ 8) with 256.
  replace ((256 * s + t) mod 256) with t by (Z.div_mod_to_equations; lia).
  replace ((256 * s + t) / 256) with s by (Z.div_mod_to_equations; lia).
  done.
Qed.

Lemma ExtractValueType_InternalKey u s t :
  0 <= s <= kMaxSequenceNumber -> 0 <= t < 256 -> ExtractValueType (InternalKey u s t) = t.
Proof.
  intros Hs Ht. unfold ExtractValueType. rewrite ExtractTag_InternalKey by done.
  change 255 with (Z.ones 8). rewrite Z.land_ones by lia. change (2 ^ 8) with 256. Z.div_mod_to_equations; lia.
Qed.

(** An internal key parses back to exactly the user key, sequence number and
    type it was built from; a type above kTypeValue (a guard tag, or garbage)
    is reported as invalid although the fields are still filled in. *)
Theorem internal_key_roundtrip (u : bytes) (s t : Z) (r : ParsedInternalKey) :
  0 <= s <= kMaxSequenceNumber -> 0 <= t < 256 ->
  ParseInternalKey (InternalKey u s t) r
  = (t <=? kTypeValue, {| user_key := u; sequence := s; type_ := t |}).
Proof. apply ParseInternalKey_InternalKey. Qed.

Lemma internal_key_roundtrip_witness :
  ParseInternalKey (InternalKey [Byte.x61] 77 kTypeGuard) ParsedInternalKey_default
  = (false, {| user_key := [Byte.x61]; sequence := 77; type_ := kTypeGuard |}).
Proof.
  apply (internal_key_roundtrip [Byte.x61] 77 kTypeGuard ParsedInternalKey_default); zcompute.
Defined.

(** C24. The internal key comparator is a lawful comparator on internal keys for
    every lawful user comparator: a total order with the separator and
    successor guarantees the index blocks rely on. *)
Theorem internal_comparator_contract (ucmp : Comparator) :
  ComparatorOk ucmp all_keys -> ComparatorOk (InternalKeyComparator ucmp) is_ikey.
Proof. intros H. apply InternalKeyComparator_ok. Qed.

Lemma internal_comparator_contract_witness :
  ComparatorOk (InternalKeyComparator BytewiseComparator) is_ikey.
Proof. apply (internal_comparator_contract BytewiseComparator). apply BytewiseComparator_ok. Defined.

(** A LookupKey for user key [u] at snapshot [s] separates the entries of
    [u]: its internal key sorts at or before an entry of [u] exactly when the
    entry's sequence number is at most [s], and strictly before every entry
    of a larger user key.  A seek to it therefore lands on the newest entry
    visible at the snapshot.  Its memtable form is the length-prefixed
    internal key. *)
Theorem lookup_key_seeks_snapshot (ucmp : Comparator) (u u' : bytes) (s s' t : Z) :
  ComparatorOk ucmp all_keys -> tag_ok s kValueTypeForSeek -> tag_ok s' t ->
  let k := internal_key (mkLookupKey u s) in
  (Compare (InternalKeyComparator ucmp) k (InternalKey u s' t) <= 0 <-> s' <= s) /\
  (Compare ucmp u u' < 0 -> Compare (InternalKeyComparator ucmp) k (InternalKey u' s' t) < 0) /\
  (Compare ucmp u' u < 0 -> 0 < Compare (InternalKeyComparator ucmp) k (InternalKey u' s' t)) /\
  lk_user_key (mkLookupKey u s) = u /\
  (len u + 8 < 2 ^ 32 -> GetLengthPrefixedSlice (memtable_key (mkLookupKey u s)) = Some (k, [])).
Proof.
  intros Hok Hs Hs' k. unfold k. pose proof Hs as [Hs1 _].
  split; [|split; [|split; [|split]]].
  - rewrite internal_key_mkLookupKey, ikc_Compare_InternalKey by done.
    destruct Hs' as [? Ht]. unfold kValueTypeForSeek, kTypeValue in *. lia.
  - intros Hu. rewrite internal_key_mkLookupKey by done.
    apply ikc_lt_of_user. by rewrite !ExtractUserKey_InternalKey.
  - intros Hu. rewrite internal_key_mkLookupKey by done.
    apply ikc_anti, ikc_lt_of_user. by rewrite !ExtractUserKey_InternalKey.
  - apply lk_user_key_mkLookupKey.
  - intros Hlen. rewrite <- (app_nil_r (memtable_key _)).
    rewrite <- (GetLengthPrefixedSlice_Put _ []).
    + f_equal. f_equal. unfold PutLengthPrefixedSlice, PutVarint32, memtable_key, mkLookupKey.
      unfold internal_key, mkLookupKey. simpl. rewrite drop_len_app by done.
      rewrite len_app, len_EncodeFixed64. done.
    + rewrite internal_key_mkLookupKey by done. unfold InternalKey, AppendInternalKey, PutFixed64.
      simpl. rewrite len_app, len_EncodeFixed64. lia.
Qed.

Lemma lookup_key_seeks_snapshot_witness :
  let k := internal_key (mkLookupKey [Byte.x61] 7) in
  let icmp := InternalKeyComparator BytewiseComparator in
  (Compare icmp k (InternalKey [Byte.x61] 5 kTypeValue) <= 0 <-> 5 <= 7) /\
  Compare icmp k (InternalKey [Byte.x62] 5 kTypeValue) < 0.
Proof.
  cbv zeta.
  destruct (lookup_key_seeks_snapshot BytewiseComparator [Byte.x61] [Byte.x62] 7 5 kTypeValue)
    as (H1 & H2 & _).
  - apply BytewiseComparator_ok.
  - unfold tag_ok. zcompute.
  - unfold tag_ok. zcompute.
  - split; [exact H1|]. apply H2. vm_compute. reflexivity.
Defined.
