(* ===== verification/Crc32c.v ===== *)
(** * CRC32C (util/crc32c.h, util/crc32c.cc)

    The software implementation the build uses (choose_crc32c always returns
    crc32_software): slicing-by-8 over table lookups, with the leading bytes
    up to a four-byte boundary and the trailing bytes done one at a time.  It
    is proved equal to the bit-serial definition of the checksum, whatever
    the alignment of the buffer. *)

From Stdlib Require Import ZArith Lia Bool Btauto.
From stdpp Require Import base list.
From S2P Require Import Prelude Crc32cTables.

Set Default Goal Selector "!".
Local Open Scope Z_scope.

(** ** crc32c.cc *)

Definition CRC_FFs : Z := 0xFFFFFFFF.

Definition crc_lookup (t : list Z) (i : Z) : Z := nth (Z.to_nat i) t 0.

(** [crc = crc_tableil8_o32[(crc ^ *p_buf++) & 0xFF] ^ (crc >> 8)], [n] times. *)
Fixpoint crc_bytes_loop (n : nat) (crc : Z) (p_buf : bytes) : Z * bytes :=
  match n, p_buf with
  | S n, b :: p_buf =>
      crc_bytes_loop n
        (Z.lxor (crc_lookup crc_tableil8_o32 (Z.land (Z.lxor crc (b2z b)) 0xFF))
                (Z.shiftr crc 8))
        p_buf
  | _, _ => (crc, p_buf)
  end.

(** One iteration of the eight-byte loop. *)
Definition crc_slice8 (crc : Z) (p_buf : bytes) : Z :=
  let crc := Z.lxor crc (le_combine (take 4 p_buf)) in
  let p_buf := drop 4 p_buf in
  let term1 := Z.lxor (crc_lookup crc_tableil8_o88 (Z.land crc 0xFF))
                      (crc_lookup crc_tableil8_o80 (Z.land (Z.shiftr crc 8) 0xFF)) in
  let term2 := Z.shiftr crc 16 in
  let crc := Z.lxor (Z.lxor term1 (crc_lookup crc_tableil8_o72 (Z.land term2 0xFF)))
                    (crc_lookup crc_tableil8_o64 (Z.land (Z.shiftr term2 8) 0xFF)) in
  let w := le_combine (take 4 p_buf) in
  let term1 := Z.lxor (crc_lookup crc_tableil8_o56 (Z.land w 0xFF))
                      (crc_lookup crc_tableil8_o48 (Z.land (Z.shiftr w 8) 0xFF)) in
  let term2 := Z.shiftr w 16 in
  Z.lxor (Z.lxor (Z.lxor crc term1) (crc_lookup crc_tableil8_o40 (Z.land term2 0xFF)))
         (crc_lookup crc_tableil8_o32 (Z.land (Z.shiftr term2 8) 0xFF)).

Fixpoint crc_slice8_loop (n : nat) (crc : Z) (p_buf : bytes) : Z * bytes :=
  match n with
  | O => (crc, p_buf)
  | S n => crc_slice8_loop n (crc_slice8 crc p_buf) (drop 8 p_buf)
  end.

Definition crc32c_sb8_64_bit (p_running_crc : Z) (p_buf : bytes) (length init_bytes : Z) : Z :=
  let running_length := ((length - init_bytes) / 8) * 8 in
  let end_bytes := length - init_bytes - running_length in
  let (crc, p_buf) := crc_bytes_loop (Z.to_nat init_bytes) p_running_crc p_buf in
  let (crc, p_buf) := crc_slice8_loop (Z.to_nat (running_length / 8)) crc p_buf in
  fst (crc_bytes_loop (Z.to_nat end_bytes) crc p_buf).

(** [x] is the address of [data]; the length parameter of crc32c_sb8_64_bit is
    32 bits wide. *)
Definition crc32_software (x init_crc : Z) (data : bytes) : Z :=
  let n := len data in
  let init_crc := Z.lxor init_crc CRC_FFs in
  let init := u32 (Z.land (u64 (x + 3)) (Z.lnot 3) - x) in
  let init := if n <? init then n else init in
  Z.lxor (crc32c_sb8_64_bit init_crc data (u32 n) init) CRC_FFs.

(** Extend calls the function choose_crc32c selected, crc32_software; by
    [crc32_software_alignment] the address plays no role. *)
Definition Extend (init_crc : Z) (data : bytes) : Z := crc32_software 0 init_crc data.

(** ** crc32c.h *)

Definition Value (data : bytes) : Z := Extend 0 data.

Definition kMaskDelta : Z := 0xa282ead8.

Definition Mask (crc : Z) : Z :=
  u32 (Z.lor (Z.shiftr crc 15) (u32 (Z.shiftl crc 17)) + kMaskDelta).

Definition Unmask (masked_crc : Z) : Z :=
  let rot := u32 (masked_crc - kMaskDelta) in
  Z.lor (Z.shiftr rot 17) (u32 (Z.shiftl rot 15)).

(** ** The reference: one bit at a time

    The reflected generator polynomial 0x1EDC6F41 (named in the source above
    each table) is 0x82F63B78. *)

Definition crc_bit (c : Z) : Z :=
  if Z.odd c then Z.lxor (Z.shiftr c 1) 0x82F63B78 else Z.shiftr c 1.

Fixpoint crc_bits (n : nat) (c : Z) : Z :=
  match n with
  | O => c
  | S n => crc_bits n (crc_bit c)
  end.

(** One message byte. *)
Definition crc_byte (c : Z) (b : byte) : Z := crc_bits 8 (Z.lxor c (b2z b)).

Definition crc_update (c : Z) (data : bytes) : Z := fold_left crc_byte data c.

Definition crc32c_reference (init_crc : Z) (data : bytes) : Z :=
  Z.lxor (crc_update (Z.lxor init_crc CRC_FFs) data) CRC_FFs.

(** ** Linearity of the bit step *)

(** Equations between exclusive ors, bit by bit. *)
Ltac zxor := apply Z.bits_inj'; intros ? ?; rewrite ?Z.lxor_spec; btauto.

Lemma crc_bit_lxor a b : crc_bit (Z.lxor a b) = Z.lxor (crc_bit a) (crc_bit b).
Proof.
  unfold crc_bit. rewrite <- !Z.bit0_odd, Z.lxor_spec, Z.shiftr_lxor.
  destruct (Z.testbit a 0), (Z.testbit b 0); cbn [xorb]; zxor.
Qed.

Lemma crc_bits_lxor n a b : crc_bits n (Z.lxor a b) = Z.lxor (crc_bits n a) (crc_bits n b).
Proof.
  revert a b. induction n as [|n IH]; intros a b; [done|].
  simpl. by rewrite crc_bit_lxor, IH.
Qed.

Lemma crc_bits_add n m c : crc_bits (n + m) c = crc_bits m (crc_bits n c).
Proof. revert c. induction n as [|n IH]; intros c; [done|]. simpl. apply IH. Qed.

(** [n] steps on a number whose low [n] bits are clear shift them out. *)
Lemma crc_bits_shiftl n m x : crc_bits (n + m) (Z.shiftl x (Z.of_nat n)) = crc_bits m x.
Proof.
  rewrite crc_bits_add. f_equal. induction n as [|n IH]; [apply Z.shiftl_0_r|].
  simpl. unfold crc_bit.
  replace (Z.of_nat (S n)) with (Z.of_nat n + 1) by lia.
  rewrite <- Z.shiftl_shiftl by lia.
  rewrite <- Z.bit0_odd, Z.shiftl_spec_low by lia.
  rewrite Z.shiftr_shiftl_l by lia. rewrite Z.sub_diag, Z.shiftl_0_r. exact IH.
Qed.

(** A number is its low [8] bits and the rest. *)
Lemma low_byte_split c : c = Z.lxor (Z.land c 0xFF) (Z.shiftl (Z.shiftr c 8) 8).
Proof.
  apply Z.bits_inj'. intros i Hi. rewrite Z.lxor_spec, Z.land_spec.
  change 0xFF with (Z.ones 8). destruct (Z.lt_ge_cases i 8).
  - rewrite Z.ones_spec_low, Z.shiftl_spec_low by lia. by rewrite andb_true_r, xorb_false_r.
  - rewrite Z.ones_spec_high, Z.shiftl_spec, Z.shiftr_spec by lia.
    rewrite andb_false_r, xorb_false_l. f_equal. lia.
Qed.

Lemma land_FF_range c : 0 <= Z.land c 0xFF < 256.
Proof. change 0xFF with (Z.ones 8). rewrite Z.land_ones by lia. apply Z.mod_pos_bound. lia. Qed.

(** Splitting off the low byte of the argument of [k + 8] steps. *)
Lemma crc_bits_low n k c :
  n = (8 + k)%nat ->
  crc_bits n c = Z.lxor (crc_bits n (Z.land c 0xFF)) (crc_bits k (Z.shiftr c 8)).
Proof.
  intros ->.
  rewrite (low_byte_split c) at 1. rewrite crc_bits_lxor. f_equal.
  apply (crc_bits_shiftl 8 k).
Qed.

(** ** The tables hold the bit-serial results *)

Definition table_is (t : list Z) (k : nat) : Prop :=
  t = map (fun i => crc_bits k (Z.of_nat i)) (seq 0 256).

Lemma crc_lookup_spec t k i :
  table_is t k -> 0 <= i < 256 -> crc_lookup t i = crc_bits k i.
Proof.
  intros -> Hi. unfold crc_lookup.
  set (f := fun n => crc_bits k (Z.of_nat n)).
  rewrite (nth_indep _ 0 (f 0%nat)) by (rewrite length_map, length_seq; lia).
  rewrite map_nth, seq_nth by lia. unfold f. f_equal. lia.
Qed.

Lemma table_o32 : table_is crc_tableil8_o32 8.  Proof. vm_compute; reflexivity. Qed.
Lemma table_o40 : table_is crc_tableil8_o40 16. Proof. vm_compute; reflexivity. Qed.
Lemma table_o48 : table_is crc_tableil8_o48 24. Proof. vm_compute; reflexivity. Qed.
Lemma table_o56 : table_is crc_tableil8_o56 32. Proof. vm_compute; reflexivity. Qed.
Lemma table_o64 : table_is crc_tableil8_o64 40. Proof. vm_compute; reflexivity. Qed.
Lemma table_o72 : table_is crc_tableil8_o72 48. Proof. vm_compute; reflexivity. Qed.
Lemma table_o80 : table_is crc_tableil8_o80 56. Proof. vm_compute; reflexivity. Qed.
Lemma table_o88 : table_is crc_tableil8_o88 64. Proof. vm_compute; reflexivity. Qed.

Create HintDb crc.
#[export] Hint Resolve table_o32 table_o40 table_o48 table_o56 table_o64 table_o72
  table_o80 table_o88 land_FF_range : crc.

(** ** One byte *)

Lemma crc_byte_table crc b :
  Z.lxor (crc_lookup crc_tableil8_o32 (Z.land (Z.lxor crc (b2z b)) 0xFF)) (Z.shiftr crc 8)
  = crc_byte crc b.
Proof.
  unfold crc_byte. rewrite (crc_lookup_spec _ 8) by auto with crc.
  rewrite (crc_bits_low 8 0 (Z.lxor crc (b2z b))) by done. f_equal.
  change (crc_bits 0 ?x) with x.
  rewrite Z.shiftr_lxor, (Z.shiftr_div_pow2 (b2z b)) by lia.
  rewrite Z.div_small by apply b2z_range. by rewrite Z.lxor_0_r.
Qed.

Lemma crc_bytes_loop_spec n crc buf :
  (n <= length buf)%nat ->
  crc_bytes_loop n crc buf = (crc_update crc (take n buf), drop n buf).
Proof.
  revert crc buf. induction n as [|n IH]; intros crc [|b buf] Hn; simpl in Hn |- *; try done.
  rewrite crc_byte_table, IH by lia. done.
Qed.

(** ** Four bytes and eight bytes *)

Lemma le_combine_cons_lxor b l :
  le_combine (b :: l) = Z.lxor (b2z b) (Z.shiftl (le_combine l) 8).
Proof. rewrite lxor_add_shift; [done|lia|apply b2z_range]. Qed.

(** Feeding bytes one by one is feeding the little-endian word at once. *)
Lemma crc_update_word c l :
  crc_update c l = crc_bits (8 * length l) (Z.lxor c (le_combine l)).
Proof.
  revert c. induction l as [|b l IH]; intros c.
  - simpl. by rewrite Z.lxor_0_r.
  - cbn [crc_update fold_left]. change (fold_left crc_byte l ?x) with (crc_update x l).
    rewrite IH, le_combine_cons_lxor.
    replace (8 * length (b :: l))%nat with (8 + 8 * length l)%nat by (simpl; lia).
    rewrite crc_bits_add. f_equal. unfold crc_byte. rewrite !crc_bits_lxor.
    rewrite (crc_bits_shiftl 8 0 (le_combine l) : crc_bits 8 (Z.shiftl _ 8) = le_combine l).
    zxor.
Qed.

Lemma crc_update_app c l k : crc_update c (l ++ k) = crc_update (crc_update c l) k.
Proof. apply fold_left_app. Qed.

(** [8 k] further steps on a 32-bit word, from its four bytes. *)
Lemma crc_bits_word n k w :
  n = (32 + k)%nat -> 0 <= w < 2 ^ 32 ->
  crc_bits n w =
  Z.lxor (Z.lxor (Z.lxor (crc_bits n (Z.land w 0xFF))
                         (crc_bits (24 + k) (Z.land (Z.shiftr w 8) 0xFF)))
                 (crc_bits (16 + k) (Z.land (Z.shiftr w 16) 0xFF)))
         (crc_bits (8 + k) (Z.land (Z.shiftr (Z.shiftr w 16) 8) 0xFF)).
Proof.
  intros -> Hw.
  rewrite (crc_bits_low (32 + k) (24 + k) w) by lia.
  rewrite (crc_bits_low (24 + k) (16 + k) (Z.shiftr w 8)) by lia.
  rewrite !Z.shiftr_shiftr by lia. change (8 + 8) with 16.
  rewrite (crc_bits_low (16 + k) (8 + k) (Z.shiftr w 16)) by lia. rewrite !Z.shiftr_shiftr by lia.
  change (16 + 8) with 24.
  assert (Z.land (Z.shiftr w 24) 0xFF = Z.shiftr w 24) as ->.
  { change 0xFF with (Z.ones 8). rewrite Z.land_ones, Z.shiftr_div_pow2 by lia.
    apply Z.mod_small. split; [apply Z.div_pos; lia|]. apply Z.div_lt_upper_bound; lia. }
  zxor.
Qed.

Lemma crc_slice8_spec c l :
  0 <= c < 2 ^ 32 -> length l = 8%nat -> crc_slice8 c l = crc_update c l.
Proof.
  intros Hc Hl. rewrite <- (take_drop 4 l) at 2. rewrite crc_update_app.
  set (l1 := take 4 l). set (l2 := drop 4 l).
  assert (length l1 = 4 /\ length l2 = 4)%nat as [H1 H2]
    by (unfold l1, l2; rewrite length_take, length_drop; lia).
  rewrite !crc_update_word, H1, H2. change (8 * 4)%nat with 32%nat.
  rewrite crc_bits_lxor, <- crc_bits_add.
  unfold crc_slice8. fold l1 l2. cbv zeta. rewrite (take_ge l2) by lia.
  pose proof (le_combine_range l1) as R1. pose proof (le_combine_range l2) as R2.
  unfold len in R1, R2. rewrite H1 in R1. rewrite H2 in R2.
  rewrite (crc_lookup_spec _ 64), (crc_lookup_spec _ 56), (crc_lookup_spec _ 48),
    (crc_lookup_spec _ 40), (crc_lookup_spec _ 32), (crc_lookup_spec _ 24),
    (crc_lookup_spec _ 16), (crc_lookup_spec _ 8) by auto with crc.
  rewrite (crc_bits_word 32 0 (le_combine l2)) by (done || exact R2).
  rewrite (crc_bits_word (32 + 32) 32 (Z.lxor c _)) by (done || apply lxor_range; lia).
  cbn [Nat.add]. zxor.
Qed.

(** The running checksum stays a 32-bit number. *)
Lemma crc_bit_range c : 0 <= c < 2 ^ 32 -> 0 <= crc_bit c < 2 ^ 32.
Proof.
  intros Hc. unfold crc_bit.
  assert (0 <= Z.shiftr c 1 < 2 ^ 32) as Hs
    by (rewrite Z.shiftr_div_pow2 by lia; change (2 ^ 1) with 2; Z.div_mod_to_equations; lia).
  destruct (Z.odd c); [|exact Hs]. apply lxor_range; lia.
Qed.

Lemma crc_bits_range n c : 0 <= c < 2 ^ 32 -> 0 <= crc_bits n c < 2 ^ 32.
Proof. revert c. induction n as [|n IH]; intros c Hc; [done|]. by apply IH, crc_bit_range. Qed.

Lemma crc_update_range l c : 0 <= c < 2 ^ 32 -> 0 <= crc_update c l < 2 ^ 32.
Proof.
  revert c. induction l as [|b l IH]; intros c Hc; [done|].
  apply IH. unfold crc_byte. apply crc_bits_range, lxor_range; [lia|done|].
  pose proof (b2z_range b). lia.
Qed.

Lemma crc_slice8_loop_spec n c l :
  0 <= c < 2 ^ 32 -> (8 * n <= length l)%nat ->
  crc_slice8_loop n c l = (crc_update c (take (8 * n) l), drop (8 * n) l).
Proof.
  revert c l. induction n as [|n IH]; intros c l Hc Hn; [done|].
  cbn [crc_slice8_loop].
  assert (crc_slice8 c l = crc_update c (take 8 l)) as ->.
  { rewrite <- crc_slice8_spec; [|done|rewrite length_take; lia].
    unfold crc_slice8. rewrite take_take, skipn_firstn_comm, take_take. done. }
  rewrite IH; [|by apply crc_update_range|rewrite length_drop; lia].
  replace (8 * S n)%nat with (8 + 8 * n)%nat by lia.
  rewrite drop_drop, <- crc_update_app. f_equal. f_equal.
  rewrite <- (take_drop 8 l) at 3.
  rewrite take_app_ge by (rewrite length_take; lia).
  rewrite length_take. do 2 f_equal. lia.
Qed.

(** ** The whole routine *)

Lemma crc32c_sb8_64_bit_spec c l init :
  0 <= c < 2 ^ 32 -> 0 <= init <= len l ->
  crc32c_sb8_64_bit c l (len l) init = crc_update c l.
Proof.
  intros Hc Hi. unfold crc32c_sb8_64_bit.
  rewrite crc_bytes_loop_spec by (unfold len in *; lia).
  rewrite Z.div_mul by lia.
  set (m := (len l - init) / 8).
  assert (0 <= m /\ 8 * m <= len l - init < 8 * m + 8) as Hm
    by (unfold m; Z.div_mod_to_equations; lia).
  rewrite crc_slice8_loop_spec;
    [|by apply crc_update_range|rewrite length_drop; unfold len in *; lia].
  rewrite crc_bytes_loop_spec by (rewrite !length_drop; unfold len in *; lia).
  cbn [fst]. rewrite (take_ge (drop _ (drop _ l))) by (rewrite !length_drop; unfold len in *; lia).
  rewrite <- !crc_update_app. f_equal. by rewrite !take_drop.
Qed.

Lemma align_init_range x : 0 <= x -> 0 <= Z.land (x + 3) (Z.lnot 3) - x < 4.
Proof.
  intros Hx.
  assert (Z.land (x + 3) (Z.lnot 3) = (x + 3) / 4 * 4) as ->.
  { change (Z.lnot 3) with (Z.lnot (Z.ones 2)). rewrite <- Z.ldiff_land, Z.ldiff_ones_r by lia.
    by rewrite Z.shiftl_mul_pow2, Z.shiftr_div_pow2 by lia. }
  Z.div_mod_to_equations. lia.
Qed.

Lemma crc32_software_spec x init data :
  0 <= x < 2 ^ 64 - 3 -> 0 <= init < 2 ^ 32 -> len data < 2 ^ 32 ->
  crc32_software x init data = crc32c_reference init data.
Proof.
  intros Hx Hi Hd. unfold crc32_software, crc32c_reference. f_equal.
  pose proof (align_init_range x ltac:(lia)) as Ha. pose proof (len_nonneg data).
  rewrite (u64_small (x + 3)) by lia.
  rewrite (u32_small (len data)), (u32_small (_ - x)) by lia.
  apply crc32c_sb8_64_bit_spec.
  - apply lxor_range; unfold CRC_FFs; lia.
  - destruct (Z.ltb_spec (len data) (Z.land (x + 3) (Z.lnot 3) - x)); lia.
Qed.

Lemma Extend_reference init data :
  0 <= init < 2 ^ 32 -> len data < 2 ^ 32 -> Extend init data = crc32c_reference init data.
Proof. intros. by apply crc32_software_spec. Qed.

Lemma crc32c_reference_range init data :
  0 <= init < 2 ^ 32 -> 0 <= crc32c_reference init data < 2 ^ 32.
Proof.
  intros Hi. unfold crc32c_reference.
  apply lxor_range; [lia| |unfold CRC_FFs; lia].
  apply crc_update_range, lxor_range; unfold CRC_FFs; lia.
Qed.

Lemma Value_range data : len data < 2 ^ 32 -> 0 <= Value data < 2 ^ 32.
Proof.
  intros. unfold Value. rewrite Extend_reference by lia. apply crc32c_reference_range. lia.
Qed.

Lemma crc32c_reference_app init a b :
  crc32c_reference (crc32c_reference init a) b = crc32c_reference init (a ++ b).
Proof.
  unfold crc32c_reference. rewrite crc_update_app, Z.lxor_assoc, Z.lxor_nilpotent.
  by rewrite Z.lxor_0_r.
Qed.

(** The checksum of a concatenation can be computed in two calls. *)
Lemma Extend_app a b :
  len a + len b < 2 ^ 32 -> Extend (Value a) b = Value (a ++ b).
Proof.
  intros Hab. pose proof (len_nonneg a). pose proof (len_nonneg b).
  unfold Value. rewrite (Extend_reference _ (a ++ b)) by (try rewrite len_app; lia).
  rewrite (Extend_reference 0 a) by lia.
  rewrite Extend_reference by (try apply crc32c_reference_range; lia).
  apply crc32c_reference_app.
Qed.

(** ** Masking *)

(** A right rotation of a 32-bit word, as quotient and remainder. *)
Lemma rotate_right c k :
  0 <= c < 2 ^ 32 -> 0 <= k <= 32 ->
  Z.lor (Z.shiftr c k) (u32 (Z.shiftl c (32 - k))) = c / 2 ^ k + 2 ^ (32 - k) * (c mod 2 ^ k).
Proof.
  intros Hc Hk. rewrite Z.shiftr_div_pow2, Z.shiftl_mul_pow2 by lia.
  assert (2 ^ 32 = 2 ^ k * 2 ^ (32 - k)) as Hp by (rewrite <- Z.pow_add_r by lia; f_equal; lia).
  assert (0 < 2 ^ k /\ 0 < 2 ^ (32 - k)) as [Hk1 Hk2] by (split; apply Z.pow_pos_nonneg; lia).
  assert (u32 (c * 2 ^ (32 - k)) = Z.shiftl (c mod 2 ^ k) (32 - k)) as ->.
  { unfold u32. rewrite Z.shiftl_mul_pow2, Hp, Z.mul_mod_distr_r by lia. done. }
  apply lor_add_shift; [lia|]. split; [apply Z.div_pos; lia|].
  apply Z.div_lt_upper_bound; lia.
Qed.

Lemma rotate_inverse c k :
  0 <= c < 2 ^ 32 -> 0 <= k <= 32 ->
  let r := c / 2 ^ k + 2 ^ (32 - k) * (c mod 2 ^ k) in
  0 <= r < 2 ^ 32 /\ r / 2 ^ (32 - k) + 2 ^ k * (r mod 2 ^ (32 - k)) = c.
Proof.
  intros Hc Hk r.
  assert (2 ^ 32 = 2 ^ k * 2 ^ (32 - k)) as Hp by (rewrite <- Z.pow_add_r by lia; f_equal; lia).
  assert (0 < 2 ^ k /\ 0 < 2 ^ (32 - k)) as [Hk1 Hk2] by (split; apply Z.pow_pos_nonneg; lia).
  assert (0 <= c / 2 ^ k < 2 ^ (32 - k)) as Hq.
  { split; [apply Z.div_pos; lia|]. apply Z.div_lt_upper_bound; lia. }
  pose proof (Z.mod_pos_bound c (2 ^ k) Hk1) as Hr. pose proof (Z.div_mod c (2 ^ k) ltac:(lia)) as Hdm.
  assert (r / 2 ^ (32 - k) = c mod 2 ^ k) as ->.
  { unfold r. rewrite Z.mul_comm, Z.div_add, Z.div_small by lia. lia. }
  assert (r mod 2 ^ (32 - k) = c / 2 ^ k) as ->.
  { unfold r. rewrite Z.mul_comm, Z_mod_plus_full. by apply Z.mod_small. }
  split; [|lia]. unfold r. nia.
Qed.

Lemma Unmask_Mask crc : 0 <= crc < 2 ^ 32 -> Unmask (Mask crc) = crc.
Proof.
  intros Hc. unfold Mask, Unmask.
  pose proof (rotate_right crc 15 Hc ltac:(lia)) as Hr. change (32 - 15) with 17 in Hr.
  destruct (rotate_inverse crc 15 Hc ltac:(lia)) as [Hrange Hinv].
  change (32 - 15) with 17 in *. rewrite Hr. set (r := crc / 2 ^ 15 + _) in *.
  assert (u32 (u32 (r + kMaskDelta) - kMaskDelta) = r) as ->.
  { unfold u32. rewrite Zminus_mod_idemp_l.
    replace (r + kMaskDelta - kMaskDelta) with r by lia. by apply Z.mod_small. }
  pose proof (rotate_right r 17 Hrange ltac:(lia)) as Hr'. change (32 - 17) with 15 in Hr'.
  by rewrite Hr'.
Qed.

Lemma Mask_range crc : 0 <= Mask crc < 2 ^ 32.
Proof. apply u32_range. Qed.

(** C35. The slicing-by-8 CRC32C routine computes the bit-serial CRC32C of the
    whole buffer: the eight 256-entry tables, the unaligned head, the eight-byte
    loop and the tail together, for every address the buffer may have and every
    initial checksum. *)
Theorem crc32c_slicing_correct (x init : Z) (data : bytes) :
  0 <= x < 2 ^ 64 - 3 -> 0 <= init < 2 ^ 32 -> len data < 2 ^ 32 ->
  crc32_software x init data = crc32c_reference init data.
Proof. apply crc32_software_spec. Qed.

Lemma crc32c_slicing_correct_witness :
  crc32_software 4097 0 (replicate 32 Byte.x00) = crc32c_reference 0 (replicate 32 Byte.x00) /\
  crc32c_reference 0 (replicate 32 Byte.x00) = 0x8a9136aa.
Proof.
  split; [|vm_compute; reflexivity].
  apply (crc32c_slicing_correct 4097 0 (replicate 32 Byte.x00)); zcompute.
Defined.

(** Checksums compose and masks are reversible: Extend continues the
    checksum of a prefix, so the value computed in two pieces equals the value
    of the concatenation, and Unmask undoes Mask on every 32-bit checksum. *)
Theorem crc32c_extend_and_mask (a b : bytes) :
  len a + len b < 2 ^ 32 ->
  Extend (Value a) b = Value (a ++ b) /\
  Unmask (Mask (Value (a ++ b))) = Value (a ++ b).
Proof.
  intros Hab. split; [by apply Extend_app|].
  apply Unmask_Mask, Value_range. rewrite len_app. lia.
Qed.

Lemma crc32c_extend_and_mask_witness :
  Extend (Value [Byte.x01]) [Byte.x61; Byte.x62] = Value [Byte.x01; Byte.x61; Byte.x62] /\
  Unmask (Mask (Value [Byte.x01; Byte.x61; Byte.x62])) = Value [Byte.x01; Byte.x61; Byte.x62].
Proof. apply (crc32c_extend_and_mask [Byte.x01] [Byte.x61; Byte.x62]). zcompute. Defined.
