(* ===== verification/Status.v ===== *)
(** * Operation results (include/pebblesdb/status.h, util/status.cc)

    [Status] in its concrete form: no state for success, otherwise a byte array
    holding the message length, the code and the message. *)

From Stdlib Require Import ZArith Lia Bool.
From Stdlib Require Import Strings.String Strings.Ascii.
From stdpp Require Import base list.
From S2P Require Import Prelude Coding.

Set Default Goal Selector "!".
Local Open Scope Z_scope.

(** Bytes of a C string literal. *)
Fixpoint bytes_of_string (s : string) : bytes :=
  match s with
  | EmptyString => []
  | String c s => byte_of_ascii c :: bytes_of_string s
  end.

(** enum Code *)
Definition kOk : Z := 0.
Definition kNotFound : Z := 1.
Definition kCorruption : Z := 2.
Definition kNotSupported : Z := 3.
Definition kInvalidArgument : Z := 4.
Definition kIOError : Z := 5.

(** [state_]: [None] is NULL. *)
Definition Status := option bytes.

Definition OK : Status := None.

(** Status(code, msg, msg2) *)
Definition mkStatus (c : Z) (msg msg2 : bytes) : Status :=
  let len1 := u32 (len msg) in
  let len2 := u32 (len msg2) in
  let size := u32 (len1 + (if len2 =? 0 then 0 else 2 + len2)) in
  Some (EncodeFixed32 size ++ [z2b c] ++ msg ++
        (if len2 =? 0 then [] else bytes_of_string ": " ++ msg2)).

Definition NotFound (msg : bytes) : Status := mkStatus kNotFound msg [].
Definition Corruption (msg : bytes) : Status := mkStatus kCorruption msg [].
Definition Corruption2 (msg msg2 : bytes) : Status := mkStatus kCorruption msg msg2.
Definition NotSupported (msg : bytes) : Status := mkStatus kNotSupported msg [].
Definition InvalidArgument (msg : bytes) : Status := mkStatus kInvalidArgument msg [].
Definition IOError (msg : bytes) : Status := mkStatus kIOError msg [].

Definition ok (s : Status) : bool := match s with None => true | Some _ => false end.

Definition code (s : Status) : Z :=
  match s with
  | None => kOk
  | Some state => schar (nth 4 state Byte.x00)
  end.

Definition IsNotFound (s : Status) : bool := code s =? kNotFound.
Definition IsCorruption (s : Status) : bool := code s =? kCorruption.
Definition IsIOError (s : Status) : bool := code s =? kIOError.

(** CopyState: the array is copied whole (its size is the stored length plus
    five). *)
Definition CopyState (state : bytes) : bytes :=
  let size := DecodeFixed32 state in
  take (Z.to_nat (size + 5)) state.

Definition Status_copy (s : Status) : Status := CopyState <$> s.

(** The text ToString puts before the message; the code of a status built by
    the constructors above is one of the five. *)
Definition code_name (c : Z) : bytes :=
  if c =? kNotFound then bytes_of_string "NotFound: "
  else if c =? kCorruption then bytes_of_string "Corruption: "
  else if c =? kNotSupported then bytes_of_string "Not implemented: "
  else if c =? kInvalidArgument then bytes_of_string "Invalid argument: "
  else if c =? kIOError then bytes_of_string "IO error: "
  else bytes_of_string "OK".

Definition ToString (s : Status) : bytes :=
  match s with
  | None => bytes_of_string "OK"
  | Some state =>
      let length := DecodeFixed32 state in
      code_name (code s) ++ take (Z.to_nat length) (drop 5 state)
  end.

(** ** The message and the code survive *)

Lemma code_mkStatus c msg msg2 : 0 <= c < 128 -> code (mkStatus c msg msg2) = c.
Proof.
  intros Hc. unfold code, mkStatus. cbv zeta.
  rewrite app_nth2 by (simpl; lia). simpl.
  unfold schar. rewrite b2z_z2b_small by lia.
  by rewrite (proj2 (Z.ltb_lt c 128)) by lia.
Qed.

Lemma ok_iff s : ok s = true <-> s = OK.
Proof. by destruct s. Qed.

Lemma ok_mkStatus c msg msg2 : ok (mkStatus c msg msg2) = false.
Proof. done. Qed.

(** The whole text of a message in two parts. *)
Definition status_text (msg msg2 : bytes) : bytes :=
  msg ++ (if len msg2 =? 0 then [] else bytes_of_string ": " ++ msg2).

Lemma mkStatus_eq c msg msg2 :
  len msg + len msg2 + 2 < 2 ^ 32 ->
  mkStatus c msg msg2
  = Some (EncodeFixed32 (len (status_text msg msg2)) ++ [z2b c] ++ status_text msg msg2).
Proof.
  intros Hl. pose proof (len_nonneg msg). pose proof (len_nonneg msg2).
  unfold mkStatus, status_text. rewrite (u32_small (len msg)), (u32_small (len msg2)) by lia.
  cbv zeta. repeat f_equal. destruct (len msg2 =? 0).
  - rewrite u32_small by lia. len_solve.
  - rewrite u32_small by lia. rewrite !len_app. change (len (bytes_of_string ": ")) with 2. lia.
Qed.

Lemma ToString_mkStatus c msg msg2 :
  0 <= c < 128 -> len msg + len msg2 + 2 < 2 ^ 32 ->
  ToString (mkStatus c msg msg2) = code_name c ++ status_text msg msg2.
Proof.
  intros Hc Hl. pose proof (code_mkStatus c msg msg2 Hc) as Hcode. revert Hcode.
  rewrite mkStatus_eq by done. intros Hcode. unfold ToString. rewrite Hcode.
  f_equal. rewrite DecodeFixed32_EncodeFixed32, u32_small.
  - rewrite (app_assoc _ [z2b c]), drop_len_app by done. apply take_ge. unfold len. lia.
  - pose proof (len_nonneg (status_text msg msg2)). split; [done|].
    unfold status_text in *. destruct (len msg2 =? 0); rewrite !len_app in *;
      change (len (bytes_of_string ": ")) with 2 in *; len_nils; len_facts; lia.
Qed.

Lemma Status_copy_mkStatus c msg msg2 :
  len msg + len msg2 + 2 < 2 ^ 32 -> Status_copy (mkStatus c msg msg2) = mkStatus c msg msg2.
Proof.
  intros Hl. rewrite mkStatus_eq by done. unfold Status_copy.
  set (x := _ ++ _). change (CopyState <$> Some x) with (Some (CopyState x)).
  apply f_equal. unfold CopyState, x. clear x.
  assert (len (status_text msg msg2) < 2 ^ 32) as Ht.
  { unfold status_text. destruct (len msg2 =? 0); rewrite !len_app;
      change (len (bytes_of_string ": ")) with 2; len_nils; len_facts; lia. }
  rewrite DecodeFixed32_EncodeFixed32, u32_small by (len_facts; lia).
  apply take_ge. rewrite !length_app. simpl. unfold len. lia.
Qed.
