(* ===== verification/MemEnv.v ===== *)
(** * The in-memory environment (helpers/memenv/memenv.cc)

    Files live in memory: a FileState is a reference-counted object that keeps
    its bytes in blocks of 8 KiB, the environment maps names to FileStates, and
    an open file holds a reference, so that a file that is deleted or replaced
    stays there for those who have it open.  The model has the objects, their
    counts and the blocks; the specification is a file system of byte strings
    without any of these. *)

From Stdlib Require Import ZArith Lia Bool String.
From stdpp Require Import base list gmap sorting.
From S2P Require Import Prelude Comparator Status.

Set Default Goal Selector "!".
Local Open Scope Z_scope.

Definition mem_kBlockSize : Z := 8 * 1024.

(** ** FileState *)
Record FileState := { refs_ : Z; mem_blocks_ : list bytes; size_ : Z }.
Definition new_FileState : FileState := {| refs_ := 0; mem_blocks_ := []; size_ := 0 |}.
Definition mem_with_refs (r : Z) (f : FileState) : FileState := {| refs_ := r; mem_blocks_ := mem_blocks_ f; size_ := size_ f |}.

(** The while loop of Read over the blocks from blocks_[block] on; None: the
    loop runs past the last block. *)
Fixpoint read_loop (blocks : list bytes) (block_offset bytes_to_copy : Z) : option bytes :=
  if bytes_to_copy <=? 0 then Some []
  else
    match blocks with
    | [] => None
    | b :: blocks =>
        let avail := mem_kBlockSize - block_offset in
        let avail := if bytes_to_copy <? avail then bytes_to_copy else avail in
        rest ← read_loop blocks 0 (bytes_to_copy - avail);
        Some (take (Z.to_nat avail) (drop (Z.to_nat block_offset) b) ++ rest)
    end.

Definition FileState_Read (f : FileState) (offset n : Z) : option (Status * bytes) :=
  if size_ f <? offset then Some (IOError (bytes_of_string "Offset greater than file size."%string), [])
  else
    let available := size_ f - offset in
    let n := if available <? n then available else n in
    if n =? 0 then Some (OK, [])
    else
      let block := Z.to_nat (offset / mem_kBlockSize) in
      let block_offset := offset mod mem_kBlockSize in
      if n <=? mem_kBlockSize - block_offset then
        b ← mem_blocks_ f !! block;
        Some (OK, take (Z.to_nat n) (drop (Z.to_nat block_offset) b))
      else
        data ← read_loop (drop block (mem_blocks_ f)) block_offset n;
        Some (OK, data).

Section MemEnv.
(** What a new block of memory happens to hold. *)
Context (uninit : bytes).

(** memcpy(blocks_.back() + offset, src, ...) *)
Definition copy_to_last (blocks : list bytes) (offset : Z) (src : bytes) : option (list bytes) :=
  b ← last blocks;
  let o := Z.to_nat offset in
  Some (take (pred (length blocks)) blocks ++ [take o b ++ src ++ drop (o + length src) b]).

Fixpoint append_loop (fuel : nat) (f : FileState) (src : bytes) : option FileState :=
  match src with
  | [] => Some f
  | _ :: _ =>
      match fuel with
      | O => None
      | S fuel =>
          let offset := size_ f mod mem_kBlockSize in
          let '(blocks, avail) :=
            if negb (offset =? 0) then (mem_blocks_ f, mem_kBlockSize - offset) else (mem_blocks_ f ++ [uninit], mem_kBlockSize) in
          let avail := if len src <? avail then len src else avail in
          blocks ← copy_to_last blocks offset (take (Z.to_nat avail) src);
          append_loop fuel {| refs_ := refs_ f; mem_blocks_ := blocks; size_ := u64 (size_ f + avail) |} (drop (Z.to_nat avail) src)
      end
  end.

Definition FileState_Append (f : FileState) (data : bytes) : option FileState := append_loop (length data) f data.

(** ** Open files and the environment *)
Inductive OpenFile :=
  | SequentialFileImpl (file_ : nat) (pos_ : Z)
  | RandomAccessFileImpl (file_ : nat)
  | WritableFileImpl (file_ : nat).
Definition file_of (h : OpenFile) : nat := match h with SequentialFileImpl f _ | RandomAccessFileImpl f | WritableFileImpl f => f end.

(** The objects are in [states]; a NULL pointer in the map is None. *)
Record InMemoryEnv := {
  file_map_ : gmap bytes (option nat);
  states : gmap nat FileState;
  open_files : gmap nat OpenFile;
}.
Definition with_states (g : gmap nat FileState -> gmap nat FileState) (e : InMemoryEnv) : InMemoryEnv :=
  {| file_map_ := file_map_ e; states := g (states e); open_files := open_files e |}.
Definition with_file_map (g : gmap bytes (option nat) -> gmap bytes (option nat)) (e : InMemoryEnv) : InMemoryEnv :=
  {| file_map_ := g (file_map_ e); states := states e; open_files := open_files e |}.
Definition with_open (g : gmap nat OpenFile -> gmap nat OpenFile) (e : InMemoryEnv) : InMemoryEnv :=
  {| file_map_ := file_map_ e; states := states e; open_files := g (open_files e) |}.
Definition new_InMemoryEnv : InMemoryEnv := {| file_map_ := ∅; states := ∅; open_files := ∅ |}.

Definition FileState_Ref (p : nat) (e : InMemoryEnv) : option InMemoryEnv :=
  f ← states e !! p; Some (with_states <[p := mem_with_refs (refs_ f + 1) f]> e).

(** None: the object is not there, or assert(refs_ >= 0) fails. *)
Definition FileState_Unref (p : nat) (e : InMemoryEnv) : option InMemoryEnv :=
  f ← states e !! p;
  let r := refs_ f - 1 in
  if r <? 0 then None
  else if r <=? 0 then Some (with_states (delete p) e)
  else Some (with_states <[p := mem_with_refs r f]> e).

(** file_map_[fname], which adds NULL when there is no such entry. *)
Definition map_at (fname : bytes) (e : InMemoryEnv) : option nat * InMemoryEnv :=
  match file_map_ e !! fname with
  | Some p => (p, e)
  | None => (None, with_file_map <[fname := None]> e)
  end.

(** A constructor of one of the file classes; [h] is the new object. *)
Definition mem_open_file (h : nat) (o : OpenFile) (e : InMemoryEnv) : option InMemoryEnv :=
  e ← FileState_Ref (file_of o) e; Some (with_open <[h := o]> e).
(** The destructor. *)
Definition mem_close_file (h : nat) (e : InMemoryEnv) : option InMemoryEnv :=
  o ← open_files e !! h; e ← FileState_Unref (file_of o) e; Some (with_open (delete h) e).

Definition file_not_found (fname : bytes) : Status := mkStatus kIOError fname (bytes_of_string "File not found"%string).

Definition open_existing (h : nat) (make : nat -> OpenFile) (fname : bytes) (e : InMemoryEnv) : option (Status * option nat * InMemoryEnv) :=
  match file_map_ e !! fname with
  | None => Some (file_not_found fname, None, e)
  | Some _ =>
      let '(p, e) := map_at fname e in
      p ← p;
      e ← mem_open_file h (make p) e;
      Some (OK, Some h, e)
  end.
Definition mem_NewSequentialFile (h : nat) (fname : bytes) (e : InMemoryEnv) : option (Status * option nat * InMemoryEnv) :=
  open_existing h (fun p => SequentialFileImpl p 0) fname e.
Definition mem_NewRandomAccessFile (h : nat) (fname : bytes) (e : InMemoryEnv) : option (Status * option nat * InMemoryEnv) :=
  open_existing h RandomAccessFileImpl fname e.

Definition DeleteFileInternal (fname : bytes) (e : InMemoryEnv) : option InMemoryEnv :=
  match file_map_ e !! fname with
  | None => Some e
  | Some _ =>
      let '(p, e) := map_at fname e in
      p ← p;
      e ← FileState_Unref p e;
      Some (with_file_map (delete fname) e)
  end.

(** [p] is the address of the new FileState, [h] that of the file object. *)
Definition mem_NewWritableFile (p h : nat) (fname : bytes) (e : InMemoryEnv) : option (Status * option nat * InMemoryEnv) :=
  e ← match file_map_ e !! fname with Some _ => DeleteFileInternal fname e | None => Some e end;
  let e := with_states <[p := new_FileState]> e in
  e ← FileState_Ref p e;
  let e := with_file_map <[fname := Some p]> e in
  e ← mem_open_file h (WritableFileImpl p) e;
  Some (OK, Some h, e).

Definition mem_FileExists (fname : bytes) (e : InMemoryEnv) : bool := match file_map_ e !! fname with Some _ => true | None => false end.

(** The names of a std::map in its order. *)
Definition name_le (a b : bytes) : Prop := Slice_compare a b <= 0.
#[global] Instance name_le_dec : RelDecision name_le.
Proof. intros a b. apply Z_le_dec. Defined.
Definition names_in_order {A} (m : gmap bytes A) : list bytes := merge_sort name_le (elements (dom m)).

Definition is_child (dir filename : bytes) : bool :=
  (len dir + 1 <=? len filename) && bool_decide (filename !! length dir = Some Byte.x2f) && Slice_starts_with filename dir.
Definition mem_GetChildren (dir : bytes) (e : InMemoryEnv) : Status * list bytes :=
  (OK, map (drop (length dir + 1)) (List.filter (is_child dir) (names_in_order (file_map_ e)))).

Definition mem_DeleteFile (fname : bytes) (e : InMemoryEnv) : option (Status * InMemoryEnv) :=
  match file_map_ e !! fname with
  | None => Some (file_not_found fname, e)
  | Some _ => e ← DeleteFileInternal fname e; Some (OK, e)
  end.

Definition mem_GetFileSize (fname : bytes) (e : InMemoryEnv) : option (Status * option Z) :=
  match file_map_ e !! fname with
  | None => Some (file_not_found fname, None)
  | Some p => p ← p; f ← states e !! p; Some (OK, Some (size_ f))
  end.

Definition mem_RenameFile (src target : bytes) (e : InMemoryEnv) : option (Status * InMemoryEnv) :=
  match file_map_ e !! src with
  | None => Some (file_not_found src, e)
  | Some _ =>
      e ← DeleteFileInternal target e;
      let '(p, e) := map_at src e in
      let e := with_file_map <[target := p]> e in
      Some (OK, with_file_map (delete src) e)
  end.

(** ** The methods of open files *)
Definition Sequential_Read (h : nat) (n : Z) (e : InMemoryEnv) : option (Status * bytes * InMemoryEnv) :=
  o ← open_files e !! h;
  match o with
  | SequentialFileImpl p pos =>
      f ← states e !! p;
      r ← FileState_Read f pos n;
      let '(s, data) := r in
      Some (s, data, if ok s then with_open <[h := SequentialFileImpl p (u64 (pos + len data))]> e else e)
  | _ => None
  end.
Definition Sequential_Skip (h : nat) (n : Z) (e : InMemoryEnv) : option (Status * InMemoryEnv) :=
  o ← open_files e !! h;
  match o with
  | SequentialFileImpl p pos =>
      f ← states e !! p;
      if size_ f <? pos then Some (IOError (bytes_of_string "pos_ > file_->Size()"%string), e)
      else
        let available := size_ f - pos in
        let n := if available <? n then available else n in
        Some (OK, with_open <[h := SequentialFileImpl p (u64 (pos + n))]> e)
  | _ => None
  end.
Definition RandomAccess_Read (h : nat) (offset n : Z) (e : InMemoryEnv) : option (Status * bytes) :=
  o ← open_files e !! h;
  match o with RandomAccessFileImpl p => f ← states e !! p; FileState_Read f offset n | _ => None end.
Definition Writable_Append (h : nat) (data : bytes) (e : InMemoryEnv) : option (Status * InMemoryEnv) :=
  o ← open_files e !! h;
  match o with
  | WritableFileImpl p => f ← states e !! p; f ← FileState_Append f data; Some (OK, with_states <[p := f]> e)
  | _ => None
  end.
End MemEnv.

(** ** The bytes of a file *)
Notation B := mem_kBlockSize.
Definition contents (f : FileState) : bytes := take (Z.to_nat (size_ f)) (concat (mem_blocks_ f)).

Record file_ok (f : FileState) : Prop := {
  fo_blocks : Forall (fun b => len b = B) (mem_blocks_ f);
  fo_size : 0 <= size_ f < 2 ^ 64;
  fo_upper : size_ f <= B * len (mem_blocks_ f);
  fo_lower : B * len (mem_blocks_ f) < size_ f + B;
}.

Lemma len_concat_blocks bs : Forall (fun b : bytes => len b = B) bs -> len (concat bs) = B * len bs.
Proof. induction 1 as [|b bs Hb _ IH]; [done|]. cbn [concat]. rewrite len_app, len_cons, Hb, IH. lia. Qed.

Lemma len_contents f : file_ok f -> len (contents f) = size_ f.
Proof. intros [H1 H2 H3 H4]. unfold contents. apply len_concat_blocks in H1. unfold len in *. rewrite length_take. lia. Qed.

Lemma drop_concat_blocks bs k : Forall (fun b : bytes => len b = B) bs -> concat (drop k bs) = drop (Z.to_nat B * k) (concat bs).
Proof.
  intros H. revert k. induction H as [|b bs Hb _ IH]; intros [|k]; try (by rewrite ?drop_nil, ?Nat.mul_0_r).
  cbn [drop concat]. rewrite IH, drop_app_ge by (unfold len in Hb; lia). f_equal. unfold len in Hb. lia.
Qed.

Lemma read_loop_ok bs : Forall (fun b : bytes => len b = B) bs -> forall off n, 0 <= off <= B -> off + n <= len (concat bs) ->
  read_loop bs off n = Some (take (Z.to_nat n) (drop (Z.to_nat off) (concat bs))).
Proof.
  induction 1 as [|b bs Hb Hbs IH]; intros off n Hoff Hn; cbn [read_loop].
  - destruct (Z.leb_spec n 0) as [H|H]; [by replace (Z.to_nat n) with 0%nat by lia|]. cbn [concat] in Hn. unfold len in Hn. simpl in Hn. lia.
  - destruct (Z.leb_spec n 0) as [H|H]; [by replace (Z.to_nat n) with 0%nat by lia|]. cbn [concat] in *. rewrite len_app in Hn.
    destruct (Z.ltb_spec n (B - off)) as [Hlt|Hge].
    + replace (n - n) with 0 by lia. destruct bs as [|b' bs']; cbn [read_loop Z.leb]; simpl.
      * rewrite !app_nil_r. done.
      * rewrite app_nil_r, drop_app_le, take_app_le; [done|rewrite length_drop; unfold len in *; lia|unfold len in *; lia].
    + rewrite IH by (unfold len in *; lia). cbn [mbind option_bind]. f_equal. rewrite drop_app_le by (unfold len in *; lia).
      rewrite take_app, length_drop. f_equal; [rewrite !take_ge; [done|rewrite length_drop; unfold len in *; lia..]|]. rewrite drop_0. f_equal. unfold len in *. lia.
Qed.

Lemma take_drop_take {A} (l : list A) (n o s : nat) : (o + n <= s)%nat -> take n (drop o (take s l)) = take n (drop o l).
Proof. intros H. rewrite skipn_firstn_comm, take_take. f_equal. lia. Qed.

(** Read returns the bytes of the file. *)
Lemma FileState_Read_ok f offset n : file_ok f -> 0 <= offset -> 0 <= n ->
  FileState_Read f offset n = Some (if size_ f <? offset then (IOError (bytes_of_string "Offset greater than file size."%string), [])
    else (OK, take (Z.to_nat n) (drop (Z.to_nat offset) (contents f)))).
Proof.
  intros Hf Ho Hn. pose proof (len_contents f Hf) as Hlen. destruct Hf as [H1 H2 H3 H4]. pose proof (len_concat_blocks _ H1) as Hcat. unfold FileState_Read.
  destruct (Z.ltb_spec (size_ f) offset) as [Hlt|Hge]; [done|]. set (m := if size_ f - offset <? n then size_ f - offset else n).
  assert (0 <= m <= size_ f - offset /\ m <= n) as Hm by (subst m; destruct (Z.ltb_spec (size_ f - offset) n); lia).
  assert (take (Z.to_nat n) (drop (Z.to_nat offset) (contents f)) = take (Z.to_nat m) (drop (Z.to_nat offset) (concat (mem_blocks_ f)))) as ->.
  { unfold contents. rewrite <- (take_drop_take (concat (mem_blocks_ f)) (Z.to_nat m) (Z.to_nat offset) (Z.to_nat (size_ f))) by lia. fold (contents f). subst m. destruct (Z.ltb_spec (size_ f - offset) n); [|done].
    unfold len in Hlen. rewrite !take_ge by (rewrite length_drop; lia). done. }
  destruct (Z.eqb_spec m 0) as [E|E]; [by rewrite E|].
  assert (0 <= offset mod B < B) as Hmod by (apply Z.mod_pos_bound; done). pose proof (Z.div_mod offset B ltac:(done)) as Hdiv.
  assert (0 <= offset / B) as Hq by (apply Z.div_pos; done).
  set (k := Z.to_nat (offset / B)). assert (Z.of_nat k = offset / B) as Hk by (subst k; lia).
  assert (drop (Z.to_nat offset) (concat (mem_blocks_ f)) = drop (Z.to_nat (offset mod B)) (concat (drop k (mem_blocks_ f)))) as ->.
  { rewrite (drop_concat_blocks _ _ H1), drop_drop. f_equal. unfold B in *. lia. }
  pose proof (f_equal len (drop_concat_blocks _ k H1)) as Hlk. rewrite len_drop in Hlk.
  destruct (Z.leb_spec m (B - offset mod B)) as [Hone|Hmany].
  - destruct (lookup_lt_is_Some_2 (mem_blocks_ f) k) as [b Hb]; [unfold B, len in *; lia|]. rewrite Hb. cbn [mbind option_bind]. rewrite (drop_S _ _ _ Hb). cbn [concat].
    pose proof (Forall_lookup_1 _ _ _ _ H1 Hb) as Hlb. cbn in Hlb. rewrite drop_app_le, take_app_le; [done|rewrite length_drop; unfold len in *; lia|unfold len in *; lia].
  - rewrite read_loop_ok; [done|by apply Forall_drop|lia|]. rewrite Hlk, Hcat. unfold B in *. lia.
Qed.

Section Append.
Context (uninit : bytes) (Huninit : len uninit = B).

Lemma copy_to_last_ok bs b offset src : Forall (fun b : bytes => len b = B) (bs ++ [b]) -> 0 <= offset -> offset + len src <= B ->
  exists b', copy_to_last (bs ++ [b]) offset src = Some (bs ++ [b']) /\ len b' = B /\ take (Z.to_nat (offset + len src)) b' = take (Z.to_nat offset) b ++ src.
Proof.
  intros [_ [Hb _]%Forall_cons]%Forall_app Ho Hs. unfold copy_to_last. rewrite last_snoc. cbn [mbind option_bind].
  exists (take (Z.to_nat offset) b ++ src ++ drop (Z.to_nat offset + length src) b). unfold len in *. split; [|split].
  - rewrite length_app. cbn [length]. rewrite Nat.add_1_r. cbn [pred]. by rewrite take_app_length.
  - rewrite !length_app, length_take, length_drop. lia.
  - rewrite app_assoc. apply take_app_length'. rewrite length_app, length_take. lia.
Qed.

Lemma append_loop_ok fuel : forall f src, file_ok f -> size_ f + len src < 2 ^ 64 -> (length src <= fuel)%nat ->
  exists f', append_loop uninit fuel f src = Some f' /\ file_ok f' /\ refs_ f' = refs_ f /\ contents f' = contents f ++ src.
Proof.
  induction fuel as [|fuel IH]; intros f src Hf Hs Hfuel; destruct src as [|c src]; cbn [append_loop]; [| cbn in Hfuel; lia| |].
  1,2: exists f; by rewrite app_nil_r.
  set (src0 := c :: src) in *. assert (0 < len src0) as Hpos by (unfold src0, len; cbn [length]; lia).
  pose proof Hf as [H1 H2 H3 H4]. pose proof (len_concat_blocks _ H1) as Hcat. set (off := size_ f mod B). assert (0 <= off < B) as Hoff by (apply Z.mod_pos_bound; done).
  pose proof (Z.div_mod (size_ f) B ltac:(done)) as Hdiv. fold off in Hdiv.
  set (n := if len src0 <? B - off then len src0 else B - off).
  assert (0 < n <= B - off /\ n <= len src0) as Hn by (subst n; destruct (Z.ltb_spec (len src0) (B - off)); lia).
  assert (exists bs b, (if negb (off =? 0) then (mem_blocks_ f, B - off) else (mem_blocks_ f ++ [uninit], B)) = (bs ++ [b], B - off) /\
    Forall (fun b : bytes => len b = B) (bs ++ [b]) /\ B * len bs + off = size_ f /\ contents f = concat bs ++ take (Z.to_nat off) b) as (bs & b & -> & Hbs & Hsize & Hcont).
  { destruct (Z.eqb_spec off 0) as [E|E]; cbn [negb].
    - exists (mem_blocks_ f), uninit. rewrite E, Z.sub_0_r. split; [done|]. split; [apply Forall_app; by repeat constructor|]. assert (size_ f = B * len (mem_blocks_ f)) as Es by (unfold mem_kBlockSize in *; lia).
      split; [lia|]. unfold contents. rewrite app_nil_r, take_ge; [done|]. unfold len in *. lia.
    - destruct (mem_blocks_ f) as [|x bs _] eqn:Eb using rev_ind; [unfold len, mem_kBlockSize in *; cbn [length] in *; lia|]. exists bs, x. split; [done|]. split; [done|].
      rewrite len_app in *. change (len [x]) with 1 in *. split; [unfold mem_kBlockSize in *; lia|]. unfold contents. rewrite Eb, concat_app. cbn [concat]. rewrite app_nil_r.
      apply Forall_app in H1 as [H1 _]. pose proof (len_concat_blocks _ H1) as Hc. rewrite take_app_ge by (unfold len, mem_kBlockSize in *; lia). f_equal. f_equal. unfold len, mem_kBlockSize in *; lia. }
  destruct (copy_to_last_ok bs b off (take (Z.to_nat n) src0)) as (b' & Ecopy & Hb' & Htake); [done|lia|rewrite len_take; lia|]. rewrite len_take in Htake. replace (Z.min (Z.of_nat (Z.to_nat n)) (len src0)) with n in Htake by lia.
  fold n. rewrite Ecopy. cbn [mbind option_bind]. rewrite u64_small by lia. apply Forall_app in Hbs as [Hbs _].
  set (f1 := {| refs_ := refs_ f; mem_blocks_ := bs ++ [b']; size_ := size_ f + n |}).
  assert (contents f1 = contents f ++ take (Z.to_nat n) src0) as Hc1.
  { unfold contents at 1. cbn [f1 size_ mem_blocks_]. rewrite concat_app. cbn [concat]. rewrite app_nil_r. pose proof (len_concat_blocks _ Hbs) as Hc. rewrite take_app_ge by (unfold len in *; lia).
    replace (Z.to_nat (size_ f + n) - length (concat bs))%nat with (Z.to_nat (off + n)) by (unfold len in *; lia). by rewrite Htake, Hcont, app_assoc. }
  destruct (IH f1 (drop (Z.to_nat n) src0)) as (f' & -> & Hf' & Hr & Hc'); [|rewrite len_drop; cbn [f1 size_]; lia|rewrite length_drop; unfold len in *; lia|].
  - split; cbn [f1 size_ mem_blocks_]; [apply Forall_app; by repeat constructor|lia|rewrite len_app; change (len [b']) with 1; lia..].
  - exists f'. split; [done|]. split; [done|]. split; [done|]. rewrite Hc', Hc1, <- app_assoc. by rewrite take_drop.
Qed.

(** Append adds the bytes at the end. *)
Lemma FileState_Append_ok f data : file_ok f -> size_ f + len data < 2 ^ 64 ->
  exists f', FileState_Append uninit f data = Some f' /\ file_ok f' /\ refs_ f' = refs_ f /\ contents f' = contents f ++ data.
Proof. intros Hf Hs. by apply append_loop_ok. Qed.
End Append.

(** ** A file system of byte strings *)

(** Names refer to files, files have contents and nothing else; files are
    never deleted, only their names are. *)
Record FS := { fs_names : gmap bytes nat; fs_data : gmap nat bytes; fs_open : gmap nat OpenFile }.
Definition empty_FS : FS := {| fs_names := ∅; fs_data := ∅; fs_open := ∅ |}.
Definition fs_contents (fs : FS) (p : nat) : bytes := default [] (fs_data fs !! p).

Inductive MemOp :=
  | ONewSequential (fname : bytes) | ONewRandom (fname : bytes) | ONewWritable (fname : bytes) | OExists (fname : bytes) | OChildren (dir : bytes)
  | ODelete (fname : bytes) | OSize (fname : bytes) | ORename (src target : bytes)
  | ORead (h : nat) (n : Z) | OSkip (h : nat) (n : Z) | OReadAt (h : nat) (offset n : Z) | OAppend (h : nat) (data : bytes) | OClose (h : nat).
Inductive MemRes :=
  | RStatus (s : Status) | ROpened (s : Status) (h : option nat) | RBool (b : bool) | RNames (s : Status) (names : list bytes)
  | RSize (s : Status) (size : option Z) | RData (s : Status) (data : bytes) | RNone.

(** The operations of the environment; [p] and [h] are free addresses. *)
Definition env_op (uninit : bytes) (p h : nat) (op : MemOp) (e : InMemoryEnv) : option (MemRes * InMemoryEnv) :=
  match op with
  | ONewSequential f => r ← mem_NewSequentialFile h f e; let '(s, o, e) := r in Some (ROpened s o, e)
  | ONewRandom f => r ← mem_NewRandomAccessFile h f e; let '(s, o, e) := r in Some (ROpened s o, e)
  | ONewWritable f => r ← mem_NewWritableFile p h f e; let '(s, o, e) := r in Some (ROpened s o, e)
  | OExists f => Some (RBool (mem_FileExists f e), e)
  | OChildren dir => Some (let '(s, l) := mem_GetChildren dir e in RNames s l, e)
  | ODelete f => r ← mem_DeleteFile f e; let '(s, e) := r in Some (RStatus s, e)
  | OSize f => r ← mem_GetFileSize f e; let '(s, z) := r in Some (RSize s z, e)
  | ORename src target => r ← mem_RenameFile src target e; let '(s, e) := r in Some (RStatus s, e)
  | ORead h n => r ← Sequential_Read h n e; let '(s, d, e) := r in Some (RData s d, e)
  | OSkip h n => r ← Sequential_Skip h n e; let '(s, e) := r in Some (RStatus s, e)
  | OReadAt h offset n => r ← RandomAccess_Read h offset n e; let '(s, d) := r in Some (RData s d, e)
  | OAppend h data => r ← Writable_Append uninit h data e; let '(s, e) := r in Some (RStatus s, e)
  | OClose h => e ← mem_close_file h e; Some (RNone, e)
  end.

Definition fs_open_file (h : nat) (make : nat -> OpenFile) (fname : bytes) (fs : FS) : MemRes * FS :=
  match fs_names fs !! fname with
  | None => (ROpened (file_not_found fname) None, fs)
  | Some p => (ROpened OK (Some h), {| fs_names := fs_names fs; fs_data := fs_data fs; fs_open := <[h := make p]> (fs_open fs) |})
  end.
Definition fs_with_open (h : nat) (o : OpenFile) (fs : FS) : FS := {| fs_names := fs_names fs; fs_data := fs_data fs; fs_open := <[h := o]> (fs_open fs) |}.

(** What the operations mean.  RenameFile takes the name from the source after it
    gave it to the target: with one name for both the file has no name left. *)
Definition fs_op (p h : nat) (op : MemOp) (fs : FS) : MemRes * FS :=
  match op with
  | ONewSequential f => fs_open_file h (fun p => SequentialFileImpl p 0) f fs
  | ONewRandom f => fs_open_file h RandomAccessFileImpl f fs
  | ONewWritable f => (ROpened OK (Some h), {| fs_names := <[f := p]> (fs_names fs); fs_data := <[p := []]> (fs_data fs); fs_open := <[h := WritableFileImpl p]> (fs_open fs) |})
  | OExists f => (RBool (bool_decide (is_Some (fs_names fs !! f))), fs)
  | OChildren dir => (RNames OK (map (drop (length dir + 1)) (List.filter (is_child dir) (names_in_order (fs_names fs)))), fs)
  | ODelete f => match fs_names fs !! f with
                 | None => (RStatus (file_not_found f), fs)
                 | Some _ => (RStatus OK, {| fs_names := delete f (fs_names fs); fs_data := fs_data fs; fs_open := fs_open fs |})
                 end
  | OSize f => match fs_names fs !! f with
               | None => (RSize (file_not_found f) None, fs)
               | Some p => (RSize OK (Some (len (fs_contents fs p))), fs)
               end
  | ORename src target =>
      match fs_names fs !! src with
      | None => (RStatus (file_not_found src), fs)
      | Some p => (RStatus OK, {| fs_names := delete src (<[target := p]> (fs_names fs)); fs_data := fs_data fs; fs_open := fs_open fs |})
      end
  | ORead h n =>
      match fs_open fs !! h with
      | Some (SequentialFileImpl p pos) =>
          if len (fs_contents fs p) <? pos then (RData (IOError (bytes_of_string "Offset greater than file size."%string)) [], fs)
          else let data := take (Z.to_nat n) (drop (Z.to_nat pos) (fs_contents fs p)) in
               (RData OK data, fs_with_open h (SequentialFileImpl p (pos + len data)) fs)
      | _ => (RNone, fs)
      end
  | OSkip h n =>
      match fs_open fs !! h with
      | Some (SequentialFileImpl p pos) =>
          if len (fs_contents fs p) <? pos then (RStatus (IOError (bytes_of_string "pos_ > file_->Size()"%string)), fs)
          else (RStatus OK, fs_with_open h (SequentialFileImpl p (Z.min (pos + n) (len (fs_contents fs p)))) fs)
      | _ => (RNone, fs)
      end
  | OReadAt h offset n =>
      match fs_open fs !! h with
      | Some (RandomAccessFileImpl p) =>
          (if len (fs_contents fs p) <? offset then RData (IOError (bytes_of_string "Offset greater than file size."%string)) []
           else RData OK (take (Z.to_nat n) (drop (Z.to_nat offset) (fs_contents fs p))), fs)
      | _ => (RNone, fs)
      end
  | OAppend h data =>
      match fs_open fs !! h with
      | Some (WritableFileImpl p) => (RStatus OK, {| fs_names := fs_names fs; fs_data := <[p := fs_contents fs p ++ data]> (fs_data fs); fs_open := fs_open fs |})
      | _ => (RNone, fs)
      end
  | OClose h => (RNone, {| fs_names := fs_names fs; fs_data := fs_data fs; fs_open := delete h (fs_open fs) |})
  end.

(** How callers use the operations: on open files of the right kind, with
    sizes a file can have. *)
Definition op_ok (fs : FS) (op : MemOp) : Prop :=
  match op with
  | ORead h n | OSkip h n => 0 <= n < 2 ^ 64 /\ exists p pos, fs_open fs !! h = Some (SequentialFileImpl p pos)
  | OReadAt h offset n => 0 <= offset < 2 ^ 64 /\ 0 <= n < 2 ^ 64 /\ exists p, fs_open fs !! h = Some (RandomAccessFileImpl p)
  | OAppend h data => exists p, fs_open fs !! h = Some (WritableFileImpl p) /\ len (fs_contents fs p) + len data < 2 ^ 64
  | OClose h => is_Some (fs_open fs !! h)
  | _ => True
  end.

(** ** Reference counts *)
Section Count.
Context `{Countable K} {V : Type} (g : V -> nat) (p : nat).
Definition count (m : gmap K V) : Z := Z.of_nat (base.size (filter (fun kv => g (snd kv) = p) m)).
Definition one (v : V) : Z := if decide (g v = p) then 1 else 0.

Lemma count_insert m k v : m !! k = None -> count (<[k := v]> m) = count m + one v.
Proof.
  intros Hk. unfold count, one. rewrite map_filter_insert. cbn [snd]. destruct (decide _).
  - rewrite map_size_insert_None; [lia|]. apply map_lookup_filter_None. by left.
  - rewrite delete_id by done. lia.
Qed.
Lemma count_delete m k v : m !! k = Some v -> count (delete k m) = count m - one v.
Proof. intros Hk. rewrite <- (insert_delete_id m k v Hk) at 2. rewrite count_insert by apply lookup_delete_eq. lia. Qed.
Lemma count_update m k v v' : m !! k = Some v -> g v' = g v -> count (<[k := v']> m) = count m.
Proof.
  intros Hk Hg. rewrite <- insert_delete_eq. rewrite count_insert by apply lookup_delete_eq. rewrite (count_delete m k v Hk). unfold one. rewrite Hg. lia.
Qed.
Lemma count_nonneg m : 0 <= count m.
Proof. unfold count. lia. Qed.
Lemma count_pos m k v : m !! k = Some v -> g v = p -> 1 <= count m.
Proof. intros Hk Hg. pose proof (count_delete m k v Hk) as E. pose proof (count_nonneg (delete k m)). unfold one in E. rewrite decide_True in E by done. lia. Qed.
Lemma count_pos_inv m : 1 <= count m -> exists k v, m !! k = Some v /\ g v = p.
Proof.
  unfold count. intros Hc. destruct (map_size_ne_0_lookup_1 (filter (fun kv => g (snd kv) = p) m)) as (k & v & Hk); [lia|].
  apply map_lookup_filter_Some in Hk as [Hk Hg]. by exists k, v.
Qed.
Lemma count_zero m : (forall k v, m !! k = Some v -> g v <> p) -> count m = 0.
Proof. intros H0. unfold count. rewrite (map_empty_filter_2 _ m); [done|]. intros k v Hk. by apply (H0 k v). Qed.
End Count.

Notation name_refs p fs := (count (fun q : nat => q) p (fs_names fs)).
Notation open_refs p fs := (count file_of p (fs_open fs)).

Record mem_rel (e : InMemoryEnv) (fs : FS) : Prop := {
  mr_names : file_map_ e = Some <$> fs_names fs;
  mr_open : open_files e = fs_open fs;
  mr_state p st : states e !! p = Some st -> file_ok st /\ fs_data fs !! p = Some (contents st) /\ refs_ st = name_refs p fs + open_refs p fs /\ 1 <= refs_ st;
  mr_name f p : fs_names fs !! f = Some p -> is_Some (states e !! p);
  mr_opened h o : fs_open fs !! h = Some o -> is_Some (states e !! file_of o);
  mr_pos h p pos : fs_open fs !! h = Some (SequentialFileImpl p pos) -> 0 <= pos;
}.

(** The states after a reference is given up. *)
Definition unref_states (p : nat) (st : FileState) (m : gmap nat FileState) : gmap nat FileState :=
  if decide (refs_ st = 1) then delete p m else <[p := mem_with_refs (refs_ st - 1) st]> m.
Lemma FileState_Unref_eq p e st : states e !! p = Some st -> 1 <= refs_ st -> FileState_Unref p e = Some (with_states (unref_states p st) e).
Proof.
  intros Hp Hr. unfold FileState_Unref, unref_states. rewrite Hp. cbn [mbind option_bind]. destruct (Z.ltb_spec (refs_ st - 1) 0); [lia|].
  destruct (Z.leb_spec (refs_ st - 1) 0), (decide (refs_ st = 1)); first [done|lia].
Qed.

Lemma contents_with_refs r f : contents (mem_with_refs r f) = contents f.
Proof. done. Qed.
Lemma file_ok_with_refs r f : file_ok f -> file_ok (mem_with_refs r f).
Proof. by intros [H1 H2 H3 H4]. Qed.

(** One reference to [p] fewer, from a name or an open file. *)
Lemma mem_rel_unref e fs p st fs' fm' of' : mem_rel e fs -> states e !! p = Some st ->
  fm' = Some <$> fs_names fs' -> of' = fs_open fs' -> fs_data fs' = fs_data fs ->
  (forall f q, fs_names fs' !! f = Some q -> fs_names fs !! f = Some q) -> (forall h o, fs_open fs' !! h = Some o -> fs_open fs !! h = Some o) ->
  (forall q, name_refs q fs' + open_refs q fs' = name_refs q fs + open_refs q fs - (if decide (q = p) then 1 else 0)) ->
  mem_rel {| file_map_ := fm'; states := unref_states p st (states e); open_files := of' |} fs'.
Proof.
  intros HR Hp -> -> Hdata Hn Ho Hc. destruct (mr_state _ _ HR p st Hp) as (S1 & S2 & S3 & S4). pose proof (Hc p) as Hcp. rewrite decide_True in Hcp by done.
  assert (forall q, 1 <= name_refs q fs' + open_refs q fs' -> is_Some (states e !! q) -> is_Some (unref_states p st (states e) !! q)) as Hlive.
  { intros q Hq [x Hx]. unfold unref_states. destruct (decide (refs_ st = 1)) as [E|E].
    - assert (q <> p) by (intros ->; lia). rewrite lookup_delete_ne by done. by eexists.
    - rewrite lookup_insert. case_decide; by eexists. }
  split; cbn [file_map_ states open_files]; [done|done|..].
  - intros q x. unfold unref_states. destruct (decide (refs_ st = 1)) as [E|E].
    + rewrite lookup_delete_Some. intros [Hne Hx]. destruct (mr_state _ _ HR q x Hx) as (X1 & X2 & X3 & X4). rewrite Hdata. specialize (Hc q). rewrite decide_False in Hc by done. split_and!; [done|done|lia|lia].
    + rewrite lookup_insert. case_decide as Eq.
      * intros [= <-]. subst q. rewrite Hdata. cbn [refs_ mem_with_refs]. split_and!; [by apply file_ok_with_refs|done|lia|lia].
      * intros Hx. destruct (mr_state _ _ HR q x Hx) as (X1 & X2 & X3 & X4). rewrite Hdata. specialize (Hc q). rewrite decide_False in Hc by congruence. split_and!; [done|done|lia|lia].
  - intros f q Hf. apply Hlive; [|by eapply (mr_name _ _ HR), Hn]. pose proof (count_pos (fun q : nat => q) q _ f q Hf eq_refl). pose proof (count_nonneg file_of q (fs_open fs')). lia.
  - intros h o Hh. apply Hlive; [|by eapply (mr_opened _ _ HR), Ho]. pose proof (count_pos file_of (file_of o) _ h o Hh eq_refl). pose proof (count_nonneg (fun q : nat => q) (file_of o) (fs_names fs')). lia.
  - intros h q pos Hh. by eapply (mr_pos _ _ HR), Ho.
Qed.

Definition fs_delete (f : bytes) (fs : FS) : FS := {| fs_names := delete f (fs_names fs); fs_data := fs_data fs; fs_open := fs_open fs |}.

Section Operations.
Context (uninit : bytes) (Huninit : len uninit = B).

Lemma lookup_map e fs f : mem_rel e fs -> file_map_ e !! f = Some <$> fs_names fs !! f.
Proof. intros HR. by rewrite (mr_names _ _ HR), lookup_fmap. Qed.

Lemma DeleteFileInternal_ok e fs f : mem_rel e fs -> exists e', DeleteFileInternal f e = Some e' /\ mem_rel e' (fs_delete f fs) /\
  (forall p, states e !! p = None -> states e' !! p = None).
Proof.
  intros HR. unfold DeleteFileInternal, map_at. pose proof (lookup_map e fs f HR) as Hf. rewrite Hf. destruct (fs_names fs !! f) as [p|] eqn:Ef; cbn [fmap option_fmap option_map].
  - destruct (mr_name _ _ HR f p Ef) as [st Hst]. destruct (mr_state _ _ HR p st Hst) as (_ & _ & _ & Hr). cbn [mbind option_bind].
    rewrite (FileState_Unref_eq p e st Hst Hr). cbn [mbind option_bind]. eexists. split; [done|]. split.
    + eapply (mem_rel_unref e fs p st (fs_delete f fs)); cbn [fs_delete fs_names fs_open fs_data with_states file_map_ open_files]; try done.
      * rewrite (mr_names _ _ HR). by rewrite fmap_delete.
      * by rewrite (mr_open _ _ HR).
      * by intros f' q [_ ?]%lookup_delete_Some.
      * intros q. rewrite (count_delete _ _ _ _ _ Ef). unfold one. destruct (decide (p = q)), (decide (q = p)); first [done|lia|congruence].
    + intros q Hq. cbn [with_file_map with_states states]. unfold unref_states. destruct (decide (refs_ st = 1)).
      * apply lookup_delete_None. by right.
      * rewrite lookup_insert_ne; [done|]. congruence.
  - exists e. split; [done|]. split; [|done]. unfold fs_delete. rewrite delete_id by done. by destruct fs.
Qed.

Lemma open_existing_ok e fs h make f : mem_rel e fs -> fs_open fs !! h = None -> (forall p, file_of (make p) = p) -> (forall p q pos, make p = SequentialFileImpl q pos -> 0 <= pos) ->
  exists s o e', open_existing h make f e = Some (s, o, e') /\ fst (fs_open_file h make f fs) = ROpened s o /\ mem_rel e' (snd (fs_open_file h make f fs)).
Proof.
  intros HR Hh Hmake Hpos. unfold open_existing, fs_open_file, map_at, mem_open_file, FileState_Ref. rewrite (lookup_map e fs f HR). destruct (fs_names fs !! f) as [p|] eqn:Ef; cbn [fmap option_fmap option_map].
  - destruct (mr_name _ _ HR f p Ef) as [st Hst]. cbn [mbind option_bind]. rewrite Hmake, Hst. cbn [mbind option_bind]. eexists _, _, _. split; [done|]. split; [done|]. cbn [snd].
    destruct HR as [R1 R2 R3 R4 R5 R6]. split; cbn [with_open with_states file_map_ states open_files fs_names fs_open fs_data]; [done|by rewrite R2|..].
    + intros q x. rewrite lookup_insert. rewrite (count_insert _ _ _ _ _ Hh). unfold one. rewrite Hmake. case_decide as E.
      * intros [= <-]. subst q. destruct (R3 p st Hst) as (S1 & S2 & S3 & S4). cbn [refs_ mem_with_refs]. rewrite ?decide_True by done. split_and!; [by apply file_ok_with_refs|done|lia|lia].
      * intros Hx. destruct (R3 q x Hx) as (S1 & S2 & S3 & S4). rewrite ?decide_False by done. split_and!; [done|done|lia|done].
    + intros f' q Hf'. rewrite lookup_insert. case_decide; [by eexists|by eapply R4].
    + intros h' o. rewrite lookup_insert. case_decide as E; [intros [= <-]; rewrite Hmake, lookup_insert_eq; by eexists|]. intros Ho. rewrite lookup_insert. case_decide; [by eexists|by eapply R5].
    + intros h' q pos. rewrite lookup_insert. case_decide as E; [intros [= Em]; by eapply Hpos|by apply R6].
  - by eexists _, _, _.
Qed.

Lemma NewWritableFile_ok e fs p h f : mem_rel e fs -> states e !! p = None -> fs_open fs !! h = None ->
  exists e', mem_NewWritableFile p h f e = Some (OK, Some h, e') /\ mem_rel e' (snd (fs_op p h (ONewWritable f) fs)).
Proof.
  intros HR Hp Hh. unfold mem_NewWritableFile. destruct (DeleteFileInternal_ok e fs f HR) as (e1 & E1 & HR1 & Hfresh).
  assert (match file_map_ e !! f with Some _ => DeleteFileInternal f e | None => Some e end = Some e1) as ->.
  { destruct (file_map_ e !! f) eqn:Ef; [done|]. unfold DeleteFileInternal in E1. by rewrite Ef in E1. }
  cbn [mbind option_bind]. unfold mem_open_file, FileState_Ref. cbn [with_states states file_of]. rewrite lookup_insert_eq. cbn [mbind option_bind].
  cbn [with_states with_file_map states]. rewrite lookup_insert_eq. cbn [mbind option_bind]. eexists. split; [done|]. specialize (Hfresh p Hp). destruct HR1 as [R1 R2 R3 R4 R5 R6].
  cbn [fs_op snd]. cbn [fs_delete fs_names fs_open fs_data] in *.
  assert (forall f' q, delete f (fs_names fs) !! f' = Some q -> q <> p) as Hnp by (intros f' q Hq ->; destruct (R4 f' p Hq); congruence).
  assert (forall h' o, fs_open fs !! h' = Some o -> file_of o <> p) as Hop by (intros h' o Ho E; destruct (R5 h' o Ho); congruence).
  assert (<[f := p]> (fs_names fs) = <[f := p]> (delete f (fs_names fs))) as En by (by rewrite insert_delete_eq).
  split; cbn [with_open with_states with_file_map file_map_ states open_files fs_names fs_open fs_data mem_with_refs refs_ mem_blocks_ size_ new_FileState]; rewrite ?En, ?fmap_insert, ?R1, ?R2; try done; rewrite ?insert_insert_eq.
  - intros q x. rewrite lookup_insert. rewrite count_insert by apply lookup_delete_eq. rewrite (count_insert _ _ _ _ _ Hh). unfold one. cbn [file_of]. case_decide as E.
    + intros [= <-]. subst q. rewrite lookup_insert_eq. rewrite ?decide_True by done. rewrite (count_zero _ _ _ (fun f' q Hq => Hnp f' q Hq)), (count_zero _ _ _ (fun h' o Ho => Hop h' o Ho)). cbn. split_and!; [split; try done; constructor|done|lia|lia].
    + intros Hx. rewrite lookup_insert_ne, ?decide_False by done. destruct (R3 q x Hx) as (S1 & S2 & S3 & S4). split_and!; [done|done|lia|done].
  - intros f' q. rewrite !lookup_insert. case_decide as E; [intros [= <-]; rewrite decide_True by done; by eexists|]. intros Hf'. case_decide; [by eexists|by eapply R4].
  - intros h' o. rewrite !lookup_insert. case_decide as E; [intros [= <-]; cbn [file_of]; rewrite decide_True by done; by eexists|]. intros Ho. case_decide; [by eexists|by eapply R5].
  - intros h' q pos. rewrite lookup_insert. case_decide as E; [done|by apply R6].
Qed.

(** A file that is renamed to its own name is gone. *)
Lemma RenameFile_itself e fs f p : mem_rel e fs -> fs_names fs !! f = Some p ->
  exists e', mem_RenameFile f f e = Some (OK, e') /\ mem_rel e' (snd (fs_op 0 0 (ORename f f) fs)) /\ mem_FileExists f e' = false.
Proof.
  intros HR Hf. unfold mem_RenameFile. rewrite (lookup_map e fs f HR), Hf. cbn [fmap option_fmap option_map].
  destruct (DeleteFileInternal_ok e fs f HR) as (e1 & -> & HR1 & _). cbn [mbind option_bind]. unfold map_at. rewrite (lookup_map e1 _ f HR1). cbn [fs_delete fs_names]. rewrite lookup_delete_eq.
  cbn [fmap option_fmap option_map]. eexists. split; [done|]. split; [|unfold mem_FileExists; cbn [with_file_map file_map_]; by rewrite lookup_delete_eq].
  cbn [fs_op]. rewrite Hf. cbn [snd]. rewrite delete_insert_eq. destruct HR1 as [R1 R2 R3 R4 R5 R6]. split; cbn [with_file_map file_map_ states open_files fs_names fs_open fs_data fs_delete] in *; try done.
  rewrite !delete_insert_eq, R1, fmap_delete. apply delete_id, lookup_delete_eq.
Qed.

Lemma RenameFile_ok e fs src target : mem_rel e fs ->
  exists s e', mem_RenameFile src target e = Some (s, e') /\ fst (fs_op 0 0 (ORename src target) fs) = RStatus s /\ mem_rel e' (snd (fs_op 0 0 (ORename src target) fs)).
Proof.
  intros HR. destruct (decide (src = target)) as [->|Hne].
  { cbn [fs_op]. destruct (fs_names fs !! target) as [p|] eqn:Et; cbn [fst snd].
    - destruct (RenameFile_itself e fs target p HR Et) as (e' & E & HR' & _). exists OK, e'. split; [done|]. split; [done|]. cbn [fs_op] in HR'. by rewrite Et in HR'.
    - unfold mem_RenameFile. rewrite (lookup_map e fs target HR), Et. by eexists _, _. }
  unfold mem_RenameFile. cbn [fs_op]. rewrite (lookup_map e fs src HR). destruct (fs_names fs !! src) as [p|] eqn:Es; cbn [fmap option_fmap option_map]; [|by eexists _, _].
  destruct (DeleteFileInternal_ok e fs target HR) as (e1 & -> & HR1 & _). cbn [mbind option_bind]. unfold map_at. rewrite (lookup_map e1 _ src HR1). cbn [fs_delete fs_names].
  rewrite lookup_delete_ne by done. rewrite Es. cbn [fmap option_fmap option_map]. eexists _, _. split; [done|]. split; [done|]. cbn [snd].
  assert (delete src (<[target := p]> (fs_names fs)) = <[target := p]> (delete src (delete target (fs_names fs)))) as En.
  { rewrite delete_delete, insert_delete_eq. by rewrite delete_insert_ne. }
  assert (forall q, name_refs q {| fs_names := delete src (<[target := p]> (fs_names fs)); fs_data := fs_data fs; fs_open := fs_open fs |} = name_refs q (fs_delete target fs)) as Hc.
  { intros q. cbn [fs_names fs_delete]. rewrite En, count_insert; [|apply lookup_delete_None; right; apply lookup_delete_eq]. erewrite count_delete; [|rewrite lookup_delete_ne by done; exact Es]. lia. }
  destruct HR1 as [R1 R2 R3 R4 R5 R6]. split; cbn [with_file_map file_map_ states open_files fs_names fs_open fs_data fs_delete] in *; try done.
  - rewrite R1, !fmap_delete, fmap_insert. by rewrite insert_delete_eq.
  - intros q x Hx. destruct (R3 q x Hx) as (S1 & S2 & S3 & S4). specialize (Hc q). cbn [fs_names] in Hc. rewrite Hc. done.
  - intros f q. rewrite lookup_delete_Some, lookup_insert. intros [_ Hf]. case_decide as E.
    + injection Hf as <-. apply (R4 src). by rewrite lookup_delete_ne.
    + apply (R4 f). by rewrite lookup_delete_ne.
Qed.

(** An open file moves on. *)
Lemma mem_rel_move e fs h p pos pos' : mem_rel e fs -> fs_open fs !! h = Some (SequentialFileImpl p pos) -> 0 <= pos' ->
  mem_rel (with_open <[h := SequentialFileImpl p pos']> e) (fs_with_open h (SequentialFileImpl p pos') fs).
Proof.
  intros [R1 R2 R3 R4 R5 R6] Hh Hpos. split; cbn [with_open file_map_ states open_files fs_with_open fs_names fs_open fs_data]; try done.
  - by rewrite R2.
  - intros q x Hx. erewrite (count_update file_of); [by apply R3|exact Hh|done].
  - intros h' o. rewrite lookup_insert. case_decide; [intros [= <-]; by apply (R5 h (SequentialFileImpl p pos))|by apply R5].
  - intros h' q z. rewrite lookup_insert. case_decide; [by intros [= <- <-]|by apply R6].
Qed.

Lemma open_contents e fs h o : mem_rel e fs -> fs_open fs !! h = Some o ->
  exists st, states e !! file_of o = Some st /\ file_ok st /\ fs_contents fs (file_of o) = contents st /\ len (contents st) = size_ st.
Proof.
  intros HR Hh. destruct (mr_opened _ _ HR h o Hh) as [st Hst]. destruct (mr_state _ _ HR _ st Hst) as (S1 & S2 & _). exists st. split; [done|]. split; [done|].
  split; [unfold fs_contents; by rewrite S2|by apply len_contents].
Qed.

Lemma Append_ok e fs h p data : mem_rel e fs -> fs_open fs !! h = Some (WritableFileImpl p) -> len (fs_contents fs p) + len data < 2 ^ 64 ->
  exists e', Writable_Append uninit h data e = Some (OK, e') /\ mem_rel e' (snd (fs_op 0 0 (OAppend h data) fs)).
Proof.
  intros HR Hh Hlen. destruct (open_contents e fs h _ HR Hh) as (st & Hst & Hok & Hc & Hl). cbn [file_of] in *. rewrite Hc, Hl in Hlen.
  destruct (FileState_Append_ok uninit Huninit st data Hok Hlen) as (st' & E & Hok' & Hr & Hc'). unfold Writable_Append. rewrite (mr_open _ _ HR), Hh. cbn [mbind option_bind]. rewrite Hst. cbn [mbind option_bind]. rewrite E. cbn [mbind option_bind].
  eexists. split; [done|]. cbn [fs_op]. rewrite Hh. cbn [snd]. rewrite Hc. destruct HR as [R1 R2 R3 R4 R5 R6]. split; cbn [with_states file_map_ states open_files fs_names fs_open fs_data]; try done.
  - intros q x. rewrite !lookup_insert. case_decide as E'; [|by apply R3]. intros [= <-]. subst q. destruct (R3 p st Hst) as (_ & _ & S3 & S4). rewrite Hc', Hr. done.
  - intros f q Hf. rewrite lookup_insert. case_decide; [by eexists|by eapply R4].
  - intros h' o Ho. rewrite lookup_insert. case_decide; [by eexists|by eapply R5].
Qed.

Lemma close_ok e fs h o : mem_rel e fs -> fs_open fs !! h = Some o ->
  exists e', mem_close_file h e = Some e' /\ mem_rel e' {| fs_names := fs_names fs; fs_data := fs_data fs; fs_open := delete h (fs_open fs) |}.
Proof.
  intros HR Hh. destruct (mr_opened _ _ HR h o Hh) as [st Hst]. destruct (mr_state _ _ HR _ st Hst) as (_ & _ & _ & Hr). unfold mem_close_file. rewrite (mr_open _ _ HR), Hh. cbn [mbind option_bind].
  rewrite (FileState_Unref_eq _ e st Hst Hr). cbn [mbind option_bind]. eexists. split; [done|]. eapply (mem_rel_unref e fs (file_of o) st); cbn [fs_names fs_open fs_data with_states with_open file_map_ open_files]; try done.
  - apply (mr_names _ _ HR).
  - by rewrite (mr_open _ _ HR).
  - by intros h' o' [_ ?]%lookup_delete_Some.
  - intros q. rewrite (count_delete _ _ _ _ _ Hh). unfold one. destruct (decide (file_of o = q)), (decide (q = file_of o)); first [done|lia|congruence].
Qed.

(** One operation. *)
Lemma env_op_ok p h op e fs : mem_rel e fs -> states e !! p = None -> open_files e !! h = None -> op_ok fs op ->
  exists e', env_op uninit p h op e = Some (fst (fs_op p h op fs), e') /\ mem_rel e' (snd (fs_op p h op fs)).
Proof.
  intros HR Hp Hh Hop. rewrite (mr_open _ _ HR) in Hh. destruct op; cbn [env_op op_ok] in *.
  - destruct (open_existing_ok e fs h (fun p => SequentialFileImpl p 0) fname HR Hh) as (s & o & e' & E & Er & H); [done|by intros ? ? ? [= _ <-]|].
    unfold mem_NewSequentialFile. rewrite E. cbn [mbind option_bind]. exists e'. split; [|done]. cbn [fs_op]. by rewrite Er.
  - destruct (open_existing_ok e fs h RandomAccessFileImpl fname HR Hh) as (s & o & e' & E & Er & H); [done|done|].
    unfold mem_NewRandomAccessFile. rewrite E. cbn [mbind option_bind]. exists e'. split; [|done]. cbn [fs_op]. by rewrite Er.
  - destruct (NewWritableFile_ok e fs p h fname HR Hp Hh) as (e' & -> & H). by exists e'.
  - exists e. split; [|done]. cbn [fs_op fst]. unfold mem_FileExists. rewrite (lookup_map e fs fname HR). by destruct (fs_names fs !! fname).
  - exists e. split; [|done]. cbn [fs_op fst mem_GetChildren]. unfold names_in_order. by rewrite (mr_names _ _ HR), dom_fmap_L.
  - unfold mem_DeleteFile. cbn [fs_op]. rewrite (lookup_map e fs fname HR). destruct (DeleteFileInternal_ok e fs fname HR) as (e' & E & H & _).
    destruct (fs_names fs !! fname); cbn [fmap option_fmap option_map]; [rewrite E; cbn [mbind option_bind]; by exists e'|by exists e].
  - unfold mem_GetFileSize. cbn [fs_op]. rewrite (lookup_map e fs fname HR). exists e. destruct (fs_names fs !! fname) as [q|] eqn:Ef; cbn [fmap option_fmap option_map]; [|done].
    destruct (mr_name _ _ HR fname q Ef) as [st Hst]. cbn [mbind option_bind]. rewrite Hst. cbn [mbind option_bind fst snd]. destruct (mr_state _ _ HR q st Hst) as (S1 & S2 & _). assert (fs_contents fs q = contents st) as -> by (unfold fs_contents; by rewrite S2). by rewrite len_contents.
  - destruct (RenameFile_ok e fs src target HR) as (s & e' & -> & Er & H). cbn [mbind option_bind]. exists e'. split; [|done]. change (fs_op p h (ORename src target) fs) with (fs_op 0 0 (ORename src target) fs). by rewrite Er.
  - destruct Hop as (Hn & q & pos & Ho). destruct (open_contents e fs h0 _ HR Ho) as (st & Hst & Hok & Hc & Hl). cbn [file_of] in *. pose proof (mr_pos _ _ HR _ _ _ Ho) as Hpos.
    unfold Sequential_Read. cbn [fs_op]. rewrite (mr_open _ _ HR), Ho. cbn [mbind option_bind]. rewrite Hst. cbn [mbind option_bind]. rewrite FileState_Read_ok by (try done; lia). cbn [mbind option_bind]. rewrite Hc, Hl.
    destruct (Z.ltb_spec (size_ st) pos) as [Hlt|Hge]; [by exists e|]. cbn [ok OK fst snd]. destruct Hok as [_ Hsize _ _].
    assert (pos + len (take (Z.to_nat n) (drop (Z.to_nat pos) (contents st))) <= size_ st) as Hend by (rewrite len_take, len_drop; lia). pose proof (len_nonneg (take (Z.to_nat n) (drop (Z.to_nat pos) (contents st)))).
    rewrite u64_small by lia. eexists. split; [done|]. eapply mem_rel_move; [done|exact Ho|lia].
  - destruct Hop as (Hn & q & pos & Ho). destruct (open_contents e fs h0 _ HR Ho) as (st & Hst & Hok & Hc & Hl). cbn [file_of] in *. pose proof (mr_pos _ _ HR _ _ _ Ho) as Hpos.
    unfold Sequential_Skip. cbn [fs_op]. rewrite (mr_open _ _ HR), Ho. cbn [mbind option_bind]. rewrite Hst. cbn [mbind option_bind]. rewrite Hc, Hl.
    destruct (Z.ltb_spec (size_ st) pos) as [Hlt|Hge]; [by exists e|]. cbn [fst snd mbind option_bind]. destruct Hok as [_ Hsize _ _].
    assert (pos + (if size_ st - pos <? n then size_ st - pos else n) = Z.min (pos + n) (size_ st)) as -> by (destruct (Z.ltb_spec (size_ st - pos) n); lia).
    rewrite u64_small by lia. eexists. split; [done|]. eapply mem_rel_move; [done|exact Ho|lia].
  - destruct Hop as (Hoff & Hn & q & Ho). destruct (open_contents e fs h0 _ HR Ho) as (st & Hst & Hok & Hc & Hl). cbn [file_of] in *.
    unfold RandomAccess_Read. cbn [fs_op]. rewrite (mr_open _ _ HR), Ho. cbn [mbind option_bind]. rewrite Hst. cbn [mbind option_bind]. rewrite FileState_Read_ok by (try done; lia). cbn [mbind option_bind]. rewrite Hc, Hl.
    exists e. cbn [fst snd]. by destruct (size_ st <? offset).
  - destruct Hop as (q & Ho & Hlen). destruct (Append_ok e fs h0 q data HR Ho Hlen) as (e' & -> & H). cbn [mbind option_bind]. exists e'. change (fs_op p h (OAppend h0 data) fs) with (fs_op 0 0 (OAppend h0 data) fs). split; [|done]. cbn [fs_op]. by rewrite Ho.
  - destruct Hop as [o Ho]. destruct (close_ok e fs h0 o HR Ho) as (e' & -> & H). cbn [mbind option_bind]. by exists e'.
Qed.
End Operations.

(** ** Runs *)
Fixpoint env_run (uninit : bytes) (ops : list (nat * nat * MemOp)) (e : InMemoryEnv) : option (list MemRes * InMemoryEnv) :=
  match ops with
  | [] => Some ([], e)
  | (p, h, op) :: ops => r ← env_op uninit p h op e; let '(res, e) := r in rs ← env_run uninit ops e; let '(results, e) := rs in Some (res :: results, e)
  end.
Fixpoint fs_run (ops : list (nat * nat * MemOp)) (fs : FS) : list MemRes * FS :=
  match ops with
  | [] => ([], fs)
  | (p, h, op) :: ops => let '(res, fs) := fs_op p h op fs in let '(results, fs) := fs_run ops fs in (res :: results, fs)
  end.

(** New objects get free addresses, and the callers keep to op_ok. *)
Fixpoint run_ok (uninit : bytes) (ops : list (nat * nat * MemOp)) (e : InMemoryEnv) (fs : FS) : Prop :=
  match ops with
  | [] => True
  | (p, h, op) :: ops => states e !! p = None /\ open_files e !! h = None /\ op_ok fs op /\
      forall res e', env_op uninit p h op e = Some (res, e') -> run_ok uninit ops e' (snd (fs_op p h op fs))
  end.

Lemma env_run_ok uninit ops : len uninit = B -> forall e fs, mem_rel e fs -> run_ok uninit ops e fs ->
  exists e', env_run uninit ops e = Some (fst (fs_run ops fs), e') /\ mem_rel e' (snd (fs_run ops fs)).
Proof.
  intros Hu. induction ops as [|[[p h] op] ops IH]; intros e fs HR Hrun; cbn [env_run fs_run]; [by exists e|]. destruct Hrun as (H1 & H2 & H3 & H4).
  destruct (env_op_ok uninit Hu p h op e fs HR H1 H2 H3) as (e1 & E1 & HR1). rewrite E1. cbn [mbind option_bind]. destruct (IH e1 _ HR1 (H4 _ _ E1)) as (e' & E' & HR'). rewrite E'. cbn [mbind option_bind].
  destruct (fs_op p h op fs) as [res fs1]. cbn [fst snd] in *. destruct (fs_run ops fs1) as [results fs2]. by exists e'.
Qed.

Lemma mem_rel_empty : mem_rel new_InMemoryEnv empty_FS.
Proof. split; by intros. Qed.

(** C36. The in-memory environment is a file system.  A sequence of operations on
    a new environment, with free addresses for new objects, never follows a
    pointer to a deleted object, and its results are those of a file system of
    byte strings: reads return the bytes appended before, across the blocks of
    8 KiB and whatever the memory of a new block holds; files stay readable for
    those who have them open after they are deleted, replaced or renamed (a file
    that is renamed to its own name is removed, in the file system too); and
    the objects that are left are exactly those that a name or an open file
    refers to. *)
Theorem memenv_refines_file_system uninit ops : len uninit = mem_kBlockSize -> run_ok uninit ops new_InMemoryEnv empty_FS ->
  exists e', env_run uninit ops new_InMemoryEnv = Some (fst (fs_run ops empty_FS), e') /\
    (forall p, is_Some (states e' !! p) <->
      (exists f, fs_names (snd (fs_run ops empty_FS)) !! f = Some p) \/ (exists h o, fs_open (snd (fs_run ops empty_FS)) !! h = Some o /\ file_of o = p)) /\
    forall p st, states e' !! p = Some st -> contents st = fs_contents (snd (fs_run ops empty_FS)) p.
Proof.
  intros Hu Hrun. destruct (env_run_ok uninit ops Hu _ _ mem_rel_empty Hrun) as (e' & E & HR). exists e'. split; [done|]. split.
  - intros p. split; [|intros [(f & Hf)|(h & o & Ho & <-)]; [by eapply mr_name|by eapply mr_opened]]. intros [st Hst]. destruct (mr_state _ _ HR p st Hst) as (_ & _ & S3 & S4).
    destruct (Z.lt_ge_cases (name_refs p (snd (fs_run ops empty_FS))) 1) as [Hlt|Hge].
    + right. apply (count_pos_inv file_of). lia.
    + left. apply count_pos_inv in Hge as (f & q & Hf & ->). by exists f.
  - intros p st Hst. destruct (mr_state _ _ HR p st Hst) as (_ & S2 & _). unfold fs_contents. by rewrite S2.
Qed.

(** A decision for run_ok. *)
Definition op_okb (fs : FS) (op : MemOp) : bool :=
  match op with
  | ORead h n | OSkip h n => (0 <=? n) && (n <? 2 ^ 64) && match fs_open fs !! h with Some (SequentialFileImpl _ _) => true | _ => false end
  | OReadAt h offset n => (0 <=? offset) && (offset <? 2 ^ 64) && (0 <=? n) && (n <? 2 ^ 64) && match fs_open fs !! h with Some (RandomAccessFileImpl _) => true | _ => false end
  | OAppend h data => match fs_open fs !! h with Some (WritableFileImpl p) => len (fs_contents fs p) + len data <? 2 ^ 64 | _ => false end
  | OClose h => bool_decide (is_Some (fs_open fs !! h))
  | _ => true
  end.
Fixpoint run_okb (uninit : bytes) (ops : list (nat * nat * MemOp)) (e : InMemoryEnv) (fs : FS) : bool :=
  match ops with
  | [] => true
  | (p, h, op) :: ops => bool_decide (states e !! p = None) && bool_decide (open_files e !! h = None) && op_okb fs op &&
      match env_op uninit p h op e with Some (_, e') => run_okb uninit ops e' (snd (fs_op p h op fs)) | None => true end
  end.

Lemma op_okb_sound fs op : op_okb fs op = true -> op_ok fs op.
Proof.
  destruct op; cbn [op_okb op_ok]; try done; intros E; repeat (apply andb_true_iff in E as [E ?]).
  - split; [lia|]. destruct (fs_open fs !! h) as [[p pos|p|p]|]; try done. by exists p, pos.
  - split; [lia|]. destruct (fs_open fs !! h) as [[p pos|p|p]|]; try done. by exists p, pos.
  - split; [lia|]. split; [lia|]. destruct (fs_open fs !! h) as [[p pos|p|p]|]; try done. by exists p.
  - destruct (fs_open fs !! h) as [[p pos|p|p]|]; try done. exists p. split; [done|lia].
  - by apply bool_decide_eq_true in E.
Qed.

Lemma run_okb_sound uninit ops : forall e fs, run_okb uninit ops e fs = true -> run_ok uninit ops e fs.
Proof.
  induction ops as [|[[p h] op] ops IH]; intros e fs; cbn [run_okb run_ok]; [done|]. intros [[[H1%bool_decide_eq_true H2%bool_decide_eq_true]%andb_true_iff H3]%andb_true_iff H4]%andb_true_iff.
  split; [done|]. split; [done|]. split; [by apply op_okb_sound|]. intros res e' E. rewrite E in H4. by apply IH.
Qed.

(** ** A file that is read after it was deleted *)
Definition name_a : bytes := bytes_of_string "/d/a"%string.
Definition name_b : bytes := bytes_of_string "/d/b"%string.
Definition mem_ops : list (nat * nat * MemOp) :=
  [(1, 1, ONewWritable name_a); (2, 2, OAppend 1 (bytes_of_string "hello"%string)); (2, 2, OClose 1); (2, 2, ORename name_a name_b);
   (2, 2, OChildren (bytes_of_string "/d"%string)); (2, 3, ONewSequential name_b); (2, 4, ODelete name_b); (2, 4, ORead 3 4); (2, 4, ORead 3 4); (2, 4, OExists name_b); (2, 4, OClose 3)]%nat.

Lemma memenv_refines_file_system_witness : exists e', env_run (replicate 8192 Byte.x00) mem_ops new_InMemoryEnv =
  Some ([ROpened OK (Some 1%nat); RStatus OK; RNone; RStatus OK; RNames OK [bytes_of_string "b"%string]; ROpened OK (Some 3%nat); RStatus OK;
         RData OK (bytes_of_string "hell"%string); RData OK (bytes_of_string "o"%string); RBool false; RNone], e') /\ states e' = ∅.
Proof.
  destruct (memenv_refines_file_system (replicate 8192 Byte.x00) mem_ops) as (e' & E & Hst & _); [vm_compute; reflexivity|apply run_okb_sound; vm_compute; reflexivity|].
  exists e'. split.
  - rewrite E. vm_compute. reflexivity.
  - apply map_empty. intros p. apply eq_None_not_Some. intros [(f & Hf)|(h & o & Ho & _)]%Hst.
    + apply elem_of_dom_2 in Hf. revert Hf. change (f ∈ dom (∅ : gmap bytes nat) -> False). by rewrite dom_empty_L, elem_of_empty.
    + apply elem_of_dom_2 in Ho. revert Ho. change (h ∈ dom (∅ : gmap nat OpenFile) -> False). by rewrite dom_empty_L, elem_of_empty.
Defined.

(** RenameFile of a file to its own name returns OK and the file is gone, where
    rename of POSIX leaves it as it is: DeleteFileInternal(target) removes the
    entry, file_map_[src] then adds a NULL one, and erase(src) drops it. *)
Theorem rename_to_itself_deletes e fs f p : mem_rel e fs -> fs_names fs !! f = Some p ->
  exists e', mem_RenameFile f f e = Some (OK, e') /\ mem_FileExists f e' = false.
Proof.
  intros HR Hf. destruct (RenameFile_itself e fs f p HR Hf) as (e' & E & _ & H). by exists e'.
Qed.
