(* ===== verification/Iterator.v ===== *)
(** * Iterators (include/pebblesdb/iterator.h, table/iterator.cc,
    table/iterator_wrapper.h)

    The Iterator interface as a record of operations over a state, and its
    contract as a class: the source is a list of entries and the state of the
    iterator stands for a position in it.  Producers (blocks, memtables) prove
    the contract, consumers (two-level and merging iterators, database
    iterators) are proved against it. *)

From Stdlib Require Import ZArith Lia Bool.
From stdpp Require Import base list.
From S2P Require Import Prelude Comparator Status.

Set Default Goal Selector "!".
Local Open Scope Z_scope.

(** The virtual methods of Iterator.  A method that moves the iterator gives
    [None] if a loop of its model runs out of fuel; the contract excludes it. *)
Record IterOps := {
  St : Set;
  Valid : St -> bool;
  SeekToFirst : St -> option St;
  SeekToLast : St -> option St;
  Seek : bytes -> St -> option St;
  Next : St -> option St;
  Prev : St -> option St;
  key : St -> bytes;
  value : St -> bytes;
  status : St -> Status;
}.

(** ** EmptyIterator: [NewEmptyIterator] is [OK], [NewErrorIterator s] is [s]. *)
Definition EmptyIterator : IterOps := {|
  St := Status;
  Valid _ := false;
  SeekToFirst s := Some s;
  SeekToLast s := Some s;
  Seek _ s := Some s;
  Next s := Some s;
  Prev s := Some s;
  key _ := [];
  value _ := [];
  status s := s;
|}.

Definition NewEmptyIterator : St EmptyIterator := OK.
Definition NewErrorIterator (s : Status) : St EmptyIterator := s.

(** ** IteratorWrapper: caches [Valid()] and [key()] of the iterator inside.
    The wrapper without an iterator is [None] where it is used. *)
Section Wrapper.
Context (I : IterOps).

Record Wrapper := { w_iter : St I; w_valid : bool; w_key : bytes }.

(** Update() keeps the old key when the iterator is not valid. *)
Definition w_Update (old_key : bytes) (s : St I) : Wrapper :=
  {| w_iter := s; w_valid := Valid I s; w_key := if Valid I s then key I s else old_key |}.

(** Set(it) of a wrapper whose cached key is [old_key]. *)
Definition w_Set (old_key : bytes) (it : St I) : Wrapper := w_Update old_key it.

Definition w_lift (f : St I -> option (St I)) (w : Wrapper) : option Wrapper :=
  w_Update (w_key w) <$> f (w_iter w).

Definition IteratorWrapper : IterOps := {|
  St := Wrapper;
  Valid := w_valid;
  SeekToFirst := w_lift (SeekToFirst I);
  SeekToLast := w_lift (SeekToLast I);
  Seek target := w_lift (Seek I target);
  Next := w_lift (Next I);
  Prev := w_lift (Prev I);
  key := w_key;
  value w := value I (w_iter w);
  status w := status I (w_iter w);
|}.
End Wrapper.

(** ** The virtual methods of one of two kinds of iterators *)
Definition SumIterator (A B : IterOps) : IterOps := {|
  St := (St A + St B)%type;
  Valid s := match s with inl a => Valid A a | inr b => Valid B b end;
  SeekToFirst s := match s with inl a => inl <$> SeekToFirst A a | inr b => inr <$> SeekToFirst B b end;
  SeekToLast s := match s with inl a => inl <$> SeekToLast A a | inr b => inr <$> SeekToLast B b end;
  Seek target s := match s with inl a => inl <$> Seek A target a | inr b => inr <$> Seek B target b end;
  Next s := match s with inl a => inl <$> Next A a | inr b => inr <$> Next B b end;
  Prev s := match s with inl a => inl <$> Prev A a | inr b => inr <$> Prev B b end;
  key s := match s with inl a => key A a | inr b => key B b end;
  value s := match s with inl a => value A a | inr b => value B b end;
  status s := match s with inl a => status A a | inr b => status B b end;
|}.

(** Which way DBIter and MergingIterator move. *)
Inductive Direction := kForward | kReverse.

(** ** The contract *)

Notation entry := (bytes * bytes)%type.

(** A position: at the entry with that index, or not valid. *)
Notation pos := (option nat).

Definition first_pos (n : nat) : pos := if decide (n = 0)%nat then None else Some 0%nat.
Definition last_pos (n : nat) : pos := match n with O => None | S m => Some m end.
Definition next_pos (n i : nat) : pos := if decide (S i < n)%nat then Some (S i) else None.
Definition prev_pos (i : nat) : pos := match i with O => None | S j => Some j end.

(** The first entry whose key is at or past the target. *)
Definition seek_pos (c : Comparator) (l : list entry) (target : bytes) : pos :=
  fst <$> list_find (fun kv => 0 <= Compare c (fst kv) target) l.

(** Keys ascend strictly. *)
Definition sorted_keys (c : Comparator) (l : list entry) : Prop :=
  forall i j a b, (i < j)%nat -> l !! i = Some a -> l !! j = Some b -> Compare c (fst a) (fst b) < 0.

Class IterOk (I : IterOps) (c : Comparator) (dom : bytes -> Prop) (l : list entry)
    (R : St I -> pos -> Prop) : Prop := {
  io_valid s p : R s p -> Valid I s = match p with Some _ => true | None => false end;
  io_entry s i : R s (Some i) -> l !! i = Some (key I s, value I s);
  io_status s p : R s p -> ok (status I s) = true;
  io_next s i : R s (Some i) -> exists s', Next I s = Some s' /\ R s' (next_pos (length l) i);
  io_prev s i : R s (Some i) -> exists s', Prev I s = Some s' /\ R s' (prev_pos i);
  io_first s p : R s p -> exists s', SeekToFirst I s = Some s' /\ R s' (first_pos (length l));
  io_last s p : R s p -> exists s', SeekToLast I s = Some s' /\ R s' (last_pos (length l));
  io_seek s p target : R s p -> dom target ->
    exists s', Seek I target s = Some s' /\ R s' (seek_pos c l target);
}.

(** ** Positions *)

Lemma seek_pos_Some c l target i :
  seek_pos c l target = Some i <->
  exists kv, l !! i = Some kv /\ 0 <= Compare c (fst kv) target /\
    forall j kv', (j < i)%nat -> l !! j = Some kv' -> Compare c (fst kv') target < 0.
Proof.
  unfold seek_pos. split.
  - intros ([i' kv] & (Hl & Hp & Hj)%list_find_Some & E)%fmap_Some. simpl in E. subst i'.
    exists kv. split; [done|]. split; [done|]. intros j kv' Hlt Hl'.
    specialize (Hj j kv' Hl' Hlt). lia.
  - intros (kv & Hl & Hp & Hj). apply fmap_Some. exists (i, kv). split; [|done].
    apply list_find_Some. split; [done|]. split; [done|]. intros j kv' Hl' Hlt.
    specialize (Hj j kv' Hlt Hl'). lia.
Qed.

Lemma seek_pos_None c l target :
  seek_pos c l target = None <-> Forall (fun kv => Compare c (fst kv) target < 0) l.
Proof.
  unfold seek_pos. rewrite fmap_None, list_find_None.
  split; (intros H; eapply Forall_impl; [exact H|simpl; intros; lia]).
Qed.

(** The position after the first [n] entries. *)
Definition at_count (l : list entry) (n : nat) : pos := if decide (n < length l)%nat then Some n else None.

Lemma seek_pos_count c l target :
  seek_pos c l target = at_count l (prefix_len (fun e => Compare c (fst e) target <? 0) l).
Proof.
  set (n := prefix_len _ l). unfold at_count. pose proof (prefix_len_le (fun e => Compare c (fst e) target <? 0) l) as Hle.
  destruct (decide (n < length l)%nat) as [Hn|Hn].
  - destruct (lookup_lt_is_Some_2 l n Hn) as [e He]. apply seek_pos_Some. exists e. split; [done|].
    split; [by apply prefix_len_at, Z.ltb_ge in He|]. intros j kv Hj Hkv. by apply Z.ltb_lt, (prefix_len_before (fun e => Compare c (fst e) target <? 0) l j).
  - apply seek_pos_None, Forall_lookup. intros j kv Hkv. apply Z.ltb_lt, (prefix_len_before (fun e => Compare c (fst e) target <? 0) l j); [|done].
    apply lookup_lt_Some in Hkv. fold n. lia.
Qed.

Lemma io_key {I c dom l R} `{!IterOk I c dom l R} s i kv :
  R s (Some i) -> l !! i = Some kv -> key I s = fst kv /\ value I s = snd kv.
Proof. intros H Hl. rewrite (io_entry s i H) in Hl. by injection Hl as <-. Qed.

Lemma io_bound {I c dom l R} `{!IterOk I c dom l R} s i : R s (Some i) -> (i < length l)%nat.
Proof. intros H%io_entry. by apply lookup_lt_Some in H. Qed.

(** A loop over the entries: [pre] is behind the iterator, the rest before it. *)
Lemma io_at_first {I c dom l R} `{!IterOk I c dom l R} s p :
  R s p -> exists s', SeekToFirst I s = Some s' /\ R s' (at_count l 0).
Proof.
  intros H. destruct (io_first s p H) as (s' & E & HR). exists s'. split; [done|]. unfold at_count, first_pos in *.
  destruct (decide (length l = 0)%nat); [rewrite decide_False by lia|rewrite decide_True by lia]; done.
Qed.

Lemma io_at_end {I c dom l R} `{!IterOk I c dom l R} s : R s (at_count l (length l)) -> Valid I s = false.
Proof. unfold at_count. rewrite decide_False by lia. by intros ->%io_valid. Qed.

Lemma io_at_entry {I c dom} {l : list entry} {R} `{!IterOk I c dom l R} s pre e rest :
  l = pre ++ e :: rest -> R s (at_count l (length pre)) ->
  Valid I s = true /\ key I s = fst e /\ value I s = snd e /\
  exists s', Next I s = Some s' /\ R s' (at_count l (length (pre ++ [e]))).
Proof.
  intros El. unfold at_count at 1. rewrite decide_True by (rewrite El, length_app; simpl; lia). intros HR.
  split; [by rewrite (io_valid _ _ HR)|]. destruct (io_key s (length pre) e HR) as [-> ->].
  { by rewrite El, lookup_app_r, Nat.sub_diag by lia. }
  split; [done|]. split; [done|]. destruct (io_next _ _ HR) as (s' & E & HR'). exists s'. split; [done|].
  replace (at_count l (length (pre ++ [e]))) with (next_pos (length l) (length pre)); [done|].
  unfold at_count, next_pos. rewrite length_app. simpl. by replace (length pre + 1)%nat with (S (length pre)) by lia.
Qed.

(** ** Reading forward, up to the end or an error *)

(** From [s] on the iterator gives the entries [l] and then stops with the status
    [final]; an error that it meets on the way is still there at the end. *)
Fixpoint delivers (I : IterOps) (s : St I) (l : list entry) (final : Status) : Prop :=
  match l with
  | [] => Valid I s = false /\ status I s = final
  | e :: l => Valid I s = true /\ key I s = fst e /\ value I s = snd e /\ (final = OK -> status I s = OK) /\
              exists s', Next I s = Some s' /\ delivers I s' l final
  end.

Lemma io_delivers {I c dom} {l : list entry} {R} `{HI : !IterOk I c dom l R} rest : forall s pre, l = pre ++ rest -> R s (at_count l (length pre)) -> delivers I s rest OK.
Proof.
  induction rest as [|e rest IH]; intros s pre El HR; cbn [delivers].
  - rewrite app_nil_r in El. subst pre. split; [by apply (io_at_end s HR)|]. by apply ok_iff, (io_status _ _ HR).
  - destruct (io_at_entry s pre e rest El HR) as (Hv & Hk & Hx & s' & En & HR'). split; [done|]. split; [done|]. split; [done|]. split; [intros _; by apply ok_iff, (io_status _ _ HR)|].
    exists s'. split; [done|]. apply (IH s' (pre ++ [e])); [by rewrite <- app_assoc|done].
Qed.

(** An iterator that keeps the contract delivers its list without an error. *)
Lemma io_first_delivers {I c dom} {l : list entry} {R} `{HI : !IterOk I c dom l R} s p : R s p -> exists s', SeekToFirst I s = Some s' /\ delivers I s' l OK.
Proof. intros HR. destruct (io_at_first s p HR) as (s' & E & HR'). exists s'. split; [done|]. by apply (io_delivers l s' []). Qed.

(** ** EmptyIterator has no entries *)
#[export] Instance EmptyIterator_ok c dom :
  IterOk EmptyIterator c dom [] (fun s p => ok s = true /\ p = None).
Proof. split; simpl; intros *; intros [Hs Hp]; subst; try done; eauto. Qed.

(** ** A wrapper is as good as the iterator inside *)
Definition wrapper_rel {I} (R : St I -> pos -> Prop) (w : Wrapper I) (p : pos) : Prop :=
  R (w_iter I w) p /\ w_valid I w = Valid I (w_iter I w) /\
  (w_valid I w = true -> w_key I w = key I (w_iter I w)).

Lemma w_Update_rel {I} (R : St I -> pos -> Prop) old s p : R s p -> wrapper_rel R (w_Update I old s) p.
Proof. intros H. split; [done|]. split; [done|]. simpl. by intros ->. Qed.

Lemma w_lift_rel {I} (R : St I -> pos -> Prop) f w p :
  (exists s', f (w_iter I w) = Some s' /\ R s' p) ->
  exists w', w_lift I f w = Some w' /\ wrapper_rel R w' p.
Proof.
  intros (s' & E & H). exists (w_Update I (w_key I w) s'). unfold w_lift. rewrite E.
  split; [done|]. by apply w_Update_rel.
Qed.

#[export] Instance IteratorWrapper_ok I c dom l R :
  IterOk I c dom l R -> IterOk (IteratorWrapper I) c dom l (wrapper_rel R).
Proof.
  intros HI. split; cbn [St Valid SeekToFirst SeekToLast Seek Next Prev key value status IteratorWrapper].
  - intros w p (H & -> & _). by eapply io_valid.
  - intros w i (H & Hv & Hk). rewrite Hk; [by apply io_entry|]. rewrite Hv. by eapply io_valid in H as ->.
  - intros w p (H & _). by eapply io_status.
  - intros w i (H & _). by apply w_lift_rel, io_next.
  - intros w i (H & _). by apply w_lift_rel, io_prev.
  - intros w p (H & _). by eapply w_lift_rel, io_first.
  - intros w p (H & _). by eapply w_lift_rel, io_last.
  - intros w p target (H & _) Hd. by eapply w_lift_rel, io_seek.
Qed.

(** ** Either of two iterators over the same entries *)
Definition sum_rel {A B} (RA : St A -> pos -> Prop) (RB : St B -> pos -> Prop) (s : St A + St B) (p : pos) : Prop :=
  match s with inl a => RA a p | inr b => RB b p end.

Lemma fmap_rel {A B} (R : A -> pos -> Prop) (R' : B -> pos -> Prop) (g : A -> B) (m : option A) p :
  (forall a, R a p -> R' (g a) p) -> (exists a, m = Some a /\ R a p) -> exists b, g <$> m = Some b /\ R' b p.
Proof. intros H (a & -> & Ha). exists (g a). by split; [|apply H]. Qed.

#[export] Instance SumIterator_ok A B c dom l RA RB :
  IterOk A c dom l RA -> IterOk B c dom l RB -> IterOk (SumIterator A B) c dom l (sum_rel RA RB).
Proof.
  intros HA HB. split; cbn [St Valid SeekToFirst SeekToLast Seek Next Prev key value status SumIterator].
  - intros [a|b] p H; by apply (io_valid _ p H).
  - intros [a|b] i H; by apply (io_entry _ i H).
  - intros [a|b] p H; by apply (io_status _ p H).
  - intros [a|b] i H; by eapply fmap_rel, io_next.
  - intros [a|b] i H; by eapply fmap_rel, io_prev.
  - intros [a|b] p H; by eapply fmap_rel, io_first.
  - intros [a|b] p H; by eapply fmap_rel, io_last.
  - intros [a|b] p target H Hd; by eapply fmap_rel, io_seek.
Qed.

(** No state of the second kind arises. *)
#[export] Instance IterOk_none I c dom l : IterOk I c dom l (fun _ _ => False).
Proof. by split. Qed.
