(* ===== verification/BlockSpec.v ===== *)
(** * Correctness of blocks

    The entries added to a BlockBuilder are the source of the block's
    iterator: SeekToFirst, SeekToLast, Seek, Next and Prev move over exactly
    these entries, and no step reports corruption. *)

From Stdlib Require Import ZArith Lia Bool String.
From stdpp Require Import base list.
From S2P Require Import Prelude Coding Comparator Status Iterator Block.

Set Default Goal Selector "!".
Local Open Scope Z_scope.

(** ** Decoding one entry *)

(** What DecodeEntry does without its one-byte fast path and its last check. *)
Definition decode_fields (s : bytes) : option (Z * Z * Z * bytes) :=
  match GetVarint32Ptr s with
  | Some (a, s) =>
      match GetVarint32Ptr s with
      | Some (b, s) => match GetVarint32Ptr s with Some (c, s) => Some (a, b, c, s) | None => None end
      | None => None
      end
  | None => None
  end.

Lemma GetVarint32Ptr_small c p : b2z c < 128 -> GetVarint32Ptr (c :: p) = Some (b2z c, p).
Proof. intros H. unfold GetVarint32Ptr. rewrite land128_ltb. by apply Z.ltb_lt in H as ->. Qed.

Lemma lor_ltb_128 a b : 0 <= a -> 0 <= b -> Z.lor a b < 128 -> a < 128 /\ b < 128.
Proof.
  intros Ha Hb H. assert (0 <= Z.lor a b) as H0 by (apply Z.lor_nonneg; lia).
  assert (Z.lor a b = Z.lor a b mod 2 ^ 7) as E by (symmetry; apply Z.mod_small; change (2 ^ 7) with 128; lia).
  assert (forall x, 0 <= x -> (forall i, 7 <= i -> Z.testbit x i = false) -> x < 128) as Hx
    by (intros x Hx Hi; change 128 with (2 ^ 7); apply below_pow2_bits; [lia|exact Hx|exact Hi]).
  assert (forall i, 7 <= i -> Z.testbit (Z.lor a b) i = false) as Hz
    by (intros; rewrite E; apply Z.mod_pow2_bits_high; lia).
  split; apply Hx; try done; intros i Hi; specialize (Hz i Hi); rewrite Z.lor_spec in Hz; apply orb_false_iff in Hz as [? ?]; assumption.
Qed.

Lemma DecodeEntry_fields s a b c rest :
  decode_fields s = Some (a, b, c, rest) -> 3 <= len s -> 0 <= a -> 0 <= b -> 0 <= c ->
  b + c <= len rest -> len rest < 2 ^ 32 -> DecodeEntry s = Some (a, b, c, rest).
Proof.
  intros Hf Hl Ha Hb Hc Hr Hlen. destruct s as [|b0 [|b1 [|b2 s]]]; try (unfold len in Hl; simpl in Hl; lia).
  assert ((u32 (len rest) <? u32 (b + c)) = false) as E.
  { rewrite !u32_small by (len_facts; lia). apply Z.ltb_ge. lia. }
  unfold DecodeEntry. unfold decode_fields in Hf.
  destruct (Z.ltb_spec (Z.lor (Z.lor (b2z b0) (b2z b1)) (b2z b2)) 128) as [H|_].
  - pose proof (b2z_range b0). pose proof (b2z_range b1). pose proof (b2z_range b2).
    apply lor_ltb_128 in H as [H Hs2]; [|rewrite Z.lor_nonneg; lia|lia].
    apply lor_ltb_128 in H as [Hs0 Hs1]; [|lia|lia].
    rewrite GetVarint32Ptr_small in Hf by done. cbn beta iota in Hf.
    rewrite GetVarint32Ptr_small in Hf by done. cbn beta iota in Hf.
    rewrite GetVarint32Ptr_small in Hf by done. cbn beta iota in Hf.
    injection Hf as <- <- <- <-. by rewrite E.
  - destruct (GetVarint32Ptr (b0 :: b1 :: b2 :: s)) as [[a' s1]|]; [|done]. cbn beta iota in Hf.
    destruct (GetVarint32Ptr s1) as [[b' s2]|]; [|done]. cbn beta iota in Hf.
    destruct (GetVarint32Ptr s2) as [[c' s3]|]; [|done]. cbn beta iota in Hf.
    injection Hf as <- <- <- <-. by rewrite E.
Qed.

(** ** The layout of a block *)

Record item := { i_key : bytes; i_value : bytes; i_shared : nat }.

Definition i_entry (x : item) : entry := (i_key x, i_value x).

Definition enc (x : item) : bytes :=
  EncodeVarint32 (Z.of_nat (i_shared x)) ++
  EncodeVarint32 (len (i_key x) - Z.of_nat (i_shared x)) ++
  EncodeVarint32 (len (i_value x)) ++ drop (i_shared x) (i_key x) ++ i_value x.

Definition body (items : list item) : bytes := concat (map enc items).

(** The offset of the item with index [i]. *)
Definition off (items : list item) (i : nat) : Z := len (body (take i items)).

Definition item_ok (prev : bytes) (x : item) : Prop :=
  (i_shared x <= length prev)%nat /\ (i_shared x <= length (i_key x))%nat /\
  take (i_shared x) prev = take (i_shared x) (i_key x) /\
  len (i_key x) < 2 ^ 32 /\ len (i_value x) < 2 ^ 32.

Fixpoint items_ok (prev : bytes) (items : list item) : Prop :=
  match items with
  | [] => True
  | x :: items => item_ok prev x /\ items_ok (i_key x) items
  end.

(** [rs]: the indices of the items at the restart points. *)
Record restarts_ok (items : list item) (rs : list nat) : Prop := {
  rs_first : rs !! 0%nat = Some 0%nat;
  rs_bound : forall a i, rs !! a = Some i -> (a = 0 \/ i < length items)%nat;
  rs_shared : forall a i x, rs !! a = Some i -> items !! i = Some x -> i_shared x = 0%nat;
}.

Definition block_bytes (items : list item) (rs : list nat) : bytes :=
  body items ++ words (map (off items) rs) ++ EncodeFixed32 (len rs).

Lemma body_app a b : body (a ++ b) = body a ++ body b.
Proof. unfold body. by rewrite map_app, concat_app. Qed.

Lemma body_cons x items : body (x :: items) = enc x ++ body items.
Proof. done. Qed.

(** The key before the item that follows [items]. *)
Fixpoint last_key (prev : bytes) (items : list item) : bytes :=
  match items with [] => prev | x :: items => last_key (i_key x) items end.

Lemma last_key_app prev a b : last_key prev (a ++ b) = last_key (last_key prev a) b.
Proof. revert prev. induction a as [|x a IH]; intros prev; [done|]. apply IH. Qed.

Lemma items_ok_app prev a b :
  items_ok prev (a ++ b) <-> items_ok prev a /\ items_ok (last_key prev a) b.
Proof.
  revert prev. induction a as [|x a IH]; intros prev; [simpl; tauto|].
  cbn [items_ok app last_key]. rewrite IH. tauto.
Qed.

Lemma enc_len x : 3 <= len (enc x).
Proof.
  unfold enc. rewrite !len_app.
  pose proof (len_EncodeVarint32_bounds (Z.of_nat (i_shared x))).
  pose proof (len_EncodeVarint32_bounds (len (i_key x) - Z.of_nat (i_shared x))).
  pose proof (len_EncodeVarint32_bounds (len (i_value x))). len_facts. lia.
Qed.

Lemma off_S items i x : items !! i = Some x -> off items (S i) = off items i + len (enc x).
Proof.
  intros H. unfold off. rewrite (take_S_r _ _ _ H), body_app, len_app.
  cbn [body map concat]. unfold body. simpl. by rewrite app_nil_r.
Qed.

Lemma off_le items i j : (i <= j)%nat -> off items i <= off items j.
Proof.
  intros H. unfold off. replace j with (i + (j - i))%nat by lia. rewrite <- take_take_drop, body_app, len_app.
  len_facts. lia.
Qed.

Lemma off_lt items i j : (i < j)%nat -> (i < length items)%nat -> off items i < off items j.
Proof.
  intros H Hi. destruct (lookup_lt_is_Some_2 items i Hi) as [x Hx].
  pose proof (off_S _ _ _ Hx). pose proof (enc_len x). pose proof (off_le items (S i) j ltac:(lia)). lia.
Qed.

Lemma off_all items i : (length items <= i)%nat -> off items i = len (body items).
Proof. intros H. unfold off. by rewrite take_ge. Qed.

Lemma off_bound items i : 0 <= off items i <= len (body items).
Proof.
  split; [apply len_nonneg|]. unfold off. rewrite <- (take_drop i items) at 2. rewrite body_app, len_app.
  len_facts. lia.
Qed.

Lemma body_drop items i x :
  items !! i = Some x -> drop (Z.to_nat (off items i)) (body items) = enc x ++ body (drop (S i) items).
Proof.
  intros H. rewrite <- (take_drop_middle items i x H) at 2. rewrite body_app, body_cons.
  apply drop_len_app. unfold off. by rewrite to_nat_len.
Qed.

(** ** One step of the iterator *)
Section Iteration.
Context (items : list item) (rs : list nat).
Context (Hitems : items_ok [] items) (Hrs : restarts_ok items rs).
Context (Hsize : len (block_bytes items rs) < 2 ^ 32).

(** An iterator of this block that has not seen an error. *)
Definition of_block (it : Iter) : Prop :=
  it_data it = block_bytes items rs /\ it_restarts it = len (body items) /\
  it_num_restarts it = len rs /\ it_status it = OK.

(** The key part of item [i] can be read on top of the key [k]. *)
Definition key_fits (k : bytes) (i : nat) : Prop :=
  forall x, items !! i = Some x ->
    (i_shared x <= length k)%nat /\ take (i_shared x) k = take (i_shared x) (i_key x).

(** ParseNextKey will read item [i]. *)
Definition before (it : Iter) (i : nat) : Prop :=
  of_block it /\ it_voff it + it_vlen it = off items i /\ key_fits (it_key it) i /\
  0 <= it_restart_index it < len rs.

(** The iterator stands at item [i]. *)
Definition at_item (it : Iter) (i : nat) : Prop :=
  of_block it /\ 0 <= it_restart_index it < len rs /\ it_current it = off items i /\
  exists x, items !! i = Some x /\ it_key it = i_key x /\
    it_vlen it = len (i_value x) /\ it_voff it = off items (S i) - len (i_value x).

Definition invalid (it : Iter) : Prop := of_block it /\ it_current it = len (body items).

Lemma size_facts : len (body items) < 2 ^ 32 /\ 1 <= len rs < 2 ^ 30 /\
  len (block_bytes items rs) = len (body items) + 4 * len rs + 4.
Proof.
  assert (len (block_bytes items rs) = len (body items) + 4 * len rs + 4) as E.
  { unfold block_bytes. rewrite !len_app, len_words, len_EncodeFixed32.
    unfold len at 2. rewrite length_map. unfold len. lia. }
  pose proof (rs_first _ _ Hrs) as H. apply lookup_lt_Some in H.
  rewrite E in *. len_facts. unfold len in *. lia.
Qed.

Lemma take_body : take (Z.to_nat (len (body items))) (block_bytes items rs) = body items.
Proof. unfold block_bytes. apply take_len_app. apply to_nat_len. Qed.

Lemma items_ok_lookup i x :
  items !! i = Some x -> item_ok (last_key [] (take i items)) x.
Proof.
  intros H. pose proof Hitems as Hi. rewrite <- (take_drop_middle items i x H), items_ok_app in Hi.
  by destruct Hi as (_ & ? & _).
Qed.

Lemma decode_item i x :
  items !! i = Some x ->
  DecodeEntry (drop (Z.to_nat (off items i)) (body items)) =
    Some (Z.of_nat (i_shared x), len (i_key x) - Z.of_nat (i_shared x), len (i_value x),
          drop (i_shared x) (i_key x) ++ i_value x ++ body (drop (S i) items)).
Proof.
  intros H. pose proof (items_ok_lookup i x H) as (_ & Hs & _ & Hk & Hv).
  destruct size_facts as (Hb & _ & _).
  assert (len (drop (Z.to_nat (off items i)) (body items)) < 2 ^ 32) as Hlen
    by (rewrite len_drop; len_facts; lia).
  rewrite (body_drop items i x H) in *. pose proof (enc_len x).
  assert (0 <= Z.of_nat (i_shared x) < 2 ^ 32) by (unfold len in *; lia).
  apply DecodeEntry_fields; try (unfold len in *; lia).
  - unfold decode_fields, enc. rewrite <- !app_assoc.
    rewrite (GetVarint32_EncodeVarint32 (Z.of_nat (i_shared x))) by done. cbn beta iota.
    rewrite GetVarint32_EncodeVarint32 by (unfold len in *; lia). cbn beta iota.
    by rewrite GetVarint32_EncodeVarint32 by (unfold len in *; lia).
  - rewrite len_app. len_facts. lia.
  - rewrite !len_app, len_drop. unfold len in *. lia.
  - unfold enc in Hlen. rewrite !len_app in Hlen. rewrite !len_app. len_facts. lia.
Qed.

Lemma GetRestartPoint_ok it j r :
  of_block it -> rs !! j = Some r -> GetRestartPoint it (Z.of_nat j) = off items r.
Proof.
  intros (Ed & Er & _) Hj. unfold GetRestartPoint. rewrite Ed, Er.
  replace (Z.to_nat (len (body items) + Z.of_nat j * 4)) with (length (body items) + 4 * j)%nat
    by (unfold len; lia).
  unfold block_bytes. erewrite DecodeFixed32_words; [|rewrite list_lookup_fmap, Hj; reflexivity].
  apply u32_small. pose proof (off_bound items r). destruct size_facts. lia.
Qed.

Lemma advance_restart_range fuel it current : forall index,
  of_block it -> 0 <= index < len rs -> 0 <= advance_restart fuel it current index < len rs.
Proof.
  destruct size_facts as (_ & Hn & _).
  induction fuel as [|fuel IH]; intros index Hit Hi; [done|]. cbn [advance_restart].
  pose proof Hit as (_ & _ & En & _). rewrite En, u32_small by lia.
  destruct (Z.ltb_spec (index + 1) (len rs)); [|done]. cbn [andb].
  destruct (_ <? current); [|done]. apply IH; [done|lia].
Qed.

Lemma key_fits_next i x : items !! i = Some x -> key_fits (i_key x) (S i).
Proof.
  intros Hx y Hy. pose proof (items_ok_lookup (S i) y Hy) as (H1 & _ & H2 & _).
  rewrite (take_S_r _ _ _ Hx), last_key_app in H1, H2. done.
Qed.

(** The bytes before the key delta of an item and those after it. *)
Lemma body_at_item i x :
  items !! i = Some x ->
  exists pre, body items = pre ++ drop (i_shared x) (i_key x) ++ i_value x ++ body (drop (S i) items) /\
    len pre = off items (S i) - len (drop (i_shared x) (i_key x)) - len (i_value x).
Proof.
  intros Hx. exists (body (take i items) ++ EncodeVarint32 (Z.of_nat (i_shared x)) ++
    EncodeVarint32 (len (i_key x) - Z.of_nat (i_shared x)) ++ EncodeVarint32 (len (i_value x))).
  split.
  - rewrite <- (take_drop_middle items i x Hx) at 1. rewrite body_app, body_cons. unfold enc.
    by rewrite <- !app_assoc.
  - rewrite (off_S items i x Hx). unfold off, enc. rewrite !len_app. lia.
Qed.

Lemma key_delta i x :
  items !! i = Some x ->
  let p := len (body items) - len (drop (i_shared x) (i_key x) ++ i_value x ++ body (drop (S i) items)) in
  p = off items (S i) - len (drop (i_shared x) (i_key x)) - len (i_value x) /\
  take (Z.to_nat (len (i_key x) - Z.of_nat (i_shared x))) (drop (Z.to_nat p) (block_bytes items rs)) =
    drop (i_shared x) (i_key x).
Proof.
  intros Hx p. destruct (body_at_item i x Hx) as (pre & EB & ES).
  assert (p = len pre) as -> by (subst p; rewrite EB, len_app; lia).
  split; [done|]. unfold block_bytes. rewrite EB, <- app_assoc, to_nat_len, drop_app_length, <- !app_assoc.
  apply take_len_app. rewrite length_drop. pose proof (items_ok_lookup i x Hx) as (_ & Hs & _).
  unfold len. lia.
Qed.

Lemma parse_item it i x :
  before it i -> items !! i = Some x ->
  fst (ParseNextKey it) = true /\ at_item (snd (ParseNextKey it)) i.
Proof.
  intros (Hb & Eo & Hfit & Hri) Hx. pose proof Hb as (Ed & Er & En & Es).
  destruct size_facts as (Hbody & _ & _). pose proof (off_bound items i).
  pose proof (off_lt items i (length items) ltac:(by apply lookup_lt_Some in Hx) ltac:(by apply lookup_lt_Some in Hx)) as Hlt.
  rewrite (off_all items (length items)) in Hlt by done.
  destruct (Hfit x Hx) as [Hsh Htake]. pose proof (items_ok_lookup i x Hx) as (_ & Hs & _ & Hk & Hv).
  unfold ParseNextKey, NextEntryOffset. rewrite Eo, u32_small, Er by lia.
  rewrite (proj2 (Z.leb_gt _ _)) by lia. rewrite Ed, take_body, (decode_item i x Hx).
  rewrite (proj2 (Z.ltb_ge _ _)) by (unfold len; lia). cbn [fst snd]. split; [done|].
  destruct (key_delta i x Hx) as [Ep ->]. split; [done|]. cbn.
  split; [by apply advance_restart_range|]. split; [done|]. exists x. split; [done|].
  split; [|split; [done|]; rewrite Ep, len_drop; unfold len in *; lia].
  rewrite Nat2Z.id, Htake. apply take_drop.
Qed.

Lemma parse_end it i :
  before it i -> (length items <= i)%nat -> fst (ParseNextKey it) = false /\ invalid (snd (ParseNextKey it)).
Proof.
  intros (Hb & Eo & _) Hi. pose proof Hb as (Ed & Er & En & Es). rewrite off_all in Eo by done.
  destruct size_facts as (Hbody & _ & _).
  unfold ParseNextKey, NextEntryOffset. rewrite Eo, u32_small, Er by (len_facts; lia).
  rewrite (proj2 (Z.leb_le _ _)) by lia. split; [done|]. by split.
Qed.

Lemma at_before it i : at_item it i -> before it (S i).
Proof.
  intros (Hb & Hri & Ec & x & Hx & Ek & Ev & Eo). split; [done|]. split; [lia|]. split; [|done].
  rewrite Ek. by eapply key_fits_next.
Qed.

Lemma restart_before it j r : of_block it -> rs !! j = Some r -> before (SeekToRestartPoint it (Z.of_nat j)) r.
Proof.
  intros Hb Hj. split; [done|]. cbn [it_voff it_vlen it_key it_restart_index SeekToRestartPoint].
  rewrite (GetRestartPoint_ok it j r) by done. split; [lia|].
  split; [|apply lookup_lt_Some in Hj; unfold len; lia].
  intros x Hx. rewrite (rs_shared _ _ Hrs j r x Hj Hx). split; [lia|done].
Qed.

Lemma at_valid it i : at_item it i -> it_current it < it_restarts it.
Proof.
  intros ((_ & -> & _) & _ & -> & x & Hx & _). apply lookup_lt_Some in Hx.
  rewrite <- (off_all items (length items)) by done. by apply off_lt.
Qed.

Lemma at_next_offset it i : at_item it i -> NextEntryOffset it = off items (S i).
Proof.
  intros (_ & _ & _ & x & _ & _ & Ev & Eo). unfold NextEntryOffset. rewrite Ev, Eo, Z.sub_add.
  apply u32_small. pose proof (off_bound items (S i)). destruct size_facts. lia.
Qed.

(** Scanning forward from item [i] to the end of item [m] stops at [m]. *)
Lemma parse_until_ok m fuel : forall it i,
  before it i -> (i <= m < length items)%nat -> (m - i < fuel)%nat ->
  exists it', parse_until fuel it (off items (S m)) = Some it' /\ at_item it' m.
Proof.
  induction fuel as [|fuel IH]; intros it i Hb Hi Hf; [lia|]. cbn [parse_until].
  destruct (lookup_lt_is_Some_2 items i) as [x Hx]; [lia|].
  destruct (parse_item it i x Hb Hx) as [E Hat]. destruct (ParseNextKey it) as [b it1]. cbn [fst snd] in *.
  subst b. cbn [andb]. rewrite (at_next_offset it1 i Hat).
  destruct (decide (i = m)) as [->|Hm].
  - rewrite Z.ltb_irrefl. by exists it1.
  - pose proof (off_lt items (S i) (S m) ltac:(lia) ltac:(lia)). rewrite (proj2 (Z.ltb_lt _ _)) by done.
    apply (IH it1 (S i)); [by apply at_before|lia|lia].
Qed.

Lemma scan_fuel_enough it m : of_block it -> (m <= length items)%nat -> (m < scan_fuel it)%nat.
Proof.
  intros (Ed & _) Hm. unfold scan_fuel. rewrite Ed. destruct size_facts as (_ & _ & E).
  assert (forall l : list item, Z.of_nat (length l) <= len (body l)) as Hl.
  { induction l as [|x l IHl]; [done|]. rewrite body_cons, len_app. pose proof (enc_len x). simpl length. lia. }
  specialize (Hl items). unfold len in *. lia.
Qed.

Lemma prev_restart_ok it i k :
  at_item it i -> (k < length rs)%nat ->
  match prev_restart k it (off items i) with
  | Some j => exists r, rs !! j = Some r /\ (r < i)%nat
  | None => i = 0%nat
  end.
Proof.
  intros Hat. pose proof Hat as (Hb & _ & _ & x & Hx & _). apply lookup_lt_Some in Hx.
  induction k as [|k IH]; intros Hk; (destruct (lookup_lt_is_Some_2 rs _ Hk) as [r Hr]); cbn [prev_restart];
    rewrite (GetRestartPoint_ok it _ r Hb Hr); destruct (Z.leb_spec (off items i) (off items r)) as [Hle|Hlt].
  - rewrite (rs_first _ _ Hrs) in Hr. injection Hr as <-. destruct i as [|i]; [done|].
    pose proof (off_lt items 0 (S i) ltac:(lia) ltac:(lia)). lia.
  - exists r. split; [done|]. destruct (Nat.lt_ge_cases r i) as [|H]; [done|].
    pose proof (off_le items i r H). lia.
  - apply IH. lia.
  - exists r. split; [done|]. destruct (Nat.lt_ge_cases r i) as [|H]; [done|].
    pose proof (off_le items i r H). lia.
Qed.

(** The position relation of the block iterator. *)
Definition block_rel (it : Iter) (p : pos) : Prop :=
  match p with Some i => at_item it i | None => invalid it end.

Lemma block_rel_of_block it p : block_rel it p -> of_block it.
Proof. by destruct p; intros (H & _). Qed.

Lemma iter_Prev_ok it i : at_item it i -> exists it', iter_Prev it = Some it' /\ block_rel it' (prev_pos i).
Proof.
  intros Hat. pose proof Hat as (Hb & Hri & Ec & x & Hx & _). apply lookup_lt_Some in Hx.
  unfold iter_Prev. rewrite Ec.
  pose proof (prev_restart_ok it i (Z.to_nat (it_restart_index it)) Hat ltac:(unfold len in *; lia)) as H.
  destruct (prev_restart _ _ _) as [j|].
  - destruct H as (r & Hr & Hlt). destruct i as [|i]; [lia|]. cbn [prev_pos block_rel].
    apply (parse_until_ok i _ _ r); [by apply restart_before|lia|].
    pose proof (scan_fuel_enough it (S i) Hb ltac:(lia)). lia.
  - subst i. eexists. split; [done|]. destruct Hb as (? & ? & ? & ?). by split.
Qed.

Lemma last_restart : exists r, rs !! (length rs - 1)%nat = Some r /\ (r = 0 \/ r < length items)%nat.
Proof.
  pose proof (rs_first _ _ Hrs) as H0. pose proof (lookup_lt_Some _ _ _ H0).
  destruct (lookup_lt_is_Some_2 rs (length rs - 1)) as [r Hr]; [lia|]. exists r. split; [done|].
  destruct (rs_bound _ _ Hrs _ _ Hr) as [E|]; [|by right]. rewrite E, H0 in Hr. injection Hr as <-. by left.
Qed.

Lemma SeekToLast_ok c it p :
  block_rel it p -> exists it', SeekToLast (BlockIter c) it = Some it' /\ block_rel it' (last_pos (length items)).
Proof.
  intros Hb%block_rel_of_block. pose proof Hb as (_ & Er & En & _). destruct size_facts as (_ & Hn & _).
  destruct last_restart as (r & Hr & Hlt). cbn [SeekToLast BlockIter].
  rewrite En, Er, u32_small by lia. replace (len rs - 1) with (Z.of_nat (length rs - 1)) by (unfold len in *; lia).
  pose proof (restart_before it _ r Hb Hr) as Hbef.
  destruct (length items) as [|m] eqn:Em; cbn [last_pos block_rel].
  - unfold scan_fuel. cbn [parse_until]. destruct (parse_end _ r Hbef ltac:(lia)) as [E Hinv].
    destruct (ParseNextKey _) as [b it1]. cbn [fst snd] in *. subst b. by exists it1.
  - rewrite <- (off_all items (S m)) by lia.
    apply (parse_until_ok m _ _ r); [done|lia|].
    pose proof (scan_fuel_enough it (S m) Hb ltac:(lia)). lia.
Qed.

Lemma SeekToFirst_ok it p :
  block_rel it p -> block_rel (snd (ParseNextKey (SeekToRestartPoint it 0))) (first_pos (length items)).
Proof.
  intros Hb%block_rel_of_block. pose proof (restart_before it 0 0 Hb (rs_first _ _ Hrs)) as Hbef.
  unfold first_pos. case_decide as Hn; cbn [block_rel].
  - apply parse_end with 0%nat; [done|lia].
  - destruct (lookup_lt_is_Some_2 items 0) as [x Hx]; [lia|]. by eapply parse_item.
Qed.

Lemma Next_ok it i : at_item it i -> block_rel (snd (ParseNextKey it)) (next_pos (length items) i).
Proof.
  intros Hat%at_before. unfold next_pos. case_decide as Hn; cbn [block_rel].
  - destruct (lookup_lt_is_Some_2 items (S i)) as [x Hx]; [lia|]. by eapply parse_item.
  - apply parse_end with (S i); [done|lia].
Qed.

(** ** Seek *)
Section SeekProofs.
Context (c : Comparator) (dom : bytes -> Prop) {Hcmp : ComparatorOk c dom}.
Context (Hsorted : sorted_keys c (map i_entry items)).
Context (Hdom : Forall (fun x => dom (i_key x)) items).
Context (target : bytes) (Htarget : dom target).

(** All items before [i] are before the target. *)
Definition all_before (i : nat) : Prop :=
  forall j x, (j < i)%nat -> items !! j = Some x -> Compare c (i_key x) target < 0.

Lemma all_before_item i x : items !! i = Some x -> Compare c (i_key x) target < 0 -> all_before i.
Proof.
  intros Hx Hlt j y Hj Hy. eapply cmp_lt_trans; [| | |exact (Hsorted j i (i_entry y) (i_entry x) Hj
    ltac:(by rewrite list_lookup_fmap, Hy) ltac:(by rewrite list_lookup_fmap, Hx))|exact Hlt]; try done.
  all: by eapply (Forall_lookup_1 _ items _ _ Hdom).
Qed.

Lemma seek_linear_ok fuel : forall it i,
  before it i -> all_before i -> (i <= length items)%nat -> (length items - i < fuel)%nat ->
  exists it', seek_linear c fuel it target = Some it' /\ block_rel it' (seek_pos c (map i_entry items) target).
Proof.
  induction fuel as [|fuel IH]; intros it i Hb Hall Hi Hf; [lia|]. cbn [seek_linear].
  destruct (decide (i < length items)%nat) as [Hlt|Hge].
  - destruct (lookup_lt_is_Some_2 items i Hlt) as [x Hx].
    destruct (parse_item it i x Hb Hx) as [E Hat]. destruct (ParseNextKey it) as [b it1]. cbn [fst snd] in *.
    subst b. cbn [negb]. pose proof Hat as (_ & _ & _ & x' & Hx' & -> & _).
    rewrite Hx in Hx'. injection Hx' as <-.
    destruct (Z.leb_spec 0 (Compare c (i_key x) target)) as [Hge|Hlt'].
    + exists it1. split; [done|]. replace (seek_pos _ _ _) with (Some i); [done|]. symmetry.
      apply seek_pos_Some. exists (i_entry x). split; [by rewrite list_lookup_fmap, Hx|]. split; [done|].
      intros j kv Hj (y & -> & Hy)%list_lookup_fmap_Some. by apply (Hall j).
    + apply (IH it1 (S i)); [by apply at_before| |lia|lia].
      intros j y Hj Hy. destruct (decide (j = i)) as [->|]; [by rewrite Hx in Hy; injection Hy as <-|].
      apply (Hall j); [lia|done].
  - destruct (parse_end it i Hb ltac:(lia)) as [E Hinv]. destruct (ParseNextKey it) as [b it1]. cbn [fst snd] in *.
    subst b. exists it1. split; [done|]. replace (seek_pos _ _ _) with (@None nat); [done|]. symmetry.
    apply seek_pos_None, Forall_lookup_2. intros j kv (y & -> & Hy)%list_lookup_fmap_Some.
    apply (Hall j); [|done]. apply lookup_lt_Some in Hy. lia.
Qed.

Lemma seek_binary_ok it fuel : of_block it -> forall l r,
  (l <= r < length rs)%nat -> (r - l < fuel)%nat ->
  (exists i, rs !! l = Some i /\ all_before i) ->
  exists j i, seek_binary c fuel it target (Z.of_nat l) (Z.of_nat r) = Some (Some (Z.of_nat j)) /\
    rs !! j = Some i /\ all_before i.
Proof.
  intros Hb. pose proof Hb as (Ed & Er & _). destruct size_facts as (Hbody & Hn & _).
  induction fuel as [|fuel IH]; intros l r Hlr Hf Hl; [lia|]. cbn [seek_binary].
  destruct (Z.ltb_spec (Z.of_nat l) (Z.of_nat r)) as [Hlt|Hge].
  2: { destruct Hl as (i & Hi & Hall). by exists l, i. }
  rewrite u32_small by (unfold len in *; lia).
  assert (exists m, (Z.of_nat l + Z.of_nat r + 1) / 2 = Z.of_nat m /\ (l < m <= r)%nat) as (m & -> & Hm).
  { exists ((l + r + 1) / 2)%nat. split; [rewrite Nat2Z.inj_div; f_equal; lia|].
    split; [apply Nat.div_le_lower_bound; lia|apply Nat.Div0.div_le_upper_bound; lia]. }
  destruct (lookup_lt_is_Some_2 rs m) as [i Hi]; [lia|].
  destruct (rs_bound _ _ Hrs m i Hi) as [|Hin]; [lia|].
  destruct (lookup_lt_is_Some_2 items i Hin) as [x Hx].
  rewrite (GetRestartPoint_ok it m i Hb Hi), Er, Ed, take_body, (decode_item i x Hx).
  pose proof (rs_shared _ _ Hrs m i x Hi Hx) as Es.
  destruct (key_delta i x Hx) as [_ Ekey]. rewrite Es in *. cbn [Z.eqb negb Z.of_nat] in *. rewrite Ekey, drop_0.
  destruct (Z.ltb_spec (Compare c (i_key x) target) 0).
  - apply IH; [lia|lia|]. exists i. split; [done|]. by eapply all_before_item.
  - replace (u32 (Z.of_nat m - 1)) with (Z.of_nat (m - 1)) by (rewrite u32_small; unfold len in *; lia).
    apply IH; [lia|lia|done].
Qed.

Lemma iter_Seek_ok it p :
  block_rel it p ->
  exists it', iter_Seek c target it = Some it' /\ block_rel it' (seek_pos c (map i_entry items) target).
Proof.
  intros Hb%block_rel_of_block. pose proof Hb as (_ & _ & En & _). destruct size_facts as (_ & Hn & _).
  unfold iter_Seek. rewrite En. replace (u32 (len rs - 1)) with (Z.of_nat (length rs - 1))
    by (rewrite u32_small; unfold len in *; lia).
  destruct (seek_binary_ok it (S (Z.to_nat (len rs))) Hb 0 (length rs - 1)) as (j & i & E & Hi & Hall).
  - unfold len in *; lia.
  - unfold len in *; lia.
  - exists 0%nat. split; [apply (rs_first _ _ Hrs)|]. intros k x Hk. lia.
  - change (Z.of_nat 0) with 0 in E. rewrite E.
    assert (i <= length items)%nat.
    { destruct (rs_bound _ _ Hrs j i Hi) as [->|]; [|lia].
      rewrite (rs_first _ _ Hrs) in Hi. injection Hi as <-. lia. }
    apply (seek_linear_ok _ _ i); [by apply restart_before|done|done|].
    pose proof (scan_fuel_enough it (length items) Hb ltac:(done)). unfold scan_fuel in *. lia.
Qed.
End SeekProofs.

(** The iterator of a block satisfies the iterator contract. *)
Lemma BlockIter_ok c dom :
  ComparatorOk c dom -> sorted_keys c (map i_entry items) -> Forall (fun x => dom (i_key x)) items ->
  IterOk (BlockIter c) c dom (map i_entry items) block_rel.
Proof.
  intros Hcmp Hsorted Hdom. split; cbn [St Valid Next Prev SeekToFirst SeekToLast Seek key value status BlockIter].
  - intros it [i|] H; [by apply Z.ltb_lt, (at_valid it i)|]. destruct H as ((_ & -> & _) & ->). apply Z.ltb_irrefl.
  - intros it i ((-> & _) & _ & _ & x & Hx & -> & -> & Eo). rewrite list_lookup_fmap, Hx. cbn [fmap option_fmap option_map].
    unfold i_entry. do 2 f_equal. destruct (body_at_item i x Hx) as (pre & EB & Ep). rewrite Eo.
    unfold block_bytes. rewrite EB, <- !app_assoc, (app_assoc pre).
    rewrite drop_len_app by (rewrite length_app; unfold len in *; lia). symmetry. apply take_len_app, to_nat_len.
  - intros it p (_ & _ & _ & ->)%block_rel_of_block. done.
  - intros it i H. eexists. split; [done|]. rewrite length_map. by apply Next_ok.
  - intros it i H. by apply iter_Prev_ok.
  - intros it p H. eexists. split; [done|]. rewrite length_map. by eapply SeekToFirst_ok.
  - intros it p H. rewrite length_map. by eapply (SeekToLast_ok c).
  - intros it p target H Ht. exact (iter_Seek_ok c dom Hsorted Hdom target Ht it p H).
Qed.
End Iteration.

(** ** Building a block *)

Lemma common_prefix_spec a b :
  (common_prefix a b <= length a)%nat /\ (common_prefix a b <= length b)%nat /\
  take (common_prefix a b) a = take (common_prefix a b) b.
Proof.
  revert b. induction a as [|x a IH]; intros [|y b]; simpl; try (split; [lia|split; [lia|done]]).
  destruct (Z.eqb_spec (b2z x) (b2z y)) as [->%b2z_inj|]; simpl; [|split; [lia|split; [lia|done]]].
  destruct (IH b) as (H1 & H2 & ->). split; [lia|split; [lia|done]].
Qed.

(** The builder holds these items; the restart array is kept as 32-bit
    numbers. *)
Record bb_rep (b : BlockBuilder) (items : list item) (rs : list nat) : Prop := {
  br_buffer : bb_buffer b = body items;
  br_restarts : bb_restarts b = map (fun r => u32 (off items r)) rs;
  br_last : bb_last_key b = last_key [] items;
  br_items : items_ok [] items;
  br_rs : restarts_ok items rs;
  br_inside : Forall (fun r => (r <= length items)%nat) rs;
}.

Lemma new_BlockBuilder_rep : bb_rep new_BlockBuilder [] [0%nat].
Proof.
  split; try done.
  - split; [done| |]; intros [|a] i; simpl; try done; intros; simplify_eq; auto.
  - constructor; [simpl; lia|constructor].
Qed.

Lemma off_app items more r : (r <= length items)%nat -> off (items ++ more) r = off items r.
Proof. intros H. unfold off. by rewrite take_app_le. Qed.

Lemma restarts_ok_item items rs x :
  restarts_ok items rs -> Forall (fun r => (r <= length items)%nat) rs ->
  (items = [] -> i_shared x = 0%nat) -> restarts_ok (items ++ [x]) rs.
Proof.
  intros Hrs Hin Hx. split; [apply (rs_first _ _ Hrs)| |].
  - intros a i Ha. destruct (rs_bound _ _ Hrs a i Ha) as [|]; [by left|right]. rewrite length_app. simpl. lia.
  - intros a i y Ha [Hy|[Hy1 Hy2]]%lookup_app_Some; [by eapply (rs_shared _ _ Hrs)|].
    apply list_lookup_singleton_Some in Hy2 as [Ei <-]. apply Hx, nil_length_inv.
    destruct (rs_bound _ _ Hrs a i Ha) as [->|]; [|lia]. rewrite (rs_first _ _ Hrs) in Ha.
    injection Ha as <-. lia.
Qed.

Lemma restarts_ok_snoc items rs x :
  restarts_ok (items ++ [x]) rs -> i_shared x = 0%nat -> restarts_ok (items ++ [x]) (rs ++ [length items]).
Proof.
  intros Hrs Hx. split.
  - rewrite lookup_app_l; [apply (rs_first _ _ Hrs)|]. eapply lookup_lt_Some, (rs_first _ _ Hrs).
  - intros a i [Ha|[_ Ha]]%lookup_app_Some; [by apply (rs_bound _ _ Hrs)|]. right.
    apply list_lookup_singleton_Some in Ha as [_ <-]. rewrite length_app. simpl. lia.
  - intros a i y [Ha|[_ Ha]]%lookup_app_Some Hy; [by eapply (rs_shared _ _ Hrs)|].
    apply list_lookup_singleton_Some in Ha as [_ <-].
    rewrite lookup_app_r, Nat.sub_diag in Hy by done. by injection Hy as <-.
Qed.

Lemma bb_Add_rep interval b items rs key value :
  bb_rep b items rs -> len key < 2 ^ 32 -> len value < 2 ^ 32 ->
  exists x rs', i_entry x = (key, value) /\ bb_rep (bb_Add interval b key value) (items ++ [x]) rs'.
Proof.
  intros [Hbuf Hre Hlast Hit Hrs Hin] Hk Hv. unfold bb_Add.
  set (shared := if bb_counter b <? interval then common_prefix (bb_last_key b) key else 0%nat).
  set (x := {| i_key := key; i_value := value; i_shared := shared |}).
  assert (shared <= length (bb_last_key b) /\ shared <= length key /\
    take shared (bb_last_key b) = take shared key)%nat as (Hs1 & Hs2 & Hs3).
  { subst shared. destruct (bb_counter b <? interval); [apply common_prefix_spec|]. split; [lia|split; [lia|done]]. }
  assert (body (items ++ [x]) = body items ++ enc x) as Ebody.
  { rewrite body_app, body_cons. cbn [body map concat]. unfold body at 2. simpl. by rewrite app_nil_r. }
  assert (Forall (fun r => r <= length (items ++ [x]))%nat rs) as Hin'.
  { eapply Forall_impl; [exact Hin|]. simpl. intros r Hr. rewrite length_app. simpl. lia. }
  assert (restarts_ok (items ++ [x]) rs) as Hrs'.
  { apply restarts_ok_item; [done..|]. intros ->. cbn [last_key] in Hlast. rewrite Hlast in Hs1. simpl in *. lia. }
  assert (map (fun r => u32 (off items r)) rs = map (fun r => u32 (off (items ++ [x]) r)) rs) as Eoff.
  { apply map_ext_in. intros r Hr%list_elem_of_In. f_equal. symmetry. apply off_app.
    by eapply Forall_forall in Hin. }
  exists x, (if bb_counter b <? interval then rs else rs ++ [length items]). split; [done|].
  split; cbn [bb_buffer bb_restarts bb_last_key].
  - unfold PutVarint32. rewrite Ebody, Hbuf. unfold enc. cbn [i_shared i_key i_value x].
    rewrite !u32_small by (unfold len in *; lia). by rewrite <- !app_assoc.
  - destruct (bb_counter b <? interval); [by rewrite Hre, Eoff|].
    rewrite map_app, Hre, Eoff. cbn [map]. do 3 f_equal. by rewrite off_app, off_all, Hbuf by done.
  - rewrite last_key_app. cbn [last_key i_key x]. rewrite Hs3. apply take_drop.
  - apply items_ok_app. split; [done|]. split; [|done]. by rewrite <- Hlast.
  - subst shared. destruct (bb_counter b <? interval); [done|]. by apply restarts_ok_snoc.
  - destruct (bb_counter b <? interval); [done|]. apply Forall_app. split; [done|].
    constructor; [|constructor]. rewrite length_app. lia.
Qed.

(** Entries added in order to a new builder. *)
Definition build_block (interval : Z) (entries : list entry) : BlockBuilder :=
  fold_left (fun b kv => bb_Add interval b (fst kv) (snd kv)) entries new_BlockBuilder.

Definition entry_sized (kv : entry) : Prop := len (fst kv) < 2 ^ 32 /\ len (snd kv) < 2 ^ 32.

Lemma build_block_rep interval entries :
  Forall entry_sized entries ->
  exists items rs, map i_entry items = entries /\ bb_rep (build_block interval entries) items rs.
Proof.
  unfold build_block. intros H.
  assert (forall b items rs, bb_rep b items rs -> exists items' rs',
    map i_entry items' = map i_entry items ++ entries /\
    bb_rep (fold_left (fun b kv => bb_Add interval b (fst kv) (snd kv)) entries b) items' rs') as Hgen.
  { induction H as [|[k v] entries [Hk Hv] _ IH]; intros b items rs Hb; simpl.
    - exists items, rs. by rewrite app_nil_r.
    - destruct (bb_Add_rep interval b items rs k v Hb Hk Hv) as (x & rs1 & Ex & Hb1).
      destruct (IH _ _ _ Hb1) as (items' & rs' & E & Hb'). exists items', rs'. split; [|done].
      rewrite E, map_app. cbn [map]. by rewrite Ex, <- app_assoc. }
  destruct (Hgen _ _ _ new_BlockBuilder_rep) as (items & rs & E & Hb). by exists items, rs.
Qed.

Lemma bb_Finish_bytes b items rs :
  bb_rep b items rs -> len (fst (bb_Finish b)) < 2 ^ 32 -> fst (bb_Finish b) = block_bytes items rs.
Proof.
  intros [Hbuf Hre _ _ _ _]. unfold bb_Finish, block_bytes, PutFixed32. cbn [fst].
  rewrite fold_PutFixed32, Hbuf, Hre. intros Hl.
  rewrite !len_app, len_words, len_EncodeFixed32 in Hl. unfold len in Hl at 2. rewrite length_map in Hl.
  replace (map (fun r => u32 (off items r)) rs) with (map (off items) rs).
  - rewrite <- app_assoc. do 3 f_equal. unfold len. rewrite length_map. apply u32_small. unfold len in *. lia.
  - apply map_ext. intros r. symmetry. apply u32_small. pose proof (off_bound items r). unfold len in *. lia.
Qed.

(** Opening the finished bytes gives an iterator of the block. *)
Lemma open_block items rs :
  items_ok [] items -> restarts_ok items rs -> len (block_bytes items rs) < 2 ^ 32 ->
  exists it, NewBlockIterator (new_Block (block_bytes items rs)) = inr it /\ block_rel items rs it None.
Proof.
  intros Hit Hrs Hsize. destruct (size_facts items rs Hrs Hsize) as (Hb & Hn & El).
  assert (NumRestarts (block_bytes items rs) (len (block_bytes items rs)) = len rs) as En.
  { unfold NumRestarts, block_bytes. rewrite app_assoc. rewrite drop_len_app.
    - rewrite <- (app_nil_r (EncodeFixed32 _)), DecodeFixed32_EncodeFixed32. apply u32_small. len_facts. lia.
    - rewrite len_app, len_EncodeFixed32, Z.add_simpl_r. apply to_nat_len. }
  unfold new_Block. rewrite (proj2 (Z.ltb_ge (len (block_bytes items rs)) 4)) by (len_facts; lia).
  rewrite En, (proj2 (Z.ltb_ge _ _)).
  2: { apply Z.div_le_lower_bound; [lia|]. len_facts. lia. }
  unfold NewBlockIterator. cbn [blk_size blk_data blk_restart_offset].
  rewrite (proj2 (Z.ltb_ge (len (block_bytes items rs)) 4)) by (len_facts; lia).
  rewrite En, (proj2 (Z.eqb_neq _ _)) by lia. eexists. split; [done|].
  rewrite u32_small by (len_facts; lia).
  replace (len (block_bytes items rs) - (1 + len rs) * 4) with (len (body items)) by lia.
  split; [|done]. by repeat split.
Qed.

(** ** Iterating over arbitrary contents *)

Lemma DecodeEntry_inv s a b c rest :
  DecodeEntry s = Some (a, b, c, rest) ->
  (0 <= a /\ 0 <= b /\ 0 <= c) /\ (exists pre, s = pre ++ rest /\ 3 <= len pre) /\ u32 (b + c) <= u32 (len rest).
Proof.
  unfold DecodeEntry. destruct s as [|b0 [|b1 [|b2 s]]]; try done.
  match goal with |- match ?f with _ => _ end = _ -> _ => assert (forall a b c rest, f = Some (a, b, c, rest) ->
    (0 <= a /\ 0 <= b /\ 0 <= c) /\ exists pre, b0 :: b1 :: b2 :: s = pre ++ rest /\ 3 <= len pre) as Hf end.
  { clear. intros a b c rest. destruct (_ <? 128).
    - intros [= <- <- <- <-]. pose proof (b2z_range b0). pose proof (b2z_range b1). pose proof (b2z_range b2).
      split; [lia|]. by exists [b0; b1; b2].
    - destruct (GetVarint32Ptr (b0 :: b1 :: b2 :: s)) as [[a' s1]|] eqn:E1; [|done].
      destruct (GetVarint32Ptr s1) as [[b' s2]|] eqn:E2; [|done].
      destruct (GetVarint32Ptr s2) as [[c' s3]|] eqn:E3; [|done]. intros [= <- <- <- <-].
      apply GetVarint32_inv in E1 as (? & p1 & -> & ?), E2 as (? & p2 & -> & ?), E3 as (? & p3 & -> & ?).
      split; [lia|]. exists (p1 ++ p2 ++ p3). split; [by rewrite <- !app_assoc|]. rewrite !len_app. lia. }
  destruct (if _ : bool then _ else _) as [[[[a' b'] c'] s3]|]; [|done].
  destruct (Z.ltb_spec (u32 (len s3)) (u32 (b' + c'))) as [|Hle]; [done|]. intros [= <- <- <- <-].
  destruct (Hf _ _ _ _ eq_refl) as [H0 Hpre]. done.
Qed.

(** What the checks of the Block constructor leave of the contents. *)
Definition iter_wf (it : Iter) : Prop :=
  0 <= it_restarts it /\ 1 <= it_num_restarts it < 2 ^ 31 /\ it_restarts it <= len (it_data it) < 2 ^ 32.

Definition same_block (it it' : Iter) : Prop :=
  it_data it' = it_data it /\ it_restarts it' = it_restarts it /\ it_num_restarts it' = it_num_restarts it.

Lemma parse_same it : same_block it (snd (ParseNextKey it)).
Proof.
  unfold ParseNextKey. destruct (_ <=? _); [done|].
  destruct (DecodeEntry _) as [[[[a b] c] rest]|]; [|done]. by destruct (_ <? _).
Qed.

Lemma parse_progress it :
  iter_wf it -> fst (ParseNextKey it) = true ->
  NextEntryOffset it < NextEntryOffset (snd (ParseNextKey it)) <= it_restarts it.
Proof.
  intros (H0 & Hn & Hd). unfold ParseNextKey.
  destruct (Z.leb_spec (it_restarts it) (NextEntryOffset it)) as [|Hlt]; [done|].
  destruct (DecodeEntry _) as [[[[a b] c] rest]|] eqn:E; [|done].
  destruct (Z.ltb_spec (len (it_key it)) a) as [|_]; [done|]. intros _. cbn [snd].
  apply DecodeEntry_inv in E as (Habc & (pre & Es & Hpre) & Hle).
  pose proof (u32_range (it_voff it + it_vlen it)) as Hcur. fold (NextEntryOffset it) in Hcur.
  apply (f_equal len) in Es. rewrite len_drop, len_take, len_app in Es. pose proof (u32_range (b + c)).
  rewrite (u32_small (len rest)) in Hle by (len_facts; lia).
  match goal with |- _ < NextEntryOffset ?it' <= _ =>
    assert (NextEntryOffset it' = it_restarts it - len rest + u32 (b + c)) as -> end; [|len_facts; lia].
  unfold NextEntryOffset. cbn [it_voff it_vlen].
  rewrite <- Z.add_assoc. unfold u32 in *. rewrite <- Zplus_mod_idemp_r. apply Z.mod_small. len_facts. lia.
Qed.

Lemma iter_wf_same it it' : iter_wf it -> same_block it it' -> iter_wf it'.
Proof. intros H (E1 & E2 & E3). unfold iter_wf. by rewrite E1, E2, E3. Qed.

Lemma parse_until_total limit fuel : forall it,
  iter_wf it -> it_restarts it - NextEntryOffset it < Z.of_nat fuel -> (0 < fuel)%nat ->
  exists it', parse_until fuel it limit = Some it' /\ same_block it it'.
Proof.
  induction fuel as [|fuel IH]; intros it Hwf Hf Hp; [lia|]. cbn [parse_until].
  pose proof (parse_progress it Hwf) as Hprog. pose proof (parse_same it) as Hsame.
  destruct (ParseNextKey it) as [[|] it1]; cbn [fst snd andb] in *; [|by exists it1].
  specialize (Hprog eq_refl). destruct (_ <? limit); [|by exists it1].
  pose proof (iter_wf_same _ _ Hwf Hsame) as Hwf1. destruct Hsame as (E1 & E2 & E3).
  destruct (IH it1 Hwf1) as (it' & E & Hs); [lia|lia|]. exists it'. split; [done|].
  unfold same_block in *. by rewrite <- E1, <- E2, <- E3.
Qed.

Lemma seek_linear_total c target fuel : forall it,
  iter_wf it -> it_restarts it - NextEntryOffset it < Z.of_nat fuel -> (0 < fuel)%nat ->
  exists it', seek_linear c fuel it target = Some it' /\ same_block it it'.
Proof.
  induction fuel as [|fuel IH]; intros it Hwf Hf Hp; [lia|]. cbn [seek_linear].
  pose proof (parse_progress it Hwf) as Hprog. pose proof (parse_same it) as Hsame.
  destruct (ParseNextKey it) as [[|] it1]; cbn [fst snd negb] in *; [|by exists it1].
  specialize (Hprog eq_refl). destruct (0 <=? _); [by exists it1|].
  pose proof (iter_wf_same _ _ Hwf Hsame) as Hwf1. destruct Hsame as (E1 & E2 & E3).
  destruct (IH it1 Hwf1) as (it' & E & Hs); [lia|lia|]. exists it'. split; [done|].
  unfold same_block in *. by rewrite <- E1, <- E2, <- E3.
Qed.

Lemma seek_binary_total c it target fuel : forall l r,
  0 <= l -> r < 2 ^ 31 -> r - l < Z.of_nat fuel -> (0 < fuel)%nat ->
  exists res, seek_binary c fuel it target l r = Some res.
Proof.
  induction fuel as [|fuel IH]; intros l r Hl Hr Hf Hp; [lia|]. cbn [seek_binary].
  destruct (Z.ltb_spec l r) as [Hlr|]; [|by eexists]. rewrite u32_small by lia.
  pose proof (Z.div_mod (l + r + 1) 2 ltac:(lia)). pose proof (Z.mod_pos_bound (l + r + 1) 2 ltac:(lia)).
  destruct (DecodeEntry _) as [[[[a b] c'] rest]|]; [|by eexists]. destruct (negb _); [by eexists|].
  destruct (_ <? 0); apply IH; try rewrite u32_small by lia; lia.
Qed.

Lemma scan_fuel_all it : iter_wf it -> it_restarts it - NextEntryOffset it < Z.of_nat (scan_fuel it).
Proof.
  intros (H0 & _ & Hd). pose proof (u32_range (it_voff it + it_vlen it)). unfold NextEntryOffset, scan_fuel, len in *. lia.
Qed.

(** The calls a client makes. *)
Inductive iter_call := CallFirst | CallLast | CallSeek (target : bytes) | CallNext | CallPrev.

Definition run_call (I : IterOps) (call : iter_call) (s : St I) : option (St I) :=
  match call with
  | CallFirst => SeekToFirst I s
  | CallLast => SeekToLast I s
  | CallSeek target => Seek I target s
  | CallNext => Next I s
  | CallPrev => Prev I s
  end.

Fixpoint run_calls (I : IterOps) (calls : list iter_call) (s : St I) : option (St I) :=
  match calls with
  | [] => Some s
  | call :: calls => match run_call I call s with Some s => run_calls I calls s | None => None end
  end.

Lemma run_call_total c call it :
  iter_wf it -> exists it', run_call (BlockIter c) call it = Some it' /\ same_block it it'.
Proof.
  intros Hwf. pose proof (fun i => scan_fuel_all (SeekToRestartPoint it i) Hwf) as Hfuel.
  destruct call as [| |target| |]; cbn [run_call SeekToFirst SeekToLast Seek Next Prev BlockIter].
  - eexists. split; [done|]. apply (parse_same (SeekToRestartPoint it 0)).
  - apply (parse_until_total (it_restarts it) (scan_fuel it)
      (SeekToRestartPoint it (u32 (it_num_restarts it - 1)))); [done|apply Hfuel|unfold scan_fuel; lia].
  - unfold iter_Seek. pose proof Hwf as (_ & Hn & _). rewrite u32_small by lia.
    destruct (seek_binary_total c it target (S (Z.to_nat (it_num_restarts it))) 0 (it_num_restarts it - 1))
      as [[l|] ->]; try lia.
    + apply (seek_linear_total c target (scan_fuel it) (SeekToRestartPoint it l)); [done|apply Hfuel|unfold scan_fuel; lia].
    + by eexists.
  - eexists. split; [done|]. apply parse_same.
  - unfold iter_Prev. destruct (prev_restart _ _ _) as [i|]; [|by eexists].
    apply (parse_until_total (it_current it) (scan_fuel it) (SeekToRestartPoint it (Z.of_nat i)));
      [done|apply Hfuel|unfold scan_fuel; lia].
Qed.

Lemma new_Iter_wf contents it :
  len contents < 2 ^ 32 -> NewBlockIterator (new_Block contents) = inr it -> iter_wf it.
Proof.
  intros Hlen. unfold new_Block. destruct (Z.ltb_spec (len contents) 4) as [|H4]; [done|].
  pose proof (DecodeFixed32_range (drop (Z.to_nat (len contents - 4)) contents)) as Hn.
  fold (NumRestarts contents (len contents)) in Hn.
  destruct (Z.ltb_spec ((len contents - 4) / 4) (NumRestarts contents (len contents))) as [|Hmax]; [done|].
  unfold NewBlockIterator. cbn [blk_size blk_data blk_restart_offset]. destruct (_ <? 4); [done|].
  destruct (Z.eqb_spec (NumRestarts contents (len contents)) 0) as [|Hn0]; [done|]. intros [= <-].
  pose proof (Z.mul_div_le (len contents - 4) 4 ltac:(lia)).
  unfold iter_wf. cbn [it_restarts it_num_restarts it_data new_Iter]. rewrite u32_small by lia. lia.
Qed.

(** ** Properties *)

(** A finished block opens to an iterator over the entries it was built from. *)
Lemma built_block_ok (c : Comparator) (dom : bytes -> Prop) (Hcmp : ComparatorOk c dom)
    (interval : Z) (entries : list entry)
    (Hsorted : sorted_keys c entries) (Hdom : Forall (fun kv => dom (fst kv)) entries)
    (Hentries : Forall entry_sized entries)
    (Hsize : len (fst (bb_Finish (build_block interval entries))) < 2 ^ 32) :
  exists it R, NewBlockIterator (new_Block (fst (bb_Finish (build_block interval entries)))) = inr it /\
    IterOk (BlockIter c) c dom entries R /\ R it None.
Proof.
  destruct (build_block_rep interval entries Hentries) as (items & rs & <- & Hb).
  pose proof (bb_Finish_bytes _ _ _ Hb Hsize) as E. rewrite E in *. destruct Hb as [_ _ _ Hit Hrs _].
  destruct (open_block items rs Hit Hrs Hsize) as (it & Eit & Hrel).
  exists it, (block_rel items rs). split; [done|]. split; [|done].
  apply BlockIter_ok; try done. exact (proj1 (List.Forall_map _ _ _) Hdom).
Qed.

(** A block gives back what was added: add any strictly ascending entries
    to a BlockBuilder, with any restart interval, and open the finished
    bytes.  The block is accepted, and its iterator satisfies the iterator
    contract for exactly these entries, in order: SeekToFirst, SeekToLast,
    Next and Prev walk over them in both directions, Seek stops at the first
    key at or past the target (binary search over the restart points included),
    keys and values are those added and the status stays OK. *)
Theorem block_iterator_contract (c : Comparator) (dom : bytes -> Prop) (Hcmp : ComparatorOk c dom)
    (interval : Z) (entries : list entry)
    (Hsorted : sorted_keys c entries) (Hdom : Forall (fun kv => dom (fst kv)) entries)
    (Hentries : Forall entry_sized entries)
    (Hsize : len (fst (bb_Finish (build_block interval entries))) < 2 ^ 32) :
  exists it R, NewBlockIterator (new_Block (fst (bb_Finish (build_block interval entries)))) = inr it /\
    IterOk (BlockIter c) c dom entries R /\ R it None.
Proof. by apply built_block_ok. Qed.

Definition example_entries : list entry :=
  [([Byte.x61], [Byte.x31]); ([Byte.x61; Byte.x62], []); ([Byte.x62], [Byte.x33; Byte.x34])].

Lemma block_iterator_contract_witness :
  exists it R, NewBlockIterator (new_Block (fst (bb_Finish (build_block 2 example_entries)))) = inr it /\
    IterOk (BlockIter BytewiseComparator) BytewiseComparator all_keys example_entries R /\ R it None.
Proof.
  apply (block_iterator_contract BytewiseComparator all_keys BytewiseComparator_ok 2 example_entries).
  - intros [|[|[|i]]] [|[|[|j]]] a b Hij Ha Hb; simpl in *; simplify_eq; try lia; reflexivity.
  - repeat constructor.
  - repeat constructor.
  - vm_compute. reflexivity.
Defined.

(** Blocks with arbitrary contents: whatever bytes a block holds, every
    sequence of iterator calls returns, none of their loops runs on. *)
Theorem block_iterator_total (c : Comparator) (contents : bytes) (it : Iter) (calls : list iter_call)
    (Hlen : len contents < 2 ^ 32) (Hit : NewBlockIterator (new_Block contents) = inr it) :
  exists it', run_calls (BlockIter c) calls it = Some it'.
Proof.
  pose proof (new_Iter_wf contents it Hlen Hit) as Hwf. clear Hit.
  revert it Hwf. induction calls as [|call calls IH]; intros it Hwf; [by exists it|]. cbn [run_calls].
  destruct (run_call_total c call it Hwf) as (it1 & -> & Hs). apply IH. by eapply iter_wf_same.
Qed.

Lemma block_iterator_total_witness :
  exists it', run_calls (BlockIter BytewiseComparator) [CallLast; CallPrev; CallSeek [Byte.x62]; CallNext]
    (new_Iter [Byte.x00; Byte.x05; Byte.x00; Byte.x00; Byte.x00; Byte.x00; Byte.x01; Byte.x00; Byte.x00; Byte.x00] 2 1)
    = Some it'.
Proof.
  apply (block_iterator_total BytewiseComparator
    [Byte.x00; Byte.x05; Byte.x00; Byte.x00; Byte.x00; Byte.x00; Byte.x01; Byte.x00; Byte.x00; Byte.x00]).
  - vm_compute. reflexivity.
  - vm_compute. reflexivity.
Defined.

(** What the length check of DecodeEntry gives: an accepted entry has
    the sum of its key and value lengths modulo 2^32 within the remaining
    bytes, so both slices are inside the block if the sum is below 2^32; the
    sum is not checked for overflow, and an entry whose key delta is longer
    than the whole block is accepted. *)
Theorem decode_entry_bounds :
  (forall s shared non_shared value_length rest,
    DecodeEntry s = Some (shared, non_shared, value_length, rest) -> len s < 2 ^ 32 ->
    u32 (non_shared + value_length) <= len rest /\
    (non_shared + value_length < 2 ^ 32 -> non_shared + value_length <= len rest)) /\
  (exists s shared non_shared value_length rest,
    DecodeEntry s = Some (shared, non_shared, value_length, rest) /\ len s < non_shared).
Proof.
  split.
  - intros s a b c rest ((_ & Hb & Hc) & (pre & -> & Hpre) & Hle)%DecodeEntry_inv Hl. rewrite len_app in Hl.
    rewrite (u32_small (len rest)) in Hle by (len_facts; lia). split; [done|].
    intros Hsum. by rewrite u32_small in Hle by lia.
  - exists (Byte.x00 :: EncodeVarint32 (2 ^ 32 - 1) ++ [Byte.x01]), 0, (2 ^ 32 - 1), 1, [].
    split; [vm_compute; reflexivity|vm_compute; reflexivity].
Qed.
