(* ===== verification/Merger.v ===== *)
(** * Merging iterators (table/merger.cc)

    MergingIterator merges the entries of its children with a heap of the
    children that have an entry, ordered by the cached 64-bit prefixes of their
    keys (KeyNum) and then by the keys.  Over children that keep the Iterator
    contract for lists without a common key it is an Iterator over the merge of
    the lists.  The heap functions of the C++ library are a class with the laws
    the language standard gives.

    SeekInParallel and the timers are not part of the build. *)

From Stdlib Require Import ZArith Lia Bool.
From stdpp Require Import base list sets sorting.
From S2P Require Import Prelude Comparator DbFormat Status Iterator Block BlockSpec.

Set Default Goal Selector "!".
Local Open Scope Z_scope.
#[local] Arguments Compare : simpl never.

(** ** std::make_heap, std::push_heap, std::pop_heap *)

Class StdHeap := {
  make_heap : (nat -> nat -> bool) -> list nat -> list nat;
  push_heap : (nat -> nat -> bool) -> list nat -> list nat;
  pop_heap : (nat -> nat -> bool) -> list nat -> list nat;
}.

(** No element is larger than its parent. *)
Definition is_heap (lt : nat -> nat -> bool) (h : list nat) : Prop :=
  forall i x y, (0 < i)%nat -> h !! i = Some x -> h !! ((i - 1) / 2)%nat = Some y -> lt y x = false.

(** The comparison is a strict weak order on the elements. *)
Record strict_weak (lt : nat -> nat -> bool) (h : list nat) : Prop := {
  sw_irrefl x : x ∈ h -> lt x x = false;
  sw_asym x y : x ∈ h -> y ∈ h -> lt x y = true -> lt y x = false;
  sw_neg_trans x y z : x ∈ h -> y ∈ h -> z ∈ h -> lt x y = false -> lt y z = false -> lt x z = false;
}.

Class StdHeapOk `{!StdHeap} : Prop := {
  make_heap_ok lt h : strict_weak lt h -> make_heap lt h ≡ₚ h /\ is_heap lt (make_heap lt h);
  push_heap_ok lt h x : strict_weak lt (h ++ [x]) -> is_heap lt h ->
    push_heap lt (h ++ [x]) ≡ₚ h ++ [x] /\ is_heap lt (push_heap lt (h ++ [x]));
  pop_heap_ok lt x h : strict_weak lt (x :: h) -> is_heap lt (x :: h) ->
    exists h', pop_heap lt (x :: h) = h' ++ [x] /\ h' ≡ₚ h /\ is_heap lt h';
}.

Lemma strict_weak_sub lt h h' : h' ⊆ h -> strict_weak lt h -> strict_weak lt h'.
Proof. intros E [H1 H2 H3]. split; intros; [apply H1|apply H2|eapply (H3 x y z)]; auto. Qed.

(** The front of a heap is a largest element. *)
Lemma heap_front lt x h : strict_weak lt (x :: h) -> is_heap lt (x :: h) -> forall y, y ∈ x :: h -> lt x y = false.
Proof.
  intros Hsw Hh y [i Hi]%list_elem_of_lookup. revert y Hi. induction i as [i IH] using lt_wf_ind. intros y Hi.
  destruct (decide (i = 0)%nat) as [->|Hne].
  - injection Hi as ->. apply (sw_irrefl _ _ Hsw). left.
  - pose proof (Nat.Div0.div_le_upper_bound (i - 1) 2 (i - 1) ltac:(lia)) as Hd.
    destruct (lookup_lt_is_Some_2 (x :: h) ((i - 1) / 2)) as [z Hz].
    { apply lookup_lt_Some in Hi. lia. }
    eapply (sw_neg_trans _ _ Hsw x z y); [left|by eapply list_elem_of_lookup_2..|apply (IH ((i - 1) / 2)%nat); [lia|done]|].
    by apply (Hh i); [lia|..].
Qed.

(** An implementation: the elements in descending order. *)
Module SortedHeap.

Fixpoint insert (lt : nat -> nat -> bool) (x : nat) (h : list nat) : list nat :=
  match h with
  | [] => [x]
  | y :: h' => if lt x y then y :: insert lt x h' else x :: h
  end.

Definition sort (lt : nat -> nat -> bool) (h : list nat) : list nat := foldr (insert lt) [] h.

#[export] Instance sorted_heap : StdHeap := {|
  make_heap := sort;
  push_heap := sort;
  pop_heap lt h := match h with [] => [] | x :: h' => sort lt h' ++ [x] end;
|}.

Lemma insert_perm lt x h : insert lt x h ≡ₚ x :: h.
Proof. induction h as [|y h IH]; simpl; [done|]. destruct (lt x y); [|done]. rewrite IH. constructor. Qed.

Lemma sort_perm lt h : sort lt h ≡ₚ h.
Proof. induction h as [|x h IH]; simpl; [done|]. by rewrite insert_perm, IH. Qed.

(** Every element is at least as large as those after it. *)
Definition descending (lt : nat -> nat -> bool) (h : list nat) : Prop := StronglySorted (fun x y => lt x y = false) h.

Lemma insert_descending lt x h : strict_weak lt (x :: h) -> descending lt h -> descending lt (insert lt x h).
Proof.
  unfold descending. induction h as [|y h IH]; intros Hsw Hd; simpl; [repeat constructor|].
  inversion_clear Hd as [|? ? Hd' Hall]. destruct (lt x y) eqn:E.
  - constructor; [apply IH; [|done]|].
    + eapply strict_weak_sub; [|done]. set_solver.
    + rewrite insert_perm. constructor; [|done]. apply (sw_asym _ _ Hsw); [set_solver..|done].
  - constructor; [by constructor|]. constructor; [done|]. rewrite Forall_forall in Hall |- *. intros z Hz.
    apply (sw_neg_trans _ _ Hsw x y z); [set_solver..|done|by apply Hall].
Qed.

Lemma sort_descending lt h : strict_weak lt h -> descending lt (sort lt h).
Proof.
  induction h as [|x h IH]; intros Hsw; simpl; [constructor|]. apply insert_descending.
  - eapply strict_weak_sub; [|done]. intros y. by rewrite sort_perm.
  - apply IH. eapply strict_weak_sub; [|done]. set_solver.
Qed.

Lemma StronglySorted_lookup {A} (R : A -> A -> Prop) l i j x y :
  StronglySorted R l -> (i < j)%nat -> l !! i = Some x -> l !! j = Some y -> R x y.
Proof.
  intros Hs. revert i j. induction Hs as [|z l _ IH Hall]; intros i j Hij Hx Hy; [done|].
  destruct i as [|i], j as [|j]; try lia; simpl in *.
  - injection Hx as <-. by eapply Forall_lookup_1.
  - by eapply (IH i j); [lia|..].
Qed.

Lemma descending_heap lt h : descending lt h -> is_heap lt h.
Proof.
  intros Hd i x y Hi Hx Hy. eapply (StronglySorted_lookup _ _ _ _ _ _ Hd); [|exact Hy|exact Hx].
  pose proof (Nat.Div0.div_le_upper_bound (i - 1) 2 (i - 1) ltac:(lia)). lia.
Qed.

#[export] Instance sorted_heap_ok : StdHeapOk.
Proof.
  split; simpl.
  - intros lt h Hsw. split; [apply sort_perm|]. by apply descending_heap, sort_descending.
  - intros lt h x Hsw _. split; [apply sort_perm|]. by apply descending_heap, sort_descending.
  - intros lt x h Hsw _. exists (sort lt h). split; [done|]. split; [apply sort_perm|].
    apply descending_heap, sort_descending. eapply strict_weak_sub; [|done]. set_solver.
Qed.
End SortedHeap.

(** ** MergingIterator *)
Section MergingIterator.
Context `{!StdHeap} (comparator_ : Comparator) (I : IterOps).

Record MergingIterator := {
  children_ : list (Wrapper I);
  comparisons_ : list Z;
  heap_ : list nat;                (* its first heap_sz_ elements *)
  current_ : option nat;           (* the index of the child *)
  m_direction_ : Direction;
}.

Definition child_valid (s : MergingIterator) (i : nat) : bool :=
  match children_ s !! i with Some w => w_valid I w | None => false end.
Definition child_key (s : MergingIterator) (i : nat) : bytes :=
  match children_ s !! i with Some w => w_key I w | None => [] end.

(** HeapComparator::operator() *)
Definition HeapComparator (s : MergingIterator) (lhs rhs : nat) : bool :=
  let '(lhs, rhs) := match m_direction_ s with kForward => (rhs, lhs) | kReverse => (lhs, rhs) end in
  let cl := nth lhs (comparisons_ s) 0 in
  let cr := nth rhs (comparisons_ s) 0 in
  (cl <? cr) || ((cl =? cr) && (Compare comparator_ (child_key s lhs) (child_key s rhs) <? 0)).

Definition with_heap (s : MergingIterator) (comparisons : list Z) (heap : list nat) : MergingIterator :=
  {| children_ := children_ s; comparisons_ := comparisons; heap_ := heap; current_ := current_ s;
     m_direction_ := m_direction_ s |}.

Definition ReinitializeComparisons (s : MergingIterator) : MergingIterator :=
  let comparisons := zip_with (fun w old => if w_valid I w then KeyNum comparator_ (w_key I w) else old)
                       (children_ s) (comparisons_ s) in
  let heap := List.filter (child_valid s) (seq 0 (length (children_ s))) in
  let s := with_heap s comparisons heap in
  with_heap s comparisons (make_heap (HeapComparator s) heap).

(** [None]: the assert that the current child is at the front fails. *)
Definition PopCurrentComparison (s : MergingIterator) : option MergingIterator :=
  match current_ s, heap_ s with
  | Some idx, front :: _ =>
      if Nat.eqb front idx then Some (with_heap s (comparisons_ s) (removelast (pop_heap (HeapComparator s) (heap_ s))))
      else None
  | _, _ => None
  end.

Definition PushCurrentComparison (s : MergingIterator) : MergingIterator :=
  match current_ s with
  | Some idx =>
      if child_valid s idx then
        let s := with_heap s (<[idx := KeyNum comparator_ (child_key s idx)]> (comparisons_ s)) (heap_ s ++ [idx]) in
        with_heap s (comparisons_ s) (push_heap (HeapComparator s) (heap_ s))
      else s
  | None => s
  end.

Definition with_current (s : MergingIterator) (current : option nat) : MergingIterator :=
  {| children_ := children_ s; comparisons_ := comparisons_ s; heap_ := heap_ s; current_ := current;
     m_direction_ := m_direction_ s |}.

Definition FindSmallest (s : MergingIterator) : MergingIterator := with_current s (head (heap_ s)).
Definition FindLargest (s : MergingIterator) : MergingIterator := with_current s (head (heap_ s)).

Definition with_children (s : MergingIterator) (children : list (Wrapper I)) (direction : Direction) : MergingIterator :=
  {| children_ := children; comparisons_ := comparisons_ s; heap_ := heap_ s; current_ := current_ s;
     m_direction_ := direction |}.

(** The loops over the children: child [i] is moved with [f i]. *)
Fixpoint move_children (f : nat -> Wrapper I -> option (Wrapper I)) (i : nat) (ws : list (Wrapper I))
    : option (list (Wrapper I)) :=
  match ws with
  | [] => Some []
  | w :: ws => w' ← f i w; ws' ← move_children f (S i) ws; Some (w' :: ws')
  end.

Definition new_MergingIterator (children : list (St I)) : MergingIterator :=
  let n := length children in
  ReinitializeComparisons
    {| children_ := map (w_Set I []) children; comparisons_ := replicate n 0; heap_ := []; current_ := None;
       m_direction_ := kForward |}.

Notation W := (IteratorWrapper I).

Definition merging_Valid (s : MergingIterator) : bool := match current_ s with Some _ => true | None => false end.
Definition merging_key (s : MergingIterator) : bytes :=
  match current_ s with Some i => child_key s i | None => [] end.
Definition merging_value (s : MergingIterator) : bytes :=
  match current_ s ≫= fun i => children_ s !! i with Some w => Iterator.value W w | None => [] end.
(** status_ of the iterator itself is never set. *)
Definition merging_status (s : MergingIterator) : Status :=
  match List.find (fun w => negb (ok (Iterator.status W w))) (children_ s) with
  | Some w => Iterator.status W w
  | None => OK
  end.

Definition merging_SeekToFirst (s : MergingIterator) : option MergingIterator :=
  children ← move_children (fun _ => SeekToFirst W) 0 (children_ s);
  Some (FindSmallest (ReinitializeComparisons (with_children s children kForward))).

Definition merging_SeekToLast (s : MergingIterator) : option MergingIterator :=
  children ← move_children (fun _ => SeekToLast W) 0 (children_ s);
  Some (FindLargest (ReinitializeComparisons (with_children s children kReverse))).

Definition SeekInSequence (target : bytes) (s : MergingIterator) : option (list (Wrapper I)) :=
  move_children (fun _ => Seek W target) 0 (children_ s).

Definition merging_Seek (target : bytes) (s : MergingIterator) : option MergingIterator :=
  children ← SeekInSequence target s;
  Some (FindSmallest (ReinitializeComparisons (with_children s children kForward))).

(** One round of the loop of Next that turns the other children forward. *)
Definition turn_forward (s : MergingIterator) (i : nat) (child : Wrapper I) : option (Wrapper I) :=
  if bool_decide (current_ s = Some i) then Some child
  else
    child ← Seek W (merging_key s) child;
    if Valid W child && (Compare comparator_ (merging_key s) (Iterator.key W child) =? 0) then Next W child
    else Some child.

(** The same of Prev. *)
Definition turn_backward (s : MergingIterator) (i : nat) (child : Wrapper I) : option (Wrapper I) :=
  if bool_decide (current_ s = Some i) then Some child
  else
    child ← Seek W (merging_key s) child;
    if Valid W child then Prev W child else SeekToLast W child.

(** current_->Next() or current_->Prev(); assert(Valid()) holds where it is called. *)
Definition move_current (f : Wrapper I -> option (Wrapper I)) (s : MergingIterator) : option MergingIterator :=
  idx ← current_ s; child ← children_ s !! idx; child ← f child;
  Some (with_children s (<[idx := child]> (children_ s)) (m_direction_ s)).

Definition merging_Next (s : MergingIterator) : option MergingIterator :=
  s ← (match m_direction_ s with
       | kForward => Some s
       | kReverse =>
           children ← move_children (turn_forward s) 0 (children_ s);
           Some (ReinitializeComparisons (with_children s children kForward))
       end);
  s ← PopCurrentComparison s;
  s ← move_current (Next W) s;
  Some (FindSmallest (PushCurrentComparison s)).

Definition merging_Prev (s : MergingIterator) : option MergingIterator :=
  s ← (match m_direction_ s with
       | kReverse => Some s
       | kForward =>
           children ← move_children (turn_backward s) 0 (children_ s);
           Some (ReinitializeComparisons (with_children s children kReverse))
       end);
  s ← PopCurrentComparison s;
  s ← move_current (Prev W) s;
  Some (FindLargest (PushCurrentComparison s)).

Definition Merging : IterOps := {|
  St := MergingIterator;
  Valid := merging_Valid;
  SeekToFirst := merging_SeekToFirst;
  SeekToLast := merging_SeekToLast;
  Seek := merging_Seek;
  Next := merging_Next;
  Prev := merging_Prev;
  Iterator.key := merging_key;
  Iterator.value := merging_value;
  Iterator.status := merging_status;
|}.

(** NewMergingIterator: an empty iterator for no children, the child itself
    for one. *)
Definition Merged : IterOps := SumIterator EmptyIterator (SumIterator I Merging).

Definition NewMergingIterator (children : list (St I)) : St Merged :=
  match children with
  | [] => inl NewEmptyIterator
  | [child] => inr (inl child)
  | _ => inr (inr (new_MergingIterator children))
  end.
End MergingIterator.

(** ** The merge *)
Section Merge.
Context (c : Comparator) (dom : bytes -> Prop) `{Hc : !ComparatorOk c dom}.
Context (ls : list (list entry)) (m : list entry).
Context (Hls : Forall (sorted_keys c) ls) (Hm : sorted_keys c m) (Hdom : Forall (fun e => dom (fst e)) m).
Context (Hperm : m ≡ₚ concat ls).

Definition lst (i : nat) : list entry := nth i ls [].

(** The entries before position [K] of the merge, recognised by their keys. *)
Definition passed (K : nat) (e : entry) : bool :=
  match m !! K with Some f => Compare c (fst e) (fst f) <? 0 | None => true end.

(** How many entries of list [i] lie before position [K] of the merge. *)
Definition count (i K : nat) : nat := prefix_len (passed K) (lst i).

Lemma lst_eq i l : ls !! i = Some l -> lst i = l.
Proof. apply nth_lookup_Some. Qed.

Lemma lst_lookup i j e : lst i !! j = Some e -> ls !! i = Some (lst i).
Proof.
  intros H. unfold lst in *. destruct (ls !! i) as [l|] eqn:E; [by rewrite (nth_lookup_Some _ _ _ _ E)|].
  by rewrite nth_overflow in H by (by apply lookup_ge_None).
Qed.

Lemma lst_sorted i : sorted_keys c (lst i).
Proof.
  intros a b x y Hab Hx Hy. by apply (Forall_lookup_1 _ _ _ _ Hls (lst_lookup i a x Hx) a b).
Qed.

Lemma elem_merge e : e ∈ m <-> exists i j, lst i !! j = Some e.
Proof.
  rewrite Hperm, list_elem_of_In, in_concat. split.
  - intros (l & Hl & He). apply list_elem_of_In, list_elem_of_lookup in Hl as [i Hi].
    apply list_elem_of_In, list_elem_of_lookup in He as [j Hj]. exists i, j. unfold lst.
    by rewrite (nth_lookup_Some _ _ _ _ Hi).
  - intros (i & j & H). exists (lst i). split; apply list_elem_of_In.
    + eapply list_elem_of_lookup_2. by eapply lst_lookup.
    + by eapply list_elem_of_lookup_2.
Qed.

Lemma merge_dom e : e ∈ m -> dom (fst e).
Proof. rewrite Forall_forall in Hdom. apply Hdom. Qed.

Lemma entry_dom i j e : lst i !! j = Some e -> dom (fst e).
Proof. intros H. apply merge_dom, elem_merge. eauto. Qed.

Lemma sorted_index l i j a b : sorted_keys c l -> Forall (fun e => dom (fst e)) l ->
  l !! i = Some a -> l !! j = Some b -> Compare c (fst a) (fst b) < 0 <-> (i < j)%nat.
Proof.
  intros Hs Hd Ha Hb. split; [|intros H; by apply (Hs i j)]. intros Hlt.
  destruct (Nat.lt_trichotomy i j) as [|[->|H]]; [done|exfalso..].
  - rewrite Ha in Hb. injection Hb as <-. rewrite (cmp_refl (dom := dom)) in Hlt; [lia|by eapply (Forall_lookup_1 _ _ _ _ Hd)].
  - apply (Hs j i b a H Hb) in Ha as Hba. apply (cmp_anti (dom := dom)) in Hba; [lia|by eapply (Forall_lookup_1 _ _ _ _ Hd)..].
Qed.

Lemma passed_index j e K : m !! j = Some e -> passed K e = true <-> (j < K)%nat.
Proof.
  intros He. unfold passed. destruct (m !! K) as [f|] eqn:E.
  - rewrite Z.ltb_lt. by eapply sorted_index.
  - apply lookup_ge_None in E. apply lookup_lt_Some in He. split; [lia|done].
Qed.

Lemma NoDup_concat (l : list (list entry)) i i' j j' a b e :
  NoDup (concat l) -> l !! i = Some a -> l !! i' = Some b -> a !! j = Some e -> b !! j' = Some e -> i = i'.
Proof.
  revert i i'. induction l as [|x l IH]; intros i i' Hnd Hi Hi' Hj Hj'; [done|]. simpl in Hnd.
  apply NoDup_app in Hnd as (_ & Hdis & Hnd).
  assert (forall k y n, l !! k = Some y -> y !! n = Some e -> e ∈ concat l) as Hin.
  { intros k y n Hy Hz. rewrite list_elem_of_In, in_concat. exists y. rewrite <- !list_elem_of_In.
    split; by eapply list_elem_of_lookup_2. }
  destruct i as [|i], i' as [|i']; simpl in Hi, Hi'; [done|exfalso|exfalso|f_equal; by eapply IH].
  - injection Hi as ->. apply (Hdis e); [by eapply list_elem_of_lookup_2|by eapply Hin].
  - injection Hi' as ->. apply (Hdis e); [by eapply list_elem_of_lookup_2|by eapply Hin].
Qed.

Lemma merge_NoDup : NoDup m.
Proof.
  apply NoDup_alt. intros i j e Hi Hj. pose proof (sorted_index m i j e e Hm Hdom Hi Hj) as H.
  pose proof (sorted_index m j i e e Hm Hdom Hj Hi) as H'.
  assert (Compare c (fst e) (fst e) = 0) as E by (apply (cmp_refl (dom := dom)), merge_dom; by eapply list_elem_of_lookup_2).
  rewrite E in *. lia.
Qed.

Lemma same_list i i' j j' e : lst i !! j = Some e -> lst i' !! j' = Some e -> i = i'.
Proof.
  intros Hj Hj'. eapply NoDup_concat; [|by eapply lst_lookup|by eapply lst_lookup|done..].
  rewrite <- Hperm. apply merge_NoDup.
Qed.

Lemma lst_dom i : Forall (fun e => dom (fst e)) (lst i).
Proof. apply Forall_lookup. intros j e. apply entry_dom. Qed.

(** The entry at position [k] of the merge is the next one of exactly one list. *)
Lemma count_step k e i j :
  m !! k = Some e -> lst i !! j = Some e -> count i k = j /\ count i (S k) = S j.
Proof.
  intros Hk Hj. assert (forall n f, lst i !! n = Some f -> forall K, passed K f = true <->
    match m !! K with Some g => Compare c (fst f) (fst g) < 0 | None => True end) as Hp.
  { intros n f _ K. unfold passed. destruct (m !! K); [apply Z.ltb_lt|done]. }
  pose proof (lookup_lt_Some _ _ _ Hj) as Hlt. split; apply prefix_len_unique; try lia.
  - intros n f Hn Hf. apply (Hp n f Hf). rewrite Hk. by apply (lst_sorted i n j).
  - intros f Hf. rewrite Hj in Hf. injection Hf as <-. apply not_true_iff_false. rewrite (passed_index k) by done. lia.
  - intros n f Hn Hf. assert (f ∈ m) as [p Hpos]%list_elem_of_lookup by (apply elem_merge; eauto).
    apply (passed_index p); [done|]. destruct (Nat.eq_dec n j) as [->|].
    + rewrite Hj in Hf. injection Hf as <-. enough (p = k) by lia. by eapply (NoDup_lookup m); [apply merge_NoDup|..].
    + assert (Compare c (fst f) (fst e) < 0) as Hfe by (by apply (lst_sorted i n j); [lia|..]).
      apply (sorted_index m p k f e Hm Hdom Hpos Hk) in Hfe. lia.
  - intros f Hf. assert (f ∈ m) as [p Hpos]%list_elem_of_lookup by (apply elem_merge; eauto).
    apply not_true_iff_false. rewrite (passed_index p) by done.
    assert (Compare c (fst e) (fst f) < 0) as Hfe by (by apply (lst_sorted i j (S j)); [lia|..]).
    apply (sorted_index m k p e f Hm Hdom Hk Hpos) in Hfe. lia.
Qed.

Lemma count_other k e i j i' : m !! k = Some e -> lst i !! j = Some e -> i' <> i -> count i' (S k) = count i' k.
Proof.
  intros Hk Hj Hne. apply prefix_len_ext, Forall_lookup. intros n f Hf.
  assert (f ∈ m) as [p Hpos]%list_elem_of_lookup by (apply elem_merge; eauto).
  apply eq_true_iff_eq. rewrite !(passed_index p) by done. enough (p <> k) by lia. intros ->.
  rewrite Hk in Hpos. injection Hpos as <-. by eapply Hne, same_list.
Qed.

Lemma count_0 i : count i 0 = 0%nat.
Proof.
  apply prefix_len_unique; [lia|lia|]. intros f Hf. assert (f ∈ m) as [p Hpos]%list_elem_of_lookup by (apply elem_merge; eauto).
  apply not_true_iff_false. rewrite (passed_index p) by done. lia.
Qed.

Lemma count_all i : count i (length m) = length (lst i).
Proof.
  apply prefix_len_unique; [lia| |].
  - intros n f Hn Hf. unfold passed. by rewrite lookup_ge_None_2.
  - intros f Hf. apply lookup_lt_Some in Hf. lia.
Qed.

Lemma count_le i K : (count i K <= length (lst i))%nat.
Proof. apply prefix_len_le. Qed.

(** Entries of list [i] from [count i K] on are those at or past position [K]. *)
Lemma count_index i K n e p : lst i !! n = Some e -> m !! p = Some e -> (n < count i K)%nat <-> (p < K)%nat.
Proof.
  intros Hn Hp. rewrite <- (passed_index p e K Hp). symmetry. apply prefix_len_closed; [|done].
  intros a b x y Hab Hx Hy Hpy.
  assert (x ∈ m) as [px Hpx]%list_elem_of_lookup by (apply elem_merge; eauto).
  assert (y ∈ m) as [py Hpy']%list_elem_of_lookup by (apply elem_merge; eauto).
  apply (passed_index py) in Hpy; [|done]. apply (passed_index px); [done|].
  destruct (Nat.eq_dec a b) as [->|].
  - rewrite Hx in Hy. injection Hy as <-. enough (px = py) by lia. by eapply (NoDup_lookup m); [apply merge_NoDup|..].
  - assert (Compare c (fst x) (fst y) < 0) as H by (by apply (lst_sorted i a b); [lia|..]).
    apply (sorted_index m px py x y Hm Hdom Hpx Hpy') in H. lia.
Qed.

Lemma count_seek target i : dom target ->
  let K := prefix_len (fun e => Compare c (fst e) target <? 0) m in
  at_count (lst i) (count i K) = seek_pos c (lst i) target.
Proof.
  intros Ht K. rewrite seek_pos_count. f_equal. apply prefix_len_ext, Forall_lookup. intros n f Hf.
  assert (f ∈ m) as [p Hpos]%list_elem_of_lookup by (apply elem_merge; eauto).
  apply eq_true_iff_eq. rewrite (passed_index p) by done. symmetry.
  apply (prefix_len_closed (fun e => Compare c (fst e) target <? 0)); [|done].
  intros a b x y Hab Hx Hy. rewrite !Z.ltb_lt. intros Hlt. destruct (Nat.eq_dec a b) as [->|].
  - rewrite Hx in Hy. by injection Hy as <-.
  - pose proof (merge_dom x ltac:(by eapply list_elem_of_lookup_2)). pose proof (merge_dom y ltac:(by eapply list_elem_of_lookup_2)).
    eapply (cmp_lt_trans (dom := dom) (fst x) (fst y)); [done..| |done]. by apply (Hm a b); [lia|..].
Qed.
End Merge.

(** ** The heap of the children *)
Section Heap.
Context `{Hheap : !StdHeap} `{Hheapok : !StdHeapOk}.
Context (c : Comparator) (dom : bytes -> Prop) `{Hc : !ComparatorOk c dom} (I : IterOps).
Notation M := (MergingIterator I).
Notation HC := (HeapComparator c I).

Definition keys_dom (s : M) : Prop := forall i, child_valid I s i = true -> dom (child_key I s i).
Definition cached (s : M) (i : nat) : Prop := nth i (comparisons_ I s) 0 = KeyNum c (child_key I s i).

(** The heap holds the valid children, with their cached prefixes. *)
Record heap_ok (s : M) : Prop := {
  ho_len : length (comparisons_ I s) = length (children_ I s);
  ho_perm : heap_ I s ≡ₚ List.filter (child_valid I s) (seq 0 (length (children_ I s)));
  ho_heap : is_heap (HC s) (heap_ I s);
  ho_cached i : child_valid I s i = true -> cached s i;
}.

(** The child the direction takes first. *)
Definition goes_first (s : M) (a b : bytes) : Prop :=
  match m_direction_ I s with kForward => Compare c a b < 0 | kReverse => Compare c b a < 0 end.

Lemma HeapComparator_spec s i j : keys_dom s ->
  child_valid I s i = true -> child_valid I s j = true -> cached s i -> cached s j ->
  HC s i j = true <-> goes_first s (child_key I s j) (child_key I s i).
Proof.
  intros Hd Hi Hj Ei Ej. unfold HeapComparator, goes_first.
  assert (forall a b, dom a -> dom b ->
    (KeyNum c a <? KeyNum c b) || ((KeyNum c a =? KeyNum c b) && (Compare c a b <? 0)) = true <-> Compare c a b < 0) as H.
  { intros a b Ha Hb. pose proof (cmp_keynum a b Ha Hb). pose proof (cmp_keynum b a Hb Ha).
    pose proof (cmp_anti b a Hb Ha). rewrite orb_true_iff, andb_true_iff, Z.ltb_lt, Z.eqb_eq, Z.ltb_lt. lia. }
  unfold cached in Ei, Ej. destruct (m_direction_ I s); rewrite Ei, Ej; apply H; by apply Hd.
Qed.

Lemma HC_strict_weak s h : keys_dom s -> Forall (fun i => child_valid I s i = true /\ cached s i) h -> strict_weak (HC s) h.
Proof.
  intros Hd Hh. rewrite Forall_forall in Hh.
  assert (forall x y, x ∈ h -> y ∈ h -> HC s x y = true <-> goes_first s (child_key I s y) (child_key I s x)) as Hspec.
  { intros x y [Hx Cx]%Hh [Hy Cy]%Hh. by apply HeapComparator_spec. }
  assert (forall x, x ∈ h -> dom (child_key I s x)) as Hdom by (intros x [Hx _]%Hh; by apply Hd).
  unfold goes_first in Hspec. split.
  - intros x Hx. apply not_true_iff_false. rewrite Hspec by done.
    pose proof (cmp_refl (c := c) _ (Hdom x Hx)) as E. destruct (m_direction_ I s); lia.
  - intros x y Hx Hy. rewrite <- not_true_iff_false, !Hspec by done.
    pose proof (cmp_anti _ _ (Hdom x Hx) (Hdom y Hy)). pose proof (cmp_anti _ _ (Hdom y Hy) (Hdom x Hx)).
    destruct (m_direction_ I s); lia.
  - intros x y z Hx Hy Hz. rewrite <- !not_true_iff_false, !Hspec by done.
    pose proof (Hdom x Hx) as Dx. pose proof (Hdom y Hy) as Dy. pose proof (Hdom z Hz) as Dz. intros H1 H2 H3.
    destruct (m_direction_ I s); [apply H2|apply H2].
    + eapply (cmp_lt_le_trans (dom := dom)); [done| |done|exact H3|]; [done|].
      apply (cmp_ge_le (dom := dom)); [done..|]. lia.
    + eapply (cmp_le_lt_trans (dom := dom)); [done| |done| |exact H3]; [done|].
      apply (cmp_ge_le (dom := dom)); [done..|]. lia.
Qed.

Lemma is_heap_ext lt lt' h : (forall x y, x ∈ h -> y ∈ h -> lt x y = lt' x y) -> is_heap lt h -> is_heap lt' h.
Proof.
  intros E H i x y Hi Hx Hy. rewrite <- E; [by apply (H i)|by eapply list_elem_of_lookup_2..].
Qed.

Lemma elem_valid s i :
  i ∈ List.filter (child_valid I s) (seq 0 (length (children_ I s))) <-> child_valid I s i = true.
Proof.
  rewrite list_elem_of_In, filter_In, in_seq. split; [by intros [_ ?]|]. intros H. split; [|done].
  unfold child_valid in H. destruct (children_ I s !! i) eqn:E; [|done]. apply lookup_lt_Some in E. lia.
Qed.

Lemma heap_elem s i : heap_ok s -> i ∈ heap_ I s <-> child_valid I s i = true.
Proof. intros H. rewrite (ho_perm _ H). apply elem_valid. Qed.

Lemma heap_valid_cached s : heap_ok s -> Forall (fun i => child_valid I s i = true /\ cached s i) (heap_ I s).
Proof. intros H. apply Forall_forall. intros i Hi%(heap_elem _ _ H). split; [done|]. by apply ho_cached. Qed.

(** A child that goes before all others is at the front. *)
Lemma front_unique s j : keys_dom s -> heap_ok s -> child_valid I s j = true ->
  (forall i, child_valid I s i = true -> i <> j -> goes_first s (child_key I s j) (child_key I s i)) ->
  head (heap_ I s) = Some j.
Proof.
  intros Hd Hok Hj Hfirst. assert (j ∈ heap_ I s) as Hin by by apply heap_elem.
  pose proof (HC_strict_weak s _ Hd (heap_valid_cached _ Hok)) as Hsw. pose proof (ho_heap _ Hok) as Hh.
  pose proof (fun i => proj1 (heap_elem s i Hok)) as Hval.
  destruct (heap_ I s) as [|h rest]; [set_solver|]. simpl. f_equal. destruct (decide (h = j)) as [|Hne]; [done|].
  pose proof (heap_front _ _ _ Hsw Hh j Hin) as Hf. apply not_true_iff_false in Hf. destruct Hf.
  apply HeapComparator_spec; [done|apply Hval; left|done|apply ho_cached; [done|apply Hval; left]|by apply ho_cached|].
  apply Hfirst; [apply Hval; left|done].
Qed.

Lemma heap_empty s : heap_ok s -> (forall i, child_valid I s i = false) -> heap_ I s = [].
Proof.
  intros Hok Hno. destruct (heap_ I s) as [|h rest] eqn:E; [done|]. assert (h ∈ heap_ I s) as Hh by (rewrite E; left).
  apply (heap_elem _ _ Hok) in Hh. by rewrite Hno in Hh.
Qed.

Lemma Reinitialize_ok (s : M) : keys_dom s -> length (comparisons_ I s) = length (children_ I s) ->
  let s' := ReinitializeComparisons c I s in
  children_ I s' = children_ I s /\ current_ I s' = current_ I s /\ m_direction_ I s' = m_direction_ I s /\ heap_ok s'.
Proof.
  intros Hd Hlen. cbv zeta. split; [done|]. split; [done|]. split; [done|]. unfold ReinitializeComparisons. cbv zeta.
  set (cs := zip_with _ _ _). set (hp := List.filter _ _). set (s1 := with_heap I s cs hp).
  assert (forall i, child_valid I s i = true -> nth i cs 0 = KeyNum c (child_key I s i)) as Hcs.
  { intros i Hi. unfold child_valid, child_key in *. destruct (children_ I s !! i) as [w|] eqn:E; [|done].
    destruct (lookup_lt_is_Some_2 (comparisons_ I s) i) as [o Ho]; [rewrite Hlen; by eapply lookup_lt_Some|].
    apply nth_lookup_Some. unfold cs. rewrite lookup_zip_with, E, Ho. simpl. by rewrite Hi. }
  assert (strict_weak (HC s1) hp) as Hsw.
  { apply HC_strict_weak; [exact Hd|]. apply Forall_forall. intros i Hi%elem_valid. split; [exact Hi|]. by apply Hcs. }
  destruct (make_heap_ok _ _ Hsw) as [Hp Hh]. split; simpl.
  - unfold cs. rewrite length_zip_with. lia.
  - exact Hp.
  - by eapply is_heap_ext; [|exact Hh].
  - exact Hcs.
Qed.

Lemma NoDup_valid s : NoDup (List.filter (child_valid I s) (seq 0 (length (children_ I s)))).
Proof. apply NoDup_ListNoDup, List.NoDup_filter, NoDup_ListNoDup, NoDup_seq. Qed.

(** HeapComparator looks at the caches and keys of its arguments only. *)
Lemma HC_ext s s' i j : m_direction_ I s' = m_direction_ I s ->
  (forall k, k = i \/ k = j -> nth k (comparisons_ I s') 0 = nth k (comparisons_ I s) 0 /\ child_key I s' k = child_key I s k) ->
  HC s i j = HC s' i j.
Proof.
  intros Hdir H. unfold HeapComparator. rewrite Hdir. destruct (H i) as [Hi Ki], (H j) as [Hj Kj]; auto.
  by destruct (m_direction_ I s); rewrite Hi, Hj, Ki, Kj.
Qed.

(** The heap without child [j]. *)
Record popped (s : M) (j : nat) : Prop := {
  po_len : length (comparisons_ I s) = length (children_ I s);
  po_nodup : NoDup (heap_ I s);
  po_elem i : i ∈ heap_ I s <-> i <> j /\ child_valid I s i = true;
  po_heap : is_heap (HC s) (heap_ I s);
  po_cached i : i <> j -> child_valid I s i = true -> cached s i;
}.

Lemma Pop_ok (s : M) j : keys_dom s -> heap_ok s -> current_ I s = Some j -> head (heap_ I s) = Some j ->
  exists h', PopCurrentComparison c I s = Some (with_heap I s (comparisons_ I s) h') /\
    popped (with_heap I s (comparisons_ I s) h') j.
Proof.
  intros Hd Hok Hcur Hhead. pose proof (HC_strict_weak s _ Hd (heap_valid_cached _ Hok)) as Hsw.
  destruct (heap_ I s) as [|front rest] eqn:Eh; [done|]. injection Hhead as ->.
  pose proof (ho_heap _ Hok) as Hh. rewrite Eh in Hh.
  destruct (pop_heap_ok _ _ _ Hsw Hh) as (h' & Epop & Hp & Hh'). exists h'.
  unfold PopCurrentComparison. rewrite Hcur, Eh, Nat.eqb_refl, Epop, removelast_last. split; [done|].
  assert (NoDup (j :: h')) as Hnd by (rewrite Hp, <- Eh, (ho_perm _ Hok); apply NoDup_valid).
  apply NoDup_cons in Hnd as [Hjh Hnd]. split; simpl.
  - apply (ho_len _ Hok).
  - done.
  - intros i. change (child_valid I (with_heap I s (comparisons_ I s) h') i) with (child_valid I s i).
    rewrite <- (heap_elem _ _ Hok), Eh, Hp, elem_of_cons. split; [|by intros [? [?|?]]].
    intros Hi. split; [|by right]. intros ->. apply Hjh. by rewrite Hp.
  - by eapply is_heap_ext; [|exact Hh'].
  - intros i _. apply (ho_cached _ Hok).
Qed.

Lemma move_child (s : M) j w' i :
  (j < length (children_ I s))%nat ->
  let s' := with_children I s (<[j := w']> (children_ I s)) (m_direction_ I s) in
  child_valid I s' i = (if decide (i = j) then w_valid I w' else child_valid I s i) /\
  child_key I s' i = (if decide (i = j) then w_key I w' else child_key I s i).
Proof.
  intros Hj. unfold child_valid, child_key. simpl. destruct (decide (i = j)) as [->|].
  - by rewrite list_lookup_insert_eq by done.
  - by rewrite list_lookup_insert_ne by done.
Qed.

Lemma move_popped (s : M) j w' : (j < length (children_ I s))%nat -> popped s j ->
  popped (with_children I s (<[j := w']> (children_ I s)) (m_direction_ I s)) j.
Proof.
  intros Hj [Hlen Hnd Hin Hh Hcd]. pose proof (fun i => move_child s j w' i Hj) as Hmv. cbv zeta in Hmv.
  set (s' := with_children _ _ _ _) in *.
  assert (forall i, i <> j -> child_valid I s' i = child_valid I s i /\ child_key I s' i = child_key I s i) as Hother.
  { intros i Hi. destruct (Hmv i) as [-> ->]. by rewrite !decide_False. }
  split; simpl.
  - by rewrite length_insert.
  - done.
  - intros i. rewrite Hin. destruct (decide (i = j)) as [|Hne]; [naive_solver|]. by destruct (Hother i Hne) as [-> _].
  - eapply is_heap_ext; [|exact Hh]. intros x y [Hx _]%Hin [Hy _]%Hin. apply HC_ext; [done|].
    intros k [->| ->]; (split; [done|by apply Hother]).
  - intros i Hi. unfold cached. destruct (Hother i Hi) as [-> ->]. by apply Hcd.
Qed.

Lemma Push_ok (s : M) j : keys_dom s -> popped s j -> current_ I s = Some j -> (j < length (children_ I s))%nat ->
  let s' := PushCurrentComparison c I s in
  children_ I s' = children_ I s /\ m_direction_ I s' = m_direction_ I s /\ heap_ok s'.
Proof.
  intros Hd [Hlen Hnd Hin Hh Hcd] Hcur Hj. unfold PushCurrentComparison. rewrite Hcur.
  destruct (child_valid I s j) eqn:Ev; cbv zeta.
  2:{ split; [done|]. split; [done|]. split; try done.
      - apply NoDup_Permutation; [done|apply NoDup_valid|]. intros i. rewrite elem_valid, Hin. split; [by intros []|].
        intros Hi. split; [|done]. intros ->. by rewrite Ev in Hi.
      - intros i Hi. apply Hcd; [|done]. intros ->. by rewrite Ev in Hi. }
  set (cs := <[j := _]> _). set (s3 := with_heap I s cs (heap_ I s ++ [j])).
  assert (forall i, i <> j -> nth i cs 0 = nth i (comparisons_ I s) 0) as Hcs.
  { intros i Hi. unfold cs. by rewrite !nth_lookup, list_lookup_insert_ne by done. }
  assert (forall i, child_valid I s3 i = true -> cached s3 i) as Hc3.
  { intros i Hi. unfold cached. simpl. destruct (decide (i = j)) as [->|Hne]; [|rewrite Hcs by done; by apply Hcd].
    apply nth_lookup_Some, list_lookup_insert_eq. simpl. lia. }
  assert (forall i, i ∈ heap_ I s ++ [j] <-> child_valid I s3 i = true) as Hin3.
  { intros i. rewrite elem_of_app, list_elem_of_singleton, Hin. change (child_valid I s3 i) with (child_valid I s i).
    destruct (decide (i = j)); naive_solver. }
  assert (strict_weak (HC s3) (heap_ I s ++ [j])) as Hsw3.
  { apply HC_strict_weak; [exact Hd|]. apply Forall_forall. intros i Hi%Hin3. split; [done|by apply Hc3]. }
  assert (is_heap (HC s3) (heap_ I s)) as Hh3.
  { eapply is_heap_ext; [|exact Hh]. intros x y [Hx _]%Hin [Hy _]%Hin. apply HC_ext; [done|].
    intros k Hk. split; [|done]. apply Hcs. by destruct Hk as [->| ->]. }
  destruct (push_heap_ok _ _ _ Hsw3 Hh3) as [Hp3 Hheap3]. split; [done|]. split; [done|]. split; simpl.
  - unfold cs. by rewrite length_insert.
  - etransitivity; [exact Hp3|].
    apply NoDup_Permutation; [|apply (NoDup_valid s3)|intros i; rewrite Hin3; symmetry; apply (elem_valid s3)].
    apply NoDup_app. split; [done|]. split; [|apply NoDup_singleton]. intros i [Hi _]%Hin. set_solver.
  - by eapply is_heap_ext; [|exact Hheap3].
  - exact Hc3.
Qed.

(** PopCurrentComparison, a move of the current child and
    PushCurrentComparison keep the heap. *)
Lemma step_current f (s : M) j w w' : keys_dom s -> heap_ok s ->
  current_ I s = Some j -> head (heap_ I s) = Some j -> children_ I s !! j = Some w -> f w = Some w' ->
  (w_valid I w' = true -> dom (w_key I w')) ->
  exists s1 s2, PopCurrentComparison c I s = Some s1 /\ move_current I f s1 = Some s2 /\
    let s3 := PushCurrentComparison c I s2 in
    children_ I s3 = <[j := w']> (children_ I s) /\ m_direction_ I s3 = m_direction_ I s /\ heap_ok s3.
Proof.
  intros Hd Hok Hcur Hhead Hw Hf Hd'. pose proof (lookup_lt_Some _ _ _ Hw) as Hj.
  destruct (Pop_ok s j Hd Hok Hcur Hhead) as (h' & Epop & Hpop).
  eexists _, _. split; [exact Epop|]. unfold move_current. simpl. rewrite Hcur. simpl. rewrite Hw. simpl. rewrite Hf. simpl.
  split; [reflexivity|]. pose proof (move_popped (with_heap I s (comparisons_ I s) h') j w' Hj Hpop) as Hmv. 
  refine (Push_ok _ j _ Hmv Hcur _).
  - intros i. destruct (move_child (with_heap I s (comparisons_ I s) h') j w' i Hj) as [-> ->].
    destruct (decide (i = j)); [done|]. apply Hd.
  - simpl. by rewrite length_insert.
Qed.
End Heap.

(** ** MergingIterator keeps the contract *)
Section MergingOk.
Context `{Hheap : !StdHeap} `{Hheapok : !StdHeapOk}.
Context (c : Comparator) (dom : bytes -> Prop) `{Hc : !ComparatorOk c dom} (I : IterOps).
Context (ls : list (list entry)) (Rs : nat -> St I -> pos -> Prop) (m : list entry).
Context (HI : forall i l, ls !! i = Some l -> IterOk I c dom l (Rs i)).
Context (Hls : Forall (sorted_keys c) ls) (Hm : sorted_keys c m) (Hdom : Forall (fun e => dom (fst e)) m).
Context (Hperm : m ≡ₚ concat ls).
Notation M := (MergingIterator I).
Notation W := (IteratorWrapper I).
Notation lst := (lst ls).
Notation count := (count c ls m).

(** Where child [i] stands when the merge is before position [K], moving
    forward: at the first entry past the cut; moving backward: at the last
    entry before it. *)
Definition fpos (K i : nat) : pos := at_count (lst i) (count i K).
Definition rpos (K i : nat) : pos := prev_pos (count i K).
Definition child_pos (d : Direction) (k i : nat) : pos :=
  match d with kForward => fpos k i | kReverse => rpos (S k) i end.

Definition mstate (s : M) (P : nat -> pos) : Prop :=
  length (children_ I s) = length ls /\ length (comparisons_ I s) = length ls /\
  forall i w, children_ I s !! i = Some w -> wrapper_rel (Rs i) w (P i).

Lemma child_ok i : (i < length ls)%nat -> IterOk I c dom (lst i) (Rs i).
Proof.
  intros Hi. apply HI. destruct (lookup_lt_is_Some_2 ls i Hi) as [l Hl]. by rewrite (lst_eq ls i l Hl).
Qed.

Lemma mstate_child s P i w : mstate s P -> children_ I s !! i = Some w ->
  wrapper_rel (Rs i) w (P i) /\ IterOk W c dom (lst i) (wrapper_rel (Rs i)).
Proof.
  intros (Hlen & _ & Hw) Hi. split; [by apply Hw|]. apply IteratorWrapper_ok, child_ok.
  rewrite <- Hlen. by eapply lookup_lt_Some.
Qed.

Lemma child_valid_pos s P i : mstate s P -> child_valid I s i = true ->
  exists n e, P i = Some n /\ lst i !! n = Some e /\ child_key I s i = fst e.
Proof.
  intros Hs Hv. unfold child_valid, child_key in *. destruct (children_ I s !! i) as [w|] eqn:E; [|done].
  destruct (mstate_child s P i w Hs E) as [Hw Hok]. pose proof (io_valid (I := W) w (P i) Hw) as Hv'. simpl in Hv'.
  destruct (P i) as [n|]; [|congruence]. exists n, (Iterator.key W w, Iterator.value W w).
  split; [done|]. by split; [apply (io_entry (I := W))|].
Qed.

Lemma child_pos_valid s P i n : mstate s P -> (i < length ls)%nat -> P i = Some n -> child_valid I s i = true.
Proof.
  intros Hs Hi HP. pose proof Hs as (Hlen & _). rewrite <- Hlen in Hi. destruct (lookup_lt_is_Some_2 _ _ Hi) as [w Hw].
  unfold child_valid. rewrite Hw. destruct (mstate_child s P i w Hs Hw) as [Hrel Hok]. rewrite HP in Hrel.
  exact (io_valid (I := W) w (Some n) Hrel).
Qed.

Lemma mstate_dom s P : mstate s P -> keys_dom dom I s.
Proof.
  intros Hs i Hi. destruct (child_valid_pos s P i Hs Hi) as (n & e & _ & He & ->). by eapply entry_dom.
Qed.

Lemma mstate_ext s P Q : (forall i, (i < length ls)%nat -> P i = Q i) -> mstate s P -> mstate s Q.
Proof.
  intros E (Hl & Hc' & Hw). split; [done|]. split; [done|]. intros i w Hi. rewrite <- E; [by apply Hw|].
  rewrite <- Hl. by eapply lookup_lt_Some.
Qed.

(** The child with the entry at position [k] is at the front of the heap. *)
Lemma front_child s k e : mstate s (child_pos (m_direction_ I s) k) -> heap_ok c I s -> m !! k = Some e ->
  exists j n, lst j !! n = Some e /\ (j < length ls)%nat /\ head (heap_ I s) = Some j /\
    child_pos (m_direction_ I s) k j = Some n /\ count j k = n /\ count j (S k) = S n.
Proof.
  intros Hs Hok Hk. destruct (proj1 (elem_merge ls m Hperm e)) as (j & n & Hj); [by eapply list_elem_of_lookup_2|].
  destruct (count_step c dom ls m Hls Hm Hdom Hperm k e j n Hk Hj) as [E1 E2].
  assert (j < length ls)%nat as Hjl by (by eapply lookup_lt_Some, lst_lookup).
  assert (child_pos (m_direction_ I s) k j = Some n) as Hp.
  { unfold child_pos, fpos, rpos, at_count. rewrite E1, E2. destruct (m_direction_ I s); [|done].
    apply decide_True. by eapply lookup_lt_Some. }
  exists j, n. split; [done|]. split; [done|]. split; [|done].
  pose proof (child_pos_valid s _ j n Hs Hjl Hp) as Hvj.
  apply (front_unique c dom I s j); [by eapply mstate_dom|done|done|]. intros i Hi Hne.
  destruct (child_valid_pos s _ i Hs Hi) as (n' & f & Hp' & Hf & ->).
  destruct (child_valid_pos s _ j Hs Hvj) as (n0 & e0 & Hp0 & He0 & ->).
  assert (e0 = e) as -> by congruence.
  assert (f ∈ m) as [p Hpos]%list_elem_of_lookup by (apply (elem_merge ls m Hperm); eauto).
  assert (p <> k) as Hpk.
  { intros ->. rewrite Hk in Hpos. injection Hpos as <-. by eapply Hne, (same_list c dom ls m Hm Hdom Hperm). }
  pose proof (fun K => count_index c dom ls m Hls Hm Hdom Hperm i K n' f p Hf Hpos) as Hcnt.
  unfold goes_first, child_pos, fpos, rpos, at_count in *. destruct (m_direction_ I s).
  - destruct (decide (count i k < length (lst i))%nat); [|done]. injection Hp' as Hp'.
    apply (Hm k p); [|done..]. specialize (Hcnt k). lia.
  - destruct (count i (S k)) as [|cnt] eqn:Ec; [done|]. injection Hp' as ->.
    apply (Hm p k); [|done..]. specialize (Hcnt (S k)). rewrite Ec in Hcnt. lia.
Qed.

(** The iterator stands at position [k] of the merge. *)
Definition merge_rel (s : M) (p : pos) : Prop :=
  match p with
  | None => current_ I s = None /\ exists P, mstate s P
  | Some k => (k < length m)%nat /\ heap_ok c I s /\ mstate s (child_pos (m_direction_ I s) k) /\
              current_ I s = head (heap_ I s)
  end.

Lemma merge_rel_mstate s p : merge_rel s p -> exists P, mstate s P.
Proof. destruct p as [k|]; simpl; [|by intros [_ ?]]. intros (_ & _ & H & _). eauto. Qed.

Lemma mstate_with_current s o P : mstate (with_current I s o) P <-> mstate s P.
Proof. done. Qed.

(** FindSmallest and FindLargest. *)
Lemma settle_forward s K : (K <= length m)%nat -> mstate s (fpos K) -> m_direction_ I s = kForward -> heap_ok c I s ->
  merge_rel (FindSmallest I s) (at_count m K).
Proof.
  intros HK Hs Hdir Hok. unfold at_count. destruct (decide (K < length m)%nat) as [Hlt|Hge].
  - split; [done|]. split; [by destruct Hok|]. simpl. rewrite Hdir. by split.
  - assert (K = length m) as -> by lia. simpl. rewrite (heap_empty c I s Hok); [split; [done|]; eauto|].
    intros i. apply not_true_iff_false. intros Hi. destruct (child_valid_pos s _ i Hs Hi) as (n & e & Hp & _).
    unfold fpos, at_count in Hp. rewrite (count_all c ls m), decide_False in Hp by lia. done.
Qed.

Lemma settle_backward s K : (K <= length m)%nat -> mstate s (rpos K) -> m_direction_ I s = kReverse -> heap_ok c I s ->
  merge_rel (FindLargest I s) (prev_pos K).
Proof.
  intros HK Hs Hdir Hok. destruct K as [|k]; simpl.
  - rewrite (heap_empty c I s Hok); [split; [done|]; eauto|].
    intros i. apply not_true_iff_false. intros Hi. destruct (child_valid_pos s _ i Hs Hi) as (n & e & Hp & _).
    unfold rpos in Hp. by rewrite (count_0 c dom ls m Hm Hdom Hperm) in Hp.
  - split; [done|]. split; [by destruct Hok|]. rewrite Hdir. by split.
Qed.

Lemma move_children_ok f P Q i ws :
  (forall j w, (i <= j < length ls)%nat -> wrapper_rel (Rs j) w (P j) ->
    exists w', f j w = Some w' /\ wrapper_rel (Rs j) w' (Q j)) ->
  (i + length ws = length ls)%nat -> (forall j w, ws !! j = Some w -> wrapper_rel (Rs (i + j)) w (P (i + j)%nat)) ->
  exists ws', move_children I f i ws = Some ws' /\ length ws' = length ws /\
    forall j w, ws' !! j = Some w -> wrapper_rel (Rs (i + j)) w (Q (i + j)%nat).
Proof.
  revert i. induction ws as [|w ws IH]; intros i Hf Hlen Hws; simpl in *; [by exists []|].
  pose proof (Hws 0%nat w eq_refl) as Hw. rewrite Nat.add_0_r in Hw.
  destruct (Hf i w ltac:(lia) Hw) as (w' & -> & Hw'). simpl.
  destruct (IH (S i)) as (ws' & -> & Hl & Hr).
  { intros j v Hj. apply Hf. lia. }
  { lia. }
  { intros j v Hj. specialize (Hws (S j) v Hj). by rewrite Nat.add_succ_r in Hws. }
  exists (w' :: ws'). split; [done|]. split; [simpl; lia|]. intros [|j] v Hj; simpl in Hj.
  - injection Hj as <-. by rewrite Nat.add_0_r.
  - rewrite Nat.add_succ_r. by apply Hr.
Qed.

(** A loop over all children, then ReinitializeComparisons. *)
Lemma reposition s f P Q d :
  mstate s P ->
  (forall j w, (j < length ls)%nat -> wrapper_rel (Rs j) w (P j) -> exists w', f j w = Some w' /\ wrapper_rel (Rs j) w' (Q j)) ->
  exists children, move_children I f 0 (children_ I s) = Some children /\
    let s' := ReinitializeComparisons c I (with_children I s children d) in
    mstate s' Q /\ heap_ok c I s' /\ m_direction_ I s' = d /\ current_ I s' = current_ I s.
Proof.
  intros (Hlen & Hlc & Hw) Hf. destruct (move_children_ok f P Q 0 (children_ I s)) as (ws & E & Hl & Hr).
  { intros j w Hj. apply Hf. lia. }
  { done. }
  { exact Hw. }
  exists ws. split; [done|]. assert (mstate (with_children I s ws d) Q) as Hs.
  { split; [simpl; lia|]. split; [done|]. exact Hr. }
  destruct (Reinitialize_ok c dom I (with_children I s ws d)) as (E1 & E2 & E3 & Hok).
  { by eapply mstate_dom. }
  { simpl. lia. }
  cbv zeta. split; [|by rewrite E2, E3]. split; [rewrite E1; simpl; lia|]. split; [|by rewrite E1].
  rewrite (ho_len _ _ _ Hok), E1. simpl. lia.
Qed.

Lemma merging_SeekToFirst_ok s p : merge_rel s p ->
  exists s', merging_SeekToFirst c I s = Some s' /\ merge_rel s' (first_pos (length m)).
Proof.
  intros [P HP]%merge_rel_mstate. unfold merging_SeekToFirst.
  destruct (reposition s (fun _ => SeekToFirst W) P (fpos 0) kForward HP) as (ws & -> & Hs & Hok & Hd & _).
  { intros j w Hj Hw. pose proof (child_ok j Hj). destruct (io_first (I := W) w _ Hw) as (w' & E & Hw'). exists w'.
    split; [done|]. unfold fpos. rewrite (count_0 c dom ls m Hm Hdom Hperm). unfold at_count, first_pos in *.
    by repeat destruct (decide _); try lia. }
  eexists. split; [done|]. replace (first_pos (length m)) with (at_count m 0).
  - apply settle_forward; [lia|done..].
  - unfold at_count, first_pos. by repeat destruct (decide _); try lia.
Qed.

Lemma merging_SeekToLast_ok s p : merge_rel s p ->
  exists s', merging_SeekToLast c I s = Some s' /\ merge_rel s' (last_pos (length m)).
Proof.
  intros [P HP]%merge_rel_mstate. unfold merging_SeekToLast.
  destruct (reposition s (fun _ => SeekToLast W) P (rpos (length m)) kReverse HP) as (ws & -> & Hs & Hok & Hd & _).
  { intros j w Hj Hw. pose proof (child_ok j Hj). destruct (io_last (I := W) w _ Hw) as (w' & E & Hw'). exists w'.
    split; [done|]. unfold rpos. by rewrite (count_all c ls m). }
  eexists. split; [done|]. by apply (settle_backward _ (length m)).
Qed.

Lemma merging_Seek_ok s p target : merge_rel s p -> dom target ->
  exists s', merging_Seek c I target s = Some s' /\ merge_rel s' (seek_pos c m target).
Proof.
  intros [P HP]%merge_rel_mstate Ht. unfold merging_Seek, SeekInSequence.
  set (K := prefix_len (fun e => Compare c (fst e) target <? 0) m).
  destruct (reposition s (fun _ => Seek W target) P (fpos K) kForward HP) as (ws & -> & Hs & Hok & Hd & _).
  { intros j w Hj Hw. pose proof (child_ok j Hj). destruct (io_seek (I := W) w _ target Hw Ht) as (w' & E & Hw'). exists w'.
    split; [done|]. unfold fpos, K. by rewrite (count_seek c dom ls m Hm Hdom Hperm). }
  eexists. split; [done|]. rewrite (seek_pos_count c m). apply settle_forward; [apply prefix_len_le|done..].
Qed.

(** The current child of a valid iterator. *)
Lemma merge_current s k : merge_rel s (Some k) -> exists j n e,
  m !! k = Some e /\ lst j !! n = Some e /\ (j < length ls)%nat /\ current_ I s = Some j /\ head (heap_ I s) = Some j /\
  child_pos (m_direction_ I s) k j = Some n /\ count j k = n /\ count j (S k) = S n /\
  exists w, children_ I s !! j = Some w /\ wrapper_rel (Rs j) w (Some n) /\ merging_key I s = fst e /\ merging_value I s = snd e.
Proof.
  intros (Hk & Hok & Hs & Hcur). destruct (lookup_lt_is_Some_2 m k Hk) as [e He].
  destruct (front_child s k e Hs Hok He) as (j & n & Hj & Hjl & Hhead & Hp & E1 & E2). exists j, n, e.
  rewrite Hcur. repeat (split; [done|]). pose proof Hs as (Hlen & _). pose proof Hjl as Hjl'. rewrite <- Hlen in Hjl'.
  destruct (lookup_lt_is_Some_2 _ _ Hjl') as [w Hw]. exists w. split; [done|].
  destruct (mstate_child s _ j w Hs Hw) as [Hrel HW]. rewrite Hp in Hrel. split; [done|].
  destruct (io_key (I := W) w n e Hrel Hj) as [Ek Ev]. unfold merging_key, merging_value, child_key.
  rewrite Hcur, Hhead. simpl. rewrite Hw. by split.
Qed.

Lemma seek_current k e i : m !! k = Some e -> seek_pos c (lst i) (fst e) = fpos k i.
Proof.
  intros Hk. assert (dom (fst e)) as Hd by (eapply (merge_dom dom m Hdom), list_elem_of_lookup_2, Hk).
  rewrite <- (count_seek c dom ls m Hm Hdom Hperm (fst e) i Hd). unfold fpos. do 2 f_equal.
  apply prefix_len_unique; [by apply Nat.lt_le_incl; eapply lookup_lt_Some| |].
  - intros a f Ha Hf. apply Z.ltb_lt. by apply (Hm a k).
  - intros f Hf. rewrite Hk in Hf. injection Hf as <-. apply Z.ltb_ge. rewrite (cmp_refl (dom := dom)); [lia|done].
Qed.

Lemma rpos_fpos k i n : fpos k i = n -> count i (S k) = count i k ->
  rpos (S k) i = match n with Some n => prev_pos n | None => last_pos (length (lst i)) end.
Proof.
  intros <- E. unfold rpos, fpos, at_count. rewrite E. pose proof (count_le c ls m i k) as Hle.
  destruct (decide _); [done|]. by replace (count i k) with (length (lst i)) by lia.
Qed.

Lemma other_key_differs k e j n i n' f :
  m !! k = Some e -> lst j !! n = Some e -> lst i !! n' = Some f -> i <> j -> Compare c (fst e) (fst f) <> 0.
Proof.
  intros He Hj Hf Hne Hcmp. assert (dom (fst e)) as Hd by by eapply (entry_dom dom ls m Hdom Hperm).
  apply (cmp_eq (dom := dom)) in Hcmp; [|done|by eapply (entry_dom dom ls m Hdom Hperm)].
  assert (f ∈ m) as [p Hpos]%list_elem_of_lookup by (apply (elem_merge ls m Hperm); eauto).
  pose proof (sorted_index c dom m p k _ e Hm Hdom Hpos He) as H1. pose proof (sorted_index c dom m k p e _ Hm Hdom He Hpos) as H2.
  rewrite <- Hcmp, (cmp_refl (dom := dom)) in H1, H2 by done. assert (p = k) as -> by lia.
  rewrite He in Hpos. injection Hpos as <-. by eapply Hne, (same_list c dom ls m Hm Hdom Hperm).
Qed.

Lemma turned s k e j n : mstate s (child_pos (m_direction_ I s) k) -> heap_ok c I s -> m !! k = Some e ->
  lst j !! n = Some e -> current_ I s = Some j -> merge_rel s (Some k).
Proof.
  intros Hs Hok He Hj Hcur. split; [by eapply lookup_lt_Some|]. split; [done|]. split; [done|].
  destruct (front_child s k e Hs Hok He) as (j' & n' & Hj' & _ & -> & _). rewrite Hcur. f_equal.
  by eapply (same_list c dom ls m Hm Hdom Hperm).
Qed.

(** What one child does in the loops of Next and Prev that turn around. *)
Lemma turn_seek k e i w p : (i < length ls)%nat -> m !! k = Some e -> wrapper_rel (Rs i) w p ->
  exists w', Seek W (fst e) w = Some w' /\ wrapper_rel (Rs i) w' (fpos k i) /\
    IterOk W c dom (lst i) (wrapper_rel (Rs i)).
Proof.
  intros Hi He Hw. pose proof (child_ok i Hi).
  assert (dom (fst e)) as Hd by (eapply (merge_dom dom m Hdom), list_elem_of_lookup_2, He).
  destruct (io_seek (I := W) w _ (fst e) Hw Hd) as (w1 & E & Hw1). rewrite (seek_current k e i He) in Hw1.
  exists w1. split; [done|]. split; [done|]. apply _.
Qed.

Lemma turn_forward_ok s k : merge_rel s (Some k) -> m_direction_ I s = kReverse ->
  exists children, move_children I (turn_forward c I s) 0 (children_ I s) = Some children /\
    let s' := ReinitializeComparisons c I (with_children I s children kForward) in
    merge_rel s' (Some k) /\ m_direction_ I s' = kForward.
Proof.
  intros Hrel Hdir. destruct (merge_current s k Hrel) as (j & n & e & He & Hj & Hjl & Hcur & _ & Hp & E1 & E2 & w & Hw & Hwr & Ek & _).
  destruct Hrel as (Hk & _ & Hs & _). rewrite Hdir in Hs.
  destruct (reposition s (turn_forward c I s) _ (fpos k) kForward Hs) as (ws & Ews & Hs' & Hok' & Hd' & Hc').
  { intros i w0 Hi Hw0. unfold turn_forward. rewrite Hcur. destruct (decide (i = j)) as [->|Hne].
    - rewrite bool_decide_true by done. exists w0. split; [done|]. simpl in Hw0. unfold rpos in Hw0. rewrite E2 in Hw0.
      unfold fpos, at_count. rewrite E1, decide_True by (by eapply lookup_lt_Some). done.
    - rewrite bool_decide_false by congruence. rewrite Ek.
      destruct (turn_seek k e i w0 _ Hi He Hw0) as (w1 & -> & Hw1 & HW). cbn [mbind option_bind].
      exists w1. split; [|done]. destruct (Valid W w1) eqn:Hv; [|done]. rewrite (io_valid (I := W) w1 _ Hw1) in Hv.
      destruct (fpos k i) as [n'|]; [|done]. pose proof (io_entry (I := W) w1 n' Hw1) as Hf.
      pose proof (other_key_differs k e j n i n' _ He Hj Hf Hne) as Hneq. cbn [fst] in Hneq.
      by rewrite (proj2 (Z.eqb_neq _ _) Hneq). }
  exists ws. split; [done|]. cbv zeta in *. split; [|done]. by apply (turned _ k e j n).
Qed.

Lemma turn_backward_ok s k : merge_rel s (Some k) -> m_direction_ I s = kForward ->
  exists children, move_children I (turn_backward I s) 0 (children_ I s) = Some children /\
    let s' := ReinitializeComparisons c I (with_children I s children kReverse) in
    merge_rel s' (Some k) /\ m_direction_ I s' = kReverse.
Proof.
  intros Hrel Hdir. destruct (merge_current s k Hrel) as (j & n & e & He & Hj & Hjl & Hcur & _ & Hp & E1 & E2 & w & Hw & Hwr & Ek & _).
  destruct Hrel as (Hk & _ & Hs & _). rewrite Hdir in Hs, Hp.
  destruct (reposition s (turn_backward I s) _ (rpos (S k)) kReverse Hs) as (ws & Ews & Hs' & Hok' & Hd' & Hc').
  { intros i w0 Hi Hw0. unfold turn_backward. rewrite Hcur. destruct (decide (i = j)) as [->|Hne].
    - rewrite bool_decide_true by done. exists w0. split; [done|]. rewrite Hp in Hw0. unfold rpos. by rewrite E2.
    - rewrite bool_decide_false by congruence. rewrite Ek.
      destruct (turn_seek k e i w0 _ Hi He Hw0) as (w1 & -> & Hw1 & HW). cbn [mbind option_bind].
      rewrite (rpos_fpos k i _ eq_refl (count_other c dom ls m Hm Hdom Hperm k e j n i He Hj Hne)).
      rewrite (io_valid (I := W) w1 _ Hw1). destruct (fpos k i) as [n'|].
      + by apply (io_prev (I := W)).
      + by apply (io_last (I := W) w1 None). }
  exists ws. split; [done|]. cbv zeta in *. split; [|done]. by apply (turned _ k e j n).
Qed.

Lemma mstate_move s j w' P Q : mstate s P -> (j < length ls)%nat -> wrapper_rel (Rs j) w' (Q j) ->
  (forall i, i <> j -> P i = Q i) -> forall s',
  children_ I s' = <[j := w']> (children_ I s) -> length (comparisons_ I s') = length ls -> mstate s' Q.
Proof.
  intros (Hlen & _ & Hw) Hj Hw' HPQ s' E Hc'. split; [by rewrite E, length_insert|]. split; [done|].
  intros i w. rewrite E. destruct (decide (i = j)) as [->|Hne].
  - rewrite list_lookup_insert_eq by lia. by intros [= <-].
  - rewrite list_lookup_insert_ne by done. rewrite <- HPQ by done. apply Hw.
Qed.

(** The end of Next and Prev: pop, move the current child, push. *)
Lemma step_ok f s k (Q : nat -> pos) :
  merge_rel s (Some k) ->
  (forall j n w, count j k = n -> count j (S k) = S n -> (j < length ls)%nat -> wrapper_rel (Rs j) w (Some n) ->
    exists w', f w = Some w' /\ wrapper_rel (Rs j) w' (Q j)) ->
  (forall i, count i (S k) = count i k -> child_pos (m_direction_ I s) k i = Q i) ->
  exists s1 s2, PopCurrentComparison c I s = Some s1 /\ move_current I f s1 = Some s2 /\
    let s3 := PushCurrentComparison c I s2 in
    mstate s3 Q /\ heap_ok c I s3 /\ m_direction_ I s3 = m_direction_ I s.
Proof.
  intros Hrel Hf HQ.
  destruct (merge_current s k Hrel) as (j & n & e & He & Hj & Hjl & Hcur & Hhead & Hp & E1 & E2 & w & Hw & Hwr & _).
  destruct Hrel as (Hk & Hok & Hs & _). destruct (Hf j n w E1 E2 Hjl Hwr) as (w' & Ef & Hw').
  pose proof (IteratorWrapper_ok I c dom (lst j) (Rs j) (child_ok j Hjl)) as HW.
  destruct (step_current c dom I f s j w w') as (s1 & s2 & H1 & H2 & E3 & E4 & Hok3); [by eapply mstate_dom|done..| |].
  { intros Hv. destruct (Q j) as [n'|] eqn:EQ.
    - eapply (entry_dom dom ls m Hdom Hperm j n' (Iterator.key W w', _)). by apply (io_entry (I := W)).
    - by rewrite (io_valid (I := W) w' None Hw' : w_valid I w' = false) in Hv. }
  exists s1, s2. split; [done|]. split; [done|]. cbv zeta. split; [|done].
  eapply (mstate_move s j w'); [exact Hs|done|done| |exact E3|].
  - intros i Hi. apply HQ. by apply (count_other c dom ls m Hm Hdom Hperm k e j n).
  - rewrite (ho_len _ _ _ Hok3), E3, length_insert. by destruct Hs.
Qed.

Lemma merging_Next_ok s k : merge_rel s (Some k) ->
  exists s', merging_Next c I s = Some s' /\ merge_rel s' (next_pos (length m) k).
Proof.
  intros Hrel. unfold merging_Next.
  assert (exists s0, match m_direction_ I s with
      | kForward => Some s
      | kReverse => children ← move_children I (turn_forward c I s) 0 (children_ I s);
                    Some (ReinitializeComparisons c I (with_children I s children kForward))
      end = Some s0 /\ merge_rel s0 (Some k) /\ m_direction_ I s0 = kForward) as (s0 & -> & Hrel0 & Hd0).
  { destruct (m_direction_ I s) eqn:Hd; [by exists s|].
    destruct (turn_forward_ok s k Hrel Hd) as (ws & -> & Hr & Hdir). eexists. by split. }
  cbn [mbind option_bind]. destruct (step_ok (Next W) s0 k (fpos (S k)) Hrel0) as (s1 & s2 & -> & E2 & Hs & Hok & Hd).
  { intros j n w E1 E2 Hj Hw. pose proof (child_ok j Hj). destruct (io_next (I := W) w n Hw) as (w' & E & Hw').
    exists w'. split; [done|]. unfold fpos. by rewrite E2. }
  { intros i E. rewrite Hd0. simpl. unfold fpos. by rewrite E. }
  cbn [mbind option_bind]. rewrite E2. eexists. split; [done|].
  apply (settle_forward _ (S k)); [by destruct Hrel|done|by rewrite Hd|done].
Qed.

Lemma merging_Prev_ok s k : merge_rel s (Some k) ->
  exists s', merging_Prev c I s = Some s' /\ merge_rel s' (prev_pos k).
Proof.
  intros Hrel. unfold merging_Prev.
  assert (exists s0, match m_direction_ I s with
      | kReverse => Some s
      | kForward => children ← move_children I (turn_backward I s) 0 (children_ I s);
                    Some (ReinitializeComparisons c I (with_children I s children kReverse))
      end = Some s0 /\ merge_rel s0 (Some k) /\ m_direction_ I s0 = kReverse) as (s0 & -> & Hrel0 & Hd0).
  { destruct (m_direction_ I s) eqn:Hd; [|by exists s].
    destruct (turn_backward_ok s k Hrel Hd) as (ws & -> & Hr & Hdir). eexists. by split. }
  cbn [mbind option_bind]. destruct (step_ok (Prev W) s0 k (rpos k) Hrel0) as (s1 & s2 & -> & E2 & Hs & Hok & Hd).
  { intros j n w E1 E2 Hj Hw. pose proof (child_ok j Hj). destruct (io_prev (I := W) w n Hw) as (w' & E & Hw').
    exists w'. split; [done|]. unfold rpos. by rewrite E1. }
  { intros i E. rewrite Hd0. simpl. unfold rpos. by rewrite E. }
  cbn [mbind option_bind]. rewrite E2. eexists. split; [done|].
  apply (settle_backward _ k); [destruct Hrel; lia|done|by rewrite Hd|done].
Qed.

Lemma merging_status_ok s P : mstate s P -> merging_status I s = OK.
Proof.
  intros Hs. unfold merging_status. destruct (List.find _ _) as [w|] eqn:E; [|done]. apply find_some in E as [Hin Hb].
  apply list_elem_of_In, list_elem_of_lookup in Hin as [i Hi]. destruct (mstate_child s P i w Hs Hi) as [Hw HW].
  rewrite (io_status (I := W) w _ Hw) in Hb. done.
Qed.

Lemma Merging_ok : IterOk (Merging c I) c dom m merge_rel.
Proof.
  split; cbn [St Valid SeekToFirst SeekToLast Seek Next Prev Iterator.key Iterator.value Iterator.status Merging].
  - intros s [k|] Hrel; unfold merging_Valid.
    + by destruct (merge_current s k Hrel) as (j & n & e & _ & _ & _ & -> & _).
    + by destruct Hrel as [-> _].
  - intros s k Hrel. destruct (merge_current s k Hrel) as (j & n & e & He & _ & _ & _ & _ & _ & _ & _ & w & _ & _ & -> & ->).
    by rewrite He; destruct e.
  - intros s p [P HP]%merge_rel_mstate. by rewrite (merging_status_ok s P HP).
  - apply merging_Next_ok.
  - apply merging_Prev_ok.
  - intros s p. apply merging_SeekToFirst_ok.
  - intros s p. apply merging_SeekToLast_ok.
  - intros s p target. apply merging_Seek_ok.
Qed.

Lemma new_MergingIterator_ok (children : list (St I)) :
  Forall2 (fun i s => Rs i s None) (seq 0 (length ls)) children -> merge_rel (new_MergingIterator c I children) None.
Proof.
  intros Hch. pose proof (Forall2_length _ _ _ Hch) as Hlen. rewrite length_seq in Hlen.
  split; [done|]. exists (fun _ => None). split; [simpl; by rewrite length_map|]. split.
  - simpl. rewrite length_zip_with, length_map, length_replicate. lia.
  - intros i w Hi. simpl in Hi. rewrite list_lookup_fmap in Hi. destruct (children !! i) as [s|] eqn:E; [|done].
    injection Hi as <-. apply w_Update_rel. assert (seq 0 (length ls) !! i = Some i) as Hseq.
    { apply lookup_seq. split; [done|]. rewrite Hlen. by eapply lookup_lt_Some. }
    by eapply (Forall2_lookup_lr _ _ _ i) in Hch.
Qed.
End MergingOk.

(** Two sorted lists with the same entries are the same. *)
Lemma sorted_keys_strongly c l : sorted_keys c l <-> StronglySorted (fun a b => Compare c (fst a) (fst b) < 0) l.
Proof.
  split.
  - induction l as [|x l IH]; intros H; [constructor|]. constructor.
    + apply IH. intros i j a b Hij Ha Hb. by apply (H (S i) (S j)); [lia|..].
    + apply Forall_lookup. intros i y Hy. by apply (H 0%nat (S i)); [lia|..].
  - intros Hs i j a b Hij Ha Hb. by eapply (SortedHeap.StronglySorted_lookup _ _ _ _ _ _ Hs).
Qed.

Lemma sorted_keys_unique c dom `{!ComparatorOk c dom} l l' :
  sorted_keys c l -> sorted_keys c l' -> Forall (fun e => dom (fst e)) l -> l ≡ₚ l' -> l = l'.
Proof.
  rewrite !sorted_keys_strongly, Forall_forall. intros H H' Hd Hp.
  eapply StronglySorted_unique_strong; [|exact H|exact H'|exact Hp].
  intros x y Hx Hy H1 H2. rewrite <- Hp in Hy. cbv beta in H1, H2. apply (cmp_anti (dom := dom)) in H1; [lia|by apply Hd..].
Qed.

Lemma NewMergingIterator_ok `{Hheap : !StdHeap} (Hheapok : StdHeapOk) (c : Comparator) (dom : bytes -> Prop)
    (Hc : ComparatorOk c dom) (I : IterOps) (ls : list (list entry)) (Rs : nat -> St I -> pos -> Prop) (m : list entry)
    (children : list (St I))
    (HI : forall i l, ls !! i = Some l -> IterOk I c dom l (Rs i))
    (Hls : Forall (sorted_keys c) ls) (Hm : sorted_keys c m) (Hdom : Forall (fun e => dom (fst e)) m)
    (Hperm : m ≡ₚ concat ls)
    (Hch : Forall2 (fun i s => Rs i s None) (seq 0 (length ls)) children) :
  exists R, IterOk (Merged c I) c dom m R /\ R (NewMergingIterator c I children) None.
Proof.
  pose proof (Forall2_length _ _ _ Hch) as Hlen. rewrite length_seq in Hlen. unfold NewMergingIterator.
  destruct children as [|s [|s' children]]; simpl in Hlen.
  - destruct ls; [|done]. apply Permutation_nil_r in Hperm as ->.
    exists (sum_rel (A := EmptyIterator) (B := SumIterator I (Merging c I)) (fun s p => ok s = true /\ p = None)
      (sum_rel (fun _ _ => False) (fun _ _ => False))).
    split; [apply _|by split].
  - destruct ls as [|l [|]]; try done. simpl in Hperm. rewrite app_nil_r in Hperm.
    rewrite (sorted_keys_unique c dom m l Hm (Forall_inv Hls) Hdom Hperm).
    exists (sum_rel (A := EmptyIterator) (B := SumIterator I (Merging c I)) (fun _ _ => False)
      (sum_rel (Rs 0%nat) (fun _ _ => False))). pose proof (HI 0%nat l eq_refl).
    split; [apply _|]. by inversion_clear Hch.
  - exists (sum_rel (A := EmptyIterator) (B := SumIterator I (Merging c I)) (fun _ _ => False)
      (sum_rel (A := I) (B := Merging c I) (fun _ _ => False) (merge_rel c I ls Rs m))).
    pose proof (Merging_ok c dom I ls Rs m HI Hls Hm Hdom Hperm). split; [apply _|].
    by apply new_MergingIterator_ok.
Qed.

(** C7. NewMergingIterator over children that keep the Iterator contract for
    sorted lists without a common key returns an Iterator over the sorted
    merge of the lists, for any number of children, in both directions and
    across changes of direction; the assert in PopCurrentComparison never
    fails.  This holds for every implementation of the C++ heap functions. *)
Theorem merging_iterator_contract `{Hheap : !StdHeap} (Hheapok : StdHeapOk) (c : Comparator) (dom : bytes -> Prop)
    (Hc : ComparatorOk c dom) (I : IterOps) (ls : list (list entry)) (Rs : nat -> St I -> pos -> Prop) (m : list entry)
    (children : list (St I))
    (HI : forall i l, ls !! i = Some l -> IterOk I c dom l (Rs i))
    (Hls : Forall (sorted_keys c) ls) (Hm : sorted_keys c m) (Hdom : Forall (fun e => dom (fst e)) m)
    (Hperm : m ≡ₚ concat ls)
    (Hch : Forall2 (fun i s => Rs i s None) (seq 0 (length ls)) children) :
  exists R, IterOk (Merged c I) c dom m R /\ R (NewMergingIterator c I children) None.
Proof. by eapply NewMergingIterator_ok. Qed.

(** The entries of two blocks. *)
Definition left_entries : list entry := [([Byte.x61], [Byte.x31]); ([Byte.x63], [Byte.x33])].
Definition right_entries : list entry := [([Byte.x62], [Byte.x32]); ([Byte.x64], [Byte.x34])].
Definition merged_entries : list entry :=
  [([Byte.x61], [Byte.x31]); ([Byte.x62], [Byte.x32]); ([Byte.x63], [Byte.x33]); ([Byte.x64], [Byte.x34])].

#[local] Existing Instance SortedHeap.sorted_heap.

Lemma merging_iterator_contract_witness :
  exists it1 it2 R,
    NewBlockIterator (new_Block (fst (bb_Finish (build_block 16 left_entries)))) = inr it1 /\
    NewBlockIterator (new_Block (fst (bb_Finish (build_block 16 right_entries)))) = inr it2 /\
    IterOk (Merged BytewiseComparator (BlockIter BytewiseComparator)) BytewiseComparator all_keys merged_entries R /\
    R (NewMergingIterator BytewiseComparator (BlockIter BytewiseComparator) [it1; it2]) None.
Proof.
  assert (forall l, l = left_entries \/ l = right_entries \/ l = merged_entries -> sorted_keys BytewiseComparator l) as Hs.
  { intros l [->|[->| ->]] [|[|[|[|i]]]] [|[|[|[|j]]]] a b Hij Ha Hb; simpl in Ha, Hb; simplify_eq; try lia; vm_compute; reflexivity. }
  destruct (built_block_ok BytewiseComparator all_keys BytewiseComparator_ok 16 left_entries) as (it1 & R1 & E1 & HI1 & Hr1);
    [apply Hs; auto|repeat constructor|repeat constructor|vm_compute; reflexivity|].
  destruct (built_block_ok BytewiseComparator all_keys BytewiseComparator_ok 16 right_entries) as (it2 & R2 & E2 & HI2 & Hr2);
    [apply Hs; auto|repeat constructor|repeat constructor|vm_compute; reflexivity|].
  exists it1, it2.
  destruct (merging_iterator_contract SortedHeap.sorted_heap_ok BytewiseComparator all_keys BytewiseComparator_ok
    (BlockIter BytewiseComparator) [left_entries; right_entries] (fun i => if Nat.eqb i 0 then R1 else R2) merged_entries
    [it1; it2]) as (R & HR & Hn).
  - intros [|[|i]] l [= <-]; [exact HI1|exact HI2].
  - repeat constructor; apply Hs; auto.
  - apply Hs. auto.
  - repeat constructor.
  - unfold merged_entries, left_entries, right_entries. simpl. apply perm_skip, perm_swap.
  - repeat constructor; [exact Hr1|exact Hr2].
  - exists R. split; [exact E1|]. split; [exact E2|]. split; [exact HR|exact Hn].
Defined.
