(* ===== verification/FileName.v ===== *)
(** * Number formatting and database file names (util/logging.cc, db/filename.cc)

    Decimal numbers are printed by snprintf and parsed back by
    ConsumeDecimalNumber, with its overflow check; file names are built from
    them and recognised by ParseFileName. *)

From Stdlib Require Import ZArith Lia Bool.
From Stdlib Require Import Strings.String.
From stdpp Require Import base list.
From S2P Require Import Prelude Comparator Status.

Set Default Goal Selector "!".
Local Open Scope Z_scope.

(** ** util/logging.cc *)

Definition digit (d : Z) : byte := z2b (48 + d).

(** "%llu": the decimal digits; twenty are enough for 64 bits. *)
Fixpoint dec_digits (fuel : nat) (num : Z) : bytes :=
  match fuel with
  | O => []
  | S fuel => if num <? 10 then [digit num] else dec_digits fuel (num / 10) ++ [digit (num mod 10)]
  end.

Definition AppendNumberTo (str : bytes) (num : Z) : bytes := str ++ dec_digits 20 num.

Definition NumberToString (num : Z) : bytes := AppendNumberTo [] num.

(** "%02x" *)
Definition hex_digit (d : Z) : byte := if d <? 10 then z2b (48 + d) else z2b (87 + d).

Definition AppendEscapedStringTo (str value : bytes) : bytes :=
  fold_left (fun str c =>
    let v := schar c in
    if (32 <=? v) && (v <=? 126) then str ++ [c]
    else str ++ bytes_of_string "\x" ++ [hex_digit (b2z c / 16); hex_digit (b2z c mod 16)])
    value str.

Definition EscapeString (value : bytes) : bytes := AppendEscapedStringTo [] value.

Definition ConsumeChar (in_ : bytes) (c : byte) : option bytes :=
  match in_ with
  | x :: in_ => if b2z x =? b2z c then Some in_ else None
  | [] => None
  end.

Definition UINT64_MAX : Z := 2 ^ 64 - 1.

Definition is_digit (c : byte) : bool := (48 <=? schar c) && (schar c <=? 57).

Fixpoint ConsumeDecimalNumber_loop (v digits : Z) (in_ : bytes) : option (Z * bytes) :=
  match in_ with
  | [] => if 0 <? digits then Some (v, in_) else None
  | c :: in' =>
      if is_digit c then
        let delta := schar c - 48 in
        if (UINT64_MAX / 10 <? v) || ((v =? UINT64_MAX / 10) && (UINT64_MAX mod 10 <? delta))
        then None
        else ConsumeDecimalNumber_loop (u64 (v * 10 + delta)) (digits + 1) in'
      else if 0 <? digits then Some (v, in_) else None
  end.

Definition ConsumeDecimalNumber (in_ : bytes) : option (Z * bytes) :=
  ConsumeDecimalNumber_loop 0 0 in_.

(** ** db/filename.cc *)

Inductive FileType :=
  | kLogFile | kDBLockFile | kTableFile | kDescriptorFile | kCurrentFile | kTempFile
  | kInfoLogFile.

(** "%06llu" *)
Definition pad6 (num : Z) : bytes :=
  let d := dec_digits 20 num in replicate (6 - length d) (digit 0) ++ d.

Definition MakeFileName (name : bytes) (number : Z) (suffix : bytes) : bytes :=
  name ++ bytes_of_string "/" ++ pad6 number ++ bytes_of_string "." ++ suffix.

Definition LogFileName (name : bytes) (number : Z) : bytes :=
  MakeFileName name number (bytes_of_string "log").
Definition TableFileName (name : bytes) (number : Z) : bytes :=
  MakeFileName name number (bytes_of_string "sst").
Definition LDBTableFileName (name : bytes) (number : Z) : bytes :=
  MakeFileName name number (bytes_of_string "ldb").
Definition DescriptorFileName (dbname : bytes) (number : Z) : bytes :=
  dbname ++ bytes_of_string "/MANIFEST-" ++ pad6 number.
Definition CurrentFileName (dbname : bytes) : bytes := dbname ++ bytes_of_string "/CURRENT".
Definition LockFileName (dbname : bytes) : bytes := dbname ++ bytes_of_string "/LOCK".
Definition TempFileName (dbname : bytes) (number : Z) : bytes :=
  MakeFileName dbname number (bytes_of_string "dbtmp").
Definition InfoLogFileName (dbname : bytes) : bytes := dbname ++ bytes_of_string "/LOG".
Definition OldInfoLogFileName (dbname : bytes) : bytes := dbname ++ bytes_of_string "/LOG.old".

Definition ParseFileName (fname : bytes) : option (Z * FileType) :=
  if Slice_eqb fname (bytes_of_string "CURRENT") then Some (0, kCurrentFile)
  else if Slice_eqb fname (bytes_of_string "LOCK") then Some (0, kDBLockFile)
  else if Slice_eqb fname (bytes_of_string "LOG") || Slice_eqb fname (bytes_of_string "LOG.old")
  then Some (0, kInfoLogFile)
  else if Slice_starts_with fname (bytes_of_string "MANIFEST-") then
    match ConsumeDecimalNumber (drop (length (bytes_of_string "MANIFEST-")) fname) with
    | Some (num, []) => Some (num, kDescriptorFile)
    | _ => None
    end
  else
    match ConsumeDecimalNumber fname with
    | Some (num, suffix) =>
        if Slice_eqb suffix (bytes_of_string ".log") then Some (num, kLogFile)
        else if Slice_eqb suffix (bytes_of_string ".sst") || Slice_eqb suffix (bytes_of_string ".ldb")
        then Some (num, kTableFile)
        else if Slice_eqb suffix (bytes_of_string ".dbtmp") then Some (num, kTempFile)
        else None
    | None => None
    end.

(** The last path component, which the directory listing hands to
    ParseFileName. *)
Definition base_name (dbname path : bytes) : bytes := drop (S (length dbname)) path.

(** ** Printing and parsing decimal numbers *)

Definition dec_value (v : Z) (l : bytes) : Z := fold_left (fun v c => v * 10 + (b2z c - 48)) l v.

Definition dec_digit_byte (c : byte) : Prop := 48 <= b2z c <= 57.

Lemma is_digit_spec c : is_digit c = true <-> dec_digit_byte c.
Proof.
  unfold is_digit, dec_digit_byte, schar. pose proof (b2z_range c).
  destruct (Z.ltb_spec (b2z c) 128); rewrite andb_true_iff, !Z.leb_le; lia.
Qed.

Lemma schar_digit c : dec_digit_byte c -> schar c = b2z c.
Proof. unfold dec_digit_byte, schar. intros. destruct (Z.ltb_spec (b2z c) 128); lia. Qed.

Lemma dec_value_ge l v : Forall dec_digit_byte l -> 0 <= v -> v <= dec_value v l.
Proof.
  intros H. revert v. induction H as [|c l Hc Hl IH]; intros v Hv; [simpl; lia|].
  unfold dec_digit_byte in Hc. change (v <= dec_value (v * 10 + (b2z c - 48)) l).
  specialize (IH (v * 10 + (b2z c - 48))). lia.
Qed.

Lemma ConsumeDecimalNumber_loop_app l k v d :
  Forall dec_digit_byte l -> 0 <= v -> dec_value v l <= UINT64_MAX ->
  ConsumeDecimalNumber_loop v d (l ++ k) = ConsumeDecimalNumber_loop (dec_value v l) (d + len l) k.
Proof.
  intros H. revert v d. induction H as [|c l Hc Hl IH]; intros v d Hv Hmax.
  - simpl. f_equal. len_solve.
  - cbn [app ConsumeDecimalNumber_loop]. rewrite (proj2 (is_digit_spec c)) by done.
    rewrite schar_digit by done. unfold dec_digit_byte in Hc.
    cbn [dec_value fold_left] in Hmax |- *.
    pose proof (dec_value_ge l (v * 10 + (b2z c - 48)) Hl ltac:(lia)) as Hge.
    unfold dec_value in Hge. unfold UINT64_MAX in *.
    change ((2 ^ 64 - 1) / 10) with 1844674407370955161.
    change ((2 ^ 64 - 1) mod 10) with 5.
    destruct (Z.ltb_spec 1844674407370955161 v); [lia|].
    destruct (Z.eqb_spec v 1844674407370955161), (Z.ltb_spec 5 (b2z c - 48)); cbn [orb andb]; try lia;
      rewrite u64_small, IH by (unfold dec_value; lia); unfold dec_value; rewrite len_cons; f_equal; lia.
Qed.

Lemma digit_ok d : 0 <= d <= 9 -> dec_digit_byte (digit d) /\ b2z (digit d) - 48 = d.
Proof. intros. unfold dec_digit_byte, digit. rewrite b2z_z2b_small by lia. lia. Qed.

Lemma dec_digits_ok fuel num :
  0 <= num < 10 ^ Z.of_nat fuel -> (0 < fuel)%nat ->
  Forall dec_digit_byte (dec_digits fuel num) /\ dec_value 0 (dec_digits fuel num) = num /\
  0 < len (dec_digits fuel num).
Proof.
  revert num. induction fuel as [|fuel IH]; intros num Hn Hf; [lia|]. cbn [dec_digits].
  destruct (Z.ltb_spec num 10).
  - destruct (digit_ok num ltac:(lia)) as [H1 H2].
    split; [by constructor|]. split; [cbn [dec_value fold_left]; lia|len_solve].
  - replace (Z.of_nat (S fuel)) with (Z.succ (Z.of_nat fuel)) in Hn by lia.
    rewrite Z.pow_succ_r in Hn by lia.
    assert (0 <= num / 10 < 10 ^ Z.of_nat fuel) as Hq
      by (split; [apply Z.div_pos; lia|apply Z.div_lt_upper_bound; lia]).
    destruct (IH (num / 10) Hq) as (F & V & L).
    { destruct fuel; [simpl in Hq; Z.div_mod_to_equations; lia|lia]. }
    destruct (digit_ok (num mod 10)) as [H1 H2]; [Z.div_mod_to_equations; lia|].
    split; [apply Forall_app; split; [done|by constructor]|]. split; [|len_solve].
    unfold dec_value in *. rewrite fold_left_app, V. cbn [fold_left].
    Z.div_mod_to_equations; lia.
Qed.

Lemma pad6_ok num :
  0 <= num < 2 ^ 64 ->
  Forall dec_digit_byte (pad6 num) /\ dec_value 0 (pad6 num) = num /\ 0 < len (pad6 num).
Proof.
  intros Hn. destruct (dec_digits_ok 20 num) as (F & V & L); [lia|lia|].
  unfold pad6. destruct (digit_ok 0 ltac:(lia)) as [H1 H2].
  split; [|split].
  - apply Forall_app. split; [|done]. by apply Forall_replicate.
  - unfold dec_value. rewrite fold_left_app.
    assert (forall n, fold_left (fun v c => v * 10 + (b2z c - 48)) (replicate n (digit 0)) 0 = 0) as ->.
    { induction n as [|n IH]; [done|]. cbn [replicate fold_left]. rewrite H2. exact IH. }
    exact V.
  - len_solve.
Qed.

(** A number ends at the first byte that is not a digit. *)
Definition no_leading_digit (k : bytes) : Prop :=
  match k with [] => True | c :: _ => is_digit c = false end.

Lemma ConsumeDecimalNumber_digits l k num :
  Forall dec_digit_byte l -> dec_value 0 l = num -> 0 < len l -> num < 2 ^ 64 ->
  no_leading_digit k -> ConsumeDecimalNumber (l ++ k) = Some (num, k).
Proof.
  intros Hl Hv Hlen Hn Hk. unfold ConsumeDecimalNumber.
  rewrite ConsumeDecimalNumber_loop_app by (done || unfold UINT64_MAX; lia).
  rewrite Hv. destruct k as [|c k]; cbn [ConsumeDecimalNumber_loop no_leading_digit] in *;
    [|rewrite Hk]; rewrite (proj2 (Z.ltb_lt 0 (0 + len l))) by lia; done.
Qed.

Lemma ConsumeDecimalNumber_loop_overflow l k v d :
  Forall dec_digit_byte l -> 0 <= v <= UINT64_MAX -> UINT64_MAX < dec_value v l ->
  ConsumeDecimalNumber_loop v d (l ++ k) = None.
Proof.
  intros H. revert v d. induction H as [|c l Hc Hl IH]; intros v d Hv Hmax.
  { unfold dec_value in Hmax. cbn [fold_left] in Hmax. lia. }
  cbn [app ConsumeDecimalNumber_loop]. rewrite (proj2 (is_digit_spec c)) by done.
  rewrite schar_digit by done. unfold dec_digit_byte in Hc.
  change (UINT64_MAX < dec_value (v * 10 + (b2z c - 48)) l) in Hmax.
  unfold UINT64_MAX in *.
  change ((2 ^ 64 - 1) / 10) with 1844674407370955161.
  change ((2 ^ 64 - 1) mod 10) with 5.
  destruct (Z.ltb_spec 1844674407370955161 v); [done|].
  destruct (Z.eqb_spec v 1844674407370955161), (Z.ltb_spec 5 (b2z c - 48)); cbn [orb andb];
    try done; rewrite u64_small by lia; apply IH; lia.
Qed.

(** ** Claims *)

(** ConsumeDecimalNumber consumes exactly the leading digits of its input
    and returns their value, for every value that fits 64 bits; it fails on
    an input without leading digits and on every number that overflows. *)
Theorem consume_decimal_spec (l k : bytes) :
  Forall dec_digit_byte l -> no_leading_digit k ->
  ConsumeDecimalNumber (l ++ k) =
    if (0 <? len l) && (dec_value 0 l <? 2 ^ 64) then Some (dec_value 0 l, k) else None.
Proof.
  intros Hl Hk. destruct (Z.ltb_spec 0 (len l)) as [H0|H0]; cbn [andb].
  - destruct (Z.ltb_spec (dec_value 0 l) (2 ^ 64)).
    + by apply ConsumeDecimalNumber_digits.
    + apply ConsumeDecimalNumber_loop_overflow; [done|unfold UINT64_MAX; lia..].
  - assert (l = []) as -> by (apply len_0_nil; len_facts; lia).
    unfold ConsumeDecimalNumber. destruct k as [|c k]; simpl in *; [done|by rewrite Hk].
Qed.

Lemma consume_decimal_spec_witness :
  ConsumeDecimalNumber (bytes_of_string "18446744073709551615.") =
    Some (18446744073709551615, bytes_of_string ".") /\
  ConsumeDecimalNumber (bytes_of_string "18446744073709551616.") = None.
Proof.
  split.
  - refine (consume_decimal_spec (bytes_of_string "18446744073709551615") (bytes_of_string ".") _ _);
      [repeat constructor; unfold dec_digit_byte; zcompute|reflexivity].
  - refine (consume_decimal_spec (bytes_of_string "18446744073709551616") (bytes_of_string ".") _ _);
      [repeat constructor; unfold dec_digit_byte; zcompute|reflexivity].
Defined.

Lemma base_name_app dbname c k : base_name dbname (dbname ++ c :: k) = k.
Proof. unfold base_name. change (c :: k) with ([c] ++ k). rewrite app_assoc. apply drop_len_app. rewrite length_app. simpl. lia. Qed.

(** A name that starts with a digit is none of the fixed names. *)
Lemma Slice_eqb_digit c l s :
  dec_digit_byte c -> no_leading_digit s -> Slice_eqb (c :: l) s = false.
Proof.
  intros Hc Hs. apply not_true_is_false. intros E%Slice_eqb_spec. subst s. simpl in Hs.
  by rewrite (proj2 (is_digit_spec c)) in Hs.
Qed.

Lemma Slice_starts_with_digit c l s :
  dec_digit_byte c -> no_leading_digit s -> s <> [] -> Slice_starts_with (c :: l) s = false.
Proof.
  intros Hc Hs Hne. apply not_true_is_false. intros [t E]%Slice_starts_with_spec.
  destruct s as [|x s]; [done|]. injection E as -> _. simpl in Hs.
  by rewrite (proj2 (is_digit_spec x)) in Hs.
Qed.

Lemma ParseFileName_numbered l k num :
  Forall dec_digit_byte l -> dec_value 0 l = num -> 0 < len l -> num < 2 ^ 64 ->
  no_leading_digit k ->
  ParseFileName (l ++ k) =
    if Slice_eqb k (bytes_of_string ".log") then Some (num, kLogFile)
    else if Slice_eqb k (bytes_of_string ".sst") || Slice_eqb k (bytes_of_string ".ldb")
    then Some (num, kTableFile)
    else if Slice_eqb k (bytes_of_string ".dbtmp") then Some (num, kTempFile)
    else None.
Proof.
  intros Hl Hv Hn Hm Hk. unfold ParseFileName.
  rewrite (ConsumeDecimalNumber_digits l k num) by done.
  destruct l as [|c l]; [done|]. inversion Hl as [|? ? Hc _]; subst.
  cbn [app]. rewrite !Slice_eqb_digit by done. by rewrite Slice_starts_with_digit by done.
Qed.

Lemma ParseFileName_MakeFileName dbname num suffix :
  0 <= num < 2 ^ 64 ->
  ParseFileName (base_name dbname (MakeFileName dbname num suffix)) =
  ParseFileName (pad6 num ++ bytes_of_string "." ++ suffix).
Proof. intros Hn. unfold MakeFileName. simpl. by rewrite base_name_app. Qed.

Lemma ParseFileName_manifest k :
  ParseFileName (bytes_of_string "MANIFEST-" ++ k) =
    match ConsumeDecimalNumber k with Some (num, []) => Some (num, kDescriptorFile) | _ => None end.
Proof.
  unfold ParseFileName.
  destruct (Slice_eqb _ (bytes_of_string "CURRENT")) eqn:E1; [by apply Slice_eqb_spec in E1|].
  destruct (Slice_eqb _ (bytes_of_string "LOCK")) eqn:E2; [by apply Slice_eqb_spec in E2|].
  destruct (Slice_eqb _ (bytes_of_string "LOG")) eqn:E3; [by apply Slice_eqb_spec in E3|].
  destruct (Slice_eqb _ (bytes_of_string "LOG.old")) eqn:E4; [by apply Slice_eqb_spec in E4|].
  cbn [orb]. rewrite (proj2 (Slice_starts_with_spec _ _)) by eauto.
  by rewrite drop_len_app by done.
Qed.

(** Every name the builders produce is recognised in the directory
    listing with the number it was built from and the type it stands for, for
    all 64-bit numbers; the table names of both generations are tables. *)
Theorem file_names_parse (dbname : bytes) (num : Z) (Hn : 0 <= num < 2 ^ 64) :
  let parse f := ParseFileName (base_name dbname f) in
  parse (LogFileName dbname num) = Some (num, kLogFile) /\
  parse (TableFileName dbname num) = Some (num, kTableFile) /\
  parse (LDBTableFileName dbname num) = Some (num, kTableFile) /\
  parse (TempFileName dbname num) = Some (num, kTempFile) /\
  parse (DescriptorFileName dbname num) = Some (num, kDescriptorFile) /\
  parse (CurrentFileName dbname) = Some (0, kCurrentFile) /\
  parse (LockFileName dbname) = Some (0, kDBLockFile) /\
  parse (InfoLogFileName dbname) = Some (0, kInfoLogFile) /\
  parse (OldInfoLogFileName dbname) = Some (0, kInfoLogFile).
Proof.
  intros parse. subst parse. cbn beta.
  unfold LogFileName, TableFileName, LDBTableFileName, TempFileName.
  destruct (pad6_ok num Hn) as (F & V & L).
  rewrite !ParseFileName_MakeFileName by done.
  rewrite !(ParseFileName_numbered (pad6 num) _ num) by (done || lia).
  do 4 (split; [reflexivity|]). split.
  - unfold DescriptorFileName. change (bytes_of_string "/MANIFEST-" ++ pad6 num)
      with (z2b 47 :: bytes_of_string "MANIFEST-" ++ pad6 num).
    rewrite base_name_app, ParseFileName_manifest, <- (app_nil_r (pad6 num)).
    by rewrite (ConsumeDecimalNumber_digits (pad6 num) [] num) by (done || lia).
  - unfold CurrentFileName, LockFileName, InfoLogFileName, OldInfoLogFileName.
    repeat split; cbn [bytes_of_string]; rewrite base_name_app; reflexivity.
Qed.

Lemma file_names_parse_witness :
  0 <= 7 < 2 ^ 64 /\
  ParseFileName (base_name (bytes_of_string "/tmp/db") (LogFileName (bytes_of_string "/tmp/db") 7)) =
    Some (7, kLogFile).
Proof.
  split; [lia|].
  exact (proj1 (file_names_parse (bytes_of_string "/tmp/db") 7 ltac:(lia))).
Defined.
