(* ===== verification/Log.v ===== *)
(** * The write-ahead log (db/log_format.h, db/log_writer.cc, db/log_reader.cc)

    The writer reserves a range of the file by advancing [offset_] and then
    fragments the record over 32 KiB blocks into that range; the reader
    reassembles records and reports what it drops.  Files are an interface:
    [ConcurrentWritableFile] for the writer, [SequentialFile] for the reader. *)

From Stdlib Require Import ZArith Lia Bool.
From Stdlib Require Import Strings.String.
From stdpp Require Import base list.
From S2P Require Import Prelude Coding Crc32c Status FileName.

Set Default Goal Selector "!".
Local Open Scope Z_scope.

(** ** log_format.h *)
Definition kZeroType : Z := 0.
Definition kFullType : Z := 1.
Definition kFirstType : Z := 2.
Definition kMiddleType : Z := 3.
Definition kLastType : Z := 4.
Definition kMaxRecordType : Z := kLastType.
Definition kBlockSize : Z := 32768.
Definition kHeaderSize : Z := 4 + 1 + 2.

(** ** ConcurrentWritableFile: WriteAt as the writer sees it *)
Class ConcurrentWritableFile (F : Type) := {
  WriteAt : F -> Z -> bytes -> Status * F;
}.

(** A file in memory: writing past the end leaves zero bytes in between, as
    the mapped and truncated file of env_posix.cc does. *)
Definition write_at (f : bytes) (offset : Z) (data : bytes) : bytes :=
  let o := Z.to_nat offset in
  take o (f ++ replicate (o - length f) Byte.x00) ++ data ++ drop (o + length data) f.

#[export] Instance MemFile : ConcurrentWritableFile bytes := {|
  WriteAt f offset data := (OK, write_at f offset data);
|}.

(** ** log_writer.cc *)

(** type_crc_[t], computed by the constructor. *)
Definition type_crc (t : Z) : Z := Value [z2b t].

Definition ComputeRecordSize (start remain : Z) : Z :=
  let per_block := kBlockSize - kHeaderSize in
  let whole_blocks := remain / per_block in
  let leftover := remain mod per_block in
  u64 (start + whole_blocks * kBlockSize + kHeaderSize + leftover).

(** [~(kBlockSize - 1)]: kBlockSize is a 32-bit unsigned constant, so the mask
    has its upper 32 bits clear when it is widened. *)
Definition block_mask : Z := u32 (Z.lnot (kBlockSize - 1)).

(** The body of the reservation loop: from [start_offset] to the [end_offset]
    that the compare-and-swap installs. *)
Definition reserve (start_offset size : Z) : Z :=
  let roundup_start :=
    if kBlockSize - Z.land start_offset (kBlockSize - 1) <? kHeaderSize
    then Z.land (u64 (start_offset + kHeaderSize)) block_mask
    else start_offset in
  let left := kBlockSize - Z.land roundup_start (kBlockSize - 1) in
  if kHeaderSize + size <=? left then u64 (roundup_start + kHeaderSize + size)
  else ComputeRecordSize (roundup_start + left) (size + kHeaderSize - left).

(** The header of EmitPhysicalRecordAt: crc, length, type. *)
Definition record_header (t : Z) (payload : bytes) : bytes :=
  let n := len payload in
  let crc := Mask (Extend (type_crc t) payload) in
  EncodeFixed32 crc ++ [z2b (Z.land n 0xff); z2b (Z.shiftr n 8); z2b t].
Arguments record_header : simpl never.

Definition record_type (begin end_ : bool) : Z :=
  if begin && end_ then kFullType
  else if begin then kFirstType
  else if end_ then kLastType
  else kMiddleType.

Section Writer.
Context {F : Type} `{ConcurrentWritableFile F}.

Record Writer := { dest_ : F; offset_ : Z }.

Definition EmitPhysicalRecordAt (t : Z) (ptr : bytes) (offset : Z) (f : F) : Status * F :=
  let (s, f) := WriteAt f offset (record_header t ptr) in
  if ok s then WriteAt f (offset + kHeaderSize) ptr else (s, f).

(** The do-while loop over fragments; [ptr] holds the [left] bytes still to be
    written.  The status of the trailer write is ignored.  Every
    iteration after the first emits a whole block or ends, so [fuel] is
    bounded by the data. *)
Fixpoint emit_loop (fuel : nat) (begin : bool) (ptr : bytes) (offset : Z) (f : F) : Status * F :=
  match fuel with
  | O => (OK, f)
  | S fuel =>
      let left := len ptr in
      let block_offset := Z.land offset (kBlockSize - 1) in
      let leftover := kBlockSize - block_offset in
      let '(block_offset, offset, f) :=
        if leftover <? kHeaderSize
        then (0, offset + leftover,
              snd (WriteAt f offset (replicate (Z.to_nat leftover) Byte.x00)))
        else (block_offset, offset, f) in
      let avail := kBlockSize - block_offset - kHeaderSize in
      let fragment_length := if left <? avail then left else avail in
      let end_ := left =? fragment_length in
      let fragment := take (Z.to_nat fragment_length) ptr in
      let (s, f) := EmitPhysicalRecordAt (record_type begin end_) fragment offset f in
      let offset := offset + kHeaderSize + fragment_length in
      let ptr := drop (Z.to_nat fragment_length) ptr in
      if ok s && (0 <? len ptr) then emit_loop fuel false ptr offset f else (s, f)
  end.

Definition emit_fuel (data : bytes) : nat :=
  Z.to_nat (len data / (kBlockSize - kHeaderSize) + 2).

Definition AddRecord (w : Writer) (slice : bytes) : Status * Writer :=
  let start_offset := offset_ w in
  let end_offset := reserve start_offset (len slice) in
  let (s, f) := emit_loop (emit_fuel slice) true slice start_offset (dest_ w) in
  (s, {| dest_ := f; offset_ := end_offset |}).
End Writer.
Arguments Writer : clear implicits.

(** Writer(dest_) on an empty file. *)
Definition new_writer : Writer bytes := {| dest_ := []; offset_ := 0 |}.

(** The records of a list, one after the other. *)
Definition AddRecords (w : Writer bytes) (records : list bytes) : Writer bytes :=
  fold_left (fun w r => snd (AddRecord w r)) records w.

(** ** SequentialFile *)

(** The bytes not yet read, for each coming call of Read whether it fails
    (calls past the end of the list succeed), and whether Skip fails. *)
Record SequentialFile := { sf_rest : bytes; sf_fails : list bool; sf_skip_fails : bool }.

Definition sf_open (contents : bytes) : SequentialFile :=
  {| sf_rest := contents; sf_fails := []; sf_skip_fails := false |}.

Definition sf_Read (f : SequentialFile) (n : Z) : Status * bytes * SequentialFile :=
  match sf_fails f with
  | true :: e =>
      (IOError [], [],
       {| sf_rest := sf_rest f; sf_fails := e; sf_skip_fails := sf_skip_fails f |})
  | e => (OK, take (Z.to_nat n) (sf_rest f),
          {| sf_rest := drop (Z.to_nat n) (sf_rest f); sf_fails := tail e;
             sf_skip_fails := sf_skip_fails f |})
  end.

Definition sf_Skip (f : SequentialFile) (n : Z) : Status * SequentialFile :=
  if sf_skip_fails f then (IOError [], f)
  else (OK, {| sf_rest := drop (Z.to_nat n) (sf_rest f); sf_fails := sf_fails f;
               sf_skip_fails := sf_skip_fails f |}).

(** ** log_reader.cc *)

Record Reader := {
  file_ : SequentialFile;
  has_reporter : bool;
  checksum_ : bool;
  buffer_ : bytes;
  eof_ : bool;
  last_record_offset_ : Z;
  end_of_buffer_offset_ : Z;
  initial_offset_ : Z;
  (** what Reporter::Corruption was called with, latest first *)
  reports : list (Z * Status);
}.

Definition new_reader (f : SequentialFile) (reporter checksum : bool) (initial_offset : Z) : Reader := {|
  file_ := f; has_reporter := reporter; checksum_ := checksum; buffer_ := []; eof_ := false;
  last_record_offset_ := 0; end_of_buffer_offset_ := 0; initial_offset_ := initial_offset;
  reports := [] |}.

Definition set_buffer (r : Reader) (b : bytes) : Reader := {|
  file_ := file_ r; has_reporter := has_reporter r; checksum_ := checksum_ r; buffer_ := b;
  eof_ := eof_ r; last_record_offset_ := last_record_offset_ r;
  end_of_buffer_offset_ := end_of_buffer_offset_ r; initial_offset_ := initial_offset_ r;
  reports := reports r |}.

Definition set_last_record_offset (r : Reader) (o : Z) : Reader := {|
  file_ := file_ r; has_reporter := has_reporter r; checksum_ := checksum_ r;
  buffer_ := buffer_ r; eof_ := eof_ r; last_record_offset_ := o;
  end_of_buffer_offset_ := end_of_buffer_offset_ r; initial_offset_ := initial_offset_ r;
  reports := reports r |}.

Definition ReportDrop (r : Reader) (bytes_ : Z) (reason : Status) : Reader :=
  if has_reporter r &&
     (initial_offset_ r <=? u64 (end_of_buffer_offset_ r - len (buffer_ r) - bytes_))
  then {| file_ := file_ r; has_reporter := has_reporter r; checksum_ := checksum_ r;
          buffer_ := buffer_ r; eof_ := eof_ r; last_record_offset_ := last_record_offset_ r;
          end_of_buffer_offset_ := end_of_buffer_offset_ r;
          initial_offset_ := initial_offset_ r;
          reports := (bytes_, reason) :: reports r |}
  else r.

Definition ReportCorruption (r : Reader) (bytes_ : Z) (reason : bytes) : Reader :=
  ReportDrop r bytes_ (Corruption reason).

(** The extended record types. *)
Definition kEof : Z := kMaxRecordType + 1.
Definition kBadRecord : Z := kMaxRecordType + 2.

(** Reading a block into the buffer: end_of_buffer_offset_ advances, and a
    failed or short read sets eof_. *)
Definition fill_buffer (r : Reader) : Status * Reader :=
  let '(status, b, f) := sf_Read (file_ r) kBlockSize in
  let r := {| file_ := f; has_reporter := has_reporter r; checksum_ := checksum_ r;
              buffer_ := b; eof_ := eof_ r; last_record_offset_ := last_record_offset_ r;
              end_of_buffer_offset_ := u64 (end_of_buffer_offset_ r + len b);
              initial_offset_ := initial_offset_ r; reports := reports r |} in
  (status, r).

Definition set_eof (r : Reader) : Reader := {|
  file_ := file_ r; has_reporter := has_reporter r; checksum_ := checksum_ r;
  buffer_ := buffer_ r; eof_ := true; last_record_offset_ := last_record_offset_ r;
  end_of_buffer_offset_ := end_of_buffer_offset_ r; initial_offset_ := initial_offset_ r;
  reports := reports r |}.

(** [const unsigned int type = header[6]]: a char, sign-extended. *)
Definition header_type (c : byte) : Z := u32 (schar c).

(** The part of ReadPhysicalRecord below "Parse the header"; the buffer holds
    at least kHeaderSize bytes.  The result is the record type and [result],
    unchanged ([None]) on the paths that do not assign it. *)
Definition parse_record (r : Reader) : Z * option bytes * Reader :=
  let header := buffer_ r in
  let a := b2z (nth 4 header Byte.x00) in
  let b := b2z (nth 5 header Byte.x00) in
  let type := header_type (nth 6 header Byte.x00) in
  let length := Z.lor a (Z.shiftl b 8) in
  if len (buffer_ r) <? kHeaderSize + length then
    let drop_size := len (buffer_ r) in
    let r := set_buffer r [] in
    if negb (eof_ r) then
      (kBadRecord, None, ReportCorruption r drop_size (bytes_of_string "bad record length"))
    else (kEof, None, r)
  else if (type =? kZeroType) && (length =? 0) then
    (kBadRecord, None, set_buffer r [])
  else if checksum_ r &&
    negb (Value (take (Z.to_nat (1 + length)) (drop 6 header)) =? Unmask (DecodeFixed32 header))
  then
    let drop_size := len (buffer_ r) in
    let r := set_buffer r [] in
    (kBadRecord, None, ReportCorruption r drop_size (bytes_of_string "checksum mismatch"))
  else
    let r := set_buffer r (drop (Z.to_nat (kHeaderSize + length)) (buffer_ r)) in
    if u64 (end_of_buffer_offset_ r - len (buffer_ r) - kHeaderSize - length) <? initial_offset_ r
    then (kBadRecord, Some [], r)
    else (type, Some (take (Z.to_nat length) (drop (Z.to_nat kHeaderSize) header)), r).

(** The outer loop.  A successful read that is not at the end of the file
    fills the buffer, so three iterations suffice ([ReadPhysicalRecord_total]). *)
Fixpoint ReadPhysicalRecord_loop (fuel : nat) (r : Reader) : option (Z * option bytes * Reader) :=
  match fuel with
  | O => None
  | S fuel =>
      if len (buffer_ r) <? kHeaderSize then
        if negb (eof_ r) then
          let (status, r) := fill_buffer (set_buffer r []) in
          if negb (ok status) then
            Some (kEof, None, set_eof (ReportDrop (set_buffer r []) kBlockSize status))
          else
            ReadPhysicalRecord_loop fuel
              (if len (buffer_ r) <? kBlockSize then set_eof r else r)
        else Some (kEof, None, set_buffer r [])
      else Some (parse_record r)
  end.

Definition ReadPhysicalRecord (r : Reader) : option (Z * option bytes * Reader) :=
  ReadPhysicalRecord_loop 3 r.

Definition SkipToInitialBlock (r : Reader) : bool * Reader :=
  let offset_in_block := initial_offset_ r mod kBlockSize in
  let block_start_location := initial_offset_ r - offset_in_block in
  let block_start_location :=
    if kBlockSize - 6 <? offset_in_block then u64 (block_start_location + kBlockSize)
    else block_start_location in
  let with_file f := {|
    file_ := f; has_reporter := has_reporter r; checksum_ := checksum_ r;
    buffer_ := buffer_ r; eof_ := eof_ r; last_record_offset_ := last_record_offset_ r;
    end_of_buffer_offset_ := block_start_location; initial_offset_ := initial_offset_ r;
    reports := reports r |} in
  if 0 <? block_start_location then
    let (skip_status, f) := sf_Skip (file_ r) block_start_location in
    if negb (ok skip_status) then
      (false, ReportDrop (with_file f) block_start_location skip_status)
    else (true, with_file f)
  else (true, with_file (file_ r)).

(** "unknown record type %u" *)
Definition unknown_type_message (record_type : Z) : bytes :=
  bytes_of_string "unknown record type " ++ dec_digits 20 record_type.

(** The loop of ReadRecord: [scratch], [in_fragmented_record],
    [prospective_record_offset] and the last [fragment] are its locals. *)
Fixpoint ReadRecord_loop (fuel : nat) (r : Reader) (scratch : bytes) (in_frag : bool)
    (prospective : Z) (fragment : bytes) : option (option bytes * Reader) :=
  match fuel with
  | O => None
  | S fuel =>
      let physical_record_offset := u64 (end_of_buffer_offset_ r - len (buffer_ r)) in
      match ReadPhysicalRecord r with
      | None => None
      | Some (type, res, r) =>
          let fragment := default fragment res in
          if type =? kFullType then
            let r := if in_frag && negb (len scratch =? 0)
              then ReportCorruption r (len scratch) (bytes_of_string "partial record without end(1)")
              else r in
            Some (Some fragment, set_last_record_offset r physical_record_offset)
          else if type =? kFirstType then
            let r := if in_frag && negb (len scratch =? 0)
              then ReportCorruption r (len scratch) (bytes_of_string "partial record without end(2)")
              else r in
            ReadRecord_loop fuel r fragment true physical_record_offset fragment
          else if type =? kMiddleType then
            if negb in_frag then
              ReadRecord_loop fuel
                (ReportCorruption r (len fragment)
                   (bytes_of_string "missing start of fragmented record(1)"))
                scratch in_frag prospective fragment
            else ReadRecord_loop fuel r (scratch ++ fragment) in_frag prospective fragment
          else if type =? kLastType then
            if negb in_frag then
              ReadRecord_loop fuel
                (ReportCorruption r (len fragment)
                   (bytes_of_string "missing start of fragmented record(2)"))
                scratch in_frag prospective fragment
            else Some (Some (scratch ++ fragment), set_last_record_offset r prospective)
          else if type =? kEof then Some (None, r)
          else if type =? kBadRecord then
            if in_frag then
              ReadRecord_loop fuel
                (ReportCorruption r (len scratch) (bytes_of_string "error in middle of record"))
                [] false prospective fragment
            else ReadRecord_loop fuel r scratch in_frag prospective fragment
          else
            ReadRecord_loop fuel
              (ReportCorruption r (len fragment + (if in_frag then len scratch else 0))
                 (unknown_type_message type))
              [] false prospective fragment
      end
  end.

(** Each physical record consumes bytes of the buffer or of the file. *)
Definition reader_fuel (r : Reader) : nat :=
  S (length (buffer_ r) + length (sf_rest (file_ r))).

Definition ReadRecord (r : Reader) : option (option bytes * Reader) :=
  let (good, r) :=
    if last_record_offset_ r <? initial_offset_ r then SkipToInitialBlock r else (true, r) in
  if good then ReadRecord_loop (reader_fuel r) r [] false 0 [] else Some (None, r).

(** Calling ReadRecord until it returns false. *)
Fixpoint ReadAll (fuel : nat) (r : Reader) : option (list bytes * Reader) :=
  match fuel with
  | O => None
  | S fuel =>
      match ReadRecord r with
      | None => None
      | Some (None, r) => Some ([], r)
      | Some (Some rec, r) =>
          match ReadAll fuel r with
          | None => None
          | Some (recs, r) => Some (rec :: recs, r)
          end
      end
  end.
