(* ===== verification/LogSpec.v ===== *)
(** * Correctness of the write-ahead log

    What a record looks like in the file ([log_image]), that the writer's
    writes are exactly that image at consecutive offsets, how the reserved
    range relates to it, and that the reader recovers the records. *)

From Stdlib Require Import ZArith Lia Bool.
From Stdlib Require Import Strings.String.
From stdpp Require Import base list.
From S2P Require Import Prelude Coding Crc32c Status FileName Log.

Set Default Goal Selector "!".
Local Open Scope Z_scope.

(** ** Block arithmetic *)

Lemma land_block z : Z.land z (kBlockSize - 1) = z mod kBlockSize.
Proof. change (kBlockSize - 1) with (Z.ones 15). by rewrite Z.land_ones by lia. Qed.

Lemma land_block_mask z : 0 <= z < 2 ^ 32 -> Z.land z block_mask = z - z mod kBlockSize.
Proof.
  intros Hz. change block_mask with (Z.ldiff (Z.ones 32) (Z.ones 15)).
  assert (Z.land z (Z.ldiff (Z.ones 32) (Z.ones 15)) = Z.ldiff (Z.land z (Z.ones 32)) (Z.ones 15)) as ->.
  { apply Z.bits_inj'. intros i Hi. rewrite Z.land_spec, !Z.ldiff_spec, Z.land_spec.
    by rewrite andb_assoc. }
  rewrite Z.land_ones, Z.mod_small by lia. rewrite Z.ldiff_ones_r by lia.
  rewrite Z.shiftl_mul_pow2, Z.shiftr_div_pow2 by lia.
  change kBlockSize with (2 ^ 15). pose proof (Z.div_mod z (2 ^ 15)). lia.
Qed.

Ltac block_arith := unfold kBlockSize, kHeaderSize in *; Z.div_mod_to_equations; lia.

(** The bytes skipped before a physical record at [offset], and the payload
    that fits behind its header. *)
Definition block_pad (offset : Z) : Z :=
  let leftover := kBlockSize - offset mod kBlockSize in
  if leftover <? kHeaderSize then leftover else 0.

Definition block_avail (offset : Z) : Z :=
  kBlockSize - (offset + block_pad offset) mod kBlockSize - kHeaderSize.

Lemma block_pad_range offset : 0 <= block_pad offset < kHeaderSize.
Proof.
  unfold block_pad. destruct (Z.ltb_spec (kBlockSize - offset mod kBlockSize) kHeaderSize);
    block_arith.
Qed.

Lemma block_pad_spec offset :
  block_pad offset = 0 /\ kHeaderSize <= kBlockSize - offset mod kBlockSize \/
  block_pad offset = kBlockSize - offset mod kBlockSize /\
    block_pad offset < kHeaderSize /\ (offset + block_pad offset) mod kBlockSize = 0.
Proof.
  unfold block_pad. destruct (Z.ltb_spec (kBlockSize - offset mod kBlockSize) kHeaderSize);
    [right|left]; block_arith.
Qed.

Lemma block_avail_range offset : 0 <= block_avail offset <= kBlockSize - kHeaderSize.
Proof. unfold block_avail. destruct (block_pad_spec offset) as [[-> ?]|(-> & ? & ?)]; block_arith. Qed.

Lemma block_avail_full offset n :
  n = block_avail offset ->
  (offset + block_pad offset + kHeaderSize + n) mod kBlockSize = 0.
Proof.
  unfold block_avail. intros ->.
  replace (_ + _ + _ + _) with
    (offset + block_pad offset - (offset + block_pad offset) mod kBlockSize + 1 * kBlockSize) by lia.
  rewrite Z_mod_plus_full. block_arith.
Qed.

Lemma block_aligned offset :
  offset mod kBlockSize = 0 -> block_pad offset = 0 /\ block_avail offset = kBlockSize - kHeaderSize.
Proof.
  intros Ho. assert (block_pad offset = 0) as E by (unfold block_pad; by rewrite Ho).
  unfold block_avail. by rewrite E, Z.add_0_r, Ho.
Qed.

Lemma block_avail_aligned offset :
  offset mod kBlockSize = 0 -> block_avail offset = kBlockSize - kHeaderSize.
Proof. intros. by apply block_aligned. Qed.

(** ** The image of a record *)

Fixpoint log_image (fuel : nat) (begin : bool) (ptr : bytes) (offset : Z) : bytes :=
  match fuel with
  | O => []
  | S fuel =>
      let n := Z.min (len ptr) (block_avail offset) in
      let fragment := take (Z.to_nat n) ptr in
      replicate (Z.to_nat (block_pad offset)) Byte.x00 ++
      record_header (record_type begin (len ptr =? n)) fragment ++ fragment ++
      (if n <? len ptr
       then log_image fuel false (drop (Z.to_nat n) ptr) (offset + block_pad offset + kHeaderSize + n)
       else [])
  end.

(** The file as the sequence of writes it received. *)
#[export] Instance TraceFile : ConcurrentWritableFile (list (Z * bytes)) := {|
  WriteAt f offset data := (OK, f ++ [(offset, data)]);
|}.

Fixpoint contiguous (o : Z) (ws : list (Z * bytes)) : Prop :=
  match ws with
  | [] => True
  | (o1, d) :: ws => o1 = o /\ contiguous (o + len d) ws
  end.

Definition trace_data (ws : list (Z * bytes)) : bytes := concat (map snd ws).

Lemma contiguous_app o ws1 ws2 :
  contiguous o (ws1 ++ ws2) <-> contiguous o ws1 /\ contiguous (o + len (trace_data ws1)) ws2.
Proof.
  revert o. induction ws1 as [|[o1 d] ws1 IH]; intros o; unfold trace_data in *; simpl.
  - len_nils. rewrite Z.add_0_r. tauto.
  - rewrite IH, len_app. rewrite Z.add_assoc. tauto.
Qed.

Lemma trace_data_app ws1 ws2 : trace_data (ws1 ++ ws2) = trace_data ws1 ++ trace_data ws2.
Proof. unfold trace_data. by rewrite map_app, concat_app. Qed.

Lemma len_record_header t payload : len (record_header t payload) = kHeaderSize.
Proof. unfold record_header, EncodeFixed32. destruct kLittleEndian; done. Qed.

(** One iteration of the writer's loop, with the block arithmetic folded. *)
Lemma emit_loop_step {F} `{ConcurrentWritableFile F} fuel begin ptr offset (f : F) :
  emit_loop (S fuel) begin ptr offset f =
  let f := if kBlockSize - offset mod kBlockSize <? kHeaderSize
           then snd (WriteAt f offset (replicate (Z.to_nat (block_pad offset)) Byte.x00)) else f in
  let n := Z.min (len ptr) (block_avail offset) in
  let (s, f) := EmitPhysicalRecordAt (record_type begin (len ptr =? n)) (take (Z.to_nat n) ptr)
                  (offset + block_pad offset) f in
  if ok s && (n <? len ptr)
  then emit_loop fuel false (drop (Z.to_nat n) ptr) (offset + block_pad offset + kHeaderSize + n) f
  else (s, f).
Proof.
  cbn [emit_loop]. rewrite land_block. unfold block_avail.
  destruct (block_pad_spec offset) as [[E Hl]|(E & Hl & Hm)].
  - rewrite E. destruct (Z.ltb_spec (kBlockSize - offset mod kBlockSize) kHeaderSize); [lia|].
    rewrite Z.add_0_r.
    assert ((if len ptr <? kBlockSize - offset mod kBlockSize - kHeaderSize then len ptr
             else kBlockSize - offset mod kBlockSize - kHeaderSize) =
            Z.min (len ptr) (kBlockSize - offset mod kBlockSize - kHeaderSize)) as ->.
    { destruct (Z.ltb_spec (len ptr) (kBlockSize - offset mod kBlockSize - kHeaderSize)); lia. }
    destruct (EmitPhysicalRecordAt _ _ _ _) as [s f'].
    assert ((0 <? len (drop (Z.to_nat (Z.min (len ptr) (kBlockSize - offset mod kBlockSize - kHeaderSize))) ptr)) =
      (Z.min (len ptr) (kBlockSize - offset mod kBlockSize - kHeaderSize) <? len ptr)) as ->; [|done].
    apply eq_iff_eq_true. rewrite !Z.ltb_lt, len_drop. len_facts. lia.
  - rewrite Hm. rewrite E. rewrite E in Hl.
    destruct (Z.ltb_spec (kBlockSize - offset mod kBlockSize) kHeaderSize); [|lia].
    assert ((if len ptr <? kBlockSize - 0 - kHeaderSize then len ptr
             else kBlockSize - 0 - kHeaderSize) = Z.min (len ptr) (kBlockSize - 0 - kHeaderSize)) as ->.
    { destruct (Z.ltb_spec (len ptr) (kBlockSize - 0 - kHeaderSize)); lia. }
    destruct (EmitPhysicalRecordAt _ _ _ _) as [s f'].
    assert ((0 <? len (drop (Z.to_nat (Z.min (len ptr) (kBlockSize - 0 - kHeaderSize))) ptr)) =
      (Z.min (len ptr) (kBlockSize - 0 - kHeaderSize) <? len ptr)) as ->; [|done].
    apply eq_iff_eq_true. rewrite !Z.ltb_lt, len_drop. unfold kBlockSize, kHeaderSize. len_facts. lia.
Qed.

(** The writer's writes are consecutive and carry the image. *)
Lemma emit_loop_trace fuel begin ptr offset ws0 :
  exists ws,
    emit_loop fuel begin ptr offset ws0 = (OK, ws0 ++ ws) /\
    contiguous offset ws /\ trace_data ws = log_image fuel begin ptr offset.
Proof.
  revert begin ptr offset ws0. induction fuel as [|fuel IH]; intros begin ptr offset ws0.
  { exists []. rewrite app_nil_r. done. }
  rewrite emit_loop_step. cbn [log_image]. cbv zeta. unfold EmitPhysicalRecordAt.
  cbn [WriteAt TraceFile fst snd ok OK andb].
  set (n := Z.min (len ptr) (block_avail offset)).
  set (frag := take (Z.to_nat n) ptr).
  assert (len frag = n) as Hfrag.
  { subst frag n. rewrite len_take. pose proof (block_avail_range offset). len_facts. lia. }
  set (hdr := record_header _ frag).
  pose proof (len_record_header (record_type begin (len ptr =? n)) frag) as Hhdr. fold hdr in Hhdr.
  set (pad := replicate (Z.to_nat (block_pad offset)) Byte.x00).
  assert (len pad = block_pad offset) as Hpad.
  { subst pad. rewrite len_replicate. pose proof (block_pad_range offset). lia. }
  set (ws1 := (if kBlockSize - offset mod kBlockSize <? kHeaderSize then [(offset, pad)] else []) ++
              [(offset + block_pad offset, hdr); (offset + block_pad offset + kHeaderSize, frag)]).
  assert (contiguous offset ws1 /\ trace_data ws1 = pad ++ hdr ++ frag) as [Hc Hd].
  { subst ws1. destruct (block_pad_spec offset) as [[E Hl]|(E & Hl & Hm)].
    - destruct (Z.ltb_spec (kBlockSize - offset mod kBlockSize) kHeaderSize); [lia|].
      assert (pad = []) as -> by (subst pad; by rewrite E). rewrite E. unfold trace_data. cbn [map snd concat app contiguous].
      rewrite app_nil_r. repeat split; lia.
    - destruct (Z.ltb_spec (kBlockSize - offset mod kBlockSize) kHeaderSize); [|lia].
      unfold trace_data. cbn [map snd concat app contiguous]. rewrite app_nil_r, Hpad. repeat split; lia. }
  match goal with |- context [((?f ++ [?a]) ++ [?b])] =>
    assert ((f ++ [a]) ++ [b] = ws0 ++ ws1) as -> end.
  { subst ws1. destruct (kBlockSize - offset mod kBlockSize <? kHeaderSize); simpl;
      by rewrite <- !app_assoc. }
  destruct (n <? len ptr) eqn:En.
  - destruct (IH false (drop (Z.to_nat n) ptr) (offset + block_pad offset + kHeaderSize + n)
                (ws0 ++ ws1)) as (ws & -> & Hc' & Hd').
    exists (ws1 ++ ws). rewrite app_assoc. split; [done|]. rewrite contiguous_app, trace_data_app.
    rewrite Hd, Hd', !len_app, Hpad, Hhdr, Hfrag. split; [split; [done|]|by rewrite <- !app_assoc].
    by rewrite !Z.add_assoc.
  - exists ws1. split; [done|]. rewrite Hd, !app_nil_r. done.
Qed.

(** Running the loop on the memory file is replaying the trace. *)
Definition replay (f : bytes) (ws : list (Z * bytes)) : bytes :=
  fold_left (fun f w => write_at f (fst w) (snd w)) ws f.

Lemma replay_app f ws1 ws2 : replay f (ws1 ++ ws2) = replay (replay f ws1) ws2.
Proof. apply fold_left_app. Qed.

Lemma emit_loop_replay fuel begin ptr offset f ws0 :
  emit_loop fuel begin ptr offset (replay f ws0) =
  (OK, replay f (snd (emit_loop fuel begin ptr offset ws0))).
Proof.
  revert begin ptr offset ws0. induction fuel as [|fuel IH]; intros begin ptr offset ws0; [done|].
  rewrite !emit_loop_step. cbv zeta. unfold EmitPhysicalRecordAt.
  cbn [WriteAt TraceFile MemFile fst snd ok OK andb].
  set (n := Z.min (len ptr) (block_avail offset)).
  set (w1 := if kBlockSize - offset mod kBlockSize <? kHeaderSize then _ else _ : list (Z * bytes)).
  match goal with |- context [write_at (write_at ?f1 ?o1 ?d1) ?o2 ?d2] =>
    assert (write_at (write_at f1 o1 d1) o2 d2 = replay f ((w1 ++ [(o1, d1)]) ++ [(o2, d2)])) as -> end.
  { rewrite !replay_app. subst w1.
    destruct (kBlockSize - offset mod kBlockSize <? kHeaderSize); [|done].
    by rewrite replay_app. }
  destruct (n <? len ptr); [apply IH|done].
Qed.

Lemma write_at_end f o d : o = len f -> write_at f o d = f ++ d.
Proof.
  intros ->. unfold write_at. rewrite to_nat_len, Nat.sub_diag. simpl.
  rewrite app_nil_r, firstn_all, drop_ge by lia. by rewrite app_nil_r.
Qed.

Lemma replay_contiguous f o ws : o = len f -> contiguous o ws -> replay f ws = f ++ trace_data ws.
Proof.
  revert f o. induction ws as [|[o1 d] ws IH]; intros f o Ho Hc.
  { unfold trace_data. simpl. by rewrite app_nil_r. }
  destruct Hc as [-> Hc]. change (replay (write_at f o d) ws = f ++ d ++ trace_data ws).
  rewrite write_at_end by done. rewrite (IH (f ++ d) (o + len d)); [by rewrite app_assoc| |done].
  rewrite len_app. lia.
Qed.

Definition record_image (offset : Z) (data : bytes) : bytes :=
  log_image (emit_fuel data) true data offset.

(** Writing a record at the end of the file appends its image. *)
Lemma AddRecord_append w slice :
  offset_ w = len (dest_ w) ->
  AddRecord w slice =
  (OK, {| dest_ := dest_ w ++ record_image (offset_ w) slice;
          offset_ := reserve (offset_ w) (len slice) |}).
Proof.
  intros Ho. unfold AddRecord.
  pose proof (emit_loop_replay (emit_fuel slice) true slice (offset_ w) (dest_ w) []) as E.
  change (replay (dest_ w) []) with (dest_ w) in E. rewrite E.
  destruct (emit_loop_trace (emit_fuel slice) true slice (offset_ w) []) as (ws & -> & Hc & Hd).
  cbn [snd app]. by rewrite (replay_contiguous _ (offset_ w)), Hd by done.
Qed.

(** ** Where a record ends *)

(** Length of the image of [n] more bytes from the start of a block. *)
Definition tail_length (n : Z) : Z :=
  let per_block := kBlockSize - kHeaderSize in
  n / per_block * kBlockSize + (if n mod per_block =? 0 then 0 else kHeaderSize + n mod per_block).

Lemma len_log_image_aligned fuel begin ptr offset :
  offset mod kBlockSize = 0 -> 0 < len ptr -> len ptr / (kBlockSize - kHeaderSize) < Z.of_nat fuel ->
  len (log_image fuel begin ptr offset) = tail_length (len ptr).
Proof.
  revert begin ptr offset. induction fuel as [|fuel IH]; intros begin ptr offset Ho Hp Hf.
  { exfalso. pose proof (Z.div_pos (len ptr) (kBlockSize - kHeaderSize)). unfold kBlockSize, kHeaderSize in *. lia. }
  cbn [log_image].
  destruct (block_aligned offset Ho) as [E ->]. rewrite E. cbn [Z.to_nat replicate app]. rewrite !len_app, len_record_header, len_take.
  destruct (Z.ltb_spec (Z.min (len ptr) (kBlockSize - kHeaderSize)) (len ptr)) as [Hl|Hl].
  - replace (Z.min (len ptr) (kBlockSize - kHeaderSize)) with (kBlockSize - kHeaderSize) in * by lia.
    rewrite IH.
    + rewrite len_drop, len_replicate. unfold tail_length. len_nils.
      replace (Z.max 0 _) with (len ptr + (-1) * (kBlockSize - kHeaderSize)) by (unfold kBlockSize, kHeaderSize in *; lia).
      rewrite Z_div_plus_full, Z_mod_plus_full by done. unfold kBlockSize, kHeaderSize in *. lia.
    + rewrite Z.add_0_r. unfold kBlockSize, kHeaderSize in *. Z.div_mod_to_equations. lia.
    + rewrite len_drop. unfold kBlockSize, kHeaderSize in *. lia.
    + rewrite len_drop.
      replace (Z.max 0 _) with (len ptr + (-1) * (kBlockSize - kHeaderSize)) by (unfold kBlockSize, kHeaderSize in *; lia).
      rewrite Z_div_plus_full by done. lia.
  - assert (len ptr <= kBlockSize - kHeaderSize) by lia.
    replace (Z.min (len ptr) (kBlockSize - kHeaderSize)) with (len ptr) in * by lia.
    rewrite len_replicate, !Z2Nat.id by lia. len_nils. unfold tail_length. destruct (Z.eq_dec (len ptr) (kBlockSize - kHeaderSize)) as [E'|Hne].
    + rewrite E'. reflexivity.
    + rewrite Z.div_small, Z.mod_small by (unfold kBlockSize, kHeaderSize in *; lia).
      unfold kBlockSize, kHeaderSize in *. destruct (Z.eqb_spec (len ptr) 0); lia.
Qed.

(** The end of the image of [n] bytes written at [offset]. *)
Definition image_end (offset n : Z) : Z :=
  let start := offset + block_pad offset in
  if n <=? block_avail offset then start + kHeaderSize + n
  else start + kHeaderSize + block_avail offset + tail_length (n - block_avail offset).

Lemma record_image_end offset data :
  offset + len (record_image offset data) = image_end offset (len data).
Proof.
  unfold record_image, image_end, emit_fuel.
  pose proof (Z.div_pos (len data) (kBlockSize - kHeaderSize)) as Hd.
  replace (Z.to_nat _) with (S (Z.to_nat (len data / (kBlockSize - kHeaderSize) + 1)))
    by (unfold kBlockSize, kHeaderSize in *; len_facts; lia).
  cbn [log_image]. rewrite !len_app, len_record_header, len_take, len_replicate.
  pose proof (block_pad_range offset). pose proof (block_avail_range offset).
  destruct (Z.ltb_spec (Z.min (len data) (block_avail offset)) (len data)),
    (Z.leb_spec (len data) (block_avail offset)); try lia.
  - replace (Z.min (len data) (block_avail offset)) with (block_avail offset) in * by lia.
    rewrite len_log_image_aligned.
    + rewrite len_drop. replace (Z.max 0 _) with (len data - block_avail offset) by lia. lia.
    + by apply block_avail_full.
    + rewrite len_drop. lia.
    + rewrite len_drop. replace (Z.max 0 _) with (len data - block_avail offset) by lia.
      pose proof (Z.div_le_mono (len data - block_avail offset) (len data) (kBlockSize - kHeaderSize)).
      unfold kBlockSize, kHeaderSize in *. len_facts. lia.
  - len_nils. len_facts. lia.
Qed.

(** The record spills over and its last fragment fills a whole block. *)
Definition exact_fill (offset n : Z) : bool :=
  (block_avail offset <? n) && ((n - block_avail offset) mod (kBlockSize - kHeaderSize) =? 0).

(** The reservation agrees with the image, except that an exactly filled last
    block is followed by seven reserved bytes that no write covers. *)
Lemma reserve_spec offset n :
  0 <= offset -> 0 <= n -> offset + kHeaderSize < 2 ^ 32 -> n < 2 ^ 62 ->
  reserve offset n = image_end offset n + (if exact_fill offset n then kHeaderSize else 0).
Proof.
  intros Ho Hn H32 Hn'. unfold reserve. cbv zeta. rewrite !land_block.
  match goal with |- context [if ?c then Z.land ?x ?y else offset] =>
    set (rs := if c then Z.land x y else offset) end.
  assert (rs = offset + block_pad offset) as ->.
  { subst rs. destruct (block_pad_spec offset) as [[E Hl]|(E & Hl & Hm)];
      destruct (Z.ltb_spec (kBlockSize - offset mod kBlockSize) kHeaderSize); try lia.
    rewrite u64_small, land_block_mask by (unfold kHeaderSize in *; lia). block_arith. }
  assert (kBlockSize - (offset + block_pad offset) mod kBlockSize = block_avail offset + kHeaderSize) as ->
    by (unfold block_avail; lia).
  unfold image_end, exact_fill, ComputeRecordSize, tail_length.
  pose proof (block_pad_range offset). pose proof (block_avail_range offset).
  destruct (Z.leb_spec (kHeaderSize + n) (block_avail offset + kHeaderSize)),
    (Z.leb_spec n (block_avail offset)), (Z.ltb_spec (block_avail offset) n); try lia; cbn [andb].
  - rewrite u64_small by (unfold kBlockSize, kHeaderSize in *; lia). lia.
  - replace (n + kHeaderSize - (block_avail offset + kHeaderSize)) with (n - block_avail offset) by lia.
    set (m := n - block_avail offset) in *.
    rewrite u64_small.
    + destruct (Z.eqb_spec (m mod (kBlockSize - kHeaderSize)) 0); lia.
    + unfold kBlockSize, kHeaderSize in *. Z.div_mod_to_equations. lia.
Qed.

(** ** The reader *)

(** [r] is about to read the bytes [S] at file position [P]; its buffer ends at
    a block boundary, or at the end of the file. *)
Record reads (r : Reader) (P : Z) (S : bytes) : Prop := {
  rd_stream : buffer_ r ++ sf_rest (file_ r) = S;
  rd_fails : sf_fails (file_ r) = [];
  rd_pos : end_of_buffer_offset_ r = P + len (buffer_ r);
  rd_bound : 0 <= P /\ P + len S < 2 ^ 64;
  rd_init : initial_offset_ r = 0;
  rd_last : 0 <= last_record_offset_ r;
  rd_eof :
    if eof_ r then sf_rest (file_ r) = [] /\ P mod kBlockSize + len (buffer_ r) < kBlockSize
    else len (buffer_ r) = (- P) mod kBlockSize;
}.

(** The same, with the rest of the current block in the buffer. *)
Record filled (r : Reader) (P : Z) (S : bytes) : Prop := {
  fl_buffer : buffer_ r = take (Z.to_nat (kBlockSize - P mod kBlockSize)) S;
  fl_rest : sf_rest (file_ r) = drop (Z.to_nat (kBlockSize - P mod kBlockSize)) S;
  fl_fails : sf_fails (file_ r) = [];
  fl_pos : end_of_buffer_offset_ r = P + len (buffer_ r);
  fl_bound : 0 <= P /\ P + len S < 2 ^ 64;
  fl_init : initial_offset_ r = 0;
  fl_last : 0 <= last_record_offset_ r;
  fl_eof :
    if eof_ r then len S < kBlockSize - P mod kBlockSize
    else kBlockSize - P mod kBlockSize <= len S;
}.

(** What reading valid records leaves alone. *)
Definition same_config (r r' : Reader) : Prop :=
  reports r' = reports r /\ has_reporter r' = has_reporter r /\ checksum_ r' = checksum_ r.

Lemma same_config_refl r : same_config r r.
Proof. done. Qed.

Lemma same_config_trans r1 r2 r3 : same_config r1 r2 -> same_config r2 r3 -> same_config r1 r3.
Proof. unfold same_config. intuition congruence. Qed.

Lemma neg_mod_block P :
  (- P) mod kBlockSize = if P mod kBlockSize =? 0 then 0 else kBlockSize - P mod kBlockSize.
Proof. destruct (Z.eqb_spec (P mod kBlockSize) 0); block_arith. Qed.

(** Reading the next block. *)
Lemma fill_buffer_reads r P S :
  reads r P S -> P mod kBlockSize = 0 \/ len (buffer_ r) < kHeaderSize -> eof_ r = false ->
  exists r', fill_buffer (set_buffer r []) = (OK, r') /\
    filled (if len (buffer_ r') <? kBlockSize then set_eof r' else r')
      (P + len (buffer_ r)) (sf_rest (file_ r)) /\ same_config r r'.
Proof.
  intros [HS Hf Hp Hb Hi Hlast He] Hsmall Heof. rewrite Heof in He. rewrite neg_mod_block in He.
  unfold fill_buffer, sf_Read. cbn [file_ set_buffer]. rewrite Hf.
  eexists. split; [reflexivity|]. split; [|done].
  assert ((P + len (buffer_ r)) mod kBlockSize = 0) as Hm.
  { rewrite He. destruct (Z.eqb_spec (P mod kBlockSize) 0); block_arith. }
  assert (len S = len (buffer_ r) + len (sf_rest (file_ r))) as HlS by (subst S; len_solve).
  cbn [buffer_]. set (rest := sf_rest (file_ r)) in *.
  assert (len (take (Z.to_nat kBlockSize) rest) = Z.min kBlockSize (len rest)) as Ht
    by (rewrite len_take; unfold kBlockSize; lia).
  destruct (Z.ltb_spec (len (take (Z.to_nat kBlockSize) rest)) kBlockSize);
    split; cbn [buffer_ file_ eof_ initial_offset_ end_of_buffer_offset_ set_eof set_buffer
                sf_rest sf_fails tail]; rewrite ?Hm, ?Z.sub_0_r; try done.
  - rewrite Hp, u64_small; len_facts; lia.
  - len_facts; lia.
  - lia.
  - rewrite Hp, u64_small; len_facts; lia.
  - len_facts; lia.
  - rewrite Heof. lia.
Qed.

(** A buffer that already holds the rest of the block. *)
Lemma reads_filled r P S :
  reads r P S -> kHeaderSize <= len (buffer_ r) -> filled r P S.
Proof.
  intros [HS Hf Hp Hb Hi Hlast He] Hl. rewrite <- HS.
  destruct (eof_ r) eqn:Heof.
  - destruct He as [Hr He]. rewrite Hr, app_nil_r in *. subst S.
    split; rewrite ?Hr, ?app_nil_r; try done.
    + rewrite take_ge by (unfold len in *; lia). done.
    + rewrite drop_ge by (unfold len in *; lia). done.
    + rewrite Heof. lia.
  - rewrite neg_mod_block in He.
    destruct (Z.eqb_spec (P mod kBlockSize) 0); [unfold kHeaderSize in *; lia|].
    split; try done.
    + rewrite take_len_app by (unfold len in *; lia). done.
    + rewrite drop_len_app by (unfold len in *; lia). done.
    + by rewrite HS.
    + rewrite Heof. len_solve.
Qed.

(** ReadPhysicalRecord skips a trailer and reads the next block when needed. *)
Lemma ReadPhysicalRecord_fill r P S :
  reads r P (replicate (Z.to_nat (block_pad P)) Byte.x00 ++ S) -> kHeaderSize <= len S ->
  exists r', ReadPhysicalRecord r = Some (parse_record r') /\
    filled r' (P + block_pad P) S /\ same_config r r'.
Proof.
  intros Hr HS. unfold ReadPhysicalRecord. cbn [ReadPhysicalRecord_loop].
  pose proof Hr as [Hst _ _ _ _ _ He]. pose proof (block_pad_range P) as Hpr.
  destruct (Z.ltb_spec (len (buffer_ r)) kHeaderSize) as [Hl|Hl].
  - destruct (eof_ r) eqn:Heof.
    { destruct He as [Hrest He]. rewrite Hrest, app_nil_r in Hst.
      rewrite Hst, len_app in Hl. len_facts. lia. }
    destruct (fill_buffer_reads r P _ Hr (or_intror Hl) Heof) as (r1 & E & Hfill & Hc).
    cbn [negb]. rewrite E. cbn [ok OK negb].
    assert (buffer_ r = replicate (Z.to_nat (block_pad P)) Byte.x00 /\ sf_rest (file_ r) = S) as [Eb Er].
    { apply app_inj_1; [|done]. rewrite length_replicate. rewrite neg_mod_block in He.
      unfold block_pad in *. unfold len in *.
      destruct (Z.eqb_spec (P mod kBlockSize) 0), (Z.ltb_spec (kBlockSize - P mod kBlockSize) kHeaderSize);
        unfold kBlockSize, kHeaderSize in *; lia. }
    assert (len (buffer_ r) = block_pad P) as Elen by (rewrite Eb, len_replicate; lia).
    rewrite Elen, Er in Hfill.
    exists (if len (buffer_ r1) <? kBlockSize then set_eof r1 else r1).
    assert (len (buffer_ (if len (buffer_ r1) <? kBlockSize then set_eof r1 else r1)) <? kHeaderSize = false) as ->.
    { apply Z.ltb_ge. rewrite (fl_buffer _ _ _ Hfill), len_take.
      assert ((P + block_pad P) mod kBlockSize <= kBlockSize - kHeaderSize).
      { destruct (block_pad_spec P) as [[-> ?]|(_ & _ & ->)]; [rewrite Z.add_0_r; lia|]. done. }
      unfold kHeaderSize, kBlockSize in *. lia. }
    split; [done|]. split; [done|]. by destruct (len (buffer_ r1) <? kBlockSize).
  - exists r. split; [done|]. split; [|done].
    assert (block_pad P = 0) as E.
    { destruct (block_pad_spec P) as [[E _]|(E & Hlt & _)]; [done|]. exfalso.
      destruct (eof_ r).
      - destruct He as [Hrest He]. rewrite Hrest, app_nil_r in Hst.
        rewrite Hst, len_app, len_replicate in He. unfold kHeaderSize in *. lia.
      - rewrite neg_mod_block in He. destruct (Z.eqb_spec (P mod kBlockSize) 0);
          unfold kHeaderSize in *; lia. }
    rewrite E in *. rewrite Z.add_0_r. by apply reads_filled.
Qed.

(** The two length bytes of a header. *)
Lemma length_bytes n :
  0 <= n < 2 ^ 16 ->
  Z.lor (b2z (z2b (Z.land n 255))) (Z.shiftl (b2z (z2b (Z.shiftr n 8))) 8) = n.
Proof.
  intros Hn. change 255 with (Z.ones 8). rewrite Z.land_ones, Z.shiftr_div_pow2 by lia.
  rewrite !b2z_z2b. change (2 ^ 8) with 256. rewrite Z.mod_mod by lia.
  rewrite (Z.mod_small (n / 256)) by (Z.div_mod_to_equations; lia).
  rewrite lor_add_shift by (try apply Z.mod_pos_bound; lia). change (2 ^ 8) with 256.
  pose proof (Z.div_mod n 256). lia.
Qed.

Lemma record_header_split t payload :
  exists c0 c1 c2 c3, EncodeFixed32 (Mask (Extend (type_crc t) payload)) = [c0; c1; c2; c3] /\
    record_header t payload =
      [c0; c1; c2; c3; z2b (Z.land (len payload) 255); z2b (Z.shiftr (len payload) 8); z2b t].
Proof.
  unfold record_header, EncodeFixed32. destruct kLittleEndian; do 4 eexists; (split; reflexivity).
Qed.

(** The fields the reader decodes from a header, whatever follows it. *)
Lemma record_header_fields t payload x :
  0 <= t <= kLastType -> len payload < 2 ^ 16 ->
  let header := record_header t payload ++ x in
  header_type (nth 6 header Byte.x00) = t /\
  Z.lor (b2z (nth 4 header Byte.x00)) (Z.shiftl (b2z (nth 5 header Byte.x00)) 8) = len payload /\
  drop (Z.to_nat kHeaderSize) header = x.
Proof.
  intros Ht Hp header. subst header.
  destruct (record_header_split t payload) as (c0 & c1 & c2 & c3 & _ & ->). cbn [app nth].
  split; [|split; [|done]].
  - unfold header_type, schar, kLastType in *. rewrite b2z_z2b_small by lia.
    destruct (Z.ltb_spec t 128); [|lia]. apply u32_small. lia.
  - apply length_bytes. len_facts. lia.
Qed.

(** The checksum of a header covers the type and the payload. *)
Lemma record_header_crc t payload rest :
  len payload < 2 ^ 16 ->
  let header := record_header t payload ++ payload ++ rest in
  take (S (length payload)) (drop 6 header) = z2b t :: payload /\
  Unmask (DecodeFixed32 header) = Value (z2b t :: payload).
Proof.
  intros Hp header. subst header.
  assert (Unmask (u32 (Mask (Extend (type_crc t) payload))) = Value (z2b t :: payload)) as Hcrc.
  { rewrite u32_small by apply Mask_range. unfold type_crc.
    rewrite (Extend_app [z2b t] payload) by len_solve.
    apply Unmask_Mask, Value_range. len_solve. }
  split; [|by unfold record_header; rewrite <- !app_assoc, DecodeFixed32_EncodeFixed32].
  destruct (record_header_split t payload) as (c0 & c1 & c2 & c3 & _ & ->).
  cbn [app drop take]. f_equal. by apply take_len_app.
Qed.

Lemma parse_record_ok r P t payload K :
  filled r P (record_header t payload ++ payload ++ K) ->
  0 < t <= kLastType -> P mod kBlockSize + kHeaderSize + len payload <= kBlockSize ->
  exists r', parse_record r = (t, Some payload, r') /\
    reads r' (P + kHeaderSize + len payload) K /\ same_config r r'.
Proof.
  intros [Hb Hr Hf Hp Hbd Hi Hlast He] Ht Hfit.
  pose proof (len_record_header t payload) as Hlh.
  set (room := Z.to_nat (kBlockSize - P mod kBlockSize)) in *.
  set (k1 := take (room - length (record_header t payload) - length payload) K).
  set (k2 := drop (room - length (record_header t payload) - length payload) K).
  assert (length (record_header t payload ++ payload) <= room)%nat as Hroom
    by (rewrite length_app; unfold len in *; lia).
  rewrite length_app in Hroom.
  assert (buffer_ r = record_header t payload ++ payload ++ k1) as Eb.
  { rewrite Hb. rewrite take_app_ge by lia. rewrite take_app_ge by lia. done. }
  assert (sf_rest (file_ r) = k2) as Er.
  { rewrite Hr. rewrite drop_app_ge by lia. by rewrite drop_app_ge by lia. }
  assert (len payload < 2 ^ 16) as Hp16
    by (pose proof (Z.mod_pos_bound P kBlockSize ltac:(done)); unfold kBlockSize, kHeaderSize in *; lia).
  destruct (record_header_fields t payload (payload ++ k1) ltac:(lia) Hp16) as (Htype & Hlen & Hdr).
  destruct (record_header_crc t payload k1 Hp16) as (Htk & Hcrc).
  unfold parse_record. rewrite Eb. rewrite Htype, Hlen.
  assert (len (record_header t payload ++ payload ++ k1) = kHeaderSize + len payload + len k1) as HL
    by (rewrite !len_app; lia).
  rewrite HL.
  destruct (Z.ltb_spec (kHeaderSize + len payload + len k1) (kHeaderSize + len payload));
    [len_facts; lia|].
  destruct (Z.eqb_spec t kZeroType); [unfold kZeroType in *; lia|]. cbn [andb].
  replace (Z.to_nat (1 + len payload)) with (S (length payload)) by (unfold len; lia).
  rewrite Htk, Hcrc, Z.eqb_refl, andb_false_r.
  set (r' := set_buffer r _). cbn [buffer_ set_buffer end_of_buffer_offset_ initial_offset_] in *.
  subst r'. cbn [initial_offset_ set_buffer]. set (r' := set_buffer r _). rewrite Hi. pose proof (u64_range (end_of_buffer_offset_ r' - len (buffer_ r') - kHeaderSize - len payload)).
  destruct (Z.ltb_spec (u64 (end_of_buffer_offset_ r' - len (buffer_ r') - kHeaderSize - len payload)) 0);
    [lia|].
  assert (buffer_ r' = k1) as Eb'.
  { subst r'. cbn [buffer_ set_buffer]. rewrite app_assoc. apply drop_len_app.
    rewrite length_app. unfold len in *. lia. }
  exists r'. split; [|split; [|done]].
  { rewrite Hdr, take_len_app by (unfold len; lia). done. }
  rewrite !len_app in *.
  split; rewrite ?Eb'; try done.
  - subst r'. cbn [file_ set_buffer]. rewrite Er. apply take_drop.
  - subst r'. cbn [end_of_buffer_offset_ set_buffer]. rewrite Hp, Eb, !len_app. lia.
  - len_facts. unfold kHeaderSize in *. lia.
  - subst r'. cbn [eof_ set_buffer file_].
    assert (len k1 = Z.min (kBlockSize - P mod kBlockSize - kHeaderSize - len payload) (len K)) as Hk1
      by (subst k1 room; rewrite len_take; unfold len in *; lia).
    pose proof (Z.mod_pos_bound P kBlockSize ltac:(done)).
    destruct (eof_ r).
    + rewrite Er. split; [apply drop_ge; unfold len in *; lia|].
      rewrite <- Z.add_assoc, <- Zplus_mod_idemp_l, Z.mod_small; unfold kHeaderSize in *; len_facts; lia.
    + rewrite Hk1, Z.min_l by lia. clear -Hfit.
      set (n := len payload) in *. pose proof (len_nonneg payload). fold n in H.
      rewrite neg_mod_block.
      destruct (Z.eqb_spec ((P + kHeaderSize + n) mod kBlockSize) 0); block_arith.
Qed.

(** *** Ends of the file *)

Lemma ReadPhysicalRecord_eof r P S :
  reads r P S -> len S < block_pad P + kHeaderSize ->
  exists r', ReadPhysicalRecord r = Some (kEof, None, r') /\ same_config r r'.
Proof.
  intros Hr HS. unfold ReadPhysicalRecord. cbn [ReadPhysicalRecord_loop].
  pose proof Hr as [Hst _ _ _ _ _ He]. pose proof (f_equal len Hst) as HlS. rewrite len_app in HlS.
  destruct (Z.ltb_spec (len (buffer_ r)) kHeaderSize) as [Hl|Hl].
  - destruct (eof_ r) eqn:Heof; [by eexists|].
    destruct (fill_buffer_reads r P _ Hr (or_intror Hl) Heof) as (r1 & E & Hfill & Hc).
    cbn [negb]. rewrite E. cbn [ok OK negb].
    assert (len (buffer_ r) = block_pad P) as Elen.
    { rewrite neg_mod_block in He. unfold block_pad.
      destruct (Z.eqb_spec (P mod kBlockSize) 0), (Z.ltb_spec (kBlockSize - P mod kBlockSize) kHeaderSize);
        unfold kBlockSize, kHeaderSize in *; lia. }
    set (r2 := if len (buffer_ r1) <? kBlockSize then set_eof r1 else r1) in *.
    assert (same_config r r2) by (subst r2; by destruct (len (buffer_ r1) <? kBlockSize)).
    pose proof (fl_eof _ _ _ Hfill) as Hf. pose proof (fl_buffer _ _ _ Hfill) as Hb.
    assert (len (buffer_ r2) <= len (sf_rest (file_ r))) by (rewrite Hb, len_take; lia).
    assert (len (sf_rest (file_ r)) < kHeaderSize) by lia.
    destruct (Z.ltb_spec (len (buffer_ r2)) kHeaderSize); [|lia].
    assert ((P + len (buffer_ r)) mod kBlockSize <= kBlockSize - kHeaderSize).
    { rewrite Elen. destruct (block_pad_spec P) as [[-> ?]|(_ & _ & ->)]; [rewrite Z.add_0_r; lia|done]. }
    destruct (eof_ r2); [by eexists|lia].
  - exfalso. destruct (block_pad_spec P) as [[E ?]|(E & ? & _)]; destruct (eof_ r);
      first [rewrite neg_mod_block in He | destruct He as [Hrest He]; rewrite Hrest, len_nil in HlS];
      len_facts; try lia;
      destruct (Z.eqb_spec (P mod kBlockSize) 0); unfold kHeaderSize in *; lia.
Qed.

(** A record whose payload is cut off by the end of the file. *)
Lemma ReadPhysicalRecord_torn r P t payload x :
  reads r P (replicate (Z.to_nat (block_pad P)) Byte.x00 ++ record_header t payload ++ x) ->
  0 < t <= kLastType -> len payload <= block_avail P -> len x < len payload ->
  exists r', ReadPhysicalRecord r = Some (kEof, None, r') /\ same_config r r'.
Proof.
  intros Hr Ht Hfit Hx. pose proof (len_record_header t payload) as Hlh.
  destruct (ReadPhysicalRecord_fill r P _ Hr) as (r1 & -> & Hfill & Hc); [rewrite len_app; len_facts; lia|].
  destruct Hfill as [Hb _ _ _ _ _ _ He]. unfold block_avail in Hfit. rewrite len_app in He.
  destruct (eof_ r1) eqn:Eeof; [|lia].
  assert (buffer_ r1 = record_header t payload ++ x) as Eb.
  { rewrite Hb. apply take_ge. rewrite length_app. unfold len in *. lia. }
  pose proof (Z.mod_pos_bound (P + block_pad P) kBlockSize ltac:(done)).
  assert (len payload < 2 ^ 16) by (unfold kBlockSize, kHeaderSize in *; lia).
  destruct (record_header_fields t payload x ltac:(lia) ltac:(done)) as (Htype & Hlen & _).
  unfold parse_record. rewrite Eb, Htype, Hlen, len_app, Hlh.
  destruct (Z.ltb_spec (kHeaderSize + len x) (kHeaderSize + len payload)); [|lia].
  cbn [eof_ set_buffer]. rewrite Eeof. cbn [negb]. by eexists.
Qed.

(** *** Whole records *)

Lemma reads_set_last r P S o :
  reads r P S -> 0 <= o -> reads (set_last_record_offset r o) P S.
Proof. intros [? ? ? ? ? ? ?] Ho. by split. Qed.

Lemma record_type_range begin end_ : 0 < record_type begin end_ <= kLastType.
Proof. destruct begin, end_; done. Qed.

(** The condition on the image's fuel: it holds the whole record. *)
Definition image_complete (fl : nat) (n P : Z) : Prop :=
  (0 < fl)%nat /\ n <= block_avail P + (Z.of_nat fl - 1) * (kBlockSize - kHeaderSize).

Lemma image_complete_next fl n P :
  image_complete (S fl) n P -> block_avail P < n ->
  image_complete fl (n - block_avail P) (P + block_pad P + kHeaderSize + block_avail P).
Proof.
  unfold image_complete. intros [_ H] Hn.
  assert (block_avail (P + block_pad P + kHeaderSize + block_avail P) = kBlockSize - kHeaderSize) as ->.
  { by apply block_avail_aligned, block_avail_full. }
  unfold kBlockSize, kHeaderSize in *. lia.
Qed.

Lemma image_complete_emit data P : image_complete (emit_fuel data) (len data) P.
Proof.
  unfold image_complete, emit_fuel. pose proof (block_avail_range P). len_facts.
  pose proof (Z.div_pos (len data) (kBlockSize - kHeaderSize)).
  pose proof (Z.mul_succ_div_gt (len data) (kBlockSize - kHeaderSize)).
  unfold kBlockSize, kHeaderSize in *. lia.
Qed.

(** Reading the first physical record of a possibly truncated stream. *)
Lemma ReadPhysicalRecord_prefix r P t frag more m K :
  let pad := replicate (Z.to_nat (block_pad P)) Byte.x00 in
  let first := pad ++ record_header t frag ++ frag in
  reads r P (take m (first ++ more) ++ K) -> (m < length (first ++ more) -> K = [])%nat ->
  0 < t <= kLastType -> len frag <= block_avail P ->
  exists r', same_config r r' /\
    if decide (m < length first)%nat then ReadPhysicalRecord r = Some (kEof, None, r')
    else ReadPhysicalRecord r = Some (t, Some frag, r') /\
         reads r' (P + len first) (take (m - length first) more ++ K).
Proof.
  intros pad first Hr HK Ht Hfit. pose proof (len_record_header t frag) as Hhdr.
  assert (len pad = block_pad P) as Hpad
    by (pose proof (block_pad_range P); subst pad; rewrite len_replicate; lia).
  destruct (decide (m < length first)%nat) as [Hm|Hm].
  - rewrite HK, app_nil_r, take_app_le in Hr by (rewrite ?length_app in *; lia).
    destruct (decide (m < length pad + 7)%nat) as [Hm'|Hm'].
    + destruct (ReadPhysicalRecord_eof r P _ Hr) as (r' & ? & ?); [|by eauto].
      rewrite len_take. unfold len, kHeaderSize in *. lia.
    + destruct (ReadPhysicalRecord_torn r P t frag (take (m - length pad - 7) frag))
        as (r' & ? & ?); [|done|done| |by eauto].
      * unfold first in Hr. rewrite !take_app_ge in Hr by (unfold len, kHeaderSize in *; lia).
        replace (length (record_header t frag)) with 7%nat in Hr by (unfold len, kHeaderSize in *; lia).
        done.
      * unfold first in Hm. rewrite !length_app in Hm. rewrite len_take. unfold len, kHeaderSize in *. lia.
  - rewrite take_app_ge, <- app_assoc in Hr by lia.
    unfold first at 1 in Hr. rewrite <- !app_assoc in Hr.
    destruct (ReadPhysicalRecord_fill r P _ Hr) as (r1 & -> & Hfill & Hc1); [rewrite len_app; len_facts; lia|].
    destruct (parse_record_ok r1 _ t frag _ Hfill Ht) as (r2 & -> & Hr2 & Hc2);
      [unfold block_avail in Hfit; lia|].
    exists r2. split; [by eapply same_config_trans|]. split; [done|].
    replace (P + len first) with (P + block_pad P + kHeaderSize + len frag); [done|].
    unfold first. rewrite !len_app. lia.
Qed.

(** Reading a prefix of an image: the whole record if the image is complete,
    the end of the file otherwise. *)
Lemma ReadRecord_loop_image fl : forall begin ptr P K m r fuel scratch prospective fragment,
  image_complete fl (len ptr) P ->
  reads r P (take m (log_image fl begin ptr P) ++ K) ->
  (m < length (log_image fl begin ptr P) -> K = [])%nat ->
  (m `min` length (log_image fl begin ptr P) < fuel)%nat -> 0 <= prospective ->
  (begin = true -> scratch = []) ->
  exists r', same_config r r' /\
    if decide (m < length (log_image fl begin ptr P))%nat
    then ReadRecord_loop fuel r scratch (negb begin) prospective fragment = Some (None, r')
    else ReadRecord_loop fuel r scratch (negb begin) prospective fragment = Some (Some (scratch ++ ptr), r') /\
         reads r' (P + len (log_image fl begin ptr P)) K.
Proof.
  induction fl as [|fl IH]; intros begin ptr P K m r fuel scratch prospective fragment
    Hcomp Hr HK Hfuel Hpro Hscr; [destruct Hcomp; lia|].
  destruct fuel as [|fuel]; [lia|]. cbn [log_image] in *. cbv zeta in *.
  set (n := Z.min (len ptr) (block_avail P)) in *.
  set (frag := take (Z.to_nat n) ptr) in *.
  set (t := record_type begin (len ptr =? n)) in *.
  set (more := if n <? len ptr then _ else _) in *.
  pose proof (block_avail_range P) as Hav. pose proof (block_pad_range P) as Hpr.
  assert (len frag = n) as Hfrag by (subst frag n; rewrite len_take; len_facts; lia).
  pose proof (len_record_header t frag) as Hhdr.
  set (first := replicate (Z.to_nat (block_pad P)) Byte.x00 ++ record_header t frag ++ frag).
  assert (forall x, replicate (Z.to_nat (block_pad P)) Byte.x00 ++ record_header t frag ++ frag ++ x = first ++ x)
    as Efirst by (intros; unfold first; by rewrite <- !app_assoc).
  rewrite !Efirst in *.
  assert (7 <= length first)%nat as Hfl by (unfold first; rewrite !length_app; unfold len, kHeaderSize in *; lia).
  destruct (ReadPhysicalRecord_prefix r P t frag more m K) as (r1 & Hc1 & Hres);
    [done|done|apply record_type_range|lia|].
  fold first in Hres. cbn [ReadRecord_loop].
  destruct (decide (m < length first)%nat) as [Hm|Hm].
  { exists r1. split; [done|]. rewrite decide_True by (rewrite length_app; lia). by rewrite Hres. }
  destruct Hres as [-> Hr1]. cbn [default].
  destruct (Z.ltb_spec n (len ptr)) as [Hn|Hn].
  - assert (n = block_avail P) as En by lia. subst more.
    set (P' := P + block_pad P + kHeaderSize + n) in *.
    assert (P + len first = P') as EP
      by (unfold first; rewrite !len_app, len_replicate; unfold P'; lia).
    rewrite EP in Hr1. rewrite length_app in Hfuel, HK.
    assert (frag ++ drop (Z.to_nat n) ptr = ptr) as Eptr by apply take_drop.
    assert (len (drop (Z.to_nat n) ptr) = len ptr - n) as Elen by (rewrite len_drop; lia).
    assert (forall scratch' prospective', 0 <= prospective' -> exists r',
      same_config r r' /\
      if decide (m < length (first ++ log_image fl false (drop (Z.to_nat n) ptr) P'))%nat
      then ReadRecord_loop fuel r1 scratch' true prospective' frag = Some (None, r')
      else ReadRecord_loop fuel r1 scratch' true prospective' frag =
             Some (Some (scratch' ++ drop (Z.to_nat n) ptr), r') /\
           reads r' (P + len (first ++ log_image fl false (drop (Z.to_nat n) ptr) P')) K) as Hnext.
    { intros scratch' prospective' Hp'.
      destruct (IH false (drop (Z.to_nat n) ptr) P' K (m - length first)%nat r1 fuel scratch'
        prospective' frag) as (r' & Hc' & Hres'); try done; try lia.
      { rewrite Elen. unfold P'. rewrite En. apply image_complete_next; [done|lia]. }
      { intros ?. apply HK. lia. }
      exists r'. split; [by eapply same_config_trans|]. rewrite length_app, len_app, Z.add_assoc, EP.
      destruct (decide (m - length first < _)%nat); [rewrite decide_True by lia|rewrite decide_False by lia];
        done. }
    subst t. assert (len ptr =? n = false) as -> by (apply Z.eqb_neq; lia).
    destruct begin; cbn [record_type negb andb Z.eqb Pos.eqb kFirstType kFullType kMiddleType].
    + rewrite Hscr by done.
      destruct (Hnext frag (u64 (end_of_buffer_offset_ r - len (buffer_ r)))) as (r' & Hc & Hres);
        [apply u64_range|].
      rewrite Eptr in Hres. eauto.
    + destruct (Hnext (scratch ++ frag) prospective Hpro) as (r' & Hc & Hres).
      rewrite <- app_assoc, Eptr in Hres. eauto.
  - assert (frag = ptr) as Eptr by (apply take_ge; unfold len in *; lia). rewrite Eptr in *.
    subst more. rewrite app_nil_r in *. rewrite take_nil in Hr1. cbn [app] in Hr1.
    destruct (decide (m < length first)%nat); [done|].
    subst t. assert (len ptr =? n = true) as -> by (apply Z.eqb_eq; lia).
    destruct begin; cbn [record_type negb andb Z.eqb Pos.eqb kLastType kFirstType kFullType kMiddleType].
    + rewrite Hscr by done. eexists. split; [|split; [reflexivity|]]; [exact Hc1|].
      apply reads_set_last; [done|]. apply u64_range.
    + eexists. split; [|split; [reflexivity|]]; [exact Hc1|]. by apply reads_set_last.
Qed.

(** ** Sequences of records *)

Fixpoint log_file (P : Z) (records : list bytes) : bytes :=
  match records with
  | [] => []
  | d :: ds => record_image P d ++ log_file (P + len (record_image P d)) ds
  end.

(** The records whose images lie within the first [m] bytes. *)
Fixpoint durable (P : Z) (m : nat) (records : list bytes) : list bytes :=
  match records with
  | [] => []
  | d :: ds =>
      if decide (m < length (record_image P d))%nat then []
      else d :: durable (P + len (record_image P d)) (m - length (record_image P d)) ds
  end.

Lemma durable_all records : forall P m, (length (log_file P records) <= m)%nat -> durable P m records = records.
Proof.
  induction records as [|d ds IH]; intros P m Hm; [done|]. cbn [durable log_file] in *.
  rewrite length_app in Hm. rewrite decide_False by lia. f_equal. apply IH. lia.
Qed.

(** No record of the sequence ends by exactly filling a block it spilled into. *)
Fixpoint no_exact_fill (P : Z) (records : list bytes) : bool :=
  match records with
  | [] => true
  | d :: ds => negb (exact_fill P (len d)) && no_exact_fill (P + len (record_image P d)) ds
  end.

Lemma record_image_length P d : (0 < length (record_image P d))%nat.
Proof.
  unfold record_image, emit_fuel. pose proof (Z.div_pos (len d) (kBlockSize - kHeaderSize)) as H.
  replace (Z.to_nat _) with (S (Z.to_nat (len d / (kBlockSize - kHeaderSize) + 1))) by (unfold kBlockSize, kHeaderSize in *; len_facts; lia).
  cbn [log_image]. rewrite !length_app. pose proof (len_record_header (record_type true (len d =? Z.min (len d) (block_avail P)))
    (take (Z.to_nat (Z.min (len d) (block_avail P))) d)) as Hl. unfold len at 1, kHeaderSize in Hl. lia.
Qed.

(** Where the next record starts. *)
Lemma reserve_image offset d : 0 <= offset -> exact_fill offset (len d) = false -> offset + len (record_image offset d) < 2 ^ 32 - 14 ->
  reserve offset (len d) = offset + len (record_image offset d).
Proof.
  intros Ho Hx Hlen. pose proof (record_image_end offset d) as Hend. rewrite reserve_spec, <- Hend.
  - rewrite Hx. lia.
  - done.
  - len_facts. lia.
  - unfold kHeaderSize. len_facts. lia.
  - assert (len d <= len (record_image offset d)); [|len_facts; lia].
    pose proof (block_pad_range offset). pose proof (block_avail_range offset).
    revert Hend. unfold image_end, tail_length. len_facts.
    destruct (Z.leb_spec (len d) (block_avail offset)); [unfold kHeaderSize in *; lia|].
    destruct (Z.eqb_spec ((len d - block_avail offset) mod (kBlockSize - kHeaderSize)) 0);
      unfold kBlockSize, kHeaderSize in *; Z.div_mod_to_equations; lia.
Qed.

Lemma AddRecords_file records : forall w,
  offset_ w = len (dest_ w) -> no_exact_fill (offset_ w) records = true ->
  offset_ w + len (log_file (offset_ w) records) < 2 ^ 32 - 14 ->
  AddRecords w records =
    {| dest_ := dest_ w ++ log_file (offset_ w) records;
       offset_ := offset_ w + len (log_file (offset_ w) records) |}.
Proof.
  induction records as [|d ds IH]; intros w Ho Hne Hlen.
  { destruct w; simpl. rewrite app_nil_r. len_nils.
    by rewrite Z.add_0_r. }
  cbn [AddRecords fold_left no_exact_fill log_file] in *. rewrite len_app in Hlen.
  apply andb_true_iff in Hne as [Hx Hne].
  rewrite AddRecord_append by done. cbn [snd].
  assert (reserve (offset_ w) (len d) = offset_ w + len (record_image (offset_ w) d)) as Hres.
  { apply reserve_image; [rewrite Ho; apply len_nonneg|by apply negb_true_iff|].
    pose proof (len_nonneg (log_file (offset_ w + len (record_image (offset_ w) d)) ds)). lia. }
  rewrite Hres. unfold AddRecords in IH. rewrite IH; simpl.
  - by rewrite app_assoc, len_app, Z.add_assoc.
  - rewrite len_app. lia.
  - done.
  - lia.
Qed.

Lemma reads_len r P S : reads r P S -> length S = (length (buffer_ r) + length (sf_rest (file_ r)))%nat.
Proof. intros [<- _ _ _ _ _ _]. apply length_app. Qed.

Lemma ReadRecord_start r P S :
  reads r P S -> ReadRecord r = ReadRecord_loop (1 + length S) r [] false 0 [].
Proof.
  intros Hr. unfold ReadRecord, reader_fuel.
  pose proof (rd_init _ _ _ Hr). pose proof (rd_last _ _ _ Hr).
  destruct (Z.ltb_spec (last_record_offset_ r) (initial_offset_ r)); [lia|].
  by rewrite <- (reads_len r P S Hr).
Qed.

(** Reading the next record of a file that may be cut. *)
Lemma ReadRecord_end r P : reads r P [] -> exists r', ReadRecord r = Some (None, r') /\ same_config r r'.
Proof.
  intros Hr. rewrite (ReadRecord_start r P _ Hr). cbn [ReadRecord_loop length Nat.add].
  destruct (ReadPhysicalRecord_eof r P [] Hr) as (r' & -> & Hc).
  - len_nils. pose proof (block_pad_range P). unfold kHeaderSize. lia.
  - cbn. eauto.
Qed.

Lemma ReadRecord_prefix r P m d ds : reads r P (take m (log_file P (d :: ds))) ->
  exists r', same_config r r' /\
    if decide (m < length (record_image P d))%nat then ReadRecord r = Some (None, r')
    else ReadRecord r = Some (Some d, r') /\
         reads r' (P + len (record_image P d)) (take (m - length (record_image P d)) (log_file (P + len (record_image P d)) ds)).
Proof.
  intros Hr. rewrite (ReadRecord_start r P _ Hr). cbn [log_file] in *. set (i := record_image P d) in *. rewrite take_app in Hr.
  assert (m < length i -> take (m - length i) (log_file (P + len i) ds) = [])%nat as HK.
  { intros ?. by rewrite (proj2 (Nat.sub_0_le _ _)) by lia. }
  destruct (ReadRecord_loop_image (emit_fuel d) true d P _ m r
    (1 + length (take m i ++ take (m - length i) (log_file (P + len i) ds))) [] 0 []
    (image_complete_emit d P) Hr HK) as (r1 & Hc1 & Hres); [|lia|done|].
  { fold (record_image P d). fold i. rewrite length_app, length_take. lia. }
  fold (record_image P d) in Hres. fold i in Hres. rewrite take_app. cbn [negb] in Hres. exists r1. split; [done|].
  by destruct (decide (m < length i)%nat).
Qed.

Lemma ReadAll_prefix records : forall P m r fuel,
  reads r P (take m (log_file P records)) -> (length records < fuel)%nat ->
  exists r', ReadAll fuel r = Some (durable P m records, r') /\ same_config r r'.
Proof.
  induction records as [|d ds IH]; intros P m r fuel Hr Hfuel; (destruct fuel as [|fuel]; [simpl in *; lia|]); cbn [ReadAll durable].
  - cbn [log_file] in Hr. rewrite take_nil in Hr. destruct (ReadRecord_end r P Hr) as (r' & -> & Hc). eauto.
  - destruct (ReadRecord_prefix r P m d ds Hr) as (r1 & Hc1 & Hres). destruct (decide _); [rewrite Hres; eauto|].
    destruct Hres as [-> Hr1]. destruct (IH _ _ r1 fuel Hr1) as (r2 & -> & Hc2); [simpl in Hfuel; lia|].
    exists r2. split; [done|]. by eapply same_config_trans.
Qed.

(** ** The reader on arbitrary files *)

Definition remaining (r : Reader) : nat := length (buffer_ r) + length (sf_rest (file_ r)).

Lemma ReportDrop_remaining r n s : remaining (ReportDrop r n s) = remaining r.
Proof. unfold ReportDrop. by destruct (has_reporter r && _). Qed.

Lemma parse_record_remaining r :
  kHeaderSize <= len (buffer_ r) -> (remaining (snd (parse_record r)) < remaining r)%nat.
Proof.
  intros Hl. unfold parse_record, ReportCorruption.
  set (n := Z.lor _ _). assert (0 <= n) as Hn.
  { apply Z.lor_nonneg. split; [apply b2z_range|]. apply Z.shiftl_nonneg, b2z_range. }
  assert (remaining (set_buffer r []) < remaining r)%nat as Hclear
    by (unfold remaining, set_buffer, len, kHeaderSize in *; simpl; lia).
  destruct (len (buffer_ r) <? kHeaderSize + n).
  { cbn [eof_ set_buffer]. destruct (eof_ r); cbn [negb snd]; [done|by rewrite ReportDrop_remaining]. }
  destruct (_ && (n =? 0)); [done|].
  destruct (checksum_ r && _); [cbn [snd]; by rewrite ReportDrop_remaining|].
  assert (remaining (set_buffer r (drop (Z.to_nat (kHeaderSize + n)) (buffer_ r))) < remaining r)%nat as Hd.
  { unfold remaining. cbn [buffer_ file_ set_buffer]. rewrite length_drop.
    unfold len, kHeaderSize in *. lia. }
  destruct (_ <? initial_offset_ _); exact Hd.
Qed.

Lemma fill_buffer_remaining r s r' :
  fill_buffer (set_buffer r []) = (s, r') -> (remaining r' <= remaining r)%nat.
Proof.
  unfold fill_buffer, sf_Read. cbn [file_ set_buffer].
  destruct (sf_fails (file_ r)) as [|[|] e]; intros [= <- <-]; unfold remaining; cbn [buffer_ file_ sf_rest];
    rewrite ?length_take, ?length_drop; cbn [length];
    generalize (Z.to_nat kBlockSize); intros; lia.
Qed.

Lemma ReadPhysicalRecord_total r :
  exists t res r', ReadPhysicalRecord r = Some (t, res, r') /\
    (t = kEof \/ remaining r' < remaining r)%nat.
Proof.
  assert (forall r, kHeaderSize <= len (buffer_ r) -> exists t res r',
    Some (parse_record r) = Some (t, res, r') /\ (remaining r' < remaining r)%nat) as Hparse.
  { intros r0 H0. pose proof (parse_record_remaining r0 H0). destruct (parse_record r0) as [[t res] r'].
    eauto. }
  unfold ReadPhysicalRecord. cbn [ReadPhysicalRecord_loop].
  destruct (Z.ltb_spec (len (buffer_ r)) kHeaderSize) as [Hl|Hl].
  2: { destruct (Hparse r Hl) as (t & res & r' & -> & ?). eauto 8. }
  destruct (eof_ r) eqn:Heof; [cbn [negb]; eauto 8|]. cbn [negb].
  destruct (fill_buffer (set_buffer r [])) as [s r1] eqn:Efill.
  pose proof (fill_buffer_remaining r s r1 Efill) as Hle.
  destruct (ok s); cbn [negb]; [|eauto 8].
  set (r2 := if len (buffer_ r1) <? kBlockSize then set_eof r1 else r1).
  assert (remaining r2 = remaining r1) as E2 by (subst r2; by destruct (len (buffer_ r1) <? kBlockSize)).
  destruct (Z.ltb_spec (len (buffer_ r2)) kHeaderSize) as [Hl2|Hl2].
  - assert (eof_ r2 = true) as ->; [|cbn [negb]; eauto 8].
    subst r2. destruct (Z.ltb_spec (len (buffer_ r1)) kBlockSize); [done|].
    unfold kBlockSize, kHeaderSize in *. lia.
  - destruct (Hparse r2 Hl2) as (t & res & r' & -> & ?). do 3 eexists. split; [done|]. right. lia.
Qed.

Lemma ReadRecord_loop_total fuel : forall r scratch in_frag prospective fragment,
  (remaining r < fuel)%nat ->
  exists res r', ReadRecord_loop fuel r scratch in_frag prospective fragment = Some (res, r') /\
    (res = None \/ remaining r' < remaining r)%nat.
Proof.
  induction fuel as [|fuel IH]; intros r scratch in_frag prospective fragment Hf; [lia|].
  cbn [ReadRecord_loop].
  destruct (ReadPhysicalRecord_total r) as (t & res & r1 & -> & Ht). cbv zeta.
  assert (forall r2 sc fr pr fg, remaining r2 = remaining r1 -> (remaining r1 < remaining r)%nat ->
    exists res r', ReadRecord_loop fuel r2 sc fr pr fg = Some (res, r') /\
      (res = None \/ remaining r' < remaining r)%nat) as Hgo.
  { intros r2 sc fr pr fg E2 Hlt. destruct (IH r2 sc fr pr fg ltac:(lia)) as (res' & r' & -> & Hr').
    do 2 eexists. split; [done|]. destruct Hr'; [by left|right; lia]. }
  assert (forall b n s, remaining (if b : bool then ReportCorruption r1 n s else r1) = remaining r1) as Hrep
    by (intros []; intros; [apply ReportDrop_remaining|done]).
  assert (forall n s, remaining (ReportCorruption r1 n s) = remaining r1) as Hrep'
    by (intros; apply ReportDrop_remaining).
  destruct Ht as [->|Hlt]; [cbn; eauto|].
  destruct (t =? kFullType).
  { do 2 eexists. split; [reflexivity|]. right. specialize (Hrep (in_frag && negb (len scratch =? 0))).
    unfold remaining in *. cbn [buffer_ file_ set_last_record_offset]. rewrite Hrep. done. }
  destruct (t =? kFirstType); [by apply Hgo|].
  destruct (t =? kMiddleType); [destruct in_frag; cbn [negb]; by apply Hgo|].
  destruct (t =? kLastType); [destruct in_frag; cbn [negb]; [by eauto 6|by apply Hgo]|].
  destruct (t =? kEof); [eauto|].
  destruct (t =? kBadRecord); [destruct in_frag; by apply Hgo|by apply Hgo].
Qed.

Lemma SkipToInitialBlock_remaining r : (remaining (snd (SkipToInitialBlock r)) <= remaining r)%nat.
Proof.
  unfold SkipToInitialBlock, sf_Skip.
  destruct (0 <? _); [|unfold remaining; simpl; lia].
  destruct (sf_skip_fails (file_ r)); cbn [ok OK negb snd IOError mkStatus];
    rewrite ?ReportDrop_remaining; unfold remaining; cbn [buffer_ file_ sf_rest];
    rewrite ?length_drop; lia.
Qed.

Lemma ReadRecord_total r :
  exists res r', ReadRecord r = Some (res, r') /\ (res = None \/ remaining r' < remaining r)%nat.
Proof.
  unfold ReadRecord. pose proof (SkipToInitialBlock_remaining r) as Hs.
  destruct (last_record_offset_ r <? initial_offset_ r).
  - destruct (SkipToInitialBlock r) as [[|] r1]; cbn [snd] in Hs; [|by eauto].
    destruct (ReadRecord_loop_total (reader_fuel r1) r1 [] false 0 []) as (res & r' & -> & Hr);
      [unfold reader_fuel, remaining; lia|]. do 2 eexists. split; [done|].
    destruct Hr; [by left|right; lia].
  - apply ReadRecord_loop_total. unfold reader_fuel, remaining. lia.
Qed.

Lemma ReadAll_total fuel : forall r,
  (remaining r < fuel)%nat -> exists recs r', ReadAll fuel r = Some (recs, r').
Proof.
  induction fuel as [|fuel IH]; intros r Hf; [lia|]. cbn [ReadAll].
  destruct (ReadRecord_total r) as ([rec|] & r1 & -> & Hr); [|by eauto].
  destruct Hr as [?|Hr]; [done|].
  destruct (IH r1 ltac:(lia)) as (recs & r2 & ->). eauto.
Qed.

(** ** A reservation that is longer than the record *)

Lemma write_at_gap f o d :
  len f <= o -> write_at f o d = write_at (f ++ replicate (Z.to_nat o - length f) Byte.x00) o d.
Proof.
  intros Ho. unfold write_at. rewrite <- app_assoc, <- replicate_add, length_app, length_replicate.
  unfold len in Ho. f_equal.
  - f_equal. f_equal. f_equal. lia.
  - f_equal. rewrite !drop_ge; [done| |lia]. rewrite length_app, length_replicate. lia.
Qed.

(** Writing past the end of the file is writing at the end of the file
    extended with zero bytes. *)
Lemma AddRecord_gap w slice :
  len (dest_ w) <= offset_ w ->
  AddRecord w slice =
  (OK, {| dest_ := dest_ w ++ replicate (Z.to_nat (offset_ w - len (dest_ w))) Byte.x00 ++
                   record_image (offset_ w) slice;
          offset_ := reserve (offset_ w) (len slice) |}).
Proof.
  intros Ho. unfold AddRecord.
  pose proof (emit_loop_replay (emit_fuel slice) true slice (offset_ w) (dest_ w) []) as E.
  change (replay (dest_ w) []) with (dest_ w) in E. rewrite E.
  destruct (emit_loop_trace (emit_fuel slice) true slice (offset_ w) []) as (ws & -> & Hc & Hd).
  cbn [snd app]. unfold record_image. rewrite <- Hd.
  destruct ws as [|[o d] ws].
  { exfalso. pose proof (record_image_end (offset_ w) slice) as He. unfold record_image in He.
    rewrite <- Hd in He. cbn in He. pose proof (block_pad_range (offset_ w)).
    pose proof (block_avail_range (offset_ w)). revert He. unfold image_end, tail_length. len_nils. len_facts.
    destruct (Z.leb_spec (len slice) (block_avail (offset_ w))); [unfold kHeaderSize in *; lia|].
    destruct (Z.eqb_spec ((len slice - block_avail (offset_ w)) mod (kBlockSize - kHeaderSize)) 0);
      unfold kBlockSize, kHeaderSize in *; Z.div_mod_to_equations; lia. }
  destruct Hc as [-> Hc].
  assert (replay (dest_ w) ((offset_ w, d) :: ws) =
    replay (dest_ w ++ replicate (Z.to_nat (offset_ w - len (dest_ w))) Byte.x00) ((offset_ w, d) :: ws)) as ->.
  { unfold replay. cbn [fold_left fst snd]. rewrite write_at_gap by done.
    do 4 f_equal. unfold len. lia. }
  rewrite (replay_contiguous _ (offset_ w)); [by rewrite <- app_assoc| |done].
  rewrite len_app, len_replicate. lia.
Qed.

(** A zero header drops the rest of the block without a report. *)
Lemma ReadPhysicalRecord_zeros r P x :
  reads r P (replicate 7 Byte.x00 ++ x) -> P mod kBlockSize = 0 ->
  exists r', ReadPhysicalRecord r = Some (kBadRecord, None, r') /\ same_config r r' /\
    buffer_ r' = [] /\ (len x < kBlockSize - 7 -> eof_ r' = true).
Proof.
  intros Hr HP. destruct (block_aligned P HP) as [Hpad _].
  destruct (ReadPhysicalRecord_fill r P (replicate 7 Byte.x00 ++ x)) as (r1 & -> & Hfill & Hc).
  { by rewrite Hpad. }
  { rewrite len_app, len_replicate. len_facts. unfold kHeaderSize. lia. }
  destruct Hfill as [Hb _ _ _ _ _ _ He]. rewrite Hpad, Z.add_0_r, HP, Z.sub_0_r in *.
  assert (exists y, buffer_ r1 = replicate 7 Byte.x00 ++ y) as [y Ey].
  { exists (take (Z.to_nat kBlockSize - 7) x). rewrite Hb, take_app_ge, length_replicate.
    - reflexivity.
    - rewrite length_replicate. unfold kBlockSize. lia. }
  exists (set_buffer r1 []). unfold parse_record. rewrite Ey. cbn [replicate app nth].
  rewrite !len_cons. change (Z.lor (b2z Byte.x00) (Z.shiftl (b2z Byte.x00) 8)) with 0.
  destruct (Z.ltb_spec (1 + (1 + (1 + (1 + (1 + (1 + (1 + len y))))))) (kHeaderSize + 0));
    [unfold kHeaderSize in *; len_facts; lia|].
  split; [done|]. split; [done|]. split; [done|]. intros Hx. cbn [eof_ set_buffer].
  destruct (eof_ r1); [done|]. rewrite len_app, len_replicate in He. lia.
Qed.

Lemma reads_new_reader contents reporter checksum :
  len contents < 2 ^ 64 -> reads (new_reader (sf_open contents) reporter checksum 0) 0 contents.
Proof. intros. split; simpl; done. Qed.

(** ** Claims *)

(** C22. Crash recovery of the log.  Write any records one after the other with
    AddRecord to a new log (below 4 GiB, no record exactly filling the last
    block it spills into), cut the file at any byte, and read it back: the
    reader returns exactly the records whose bytes are all there, in order,
    intact, and reports no corruption; on the uncut file it returns every
    record. *)
Theorem log_recovery (records : list bytes) (m : nat) (reporter checksum : bool)
    (Hfill : no_exact_fill 0 records = true)
    (Hsize : len (log_file 0 records) < 2 ^ 32 - 14) :
  let file := dest_ (AddRecords new_writer records) in
  (exists r', ReadAll (S (length records)) (new_reader (sf_open (take m file)) reporter checksum 0) =
      Some (durable 0 m records, r') /\ reports r' = []) /\
  (length file <= m -> durable 0 m records = records)%nat.
Proof.
  intros file. subst file. rewrite AddRecords_file by done. simpl dest_.
  split; [|apply durable_all].
  destruct (ReadAll_prefix records 0 m (new_reader (sf_open (take m (log_file 0 records))) reporter checksum 0)
    (S (length records))) as (r' & E & Hc & _); [|lia|].
  - apply reads_new_reader. rewrite len_take. lia.
  - exists r'. split; [exact E|]. by rewrite Hc.
Qed.

Lemma log_recovery_witness :
  no_exact_fill 0 [bytes_of_string "put"; []] = true /\
  exists r', ReadAll 3 (new_reader (sf_open (take 12
      (dest_ (AddRecords new_writer [bytes_of_string "put"; []])))) true true 0) =
    Some ([bytes_of_string "put"], r').
Proof.
  split; [reflexivity|].
  destruct (log_recovery [bytes_of_string "put"; []] 12 true true) as [(r' & E & _) _];
    [reflexivity|vm_compute; reflexivity|].
  exists r'. exact E.
Defined.

(** The reader terminates on every file: whatever the bytes, wherever reads
    or the initial skip fail, whatever the initial offset, a loop of ReadRecord
    calls ends, with at most one call per remaining byte. *)
Theorem log_reader_total (r : Reader) :
  exists recs r', ReadAll (S (remaining r)) r = Some (recs, r').
Proof. apply ReadAll_total. lia. Qed.

(** The range reserved by the compare-and-swap covers the writes of the
    record: they are consecutive from the old offset on, carry the record's
    image, and end where the reservation ends; only when the record exactly
    fills the last block it spills into does the reservation run one header
    further. *)
Theorem log_reservation (offset : Z) (data : bytes)
    (Ho : 0 <= offset < 2 ^ 32 - kHeaderSize) (Hd : len data < 2 ^ 62) :
  exists ws, emit_loop (emit_fuel data) true data offset [] = (OK, ws) /\
    contiguous offset ws /\ trace_data ws = record_image offset data /\
    reserve offset (len data) =
      offset + len (trace_data ws) + (if exact_fill offset (len data) then kHeaderSize else 0).
Proof.
  destruct (emit_loop_trace (emit_fuel data) true data offset []) as (ws & E & Hc & Ht).
  exists ws. split; [done|]. split; [done|]. split; [done|].
  rewrite Ht. fold (record_image offset data). rewrite record_image_end.
  apply reserve_spec; len_facts; lia.
Qed.

Lemma log_reservation_witness :
  exists ws, emit_loop (emit_fuel (bytes_of_string "put")) true (bytes_of_string "put") 32766 [] = (OK, ws) /\
    reserve 32766 3 = 32766 + len (trace_data ws).
Proof.
  destruct (log_reservation 32766 (bytes_of_string "put")) as (ws & E & _ & _ & R); [split; [discriminate|reflexivity]|reflexivity|].
  exists ws. split; [exact E|]. rewrite Z.add_0_r in R. exact R.
Defined.

(** When a record exactly fills the last block it spills into, the record
    written after it is lost: the reader returns only the first of the two and
    reports nothing (an instance: a first record of 65522 bytes). *)
Theorem exact_fill_loses_next_record (a b : bytes) (reporter checksum : bool)
    (Ha : exact_fill 0 (len a) = true) (Hlen : len a < 2 ^ 31)
    (Hb : len b < kBlockSize - 14) :
  exists r', ReadAll 2 (new_reader (sf_open (dest_ (AddRecords new_writer [a; b]))) reporter checksum 0) =
    Some ([a], r') /\ reports r' = [].
Proof.
  set (i := record_image 0 a). pose proof (record_image_end 0 a) as Hend. fold i in Hend.
  pose proof Ha as Ha'. unfold exact_fill in Ha'. apply andb_true_iff in Ha' as [Hgt Hmod].
  rewrite Z.ltb_lt in Hgt. rewrite Z.eqb_eq in Hmod.
  change (block_avail 0) with 32761 in *.
  assert (len i = 32768 + (len a - 32761) / 32761 * 32768) as Hi.
  { unfold image_end in Hend. change (block_avail 0) with 32761 in Hend. change (block_pad 0) with 0 in Hend.
    destruct (Z.leb_spec (len a) 32761); [lia|]. unfold tail_length in Hend.
    rewrite (proj2 (Z.eqb_eq _ _) Hmod) in Hend. change (kBlockSize - kHeaderSize) with 32761 in Hend.
    unfold kBlockSize, kHeaderSize in *. lia. }
  assert (reserve 0 (len a) = len i + 7) as Hres.
  { rewrite reserve_spec, Ha, <- Hend; unfold kHeaderSize; len_facts; lia. }
  assert (AddRecord new_writer a = (OK, {| dest_ := i; offset_ := len i + 7 |})) as E1.
  { rewrite AddRecord_append by done. simpl. fold i. by rewrite Hres. }
  set (x := record_image (len i + 7) b).
  assert (dest_ (AddRecords new_writer [a; b]) = i ++ replicate 7 Byte.x00 ++ x) as Efile.
  { unfold AddRecords. cbn [fold_left]. rewrite E1. cbn [snd].
    rewrite AddRecord_gap by (simpl; lia). simpl.
    replace (len i + 7 - len i) with 7 by lia. reflexivity. }
  assert ((len i) mod kBlockSize = 0) as Hmi
    by (rewrite Hi; unfold kBlockSize; Z.div_mod_to_equations; lia).
  assert (len x < kBlockSize - 7) as Hx.
  { pose proof (record_image_end (len i + 7) b) as He. fold x in He. unfold image_end in He.
    assert ((len i + 7) mod kBlockSize = 7) as H7 by (unfold kBlockSize in *; Z.div_mod_to_equations; lia).
    assert (block_pad (len i + 7) = 0) as Hp by (unfold block_pad; by rewrite H7).
    unfold block_avail in He. rewrite Hp, Z.add_0_r, H7 in He.
    destruct (Z.leb_spec (len b) (kBlockSize - 7 - kHeaderSize)); unfold kBlockSize, kHeaderSize in *; lia. }
  rewrite Efile. set (K := replicate 7 Byte.x00 ++ x).
  assert (len K = 7 + len x) as HK by (unfold K; by rewrite len_app, len_replicate).
  set (r := new_reader _ reporter checksum 0).
  assert (reads r 0 (i ++ K)) as Hr.
  { apply reads_new_reader. rewrite len_app. unfold kBlockSize in *. Z.div_mod_to_equations. lia. }
  cbn [ReadAll]. rewrite (ReadRecord_start r 0 _ Hr).
  rewrite <- (firstn_all i) in Hr.
  destruct (ReadRecord_loop_image (emit_fuel a) true a 0 K (length i) r (1 + length (i ++ K)) [] 0 []
    (image_complete_emit a 0) Hr) as (r1 & Hc1 & Hres1); [fold (record_image 0 a); fold i..|].
  { lia. }
  { rewrite length_app. lia. }
  { lia. }
  { done. }
  fold (record_image 0 a) in Hres1. fold i in Hres1.
  rewrite decide_False in Hres1 by lia. destruct Hres1 as [E Hr1]. cbn [negb] in E. rewrite E.
  rewrite Z.add_0_l in Hr1. rewrite (ReadRecord_start r1 _ _ Hr1).
  destruct (ReadPhysicalRecord_zeros r1 (len i) x Hr1 Hmi) as (r2 & E2 & Hc2 & Hb2 & He2).
  assert (exists f, 1 + length K = S (S f))%nat as [f ->] by (exists (length K - 1)%nat; unfold len in *; lia).
  cbn [ReadRecord_loop]. rewrite E2. cbn.
  unfold ReadPhysicalRecord. cbn [ReadPhysicalRecord_loop]. rewrite Hb2, He2 by done. cbn.
  eexists. split; [reflexivity|]. destruct Hc1 as [R1 _], Hc2 as [R2 _]. cbn. by rewrite R2, R1.
Qed.

Lemma exact_fill_loses_next_record_witness :
  exact_fill 0 65522 = true /\
  exists r', ReadAll 2 (new_reader (sf_open (dest_ (AddRecords new_writer
      [replicate (Z.to_nat 65522) Byte.x01; bytes_of_string "put"]))) true true 0) =
    Some ([replicate (Z.to_nat 65522) Byte.x01], r').
Proof.
  split; [reflexivity|].
  destruct (exact_fill_loses_next_record (replicate (Z.to_nat 65522) Byte.x01) (bytes_of_string "put") true true)
    as (r' & E & _).
  - rewrite len_replicate, Z2Nat.id by discriminate. reflexivity.
  - rewrite len_replicate, Z2Nat.id by discriminate. reflexivity.
  - reflexivity.
  - exists r'. exact E.
Defined.

(** C38. From 4 GiB on the reservation goes backwards: the mask that rounds an
    offset up to a block boundary is 32 bits wide, so a reservation of a record
    of at most one block that starts in the last six bytes of any block beyond
    4 GiB (below the last block of the 64-bit range) installs an offset in the
    first 4 GiB of the file, and the records that follow are written over
    earlier ones. *)
Theorem reserve_wraps_at_4GiB (offset size : Z)
    (Ho : 2 ^ 32 <= offset < 2 ^ 64 - kBlockSize)
    (Htail : kBlockSize - offset mod kBlockSize < kHeaderSize)
    (Hs : 0 <= size <= kBlockSize - kHeaderSize) :
  reserve offset size = (offset + block_pad offset) mod 2 ^ 32 + kHeaderSize + size /\
  reserve offset size <= 2 ^ 32 /\ reserve offset size < offset.
Proof.
  destruct (block_pad_spec offset) as [[_ ?]|(E & Hl & Hm)]; [lia|].
  unfold reserve. cbv zeta. rewrite !land_block.
  destruct (Z.ltb_spec (kBlockSize - offset mod kBlockSize) kHeaderSize); [|lia].
  assert (Z.land (u64 (offset + kHeaderSize)) block_mask = (offset + block_pad offset) mod 2 ^ 32) as ->.
  { rewrite u64_small by (unfold kHeaderSize, kBlockSize in *; lia).
    assert (block_mask = Z.land block_mask (Z.ones 32)) as -> by reflexivity.
    rewrite (Z.land_comm block_mask), Z.land_assoc, Z.land_ones by lia.
    rewrite land_block_mask by (pose proof (Z.mod_pos_bound (offset + kHeaderSize) (2 ^ 32) ltac:(lia)); lia).
    rewrite E. clear -Hl E Htail. unfold kHeaderSize, kBlockSize in *. Z.div_mod_to_equations. lia. }
  set (q := (offset + block_pad offset) mod 2 ^ 32).
  assert (q mod kBlockSize = 0 /\ 0 <= q <= 2 ^ 32 - kBlockSize) as [-> Hq].
  { clear -Hm. subst q. unfold kBlockSize in *. Z.div_mod_to_equations. lia. }
  destruct (Z.leb_spec (kHeaderSize + size) (kBlockSize - 0)); [|lia].
  assert (2 ^ 32 < offset) as Hgt.
  { clear -Ho Htail. unfold kHeaderSize, kBlockSize in *. destruct (Z.eq_dec offset (2 ^ 32)) as [->|]; [by vm_compute in Htail|lia]. }
  rewrite u64_small; unfold kHeaderSize, kBlockSize in *; lia.
Qed.

Lemma reserve_wraps_at_4GiB_witness : reserve (2 ^ 32 + 32765) 10 = 32785.
Proof.
  destruct (reserve_wraps_at_4GiB (2 ^ 32 + 32765) 10) as [E _].
  - split; vm_compute; congruence.
  - reflexivity.
  - split; vm_compute; congruence.
  - rewrite E. reflexivity.
Defined.
