(* ===== verification/LogConcurrent.v ===== *)
(** * Concurrent use of the log writer

    AddRecord takes no lock: a thread loads [offset_], computes the end of its
    record, installs it by compare-and-swap (retrying when another thread was
    faster) and then writes its fragments with WriteAt.  The step relation
    below interleaves these actions; the theorems show that the writes of
    different calls never overlap, which is what WriteAt requires, and that
    the file ends up as if the calls had run one after the other in the order
    of their successful compare-and-swaps. *)

From Stdlib Require Import ZArith Lia Bool.
From stdpp Require Import base list relations.
From S2P Require Import Prelude Coding Crc32c Status FileName Log LogSpec.

Set Default Goal Selector "!".
Local Open Scope Z_scope.

(** ** Writes that commute *)

Notation write := (Z * bytes)%type.

Definition write_disjoint (w1 w2 : write) : Prop :=
  fst w1 + len (snd w1) <= fst w2 \/ fst w2 + len (snd w2) <= fst w1.

Lemma lookup_write_at f o d i :
  0 <= o ->
  write_at f o d !! i =
    if decide (i < Z.to_nat o)%nat
    then (if decide (i < length f)%nat then f !! i else Some Byte.x00)
    else if decide (i < Z.to_nat o + length d)%nat then d !! (i - Z.to_nat o)%nat
    else f !! i.
Proof.
  intros Ho. unfold write_at. set (n := Z.to_nat o).
  assert (length (take n (f ++ replicate (n - length f) Byte.x00)) = n) as Hl
    by (rewrite length_take, length_app, length_replicate; lia).
  destruct (decide (i < n)%nat).
  - rewrite lookup_app_l, lookup_take_lt by lia.
    destruct (decide (i < length f)%nat).
    + by rewrite lookup_app_l by lia.
    + rewrite lookup_app_r by lia. apply lookup_replicate_2. lia.
  - rewrite lookup_app_r, Hl by lia.
    destruct (decide (i < n + length d)%nat).
    + by rewrite lookup_app_l by lia.
    + rewrite lookup_app_r, lookup_drop by lia. f_equal. lia.
Qed.

Lemma length_write_at f o d :
  0 <= o -> length (write_at f o d) = Nat.max (length f) (Z.to_nat o + length d).
Proof.
  intros Ho. unfold write_at.
  rewrite !length_app, length_take, length_drop, length_app, length_replicate. lia.
Qed.

Lemma write_at_comm f o1 d1 o2 d2 :
  0 <= o1 -> 0 <= o2 -> write_disjoint (o1, d1) (o2, d2) ->
  write_at (write_at f o1 d1) o2 d2 = write_at (write_at f o2 d2) o1 d1.
Proof.
  unfold write_disjoint, len. simpl. intros H1 H2 Hd. apply list_eq. intros i.
  rewrite !lookup_write_at, !length_write_at by done.
  repeat case_decide; try lia; try done.
  all: rewrite ?lookup_ge_None_2 by lia; try done.
  all: symmetry; try (rewrite lookup_ge_None_2 by lia; done).
Qed.

Lemma write_disjoint_sym w1 w2 : write_disjoint w1 w2 -> write_disjoint w2 w1.
Proof. unfold write_disjoint. tauto. Qed.

(** Writes that are pairwise disjoint. *)
Definition disjoint_writes (ws : list write) : Prop :=
  Forall (fun w => 0 <= fst w) ws /\ ForallOrdPairs write_disjoint ws.

Lemma disjoint_writes_cons w ws :
  disjoint_writes (w :: ws) <-> 0 <= fst w /\ Forall (write_disjoint w) ws /\ disjoint_writes ws.
Proof.
  unfold disjoint_writes. rewrite Forall_cons. split.
  - intros [[? ?] Hp]. inversion Hp; subst. done.
  - intros (? & ? & ? & ?). split; [done|]. by constructor.
Qed.

Lemma disjoint_writes_perm ws1 ws2 : ws1 ≡ₚ ws2 -> disjoint_writes ws1 -> disjoint_writes ws2.
Proof.
  induction 1 as [|w ws1 ws2 Hp IH|w1 w2 ws|ws1 ws2 ws3 _ IH1 _ IH2]; [done| | |by auto].
  - rewrite !disjoint_writes_cons. intros (? & H & ?). split_and!; [done| |by auto].
    by rewrite <- Hp.
  - rewrite !disjoint_writes_cons, !Forall_cons.
    intros (? & (Hd & ?) & ? & ? & ?). split_and!; eauto using write_disjoint_sym.
Qed.

Lemma disjoint_writes_app ws1 ws2 :
  disjoint_writes ws1 -> disjoint_writes ws2 ->
  (forall w1 w2, w1 ∈ ws1 -> w2 ∈ ws2 -> write_disjoint w1 w2) -> disjoint_writes (ws1 ++ ws2).
Proof.
  induction ws1 as [|w ws1 IH]; intros H1 H2 Hx; [done|]. simpl.
  apply disjoint_writes_cons in H1 as (? & ? & ?). apply disjoint_writes_cons.
  split; [done|]. split.
  - apply Forall_app. split; [done|]. apply Forall_forall. intros w2 Hw. apply Hx; [left|done].
  - apply IH; try done. intros w1 w2 Hw1 Hw2. apply Hx; [by right|done].
Qed.

(** Disjoint writes give the same file in every order. *)
Lemma replay_perm f ws1 ws2 : ws1 ≡ₚ ws2 -> disjoint_writes ws1 -> replay f ws1 = replay f ws2.
Proof.
  intros Hp. revert f.
  induction Hp as [|w ws1 ws2 Hp IH|[o1 d1] [o2 d2] ws|ws1 ws2 ws3 Hp1 IH1 Hp2 IH2]; intros f Hd; [done| | |].
  - apply disjoint_writes_cons in Hd as (_ & _ & Hd). apply (IH _ Hd).
  - rewrite !disjoint_writes_cons, Forall_cons in Hd. destruct Hd as (H1 & (Hd & _) & H2 & _).
    unfold replay. cbn [fold_left fst snd]. by rewrite write_at_comm.
  - rewrite IH1 by done. apply IH2. by eapply disjoint_writes_perm.
Qed.

Lemma contiguous_range o ws w :
  contiguous o ws -> w ∈ ws -> o <= fst w /\ fst w + len (snd w) <= o + len (trace_data ws).
Proof.
  revert o. induction ws as [|[o1 d] ws IH]; intros o Hc Hw; [by apply elem_of_nil in Hw|].
  destruct Hc as [-> Hc]. unfold trace_data in *. cbn [map snd concat] in *. rewrite len_app.
  apply elem_of_cons in Hw as [->|Hw]; simpl.
  - len_facts. lia.
  - destruct (IH _ Hc Hw). len_facts. lia.
Qed.

Lemma contiguous_disjoint o ws : 0 <= o -> contiguous o ws -> disjoint_writes ws.
Proof.
  revert o. induction ws as [|[o1 d] ws IH]; intros o Ho Hc.
  { split; [constructor|constructor]. }
  destruct Hc as [-> Hc]. apply disjoint_writes_cons. split; [done|]. split.
  - apply Forall_forall. intros w Hw. left. simpl. by apply (contiguous_range (o + len d) ws w).
  - apply (IH (o + len d)); [len_facts; lia|done].
Qed.

(** ** Threads *)

(** Where a call of AddRecord stands: not started (or about to retry), with
    [offset_] loaded and the end computed, or with its range reserved and
    these writes still to do. *)
Inductive thread :=
  | TStart (slice : bytes)
  | TLoaded (slice : bytes) (start_offset end_offset : Z)
  | TWriting (ws : list write).

Record cstate := {
  c_offset : Z;
  c_file : bytes;
  c_threads : list thread;
  (** start and data of the reservations so far, in order *)
  c_log : list (Z * bytes);
}.

(** The writes AddRecord makes after reserving from [start]. *)
Definition writes_of (r : Z * bytes) : list write :=
  snd (emit_loop (emit_fuel (snd r)) true (snd r) (fst r) ([] : list write)).

Definition set_thread (s : cstate) (i : nat) (t : thread) : cstate :=
  {| c_offset := c_offset s; c_file := c_file s; c_threads := <[i := t]> (c_threads s);
     c_log := c_log s |}.

Inductive cstep (s : cstate) : cstate -> Prop :=
  | step_load i d :
      c_threads s !! i = Some (TStart d) ->
      cstep s (set_thread s i (TLoaded d (c_offset s) (reserve (c_offset s) (len d))))
  | step_cas_fail i d start end_ :
      c_threads s !! i = Some (TLoaded d start end_) -> c_offset s <> start ->
      cstep s (set_thread s i (TStart d))
  | step_cas i d start end_ :
      c_threads s !! i = Some (TLoaded d start end_) -> c_offset s = start ->
      cstep s {| c_offset := end_; c_file := c_file s;
                 c_threads := <[i := TWriting (writes_of (start, d))]> (c_threads s);
                 c_log := c_log s ++ [(start, d)] |}
  | step_write i o d ws :
      c_threads s !! i = Some (TWriting ((o, d) :: ws)) ->
      cstep s {| c_offset := c_offset s; c_file := write_at (c_file s) o d;
                 c_threads := <[i := TWriting ws]> (c_threads s); c_log := c_log s |}.

Definition cinit (records : list bytes) : cstate :=
  {| c_offset := 0; c_file := []; c_threads := map TStart records; c_log := [] |}.

(** Runs during which the log stays below 4 GiB. *)
Definition cstep_below (s s' : cstate) : Prop :=
  cstep s s' /\ c_offset s' < 2 ^ 32 - kHeaderSize.

Definition finished (t : thread) : Prop := t = TWriting [].

(** ** The invariant *)

Definition pending (t : thread) : list write := match t with TWriting ws => ws | _ => [] end.
Definition todo (t : thread) : list bytes :=
  match t with TStart d | TLoaded d _ _ => [d] | TWriting _ => [] end.
Definition loaded_ok (t : thread) : Prop :=
  match t with TLoaded d start end_ => end_ = reserve start (len d) | _ => True end.

(** The reservations follow each other from [o] to [e]. *)
Fixpoint chain (o : Z) (log : list (Z * bytes)) (e : Z) : Prop :=
  match log with
  | [] => o = e
  | (s, d) :: log =>
      s = o /\ 0 <= o < 2 ^ 32 - kHeaderSize /\ len d < 2 ^ 62 /\ chain (reserve o (len d)) log e
  end.

Record cinv (records : list bytes) (s : cstate) : Prop := {
  inv_chain : chain 0 (c_log s) (c_offset s);
  inv_below : 0 <= c_offset s < 2 ^ 32 - kHeaderSize;
  inv_loaded : Forall loaded_ok (c_threads s);
  inv_records : map snd (c_log s) ++ concat (map todo (c_threads s)) ≡ₚ records;
  inv_file : exists ws, c_file s = replay [] ws /\
    ws ++ concat (map pending (c_threads s)) ≡ₚ concat (map writes_of (c_log s));
}.

(** Replacing a thread moves its contribution. *)
Lemma concat_map_insert {A B} (g : A -> list B) (l : list A) i x y :
  l !! i = Some x -> g x ++ concat (map g (<[i := y]> l)) ≡ₚ g y ++ concat (map g l).
Proof.
  intros Hi. rewrite insert_take_drop by (by eapply lookup_lt_Some).
  rewrite <- (take_drop_middle l i x Hi) at 3.
  rewrite !map_app, !concat_app. cbn [map concat]. solve_Permutation.
Qed.

Lemma reserve_writes start d :
  0 <= start < 2 ^ 32 - kHeaderSize -> len d < 2 ^ 62 ->
  contiguous start (writes_of (start, d)) /\
  start + len (trace_data (writes_of (start, d))) <= reserve start (len d).
Proof.
  intros Hs Hd. unfold writes_of. simpl.
  destruct (emit_loop_trace (emit_fuel d) true d start []) as (ws & -> & Hc & Ht).
  simpl. split; [done|]. rewrite Ht. fold (record_image start d).
  rewrite record_image_end, reserve_spec by (len_facts; lia).
  unfold kHeaderSize. destruct (exact_fill start (len d)); lia.
Qed.

Lemma reserve_ge start (d : bytes) :
  0 <= start < 2 ^ 32 - kHeaderSize -> len d < 2 ^ 62 -> start <= reserve start (len d).
Proof. intros Hs Hd. destruct (reserve_writes start d Hs Hd). len_facts. lia. Qed.

Lemma chain_writes log : forall o e,
  chain o log e -> disjoint_writes (concat (map writes_of log)) /\
    Forall (fun w => o <= fst w) (concat (map writes_of log)).
Proof.
  induction log as [|[s d] log IH]; intros o e Hc.
  { repeat split; constructor. }
  destruct Hc as (-> & Ho & Hd & Hc). destruct (IH _ _ Hc) as [Hdis Hge]. cbn [map concat].
  destruct (reserve_writes o d Ho Hd) as [Hcon Hend].
  assert (forall w, w ∈ writes_of (o, d) -> o <= fst w /\ fst w + len (snd w) <= reserve o (len d)) as Hin.
  { intros w Hw. destruct (contiguous_range o _ w Hcon Hw). lia. }
  rewrite Forall_forall in Hge. split.
  - apply disjoint_writes_app; [by apply (contiguous_disjoint o); [lia|]|done|].
    intros w1 w2 Hw1 Hw2. left. destruct (Hin w1 Hw1). specialize (Hge w2 Hw2). simpl in *. lia.
  - apply Forall_app. split; apply Forall_forall; intros w Hw; [by apply Hin|].
    specialize (Hge w Hw). simpl in *. pose proof (reserve_ge o d Ho Hd). lia.
Qed.

Lemma chain_snoc log : forall o e d,
  chain o log e -> 0 <= e < 2 ^ 32 - kHeaderSize -> len d < 2 ^ 62 ->
  chain o (log ++ [(e, d)]) (reserve e (len d)).
Proof.
  induction log as [|[s d'] log IH]; intros o e d Hc He Hd; simpl in *.
  - subst. done.
  - destruct Hc as (-> & ? & ? & Hc). auto.
Qed.

Lemma AddRecord_replay (w : Writer bytes) d :
  AddRecord w d = (OK, {| dest_ := replay (dest_ w) (writes_of (offset_ w, d));
                          offset_ := reserve (offset_ w) (len d) |}).
Proof.
  unfold AddRecord, writes_of. cbn [fst snd].
  pose proof (emit_loop_replay (emit_fuel d) true d (offset_ w) (dest_ w) []) as E.
  change (replay (dest_ w) []) with (dest_ w) in E. by rewrite E.
Qed.

Lemma chain_AddRecords log : forall o e f,
  chain o log e ->
  AddRecords {| dest_ := f; offset_ := o |} (map snd log) =
    {| dest_ := replay f (concat (map writes_of log)); offset_ := e |}.
Proof.
  induction log as [|[s d] log IH]; intros o e f Hc; [by simpl in *; subst|].
  destruct Hc as (-> & ? & ? & Hc). cbn [map snd concat].
  change (AddRecords ?w (d :: ?ds)) with (AddRecords (snd (AddRecord w d)) ds).
  rewrite AddRecord_replay. cbn [snd]. simpl dest_. simpl offset_.
  by rewrite (IH _ _ _ Hc), replay_app.
Qed.

Lemma cinv_init records : Forall (fun d => len d < 2 ^ 62) records -> cinv records (cinit records).
Proof.
  intros _. split; simpl; try done.
  - apply Forall_forall. intros t Ht. apply list_elem_of_fmap in Ht as (d & -> & _). done.
  - rewrite map_map. simpl. clear. induction records as [|d ds IH]; simpl; [done|]. by rewrite IH.
  - exists []. split; [done|]. simpl. rewrite map_map. simpl.
    clear. induction records; simpl; done.
Qed.

Lemma cinv_step records s s' :
  Forall (fun d => len d < 2 ^ 62) records -> cinv records s -> cstep_below s s' -> cinv records s'.
Proof.
  intros Hrec [Hchain Hbelow Hloaded Hrecs (ws & Hfile & Hws)] [Hstep Hb].
  pose proof Hloaded as Hload'. rewrite Forall_forall in Hload'.
  destruct Hstep as [i d Hi|i d start end_ Hi Hne|i d start end_ Hi Heq|i o d ws' Hi];
    pose proof (fun y => concat_map_insert todo _ i _ y Hi) as Htodo;
    pose proof (fun y => concat_map_insert pending _ i _ y Hi) as Hpend; simpl in Hb |- *.
  - split; simpl; try done.
    + by apply Forall_insert.
    + specialize (Htodo (TLoaded d (c_offset s) (reserve (c_offset s) (len d)))).
      apply Permutation_app_inv_l in Htodo. by rewrite Htodo.
    + exists ws. split; [done|].
      by rewrite (Hpend (TLoaded d (c_offset s) (reserve (c_offset s) (len d)))).
  - split; simpl; try done.
    + by apply Forall_insert.
    + specialize (Htodo (TStart d)). apply Permutation_app_inv_l in Htodo. by rewrite Htodo.
    + exists ws. split; [done|]. by rewrite (Hpend (TStart d)).
  - subst start. pose proof (Hload' _ (list_elem_of_lookup_2 _ _ _ Hi)) as ->.
    assert (len d < 2 ^ 62) as Hd.
    { rewrite <- Hrecs, <- (Htodo (TWriting [])) in Hrec. simpl in Hrec.
      apply Forall_app in Hrec as [_ Hrec]. by apply Forall_cons in Hrec as [? _]. }
    split; simpl; try done.
    + by apply chain_snoc.
    + pose proof (reserve_ge (c_offset s) d Hbelow Hd). lia.
    + by apply Forall_insert.
    + specialize (Htodo (TWriting (writes_of (c_offset s, d)))). simpl in Htodo.
      rewrite map_app, <- app_assoc. simpl. by rewrite Htodo.
    + exists ws. split; [done|]. specialize (Hpend (TWriting (writes_of (c_offset s, d)))).
      simpl in Hpend. rewrite Hpend, map_app, concat_app. simpl. rewrite app_nil_r, <- Hws.
      solve_Permutation.
  - split; simpl; try done.
    + by apply Forall_insert.
    + by rewrite (Htodo (TWriting ws')).
    + exists (ws ++ [(o, d)]). rewrite replay_app, <- Hfile. split; [done|].
      rewrite <- Hws. specialize (Hpend (TWriting ws')). simpl in Hpend.
      apply (Permutation_app_inv_l ws').
      transitivity (ws ++ ((o, d) :: ws') ++ concat (map pending (<[i:=TWriting ws']> (c_threads s))));
        [solve_Permutation|]. simpl. rewrite Hpend. solve_Permutation.
Qed.

Lemma cinv_reachable records s :
  Forall (fun d => len d < 2 ^ 62) records -> rtc cstep_below (cinit records) s -> cinv records s.
Proof.
  intros Hrec Hr. assert (cinv records (cinit records)) as Hi by (by apply cinv_init).
  induction Hr as [|s1 s2 s3 Hs _ IH]; [done|]. apply IH. by eapply cinv_step.
Qed.

(** ** Claims *)

(** Concurrent AddRecord calls keep WriteAt's contract: in every reachable
    state of every interleaving (log below 4 GiB), the ranges written for all
    reservations made so far, by the same and by different calls, are pairwise
    disjoint, so each byte of the file is written at most once. *)
Theorem concurrent_writes_once (records : list bytes) (s : cstate)
    (Hrec : Forall (fun d => len d < 2 ^ 62) records)
    (Hr : rtc cstep_below (cinit records) s) :
  disjoint_writes (concat (map writes_of (c_log s))).
Proof.
  destruct (cinv_reachable records s Hrec Hr) as [Hc _ _ _ _].
  by destruct (chain_writes _ _ _ Hc).
Qed.

(** C23. AddRecord is linearizable at its compare-and-swap: when all concurrent
    calls have finished, the file and the offset are those of calling AddRecord
    one call at a time in the order of the successful compare-and-swaps, and
    that order contains each record exactly once, whatever the interleaving of
    loads, swaps, retries and writes.  The log stays below 4 GiB, records are
    shorter than 2^62 bytes and no WriteAt fails. *)
Theorem concurrent_log_linearizable (records : list bytes) (s : cstate)
    (Hrec : Forall (fun d => len d < 2 ^ 62) records)
    (Hr : rtc cstep_below (cinit records) s)
    (Hfin : Forall finished (c_threads s)) :
  map snd (c_log s) ≡ₚ records /\
  AddRecords new_writer (map snd (c_log s)) = {| dest_ := c_file s; offset_ := c_offset s |}.
Proof.
  destruct (cinv_reachable records s Hrec Hr) as [Hc _ _ Hrecs (ws & Hf & Hws)].
  assert (concat (map todo (c_threads s)) = [] /\ concat (map pending (c_threads s)) = []) as [Et Ep].
  { clear -Hfin. induction Hfin as [|t ts -> _ [IH1 IH2]]; [done|]. simpl. by rewrite IH1, IH2. }
  rewrite Et, app_nil_r in Hrecs. rewrite Ep, app_nil_r in Hws. split; [done|].
  unfold new_writer. rewrite (chain_AddRecords _ _ _ _ Hc), Hf. f_equal.
  symmetry. apply replay_perm; [done|]. eapply disjoint_writes_perm; [symmetry; exact Hws|].
  by destruct (chain_writes _ _ _ Hc).
Qed.

(** Threads that hold their reservations can always finish. *)
Lemma finish_thread pre ws post o f log :
  o < 2 ^ 32 - kHeaderSize ->
  rtc cstep_below
    {| c_offset := o; c_file := f; c_threads := pre ++ TWriting ws :: post; c_log := log |}
    {| c_offset := o; c_file := replay f ws; c_threads := pre ++ TWriting [] :: post; c_log := log |}.
Proof.
  intros Ho. revert f. induction ws as [|[o1 d] ws IH]; intros f; [reflexivity|].
  eapply rtc_l; [|apply IH]. split; [|done].
  pose proof (step_write
    {| c_offset := o; c_file := f; c_threads := pre ++ TWriting ((o1, d) :: ws) :: post; c_log := log |}
    (length pre) o1 d ws) as Hstep.
  simpl in Hstep. rewrite insert_app_r_alt, Nat.sub_diag in Hstep by lia. apply Hstep.
  by rewrite lookup_app_r, Nat.sub_diag by lia.
Qed.

Lemma finish_threads pending_ : forall pre o f log,
  o < 2 ^ 32 - kHeaderSize ->
  exists file, rtc cstep_below
    {| c_offset := o; c_file := f; c_threads := pre ++ map TWriting pending_; c_log := log |}
    {| c_offset := o; c_file := file;
       c_threads := pre ++ map (fun _ => TWriting []) pending_; c_log := log |}.
Proof.
  induction pending_ as [|ws pending_ IH]; intros pre o f log Ho; [by exists f|]. cbn [map].
  destruct (IH (pre ++ [TWriting []]) o (replay f ws) log Ho) as [file Hrun].
  exists file. etransitivity; [by apply finish_thread|].
  by rewrite <- !app_assoc in Hrun.
Qed.

(** Two calls, the second losing the first race for the offset. *)
Definition race_records : list bytes := [[Byte.x61]; [Byte.x62]].
Definition race_end (file : bytes) : cstate :=
  {| c_offset := 16; c_file := file; c_threads := [TWriting []; TWriting []];
     c_log := [(0, [Byte.x61]); (8, [Byte.x62])] |}.

Lemma race_run : exists file, rtc cstep_below (cinit race_records) (race_end file).
Proof.
  destruct (finish_threads [writes_of (0, [Byte.x61]); writes_of (8, [Byte.x62])] [] 16 []
    [(0, [Byte.x61]); (8, [Byte.x62])]) as [file Hfin]; [reflexivity|].
  exists file. unfold cinit, race_records. cbn [map].
  eapply rtc_l; [split; [apply (step_load _ 0 [Byte.x61]); reflexivity|reflexivity]|].
  eapply rtc_l; [split; [apply (step_load _ 1 [Byte.x62]); reflexivity|reflexivity]|].
  eapply rtc_l; [split; [eapply (step_cas _ 0 [Byte.x61]); reflexivity|reflexivity]|].
  eapply rtc_l; [split; [eapply (step_cas_fail _ 1 [Byte.x62]); [reflexivity|discriminate]|reflexivity]|].
  eapply rtc_l; [split; [apply (step_load _ 1 [Byte.x62]); reflexivity|reflexivity]|].
  eapply rtc_l; [split; [eapply (step_cas _ 1 [Byte.x62]); reflexivity|reflexivity]|].
  exact Hfin.
Qed.

Lemma concurrent_writes_once_witness :
  disjoint_writes (writes_of (0, [Byte.x61]) ++ writes_of (8, [Byte.x62])).
Proof.
  destruct race_run as [file Hrun]. rewrite <- (app_nil_r (writes_of (8, [Byte.x62]))).
  refine (concurrent_writes_once race_records (race_end file) _ Hrun).
  repeat constructor.
Defined.

Lemma concurrent_log_linearizable_witness :
  exists file, rtc cstep_below (cinit race_records) (race_end file) /\
    AddRecords new_writer race_records = {| dest_ := file; offset_ := 16 |}.
Proof.
  destruct race_run as [file Hrun]. exists file. split; [exact Hrun|].
  refine (proj2 (concurrent_log_linearizable race_records (race_end file) _ Hrun _)); repeat constructor.
Defined.
