(* ===== verification/Hash.v ===== *)
(** * Hash functions (util/hash.cc, db/murmurhash3.cc)

    [Hash] places keys in bloom filters and cache shards; MurmurHash3 chooses
    the keys that become guards. *)

From Stdlib Require Import ZArith Lia Bool.
From stdpp Require Import base list.
From S2P Require Import Prelude Coding.

Set Default Goal Selector "!".
Local Open Scope Z_scope.

(** ** util/hash.cc *)

Definition hash_m : Z := 0xc6a4a793.
Definition hash_r : Z := 24.

Definition hash_step (h w : Z) : Z :=
  let h := u32 (h + w) in
  let h := u32 (h * hash_m) in
  Z.lxor h (Z.shiftr h 16).

(** The four-byte loop and the fall-through switch over the remaining bytes;
    those are [char]s, so they are sign-extended before they are added. *)
Fixpoint Hash_loop (h : Z) (data : bytes) : Z :=
  match data with
  | b0 :: b1 :: b2 :: b3 :: data => Hash_loop (hash_step h (DecodeFixed32 [b0; b1; b2; b3])) data
  | [] => h
  | b0 :: tl =>
      let h := match tl with
        | [b1; b2] => u32 (u32 (h + Z.shiftl (schar b2) 16) + Z.shiftl (schar b1) 8)
        | [b1] => u32 (h + Z.shiftl (schar b1) 8)
        | _ => h
        end in
      let h := u32 (h + schar b0) in
      let h := u32 (h * hash_m) in
      Z.lxor h (Z.shiftr h hash_r)
  end.

Definition Hash (data : bytes) (seed : Z) : Z :=
  Hash_loop (Z.lxor seed (u32 (len data * hash_m))) data.

Lemma xorshift_range h n : 0 <= n -> 0 <= h < 2 ^ 32 -> 0 <= Z.lxor h (Z.shiftr h n) < 2 ^ 32.
Proof.
  intros Hn Hh. apply lxor_range; [lia|done|]. rewrite Z.shiftr_div_pow2 by lia.
  pose proof (Z.pow_pos_nonneg 2 n). split; [apply Z.div_pos; lia|].
  apply Z.div_lt_upper_bound; nia.
Qed.

Lemma Hash_loop_range n : forall h data,
  (length data <= n)%nat -> 0 <= h < 2 ^ 32 -> 0 <= Hash_loop h data < 2 ^ 32.
Proof.
  induction n as [|n IH]; intros h data Hn Hh.
  { destruct data; [done|simpl in *; lia]. }
  destruct data as [|b0 [|b1 [|b2 [|b3 data]]]]; cbn [Hash_loop]; [done| | | |].
  1-3: apply xorshift_range; [done|apply u32_range].
  apply IH; [simpl in *; lia|]. apply xorshift_range; [done|apply u32_range].
Qed.

Lemma Hash_range data seed : 0 <= seed < 2 ^ 32 -> 0 <= Hash data seed < 2 ^ 32.
Proof.
  intros Hs. apply (Hash_loop_range (length data)); [done|].
  apply lxor_range; [lia|done|apply u32_range].
Qed.

(** ** db/murmurhash3.cc *)

Definition rotl32 (x r : Z) : Z := Z.lor (u32 (Z.shiftl x r)) (Z.shiftr x (32 - r)).

Definition fmix32 (h : Z) : Z :=
  let h := Z.lxor h (Z.shiftr h 16) in
  let h := u32 (h * 0x85ebca6b) in
  let h := Z.lxor h (Z.shiftr h 13) in
  let h := u32 (h * 0xc2b2ae35) in
  Z.lxor h (Z.shiftr h 16).

Definition murmur_c1 : Z := 0xcc9e2d51.
Definition murmur_c2 : Z := 0x1b873593.

Definition murmur_scramble (k1 : Z) : Z :=
  u32 (rotl32 (u32 (k1 * murmur_c1)) 15 * murmur_c2).

(** Body and tail; the blocks are read as native (little-endian) words. *)
Fixpoint murmur_loop (h1 : Z) (data : bytes) : Z :=
  match data with
  | b0 :: b1 :: b2 :: b3 :: data =>
      let h1 := Z.lxor h1 (murmur_scramble (le_combine [b0; b1; b2; b3])) in
      murmur_loop (u32 (rotl32 h1 13 * 5 + 0xe6546b64)) data
  | [] => h1
  | b0 :: tl =>
      let k1 := match tl with
        | [b1; b2] => Z.lxor (Z.shiftl (b2z b2) 16) (Z.shiftl (b2z b1) 8)
        | [b1] => Z.shiftl (b2z b1) 8
        | _ => 0
        end in
      Z.lxor h1 (murmur_scramble (Z.lxor k1 (b2z b0)))
  end.

Definition MurmurHash3_x86_32 (key : bytes) (seed : Z) : Z :=
  fmix32 (Z.lxor (murmur_loop seed key) (u32 (len key))).

(** Published test vectors of MurmurHash3_x86_32. *)
Example murmur_vectors :
  MurmurHash3_x86_32 [] 1 = 0x514E28B7 /\
  MurmurHash3_x86_32 [Byte.x21; Byte.x43; Byte.x65; Byte.x87] 0 = 0xF55B516B /\
  MurmurHash3_x86_32 [Byte.x21; Byte.x43; Byte.x65] 0 = 0x7E4A8634.
Proof. vm_compute. repeat split. Qed.
