(* ===== verification/Cache.v ===== *)
(** * The LRU cache (util/cache.cc, include/pebblesdb/cache.h)

    The entries are nodes of a heap, linked in a ring in the order of their last
    use and in the chains of a hash table.  A pointer is an address of the heap;
    reading or writing a node that was freed, a failed assert and a loop without
    end are [None].  The calls of the deleter are kept as a list. *)

From Stdlib Require Import ZArith Lia Bool.
From stdpp Require Import base list gmap.
From S2P Require Import Prelude Comparator Hash.

Set Default Goal Selector "!".
Local Open Scope Z_scope.

Section Cache.
Context {V : Type}.

Notation Ptr := nat.

(** The dummy head of the ring has no value. *)
Record LRUHandle := {
  lh_value : option V;
  lh_next_hash : option Ptr;
  lh_next : Ptr;
  lh_prev : Ptr;
  lh_charge : Z;
  lh_key_data : bytes;
  lh_refs : Z;
  lh_hash : Z;
}.

Notation Heap := (gmap Ptr LRUHandle).

Definition with_next (h : LRUHandle) (next : Ptr) : LRUHandle :=
  {| lh_value := lh_value h; lh_next_hash := lh_next_hash h; lh_next := next; lh_prev := lh_prev h; lh_charge := lh_charge h;
     lh_key_data := lh_key_data h; lh_refs := lh_refs h; lh_hash := lh_hash h |}.

Definition with_prev (h : LRUHandle) (prev : Ptr) : LRUHandle :=
  {| lh_value := lh_value h; lh_next_hash := lh_next_hash h; lh_next := lh_next h; lh_prev := prev; lh_charge := lh_charge h;
     lh_key_data := lh_key_data h; lh_refs := lh_refs h; lh_hash := lh_hash h |}.

Definition with_next_hash (h : LRUHandle) (next_hash : option Ptr) : LRUHandle :=
  {| lh_value := lh_value h; lh_next_hash := next_hash; lh_next := lh_next h; lh_prev := lh_prev h; lh_charge := lh_charge h;
     lh_key_data := lh_key_data h; lh_refs := lh_refs h; lh_hash := lh_hash h |}.

Definition with_refs (h : LRUHandle) (refs : Z) : LRUHandle :=
  {| lh_value := lh_value h; lh_next_hash := lh_next_hash h; lh_next := lh_next h; lh_prev := lh_prev h; lh_charge := lh_charge h;
     lh_key_data := lh_key_data h; lh_refs := refs; lh_hash := lh_hash h |}.

(** A write to a field of the node at [p]. *)
Definition store (heap : Heap) (p : Ptr) (f : LRUHandle -> LRUHandle) : option Heap :=
  h ← heap !! p; Some (<[p := f h]> heap).

(** LRUHandle::key; a node that is its own successor keeps a pointer to its key
    in [value], which no node of a cache does. *)
Definition handle_key (heap : Heap) (p : Ptr) : option bytes :=
  h ← heap !! p; if decide (lh_next h = p) then None else Some (lh_key_data h).

(** ** The hash table *)
Record HandleTable := {
  length_ : Z;
  elems_ : Z;
  list_ : list (option Ptr);
}.

(** LRUHandle**: a place that holds the head or a link of a chain. *)
Inductive Slot := Bucket (i : Z) | NextHash (p : Ptr).

Definition read_slot (heap : Heap) (t : HandleTable) (s : Slot) : option (option Ptr) :=
  match s with
  | Bucket i => list_ t !! Z.to_nat i
  | NextHash p => h ← heap !! p; Some (lh_next_hash h)
  end.

Definition write_slot (heap : Heap) (t : HandleTable) (s : Slot) (v : option Ptr) : option (Heap * HandleTable) :=
  match s with
  | Bucket i =>
      if i <? length_ t then Some (heap, {| length_ := length_ t; elems_ := elems_ t; list_ := <[Z.to_nat i := v]> (list_ t) |}) else None
  | NextHash p => heap ← store heap p (fun h => with_next_hash h v); Some (heap, t)
  end.

Fixpoint find_loop (fuel : nat) (heap : Heap) (t : HandleTable) (key : bytes) (hash : Z) (ptr : Slot) : option Slot :=
  match fuel with
  | O => None
  | S fuel =>
      p ← read_slot heap t ptr;
      match p with
      | None => Some ptr
      | Some p =>
          h ← heap !! p;
          if lh_hash h =? hash then
            k ← handle_key heap p;
            if Slice_eqb key k then Some ptr else find_loop fuel heap t key hash (NextHash p)
          else find_loop fuel heap t key hash (NextHash p)
      end
  end.

Definition FindPointer (heap : Heap) (t : HandleTable) (key : bytes) (hash : Z) : option Slot :=
  find_loop (S (size heap)) heap t key hash (Bucket (Z.land hash (length_ t - 1))).

(** while (new_length < elems_) new_length *= 2 *)
Fixpoint grow (fuel : nat) (new_length elems : Z) : option Z :=
  match fuel with
  | O => None
  | S fuel => if new_length <? elems then grow fuel (u32 (new_length * 2)) elems else Some new_length
  end.

(** Moves the chain that starts at [h] to the new list. *)
Fixpoint move_chain (fuel : nat) (heap : Heap) (new_length : Z) (new_list : list (option Ptr)) (count : Z) (h : option Ptr)
    : option (Heap * list (option Ptr) * Z) :=
  match fuel, h with
  | _, None => Some (heap, new_list, count)
  | O, Some _ => None
  | S fuel, Some p =>
      node ← heap !! p;
      let next := lh_next_hash node in
      let i := Z.to_nat (Z.land (lh_hash node) (new_length - 1)) in
      old ← new_list !! i;
      heap ← store heap p (fun h => with_next_hash h old);
      move_chain fuel heap new_length (<[i := Some p]> new_list) (u32 (count + 1)) next
  end.

Fixpoint move_chains (heap : Heap) (new_length : Z) (new_list : list (option Ptr)) (count : Z) (lists : list (option Ptr))
    : option (Heap * list (option Ptr) * Z) :=
  match lists with
  | [] => Some (heap, new_list, count)
  | h :: lists =>
      '(heap, new_list, count) ← move_chain (size heap) heap new_length new_list count h;
      move_chains heap new_length new_list count lists
  end.

Definition Resize (heap : Heap) (t : HandleTable) : option (Heap * HandleTable) :=
  new_length ← grow 33 4 (elems_ t);
  '(heap, new_list, count) ← move_chains heap new_length (replicate (Z.to_nat new_length) None) 0 (list_ t);
  if elems_ t =? count then Some (heap, {| length_ := new_length; elems_ := elems_ t; list_ := new_list |}) else None.

Definition new_HandleTable : HandleTable := {| length_ := 4; elems_ := 0; list_ := replicate 4 None |}.

Definition table_Lookup (heap : Heap) (t : HandleTable) (key : bytes) (hash : Z) : option (option Ptr) :=
  ptr ← FindPointer heap t key hash; read_slot heap t ptr.

Definition table_Insert (heap : Heap) (t : HandleTable) (h : Ptr) : option (Heap * HandleTable * option Ptr) :=
  key ← handle_key heap h;
  node ← heap !! h;
  ptr ← FindPointer heap t key (lh_hash node);
  old ← read_slot heap t ptr;
  next ← match old with None => Some None | Some o => read_slot heap t (NextHash o) end;
  heap ← store heap h (fun n => with_next_hash n next);
  '(heap, t) ← write_slot heap t ptr (Some h);
  match old with
  | None =>
      let t := {| length_ := length_ t; elems_ := u32 (elems_ t + 1); list_ := list_ t |} in
      '(heap, t) ← (if length_ t <? elems_ t then Resize heap t else Some (heap, t));
      Some (heap, t, old)
  | Some _ => Some (heap, t, old)
  end.

Definition table_Remove (heap : Heap) (t : HandleTable) (key : bytes) (hash : Z) : option (Heap * HandleTable * option Ptr) :=
  ptr ← FindPointer heap t key hash;
  result ← read_slot heap t ptr;
  match result with
  | Some r =>
      next ← read_slot heap t (NextHash r);
      '(heap, t) ← write_slot heap t ptr next;
      Some (heap, {| length_ := length_ t; elems_ := u32 (elems_ t - 1); list_ := list_ t |}, result)
  | None => Some (heap, t, result)
  end.

(** ** A shard *)
Definition lru_ : Ptr := 0%nat.

Record LRUCache := {
  capacity_ : Z;
  usage_ : Z;
  heap_ : Heap;
  table_ : HandleTable;
  deleted_ : list (bytes * option V);     (** the calls of the deleter *)
}.

Definition with_heap (c : LRUCache) (heap : Heap) : LRUCache :=
  {| capacity_ := capacity_ c; usage_ := usage_ c; heap_ := heap; table_ := table_ c; deleted_ := deleted_ c |}.

Definition with_table (c : LRUCache) (heap : Heap) (t : HandleTable) : LRUCache :=
  {| capacity_ := capacity_ c; usage_ := usage_ c; heap_ := heap; table_ := t; deleted_ := deleted_ c |}.

Definition new_LRUCache (capacity : Z) : LRUCache := {|
  capacity_ := capacity; usage_ := 0;
  heap_ := {[ lru_ := {| lh_value := None; lh_next_hash := None; lh_next := lru_; lh_prev := lru_; lh_charge := 0; lh_key_data := []; lh_refs := 0;
                         lh_hash := 0 |} ]};
  table_ := new_HandleTable; deleted_ := [] |}.

Definition LRU_Remove (heap : Heap) (e : Ptr) : option Heap :=
  h ← heap !! e;
  heap ← store heap (lh_next h) (fun n => with_prev n (lh_prev h));
  h ← heap !! e;
  store heap (lh_prev h) (fun n => with_next n (lh_next h)).

Definition LRU_Append (heap : Heap) (e : Ptr) : option Heap :=
  heap ← store heap e (fun n => with_next n lru_);
  l ← heap !! lru_;
  heap ← store heap e (fun n => with_prev n (lh_prev l));
  h ← heap !! e;
  heap ← store heap (lh_prev h) (fun n => with_next n e);
  h ← heap !! e;
  store heap (lh_next h) (fun n => with_prev n e).

Definition Unref (c : LRUCache) (e : Ptr) : option LRUCache :=
  h ← heap_ c !! e;
  if lh_refs h <=? 0 then None
  else
    let refs := lh_refs h - 1 in
    if refs <=? 0 then
      key ← handle_key (heap_ c) e;
      Some {| capacity_ := capacity_ c; usage_ := u64 (usage_ c - lh_charge h); heap_ := delete e (heap_ c); table_ := table_ c;
              deleted_ := deleted_ c ++ [(key, lh_value h)] |}
    else Some (with_heap c (<[e := with_refs h refs]> (heap_ c))).

Definition Lookup (c : LRUCache) (key : bytes) (hash : Z) : option (LRUCache * option Ptr) :=
  e ← table_Lookup (heap_ c) (table_ c) key hash;
  match e with
  | Some p =>
      heap ← store (heap_ c) p (fun h => with_refs h (u32 (lh_refs h + 1)));
      heap ← LRU_Remove heap p;
      heap ← LRU_Append heap p;
      Some (with_heap c heap, e)
  | None => Some (c, e)
  end.

Definition Release (c : LRUCache) (handle : Ptr) : option LRUCache := Unref c handle.

(** while (usage_ > capacity_ && lru_.next != &lru_) *)
Fixpoint evict_loop (fuel : nat) (c : LRUCache) : option LRUCache :=
  match fuel with
  | O => None
  | S fuel =>
      l ← heap_ c !! lru_;
      if (capacity_ c <? usage_ c) && negb (lh_next l =? lru_)%nat then
        let old := lh_next l in
        heap ← LRU_Remove (heap_ c) old;
        key ← handle_key heap old;
        h ← heap !! old;
        '(heap, t, _) ← table_Remove heap (table_ c) key (lh_hash h);
        c ← Unref (with_table c heap t) old;
        evict_loop fuel c
      else Some c
  end.

(** [e] is what malloc returns. *)
Definition Insert (c : LRUCache) (e : Ptr) (key : bytes) (hash : Z) (value : V) (charge : Z) : option (LRUCache * Ptr) :=
  let heap := <[e := {| lh_value := Some value; lh_next_hash := None; lh_next := lru_; lh_prev := lru_; lh_charge := charge; lh_key_data := key;
                        lh_refs := 2; lh_hash := hash |}]> (heap_ c) in
  heap ← LRU_Append heap e;
  let c := {| capacity_ := capacity_ c; usage_ := u64 (usage_ c + charge); heap_ := heap; table_ := table_ c; deleted_ := deleted_ c |} in
  '(heap, t, old) ← table_Insert (heap_ c) (table_ c) e;
  let c := with_table c heap t in
  c ← match old with
      | Some old => heap ← LRU_Remove (heap_ c) old; Unref (with_heap c heap) old
      | None => Some c
      end;
  c ← evict_loop (S (size (heap_ c))) c;
  Some (c, e).

Definition Erase (c : LRUCache) (key : bytes) (hash : Z) : option LRUCache :=
  '(heap, t, e) ← table_Remove (heap_ c) (table_ c) key hash;
  let c := with_table c heap t in
  match e with
  | Some p => heap ← LRU_Remove (heap_ c) p; Unref (with_heap c heap) p
  | None => Some c
  end.

(** ~LRUCache *)
Fixpoint destroy_loop (fuel : nat) (c : LRUCache) (e : Ptr) : option LRUCache :=
  if (e =? lru_)%nat then Some c
  else
    match fuel with
    | O => None
    | S fuel =>
        h ← heap_ c !! e;
        if lh_refs h =? 1 then c' ← Unref c e; destroy_loop fuel c' (lh_next h) else None
    end.

Definition destroy (c : LRUCache) : option LRUCache :=
  l ← heap_ c !! lru_; destroy_loop (size (heap_ c)) c (lh_next l).

(** ** The sharded cache *)
Definition kNumShardBits : Z := 4.
Definition kNumShards : Z := 2 ^ kNumShardBits.

Record ShardedLRUCache := { shard_ : list LRUCache; last_id_ : Z }.

Definition HashSlice (s : bytes) : Z := Hash s 0.
Definition Shard (hash : Z) : Z := Z.shiftr hash (32 - kNumShardBits).

Definition NewLRUCache (capacity : Z) : ShardedLRUCache :=
  let per_shard := u64 (capacity + (kNumShards - 1)) / kNumShards in
  {| shard_ := replicate (Z.to_nat kNumShards) (new_LRUCache per_shard); last_id_ := 0 |}.

Definition on_shard {A} (c : ShardedLRUCache) (hash : Z) (f : LRUCache -> option (LRUCache * A)) : option (ShardedLRUCache * A) :=
  let i := Z.to_nat (Shard hash) in
  s ← shard_ c !! i;
  '(s, r) ← f s;
  Some ({| shard_ := <[i := s]> (shard_ c); last_id_ := last_id_ c |}, r).

Definition cache_Insert (c : ShardedLRUCache) (e : Ptr) (key : bytes) (value : V) (charge : Z) : option (ShardedLRUCache * Ptr) :=
  let hash := HashSlice key in on_shard c hash (fun s => Insert s e key hash value charge).

Definition cache_Lookup (c : ShardedLRUCache) (key : bytes) : option (ShardedLRUCache * option Ptr) :=
  let hash := HashSlice key in on_shard c hash (fun s => Lookup s key hash).

(** The node a handle points to: malloc gives the nodes of all shards distinct
    addresses. *)
Definition cache_node (c : ShardedLRUCache) (handle : Ptr) : option LRUHandle :=
  foldr (fun s r => match heap_ s !! handle with Some h => Some h | None => r end) None (shard_ c).

Definition cache_Release (c : ShardedLRUCache) (handle : Ptr) : option ShardedLRUCache :=
  h ← cache_node c handle;
  '(c, _) ← on_shard c (lh_hash h) (fun s => s ← Release s handle; Some (s, tt));
  Some c.

Definition cache_Erase (c : ShardedLRUCache) (key : bytes) : option ShardedLRUCache :=
  let hash := HashSlice key in
  '(c, _) ← on_shard c hash (fun s => s ← Erase s key hash; Some (s, tt));
  Some c.

Definition cache_Value (c : ShardedLRUCache) (handle : Ptr) : option V := h ← cache_node c handle; lh_value h.

Definition NewId (c : ShardedLRUCache) : ShardedLRUCache * Z :=
  let id := u64 (last_id_ c + 1) in ({| shard_ := shard_ c; last_id_ := id |}, id).
End Cache.
