(* ===== verification/CacheSpec.v ===== *)
(** * What the LRU cache does (util/cache.cc)

    The cache of Cache.v refines a list: the entries in the order of their last
    use, the entries that left the cache but are still held by a handle, the
    handles, and the calls of the deleter. *)

From Stdlib Require Import ZArith Lia Bool.
From stdpp Require Import base list gmap.
From S2P Require Import Prelude Comparator Hash Cache.

Set Default Goal Selector "!".
Local Open Scope Z_scope.

(** ** Rings and chains *)

(** From [a] along [N] through [l] to [b], and back along [P]. *)
Fixpoint seg (N P : nat -> option nat) (a : nat) (l : list nat) (b : nat) : Prop :=
  match l with
  | [] => N a = Some b /\ P b = Some a
  | x :: l => N a = Some x /\ P x = Some a /\ seg N P x l b
  end.

Fixpoint chain (NH : nat -> option (option nat)) (s : option nat) (l : list nat) : Prop :=
  match l with
  | [] => s = None
  | x :: l => s = Some x /\ exists s', NH x = Some s' /\ chain NH s' l
  end.

Lemma dseg_frame N P N' P' l : forall a b, seg N P a l b -> (forall x, x ∈ a :: l -> N' x = N x) -> (forall x, x ∈ l ++ [b] -> P' x = P x) -> seg N' P' a l b.
Proof.
  induction l as [|x l IH]; intros a b; cbn [seg].
  - intros [Ha Hb] HN HP. rewrite HN, HP by (left || (apply elem_of_app; right; left)). done.
  - intros (Ha & Hx & Hs) HN HP. rewrite HN by left. rewrite HP by left. split; [done|]. split; [done|].
    apply IH; [done|intros y Hy; apply HN; by right|intros y Hy; apply HP; by right].
Qed.

Lemma seg_around N P l1 e l2 : forall a b, seg N P a (l1 ++ e :: l2) b ->
  exists p n, P e = Some p /\ N e = Some n /\ p ∈ a :: l1 /\ n ∈ l2 ++ [b].
Proof.
  induction l1 as [|x l1 IH]; intros a b; cbn [seg app].
  - intros (Ha & He & Hs). exists a, (hd b l2). split; [done|].
    destruct l2 as [|y l2]; cbn [seg hd] in *; destruct Hs as (Hn & _); (split; [done|]); split; left.
  - intros (Ha & Hx & Hs). destruct (IH x b Hs) as (p & n & Hp & Hn & Hi & Hj). exists p, n. do 2 (split; [done|]). split; [by right|done].
Qed.

(** Taking a node out of a ring: its neighbours are linked to each other. *)
Lemma seg_cut N P e p n l1 l2 : forall a b, seg N P a (l1 ++ e :: l2) b -> P e = Some p -> N e = Some n ->
  NoDup (a :: l1 ++ e :: l2) -> NoDup ((l1 ++ e :: l2) ++ [b]) ->
  seg (fun x => if decide (x = p) then Some n else N x) (fun x => if decide (x = n) then Some p else P x) a (l1 ++ l2) b.
Proof.
  induction l1 as [|x l1 IH]; intros a b Hs Hp Hn Ha Hb; cbn [app] in *.
  - destruct Hs as (H1 & H2 & Hs). assert (p = a) as -> by congruence. apply NoDup_cons in Ha as [Ha Hnd].
    destruct l2 as [|y l2]; cbn [seg] in *.
    + destruct Hs as (H3 & H4). assert (n = b) as -> by congruence. by rewrite !decide_True by done.
    + destruct Hs as (H3 & H4 & Hs). assert (n = y) as -> by congruence. rewrite !decide_True by done. split; [done|]. split; [done|].
      cbn [app] in Hb. apply NoDup_cons in Hb as [Hb1 Hb]. apply NoDup_cons in Hb as [Hb2 Hb].
      apply (dseg_frame _ _ _ _ _ _ _ Hs); intros z Hz; rewrite decide_False; [done| |done|].
      * intros ->. apply Ha. by right.
      * intros ->. done.
  - pose proof Hs as Hs0. destruct Hs as (H1 & H2 & Hs). cbn [seg]. pose proof (NoDup_cons_1_1 _ _ Ha) as Ha1. pose proof (NoDup_cons_1_2 _ _ Ha) as Ha2.
    cbn [app] in Hb. pose proof (NoDup_cons_1_1 _ _ Hb) as Hb1. pose proof (NoDup_cons_1_2 _ _ Hb) as Hb2.
    destruct (seg_around N P l1 e l2 x b Hs) as (p' & n' & Hp' & Hn' & Hpi & Hni). simplify_eq.
    rewrite (decide_False (P := a = p)). 2:{ intros ->. apply Ha1. rewrite app_comm_cons. apply elem_of_app. by left. }
    rewrite (decide_False (P := x = n)). 2:{ intros ->. apply Hb1. rewrite <- app_assoc. apply elem_of_app. right. by right. }
    split; [done|]. split; [done|]. by apply IH.
Qed.

Lemma seg_snoc N P e l : forall a b, seg N P a l b -> NoDup (a :: l ++ [e]) -> NoDup (e :: l ++ [b]) ->
  exists p, P b = Some p /\ p ∈ a :: l /\
  seg (fun x => if decide (x = p) then Some e else if decide (x = e) then Some b else N x)
      (fun x => if decide (x = b) then Some e else if decide (x = e) then Some p else P x) a (l ++ [e]) b.
Proof.
  induction l as [|x l IH]; intros a b Hs Ha Hb; cbn [app seg] in *.
  - destruct Hs as [H1 H2]. exists a. split; [done|]. split; [left|]. apply NoDup_cons in Ha as [Ha _]. apply NoDup_cons in Hb as [Hb _].
    assert (e <> a) by (intros ->; apply Ha; left). assert (e <> b) by (intros ->; apply Hb; left).
    rewrite !(decide_True (P := a = a)), !(decide_True (P := b = b)), !(decide_True (P := e = e)) by done.
    by rewrite (decide_False (P := e = a)), (decide_False (P := e = b)) by done.
  - destruct Hs as (H1 & H2 & Hs). apply NoDup_cons in Ha as [Ha1 Ha2]. apply NoDup_cons in Hb as [Hb1 Hb2].
    apply NoDup_cons in Hb2 as [Hb2 Hb3].
    destruct (IH x b Hs Ha2) as (p & Hp & Hpi & Hseg). { constructor; [|done]. intros Hi. apply Hb1. by right. }
    exists p. split; [done|]. split; [by right|].
    assert (x <> e) by (intros ->; apply Hb1; left). assert (a <> e) by (intros ->; apply Ha1; right; apply elem_of_app; right; left).
    rewrite (decide_False (P := a = p)). 2:{ intros ->. apply Ha1. apply elem_of_cons in Hpi as [->|?]; [left|right; apply elem_of_app; by left]. }
    rewrite (decide_False (P := a = e)) by done.
    rewrite (decide_False (P := x = b)) by (intros ->; apply Hb2, elem_of_app; right; left). rewrite (decide_False (P := x = e)) by done. done.
Qed.

Lemma chain_frame NH NH' l : forall s, chain NH s l -> (forall x, x ∈ l -> NH' x = NH x) -> chain NH' s l.
Proof.
  induction l as [|x l IH]; intros s; cbn [chain]; [done|]. intros (-> & s' & E & Hc) HN. split; [done|]. exists s'. split; [rewrite HN by left; done|].
  apply IH; [done|]. intros y Hy. apply HN. by right.
Qed.
(** ** Views of the heap *)
Section Refinement.
Context {V : Type}.
Notation Heap := (gmap nat (@LRUHandle V)).

Definition Nx (heap : Heap) (p : nat) : option nat := lh_next <$> heap !! p.
Definition Pv (heap : Heap) (p : nat) : option nat := lh_prev <$> heap !! p.
Definition NH (heap : Heap) (p : nat) : option (option nat) := lh_next_hash <$> heap !! p.
Definition Pay (heap : Heap) (p : nat) := (fun h => (lh_value h, lh_charge h, lh_key_data h, lh_hash h, lh_refs h)) <$> heap !! p.

Definition ring (heap : Heap) (l : list nat) : Prop := seg (Nx heap) (Pv heap) lru_ l lru_ /\ NoDup (lru_ :: l).

(** Only links of the ring differ. *)
Definition relinked (heap heap' : Heap) : Prop := (forall p, NH heap' p = NH heap p) /\ (forall p, Pay heap' p = Pay heap p).

Lemma node_of_view {A} (f : LRUHandle -> A) (heap : Heap) p a : f <$> heap !! p = Some a -> exists h, heap !! p = Some h /\ f h = a.
Proof. destruct (heap !! p) as [h|]; [|done]. intros [= <-]. by exists h. Qed.

Lemma seg_dom N P l : forall a b, seg N P a l b -> (forall x, x ∈ a :: l -> is_Some (N x)) /\ (forall x, x ∈ l ++ [b] -> is_Some (P x)).
Proof.
  induction l as [|x l IH]; intros a b; cbn [seg app].
  - intros [Ha Hb]. split; intros x Hx%list_elem_of_singleton; subst; by eexists.
  - intros (Ha & Hx & Hs). destruct (IH _ _ Hs) as [I1 I2]. split; intros y [->|Hy]%elem_of_cons; eauto.
Qed.

Lemma ring_rot l : NoDup (lru_ :: l) -> NoDup (l ++ [lru_]).
Proof. intros H. by rewrite <- Permutation_cons_append. Qed.

Ltac view := unfold Nx, Pv, NH, Pay; rewrite ?lookup_insert; repeat case_decide; simplify_eq/=; simplify_map_eq/=; try done.

Lemma relinked_trans h1 h2 h3 : relinked h1 h2 -> relinked h2 h3 -> relinked h1 h3.
Proof. intros [A1 A2] [B1 B2]. split; intros p; congruence. Qed.

Lemma store_next (heap : Heap) p n : is_Some (heap !! p) -> exists heap', store heap p (fun h => with_next h n) = Some heap' /\ (forall x, Nx heap' x = if decide (x = p) then Some n else Nx heap x) /\ (forall x, Pv heap' x = Pv heap x) /\ relinked heap heap'.
Proof.
  intros [h Hh]. unfold store. rewrite Hh. cbn [mbind option_bind]. eexists. split; [done|].
  split; [|split; [|split]]; intros x; view.
Qed.

Lemma store_prev (heap : Heap) p n : is_Some (heap !! p) -> exists heap', store heap p (fun h => with_prev h n) = Some heap' /\ (forall x, Nx heap' x = Nx heap x) /\ (forall x, Pv heap' x = if decide (x = p) then Some n else Pv heap x) /\ relinked heap heap'.
Proof.
  intros [h Hh]. unfold store. rewrite Hh. cbn [mbind option_bind]. eexists. split; [done|].
  split; [|split; [|split]]; intros x; view.
Qed.

Lemma live_view {A} (f : LRUHandle -> A) (heap : Heap) p : is_Some (f <$> heap !! p) <-> is_Some (heap !! p).
Proof. apply fmap_is_Some. Qed.

Lemma relinked_live heap heap' p : relinked heap heap' -> is_Some (heap' !! p) <-> is_Some (heap !! p).
Proof. intros [_ H]. specialize (H p). unfold Pay in H. rewrite <- !(live_view (fun h => (lh_value h, lh_charge h, lh_key_data h, lh_hash h, lh_refs h))), H. done. Qed.

(** The node at [p] and its links. *)
Lemma node_links (heap : Heap) p n q : Nx heap p = Some n -> Pv heap p = Some q -> exists h, heap !! p = Some h /\ lh_next h = n /\ lh_prev h = q.
Proof. unfold Nx, Pv. destruct (heap !! p) as [h|]; [|done]. intros [= <-] [= <-]. by exists h. Qed.

Lemma LRU_Remove_ok (heap : Heap) e l1 l2 : ring heap (l1 ++ e :: l2) ->
  exists heap', LRU_Remove heap e = Some heap' /\ ring heap' (l1 ++ l2) /\ relinked heap heap' /\
    (forall p, p ∉ lru_ :: l1 ++ l2 -> Nx heap' p = Nx heap p).
Proof.
  intros [Hs Hnd]. destruct (seg_around _ _ _ _ _ _ _ Hs) as (p & n & Hp & Hn & Hpi & Hni).
  pose proof (seg_cut _ _ _ _ _ _ _ _ _ Hs Hp Hn Hnd (ring_rot _ Hnd)) as Hcut. destruct (seg_dom _ _ _ _ _ Hs) as [HN HP].
  assert (is_Some (heap !! p)) as Lp.
  { apply (live_view lh_next), HN. apply elem_of_cons in Hpi as [->|?]; [left|]. right. apply elem_of_app. by left. }
  assert (is_Some (heap !! n)) as Ln. { apply (live_view lh_prev), HP. rewrite <- app_assoc. apply elem_of_app. right. by right. }
  assert (n <> e) as Hne.
  { intros ->. apply ring_rot in Hnd. rewrite <- app_assoc in Hnd. apply NoDup_app in Hnd as (_ & _ & Hnd). by apply NoDup_cons in Hnd as [? _]. }
  destruct (node_links _ _ _ _ Hn Hp) as (he & He & <- & <-).
  unfold LRU_Remove. rewrite He. cbn [mbind option_bind].
  destruct (store_prev heap _ (lh_prev he) Ln) as (h1 & -> & N1 & P1 & R1). cbn [mbind option_bind].
  destruct (node_links h1 e (lh_next he) (lh_prev he)) as (he1 & -> & E1 & E2);
    [by rewrite N1|rewrite P1, decide_False by done; done|]. cbn [mbind option_bind]. rewrite E1, E2.
  destruct (store_next h1 (lh_prev he) (lh_next he)) as (h2 & -> & N2 & P2 & R2); [by apply (relinked_live heap)|].
  exists h2. split; [done|]. split; [split|split; [by eapply relinked_trans|]].
  - eapply dseg_frame; [exact Hcut| |]; intros x _; [by rewrite N2, N1|by rewrite P2, P1].
  - rewrite app_comm_cons in Hnd |- *. apply NoDup_app in Hnd as (A1 & A2 & A3). apply NoDup_cons in A3 as [A3 A4]. apply NoDup_app.
    split; [done|]. split; [|done]. intros x Hx Hx2. apply (A2 x Hx). by right.
  - intros x Hx. rewrite N2, N1. apply decide_False. intros ->. apply Hx. apply elem_of_cons in Hpi as [->|?]; [left|right; apply elem_of_app; by left].
Qed.

Lemma LRU_Append_ok (heap : Heap) e l : ring heap l -> e ∉ lru_ :: l -> is_Some (heap !! e) ->
  exists heap', LRU_Append heap e = Some heap' /\ ring heap' (l ++ [e]) /\ relinked heap heap' /\
    (forall p, p ∉ e :: lru_ :: l -> Nx heap' p = Nx heap p).
Proof.
  intros [Hs Hnd] He Le. apply not_elem_of_cons in He as [He0 Hel].
  assert (NoDup (lru_ :: l ++ [e])) as Hnd'.
  { rewrite app_comm_cons, <- Permutation_cons_append. constructor; [|done]. by apply not_elem_of_cons. }
  destruct (seg_snoc _ _ e _ _ _ Hs Hnd') as (p & Hp & Hpi & Hseg).
  { apply NoDup_cons. split; [|by apply ring_rot]. rewrite elem_of_app, list_elem_of_singleton. by intros [?|?]. }
  destruct (seg_dom _ _ _ _ _ Hs) as [HN HP]. assert (is_Some (heap !! p)) as Lp by (apply (live_view lh_next), HN, Hpi).
  assert (is_Some (heap !! lru_)) as L0 by (apply (live_view lh_next), HN; left).
  assert (p <> e) as Hpe by (intros ->; apply elem_of_cons in Hpi as [?|?]; done).
  unfold LRU_Append. destruct (store_next heap e lru_ Le) as (h1 & -> & N1 & P1 & R1). cbn [mbind option_bind].
  assert (exists n, Nx heap lru_ = Some n) as [n0 Hn0] by (by apply HN; left).
  destruct (node_links h1 lru_ n0 p) as (hl & -> & _ & E1); [rewrite N1, decide_False by done; done|by rewrite P1|]. cbn [mbind option_bind]. rewrite E1.
  destruct (store_prev h1 e p) as (h2 & -> & N2 & P2 & R2); [by apply (relinked_live heap)|]. cbn [mbind option_bind].
  pose proof (relinked_trans _ _ _ R1 R2) as R12.
  destruct (node_links h2 e lru_ p) as (he & -> & _ & E2); [by rewrite N2, N1, decide_True|by rewrite P2, decide_True|]. cbn [mbind option_bind]. rewrite E2.
  destruct (store_next h2 p e) as (h3 & -> & N3 & P3 & R3); [by apply (relinked_live heap)|]. cbn [mbind option_bind].
  pose proof (relinked_trans _ _ _ R12 R3) as R13.
  destruct (node_links h3 e lru_ p) as (he' & -> & E3 & _);
    [rewrite N3, decide_False, N2, N1, decide_True by done; done|rewrite P3, P2, decide_True by done; done|]. cbn [mbind option_bind]. rewrite E3.
  destruct (store_prev h3 lru_ e) as (h4 & -> & N4 & P4 & R4); [by apply (relinked_live heap)|].
  exists h4. split; [done|]. split; [split; [|done]|split; [by eapply relinked_trans|]].
  - eapply dseg_frame; [exact Hseg| |]; intros x _; [by rewrite N4, N3, N2, N1|by rewrite P4, P3, P2, P1].
  - intros x Hx. apply not_elem_of_cons in Hx as [Hxe Hx]. rewrite N4, N3, N2, N1. rewrite !decide_False; [done|done|]. intros ->. done.
Qed.

(** ** The hash table *)
Definition KeyHash (heap : Heap) (p : nat) : option (bytes * Z) := (fun h => (lh_key_data h, lh_hash h)) <$> heap !! p.

(** A node whose key can be asked for. *)
Definition keyed (heap : Heap) (p : nat) : Prop := is_Some (KeyHash heap p) /\ Nx heap p <> Some p.

(** Only links of the chains differ. *)
Definition rewired (heap heap' : Heap) : Prop :=
  (forall p, Nx heap' p = Nx heap p) /\ (forall p, Pv heap' p = Pv heap p) /\ (forall p, Pay heap' p = Pay heap p).

Lemma KeyHash_Pay heap heap' p : Pay heap' p = Pay heap p -> KeyHash heap' p = KeyHash heap p.
Proof. unfold Pay, KeyHash. destruct (heap !! p), (heap' !! p); simpl; congruence. Qed.

Lemma rewired_keyed heap heap' p : rewired heap heap' -> keyed heap p -> keyed heap' p.
Proof. intros (HN & _ & HP) [Hk Hn]. split; [by rewrite (KeyHash_Pay heap)|by rewrite HN]. Qed.

Lemma rewired_trans h1 h2 h3 : rewired h1 h2 -> rewired h2 h3 -> rewired h1 h3.
Proof. intros (A1 & A2 & A3) (B1 & B2 & B3). split; [|split]; intros p; congruence. Qed.

Lemma handle_key_ok (heap : Heap) p k hash : KeyHash heap p = Some (k, hash) -> Nx heap p <> Some p ->
  handle_key heap p = Some k /\ exists h, heap !! p = Some h /\ lh_hash h = hash.
Proof.
  unfold KeyHash, Nx, handle_key. destruct (heap !! p) as [h|]; [|done]. intros [= <- <-] Hn. cbn [mbind option_bind].
  rewrite decide_False by (intros E; apply Hn; simpl; congruence). split; [done|]. by exists h.
Qed.

Definition slot_after (slot : Slot) (l : list nat) : Slot := match last l with Some p => NextHash p | None => slot end.

Lemma slot_after_cons slot p l : slot_after slot (p :: l) = slot_after (NextHash p) l.
Proof. unfold slot_after. rewrite last_cons. by destruct (last l). Qed.

Lemma read_after heap t l1 l2 : forall slot s, read_slot heap t slot = Some s -> chain (NH heap) s (l1 ++ l2) ->
  exists s2, read_slot heap t (slot_after slot l1) = Some s2 /\ chain (NH heap) s2 l2.
Proof.
  induction l1 as [|p l1 IH]; intros slot s Hr Hc; [by exists s|]. rewrite slot_after_cons. cbn [app chain] in Hc. destruct Hc as (-> & s' & Hn & Hc).
  apply (IH _ s'); [|done]. unfold NH in Hn. cbn [read_slot]. by destruct (heap !! p).
Qed.

Lemma find_loop_ok (heap : Heap) t key hash l : forall slot s fuel, read_slot heap t slot = Some s -> chain (NH heap) s l -> (length l < fuel)%nat ->
  (forall p, p ∈ l -> keyed heap p) ->
  exists l1 l2, l = l1 ++ l2 /\ find_loop fuel heap t key hash slot = Some (slot_after slot l1) /\
    (forall p, p ∈ l1 -> KeyHash heap p <> Some (key, hash)) /\ match l2 with [] => True | p :: _ => KeyHash heap p = Some (key, hash) end.
Proof.
  induction l as [|p l IH]; intros slot s [|fuel] Hr Hc Hf Hk; try (simpl in Hf; lia); cbn [find_loop chain] in *; rewrite Hr; cbn [mbind option_bind].
  - subst s. exists [], []. split; [done|]. split; [done|]. split; [by intros p Hp%elem_of_nil|done].
  - destruct Hc as (-> & s' & Hn & Hc). destruct (Hk p) as [[[k hs] Ek] Hx]; [left|].
    destruct (handle_key_ok heap p k hs Ek Hx) as (-> & h & -> & Eh). cbn [mbind option_bind]. rewrite Eh.
    assert (KeyHash heap p <> Some (key, hash) -> exists l1 l2, p :: l = l1 ++ l2 /\
      find_loop fuel heap t key hash (NextHash p) = Some (slot_after slot l1) /\
      (forall p, p ∈ l1 -> KeyHash heap p <> Some (key, hash)) /\ match l2 with [] => True | p :: _ => KeyHash heap p = Some (key, hash) end) as Hgo.
    { intros Hne. destruct (IH (NextHash p) s' fuel) as (l1 & l2 & -> & -> & H1 & H2); [|done|simpl in Hf; lia|by intros q Hq; apply Hk; right|].
      { unfold NH in Hn. cbn [read_slot]. by destruct (heap !! p). }
      exists (p :: l1), l2. rewrite slot_after_cons. split; [done|]. split; [done|]. split; [|done]. intros q [->|Hq]%elem_of_cons; auto. }
    destruct (Z.eqb_spec hs hash) as [->|Hne]; [|apply Hgo; congruence].
    destruct (Slice_eqb key k) eqn:E; [|apply Hgo; intros E2; rewrite Ek in E2; injection E2 as ->; by rewrite (proj2 (Slice_eqb_spec key key)) in E].
    apply Slice_eqb_spec in E as ->. exists [], (p :: l). split; [done|]. split; [done|]. split; [by intros q Hq%elem_of_nil|done].
Qed.

Definition chains (heap : Heap) (t : HandleTable) (buckets : list (list nat)) : Prop :=
  Forall2 (chain (NH heap)) (list_ t) buckets /\ length_ t = len (list_ t).

Lemma concat_insert {A} (ls : list (list A)) i a : ls !! i = Some a ->
  exists r, concat ls ≡ₚ a ++ r /\ forall a', concat (<[i := a']> ls) ≡ₚ a' ++ r.
Proof.
  intros Hi. exists (concat (take i ls) ++ concat (drop (S i) ls)). pose proof (lookup_lt_Some _ _ _ Hi) as Hlt. split.
  - rewrite <- (take_drop_middle ls i a Hi) at 1. rewrite concat_app. cbn [concat]. solve_Permutation.
  - intros a'. rewrite insert_take_drop by done. rewrite concat_app. cbn [concat]. solve_Permutation.
Qed.

Lemma NoDup_concat_same {A} (ls : list (list A)) i j a b x : NoDup (concat ls) -> ls !! i = Some a -> ls !! j = Some b -> x ∈ a -> x ∈ b -> i = j.
Proof.
  revert i j. induction ls as [|l ls IH]; intros i j Hnd Hi Hj Ha Hb; [done|]. cbn [concat] in Hnd. apply NoDup_app in Hnd as (_ & Hd & Hnd).
  assert (forall k c, ls !! k = Some c -> x ∈ c -> x ∉ l) as Hl.
  { intros k c Hk Hc Hx. apply (Hd x Hx). apply list_elem_of_In, in_concat. exists c. split; apply list_elem_of_In; [by eapply list_elem_of_lookup_2|done]. }
  destruct i as [|i], j as [|j]; simpl in *; simplify_eq; [done| | |f_equal; by eapply IH].
  - by destruct (Hl _ _ Hj Hb).
  - by destruct (Hl _ _ Hi Ha).
Qed.

Lemma store_next_hash (heap : Heap) p v : is_Some (heap !! p) -> exists heap', store heap p (fun h => with_next_hash h v) = Some heap' /\
  (forall x, NH heap' x = if decide (x = p) then Some v else NH heap x) /\ rewired heap heap' /\ size heap' = size heap.
Proof.
  intros [h Hh]. unfold store. rewrite Hh. cbn [mbind option_bind]. eexists. split; [done|].
  split; [intros x; view|]. split; [split; [|split]; intros x; view|]. apply map_size_insert_Some. by eexists.
Qed.

Lemma chain_cut NH1 NH2 v l2 l' q l0 : forall s, chain NH1 s (l0 ++ q :: l2) -> NH2 q = Some v -> chain NH2 v l' -> (forall x, x ∈ l0 -> NH2 x = NH1 x) ->
  chain NH2 s (l0 ++ q :: l').
Proof.
  induction l0 as [|x l0 IH]; intros s; cbn [app chain].
  - intros (-> & _) Hq Hv _. split; [done|]. by exists v.
  - intros (-> & s' & Hx & Hc) Hq Hv Hf. split; [done|]. exists s'. split; [rewrite Hf by left; done|]. apply IH; auto. intros y Hy. apply Hf. by right.
Qed.

Lemma chain_dom NH1 l : forall s, chain NH1 s l -> forall x, x ∈ l -> is_Some (NH1 x).
Proof.
  induction l as [|y l IH]; intros s; cbn [chain]; [by intros _ x Hx%elem_of_nil|]. intros (-> & s' & Hy & Hc) x [->|Hx]%elem_of_cons; eauto.
Qed.

(** Writing the slot behind [l1] replaces the rest of its chain. *)
Lemma write_slot_ok heap t buckets i l1 l2 v l' : chains heap t buckets -> NoDup (concat buckets) -> buckets !! i = Some (l1 ++ l2) ->
  chain (NH heap) v l' -> (forall x, x ∈ l' -> x ∉ l1) ->
  exists heap' t', write_slot heap t (slot_after (Bucket (Z.of_nat i)) l1) v = Some (heap', t') /\ chains heap' t' (<[i := l1 ++ l']> buckets) /\
    rewired heap heap' /\ length_ t' = length_ t /\ elems_ t' = elems_ t /\ size heap' = size heap /\ (forall x, x ∉ l1 -> NH heap' x = NH heap x).
Proof.
  intros [Hc Hlen] Hnd Hi Hv Hd. pose proof (lookup_lt_Some _ _ _ Hi) as Hlt. pose proof (Forall2_length _ _ _ Hc) as Hl.
  destruct l1 as [|q l0 _] using rev_ind.
  - unfold slot_after. cbn [last write_slot]. rewrite (proj2 (Z.ltb_lt _ _)) by (rewrite Hlen; unfold len; lia). rewrite Nat2Z.id.
    eexists heap, _. split; [done|]. split; [split; cbn [list_ length_]|done].
    + by apply Forall2_insert.
    + unfold len. by rewrite length_insert.
  - unfold slot_after. rewrite last_snoc. cbn [write_slot]. destruct (Forall2_lookup_r _ _ _ _ _ Hc Hi) as (s & Hs & Hcs).
    assert (is_Some (heap !! q)) as Lq.
    { apply (live_view lh_next_hash). apply (chain_dom _ _ _ Hcs). rewrite !elem_of_app. left. right. left. }
    destruct (store_next_hash heap q v Lq) as (h1 & -> & N1 & R1 & S1). cbn [mbind option_bind]. exists h1, t. split; [done|].
    assert (forall x, x ∉ l0 ++ [q] -> NH h1 x = NH heap x) as Hframe.
    { intros x Hx. rewrite N1. apply decide_False. intros ->. apply Hx, elem_of_app. right. left. }
    split; [split; [|done]|done].
    apply Forall2_lookup. intros j. destruct (decide (j = i)) as [->|Hne].
    + rewrite list_lookup_insert_eq by done. rewrite Hs. constructor. rewrite <- !app_assoc in *. cbn [app] in *.
      eapply chain_cut; [exact Hcs|by rewrite N1, decide_True| |].
      * eapply chain_frame; [exact Hv|]. intros x Hx. apply Hframe, Hd, Hx.
      * intros x Hx. rewrite N1. apply decide_False. intros ->. apply concat_insert in Hi as (r & Hr & _). rewrite Hr in Hnd.
        apply NoDup_app in Hnd as (Hnd & _). apply NoDup_app in Hnd as (_ & Hnd & _). apply (Hnd q Hx). left.
    + rewrite list_lookup_insert_ne by done. pose proof (proj1 (Forall2_lookup _ _ _) Hc j) as Hj. destruct (list_ t !! j) eqn:Ej, (buckets !! j) eqn:Eb; inversion Hj; subst; constructor.
      eapply chain_frame; [done|]. intros x Hx. apply Hframe. intros Hq. apply Hne.
      eapply (NoDup_concat_same buckets j i _ _ x Hnd Eb Hi Hx). apply elem_of_app. by left.
Qed.

Definition place (t : HandleTable) (hash : Z) : Z := Z.land hash (length_ t - 1).

Record table_ok (heap : Heap) (t : HandleTable) (buckets : list (list nat)) : Prop := {
  to_chains : chains heap t buckets;
  to_nodup : NoDup (concat buckets);
  to_length : exists k, 2 <= k <= 31 /\ length_ t = 2 ^ k;
  to_elems : elems_ t = len (concat buckets) /\ elems_ t <= 2 ^ 31;
  to_keyed : forall p, p ∈ concat buckets -> keyed heap p;
  to_placed : forall i b p k hash, buckets !! i = Some b -> p ∈ b -> KeyHash heap p = Some (k, hash) -> place t hash = Z.of_nat i;
  to_unique : forall p q, p ∈ concat buckets -> q ∈ concat buckets -> KeyHash heap p = KeyHash heap q -> p = q;
}.

Lemma live_size (heap : Heap) l : NoDup l -> (forall p, p ∈ l -> is_Some (heap !! p)) -> (length l <= size heap)%nat.
Proof.
  intros Hnd Hl. rewrite <- size_dom, <- (size_list_to_set (C := gset nat) l Hnd). apply subseteq_size. intros p Hp%elem_of_list_to_set.
  by apply elem_of_dom, Hl.
Qed.

Lemma place_range heap t buckets hash : table_ok heap t buckets -> 0 <= place t hash < len buckets.
Proof.
  intros [[Hc Hlen] _ (k & Hk & E) _ _ _ _]. apply Forall2_length in Hc. unfold place, len in *. rewrite <- Hc, <- Hlen, E.
  replace (2 ^ k - 1) with (Z.ones k) by (rewrite Z.ones_equiv; lia). rewrite Z.land_ones by lia. apply Z.mod_pos_bound. lia.
Qed.

Lemma in_bucket {A} (ls : list (list A)) i b x : ls !! i = Some b -> x ∈ b -> x ∈ concat ls.
Proof. intros Hi Hx. apply list_elem_of_In, in_concat. exists b. split; apply list_elem_of_In; [by eapply list_elem_of_lookup_2|done]. Qed.

Lemma bucket_of {A} (ls : list (list A)) x : x ∈ concat ls -> exists i b, ls !! i = Some b /\ x ∈ b.
Proof.
  intros Hx. apply list_elem_of_In, in_concat in Hx as (b & Hb & Hx). apply list_elem_of_In in Hb, Hx.
  apply list_elem_of_lookup in Hb as [i Hi]. by exists i, b.
Qed.

Lemma FindPointer_ok heap t buckets key hash : table_ok heap t buckets ->
  exists i l1 l2 s, buckets !! i = Some (l1 ++ l2) /\ place t hash = Z.of_nat i /\ FindPointer heap t key hash = Some (slot_after (Bucket (Z.of_nat i)) l1) /\
    read_slot heap t (slot_after (Bucket (Z.of_nat i)) l1) = Some s /\ chain (NH heap) s l2 /\
    match l2 with [] => forall p, p ∈ concat buckets -> KeyHash heap p <> Some (key, hash) | p :: _ => KeyHash heap p = Some (key, hash) end.
Proof.
  intros T. pose proof (place_range _ _ _ hash T) as Hp. pose proof T as [[Hc Hlen] Hnd Hk _ Hkeyed Hplaced _].
  set (i := Z.to_nat (place t hash)). assert (place t hash = Z.of_nat i) as Ei by (unfold i; lia).
  destruct (lookup_lt_is_Some_2 buckets i) as [b Hb]; [unfold len in Hp; lia|]. destruct (Forall2_lookup_r _ _ _ _ _ Hc Hb) as (s & Hs & Hcs).
  assert (read_slot heap t (Bucket (Z.of_nat i)) = Some s) as Hr by (cbn [read_slot]; by rewrite Nat2Z.id).
  assert (forall p, p ∈ b -> keyed heap p) as Hkb by (intros p Hpb; apply Hkeyed; by eapply in_bucket).
  destruct (find_loop_ok heap t key hash b _ s (S (size heap)) Hr Hcs) as (l1 & l2 & -> & E & H1 & H2); [|done|].
  { apply Nat.lt_succ_r, live_size; [|intros p Hpb; destruct (Hkb p Hpb) as [Hl _]; revert Hl; apply live_view].
    destruct (concat_insert _ _ _ Hb) as (r & Hr' & _). rewrite Hr' in Hnd. by apply NoDup_app in Hnd as (? & _). }
  destruct (read_after _ _ _ _ _ _ Hr Hcs) as (s2 & Hr2 & Hc2). exists i, l1, l2, s2. split; [done|]. split; [done|]. split; [|split; [done|split; [done|]]].
  { unfold FindPointer. fold (place t hash). by rewrite Ei. }
  destruct l2 as [|p l2]; [|done]. rewrite app_nil_r in *. intros p Hpin Hkp. destruct (bucket_of _ _ Hpin) as (j & c & Hj & Hpc).
  pose proof (Hplaced j c p key hash Hj Hpc Hkp) as Ej. assert (j = i) as -> by lia. simplify_eq. by apply (H1 p).
Qed.

(** Replacing one bucket. *)
Lemma table_ok_update heap t buckets i b b' r heap' t' : table_ok heap t buckets -> buckets !! i = Some b -> concat buckets ≡ₚ b ++ r ->
  concat (<[i := b']> buckets) ≡ₚ b' ++ r -> chains heap' t' (<[i := b']> buckets) -> rewired heap heap' -> length_ t' = length_ t ->
  elems_ t' = len (b' ++ r) -> elems_ t' <= 2 ^ 31 -> NoDup (b' ++ r) ->
  (forall p, p ∈ b' -> p ∈ b \/ keyed heap p /\ forall k hash, KeyHash heap p = Some (k, hash) -> place t hash = Z.of_nat i) ->
  (forall p q, p ∈ b' ++ r -> q ∈ b' ++ r -> KeyHash heap p = KeyHash heap q -> p = q) ->
  table_ok heap' t' (<[i := b']> buckets).
Proof.
  intros T Hi Hr Hr' Hc Hw Hlen Hel Hmax Hnd Hnew Hu.
  assert (forall p, KeyHash heap' p = KeyHash heap p) as HK by (intros p; apply KeyHash_Pay, Hw).
  split; [done|by rewrite Hr'| | | | |].
  - rewrite Hlen. apply T.
  - split; [|done]. rewrite Hel. unfold len. by rewrite Hr'.
  - intros p. rewrite Hr'. intros [Hp|Hp]%elem_of_app; apply (rewired_keyed heap); try done.
    + destruct (Hnew p Hp) as [Hb|[Hk _]]; [|done]. apply (to_keyed _ _ _ T). rewrite Hr. apply elem_of_app. by left.
    + apply (to_keyed _ _ _ T). rewrite Hr. apply elem_of_app. by right.
  - intros j c p k hash Hj Hp Hk. rewrite HK in Hk. unfold place. rewrite Hlen. fold (place t hash). destruct (decide (j = i)) as [->|Hne].
    + rewrite list_lookup_insert_eq in Hj by (by eapply lookup_lt_Some). simplify_eq. destruct (Hnew p Hp) as [Hb|[_ H]]; [|by eapply H].
      by eapply (to_placed _ _ _ T).
    + rewrite list_lookup_insert_ne in Hj by done. by eapply (to_placed _ _ _ T).
  - intros p q. rewrite Hr', !HK. apply Hu.
Qed.

Lemma chain_head NH1 s l : chain NH1 s l -> s = head l.
Proof. destruct l; [done|]. by intros [-> _]. Qed.

Lemma read_next heap t p s : NH heap p = Some s -> read_slot heap t (NextHash p) = Some s.
Proof. unfold NH. cbn [read_slot]. by destruct (heap !! p). Qed.

Lemma table_Lookup_ok heap t buckets key hash : table_ok heap t buckets ->
  exists r, table_Lookup heap t key hash = Some r /\
    match r with
    | Some p => p ∈ concat buckets /\ KeyHash heap p = Some (key, hash)
    | None => forall p, p ∈ concat buckets -> KeyHash heap p <> Some (key, hash)
    end.
Proof.
  intros T. destruct (FindPointer_ok heap t buckets key hash T) as (i & l1 & l2 & s & Hi & _ & Ef & Hr & Hc & Hm).
  unfold table_Lookup. rewrite Ef. cbn [mbind option_bind]. rewrite Hr. exists s. split; [done|]. rewrite (chain_head _ _ _ Hc). destruct l2 as [|p l2]; cbn [head]; [done|].
  split; [|done]. eapply in_bucket; [exact Hi|]. apply elem_of_app. right. left.
Qed.

Lemma table_Remove_ok heap t buckets key hash : table_ok heap t buckets ->
  exists heap' t' buckets' r, table_Remove heap t key hash = Some (heap', t', r) /\ table_ok heap' t' buckets' /\ rewired heap heap' /\
    match r with
    | Some p => concat buckets ≡ₚ p :: concat buckets' /\ KeyHash heap p = Some (key, hash)
    | None => buckets' = buckets /\ forall p, p ∈ concat buckets -> KeyHash heap p <> Some (key, hash)
    end.
Proof.
  intros T. destruct (FindPointer_ok heap t buckets key hash T) as (i & l1 & l2 & s & Hi & _ & Ef & Hr & Hc & Hm).
  unfold table_Remove. rewrite Ef. cbn [mbind option_bind]. rewrite Hr. cbn [mbind option_bind]. destruct l2 as [|p l2]; cbn [chain] in Hc.
  - subst s. exists heap, t, buckets, None. done.
  - destruct Hc as (-> & s' & Hn & Hc). rewrite (read_next heap t p s' Hn). cbn [mbind option_bind].
    destruct (concat_insert _ _ _ Hi) as (r & Hperm & Hperm'). pose proof (to_nodup _ _ _ T) as Hnd.
    assert (NoDup (p :: (l1 ++ l2) ++ r)) as Hnd2. { assert (p :: (l1 ++ l2) ++ r ≡ₚ (l1 ++ p :: l2) ++ r) as -> by solve_Permutation. by rewrite <- Hperm. }
    destruct (write_slot_ok heap t buckets i l1 (p :: l2) s' l2 (to_chains _ _ _ T) Hnd Hi Hc) as (heap' & t' & -> & Hc' & Hw & El & Ee & _ & _).
    { intros x Hx Hx1. apply NoDup_cons in Hnd2 as [_ Hnd2]. apply NoDup_app in Hnd2 as (Hnd2 & _). apply NoDup_app in Hnd2 as (_ & Hd & _). by apply (Hd x). }
    cbn [mbind option_bind]. eexists heap', _, (<[i := l1 ++ l2]> buckets), (Some p). split; [done|]. destruct (to_elems _ _ _ T) as [Hel Hmax].
    assert (len (concat buckets) = len ((l1 ++ l2) ++ r) + 1) as Hlen. { unfold len. rewrite Hperm, !length_app. simpl. lia. }
    split; [|split; [done|split; [|done]]]; [|rewrite Hperm, Hperm'; solve_Permutation].
    eapply (table_ok_update heap t buckets i _ _ r); [done|exact Hi|done|apply Hperm'|exact Hc'|done|done| | | | |]; cbn [elems_].
    + rewrite Ee, Hel, Hlen. unfold u32. rewrite Z.mod_small; [lia|]. len_facts. lia.
    + rewrite Ee, Hel, Hlen. unfold u32. rewrite Z.mod_small; [|len_facts]; lia.
    + by apply NoDup_cons in Hnd2 as [_ ?].
    + intros x Hx. left. rewrite elem_of_app in *. destruct Hx; [by left|right; by right].
    + assert (forall x, x ∈ (l1 ++ l2) ++ r -> x ∈ concat buckets) as Hsub.
      { intros x. rewrite Hperm, !elem_of_app, elem_of_cons. tauto. }
      intros x y Hx Hy. apply (to_unique _ _ _ T); auto.
Qed.

Lemma grow_ok elems : elems <= 2 ^ 31 -> forall fuel j, 2 <= j <= 31 -> (31 - j < Z.of_nat fuel) ->
  exists k, 2 <= k <= 31 /\ grow fuel (2 ^ j) elems = Some (2 ^ k) /\ elems <= 2 ^ k.
Proof.
  intros He. induction fuel as [|fuel IH]; intros j Hj Hf; [lia|]. cbn [grow]. destruct (Z.ltb_spec (2 ^ j) elems).
  - assert (j < 31) by (apply (Z.pow_lt_mono_r_iff 2); lia).
    replace (u32 (2 ^ j * 2)) with (2 ^ (j + 1)); [apply IH; lia|]. rewrite Z.pow_add_r by lia. unfold u32. rewrite Z.mod_small; [done|].
    split; [lia|]. assert (2 ^ j <= 2 ^ 30) by (apply Z.pow_le_mono_r; lia). lia.
  - by exists j.
Qed.

(** The new list of Resize, so far. *)
Definition moved (heap : Heap) (n : Z) (new_list : list (option nat)) (nb : list (list nat)) : Prop :=
  Forall2 (chain (NH heap)) new_list nb /\ n = len new_list /\ NoDup (concat nb) /\
  forall i b p k hash, nb !! i = Some b -> p ∈ b -> KeyHash heap p = Some (k, hash) -> Z.land hash (n - 1) = Z.of_nat i.

Lemma move_chain_ok n k l : 2 <= k <= 31 -> n = 2 ^ k -> forall fuel heap new_list nb count h, moved heap n new_list nb ->
  chain (NH heap) h l -> (forall p, p ∈ l -> (p ∉ concat nb) /\ is_Some (KeyHash heap p)) -> NoDup l -> (length l <= fuel)%nat ->
  0 <= count -> count + len l < 2 ^ 32 ->
  exists heap' new_list' nb', move_chain fuel heap n new_list count h = Some (heap', new_list', count + len l) /\ moved heap' n new_list' nb' /\
    concat nb' ≡ₚ l ++ concat nb /\ rewired heap heap' /\ size heap' = size heap /\ (forall x, x ∉ l -> NH heap' x = NH heap x).
Proof.
  intros Hk En. induction l as [|p l IH]; intros fuel heap new_list nb count h M Hc Hl Hnd Hf H0 Hmax; cbn [chain] in Hc.
  - subst h. exists heap, new_list, nb. replace (count + len []) with count by (unfold len; simpl; lia). by destruct fuel.
  - rewrite len_cons in Hmax. pose proof (len_nonneg l) as Hlen. destruct Hc as (-> & s & Hn & Hc). destruct fuel as [|fuel]; [simpl in Hf; lia|]. cbn [move_chain]. apply NoDup_cons in Hnd as [Hp Hnd].
    destruct (Hl p) as [Hpn [[kp hs] Hkp]]; [left|]. destruct M as (Mc & Ml & Mn & Mp).
    assert (exists node, heap !! p = Some node /\ lh_hash node = hs /\ lh_next_hash node = s) as (node & Enode & Ehs & Es).
    { unfold NH, KeyHash in *. destruct (heap !! p) as [nd|]; [|done]. simpl in *. simplify_eq. by exists nd. }
    rewrite Enode. cbn [mbind option_bind]. rewrite Ehs, Es. set (i := Z.to_nat (Z.land hs (n - 1))).
    assert (0 <= Z.land hs (n - 1) < len new_list) as Hrange.
    { rewrite <- Ml, En. replace (2 ^ k - 1) with (Z.ones k) by (rewrite Z.ones_equiv; lia). rewrite Z.land_ones by lia. apply Z.mod_pos_bound. lia. }
    destruct (lookup_lt_is_Some_2 new_list i) as [old Hold]; [unfold len in Hrange; lia|]. rewrite Hold. cbn [mbind option_bind].
    destruct (Forall2_lookup_l _ _ _ _ _ Mc Hold) as (b & Hb & Hcb). destruct (concat_insert _ _ _ Hb) as (r & Hr & Hr').
    destruct (store_next_hash heap p old ltac:(by eexists)) as (h1 & -> & N1 & R1 & S1). cbn [mbind option_bind].
    assert (forall x, x <> p -> NH h1 x = NH heap x) as Hframe by (intros x Hx; by rewrite N1, decide_False).
    assert (forall x, KeyHash h1 x = KeyHash heap x) as HK by (intros x; apply KeyHash_Pay, R1).
    assert (forall x, x ∈ concat nb -> x <> p) as Hnp by (by intros x Hx ->).
    pose proof (Forall2_length _ _ _ Mc) as Hlens. replace (u32 (count + 1)) with (count + 1) by (unfold u32; rewrite Z.mod_small; lia).
    destruct (IH fuel h1 (<[i := Some p]> new_list) (<[i := p :: b]> nb) (count + 1) s) as (h2 & nl2 & nb2 & E & M2 & P2 & R2 & S2 & F2).
    + split; [|split; [|split]].
      * apply Forall2_insert.
        -- apply Forall2_same_length_lookup_2; [done|]. intros j x y Hx Hy. pose proof (Forall2_lookup_lr _ _ _ _ _ _ Mc Hx Hy) as Hxy.
           eapply chain_frame; [exact Hxy|]. intros z Hz. apply Hframe, Hnp. by eapply in_bucket.
        -- cbn [chain]. split; [done|]. exists old. split; [by rewrite N1, decide_True|]. eapply chain_frame; [exact Hcb|]. intros z Hz.
           apply Hframe, Hnp. by eapply in_bucket.
      * rewrite Ml. unfold len. by rewrite length_insert.
      * rewrite Hr'. rewrite Hr in Mn, Hpn. by constructor.
      * intros j c q kq hq Hj Hq. rewrite HK. intros Hkq. destruct (decide (j = i)) as [->|Hne].
        -- rewrite list_lookup_insert_eq in Hj by (rewrite <- Hlens; by eapply lookup_lt_Some). simplify_eq.
           apply elem_of_cons in Hq as [->|Hq]; [|by eapply Mp]. rewrite Hkp in Hkq. simplify_eq. unfold i. lia.
        -- rewrite list_lookup_insert_ne in Hj by done. by eapply Mp.
    + eapply chain_frame; [exact Hc|]. intros x Hx. apply Hframe. by intros ->.
    + intros x Hx. rewrite HK. destruct (Hl x) as [A1 A2]; [by right|]. split; [|done]. rewrite Hr'. rewrite Hr in A1. intros [->|?]%elem_of_cons; done.
    + done.
    + simpl in Hf. lia.
    + lia.
    + lia.
    + exists h2, nl2, nb2. rewrite E. replace (count + len (p :: l)) with (count + 1 + len l) by (rewrite len_cons; lia). split; [done|]. split; [done|]. split; [|split; [by eapply rewired_trans|split; [congruence|]]].
      * rewrite P2, Hr', Hr. solve_Permutation.
      * intros x Hx. apply not_elem_of_cons in Hx as [Hx1 Hx2]. rewrite F2 by done. by apply Hframe.
Qed.

Lemma move_chains_ok n k : 2 <= k <= 31 -> n = 2 ^ k -> forall lists old heap new_list nb count, moved heap n new_list nb ->
  Forall2 (chain (NH heap)) lists old -> NoDup (concat old ++ concat nb) -> (forall p, p ∈ concat old -> is_Some (KeyHash heap p)) ->
  0 <= count -> count + len (concat old) < 2 ^ 32 ->
  exists heap' new_list' nb', move_chains heap n new_list count lists = Some (heap', new_list', count + len (concat old)) /\ moved heap' n new_list' nb' /\
    concat nb' ≡ₚ concat old ++ concat nb /\ rewired heap heap'.
Proof.
  intros Hk En. induction lists as [|h lists IH]; intros old heap new_list nb count M Hc Hnd Hkey H0 Hmax; inversion Hc as [|? l ? old' Hl Hc']; subst; cbn [move_chains concat].
  - exists heap, new_list, nb. replace (count + len []) with count by (unfold len; simpl; lia). done.
  - cbn [concat] in *. rewrite <- app_assoc in Hnd. apply NoDup_app in Hnd as (N1 & N2 & N3). rewrite len_app in Hmax.
    destruct (move_chain_ok (2 ^ k) k l Hk eq_refl (size heap) heap new_list nb count h M Hl) as (h1 & nl1 & nb1 & -> & M1 & P1 & R1 & S1 & F1);
      [|done| |done|len_facts; lia|].
    { intros p Hp. split; [|apply Hkey, elem_of_app; by left]. intros Hx. apply (N2 p Hp), elem_of_app. by right. }
    { apply live_size; [done|]. intros p Hp. eapply (live_view (fun h => (lh_key_data h, lh_hash h))), Hkey, elem_of_app. by left. }
    cbn [mbind option_bind]. destruct (IH old' h1 nl1 nb1 (count + len l) M1) as (h2 & nl2 & nb2 & E & M2 & P2 & R2).
    + apply Forall2_same_length_lookup_2; [by eapply Forall2_length|]. intros j x y Hx Hy. eapply chain_frame; [by eapply (Forall2_lookup_lr _ _ _ _ _ _ Hc')|].
      intros z Hz. apply F1. intros Hzl. apply (N2 z Hzl), elem_of_app. left. by eapply in_bucket.
    + rewrite P1. apply NoDup_app in N3 as (N3 & N4 & N5). apply NoDup_app. split; [done|]. split.
      * intros x Hx [Hxl|Hxn]%elem_of_app; [|by apply (N4 x)]. apply (N2 x Hxl), elem_of_app. by left.
      * apply NoDup_app. split; [done|]. split; [|done]. intros x Hx Hxn. apply (N2 x Hx), elem_of_app. by right.
    + intros p Hp. rewrite (KeyHash_Pay heap) by apply R1. apply Hkey, elem_of_app. by right.
    + len_facts; lia.
    + lia.
    + exists h2, nl2, nb2. rewrite E, len_app, Z.add_assoc. split; [done|]. split; [done|]. split; [|by eapply rewired_trans]. rewrite P2, P1. solve_Permutation.
Qed.

Lemma concat_nils {A} n : concat (replicate n (@nil A)) = [].
Proof. by induction n. Qed.

Lemma Resize_ok heap t buckets : table_ok heap t buckets ->
  exists heap' t' buckets', Resize heap t = Some (heap', t') /\ table_ok heap' t' buckets' /\ rewired heap heap' /\ concat buckets' ≡ₚ concat buckets.
Proof.
  intros T. destruct (to_elems _ _ _ T) as [Hel Hmax]. destruct (grow_ok (elems_ t) Hmax 33 2) as (k & Hk & Eg & _); [lia|lia|].
  unfold Resize. replace 4 with (2 ^ 2) by done. rewrite Eg. cbn [mbind option_bind]. pose proof (to_nodup _ _ _ T) as Hnd.
  destruct (move_chains_ok (2 ^ k) k Hk eq_refl (list_ t) buckets heap (replicate (Z.to_nat (2 ^ k)) None) (replicate (Z.to_nat (2 ^ k)) []) 0)
    as (heap' & nl & nb & -> & (Mc & Ml & Mn & Mp) & P & R).
  - split; [|split; [unfold len; rewrite length_replicate; lia|split; [rewrite concat_nils; constructor|]]].
    + apply Forall2_same_length_lookup_2; [by rewrite !length_replicate|]. intros j x y [-> _]%lookup_replicate [-> _]%lookup_replicate. done.
    + intros i b p kk hash [-> _]%lookup_replicate Hp%elem_of_nil. done.
  - apply T.
  - by rewrite concat_nils, app_nil_r.
  - intros p Hp. apply (to_keyed _ _ _ T p Hp).
  - done.
  - lia.
  - cbn [mbind option_bind]. rewrite concat_nils, app_nil_r in P. rewrite Hel, Z.add_0_l, Z.eqb_refl. eexists _, _, nb. split; [done|].
    assert (forall p, KeyHash heap' p = KeyHash heap p) as HK by (intros p; apply KeyHash_Pay, R).
    split; [|done]. split; cbn [length_ elems_ list_]; [done|done|by exists k| | | |].
    + unfold len. rewrite P. by rewrite Hel in Hmax.
    + intros p. rewrite P. intros Hp. apply (rewired_keyed heap); [done|]. by apply T.
    + intros i b p kk hash Hi Hp Hkk. by eapply Mp.
    + intros p q. rewrite P, !HK. apply T.
Qed.

(** The nodes that stay in the chains when the node behind [l1] is replaced. *)
Lemma other_nodes heap t buckets l1 l2 r key hash x : table_ok heap t buckets -> concat buckets ≡ₚ (l1 ++ l2) ++ r ->
  match l2 with [] => forall p, p ∈ concat buckets -> KeyHash heap p <> Some (key, hash) | p :: _ => KeyHash heap p = Some (key, hash) end ->
  x ∈ l1 ++ tail l2 ++ r -> x ∈ concat buckets /\ KeyHash heap x <> Some (key, hash).
Proof.
  intros T Hperm Hm Hx. pose proof (to_nodup _ _ _ T) as Hnd. destruct l2 as [|o l2]; cbn [tail] in Hx.
  - assert (x ∈ concat buckets) as Hin by (rewrite Hperm, app_nil_r; exact Hx). split; [done|by apply Hm].
  - assert (x ∈ concat buckets) as Hin by (rewrite Hperm, !elem_of_app, elem_of_cons in *; tauto). split; [done|]. intros Hkx.
    assert (x = o) as ->.
    { apply (to_unique _ _ _ T); [done| |congruence]. rewrite Hperm, !elem_of_app, elem_of_cons. tauto. }
    rewrite Hperm in Hnd. assert ((l1 ++ o :: l2) ++ r ≡ₚ o :: l1 ++ l2 ++ r) as E by solve_Permutation. rewrite E in Hnd. by apply NoDup_cons in Hnd as [? _].
Qed.

(** A new node in the place of the one behind [l1]. *)
Lemma table_ok_put heap t buckets i l1 l2 r p key hash h2 t3 : table_ok heap t buckets -> buckets !! i = Some (l1 ++ l2) ->
  concat buckets ≡ₚ (l1 ++ l2) ++ r -> concat (<[i := l1 ++ p :: tail l2]> buckets) ≡ₚ (l1 ++ p :: tail l2) ++ r ->
  match l2 with [] => forall p, p ∈ concat buckets -> KeyHash heap p <> Some (key, hash) | p :: _ => KeyHash heap p = Some (key, hash) end ->
  KeyHash heap p = Some (key, hash) -> Nx heap p <> Some p -> place t hash = Z.of_nat i -> NoDup (p :: l1 ++ tail l2 ++ r) ->
  chains h2 t3 (<[i := l1 ++ p :: tail l2]> buckets) -> rewired heap h2 -> length_ t3 = length_ t ->
  elems_ t3 = len ((l1 ++ p :: tail l2) ++ r) -> elems_ t3 <= 2 ^ 31 -> table_ok h2 t3 (<[i := l1 ++ p :: tail l2]> buckets).
Proof.
  intros T Hi Hperm Hperm' Hm Hkey Hnx Hplace Hnd Hc Hw E1 E3 E4.
  pose proof (fun x => other_nodes heap t buckets l1 l2 r key hash x T Hperm Hm) as Hother. set (rest := tail l2) in *.
  assert ((l1 ++ p :: rest) ++ r ≡ₚ p :: l1 ++ rest ++ r) as Ep by solve_Permutation.
  eapply (table_ok_update heap t buckets i _ _ r); [done|exact Hi|done|done|done|done|done|done|done|by rewrite Ep| |].
  - intros x Hx. apply elem_of_app in Hx as [Hx|[->|Hx]%elem_of_cons].
    + left. apply elem_of_app. by left.
    + right. split; [split; [by rewrite Hkey; eexists|done]|]. intros k' h' E. rewrite Hkey in E. by simplify_eq.
    + left. apply elem_of_app. right. unfold rest in Hx. destruct l2; [done|by right].
  - intros x y. rewrite Ep. intros [->|Hx]%elem_of_cons [->|Hy]%elem_of_cons; [done| | |].
    + rewrite Hkey. intros E. by destruct (Hother y Hy) as [_ []].
    + rewrite Hkey. intros E. by destruct (Hother x Hx) as [_ []].
    + apply (to_unique _ _ _ T); by apply Hother.
Qed.

Lemma table_Insert_ok heap t buckets p key hash : table_ok heap t buckets -> p ∉ concat buckets -> KeyHash heap p = Some (key, hash) ->
  Nx heap p <> Some p -> len (concat buckets) < 2 ^ 31 ->
  exists heap' t' buckets' old, table_Insert heap t p = Some (heap', t', old) /\ table_ok heap' t' buckets' /\ rewired heap heap' /\
    match old with
    | Some o => KeyHash heap o = Some (key, hash) /\ exists r, concat buckets ≡ₚ o :: r /\ concat buckets' ≡ₚ p :: r
    | None => (forall q, q ∈ concat buckets -> KeyHash heap q <> Some (key, hash)) /\ concat buckets' ≡ₚ p :: concat buckets
    end.
Proof.
  intros T Hp Hkey Hnx Hmax. destruct (handle_key_ok heap p key hash Hkey Hnx) as (Ek & node & Enode & Ehash).
  destruct (FindPointer_ok heap t buckets key hash T) as (i & l1 & l2 & s & Hi & Hplace & Ef & Hr & Hc & Hm).
  unfold table_Insert. rewrite Ek. cbn [mbind option_bind]. rewrite Enode. cbn [mbind option_bind]. rewrite Ehash, Ef. cbn [mbind option_bind].
  rewrite Hr. cbn [mbind option_bind]. destruct (concat_insert _ _ _ Hi) as (r & Hperm & Hperm'). pose proof (to_nodup _ _ _ T) as Hnd.
  set (rest := tail l2). assert (exists next, match s with None => Some None | Some o => read_slot heap t (NextHash o) end = Some next /\ chain (NH heap) next rest) as (next & -> & Hnext).
  { unfold rest. destruct l2 as [|o l2]; cbn [chain] in Hc; [subst s; by exists None|]. destruct Hc as (-> & s' & Hn & Hc). exists s'. by rewrite (read_next heap t o s' Hn). }
  cbn [mbind option_bind]. destruct (store_next_hash heap p next ltac:(by eexists)) as (h1 & -> & N1 & R1 & S1). cbn [mbind option_bind].
  assert (forall x, x ∈ l1 ++ rest -> x ∈ concat buckets) as Hsub.
  { intros x Hx. eapply in_bucket; [exact Hi|]. rewrite elem_of_app in *. unfold rest in Hx. destruct l2; [done|]. destruct Hx; [by left|right; by right]. }
  assert (forall x, x ∈ concat buckets -> NH h1 x = NH heap x) as Hframe by (intros x Hx; rewrite N1; apply decide_False; by intros ->).
  assert (chains h1 t buckets) as Hch.
  { destruct (to_chains _ _ _ T) as [Hcs Hl]. split; [|done]. apply Forall2_same_length_lookup_2; [by eapply Forall2_length|]. intros j x y Hx Hy.
    eapply chain_frame; [by eapply (Forall2_lookup_lr _ _ _ _ _ _ Hcs)|]. intros z Hz. apply Hframe. by eapply in_bucket. }
  assert (NoDup (p :: l1 ++ rest ++ r)) as Hnd2.
  { rewrite Hperm in Hnd, Hp. constructor; [|]; unfold rest; destruct l2 as [|o l2]; cbn [tail].
    - by rewrite app_nil_r in Hp.
    - intros Hx. apply Hp. rewrite !elem_of_app, elem_of_cons in *. tauto.
    - by rewrite app_nil_r in Hnd.
    - apply NoDup_cons with (x := o). assert (o :: l1 ++ l2 ++ r ≡ₚ (l1 ++ o :: l2) ++ r) as -> by solve_Permutation. done. }
  destruct (write_slot_ok h1 t buckets i l1 l2 (Some p) (p :: rest) Hch Hnd Hi) as (h2 & t2 & -> & Hc2 & R2 & El & Ee & S2 & F2).
  { cbn [chain]. split; [done|]. exists next. split; [by rewrite N1, decide_True|]. eapply chain_frame; [exact Hnext|]. intros x Hx. apply Hframe, Hsub, elem_of_app. by right. }
  { intros x [->|Hx]%elem_of_cons; apply NoDup_cons in Hnd2 as [Hp2 Hnd2]; [intros Hx; apply Hp2, elem_of_app; by left|].
    apply NoDup_app in Hnd2 as (_ & Hd & _). intros Hx1. apply (Hd x Hx1), elem_of_app. by left. }
  cbn [mbind option_bind]. pose proof (rewired_trans _ _ _ R1 R2) as R12.
  assert (forall t3, length_ t3 = length_ t2 -> list_ t3 = list_ t2 -> elems_ t3 = len ((l1 ++ p :: rest) ++ r) -> elems_ t3 <= 2 ^ 31 ->
    table_ok h2 t3 (<[i := l1 ++ p :: rest]> buckets)) as Hok.
  { intros t3 E1 E2 E3 E4. apply (table_ok_put heap t buckets i l1 l2 r p key hash); try done; [by destruct Hc2 as [C1 C2]; split; [rewrite E2|rewrite E1, E2]|congruence]. }
  destruct (to_elems _ _ _ T) as [Hel Hel2]. specialize (Hperm' (l1 ++ p :: rest)). destruct l2 as [|o l2]; cbn [chain tail] in *; unfold rest in *; clear rest.
  - subst s. assert (len ((l1 ++ [p]) ++ r) = len (concat buckets) + 1) as Hlen by (unfold len; rewrite Hperm, !length_app; simpl; lia).
    replace (u32 (elems_ t2 + 1)) with (elems_ t + 1) by (rewrite Ee; unfold u32; rewrite Z.mod_small; [done|]; pose proof (len_nonneg (concat buckets)); lia).
    set (t3 := {| length_ := length_ t2; elems_ := elems_ t + 1; list_ := list_ t2 |}).
    assert (table_ok h2 t3 (<[i := l1 ++ [p]]> buckets)) as T3 by (apply Hok; cbn [t3 length_ elems_ list_]; (done || lia)).
    assert (concat (<[i:=l1 ++ [p]]> buckets) ≡ₚ p :: concat buckets) as Pf by (rewrite Hperm', Hperm; solve_Permutation).
    destruct (length_ t3 <? elems_ t3).
    + destruct (Resize_ok h2 t3 _ T3) as (h4 & t4 & b4 & -> & T4 & R4 & P4). cbn [mbind option_bind]. exists h4, t4, b4, None. split; [done|].
      split; [done|]. split; [by eapply rewired_trans|]. split; [done|]. by rewrite P4.
    + cbn [mbind option_bind]. by exists h2, t3, (<[i := l1 ++ [p]]> buckets), None.
  - destruct Hc as (-> & _). exists h2, t2, (<[i := l1 ++ p :: l2]> buckets), (Some o). split; [done|]. split; [|split; [done|split; [done|]]].
    + apply Hok; [done|done| |congruence]. rewrite Ee, Hel. unfold len. rewrite Hperm, !length_app. simpl. lia.
    + exists (l1 ++ l2 ++ r). rewrite Hperm, Hperm'. split; solve_Permutation.
Qed.

(** ** The nodes *)
Record Entry := { en_id : nat; en_key : bytes; en_hash : Z; en_value : V; en_charge : Z }.

Definition ids (es : list Entry) : list nat := map en_id es.
Definition total (es : list Entry) : Z := fold_right (fun e n => en_charge e + n) 0 es.

(** The heap has the nodes of [all], with the references [refs]; [rng] are in the
    ring and [tbl] in the hash table. *)
Record core (c : LRUCache) (rng tbl : list nat) (all : list Entry) (refs : nat -> Z) : Prop := {
  co_ring : ring (heap_ c) rng;
  co_table : exists buckets, table_ok (heap_ c) (table_ c) buckets /\ concat buckets ≡ₚ tbl;
  co_nodes : forall e, e ∈ all -> Pay (heap_ c) (en_id e) = Some (Some (en_value e), en_charge e, en_key e, en_hash e, refs (en_id e));
  co_noself : forall p, p ∈ ids all -> Nx (heap_ c) p <> Some p;
  co_live : forall p, is_Some (heap_ c !! p) -> p = lru_ \/ p ∈ ids all;
  co_nodup : NoDup (lru_ :: ids all);
  co_usage : usage_ c = u64 (total all);
  co_sub : forall p, p ∈ rng \/ p ∈ tbl -> p ∈ ids all;
}.

Lemma ring_noself heap l p : ring heap l -> p ∈ l -> Nx heap p <> Some p.
Proof.
  intros [Hs Hnd] Hp. apply list_elem_of_split in Hp as (l1 & l2 & ->). destruct (seg_around _ _ _ _ _ _ _ Hs) as (q & n & _ & Hn & _ & Hi). rewrite Hn.
  intros [= ->]. apply ring_rot in Hnd. rewrite <- app_assoc in Hnd. apply NoDup_app in Hnd as (_ & _ & Hnd). by apply NoDup_cons in Hnd as [? _].
Qed.

Lemma ring_ext heap heap' l : ring heap l -> (forall p, p ∈ lru_ :: l -> Nx heap' p = Nx heap p /\ Pv heap' p = Pv heap p) -> ring heap' l.
Proof.
  intros [Hs Hnd] H. split; [|done]. eapply dseg_frame; [exact Hs|intros x Hx; by apply H|]. intros x Hx. apply H.
  apply elem_of_app in Hx as [Hx|Hx%list_elem_of_singleton]; [by right|subst; left].
Qed.

Lemma table_ok_ext heap heap' t buckets : table_ok heap t buckets ->
  (forall p, p ∈ concat buckets -> NH heap' p = NH heap p /\ KeyHash heap' p = KeyHash heap p /\ Nx heap' p <> Some p) -> table_ok heap' t buckets.
Proof.
  intros T H. split; [|apply T|apply T|apply T| | |].
  - destruct (to_chains _ _ _ T) as [Hc Hl]. split; [|done]. apply Forall2_same_length_lookup_2; [by eapply Forall2_length|]. intros j x y Hx Hy.
    eapply chain_frame; [by eapply (Forall2_lookup_lr _ _ _ _ _ _ Hc)|]. intros z Hz. apply H. by eapply in_bucket.
  - intros p Hp. destruct (H p Hp) as (_ & Hk & Hn). split; [|done]. rewrite Hk. by apply T.
  - intros i b p k hash Hi Hp Hk. destruct (H p) as (_ & E & _); [by eapply in_bucket|]. rewrite E in Hk. by eapply (to_placed _ _ _ T).
  - intros p q Hp Hq E. apply (to_unique _ _ _ T); [done|done|]. destruct (H p Hp) as (_ & <- & _). by destruct (H q Hq) as (_ & <- & _).
Qed.

Lemma core_in_all c rng tbl all refs p : core c rng tbl all refs -> p ∈ ids all -> exists e, e ∈ all /\ en_id e = p.
Proof. intros _ Hp. apply list_elem_of_fmap in Hp as (e & -> & He). by exists e. Qed.

Lemma core_alive c rng tbl all refs p : core c rng tbl all refs -> p ∈ ids all -> is_Some (heap_ c !! p).
Proof.
  intros C Hp. apply list_elem_of_fmap in Hp as (e & -> & He). pose proof (co_nodes _ _ _ _ _ C e He) as H. unfold Pay in H. by destruct (heap_ c !! en_id e).
Qed.

(** A change of links of the ring, which is now [rng']. *)
Lemma core_relink c rng rng' tbl all refs heap' : core c rng tbl all refs -> ring heap' rng' -> relinked (heap_ c) heap' ->
  (forall p, p ∈ rng' -> p ∈ ids all) -> (forall p, p ∉ lru_ :: rng' -> Nx heap' p = Nx (heap_ c) p) ->
  core (with_heap c heap') rng' tbl all refs.
Proof.
  intros C Hr Hl Hsub Hf. assert (forall p, p ∈ ids all -> Nx heap' p <> Some p) as Hself.
  { intros p Hp. destruct (decide (p ∈ rng')) as [Hi|Hi]; [by eapply ring_noself|]. rewrite Hf; [by apply (co_noself _ _ _ _ _ C)|].
    apply not_elem_of_cons. split; [|done]. intros ->. pose proof (co_nodup _ _ _ _ _ C) as Hnd. by apply NoDup_cons in Hnd as [? _]. }
  destruct (co_table _ _ _ _ _ C) as (b & T & Hb). split; cbn [with_heap heap_ table_ usage_]; [done| | |done| |apply C|apply C|].
  - exists b. split; [|done]. eapply table_ok_ext; [exact T|]. intros p Hp. split; [apply Hl|]. split; [apply KeyHash_Pay, Hl|]. apply Hself, C. right. by rewrite <- Hb.
  - intros e He. rewrite (proj2 Hl). by apply C.
  - intros p Hp. apply C. by apply (relinked_live _ heap').
  - intros p [Hp|Hp]; [by apply Hsub|apply C; by right].
Qed.

Lemma core_LRU_Remove c l1 e l2 tbl all refs : core c (l1 ++ e :: l2) tbl all refs ->
  exists heap', LRU_Remove (heap_ c) e = Some heap' /\ core (with_heap c heap') (l1 ++ l2) tbl all refs.
Proof.
  intros C. destruct (LRU_Remove_ok (heap_ c) e l1 l2 (co_ring _ _ _ _ _ C)) as (h & E & Hr & Hl & Hf). exists h. split; [done|].
  eapply core_relink; [exact C|done|done| |done]. intros p Hp. apply C. left. rewrite elem_of_app in *. destruct Hp; [by left|right; by right].
Qed.

Lemma core_LRU_Append c l e tbl all refs : core c l tbl all refs -> e ∈ ids all -> e ∉ l ->
  exists heap', LRU_Append (heap_ c) e = Some heap' /\ core (with_heap c heap') (l ++ [e]) tbl all refs.
Proof.
  intros C He Hl. assert (e <> lru_) as Hne. { intros ->. pose proof (co_nodup _ _ _ _ _ C) as Hnd. by apply NoDup_cons in Hnd as [? _]. }
  destruct (LRU_Append_ok (heap_ c) e l (co_ring _ _ _ _ _ C)) as (h & E & Hr & Hlk & Hf); [by apply not_elem_of_cons|by eapply core_alive|]. exists h. split; [done|].
  eapply core_relink; [exact C|done|done| |].
  - intros p [Hp|Hp%list_elem_of_singleton]%elem_of_app; [apply C; by left|by subst].
  - intros p Hp. apply Hf. rewrite !elem_of_cons in *. rewrite elem_of_app, list_elem_of_singleton in Hp. tauto.
Qed.

(** A change of links of the hash table, which now has [tbl']. *)
Lemma core_rewire c rng tbl tbl' all refs heap' t' : core c rng tbl all refs -> rewired (heap_ c) heap' ->
  (exists buckets, table_ok heap' t' buckets /\ concat buckets ≡ₚ tbl') -> (forall p, p ∈ tbl' -> p ∈ ids all) ->
  core (with_table c heap' t') rng tbl' all refs.
Proof.
  intros C (HN & HP & HY) Ht Hsub. split; cbn [with_table heap_ table_ usage_]; [|done| | | |apply C|apply C|].
  - eapply ring_ext; [apply C|]. intros p _. by rewrite HN, HP.
  - intros e He. rewrite HY. by apply C.
  - intros p Hp. rewrite HN. by apply (co_noself _ _ _ _ _ C).
  - intros p Hp. apply C. apply (live_view lh_next) in Hp. apply (live_view lh_next). fold (Nx (heap_ c) p). by rewrite <- HN.
  - intros p [Hp|Hp]; [apply C; by left|by apply Hsub].
Qed.

Lemma core_perm c rng tbl tbl' all all' refs refs' : core c rng tbl all refs -> tbl ≡ₚ tbl' -> all ≡ₚ all' -> (forall p, p ∈ ids all -> refs' p = refs p) ->
  core c rng tbl' all' refs'.
Proof.
  intros C Ht Ha Hr. assert (ids all ≡ₚ ids all') as Hids by (unfold ids; by rewrite Ha).
  assert (total all' = total all) as Htot. { clear -Ha. unfold total. induction Ha; simpl; lia. }
  split; [apply C| | | | | | |].
  - destruct (co_table _ _ _ _ _ C) as (b & T & Hb). exists b. split; [done|]. by rewrite Hb.
  - intros e He. rewrite <- Ha in He. rewrite Hr; [by apply C|]. by apply list_elem_of_fmap_2.
  - intros p Hp. apply (co_noself _ _ _ _ _ C). by rewrite Hids.
  - intros p Hp. rewrite <- Hids. by apply C.
  - rewrite <- Hids. apply C.
  - rewrite Htot. apply C.
  - intros p Hp. rewrite <- Hids. apply C. by rewrite Ht.
Qed.

Lemma core_KeyHash c rng tbl all refs e : core c rng tbl all refs -> e ∈ all -> KeyHash (heap_ c) (en_id e) = Some (en_key e, en_hash e).
Proof.
  intros C He. pose proof (co_nodes _ _ _ _ _ C e He) as H. unfold Pay, KeyHash in *. destruct (heap_ c !! en_id e); [|done]. simpl in *. congruence.
Qed.

Lemma core_entry c rng tbl all refs e e' : core c rng tbl all refs -> e ∈ all -> e' ∈ all -> en_id e = en_id e' -> e = e'.
Proof.
  intros C He He' E. pose proof (co_nodes _ _ _ _ _ C e He) as H1. pose proof (co_nodes _ _ _ _ _ C e' He') as H2. rewrite <- E in H2.
  destruct e, e'. cbn in *. rewrite H1 in H2. congruence.
Qed.

Definition has_key (key : bytes) (hash : Z) (e : Entry) : Prop := en_key e = key /\ en_hash e = hash.

Lemma core_table_Lookup c rng tbl all refs key hash : core c rng tbl all refs ->
  exists r, table_Lookup (heap_ c) (table_ c) key hash = Some r /\
    match r with
    | Some p => exists e, e ∈ all /\ en_id e = p /\ p ∈ tbl /\ has_key key hash e
    | None => forall e, e ∈ all -> en_id e ∈ tbl -> ~ has_key key hash e
    end.
Proof.
  intros C. destruct (co_table _ _ _ _ _ C) as (b & T & Hb). destruct (table_Lookup_ok _ _ _ key hash T) as (r & E & H). exists r. split; [done|].
  destruct r as [p|].
  - destruct H as [Hp Hk]. rewrite Hb in Hp. destruct (core_in_all _ _ _ _ _ p C) as (e & He & <-); [apply C; by right|]. exists e.
    rewrite (core_KeyHash _ _ _ _ _ _ C He) in Hk. simplify_eq. done.
  - intros e He Hi [<- <-]. rewrite <- Hb in Hi. by apply (H _ Hi), (core_KeyHash _ _ _ _ _ _ C).
Qed.

Lemma core_table_Remove c rng tbl all refs key hash : core c rng tbl all refs ->
  exists heap' t' r, table_Remove (heap_ c) (table_ c) key hash = Some (heap', t', r) /\
    match r with
    | Some p => exists e tbl', e ∈ all /\ en_id e = p /\ has_key key hash e /\ tbl ≡ₚ p :: tbl' /\ core (with_table c heap' t') rng tbl' all refs
    | None => (forall e, e ∈ all -> en_id e ∈ tbl -> ~ has_key key hash e) /\ core (with_table c heap' t') rng tbl all refs
    end.
Proof.
  intros C. destruct (co_table _ _ _ _ _ C) as (b & T & Hb). destruct (table_Remove_ok _ _ _ key hash T) as (h & t & b' & r & E & T' & R & H).
  exists h, t, r. split; [done|]. destruct r as [p|].
  - destruct H as [Hp Hk]. rewrite Hb in Hp. destruct (core_in_all _ _ _ _ _ p C) as (e & He & <-); [apply C; right; rewrite Hp; left|].
    exists e, (concat b'). rewrite (core_KeyHash _ _ _ _ _ _ C He) in Hk. simplify_eq. do 4 (split; [done|]).
    eapply core_rewire; [exact C|done|by exists b'|]. intros q Hq. apply C. right. rewrite Hp. by right.
  - destruct H as [-> Hno]. split.
    + intros e He Hi [<- <-]. rewrite <- Hb in Hi. by apply (Hno _ Hi), (core_KeyHash _ _ _ _ _ _ C).
    + eapply core_rewire; [exact C|done|by exists b|]. intros q Hq. apply C. by right.
Qed.

Lemma core_table_Insert c rng tbl all refs e : core c rng tbl all refs -> e ∈ all -> en_id e ∉ tbl -> len tbl < 2 ^ 31 ->
  exists heap' t' old, table_Insert (heap_ c) (table_ c) (en_id e) = Some (heap', t', old) /\
    match old with
    | Some p => exists o tbl', o ∈ all /\ en_id o = p /\ has_key (en_key e) (en_hash e) o /\ tbl ≡ₚ p :: tbl' /\
                  core (with_table c heap' t') rng (en_id e :: tbl') all refs
    | None => (forall o, o ∈ all -> en_id o ∈ tbl -> ~ has_key (en_key e) (en_hash e) o) /\ core (with_table c heap' t') rng (en_id e :: tbl) all refs
    end.
Proof.
  intros C He Hni Hmax. destruct (co_table _ _ _ _ _ C) as (b & T & Hb). assert (en_id e ∈ ids all) as Hi by by apply list_elem_of_fmap_2.
  destruct (table_Insert_ok _ _ _ (en_id e) (en_key e) (en_hash e) T) as (h & t & b' & r & E & T' & R & H);
    [by rewrite Hb|by apply (core_KeyHash _ _ _ _ _ _ C)|by apply (co_noself _ _ _ _ _ C)|unfold len; by rewrite Hb|].
  exists h, t, r. split; [done|]. destruct r as [p|].
  - destruct H as (Hk & r & Hp & Hp'). rewrite Hb in Hp. destruct (core_in_all _ _ _ _ _ p C) as (o & Ho & <-); [apply C; right; rewrite Hp; left|].
    exists o, r. rewrite (core_KeyHash _ _ _ _ _ _ C Ho) in Hk. injection Hk as Hk1 Hk2. do 4 (split; [done|]).
    eapply core_rewire; [exact C|done|by exists b'|]. intros q [->|Hq]%elem_of_cons; [done|]. apply C. right. rewrite Hp. by right.
  - destruct H as [Hno Hp]. split.
    + intros o Ho Hio [E1 E2]. rewrite <- Hb in Hio. apply (Hno _ Hio). rewrite <- E1, <- E2. by apply (core_KeyHash _ _ _ _ _ _ C).
    + eapply core_rewire; [exact C|done|exists b'; by rewrite Hp, Hb|]. intros q [->|Hq]%elem_of_cons; [done|]. apply C. by right.
Qed.

Definition set_ref (refs : nat -> Z) (p : nat) (n : Z) (q : nat) : Z := if decide (q = p) then n else refs q.

(** A write to the reference count of a node. *)
Lemma core_set_refs c rng tbl all refs e h n : core c rng tbl all refs -> e ∈ all -> heap_ c !! en_id e = Some h ->
  core (with_heap c (<[en_id e := with_refs h n]> (heap_ c))) rng tbl all (set_ref refs (en_id e) n).
Proof.
  intros C He Hh. assert (forall p, Nx (<[en_id e := with_refs h n]> (heap_ c)) p = Nx (heap_ c) p) as HN by (intros p; view).
  split; cbn [with_heap heap_ table_ usage_]; [| | | | |apply C|apply C|apply C].
  - eapply ring_ext; [apply C|]. intros p _. split; [done|view].
  - destruct (co_table _ _ _ _ _ C) as (b & T & Hb). exists b. split; [|done]. eapply table_ok_ext; [exact T|]. intros p Hp. split; [view|].
    split; [unfold KeyHash; view|]. rewrite HN. by apply T.
  - intros e' He'. pose proof (co_nodes _ _ _ _ _ C e' He') as H. unfold set_ref. case_decide as Ed.
    + rewrite (core_entry _ _ _ _ _ e' e C He' He Ed) in *. unfold Pay in *. rewrite lookup_insert_eq, Hh in *. simpl in *. congruence.
    + unfold Pay in *. rewrite lookup_insert_ne by done. done.
  - intros p Hp. rewrite HN. by apply (co_noself _ _ _ _ _ C).
  - intros p Hp. apply C. apply (live_view lh_next) in Hp. apply (live_view lh_next). fold (Nx (heap_ c) p). by rewrite <- HN.
Qed.

Lemma core_node c rng tbl all refs e : core c rng tbl all refs -> e ∈ all -> exists h, heap_ c !! en_id e = Some h /\ lh_refs h = refs (en_id e) /\
  lh_value h = Some (en_value e) /\ lh_charge h = en_charge e /\ lh_key_data h = en_key e /\ lh_hash h = en_hash e.
Proof.
  intros C He. pose proof (co_nodes _ _ _ _ _ C e He) as H. unfold Pay in H. destruct (heap_ c !! en_id e) as [h|]; [|done]. simpl in H. simplify_eq. by exists h.
Qed.

Lemma core_Unref c rng tbl all refs e : core c rng tbl all refs -> e ∈ all -> 1 < refs (en_id e) ->
  exists c', Unref c (en_id e) = Some c' /\ core c' rng tbl all (set_ref refs (en_id e) (refs (en_id e) - 1)) /\
    capacity_ c' = capacity_ c /\ deleted_ c' = deleted_ c.
Proof.
  intros C He Hr. destruct (core_node _ _ _ _ _ e C He) as (h & Hh & Er & _). unfold Unref. rewrite Hh. cbn [mbind option_bind].
  rewrite (proj2 (Z.leb_gt _ _)) by lia. rewrite (proj2 (Z.leb_gt _ _)) by lia. rewrite Er. eexists. split; [done|]. split; [by eapply core_set_refs|done].
Qed.

Lemma core_Unref_last c rng tbl all refs e : core c rng tbl (e :: all) refs -> refs (en_id e) = 1 -> en_id e ∉ rng -> en_id e ∉ tbl ->
  exists c', Unref c (en_id e) = Some c' /\ core c' rng tbl all refs /\ capacity_ c' = capacity_ c /\
    deleted_ c' = deleted_ c ++ [(en_key e, Some (en_value e))].
Proof.
  intros C Hr Hrng Htbl. assert (e ∈ e :: all) as He by left. destruct (core_node _ _ _ _ _ e C He) as (h & Hh & Er & Ev & Ech & Ek & Eh).
  assert (handle_key (heap_ c) (en_id e) = Some (en_key e)) as Hk.
  { eapply handle_key_ok; [by apply (core_KeyHash _ _ _ _ _ _ C)|]. apply (co_noself _ _ _ _ _ C). left. }
  unfold Unref. rewrite Hh. cbn [mbind option_bind]. rewrite (proj2 (Z.leb_gt _ _)) by lia. rewrite (proj2 (Z.leb_le _ _)) by lia.
  rewrite Hk. cbn [mbind option_bind]. eexists. split; [done|]. rewrite Ev, Ech. split; [|done].
  pose proof (co_nodup _ _ _ _ _ C) as Hnd. cbn [ids map] in Hnd. apply NoDup_cons in Hnd as [H0 Hnd]. pose proof Hnd as Hnd'. apply NoDup_cons in Hnd as [Hne Hnd].
  assert (forall p, p <> en_id e -> delete (en_id e) (heap_ c) !! p = heap_ c !! p) as Hdel by (intros p Hp; by rewrite lookup_delete_ne).
  assert (forall p, p ∈ ids all -> p <> en_id e) as Hids by (by intros p Hp ->).
  split; cbn [heap_ table_ usage_].
  - eapply ring_ext; [apply C|]. intros p Hp. unfold Nx, Pv. rewrite Hdel; [done|]. intros ->. apply elem_of_cons in Hp as [E|Hp]; [|done]. apply H0. rewrite <- E. left.
  - destruct (co_table _ _ _ _ _ C) as (b & T & Hb). exists b. split; [|done]. eapply table_ok_ext; [exact T|]. intros p Hp.
    assert (p <> en_id e) as Hpe by (intros ->; rewrite Hb in Hp; done). unfold NH, KeyHash, Nx. rewrite Hdel by done. split; [done|]. split; [done|]. by apply T.
  - intros e' He'. unfold Pay. rewrite Hdel by (apply Hids; by apply list_elem_of_fmap_2). apply (co_nodes _ _ _ _ _ C). by right.
  - intros p Hp. unfold Nx. rewrite Hdel by by apply Hids. apply (co_noself _ _ _ _ _ C). by right.
  - intros p Hp. destruct (decide (p = en_id e)) as [->|Hpe]; [rewrite lookup_delete_eq in Hp; by destruct Hp|].
    rewrite Hdel in Hp by done. destruct (co_live _ _ _ _ _ C p Hp) as [?|[?|?]%elem_of_cons]; [by left|done|by right].
  - apply NoDup_cons. split; [|done]. intros Hi. apply H0. by right.
  - rewrite (co_usage _ _ _ _ _ C). cbn [total fold_right]. fold (total all). unfold u64. rewrite Zminus_mod_idemp_l. f_equal. lia.
  - intros p Hp. assert (p ∈ ids (e :: all)) as Hin by by apply C. cbn [ids map] in Hin. apply elem_of_cons in Hin as [->|?]; [|done]. by destruct Hp.
Qed.

Lemma core_new c rng tbl all refs e next_hash next prev n : core c rng tbl all refs -> heap_ c !! en_id e = None -> next <> en_id e ->
  core {| capacity_ := capacity_ c; usage_ := u64 (usage_ c + en_charge e);
          heap_ := <[en_id e := {| lh_value := Some (en_value e); lh_next_hash := next_hash; lh_next := next; lh_prev := prev; lh_charge := en_charge e;
                                   lh_key_data := en_key e; lh_refs := n; lh_hash := en_hash e |}]> (heap_ c);
          table_ := table_ c; deleted_ := deleted_ c |} rng tbl (e :: all) (set_ref refs (en_id e) n).
Proof.
  intros C Hn Hnext. assert (forall p, p = lru_ \/ p ∈ ids all -> p <> en_id e) as Hne.
  { intros p Hp ->. assert (is_Some (heap_ c !! en_id e)) as [h Hh]; [|congruence]. destruct Hp as [E|Hp]; [|by eapply core_alive].
    destruct (seg_dom _ _ _ _ _ (proj1 (co_ring _ _ _ _ _ C))) as [HN _]. apply (live_view lh_next), HN. rewrite E. left. }
  split; cbn [heap_ table_ usage_].
  - eapply ring_ext; [apply C|]. intros p Hp. unfold Nx, Pv. rewrite lookup_insert_ne; [done|]. intros E. symmetry in E. revert E. apply Hne.
    apply elem_of_cons in Hp as [?|?]; [by left|right; apply C; by left].
  - destruct (co_table _ _ _ _ _ C) as (b & T & Hb). exists b. split; [|done]. eapply table_ok_ext; [exact T|]. intros p Hp.
    assert (en_id e <> p) as Hpe. { intros E. symmetry in E. revert E. apply Hne. right. apply C. right. by rewrite <- Hb. }
    unfold NH, KeyHash, Nx. rewrite lookup_insert_ne by done. split; [done|]. split; [done|]. by apply T.
  - intros e' [->|He']%elem_of_cons; unfold Pay, set_ref.
    + by rewrite lookup_insert_eq, decide_True.
    + assert (en_id e' <> en_id e) by (apply Hne; right; by apply list_elem_of_fmap_2). rewrite lookup_insert_ne, decide_False by done. by apply C.
  - intros p [->|Hp]%elem_of_cons; unfold Nx; [rewrite lookup_insert_eq; simpl; congruence|].
    assert (p <> en_id e) by (apply Hne; by right). rewrite lookup_insert_ne by done. by apply (co_noself _ _ _ _ _ C).
  - intros p Hp. destruct (decide (p = en_id e)) as [->|Hpe]; [right; left|]. rewrite lookup_insert_ne in Hp by done.
    destruct (co_live _ _ _ _ _ C p Hp); [by left|right; by right].
  - pose proof (co_nodup _ _ _ _ _ C) as Hnd. apply NoDup_cons in Hnd as [H0 Hnd]. cbn [ids map]. apply NoDup_cons. split.
    + intros [E|?]%elem_of_cons; [|done]. revert E. apply Hne. by left.
    + apply NoDup_cons. split; [|done]. intros Hi. by apply (Hne (en_id e)); [by right|].
  - rewrite (co_usage _ _ _ _ _ C). cbn [total fold_right]. fold (total all). unfold u64. rewrite Zplus_mod_idemp_l. f_equal. lia.
  - intros p Hp. right. by apply C.
Qed.

(** ** The reference: a list in the order of last use *)
Record Model := {
  m_capacity : Z;
  m_entries : list Entry;                       (** the oldest first *)
  m_detached : list Entry;                      (** out of the cache, but held *)
  m_handles : list nat;                         (** what clients have to release *)
  m_deleted : list (bytes * option V);
}.

Definition held (handles : list nat) (p : nat) : Z := len (List.filter (Nat.eqb p) handles).

Definition without (p : nat) (es : list Entry) : list Entry := List.filter (fun e => negb (en_id e =? p)%nat) es.

Definition find_key (key : bytes) (hash : Z) (es : list Entry) : option Entry :=
  List.find (fun e => Slice_eqb (en_key e) key && (en_hash e =? hash)) es.

Definition m_usage (m : Model) : Z := u64 (total (m_entries m ++ m_detached m)).

(** [e] leaves the cache: it is deleted, or kept for its handles. *)
Definition m_drop (m : Model) (e : Entry) : Model :=
  if held (m_handles m) (en_id e) =? 0 then
    {| m_capacity := m_capacity m; m_entries := without (en_id e) (m_entries m); m_detached := m_detached m; m_handles := m_handles m;
       m_deleted := m_deleted m ++ [(en_key e, Some (en_value e))] |}
  else
    {| m_capacity := m_capacity m; m_entries := without (en_id e) (m_entries m); m_detached := e :: m_detached m; m_handles := m_handles m;
       m_deleted := m_deleted m |}.

(** The least recently used entries leave while there is too much. *)
Fixpoint m_evict (n : nat) (m : Model) : Model :=
  match n, m_entries m with
  | S n, e :: _ => if m_capacity m <? m_usage m then m_evict n (m_drop m e) else m
  | _, _ => m
  end.

Definition m_Insert (m : Model) (e : Entry) : Model :=
  let old := find_key (en_key e) (en_hash e) (m_entries m) in
  let m := {| m_capacity := m_capacity m; m_entries := m_entries m ++ [e]; m_detached := m_detached m; m_handles := en_id e :: m_handles m;
              m_deleted := m_deleted m |} in
  let m := match old with Some o => m_drop m o | None => m end in
  m_evict (length (m_entries m)) m.

Definition m_Lookup (m : Model) (key : bytes) (hash : Z) : Model * option nat :=
  match find_key key hash (m_entries m) with
  | Some e =>
      ({| m_capacity := m_capacity m; m_entries := without (en_id e) (m_entries m) ++ [e]; m_detached := m_detached m;
          m_handles := en_id e :: m_handles m; m_deleted := m_deleted m |}, Some (en_id e))
  | None => (m, None)
  end.

Fixpoint remove_one (p : nat) (l : list nat) : list nat :=
  match l with [] => [] | q :: l => if (q =? p)%nat then l else q :: remove_one p l end.

Definition m_Release (m : Model) (p : nat) : Model :=
  let handles := remove_one p (m_handles m) in
  match List.find (fun e => (en_id e =? p)%nat) (m_detached m) with
  | Some e =>
      if held handles p =? 0 then
        {| m_capacity := m_capacity m; m_entries := m_entries m; m_detached := without p (m_detached m); m_handles := handles;
           m_deleted := m_deleted m ++ [(en_key e, Some (en_value e))] |}
      else {| m_capacity := m_capacity m; m_entries := m_entries m; m_detached := m_detached m; m_handles := handles; m_deleted := m_deleted m |}
  | None => {| m_capacity := m_capacity m; m_entries := m_entries m; m_detached := m_detached m; m_handles := handles; m_deleted := m_deleted m |}
  end.

Definition m_Erase (m : Model) (key : bytes) (hash : Z) : Model :=
  match find_key key hash (m_entries m) with Some e => m_drop m e | None => m end.

(** ** The refinement *)
Definition refs_of (m : Model) (p : nat) : Z := held (m_handles m) p + if decide (p ∈ ids (m_entries m)) then 1 else 0.

(** Every handle is of a live node, and a node out of the cache has a handle. *)
Definition pinned (m : Model) : Prop :=
  (forall p, p ∈ m_handles m -> p ∈ ids (m_entries m ++ m_detached m)) /\ (forall e, e ∈ m_detached m -> en_id e ∈ m_handles m).

Record rep (c : LRUCache) (m : Model) : Prop := {
  re_core : core c (ids (m_entries m)) (ids (m_entries m)) (m_entries m ++ m_detached m) (refs_of m);
  re_pinned : pinned m;
  re_capacity : capacity_ c = m_capacity m;
  re_deleted : deleted_ c = m_deleted m;
}.

Lemma held_cons q handles p : held (q :: handles) p = held handles p + if decide (q = p) then 1 else 0.
Proof. unfold held. cbn [List.filter]. destruct (Nat.eqb_spec p q); case_decide; try congruence; rewrite ?len_cons; lia. Qed.

Lemma held_nonneg handles p : 0 <= held handles p.
Proof. apply len_nonneg. Qed.

Lemma held_zero handles p : held handles p = 0 <-> p ∉ handles.
Proof.
  induction handles as [|q handles IH]; [split; [by intros _ H%elem_of_nil|done]|]. rewrite held_cons, not_elem_of_cons. pose proof (held_nonneg handles p).
  case_decide; [split; [lia|intros [? _]; congruence]|]. rewrite <- IH. split; [intros; split; [congruence|lia]|intros [_ ?]; lia].
Qed.

Lemma held_remove_one p q l : p ∈ l -> held (remove_one p l) q = held l q - if decide (q = p) then 1 else 0.
Proof.
  induction l as [|x l IH]; [by intros H%elem_of_nil|]. intros Hp. cbn [remove_one]. destruct (Nat.eqb_spec x p) as [->|Hne].
  - rewrite held_cons. repeat case_decide; simplify_eq; lia.
  - rewrite !held_cons, IH; [lia|]. apply elem_of_cons in Hp as [?|?]; [congruence|done].
Qed.

Lemma without_split l1 e l2 : NoDup (ids (l1 ++ e :: l2)) -> without (en_id e) (l1 ++ e :: l2) = l1 ++ l2.
Proof.
  intros Hnd. unfold ids in Hnd. rewrite map_app in Hnd. cbn [map] in Hnd. apply NoDup_app in Hnd as (_ & H1 & H2). apply NoDup_cons in H2 as [H2 _].
  assert (forall l, en_id e ∉ ids l -> without (en_id e) l = l) as Hkeep.
  { induction l as [|x l IH]; intros Hx; [done|]. cbn [without List.filter]. cbn [ids map] in Hx. apply not_elem_of_cons in Hx as [Hx1 Hx2].
    rewrite (proj2 (Nat.eqb_neq _ _)) by done. cbn [negb]. f_equal. by apply IH. }
  unfold without. rewrite List.filter_app. cbn [List.filter]. rewrite Nat.eqb_refl. cbn [negb]. f_equal; apply Hkeep; [|done].
  intros Hx. apply (H1 _ Hx). left.
Qed.

Lemma find_key_Some key hash es e : find_key key hash es = Some e -> e ∈ es /\ has_key key hash e.
Proof.
  intros H. apply List.find_some in H as [Hi H]. split; [by apply list_elem_of_In|]. apply andb_true_iff in H as [H1 H2].
  split; [by apply Slice_eqb_spec|by apply Z.eqb_eq].
Qed.

Lemma find_key_None key hash es e : find_key key hash es = None -> e ∈ es -> ~ has_key key hash e.
Proof.
  intros H Hi [E1 E2]. apply list_elem_of_In in Hi. pose proof (List.find_none _ _ H e Hi) as Hf. cbn beta in Hf.
  by rewrite (proj2 (Slice_eqb_spec _ _) E1), (proj2 (Z.eqb_eq _ _) E2) in Hf.
Qed.

Lemma ids_app l1 l2 : ids (l1 ++ l2) = ids l1 ++ ids l2.
Proof. apply map_app. Qed.

Lemma Unref_drop c m e l1 l2 tbl : m_entries m = l1 ++ e :: l2 -> core c (ids (l1 ++ l2)) tbl (m_entries m ++ m_detached m) (refs_of m) ->
  tbl ≡ₚ ids (l1 ++ l2) -> pinned m -> capacity_ c = m_capacity m -> deleted_ c = m_deleted m ->
  exists c', Unref c (en_id e) = Some c' /\ rep c' (m_drop m e).
Proof.
  intros Em C Ht [P1 P2] Ecap Edel. pose proof (co_nodup _ _ _ _ _ C) as Hnd. apply NoDup_cons in Hnd as [_ Hnd].
  assert (NoDup (ids (m_entries m))) as HndE by (rewrite ids_app in Hnd; by apply NoDup_app in Hnd as (? & _)).
  assert (m_entries m ++ m_detached m ≡ₚ e :: (l1 ++ l2) ++ m_detached m) as Hperm by (rewrite Em; solve_Permutation).
  assert (NoDup (en_id e :: ids ((l1 ++ l2) ++ m_detached m))) as Hnd2. { unfold ids in Hnd |- *. by rewrite Hperm in Hnd. }
  apply NoDup_cons in Hnd2 as [He Hnd2].
  assert (without (en_id e) (m_entries m) = l1 ++ l2) as Hw by (rewrite Em in *; by apply without_split).
  assert (refs_of m (en_id e) = held (m_handles m) (en_id e) + 1) as Hre.
  { unfold refs_of. rewrite decide_True; [done|]. rewrite Em, ids_app, elem_of_app. right. left. }
  assert (forall p, p <> en_id e -> p ∈ ids (m_entries m) <-> p ∈ ids (l1 ++ l2)) as Hin.
  { intros p Hp. rewrite Em, !ids_app, !elem_of_app. cbn [ids map]. rewrite elem_of_cons. tauto. }
  assert (forall p, p ∈ ids ((l1 ++ l2) ++ m_detached m) -> held (m_handles m) p + (if decide (p ∈ ids (l1 ++ l2)) then 1 else 0) = refs_of m p) as Hrefs.
  { intros p Hp. assert (p <> en_id e) as Hpe by (by intros ->). unfold refs_of. destruct (Hin p Hpe). do 2 case_decide; tauto || lia. }
  assert (forall p, p ∈ ids (m_entries m ++ m_detached m) -> p = en_id e \/ p ∈ ids ((l1 ++ l2) ++ m_detached m)) as Hall.
  { intros p. unfold ids. rewrite Hperm. cbn [map]. by rewrite elem_of_cons. }
  pose proof (held_nonneg (m_handles m) (en_id e)) as Hn. unfold m_drop. destruct (Z.eqb_spec (held (m_handles m) (en_id e)) 0) as [Hz|Hz].
  - destruct (core_Unref_last c (ids (l1 ++ l2)) tbl ((l1 ++ l2) ++ m_detached m) (refs_of m) e) as (c' & E & C' & E1 & E2).
    { eapply core_perm; [exact C|done|done|done]. } { lia. }
    { intros H. apply He. rewrite ids_app, elem_of_app. by left. } { intros H. rewrite Ht in H. apply He. rewrite ids_app, elem_of_app. by left. }
    exists c'. split; [done|]. split; cbn [m_entries m_detached m_handles m_deleted m_capacity]; rewrite ?Hw; [| |congruence|congruence].
    + eapply core_perm; [exact C'|done|done|exact Hrefs].
    + split; cbn [m_entries m_detached m_handles]; [|done]. intros p Hp. destruct (Hall p (P1 p Hp)) as [->|?]; [|done]. by apply held_zero in Hz.
  - destruct (core_Unref c (ids (l1 ++ l2)) tbl _ (refs_of m) e C) as (c' & E & C' & E1 & E2); [rewrite Hperm; left|lia|].
    exists c'. split; [done|]. split; cbn [m_entries m_detached m_handles m_deleted m_capacity]; rewrite ?Hw; [| |congruence|congruence].
    + eapply core_perm; [exact C'|done|rewrite Hperm; solve_Permutation|]. intros p Hp. unfold set_ref, refs_of. cbn [m_entries m_handles].
      destruct (decide (p = en_id e)) as [->|Ed]; [rewrite decide_False; [unfold refs_of in Hre; lia|intros H; apply He; rewrite ids_app, elem_of_app; by left]|].
      destruct (Hall p Hp) as [?|Hp']; [done|]. by rewrite Hrefs.
    + split; cbn [m_entries m_detached m_handles]; rewrite ?Hw.
      * intros p Hp. destruct (Hall p (P1 p Hp)) as [->|Hp']; rewrite ids_app, elem_of_app; cbn [ids map]; rewrite elem_of_cons; [tauto|].
        rewrite ids_app, elem_of_app in Hp'. tauto.
      * intros e' [->|He']%elem_of_cons; [|by apply P2]. destruct (decide (en_id e ∈ m_handles m)); [done|]. by rewrite <- held_zero in *.
Qed.

(** An entry of the cache is found by its address. *)
Lemma entries_split es p : p ∈ ids es -> exists l1 e l2, es = l1 ++ e :: l2 /\ en_id e = p.
Proof. intros Hp. apply list_elem_of_fmap in Hp as (e & -> & He). apply list_elem_of_split in He as (l1 & l2 & ->). by exists l1, e, l2. Qed.

Lemma rep_keys c m e e' : rep c m -> e ∈ m_entries m -> e' ∈ m_entries m -> has_key (en_key e') (en_hash e') e -> e = e'.
Proof.
  intros [C _ _ _] He He' [E1 E2]. destruct (co_table _ _ _ _ _ C) as (b & T & Hb).
  apply (core_entry _ _ _ _ _ _ _ C); [apply elem_of_app; by left|apply elem_of_app; by left|].
  apply (to_unique _ _ _ T); [rewrite Hb; by apply list_elem_of_fmap_2|rewrite Hb; by apply list_elem_of_fmap_2|].
  rewrite !(core_KeyHash _ _ _ _ _ _ C) by (apply elem_of_app; by left). congruence.
Qed.

Lemma rep_entry c m e : rep c m -> e ∈ m_entries m ++ m_detached m -> en_id e ∈ ids (m_entries m) -> e ∈ m_entries m.
Proof.
  intros [C _ _ _] He Hi. apply list_elem_of_fmap in Hi as (e' & E & He'). by rewrite (core_entry _ _ _ _ _ e e' C He (proj2 (elem_of_app _ _ _) (or_introl He')) E).
Qed.

Lemma find_key_rep c m key hash e : rep c m -> e ∈ m_entries m -> has_key key hash e -> find_key key hash (m_entries m) = Some e.
Proof.
  intros R He [<- <-]. destruct (find_key _ _ _) as [e'|] eqn:E; [|by destruct (find_key_None _ _ _ e E He)].
  apply find_key_Some in E as [He' Hk]. f_equal. by apply (rep_keys c m).
Qed.

Lemma Erase_ok c m key hash : rep c m -> exists c', Erase c key hash = Some c' /\ rep c' (m_Erase m key hash).
Proof.
  intros R. pose proof (re_core _ _ R) as C. unfold Erase, m_Erase.
  destruct (core_table_Remove _ _ _ _ _ key hash C) as (heap & t & r & -> & H). cbn [mbind option_bind]. destruct r as [p|].
  - destruct H as (e & tbl & He & <- & Hk & Ht & C'). assert (e ∈ m_entries m) as Hem by (apply (rep_entry c); [done|done|rewrite Ht; left]).
    rewrite (find_key_rep c m key hash e R Hem Hk). apply list_elem_of_split in Hem as (l1 & l2 & Em).
    assert (ids (m_entries m) = ids l1 ++ en_id e :: ids l2) as Eids by (rewrite Em, ids_app; done). rewrite Eids in C'.
    destruct (core_LRU_Remove _ _ _ _ _ _ _ C') as (heap' & -> & C2). cbn [mbind option_bind]. rewrite <- ids_app in C2.
    apply (Unref_drop _ m e l1 l2 tbl Em C2); [|apply R|apply R|apply R].
    rewrite Eids in Ht. rewrite ids_app. apply Permutation_cons_inv with (a := en_id e). rewrite <- Ht. solve_Permutation.
  - destruct H as [Hno C']. destruct (find_key key hash (m_entries m)) as [e|] eqn:E.
    + apply find_key_Some in E as [He Hk]. destruct (Hno e); [apply elem_of_app; by left|by apply list_elem_of_fmap_2|done].
    + eexists. split; [done|]. split; [exact C'|apply R|apply R|apply R].
Qed.

Lemma remove_one_sub p q l : q ∈ remove_one p l -> q ∈ l.
Proof.
  induction l as [|x l IH]; cbn [remove_one]; [done|]. destruct (Nat.eqb_spec x p); [by right|]. intros [->|H]%elem_of_cons; [left|right; auto].
Qed.

Lemma refs_of_release m p q : p ∈ m_handles m ->
  held (remove_one p (m_handles m)) q + (if decide (q ∈ ids (m_entries m)) then 1 else 0) = set_ref (refs_of m) p (refs_of m p - 1) q.
Proof. intros Hp. rewrite held_remove_one by done. unfold set_ref, refs_of. destruct (decide (q = p)) as [->|]; lia. Qed.

Lemma find_id es p : match List.find (fun e => (en_id e =? p)%nat) es with Some e => e ∈ es /\ en_id e = p | None => p ∉ ids es end.
Proof.
  destruct (List.find _ es) as [e|] eqn:E.
  - apply List.find_some in E as [H1 H2]. split; [by apply list_elem_of_In|by apply Nat.eqb_eq].
  - intros Hi. apply list_elem_of_fmap in Hi as (e & -> & He). apply list_elem_of_In in He. apply (List.find_none _ _ E) in He. by rewrite Nat.eqb_refl in He.
Qed.

(** A node that keeps another reference. *)
Lemma Release_keeps c m p : rep c m -> p ∈ m_handles m -> 1 < refs_of m p -> (p ∈ ids (m_detached m) -> p ∈ remove_one p (m_handles m)) ->
  exists c', Release c p = Some c' /\ rep c' {| m_capacity := m_capacity m; m_entries := m_entries m; m_detached := m_detached m;
                                             m_handles := remove_one p (m_handles m); m_deleted := m_deleted m |}.
Proof.
  intros R Hp Hr Hd. pose proof (re_core _ _ R) as C. destruct (re_pinned _ _ R) as [P1 P2]. pose proof (P1 p Hp) as Hi.
  destruct (core_in_all _ _ _ _ _ p C Hi) as (e & He & <-). destruct (core_Unref _ _ _ _ _ e C He Hr) as (c' & E & C' & E1 & E2).
  exists c'. split; [done|]. split; cbn [m_entries m_detached m_handles m_capacity m_deleted]; [|split|rewrite E1; apply R|rewrite E2; apply R]; cbn [m_entries m_detached m_handles].
  - eapply core_perm; [exact C'|done|done|]. intros q _. unfold refs_of at 1. cbn [m_handles m_entries]. by apply refs_of_release.
  - intros q Hq. apply P1. by eapply remove_one_sub.
  - intros e' He'. destruct (decide (en_id e' = en_id e)) as [Ei|Ei]; [rewrite Ei; apply Hd; rewrite <- Ei; by apply list_elem_of_fmap_2|].
    pose proof (P2 e' He') as Hh. destruct (decide (en_id e' ∈ remove_one (en_id e) (m_handles m))) as [?|Hn]; [done|]. apply held_zero in Hn.
    rewrite held_remove_one, decide_False in Hn by done. assert (held (m_handles m) (en_id e') = 0) as Hz by lia. by apply held_zero in Hz.
Qed.

Lemma Release_ok c m p : rep c m -> p ∈ m_handles m -> exists c', Release c p = Some c' /\ rep c' (m_Release m p).
Proof.
  intros R Hp. pose proof (re_core _ _ R) as C. destruct (re_pinned _ _ R) as [P1 P2]. pose proof (P1 p Hp) as Hi.
  pose proof (co_nodup _ _ _ _ _ C) as Hnd. apply NoDup_cons in Hnd as [_ Hnd]. pose proof Hnd as Hnd'. rewrite ids_app in Hnd. apply NoDup_app in Hnd as (Hn1 & Hn2 & Hn3).
  assert (0 < held (m_handles m) p) as Hpos.
  { pose proof (held_nonneg (m_handles m) p). assert (held (m_handles m) p <> 0) by (rewrite held_zero; tauto). lia. }
  unfold m_Release. pose proof (find_id (m_detached m) p) as Hf. destruct (List.find _ _) as [e|].
  - destruct Hf as [He <-]. assert (en_id e ∈ ids (m_detached m)) as Hed by by apply list_elem_of_fmap_2.
    assert (en_id e ∉ ids (m_entries m)) as Hne by (intros H; by apply (Hn2 _ H)).
    assert (refs_of m (en_id e) = held (m_handles m) (en_id e)) as Hre by (unfold refs_of; rewrite decide_False by done; lia).
    destruct (Z.eqb_spec (held (remove_one (en_id e) (m_handles m)) (en_id e)) 0) as [Hz|Hz].
    + pose proof Hz as Hz'. rewrite held_remove_one, decide_True in Hz by done. apply list_elem_of_split in He as (l1 & l2 & Ed).
      assert (m_entries m ++ m_detached m ≡ₚ e :: m_entries m ++ l1 ++ l2) as Hperm by (rewrite Ed; solve_Permutation).
      assert (without (en_id e) (m_detached m) = l1 ++ l2) as Hw by (rewrite Ed in *; by apply without_split).
      destruct (core_Unref_last c (ids (m_entries m)) (ids (m_entries m)) (m_entries m ++ l1 ++ l2) (refs_of m) e) as (c' & E & C' & E1 & E2);
        [by eapply core_perm|lia|done|done|].
      assert (NoDup (en_id e :: ids (m_entries m ++ l1 ++ l2))) as Hnd2. { unfold ids in Hnd' |- *. by rewrite Hperm in Hnd'. }
      apply NoDup_cons in Hnd2 as [Hx _].
      exists c'. split; [done|]. rewrite Hw. split; cbn [m_entries m_detached m_handles m_capacity m_deleted]; [|split|rewrite E1; apply R|rewrite E2; f_equal; apply R];
        cbn [m_entries m_detached m_handles].
      * eapply core_perm; [exact C'|done|done|]. intros q Hq. unfold refs_of at 1. cbn [m_handles m_entries].
        rewrite refs_of_release by done. unfold set_ref. apply decide_False. by intros ->.
      * intros q Hq. pose proof (P1 q (remove_one_sub _ _ _ Hq)) as Hqi. unfold ids in Hqi. rewrite Hperm in Hqi. cbn [map] in Hqi. apply elem_of_cons in Hqi as [->|?]; [|done].
        by apply held_zero in Hz'.
      * intros e' He'. assert (en_id e' ∈ m_handles m) as Hh. { apply P2. rewrite Ed, !elem_of_app, elem_of_cons in *. tauto. }
        assert (en_id e' <> en_id e) as Hee. { intros Ei. apply Hx. rewrite <- Ei. apply list_elem_of_fmap_2. apply elem_of_app. by right. }
        destruct (decide (en_id e' ∈ remove_one (en_id e) (m_handles m))) as [?|Hn]; [done|]. apply held_zero in Hn.
        rewrite held_remove_one, decide_False in Hn by done. assert (held (m_handles m) (en_id e') = 0) as Hz2 by lia. by apply held_zero in Hz2.
    + apply Release_keeps; [done|done| |].
      * rewrite held_remove_one, decide_True in Hz by done. lia.
      * intros _. destruct (decide (en_id e ∈ remove_one (en_id e) (m_handles m))) as [?|Hn]; [done|]. by apply held_zero in Hn.
  - apply Release_keeps; [done|done| |done]. rewrite ids_app in Hi. apply elem_of_app in Hi as [Hi|?]; [|done]. unfold refs_of. rewrite decide_True by done. lia.
Qed.

Lemma rep_nodup c m : rep c m -> NoDup (ids (m_entries m)).
Proof. intros R. pose proof (co_nodup _ _ _ _ _ (re_core _ _ R)) as H. apply NoDup_cons in H as [_ H]. rewrite ids_app in H. by apply NoDup_app in H as (? & _). Qed.

Lemma Lookup_ok c m key hash : rep c m -> len (m_handles m) < 2 ^ 32 - 2 ->
  exists c', Lookup c key hash = Some (c', snd (m_Lookup m key hash)) /\ rep c' (fst (m_Lookup m key hash)).
Proof.
  intros R Hmax. pose proof (re_core _ _ R) as C. destruct (re_pinned _ _ R) as [P1 P2]. unfold Lookup, m_Lookup.
  destruct (core_table_Lookup _ _ _ _ _ key hash C) as (r & -> & H). cbn [mbind option_bind]. destruct r as [p|].
  - destruct H as (e & He & <- & Hi & Hk). assert (e ∈ m_entries m) as Hem by by apply (rep_entry c).
    rewrite (find_key_rep c m key hash e R Hem Hk). cbn [fst snd]. destruct (core_node _ _ _ _ _ e C He) as (h & Hh & Er & _).
    unfold store. rewrite Hh. cbn [mbind option_bind].
    assert (0 <= held (m_handles m) (en_id e) <= len (m_handles m)) as Hheld.
    { unfold held, len. pose proof (List.filter_length_le (Nat.eqb (en_id e)) (m_handles m)). lia. }
    assert (refs_of m (en_id e) = held (m_handles m) (en_id e) + 1) as Hre by (unfold refs_of; by rewrite decide_True).
    replace (u32 (lh_refs h + 1)) with (refs_of m (en_id e) + 1) by (rewrite Er; unfold u32; rewrite Z.mod_small; lia).
    pose proof (core_set_refs _ _ _ _ _ e h (refs_of m (en_id e) + 1) C He Hh) as C1. pose proof (rep_nodup _ _ R) as Hnd.
    apply list_elem_of_split in Hem as (l1 & l2 & Em). assert (ids (m_entries m) = ids l1 ++ en_id e :: ids l2) as Eids by (rewrite Em, ids_app; done).
    assert (without (en_id e) (m_entries m) = l1 ++ l2) as Hw by (rewrite Em in *; by apply without_split).
    rewrite Eids in C1 at 1. destruct (core_LRU_Remove _ _ _ _ _ _ _ C1) as (h2 & E2 & C2). cbn [with_heap heap_] in E2. rewrite E2. cbn [mbind option_bind].
    destruct (core_LRU_Append _ _ (en_id e) _ _ _ C2) as (h3 & E3 & C3); [by apply list_elem_of_fmap_2| |].
    { rewrite Eids in Hnd. apply NoDup_app in Hnd as (_ & H1 & H2). apply NoDup_cons in H2 as [H2 _]. rewrite elem_of_app. intros [H|H]; [|done]. apply (H1 _ H). left. }
    cbn [with_heap heap_] in E3. rewrite E3. cbn [mbind option_bind]. eexists. split; [done|]. rewrite Hw.
    assert (ids ((l1 ++ l2) ++ [e]) ≡ₚ ids (m_entries m)) as Hpe by (rewrite Eids, !ids_app; cbn [ids map]; solve_Permutation).
    split; cbn [m_entries m_detached m_handles m_capacity m_deleted]; [|split|apply R|apply R]; cbn [m_entries m_detached m_handles].
    + assert (ids ((l1 ++ l2) ++ [e]) = (ids l1 ++ ids l2) ++ [en_id e]) as Erng by (by rewrite !ids_app). rewrite Erng at 1.
      eapply core_perm; [exact C3|by rewrite Hpe|rewrite Em; solve_Permutation|]. intros q _. unfold refs_of at 1, set_ref. cbn [m_handles m_entries].
      rewrite held_cons. assert (q ∈ ids ((l1 ++ l2) ++ [e]) <-> q ∈ ids (m_entries m)) as Hq by (by rewrite Hpe).
      unfold refs_of. repeat case_decide; simplify_eq; tauto || lia.
    + intros q. rewrite ids_app, elem_of_app, Hpe. intros [->|Hq]%elem_of_cons; [by left|]. rewrite <- elem_of_app, <- ids_app. by apply P1.
    + intros e' He'. right. by apply P2.
  - destruct (find_key key hash (m_entries m)) as [e|] eqn:E; [|by eexists].
    apply find_key_Some in E as [He Hk]. destruct (H e); [apply elem_of_app; by left|by apply list_elem_of_fmap_2|done].
Qed.

Lemma ring_head heap l : ring heap l -> exists h, heap !! lru_ = Some h /\ lh_next h = hd lru_ l.
Proof.
  intros [Hs _]. assert (Nx heap lru_ = Some (hd lru_ l)) as H by (destruct l; cbn [seg hd] in *; by destruct Hs as [? _]).
  apply node_of_view in H as (h & Hh & E). by exists h.
Qed.

Lemma m_drop_shorter m e : e ∈ m_entries m -> (length (m_entries (m_drop m e)) < length (m_entries m))%nat.
Proof.
  intros He. assert (length (without (en_id e) (m_entries m)) < length (m_entries m))%nat as H; [|unfold m_drop; by destruct (_ =? 0)].
  induction (m_entries m) as [|x es IH]; [by apply elem_of_nil in He|]. cbn [without List.filter]. fold (without (en_id e) es).
  assert (length (without (en_id e) es) <= length es)%nat by apply List.filter_length_le.
  destruct (Nat.eqb_spec (en_id x) (en_id e)); cbn [negb length]; [lia|]. apply elem_of_cons in He as [->|He]; [done|]. specialize (IH He). lia.
Qed.

Lemma evict_ok fuel : forall n c m, rep c m -> (length (m_entries m) < fuel)%nat -> (length (m_entries m) <= n)%nat ->
  exists c', evict_loop fuel c = Some c' /\ rep c' (m_evict n m).
Proof.
  induction fuel as [|fuel IH]; intros n c m R Hf Hn; [lia|]. pose proof (re_core _ _ R) as C. cbn [evict_loop].
  destruct (ring_head _ _ (co_ring _ _ _ _ _ C)) as (h0 & -> & Ehd). cbn [mbind option_bind]. rewrite Ehd.
  assert (usage_ c = m_usage m) as Hu by apply C. rewrite Hu, (re_capacity _ _ R).
  pose proof (co_nodup _ _ _ _ _ C) as Hnd. apply NoDup_cons in Hnd as [H0 _].
  destruct (m_entries m) as [|e es] eqn:Em.
  - cbn [ids map hd]. rewrite Nat.eqb_refl, andb_false_r. exists c. split; [done|]. destruct n; cbn [m_evict]; by rewrite ?Em.
  - destruct n as [|n]; [simpl in Hn; lia|]. cbn [m_evict ids map hd]. rewrite Em.
    assert (en_id e <> lru_) as Hne by (intros E; apply H0; rewrite <- E; left). rewrite (proj2 (Nat.eqb_neq _ _) Hne), andb_true_r.
    destruct (m_capacity m <? m_usage m); [|by exists c].
    cbn [ids map] in C. destruct (core_LRU_Remove c [] (en_id e) (ids es) _ _ _ C) as (h1 & E1 & C1). rewrite E1. cbn [mbind option_bind].
    assert (e ∈ (e :: es) ++ m_detached m) as He by left. cbn [app] in C1.
    destruct (handle_key_ok h1 (en_id e) (en_key e) (en_hash e)) as (-> & h & -> & Eh);
      [by apply (core_KeyHash _ _ _ _ _ _ C1)|apply (co_noself _ _ _ _ _ C1); by apply list_elem_of_fmap_2|]. cbn [mbind option_bind]. rewrite Eh.
    destruct (core_table_Remove _ _ _ _ _ (en_key e) (en_hash e) C1) as (h2 & t2 & r & E2 & H). cbn [with_heap heap_ table_] in E2. rewrite E2.
    cbn [mbind option_bind]. destruct r as [p|].
    + destruct H as (e' & tbl & He' & Hid & Hk & Ht & C2). assert (e' = e) as ->.
      { apply (rep_keys c m); [done| |rewrite Em; left|done]. apply (rep_entry c); [done|by rewrite Em|]. rewrite Em. rewrite Hid. cbn [ids map]. rewrite Ht. left. }
      subst p. apply Permutation_cons_inv in Ht.
      destruct (Unref_drop (with_table c h2 t2) m e [] es tbl) as (c' & -> & R'); [done| |by rewrite <- Ht|apply R|apply R|apply R|].
      { cbn [app]. rewrite Em. exact C2. }
      cbn [mbind option_bind]. pose proof (m_drop_shorter m e) as Hs. rewrite Em in Hs. specialize (Hs ltac:(left)). apply IH; [done|simpl in *; lia|simpl in *; lia].
    + destruct H as [Hno _]. destruct (Hno e He); [left|done].
Qed.

(** The model with a new entry, before an old one of the same key leaves. *)
Definition m_add (m : Model) (e : Entry) : Model :=
  {| m_capacity := m_capacity m; m_entries := m_entries m ++ [e]; m_detached := m_detached m; m_handles := en_id e :: m_handles m;
     m_deleted := m_deleted m |}.

Lemma pinned_add m e : pinned m -> pinned (m_add m e).
Proof.
  intros [P1 P2]. split; cbn [m_add m_entries m_detached m_handles].
  - intros p [->|Hp]%elem_of_cons; rewrite !ids_app, !elem_of_app; [left; right; left|]. specialize (P1 p Hp). rewrite ids_app, elem_of_app in P1. tauto.
  - intros e' He'. right. by apply P2.
Qed.

Lemma core_add c m e : rep c m -> en_id e ∉ lru_ :: ids (m_entries m ++ m_detached m) ->
  exists heap,
    LRU_Append (<[en_id e := {| lh_value := Some (en_value e); lh_next_hash := None; lh_next := lru_; lh_prev := lru_; lh_charge := en_charge e;
                                lh_key_data := en_key e; lh_refs := 2; lh_hash := en_hash e |}]> (heap_ c)) (en_id e) = Some heap /\
    core {| capacity_ := capacity_ c; usage_ := u64 (usage_ c + en_charge e); heap_ := heap; table_ := table_ c; deleted_ := deleted_ c |}
      (ids (m_entries (m_add m e))) (ids (m_entries m)) (m_entries (m_add m e) ++ m_detached (m_add m e)) (refs_of (m_add m e)).
Proof.
  intros R Hnew. apply not_elem_of_cons in Hnew as [Hne Hnew]. pose proof (re_core _ _ R) as C. destruct (re_pinned _ _ R) as [P1 _].
  assert (heap_ c !! en_id e = None) as Hnone.
  { destruct (heap_ c !! en_id e) as [h|] eqn:E; [|done]. destruct (co_live _ _ _ _ _ C (en_id e)) as [?|?]; [by eexists|done|done]. }
  pose proof (core_new c _ _ _ _ e None lru_ lru_ 2 C Hnone ltac:(congruence)) as C1.
  destruct (core_LRU_Append _ _ (en_id e) _ _ _ C1) as (heap & E & C2); [left| |].
  { intros H. apply Hnew. rewrite ids_app, elem_of_app. by left. }
  exists heap. split; [exact E|]. cbn [m_add m_entries m_detached]. rewrite ids_app. change (ids [e]) with [en_id e].
  eapply core_perm; [exact C2|done|solve_Permutation|]. intros p Hp. unfold refs_of, set_ref. cbn [m_add m_handles m_entries]. rewrite held_cons, ids_app.
  destruct (decide (p = en_id e)) as [->|Hpe].
  - assert (held (m_handles m) (en_id e) = 0) as -> by (apply held_zero; intros H; by apply Hnew, P1).
    rewrite (decide_True (P := en_id e = en_id e)) by done. rewrite decide_True; [done|]. rewrite elem_of_app. right. left.
  - rewrite decide_False by done. assert (p ∈ ids (m_entries m) ++ ids [e] <-> p ∈ ids (m_entries m)) as Hq.
    { rewrite elem_of_app. cbn [ids map]. rewrite list_elem_of_singleton. tauto. }
    repeat case_decide; tauto || lia.
Qed.

Lemma rep_size c m : rep c m -> (length (m_entries m) <= size (heap_ c))%nat.
Proof.
  intros R. pose proof (re_core _ _ R) as C. rewrite <- (length_map en_id). apply live_size; [by eapply rep_nodup|].
  intros p Hp. eapply core_alive; [exact C|]. rewrite ids_app, elem_of_app. by left.
Qed.

Lemma shard_Insert_ok c m e : rep c m -> en_id e ∉ lru_ :: ids (m_entries m ++ m_detached m) -> len (m_entries m) < 2 ^ 31 ->
  exists c', Insert c (en_id e) (en_key e) (en_hash e) (en_value e) (en_charge e) = Some (c', en_id e) /\ rep c' (m_Insert m e).
Proof.
  intros R Hnew Hmax. destruct (core_add c m e R Hnew) as (heap & EA & C). pose proof (pinned_add m e (re_pinned _ _ R)) as P.
  unfold Insert, m_Insert. rewrite EA. cbn [mbind option_bind]. fold (m_add m e). cbn [heap_ table_].
  assert (en_id e ∉ ids (m_entries m)) as Hni by (intros H; apply Hnew; right; rewrite ids_app, elem_of_app; by left).
  destruct (core_table_Insert _ _ _ _ _ e C) as (h2 & t2 & old & E2 & H);
    [cbn [m_add m_entries]; rewrite !elem_of_app; left; right; left|done|unfold len, ids; by rewrite length_map|].
  cbn [heap_ table_] in E2. rewrite E2. cbn [mbind option_bind].
  assert (forall o, o ∈ m_entries (m_add m e) ++ m_detached (m_add m e) -> en_id o ∈ ids (m_entries m) -> o ∈ m_entries m) as Hold.
  { intros o Ho Hi. apply (rep_entry c m); [done| |done]. cbn [m_add m_entries m_detached] in Ho. rewrite !elem_of_app, list_elem_of_singleton in *.
    destruct Ho as [[? | ->]|?]; [by left|done|by right]. }
  assert (forall c1 m1, rep c1 m1 -> exists c2, (c ← Some c1; c ← evict_loop (S (size (heap_ c))) c; Some (c, en_id e)) = Some (c2, en_id e) /\
    rep c2 (m_evict (length (m_entries m1)) m1)) as Hfin.
  { intros c1 m1 R1. pose proof (rep_size _ _ R1). destruct (evict_ok (S (size (heap_ c1))) (length (m_entries m1)) c1 m1 R1) as (c2 & E & R2); [lia|lia|].
    exists c2. cbn [mbind option_bind]. rewrite E. done. }
  destruct old as [p|].
  - destruct H as (o & tbl & Ho & <- & Hk & Ht & C2). assert (o ∈ m_entries m) as Hom by (apply Hold; [done|rewrite Ht; left]).
    rewrite (find_key_rep c m _ _ o R Hom Hk). apply list_elem_of_split in Hom as (l1 & l2 & Em).
    assert (m_entries (m_add m e) = l1 ++ o :: (l2 ++ [e])) as Em1 by (cbn [m_add m_entries]; rewrite Em, <- app_assoc; done).
    assert (ids (m_entries (m_add m e)) = ids l1 ++ en_id o :: ids (l2 ++ [e])) as Eids by (rewrite Em1, ids_app; done). rewrite Eids in C2.
    destruct (core_LRU_Remove _ _ _ _ _ _ _ C2) as (h3 & E3 & C3). cbn [with_table heap_] in E3 |- *. rewrite E3. cbn [mbind option_bind]. rewrite <- ids_app in C3.
    destruct (Unref_drop _ (m_add m e) o l1 (l2 ++ [e]) _ Em1 C3) as (c4 & E4 & R4); [|done|apply R|apply R|].
    { rewrite Em, ids_app in Ht. cbn [ids map] in Ht. assert (tbl ≡ₚ ids l1 ++ ids l2) as ->.
      { apply Permutation_cons_inv with (a := en_id o). rewrite <- Ht. symmetry. apply Permutation_middle. }
      rewrite !ids_app. change (ids [e]) with [en_id e]. solve_Permutation. }
    rewrite E4. by apply Hfin.
  - destruct H as [Hno C2]. destruct (find_key (en_key e) (en_hash e) (m_entries m)) as [o|] eqn:E.
    + apply find_key_Some in E as [Ho Hk]. destruct (Hno o); [cbn [m_add m_entries]; rewrite !elem_of_app; by left; left|by apply list_elem_of_fmap_2|done].
    + apply Hfin. split; [|done|apply R|apply R]. eapply core_perm; [exact C2| |done|done]. cbn [m_add m_entries]. rewrite ids_app. change (ids [e]) with [en_id e]. solve_Permutation.
Qed.

Lemma new_LRUCache_rep capacity : rep (new_LRUCache capacity) {| m_capacity := capacity; m_entries := []; m_detached := []; m_handles := []; m_deleted := [] |}.
Proof.
  split; [|split; cbn; [by intros p Hp%elem_of_nil|by intros e He%elem_of_nil]|done|done]. cbn [m_entries m_detached ids map app].
  split; cbn [new_LRUCache heap_ table_ usage_].
  - split; [|repeat constructor; by intros H%elem_of_nil]. cbn [seg]. done.
  - exists [[]; []; []; []]. split; [|done]. split.
    + split; [|done]. repeat constructor.
    + constructor.
    + exists 2. done.
    + done.
    + intros p Hp. cbn in Hp. by apply elem_of_nil in Hp.
    + intros i b p k hash Hi Hp. destruct i as [|[|[|[|i]]]]; simplify_eq/=; by apply elem_of_nil in Hp.
    + intros p q Hp. cbn in Hp. by apply elem_of_nil in Hp.
  - intros e He. by apply elem_of_nil in He.
  - intros p Hp. cbn in Hp. by apply elem_of_nil in Hp.
  - intros p [h Hh]. left. apply lookup_singleton_Some in Hh as [<- _]. done.
  - repeat constructor. by intros H%elem_of_nil.
  - done.
  - intros p [Hp|Hp]; by apply elem_of_nil in Hp.
Qed.
End Refinement.

Section Client.
Context {V : Type}.
Notation Entry := (@Entry V).
Notation Model := (@Model V).

Definition live (m : Model) : list Entry := m_entries m ++ m_detached m.
Definition pair_of (e : Entry) : bytes * option V := (en_key e, Some (en_value e)).

(** Every entry that was inserted is live or was given to the deleter. *)
Definition accounted (m : Model) : list (bytes * option V) := map pair_of (live m) ++ m_deleted m.

Lemma without_sub p (es : list Entry) e : e ∈ without p es <-> e ∈ es /\ en_id e <> p.
Proof. unfold without. rewrite !list_elem_of_In, filter_In, negb_true_iff, Nat.eqb_neq. tauto. Qed.

(** How an operation may change a model: entries leave the cache or the heap,
    never an entry that has a handle. *)
Record shrinks (m m' : Model) : Prop := {
  sh_entries : forall e, e ∈ m_entries m' -> e ∈ m_entries m;
  sh_live : forall e, e ∈ live m' -> e ∈ live m;
  sh_accounted : accounted m' ≡ₚ accounted m;
  sh_nodup : NoDup (ids (live m'));
}.

Lemma shrinks_refl m : NoDup (ids (live m)) -> shrinks m m.
Proof. intros H. by split. Qed.

Lemma shrinks_trans m1 m2 m3 : shrinks m1 m2 -> shrinks m2 m3 -> shrinks m1 m3.
Proof. intros [A1 A2 A3 A4] [B1 B2 B3 B4]. split; [auto|auto|by rewrite B3|done]. Qed.

Lemma m_drop_shrinks m e : e ∈ m_entries m -> NoDup (ids (live m)) -> shrinks m (m_drop m e) /\ m_handles (m_drop m e) = m_handles m.
Proof.
  intros He Hnd. apply list_elem_of_split in He as (l1 & l2 & Em). unfold live in Hnd. rewrite Em in Hnd.
  assert (without (en_id e) (m_entries m) = l1 ++ l2) as Hw.
  { rewrite Em. apply without_split. rewrite ids_app in Hnd. by apply NoDup_app in Hnd as (? & _). }
  assert (live m ≡ₚ e :: (l1 ++ l2) ++ m_detached m) as Hp by (unfold live; rewrite Em; solve_Permutation).
  assert (NoDup (en_id e :: ids ((l1 ++ l2) ++ m_detached m))) as Hnd2. { unfold live in Hp. rewrite Em in Hp. unfold ids in Hnd |- *. by rewrite Hp in Hnd. }
  unfold m_drop. destruct (_ =? 0); (split; [|done]); split; unfold live, accounted; cbn [m_entries m_detached m_deleted]; rewrite Hw; unfold live in *.
  - intros x. rewrite Em, !elem_of_app, elem_of_cons. tauto.
  - intros x Hx. rewrite Hp. by right.
  - unfold live; cbn [m_entries m_detached]. rewrite Hp. cbn [map]. change (en_key e, Some (en_value e)) with (pair_of e). solve_Permutation.
  - by apply NoDup_cons in Hnd2 as [_ ?].
  - intros x. rewrite Em, !elem_of_app, elem_of_cons. tauto.
  - intros x. rewrite Hp, !elem_of_cons, !elem_of_app, !elem_of_cons. tauto.
  - unfold live; cbn [m_entries m_detached]. rewrite Hp. cbn [map]. rewrite !map_app. cbn [map]. solve_Permutation.
  - assert ((l1 ++ l2) ++ e :: m_detached m ≡ₚ e :: (l1 ++ l2) ++ m_detached m) as E by solve_Permutation. unfold ids. rewrite E. done.
Qed.

Lemma m_evict_shrinks n : forall m, NoDup (ids (live m)) -> shrinks m (m_evict n m) /\ m_handles (m_evict n m) = m_handles m.
Proof.
  induction n as [|n IH]; intros m Hnd; [split; [by apply shrinks_refl|done]|]. cbn [m_evict]. destruct (m_entries m) as [|e es] eqn:Em; [split; [by apply shrinks_refl|done]|].
  destruct (_ <? _); [|split; [by apply shrinks_refl|done]]. destruct (m_drop_shrinks m e) as [S1 H1]; [rewrite Em; left|done|].
  destruct (IH (m_drop m e) (sh_nodup _ _ S1)) as [S2 H2]. split; [by eapply shrinks_trans|congruence].
Qed.

Lemma m_Erase_shrinks m key hash : NoDup (ids (live m)) -> shrinks m (m_Erase m key hash) /\ m_handles (m_Erase m key hash) = m_handles m.
Proof.
  intros Hnd. unfold m_Erase. destruct (find_key _ _ _) as [e|] eqn:E; [|split; [by apply shrinks_refl|done]]. apply find_key_Some in E as [He _]. by apply m_drop_shrinks.
Qed.

Lemma m_Erase_gone c m key hash (e : Entry) : rep c m -> e ∈ m_entries (m_Erase m key hash) -> en_hash e = hash -> en_key e <> key.
Proof.
  intros R He Hh Hk. unfold m_Erase in He. destruct (find_key _ _ _) as [e'|] eqn:E; [|by destruct (find_key_None _ _ _ e E He)].
  assert (e ∈ m_entries m /\ en_id e <> en_id e') as [Hem Hid]. { apply without_sub. unfold m_drop in He. by destruct (_ =? 0). }
  apply find_key_Some in E as [He' [E1 E2]]. apply Hid. f_equal. apply (rep_keys c m); [done|done|done|]. split; congruence.
Qed.

Lemma m_Insert_shrinks m e : NoDup (ids (live (m_add m e))) -> shrinks (m_add m e) (m_Insert m e) /\ m_handles (m_Insert m e) = en_id e :: m_handles m.
Proof.
  intros Hnd. unfold m_Insert. fold (m_add m e). destruct (find_key _ _ _) as [o|] eqn:E.
  - apply find_key_Some in E as [Ho _]. destruct (m_drop_shrinks (m_add m e) o) as [S1 H1]; [cbn [m_add m_entries]; apply elem_of_app; by left|done|].
    destruct (m_evict_shrinks (length (m_entries (m_drop (m_add m e) o))) _ (sh_nodup _ _ S1)) as [S2 H2]. split; [by eapply shrinks_trans|by rewrite H2, H1].
  - by apply m_evict_shrinks.
Qed.

Lemma m_Lookup_shrinks c m key hash : rep c m -> shrinks m (fst (m_Lookup m key hash)) /\
  match snd (m_Lookup m key hash) with
  | Some p => m_handles (fst (m_Lookup m key hash)) = p :: m_handles m /\ exists e, e ∈ m_entries m /\ en_id e = p /\ has_key key hash e
  | None => fst (m_Lookup m key hash) = m
  end.
Proof.
  intros R. assert (NoDup (ids (live m))) as Hnd. { pose proof (co_nodup _ _ _ _ _ (re_core _ _ R)) as H. by apply NoDup_cons in H as [_ ?]. }
  unfold m_Lookup. destruct (find_key _ _ _) as [e|] eqn:E; cbn [fst snd]; [|split; [by apply shrinks_refl|done]].
  apply find_key_Some in E as [He Hk]. pose proof He as Hin. apply list_elem_of_split in He as (l1 & l2 & Em). pose proof (rep_nodup _ _ R) as HndE.
  assert (without (en_id e) (m_entries m) = l1 ++ l2) as Hw by (rewrite Em in *; by apply without_split).
  assert ((l1 ++ l2) ++ [e] ≡ₚ m_entries m) as Hp by (rewrite Em; solve_Permutation).
  split; [|split; [done|by exists e]]. split; unfold live, accounted; cbn [m_entries m_detached m_deleted]; rewrite Hw.
  - intros x. by rewrite Hp.
  - intros x. by rewrite !elem_of_app, <- (elem_of_app _ l2), <- elem_of_app, Hp.
  - unfold live; cbn [m_entries m_detached]. by rewrite Hp.
  - unfold ids. rewrite Hp. exact Hnd.
Qed.

Lemma m_Release_shrinks m p : NoDup (ids (live m)) -> shrinks m (m_Release m p) /\ m_handles (m_Release m p) = remove_one p (m_handles m).
Proof.
  intros Hnd. unfold m_Release. pose proof (find_id (m_detached m) p) as Hf. destruct (List.find _ _) as [e|]; [destruct (_ =? 0)|]; (split; [|done]);
    try (by split).
  destruct Hf as [He <-]. apply list_elem_of_split in He as (l1 & l2 & Ed).
  assert (live m ≡ₚ e :: m_entries m ++ l1 ++ l2) as Hp by (unfold live; rewrite Ed; solve_Permutation).
  assert (without (en_id e) (m_detached m) = l1 ++ l2) as Hw.
  { rewrite Ed. apply without_split. unfold live in Hnd. rewrite Ed, ids_app in Hnd. by apply NoDup_app in Hnd as (_ & _ & ?). }
  split; [done| | |]; unfold accounted; unfold live at 1; cbn [m_entries m_detached m_deleted]; rewrite ?Hw.
  - intros x Hx. rewrite Hp. by right.
  - rewrite Hp. cbn [map]. change (en_key e, Some (en_value e)) with (pair_of e). solve_Permutation.
  - unfold ids in Hnd |- *. rewrite Hp in Hnd. by apply NoDup_cons in Hnd as [_ ?].
Qed.

(** ** All shards *)
Definition all_ids (ms : list Model) : list (list nat) := map (fun m => ids (live m)) ms.

Definition at_shard (i : nat) (e : Entry) : Prop := en_hash e = HashSlice (en_key e) /\ Z.to_nat (Shard (en_hash e)) = i.

Record srep (c : ShardedLRUCache) (ms : list Model) : Prop := {
  sr_rep : Forall2 rep (shard_ c) ms;
  sr_length : length ms = 16%nat;
  sr_nodup : NoDup (concat (all_ids ms));
  sr_placed : forall i m e, ms !! i = Some m -> e ∈ live m -> at_shard i e;
}.

Lemma shard_lookup c ms key : srep c ms -> exists s m, shard_ c !! Z.to_nat (Shard (HashSlice key)) = Some s /\ ms !! Z.to_nat (Shard (HashSlice key)) = Some m /\ rep s m.
Proof.
  intros S. pose proof (Hash_range key 0 ltac:(lia)) as Hh. fold (HashSlice key) in Hh. set (i := Z.to_nat _).
  assert (i < length ms)%nat as Hi.
  { rewrite (sr_length _ _ S). unfold i, Shard, kNumShardBits. rewrite Z.shiftr_div_pow2 by lia.
    pose proof (Z.div_lt_upper_bound (HashSlice key) (2 ^ (32 - 4)) 16 ltac:(lia) ltac:(lia)). lia. }
  apply lookup_lt_is_Some_2 in Hi as [m Hm]. destruct (Forall2_lookup_r _ _ _ _ _ (sr_rep _ _ S) Hm) as (s & Hs & R). by exists s, m.
Qed.

Lemma srep_update c ms i s m s' m' id : srep c ms -> shard_ c !! i = Some s -> ms !! i = Some m -> rep s' m' ->
  (forall e, e ∈ live m' -> e ∈ live m \/ (en_id e ∉ concat (all_ids ms)) /\ at_shard i e) ->
  srep {| shard_ := <[i := s']> (shard_ c); last_id_ := id |} (<[i := m']> ms).
Proof.
  intros S Hs Hm R Hlive. pose proof (lookup_lt_Some _ _ _ Hm) as Hlt. split; cbn [shard_].
  - apply Forall2_insert; [apply S|done].
  - rewrite length_insert. apply S.
  - pose proof (sr_nodup _ _ S) as Hnd. unfold all_ids. rewrite list_fmap_insert. assert (all_ids ms !! i = Some (ids (live m))) as Hi by (unfold all_ids; by rewrite list_lookup_fmap, Hm).
    destruct (concat_insert _ _ _ Hi) as (r & Hp & Hp'). fold (all_ids ms). rewrite Hp'. rewrite Hp in Hnd. apply NoDup_app in Hnd as (_ & Hd & Hr). apply NoDup_app. split; [|split; [|done]].
    + pose proof (co_nodup _ _ _ _ _ (re_core _ _ R)) as H. by apply NoDup_cons in H as [_ ?].
    + intros p Hpi Hpr. apply list_elem_of_fmap in Hpi as (e & -> & He). destruct (Hlive e He) as [He'|[Hn _]].
      * apply (Hd (en_id e)); [by apply list_elem_of_fmap_2|done].
      * apply Hn. rewrite Hp, elem_of_app. by right.
  - intros j m2 e Hj He. destruct (decide (j = i)) as [->|Hne].
    + rewrite list_lookup_insert_eq in Hj by done. simplify_eq. destruct (Hlive e He) as [?|[_ ?]]; [by eapply (sr_placed _ _ S)|done].
    + rewrite list_lookup_insert_ne in Hj by done. by eapply (sr_placed _ _ S).
Qed.

Lemma rep_node c m e : rep c m -> e ∈ live m -> exists h, heap_ c !! en_id e = Some h /\ lh_hash h = en_hash e /\ lh_value h = Some (en_value e).
Proof. intros R He. destruct (core_node _ _ _ _ _ e (re_core _ _ R) He) as (h & Hh & _ & Ev & _ & _ & Eh). by exists h. Qed.

Lemma rep_no_node c m p : rep c m -> p <> lru_ -> p ∉ ids (live m) -> heap_ c !! p = None.
Proof. intros R H0 Hp. destruct (heap_ c !! p) as [h|] eqn:E; [|done]. destruct (co_live _ _ _ _ _ (re_core _ _ R) p) as [?|?]; [by eexists|done|done]. Qed.

Lemma rep_not_lru c m e : rep c m -> e ∈ live m -> en_id e <> lru_.
Proof.
  intros R He E. pose proof (co_nodup _ _ _ _ _ (re_core _ _ R)) as H. apply NoDup_cons in H as [H _]. apply H. rewrite <- E. by apply list_elem_of_fmap_2.
Qed.

Lemma cache_node_ok c ms i m e : srep c ms -> ms !! i = Some m -> e ∈ live m ->
  exists h, cache_node c (en_id e) = Some h /\ lh_hash h = en_hash e /\ lh_value h = Some (en_value e).
Proof.
  intros [Hr _ Hnd _] Hi He. unfold cache_node. revert i Hi. induction Hr as [|s m' ss ms R Hr IH]; intros i Hi; [done|].
  cbn [all_ids map concat] in Hnd. apply NoDup_app in Hnd as (_ & Hd & Hnd). cbn [foldr]. destruct i as [|i]; simpl in Hi.
  - simplify_eq. destruct (rep_node _ _ _ R He) as (h & Hh & E1 & E2). exists h. by rewrite Hh.
  - assert (en_id e ∉ ids (live m')) as Hn.
    { intros H. apply (Hd _ H). eapply (in_bucket _ i); [unfold all_ids; by rewrite list_lookup_fmap, Hi|]. by apply list_elem_of_fmap_2. }
    destruct (Forall2_lookup_r _ _ _ _ _ Hr Hi) as (s2 & _ & R2). rewrite (rep_no_node _ _ _ R (rep_not_lru _ _ _ R2 He) Hn). by eapply IH.
Qed.

Lemma cache_node_None c ms p : srep c ms -> cache_node c p = None -> p <> lru_ /\ p ∉ concat (all_ids ms).
Proof.
  intros S Hn. assert (forall i s, shard_ c !! i = Some s -> heap_ s !! p = None) as Hall.
  { unfold cache_node in Hn. clear S. induction (shard_ c) as [|s ss IH]; [done|]. cbn [foldr] in Hn. destruct (heap_ s !! p) eqn:E; [done|].
    intros [|i] s' Hs'; simpl in Hs'; [by simplify_eq|by eapply IH]. }
  assert (forall i m, ms !! i = Some m -> p <> lru_ /\ p ∉ ids (live m)) as Hms.
  { intros i m Hm. destruct (Forall2_lookup_r _ _ _ _ _ (sr_rep _ _ S) Hm) as (s & Hs & R). specialize (Hall i s Hs). pose proof (re_core _ _ R) as C. split.
    - intros ->. destruct (ring_head _ _ (co_ring _ _ _ _ _ C)) as (h & Hh & _). congruence.
    - intros Hp. destruct (core_alive _ _ _ _ _ p C Hp) as [h Hh]. congruence. }
  split.
  - pose proof (sr_length _ _ S) as Hl. destruct ms as [|m ms]; [done|]. by apply (Hms 0%nat m).
  - intros Hp. apply bucket_of in Hp as (i & b & Hb & Hp). unfold all_ids in Hb. rewrite list_lookup_fmap in Hb. destruct (ms !! i) as [m|] eqn:E; [|done].
    simplify_eq/=. by apply (Hms i m).
Qed.

(** ** A client of the cache *)
Record Client := {
  cl_cache : @ShardedLRUCache V;
  cl_handles : list (nat * V);                (** handles to release, with the value each stands for *)
  cl_inserted : list (bytes * option V);
  cl_latest : bytes -> option V;              (** the last value inserted and not erased *)
}.

Definition set_latest (latest : bytes -> option V) (key : bytes) (v : option V) (k : bytes) : option V := if decide (k = key) then v else latest k.

Definition nodes (c : @ShardedLRUCache V) : Z := fold_right (fun s n => Z.of_nat (size (heap_ s)) + n) 0 (shard_ c).

(** The 32-bit counters do not overflow. *)
Definition few (st : Client) : Prop := len (cl_handles st) < 2 ^ 32 - 2 /\ nodes (cl_cache st) < 2 ^ 31.

(** What a client may do: malloc returns an address that is not in use, and only
    handles the client holds are released. *)
Inductive cstep (st : Client) : Client -> Prop :=
| cs_insert e key v charge c' r :
    cache_node (cl_cache st) e = None -> few st -> cache_Insert (cl_cache st) e key v charge = Some (c', r) ->
    cstep st {| cl_cache := c'; cl_handles := (r, v) :: cl_handles st; cl_inserted := (key, Some v) :: cl_inserted st;
                cl_latest := set_latest (cl_latest st) key (Some v) |}
| cs_hit key c' p v :
    few st -> cache_Lookup (cl_cache st) key = Some (c', Some p) -> cache_Value c' p = Some v ->
    cstep st {| cl_cache := c'; cl_handles := (p, v) :: cl_handles st; cl_inserted := cl_inserted st; cl_latest := cl_latest st |}
| cs_miss key c' :
    few st -> cache_Lookup (cl_cache st) key = Some (c', None) ->
    cstep st {| cl_cache := c'; cl_handles := cl_handles st; cl_inserted := cl_inserted st; cl_latest := cl_latest st |}
| cs_release p v hs c' :
    cl_handles st ≡ₚ (p, v) :: hs -> cache_Release (cl_cache st) p = Some c' ->
    cstep st {| cl_cache := c'; cl_handles := hs; cl_inserted := cl_inserted st; cl_latest := cl_latest st |}
| cs_erase key c' :
    cache_Erase (cl_cache st) key = Some c' ->
    cstep st {| cl_cache := c'; cl_handles := cl_handles st; cl_inserted := cl_inserted st; cl_latest := set_latest (cl_latest st) key None |}.

Definition start (capacity : Z) : Client :=
  {| cl_cache := NewLRUCache capacity; cl_handles := []; cl_inserted := []; cl_latest := fun _ => None |}.

(** The invariant. *)
Record sound (st : Client) (ms : list Model) : Prop := {
  so_rep : srep (cl_cache st) ms;
  so_handles : map fst (cl_handles st) ≡ₚ concat (map m_handles ms);
  so_values : forall p v, (p, v) ∈ cl_handles st -> exists i m e, ms !! i = Some m /\ e ∈ live m /\ en_id e = p /\ en_value e = v;
  so_latest : forall i m e, ms !! i = Some m -> e ∈ m_entries m -> cl_latest st (en_key e) = Some (en_value e);
  so_accounted : cl_inserted st ≡ₚ concat (map accounted ms);
}.

Lemma handles_sub st ms i m : sound st ms -> ms !! i = Some m -> len (m_handles m) <= len (cl_handles st).
Proof.
  intros S Hm. pose proof (so_handles _ _ S) as H. assert (map m_handles ms !! i = Some (m_handles m)) as Hi by (by rewrite list_lookup_fmap, Hm).
  destruct (concat_insert _ _ _ Hi) as (r & Hp & _). rewrite Hp in H. apply Permutation_length in H. rewrite length_map, length_app in H. unfold len. lia.
Qed.

Lemma entries_few st ms i m : sound st ms -> ms !! i = Some m -> nodes (cl_cache st) < 2 ^ 31 -> len (m_entries m) < 2 ^ 31.
Proof.
  intros S Hm Hn. destruct (Forall2_lookup_r _ _ _ _ _ (sr_rep _ _ (so_rep _ _ S)) Hm) as (s & Hs & R). pose proof (rep_size _ _ R) as Hsz.
  assert (Z.of_nat (size (heap_ s)) <= nodes (cl_cache st)) as H; [|unfold len; lia]. unfold nodes. clear -Hs. revert i Hs.
  assert (forall l : list (@LRUCache V), 0 <= fold_right (fun s n => Z.of_nat (size (heap_ s)) + n) 0 l) as Hpos by (induction l as [|x l IH]; simpl; lia).
  induction (shard_ (cl_cache st)) as [|x l IH]; intros [|i] Hi; simplify_eq/=; [specialize (Hpos l); lia|specialize (IH i Hi); lia].
Qed.

Lemma same_entry c ms i j m m' e e' : srep c ms -> ms !! i = Some m -> ms !! j = Some m' -> e ∈ live m -> e' ∈ live m' -> en_id e = en_id e' -> i = j /\ e = e'.
Proof.
  intros S Hi Hj He He' E. assert (i = j) as ->.
  { apply (NoDup_concat_same (all_ids ms) i j (ids (live m)) (ids (live m')) (en_id e)); [apply S| | |by apply list_elem_of_fmap_2|rewrite E; by apply list_elem_of_fmap_2];
      unfold all_ids; rewrite list_lookup_fmap; [by rewrite Hi|by rewrite Hj]. }
  rewrite Hi in Hj. injection Hj as <-. split; [done|]. destruct (Forall2_lookup_r _ _ _ _ _ (sr_rep _ _ S) Hi) as (s & _ & R). by apply (core_entry _ _ _ _ _ e e' (re_core _ _ R)).
Qed.

Lemma live_in_ids ms i m e : ms !! i = Some m -> e ∈ live m -> en_id e ∈ concat (all_ids ms).
Proof. intros Hi He. eapply (in_bucket _ i); [unfold all_ids; by rewrite list_lookup_fmap, Hi|by apply list_elem_of_fmap_2]. Qed.

(** One shard is replaced by [m'], which has lost entries of [m1]; [m1] is [m] or
    [m] with a new entry. *)
Lemma sound_step st ms i m m1 s' m' handles inserted latest : sound st ms -> ms !! i = Some m -> rep s' m' -> shrinks m1 m' ->
  (forall e, e ∈ live m1 -> e ∈ live m \/ (en_id e ∉ concat (all_ids ms)) /\ at_shard i e) ->
  (exists r, concat (map m_handles ms) ≡ₚ m_handles m ++ r /\ map fst handles ≡ₚ m_handles m' ++ r) ->
  (forall p v, (p, v) ∈ handles -> (p, v) ∈ cl_handles st \/ exists e, e ∈ live m1 /\ en_id e = p /\ en_value e = v) ->
  (forall e e', e ∈ live m1 -> e' ∈ live m1 -> en_id e = en_id e' -> e = e') ->
  (forall j m2 e, <[i := m']> ms !! j = Some m2 -> e ∈ m_entries m2 -> latest (en_key e) = Some (en_value e)) ->
  (exists r, cl_inserted st ≡ₚ accounted m ++ r /\ inserted ≡ₚ accounted m1 ++ r) ->
  sound {| cl_cache := {| shard_ := <[i := s']> (shard_ (cl_cache st)); last_id_ := last_id_ (cl_cache st) |};
           cl_handles := handles; cl_inserted := inserted; cl_latest := latest |} (<[i := m']> ms).
Proof.
  intros S Hm R Sh Hlive (r1 & Hr1 & Hr1') Hvals Huniq Hlat (r2 & Hr2 & Hr2').
  destruct (Forall2_lookup_r _ _ _ _ _ (sr_rep _ _ (so_rep _ _ S)) Hm) as (s & Hs & Rm). pose proof (lookup_lt_Some _ _ _ Hm) as Hlt.
  assert (map fst handles ≡ₚ concat (map m_handles (<[i:=m']> ms))) as Hh.
  { rewrite list_fmap_insert. destruct (concat_insert (map m_handles ms) i (m_handles m)) as (r & Hp & Hp'); [by rewrite list_lookup_fmap, Hm|].
    rewrite Hp', Hr1'. apply Permutation_app_head. apply (Permutation_app_inv_l (m_handles m)). by rewrite <- Hr1, Hp. }
  split; cbn [cl_cache cl_handles cl_inserted cl_latest].
  - eapply srep_update; [apply S|exact Hs|exact Hm|done|]. intros e He. apply Hlive. by apply (sh_live _ _ Sh).
  - exact Hh.
  - assert (forall p, p ∈ map fst handles -> exists j m2, <[i:=m']> ms !! j = Some m2 /\ p ∈ ids (live m2)) as Hal.
    { intros p Hp. rewrite Hh in Hp. apply bucket_of in Hp as (j & b & Hb & Hp). rewrite list_lookup_fmap in Hb.
      destruct (<[i:=m']> ms !! j) as [m2|] eqn:Ej; [|done]. simplify_eq/=. exists j, m2. split; [done|].
      assert (exists s2, rep s2 m2) as [s2 R2].
      { destruct (decide (j = i)) as [->|Hne]; [rewrite list_lookup_insert_eq in Ej by done; simplify_eq; by exists s'|].
        rewrite list_lookup_insert_ne in Ej by done. destruct (Forall2_lookup_r _ _ _ _ _ (sr_rep _ _ (so_rep _ _ S)) Ej) as (s2 & _ & R2). by exists s2. }
      by apply (proj1 (re_pinned _ _ R2)). }
    intros p v Hp. destruct (Hal p) as (j & m2 & Hj & Hpi); [by apply (list_elem_of_fmap_2 fst _ (p, v))|].
    apply list_elem_of_fmap in Hpi as (e2 & -> & He2). exists j, m2, e2. split; [done|]. split; [done|]. split; [done|].
    destruct (decide (j = i)) as [->|Hne].
    + rewrite list_lookup_insert_eq in Hj by done. simplify_eq. pose proof (sh_live _ _ Sh e2 He2) as He1.
      destruct (Hvals _ _ Hp) as [Hold|(e & He & E & <-)]; [|by rewrite (Huniq e e2 He He1 E)].
      destruct (so_values _ _ S _ _ Hold) as (k & m0 & e0 & Hk & He0 & E0 & <-). destruct (Hlive e2 He1) as [He2'|[Hn _]].
      * by destruct (same_entry _ _ _ _ _ _ e2 e0 (so_rep _ _ S) Hm Hk He2' He0 (eq_sym E0)) as [_ ->].
      * destruct Hn. rewrite <- E0. by eapply live_in_ids.
    + rewrite list_lookup_insert_ne in Hj by done. destruct (Hvals _ _ Hp) as [Hold|(e & He & E & <-)].
      * destruct (so_values _ _ S _ _ Hold) as (k & m0 & e0 & Hk & He0 & E0 & <-). by destruct (same_entry _ _ _ _ _ _ e2 e0 (so_rep _ _ S) Hj Hk He2 He0 (eq_sym E0)) as [_ ->].
      * destruct (Hlive e He) as [He'|[Hn _]]; [|destruct Hn; rewrite E; by eapply live_in_ids].
        by destruct (same_entry _ _ _ _ _ _ e2 e (so_rep _ _ S) Hj Hm He2 He' (eq_sym E)) as [_ ->].
  - exact Hlat.
  - rewrite list_fmap_insert. destruct (concat_insert (map accounted ms) i (accounted m)) as (r & Hp & Hp'); [by rewrite list_lookup_fmap, Hm|].
    rewrite Hp', Hr2'. rewrite (sh_accounted _ _ Sh). apply Permutation_app_head. apply (Permutation_app_inv_l (accounted m)). by rewrite <- Hr2, <- Hp, <- (so_accounted _ _ S).
Qed.

Lemma rep_live_nodup c (m : Model) : rep c m -> NoDup (ids (live m)).
Proof. intros R. pose proof (co_nodup _ _ _ _ _ (re_core _ _ R)) as H. by apply NoDup_cons in H as [_ ?]. Qed.

Lemma nodup_entry (es : list Entry) e e' : NoDup (ids es) -> e ∈ es -> e' ∈ es -> en_id e = en_id e' -> e = e'.
Proof.
  induction es as [|x es IH]; [by intros _ H%elem_of_nil|]. cbn [ids map]. intros [Hx Hnd]%NoDup_cons [->|He]%elem_of_cons [->|He']%elem_of_cons E; [done| | |by apply IH].
  - destruct Hx. rewrite E. by apply list_elem_of_fmap_2.
  - destruct Hx. rewrite <- E. by apply list_elem_of_fmap_2.
Qed.

Lemma handles_split (ms : list Model) i m : ms !! i = Some m -> exists r, concat (map m_handles ms) ≡ₚ m_handles m ++ r.
Proof. intros Hm. destruct (concat_insert (map m_handles ms) i (m_handles m)) as (r & Hp & _); [by rewrite list_lookup_fmap, Hm|]. by exists r. Qed.

Lemma inserted_split st ms i m : sound st ms -> ms !! i = Some m -> exists r, cl_inserted st ≡ₚ accounted m ++ r.
Proof.
  intros S Hm. destruct (concat_insert (map accounted ms) i (accounted m)) as (r & Hp & _); [by rewrite list_lookup_fmap, Hm|]. exists r. by rewrite (so_accounted _ _ S).
Qed.

(** A step in which entries of one shard may leave, and the handles become
    [handles]. *)
Lemma sound_shrink st ms i m s' m' handles latest : sound st ms -> ms !! i = Some m -> rep s' m' -> shrinks m m' ->
  (exists r, concat (map m_handles ms) ≡ₚ m_handles m ++ r /\ map fst handles ≡ₚ m_handles m' ++ r) ->
  (forall p v, (p, v) ∈ handles -> (p, v) ∈ cl_handles st \/ exists e, e ∈ live m /\ en_id e = p /\ en_value e = v) ->
  (forall j m2 e, <[i := m']> ms !! j = Some m2 -> e ∈ m_entries m2 -> latest (en_key e) = Some (en_value e)) ->
  sound {| cl_cache := {| shard_ := <[i := s']> (shard_ (cl_cache st)); last_id_ := last_id_ (cl_cache st) |};
           cl_handles := handles; cl_inserted := cl_inserted st; cl_latest := latest |} (<[i := m']> ms).
Proof.
  intros S Hm R Sh Hh Hv Hl. destruct (Forall2_lookup_r _ _ _ _ _ (sr_rep _ _ (so_rep _ _ S)) Hm) as (s & _ & Rm).
  eapply (sound_step st ms i m m); [done|done|done|done|by left|done|done| |done|].
  - intros e e'. apply nodup_entry. by eapply rep_live_nodup.
  - destruct (inserted_split _ _ _ _ S Hm) as (r & Hr). by exists r.
Qed.

Lemma latest_shrink st ms i m m' : sound st ms -> ms !! i = Some m -> shrinks m m' ->
  forall j m2 e, <[i := m']> ms !! j = Some m2 -> e ∈ m_entries m2 -> cl_latest st (en_key e) = Some (en_value e).
Proof.
  intros S Hm Sh j m2 e Hj He. destruct (decide (j = i)) as [->|Hne].
  - rewrite list_lookup_insert_eq in Hj by (by eapply lookup_lt_Some). simplify_eq. eapply (so_latest _ _ S); [exact Hm|]. by apply (sh_entries _ _ Sh).
  - rewrite list_lookup_insert_ne in Hj by done. by eapply (so_latest _ _ S).
Qed.

Lemma m_Insert_old c m x e : rep c m -> NoDup (ids (live (m_add m x))) -> e ∈ m_entries (m_Insert m x) -> e ∈ m_entries m -> ~ has_key (en_key x) (en_hash x) e.
Proof.
  intros R Hnd He Hem Hk. unfold m_Insert in He. fold (m_add m x) in He. rewrite (find_key_rep c m _ _ e R Hem Hk) in He.
  destruct (m_drop_shrinks (m_add m x) e) as [S1 _]; [cbn [m_add m_entries]; apply elem_of_app; by left|done|].
  destruct (m_evict_shrinks (length (m_entries (m_drop (m_add m x) e))) _ (sh_nodup _ _ S1)) as [S2 _]. apply (sh_entries _ _ S2) in He.
  assert (e ∈ without (en_id e) (m_entries (m_add m x))) as Hw by (unfold m_drop in He; by destruct (_ =? 0)). by apply without_sub in Hw as [_ ?].
Qed.

Lemma insert_sound st ms e key v charge : sound st ms -> cache_node (cl_cache st) e = None -> few st ->
  exists c' ms', cache_Insert (cl_cache st) e key v charge = Some (c', e) /\
    sound {| cl_cache := c'; cl_handles := (e, v) :: cl_handles st; cl_inserted := (key, Some v) :: cl_inserted st;
             cl_latest := set_latest (cl_latest st) key (Some v) |} ms'.
Proof.
  intros S Hn [_ Hfew]. destruct (cache_node_None _ _ _ (so_rep _ _ S) Hn) as [H0 Hnew]. destruct (shard_lookup _ _ key (so_rep _ _ S)) as (s & m & Hs & Hm & R).
  set (i := Z.to_nat (Shard (HashSlice key))) in *. set (x := {| en_id := e; en_key := key; en_hash := HashSlice key; en_value := v; en_charge := charge |}).
  assert (e ∉ ids (live m)) as Hni. { intros H. apply Hnew. eapply in_bucket; [|exact H]. unfold all_ids. by rewrite list_lookup_fmap, Hm. }
  destruct (shard_Insert_ok s m x R) as (s' & E & R'); [by apply not_elem_of_cons|by eapply entries_few|]. cbn [x en_id en_key en_hash en_value en_charge] in E.
  unfold cache_Insert, on_shard. fold i. rewrite Hs. cbn [mbind option_bind]. rewrite E. cbn [mbind option_bind]. eexists _, (<[i := m_Insert m x]> ms). split; [done|].
  assert (live (m_add m x) ≡ₚ x :: live m) as Hadd by (unfold live; cbn [m_add m_entries m_detached]; solve_Permutation).
  assert (NoDup (ids (live (m_add m x)))) as Hnd. { unfold ids. rewrite Hadd. cbn [map]. constructor; [done|]. by eapply rep_live_nodup. }
  destruct (m_Insert_shrinks m x Hnd) as [Sh Eh]. eapply (sound_step st ms i m (m_add m x)); [done|done|done|done| | | | | |].
  - intros e'. rewrite Hadd. intros [->|He]%elem_of_cons; [right|by left]. done.
  - rewrite Eh. destruct (handles_split ms i m Hm) as (r & Hr). exists r. split; [done|]. cbn [map fst app]. apply perm_skip. rewrite (so_handles _ _ S). exact Hr.
  - intros p w [[= -> ->]|Hp]%elem_of_cons; [right; exists x; rewrite Hadd; split; [left|done]|by left].
  - intros e1 e2. by apply nodup_entry.
  - intros j m2 e' Hj He'. unfold set_latest. destruct (decide (j = i)) as [->|Hne].
    + rewrite list_lookup_insert_eq in Hj by (by eapply lookup_lt_Some). simplify_eq. pose proof (sh_entries _ _ Sh e' He') as Hin. cbn [m_add m_entries] in Hin.
      apply elem_of_app in Hin as [Hin|Hin%list_elem_of_singleton]; [|subst e'; cbn [x en_key en_value]; by rewrite decide_True].
      rewrite decide_False; [by eapply (so_latest _ _ S)|]. intros Ek. apply (m_Insert_old s m x e' R Hnd He' Hin).
      split; [done|]. destruct (sr_placed _ _ (so_rep _ _ S) i m e' Hm) as [E1 _]; [unfold live; apply elem_of_app; by left|]. cbn [x en_hash]. by rewrite E1, Ek.
    + rewrite list_lookup_insert_ne in Hj by done. rewrite decide_False; [by eapply (so_latest _ _ S)|]. intros Ek. apply Hne.
      destruct (sr_placed _ _ (so_rep _ _ S) j m2 e' Hj) as [E1 E2]; [unfold live; apply elem_of_app; by left|]. unfold i. rewrite <- Ek, <- E1. by rewrite E2.
  - destruct (inserted_split _ _ _ _ S Hm) as (r & Hr). exists r. split; [done|]. rewrite Hr. unfold accounted at 2. rewrite Hadd. cbn [map pair_of x en_key en_value]. done.
Qed.

Lemma lookup_sound st ms key : sound st ms -> len (cl_handles st) < 2 ^ 32 - 2 ->
  exists c' r ms', cache_Lookup (cl_cache st) key = Some (c', r) /\
    match r with
    | Some p => exists v, cache_Value c' p = Some v /\ cl_latest st key = Some v /\
        sound {| cl_cache := c'; cl_handles := (p, v) :: cl_handles st; cl_inserted := cl_inserted st; cl_latest := cl_latest st |} ms'
    | None => sound {| cl_cache := c'; cl_handles := cl_handles st; cl_inserted := cl_inserted st; cl_latest := cl_latest st |} ms'
    end.
Proof.
  intros S Hfew. destruct (shard_lookup _ _ key (so_rep _ _ S)) as (s & m & Hs & Hm & R). set (i := Z.to_nat (Shard (HashSlice key))) in *.
  pose proof (handles_sub _ _ _ _ S Hm) as Hmax. destruct (Lookup_ok s m key (HashSlice key) R) as (s' & E & R'); [lia|].
  destruct (m_Lookup_shrinks s m key (HashSlice key) R) as [Sh Hr]. destruct (m_Lookup m key (HashSlice key)) as [m' r]. cbn [fst snd] in *.
  unfold cache_Lookup, on_shard. fold i. rewrite Hs. cbn [mbind option_bind]. rewrite E. cbn [mbind option_bind]. eexists _, r, (<[i := m']> ms). split; [done|].
  pose proof (latest_shrink st ms i m m' S Hm Sh) as Hlat. destruct (handles_split ms i m Hm) as (r0 & Hr0). destruct r as [p|].
  - destruct Hr as (Eh & e & He & <- & Hk & _). assert (e ∈ live m) as Hel by (unfold live; apply elem_of_app; by left).
    assert (sound {| cl_cache := {| shard_ := <[i := s']> (shard_ (cl_cache st)); last_id_ := last_id_ (cl_cache st) |};
      cl_handles := (en_id e, en_value e) :: cl_handles st; cl_inserted := cl_inserted st; cl_latest := cl_latest st |} (<[i := m']> ms)) as S'.
    { eapply sound_shrink; [done|done|done|done| | |done].
      - exists r0. split; [done|]. rewrite Eh. cbn [map fst app]. apply perm_skip. by rewrite (so_handles _ _ S).
      - intros q w [[= -> ->]|Hq]%elem_of_cons; [right; by exists e|by left]. }
    exists (en_value e). split; [|split; [|done]].
    + destruct (so_values _ _ S' (en_id e) (en_value e)) as (j & m2 & e2 & Hj & He2 & E1 & E2); [left|]. unfold cache_Value.
      destruct (cache_node_ok _ _ _ _ _ (so_rep _ _ S') Hj He2) as (h & Hh & _ & Ev). cbn [cl_cache] in Hh. rewrite <- E1, Hh. cbn [mbind option_bind]. congruence.
    + rewrite <- Hk. by eapply (so_latest _ _ S).
  - subst m'. eapply sound_shrink; [done|done|done|done| |by left|done]. exists r0. split; [done|]. by rewrite (so_handles _ _ S).
Qed.

Lemma release_sound st ms p v hs : sound st ms -> cl_handles st ≡ₚ (p, v) :: hs ->
  exists c' ms', cache_Release (cl_cache st) p = Some c' /\
    sound {| cl_cache := c'; cl_handles := hs; cl_inserted := cl_inserted st; cl_latest := cl_latest st |} ms'.
Proof.
  intros S Hp. destruct (so_values _ _ S p v) as (i & m & e & Hm & He & <- & <-); [rewrite Hp; left|].
  destruct (cache_node_ok _ _ _ _ _ (so_rep _ _ S) Hm He) as (h & Hh & Eh & _). destruct (sr_placed _ _ (so_rep _ _ S) i m e Hm He) as [_ Ei].
  destruct (Forall2_lookup_r _ _ _ _ _ (sr_rep _ _ (so_rep _ _ S)) Hm) as (s & Hs & R).
  assert (en_id e ∈ m_handles m) as Hin.
  { assert (en_id e ∈ concat (map m_handles ms)) as Hc by (rewrite <- (so_handles _ _ S), Hp; left). apply bucket_of in Hc as (j & b & Hj & Hb).
    rewrite list_lookup_fmap in Hj. destruct (ms !! j) as [m2|] eqn:Ej; [|done]. cbn [fmap option_fmap option_map] in Hj. injection Hj as <-. destruct (Forall2_lookup_r _ _ _ _ _ (sr_rep _ _ (so_rep _ _ S)) Ej) as (s2 & _ & R2).
    pose proof (proj1 (re_pinned _ _ R2) _ Hb) as Hid. apply list_elem_of_fmap in Hid as (e2 & E & He2).
    destruct (same_entry _ _ i j m m2 e e2 (so_rep _ _ S) Hm Ej He He2 E) as [-> _]. rewrite Hm in Ej. by injection Ej as ->. }
  destruct (Release_ok s m (en_id e) R Hin) as (s' & E & R'). destruct (m_Release_shrinks m (en_id e) (rep_live_nodup _ _ R)) as [Sh Er].
  unfold cache_Release, on_shard. rewrite Hh. cbn [mbind option_bind]. rewrite Eh, Ei, Hs. cbn [mbind option_bind]. rewrite E. cbn [mbind option_bind].
  eexists _, (<[i := m_Release m (en_id e)]> ms). split; [done|]. eapply sound_shrink; [done|done|done|done| | |by eapply latest_shrink].
  - destruct (handles_split ms i m Hm) as (r & Hr). exists r. split; [done|]. rewrite Er. apply (Permutation_cons_inv (a := en_id e)).
    assert (m_handles m ≡ₚ en_id e :: remove_one (en_id e) (m_handles m)) as Ho.
    { clear -Hin. induction (m_handles m) as [|q l IH]; [by apply elem_of_nil in Hin|]. cbn [remove_one]. destruct (Nat.eqb_spec q (en_id e)) as [->|Hne]; [done|].
      apply elem_of_cons in Hin as [?|Hin]; [done|]. rewrite (IH Hin) at 1. apply perm_swap. }
    rewrite app_comm_cons, <- Ho, <- Hr, <- (so_handles _ _ S), Hp. done.
  - intros q w Hq. left. rewrite Hp. by right.
Qed.

Lemma erase_sound st ms key : sound st ms ->
  exists c' ms', cache_Erase (cl_cache st) key = Some c' /\
    sound {| cl_cache := c'; cl_handles := cl_handles st; cl_inserted := cl_inserted st; cl_latest := set_latest (cl_latest st) key None |} ms'.
Proof.
  intros S. destruct (shard_lookup _ _ key (so_rep _ _ S)) as (s & m & Hs & Hm & R). set (i := Z.to_nat (Shard (HashSlice key))) in *.
  destruct (Erase_ok s m key (HashSlice key) R) as (s' & E & R'). destruct (m_Erase_shrinks m key (HashSlice key) (rep_live_nodup _ _ R)) as [Sh Eh].
  unfold cache_Erase, on_shard. fold i. rewrite Hs. cbn [mbind option_bind]. rewrite E. cbn [mbind option_bind]. eexists _, (<[i := _]> ms). split; [done|].
  eapply sound_shrink; [done|done|done|done| |by left|].
  - destruct (handles_split ms i m Hm) as (r & Hr). exists r. split; [done|]. by rewrite Eh, (so_handles _ _ S).
  - intros j m2 e Hj He. unfold set_latest. rewrite decide_False; [by eapply (latest_shrink st ms i m)|]. intros Ek. destruct (decide (j = i)) as [->|Hne].
    + rewrite list_lookup_insert_eq in Hj by (by eapply lookup_lt_Some). injection Hj as <-. eapply (m_Erase_gone s m); [done|exact He| |done].
      destruct (sr_placed _ _ (so_rep _ _ S) i m e Hm) as [E1 _]; [apply (sh_live _ _ Sh); unfold live; apply elem_of_app; by left|]. by rewrite E1, Ek.
    + rewrite list_lookup_insert_ne in Hj by done. apply Hne. destruct (sr_placed _ _ (so_rep _ _ S) j m2 e Hj) as [E1 E2]; [unfold live; apply elem_of_app; by left|].
      unfold i. rewrite <- Ek, <- E1. by rewrite E2.
Qed.

Lemma step_sound st st' ms : sound st ms -> cstep st st' -> exists ms', sound st' ms'.
Proof.
  intros S Hs. destruct Hs as [e key v charge c' r Hn Hf E|key c' p v Hf E Ev|key c' Hf E|p v hs c' Hp E|key c' E].
  - destruct (insert_sound st ms e key v charge S Hn Hf) as (c2 & ms' & E2 & S'). rewrite E2 in E. injection E as <- <-. by exists ms'.
  - destruct (lookup_sound st ms key S (proj1 Hf)) as (c2 & r & ms' & E2 & H). rewrite E2 in E. injection E as <- ->. destruct H as (v2 & Ev2 & _ & S').
    rewrite Ev2 in Ev. injection Ev as ->. by exists ms'.
  - destruct (lookup_sound st ms key S (proj1 Hf)) as (c2 & r & ms' & E2 & H). rewrite E2 in E. injection E as <- ->. by exists ms'.
  - destruct (release_sound st ms p v hs S Hp) as (c2 & ms' & E2 & S'). rewrite E2 in E. injection E as <-. by exists ms'.
  - destruct (erase_sound st ms key S) as (c2 & ms' & E2 & S'). rewrite E2 in E. injection E as <-. by exists ms'.
Qed.

Lemma start_sound capacity : exists ms, sound (start capacity) ms.
Proof.
  set (m := {| m_capacity := u64 (capacity + (kNumShards - 1)) / kNumShards; m_entries := []; m_detached := []; m_handles := []; m_deleted := [] |} : Model).
  exists (replicate 16 m). assert (forall i m', replicate 16 m !! i = Some m' -> m' = m) as Hm by (by intros i m' [-> _]%lookup_replicate).
  split; cbn [start cl_cache cl_handles cl_inserted cl_latest]; [|done| | |done].
  - split; [|done| |].
    + unfold NewLRUCache. cbn [shard_]. apply Forall2_same_length_lookup_2; [done|]. intros i s m' [-> _]%lookup_replicate ->%Hm. apply new_LRUCache_rep.
    + cbn. constructor.
    + intros i m' e ->%Hm He. by apply elem_of_nil in He.
  - intros p v H. by apply elem_of_nil in H.
  - intros i m' e ->%Hm He. by apply elem_of_nil in He.
Qed.

Lemma reachable_sound capacity st : rtc cstep (start capacity) st -> exists ms, sound st ms.
Proof.
  intros H. assert (forall st0 st, rtc cstep st0 st -> (exists ms, sound st0 ms) -> exists ms, sound st ms) as Hind.
  { clear. intros st0 st. induction 1 as [|x y z Hs _ IH]; [done|]. intros (ms & S). apply IH. by eapply step_sound. }
  by apply (Hind _ _ H), start_sound.
Qed.

(** The entries in memory, and those that the deleter was called for. *)
Definition live_pairs (c : ShardedLRUCache) : list (bytes * option V) :=
  concat (map (fun s => map (fun n => (lh_key_data (snd n), lh_value (snd n))) (map_to_list (delete lru_ (heap_ s)))) (shard_ c)).
Definition deleted_pairs (c : ShardedLRUCache) : list (bytes * option V) := concat (map deleted_ (shard_ c)).

Lemma rep_live_pairs s m : rep s m -> map (fun n => (lh_key_data (snd n), lh_value (snd n))) (map_to_list (delete lru_ (heap_ s))) ≡ₚ map pair_of (live m).
Proof.
  intros R. pose proof (re_core _ _ R) as C. set (L := map_to_list (delete lru_ (heap_ s))).
  set (f := fun p => match heap_ s !! p with Some h => (lh_key_data h, lh_value h) | None => ([], None) end).
  assert (map (fun n => (lh_key_data (snd n), lh_value (snd n))) L = map f (map fst L)) as ->.
  { rewrite map_map. apply map_ext_in. intros [p h] Hin%list_elem_of_In. apply elem_of_map_to_list, lookup_delete_Some in Hin as [_ Hh]. unfold f. cbn [fst snd]. by rewrite Hh. }
  assert (map pair_of (live m) = map f (ids (live m))) as ->.
  { unfold ids. rewrite map_map. apply map_ext_in. intros e He%list_elem_of_In. destruct (core_node _ _ _ _ _ e C He) as (h & Hh & _ & Ev & _ & Ek & _).
    unfold f, pair_of. by rewrite Hh, Ev, Ek. }
  apply Permutation_map. apply NoDup_Permutation; [apply NoDup_fst_map_to_list|by eapply rep_live_nodup|]. intros p. split.
  - intros Hp. apply list_elem_of_fmap in Hp as ([q h] & -> & Hin). apply elem_of_map_to_list, lookup_delete_Some in Hin as [Hne Hh]. cbn [fst].
    destruct (co_live _ _ _ _ _ C q) as [?|?]; [by eexists|congruence|done].
  - intros Hp. destruct (core_alive _ _ _ _ _ p C Hp) as [h Hh]. apply (list_elem_of_fmap_2' fst _ (p, h)); [|done]. apply elem_of_map_to_list, lookup_delete_Some.
    split; [|done]. apply list_elem_of_fmap in Hp as (e & -> & He). intros E. by apply (rep_not_lru _ _ _ R He).
Qed.

Lemma srep_accounted c ms : srep c ms -> concat (map accounted ms) ≡ₚ live_pairs c ++ deleted_pairs c.
Proof.
  intros [Hr _ _ _]. unfold live_pairs, deleted_pairs. induction Hr as [|s m ss ms R Hr IH]; [done|]. cbn [map concat]. rewrite IH, (rep_live_pairs _ _ R).
  unfold accounted. rewrite (re_deleted _ _ R). solve_Permutation.
Qed.

Lemma m_evict_bound n : forall m : Model, (length (m_entries m) <= n)%nat -> m_usage (m_evict n m) <= m_capacity m \/ m_entries (m_evict n m) = [].
Proof.
  induction n as [|n IH]; intros m Hn; cbn [m_evict]; destruct (m_entries m) as [|e es] eqn:Em; [by right|simpl in Hn; lia|by right|].
  destruct (Z.ltb_spec (m_capacity m) (m_usage m)); [|by left]. pose proof (m_drop_shorter m e) as Hs. rewrite Em in Hs. specialize (Hs ltac:(left)).
  destruct (IH (m_drop m e)) as [H1|H1]; [simpl in *; lia| |by right]. left. unfold m_drop in *. by destruct (_ =? 0).
Qed.

Lemma insert_fits (s : @LRUCache V) m x s' : rep s m -> rep s' (m_Insert m x) -> usage_ s' <= capacity_ s' \/ elems_ (table_ s') = 0.
Proof.
  intros R R'. assert (m_capacity (m_Insert m x) = m_capacity m /\ (m_usage (m_Insert m x) <= m_capacity m \/ m_entries (m_Insert m x) = [])) as [Ec Hb].
  { assert (forall n m0, m_capacity (@m_evict V n m0) = m_capacity m0) as Hev.
    { induction n as [|n IH]; intros m0; cbn [m_evict]; [done|]. destruct (m_entries m0); [done|]. destruct (_ <? _); [|done]. rewrite IH. unfold m_drop. by destruct (_ =? 0). }
    unfold m_Insert. set (m1 := match find_key _ _ _ with Some _ => _ | None => _ end).
    assert (m_capacity m1 = m_capacity m) as <- by (unfold m1; destruct (find_key _ _ _); [|done]; unfold m_drop; by destruct (_ =? 0)).
    split; [apply Hev|]. by apply m_evict_bound. }
  pose proof (re_core _ _ R') as C. rewrite (co_usage _ _ _ _ _ C), (re_capacity _ _ R'), Ec. destruct Hb as [?|Hb]; [by left|right].
  destruct (co_table _ _ _ _ _ C) as (b & T & Hp). destruct (to_elems _ _ _ T) as [-> _]. unfold len. rewrite Hp, Hb. done.
Qed.
End Client.

(** ** Runs of a shard *)
Section Runs.
Context {V : Type}.

Inductive ShardOp := OpInsert (e : @Entry V) | OpLookup (key : bytes) (hash : Z) | OpRelease (p : nat) | OpErase (key : bytes) (hash : Z).

Definition shard_step (c : @LRUCache V) (o : ShardOp) : option (LRUCache * option nat) :=
  match o with
  | OpInsert e => '(c, p) ← Insert c (en_id e) (en_key e) (en_hash e) (en_value e) (en_charge e); Some (c, Some p)
  | OpLookup key hash => Lookup c key hash
  | OpRelease p => c ← Release c p; Some (c, None)
  | OpErase key hash => c ← Erase c key hash; Some (c, None)
  end.

Definition list_step (m : @Model V) (o : ShardOp) : Model * option nat :=
  match o with
  | OpInsert e => (m_Insert m e, Some (en_id e))
  | OpLookup key hash => m_Lookup m key hash
  | OpRelease p => (m_Release m p, None)
  | OpErase key hash => (m_Erase m key hash, None)
  end.

(** The address of a new node is not in use, a handle that is released is held,
    and the 32-bit counters do not overflow. *)
Definition op_ok (m : @Model V) (o : ShardOp) : Prop :=
  match o with
  | OpInsert e => (en_id e ∉ lru_ :: ids (live m)) /\ len (m_entries m) < 2 ^ 31
  | OpLookup _ _ => len (m_handles m) < 2 ^ 32 - 2
  | OpRelease p => p ∈ m_handles m
  | OpErase _ _ => True
  end.

Fixpoint shard_run (c : @LRUCache V) (os : list ShardOp) : option (LRUCache * list (option nat)) :=
  match os with
  | [] => Some (c, [])
  | o :: os => '(c, r) ← shard_step c o; '(c, rs) ← shard_run c os; Some (c, r :: rs)
  end.

Fixpoint list_run (m : @Model V) (os : list ShardOp) : Model * list (option nat) :=
  match os with
  | [] => (m, [])
  | o :: os => let '(m, r) := list_step m o in let '(m, rs) := list_run m os in (m, r :: rs)
  end.

Fixpoint ops_ok (m : @Model V) (os : list ShardOp) : Prop :=
  match os with [] => True | o :: os => op_ok m o /\ ops_ok (fst (list_step m o)) os end.

Definition empty_list (capacity : Z) : @Model V := {| m_capacity := capacity; m_entries := []; m_detached := []; m_handles := []; m_deleted := [] |}.

Lemma shard_step_ok c m o : rep c m -> op_ok m o -> exists c', shard_step c o = Some (c', snd (list_step m o)) /\ rep c' (fst (list_step m o)).
Proof.
  intros R Ho. destruct o as [e|key hash|p|key hash]; cbn [shard_step list_step op_ok fst snd] in *.
  - destruct Ho as [H1 H2]. destruct (shard_Insert_ok c m e R H1 H2) as (c' & -> & R'). by exists c'.
  - by apply Lookup_ok.
  - destruct (Release_ok c m p R Ho) as (c' & -> & R'). by exists c'.
  - destruct (Erase_ok c m key hash R) as (c' & -> & R'). by exists c'.
Qed.
End Runs.

(** ** Claims *)

(** C37. The cache is the list it stands for.  Under any sequence of operations
    that releases only handles it got, a shard with its heap, its ring, its hash
    table with chains that are split when it grows, and its reference counts
    returns (no node is touched after it was freed, no assert fails, every loop
    ends) and gives the handles, the calls of the deleter and the usage of a list
    of entries in the order of last use. *)
Theorem lru_cache_refines_list {V : Type} (capacity : Z) (os : list (@ShardOp V)) (Hos : ops_ok (empty_list capacity) os) :
  let '(m, rs) := list_run (empty_list capacity) os in
  exists c, shard_run (new_LRUCache capacity) os = Some (c, rs) /\ deleted_ c = m_deleted m /\ usage_ c = m_usage m /\ elems_ (table_ c) = len (m_entries m).
Proof.
  assert (forall (os : list (@ShardOp V)) c m, rep c m -> ops_ok m os -> exists c', shard_run c os = Some (c', snd (list_run m os)) /\ rep c' (fst (list_run m os))) as Hrun.
  { clear. induction os as [|o os IH]; intros c m R H; [by exists c|]. destruct H as [Ho H]. cbn [shard_run list_run].
    destruct (shard_step_ok c m o R Ho) as (c1 & -> & R1). cbn [mbind option_bind]. destruct (list_step m o) as [m1 r]. cbn [fst snd] in *.
    destruct (IH c1 m1 R1 H) as (c2 & -> & R2). cbn [mbind option_bind]. destruct (list_run m1 os) as [m2 rs]. by exists c2. }
  destruct (Hrun os _ _ (new_LRUCache_rep capacity) Hos) as (c & E & R). fold (@empty_list V capacity) in *. destruct (list_run (empty_list capacity) os) as [m rs].
  cbn [fst snd] in *. exists c. split; [done|]. split; [apply R|]. split; [apply R|]. destruct (co_table _ _ _ _ _ (re_core _ _ R)) as (b & T & Hp).
  destruct (to_elems _ _ _ T) as [-> _]. unfold len, ids in *. by rewrite Hp, length_map.
Qed.

Definition lru_example : list (@ShardOp Z) :=
  [OpInsert {| en_id := 1; en_key := [Byte.x61]; en_hash := 5; en_value := 7; en_charge := 1 |};
   OpInsert {| en_id := 2; en_key := [Byte.x62]; en_hash := 9; en_value := 8; en_charge := 1 |};
   OpLookup [Byte.x61] 5; OpRelease 1; OpRelease 2;
   OpInsert {| en_id := 3; en_key := [Byte.x63]; en_hash := 5; en_value := 9; en_charge := 1 |}].

Lemma lru_cache_refines_list_witness : exists c, shard_run (new_LRUCache 2) lru_example = Some (c, [Some 1; Some 2; Some 1; None; None; Some 3]%nat) /\
  deleted_ c = [([Byte.x62], Some 8)].
Proof.
  pose proof (lru_cache_refines_list 2 lru_example) as H.
  assert (list_run (empty_list 2) lru_example = (fst (list_run (empty_list 2) lru_example), [Some 1; Some 2; Some 1; None; None; Some 3]%nat)) as E
    by (vm_compute; reflexivity).
  rewrite E in H. destruct H as (c & Hr & Hd & _).
  - unfold lru_example. cbn [ops_ok op_ok].
    split; [split; [apply (bool_decide_eq_true_1 _); vm_compute; reflexivity|reflexivity]|]. split; [split; [apply (bool_decide_eq_true_1 _); vm_compute; reflexivity|reflexivity]|].
    split; [vm_compute; reflexivity|]. do 2 (split; [apply (bool_decide_eq_true_1 _); vm_compute; reflexivity|]).
    split; [split; [apply (bool_decide_eq_true_1 _); vm_compute; reflexivity|vm_compute; reflexivity]|exact I].
  - exists c. split; [exact Hr|]. rewrite Hd. vm_compute. reflexivity.
Defined.

(** C40. What the cache promises its clients.  In every state that clients reach
    who release only the handles they got, with malloc returning addresses that
    are not in use:
    Insert, Lookup, Release of a handle and Erase return (nothing that was freed
    is touched); the value of every handle that is held is still the one it was
    returned for; a Lookup that finds an entry gives the value that was inserted
    last for the key and not erased; every entry that was inserted is either in
    memory or was given to the deleter, once; and after an Insert the usage of
    the shard is within its capacity or the shard has no entry to evict. *)
Theorem cache_contract {V : Type} (capacity : Z) (st : @Client V) (Hst : rtc cstep (start capacity) st) :
  (few st -> forall e key v charge, cache_node (cl_cache st) e = None -> exists c' s, cache_Insert (cl_cache st) e key v charge = Some (c', e) /\
     shard_ c' !! Z.to_nat (Shard (HashSlice key)) = Some s /\ (usage_ s <= capacity_ s \/ elems_ (table_ s) = 0)) /\
  (few st -> forall key, exists c' r, cache_Lookup (cl_cache st) key = Some (c', r) /\
     forall p, r = Some p -> cache_Value c' p = cl_latest st key /\ is_Some (cl_latest st key)) /\
  (forall p v, (p, v) ∈ cl_handles st -> cache_Value (cl_cache st) p = Some v /\ is_Some (cache_Release (cl_cache st) p)) /\
  (forall key, is_Some (cache_Erase (cl_cache st) key)) /\
  cl_inserted st ≡ₚ live_pairs (cl_cache st) ++ deleted_pairs (cl_cache st).
Proof.
  destruct (reachable_sound capacity st Hst) as (ms & S). split; [|split; [|split; [|split]]].
  - intros Hf e key v charge Hn.
    destruct (shard_lookup _ _ key (so_rep _ _ S)) as (s & m & Hs & Hm & R). set (i := Z.to_nat (Shard (HashSlice key))) in *.
    destruct (cache_node_None _ _ _ (so_rep _ _ S) Hn) as [H0 Hnew].
    destruct (shard_Insert_ok s m {| en_id := e; en_key := key; en_hash := HashSlice key; en_value := v; en_charge := charge |} R) as (s' & E' & R').
    { apply not_elem_of_cons. split; [done|]. intros H. apply Hnew. eapply in_bucket; [|exact H]. unfold all_ids. by rewrite list_lookup_fmap, Hm. }
    { eapply entries_few; [done|exact Hm|apply Hf]. }
    cbn [en_id en_key en_hash en_value en_charge] in E'. unfold cache_Insert, on_shard. fold i. rewrite Hs. cbn [mbind option_bind]. rewrite E'. cbn [mbind option_bind].
    eexists _, s'. split; [reflexivity|]. cbn [shard_].
    split; [apply list_lookup_insert_eq; by eapply lookup_lt_Some|exact (insert_fits s m _ s' R R')].
  - intros Hf key. destruct (lookup_sound st ms key S (proj1 Hf)) as (c' & r & ms' & E & H). exists c', r. split; [done|]. intros p ->.
    destruct H as (v & Ev & El & _). rewrite Ev, El. by split; [|eexists].
  - intros p v Hp. split.
    + destruct (so_values _ _ S p v Hp) as (i & m & e & Hm & He & <- & <-). destruct (cache_node_ok _ _ _ _ _ (so_rep _ _ S) Hm He) as (h & Hh & _ & Ev).
      unfold cache_Value. by rewrite Hh.
    + apply list_elem_of_split in Hp as (l1 & l2 & E). destruct (release_sound st ms p v (l1 ++ l2) S) as (c' & ms' & -> & _); [rewrite E; solve_Permutation|by eexists].
  - intros key. destruct (erase_sound st ms key S) as (c' & ms' & -> & _). by eexists.
  - rewrite (so_accounted _ _ S). apply srep_accounted, S.
Qed.

(** A client inserts under two keys and looks the first up. *)
Definition client_run : option (@Client Z) :=
  '(c1, p1) ← cache_Insert (NewLRUCache 64) 1%nat [Byte.x61] 7 1;
  '(c2, p2) ← cache_Insert c1 2%nat [Byte.x62] 8 1;
  '(c3, r) ← cache_Lookup c2 [Byte.x61];
  p ← r; v ← cache_Value c3 p;
  Some {| cl_cache := c3; cl_handles := [(p, v); (p2, 8); (p1, 7)]; cl_inserted := [([Byte.x62], Some 8); ([Byte.x61], Some 7)];
          cl_latest := set_latest (set_latest (fun _ => None) [Byte.x61] (Some 7)) [Byte.x62] (Some 8) |}.

Lemma cache_contract_witness : exists st, client_run = Some st /\ rtc cstep (start 64) st /\
  forall p v, (p, v) ∈ cl_handles st -> cache_Value (cl_cache st) p = Some v.
Proof.
  assert (exists c1, cache_Insert (NewLRUCache 64) 1%nat [Byte.x61] 7 1 = Some (c1, 1%nat) /\ exists c2, cache_Insert c1 2%nat [Byte.x62] 8 1 = Some (c2, 2%nat) /\
    cache_node c1 2%nat = None /\ nodes c1 < 2 ^ 31 /\ nodes c2 < 2 ^ 31 /\ exists c3, cache_Lookup c2 [Byte.x61] = Some (c3, Some 1%nat) /\ cache_Value c3 1%nat = Some 7)
    as (c1 & E1 & c2 & E2 & Hn & N1 & N2 & c3 & E3 & Ev).
  { do 2 (eexists; split; [vm_compute; reflexivity|]). do 3 (split; [vm_compute; reflexivity|]). eexists. split; [vm_compute; reflexivity|]. vm_compute. reflexivity. }
  unfold client_run. rewrite E1. cbn [mbind option_bind]. rewrite E2. cbn [mbind option_bind]. rewrite E3. cbn [mbind option_bind]. rewrite Ev. cbn [mbind option_bind].
  eexists. split; [reflexivity|].
  assert (rtc cstep (start 64) {| cl_cache := c3; cl_handles := [(1%nat, 7); (2%nat, 8); (1%nat, 7)]; cl_inserted := [([Byte.x62], Some 8); ([Byte.x61], Some 7)];
          cl_latest := set_latest (set_latest (fun _ => None) [Byte.x61] (Some 7)) [Byte.x62] (Some 8) |}) as H.
  { eapply rtc_l; [eapply (cs_insert (start 64) 1%nat [Byte.x61] 7 1 c1 1%nat); [vm_compute; reflexivity|split; vm_compute; reflexivity|exact E1]|].
    eapply rtc_l; [eapply (cs_insert _ 2%nat [Byte.x62] 8 1 c2 2%nat); [exact Hn|split; [vm_compute; reflexivity|exact N1]|exact E2]|].
    eapply rtc_l; [eapply (cs_hit _ [Byte.x61] c3 1%nat 7); [split; [vm_compute; reflexivity|exact N2]|exact E3|exact Ev]|]. apply rtc_refl. }
  split; [exact H|]. intros p v Hp. apply (cache_contract 64 _ H). exact Hp.
Defined.
