(* ===== verification/Bloom.v ===== *)
(** * Filter policies (include/pebblesdb/filter_policy.h, util/bloom.cc)

    The FilterPolicy interface with the law its clients rely on, the bloom
    filter that implements it, and the wrapper of db/dbformat.cc that filters
    internal keys by their user keys. *)

From Stdlib Require Import ZArith Lia Bool.
From stdpp Require Import base list.
From S2P Require Import Prelude Coding Comparator DbFormat Hash.

Set Default Goal Selector "!".
Local Open Scope Z_scope.

(** ** The interface *)

Record FilterPolicy := {
  (** appends a filter that summarizes the keys *)
  CreateFilter : list bytes -> bytes -> bytes;
  KeyMayMatch : bytes -> bytes -> bool;
}.

(** "This method must return true if the key was in the list of keys passed to
    CreateFilter()", for keys in the domain [dom] and lists of up to [2^31 - 1]
    keys ([n] is an int). *)
Class FilterPolicyOk (p : FilterPolicy) (dom : bytes -> Prop) := {
  fp_append keys dst : exists filter, CreateFilter p keys dst = dst ++ filter;
  fp_match keys dst filter key :
    Forall dom keys -> len keys < 2 ^ 31 -> CreateFilter p keys dst = dst ++ filter ->
    key ∈ keys -> KeyMayMatch p key filter = true;
}.

(** ** util/bloom.cc *)

Definition BloomHash (key : bytes) : Z := Hash key 0xbc9f1d34.

(** [static_cast<size_t>(bits_per_key * 0.69)], clamped; only products below
    31 matter, and these are never within rounding distance of an integer. *)
Definition bloom_k (bits_per_key : Z) : Z :=
  let k := bits_per_key * 69 / 100 in
  let k := if k <? 1 then 1 else k in
  if 30 <? k then 30 else k.

Definition rotr17 (h : Z) : Z := Z.lor (Z.shiftr h 17) (u32 (Z.shiftl h 15)).

Definition set_bit (array : bytes) (bitpos : Z) : bytes :=
  let i := Z.to_nat (bitpos / 8) in
  <[i := z2b (Z.lor (b2z (nth i array Byte.x00)) (Z.shiftl 1 (bitpos mod 8)))]> array.

(** [for j < k]: the probes of one key. *)
Fixpoint add_probes (k : nat) (h delta bits : Z) (array : bytes) : bytes :=
  match k with
  | O => array
  | S k => add_probes k (u32 (h + delta)) delta bits (set_bit array (h mod bits))
  end.

Definition add_key (k bits : Z) (array key : bytes) : bytes :=
  let h := BloomHash key in
  add_probes (Z.to_nat k) h (rotr17 h) bits array.

Definition bloom_bytes (bits_per_key n : Z) : Z :=
  let bits := u64 (n * bits_per_key) in
  let bits := if bits <? 64 then 64 else bits in
  u64 (bits + 7) / 8.

Definition bloom_CreateFilter (bits_per_key : Z) (keys : list bytes) (dst : bytes) : bytes :=
  let k := bloom_k bits_per_key in
  let nbytes := bloom_bytes bits_per_key (len keys) in
  let bits := nbytes * 8 in
  let array := fold_left (add_key k bits) keys (replicate (Z.to_nat nbytes) Byte.x00) in
  dst ++ array ++ [z2b k].

Fixpoint check_probes (k : nat) (h delta bits : Z) (array : bytes) : bool :=
  match k with
  | O => true
  | S k =>
      let bitpos := h mod bits in
      if Z.land (schar (nth (Z.to_nat (bitpos / 8)) array Byte.x00)) (Z.shiftl 1 (bitpos mod 8)) =? 0
      then false
      else check_probes k (u32 (h + delta)) delta bits array
  end.

Definition bloom_KeyMayMatch (key filter : bytes) : bool :=
  let len_ := len filter in
  if len_ <? 2 then false
  else
    let bits := (len_ - 1) * 8 in
    let k := u64 (schar (nth (Z.to_nat (len_ - 1)) filter Byte.x00)) in
    if 30 <? k then true
    else
      let h := BloomHash key in
      check_probes (Z.to_nat k) h (rotr17 h) bits filter.

Definition BloomFilterPolicy (bits_per_key : Z) : FilterPolicy := {|
  CreateFilter := bloom_CreateFilter bits_per_key;
  KeyMayMatch := bloom_KeyMayMatch;
|}.

(** ** InternalFilterPolicy (db/dbformat.cc) *)

Definition InternalFilterPolicy (user_policy : FilterPolicy) : FilterPolicy := {|
  CreateFilter keys dst := CreateFilter user_policy (map ExtractUserKey keys) dst;
  KeyMayMatch key f := KeyMayMatch user_policy (ExtractUserKey key) f;
|}.

(** ** Bits are only ever set *)

Definition bit_is_set (array : bytes) (pos : Z) : bool :=
  Z.testbit (b2z (nth (Z.to_nat (pos / 8)) array Byte.x00)) (pos mod 8).

Lemma length_set_bit array pos : length (set_bit array pos) = length array.
Proof. apply length_insert. Qed.

Lemma nth_insert {A} (l : list A) i j x d :
  nth j (<[i := x]> l) d = if decide (i = j /\ (i < length l)%nat) then x else nth j l d.
Proof.
  rewrite !nth_lookup, list_lookup_insert. by case_decide.
Qed.

Lemma set_bit_spec array p q :
  0 <= p -> 0 <= q -> p / 8 < len array ->
  bit_is_set (set_bit array p) q = bit_is_set array q || (p =? q).
Proof.
  intros Hp Hq Hl. unfold bit_is_set, set_bit. rewrite nth_insert.
  pose proof (Z.mod_pos_bound p 8 ltac:(lia)). pose proof (Z.mod_pos_bound q 8 ltac:(lia)).
  case_decide as Hd.
  - destruct Hd as [E Hlt]. rewrite E.
    set (b := nth (Z.to_nat (q / 8)) array Byte.x00). pose proof (b2z_range b).
    rewrite b2z_z2b. change 256 with (2 ^ 8). rewrite Z.mod_pow2_bits_low by lia.
    rewrite Z.lor_spec, Z.shiftl_1_l, Z.pow2_bits_eqb by lia. f_equal.
    assert (p / 8 = q / 8) by (pose proof (Z.div_pos p 8); pose proof (Z.div_pos q 8); lia).
    apply eq_iff_eq_true. rewrite !Z.eqb_eq. Z.div_mod_to_equations. lia.
  - destruct (Z.eqb_spec p q) as [->|]; [|by rewrite orb_false_r].
    exfalso. apply Hd. split; [done|]. unfold len in *. pose proof (Z.div_pos q 8). lia.
Qed.

Lemma land_bit_eqb b i :
  0 <= i < 8 -> (Z.land (schar b) (Z.shiftl 1 i) =? 0) = negb (Z.testbit (b2z b) i).
Proof.
  intros Hi. assert (Z.testbit (schar b) i = Z.testbit (b2z b) i) as <-.
  { unfold schar. destruct (b2z b <? 128); [done|].
    rewrite <- (Z.mod_pow2_bits_low (b2z b - 256) 8 i), <- (Z.mod_pow2_bits_low (b2z b) 8 i) by lia.
    f_equal. change (2 ^ 8) with 256. replace (b2z b - 256) with (b2z b + (-1) * 256) by lia.
    by rewrite Z_mod_plus_full. }
  rewrite Z.shiftl_1_l. destruct (Z.testbit (schar b) i) eqn:E; cbn [negb].
  - apply Z.eqb_neq. intros H0. apply (f_equal (fun z => Z.testbit z i)) in H0.
    rewrite Z.land_spec, Z.pow2_bits_true, E, Z.bits_0 in H0 by lia. done.
  - apply Z.eqb_eq. apply Z.bits_inj'. intros j Hj. rewrite Z.land_spec, Z.bits_0, Z.pow2_bits_eqb by lia.
    destruct (Z.eqb_spec i j) as [->|]; [by rewrite E|by rewrite andb_false_r].
Qed.

Lemma add_probes_spec k : forall h delta bits array,
  0 < bits -> bits = 8 * len array -> 0 <= h ->
  let array' := add_probes k h delta bits array in
  length array' = length array /\
  (forall q, 0 <= q -> bit_is_set array q = true -> bit_is_set array' q = true) /\
  (forall array'',
    (forall q, 0 <= q < bits -> bit_is_set array' q = true -> bit_is_set array'' q = true) ->
    check_probes k h delta bits array'' = true).
Proof.
  induction k as [|k IH]; intros h delta bits array Hb Hlen Hh array'; subst array'; [done|].
  cbn [add_probes check_probes].
  assert (0 <= h mod bits < bits) as Hm by (by apply Z.mod_pos_bound).
  assert (h mod bits / 8 < len array) as Hi by (apply Z.div_lt_upper_bound; lia).
  pose proof (length_set_bit array (h mod bits)) as Hl1.
  destruct (IH (u32 (h + delta)) delta bits (set_bit array (h mod bits))) as (Hl & Hmono & Hchk).
  { done. }
  { unfold len in *. by rewrite Hl1. }
  { apply u32_range. }
  split; [congruence|]. split.
  - intros q Hq Hset. apply Hmono; [done|]. rewrite set_bit_spec, Hset by lia. done.
  - intros array'' Hall. rewrite land_bit_eqb by (apply Z.mod_pos_bound; lia).
    assert (bit_is_set array'' (h mod bits) = true) as Hset.
    { apply Hall; [done|]. apply Hmono; [lia|]. rewrite set_bit_spec, Z.eqb_refl by lia. apply orb_true_r. }
    unfold bit_is_set in Hset. rewrite Hset. cbn [negb]. by apply Hchk.
Qed.

(** All probes of all added keys are set in the final array. *)
Lemma add_keys_spec k bits keys : forall array,
  0 < bits -> bits = 8 * len array ->
  let array' := fold_left (add_key k bits) keys array in
  length array' = length array /\
  (forall q, 0 <= q -> bit_is_set array q = true -> bit_is_set array' q = true) /\
  (forall key array'', key ∈ keys ->
    (forall q, 0 <= q < bits -> bit_is_set array' q = true -> bit_is_set array'' q = true) ->
    check_probes (Z.to_nat k) (BloomHash key) (rotr17 (BloomHash key)) bits array'' = true).
Proof.
  induction keys as [|key0 keys IH]; intros array Hb Hlen array'; subst array'; cbn [fold_left].
  { split; [done|]. split; [done|]. intros key ? Hin. by apply elem_of_nil in Hin. }
  assert (0 <= BloomHash key0) by (by apply Hash_range).
  destruct (add_probes_spec (Z.to_nat k) (BloomHash key0) (rotr17 (BloomHash key0)) bits array)
    as (Hl0 & Hm0 & Hc0); [done..|].
  fold (add_key k bits array key0) in Hl0, Hm0, Hc0.
  destruct (IH (add_key k bits array key0)) as (Hl & Hm & Hc); [done|unfold len in *; by rewrite Hl0|].
  split; [congruence|]. split; [by auto|]. intros key array'' Hin Hall.
  apply elem_of_cons in Hin as [->|Hin]; [|by apply Hc].
  apply Hc0. intros q Hq Hset. apply Hall; [done|]. apply Hm; [lia|done].
Qed.

Lemma bloom_k_range b : 0 <= b -> 1 <= bloom_k b <= 30.
Proof.
  intros Hb. unfold bloom_k. destruct (Z.ltb_spec (b * 69 / 100) 1).
  - destruct (Z.ltb_spec 30 1); lia.
  - destruct (Z.ltb_spec 30 (b * 69 / 100)); lia.
Qed.

Lemma bloom_bytes_pos b n : 8 <= bloom_bytes b n \/ bloom_bytes b n = 0.
Proof.
  unfold bloom_bytes. pose proof (u64_range (n * b)) as Hr. set (x := u64 (n * b)) in *.
  destruct (Z.ltb_spec x 64); [left; done|].
  destruct (Z.lt_ge_cases (x + 7) (2 ^ 64)).
  - left. rewrite u64_small by lia. apply Z.div_le_lower_bound; lia.
  - right. unfold u64. replace (x + 7) with (x + 7 - 2 ^ 64 + 1 * 2 ^ 64) by lia.
    rewrite Z_mod_plus_full, Z.mod_small, Z.div_small by lia. done.
Qed.

#[export] Instance BloomFilterPolicy_ok bits_per_key :
  TCEq (0 <=? bits_per_key) true -> TCEq (bits_per_key <? 2 ^ 31) true ->
  FilterPolicyOk (BloomFilterPolicy bits_per_key) (fun _ => True).
Proof.
  intros Hb0%TCEq_eq Hb1%TCEq_eq. rewrite Z.leb_le in Hb0. rewrite Z.ltb_lt in Hb1.
  split; [intros; eexists; reflexivity|].
  intros keys dst filter key _ Hn E Hin. simpl in *. unfold bloom_CreateFilter in E.
  apply app_inv_head in E. subst filter.
  set (nb := bloom_bytes bits_per_key (len keys)).
  assert (8 <= nb) as Hnb.
  { destruct (bloom_bytes_pos bits_per_key (len keys)) as [?|H0]; [done|]. exfalso. revert H0.
    unfold bloom_bytes. len_facts. rewrite (u64_small (len keys * bits_per_key)) by nia.
    destruct (Z.ltb_spec (len keys * bits_per_key) 64); [done|]. rewrite u64_small by nia.
    intros Hz. Z.div_mod_to_equations. lia. }
  set (array0 := replicate (Z.to_nat nb) Byte.x00).
  assert (len array0 = nb) as Hl0 by (unfold array0; rewrite len_replicate; lia).
  set (k := bloom_k bits_per_key). pose proof (bloom_k_range bits_per_key Hb0) as Hk. fold k in Hk.
  destruct (add_keys_spec k (nb * 8) keys array0) as (Hl & _ & Hc); [lia|lia|].
  set (array := fold_left (add_key k (nb * 8)) keys array0) in *.
  assert (len array = nb) as Hla by (unfold len in *; lia).
  unfold bloom_KeyMayMatch. rewrite len_app, Hla. change (len [z2b k]) with 1.
  destruct (Z.ltb_spec (nb + 1) 2); [lia|]. replace (nb + 1 - 1) with nb by lia.
  assert (nth (Z.to_nat nb) (array ++ [z2b k]) Byte.x00 = z2b k) as ->.
  { rewrite app_nth2 by (unfold len in *; lia).
    by replace (Z.to_nat nb - length array)%nat with 0%nat by (unfold len in *; lia). }
  assert (u64 (schar (z2b k)) = k) as ->.
  { unfold schar. rewrite b2z_z2b_small by lia. destruct (Z.ltb_spec k 128); [|lia].
    apply u64_small. lia. }
  destruct (Z.ltb_spec 30 k); [lia|]. apply Hc; [done|].
  intros q Hq Hset. unfold bit_is_set in *. rewrite app_nth1; [done|].
  assert (q / 8 < nb) by (apply Z.div_lt_upper_bound; lia). unfold len in *. pose proof (Z.div_pos q 8). lia.
Qed.

#[export] Instance InternalFilterPolicy_ok p dom :
  FilterPolicyOk p dom -> FilterPolicyOk (InternalFilterPolicy p) (fun k => dom (ExtractUserKey k)).
Proof.
  intros Hp. split; [intros keys dst; exact (fp_append (p := p) (map ExtractUserKey keys) dst)|].
  intros keys dst filter key Hdom Hn E Hin. simpl in *.
  eapply (fp_match (p := p)); [| |exact E|].
  - by apply Forall_map.
  - unfold len in *. by rewrite length_map.
  - apply list_elem_of_fmap. eauto.
Qed.

(** ** Claims *)

(** A bloom filter has no false negatives: for every bits-per-key setting
    and every list of keys, a key of the list matches the filter built from
    it, wherever in a buffer the filter was appended. *)
Theorem bloom_no_false_negatives (bits_per_key : Z) (keys : list bytes) (dst key : bytes)
    (Hb : 0 <= bits_per_key < 2 ^ 31) (Hn : len keys < 2 ^ 31) (Hin : key ∈ keys) :
  exists filter, bloom_CreateFilter bits_per_key keys dst = dst ++ filter /\
    bloom_KeyMayMatch key filter = true.
Proof.
  assert (FilterPolicyOk (BloomFilterPolicy bits_per_key) (fun _ => True)) as Hok.
  { apply BloomFilterPolicy_ok; [rewrite (proj2 (Z.leb_le _ _))|rewrite (proj2 (Z.ltb_lt _ _))];
      (lia || constructor). }
  destruct (fp_append (p := BloomFilterPolicy bits_per_key) keys dst) as [filter E].
  exists filter. split; [exact E|]. eapply (fp_match (p := BloomFilterPolicy bits_per_key)); [|done|exact E|done].
  by apply Forall_true.
Qed.

Lemma bloom_no_false_negatives_witness :
  exists filter, bloom_CreateFilter 10 [[Byte.x61]; [Byte.x62]] [Byte.x00] = [Byte.x00] ++ filter /\
    bloom_KeyMayMatch [Byte.x62] filter = true.
Proof.
  apply (bloom_no_false_negatives 10 [[Byte.x61]; [Byte.x62]] [Byte.x00] [Byte.x62]).
  - split; [discriminate|reflexivity].
  - reflexivity.
  - right. left.
Defined.
