(* ===== verification/FilterBlock.v ===== *)
(** * Filter blocks (table/filter_block.cc)

    The block of per-2KiB filters of a table: its builder, its reader and the
    builder of one filter for a whole file, for any FilterPolicy. *)

From Stdlib Require Import ZArith Lia Bool.
From stdpp Require Import base list.
From S2P Require Import Prelude Coding Comparator DbFormat Hash Bloom.

Set Default Goal Selector "!".
Local Open Scope Z_scope.

Definition kFilterBaseLg : Z := 11.
Definition kFilterBase : Z := Z.shiftl 1 kFilterBaseLg.

(** The keys of a flattened buffer: the i-th runs from the i-th offset to the
    next one. *)
Fixpoint unflatten (keys_ : bytes) (offsets : list Z) : list bytes :=
  match offsets with
  | a :: (b :: _) as tl =>
      take (Z.to_nat (b - a)) (drop (Z.to_nat a) keys_) :: unflatten keys_ tl
  | _ => []
  end.

(** ** FileLevelFilterBuilder *)

Record FileLevelFilterBuilder := { fl_keys : bytes; fl_key_offsets : list Z }.

Definition fl_Clear : FileLevelFilterBuilder := {| fl_keys := []; fl_key_offsets := [] |}.

Section FileLevel.
Context (policy_ : option FilterPolicy).

Definition fl_AddKey (b : FileLevelFilterBuilder) (key : bytes) : FileLevelFilterBuilder :=
  match policy_ with
  | None => b
  | Some _ => {| fl_keys := fl_keys b ++ key;
                 fl_key_offsets := fl_key_offsets b ++ [len (fl_keys b)] |}
  end.

Definition fl_GenerateFilter (b : FileLevelFilterBuilder) : option bytes * FileLevelFilterBuilder :=
  match policy_ with
  | Some p =>
      if len (fl_key_offsets b) =? 0 then (None, fl_Clear)
      else
        let tmp_keys_ := unflatten (fl_keys b) (fl_key_offsets b ++ [len (fl_keys b)]) in
        (Some (CreateFilter p tmp_keys_ []), fl_Clear)
  | None => (None, fl_Clear)
  end.
End FileLevel.

(** ** FilterBlockBuilder *)

Record FilterBlockBuilder := {
  fb_keys : bytes;
  fb_start : list Z;
  fb_result : bytes;
  fb_filter_offsets : list Z;
}.

Definition new_FilterBlockBuilder : FilterBlockBuilder :=
  {| fb_keys := []; fb_start := []; fb_result := []; fb_filter_offsets := [] |}.

Section FilterBlock.
Context (policy_ : FilterPolicy).

Definition fb_GenerateFilter (b : FilterBlockBuilder) : FilterBlockBuilder :=
  let offset := u32 (len (fb_result b)) in
  if len (fb_start b) =? 0 then
    {| fb_keys := fb_keys b; fb_start := fb_start b; fb_result := fb_result b;
       fb_filter_offsets := fb_filter_offsets b ++ [offset] |}
  else
    let tmp_keys_ := unflatten (fb_keys b) (fb_start b ++ [len (fb_keys b)]) in
    {| fb_keys := []; fb_start := [];
       fb_result := CreateFilter policy_ tmp_keys_ (fb_result b);
       fb_filter_offsets := fb_filter_offsets b ++ [offset] |}.

(** [while (filter_index > filter_offsets_.size()) GenerateFilter()] *)
Definition StartBlock (b : FilterBlockBuilder) (block_offset : Z) : FilterBlockBuilder :=
  let filter_index := block_offset / kFilterBase in
  Nat.iter (Z.to_nat (filter_index - len (fb_filter_offsets b))) fb_GenerateFilter b.

Definition fb_AddKey (b : FilterBlockBuilder) (key : bytes) : FilterBlockBuilder :=
  {| fb_keys := fb_keys b ++ key; fb_start := fb_start b ++ [len (fb_keys b)];
     fb_result := fb_result b; fb_filter_offsets := fb_filter_offsets b |}.

Definition fb_Finish (b : FilterBlockBuilder) : bytes :=
  let b := if len (fb_start b) =? 0 then b else fb_GenerateFilter b in
  let array_offset := u32 (len (fb_result b)) in
  let result_ := fold_left PutFixed32 (fb_filter_offsets b) (fb_result b) in
  let result_ := PutFixed32 result_ array_offset in
  result_ ++ [z2b kFilterBaseLg].

(** ** FilterBlockReader *)

(** [data_] and [offset_] are NULL together, and then [num_] is 0. *)
Record FilterBlockReader := {
  fr_data : bytes;
  fr_offset : Z;
  fr_num : Z;
  fr_base_lg : Z;
}.

Definition new_FilterBlockReader (contents : bytes) : FilterBlockReader :=
  let n := len contents in
  if n <? 5 then {| fr_data := []; fr_offset := 0; fr_num := 0; fr_base_lg := 0 |}
  else
    let base_lg := u64 (schar (nth (Z.to_nat (n - 1)) contents Byte.x00)) in
    let last_word := DecodeFixed32 (drop (Z.to_nat (n - 5)) contents) in
    if n - 5 <? last_word
    then {| fr_data := []; fr_offset := 0; fr_num := 0; fr_base_lg := base_lg |}
    else {| fr_data := contents; fr_offset := last_word; fr_num := (n - 5 - last_word) / 4;
            fr_base_lg := base_lg |}.

Definition fr_KeyMayMatch (r : FilterBlockReader) (block_offset : Z) (key : bytes) : bool :=
  let index := Z.shiftr block_offset (fr_base_lg r) in
  if index <? fr_num r then
    let start := DecodeFixed32 (drop (Z.to_nat (fr_offset r + index * 4)) (fr_data r)) in
    let limit := DecodeFixed32 (drop (Z.to_nat (fr_offset r + index * 4 + 4)) (fr_data r)) in
    if (start <=? limit) && (limit <=? fr_offset r) then
      KeyMayMatch policy_ key (take (Z.to_nat (limit - start)) (drop (Z.to_nat start) (fr_data r)))
    else if start =? limit then false
    else true
  else true.

(** ** What the builder has been given *)

(** Segments: the keys of each finished filter and its bytes. *)
Definition segment := (list bytes * bytes)%type.

Fixpoint key_offsets (o : Z) (keys : list bytes) : list Z :=
  match keys with
  | [] => []
  | k :: keys => o :: key_offsets (o + len k) keys
  end.

Fixpoint seg_offsets (o : Z) (segs : list segment) : list Z :=
  match segs with
  | [] => []
  | (_, f) :: segs => o :: seg_offsets (o + len f) segs
  end.

Definition segs_bytes (segs : list segment) : bytes := concat (map snd segs).

Definition seg_matches (s : segment) : Prop :=
  Forall (fun k => KeyMayMatch policy_ k (snd s) = true) (fst s).

Record fb_ok (b : FilterBlockBuilder) (segs : list segment) (pending : list bytes) : Prop := {
  fbo_keys : fb_keys b = concat pending;
  fbo_start : fb_start b = key_offsets 0 pending;
  fbo_result : fb_result b = segs_bytes segs;
  fbo_offsets : fb_filter_offsets b = map u32 (seg_offsets 0 segs);
  fbo_matches : Forall seg_matches segs;
}.

Lemma key_offsets_app o ks1 ks2 :
  key_offsets o (ks1 ++ ks2) = key_offsets o ks1 ++ key_offsets (o + len (concat ks1)) ks2.
Proof.
  revert o. induction ks1 as [|k ks1 IH]; intros o; simpl.
  - len_nils. by rewrite Z.add_0_r.
  - by rewrite IH, len_app, Z.add_assoc.
Qed.

Lemma seg_offsets_app o s1 s2 :
  seg_offsets o (s1 ++ s2) = seg_offsets o s1 ++ seg_offsets (o + len (segs_bytes s1)) s2.
Proof.
  revert o. unfold segs_bytes. induction s1 as [|[ks f] s1 IH]; intros o; simpl.
  - len_nils. by rewrite Z.add_0_r.
  - by rewrite IH, len_app, Z.add_assoc.
Qed.

Lemma length_key_offsets o ks : length (key_offsets o ks) = length ks.
Proof. revert o. induction ks; intros o; simpl; [done|]. by rewrite IHks. Qed.

Lemma length_seg_offsets o segs : length (seg_offsets o segs) = length segs.
Proof. revert o. induction segs as [|[ks f] segs IH]; intros o; simpl; [done|]. by rewrite IH. Qed.

(** Unflattening gives back the keys. *)
Lemma unflatten_key_offsets keys : forall pre post,
  unflatten (pre ++ concat keys ++ post) (key_offsets (len pre) keys ++ [len pre + len (concat keys)]) = keys.
Proof.
  induction keys as [|k keys IH]; intros pre post; [done|].
  cbn [concat key_offsets app]. rewrite len_app, Z.add_assoc.
  assert (unflatten (pre ++ (k ++ concat keys) ++ post)
    (key_offsets (len pre + len k) keys ++ [len pre + len k + len (concat keys)]) = keys) as E.
  { specialize (IH (pre ++ k) post). rewrite len_app, <- !app_assoc in IH.
    rewrite <- !app_assoc. exact IH. }
  assert (exists b tl, key_offsets (len pre + len k) keys ++ [len pre + len k + len (concat keys)] = b :: tl
    /\ b = len pre + len k) as (b & tl & Eb & ->).
  { destruct keys as [|k' keys]; simpl; eexists _, _; split; [reflexivity| |reflexivity|done].
    len_nils. lia. }
  cbn [unflatten app]. rewrite Eb in E |- *. f_equal; [|exact E].
  replace (len pre + len k - len pre) with (len k) by lia.
  rewrite drop_len_app by (unfold len; lia). rewrite <- app_assoc. apply take_len_app. unfold len. lia.
Qed.

Context (dom : bytes -> Prop) `{!FilterPolicyOk policy_ dom}.

Lemma fb_GenerateFilter_ok b segs pending :
  fb_ok b segs pending -> Forall dom pending -> len pending < 2 ^ 31 ->
  exists f, fb_ok (fb_GenerateFilter b) (segs ++ [(pending, f)]) [].
Proof.
  intros [Hk Hs Hr Ho Hm] Hdom Hlen. unfold fb_GenerateFilter.
  assert (len (fb_start b) = len pending) as El by (rewrite Hs; unfold len; by rewrite length_key_offsets).
  assert (fb_filter_offsets b ++ [u32 (len (fb_result b))] =
    map u32 (seg_offsets 0 segs ++ [len (segs_bytes segs)])) as Eo
    by (rewrite map_app, Ho, Hr; done).
  destruct (Z.eqb_spec (len (fb_start b)) 0) as [E0|E0].
  - exists []. rewrite El in E0. apply len_0_nil in E0. subst pending.
    split; cbn [fb_keys fb_start fb_result fb_filter_offsets]; try done.
    + rewrite Hr. unfold segs_bytes. rewrite map_app, concat_app. simpl. by rewrite app_nil_r.
    + by rewrite Eo, seg_offsets_app.
    + apply Forall_app. split; [done|]. repeat constructor.
  - assert (unflatten (fb_keys b) (fb_start b ++ [len (fb_keys b)]) = pending) as ->.
    { rewrite Hk, Hs. pose proof (unflatten_key_offsets pending [] []) as E.
      rewrite app_nil_r in E. exact E. }
    destruct (fp_append (p := policy_) pending (fb_result b)) as [f Ef]. exists f. rewrite Ef.
    split; cbn [fb_keys fb_start fb_result fb_filter_offsets]; try done.
    + rewrite Hr. unfold segs_bytes. rewrite map_app, concat_app. simpl. by rewrite app_nil_r.
    + by rewrite Eo, seg_offsets_app.
    + apply Forall_app. split; [done|]. constructor; [|constructor].
      apply Forall_forall. intros k Hin. simpl. eapply fp_match; [exact Hdom|done|exact Ef|done].
Qed.

Lemma fb_AddKey_ok b segs pending key :
  fb_ok b segs pending -> fb_ok (fb_AddKey b key) segs (pending ++ [key]).
Proof.
  intros [Hk Hs Hr Ho Hm]. split; cbn [fb_keys fb_start fb_result fb_filter_offsets fb_AddKey]; try done.
  - by rewrite Hk, concat_app; simpl; rewrite app_nil_r.
  - by rewrite key_offsets_app, Hs, Hk.
Qed.

(** After [i] GenerateFilter calls the pending keys are in the next segment. *)
Lemma fb_Generate_iter n : forall b segs pending,
  fb_ok b segs pending -> Forall dom pending -> len pending < 2 ^ 31 ->
  exists segs' pending', fb_ok (Nat.iter n fb_GenerateFilter b) segs' pending' /\
    length segs' = (length segs + n)%nat /\ Forall dom pending' /\ len pending' < 2 ^ 31 /\
    match n with
    | O => segs' = segs /\ pending' = pending
    | S _ => exists f ex, segs' = segs ++ (pending, f) :: ex /\ pending' = []
    end.
Proof.
  induction n as [|n IH]; intros b segs pending Hok Hd Hl.
  { exists segs, pending. split; [done|]. split; [lia|]. done. }
  rewrite Nat.iter_succ. destruct (IH b segs pending Hok Hd Hl) as (segs' & pending' & Hok' & Hlen & Hd' & Hl' & Hn).
  destruct (fb_GenerateFilter_ok _ _ _ Hok' Hd' Hl') as [f Hok2].
  exists (segs' ++ [(pending', f)]), []. split; [done|]. rewrite length_app. simpl.
  split; [lia|]. split; [constructor|]. split; [done|].
  destruct n as [|n].
  - destruct Hn as [-> ->]. exists f, []. done.
  - destruct Hn as (f0 & ex & -> & ->). exists f0, (ex ++ [([], f)]). split; [|done].
    by rewrite <- app_assoc.
Qed.

(** The calls StartBlock AddKey* for one data block. *)
Definition add_block (b : FilterBlockBuilder) (blk : Z * list bytes) : FilterBlockBuilder :=
  fold_left fb_AddKey (snd blk) (StartBlock b (fst blk)).

(** Where the keys of a block ended up: in the segment of the block's index,
    or still pending for it. *)
Definition placed (segs : list segment) (pending : list bytes) (blk : Z * list bytes) : Prop :=
  let i := Z.to_nat (fst blk / kFilterBase) in
  (exists s, segs !! i = Some s /\ Forall (fun k => k ∈ fst s) (snd blk)) \/
  (i = length segs /\ Forall (fun k => k ∈ pending) (snd blk)).

Lemma add_keys_ok keys : forall b segs pending,
  fb_ok b segs pending -> fb_ok (fold_left fb_AddKey keys b) segs (pending ++ keys).
Proof.
  induction keys as [|k keys IH]; intros b segs pending Hok; cbn [fold_left].
  - by rewrite app_nil_r.
  - rewrite (app_assoc pending [k] keys : pending ++ k :: keys = _). apply IH. by apply fb_AddKey_ok.
Qed.

Lemma placed_more segs pending blk ks :
  placed segs pending blk -> placed segs (pending ++ ks) blk.
Proof.
  intros [H|[Hi Hk]]; [by left|right]. split; [done|].
  eapply Forall_impl; [exact Hk|]. intros k Hin. apply elem_of_app. by left.
Qed.

Lemma placed_generate segs pending f ex blk :
  placed segs pending blk -> placed (segs ++ (pending, f) :: ex) [] blk.
Proof.
  intros [(s & Hs & Hk)|[Hi Hk]]; left.
  - exists s. split; [|done]. apply lookup_app_l_Some. done.
  - exists (pending, f). split; [|done]. rewrite Hi. by apply list_lookup_middle.
Qed.

(** Blocks come in order, at offsets of 64 bits, with keys of the domain. *)
Fixpoint blocks_ok (last : Z) (blocks : list (Z * list bytes)) : Prop :=
  match blocks with
  | [] => True
  | (o, ks) :: blocks => last <= o /\ Forall dom ks /\ blocks_ok o blocks
  end.

Lemma add_blocks_ok blocks : forall b segs pending last done_,
  fb_ok b segs pending -> Forall dom pending ->
  Z.of_nat (length segs) <= last / kFilterBase -> 0 <= last -> blocks_ok last blocks ->
  len pending + len (concat (map snd blocks)) < 2 ^ 31 ->
  Forall (placed segs pending) done_ ->
  exists segs' pending', fb_ok (fold_left add_block blocks b) segs' pending' /\
    Forall dom pending' /\ len pending' < 2 ^ 31 /\ Forall (placed segs' pending') (done_ ++ blocks).
Proof.
  induction blocks as [|[o ks] blocks IH]; intros b segs pending last done_ Hok Hdom Hlast H0 Hb Hn Hp.
  { exists segs, pending. cbn [fold_left map concat] in *. rewrite app_nil_r. len_simpl.
    split; [done|]. split; [done|]. split; [lia|done]. }
  destruct Hb as (Hlo & Hdks & Hb). cbn [fold_left map concat] in *. rewrite len_app in Hn.
  unfold add_block at 2. cbn [fst snd] in *. unfold StartBlock.
  assert (last / kFilterBase <= o / kFilterBase) as Hmono by (apply Z.div_le_mono; [done|lia]).
  assert (len (fb_filter_offsets b) = Z.of_nat (length segs)) as Ho.
  { rewrite (fbo_offsets _ _ _ Hok). unfold len. by rewrite length_map, length_seg_offsets. }
  rewrite Ho. set (n := Z.to_nat (o / kFilterBase - Z.of_nat (length segs))).
  destruct (fb_Generate_iter n b segs pending Hok Hdom) as (segs' & pending' & Hok' & Hlen & Hd' & Hl' & Hsh);
    [len_facts; lia|].
  pose proof (add_keys_ok ks _ _ _ Hok') as Hok2.
  assert (Forall (placed segs' (pending' ++ ks)) done_) as Hp'.
  { eapply Forall_impl; [exact Hp|]. intros blk Hblk. apply placed_more.
    destruct n as [|n']; [by destruct Hsh as [-> ->]|].
    destruct Hsh as (f & ex & -> & ->). by apply placed_generate. }
  assert (Z.of_nat (length segs') = o / kFilterBase) as Elen.
  { rewrite Hlen. subst n. pose proof (Z.div_pos o kFilterBase ltac:(lia) ltac:(done)). lia. }
  destruct (IH _ segs' (pending' ++ ks) o (done_ ++ [(o, ks)]) Hok2) as (segs2 & pending2 & Hok3 & Hd3 & Hl3 & Hp3).
  - by apply Forall_app.
  - lia.
  - lia.
  - done.
  - rewrite len_app. assert (len pending' <= len pending); [|len_facts; lia].
    destruct n as [|n']; [destruct Hsh as [-> ->]; lia|]. destruct Hsh as (? & ? & _ & ->). len_solve.
  - apply Forall_app. split; [done|]. constructor; [|constructor]. right. split.
    + simpl. lia.
    + apply Forall_forall. intros k Hk. apply elem_of_app. by right.
  - exists segs2, pending2. rewrite <- app_assoc in Hp3. done.
Qed.

(** *** Reading the finished block *)

Lemma seg_offsets_lookup segs : forall o i s,
  segs !! i = Some s ->
  (seg_offsets o segs ++ [o + len (segs_bytes segs)]) !! i = Some (o + len (segs_bytes (take i segs))) /\
  (seg_offsets o segs ++ [o + len (segs_bytes segs)]) !! S i =
    Some (o + len (segs_bytes (take i segs)) + len (snd s)).
Proof.
  unfold segs_bytes. induction segs as [|[ks f] segs IH]; intros o i s Hi; [done|].
  cbn [seg_offsets map concat snd app]. rewrite len_app, Z.add_assoc.
  destruct i as [|i]; simpl in Hi.
  - injection Hi as <-. split; [simpl; len_nils; by rewrite Z.add_0_r|].
    simpl. len_nils. rewrite Z.add_0_r. destruct segs as [|[ks' f'] segs]; simpl; [|done].
    len_nils. f_equal. lia.
  - destruct (IH (o + len f) i s Hi) as [E1 E2]. split.
    + etransitivity; [exact E1|]. simpl. f_equal. rewrite len_app. lia.
    + etransitivity; [exact E2|]. simpl. f_equal. rewrite len_app. lia.
Qed.

Lemma segs_bytes_split segs i s :
  segs !! i = Some s ->
  segs_bytes segs = segs_bytes (take i segs) ++ snd s ++ segs_bytes (drop (S i) segs).
Proof.
  intros Hi. rewrite <- (take_drop_middle segs i s Hi) at 1. unfold segs_bytes.
  by rewrite map_app, concat_app.
Qed.

(** The bytes Finish returns. *)
Definition finished (segs : list segment) : bytes :=
  segs_bytes segs ++ words (map u32 (seg_offsets 0 segs ++ [len (segs_bytes segs)])) ++ [z2b kFilterBaseLg].

Lemma fb_Finish_finished b segs pending :
  fb_ok b segs pending -> Forall dom pending -> len pending < 2 ^ 31 ->
  exists segs', fb_Finish b = finished segs' /\ Forall seg_matches segs' /\
    (forall blk, placed segs pending blk -> snd blk <> [] -> placed segs' [] blk).
Proof.
  intros Hok Hd Hl. unfold fb_Finish, finished.
  assert (forall b' segs', fb_ok b' segs' [] ->
    PutFixed32 (fold_left PutFixed32 (fb_filter_offsets b') (fb_result b')) (u32 (len (fb_result b')))
      ++ [z2b kFilterBaseLg] =
    segs_bytes segs' ++ words (map u32 (seg_offsets 0 segs' ++ [len (segs_bytes segs')])) ++ [z2b kFilterBaseLg]) as Hfin.
  { intros b' segs' [_ _ Hr Ho _]. rewrite fold_PutFixed32, Ho, Hr. unfold PutFixed32, words.
    rewrite !map_app, concat_app. cbn [map concat]. by rewrite app_nil_r, <- !app_assoc. }
  assert (len (fb_start b) = len pending) as El
    by (rewrite (fbo_start _ _ _ Hok); unfold len; by rewrite length_key_offsets).
  destruct (Z.eqb_spec (len (fb_start b)) 0) as [E0|E0].
  - rewrite El in E0. apply len_0_nil in E0. subst pending. exists segs.
    split; [by apply Hfin|]. split; [by destruct Hok|]. done.
  - destruct (fb_GenerateFilter_ok b segs pending Hok Hd Hl) as [f Hok'].
    exists (segs ++ [(pending, f)]). split; [by apply Hfin|]. split; [by destruct Hok'|].
    intros blk Hp _. by apply placed_generate.
Qed.

Lemma fr_KeyMayMatch_finished segs i s key off :
  len (segs_bytes segs) < 2 ^ 32 -> 0 <= off -> Z.to_nat (off / kFilterBase) = i ->
  segs !! i = Some s -> KeyMayMatch policy_ key (snd s) = true ->
  fr_KeyMayMatch (new_FilterBlockReader (finished segs)) off key = true.
Proof.
  intros Hsize Hoff Hi Hs Hk. unfold finished.
  set (ws := map u32 (seg_offsets 0 segs ++ [len (segs_bytes segs)])).
  set (data := segs_bytes segs) in *.
  assert (len ws = len segs + 1) as Hws.
  { unfold ws, len. rewrite length_map, length_app, length_seg_offsets. simpl. lia. }
  assert (len (data ++ words ws ++ [z2b kFilterBaseLg]) = len data + 4 * len segs + 5) as Hn
    by (rewrite !len_app, len_words, Hws; change (len [z2b kFilterBaseLg]) with 1; lia).
  unfold new_FilterBlockReader. rewrite Hn.
  destruct (Z.ltb_spec (len data + 4 * len segs + 5) 5); [len_facts; lia|].
  assert (nth (Z.to_nat (len data + 4 * len segs + 5 - 1)) (data ++ words ws ++ [z2b kFilterBaseLg]) Byte.x00
    = z2b kFilterBaseLg) as ->.
  { rewrite app_assoc, app_nth2; rewrite length_app; pose proof (len_words ws); unfold len in *; [|lia].
    by replace (_ - _)%nat with 0%nat by lia. }
  change (u64 (schar (z2b kFilterBaseLg))) with 11.
  assert (forall j w, (seg_offsets 0 segs ++ [len data]) !! j = Some w -> 0 <= w < 2 ^ 32 ->
    DecodeFixed32 (drop (length data + 4 * j) (data ++ words ws ++ [z2b kFilterBaseLg])) = w) as Hword.
  { intros j w Hj Hw. rewrite (DecodeFixed32_words data ws _ j (u32 w)).
    - rewrite (u32_small w) by done. by apply u32_small.
    - unfold ws. by rewrite list_lookup_fmap, Hj. }
  assert (DecodeFixed32 (drop (Z.to_nat (len data + 4 * len segs + 5 - 5)) (data ++ words ws ++ [z2b kFilterBaseLg]))
    = len data) as ->.
  { replace (Z.to_nat _) with (length data + 4 * length segs)%nat by (unfold len; lia).
    apply Hword; [|len_facts; lia]. rewrite lookup_app_r, length_seg_offsets, Nat.sub_diag; [done|].
    by rewrite length_seg_offsets. }
  destruct (Z.ltb_spec (len data + 4 * len segs + 5 - 5) (len data)); [len_facts; lia|].
  replace ((len data + 4 * len segs + 5 - 5 - len data) / 4) with (len segs)
    by (replace (_ - _) with (len segs * 4) by lia; by rewrite Z.div_mul).
  unfold fr_KeyMayMatch. cbn [fr_base_lg fr_num fr_offset fr_data].
  rewrite Z.shiftr_div_pow2 by lia. change (2 ^ 11) with kFilterBase.
  pose proof (Z.div_pos off kFilterBase Hoff ltac:(done)) as Hidx.
  assert (off / kFilterBase = Z.of_nat i) as -> by lia.
  pose proof (lookup_lt_Some _ _ _ Hs) as Hlt.
  destruct (Z.ltb_spec (Z.of_nat i) (len segs)); [|done].
  destruct (seg_offsets_lookup segs 0 i s Hs) as [E1 E2].
  pose proof (segs_bytes_split segs i s Hs) as Esplit. fold data in Esplit, E1, E2.
  set (pre := segs_bytes (take i segs)) in *. rewrite Z.add_0_l in E1, E2.
  assert (len data = len pre + len (snd s) + len (segs_bytes (drop (S i) segs))) as Edata
    by (rewrite Esplit, !len_app; lia).
  replace (Z.to_nat (len data + Z.of_nat i * 4)) with (length data + 4 * i)%nat by (unfold len; lia).
  replace (Z.to_nat (len data + Z.of_nat i * 4 + 4)) with (length data + 4 * S i)%nat by (unfold len; lia).
  rewrite Z.add_0_l in E1, E2.
  rewrite (Hword i (len pre) E1), (Hword (S i) (len pre + len (snd s)) E2) by (len_facts; lia).
  destruct (Z.leb_spec (len pre) (len pre + len (snd s))); [|len_facts; lia].
  destruct (Z.leb_spec (len pre + len (snd s)) (len data)); [|len_facts; lia]. cbn [andb].
  replace (take _ _) with (snd s); [done|].
  rewrite Esplit, <- !app_assoc, drop_len_app by (unfold len; lia).
  symmetry. apply take_len_app. unfold len. lia.
Qed.
End FilterBlock.

(** ** Claims *)

(** A filter block has no false negatives: for any policy that satisfies the
    FilterPolicy law, build a filter block with StartBlock, AddKey and Finish
    for data blocks in file order, and open the result with a
    FilterBlockReader: every key added for a data block matches at that
    block's offset, however blocks and keys are spread over the 2 KiB
    ranges. *)
Theorem filter_block_no_false_negatives (policy : FilterPolicy) (dom : bytes -> Prop)
    (Hpol : FilterPolicyOk policy dom) (blocks : list (Z * list bytes)) (o : Z) (ks : list bytes) (k : bytes)
    (Hb : blocks_ok dom 0 blocks) (Hn : len (concat (map snd blocks)) < 2 ^ 31)
    (Hsize : len (fb_Finish policy (fold_left (add_block policy) blocks new_FilterBlockBuilder)) < 2 ^ 32)
    (Hin : (o, ks) ∈ blocks) (Hk : k ∈ ks) :
  fr_KeyMayMatch policy
    (new_FilterBlockReader (fb_Finish policy (fold_left (add_block policy) blocks new_FilterBlockBuilder)))
    o k = true.
Proof.
  assert (fb_ok policy new_FilterBlockBuilder [] []) as H0 by (split; done).
  destruct (add_blocks_ok policy dom blocks _ [] [] 0 [] H0) as (segs & pending & Hok & Hd & Hl & Hp);
    [constructor|done|done|done|done|constructor|].
  destruct (fb_Finish_finished policy dom _ segs pending Hok Hd Hl) as (segs' & E & Hm & Hp').
  rewrite E in *. rewrite Forall_forall in Hp. specialize (Hp _ Hin).
  assert (0 <= o) as Ho.
  { clear -Hb Hin. assert (forall last, 0 <= last -> blocks_ok dom last blocks -> 0 <= o) as H;
      [|by apply (H 0)].
    clear Hb. induction blocks as [|[o' ks'] blocks IH]; [by apply elem_of_nil in Hin|].
    intros last Hlast (Hle & _ & Hb). apply elem_of_cons in Hin as [[= -> ->]|Hin]; [lia|].
    apply (IH Hin o'); [lia|done]. }
  assert (snd (o, ks) <> []) as Hne by (intros Ek; simpl in Ek; subst; by apply elem_of_nil in Hk).
  destruct (Hp' _ Hp Hne) as [(s & Hs & Hall)|[_ Hall]].
  - rewrite Forall_forall in Hall. specialize (Hall k Hk).
    rewrite Forall_forall in Hm. pose proof (Hm s (list_elem_of_lookup_2 _ _ _ Hs)) as Hsm.
    unfold seg_matches in Hsm. rewrite Forall_forall in Hsm.
    eapply fr_KeyMayMatch_finished; [|done|reflexivity|exact Hs|by apply Hsm].
    unfold finished in Hsize. rewrite len_app in Hsize. len_facts. lia.
  - rewrite Forall_forall in Hall. specialize (Hall k Hk). by apply elem_of_nil in Hall.
Qed.

Lemma filter_block_no_false_negatives_witness :
  fr_KeyMayMatch (BloomFilterPolicy 10)
    (new_FilterBlockReader (fb_Finish (BloomFilterPolicy 10)
       (fold_left (add_block (BloomFilterPolicy 10)) [(0, [[Byte.x61]]); (5000, [[Byte.x62]])]
          new_FilterBlockBuilder))) 5000 [Byte.x62] = true.
Proof.
  apply (filter_block_no_false_negatives (BloomFilterPolicy 10) (fun _ => True)
    (BloomFilterPolicy_ok 10 (TCEq_refl _) (TCEq_refl _)) [(0, [[Byte.x61]]); (5000, [[Byte.x62]])]
    5000 [[Byte.x62]] [Byte.x62]).
  - simpl. repeat split; try discriminate; repeat constructor.
  - reflexivity.
  - vm_compute. reflexivity.
  - right. left.
  - left.
Defined.

(** The file-level filter has no false negatives either: the filter
    generated after AddKey calls matches each key added since the last
    GenerateFilter, and generating resets the builder. *)
Theorem file_level_filter_no_false_negatives (policy : FilterPolicy) (dom : bytes -> Prop)
    (Hpol : FilterPolicyOk policy dom) (keys : list bytes) (k : bytes)
    (Hdom : Forall dom keys) (Hn : len keys < 2 ^ 31) (Hk : k ∈ keys) :
  exists filter,
    fl_GenerateFilter (Some policy) (fold_left (fl_AddKey (Some policy)) keys fl_Clear) =
      (Some filter, fl_Clear) /\
    KeyMayMatch policy k filter = true.
Proof.
  assert (forall pending b, fl_keys b = concat pending -> fl_key_offsets b = key_offsets 0 pending ->
    let b' := fold_left (fl_AddKey (Some policy)) keys b in
    fl_keys b' = concat (pending ++ keys) /\ fl_key_offsets b' = key_offsets 0 (pending ++ keys)) as Hadd.
  { clear. induction keys as [|key keys IH]; intros pending b Hk Ho; simpl; [by rewrite app_nil_r|].
    rewrite (app_assoc pending [key] keys : pending ++ key :: keys = _). apply IH; simpl.
    - rewrite Hk, concat_app. simpl. by rewrite app_nil_r.
    - by rewrite key_offsets_app, Ho, Hk. }
  destruct (Hadd [] fl_Clear eq_refl eq_refl) as [Ek Eo]. simpl in Ek, Eo.
  unfold fl_GenerateFilter. rewrite Ek, Eo.
  assert (len (key_offsets 0 keys) = len keys) as -> by (unfold len; by rewrite length_key_offsets).
  destruct (Z.eqb_spec (len keys) 0) as [E0|E0].
  { apply len_0_nil in E0. subst. by apply elem_of_nil in Hk. }
  pose proof (unflatten_key_offsets keys [] []) as Eu. rewrite app_nil_r in Eu. simpl in Eu.
  change (len []) with 0 in Eu. rewrite Z.add_0_l in Eu. rewrite Eu.
  eexists. split; [reflexivity|].
  destruct (fp_append (p := policy) keys []) as [f Ef]. rewrite Ef. simpl.
  eapply fp_match; [exact Hdom|done|exact Ef|done].
Qed.

Lemma file_level_filter_no_false_negatives_witness :
  exists filter, fl_GenerateFilter (Some (BloomFilterPolicy 10))
      (fold_left (fl_AddKey (Some (BloomFilterPolicy 10))) [[Byte.x61]; []] fl_Clear) = (Some filter, fl_Clear) /\
    KeyMayMatch (BloomFilterPolicy 10) [] filter = true.
Proof.
  apply (file_level_filter_no_false_negatives (BloomFilterPolicy 10) (fun _ => True)
    (BloomFilterPolicy_ok 10 (TCEq_refl _) (TCEq_refl _)) [[Byte.x61]; []] []).
  - repeat constructor.
  - reflexivity.
  - right. left.
Defined.
