(* ===== verification/TwoLevel.v ===== *)
(** * Two-level iterators (table/two_level_iterator.cc)

    TwoLevelIterator walks the blocks an index iterator names and the entries
    of each block; a table is one over its index block, a level one over its
    guards (TwoLevelIteratorGuards repeats the class with more arguments for
    block_function).  Over an index that keeps [IndexOk], which a block
    iterator with separating keys and the guard iterator of a level both do, it
    is an Iterator over the concatenated blocks. *)

From Stdlib Require Import ZArith Lia Bool.
From stdpp Require Import base list.
From S2P Require Import Prelude Comparator Status Iterator.

Set Default Goal Selector "!".
Local Open Scope Z_scope.
#[local] Arguments Compare : simpl never.

Section TwoLevelIterator.
Context (X D : IterOps) (block_function : bytes -> St D).
Notation XW := (IteratorWrapper X).
Notation DW := (IteratorWrapper D).

Record TwoLevelIterator := {
  t_status_ : Status;
  index_iter_ : Wrapper X;
  data_iter_ : option (Wrapper D);   (* [None]: the wrapper holds NULL *)
  data_block_handle_ : bytes;
}.

Definition new_TwoLevelIterator (index_iter : St X) : TwoLevelIterator :=
  {| t_status_ := OK; index_iter_ := w_Set X [] index_iter; data_iter_ := None; data_block_handle_ := [] |}.

Definition SaveError (t : TwoLevelIterator) (s : Status) : TwoLevelIterator :=
  if ok (t_status_ t) && negb (ok s) then
    {| t_status_ := s; index_iter_ := index_iter_ t; data_iter_ := data_iter_ t; data_block_handle_ := data_block_handle_ t |}
  else t.

Definition with_data (t : TwoLevelIterator) (data : option (Wrapper D)) (handle : bytes) : TwoLevelIterator :=
  {| t_status_ := t_status_ t; index_iter_ := index_iter_ t; data_iter_ := data; data_block_handle_ := handle |}.

Definition with_index (t : TwoLevelIterator) (index : Wrapper X) : TwoLevelIterator :=
  {| t_status_ := t_status_ t; index_iter_ := index; data_iter_ := data_iter_ t; data_block_handle_ := data_block_handle_ t |}.

Definition SetDataIterator (t : TwoLevelIterator) (data_iter : option (St D)) : TwoLevelIterator :=
  let old_key := match data_iter_ t with Some w => w_key D w | None => [] end in
  let t := match data_iter_ t with Some w => SaveError t (Iterator.status DW w) | None => t end in
  with_data t (w_Set D old_key <$> data_iter) (data_block_handle_ t).

Definition InitDataBlock (t : TwoLevelIterator) : TwoLevelIterator :=
  if negb (Valid XW (index_iter_ t)) then SetDataIterator t None
  else
    let handle := Iterator.value XW (index_iter_ t) in
    match data_iter_ t with
    | Some _ =>
        if Slice_compare handle (data_block_handle_ t) =? 0 then t
        else SetDataIterator (with_data t (data_iter_ t) handle) (Some (block_function handle))
    | None => SetDataIterator (with_data t (data_iter_ t) handle) (Some (block_function handle))
    end.

Definition move_index (f : Wrapper X -> option (Wrapper X)) (t : TwoLevelIterator) : option TwoLevelIterator :=
  with_index t <$> f (index_iter_ t).

(** if (data_iter_.iter() != NULL) data_iter_.f() *)
Definition move_data (f : Wrapper D -> option (Wrapper D)) (t : TwoLevelIterator) : option TwoLevelIterator :=
  match data_iter_ t with
  | Some w => (fun w' => with_data t (Some w') (data_block_handle_ t)) <$> f w
  | None => Some t
  end.

Definition data_valid (t : TwoLevelIterator) : bool :=
  match data_iter_ t with Some w => Valid DW w | None => false end.

Fixpoint SkipEmptyDataBlocksForward (fuel : nat) (t : TwoLevelIterator) : option TwoLevelIterator :=
  match fuel with
  | O => None
  | S fuel =>
      if data_valid t then Some t
      else if negb (Valid XW (index_iter_ t)) then Some (SetDataIterator t None)
      else
        t ← move_index (Next XW) t;
        t ← move_data (SeekToFirst DW) (InitDataBlock t);
        SkipEmptyDataBlocksForward fuel t
  end.

Fixpoint SkipEmptyDataBlocksBackward (fuel : nat) (t : TwoLevelIterator) : option TwoLevelIterator :=
  match fuel with
  | O => None
  | S fuel =>
      if data_valid t then Some t
      else if negb (Valid XW (index_iter_ t)) then Some (SetDataIterator t None)
      else
        t ← move_index (Prev XW) t;
        t ← move_data (SeekToLast DW) (InitDataBlock t);
        SkipEmptyDataBlocksBackward fuel t
  end.

Context (fuel : nat).

Definition two_Seek (target : bytes) (t : TwoLevelIterator) : option TwoLevelIterator :=
  t ← move_index (Seek XW target) t;
  t ← move_data (Seek DW target) (InitDataBlock t);
  SkipEmptyDataBlocksForward fuel t.

Definition two_SeekToFirst (t : TwoLevelIterator) : option TwoLevelIterator :=
  t ← move_index (SeekToFirst XW) t;
  t ← move_data (SeekToFirst DW) (InitDataBlock t);
  SkipEmptyDataBlocksForward fuel t.

Definition two_SeekToLast (t : TwoLevelIterator) : option TwoLevelIterator :=
  t ← move_index (SeekToLast XW) t;
  t ← move_data (SeekToLast DW) (InitDataBlock t);
  SkipEmptyDataBlocksBackward fuel t.

Definition two_Next (t : TwoLevelIterator) : option TwoLevelIterator :=
  t ← move_data (Next DW) t;
  SkipEmptyDataBlocksForward fuel t.

Definition two_Prev (t : TwoLevelIterator) : option TwoLevelIterator :=
  t ← move_data (Prev DW) t;
  SkipEmptyDataBlocksBackward fuel t.

Definition two_status (t : TwoLevelIterator) : Status :=
  if negb (ok (Iterator.status XW (index_iter_ t))) then Iterator.status XW (index_iter_ t)
  else match data_iter_ t with
       | Some w => if negb (ok (Iterator.status DW w)) then Iterator.status DW w else t_status_ t
       | None => t_status_ t
       end.

Definition TwoLevel : IterOps := {|
  St := TwoLevelIterator;
  Valid := data_valid;
  SeekToFirst := two_SeekToFirst;
  SeekToLast := two_SeekToLast;
  Seek := two_Seek;
  Next := two_Next;
  Prev := two_Prev;
  Iterator.key t := match data_iter_ t with Some w => w_key D w | None => [] end;
  Iterator.value t := match data_iter_ t with Some w => Iterator.value DW w | None => [] end;
  Iterator.status := two_status;
|}.
End TwoLevelIterator.

(** TwoLevelIteratorGuards: the same class, whose block_function also gets the
    table cache, the comparator, the version set and the level. *)
Definition TwoLevelGuards (X D : IterOps) (A : Type) (block_function : A -> bytes -> St D) (args : A) (fuel : nat) : IterOps :=
  TwoLevel X D (block_function args) fuel.

(** ** What the index promises *)

(** The index names the blocks [hs] in order; [seek target] is where Seek goes. *)
Class IndexOk (X : IterOps) (dom : bytes -> Prop) (hs : list bytes) (seek : bytes -> pos)
    (R : St X -> pos -> Prop) : Prop := {
  ix_valid s p : R s p -> Valid X s = match p with Some _ => true | None => false end;
  ix_value s i : R s (Some i) -> hs !! i = Some (Iterator.value X s);
  ix_status s p : R s p -> ok (Iterator.status X s) = true;
  ix_next s i : R s (Some i) -> exists s', Next X s = Some s' /\ R s' (next_pos (length hs) i);
  ix_prev s i : R s (Some i) -> exists s', Prev X s = Some s' /\ R s' (prev_pos i);
  ix_first s p : R s p -> exists s', SeekToFirst X s = Some s' /\ R s' (first_pos (length hs));
  ix_last s p : R s p -> exists s', SeekToLast X s = Some s' /\ R s' (last_pos (length hs));
  ix_seek s p target : R s p -> dom target -> exists s', Seek X target s = Some s' /\ R s' (seek target);
}.

(** An Iterator over (key, handle) pairs is an index. *)
#[export] Instance IterOk_index X c dom l R : IterOk X c dom l R -> IndexOk X dom (map snd l) (seek_pos c l) R.
Proof.
  intros H. split; rewrite ?length_map.
  - apply io_valid.
  - intros s i Hs%io_entry. by rewrite list_lookup_fmap, Hs.
  - apply io_status.
  - apply io_next.
  - apply io_prev.
  - apply io_first.
  - apply io_last.
  - apply io_seek.
Qed.

Lemma IndexWrapper_ok X dom hs seek R : IndexOk X dom hs seek R -> IndexOk (IteratorWrapper X) dom hs seek (wrapper_rel R).
Proof.
  intros HX. split; cbn [St Valid SeekToFirst SeekToLast Seek Next Prev Iterator.value Iterator.status IteratorWrapper].
  - intros w p (H & -> & _). by eapply ix_valid.
  - intros w i (H & _). by eapply ix_value.
  - intros w p (H & _). by eapply ix_status.
  - intros w i (H & _). by eapply w_lift_rel, ix_next.
  - intros w i (H & _). by eapply w_lift_rel, ix_prev.
  - intros w p (H & _). by eapply w_lift_rel, ix_first.
  - intros w p (H & _). by eapply w_lift_rel, ix_last.
  - intros w p target (H & _) Hd. by eapply w_lift_rel, ix_seek.
Qed.

(** ** The blocks, concatenated *)
Section TwoLevelOk.
Context (c : Comparator) (dom : bytes -> Prop) (X D : IterOps) (block_function : bytes -> St D).
Context (hs : list bytes) (contents : bytes -> list entry) (seek : bytes -> pos).
Context (RX : St X -> pos -> Prop) (RD : bytes -> St D -> pos -> Prop).
Context `{HX : !IndexOk X dom hs seek RX}.
Context (HD : forall h, h ∈ hs -> IterOk D c dom (contents h) (RD h)).
Context (Hbf : forall h, h ∈ hs -> RD h (block_function h) None).
Notation XW := (IteratorWrapper X).
Notation DW := (IteratorWrapper D).
Notation T := (TwoLevelIterator X D).

Definition all_entries : list entry := concat (map contents hs).
(** Where block [i] begins. *)
Definition start (i : nat) : nat := length (concat (take i (map contents hs))).

(** Seek of the index goes to a block that separates the entries before the
    target from those at or past it. *)
Definition index_separates : Prop := forall target, dom target ->
  match seek target with
  | Some j =>
      (j < length hs)%nat /\
      (forall i h e, (i < j)%nat -> hs !! i = Some h -> e ∈ contents h -> Compare c (fst e) target < 0) /\
      (forall i h e, (j < i)%nat -> hs !! i = Some h -> e ∈ contents h -> 0 <= Compare c (fst e) target)
  | None => forall h e, h ∈ hs -> e ∈ contents h -> Compare c (fst e) target < 0
  end.

Lemma start_S i h : hs !! i = Some h -> start (S i) = (start i + length (contents h))%nat.
Proof.
  intros Hi. unfold start. rewrite (take_S_r _ _ (contents h)), concat_app, length_app by (by rewrite list_lookup_fmap, Hi).
  simpl. by rewrite app_nil_r.
Qed.

Lemma start_all i : (length hs <= i)%nat -> start i = length all_entries.
Proof. intros H. unfold start, all_entries. by rewrite take_ge by (rewrite length_map; lia). Qed.

Lemma all_split i h : hs !! i = Some h ->
  all_entries = concat (take i (map contents hs)) ++ contents h ++ concat (drop (S i) (map contents hs)).
Proof.
  intros Hi. unfold all_entries.
  assert (map contents hs = take i (map contents hs) ++ [contents h] ++ drop (S i) (map contents hs)) as E.
  { simpl. symmetry. apply take_drop_middle. by rewrite list_lookup_fmap, Hi. }
  by rewrite E at 1; rewrite !concat_app; simpl; rewrite app_nil_r.
Qed.

Lemma entry_at_start i h n e : hs !! i = Some h -> contents h !! n = Some e -> all_entries !! (start i + n)%nat = Some e.
Proof.
  intros Hi Hn. rewrite (all_split i h Hi). rewrite lookup_app_r by (unfold start; lia).
  replace (start i + n - length _)%nat with n by (unfold start; lia).
  by apply lookup_app_l_Some.
Qed.

Lemma start_bound i h : hs !! i = Some h -> (start i + length (contents h) <= length all_entries)%nat.
Proof. intros Hi. rewrite (all_split i h Hi), !length_app. unfold start. lia. Qed.

Lemma seek_split l1 b l2 target :
  Forall (fun e => Compare c (fst e) target < 0) l1 -> Forall (fun e => 0 <= Compare c (fst e) target) l2 ->
  seek_pos c (l1 ++ b ++ l2) target =
    match seek_pos c b target with
    | Some n => Some (length l1 + n)%nat
    | None => at_count (l1 ++ b ++ l2) (length l1 + length b)
    end.
Proof.
  intros H1 H2. destruct (seek_pos c b target) as [n|] eqn:E.
  - apply seek_pos_Some in E as (kv & Hn & Hge & Hlt). apply seek_pos_Some. exists kv. split.
    { rewrite lookup_app_r by lia. replace (length l1 + n - length l1)%nat with n by lia. by apply lookup_app_l_Some. }
    split; [done|]. intros j kv' Hj Hkv'. apply lookup_app_Some in Hkv' as [Hkv'|[Hge' Hkv']].
    + by apply (Forall_lookup_1 _ _ _ _ H1 Hkv').
    + apply (Hlt (j - length l1)%nat); [lia|]. pose proof (lookup_lt_Some _ _ _ Hn).
      by rewrite lookup_app_l in Hkv' by lia.
  - apply seek_pos_None in E. rewrite seek_pos_count. f_equal. apply prefix_len_unique.
    + rewrite !length_app. lia.
    + intros i e Hi He. apply Z.ltb_lt. rewrite app_assoc in He. rewrite lookup_app_l in He by (rewrite length_app; lia).
      apply lookup_app_Some in He as [He|[_ He]]; [by apply (Forall_lookup_1 _ _ _ _ H1 He)|by apply (Forall_lookup_1 _ _ _ _ E He)].
    + intros e He. apply Z.ltb_ge. rewrite app_assoc, lookup_app_r in He by (rewrite length_app; lia).
      by apply (Forall_lookup_1 _ _ _ _ H2 He).
Qed.

(** *** Positions *)

Lemma XW_ok : IndexOk XW dom hs seek (wrapper_rel RX).
Proof. by apply IndexWrapper_ok. Qed.

Lemma DW_ok h : h ∈ hs -> IterOk DW c dom (contents h) (wrapper_rel (RD h)).
Proof. intros Hh. apply IteratorWrapper_ok, HD, Hh. Qed.

(** The index stands at [q]; the data iterator, if there is one, over block
    [h] at [p]. *)
Definition mid (t : T) (q : pos) (pd : option (bytes * pos)) : Prop :=
  t_status_ X D t = OK /\ wrapper_rel RX (index_iter_ X D t) q /\
  match pd with
  | None => data_iter_ X D t = None
  | Some (h, p) => exists w, data_iter_ X D t = Some w /\ h ∈ hs /\ data_block_handle_ X D t = h /\ wrapper_rel (RD h) w p
  end.

Lemma SetDataIterator_eq t q pd h d : mid t q pd ->
  exists old, SetDataIterator X D (with_data X D t (data_iter_ X D t) h) d = with_data X D t (w_Set D old <$> d) h.
Proof.
  intros (Hst & _ & Hd). unfold SetDataIterator. simpl. destruct (data_iter_ X D t) as [w|]; [|by exists []].
  destruct pd as [[h' p]|]; [|done]. destruct Hd as (w' & [= <-] & Hh & _ & Hw). pose proof (DW_ok h' Hh).
  pose proof (io_status (I := DW) w p Hw) as Hok. simpl in Hok. unfold SaveError. simpl. rewrite Hok. simpl.
  rewrite andb_false_r. by exists (w_key D w).
Qed.

Lemma clear_data t q pd : mid t q pd -> mid (SetDataIterator X D t None) q None.
Proof.
  intros H. destruct (SetDataIterator_eq t q pd (data_block_handle_ X D t) None H) as [old E].
  assert (with_data X D t (data_iter_ X D t) (data_block_handle_ X D t) = t) as Et by (clear; destruct t; reflexivity).
  rewrite Et in E. rewrite E. destruct H as (Hst & Hx & _). split; [done|]. by split.
Qed.

Lemma InitDataBlock_at t i h pd : mid t (Some i) pd -> hs !! i = Some h ->
  exists p, mid (InitDataBlock X D block_function t) (Some i) (Some (h, p)).
Proof.
  intros H Hi. pose proof H as (Hst & Hx & Hd). pose proof XW_ok. unfold InitDataBlock.
  assert (h ∈ hs) as Hh by by eapply list_elem_of_lookup_2.
  rewrite (ix_valid (X := XW) _ _ Hx). cbn [negb]. pose proof (ix_value (X := XW) _ _ Hx) as Hv.
  assert (Iterator.value XW (index_iter_ X D t) = h) as -> by congruence.
  destruct (SetDataIterator_eq t _ pd h (Some (block_function h)) H) as [old E].
  assert (mid (with_data X D t (w_Set D old <$> Some (block_function h)) h) (Some i) (Some (h, None))) as Hnew.
  { split; [done|]. split; [done|]. eexists. split; [done|]. split; [done|]. split; [done|]. apply w_Update_rel, Hbf, Hh. }
  destruct (data_iter_ X D t) as [w|] eqn:Ed; [|exists None; by rewrite E].
  destruct (Z.eqb_spec (Slice_compare h (data_block_handle_ X D t)) 0) as [Hc|_]; [|exists None; by rewrite E].
  destruct pd as [[h' p]|]; [|congruence]. destruct Hd as (w' & [= <-] & Hh' & Hdh & Hw).
  exists p. assert (h = h') as ->.
  { rewrite Slice_compare_lex in Hc. apply lex_eq in Hc. by rewrite Hc. }
  split; [done|]. split; [done|]. exists w. by split_and!.
Qed.

Lemma InitDataBlock_end t pd : mid t None pd -> mid (InitDataBlock X D block_function t) None None.
Proof.
  intros H. unfold InitDataBlock. pose proof XW_ok. rewrite (ix_valid (X := XW) _ _ (proj1 (proj2 H))).
  by eapply clear_data.
Qed.

Lemma move_index_ok f t q q' pd : mid t q pd ->
  (exists w', f (index_iter_ X D t) = Some w' /\ wrapper_rel RX w' q') ->
  exists t', move_index X D f t = Some t' /\ mid t' q' pd.
Proof.
  intros (Hst & _ & Hd) (w' & E & Hw'). unfold move_index. rewrite E. eexists. split; [done|].
  split; [done|]. by split.
Qed.

Lemma move_data_ok f t q h p p' : mid t q (Some (h, p)) ->
  (forall w, wrapper_rel (RD h) w p -> exists w', f w = Some w' /\ wrapper_rel (RD h) w' p') ->
  exists t', move_data X D f t = Some t' /\ mid t' q (Some (h, p')).
Proof.
  intros (Hst & Hx & w & Ed & Hh & Hdh & Hw) Hf. destruct (Hf w Hw) as (w' & E & Hw'). unfold move_data. rewrite Ed, E.
  eexists. split; [done|]. split; [done|]. split; [done|]. exists w'. by split_and!.
Qed.

Lemma data_valid_at t q h p : mid t q (Some (h, p)) ->
  data_valid X D t = match p with Some _ => true | None => false end.
Proof.
  intros (_ & _ & w & Ed & Hh & _ & Hw). unfold data_valid. rewrite Ed. pose proof (DW_ok h Hh).
  exact (io_valid (I := DW) w p Hw).
Qed.

(** *** The contract *)
Definition two_rel (t : T) (p : pos) : Prop :=
  match p with
  | None => exists q, mid t q None
  | Some k => exists i h n, hs !! i = Some h /\ k = (start i + n)%nat /\ mid t (Some i) (Some (h, Some n))
  end.

(** The position a data iterator at [p] of block [i] has among all entries,
    going forward and backward. *)
Definition forward_pos (i : nat) (p : pos) : pos :=
  match p with Some n => Some (start i + n)%nat | None => at_count all_entries (start (S i)) end.
Definition backward_pos (i : nat) (p : pos) : pos :=
  match p with Some n => Some (start i + n)%nat | None => prev_pos (start i) end.

Lemma at_end_forward fuel t : mid t None None -> (0 < fuel)%nat ->
  exists t', SkipEmptyDataBlocksForward X D block_function fuel t = Some t' /\ two_rel t' None.
Proof.
  intros H Hf. destruct fuel as [|fuel]; [lia|]. simpl. pose proof H as (_ & Hx & Hd). unfold data_valid. rewrite Hd.
  pose proof XW_ok. rewrite (ix_valid (X := XW) _ _ Hx : w_valid X _ = false). simpl. eexists. split; [done|].
  exists None. by eapply clear_data.
Qed.

Lemma at_end_backward fuel t : mid t None None -> (0 < fuel)%nat ->
  exists t', SkipEmptyDataBlocksBackward X D block_function fuel t = Some t' /\ two_rel t' None.
Proof.
  intros H Hf. destruct fuel as [|fuel]; [lia|]. simpl. pose proof H as (_ & Hx & Hd). unfold data_valid. rewrite Hd.
  pose proof XW_ok. rewrite (ix_valid (X := XW) _ _ Hx : w_valid X _ = false). simpl. eexists. split; [done|].
  exists None. by eapply clear_data.
Qed.

Lemma skip_forward fuel : forall t i h p, hs !! i = Some h -> mid t (Some i) (Some (h, p)) -> (length hs - i + 1 < fuel)%nat ->
  exists t', SkipEmptyDataBlocksForward X D block_function fuel t = Some t' /\ two_rel t' (forward_pos i p).
Proof.
  induction fuel as [|fuel IH]; intros t i h p Hi H Hf; [lia|]. cbn [SkipEmptyDataBlocksForward].
  pose proof (lookup_lt_Some _ _ _ Hi) as Hlt. rewrite (data_valid_at _ _ _ _ H). destruct p as [n|].
  { exists t. split; [done|]. exists i, h, n. done. }
  pose proof XW_ok as HXW. pose proof H as (_ & Hx & _). rewrite (ix_valid (X := XW) _ _ Hx). cbn [negb].
  destruct (move_index_ok (Next XW) t _ _ _ H (ix_next (X := XW) _ _ Hx)) as (t1 & -> & H1). cbn [mbind option_bind].
  unfold next_pos in H1. destruct (decide (S i < length hs)%nat) as [Hn|Hn].
  - destruct (lookup_lt_is_Some_2 hs (S i) Hn) as [h' Hh']. destruct (InitDataBlock_at t1 (S i) h' _ H1 Hh') as [p1 H2].
    pose proof (DW_ok h' ltac:(by eapply list_elem_of_lookup_2)) as HDW.
    destruct (move_data_ok (SeekToFirst DW) _ _ _ _ _ H2 (fun w Hw => io_first (I := DW) w _ Hw)) as (t3 & -> & H3).
    cbn [mbind option_bind]. destruct (IH t3 (S i) h' _ Hh' H3) as (t' & E & Hr); [lia|]. exists t'. split; [done|].
    simpl. unfold first_pos, forward_pos in Hr. pose proof (start_bound (S i) h' Hh') as Hb.
    destruct (decide (length (contents h') = 0)%nat) as [E0|E0].
    + by rewrite (start_S (S i) h' Hh'), E0, Nat.add_0_r in Hr.
    + rewrite Nat.add_0_r in Hr. unfold at_count. by rewrite decide_True by lia.
  - pose proof (InitDataBlock_end t1 _ H1) as H2.
    assert (move_data X D (SeekToFirst DW) (InitDataBlock X D block_function t1) = Some (InitDataBlock X D block_function t1)) as ->.
    { unfold move_data. by destruct H2 as (_ & _ & ->). }
    cbn [mbind option_bind]. simpl. unfold at_count. rewrite (start_all (S i)) by lia. rewrite decide_False by lia.
    apply at_end_forward; [done|lia].
Qed.

Lemma skip_backward fuel : forall t i h p, hs !! i = Some h -> mid t (Some i) (Some (h, p)) -> (i + 2 < fuel)%nat ->
  exists t', SkipEmptyDataBlocksBackward X D block_function fuel t = Some t' /\ two_rel t' (backward_pos i p).
Proof.
  induction fuel as [|fuel IH]; intros t i h p Hi H Hf; [lia|]. cbn [SkipEmptyDataBlocksBackward].
  pose proof (lookup_lt_Some _ _ _ Hi) as Hlt. rewrite (data_valid_at _ _ _ _ H). destruct p as [n|].
  { exists t. split; [done|]. exists i, h, n. done. }
  pose proof XW_ok as HXW. pose proof H as (_ & Hx & _). rewrite (ix_valid (X := XW) _ _ Hx). cbn [negb].
  destruct (move_index_ok (Prev XW) t _ _ _ H (ix_prev (X := XW) _ _ Hx)) as (t1 & -> & H1). cbn [mbind option_bind].
  destruct i as [|i]; simpl in H1.
  - pose proof (InitDataBlock_end t1 _ H1) as H2.
    assert (move_data X D (SeekToLast DW) (InitDataBlock X D block_function t1) = Some (InitDataBlock X D block_function t1)) as ->.
    { unfold move_data. by destruct H2 as (_ & _ & ->). }
    cbn [mbind option_bind]. apply at_end_backward; [done|lia].
  - destruct (lookup_lt_is_Some_2 hs i) as [h' Hh']; [lia|]. destruct (InitDataBlock_at t1 i h' _ H1 Hh') as [p1 H2].
    pose proof (DW_ok h' ltac:(by eapply list_elem_of_lookup_2)) as HDW.
    destruct (move_data_ok (SeekToLast DW) _ _ _ _ _ H2 (fun w Hw => io_last (I := DW) w _ Hw)) as (t3 & -> & H3).
    cbn [mbind option_bind]. destruct (IH t3 i h' _ Hh' H3) as (t' & E & Hr); [lia|]. exists t'. split; [done|].
    simpl. rewrite (start_S i h' Hh'). destruct (length (contents h')) as [|b]; simpl in Hr.
    + by rewrite Nat.add_0_r.
    + by rewrite Nat.add_succ_r.
Qed.

Context (fuel : nat) (Hfuel : (length hs + 2 < fuel)%nat).

Lemma two_rel_mid t p : two_rel t p -> exists q pd, mid t q pd.
Proof. destruct p as [k|]; simpl; [intros (i & h & n & _ & _ & H)|intros [q H]]; eauto. Qed.

Lemma two_Next_ok t k : two_rel t (Some k) ->
  exists t', two_Next X D block_function fuel t = Some t' /\ two_rel t' (next_pos (length all_entries) k).
Proof.
  intros (i & h & n & Hi & -> & H). unfold two_Next. pose proof (DW_ok h ltac:(by eapply list_elem_of_lookup_2)) as HDW.
  assert (n < length (contents h))%nat as Hn.
  { destruct H as (_ & _ & w & _ & _ & _ & Hw). by eapply (io_bound (I := DW)) in Hw. }
  destruct (move_data_ok (Next DW) _ _ _ _ _ H (fun w Hw => io_next (I := DW) w _ Hw)) as (t1 & -> & H1).
  cbn [mbind option_bind]. destruct (skip_forward fuel t1 i h _ Hi H1) as (t' & E & Hr); [lia|].
  exists t'. split; [done|]. pose proof (start_bound i h Hi) as Hb. unfold next_pos, forward_pos, at_count in *.
  rewrite (start_S i h Hi) in Hr. destruct (decide (S n < length (contents h))%nat).
  - rewrite decide_True by lia. by rewrite Nat.add_succ_r in Hr.
  - by replace (start i + length (contents h))%nat with (S (start i + n)) in Hr by lia.
Qed.

Lemma two_Prev_ok t k : two_rel t (Some k) ->
  exists t', two_Prev X D block_function fuel t = Some t' /\ two_rel t' (prev_pos k).
Proof.
  intros (i & h & n & Hi & -> & H). unfold two_Prev. pose proof (DW_ok h ltac:(by eapply list_elem_of_lookup_2)) as HDW.
  pose proof (lookup_lt_Some _ _ _ Hi) as Hlt.
  destruct (move_data_ok (Prev DW) _ _ _ _ _ H (fun w Hw => io_prev (I := DW) w _ Hw)) as (t1 & -> & H1).
  cbn [mbind option_bind]. destruct (skip_backward fuel t1 i h _ Hi H1) as (t' & E & Hr); [lia|].
  exists t'. split; [done|]. destruct n as [|n]; simpl in Hr.
  - by rewrite Nat.add_0_r.
  - by rewrite Nat.add_succ_r.
Qed.

(** A seek: the index goes to [q], the data iterator of that block to [p q]. *)
Lemma reseek t p q fx fd (P : nat -> pos) :
  two_rel t p -> match q with Some i => (i < length hs)%nat | None => True end ->
  (forall w p, wrapper_rel RX w p -> exists w', fx w = Some w' /\ wrapper_rel RX w' q) ->
  (forall i h w p, q = Some i -> hs !! i = Some h -> wrapper_rel (RD h) w p ->
    exists w', fd w = Some w' /\ wrapper_rel (RD h) w' (P i)) ->
  exists t1 t2, move_index X D fx t = Some t1 /\ move_data X D fd (InitDataBlock X D block_function t1) = Some t2 /\
    match q with Some i => exists h, hs !! i = Some h /\ mid t2 (Some i) (Some (h, P i)) | None => mid t2 None None end.
Proof.
  intros (q0 & pd & H)%two_rel_mid Hq Hfx Hfd. pose proof H as (_ & Hx & _).
  destruct (move_index_ok fx t _ q _ H (Hfx _ _ Hx)) as (t1 & E1 & H1). exists t1. destruct q as [i|].
  - destruct (lookup_lt_is_Some_2 hs i Hq) as [h Hh]. destruct (InitDataBlock_at t1 i h _ H1 Hh) as [p1 H2].
    destruct (move_data_ok fd _ _ _ _ _ H2 (fun w Hw => Hfd i h w _ eq_refl Hh Hw)) as (t3 & E3 & H3).
    exists t3. split; [done|]. split; [done|]. by exists h.
  - pose proof (InitDataBlock_end t1 _ H1) as H2. eexists. split; [done|]. split; [|exact H2].
    unfold move_data. by destruct H2 as (_ & _ & ->).
Qed.

Lemma two_SeekToFirst_ok t p : two_rel t p ->
  exists t', two_SeekToFirst X D block_function fuel t = Some t' /\ two_rel t' (first_pos (length all_entries)).
Proof.
  intros H. unfold two_SeekToFirst. pose proof XW_ok as HXW.
  destruct (reseek t p (first_pos (length hs)) (SeekToFirst XW) (SeekToFirst DW)
    (fun i => match hs !! i with Some h => first_pos (length (contents h)) | None => None end)) as (t1 & t2 & -> & E2 & Hm).
  { done. }
  { unfold first_pos. destruct (decide _); [done|lia]. }
  { intros w q. apply (ix_first (X := XW)). }
  { intros i h w q _ Hi Hw. rewrite Hi. pose proof (DW_ok h ltac:(by eapply list_elem_of_lookup_2)). by apply (io_first (I := DW) w q). }
  cbn [mbind option_bind]. rewrite E2. cbn [mbind option_bind]. unfold first_pos in *.
  destruct (decide (length hs = 0)%nat) as [E0|E0].
  - assert (length all_entries = 0%nat) as E by (by apply nil_length_inv in E0; unfold all_entries; rewrite E0).
    rewrite E, decide_True by done. apply at_end_forward; [done|lia].
  - destruct Hm as (h & Hh & Hm). rewrite Hh in Hm. destruct (skip_forward fuel t2 0 h _ Hh Hm) as (t' & E & Hr); [lia|].
    exists t'. split; [done|]. pose proof (start_bound 0 h Hh) as Hb. unfold forward_pos, at_count in Hr.
    destruct (decide (length (contents h) = 0)%nat) as [El|El].
    + rewrite (start_S 0 h Hh), El in Hr. change (start 0) with 0%nat in Hr. by repeat destruct (decide _); try lia.
    + change (start 0) with 0%nat in *. by rewrite decide_False by lia.
Qed.

Lemma two_SeekToLast_ok t p : two_rel t p ->
  exists t', two_SeekToLast X D block_function fuel t = Some t' /\ two_rel t' (last_pos (length all_entries)).
Proof.
  intros H. unfold two_SeekToLast. pose proof XW_ok as HXW.
  destruct (reseek t p (last_pos (length hs)) (SeekToLast XW) (SeekToLast DW)
    (fun i => match hs !! i with Some h => last_pos (length (contents h)) | None => None end)) as (t1 & t2 & -> & E2 & Hm).
  { done. }
  { destruct (length hs); simpl; lia. }
  { intros w q. apply (ix_last (X := XW)). }
  { intros i h w q _ Hi Hw. rewrite Hi. pose proof (DW_ok h ltac:(by eapply list_elem_of_lookup_2)). by apply (io_last (I := DW) w q). }
  cbn [mbind option_bind]. rewrite E2. cbn [mbind option_bind].
  destruct (length hs) as [|b] eqn:E0; simpl in Hm.
  - assert (length all_entries = 0%nat) as -> by (by apply nil_length_inv in E0; unfold all_entries; rewrite E0).
    apply at_end_backward; [done|lia].
  - destruct Hm as (h & Hh & Hm). rewrite Hh in Hm. destruct (skip_backward fuel t2 b h _ Hh Hm) as (t' & E & Hr); [lia|].
    exists t'. split; [done|]. rewrite <- (start_all (S b)), (start_S b h Hh) by lia.
    destruct (length (contents h)) as [|n]; simpl in Hr.
    + by rewrite Nat.add_0_r.
    + by rewrite Nat.add_succ_r.
Qed.

Context (Hseek : index_separates).

Lemma two_Seek_ok t p target : two_rel t p -> dom target ->
  exists t', two_Seek X D block_function fuel target t = Some t' /\ two_rel t' (seek_pos c all_entries target).
Proof.
  intros H Ht. unfold two_Seek. pose proof XW_ok as HXW. pose proof (Hseek target Ht) as Hs.
  destruct (reseek t p (seek target) (Seek XW target) (Seek DW target)
    (fun i => match hs !! i with Some h => seek_pos c (contents h) target | None => None end)) as (t1 & t2 & -> & E2 & Hm).
  { done. }
  { destruct (seek target); [apply Hs|done]. }
  { intros w q Hw. by apply (ix_seek (X := XW) w q). }
  { intros i h w q _ Hi Hw. rewrite Hi. pose proof (DW_ok h ltac:(by eapply list_elem_of_lookup_2)). by apply (io_seek (I := DW) w q). }
  cbn [mbind option_bind]. rewrite E2. cbn [mbind option_bind]. destruct (seek target) as [j|].
  - destruct Hm as (h & Hh & Hm). rewrite Hh in Hm. destruct (skip_forward fuel t2 j h _ Hh Hm) as (t' & E & Hr); [lia|].
    exists t'. split; [done|]. destruct Hs as (_ & Hbefore & Hafter). rewrite (all_split j h Hh), seek_split, <- (all_split j h Hh).
    + unfold forward_pos in Hr. by rewrite (start_S j h Hh) in Hr.
    + apply Forall_concat, Forall_lookup. intros i b (Hb & Hij)%lookup_take_Some. rewrite list_lookup_fmap in Hb.
      destruct (hs !! i) as [h'|] eqn:Ei; [|done]. injection Hb as <-. apply Forall_forall. intros e. by apply (Hbefore i).
    + apply Forall_concat, Forall_lookup. intros i b Hb. rewrite lookup_drop, list_lookup_fmap in Hb.
      destruct (hs !! (S j + i)%nat) as [h'|] eqn:Ei; [|done]. injection Hb as <-. apply Forall_forall. intros e.
      apply (Hafter (S j + i)%nat); [lia|done].
  - assert (seek_pos c all_entries target = None) as ->.
    { apply seek_pos_None. unfold all_entries. apply Forall_concat, Forall_map, Forall_forall. intros h Hh.
      apply Forall_forall. intros e. by apply Hs. }
    apply at_end_forward; [done|lia].
Qed.

Lemma TwoLevel_ok : IterOk (TwoLevel X D block_function fuel) c dom all_entries two_rel.
Proof.
  pose proof XW_ok as HXW.
  split; cbn [St Valid SeekToFirst SeekToLast Seek Next Prev Iterator.key Iterator.value Iterator.status TwoLevel].
  - intros t [k|]; simpl; [intros (i & h & n & _ & _ & H); by rewrite (data_valid_at _ _ _ _ H)|].
    intros [q (_ & _ & H)]. unfold data_valid. by rewrite H.
  - intros t k (i & h & n & Hi & -> & _ & _ & w & -> & Hh & _ & Hw). pose proof (DW_ok h Hh) as HDW.
    apply (entry_at_start i h); [done|]. by apply (io_entry (I := DW)).
  - intros t p (q & pd & Hst & Hx & Hd)%two_rel_mid. unfold two_status. rewrite (ix_status (X := XW) _ _ Hx). cbn [negb].
    destruct pd as [[h p']|].
    + destruct Hd as (w & -> & Hh & _ & Hw). pose proof (DW_ok h Hh). rewrite (io_status (I := DW) w p' Hw). cbn [negb].
      by rewrite Hst.
    + by rewrite Hd, Hst.
  - apply two_Next_ok.
  - apply two_Prev_ok.
  - intros t p. apply two_SeekToFirst_ok.
  - intros t p. apply two_SeekToLast_ok.
  - intros t p target. apply two_Seek_ok.
Qed.

Lemma new_TwoLevelIterator_ok s : RX s None -> two_rel (new_TwoLevelIterator X D s) None.
Proof. intros H. exists None. split; [done|]. split; [by apply w_Update_rel|done]. Qed.
End TwoLevelOk.

(** Index keys at or past the entries of their block and before those of later
    blocks separate. *)
Definition keys_separate (c : Comparator) (ix : list entry) (contents : bytes -> list entry) : Prop :=
  forall i kh, ix !! i = Some kh ->
    (forall e, e ∈ contents (snd kh) -> Compare c (fst e) (fst kh) <= 0) /\
    (forall j kh' e, (i < j)%nat -> ix !! j = Some kh' -> e ∈ contents (snd kh') -> Compare c (fst kh) (fst e) < 0).

Lemma keys_separate_index c dom `{!ComparatorOk c dom} ix contents :
  Forall (fun kh => dom (fst kh) /\ Forall (fun e => dom (fst e)) (contents (snd kh))) ix ->
  keys_separate c ix contents -> index_separates c dom (map snd ix) contents (seek_pos c ix).
Proof.
  intros Hdom Hsep target Ht.
  assert (forall i h, map snd ix !! i = Some h -> exists k, ix !! i = Some (k, h) /\ dom k /\
    forall e, e ∈ contents h -> dom (fst e)) as Hix.
  { intros i h Hi. rewrite list_lookup_fmap in Hi. destruct (ix !! i) as [[k h']|] eqn:E; [|done]. injection Hi as <-.
    exists k. split; [done|]. destruct (Forall_lookup_1 _ _ _ _ Hdom E) as [Hk Hes]. rewrite Forall_forall in Hes. by split. }
  destruct (seek_pos c ix target) as [j|] eqn:E.
  - apply seek_pos_Some in E as (kh & Hj & Hge & Hlt). split; [rewrite length_map; by eapply lookup_lt_Some|]. split.
    + intros i h e Hij Hi He. destruct (Hix i h Hi) as (k & Hik & Hk & Hes). destruct (Hsep i _ Hik) as [Hle _].
      eapply (cmp_le_lt_trans (dom := dom) _ k); [by apply Hes|done..|by apply Hle|by apply (Hlt i _ Hij Hik)].
    + intros i h e Hij Hi He. destruct (Hix i h Hi) as (k & Hik & Hk & Hes). destruct (Hsep j kh Hj) as [_ Haft].
      specialize (Haft i _ e Hij Hik He). destruct (Forall_lookup_1 _ _ _ _ Hdom Hj) as [Hkj _].
      apply (cmp_ge_le (dom := dom)) in Hge; [|done..]. apply (cmp_ge_le (dom := dom)); [by apply Hes|done|].
      enough (Compare c target (fst e) < 0) by lia.
      eapply (cmp_le_lt_trans (dom := dom) _ (fst kh)); [done|done|by apply Hes|done|done].
  - apply seek_pos_None in E. intros h e [i Hi]%list_elem_of_lookup He. destruct (Hix i h Hi) as (k & Hik & Hk & Hes).
    destruct (Hsep i _ Hik) as [Hle _]. pose proof (Forall_lookup_1 _ _ _ _ E Hik) as Hlt.
    eapply (cmp_le_lt_trans (dom := dom) _ k); [by apply Hes|done..|by apply Hle|done].
Qed.
