(* ===== verification/Format.v ===== *)
(** * Table format (table/format.h, table/format.cc)

    Handles of blocks, the footer of a table file and ReadBlock.  The file is
    the Read method of RandomAccessFile; the snappy library, which the port
    layer calls, is a class with the law of a lossless compressor. *)

From Stdlib Require Import ZArith Lia Bool.
From Stdlib Require Import Strings.String.
From stdpp Require Import base list.
From S2P Require Import Prelude Coding Crc32c Status.

Set Default Goal Selector "!".
Local Open Scope Z_scope.

(** ** BlockHandle *)
Record BlockHandle := { bh_offset : Z; bh_size : Z }.

(** The default constructor. *)
Definition new_BlockHandle : BlockHandle := {| bh_offset := 2 ^ 64 - 1; bh_size := 2 ^ 64 - 1 |}.

Definition kMaxEncodedLength : Z := 10 + 10.

Definition BlockHandle_EncodeTo (dst : bytes) (h : BlockHandle) : bytes :=
  PutVarint64 (PutVarint64 dst (bh_offset h)) (bh_size h).

(** The status, the handle, and the input without what was parsed. *)
Definition BlockHandle_DecodeFrom (h : BlockHandle) (input : bytes) : Status * BlockHandle * bytes :=
  let bad := Corruption (bytes_of_string "bad block handle") in
  match GetVarint64 input with
  | Some (offset, input) =>
      match GetVarint64 input with
      | Some (size, input) => (OK, {| bh_offset := offset; bh_size := size |}, input)
      | None => (bad, {| bh_offset := offset; bh_size := bh_size h |}, input)
      end
  | None => (bad, h, input)
  end.

(** ** Footer *)
Record Footer := { metaindex_handle : BlockHandle; index_handle : BlockHandle }.

Definition Footer_kEncodedLength : Z := 2 * kMaxEncodedLength + 8.
Definition kTableMagicNumber : Z := 0xdb4775248b80fb57.

(** std::string::resize *)
Definition resize (s : bytes) (n : Z) : bytes := take (Z.to_nat n) s ++ replicate (Z.to_nat (n - len s)) Byte.x00.

Definition Footer_EncodeTo (dst : bytes) (f : Footer) : bytes :=
  let dst := BlockHandle_EncodeTo dst (metaindex_handle f) in
  let dst := BlockHandle_EncodeTo dst (index_handle f) in
  let dst := resize dst (2 * kMaxEncodedLength) in
  let dst := PutFixed32 dst (Z.land kTableMagicNumber 0xffffffff) in
  PutFixed32 dst (u32 (Z.shiftr kTableMagicNumber 32)).

Definition Footer_DecodeFrom (input : bytes) : Status * Footer * bytes :=
  let magic_ptr := drop (Z.to_nat (Footer_kEncodedLength - 8)) input in
  let magic_lo := DecodeFixed32 magic_ptr in
  let magic_hi := DecodeFixed32 (drop 4 magic_ptr) in
  let magic := Z.lor (u64 (Z.shiftl magic_hi 32)) magic_lo in
  let f := {| metaindex_handle := new_BlockHandle; index_handle := new_BlockHandle |} in
  if negb (magic =? kTableMagicNumber) then
    (InvalidArgument (bytes_of_string "not an sstable (bad magic number)"), f, input)
  else
    let '(result, h1, rest) := BlockHandle_DecodeFrom new_BlockHandle input in
    if ok result then
      let '(result, h2, rest) := BlockHandle_DecodeFrom new_BlockHandle rest in
      (result, {| metaindex_handle := h1; index_handle := h2 |}, if ok result then drop 8 magic_ptr else rest)
    else (result, {| metaindex_handle := h1; index_handle := new_BlockHandle |}, rest).

(** ** ReadBlock *)
Definition kBlockTrailerSize : Z := 5.
Definition kNoCompression : Z := 0.
Definition kSnappyCompression : Z := 1.

Record BlockContents := { bc_data : bytes; bc_cachable : bool; bc_heap_allocated : bool }.

(** RandomAccessFile::Read(offset, n, result, scratch): the status, the bytes
    read, and whether they are in [scratch]. *)
Definition RandomAccessFile := Z -> Z -> Status * bytes * bool.

(** port::Snappy_Compress, Snappy_GetUncompressedLength and Snappy_Uncompress. *)
Class Snappy := {
  Snappy_Compress : bytes -> option bytes;
  Snappy_GetUncompressedLength : bytes -> option Z;
  Snappy_Uncompress : bytes -> option bytes;
}.

Class SnappyOk `{!Snappy} : Prop := {
  snappy_roundtrip raw z : Snappy_Compress raw = Some z ->
    Snappy_GetUncompressedLength z = Some (len raw) /\ Snappy_Uncompress z = Some raw;
}.

Definition ReadBlock `{!Snappy} (file : RandomAccessFile) (verify_checksums : bool) (handle : BlockHandle)
    : Status * BlockContents :=
  let empty := {| bc_data := []; bc_cachable := false; bc_heap_allocated := false |} in
  let n := bh_size handle in
  let '(s, contents, in_buf) := file (bh_offset handle) (u64 (n + kBlockTrailerSize)) in
  if negb (ok s) then (s, empty)
  else if negb (len contents =? u64 (n + kBlockTrailerSize)) then (Corruption (bytes_of_string "truncated block read"), empty)
  else
    let crc := Unmask (DecodeFixed32 (drop (Z.to_nat (n + 1)) contents)) in
    let actual := Value (take (Z.to_nat (n + 1)) contents) in
    if verify_checksums && negb (actual =? crc) then (Corruption (bytes_of_string "block checksum mismatch"), empty)
    else
      let type := b2z (nth (Z.to_nat n) contents Byte.x00) in
      let data := take (Z.to_nat n) contents in
      if type =? kNoCompression then
        (OK, {| bc_data := data; bc_cachable := in_buf; bc_heap_allocated := in_buf |})
      else if type =? kSnappyCompression then
        match Snappy_GetUncompressedLength data with
        | None => (Corruption (bytes_of_string "corrupted compressed block contents"), empty)
        | Some ulength =>
            match Snappy_Uncompress data with
            | None => (Corruption (bytes_of_string "corrupted compressed block contents"), empty)
            | Some ubuf => (OK, {| bc_data := take (Z.to_nat ulength) ubuf; bc_cachable := true; bc_heap_allocated := true |})
            end
        end
      else (Corruption (bytes_of_string "bad block type"), empty).

(** ** Round trips *)

Definition handle_ok (h : BlockHandle) : Prop := 0 <= bh_offset h < 2 ^ 64 - 1 /\ 0 <= bh_size h < 2 ^ 64 - 1.

Lemma BlockHandle_encode dst h : BlockHandle_EncodeTo dst h = dst ++ BlockHandle_EncodeTo [] h.
Proof. unfold BlockHandle_EncodeTo, PutVarint64. by rewrite <- app_assoc. Qed.

Lemma BlockHandle_roundtrip h h0 rest : handle_ok h ->
  BlockHandle_DecodeFrom h0 (BlockHandle_EncodeTo [] h ++ rest) = (OK, h, rest).
Proof.
  intros [Ho Hs]. unfold BlockHandle_DecodeFrom, BlockHandle_EncodeTo, PutVarint64. simpl. rewrite <- app_assoc.
  rewrite GetVarint64_EncodeVarint64 by lia. rewrite GetVarint64_EncodeVarint64 by lia. by destruct h.
Qed.

Lemma len_BlockHandle h : 2 <= len (BlockHandle_EncodeTo [] h) <= kMaxEncodedLength.
Proof.
  unfold BlockHandle_EncodeTo, PutVarint64, kMaxEncodedLength. simpl. rewrite len_app.
  pose proof (len_EncodeVarint64_bounds (bh_offset h)). pose proof (len_EncodeVarint64_bounds (bh_size h)). lia.
Qed.

Lemma Footer_bytes f : exists pad,
  Footer_EncodeTo [] f = (BlockHandle_EncodeTo [] (metaindex_handle f) ++ BlockHandle_EncodeTo [] (index_handle f) ++ pad) ++
    EncodeFixed32 (Z.land kTableMagicNumber 0xffffffff) ++ EncodeFixed32 (u32 (Z.shiftr kTableMagicNumber 32)) /\
  len (BlockHandle_EncodeTo [] (metaindex_handle f) ++ BlockHandle_EncodeTo [] (index_handle f) ++ pad) = 40.
Proof.
  unfold Footer_EncodeTo, PutFixed32. rewrite (BlockHandle_encode (BlockHandle_EncodeTo [] _)).
  pose proof (len_BlockHandle (metaindex_handle f)). pose proof (len_BlockHandle (index_handle f)).
  unfold kMaxEncodedLength in *. set (a := BlockHandle_EncodeTo [] (metaindex_handle f)) in *.
  set (b := BlockHandle_EncodeTo [] (index_handle f)) in *. exists (replicate (Z.to_nat (40 - len (a ++ b))) Byte.x00).
  unfold resize. change (2 * (10 + 10)) with 40. rewrite take_ge by (rewrite length_app; unfold len in *; lia).
  split; [by rewrite <- !app_assoc|]. rewrite !len_app, len_replicate. lia.
Qed.

Lemma Footer_roundtrip f : handle_ok (metaindex_handle f) -> handle_ok (index_handle f) ->
  len (Footer_EncodeTo [] f) = Footer_kEncodedLength /\
  Footer_DecodeFrom (Footer_EncodeTo [] f) = (OK, f, []).
Proof.
  intros Hm Hi. destruct (Footer_bytes f) as (pad & E & Hlen). rewrite E. split.
  { rewrite len_app, Hlen, len_app, !len_EncodeFixed32. done. }
  unfold Footer_DecodeFrom. change (Footer_kEncodedLength - 8) with 40. rewrite drop_len_app by (rewrite <- Hlen; apply to_nat_len).
  rewrite DecodeFixed32_EncodeFixed32. rewrite drop_len_app by done.
  rewrite <- (app_nil_r (EncodeFixed32 (u32 (Z.shiftr _ 32)))), DecodeFixed32_EncodeFixed32.
  change (negb (Z.lor _ _ =? kTableMagicNumber)) with false. cbv iota.
  rewrite <- !app_assoc, BlockHandle_roundtrip by done. cbn [ok]. rewrite BlockHandle_roundtrip by done. by destruct f.
Qed.

(** ** Blocks in a file *)

(** A file whose contents are [content]; where the bytes go is up to it. *)
Definition file_reads (file : RandomAccessFile) (content : bytes) : Prop :=
  forall offset n, 0 <= offset -> 0 <= n -> offset + n <= len content ->
    exists in_buf, file offset n = (OK, take (Z.to_nat n) (drop (Z.to_nat offset) content), in_buf).

(** A block with its trailer. *)
Definition block_image (data : bytes) (type : Z) : bytes :=
  data ++ [z2b type] ++ EncodeFixed32 (Mask (Extend (Value data) [z2b type])).

Lemma len_block_image data type : len (block_image data type) = len data + kBlockTrailerSize.
Proof. unfold block_image, kBlockTrailerSize. rewrite !len_app, len_EncodeFixed32. change (len [z2b type]) with 1. lia. Qed.

Section Stored.
Context `{!Snappy}.

(** The stored form of the block contents [raw]. *)
Definition encodes (raw data : bytes) (type : Z) : Prop :=
  (type = kNoCompression /\ data = raw) \/ (type = kSnappyCompression /\ Snappy_Compress raw = Some data /\ len data < len raw).

(** The file holds [raw] at the handle. *)
Definition stored (content : bytes) (h : BlockHandle) (raw : bytes) : Prop :=
  exists pre data type post, content = pre ++ block_image data type ++ post /\ encodes raw data type /\
    h = {| bh_offset := len pre; bh_size := len data |}.

Lemma stored_app content more h raw : stored content h raw -> stored (content ++ more) h raw.
Proof.
  intros (pre & data & type & post & -> & Hd & Hh). exists pre, data, type, (post ++ more).
  by rewrite <- !app_assoc.
Qed.

Lemma stored_handle content h raw : stored content h raw ->
  0 <= bh_offset h /\ 0 <= bh_size h /\ bh_offset h + bh_size h + kBlockTrailerSize <= len content.
Proof.
  intros (pre & data & type & post & -> & _ & ->). simpl. rewrite !len_app, len_block_image.
  pose proof (len_nonneg pre). pose proof (len_nonneg data). pose proof (len_nonneg post). lia.
Qed.

Lemma ReadBlock_stored `{!SnappyOk} file content v h raw :
  file_reads file content -> len content < 2 ^ 63 -> len raw < 2 ^ 32 - 1 -> stored content h raw ->
  exists c, ReadBlock file v h = (OK, c) /\ bc_data c = raw.
Proof.
  intros Hfile Hlen Hraw Hst. pose proof (stored_handle _ _ _ Hst) as (H1 & H2 & H3). unfold kBlockTrailerSize in *.
  destruct Hst as (pre & data & type & post & Ec & Henc & ->). cbn [bh_offset bh_size] in *.
  unfold ReadBlock. cbn [bh_offset bh_size]. unfold kBlockTrailerSize. rewrite u64_small by lia.
  destruct (Hfile (len pre) (len data + 5)) as [in_buf ->]; [lia..|].
  assert (take (Z.to_nat (len data + 5)) (drop (Z.to_nat (len pre)) content) = block_image data type) as ->.
  { rewrite Ec, drop_len_app by apply to_nat_len. apply take_len_app.
    rewrite <- to_nat_len, len_block_image. unfold kBlockTrailerSize. done. }
  rewrite len_block_image. unfold kBlockTrailerSize. rewrite Z.eqb_refl. cbn [ok negb].
  assert (type = 0 \/ type = 1) as Ht by (destruct Henc as [[-> _]|[-> _]]; auto).
  assert (len data < 2 ^ 32 - 1) as Hdata by (destruct Henc as [[_ ->]|(_ & _ & ?)]; lia).
  assert (Value (take (Z.to_nat (len data + 1)) (block_image data type)) =
    Unmask (DecodeFixed32 (drop (Z.to_nat (len data + 1)) (block_image data type)))) as ->.
  { unfold block_image. rewrite app_assoc. assert (length (data ++ [z2b type]) = Z.to_nat (len data + 1)) as El.
    { rewrite length_app. unfold len. simpl. lia. }
    rewrite <- El, take_app_length, drop_app_length. rewrite <- (app_nil_r (EncodeFixed32 _)), DecodeFixed32_EncodeFixed32.
    assert (len data + len [z2b type] < 2 ^ 32) as Hl.
    { change (len [z2b type]) with 1. lia. }
    rewrite Extend_app by done. rewrite u32_small by apply Mask_range. rewrite Unmask_Mask; [done|]. apply Value_range.
    by rewrite len_app. }
  rewrite Z.eqb_refl. cbn [negb]. rewrite andb_false_r.
  assert (take (Z.to_nat (len data)) (block_image data type) = data) as ->.
  { apply take_len_app. apply to_nat_len. }
  assert (b2z (nth (Z.to_nat (len data)) (block_image data type) Byte.x00) = type) as ->.
  { rewrite to_nat_len. unfold block_image. rewrite app_nth2, Nat.sub_diag by lia. simpl. apply b2z_z2b_small. lia. }
  destruct Henc as [[-> ->]|(-> & Hz & _)].
  - eexists. split; [reflexivity|]. done.
  - change (kSnappyCompression =? kNoCompression) with false. rewrite Z.eqb_refl. cbv iota.
    destruct (snappy_roundtrip raw data Hz) as [-> ->]. eexists. split; [reflexivity|]. simpl.
    by rewrite to_nat_len, take_ge.
Qed.
End Stored.
