(* ===== verification/Table.v ===== *)
(** * Tables (table/table_builder.cc, table/table.cc)

    TableBuilder cuts sorted entries into blocks and writes them with an index
    block, a filter block, a metaindex block and a footer; Table opens such a
    file and serves iterators and point lookups.  The file being written
    follows a script of statuses, so that every call can fail. *)

From Stdlib Require Import ZArith Lia Bool.
From Stdlib Require Import Strings.String.
From stdpp Require Import base list.
From S2P Require Import Prelude Coding Comparator Crc32c Status Iterator Block Bloom FilterBlock.
From S2P Require Import TwoLevel Format.

Set Default Goal Selector "!".
Local Open Scope Z_scope.

(** ** WritableFile: what has been written, and the statuses that the next
    calls return (OK when the script is used up); a failing call writes
    nothing. *)
Record WritableFile := { wf_contents : bytes; wf_script : list Status }.

Definition next_status (f : WritableFile) : Status := match wf_script f with [] => OK | s :: _ => s end.

Definition Append (f : WritableFile) (data : bytes) : Status * WritableFile :=
  let s := next_status f in
  (s, {| wf_contents := if ok s then wf_contents f ++ data else wf_contents f; wf_script := tail (wf_script f) |}).

Definition Flush_file (f : WritableFile) : Status * WritableFile :=
  (next_status f, {| wf_contents := wf_contents f; wf_script := tail (wf_script f) |}).

(** The options a table uses; a filter policy comes with its Name(). *)
Record TableOptions := {
  o_comparator : Comparator;
  o_block_size : Z;
  o_block_restart_interval : Z;
  o_compression : Z;
  o_filter_policy : option (bytes * FilterPolicy);
}.

(** ** TableBuilder *)
Section TableBuilder.
Context `{!Snappy} (options : TableOptions).

Record TableBuilder := {
  r_file : WritableFile;
  r_offset : Z;
  r_status : Status;
  r_data_block : BlockBuilder;
  r_index_block : BlockBuilder;
  r_last_key : bytes;
  r_num_entries : Z;
  r_closed : bool;
  r_filter_block : option FilterBlockBuilder;
  r_pending_index_entry : bool;
  r_pending_handle : BlockHandle;
}.

Definition new_TableBuilder (file : WritableFile) : TableBuilder := {|
  r_file := file; r_offset := 0; r_status := OK; r_data_block := new_BlockBuilder; r_index_block := new_BlockBuilder;
  r_last_key := []; r_num_entries := 0; r_closed := false;
  r_filter_block := (fun nf => StartBlock (snd nf) new_FilterBlockBuilder 0) <$> o_filter_policy options;
  r_pending_index_entry := false; r_pending_handle := new_BlockHandle;
|}.

(** The file, the offset and the status after a write. *)
Definition with_file (r : TableBuilder) (file : WritableFile) (offset : Z) (s : Status) : TableBuilder := {|
  r_file := file; r_offset := offset; r_status := s; r_data_block := r_data_block r; r_index_block := r_index_block r;
  r_last_key := r_last_key r; r_num_entries := r_num_entries r; r_closed := r_closed r;
  r_filter_block := r_filter_block r; r_pending_index_entry := r_pending_index_entry r;
  r_pending_handle := r_pending_handle r;
|}.

Definition with_data_block (r : TableBuilder) (b : BlockBuilder) : TableBuilder := {|
  r_file := r_file r; r_offset := r_offset r; r_status := r_status r; r_data_block := b;
  r_index_block := r_index_block r; r_last_key := r_last_key r; r_num_entries := r_num_entries r;
  r_closed := r_closed r; r_filter_block := r_filter_block r; r_pending_index_entry := r_pending_index_entry r;
  r_pending_handle := r_pending_handle r;
|}.

Definition with_index_block (r : TableBuilder) (b : BlockBuilder) (last_key : bytes) (pending : bool) : TableBuilder := {|
  r_file := r_file r; r_offset := r_offset r; r_status := r_status r; r_data_block := r_data_block r;
  r_index_block := b; r_last_key := last_key; r_num_entries := r_num_entries r; r_closed := r_closed r;
  r_filter_block := r_filter_block r; r_pending_index_entry := pending; r_pending_handle := r_pending_handle r;
|}.

Definition with_pending (r : TableBuilder) (pending : bool) (handle : BlockHandle) : TableBuilder := {|
  r_file := r_file r; r_offset := r_offset r; r_status := r_status r; r_data_block := r_data_block r;
  r_index_block := r_index_block r; r_last_key := r_last_key r; r_num_entries := r_num_entries r;
  r_closed := r_closed r; r_filter_block := r_filter_block r; r_pending_index_entry := pending; r_pending_handle := handle;
|}.

Definition with_filter (r : TableBuilder) (f : option FilterBlockBuilder) : TableBuilder := {|
  r_file := r_file r; r_offset := r_offset r; r_status := r_status r; r_data_block := r_data_block r;
  r_index_block := r_index_block r; r_last_key := r_last_key r; r_num_entries := r_num_entries r;
  r_closed := r_closed r; r_filter_block := f; r_pending_index_entry := r_pending_index_entry r;
  r_pending_handle := r_pending_handle r;
|}.

(** The builder with the entry counted and [last_key] set, and [closed]. *)
Definition with_entry (r : TableBuilder) (key : bytes) (b : BlockBuilder) : TableBuilder := {|
  r_file := r_file r; r_offset := r_offset r; r_status := r_status r; r_data_block := b;
  r_index_block := r_index_block r; r_last_key := key; r_num_entries := r_num_entries r + 1;
  r_closed := r_closed r; r_filter_block := r_filter_block r; r_pending_index_entry := r_pending_index_entry r;
  r_pending_handle := r_pending_handle r;
|}.

Definition close (r : TableBuilder) : TableBuilder := {|
  r_file := r_file r; r_offset := r_offset r; r_status := r_status r; r_data_block := r_data_block r;
  r_index_block := r_index_block r; r_last_key := r_last_key r; r_num_entries := r_num_entries r; r_closed := true;
  r_filter_block := r_filter_block r; r_pending_index_entry := r_pending_index_entry r;
  r_pending_handle := r_pending_handle r;
|}.

Definition WriteRawBlock (r : TableBuilder) (block_contents : bytes) (type : Z) : TableBuilder * BlockHandle :=
  let handle := {| bh_offset := r_offset r; bh_size := len block_contents |} in
  let '(s, file) := Append (r_file r) block_contents in
  if ok s then
    let crc := Value block_contents in
    let crc := Extend crc [z2b type] in
    let trailer := [z2b type] ++ EncodeFixed32 (Mask crc) in
    let '(s, file) := Append file trailer in
    (with_file r file (if ok s then r_offset r + (len block_contents + kBlockTrailerSize) else r_offset r) s, handle)
  else (with_file r file (r_offset r) s, handle).

(** What WriteBlock stores: the contents and the type.  [None]: abort(). *)
Definition block_to_write (raw : bytes) : option (bytes * Z) :=
  let type := o_compression options in
  if type =? kNoCompression then Some (raw, type)
  else if type =? kSnappyCompression then
    match Snappy_Compress raw with
    | Some compressed =>
        if len compressed <? len raw - len raw / 8 then Some (compressed, type) else Some (raw, kNoCompression)
    | None => Some (raw, kNoCompression)
    end
  else None.

(** WriteBlock; the caller resets the block builder, as the last line does. *)
Definition WriteBlock (r : TableBuilder) (block : BlockBuilder) : option (TableBuilder * BlockHandle) :=
  let raw := fst (bb_Finish block) in
  '(block_contents, type) ← block_to_write raw;
  Some (WriteRawBlock r block_contents type).

Definition builder_ok (r : TableBuilder) : bool := ok (r_status r).

Definition Flush (r : TableBuilder) : option TableBuilder :=
  if negb (builder_ok r) then Some r
  else if bb_empty (r_data_block r) then Some r
  else
    '(r, handle) ← WriteBlock r (r_data_block r);
    let r := with_data_block r (bb_Reset (r_data_block r)) in
    let r := with_pending r (r_pending_index_entry r) handle in
    let r := if builder_ok r then
        let r := with_pending r true (r_pending_handle r) in
        let '(s, file) := Flush_file (r_file r) in
        with_file r file (r_offset r) s
      else r in
    Some (match r_filter_block r, o_filter_policy options with
          | Some f, Some (_, policy) => with_filter r (Some (StartBlock policy f (r_offset r)))
          | _, _ => r
          end).

(** The index entry of the block before, now that its separator is known. *)
Definition add_index_entry (r : TableBuilder) (separator : bytes) : TableBuilder :=
  let handle_encoding := BlockHandle_EncodeTo [] (r_pending_handle r) in
  with_index_block r (bb_Add 1 (r_index_block r) separator handle_encoding) separator false.

Definition Add (r : TableBuilder) (key value : bytes) : option TableBuilder :=
  if negb (builder_ok r) then Some r
  else
    let r := if r_pending_index_entry r
             then add_index_entry r (FindShortestSeparator (o_comparator options) (r_last_key r) key) else r in
    let r := with_filter r ((fun f => fb_AddKey f key) <$> r_filter_block r) in
    let r := with_entry r key (bb_Add (o_block_restart_interval options) (r_data_block r) key value) in
    if o_block_size options <=? CurrentSizeEstimate (r_data_block r) then Flush r else Some r.

(** Finish; [None]: abort() in WriteBlock. *)
Definition Finish (r : TableBuilder) : option (Status * TableBuilder) :=
  r ← Flush r;
  let r := close r in
  (* filter block *)
  let '(r, filter_block_handle) :=
    match r_filter_block r, o_filter_policy options with
    | Some f, Some (_, policy) =>
        if builder_ok r then WriteRawBlock r (fb_Finish policy f) kNoCompression else (r, new_BlockHandle)
    | _, _ => (r, new_BlockHandle)
    end in
  (* metaindex block *)
  '(r, metaindex_block_handle) ←
    (if builder_ok r then
       let meta_index_block :=
         match o_filter_policy options with
         | Some (name, _) =>
             bb_Add (o_block_restart_interval options) new_BlockBuilder (bytes_of_string "filter." ++ name)
               (BlockHandle_EncodeTo [] filter_block_handle)
         | None => new_BlockBuilder
         end in
       WriteBlock r meta_index_block
     else Some (r, new_BlockHandle));
  (* index block *)
  '(r, index_block_handle) ←
    (if builder_ok r then
       let r := if r_pending_index_entry r
                then add_index_entry r (FindShortSuccessor (o_comparator options) (r_last_key r)) else r in
       '(r, handle) ← WriteBlock r (r_index_block r);
       Some (with_index_block r (bb_Reset (r_index_block r)) (r_last_key r) (r_pending_index_entry r), handle)
     else Some (r, new_BlockHandle));
  (* footer *)
  let r :=
    if builder_ok r then
      let footer_encoding :=
        Footer_EncodeTo [] {| metaindex_handle := metaindex_block_handle; index_handle := index_block_handle |} in
      let '(s, file) := Append (r_file r) footer_encoding in
      with_file r file (if ok s then r_offset r + len footer_encoding else r_offset r) s
    else r in
  Some (r_status r, r).

Definition Abandon (r : TableBuilder) : TableBuilder := close r.
Definition NumEntries (r : TableBuilder) : Z := r_num_entries r.
Definition FileSize (r : TableBuilder) : Z := r_offset r.
End TableBuilder.

(** ** Table *)
Section Table.
Context `{!Snappy} (options : TableOptions).
Notation D := (SumIterator EmptyIterator (BlockIter (o_comparator options))).

Record Table := {
  tb_file : RandomAccessFile;
  tb_cache_id : Z;
  tb_filter : option FilterBlockReader;
  tb_metaindex_handle : BlockHandle;
  tb_index_block : Block;
}.

(** Table::ReadFilter *)
Definition ReadFilter (t : Table) (filter_handle_value : bytes) : Table :=
  let '(s, filter_handle, _) := BlockHandle_DecodeFrom new_BlockHandle filter_handle_value in
  if negb (ok s) then t
  else
    let '(s, block) := ReadBlock (tb_file t) false filter_handle in
    if negb (ok s) then t
    else {| tb_file := tb_file t; tb_cache_id := tb_cache_id t; tb_filter := Some (new_FilterBlockReader (bc_data block));
            tb_metaindex_handle := tb_metaindex_handle t; tb_index_block := tb_index_block t |}.

(** Table::ReadMeta; errors are not reported.  [None]: a loop of the block
    iterator's model ran out of fuel. *)
Definition ReadMeta (t : Table) (footer : Footer) : option Table :=
  match o_filter_policy options with
  | None => Some t
  | Some (name, _) =>
      let '(s, contents) := ReadBlock (tb_file t) false (metaindex_handle footer) in
      if negb (ok s) then Some t
      else
        let M := SumIterator EmptyIterator (BlockIter BytewiseComparator) in
        let key := bytes_of_string "filter." ++ name in
        iter ← Seek M key (NewBlockIterator (new_Block (bc_data contents)));
        if Valid M iter && Slice_eqb (Iterator.key M iter) key then Some (ReadFilter t (Iterator.value M iter)) else Some t
  end.

(** Table::Open: the status and the table. *)
Definition Open (file : RandomAccessFile) (size cache_id : Z) : option (Status * option Table) :=
  if size <? Footer_kEncodedLength then Some (InvalidArgument (bytes_of_string "file is too short to be an sstable"), None)
  else
    let '(s, footer_input, _) := file (size - Footer_kEncodedLength) Footer_kEncodedLength in
    if negb (ok s) then Some (s, None)
    else
      let '(s, footer, _) := Footer_DecodeFrom footer_input in
      if negb (ok s) then Some (s, None)
      else
        let '(s, contents) := ReadBlock file false (index_handle footer) in
        if ok s then
          let t := {| tb_file := file; tb_cache_id := cache_id; tb_filter := None;
                      tb_metaindex_handle := metaindex_handle footer; tb_index_block := new_Block (bc_data contents) |} in
          t ← ReadMeta t footer;
          Some (s, Some t)
        else Some (s, None).

(** ReadOptions *)
Record ReadOptions := { verify_checksums : bool; fill_cache : bool }.

(** The key of a block in the block cache. *)
Definition cache_key (cache_id offset : Z) : bytes := EncodeFixed64 cache_id ++ EncodeFixed64 offset.

(** Table::BlockReader: the iterator, and the block it inserts into the block
    cache, whose lookups are [block_cache]. *)
Definition BlockReader (t : Table) (block_cache : option (bytes -> option Block)) (ro : ReadOptions) (index_value : bytes)
    : St D * option (bytes * Block) :=
  let '(s, handle, _) := BlockHandle_DecodeFrom new_BlockHandle index_value in
  let '(s, block, inserted) :=
    if negb (ok s) then (s, None, None)
    else
      match block_cache with
      | Some lookup =>
          let key := cache_key (tb_cache_id t) (bh_offset handle) in
          match lookup key with
          | Some block => (s, Some block, None)
          | None =>
              let '(s, contents) := ReadBlock (tb_file t) (verify_checksums ro) handle in
              if ok s then
                let block := new_Block (bc_data contents) in
                (s, Some block, if bc_cachable contents && fill_cache ro then Some (key, block) else None)
              else (s, None, None)
          end
      | None =>
          let '(s, contents) := ReadBlock (tb_file t) (verify_checksums ro) handle in
          (s, if ok s then Some (new_Block (bc_data contents)) else None, None)
      end in
  match block with
  | Some block => (NewBlockIterator block, inserted)
  | None => (inl (NewErrorIterator s), inserted)
  end.

(** Table::NewIterator *)
Definition TableIterator (t : Table) (block_cache : option (bytes -> option Block)) (ro : ReadOptions) (fuel : nat) : IterOps :=
  TwoLevel D D (fun handle => fst (BlockReader t block_cache ro handle)) fuel.

Definition NewTableIterator (t : Table) : TwoLevelIterator D D :=
  new_TwoLevelIterator D D (NewBlockIterator (tb_index_block t)).

(** Table::InternalGet: the status and the entry given to the saver.  The
    build has FILE_LEVEL_FILTER, so the filter block is never asked. *)
Definition InternalGet (t : Table) (block_cache : option (bytes -> option Block)) (ro : ReadOptions) (k : bytes)
    : option (Status * option entry) :=
  let file_level_filter_enabled := true in
  iiter ← Seek D k (NewBlockIterator (tb_index_block t));
  '(s, saved) ←
    (if Valid D iiter then
       let handle_value := Iterator.value D iiter in
       let '(s, handle, _) := BlockHandle_DecodeFrom new_BlockHandle handle_value in
       if negb file_level_filter_enabled && ok s &&
          match tb_filter t, o_filter_policy options with
          | Some filter, Some (_, policy) => negb (fr_KeyMayMatch policy filter (bh_offset handle) k)
          | _, _ => false
          end
       then Some (OK, None)
       else
         block_iter ← Seek D k (fst (BlockReader t block_cache ro handle_value));
         Some (Iterator.status D block_iter,
               if Valid D block_iter then Some (Iterator.key D block_iter, Iterator.value D block_iter) else None)
     else Some (OK, None));
  Some (if ok s then Iterator.status D iiter else s, saved).

Definition ApproximateOffsetOf (t : Table) (key : bytes) : option Z :=
  index_iter ← Seek D key (NewBlockIterator (tb_index_block t));
  Some (if Valid D index_iter then
          let '(s, handle, _) := BlockHandle_DecodeFrom new_BlockHandle (Iterator.value D index_iter) in
          if ok s then bh_offset handle else bh_offset (tb_metaindex_handle t)
        else bh_offset (tb_metaindex_handle t)).
End Table.
