(* ===== verification/TableSpec.v ===== *)
(** * Tables: what is written is what is read

    The file TableBuilder leaves, opened by Table, is an Iterator over exactly
    the entries that were added, and point lookups give the saver the right
    entry, whatever the block size, restart interval and compression are; if
    any write fails, Finish does not report OK. *)

From Stdlib Require Import ZArith Lia Bool.
From Stdlib Require Import Strings.String.
From stdpp Require Import base list.
From S2P Require Import Prelude Coding Comparator DbFormat Crc32c Status Iterator Block BlockSpec Bloom FilterBlock.
From S2P Require Import TwoLevel Format Table.

Set Default Goal Selector "!".
Local Open Scope Z_scope.
#[local] Arguments Compare : simpl never.

(** ** Sizes *)

(** The bytes of the entries and [n] more for each. *)
Definition weight (n : Z) (es : list entry) : Z := foldr (fun e s => len (fst e) + len (snd e) + n + s) 0 es.

Lemma weight_app n a b : weight n (a ++ b) = weight n a + weight n b.
Proof. induction a as [|e a IH]; simpl; [done|]. rewrite IH. lia. Qed.

Lemma weight_one n k v : weight n [(k, v)] = len k + len v + n.
Proof. unfold weight. cbn [foldr fst snd]. lia. Qed.

Lemma weight_le n m es : 0 <= n <= m -> 0 <= weight n es <= weight m es.
Proof.
  intros Hn. induction es as [|e es IH]; simpl; [lia|]. pose proof (len_nonneg (fst e)). pose proof (len_nonneg (snd e)). lia.
Qed.

Lemma bb_Add_size interval b k v :
  len (bb_buffer (bb_Add interval b k v)) <= len (bb_buffer b) + len k + len v + 15 /\
  len (bb_restarts (bb_Add interval b k v)) <= len (bb_restarts b) + 1 /\
  bb_buffer (bb_Add interval b k v) <> [].
Proof.
  unfold bb_Add. cbn [bb_buffer bb_restarts]. unfold PutVarint32. rewrite !len_app.
  pose proof (len_EncodeVarint32_bounds (u32 (len v))) as Hv.
  set (n := if bb_counter b <? interval then common_prefix (bb_last_key b) k else 0%nat).
  pose proof (len_EncodeVarint32_bounds (u32 (Z.of_nat n))). pose proof (len_EncodeVarint32_bounds (u32 (len k - Z.of_nat n))).
  split; [|split].
  - assert (len (drop n k) <= len k) by (unfold len; rewrite length_drop; lia). lia.
  - destruct (bb_counter b <? interval); [lia|]. rewrite len_app. change (len [_]) with 1. lia.
  - intros E. apply (f_equal len) in E. rewrite !len_app in E. change (len []) with 0 in E.
    pose proof (len_nonneg (bb_buffer b)). pose proof (len_nonneg (drop n k)). pose proof (len_nonneg v). lia.
Qed.

Lemma build_block_snoc interval l k v : build_block interval (l ++ [(k, v)]) = bb_Add interval (build_block interval l) k v.
Proof. unfold build_block. by rewrite fold_left_app. Qed.

Lemma build_block_size interval l :
  len (bb_buffer (build_block interval l)) + 4 * len (bb_restarts (build_block interval l)) <= weight 19 l + 4.
Proof.
  induction l as [|[k v] l IH] using rev_ind.
  { change (build_block interval []) with new_BlockBuilder. vm_compute. discriminate. }
  rewrite build_block_snoc, weight_app. destruct (bb_Add_size interval (build_block interval l) k v) as (H1 & H2 & _).
  rewrite weight_one. lia.
Qed.

Lemma build_block_empty interval l : bb_empty (build_block interval l) = true <-> l = [].
Proof.
  destruct l as [|[k v] l _] using rev_ind; [done|]. rewrite build_block_snoc.
  destruct (bb_Add_size interval (build_block interval l) k v) as (_ & _ & H).
  unfold bb_empty. destruct (bb_buffer _); [done|]. split; [done|]. intros E. by apply app_nil in E as [_ ?].
Qed.

(** The finished block. *)
Definition raw_block (interval : Z) (l : list entry) : bytes := fst (bb_Finish (build_block interval l)).

Lemma len_raw_block interval l : len (raw_block interval l) <= weight 19 l + 8.
Proof.
  unfold raw_block, bb_Finish. cbn [fst]. unfold PutFixed32 at 1. rewrite fold_PutFixed32, len_app, len_app, len_EncodeFixed32, len_words.
  pose proof (build_block_size interval l). lia.
Qed.

Lemma weight_sized n es : 0 <= n -> weight n es < 2 ^ 32 -> Forall entry_sized es.
Proof.
  intros Hn. induction es as [|e es IH]; simpl; [constructor|]. intros H. pose proof (weight_le n n es ltac:(lia)).
  pose proof (len_nonneg (fst e)). pose proof (len_nonneg (snd e)). constructor; [split; lia|apply IH; lia].
Qed.

(** ** Writing blocks *)
Section Writing.
Context `{Hsnappy : !Snappy} (options : TableOptions).
Notation interval := (o_block_restart_interval options).
Context (Hcomp : o_compression options = kNoCompression \/ o_compression options = kSnappyCompression).

Lemma block_to_write_encodes raw : exists data type, block_to_write options raw = Some (data, type) /\ encodes raw data type.
Proof.
  unfold block_to_write. destruct Hcomp as [-> | ->].
  - rewrite Z.eqb_refl. eexists _, _. split; [done|]. by left.
  - change (kSnappyCompression =? kNoCompression) with false. rewrite Z.eqb_refl. cbv iota.
    destruct (Snappy_Compress raw) as [z|] eqn:E; [|exists raw, kNoCompression; split; [done|]; by left].
    destruct (Z.ltb_spec (len z) (len raw - len raw / 8)) as [Hlt|Hge].
    2:{ eexists raw, kNoCompression. split; [done|]. by left. }
    eexists z, kSnappyCompression. split; [done|]. right. split; [done|]. split; [done|]. pose proof (len_nonneg raw). pose proof (Z.div_pos (len raw) 8). lia.
Qed.

(** The offset is the length of the file. *)
Definition offset_ok (r : TableBuilder) : Prop := r_offset r = len (wf_contents (r_file r)).

Lemma WriteRawBlock_spec r data type : offset_ok r ->
  exists f o s, WriteRawBlock r data type = (with_file r f o s, {| bh_offset := r_offset r; bh_size := len data |}) /\
    (ok s = true -> wf_contents f = wf_contents (r_file r) ++ block_image data type /\ o = len (wf_contents f)).
Proof.
  intros Ho. unfold WriteRawBlock, Append. destruct (ok (next_status (r_file r))) eqn:E1.
  2:{ eexists _, _, _. split; [done|]. by rewrite E1. }
  cbn [wf_contents wf_script]. eexists _, _, _. split; [done|]. intros E2. cbn [wf_contents]. rewrite E2, <- app_assoc.
  fold (block_image data type). split; [done|].
  rewrite len_app, len_block_image, Ho. done.
Qed.

Lemma WriteBlock_spec r b : offset_ok r ->
  exists f o s h, WriteBlock options r b = Some (with_file r f o s, h) /\ bh_offset h = r_offset r /\
    (ok s = true -> o = len (wf_contents f) /\ (exists more, wf_contents f = wf_contents (r_file r) ++ more) /\
      stored (wf_contents f) h (fst (bb_Finish b))).
Proof.
  intros Ho. unfold WriteBlock. destruct (block_to_write_encodes (fst (bb_Finish b))) as (data & type & -> & Henc).
  cbn [mbind option_bind]. destruct (WriteRawBlock_spec r data type Ho) as (f & o & s & -> & Hok).
  eexists f, o, s, _. split; [done|]. split; [done|]. intros [Ef ->]%Hok. split; [done|]. split; [by eexists|].
  exists (wf_contents (r_file r)), data, type, []. rewrite app_nil_r, Ef. split; [done|]. split; [done|].
  by rewrite Ho.
Qed.
End Writing.

(** ** The state of the builder *)
Section Building.
Context `{Hsnappy : !Snappy} (options : TableOptions) (dom : bytes -> Prop).
Notation c := (o_comparator options).
Notation interval := (o_block_restart_interval options).
Context `{Hc : !ComparatorOk c dom}.
Context (Hcomp : o_compression options = kNoCompression \/ o_compression options = kSnappyCompression).
Notation T := TableBuilder.

(** A finished block: its entries and its handle. *)
Notation blk := (list entry * BlockHandle)%type.

Notation entries_of blocks := (concat (map fst blocks)).

(** The index entries written so far: the handles of the first blocks, under
    keys that lie between their blocks and what follows. *)
Record index_rep (ix : list entry) (blocks : list blk) (rest : list entry) : Prop := {
  ir_handles : map snd ix = map (fun b => BlockHandle_EncodeTo [] (snd b)) (take (length ix) blocks);
  ir_keys i kh : ix !! i = Some kh -> dom (fst kh) /\
    (forall e, e ∈ entries_of (take (S i) blocks) -> Compare c (fst e) (fst kh) <= 0) /\
    (forall e, e ∈ entries_of (drop (S i) blocks) ++ rest -> Compare c (fst kh) (fst e) < 0);
  ir_size : weight 19 ix <= weight 64 (entries_of (take (length ix) blocks));
  ir_made i kh : ix !! i = Some kh -> exists a, last (entries_of (take (S i) blocks)) = Some a /\
    match head (entries_of (drop (S i) blocks) ++ rest) with
    | Some b => fst kh = FindShortestSeparator c (fst a) (fst b)
    | None => fst kh = FindShortSuccessor c (fst a)
    end;
}.

Record builder_rep (r : T) (blocks : list blk) (ix pend : list entry) : Prop := {
  br_offset : offset_ok r;
  br_data : r_data_block r = build_block interval pend;
  br_index : r_index_block r = build_block 1 ix;
  br_stored : Forall (fun b => stored (wf_contents (r_file r)) (snd b) (raw_block interval (fst b))) blocks;
  br_rep : index_rep ix blocks pend;
  br_last e : last (entries_of blocks ++ pend) = Some e -> r_last_key r = fst e;
  br_nonempty : Forall (fun b => fst b <> []) blocks;
  br_distinct : NoDup (map snd blocks);
  br_pending : if r_pending_index_entry r
               then pend = [] /\ length blocks = S (length ix) /\ (snd <$> last blocks) = Some (r_pending_handle r)
               else length blocks = length ix /\ (pend = [] -> ix = []);
}.

Lemma new_TableBuilder_rep file : wf_contents file = [] -> builder_rep (new_TableBuilder options file) [] [] [].
Proof. intros E. split; try done; [unfold offset_ok; simpl; by rewrite E|constructor]. Qed.

Lemma entries_snoc (blocks : list blk) l h : entries_of (blocks ++ [(l, h)]) = entries_of blocks ++ l.
Proof. rewrite map_app, concat_app. simpl. by rewrite app_nil_r. Qed.

(** The pending entries become a block. *)
Lemma index_flush ix blocks pend h : index_rep ix blocks pend -> length blocks = length ix ->
  index_rep ix (blocks ++ [(pend, h)]) [].
Proof.
  intros [Hh Hk Hs Hmade] Hlen. split.
  - by rewrite take_app_le by lia.
  - intros i kh Hi. pose proof (lookup_lt_Some _ _ _ Hi) as Hlt. destruct (Hk i kh Hi) as (Hd & Hle & Hgt).
    split; [done|]. rewrite take_app_le by lia. split; [done|]. rewrite drop_app_le, entries_snoc, app_nil_r by lia. done.
  - by rewrite take_app_le by lia.
  - intros i kh Hi. pose proof (lookup_lt_Some _ _ _ Hi) as Hlt.
    rewrite take_app_le, drop_app_le, entries_snoc, app_nil_r by lia. by apply Hmade.
Qed.

Lemma head_app_ne {A} (l k : list A) : l <> [] -> head (l ++ k) = head l.
Proof. by destruct l. Qed.

(** One more entry, larger than those before. *)
Lemma index_push ix blocks pend e : index_rep ix blocks pend -> length blocks = length ix -> (pend = [] -> ix = []) ->
  dom (fst e) -> Forall (fun f => dom (fst f) /\ Compare c (fst f) (fst e) < 0) (entries_of blocks ++ pend) ->
  index_rep ix blocks (pend ++ [e]).
Proof.
  intros [Hh Hk Hs Hmade] Hlen Hpend He Hall.
  assert (forall i kh, ix !! i = Some kh -> pend <> []) as Hne by (intros i kh Hi E; by rewrite Hpend in Hi).
  split; [done| |done|].
  2:{ intros i kh Hi. rewrite app_assoc, head_app_ne; [by apply Hmade|]. intros [_ E]%app_nil. by eapply Hne. }
  intros i kh Hi. destruct (Hk i kh Hi) as (Hd & Hle & Hgt).
  split; [done|]. split; [done|]. intros f. rewrite app_assoc, elem_of_app, list_elem_of_singleton. intros [Hf| ->]; [by apply Hgt|].
  destruct pend as [|f pend]; [by destruct (Hne i kh Hi)|]. rewrite Forall_forall in Hall.
  destruct (Hall f) as [Hdf Hfe]; [apply elem_of_app; right; left|].
  eapply (cmp_lt_trans (dom := dom) _ (fst f)); [done..| |done]. apply Hgt. apply elem_of_app. right. left.
Qed.

(** The entry of the last block, under a separator from what comes next. *)
Lemma index_snoc ix blocks l h sep rest : index_rep ix (blocks ++ [(l, h)]) [] -> length blocks = length ix -> l <> [] ->
  dom sep -> Forall (fun f => dom (fst f) /\ Compare c (fst f) sep <= 0) (entries_of blocks ++ l) ->
  (forall f, f ∈ rest -> Compare c sep (fst f) < 0) ->
  (forall f, f ∈ rest -> dom (fst f) /\ forall e, e ∈ entries_of blocks ++ l -> Compare c (fst e) (fst f) < 0) ->
  (exists f, last l = Some f /\ len sep <= len (fst f) /\
    match head rest with Some b => sep = FindShortestSeparator c (fst f) (fst b) | None => sep = FindShortSuccessor c (fst f) end) ->
  index_rep (ix ++ [(sep, BlockHandle_EncodeTo [] h)]) (blocks ++ [(l, h)]) rest.
Proof.
  intros [Hh Hk Hs Hmade] Hlen Hl Hsep Hall Hrest Hrest' (f & Hlastf & Hlenf & Hsepf).
  assert (f ∈ l) as Hf by by apply last_Some_elem_of.
  assert (length (ix ++ [(sep, BlockHandle_EncodeTo [] h)]) = length (blocks ++ [(l, h)])) as Hlen'.
  { rewrite !length_app. simpl. lia. }
  rewrite Forall_forall in Hall. split.
  - rewrite Hlen', firstn_all, !map_app. rewrite take_app_le in Hh by lia. rewrite Hh, take_ge by lia. done.
  - intros i kh Hi. apply lookup_app_Some in Hi as [Hi|[Hge Hi]].
    + pose proof (lookup_lt_Some _ _ _ Hi) as Hlt. destruct (Hk i kh Hi) as (Hd & Hle & Hgt). split; [done|]. split; [done|].
      intros e He. apply elem_of_app in He as [He|He]; [apply Hgt; by rewrite app_nil_r|].
      destruct (Hrest' e He) as [Hde Hlast]. destruct (Hall f) as [Hdf _]; [apply elem_of_app; by right|].
      eapply (cmp_lt_trans (dom := dom) _ (fst f)); [done..| |apply Hlast; apply elem_of_app; by right]. apply Hgt.
      rewrite app_nil_r, drop_app_le, entries_snoc by lia. apply elem_of_app. by right.
    + destruct (i - length ix)%nat as [|n] eqn:E; [|done]. injection Hi as <-. simpl.
      rewrite take_ge, drop_ge by (rewrite length_app; simpl; lia). split; [done|]. split; [|done].
      intros e He. apply Hall. by rewrite <- entries_snoc with (h := h).
  - rewrite Hlen', firstn_all, entries_snoc, !weight_app, weight_one. rewrite take_app_le, take_ge in Hs by lia.
    pose proof (len_BlockHandle h). unfold kMaxEncodedLength in *.
    assert (len (fst f) + 64 <= weight 64 l).
    { apply list_elem_of_split in Hf as (l1 & l2 & ->). rewrite weight_app. simpl. pose proof (weight_le 64 64 l1 ltac:(lia)).
      pose proof (weight_le 64 64 l2 ltac:(lia)). pose proof (len_nonneg (snd f)). lia. }
    lia.
  - intros i kh Hi. apply lookup_app_Some in Hi as [Hi|[Hge Hi]].
    + pose proof (lookup_lt_Some _ _ _ Hi) as Hlt. destruct (Hmade i kh Hi) as (a & Ha & Hm). exists a. split; [done|].
      rewrite app_nil_r in Hm. rewrite head_app_ne; [done|]. rewrite drop_app_le, entries_snoc by lia. by intros [_ ?]%app_nil.
    + destruct (i - length ix)%nat as [|n] eqn:E; [|done]. injection Hi as <-.
      rewrite take_ge, drop_ge by (rewrite length_app; simpl; lia). exists f. by rewrite entries_snoc, last_app, Hlastf.
Qed.

(** Flush writes the pending entries as a block. *)
Lemma Flush_ok r blocks ix pend : ok (r_status r) = true -> builder_rep r blocks ix pend ->
  exists r', Flush options r = Some r' /\
    (ok (r_status r') = true -> exists blocks', builder_rep r' blocks' ix [] /\ entries_of blocks' = entries_of blocks ++ pend).
Proof.
  intros Hok Hr. unfold Flush, builder_ok. rewrite Hok. cbn [negb]. rewrite (br_data _ _ _ _ Hr).
  destruct (bb_empty _) eqn:Eempty.
  { apply build_block_empty in Eempty as ->. exists r. split; [done|]. intros _. exists blocks. by rewrite app_nil_r. }
  assert (pend <> []) as Hpend by (intros E; apply build_block_empty with (interval := interval) in E; congruence).
  pose proof (br_pending _ _ _ _ Hr) as Hp. destruct (r_pending_index_entry r) eqn:Epend; [by destruct Hp|].
  destruct Hp as [Hlen _].
  destruct (WriteBlock_spec options Hcomp r (build_block interval pend) (br_offset _ _ _ _ Hr)) as (f & o & s & h & -> & Hoff & Hw).
  cbn [mbind option_bind]. cbn [r_pending_index_entry with_data_block with_file with_pending r_status r_data_block].
  rewrite Epend. set (r1 := with_pending (with_data_block (with_file r f o s) _) _ h).
  assert (forall r', r_file r' = {| wf_contents := wf_contents f; wf_script := wf_script (r_file r') |} ->
    ok s = true -> r_offset r' = o -> r_data_block r' = new_BlockBuilder -> r_index_block r' = r_index_block r ->
    r_last_key r' = r_last_key r -> r_pending_index_entry r' = true -> r_pending_handle r' = h ->
    builder_rep r' (blocks ++ [(pend, h)]) ix []) as Hdone.
  { intros r' Ef Hs Eo Ed Ei El Ep Eh. destruct (Hw Hs) as (Eo' & [more Em] & Hst). split.
    - unfold offset_ok. by rewrite Eo, Ef, Eo'.
    - done.
    - by rewrite Ei, (br_index _ _ _ _ Hr).
    - rewrite Ef. cbn [wf_contents]. apply Forall_app. split; [|by constructor; [|constructor]].
      eapply Forall_impl; [exact (br_stored _ _ _ _ Hr)|]. intros b Hb. rewrite Em. by apply stored_app.
    - by apply index_flush, Hlen; apply (br_rep _ _ _ _ Hr).
    - intros e. rewrite app_nil_r, entries_snoc, El. apply (br_last _ _ _ _ Hr).
    - apply Forall_app. split; [apply (br_nonempty _ _ _ _ Hr)|by constructor].
    - rewrite map_app. apply NoDup_app. split; [apply (br_distinct _ _ _ _ Hr)|]. split; [|apply NoDup_singleton].
      intros h' Hin ->%list_elem_of_singleton. apply list_elem_of_fmap in Hin as (b & Eb & Hb). simpl in Eb.
      pose proof (br_stored _ _ _ _ Hr) as Hst'. rewrite Forall_forall in Hst'. specialize (Hst' b Hb).
      apply stored_handle in Hst'. rewrite <- Eb, Hoff, (br_offset _ _ _ _ Hr) in Hst'. unfold kBlockTrailerSize in Hst'. lia.
    - rewrite Ep, length_app, last_snoc, Eh. simpl. split; [done|]. split; [lia|done]. }
  eexists. split; [reflexivity|]. intros Hfinal. exists (blocks ++ [(pend, h)]). rewrite entries_snoc. split; [|done].
  unfold Flush_file in *. destruct (ok s) eqn:Es.
  - destruct (r_filter_block _); [destruct (o_filter_policy options) as [[? ?]|]|]; apply Hdone; done.
  - exfalso. revert Hfinal. destruct (r_filter_block _); [destruct (o_filter_policy options) as [[? ?]|]|]; simpl; by rewrite Es.
Qed.

Context (Hshort : (forall a b, len (FindShortestSeparator c a b) <= len a) /\ (forall a, len (FindShortSuccessor c a) <= len a)).

Lemma pending_block r blocks ix pend : builder_rep r blocks ix pend -> r_pending_index_entry r = true ->
  exists blocks0 l e, blocks = blocks0 ++ [(l, r_pending_handle r)] /\ pend = [] /\ length blocks0 = length ix /\ l <> [] /\
    last l = Some e /\ r_last_key r = fst e.
Proof.
  intros Hr Ep. pose proof (br_pending _ _ _ _ Hr) as Hp. rewrite Ep in Hp. destruct Hp as (-> & Hlen & Hlast).
  destruct blocks as [|[l h] blocks0 _] using rev_ind; [done|]. rewrite last_snoc in Hlast. injection Hlast as ->.
  pose proof (br_nonempty _ _ _ _ Hr) as Hne. apply Forall_app in Hne as [_ Hne]. apply Forall_cons in Hne as [Hl _]. simpl in Hl.
  destruct (last l) as [e|] eqn:El; [|by apply last_None in El]. exists blocks0, l, e. split; [done|]. split; [done|].
  split; [rewrite length_app in Hlen; simpl in Hlen; lia|]. split; [done|]. split; [done|].
  apply (br_last _ _ _ _ Hr). by rewrite app_nil_r, entries_snoc, last_app, El.
Qed.

Lemma sorted_last l e f : sorted_keys c l -> last l = Some e -> dom (fst e) -> f ∈ l -> Compare c (fst f) (fst e) <= 0.
Proof.
  intros Hs He Hd [i Hi]%list_elem_of_lookup. rewrite last_lookup in He. pose proof (lookup_lt_Some _ _ _ Hi).
  destruct (decide (i = pred (length l))) as [->|Hne].
  - rewrite He in Hi. injection Hi as <-. rewrite (cmp_refl (dom := dom)); [lia|done].
  - enough (Compare c (fst f) (fst e) < 0) by lia. by eapply (Hs i); [|done..]; lia.
Qed.

(** The first half of Add: the index entry of the block before. *)
Lemma Add_index r blocks ix pend k v : builder_rep r blocks ix pend ->
  dom k -> Forall (fun f => dom (fst f) /\ Compare c (fst f) k < 0) (entries_of blocks ++ pend) ->
  sorted_keys c (entries_of blocks ++ pend) ->
  let r1 := if r_pending_index_entry r then add_index_entry r (FindShortestSeparator c (r_last_key r) k) else r in
  exists ix', index_rep ix' blocks (pend ++ [(k, v)]) /\ length blocks = length ix' /\ r_index_block r1 = build_block 1 ix' /\
    r_file r1 = r_file r /\ r_offset r1 = r_offset r /\ r_status r1 = r_status r /\ r_data_block r1 = r_data_block r /\
    r_pending_index_entry r1 = false.
Proof.
  intros Hr Hk Hall Hsorted. destruct (r_pending_index_entry r) eqn:Ep; cbv zeta.
  2:{ pose proof (br_pending _ _ _ _ Hr) as Hp. rewrite Ep in Hp. destruct Hp as [Hlen Hp]. exists ix.
      split; [|by rewrite (br_index _ _ _ _ Hr)]. by apply index_push; [apply (br_rep _ _ _ _ Hr)|..]. }
  destruct (pending_block r blocks ix pend Hr Ep) as (blocks0 & l & e & -> & -> & Hlen & Hl & Hlast & Elk).
  set (sep := FindShortestSeparator c (r_last_key r) k). rewrite app_nil_r, entries_snoc in Hall, Hsorted.
  assert (e ∈ l) as Hel by (by apply last_Some_elem_of). rewrite Forall_forall in Hall.
  destruct (Hall e) as [Hde Hlt]; [apply elem_of_app; by right|]. rewrite <- Elk in Hlt, Hde.
  destruct (cmp_separator (dom := dom) (r_last_key r) k Hde Hk Hlt) as (Hds & Hle & Hgt). fold sep in Hds, Hle, Hgt.
  exists (ix ++ [(sep, BlockHandle_EncodeTo [] (r_pending_handle r))]). split.
  - apply index_snoc; try done.
    + apply (br_rep _ _ _ _ Hr).
    + apply Forall_forall. intros f Hf. destruct (Hall f Hf) as [Hdf _]. split; [done|].
      eapply (cmp_le_trans (dom := dom) _ (r_last_key r)); [done..| |done]. rewrite Elk. rewrite Elk in Hde.
      apply (sorted_last (entries_of blocks0 ++ l)); [done|by rewrite last_app, Hlast|done..].
    + intros f [= ->]%list_elem_of_singleton. done.
    + intros f [= ->]%list_elem_of_singleton. split; [done|]. intros f Hf. by apply Hall.
    + exists e. rewrite <- Elk. split; [done|]. split; [apply Hshort|done].
  - split; [rewrite !length_app; simpl; lia|]. simpl. split; [|done]. by rewrite build_block_snoc, (br_index _ _ _ _ Hr).
Qed.

Lemma Add_ok r blocks ix pend k v : ok (r_status r) = true -> builder_rep r blocks ix pend ->
  dom k -> Forall (fun f => dom (fst f) /\ Compare c (fst f) k < 0) (entries_of blocks ++ pend) ->
  sorted_keys c (entries_of blocks ++ pend) ->
  exists r', Add options r k v = Some r' /\
    (ok (r_status r') = true -> exists blocks' ix' pend',
      builder_rep r' blocks' ix' pend' /\ entries_of blocks' ++ pend' = entries_of blocks ++ pend ++ [(k, v)]).
Proof.
  intros Hok Hr Hk Hall Hsorted. unfold Add, builder_ok. rewrite Hok. cbn [negb].
  destruct (Add_index r blocks ix pend k v Hr Hk Hall Hsorted) as (ix' & Hix & Hlen & Ei & Ef & Eo & Es & Ed & Ep).
  set (r1 := if r_pending_index_entry r then _ else r) in *.
  set (r2 := with_entry _ _ _).
  assert (builder_rep r2 blocks ix' (pend ++ [(k, v)])) as Hr2.
  { split; simpl.
    - unfold offset_ok. simpl. rewrite Ef, Eo. apply (br_offset _ _ _ _ Hr).
    - by rewrite build_block_snoc, Ed, (br_data _ _ _ _ Hr).
    - done.
    - rewrite Ef. apply (br_stored _ _ _ _ Hr).
    - done.
    - intros e. rewrite app_assoc, last_snoc. by intros [= <-].
    - apply (br_nonempty _ _ _ _ Hr).
    - apply (br_distinct _ _ _ _ Hr).
    - rewrite Ep. split; [done|]. intros E. by apply app_nil in E as [_ ?]. }
  destruct (o_block_size options <=? _).
  - destruct (Flush_ok r2 blocks ix' (pend ++ [(k, v)])) as (r' & E & Hfl); [by simpl; rewrite Es|done|]. exists r'. split; [done|].
    intros Hok'. destruct (Hfl Hok') as (blocks' & Hrep & Ees). exists blocks', ix', []. by rewrite app_nil_r.
  - exists r2. split; [done|]. intros _. by exists blocks, ix', (pend ++ [(k, v)]).
Qed.

(** The entries are added in order. *)
Definition add_all (r : T) (es : list entry) : option T :=
  foldl (fun r e => r ← r; Add options r (fst e) (snd e)) (Some r) es.

Lemma Add_failed r k v : ok (r_status r) = false -> Add options r k v = Some r.
Proof. intros H. unfold Add, builder_ok. by rewrite H. Qed.

Lemma add_all_ok file es : wf_contents file = [] -> sorted_keys c es -> Forall (fun e => dom (fst e)) es ->
  exists r, add_all (new_TableBuilder options file) es = Some r /\
    (ok (r_status r) = true -> exists blocks ix pend, builder_rep r blocks ix pend /\ entries_of blocks ++ pend = es).
Proof.
  intros Hf. unfold add_all. induction es as [|[k v] es IH] using rev_ind; intros Hs Hd.
  - eexists. split; [done|]. intros _. exists [], [], []. split; [|done]. by apply new_TableBuilder_rep.
  - apply Forall_app in Hd as [Hd Hk]. apply Forall_cons in Hk as [Hk _]. simpl in Hk.
    assert (sorted_keys c es) as Hs'.
    { intros i j a b Hij Ha Hb. by apply (Hs i j); [|apply lookup_app_l_Some..]. }
    destruct (IH Hs' Hd) as (r & E & Hr). rewrite foldl_app, E. simpl. destruct (ok (r_status r)) eqn:Hok.
    2:{ rewrite Add_failed by done. exists r. split; [done|]. by rewrite Hok. }
    destruct (Hr eq_refl) as (blocks & ix & pend & Hrep & <-).
    destruct (Add_ok r blocks ix pend k v Hok Hrep Hk) as (r' & E' & Hr').
    + apply Forall_lookup. intros i f Hi. split; [by apply (Forall_lookup_1 _ _ _ _ Hd Hi)|].
      apply (Hs i (length (entries_of blocks ++ pend)) f (k, v)); [by eapply lookup_lt_Some|by apply lookup_app_l_Some|].
      by rewrite lookup_app_r, Nat.sub_diag.
    + done.
    + exists r'. split; [done|]. rewrite <- app_assoc. exact Hr'.
Qed.

(** *** Finish *)

(** The entries of the metaindex block. *)
Definition meta_entries (filter_handle : BlockHandle) : list entry :=
  match o_filter_policy options with
  | Some (name, _) => [(bytes_of_string "filter." ++ name, BlockHandle_EncodeTo [] filter_handle)]
  | None => []
  end.

(** A table with the entries of [blocks]. *)
Definition table_file (content : bytes) (blocks : list blk) (ix : list entry) : Prop :=
  length ix = length blocks /\ index_rep ix blocks [] /\ NoDup (map snd blocks) /\ Forall (fun b => fst b <> []) blocks /\
  Forall (fun b => stored content (snd b) (raw_block interval (fst b))) blocks /\
  exists pre footer fh, content = pre ++ Footer_EncodeTo [] footer /\
    stored content (metaindex_handle footer) (raw_block interval (meta_entries fh)) /\
    stored content (index_handle footer) (raw_block 1 ix).

Lemma rep_write r blocks ix pend f o s more : builder_rep r blocks ix pend ->
  wf_contents f = wf_contents (r_file r) ++ more -> o = len (wf_contents f) ->
  builder_rep (with_file r f o s) blocks ix pend.
Proof.
  intros [H1 H2 H3 H4 H5 H6 H7 H8 H9] Ef Eo. split; try done. simpl. eapply Forall_impl; [exact H4|].
  intros b Hb. rewrite Ef. by apply stored_app.
Qed.

Lemma rep_close r blocks ix pend : builder_rep r blocks ix pend -> builder_rep (close r) blocks ix pend.
Proof. intros [H1 H2 H3 H4 H5 H6 H7 H8 H9]. by split. Qed.

(** The last index entry. *)
Lemma finish_index r blocks ix : builder_rep r blocks ix [] ->
  sorted_keys c (entries_of blocks) -> Forall (fun e => dom (fst e)) (entries_of blocks) ->
  let r1 := if r_pending_index_entry r then add_index_entry r (FindShortSuccessor c (r_last_key r)) else r in
  exists ix', index_rep ix' blocks [] /\ length ix' = length blocks /\ r_index_block r1 = build_block 1 ix' /\
    r_file r1 = r_file r /\ r_offset r1 = r_offset r.
Proof.
  intros Hr Hs Hd. destruct (r_pending_index_entry r) eqn:Ep; cbv zeta.
  2:{ pose proof (br_pending _ _ _ _ Hr) as Hp. rewrite Ep in Hp. destruct Hp as [Hlen _]. exists ix.
      split; [apply (br_rep _ _ _ _ Hr)|]. by rewrite (br_index _ _ _ _ Hr). }
  destruct (pending_block r blocks ix [] Hr Ep) as (blocks0 & l & e & -> & _ & Hlen & Hl & Hlast & Elk).
  rewrite entries_snoc in Hs, Hd. rewrite Forall_forall in Hd.
  assert (e ∈ l) as Hel by (by apply last_Some_elem_of).
  assert (dom (fst e)) as Hde by (apply Hd, elem_of_app; by right).
  destruct (cmp_successor (dom := dom) (r_last_key r)) as [Hds Hle]; [by rewrite Elk|].
  exists (ix ++ [(FindShortSuccessor c (r_last_key r), BlockHandle_EncodeTo [] (r_pending_handle r))]). split.
  - apply index_snoc; try done; try (by intros f Hf%elem_of_nil).
    + apply (br_rep _ _ _ _ Hr).
    + apply Forall_forall. intros f Hf. split; [by apply Hd|].
      eapply (cmp_le_trans (dom := dom) _ (r_last_key r)); [by apply Hd|by rewrite Elk|done| |done]. rewrite Elk.
      apply (sorted_last (entries_of blocks0 ++ l)); [done|by rewrite last_app, Hlast|done..].
    + exists e. rewrite <- Elk. split; [done|]. split; [apply Hshort|done].
  - split; [rewrite !length_app; simpl; lia|]. simpl. split; [|done]. by rewrite build_block_snoc, (br_index _ _ _ _ Hr).
Qed.

Lemma meta_block_build fh :
  match o_filter_policy options with
  | Some (name, _) => bb_Add interval new_BlockBuilder (bytes_of_string "filter." ++ name) (BlockHandle_EncodeTo [] fh)
  | None => new_BlockBuilder
  end = build_block interval (meta_entries fh).
Proof. unfold meta_entries. by destruct (o_filter_policy options) as [[name policy]|]. Qed.

(** The filter block, if there is one. *)
Lemma finish_filter r blocks ix : ok (r_status r) = true -> builder_rep r blocks ix [] ->
  exists r' fh,
    match r_filter_block r, o_filter_policy options with
    | Some f, Some (_, policy) =>
        if builder_ok r then WriteRawBlock r (fb_Finish policy f) kNoCompression else (r, new_BlockHandle)
    | _, _ => (r, new_BlockHandle)
    end = (r', fh) /\ (ok (r_status r') = true -> builder_rep r' blocks ix []).
Proof.
  intros Hok Hr. destruct (r_filter_block r) as [f|]; [|by exists r, new_BlockHandle].
  destruct (o_filter_policy options) as [[name policy]|]; [|by exists r, new_BlockHandle].
  unfold builder_ok. rewrite Hok.
  destruct (WriteRawBlock_spec r (fb_Finish policy f) kNoCompression (br_offset _ _ _ _ Hr)) as (f' & o & s & -> & Hw).
  eexists _, _. split; [done|]. intros [Ef Eo]%Hw. by eapply rep_write.
Qed.

(** Runs Finish where [H] says whether the status is OK. *)
Ltac run_finish H := repeat (progress (unfold builder_ok; cbn [mbind option_bind r_status close with_file with_index_block]; rewrite ?H)).

(** After a failed write nothing more is written and the status stays. *)
Lemma Finish_failed r : ok (r_status r) = false -> exists r', Finish options r = Some (r_status r, r').
Proof.
  intros H. unfold Finish, Flush, builder_ok. rewrite H. cbn [negb mbind option_bind].
  destruct (r_filter_block (close r)); [destruct (o_filter_policy options) as [[? ?]|]|]; run_finish H; by eexists.
Qed.

(** The metaindex block, the index block and the footer. *)
Lemma finish_rest r blocks ix fh : ok (r_status r) = true -> builder_rep r blocks ix [] ->
  sorted_keys c (entries_of blocks) -> Forall (fun e => dom (fst e)) (entries_of blocks) ->
  exists s r',
    ('(r, metaindex_block_handle) ← WriteBlock options r (build_block interval (meta_entries fh));
     '(r, index_block_handle) ←
       (if builder_ok r then
          let r := if r_pending_index_entry r
                   then add_index_entry r (FindShortSuccessor c (r_last_key r)) else r in
          '(r, handle) ← WriteBlock options r (r_index_block r);
          Some (with_index_block r (bb_Reset (r_index_block r)) (r_last_key r) (r_pending_index_entry r), handle)
        else Some (r, new_BlockHandle));
     let r :=
       if builder_ok r then
         let footer_encoding :=
           Footer_EncodeTo [] {| metaindex_handle := metaindex_block_handle; index_handle := index_block_handle |} in
         let '(s, file) := Append (r_file r) footer_encoding in
         with_file r file (if ok s then r_offset r + len footer_encoding else r_offset r) s
       else r in
     Some (r_status r, r)) = Some (s, r') /\
    (ok s = true -> exists ix', table_file (wf_contents (r_file r')) blocks ix').
Proof.
  intros Hok Hr Hs Hd.
  destruct (WriteBlock_spec options Hcomp r (build_block interval (meta_entries fh)) (br_offset _ _ _ _ Hr))
    as (f1 & o1 & s1 & mh & -> & _ & H1).
  cbn [mbind option_bind]. unfold builder_ok at 1. cbn [r_status with_file]. destruct (ok s1) eqn:E1.
  2:{ run_finish E1. eexists _, _. split; [done|]. simpl. by rewrite E1. }
  destruct (H1 eq_refl) as (Eo1 & [more1 Em1] & Hst1).
  pose proof (rep_write r blocks ix [] f1 o1 s1 more1 Hr Em1 Eo1) as Hr1.
  destruct (finish_index _ blocks ix Hr1 Hs Hd) as (ix' & Hix & Hlen & Ei & Ef & Eo).
  set (r1 := if r_pending_index_entry (with_file r f1 o1 s1) then _ else _) in *.
  destruct (WriteBlock_spec options Hcomp r1 (r_index_block r1)) as (f2 & o2 & s2 & ih & -> & _ & H2).
  { unfold offset_ok. rewrite Ef, Eo. apply (br_offset _ _ _ _ Hr1). }
  run_finish E1. destruct (ok s2) eqn:E2.
  2:{ run_finish E2. eexists _, _. split; [done|]. simpl. by rewrite E2. }
  destruct (H2 eq_refl) as (Eo2 & [more2 Em2] & Hst2). unfold Append. cbn [r_file with_file with_index_block].
  eexists _, _. split; [reflexivity|]. cbn [r_status with_file r_file wf_contents]. intros E3. rewrite E3. exists ix'.
  rewrite Ef in Em2. simpl in Em2. split; [done|]. split; [done|]. split; [apply (br_distinct _ _ _ _ Hr)|].
  split; [apply (br_nonempty _ _ _ _ Hr)|]. split.
  - eapply Forall_impl; [exact (br_stored _ _ _ _ Hr1)|]. intros b Hb. simpl in Hb. rewrite Em2. by do 2 apply stored_app.
  - eexists _, {| metaindex_handle := mh; index_handle := ih |}, fh. split; [reflexivity|]. cbn [metaindex_handle index_handle]. split.
    + rewrite Em2. by do 2 apply stored_app.
    + apply stored_app. by rewrite Ei in Hst2.
Qed.

Lemma Finish_ok r blocks ix pend : builder_rep r blocks ix pend ->
  sorted_keys c (entries_of blocks ++ pend) -> Forall (fun e => dom (fst e)) (entries_of blocks ++ pend) ->
  exists s r', Finish options r = Some (s, r') /\
    (ok s = true -> exists blocks' ix', table_file (wf_contents (r_file r')) blocks' ix' /\ entries_of blocks' = entries_of blocks ++ pend).
Proof.
  intros Hr Hs Hd. destruct (ok (r_status r)) eqn:Hok.
  2:{ destruct (Finish_failed r Hok) as [r' E]. exists (r_status r), r'. split; [done|]. by rewrite Hok. }
  unfold Finish. destruct (Flush_ok r blocks ix pend Hok Hr) as (r1 & -> & Hr1). cbn [mbind option_bind].
  destruct (ok (r_status r1)) eqn:Hok1.
  2:{ (* the flush failed *)
      destruct (r_filter_block (close r1)) as [f|]; [destruct (o_filter_policy options) as [[? ?]|]|];
        run_finish Hok1; eexists _, _; (split; [done|]); by rewrite Hok1. }
  destruct (Hr1 eq_refl) as (blocks' & Hrep & Ees). apply rep_close in Hrep. rewrite <- Ees in Hs, Hd |- *.
  destruct (finish_filter (close r1) blocks' ix Hok1 Hrep) as (r2 & fh & -> & Hr2).
  destruct (ok (r_status r2)) eqn:Hok2.
  2:{ run_finish Hok2. eexists _, _. split; [done|]. by rewrite Hok2. }
  assert (builder_ok r2 = true) as -> by exact Hok2. rewrite meta_block_build.
  destruct (finish_rest r2 blocks' ix fh Hok2 (Hr2 eq_refl) Hs Hd) as (s & r' & E & Hfin).
  exists s, r'. split; [exact E|]. intros Hs'. destruct (Hfin Hs') as [ix' Ht]. by exists blocks', ix'.
Qed.
End Building.

(** ** Reading a table *)

(** Any state that a correct relation accounts for. *)
Definition some_rel (I : IterOps) (c : Comparator) (dom : bytes -> Prop) (l : list entry) (s : St I) (p : pos) : Prop :=
  exists R, IterOk I c dom l R /\ R s p.

#[export] Instance some_rel_ok I c dom l : IterOk I c dom l (some_rel I c dom l).
Proof.
  split; unfold some_rel.
  - intros s p (R & HR & H). by eapply io_valid.
  - intros s i (R & HR & H). by eapply io_entry.
  - intros s p (R & HR & H). by eapply io_status.
  - intros s i (R & HR & H). destruct (io_next s i H) as (s' & E & H'). eauto.
  - intros s i (R & HR & H). destruct (io_prev s i H) as (s' & E & H'). eauto.
  - intros s p (R & HR & H). destruct (io_first s p H) as (s' & E & H'). eauto.
  - intros s p (R & HR & H). destruct (io_last s p H) as (s' & E & H'). eauto.
  - intros s p target (R & HR & H) Hd. destruct (io_seek s p target H Hd) as (s' & E & H'). eauto.
Qed.

Section Reading.
Context `{Hsnappy : !Snappy} `{Hsnappyok : !SnappyOk} (options : TableOptions) (dom : bytes -> Prop).
Notation c := (o_comparator options).
Notation interval := (o_block_restart_interval options).
Context `{Hc : !ComparatorOk c dom}.
Notation blk := (list entry * BlockHandle)%type.
Notation entries_of blocks := (concat (map fst blocks)).
Notation D := (SumIterator EmptyIterator (BlockIter c)).

Context (file : RandomAccessFile) (content : bytes) (blocks : list blk) (ix : list entry).
Context (Hfile : file_reads file content) (Hlen : len content < 2 ^ 63).
Context (Ht : table_file options dom content blocks ix).
Notation es := (entries_of blocks).
Context (Hsorted : sorted_keys c es) (Hdom : Forall (fun e => dom (fst e)) es) (Hsize : weight 64 es < 2 ^ 31).
Context (Hname : match o_filter_policy options with Some (name, _) => len name < 2 ^ 30 | None => True end).

Lemma block_ok interval' l : sorted_keys c l -> Forall (fun e => dom (fst e)) l -> weight 19 l < 2 ^ 31 + 2 ^ 30 ->
  exists it, NewBlockIterator (new_Block (raw_block interval' l)) = inr it /\ some_rel D c dom l (inr it) None.
Proof.
  intros Hs Hd Hw. pose proof (len_raw_block interval' l) as Hraw.
  destruct (built_block_ok c dom Hc interval' l Hs Hd) as (it & R & E & HI & Hn).
  { apply (weight_sized 19); lia. }
  { fold (raw_block interval' l). lia. }
  exists it. split; [exact E|]. exists (sum_rel (A := EmptyIterator) (B := BlockIter c) (fun _ _ => False) R). split; [apply _|done].
Qed.

Lemma weight_concat_In b : b ∈ blocks -> weight 64 (fst b) <= weight 64 es.
Proof.
  intros (l1 & l2 & ->)%list_elem_of_split. rewrite map_app, concat_app, weight_app. simpl. rewrite weight_app.
  pose proof (weight_le 64 64 (concat (map fst l1)) ltac:(lia)). pose proof (weight_le 64 64 (concat (map fst l2)) ltac:(lia)). lia.
Qed.

Lemma sub_sorted l1 l l2 : sorted_keys c (l1 ++ l ++ l2) -> sorted_keys c l.
Proof.
  intros Hs i j a b Hij Ha Hb. apply (Hs (length l1 + i)%nat (length l1 + j)%nat); [lia|..].
  - rewrite lookup_app_r by lia. replace (length l1 + i - length l1)%nat with i by lia. by apply lookup_app_l_Some.
  - rewrite lookup_app_r by lia. replace (length l1 + j - length l1)%nat with j by lia. by apply lookup_app_l_Some.
Qed.

Lemma es_split b : b ∈ blocks -> exists l1 l2, es = l1 ++ fst b ++ l2.
Proof.
  intros (l1 & l2 & ->)%list_elem_of_split. exists (concat (map fst l1)), (concat (map fst l2)).
  by rewrite map_app, concat_app.
Qed.

Lemma data_block_ok b : b ∈ blocks ->
  exists it, NewBlockIterator (new_Block (raw_block interval (fst b))) = inr it /\ some_rel D c dom (fst b) (inr it) None.
Proof.
  intros Hb. destruct (es_split b Hb) as (l1 & l2 & E). apply block_ok.
  - apply (sub_sorted l1 _ l2). by rewrite <- E.
  - rewrite E in Hdom. apply Forall_app in Hdom as [_ H]. by apply Forall_app in H as [? _].
  - pose proof (weight_concat_In b Hb). pose proof (weight_le 19 64 (fst b) ltac:(lia)). lia.
Qed.

(** The index entry of block [i]. *)
Lemma index_block i kh : ix !! i = Some kh -> exists b, blocks !! i = Some b /\ snd kh = BlockHandle_EncodeTo [] (snd b).
Proof.
  intros Hi. destruct Ht as (Hl & Hix & _). pose proof (ir_handles _ _ _ _ _ Hix) as Hh. rewrite Hl, firstn_all in Hh.
  assert (map snd ix !! i = Some (snd kh)) as Hm by (by rewrite list_lookup_fmap, Hi).
  rewrite Hh, list_lookup_fmap in Hm. destruct (blocks !! i) as [b|]; [|done]. injection Hm as <-. by exists b.
Qed.

(** Entries before and after the end of block [i]. *)
Lemma es_cut i : es = entries_of (take (S i) blocks) ++ entries_of (drop (S i) blocks).
Proof. by rewrite <- concat_app, <- map_app, take_drop. Qed.

Lemma elem_entries (bs : list blk) j b e : bs !! j = Some b -> e ∈ fst b -> e ∈ entries_of bs.
Proof.
  intros Hj He. rewrite list_elem_of_In, in_concat. exists (fst b). rewrite <- !list_elem_of_In. split; [|done].
  apply (list_elem_of_lookup_2 _ j). by rewrite list_lookup_fmap, Hj.
Qed.

Lemma elem_before n j b e : blocks !! j = Some b -> e ∈ fst b -> (j < n)%nat -> e ∈ entries_of (take n blocks).
Proof. intros Hj He Hn. eapply (elem_entries _ j b); [|done]. by rewrite lookup_take_lt by lia. Qed.

Lemma elem_after n j b e : blocks !! j = Some b -> e ∈ fst b -> (n <= j)%nat -> e ∈ entries_of (drop n blocks).
Proof.
  intros Hj He Hn. eapply (elem_entries _ (j - n) b); [|done]. rewrite lookup_drop. by replace (n + (j - n))%nat with j by lia.
Qed.

Lemma index_sorted : sorted_keys c ix /\ Forall (fun kh => dom (fst kh)) ix.
Proof.
  destruct Ht as (Hl & Hix & Hnd & Hne & _). rewrite Forall_forall in Hdom. split.
  - intros i j a b Hij Ha Hb. destruct (ir_keys _ _ _ _ _ Hix i a Ha) as (Hda & _ & Hgt).
    destruct (ir_keys _ _ _ _ _ Hix j b Hb) as (Hdb & Hle & _). destruct (index_block j b Hb) as (bl & Hbl & _).
    pose proof (Forall_lookup_1 _ _ _ _ Hne Hbl) as Hbne. destruct (fst bl) as [|e l] eqn:E; [done|].
    assert (e ∈ fst bl) as He by (rewrite E; left).
    eapply (cmp_lt_le_trans (dom := dom) _ (fst e)); [done| |done| |].
    + apply Hdom. by eapply elem_entries.
    + apply Hgt. rewrite app_nil_r. eapply elem_after; [done..|lia].
    + apply Hle. eapply elem_before; [done..|lia].
  - apply Forall_lookup. intros i kh Hi. by destruct (ir_keys _ _ _ _ _ Hix i kh Hi).
Qed.

Lemma index_weight : weight 19 ix < 2 ^ 31.
Proof.
  destruct Ht as (Hl & Hix & _). pose proof (ir_size _ _ _ _ _ Hix) as H. rewrite Hl, firstn_all in H. lia.
Qed.

(** *** Table::Open *)
Lemma read_stored v h raw : stored content h raw -> len raw < 2 ^ 32 - 1 ->
  exists bc, ReadBlock file v h = (OK, bc) /\ bc_data bc = raw.
Proof. intros Hst Hr. by eapply ReadBlock_stored. Qed.

Lemma stored_handle_ok h raw : stored content h raw -> handle_ok h.
Proof. intros H%stored_handle. unfold kBlockTrailerSize in H. split; lia. Qed.

Definition same_table (t t' : Table) : Prop :=
  tb_file t' = tb_file t /\ tb_cache_id t' = tb_cache_id t /\ tb_index_block t' = tb_index_block t /\
  tb_metaindex_handle t' = tb_metaindex_handle t.

Lemma ReadMeta_ok t footer fh : tb_file t = file ->
  stored content (metaindex_handle footer) (raw_block interval (meta_entries options fh)) ->
  exists t', ReadMeta options t footer = Some t' /\ same_table t t'.
Proof.
  intros Hf Hst. unfold ReadMeta, meta_entries in *. destruct (o_filter_policy options) as [[name policy]|]; [|by exists t].
  set (l := [(bytes_of_string "filter." ++ name, BlockHandle_EncodeTo [] fh)]) in *.
  assert (weight 19 l < 2 ^ 31) as Hw.
  { unfold l. rewrite weight_one, len_app. change (len (bytes_of_string "filter.")) with 7.
    pose proof (len_BlockHandle fh). unfold kMaxEncodedLength in *. lia. }
  pose proof (len_raw_block interval l) as Hraw. rewrite Hf.
  destruct (read_stored false _ _ Hst ltac:(lia)) as (bc & -> & ->). cbn [ok negb].
  destruct (built_block_ok BytewiseComparator all_keys BytewiseComparator_ok interval l) as (it & R & E & HI & Hn).
  { intros [|i] [|j] a b Hij Ha Hb; try lia; done. }
  { repeat constructor. }
  { by apply (weight_sized 19); lia. }
  { fold (raw_block interval l). lia. }
  fold (raw_block interval l) in E. rewrite E.
  destruct (io_seek (I := BlockIter BytewiseComparator) it None (bytes_of_string "filter." ++ name) Hn Logic.I) as (it' & Es & _).
  cbn [Seek SumIterator]. rewrite Es. cbn [fmap option_fmap option_map mbind option_bind].
  destruct (Valid _ _ && _); [|eexists; split; [reflexivity|]; by repeat split].
  eexists. split; [reflexivity|]. unfold ReadFilter. destruct (BlockHandle_DecodeFrom _ _) as [[s h] rest].
  destruct (negb (ok s)); [by repeat split|]. destruct (ReadBlock _ _ _) as [s' b]. destruct (negb (ok s')); by repeat split.
Qed.

Lemma Open_ok cache_id : exists t, Open options file (len content) cache_id = Some (OK, Some t) /\
  tb_file t = file /\ tb_cache_id t = cache_id /\ tb_index_block t = new_Block (raw_block 1 ix).
Proof.
  destruct Ht as (_ & _ & _ & _ & _ & pre & footer & fh & Ec & Hmeta & Hindex).
  destruct (Footer_roundtrip footer (stored_handle_ok _ _ Hmeta) (stored_handle_ok _ _ Hindex)) as [Hfl Hfd].
  unfold Open. pose proof (len_nonneg pre) as Hpre.
  assert (len content = len pre + Footer_kEncodedLength) as El by (rewrite Ec, len_app, Hfl; done).
  rewrite (proj2 (Z.ltb_ge _ _)) by (rewrite El; lia).
  destruct (Hfile (len content - Footer_kEncodedLength) Footer_kEncodedLength) as [b ->]; [lia|done|lia|]. cbn [ok negb].
  assert (take (Z.to_nat Footer_kEncodedLength) (drop (Z.to_nat (len content - Footer_kEncodedLength)) content)
    = Footer_EncodeTo [] footer) as ->.
  { rewrite El, Z.add_simpl_r, Ec, drop_len_app by apply to_nat_len. rewrite <- Hfl, to_nat_len. by apply take_ge. }
  rewrite Hfd. cbn [ok negb]. pose proof index_weight. pose proof (len_raw_block 1 ix) as Hraw.
  destruct (read_stored false _ _ Hindex ltac:(lia)) as (bc & -> & ->). cbn [ok].
  set (t0 := {| tb_file := file; tb_cache_id := _; tb_filter := _; tb_metaindex_handle := _; tb_index_block := _ |}).
  destruct (ReadMeta_ok t0 footer fh eq_refl Hmeta) as (t' & -> & E1 & E2 & E3 & _). by exists t'.
Qed.

(** *** Blocks by their handles *)
Definition contents (h : bytes) : list entry :=
  match list_find (fun b => BlockHandle_EncodeTo [] (snd b) = h) blocks with Some (_, b) => fst b | None => [] end.

Lemma stored_block b : b ∈ blocks -> stored content (snd b) (raw_block interval (fst b)).
Proof. destruct Ht as (_ & _ & _ & _ & Hst & _). rewrite Forall_forall in Hst. apply Hst. Qed.

Lemma contents_block b : b ∈ blocks -> contents (BlockHandle_EncodeTo [] (snd b)) = fst b.
Proof.
  intros Hb. unfold contents. pose proof Hb as [j Hj]%list_elem_of_lookup.
  destruct (list_find _ blocks) as [[i b']|] eqn:E.
  - apply list_find_Some in E as (Hi & E & _). enough (b' = b) by congruence.
    assert (b' ∈ blocks) as Hb' by by eapply list_elem_of_lookup_2.
    pose proof (BlockHandle_roundtrip (snd b) new_BlockHandle [] (stored_handle_ok _ _ (stored_block b Hb))) as R1.
    pose proof (BlockHandle_roundtrip (snd b') new_BlockHandle [] (stored_handle_ok _ _ (stored_block b' Hb'))) as R2.
    rewrite E, R1 in R2. injection R2 as R2. destruct Ht as (_ & _ & Hnd & _).
    assert (i = j) as ->.
    { eapply (NoDup_lookup (map snd blocks)); [done|..]; rewrite list_lookup_fmap; [by rewrite Hi|by rewrite Hj; simpl; rewrite R2]. }
    congruence.
  - apply list_find_None in E. rewrite Forall_forall in E. by destruct (E b Hb).
Qed.

Lemma index_handles : map snd ix = map (fun b => BlockHandle_EncodeTo [] (snd b)) blocks.
Proof. destruct Ht as (Hl & Hix & _). by rewrite (ir_handles _ _ _ _ _ Hix), Hl, firstn_all. Qed.

Lemma handle_block h : h ∈ map snd ix -> exists b, b ∈ blocks /\ h = BlockHandle_EncodeTo [] (snd b) /\ contents h = fst b.
Proof.
  rewrite index_handles. intros (b & -> & Hb)%list_elem_of_fmap. exists b. split; [done|]. split; [done|].
  by apply contents_block.
Qed.

Lemma contents_all : all_entries (map snd ix) contents = es.
Proof.
  unfold all_entries. f_equal. rewrite index_handles, !map_map. apply map_ext_in. intros b Hb%list_elem_of_In.
  by apply contents_block.
Qed.

Lemma index_keys_separate : keys_separate c ix contents.
Proof.
  destruct Ht as (_ & Hix & _). intros i kh Hi. destruct (ir_keys _ _ _ _ _ Hix i kh Hi) as (Hd & Hle & Hgt). split.
  - intros e He. destruct (index_block i kh Hi) as (b & Hb & E). rewrite E, contents_block in He by (by eapply list_elem_of_lookup_2).
    apply Hle. eapply elem_before; [done..|lia].
  - intros j kh' e Hij Hj He. destruct (index_block j kh' Hj) as (b & Hb & E).
    rewrite E, contents_block in He by (by eapply list_elem_of_lookup_2). apply Hgt. rewrite app_nil_r.
    eapply elem_after; [done..|lia].
Qed.

Lemma contents_dom kh : kh ∈ ix -> Forall (fun e => dom (fst e)) (contents (snd kh)).
Proof.
  intros [i Hi]%list_elem_of_lookup. destruct (index_block i kh Hi) as (b & Hb & ->).
  assert (b ∈ blocks) as Hin by by eapply list_elem_of_lookup_2. rewrite contents_block by done.
  destruct (es_split b Hin) as (l1 & l2 & E). rewrite E in Hdom. apply Forall_app in Hdom as [_ H]. by apply Forall_app in H as [? _].
Qed.

(** *** The block cache *)
Context (t : Table) (Htf : tb_file t = file) (Hti : tb_index_block t = new_Block (raw_block 1 ix)).

(** The cache holds nothing, or the right blocks, under the table's keys. *)
Definition cache_coherent (cache : option (bytes -> option Block)) : Prop :=
  forall lookup b, cache = Some lookup -> b ∈ blocks ->
    lookup (cache_key (tb_cache_id t) (bh_offset (snd b))) = None \/
    lookup (cache_key (tb_cache_id t) (bh_offset (snd b))) = Some (new_Block (raw_block interval (fst b))).

(** BlockReader opens the right block, from the file or from the cache, and
    what it inserts into the cache keeps it coherent. *)
Lemma BlockReader_block cache ro b : cache_coherent cache -> b ∈ blocks ->
  fst (BlockReader options t cache ro (BlockHandle_EncodeTo [] (snd b))) = NewBlockIterator (new_Block (raw_block interval (fst b))) /\
  forall k blk, snd (BlockReader options t cache ro (BlockHandle_EncodeTo [] (snd b))) = Some (k, blk) ->
    k = cache_key (tb_cache_id t) (bh_offset (snd b)) /\ blk = new_Block (raw_block interval (fst b)).
Proof.
  intros Hcc Hb. unfold BlockReader.
  rewrite <- (app_nil_r (BlockHandle_EncodeTo [] (snd b))), BlockHandle_roundtrip by (eapply stored_handle_ok, stored_block, Hb).
  cbn [ok negb]. rewrite Htf. pose proof (weight_concat_In b Hb) as Hwb. pose proof (weight_le 19 64 (fst b) ltac:(lia)) as Hw19.
  pose proof (len_raw_block interval (fst b)) as Hraw.
  destruct (read_stored (verify_checksums ro) _ _ (stored_block b Hb) ltac:(lia)) as (bc & E & Ed).
  destruct cache as [lookup|].
  - destruct (Hcc lookup b eq_refl Hb) as [-> | ->]; [|done]. rewrite E. cbn [ok]. rewrite Ed. split; [done|].
    cbn [snd]. intros k blk. by destruct (bc_cachable bc && fill_cache ro); intros [= <- <-].
  - rewrite E. cbn [ok]. by rewrite Ed.
Qed.

(** *** Iterators and lookups *)
Lemma index_iterator : exists it, NewBlockIterator (tb_index_block t) = inr it /\ some_rel D c dom ix (inr it) None.
Proof.
  rewrite Hti. destruct index_sorted as [Hs Hd]. pose proof index_weight. by apply block_ok; [..|lia].
Qed.

(** The states of the table's iterators, by their positions. *)
Definition table_rel : TwoLevelIterator D D -> pos -> Prop :=
  two_rel D D (map snd ix) contents (some_rel D c dom ix) (fun h => some_rel D c dom (contents h)).

Lemma index_separates_blocks : index_separates c dom (map snd ix) contents (seek_pos c ix).
Proof.
  apply keys_separate_index; [done| |apply index_keys_separate]. destruct index_sorted as [_ Hd].
  apply Forall_forall. intros kh Hkh. rewrite Forall_forall in Hd. split; [by apply Hd|by apply contents_dom].
Qed.

Lemma TableIterator_ok cache ro fuel : cache_coherent cache -> (length blocks + 2 < fuel)%nat ->
  IterOk (TableIterator options t cache ro fuel) c dom es table_rel /\ table_rel (NewTableIterator options t) None.
Proof.
  intros Hcc Hfuel. assert (length (map snd ix) = length blocks) as El by (by rewrite index_handles, length_map). split.
  - rewrite <- contents_all. apply (TwoLevel_ok c dom D D _ (map snd ix) contents (seek_pos c ix)).
    + apply IterOk_index, _.
    + intros h _. apply _.
    + intros h (b & Hb & -> & ->)%handle_block. destruct (BlockReader_block cache ro b Hcc Hb) as [-> _].
      destruct (data_block_ok b Hb) as (it & -> & Hit). done.
    + lia.
    + apply index_separates_blocks.
  - destruct index_iterator as (it & E & Hit). unfold NewTableIterator. rewrite E. by apply new_TwoLevelIterator_ok.
Qed.

(** The entry a seek of the whole table finds. *)
Definition seek_kv (l : list entry) (k : bytes) : option entry := i ← seek_pos c l k; l !! i.

(** The entry given to the saver: the one a seek finds, or none when that one
    starts a block whose predecessor's index key is at or past [k]. *)
Definition get_finds (l : list entry) (k : bytes) (saved : option entry) : Prop :=
  saved = seek_kv l k \/
  (saved = None /\ exists a e, seek_kv l k = Some e /\ a ∈ l /\ e ∈ l /\ Compare c (fst a) k < 0 /\ Compare c (fst a) (fst e) < 0 /\
     Compare c k (FindShortestSeparator c (fst a) (fst e)) <= 0).

(** What the search of block [j] finds, where the index leads to it. *)
Lemma block_finds j kh b k : dom k -> seek_pos c ix k = Some j -> ix !! j = Some kh -> blocks !! j = Some b ->
  get_finds es k (seek_kv (fst b) k).
Proof.
  intros Hk Hj Hkh Hb. destruct Ht as (_ & Hix & _).
  pose proof (index_separates_blocks k Hk) as Hsep. rewrite Hj in Hsep. destruct Hsep as (_ & Hbefore & Hafter).
  assert (forall i b', blocks !! i = Some b' -> exists h, map snd ix !! i = Some h /\ contents h = fst b') as Hh.
  { intros i b' Hi. eexists. rewrite index_handles, list_lookup_fmap, Hi. split; [done|].
    by eapply contents_block, list_elem_of_lookup_2. }
  assert (es = entries_of (take j blocks) ++ fst b ++ entries_of (drop (S j) blocks)) as Ees.
  { rewrite <- (take_drop_middle blocks j b Hb) at 1. by rewrite map_app, concat_app. }
  assert (seek_pos c es k = match seek_pos c (fst b) k with
    | Some n => Some (length (entries_of (take j blocks)) + n)%nat
    | None => at_count es (length (entries_of (take j blocks)) + length (fst b))
    end) as Hpos.
  { rewrite Ees. apply seek_split; apply Forall_concat, Forall_lookup; intros i l Hi; rewrite list_lookup_fmap in Hi.
    - destruct (take j blocks !! i) as [b'|] eqn:E; [|done]. injection Hi as <-. apply lookup_take_Some in E as [E Hlt].
      destruct (Hh i b' E) as (h & Eh & <-). apply Forall_forall. intros e. by apply (Hbefore i).
    - destruct (drop (S j) blocks !! i) as [b'|] eqn:E; [|done]. injection Hi as <-. rewrite lookup_drop in E.
      destruct (Hh _ b' E) as (h & Eh & <-). apply Forall_forall. intros e. apply (Hafter (S j + i)%nat); [lia|done]. }
  unfold get_finds, seek_kv. rewrite Hpos. destruct (seek_pos c (fst b) k) as [n|] eqn:En; cbn [mbind option_bind].
  { left. apply seek_pos_Some in En as (kv & Hn & _). rewrite Hn, Ees. symmetry.
    rewrite lookup_app_r by lia. rewrite lookup_app_l by (apply lookup_lt_Some in Hn; lia).
    by replace (length (entries_of (take j blocks)) + n - length (entries_of (take j blocks)))%nat with n by lia. }
  unfold at_count. destruct (decide _) as [Hlt|]; [|by left]. right. split; [done|]. cbn [mbind option_bind].
  destruct (entries_of (drop (S j) blocks)) as [|e rest] eqn:Erest.
  { rewrite Ees, !length_app in Hlt. simpl in Hlt. lia. }
  assert (es !! (length (entries_of (take j blocks)) + length (fst b))%nat = Some e) as He.
  { rewrite Ees. rewrite app_assoc, lookup_app_r by (rewrite length_app; lia). by rewrite length_app, Nat.sub_diag. }
  destruct (ir_made _ _ _ _ _ Hix j kh Hkh) as (a & Ha & Hm). rewrite Erest in Hm. simpl in Hm.
  apply seek_pos_Some in Hj as (kh' & Hkh' & Hge & _). rewrite Hkh in Hkh'. injection Hkh' as <-.
  pose proof Ha as [i Hi]%last_Some_elem_of%list_elem_of_lookup.
  assert (es !! i = Some a) as Hia by (rewrite (es_cut j); by apply lookup_app_l_Some).
  assert (entries_of (take (S j) blocks) = entries_of (take j blocks) ++ fst b) as Etake.
  { rewrite (take_S_r _ _ b Hb), map_app, concat_app. simpl. by rewrite app_nil_r. }
  assert (Compare c (fst a) (fst e) < 0) as Hae.
  { eapply (Hsorted i); [|done..]. apply lookup_lt_Some in Hi. by rewrite Etake, length_app in Hi. }
  exists a, e. split; [done|]. split; [by eapply list_elem_of_lookup_2|]. split; [by eapply list_elem_of_lookup_2|].
  split; [|split; [done|]].
  - assert (a ∈ fst b) as Hab.
    { rewrite Etake, last_app in Ha. destruct (last (fst b)) as [a'|] eqn:El.
      - injection Ha as <-. by apply last_Some_elem_of.
      - apply last_None in El. destruct Ht as (_ & _ & _ & Hne & _). by destruct (Forall_lookup_1 _ _ _ _ Hne Hb). }
    apply seek_pos_None in En. rewrite Forall_forall in En. by apply En.
  - rewrite <- Hm. apply (cmp_ge_le (dom := dom)); [|done..]. by destruct (ir_keys _ _ _ _ _ Hix j kh Hkh).
Qed.

Lemma some_rel_entry l s p : some_rel D c dom l s p ->
  (if Valid D s then Some (Iterator.key D s, Iterator.value D s) else None) = (i ← p; l !! i).
Proof.
  intros H. rewrite (io_valid s p H). destruct p as [i|]; [|done]. cbn [mbind option_bind]. by rewrite (io_entry s i H).
Qed.

Lemma some_rel_status l s p : some_rel D c dom l s p -> Iterator.status D s = OK.
Proof. intros H. pose proof (io_status s p H) as E. by destruct (Iterator.status D s). Qed.

Lemma InternalGet_ok cache ro k : cache_coherent cache -> dom k ->
  exists saved, InternalGet options t cache ro k = Some (OK, saved) /\ get_finds es k saved.
Proof.
  intros Hcc Hk. unfold InternalGet. destruct index_iterator as (it & -> & Hit).
  destruct (io_seek (inr it : St D) None k Hit Hk) as (it1 & -> & Hit1). cbn [mbind option_bind].
  rewrite (some_rel_status _ _ _ Hit1). pose proof (io_valid it1 _ Hit1) as Hv. destruct (seek_pos c ix k) as [j|] eqn:Ej.
  - rewrite Hv. pose proof (io_entry it1 j Hit1) as Hkh. destruct (index_block j _ Hkh) as (b & Hb & Eh). cbn [snd] in Eh.
    rewrite Eh. assert (b ∈ blocks) as Hin by by eapply list_elem_of_lookup_2.
    destruct (BlockHandle_DecodeFrom _ _) as [[s h] rest]. cbn [negb andb].
    destruct (BlockReader_block cache ro b Hcc Hin) as [-> _]. destruct (data_block_ok b Hin) as (it2 & -> & Hit2).
    destruct (io_seek (inr it2 : St D) None k Hit2 Hk) as (it3 & -> & Hit3). cbn [mbind option_bind].
    rewrite (some_rel_status _ _ _ Hit3), (some_rel_entry _ _ _ Hit3). cbn [ok]. eexists. split; [done|].
    by eapply block_finds.
  - rewrite Hv. cbn [mbind option_bind ok]. exists None. split; [done|]. left. symmetry.
    pose proof (index_separates_blocks k Hk) as Hsep. rewrite Ej in Hsep. unfold seek_kv.
    replace (seek_pos c es k) with (@None nat); [done|]. symmetry. apply seek_pos_None. rewrite <- contents_all.
    apply Forall_concat, Forall_map, Forall_forall. intros h Hh. apply Forall_forall. intros e. by apply Hsep.
Qed.

(** ApproximateOffsetOf gives where the block of the key begins, or where the
    data ends. *)
Lemma ApproximateOffsetOf_ok k : dom k ->
  ApproximateOffsetOf options t k =
    Some (match i ← seek_pos c ix k; blocks !! i with Some b => bh_offset (snd b) | None => bh_offset (tb_metaindex_handle t) end).
Proof.
  intros Hk. unfold ApproximateOffsetOf. destruct index_iterator as (it & -> & Hit).
  destruct (io_seek (inr it : St D) None k Hit Hk) as (it1 & -> & Hit1). cbn [mbind option_bind].
  pose proof (io_valid it1 _ Hit1) as Hv. destruct (seek_pos c ix k) as [j|]; rewrite Hv; [|done].
  destruct (index_block j _ (io_entry it1 j Hit1)) as (b & Hb & Eh). cbn [snd] in Eh. rewrite Eh. cbn [mbind option_bind]. rewrite Hb.
  rewrite <- (app_nil_r (BlockHandle_EncodeTo [] (snd b))), BlockHandle_roundtrip; [done|].
  by eapply stored_handle_ok, stored_block, list_elem_of_lookup_2.
Qed.
End Reading.

(** ** Separators are short *)
Definition short_keys (c : Comparator) : Prop :=
  (forall a b, len (FindShortestSeparator c a b) <= len a) /\ (forall a, len (FindShortSuccessor c a) <= len a).

Lemma len_take_le {A} n (l : list A) : len (take n l) <= len l.
Proof. unfold len. rewrite length_take. lia. Qed.

Lemma BytewiseComparator_short : short_keys BytewiseComparator.
Proof.
  split; cbn [FindShortestSeparator FindShortSuccessor BytewiseComparator].
  - intros a b. unfold bytewise_FindShortestSeparator. destruct (Nat.leb_spec (Nat.min (length a) (length b)) (common_prefix a b)); [done|].
    destruct (_ && _); [|done]. rewrite len_app. change (len [_]) with 1. unfold len. rewrite length_take. lia.
  - intros a. unfold bytewise_FindShortSuccessor.
    enough (forall d, len (bytewise_successor_loop d a) <= len d + len a) as H by apply (H []).
    induction a as [|x a IH]; intros d; simpl; [rewrite len_nil; lia|]. rewrite len_cons. destruct (negb _).
    + rewrite len_app. change (len [_]) with 1. pose proof (len_nonneg a). lia.
    + specialize (IH (d ++ [x])). rewrite len_app in IH. change (len [x]) with 1 in IH. lia.
Qed.

Lemma InternalKeyComparator_short ucmp : short_keys (InternalKeyComparator ucmp).
Proof.
  assert (forall a, len (ExtractUserKey a) = Z.max 0 (len a - 8)) as Hu.
  { intros a. unfold ExtractUserKey, len. rewrite length_take. lia. }
  split; cbn [FindShortestSeparator FindShortSuccessor InternalKeyComparator];
    unfold ikc_FindShortestSeparator, ikc_FindShortSuccessor; intros a.
  - intros b. destruct (Z.ltb_spec (len (FindShortestSeparator ucmp (ExtractUserKey a) (ExtractUserKey b))) (len (ExtractUserKey a)));
      [|done]. destruct (_ <? 0); [|done]. unfold PutFixed64. simpl. rewrite len_app, len_EncodeFixed64. rewrite Hu in *.
    pose proof (len_nonneg (FindShortestSeparator ucmp (ExtractUserKey a) (ExtractUserKey b))). lia.
  - destruct (Z.ltb_spec (len (FindShortSuccessor ucmp (ExtractUserKey a))) (len (ExtractUserKey a)));
      [|done]. destruct (_ <? 0); [|done]. unfold PutFixed64. simpl. rewrite len_app, len_EncodeFixed64. rewrite Hu in *.
    pose proof (len_nonneg (FindShortSuccessor ucmp (ExtractUserKey a))). lia.
Qed.

(** A key past an entry and at or before its separator from the next entry is
    not of that next entry's user key. *)
Lemma separator_other_user ucmp `{!ComparatorOk ucmp all_keys} a k e :
  Compare (InternalKeyComparator ucmp) a k < 0 ->
  Compare (InternalKeyComparator ucmp) a e < 0 ->
  Compare (InternalKeyComparator ucmp) k (FindShortestSeparator (InternalKeyComparator ucmp) a e) <= 0 ->
  ExtractUserKey e <> ExtractUserKey k.
Proof.
  intros Hak Hae Hks E. cbn [FindShortestSeparator InternalKeyComparator] in Hks. unfold ikc_FindShortestSeparator in Hks.
  set (tmp := FindShortestSeparator ucmp (ExtractUserKey a) (ExtractUserKey e)) in *.
  destruct ((len tmp <? len (ExtractUserKey a)) && (Compare ucmp (ExtractUserKey a) tmp <? 0)) eqn:Ec.
  - apply andb_true_iff in Ec as [H1%Z.ltb_lt H2%Z.ltb_lt]. apply ikc_user_le in Hks. destruct (shortened_key tmp) as [_ Etmp].
    cbv zeta in Etmp. rewrite Etmp, <- E in Hks.
    assert (Compare ucmp (ExtractUserKey a) (ExtractUserKey e) < 0) as Hlt.
    { assert (Compare ucmp (ExtractUserKey a) (ExtractUserKey e) <= 0) as Hle by (apply ikc_user_le; lia).
      destruct (Z.eq_dec (Compare ucmp (ExtractUserKey a) (ExtractUserKey e)) 0) as [E0|]; [|lia].
      apply (cmp_eq (dom := all_keys)) in E0; [|done..]. unfold tmp in H1.
      rewrite <- E0, (cmp_separator_same (dom := all_keys)) in H1 by done. lia. }
    destruct (cmp_separator (dom := all_keys) (ExtractUserKey a) (ExtractUserKey e)) as (_ & _ & Hs); [done..|].
    fold tmp in Hs. apply (cmp_ge_le (dom := all_keys)) in Hks; [lia|done..].
  - apply ikc_anti in Hak. lia.
Qed.

(** For internal keys the entry left out is one of another user key. *)
Lemma get_finds_internal options ucmp `{!ComparatorOk ucmp all_keys} es k saved :
  o_comparator options = InternalKeyComparator ucmp -> get_finds options es k saved ->
  saved = seek_kv options es k \/
  (saved = None /\ forall e, seek_kv options es k = Some e -> ExtractUserKey (fst e) <> ExtractUserKey k).
Proof.
  intros Ec [->|(-> & a & e & Hs & _ & _ & Hak & Hae & Hks)]; [by left|]. right. split; [done|]. intros e'. rewrite Hs.
  intros [= <-]. rewrite Ec in *. by eapply separator_other_user.
Qed.

(** ** A file that does not fail *)
Section Clean.
Context `{Hsnappy : !Snappy} (options : TableOptions).

(** Nothing has failed and nothing will. *)
Definition clean (r : TableBuilder) : Prop := wf_script (r_file r) = [] /\ r_status r = OK.

Lemma WriteRawBlock_clean r data type : clean r -> clean (fst (WriteRawBlock r data type)).
Proof. intros [Hs _]. unfold WriteRawBlock, Append, next_status. rewrite Hs. by split. Qed.

Lemma WriteBlock_clean r b r' h : clean r -> WriteBlock options r b = Some (r', h) -> clean r'.
Proof.
  intros Hr. unfold WriteBlock. destruct (block_to_write _ _) as [[data type]|]; [|done]. cbn [mbind option_bind]. intros [= E].
  pose proof (WriteRawBlock_clean r data type Hr) as H. by rewrite E in H.
Qed.

Lemma Flush_clean r r' : clean r -> Flush options r = Some r' -> clean r'.
Proof.
  intros Hr. unfold Flush, builder_ok. rewrite (proj2 Hr). cbn [ok OK negb]. destruct (bb_empty _); [by intros [= <-]|].
  destruct (WriteBlock _ _ _) as [[r1 h]|] eqn:E; [|done]. destruct (WriteBlock_clean _ _ _ _ Hr E) as [Hs1 Hok1].
  cbn [mbind option_bind]. cbn [r_status with_pending with_data_block]. rewrite Hok1. cbn [ok OK].
  unfold Flush_file, next_status. cbn [r_file with_pending with_data_block]. rewrite Hs1. intros [= <-].
  by repeat case_match.
Qed.

Lemma Add_clean r k v r' : clean r -> Add options r k v = Some r' -> clean r'.
Proof.
  intros Hr. unfold Add, builder_ok. rewrite (proj2 Hr). cbn [ok OK negb]. set (r1 := with_entry _ _ _).
  assert (clean r1) as Hr1 by (unfold clean, r1; destruct (r_pending_index_entry r); exact Hr).
  destruct (_ <=? _); [by apply Flush_clean|by intros [= <-]].
Qed.

Lemma add_all_clean es : forall r r', clean r -> add_all options r es = Some r' -> clean r'.
Proof.
  unfold add_all. induction es as [|[k v] es IH] using rev_ind; intros r r' Hr; [by intros [= <-]|].
  rewrite foldl_app. destruct (foldl _ (Some r) es) as [r1|] eqn:E; [|done]. simpl. apply Add_clean. by eapply IH.
Qed.

Lemma Finish_clean r s r' : clean r -> Finish options r = Some (s, r') -> s = OK /\ clean r'.
Proof.
  intros Hr. unfold Finish, builder_ok. destruct (Flush options r) as [r1|] eqn:E1; [|done]. cbn [mbind option_bind].
  pose proof (Flush_clean _ _ Hr E1) as Hr1.
  destruct (match r_filter_block (close r1) with Some _ => _ | None => _ end) as [r2 fh] eqn:E2.
  assert (clean r2) as Hr2.
  { revert E2. pose proof (WriteRawBlock_clean (close r1)) as Hw. repeat case_match; intros E2; try (injection E2 as <- <-; exact Hr1).
    apply (f_equal fst) in E2. simpl in E2. subst r2. by apply Hw. }
  rewrite (proj2 Hr2). cbn [ok OK]. destruct (WriteBlock options r2 _) as [[r3 mh]|] eqn:E3; [|done]. cbn [mbind option_bind].
  pose proof (WriteBlock_clean _ _ _ _ Hr2 E3) as Hr3. rewrite (proj2 Hr3). cbn [ok OK].
  set (r4 := if r_pending_index_entry r3 then _ else r3).
  assert (clean r4) as Hr4 by (unfold clean, r4; destruct (r_pending_index_entry r3); exact Hr3).
  destruct (WriteBlock options r4 _) as [[r5 ih]|] eqn:E5; [|done]. cbn [mbind option_bind].
  destruct (WriteBlock_clean _ _ _ _ Hr4 E5) as [Hs5 Hok5]. cbn [r_status with_index_block]. rewrite Hok5. cbn [ok OK].
  unfold Append, next_status. cbn [r_file with_index_block]. rewrite Hs5. by intros [= <- <-].
Qed.
End Clean.

(** *** Every failure is reported *)
Section Accounted.
Context `{Hsnappy : !Snappy} (options : TableOptions).

(** The calls on the file have taken [used] from [script], and the builder's
    status is OK exactly when all of them succeeded. *)
Definition accounted (script : list Status) (file : WritableFile) (s : Status) : Prop :=
  exists used, script = used ++ wf_script file /\ (ok s = true <-> Forall (fun a => ok a = true) used).

Lemma accounted_call script f s contents : accounted script f s -> ok s = true ->
  accounted script {| wf_contents := contents; wf_script := tail (wf_script f) |} (next_status f).
Proof.
  intros (used & E & Hs) Hok. unfold next_status. destruct (wf_script f) as [|a rest] eqn:Ef; cbn [tail].
  - exists used. split; [done|]. split; [intros _; by apply Hs|done].
  - exists (used ++ [a]). cbn [wf_script]. split; [by rewrite <- app_assoc|]. rewrite Forall_app, Forall_singleton. split; [|by intros [_ ?]]. intros Ha. split; [by apply Hs|done].
Qed.

Notation fair script r := (accounted script (r_file r) (r_status r)).

Lemma WriteRawBlock_accounted script r data type : fair script r -> ok (r_status r) = true -> fair script (fst (WriteRawBlock r data type)).
Proof.
  intros Hr Hok. unfold WriteRawBlock, Append. pose proof (accounted_call script (r_file r) (r_status r) (if ok (next_status (r_file r)) then wf_contents (r_file r) ++ data else wf_contents (r_file r)) Hr Hok) as H1.
  destruct (ok (next_status (r_file r))) eqn:E; cbn [fst r_file r_status with_file]; [|done]. by eapply accounted_call.
Qed.

Lemma WriteBlock_accounted script r b r' h : fair script r -> ok (r_status r) = true -> WriteBlock options r b = Some (r', h) -> fair script r'.
Proof.
  intros Hr Hok. unfold WriteBlock. destruct (block_to_write _ _) as [[data type]|]; [|done]. cbn [mbind option_bind]. intros [= E].
  pose proof (WriteRawBlock_accounted script r data type Hr Hok) as H. by rewrite E in H.
Qed.

Lemma Flush_accounted script r r' : fair script r -> Flush options r = Some r' -> fair script r'.
Proof.
  intros Hr. unfold Flush, builder_ok. destruct (ok (r_status r)) eqn:Hok; cbn [negb]; [|by intros [= <-]]. destruct (bb_empty _); [by intros [= <-]|].
  destruct (WriteBlock _ _ _) as [[r1 h]|] eqn:E; [|done]. pose proof (WriteBlock_accounted _ _ _ _ _ Hr Hok E) as H1. cbn [mbind option_bind]. intros [= <-].
  cbn [r_status with_pending with_data_block]. destruct (ok (r_status r1)) eqn:Hok1; cbn zeta.
  - unfold Flush_file. cbn [r_file with_pending with_data_block].
    pose proof (accounted_call script (r_file r1) (r_status r1) (wf_contents (r_file r1)) H1 Hok1) as H2. repeat case_match; exact H2.
  - repeat case_match; exact H1.
Qed.

Lemma Add_accounted script r k v r' : fair script r -> Add options r k v = Some r' -> fair script r'.
Proof.
  intros Hr. unfold Add. destruct (negb _); [by intros [= <-]|]. set (r1 := with_entry _ _ _).
  assert (fair script r1) as Hr1 by (unfold r1; destruct (r_pending_index_entry r); exact Hr).
  destruct (_ <=? _); [by apply Flush_accounted|by intros [= <-]].
Qed.

Lemma add_all_accounted script es : forall r r', fair script r -> add_all options r es = Some r' -> fair script r'.
Proof.
  unfold add_all. induction es as [|[k v] es IH] using rev_ind; intros r r' Hr; [by intros [= <-]|].
  rewrite foldl_app. destruct (foldl _ (Some r) es) as [r1|] eqn:E; [|done]. simpl. apply Add_accounted. by eapply IH.
Qed.

Lemma Finish_accounted script r s r' : fair script r -> Finish options r = Some (s, r') -> fair script r' /\ s = r_status r'.
Proof.
  intros Hr. unfold Finish, builder_ok. destruct (Flush options r) as [r1|] eqn:E1; [|done]. cbn [mbind option_bind].
  pose proof (Flush_accounted _ _ _ Hr E1) as Hr1.
  destruct (match r_filter_block (close r1) with Some _ => _ | None => _ end) as [r2 fh] eqn:E2.
  assert (fair script r2) as Hr2.
  { revert E2. pose proof (WriteRawBlock_accounted script (close r1)) as Hw. repeat case_match; intros E2; try (injection E2 as <- <-; exact Hr1).
    apply (f_equal fst) in E2. simpl in E2. subst r2. by apply Hw. }
  set (meta := if ok (r_status r2) then _ else _). destruct meta as [[r3 mh]|] eqn:E3; [|done]. cbn [mbind option_bind].
  assert (fair script r3) as Hr3.
  { subst meta. destruct (ok (r_status r2)) eqn:Hok; [by eapply WriteBlock_accounted|by injection E3 as <- _]. }
  set (index := if ok (r_status r3) then _ else _). destruct index as [[r5 ih]|] eqn:E5; [|done]. cbn [mbind option_bind].
  assert (fair script r5) as Hr5.
  { subst index. destruct (ok (r_status r3)) eqn:Hok; [|by injection E5 as <- _].
    set (r4 := if r_pending_index_entry r3 then _ else r3) in E5. assert (fair script r4 /\ ok (r_status r4) = true) as [Hr4 Hok4] by (unfold r4; destruct (r_pending_index_entry r3); done).
    destruct (WriteBlock options r4 _) as [[r6 h]|] eqn:E6; [|done]. cbn [mbind option_bind] in E5. injection E5 as <- _.
    exact (WriteBlock_accounted _ _ _ _ _ Hr4 Hok4 E6). }
  intros [= <- <-]. split; [|done]. destruct (ok (r_status r5)) eqn:Hok; [|done]. unfold Append. cbn [r_file r_status with_file]. by eapply accounted_call.
Qed.
End Accounted.

(** C4. Tables round-trip.  Entries added in ascending order to a TableBuilder
    (any block size, restart interval, filter policy and compression; total
    size below 2 GB) and Finish()ed give OK exactly when every Append and Flush
    that was made on the file succeeded.  Given OK, Table::Open on the file succeeds, and with
    any block cache whose blocks of this table are right, NewIterator is an
    iterator over exactly the entries added, and InternalGet hands the saver
    the first entry at or past the key, or nothing when that entry starts a
    block which the index shows to be past the key. *)
Theorem table_roundtrip `{Hsnappy : !Snappy} `{Hsnappyok : !SnappyOk} (options : TableOptions) (dom : bytes -> Prop)
    `{Hc : !ComparatorOk (o_comparator options) dom} (file : WritableFile) (es : list entry) :
  o_compression options = kNoCompression \/ o_compression options = kSnappyCompression ->
  short_keys (o_comparator options) ->
  match o_filter_policy options with Some (name, _) => len name < 2 ^ 30 | None => True end ->
  wf_contents file = [] ->
  sorted_keys (o_comparator options) es -> Forall (fun e => dom (fst e)) es -> weight 64 es < 2 ^ 31 ->
  exists r s r',
    add_all options (new_TableBuilder options file) es = Some r /\ Finish options r = Some (s, r') /\
    (exists used, wf_script file = used ++ wf_script (r_file r') /\ (s = OK <-> Forall (fun answer => answer = OK) used)) /\
    (s = OK -> len (wf_contents (r_file r')) < 2 ^ 63 ->
     exists blocks, concat (map fst blocks) = es /\
       forall raf cache_id, file_reads raf (wf_contents (r_file r')) ->
       exists t, Open options raf (len (wf_contents (r_file r'))) cache_id = Some (OK, Some t) /\
         forall cache ro, cache_coherent options blocks t cache ->
           (forall fuel, (length es + 2 < fuel)%nat ->
              exists R, IterOk (TableIterator options t cache ro fuel) (o_comparator options) dom es R /\
                        R (NewTableIterator options t) None) /\
           (forall k, dom k ->
              exists saved, InternalGet options t cache ro k = Some (OK, saved) /\ get_finds options es k saved)).
Proof.
  intros Hcomp Hshort Hname Hf Hs Hd Hw.
  destruct (add_all_ok options dom Hcomp Hshort file es Hf Hs Hd) as (r & Ea & Hr).
  assert (exists s r', Finish options r = Some (s, r') /\ (s = OK -> exists blocks ix,
    table_file options dom (wf_contents (r_file r')) blocks ix /\ concat (map fst blocks) = es)) as (s & r' & Ef & Hfin).
  { destruct (ok (r_status r)) eqn:Hok.
    - destruct (Hr eq_refl) as (blocks & ix & pend & Hrep & E). rewrite <- E in Hs, Hd.
      destruct (Finish_ok options dom Hcomp Hshort r blocks ix pend Hrep Hs Hd) as (s & r' & Ef & Hfin). exists s, r'. split; [done|].
      intros ->. destruct (Hfin eq_refl) as (blocks' & ix' & Ht & E'). exists blocks', ix'. by rewrite E', E.
    - destruct (Finish_failed options r Hok) as [r' E]. exists (r_status r), r'. split; [done|]. intros E'. by rewrite E' in Hok. }
  exists r, s, r'. split; [done|]. split; [done|]. split.
  { destruct (Finish_accounted options (wf_script file) r s r') as [(used & E & Hs') Es]; [|done|].
    - eapply add_all_accounted; [|exact Ea]. exists []. split; [done|]. by split.
    - exists used. split; [done|]. rewrite <- ok_iff, Es, Hs'. apply Forall_iff. intros a. apply ok_iff. }
  intros Es Hlen. destruct (Hfin Es) as (blocks & ix & Ht & <-). exists blocks. split; [done|]. intros raf cache_id Hraf.
  destruct (Open_ok options dom raf _ blocks ix Hraf Hlen Ht Hw Hname cache_id) as (t & Eo & Htf & _ & Hti).
  exists t. split; [done|]. intros cache ro Hcc. split.
  - intros fuel Hfuel. eexists.
    apply (TableIterator_ok options dom raf _ blocks ix Hraf Hlen Ht Hs Hd Hw t Htf Hti cache ro fuel Hcc).
    assert (length blocks <= length (concat (map fst blocks)))%nat; [|lia].
    destruct Ht as (_ & _ & _ & Hne & _). clear -Hne. induction Hne as [|[l h] blocks Hl _ IH]; simpl; [lia|]. simpl in Hl.
    rewrite length_app. destruct l; [done|]. simpl. lia.
  - intros k Hk. by apply (InternalGet_ok options dom raf _ blocks ix Hraf Hlen Ht Hs Hd Hw t Htf Hti).
Qed.

(** *** An example: three blocks of sixteen bytes and more *)

(** The build without SNAPPY: Snappy_Compress returns false. *)
#[export] Instance NoSnappy : Snappy :=
  {| Snappy_Compress _ := None; Snappy_GetUncompressedLength _ := None; Snappy_Uncompress _ := None |}.

#[export] Instance NoSnappy_ok : SnappyOk.
Proof. by split. Qed.

Definition example_options : TableOptions := {|
  o_comparator := BytewiseComparator; o_block_size := 16; o_block_restart_interval := 2;
  o_compression := kSnappyCompression; o_filter_policy := None |}.

Definition example_rows : list entry :=
  map (fun p => (bytes_of_string (fst p), bytes_of_string (snd p)))
    [("ab", "1"); ("abc", "22"); ("b", ""); ("c", "333"); ("ca", "4")]%string.

(** A file held in memory. *)
Definition memory_file (content : bytes) : RandomAccessFile :=
  fun offset n => (OK, take (Z.to_nat n) (drop (Z.to_nat offset) content), true).

Lemma table_roundtrip_witness :
  exists r r', add_all example_options (new_TableBuilder example_options {| wf_contents := []; wf_script := [] |}) example_rows = Some r /\
    Finish example_options r = Some (OK, r') /\
    exists t, Open example_options (memory_file (wf_contents (r_file r'))) (len (wf_contents (r_file r'))) 7 = Some (OK, Some t) /\
      (exists R, IterOk (TableIterator example_options t None {| verify_checksums := true; fill_cache := true |} 8)
         BytewiseComparator all_keys example_rows R) /\
      exists saved, InternalGet example_options t None {| verify_checksums := true; fill_cache := true |} (bytes_of_string "b"%string) =
        Some (OK, saved).
Proof.
  destruct (table_roundtrip example_options all_keys {| wf_contents := []; wf_script := [] |} example_rows)
    as (r & s & r' & Ea & Ef & Hs & Hok).
  - by right.
  - apply BytewiseComparator_short.
  - done.
  - done.
  - intros [|[|[|[|[|i]]]]] [|[|[|[|[|j]]]]] a b Hij Ha Hb; simpl in *; simplify_eq; try lia; reflexivity.
  - repeat constructor.
  - vm_compute. reflexivity.
  - destruct Hs as (used & Eu & Hs). destruct used; [|discriminate Eu]. assert (s = OK) as -> by (apply Hs; constructor).
    exists r, r'. split; [done|]. split; [done|]. destruct Hok as (blocks & _ & Hopen).
    + done.
    + clear Hs. vm_compute in Ea. injection Ea as <-. vm_compute in Ef. injection Ef as <-. vm_compute. reflexivity.
    + destruct (Hopen (memory_file (wf_contents (r_file r'))) 7) as (t & Et & Hread).
      { intros offset n _ _ _. by exists true. }
      exists t. split; [done|]. destruct (Hread None {| verify_checksums := true; fill_cache := true |}) as [Hiter Hget]; [done|].
      split.
      * destruct (Hiter 8%nat) as (R & HR & _); [vm_compute; lia|]. by exists R.
      * destruct (Hget (bytes_of_string "b"%string)) as (saved & E & _); [done|]. by exists saved.
Defined.
