(* ===== verification/WriteBatch.v ===== *)
(** * Write batches (db/write_batch.cc, include/pebblesdb/write_batch.h)

    A batch is a byte string: an eight-byte sequence number, a four-byte count
    and one record per operation.  The operations append records; Iterate
    decodes them for a handler; GuardInserter chooses, by hashing, the keys of a
    batch that become guards. *)

From Stdlib Require Import ZArith Lia Bool.
From Stdlib Require Import Strings.String.
From stdpp Require Import base list.
From S2P Require Import Prelude Coding Comparator DbFormat Status Hash.

Set Default Goal Selector "!".
Local Open Scope Z_scope.

Definition kHeader : Z := 12.

(** Conversion of a uint32_t to int. *)
Definition s32 (z : Z) : Z := if z <? 2 ^ 31 then z else z - 2 ^ 32.

(** [rep_] *)
Definition WriteBatch := bytes.

Definition Clear : WriteBatch := replicate (Z.to_nat kHeader) Byte.x00.

Definition Count (b : WriteBatch) : Z := s32 (DecodeFixed32 (drop 8 b)).

Definition SetCount (b : WriteBatch) (n : Z) : WriteBatch :=
  take 8 b ++ EncodeFixed32 (u32 n) ++ drop 12 b.

Definition Sequence (b : WriteBatch) : Z := DecodeFixed64 b.

Definition SetSequence (b : WriteBatch) (seq : Z) : WriteBatch :=
  EncodeFixed64 seq ++ drop 8 b.

Definition Put (b : WriteBatch) (key value : bytes) : WriteBatch :=
  let b := SetCount b (Count b + 1) in
  let b := b ++ [z2b kTypeValue] in
  let b := PutLengthPrefixedSlice b key in
  PutLengthPrefixedSlice b value.

Definition PutGuard (b : WriteBatch) (key : bytes) (level : Z) : WriteBatch :=
  let b := SetCount b (Count b + 1) in
  let b := b ++ [z2b kTypeGuard] in
  let b := PutLengthPrefixedSlice b key in
  PutVarint32 b (u32 level).

Definition Delete (b : WriteBatch) (key : bytes) : WriteBatch :=
  let b := SetCount b (Count b + 1) in
  let b := b ++ [z2b kTypeDeletion] in
  PutLengthPrefixedSlice b key.

Definition SetContents (contents : bytes) : WriteBatch := contents.

Definition Append (dst src : WriteBatch) : WriteBatch :=
  SetCount dst (Count dst + Count src) ++ drop (Z.to_nat kHeader) src.

(** ** Iterate *)

(** The virtual methods of WriteBatch::Handler, over the handler's state. *)
Record Handler (S : Type) := {
  h_Put : S -> bytes -> bytes -> S;
  h_Delete : S -> bytes -> S;
  h_HandleGuard : S -> bytes -> Z -> S;
}.
Arguments h_Put {S}.
Arguments h_Delete {S}.
Arguments h_HandleGuard {S}.

Section Iterate.
Context {S : Type} (handler : Handler S).

(** [None]: out of fuel, which does not happen with one unit per byte. *)
Fixpoint Iterate_loop (fuel : nat) (input : bytes) (found count : Z) (s : S) : option (Status * S) :=
  match fuel with
  | O => None
  | Datatypes.S fuel =>
      match input with
      | [] =>
          if negb (found =? count)
          then Some (Corruption (bytes_of_string "WriteBatch has wrong count"), s)
          else Some (OK, s)
      | tag :: input =>
          let found := found + 1 in
          let tag := schar tag in
          if tag =? kTypeValue then
            match GetLengthPrefixedSlice input with
            | Some (key, input) =>
                match GetLengthPrefixedSlice input with
                | Some (value, input) => Iterate_loop fuel input found count (h_Put handler s key value)
                | None => Some (Corruption (bytes_of_string "bad WriteBatch Put"), s)
                end
            | None => Some (Corruption (bytes_of_string "bad WriteBatch Put"), s)
            end
          else if tag =? kTypeDeletion then
            match GetLengthPrefixedSlice input with
            | Some (key, input) => Iterate_loop fuel input found count (h_Delete handler s key)
            | None => Some (Corruption (bytes_of_string "bad WriteBatch Delete"), s)
            end
          else if tag =? kTypeGuard then
            match GetLengthPrefixedSlice input with
            | Some (key, input) =>
                match GetVarint32 input with
                | Some (level, input) => Iterate_loop fuel input found count (h_HandleGuard handler s key level)
                | None => Some (Corruption (bytes_of_string "bad WriteBatch Guard"), s)
                end
            | None => Some (Corruption (bytes_of_string "bad WriteBatch Guard"), s)
            end
          else Some (Corruption (bytes_of_string "unknown WriteBatch tag"), s)
      end
  end.

Definition Iterate (b : WriteBatch) (s : S) : option (Status * S) :=
  if len b <? kHeader
  then Some (Corruption (bytes_of_string "malformed WriteBatch (too small)"), s)
  else Iterate_loop (Datatypes.S (length b)) (drop (Z.to_nat kHeader) b) 0 (Count b) s.
End Iterate.

(** ** GuardInserter *)

Definition top_level_bits : Z := 27.
Definition bit_decrement : Z := 2.

Definition guard_mask (num_bits : Z) : Z := Z.shiftl 1 num_bits - 1.

(** State: new_batch, sequence_ and num_guards, and whether an assert has failed. *)
Record GuardInserter := {
  gi_new_batch : WriteBatch;
  gi_sequence : Z;
  gi_num_guards : list Z;
  gi_failed : bool;
}.

(** [for (j = i; j < kNumLevels; j++)]: this level and all lower ones. *)
Fixpoint put_guards (fuel : nat) (j : Z) (key : bytes) (g : GuardInserter) : GuardInserter :=
  match fuel with
  | O => g
  | Datatypes.S fuel =>
      put_guards fuel (j + 1) key
        {| gi_new_batch := PutGuard (gi_new_batch g) key j; gi_sequence := gi_sequence g;
           gi_num_guards := alter (Z.add 1) (Z.to_nat j) (gi_num_guards g); gi_failed := gi_failed g |}
  end.

(** The loop over the levels, from the top; [fuel] levels are left. *)
Fixpoint guard_levels_loop (fuel : nat) (i num_bits hash_result : Z) (key : bytes) (g : GuardInserter) :
    GuardInserter :=
  match fuel with
  | O => g
  | Datatypes.S fuel' =>
      let bit_mask := guard_mask num_bits in
      if Z.land hash_result bit_mask =? bit_mask then put_guards fuel i key g
      else guard_levels_loop fuel' (i + 1) (num_bits - bit_decrement) hash_result key g
  end.

Definition murmur_seed : Z := 42.

Definition gi_Put (g : GuardInserter) (key value : bytes) : GuardInserter :=
  let hash_result := MurmurHash3_x86_32 key murmur_seed in
  let g := guard_levels_loop (Z.to_nat kNumLevels) 0 top_level_bits hash_result key g in
  {| gi_new_batch := gi_new_batch g; gi_sequence := u64 (gi_sequence g + 1);
     gi_num_guards := gi_num_guards g; gi_failed := gi_failed g |}.

Definition gi_Delete (g : GuardInserter) (key : bytes) : GuardInserter :=
  {| gi_new_batch := gi_new_batch g; gi_sequence := u64 (gi_sequence g + 1);
     gi_num_guards := gi_num_guards g; gi_failed := gi_failed g |}.

(** [assert(0)]: a batch given to SetGuards holds no guards. *)
Definition gi_HandleGuard (g : GuardInserter) (key : bytes) (level : Z) : GuardInserter :=
  {| gi_new_batch := gi_new_batch g; gi_sequence := gi_sequence g; gi_num_guards := gi_num_guards g; gi_failed := true |}.

Definition GuardInserter_handler : Handler GuardInserter :=
  {| h_Put := gi_Put; h_Delete := gi_Delete; h_HandleGuard := gi_HandleGuard |}.

(** Returns the status and the new value of [*new_b]; no result when an assert
    fails. *)
Definition SetGuards (b new_b : WriteBatch) : option (Status * WriteBatch) :=
  let g := {| gi_new_batch := new_b; gi_sequence := Sequence b;
              gi_num_guards := replicate (Z.to_nat kNumLevels) 0; gi_failed := false |} in
  match Iterate GuardInserter_handler b g with
  | Some (s, g) => if gi_failed g then None else Some (s, gi_new_batch g)
  | None => None
  end.

(** ** Operations and their records *)

Inductive Op :=
  | OpPut (key value : bytes)
  | OpDelete (key : bytes)
  | OpGuard (key : bytes) (level : Z).

Definition add_op (b : WriteBatch) (o : Op) : WriteBatch :=
  match o with
  | OpPut k v => Put b k v
  | OpDelete k => Delete b k
  | OpGuard k l => PutGuard b k l
  end.

Definition build (ops : list Op) : WriteBatch := fold_left add_op ops Clear.

Definition handle {S} (h : Handler S) (s : S) (o : Op) : S :=
  match o with
  | OpPut k v => h_Put h s k v
  | OpDelete k => h_Delete h s k
  | OpGuard k l => h_HandleGuard h s k l
  end.

(** Keys and values fit their length prefix; levels fit a uint32_t. *)
Definition op_ok (o : Op) : Prop :=
  match o with
  | OpPut k v => len k < 2 ^ 32 /\ len v < 2 ^ 32
  | OpDelete k => len k < 2 ^ 32
  | OpGuard k l => len k < 2 ^ 32 /\ 0 <= l < 2 ^ 32
  end.

Definition op_record (o : Op) : bytes :=
  match o with
  | OpPut k v => z2b kTypeValue :: PutLengthPrefixedSlice [] k ++ PutLengthPrefixedSlice [] v
  | OpDelete k => z2b kTypeDeletion :: PutLengthPrefixedSlice [] k
  | OpGuard k l => z2b kTypeGuard :: PutLengthPrefixedSlice [] k ++ EncodeVarint32 (u32 l)
  end.

Definition records (ops : list Op) : bytes := concat (map op_record ops).

(** A well-formed batch: sequence, count, records. *)
Definition batch_of (seq : Z) (ops : list Op) : WriteBatch :=
  EncodeFixed64 seq ++ EncodeFixed32 (len ops) ++ records ops.

Lemma length_E64 v : length (EncodeFixed64 v) = 8%nat.
Proof. pose proof (len_EncodeFixed64 v). unfold len in *. lia. Qed.
Lemma length_E32 v : length (EncodeFixed32 v) = 4%nat.
Proof. pose proof (len_EncodeFixed32 v). unfold len in *. lia. Qed.

Lemma header_parts a n R :
  let b := EncodeFixed64 a ++ EncodeFixed32 n ++ R in
  take 8 b = EncodeFixed64 a /\ drop 8 b = EncodeFixed32 n ++ R /\ drop 12 b = R.
Proof.
  intros b. subst b. pose proof (length_E64 a). pose proof (length_E32 n).
  split; [by apply take_len_app|]. split; [by apply drop_len_app|].
  rewrite app_assoc. apply drop_len_app. rewrite length_app. lia.
Qed.

Lemma SetCount_batch a n R m :
  SetCount (EncodeFixed64 a ++ EncodeFixed32 n ++ R) m = EncodeFixed64 a ++ EncodeFixed32 (u32 m) ++ R.
Proof. unfold SetCount. by destruct (header_parts a n R) as (-> & _ & ->). Qed.

Lemma Count_batch a n R : 0 <= n < 2 ^ 31 -> Count (EncodeFixed64 a ++ EncodeFixed32 n ++ R) = n.
Proof.
  intros Hn. unfold Count. destruct (header_parts a n R) as (_ & -> & _).
  rewrite DecodeFixed32_EncodeFixed32, u32_small by lia. unfold s32.
  destruct (Z.ltb_spec n (2 ^ 31)); [done|lia].
Qed.

Lemma records_app ops1 ops2 : records (ops1 ++ ops2) = records ops1 ++ records ops2.
Proof. unfold records. by rewrite map_app, concat_app. Qed.

(** Each mutator appends its record and counts it. *)
Lemma add_op_batch seq ops o :
  len ops + 1 < 2 ^ 31 -> add_op (batch_of seq ops) o = batch_of seq (ops ++ [o]).
Proof.
  intros Hn. unfold batch_of.
  assert (SetCount (EncodeFixed64 seq ++ EncodeFixed32 (len ops) ++ records ops)
    (Count (EncodeFixed64 seq ++ EncodeFixed32 (len ops) ++ records ops) + 1) =
    EncodeFixed64 seq ++ EncodeFixed32 (len (ops ++ [o])) ++ records ops) as E.
  { rewrite Count_batch, SetCount_batch, u32_small by (len_facts; lia). by rewrite len_app. }
  rewrite records_app. unfold records at 3. cbn [map concat]. rewrite app_nil_r.
  destruct o; cbn [add_op op_record]; unfold Put, Delete, PutGuard, PutVarint32; rewrite E.
  - rewrite (PutLengthPrefixedSlice_app (PutLengthPrefixedSlice _ key)), (PutLengthPrefixedSlice_app _ key).
    by rewrite <- !app_assoc.
  - rewrite PutLengthPrefixedSlice_app. by rewrite <- !app_assoc.
  - rewrite PutLengthPrefixedSlice_app. by rewrite <- !app_assoc.
Qed.

Lemma add_ops_batch ops : forall seq ops0,
  len ops0 + len ops < 2 ^ 31 -> fold_left add_op ops (batch_of seq ops0) = batch_of seq (ops0 ++ ops).
Proof.
  induction ops as [|o ops IH]; intros seq ops0 Hn; cbn [fold_left]; [by rewrite app_nil_r|].
  rewrite len_cons in Hn. rewrite add_op_batch by (len_facts; lia).
  rewrite IH by (rewrite len_app, len_cons; len_nils; lia). by rewrite <- app_assoc.
Qed.

Lemma build_batch ops : len ops < 2 ^ 31 -> build ops = batch_of 0 ops.
Proof. intros. apply (add_ops_batch ops 0 []). len_nils. lia. Qed.

Lemma SetSequence_batch seq seq' ops : SetSequence (batch_of seq ops) seq' = batch_of seq' ops.
Proof. unfold SetSequence, batch_of. by destruct (header_parts seq (len ops) (records ops)) as (_ & -> & _). Qed.

Lemma Sequence_batch seq ops : 0 <= seq < 2 ^ 64 -> Sequence (batch_of seq ops) = seq.
Proof. intros. unfold Sequence, batch_of. rewrite DecodeFixed64_EncodeFixed64. by apply u64_small. Qed.

Lemma Append_batch seq1 ops1 seq2 ops2 :
  len ops1 + len ops2 < 2 ^ 31 -> Append (batch_of seq1 ops1) (batch_of seq2 ops2) = batch_of seq1 (ops1 ++ ops2).
Proof.
  intros Hn. unfold Append, batch_of.
  rewrite !Count_batch, SetCount_batch, u32_small by (len_facts; lia).
  change (Z.to_nat kHeader) with 12%nat.
  destruct (header_parts seq2 (len ops2) (records ops2)) as (_ & _ & ->).
  by rewrite len_app, records_app, <- !app_assoc.
Qed.

(** The record format as a relation: the operations that the record bytes
    [input] start with, and what is left after them. *)
Inductive decodes_op : bytes -> Op -> bytes -> Prop :=
  | decodes_put tag input key i1 value rest : schar tag = kTypeValue ->
      GetLengthPrefixedSlice input = Some (key, i1) -> GetLengthPrefixedSlice i1 = Some (value, rest) ->
      decodes_op (tag :: input) (OpPut key value) rest
  | decodes_delete tag input key rest : schar tag = kTypeDeletion ->
      GetLengthPrefixedSlice input = Some (key, rest) -> decodes_op (tag :: input) (OpDelete key) rest
  | decodes_guard tag input key i1 level rest : schar tag = kTypeGuard ->
      GetLengthPrefixedSlice input = Some (key, i1) -> GetVarint32 i1 = Some (level, rest) ->
      decodes_op (tag :: input) (OpGuard key level) rest.

Inductive decodes : bytes -> list Op -> bytes -> Prop :=
  | decodes_nil rest : decodes rest [] rest
  | decodes_cons input o i1 ops rest : decodes_op input o i1 -> decodes i1 ops rest -> decodes input (o :: ops) rest.

(** The status of an iteration that handed out [ops], stopped with [rest]
    unread and was to find [count] operations, [found] of them before. *)
Definition iterate_status (st : Status) (ops : list Op) (rest : bytes) (found count : Z) : Prop :=
  (st = OK /\ rest = [] /\ count = found + len ops) \/ IsCorruption st = true.

Section IterateLemmas.
Context {S : Type} (h : Handler S).

Lemma Iterate_loop_records ops : forall fuel found count s,
  Forall op_ok ops -> (length (records ops) < fuel)%nat -> count = found + len ops ->
  Iterate_loop h fuel (records ops) found count s = Some (OK, fold_left (handle h) ops s).
Proof.
  induction ops as [|o ops IH]; intros fuel found count s Hok Hf Hc;
    (destruct fuel as [|fuel]; [lia|]); cbn [fold_left].
  - cbn [Iterate_loop records map concat]. len_simpl. by rewrite (proj2 (Z.eqb_eq _ _)) by lia.
  - apply Forall_cons in Hok as [Ho Hok]. rewrite len_cons in Hc.
    unfold records in *. cbn [map concat] in *. rewrite length_app in Hf.
    destruct o as [k v|k|k l]; cbn [op_record op_ok handle] in *; cbn [app Iterate_loop length] in *;
      rewrite <- ?app_assoc.
    + change (schar (z2b kTypeValue) =? kTypeValue) with true. cbn match.
      destruct Ho. rewrite !GetLengthPrefixedSlice_Put by done. apply IH; [done|lia|lia].
    + change (schar (z2b kTypeDeletion) =? kTypeValue) with false.
      change (schar (z2b kTypeDeletion) =? kTypeDeletion) with true. cbn match.
      rewrite GetLengthPrefixedSlice_Put by done. apply IH; [done|lia|lia].
    + change (schar (z2b kTypeGuard) =? kTypeValue) with false.
      change (schar (z2b kTypeGuard) =? kTypeDeletion) with false.
      change (schar (z2b kTypeGuard) =? kTypeGuard) with true. cbn match.
      destruct Ho. rewrite GetLengthPrefixedSlice_Put by done.
      rewrite u32_small, GetVarint32_EncodeVarint32 by done. apply IH; [done|lia|lia].
Qed.

Lemma Iterate_batch seq ops s :
  Forall op_ok ops -> len ops < 2 ^ 31 ->
  Iterate h (batch_of seq ops) s = Some (OK, fold_left (handle h) ops s).
Proof.
  intros Hok Hn. unfold Iterate, batch_of.
  rewrite !len_app, len_EncodeFixed64, len_EncodeFixed32.
  destruct (Z.ltb_spec (8 + (4 + len (records ops))) kHeader); [unfold kHeader in *; len_facts; lia|].
  change (Z.to_nat kHeader) with 12%nat.
  destruct (header_parts seq (len ops) (records ops)) as (_ & _ & ->).
  rewrite Count_batch by (len_facts; lia).
  apply Iterate_loop_records; [done| |lia]. rewrite !length_app. lia.
Qed.

(** On arbitrary bytes the loop ends, having handled some operations; it
    returns OK only after as many as the count says. *)
Lemma Corruption_is msg : IsCorruption (Corruption msg) = true.
Proof. unfold IsCorruption, code, Corruption, mkStatus. reflexivity. Qed.

Lemma Iterate_loop_total fuel : forall input found count s,
  (length input < fuel)%nat ->
  exists st ops rest, Iterate_loop h fuel input found count s = Some (st, fold_left (handle h) ops s) /\
    decodes input ops rest /\ iterate_status st ops rest found count.
Proof.
  induction fuel as [|fuel IH]; intros input found count s Hf; [lia|]. cbn [Iterate_loop].
  assert (forall msg, exists st ops rest, Some (Corruption msg, s) = Some (st, fold_left (handle h) ops s) /\
    decodes input ops rest /\ iterate_status st ops rest found count) as Hbad.
  { intros msg. exists (Corruption msg), [], input. split; [done|]. split; [constructor|right; apply Corruption_is]. }
  assert (forall o input', (length input' < length input)%nat -> decodes_op input o input' ->
    exists st ops rest,
      Iterate_loop h fuel input' (found + 1) count (handle h s o) = Some (st, fold_left (handle h) ops s) /\
      decodes input ops rest /\ iterate_status st ops rest found count) as Hgo.
  { intros o input' Hl Ho.
    destruct (IH input' (found + 1) count (handle h s o) ltac:(lia)) as (st & ops & rest & E & Hd & Hc).
    exists st, (o :: ops), rest. split; [exact E|]. split; [by econstructor|].
    destruct Hc as [(-> & -> & Hc)|Hc]; [left|by right]. rewrite len_cons. split; [done|]. split; [done|lia]. }
  destruct input as [|tag input].
  { destruct (Z.eqb_spec found count); cbn [negb]; [|apply Hbad].
    exists OK, [], []. split; [done|]. split; [constructor|]. left. len_nils. split; [done|]. split; [done|lia]. }
  assert (forall p k rest, GetLengthPrefixedSlice p = Some (k, rest) -> (length rest <= length p)%nat) as Hlp.
  { intros p k rest (pre & -> & _)%GetLengthPrefixedSlice_inv. rewrite !length_app. lia. }
  destruct (Z.eqb_spec (schar tag) kTypeValue) as [Et|_].
  { destruct (GetLengthPrefixedSlice input) as [[k i1]|] eqn:E1; [|apply Hbad].
    destruct (GetLengthPrefixedSlice i1) as [[v i2]|] eqn:E2; [|apply Hbad].
    apply (Hgo (OpPut k v)); [|by econstructor]. apply Hlp in E1, E2. simpl. lia. }
  destruct (Z.eqb_spec (schar tag) kTypeDeletion) as [Et|_].
  { destruct (GetLengthPrefixedSlice input) as [[k i1]|] eqn:E1; [|apply Hbad].
    apply (Hgo (OpDelete k)); [|by econstructor]. apply Hlp in E1. simpl. lia. }
  destruct (Z.eqb_spec (schar tag) kTypeGuard) as [Et|_]; [|apply Hbad].
  destruct (GetLengthPrefixedSlice input) as [[k i1]|] eqn:E1; [|apply Hbad].
  destruct (GetVarint32 i1) as [[l i2]|] eqn:E2; [|apply Hbad].
  apply (Hgo (OpGuard k l)); [|by econstructor]. apply Hlp in E1. apply GetVarint32_inv in E2 as (_ & pre & -> & _).
  rewrite length_app in E1. simpl. lia.
Qed.
End IterateLemmas.

(** ** Guards of a batch *)

(** A key matches a level when the low bits of its hash that the level asks
    for are all set: 27 at level 0, two fewer at each deeper level. *)
Definition level_bits (level : Z) : Z := top_level_bits - bit_decrement * level.

Definition guard_at (key : bytes) (level : Z) : bool :=
  let mask := guard_mask (level_bits level) in
  Z.land (MurmurHash3_x86_32 key murmur_seed) mask =? mask.

Definition all_levels : list Z := map Z.of_nat (seq 0 (Z.to_nat kNumLevels)).

Definition guard_ops (o : Op) : list Op :=
  match o with
  | OpPut k _ => map (OpGuard k) (List.filter (guard_at k) all_levels)
  | _ => []
  end.

Lemma guard_mask_ones n : guard_mask n = Z.ones n.
Proof. unfold guard_mask, Z.ones. lia. Qed.

(** Fewer bits are easier to match, so guards nest downwards. *)
Lemma guard_at_mono key i j : 0 <= i <= j -> j < kNumLevels -> guard_at key i = true -> guard_at key j = true.
Proof.
  intros Hij Hj. unfold guard_at. rewrite !guard_mask_ones, !Z.eqb_eq.
  assert (0 <= level_bits j <= level_bits i) as Hb
    by (unfold level_bits, top_level_bits, bit_decrement, kNumLevels in *; lia).
  rewrite !Z.land_ones by lia. intros E.
  assert (forall n m h, 0 <= n <= m -> h mod 2 ^ m = Z.ones m -> h mod 2 ^ n = Z.ones n) as Hm.
  { intros n m h Hnm Eh. rewrite <- (Z.mod_mod_divide h (2 ^ m) (2 ^ n)), Eh.
    - rewrite <- Z.land_ones by lia.
      apply Z.bits_inj'. intros i0 Hi0. rewrite Z.land_spec.
      destruct (Z.lt_ge_cases i0 n).
      + rewrite !Z.ones_spec_low by lia. done.
      + rewrite (Z.ones_spec_high n) by lia. apply andb_false_r.
    - exists (2 ^ (m - n)). rewrite <- Z.pow_add_r by lia. f_equal. lia. }
  eapply Hm; [exact Hb|exact E].
Qed.

Lemma put_guards_spec fuel : forall j key g,
  gi_new_batch (put_guards fuel j key g) =
    fold_left add_op (map (fun i => OpGuard key (j + Z.of_nat i)) (seq 0 fuel)) (gi_new_batch g) /\
  gi_failed (put_guards fuel j key g) = gi_failed g.
Proof.
  induction fuel as [|fuel IH]; intros j key g; cbn [put_guards seq map fold_left]; [done|].
  destruct (IH (j + 1) key {| gi_new_batch := PutGuard (gi_new_batch g) key j; gi_sequence := gi_sequence g;
    gi_num_guards := alter (Z.add 1) (Z.to_nat j) (gi_num_guards g); gi_failed := gi_failed g |}) as [-> ->].
  split; [|done]. cbn [gi_new_batch add_op]. rewrite Z.add_0_r, <- seq_shift, map_map.
  f_equal. apply map_ext. intros i. f_equal. lia.
Qed.

Lemma filter_none {A} (f : A -> bool) l : (forall x, x ∈ l -> f x = false) -> List.filter f l = [].
Proof.
  induction l as [|x l IH]; intros Hx; [done|]. simpl. rewrite Hx by left. apply IH.
  intros y Hy. apply Hx. by right.
Qed.

Lemma filter_all {A} (f : A -> bool) l : (forall x, x ∈ l -> f x = true) -> List.filter f l = l.
Proof.
  induction l as [|x l IH]; intros Hx; [done|]. simpl. rewrite Hx by left. f_equal. apply IH.
  intros y Hy. apply Hx. by right.
Qed.

(** The loop over the levels puts a guard at exactly the matching levels. *)
Lemma guard_levels_loop_spec fuel : forall i key g,
  0 <= i -> i + Z.of_nat fuel = kNumLevels ->
  let g' := guard_levels_loop fuel i (level_bits i) (MurmurHash3_x86_32 key murmur_seed) key g in
  gi_new_batch g' =
    fold_left add_op (map (OpGuard key) (List.filter (guard_at key) (map (fun n => i + Z.of_nat n) (seq 0 fuel))))
      (gi_new_batch g) /\
  gi_failed g' = gi_failed g.
Proof.
  induction fuel as [|fuel IH]; intros i key g Hi Hf; [done|]. cbn [guard_levels_loop].
  fold (guard_at key i). cbv zeta. destruct (guard_at key i) eqn:E.
  - destruct (put_guards_spec (S fuel) i key g) as [-> ->]. split; [|done].
    rewrite filter_all.
    + by rewrite map_map.
    + intros x Hx. apply list_elem_of_fmap in Hx as (n & -> & Hn). apply elem_of_seq in Hn.
      apply (guard_at_mono key i); [lia|lia|done].
  - replace (level_bits i - bit_decrement) with (level_bits (i + 1)) by (unfold level_bits, bit_decrement; lia).
    destruct (IH (i + 1) key g ltac:(lia) ltac:(lia)) as [-> ->]. split; [|done].
    cbn [seq map List.filter]. rewrite Z.add_0_r, E, <- seq_shift, map_map.
    f_equal. f_equal. f_equal. apply map_ext. intros n. lia.
Qed.

Lemma gi_Put_spec g key value :
  gi_new_batch (gi_Put g key value) = fold_left add_op (guard_ops (OpPut key value)) (gi_new_batch g) /\
  gi_failed (gi_Put g key value) = gi_failed g.
Proof.
  unfold gi_Put. cbn [gi_new_batch gi_failed guard_ops].
  exact (guard_levels_loop_spec (Z.to_nat kNumLevels) 0 key g ltac:(lia) ltac:(done)).
Qed.

(** The operations of a client's batch. *)
Definition no_guard (o : Op) : Prop := match o with OpGuard _ _ => False | _ => True end.

Lemma gi_handle_ops ops : forall g, Forall no_guard ops ->
  let g' := fold_left (handle GuardInserter_handler) ops g in
  gi_new_batch g' = fold_left add_op (concat (map guard_ops ops)) (gi_new_batch g) /\ gi_failed g' = gi_failed g.
Proof.
  induction ops as [|o ops IH]; intros g Hops; [done|]. apply Forall_cons in Hops as [Ho Hops]. cbn [fold_left map concat].
  rewrite fold_left_app. destruct (IH (handle GuardInserter_handler g o) Hops) as [-> ->]. destruct o; [|done|done].
  cbn [handle h_Put GuardInserter_handler]. destruct (gi_Put_spec g key value) as [-> ->]. done.
Qed.

Lemma SetGuards_ops ops seq new_b : Forall op_ok ops -> Forall no_guard ops -> len ops < 2 ^ 31 ->
  SetGuards (batch_of seq ops) new_b = Some (OK, fold_left add_op (concat (map guard_ops ops)) new_b).
Proof.
  intros Hok Hno Hn. unfold SetGuards. rewrite Iterate_batch by done.
  by destruct (gi_handle_ops ops {| gi_new_batch := new_b; gi_sequence := Sequence (batch_of seq ops);
    gi_num_guards := replicate (Z.to_nat kNumLevels) 0; gi_failed := false |} Hno) as [-> ->].
Qed.

(** ** Claims *)

(** C28. A write batch is decoded to the operations it was built from: after
    any sequence of Put, Delete and PutGuard on an empty batch, with any
    sequence number set, Iterate hands exactly these operations to any
    handler in order and returns OK, Count is their number, and Append
    concatenates batches. *)
Theorem batch_roundtrip {S} (h : Handler S) (ops1 ops2 : list Op) (seq : Z) (s : S)
    (Hok : Forall op_ok (ops1 ++ ops2)) (Hn : len ops1 + len ops2 < 2 ^ 31) (Hseq : 0 <= seq < 2 ^ 64) :
  let b := Append (SetSequence (build ops1) seq) (build ops2) in
  Iterate h b s = Some (OK, fold_left (handle h) (ops1 ++ ops2) s) /\
  Count b = len ops1 + len ops2 /\ Sequence b = seq.
Proof.
  intros b. subst b.
  rewrite !build_batch, SetSequence_batch, Append_batch by (len_facts; lia).
  split; [|split].
  - apply Iterate_batch; [done|]. rewrite len_app. lia.
  - unfold batch_of. rewrite Count_batch; rewrite len_app; len_facts; lia.
  - by apply Sequence_batch.
Qed.

Lemma batch_roundtrip_witness :
  Iterate {| h_Put := fun s k _ => s ++ [k]; h_Delete := fun s _ => s; h_HandleGuard := fun s _ _ => s |}
    (Append (SetSequence (build [OpPut [Byte.x61] []]) 7) (build [OpDelete [Byte.x62]; OpGuard [Byte.x61] 3])) [] =
  Some (OK, [[Byte.x61]]).
Proof.
  refine (proj1 (batch_roundtrip _ [OpPut [Byte.x61] []] [OpDelete [Byte.x62]; OpGuard [Byte.x61] 3] 7 [] _ _ _)).
  - repeat constructor; discriminate.
  - reflexivity.
  - split; [discriminate|reflexivity].
Defined.

(** Iterate on arbitrary bytes terminates and hands to the handler
    exactly operations that the record bytes decode to, one after the other;
    it returns OK only if the batch has a whole header, the records are
    decoded to their end and their number is the count of the header, and a
    Corruption status otherwise. *)
Theorem batch_iterate_robust {S} (h : Handler S) (b : WriteBatch) (s : S) :
  exists st ops rest, Iterate h b s = Some (st, fold_left (handle h) ops s) /\
    decodes (drop (Z.to_nat kHeader) b) ops rest /\
    ((st = OK /\ kHeader <= len b /\ rest = [] /\ Count b = len ops) \/ IsCorruption st = true).
Proof.
  unfold Iterate. destruct (Z.ltb_spec (len b) kHeader).
  { eexists _, [], _. split; [reflexivity|]. split; [constructor|right; apply Corruption_is]. }
  destruct (Iterate_loop_total h (Datatypes.S (length b)) (drop (Z.to_nat kHeader) b) 0 (Count b) s)
    as (st & ops & rest & E & Hd & Hc).
  - rewrite length_drop. lia.
  - exists st, ops, rest. split; [exact E|]. split; [exact Hd|].
    destruct Hc as [(-> & -> & Hc)|Hc]; [left|by right]. do 3 (split; [done|]). lia.
Qed.

(** Guard selection: SetGuards of a batch of Puts and Deletes appends to
    the new batch, for each Put in order, a guard record at exactly the levels
    whose low hash bits are all set, from the top level down; since deeper
    levels ask for fewer bits, a key that is a guard at a level is a guard at
    every deeper one. *)
Theorem guards_selected_and_nested (ops : list Op) (seq : Z) (new_b : WriteBatch)
    (Hok : Forall op_ok ops) (Hno : Forall no_guard ops) (Hn : len ops < 2 ^ 31) :
  SetGuards (batch_of seq ops) new_b = Some (OK, fold_left add_op (concat (map guard_ops ops)) new_b) /\
  (forall key value i j, OpGuard key i ∈ guard_ops (OpPut key value) -> i <= j < kNumLevels ->
    OpGuard key j ∈ guard_ops (OpPut key value)).
Proof.
  split.
  - by apply SetGuards_ops.
  - intros key value i j Hi Hj. cbn [guard_ops] in *.
    apply list_elem_of_fmap in Hi as (i' & [= <-] & Hi). apply list_elem_of_In, List.filter_In in Hi as [Hi Hg].
    apply list_elem_of_fmap. exists j. split; [done|].
    apply list_elem_of_In, List.filter_In.
    apply list_elem_of_In, list_elem_of_fmap in Hi as (n & -> & _).
    split; [|by apply (guard_at_mono key (Z.of_nat n)); [lia|lia|]].
    apply list_elem_of_In, list_elem_of_fmap. exists (Z.to_nat j). split; [lia|].
    apply elem_of_seq. unfold kNumLevels in *. lia.
Qed.

Lemma guards_selected_and_nested_witness :
  SetGuards (batch_of 1 [OpPut [Byte.x61] []; OpDelete [Byte.x62]]) Clear =
    Some (OK, fold_left add_op (concat (map guard_ops [OpPut [Byte.x61] []; OpDelete [Byte.x62]])) Clear).
Proof.
  refine (proj1 (guards_selected_and_nested [OpPut [Byte.x61] []; OpDelete [Byte.x62]] 1 Clear _ _ _)).
  - repeat constructor.
  - repeat constructor.
  - reflexivity.
Defined.
