(* ===== verification/SkipList.v ===== *)
(** * The skip list (db/skiplist.h, util/random.h)

    Nodes live in an arena and are never freed, so the heap is a list of nodes
    that only grows; node 0 is [head_].  Each link carries the hint [cmp], the
    numeric prefix of the key it points to, which searches consult before the
    full comparison.  This is the behaviour of one thread at a time. *)

From Stdlib Require Import ZArith Lia Bool.
From stdpp Require Import base list.
From S2P Require Import Prelude.

Set Default Goal Selector "!".
Local Open Scope Z_scope.

(** ** util/random.h *)

Definition rnd_M : Z := 2147483647.
Definition rnd_A : Z := 16807.

Definition new_Random (s : Z) : Z :=
  let seed := Z.land s 0x7fffffff in
  if (seed =? 0) || (seed =? 2147483647) then 1 else seed.

(** Next: the new seed, which is also the result. *)
Definition Random_Next (seed : Z) : Z :=
  let product := u64 (seed * rnd_A) in
  let seed := u32 (Z.shiftr product 31 + Z.land product rnd_M) in
  if rnd_M <? seed then u32 (seed - rnd_M) else seed.

Definition Random_Uniform (seed n : Z) : Z * Z := let s := Random_Next seed in (s mod n, s).

Definition Random_OneIn (seed n : Z) : bool * Z := let s := Random_Next seed in (s mod n =? 0, s).

Lemma Random_Next_mod seed : 0 < seed < rnd_M -> Random_Next seed = (seed * rnd_A) mod rnd_M.
Proof.
  unfold Random_Next, rnd_M, rnd_A. intros Hs. rewrite u64_small by lia.
  set (p := seed * 16807) in *.
  assert (Z.land p 2147483647 = p mod 2 ^ 31) as -> by (by rewrite <- Z.land_ones by lia).
  rewrite Z.shiftr_div_pow2 by lia. change (2 ^ 31) with 2147483648.
  assert (0 <= p / 2147483648 + p mod 2147483648 < 2 ^ 32) as Hr by (Z.div_mod_to_equations; lia).
  rewrite u32_small by done.
  assert (p mod 2147483647 <> 0) as Hne.
  { intros E. apply Z.mod_divide in E; [|lia]. unfold p in E.
    rewrite Z.mul_comm in E. apply Z.gauss in E; [|reflexivity].
    apply Z.divide_pos_le in E; lia. }
  destruct (Z.ltb_spec 2147483647 (p / 2147483648 + p mod 2147483648)).
  - rewrite u32_small by lia. Z.div_mod_to_equations. lia.
  - Z.div_mod_to_equations. lia.
Qed.

(** ** db/skiplist.h *)

Definition kMaxHeight : nat := 17.
Definition kBranching : Z := 4.
Definition cmp_max : Z := 2 ^ 64 - 1.

Section SkipList.
Context {K : Type} (compare_ : K -> K -> Z) (extractor_ : K -> Z).

(** [key] is [None] for the head, whose key is never looked at. *)
Record Node := { n_cmp : Z; n_key : option K; n_ptrs : list (Z * option nat) }.

Local Notation heap := (list Node).

Definition height (n : Node) : nat := length (n_ptrs n).

Definition get_ptr (h : heap) (x level : nat) : Z * option nat :=
  match h !! x with
  | Some n => nth level (n_ptrs n) (cmp_max, None)
  | None => (cmp_max, None)
  end.

Definition set_ptr (h : heap) (x level : nat) (p : Z * option nat) : heap :=
  alter (fun n => {| n_cmp := n_cmp n; n_key := n_key n; n_ptrs := <[level := p]> (n_ptrs n) |}) x h.

(** The loop of CasNext that lowers the hint from [cur] to [new_cmp]. *)
Fixpoint cas_hint (fuel : nat) (cur expected new_cmp : Z) : Z :=
  match fuel with
  | O => cur
  | S fuel =>
      if new_cmp <? expected
      then cas_hint fuel (if cur =? expected then new_cmp else cur) cur new_cmp
      else cur
  end.

Definition cmp_of (h : heap) (x : nat) : Z :=
  match h !! x with Some n => n_cmp n | None => cmp_max end.

Definition key_of (h : heap) (x : nat) : option K :=
  match h !! x with Some n => n_key n | None => None end.

(** CasNext: [None] when the compare-and-swap fails. *)
Definition CasNext (h : heap) (prev level : nat) (old_node : option nat) (new_node : nat) : option heap :=
  let (c, next) := get_ptr h prev level in
  if decide (next = old_node)
  then Some (set_ptr h prev level (cas_hint 4 c cmp_max (cmp_of h new_node), Some new_node))
  else None.

(** NewNode: the node is appended to the heap. *)
Definition NewNode (h : heap) (cmp : Z) (key : option K) (height : nat) : heap * nat :=
  (h ++ [{| n_cmp := cmp; n_key := key; n_ptrs := replicate height (cmp_max, None) |}], length h).

Definition new_SkipList : heap := fst (NewNode [] cmp_max None kMaxHeight).

Definition KeyIsAfterNode (h : heap) (key : K) (n : option nat) : bool :=
  match n with
  | None => false
  | Some n => match key_of h n with Some k => compare_ k key <? 0 | None => false end
  end.

(** Both loops of FindGreaterOrEqual, one turn each; [prev] and [obs] are its
    out-parameters.  The result is [None] only without fuel or if a NULL
    pointer were followed. *)
Fixpoint FindGreaterOrEqual_loop (fuel : nat) (h : heap) (key : K) (x level : nat)
    (prev : list nat) (obs : list (option nat)) : option (option nat * list nat * list (option nat)) :=
  match fuel with
  | O => None
  | S fuel =>
      let cmp := extractor_ key in
      let (c, next) := get_ptr h x level in
      match level with
      | S level' =>
          if cmp <? c then
            FindGreaterOrEqual_loop fuel h key x level' (<[level := x]> prev) (<[level := None]> obs)
          else if (c <? cmp) || KeyIsAfterNode h key next then
            match next with
            | Some y => FindGreaterOrEqual_loop fuel h key y level prev obs
            | None => None
            end
          else
            FindGreaterOrEqual_loop fuel h key x level' (<[level := x]> prev) (<[level := next]> obs)
      | O =>
          if (c <? cmp) || KeyIsAfterNode h key next then
            match next with
            | Some y => FindGreaterOrEqual_loop fuel h key y level prev obs
            | None => None
            end
          else Some (next, <[level := x]> prev, <[level := next]> obs)
      end
  end.

Definition find_fuel (h : heap) : nat := length h + kMaxHeight + 1.

Definition FindGreaterOrEqual (h : heap) (key : K) : option (option nat * list nat * list (option nat)) :=
  FindGreaterOrEqual_loop (find_fuel h) h key 0 (kMaxHeight - 1)
    (replicate kMaxHeight 0%nat) (replicate kMaxHeight None).

Fixpoint FindLessThan_loop (fuel : nat) (h : heap) (key : K) (x level : nat) : option nat :=
  match fuel with
  | O => None
  | S fuel =>
      let stop := match level with O => Some x | S level' => FindLessThan_loop fuel h key x level' end in
      match snd (get_ptr h x level) with
      | None => stop
      | Some next =>
          match key_of h next with
          | Some k => if 0 <=? compare_ k key then stop else FindLessThan_loop fuel h key next level
          | None => None
          end
      end
  end.

Definition FindLessThan (h : heap) (key : K) : option nat :=
  FindLessThan_loop (find_fuel h) h key 0 (kMaxHeight - 1).

Fixpoint FindLast_loop (fuel : nat) (h : heap) (x level : nat) : option nat :=
  match fuel with
  | O => None
  | S fuel =>
      match snd (get_ptr h x level) with
      | None => match level with O => Some x | S level' => FindLast_loop fuel h x level' end
      | Some next => FindLast_loop fuel h next level
      end
  end.

Definition FindLast (h : heap) : option nat := FindLast_loop (find_fuel h) h 0 (kMaxHeight - 1).

(** RandomHeight: the height and the new generator state. *)
Fixpoint RandomHeight_loop (fuel : nat) (height : nat) (seed : Z) : nat * Z :=
  match fuel with
  | O => (height, seed)
  | S fuel =>
      if (height <? kMaxHeight)%nat then
        let seed := Random_Next seed in
        if seed mod kBranching =? 0 then RandomHeight_loop fuel (S height) seed else (height, seed)
      else (height, seed)
  end.

Definition RandomHeight (seed : Z) : nat * Z := RandomHeight_loop kMaxHeight 1 seed.

(** The inner loop that advances [prev[i]] after a failed attempt. *)
Fixpoint advance (fuel : nat) (h : heap) (x i prev : nat) (key : K) : option (nat * option nat) :=
  match fuel with
  | O => None
  | S fuel =>
      let (c, obs) := get_ptr h prev i in
      if (c <? cmp_of h x) || KeyIsAfterNode h key obs then
        match obs with
        | Some y => advance fuel h x i y key
        | None => None
        end
      else Some (prev, obs)
  end.

(** Linking node [x] in at level [i]. *)
Fixpoint link_level (fuel : nat) (h : heap) (x i prev : nat) (obs : option nat) (key : K) : option heap :=
  match fuel with
  | O => None
  | S fuel =>
      let c := match obs with Some n => cmp_of h n | None => cmp_max end in
      let h := set_ptr h x i (c, obs) in
      let retry :=
        match advance (find_fuel h) h x i prev key with
        | Some (prev, obs) => link_level fuel h x i prev obs key
        | None => None
        end in
      if cmp_of h x <=? c then
        match CasNext h prev i obs x with
        | Some h => Some h
        | None => retry
        end
      else retry
  end.

Fixpoint link_levels (n i : nat) (h : heap) (x : nat) (prev : list nat) (obs : list (option nat)) (key : K) :
    option heap :=
  match n with
  | O => Some h
  | S n =>
      match link_level 3 h x i (nth i prev 0%nat) (nth i obs None) key with
      | Some h => link_levels n (S i) h x prev obs key
      | None => None
      end
  end.

Definition Insert (h : heap) (key : K) (height : nat) : option heap :=
  match FindGreaterOrEqual h key with
  | Some (_, prev, obs) =>
      let (h, x) := NewNode h (extractor_ key) (Some key) height in
      link_levels height 0 h x prev obs key
  | None => None
  end.

Definition Contains (h : heap) (key : K) : option bool :=
  match FindGreaterOrEqual h key with
  | Some (Some x, _, _) =>
      match key_of h x with Some k => Some (compare_ key k =? 0) | None => None end
  | Some (None, _, _) => Some false
  | None => None
  end.

(** ** SkipList::Iterator: the current node *)

Definition it_Valid (node : option nat) : bool := match node with Some _ => true | None => false end.
Definition it_key (h : heap) (node : option nat) : option K := match node with Some n => key_of h n | None => None end.
Definition it_Next (h : heap) (node : option nat) : option nat :=
  match node with Some n => snd (get_ptr h n 0) | None => None end.
Definition it_Seek (h : heap) (target : K) : option (option nat) :=
  match FindGreaterOrEqual h target with Some (n, _, _) => Some n | None => None end.
Definition head_to_null (x : nat) : option nat := match x with O => None | _ => Some x end.
Definition it_Prev (h : heap) (node : option nat) : option (option nat) :=
  match it_key h node with
  | Some k => match FindLessThan h k with Some x => Some (head_to_null x) | None => None end
  | None => None
  end.
Definition it_SeekToFirst (h : heap) : option nat := snd (get_ptr h 0 0).
Definition it_SeekToLast (h : heap) : option (option nat) :=
  match FindLast h with Some x => Some (head_to_null x) | None => None end.
End SkipList.
Arguments Node : clear implicits.
Notation heap K := (list (Node K)).
