(* ===== verification/SkipListSpec.v ===== *)
(** * Correctness of the skip list

    The pointer structure represents a sorted list of nodes ([SL]): at every
    level the links visit exactly the nodes of that height, in order, with
    exact hints.  Searches return the position in the sorted list, and Insert
    preserves the representation. *)

From Stdlib Require Import ZArith Lia Bool.
From stdpp Require Import base list sorting.
From S2P Require Import Prelude SkipList.

Set Default Goal Selector "!".
Local Open Scope Z_scope.

(** What the skip list needs of its comparator and extractor: a weak order,
    and hints that never contradict it. *)
Class SkipOrder {K} (compare_ : K -> K -> Z) (extractor_ : K -> Z) (dom : K -> Prop) : Prop := {
  so_anti a b : dom a -> dom b -> (compare_ a b < 0 <-> 0 < compare_ b a);
  so_lt_le a b d : dom a -> dom b -> dom d -> compare_ a b < 0 -> compare_ b d <= 0 -> compare_ a d < 0;
  so_le_lt a b d : dom a -> dom b -> dom d -> compare_ a b <= 0 -> compare_ b d < 0 -> compare_ a d < 0;
  so_ext_range a : dom a -> 0 <= extractor_ a <= cmp_max;
  so_ext a b : dom a -> dom b -> extractor_ a < extractor_ b -> compare_ a b < 0;
}.

Section Spec.
Context {K : Type} (compare_ : K -> K -> Z) (extractor_ : K -> Z) (dom : K -> Prop).
Context `{!SkipOrder compare_ extractor_ dom}.

Implicit Types (h : heap K) (L : list nat).

Definition node_height h (x : nat) : nat := match h !! x with Some n => height n | None => 0%nat end.

(** The nodes of [l] that take part in level [i]. *)
Definition lvl h (i : nat) (l : list nat) : list nat := List.filter (fun x => (i <? node_height h x)%nat) l.

(** The content of a link to [o]. *)
Definition ptr_to h (o : option nat) : Z * option nat :=
  match o with None => (cmp_max, None) | Some b => (cmp_of h b, Some b) end.

(** The links of level [i] lead through [l] and from its last node to [o]. *)
Fixpoint seg h (i : nat) (l : list nat) (o : option nat) : Prop :=
  match l with
  | [] => True
  | a :: tl => get_ptr h a i = ptr_to h (match tl with [] => o | b :: _ => Some b end) /\ seg h i tl o
  end.

Definition links h (i : nat) (l : list nat) : Prop := seg h i l None.

Definition node_ok h (x : nat) : Prop :=
  x <> 0%nat /\ exists n k, h !! x = Some n /\ n_key n = Some k /\ dom k /\ n_cmp n = extractor_ k /\
    (1 <= height n <= kMaxHeight)%nat.

(** Node [x] precedes, or is at least, the key. *)
Definition node_lt h (x : nat) (key : K) : Prop := exists k, key_of h x = Some k /\ compare_ k key < 0.
Definition node_ge h (x : nat) (key : K) : Prop := exists k, key_of h x = Some k /\ 0 <= compare_ k key.

Definition key_lt h (x y : nat) : Prop := exists k, key_of h y = Some k /\ node_lt h x k.

Record SL h L : Prop := {
  sl_head : node_height h 0 = kMaxHeight;
  sl_nodes : Forall (node_ok h) L;
  sl_sorted : StronglySorted (key_lt h) L;
  sl_links : forall i, (i < kMaxHeight)%nat -> links h i (lvl h i (0%nat :: L));
  sl_count : length h = S (length L);
}.

Lemma lvl_app h i l k : lvl h i (l ++ k) = lvl h i l ++ lvl h i k.
Proof. apply List.filter_app. Qed.

Lemma lvl_cons_in h i x l : (i < node_height h x)%nat -> lvl h i (x :: l) = x :: lvl h i l.
Proof. intros Hx. unfold lvl. simpl. by rewrite (proj2 (Nat.ltb_lt _ _)). Qed.

Lemma seg_app h i l k o :
  seg h i (l ++ k) o <-> seg h i l (match k with [] => o | b :: _ => Some b end) /\ seg h i k o.
Proof.
  induction l as [|a l IH]; simpl; [tauto|]. rewrite IH.
  destruct l as [|a' l]; simpl; [|tauto]. destruct k; simpl; tauto.
Qed.

Lemma seg_frame h g i l o :
  (forall a, a ∈ l -> get_ptr g a i = get_ptr h a i) ->
  (forall b, b ∈ l \/ o = Some b -> cmp_of g b = cmp_of h b) -> seg h i l o -> seg g i l o.
Proof.
  induction l as [|a l IH]; intros Hp Hc; [done|]. intros [Ha Hl]. split.
  - rewrite Hp, Ha by left. destruct l as [|b l]; simpl; [|rewrite (Hc b); [done|left; right; left]].
    destruct o as [b|]; simpl; [|done]. rewrite (Hc b); [done|by right].
  - apply IH; [intros; apply Hp; by right| |done].
    intros b [Hb|Hb]; apply Hc; [left; by right|by right].
Qed.

Lemma links_app_r h i l k : links h i (l ++ k) -> links h i k.
Proof. unfold links. rewrite seg_app. tauto. Qed.

(** The first node of a list at a level. *)
Lemma lvl_first h i l :
  lvl h i l = [] \/
  exists l1 b l2, l = l1 ++ b :: l2 /\ lvl h i l1 = [] /\ (i < node_height h b)%nat.
Proof.
  induction l as [|a l IH]; [by left|]. unfold lvl in *. simpl.
  destruct (Nat.ltb_spec i (node_height h a)).
  - right. by exists [], a, l.
  - destruct IH as [IH|(l1 & b & l2 & -> & E & Hb)]; [by left|].
    right. exists (a :: l1), b, l2. split; [done|]. split; [|done]. simpl.
    rewrite (proj2 (Nat.ltb_ge _ _)) by done. exact E.
Qed.

Section Search.
Context (h : heap K) (L1 L2 : list nat) (key : K).
Hypothesis Hsl : SL h (L1 ++ L2).
Hypothesis Hkey : dom key.
Hypothesis Hlt : Forall (fun x => node_lt h x key) L1.
Hypothesis Hge : Forall (fun x => node_ge h x key) L2.

(** What the link of a node holds. *)
Lemma link_of A x R i :
  0%nat :: L1 = A ++ x :: R -> (i < kMaxHeight)%nat -> (i < node_height h x)%nat ->
  get_ptr h x i = ptr_to h (head (lvl h i (R ++ L2))).
Proof.
  intros E Hi Hx. pose proof (sl_links _ _ Hsl i Hi) as Hl.
  rewrite app_comm_cons, E, <- app_assoc, lvl_app in Hl. cbn [app] in Hl.
  apply links_app_r in Hl. rewrite lvl_cons_in in Hl by done.
  destruct Hl as [-> _]. by destruct (lvl h i (R ++ L2)).
Qed.

Lemma node_facts x : x ∈ L1 ++ L2 -> exists k, key_of h x = Some k /\ dom k /\ cmp_of h x = extractor_ k.
Proof.
  intros Hx. pose proof (sl_nodes _ _ Hsl) as Hn. rewrite Forall_forall in Hn.
  destruct (Hn x Hx) as (_ & n & k & En & Ek & Hd & Hc & _).
  exists k. unfold key_of, cmp_of. by rewrite En.
Qed.

Lemma L1_facts x : x ∈ L1 ->
  exists k, key_of h x = Some k /\ dom k /\ cmp_of h x = extractor_ k /\ compare_ k key < 0 /\
    extractor_ k <= extractor_ key.
Proof.
  intros Hx. destruct (node_facts x) as (k & Ek & Hd & Hc); [apply elem_of_app; by left|].
  rewrite Forall_forall in Hlt. destruct (Hlt x Hx) as (k' & Ek' & Hlt').
  rewrite Ek in Ek'. injection Ek' as <-. exists k. repeat split; try done.
  destruct (Z.lt_ge_cases (extractor_ key) (extractor_ k)) as [Hgt|]; [exfalso|done].
  pose proof (so_ext key k Hkey Hd Hgt) as Hk. apply (so_anti key k Hkey Hd) in Hk. lia.
Qed.

Lemma L2_facts x : x ∈ L2 ->
  exists k, key_of h x = Some k /\ dom k /\ cmp_of h x = extractor_ k /\ 0 <= compare_ k key /\
    extractor_ key <= extractor_ k.
Proof.
  intros Hx. destruct (node_facts x) as (k & Ek & Hd & Hc); [apply elem_of_app; by right|].
  rewrite Forall_forall in Hge. destruct (Hge x Hx) as (k' & Ek' & Hge').
  rewrite Ek in Ek'. injection Ek' as <-. exists k. repeat split; try done.
  destruct (Z.lt_ge_cases (extractor_ k) (extractor_ key)) as [Hgt|]; [exfalso|done].
  pose proof (so_ext k key Hd Hkey Hgt). lia.
Qed.

Lemma lvl_in i l x : x ∈ lvl h i l -> x ∈ l.
Proof. intros Hx. apply list_elem_of_In in Hx. apply List.filter_In in Hx as [Hx _]. by apply list_elem_of_In. Qed.

(** The last node before the key at a level. *)
Definition pred_at (i : nat) : nat := List.last (lvl h i (0%nat :: L1)) 0%nat.

(** A step of the search, with the link spelled out: the next node of the
    level lies before the key, or the current node is the predecessor. *)
Lemma search_step A x R i :
  0%nat :: L1 = A ++ x :: R -> (i < kMaxHeight)%nat -> (i < node_height h x)%nat ->
  (exists A' b R', 0%nat :: L1 = A' ++ b :: R' /\ (length R' < length R)%nat /\ (i < node_height h b)%nat /\
     exists kb, key_of h b = Some kb /\ compare_ kb key < 0 /\ get_ptr h x i = (extractor_ kb, Some b) /\
       extractor_ kb <= extractor_ key) \/
  (x = pred_at i /\
     (get_ptr h x i = (cmp_max, None) /\ lvl h i L2 = [] \/
      exists b kb, head (lvl h i L2) = Some b /\ key_of h b = Some kb /\ 0 <= compare_ kb key /\
        get_ptr h x i = (extractor_ kb, Some b) /\ extractor_ key <= extractor_ kb)).
Proof.
  intros E Hi Hx. pose proof (link_of A x R i E Hi Hx) as Hp. rewrite lvl_app in Hp.
  destruct (lvl_first h i R) as [ER|(R1 & b & R2 & -> & ER1 & Hb)].
  - right. rewrite ER in Hp. simpl in Hp. split.
    { unfold pred_at. rewrite E, lvl_app, lvl_cons_in, ER by done. by rewrite List.last_last. }
    destruct (lvl h i L2) as [|b tl] eqn:E2; [by left|right].
    destruct (L2_facts b) as (kb & Ek & Hd & Hc & Hcmp & Hext).
    { apply (lvl_in i). rewrite E2. left. }
    exists b, kb. simpl in Hp. rewrite Hc in Hp. done.
  - left. rewrite lvl_app, ER1, lvl_cons_in in Hp by done. simpl in Hp.
    exists (A ++ x :: R1), b, R2. rewrite <- app_assoc. split; [exact E|].
    split; [rewrite length_app; simpl; lia|]. split; [done|].
    destruct (L1_facts b) as (kb & Ek & Hd & Hc & Hcmp & Hext).
    { destruct A as [|a A]; simpl in E; injection E as E0 E1.
      - rewrite E1. apply elem_of_app. right. left.
      - rewrite E1. apply elem_of_app. right. right. apply elem_of_app. right. left. }
    exists kb. unfold ptr_to in Hp. rewrite Hc in Hp. done.
Qed.

Lemma KeyIsAfter_node b kb : key_of h b = Some kb -> KeyIsAfterNode compare_ h key (Some b) = (compare_ kb key <? 0).
Proof. intros E. unfold KeyIsAfterNode. by rewrite E. Qed.

(** [obs] holds the successor or NULL. *)
Definition obs_ok (i : nat) (o : option nat) : Prop := o = None \/ o = head (lvl h i L2).

Lemma FindGreaterOrEqual_loop_ok fuel : forall A x R level prev obs,
  0%nat :: L1 = A ++ x :: R -> (level < kMaxHeight)%nat -> (level < node_height h x)%nat ->
  (length R + level < fuel)%nat -> length prev = kMaxHeight -> length obs = kMaxHeight ->
  exists prev' obs', FindGreaterOrEqual_loop compare_ extractor_ fuel h key x level prev obs =
      Some (head (lvl h 0 L2), prev', obs') /\
    (forall i, nth i prev' 0%nat = if decide (i <= level)%nat then pred_at i else nth i prev 0%nat) /\
    (forall i, (i <= level)%nat -> obs_ok i (nth i obs' None)) /\
    (forall i, (level < i)%nat -> nth i obs' None = nth i obs None).
Proof.
  induction fuel as [|fuel IH]; intros A x R level prev obs E Hlev Hx Hf Hlp Hlo; [lia|].
  cbn [FindGreaterOrEqual_loop].
  assert (forall level' o, S level' = level -> obs_ok level o -> x = pred_at level ->
    exists prev' obs', FindGreaterOrEqual_loop compare_ extractor_ fuel h key x level'
        (<[level := x]> prev) (<[level := o]> obs) = Some (head (lvl h 0 L2), prev', obs') /\
      (forall i, nth i prev' 0%nat = if decide (i <= level)%nat then pred_at i else nth i prev 0%nat) /\
      (forall i, (i <= level)%nat -> obs_ok i (nth i obs' None)) /\
      (forall i, (level < i)%nat -> nth i obs' None = nth i obs None)) as Hdown.
  { intros level' o El Ho Hpx.
    destruct (IH A x R level' (<[level := x]> prev) (<[level := o]> obs)) as (prev' & obs' & -> & Hp & Ho1 & Ho2);
      rewrite ?length_insert; try done; try lia.
    exists prev', obs'. split; [done|]. split; [|split].
    - intros i. rewrite Hp. destruct (decide (i <= level')%nat); [by rewrite decide_True by lia|].
      rewrite nth_lookup, list_lookup_insert.
      destruct (decide (i <= level)%nat).
      + rewrite decide_True by lia. simpl. subst x. f_equal. lia.
      + rewrite decide_False by lia. by rewrite nth_lookup.
    - intros i Hi. destruct (decide (i <= level')%nat); [by apply Ho1|].
      rewrite Ho2 by lia. rewrite nth_lookup, list_lookup_insert, decide_True by lia.
      simpl. by replace i with level by lia.
    - intros i Hi. rewrite Ho2 by lia. rewrite !nth_lookup, list_lookup_insert. by rewrite decide_False by lia. }
  assert (level = 0%nat -> x = pred_at 0 ->
    exists prev' obs', Some (head (lvl h 0 L2), <[level := x]> prev, <[level := head (lvl h 0 L2)]> obs) =
        Some (head (lvl h 0 L2), prev', obs') /\
      (forall i, nth i prev' 0%nat = if decide (i <= level)%nat then pred_at i else nth i prev 0%nat) /\
      (forall i, (i <= level)%nat -> obs_ok i (nth i obs' None)) /\
      (forall i, (level < i)%nat -> nth i obs' None = nth i obs None)) as Hend.
  { intros -> Hpx. do 2 eexists. split; [done|]. split; [|split].
    - intros i. rewrite !nth_lookup, list_lookup_insert. destruct (decide (i <= 0)%nat).
      + rewrite decide_True by lia. simpl. rewrite Hpx. f_equal. lia.
      + by rewrite decide_False by lia.
    - intros i Hi. rewrite nth_lookup, list_lookup_insert, decide_True by lia. right. simpl.
      by replace i with 0%nat by lia.
    - intros i Hi. rewrite !nth_lookup, list_lookup_insert. by rewrite decide_False by lia. }
  destruct (search_step A x R level E Hlev Hx) as
    [(A' & b & R' & E' & Hlen & Hb & kb & Ek & Hcmp & Hp & Hext)|(Hpx & [[Hp E2]|(b & kb & E2 & Ek & Hcmp & Hp & Hext)])];
    rewrite Hp.
  - rewrite (KeyIsAfter_node b kb Ek), (proj2 (Z.ltb_lt _ _) Hcmp), orb_true_r.
    rewrite (proj2 (Z.ltb_ge _ _) Hext).
    destruct (IH A' b R' level prev obs) as (prev' & obs' & Hfind & Hrest); [done|done|done|lia|done|done|].
    destruct level; exists prev', obs'; (split; [exact Hfind|exact Hrest]).
  - destruct (Z.ltb_spec cmp_max (extractor_ key)) as [Hbad|Hok];
      [pose proof (so_ext_range key Hkey); lia|]. cbn [orb KeyIsAfterNode].
    destruct level as [|level'].
    + specialize (Hend eq_refl Hpx). rewrite E2 in Hend |- *. exact Hend.
    + destruct (extractor_ key <? cmp_max); apply Hdown; try done; by left.
  - rewrite (KeyIsAfter_node b kb Ek), (proj2 (Z.ltb_ge _ _) Hcmp), orb_false_r.
    rewrite (proj2 (Z.ltb_ge _ _) Hext).
    destruct level as [|level'].
    + specialize (Hend eq_refl Hpx). rewrite E2 in Hend |- *. exact Hend.
    + destruct (extractor_ key <? extractor_ kb); apply Hdown; try done; [by left|right; by rewrite E2].
Qed.

Lemma lvl0_all : lvl h 0 L2 = L2.
Proof.
  pose proof (sl_nodes _ _ Hsl) as Hn. apply Forall_app in Hn as [_ Hn].
  clear -Hn. induction Hn as [|x l (_ & n & k & En & _ & _ & _ & Hh) _ IH]; [done|].
  rewrite lvl_cons_in; [by rewrite IH|]. unfold node_height. rewrite En. lia.
Qed.

Lemma FindGreaterOrEqual_ok :
  exists prev obs, FindGreaterOrEqual compare_ extractor_ h key = Some (head L2, prev, obs) /\
    (forall i, (i < kMaxHeight)%nat -> nth i prev 0%nat = pred_at i) /\
    (forall i, (i < kMaxHeight)%nat -> obs_ok i (nth i obs None)).
Proof.
  unfold FindGreaterOrEqual.
  destruct (FindGreaterOrEqual_loop_ok (find_fuel h) [] 0 L1 (kMaxHeight - 1)
    (replicate kMaxHeight 0%nat) (replicate kMaxHeight None)) as (prev & obs & E & Hp & Ho & _).
  - done.
  - unfold kMaxHeight. lia.
  - rewrite (sl_head _ _ Hsl). unfold kMaxHeight. lia.
  - unfold find_fuel. rewrite (sl_count _ _ Hsl), length_app. lia.
  - apply length_replicate.
  - apply length_replicate.
  - exists prev, obs. rewrite E, lvl0_all. split; [done|]. split.
    + intros i Hi. rewrite Hp, decide_True; [done|]. lia.
    + intros i Hi. apply Ho. lia.
Qed.

Lemma FindLessThan_loop_ok fuel : forall A x R level,
  0%nat :: L1 = A ++ x :: R -> (level < kMaxHeight)%nat -> (level < node_height h x)%nat ->
  (length R + level < fuel)%nat ->
  FindLessThan_loop compare_ fuel h key x level = Some (pred_at 0).
Proof.
  induction fuel as [|fuel IH]; intros A x R level E Hlev Hx Hf; [lia|]. cbn [FindLessThan_loop].
  assert (x = pred_at level -> match level with
    | O => Some x | S level' => FindLessThan_loop compare_ fuel h key x level' end = Some (pred_at 0)) as Hstop.
  { intros Hpx. destruct level as [|level']; [by rewrite Hpx|]. eapply IH; [done|lia|lia|lia]. }
  destruct (search_step A x R level E Hlev Hx) as
    [(A' & b & R' & E' & Hlen & Hb & kb & Ek & Hcmp & Hp & _)|(Hpx & [[Hp _]|(b & kb & _ & Ek & Hcmp & Hp & _)])];
    rewrite Hp; cbn [snd].
  - rewrite Ek, (proj2 (Z.leb_gt _ _) Hcmp). eapply IH; [done|done|done|lia].
  - by apply Hstop.
  - rewrite Ek, (proj2 (Z.leb_le _ _) Hcmp). by apply Hstop.
Qed.

Lemma FindLessThan_ok : FindLessThan compare_ h key = Some (List.last L1 0%nat).
Proof.
  unfold FindLessThan. rewrite (FindLessThan_loop_ok (find_fuel h) [] 0 L1 (kMaxHeight - 1)).
  - f_equal. unfold pred_at.
    assert (lvl h 0 L1 = L1) as E1.
    { pose proof (sl_nodes _ _ Hsl) as Hn. apply Forall_app in Hn as [Hn _].
      clear -Hn. induction Hn as [|x l (_ & n & k & En & _ & _ & _ & Hh) _ IH]; [done|].
      rewrite lvl_cons_in; [by rewrite IH|]. unfold node_height. rewrite En. lia. }
    rewrite lvl_cons_in, E1 by (rewrite (sl_head _ _ Hsl); unfold kMaxHeight; lia).
    by destruct L1.
  - done.
  - unfold kMaxHeight. lia.
  - rewrite (sl_head _ _ Hsl). unfold kMaxHeight. lia.
  - unfold find_fuel. rewrite (sl_count _ _ Hsl), length_app. lia.
Qed.
End Search.

(** *** FindLast *)

Lemma FindLast_loop_ok h L fuel : SL h L -> forall A x R level,
  0%nat :: L = A ++ x :: R -> (level < kMaxHeight)%nat -> (level < node_height h x)%nat ->
  (length R + level < fuel)%nat -> FindLast_loop fuel h x level = Some (List.last L 0%nat).
Proof.
  intros Hsl. induction fuel as [|fuel IH]; intros A x R level E Hlev Hx Hf; [lia|]. cbn [FindLast_loop].
  pose proof (sl_links _ _ Hsl level Hlev) as Hl. rewrite E, lvl_app in Hl.
  apply links_app_r in Hl. rewrite lvl_cons_in in Hl by done. destruct Hl as [Hp _]. rewrite Hp.
  destruct (lvl_first h level R) as [ER|(R1 & b & R2 & -> & ER1 & Hb)].
  - rewrite ER. cbn [ptr_to snd]. destruct level as [|level'].
    + assert (R = []) as ->.
      { pose proof (sl_nodes _ _ Hsl) as Hn. destruct R as [|b R]; [done|exfalso].
        assert (b ∈ L) as Hb.
        { destruct A as [|a A]; simpl in E; injection E as _ ->; [left|].
          apply elem_of_app. right. right. left. }
        rewrite Forall_forall in Hn. destruct (Hn b Hb) as (_ & n & k & En & _ & _ & _ & Hh).
        unfold lvl in ER. simpl in ER. unfold node_height in ER. rewrite En in ER.
        destruct (height n) as [|hn] eqn:Ehn; [lia|]. done. }
      f_equal. destruct A as [|a A]; simpl in E; injection E as E0 ->; [done|]. by rewrite List.last_last.
    + eapply IH; [done|lia|lia|lia].
  - rewrite lvl_app, ER1, lvl_cons_in by done. cbn [app ptr_to snd].
    apply (IH (A ++ x :: R1) b R2); [by rewrite <- app_assoc|done|done|].
    rewrite length_app in Hf. simpl in Hf. lia.
Qed.

Lemma FindLast_ok h L : SL h L -> FindLast h = Some (List.last L 0%nat).
Proof.
  intros Hsl. unfold FindLast. apply (FindLast_loop_ok h L (find_fuel h) Hsl [] 0 L (kMaxHeight - 1)).
  - done.
  - unfold kMaxHeight. lia.
  - rewrite (sl_head _ _ Hsl). unfold kMaxHeight. lia.
  - unfold find_fuel. rewrite (sl_count _ _ Hsl). lia.
Qed.

(** *** Insert *)

(** [g] has the nodes of [h], and maybe more, up to their links. *)
Definition extends h (g : heap K) : Prop :=
  forall y n, h !! y = Some n -> exists n', g !! y = Some n' /\
    n_cmp n' = n_cmp n /\ n_key n' = n_key n /\ height n' = height n.

Lemma extends_refl h : extends h h.
Proof. intros y n E. by exists n. Qed.

Lemma extends_trans h1 h2 h3 : extends h1 h2 -> extends h2 h3 -> extends h1 h3.
Proof.
  intros H12 H23 y n E. destruct (H12 y n E) as (n' & E' & ? & ? & ?).
  destruct (H23 y n' E') as (n'' & E'' & ? & ? & ?). exists n''. repeat split; congruence.
Qed.

Lemma lookup_set_ptr h x i p y :
  set_ptr h x i p !! y =
    if decide (x = y)
    then (fun n => {| n_cmp := n_cmp n; n_key := n_key n; n_ptrs := <[i := p]> (n_ptrs n) |}) <$> (h !! x)
    else h !! y.
Proof. apply (list_lookup_alter (A := Node K)). Qed.

Lemma extends_set_ptr h x i p : extends h (set_ptr h x i p).
Proof.
  intros y n E. rewrite lookup_set_ptr. destruct (decide (x = y)) as [->|Hne].
  - rewrite E. simpl. eexists. split; [done|].
    unfold height. simpl. by rewrite length_insert.
  - by exists n.
Qed.

Lemma extends_app h k : extends h (h ++ k).
Proof. intros y n E. exists n. split; [by apply lookup_app_l_Some|done]. Qed.

Lemma length_set_ptr h x i p : length (set_ptr h x i p) = length h.
Proof. apply length_alter. Qed.

Section Extends.
Context (h g : heap K) (Hext : extends h g).

Lemma ext_facts y : is_Some (h !! y) ->
  node_height g y = node_height h y /\ cmp_of g y = cmp_of h y /\ key_of g y = key_of h y.
Proof.
  intros [n E]. destruct (Hext y n E) as (n' & E' & Hc & Hk & Hh).
  unfold node_height, cmp_of, key_of. by rewrite E, E', Hc, Hk, Hh.
Qed.

Lemma ext_lvl i l : Forall (fun y => is_Some (h !! y)) l -> lvl g i l = lvl h i l.
Proof.
  induction 1 as [|y l Hy _ IH]; [done|]. unfold lvl in *. simpl.
  destruct (ext_facts y Hy) as (-> & _). by rewrite IH.
Qed.

Lemma ext_node_ok y : node_ok h y -> node_ok g y.
Proof.
  intros (H0 & n & k & E & Ek & Hd & Hc & Hh). destruct (Hext y n E) as (n' & E' & Hc' & Hk' & Hh').
  split; [done|]. exists n', k. rewrite Hc', Hk', Hh'. done.
Qed.

Lemma ext_node_lt y k : node_lt h y k -> node_lt g y k.
Proof.
  intros (k' & Ek & Hlt). exists k'. split; [|done].
  unfold key_of in *. destruct (h !! y) as [n|] eqn:E; [|done].
  destruct (Hext y n E) as (n' & -> & _ & -> & _). done.
Qed.

Lemma ext_key_of y k : key_of h y = Some k -> key_of g y = Some k.
Proof.
  unfold key_of. destruct (h !! y) as [n|] eqn:E; [|done].
  by destruct (Hext y n E) as (n' & -> & _ & -> & _).
Qed.

Lemma ext_key_lt x y : key_lt h x y -> key_lt g x y.
Proof. intros (k & Ek & Hlt). exists k. split; [by apply ext_key_of|by apply ext_node_lt]. Qed.
End Extends.

Lemma get_ptr_set_ptr h x i p y j :
  is_Some (h !! x) -> (i < node_height h x)%nat ->
  get_ptr (set_ptr h x i p) y j = if decide (x = y /\ i = j) then p else get_ptr h y j.
Proof.
  intros [n En] Hi. unfold get_ptr, node_height in *. rewrite En in Hi.
  rewrite lookup_set_ptr. destruct (decide (x = y)) as [->|Hne].
  - rewrite En. simpl. rewrite !nth_lookup, list_lookup_insert. unfold height in Hi.
    repeat case_decide; simpl; try done; exfalso; intuition lia.
  - by rewrite decide_False by tauto.
Qed.

Lemma cas_hint_min c new : c <= cmp_max -> new <= c -> cas_hint 4 c cmp_max new = new.
Proof.
  intros Hc Hn. cbn [cas_hint]. repeat (case_match; try lia);
    repeat match goal with
    | H : (_ <? _) = true |- _ => apply Z.ltb_lt in H
    | H : (_ <? _) = false |- _ => apply Z.ltb_ge in H
    | H : (_ =? _) = true |- _ => apply Z.eqb_eq in H
    | H : (_ =? _) = false |- _ => apply Z.eqb_neq in H
    end; lia.
Qed.

(** Linking a node into a level behind [p]. *)
Lemma seg_insert h g i pre p x rest c :
  NoDup (pre ++ p :: rest) -> x ∉ pre ++ p :: rest ->
  links h i (pre ++ p :: rest) ->
  (forall a, a ∈ pre ++ rest -> get_ptr g a i = get_ptr h a i) ->
  (forall b, b ∈ x :: pre ++ p :: rest -> cmp_of g b = cmp_of h b) ->
  get_ptr g p i = (c, Some x) -> c = cmp_of h x -> get_ptr g x i = ptr_to h (head rest) ->
  links g i (pre ++ p :: x :: rest).
Proof.
  intros Hnd Hx Hl Hp Hc Hgp -> Hgx. unfold links in *. rewrite seg_app in Hl.
  cbn [seg] in Hl. destruct Hl as (Hpre & _ & Hrest). rewrite seg_app. cbn [seg].
  split; [|split; [|split]].
  - eapply seg_frame; [| |exact Hpre].
    + intros a Ha. apply Hp. apply elem_of_app. by left.
    + intros b [Hb|[= <-]]; apply Hc; right; apply elem_of_app; [by left|right; left].
  - rewrite Hgp. simpl. rewrite Hc; [done|left].
  - rewrite Hgx. destruct rest as [|b rest]; simpl; [done|]. rewrite Hc; [done|].
    right. apply elem_of_app. right. right. left.
  - eapply seg_frame; [| |exact Hrest].
    + intros a Ha. apply Hp. apply elem_of_app. by right.
    + intros b [Hb|?]; [|done]. apply Hc. right. apply elem_of_app. right. by right.
Qed.

Lemma key_lt_irrefl h x : node_ok h x -> key_lt h x x -> False.
Proof.
  intros (_ & n & k & En & Ek & Hd & _) (k1 & E1 & k2 & E2 & Hlt).
  unfold key_of in *. rewrite En, Ek in *.
  injection E1 as <-. injection E2 as <-. pose proof (proj1 (so_anti k k Hd Hd) Hlt). lia.
Qed.

Lemma SL_NoDup h L : SL h L -> NoDup (0%nat :: L).
Proof.
  intros [_ Hn Hs _ _]. apply NoDup_cons. split.
  - intros H0. rewrite Forall_forall in Hn. by destruct (Hn _ H0) as [? _].
  - induction Hs as [|x l Hs IH Hall]; [constructor|]. apply Forall_cons in Hn as [Hx Hn].
    apply NoDup_cons. split; [|by apply IH]. intros Hin.
    rewrite Forall_forall in Hall. by apply (key_lt_irrefl h x), Hall.
Qed.

Lemma NoDup_lvl h i l : NoDup l -> NoDup (lvl h i l).
Proof. rewrite !NoDup_ListNoDup. apply List.NoDup_filter. Qed.

Section Inserting.
Context (h0 : heap K) (L1 L2 : list nat) (key : K) (ht : nat).
Hypothesis Hsl : SL h0 (L1 ++ L2).
Hypothesis Hkey : dom key.
Hypothesis Hlt : Forall (fun x => node_lt h0 x key) L1.
Hypothesis Hgt : Forall (fun x => exists k, key_of h0 x = Some k /\ 0 < compare_ k key) L2.
Hypothesis Hht : (1 <= ht <= kMaxHeight)%nat.

Definition new_node : Node K :=
  {| n_cmp := extractor_ key; n_key := Some key; n_ptrs := replicate ht (cmp_max, None) |}.
Notation hn := (h0 ++ [new_node]).
Notation x := (length h0).

Local Lemma Hge : Forall (fun y => node_ge h0 y key) L2.
Proof. eapply Forall_impl; [exact Hgt|]. intros y (k & E & ?). exists k. split; [done|lia]. Qed.

Local Lemma valid_old : Forall (fun y => is_Some (h0 !! y)) (0%nat :: L1 ++ L2).
Proof.
  constructor.
  - apply lookup_lt_is_Some. rewrite (sl_count _ _ Hsl). lia.
  - eapply Forall_impl; [apply (sl_nodes _ _ Hsl)|]. intros y (_ & n & k & E & _). by exists n.
Qed.

Local Lemma x_fresh : x ∉ 0%nat :: L1 ++ L2.
Proof.
  intros Hin. pose proof valid_old as Hv. rewrite Forall_forall in Hv. specialize (Hv _ Hin).
  apply lookup_lt_is_Some in Hv. lia.
Qed.

Local Lemma x_node : hn !! x = Some new_node.
Proof. by apply list_lookup_middle. Qed.

Local Lemma x_height : node_height hn x = ht.
Proof. unfold node_height. rewrite x_node. apply length_replicate. Qed.

Local Lemma x_cmp : cmp_of hn x = extractor_ key.
Proof. unfold cmp_of. by rewrite x_node. Qed.

(** The heap when the levels below [i] are linked. *)
Record ins_state (g : heap K) (i : nat) : Prop := {
  is_ext : extends hn g;
  is_len : length g = length hn;
  is_done j : (j < i)%nat -> links g j (lvl hn j (0%nat :: L1 ++ x :: L2));
  is_todo j : (i <= j < kMaxHeight)%nat -> links g j (lvl hn j (0%nat :: L1 ++ L2));
}.

Local Lemma in_lvl i l y : y ∈ lvl hn i l -> y ∈ l /\ (i < node_height hn y)%nat.
Proof.
  intros Hy. apply list_elem_of_In in Hy. apply List.filter_In in Hy as [Hy Hb].
  apply list_elem_of_In in Hy. apply Nat.ltb_lt in Hb. done.
Qed.

Local Lemma valid_hn y : y ∈ 0%nat :: L1 ++ x :: L2 -> is_Some (hn !! y).
Proof.
  intros Hy. assert (y = x \/ y ∈ 0%nat :: L1 ++ L2) as [->|Hold].
  { apply elem_of_cons in Hy as [->|Hy]; [right; left|].
    apply elem_of_app in Hy as [Hy|Hy]; [right; right; apply elem_of_app; by left|].
    apply elem_of_cons in Hy as [->|Hy]; [by left|]. right. right. apply elem_of_app. by right. }
  - rewrite x_node. done.
  - pose proof valid_old as Hv. rewrite Forall_forall in Hv. destruct (Hv _ Hold) as [n E].
    exists n. by apply lookup_app_l_Some.
Qed.

Local Lemma ins_state_frame g g' i i' :
  ins_state g i -> extends g g' -> length g' = length g ->
  (forall y j, y ∈ 0%nat :: L1 ++ x :: L2 -> j <> i -> get_ptr g' y j = get_ptr g y j) ->
  (i' = i /\ (forall y, y ∈ 0%nat :: L1 ++ L2 -> get_ptr g' y i = get_ptr g y i) \/
   i' = S i /\ links g' i (lvl hn i (0%nat :: L1 ++ x :: L2))) ->
  ins_state g' i'.
Proof.
  intros [He Hlen Hdone Htodo] Hext Hlen' Hother Hi.
  assert (forall b, b ∈ 0%nat :: L1 ++ x :: L2 -> cmp_of g' b = cmp_of g b) as Hcmp.
  { intros b Hb. apply (ext_facts g g' Hext). destruct (valid_hn b Hb) as [n E].
    destruct (He b n E) as (n' & -> & _). done. }
  assert (forall y, y ∈ 0%nat :: L1 ++ L2 -> y ∈ 0%nat :: L1 ++ x :: L2) as Hsub.
  { intros y Hy. rewrite !elem_of_cons, !elem_of_app, !elem_of_cons in *. tauto. }
  assert (forall j l, (forall y, y ∈ l -> y ∈ 0%nat :: L1 ++ x :: L2) ->
    (forall y, y ∈ l -> get_ptr g' y j = get_ptr g y j) -> links g j l -> links g' j l) as Hframe.
  { intros j l Hl Hp Hs. eapply seg_frame; [exact Hp| |exact Hs]. intros b [Hb|?]; [|done]. by apply Hcmp, Hl. }
  split.
  - by eapply extends_trans.
  - congruence.
  - intros j Hj. destruct Hi as [[-> _]|[-> Hlink]].
    + apply Hframe; [by intros y [Hy _]%in_lvl| |by apply Hdone].
      intros y [Hy _]%in_lvl. apply Hother; [done|lia].
    + destruct (decide (j = i)) as [->|]; [done|].
      apply Hframe; [by intros y [Hy _]%in_lvl| |apply Hdone; lia].
      intros y [Hy _]%in_lvl. by apply Hother.
  - intros j Hj. apply Hframe; [intros y [Hy _]%in_lvl; by apply Hsub| |apply Htodo].
    + intros y [Hy _]%in_lvl. destruct Hi as [[-> Hsame]|[-> _]].
      * destruct (decide (j = i)) as [->|]; [by apply Hsame|]. apply Hother; [by apply Hsub|done].
      * apply Hother; [by apply Hsub|lia].
    + destruct Hi as [[-> _]|[-> _]]; lia.
Qed.

(** Writing the new node's own link changes nothing else. *)
Local Lemma ins_state_set_x g i q : ins_state g i -> (i < ht)%nat -> ins_state (set_ptr g x i q) i.
Proof.
  intros Hs Hi. pose proof (is_ext _ _ Hs) as He. destruct (He x new_node x_node) as (n' & En & _ & _ & Hh).
  assert (i < node_height g x)%nat as Hix.
  { unfold node_height. rewrite En, Hh. unfold height. simpl. by rewrite length_replicate. }
  apply (ins_state_frame g _ i i Hs).
  - apply extends_set_ptr.
  - apply length_set_ptr.
  - intros y j _ Hj. rewrite get_ptr_set_ptr by (done || by exists n').
    by rewrite decide_False by (intros [_ ?]; congruence).
  - left. split; [done|]. intros y Hy. rewrite get_ptr_set_ptr by (done || by exists n').
    rewrite decide_False; [done|]. intros [<- _]. by apply x_fresh.
Qed.

Section Level.
Context (i : nat) (Hi : (i < ht)%nat).

Notation pred := (pred_at h0 L1 i).
Notation rest := (lvl h0 i L2).

Local Lemma level_split :
  exists pre, lvl hn i (0%nat :: L1) = pre ++ [pred] /\ lvl hn i L2 = rest /\
    lvl hn i (0%nat :: L1 ++ L2) = pre ++ pred :: rest /\
    lvl hn i (0%nat :: L1 ++ x :: L2) = pre ++ pred :: x :: rest /\
    NoDup (pre ++ pred :: rest) /\ pred ∈ 0%nat :: L1 /\ (i < node_height hn pred)%nat.
Proof.
  pose proof valid_old as Hv. rewrite app_comm_cons in Hv. apply Forall_app in Hv as [Hv1 Hv2].
  pose proof (ext_lvl h0 hn (extends_app h0 [new_node]) i _ Hv1) as E1.
  pose proof (ext_lvl h0 hn (extends_app h0 [new_node]) i _ Hv2) as E2.
  assert (exists pre, lvl h0 i (0%nat :: L1) = pre ++ [pred]) as [pre Epre].
  { exists (removelast (lvl h0 i (0%nat :: L1))). unfold pred_at. apply app_removelast_last.
    rewrite lvl_cons_in by (rewrite (sl_head _ _ Hsl); lia). done. }
  exists pre. rewrite E1. split; [done|]. split; [done|].
  assert (lvl hn i (0%nat :: L1 ++ L2) = pre ++ pred :: rest) as E3.
  { rewrite app_comm_cons, lvl_app, E1, E2, Epre, <- app_assoc. done. }
  split; [done|]. split.
  { rewrite app_comm_cons, lvl_app, E1, Epre, lvl_cons_in, E2, <- app_assoc by (rewrite x_height; done). done. }
  split.
  { rewrite <- E3. apply NoDup_lvl. by apply (SL_NoDup h0). }
  apply in_lvl. rewrite E1, Epre. apply elem_of_app. right. left.
Qed.

(** The attempt with the right successor succeeds. *)
Local Lemma link_level_right g fuel :
  ins_state g i -> exists g', link_level compare_ (S fuel) g x i pred (head rest) key = Some g' /\ ins_state g' (S i).
Proof.
  intros Hs. destruct level_split as (pre & _ & _ & Eold & Enew & Hnd & Hpin & Hph).
  pose proof (is_ext _ _ Hs) as He. pose proof (is_todo _ _ Hs i ltac:(lia)) as Hl. rewrite Eold in Hl.
  assert (get_ptr g pred i = ptr_to g (head rest)) as Hpp.
  { apply links_app_r in Hl. destruct Hl as [-> _]. by destruct rest. }
  destruct (He x new_node x_node) as (nx & Enx & Hcx & _ & Hhx).
  assert (i < node_height g x)%nat as Hxh.
  { unfold node_height. rewrite Enx, Hhx. unfold height. simpl. by rewrite length_replicate. }
  assert (pred <> x) as Hpx.
  { intros E. apply x_fresh. rewrite <- E. rewrite app_comm_cons. apply elem_of_app. by left. }
  assert (is_Some (g !! pred) /\ (i < node_height g pred)%nat) as [Hpv Hpg].
  { assert (is_Some (hn !! pred)) as [n E].
    { apply valid_hn. rewrite app_comm_cons. apply elem_of_app. by left. }
    destruct (ext_facts hn g He pred ltac:(by exists n)) as (-> & _). split; [|done].
    by destruct (He _ _ E) as (n' & -> & _). }
  cbn [link_level].
  set (q := (match head rest with Some n => cmp_of g n | None => cmp_max end, head rest)).
  assert (q = ptr_to g (head rest)) as Eq by (unfold q; by destruct (head rest)).
  pose proof (ins_state_set_x g i q Hs Hi) as Hs1. set (g1 := set_ptr g x i q) in *.
  assert (cmp_of g1 x = extractor_ key) as Ecx.
  { destruct (ext_facts g g1 (extends_set_ptr g x i q) x ltac:(by exists nx)) as (_ & -> & _).
    unfold cmp_of. by rewrite Enx, Hcx. }
  assert (extractor_ key <= fst q <= cmp_max) as Hq.
  { rewrite Eq. destruct rest as [|b tl] eqn:Er; simpl; [pose proof (so_ext_range key Hkey); lia|].
    assert (b ∈ L2) as Hb by (apply (lvl_in h0 i); rewrite Er; left).
    destruct (L2_facts h0 L1 L2 key Hsl Hkey Hge b Hb) as (kb & Ek & Hd & Hc & _ & Hext).
    assert (is_Some (h0 !! b)) as Hbv.
    { pose proof valid_old as Hv. rewrite Forall_forall in Hv. apply Hv. right. apply elem_of_app. by right. }
    assert (is_Some (hn !! b)) as Hbn by (destruct Hbv as [n E]; exists n; by apply lookup_app_l_Some).
    destruct (ext_facts hn g He b Hbn) as (_ & -> & _).
    destruct (ext_facts h0 hn (extends_app h0 [new_node]) b Hbv) as (_ & -> & _).
    rewrite Hc. pose proof (so_ext_range kb Hd). lia. }
  change (match head rest with Some n => cmp_of g n | None => cmp_max end) with (fst q).
  destruct (Z.leb_spec (cmp_of g1 x) (fst q)); [|lia].
  unfold CasNext. unfold g1 at 1. rewrite get_ptr_set_ptr by (done || by exists nx).
  rewrite decide_False by (intros [? _]; congruence). rewrite Hpp, <- Eq. unfold q at 1.
  rewrite decide_True by done. fold (fst q). rewrite Ecx, cas_hint_min by (simpl in *; lia).
  eexists. split; [reflexivity|].
  set (g2 := set_ptr g1 pred i (extractor_ key, Some x)).
  assert (forall y j, get_ptr g2 y j = if decide (pred = y /\ i = j) then (extractor_ key, Some x)
    else if decide (x = y /\ i = j) then q else get_ptr g y j) as Hget.
  { intros y j. unfold g2. rewrite get_ptr_set_ptr.
    - case_decide; [done|]. unfold g1. by rewrite get_ptr_set_ptr by (done || by exists nx).
    - destruct Hpv as [n E]. destruct (extends_set_ptr g x i q pred n E) as (n' & E' & _). exists n'. exact E'.
    - destruct (ext_facts g g1 (extends_set_ptr g x i q) pred Hpv) as (-> & _). done. }
  apply (ins_state_frame g g2 i (S i) Hs).
  - eapply extends_trans; apply extends_set_ptr.
  - unfold g2, g1. by rewrite !length_set_ptr.
  - intros y j _ Hj. rewrite Hget, !decide_False by (intros [_ ?]; congruence). done.
  - right. split; [done|]. rewrite Enew.
    assert (cmp_of g x = extractor_ key) as Ecg by (unfold cmp_of; by rewrite Enx, Hcx).
    eapply (seg_insert g); [exact Hnd| |exact Hl| | |rewrite Hget, decide_True by done; reflexivity|done|].
    + rewrite <- Eold. intros Hin%in_lvl. by apply x_fresh, Hin.
    + intros a Ha. rewrite Hget. rewrite decide_False.
      * rewrite decide_False; [done|]. intros [<- _]. apply x_fresh.
        assert (x ∈ pre ++ pred :: rest) as Hin.
        { rewrite elem_of_app, elem_of_cons in *. tauto. }
        rewrite <- Eold in Hin. by apply in_lvl in Hin as [Hin _].
      * intros [<- _]. apply NoDup_app in Hnd as (_ & Hd1 & Hnd). apply NoDup_cons in Hnd as [Hd2 _].
        apply elem_of_app in Ha as [Ha|Ha]; [|done]. apply (Hd1 _ Ha). left.
    + intros b Hb. apply (ext_facts g g2); [eapply extends_trans; apply extends_set_ptr|].
      apply elem_of_cons in Hb as [->|Hb]; [by exists nx|]. rewrite <- Eold in Hb. apply in_lvl in Hb as [Hb _].
      assert (is_Some (hn !! b)) as [n E].
      { apply valid_hn. rewrite !elem_of_cons, !elem_of_app, !elem_of_cons in *. tauto. }
      by destruct (He _ _ E) as (n' & -> & _).
    + rewrite Hget, decide_False by (intros [? _]; congruence). by rewrite decide_True.
Qed.

Local Lemma link_level_S fuel g y j prev obs :
  link_level compare_ (S fuel) g y j prev obs key =
  let c := match obs with Some n => cmp_of g n | None => cmp_max end in
  let g := set_ptr g y j (c, obs) in
  let retry :=
    match advance compare_ (find_fuel g) g y j prev key with
    | Some (prev, obs) => link_level compare_ fuel g y j prev obs key
    | None => None
    end in
  if cmp_of g y <=? c
  then match CasNext g prev j obs y with Some g => Some g | None => retry end
  else retry.
Proof. reflexivity. Qed.

(** A NULL observation fails once, finds the successor and then succeeds. *)
Local Lemma link_level_ok g obs :
  ins_state g i -> obs_ok h0 L2 i obs ->
  exists g', link_level compare_ 3 g x i pred obs key = Some g' /\ ins_state g' (S i).
Proof.
  intros Hs [-> | ->]; [|by apply link_level_right].
  destruct (head rest) as [b|] eqn:Er; [|rewrite <- Er; by apply link_level_right].
  destruct level_split as (pre & _ & _ & Eold & _ & _ & Hpin & _).
  rewrite link_level_S. cbv zeta. pose proof (ins_state_set_x g i (cmp_max, None) Hs Hi) as Hs1.
  set (g1 := set_ptr g x i (cmp_max, None)) in *. pose proof (is_ext _ _ Hs1) as He1.
  assert (is_Some (hn !! x)) as Hxv by (rewrite x_node; done).
  assert (cmp_of g1 x = extractor_ key) as Ecx
    by (destruct (ext_facts hn g1 He1 x Hxv) as (_ & -> & _); apply x_cmp).
  pose proof (so_ext_range key Hkey) as Hrk.
  destruct (Z.leb_spec (cmp_of g1 x) cmp_max); [|lia].
  pose proof (is_todo _ _ Hs1 i ltac:(lia)) as Hl. rewrite Eold in Hl.
  assert (get_ptr g1 pred i = (cmp_of g1 b, Some b)) as Hpp.
  { apply links_app_r in Hl. destruct Hl as [-> _]. destruct rest; [done|]. injection Er as ->. done. }
  unfold CasNext. rewrite Hpp, decide_False by done.
  replace (find_fuel g1) with (S (length g1 + kMaxHeight)) by (unfold find_fuel; lia).
  cbn [advance]. rewrite Hpp, Ecx.
  assert (b ∈ L2) as Hb by (apply (lvl_in h0 i); destruct rest; [done|injection Er as ->; left]).
  destruct (L2_facts h0 L1 L2 key Hsl Hkey Hge b Hb) as (kb & Ek & Hd & Hc & Hcmp & Hext).
  assert (is_Some (h0 !! b)) as Hbv.
  { pose proof valid_old as Hv. rewrite Forall_forall in Hv. apply Hv. right. apply elem_of_app. by right. }
  pose proof (extends_trans _ _ _ (extends_app h0 [new_node]) He1) as He01.
  destruct (ext_facts h0 g1 He01 b Hbv) as (_ & -> & Ekb). rewrite Hc, (proj2 (Z.ltb_ge _ _) Hext).
  unfold KeyIsAfterNode. rewrite Ekb, Ek, (proj2 (Z.ltb_ge _ _) Hcmp). cbn [orb].
  rewrite <- Er. by apply link_level_right.
Qed.
End Level.

Local Lemma link_levels_ok n : forall i g prev obs,
  (i + n = ht)%nat -> ins_state g i ->
  (forall j, (j < kMaxHeight)%nat -> nth j prev 0%nat = pred_at h0 L1 j) ->
  (forall j, (j < kMaxHeight)%nat -> obs_ok h0 L2 j (nth j obs None)) ->
  exists g', link_levels compare_ n i g x prev obs key = Some g' /\ ins_state g' ht.
Proof.
  induction n as [|n IH]; intros i g prev obs En Hs Hp Ho; cbn [link_levels].
  - exists g. split; [done|]. by replace ht with i by lia.
  - destruct (link_level_ok i ltac:(lia) g (nth i obs None) Hs) as (g' & E & Hs'); [apply Ho; lia|].
    rewrite Hp, E by lia. apply IH; [lia|done|done|done].
Qed.

Local Lemma ins_state_start : ins_state hn 0.
Proof.
  split; [apply extends_refl|done|lia|]. intros j Hj.
  rewrite (ext_lvl h0 hn (extends_app h0 [new_node]) j _ valid_old).
  pose proof valid_old as Hv. rewrite Forall_forall in Hv.
  eapply seg_frame; [| |apply (sl_links _ _ Hsl); lia].
  - intros a Ha. apply (lvl_in h0) in Ha. destruct (Hv a Ha) as [n E].
    unfold get_ptr. rewrite E. by rewrite (lookup_app_l_Some _ _ _ _ E).
  - intros b [Hb|?]; [|done]. apply (lvl_in h0) in Hb.
    by destruct (ext_facts h0 hn (extends_app h0 [new_node]) b (Hv b Hb)) as (_ & -> & _).
Qed.

Local Lemma sorted_insert :
  StronglySorted (key_lt hn) (L1 ++ x :: L2).
Proof.
  pose proof (sl_sorted _ _ Hsl) as Hs.
  assert (StronglySorted (key_lt hn) (L1 ++ L2)) as Hs'.
  { clear -Hs. induction Hs as [|a l _ IH Ha]; [constructor|]. constructor; [done|].
    eapply Forall_impl; [exact Ha|]. intros b. apply ext_key_lt, extends_app. }
  assert (key_of hn x = Some key) as Ex by (unfold key_of; by rewrite x_node).
  assert (Forall (fun a => key_lt hn a x) L1) as H1.
  { eapply Forall_impl; [exact Hlt|]. intros a Ha. exists key. split; [done|].
    eapply ext_node_lt; [apply extends_app|done]. }
  assert (Forall (key_lt hn x) L2) as H2.
  { apply Forall_forall. intros b Hb. rewrite Forall_forall in Hgt.
    destruct (Hgt b Hb) as (k & Ek & Hk). exists k. split; [by apply (ext_key_of h0 hn (extends_app h0 _))|].
    exists key. split; [done|]. destruct (node_facts h0 L1 L2 Hsl b) as (k' & Ek' & Hd & _);
      [apply elem_of_app; by right|]. rewrite Ek in Ek'. injection Ek' as <-.
    by apply (so_anti key k). }
  clear -Hs' H1 H2. induction L1 as [|a l IH]; simpl in *.
  - by constructor.
  - inversion Hs' as [|? ? Hs Ha]; subst. apply Forall_cons in H1 as [Ha1 H1].
    constructor; [by apply IH|]. apply Forall_app in Ha as [? ?]. apply Forall_app. split; [done|by constructor].
Qed.

Lemma Insert_ok : exists g, Insert compare_ extractor_ h0 key ht = Some g /\ SL g (L1 ++ x :: L2) /\
  extends h0 g /\ key_of g x = Some key.
Proof.
  unfold Insert. destruct (FindGreaterOrEqual_ok h0 L1 L2 key Hsl Hkey Hlt Hge) as (prev & obs & -> & Hp & Ho).
  cbn [NewNode]. destruct (link_levels_ok ht 0 hn prev obs eq_refl ins_state_start Hp Ho) as (g & E & Hs).
  exists g. split; [exact E|]. destruct Hs as [He Hlen Hdone Htodo].
  pose proof (extends_trans _ _ _ (extends_app h0 [new_node]) He) as He0.
  assert (Forall (fun y => is_Some (hn !! y)) (0%nat :: L1 ++ x :: L2)) as Hv
    by (apply Forall_forall; apply valid_hn).
  split; [|split; [done|]].
  - split.
    + rewrite <- (sl_head _ _ Hsl). apply (ext_facts h0 g He0).
      pose proof valid_old as Hv0. by apply Forall_cons in Hv0 as [? _].
    + pose proof (sl_nodes _ _ Hsl) as Hn. apply Forall_app in Hn as [Hn1 Hn2].
      apply Forall_app. split; [|constructor].
      * eapply Forall_impl; [exact Hn1|]. intros y. by apply ext_node_ok.
      * apply (ext_node_ok hn g He). split; [rewrite (sl_count _ _ Hsl); lia|].
        exists new_node, key. rewrite x_node. unfold height. simpl. rewrite length_replicate. done.
      * eapply Forall_impl; [exact Hn2|]. intros y. by apply ext_node_ok.
    + pose proof sorted_insert as Hs. clear -Hs He. induction Hs as [|a l _ IH Ha]; [constructor|].
      constructor; [done|]. eapply Forall_impl; [exact Ha|]. intros b. by apply ext_key_lt.
    + intros j Hj. rewrite (ext_lvl hn g He j _ Hv). destruct (decide (j < ht)%nat); [by apply Hdone|].
      replace (lvl hn j (0%nat :: L1 ++ x :: L2)) with (lvl hn j (0%nat :: L1 ++ L2)); [apply Htodo; lia|].
      rewrite !app_comm_cons, !lvl_app. f_equal. unfold lvl at 2. simpl. rewrite x_height.
      rewrite (proj2 (Nat.ltb_ge _ _)) by lia. done.
    + rewrite Hlen, !length_app, (sl_count _ _ Hsl), length_app. simpl. lia.
  - apply (ext_key_of hn g He). unfold key_of. by rewrite x_node.
Qed.
End Inserting.

Lemma new_SkipList_ok : SL new_SkipList [].
Proof.
  split.
  - reflexivity.
  - constructor.
  - constructor.
  - intros i Hi. rewrite lvl_cons_in by exact Hi. split; [|done].
    unfold get_ptr, new_SkipList. simpl. change (nth i (replicate kMaxHeight (cmp_max, @None nat)) (cmp_max, None) = (cmp_max, None)).
    rewrite nth_lookup. destruct (replicate kMaxHeight (cmp_max, @None nat) !! i) as [q|] eqn:E; [|done].
    by apply lookup_replicate in E as [-> _].
  - reflexivity.
Qed.

(** *** Positions in the sorted list *)

Lemma SL_key h L y : SL h L -> y ∈ L -> exists k, key_of h y = Some k /\ dom k.
Proof.
  intros Hsl Hy. pose proof (sl_nodes _ _ Hsl) as Hn. rewrite Forall_forall in Hn.
  destruct (Hn y Hy) as (_ & n & k & En & Ek & Hd & _). exists k. unfold key_of. by rewrite En.
Qed.

(** A key splits the list into the nodes before it and the others. *)
Lemma SL_split h L key : SL h L -> dom key ->
  exists L1 L2, L = L1 ++ L2 /\ Forall (fun y => node_lt h y key) L1 /\ Forall (fun y => node_ge h y key) L2.
Proof.
  intros Hsl Hkey. pose proof (fun y => SL_key h L y Hsl) as Hk. pose proof (sl_sorted _ _ Hsl) as Hs.
  clear Hsl. induction Hs as [|a l Hs IH Ha]; [by exists [], []|].
  destruct (Hk a ltac:(left)) as (ka & Eka & Hda).
  destruct (Z.lt_ge_cases (compare_ ka key) 0) as [Hlt|Hge0].
  - destruct IH as (L1 & L2 & -> & H1 & H2); [intros y Hy; apply Hk; by right|].
    exists (a :: L1), L2. split; [done|]. split; [|done]. constructor; [by exists ka|done].
  - exists [], (a :: l). split; [done|]. split; [constructor|]. constructor; [by exists ka|].
    apply Forall_forall. intros b Hb. rewrite Forall_forall in Ha.
    destruct (Ha b Hb) as (kb & Ekb & ka' & Eka' & Hlt'). rewrite Eka in Eka'. injection Eka' as <-.
    exists kb. split; [done|]. destruct (Hk b ltac:(by right)) as (kb' & Ekb' & Hdb).
    rewrite Ekb in Ekb'. injection Ekb' as <-.
    destruct (Z.lt_ge_cases (compare_ kb key) 0) as [Hbad|]; [|done].
    pose proof (so_lt_le ka kb key Hda Hdb Hkey Hlt' ltac:(lia)). lia.
Qed.

(** The nodes before a node of the list are those with smaller keys. *)
Lemma SL_split_at h L1 y L2 k : SL h (L1 ++ y :: L2) -> key_of h y = Some k ->
  Forall (fun z => node_lt h z k) L1 /\ Forall (fun z => node_ge h z k) (y :: L2).
Proof.
  intros Hsl Ek. pose proof (fun z => SL_key h _ z Hsl) as Hk. pose proof (sl_sorted _ _ Hsl) as Hs.
  destruct (Hk y) as (k' & Ek' & Hd); [apply elem_of_app; right; left|]. rewrite Ek in Ek'. injection Ek' as <-.
  assert (compare_ k k = 0) as Hrefl.
  { destruct (Z.lt_trichotomy (compare_ k k) 0) as [H|[H|H]]; [|done|].
    - pose proof (proj1 (so_anti k k Hd Hd) H). lia.
    - pose proof (proj2 (so_anti k k Hd Hd) H). lia. }
  clear Hsl. induction L1 as [|a l IH]; simpl in *; inversion Hs as [|? ? Hs' Ha]; subst.
  - split; [constructor|]. constructor; [exists k; split; [done|lia]|].
    apply Forall_forall. intros z Hz. rewrite Forall_forall in Ha.
    destruct (Ha z Hz) as (kz & Ekz & k2 & Ek2 & Hlt). rewrite Ek in Ek2. injection Ek2 as <-.
    exists kz. split; [done|]. destruct (Hk z ltac:(by right)) as (kz' & Ekz' & Hdz).
    rewrite Ekz in Ekz'. injection Ekz' as <-. pose proof (proj1 (so_anti k kz Hd Hdz) Hlt). lia.
  - destruct IH as [H1 H2]; [intros z Hz; apply Hk; by right|done|]. split; [|done].
    constructor; [|done]. rewrite Forall_forall in Ha.
    destruct (Ha y) as (k2 & Ek2 & Hlt); [apply elem_of_app; right; left|].
    rewrite Ek in Ek2. injection Ek2 as <-. exact Hlt.
Qed.

(** The links of level 0 visit every node. *)
Lemma seg_lookup h i l : forall n y, links h i l -> l !! n = Some y -> get_ptr h y i = ptr_to h (l !! S n).
Proof.
  unfold links. induction l as [|a l IH]; intros n y Hs Hn; [done|]. destruct Hs as [Ha Hs].
  destruct n as [|n]; simpl in Hn.
  - injection Hn as <-. rewrite Ha. by destruct l.
  - by apply IH.
Qed.

Lemma SL_next h L y i : SL h L -> (0%nat :: L) !! i = Some y -> snd (get_ptr h y 0) = L !! i.
Proof.
  intros Hsl Hy. pose proof (sl_links _ _ Hsl 0 ltac:(unfold kMaxHeight; lia)) as Hl.
  assert (lvl h 0 (0%nat :: L) = 0%nat :: L) as E.
  { rewrite lvl_cons_in by (rewrite (sl_head _ _ Hsl); unfold kMaxHeight; lia). f_equal.
    by apply (lvl0_all h [] L). }
  rewrite E in Hl. rewrite (seg_lookup h 0 _ i y Hl Hy). simpl. by destruct (L !! i).
Qed.

Lemma head_to_null_in h L y : SL h L -> y ∈ L -> head_to_null y = Some y.
Proof.
  intros Hsl Hy. pose proof (sl_nodes _ _ Hsl) as Hn. rewrite Forall_forall in Hn.
  destruct (Hn y Hy) as [H0 _]. by destruct y.
Qed.

Lemma head_to_null_last h L L' : SL h L -> L = L' ++ drop (length L') L ->
  head_to_null (List.last L' 0%nat) = last L'.
Proof.
  intros Hsl E. destruct L' as [|a l] using rev_ind; [done|]. rewrite List.last_last, last_snoc.
  apply (head_to_null_in h L); [done|]. rewrite E. apply elem_of_app. left. apply elem_of_app. right. left.
Qed.
(** *** The iterator *)
Lemma it_Seek_ok h L target : SL h L -> dom target ->
  exists L1 L2, L = L1 ++ L2 /\ Forall (fun y => node_lt h y target) L1 /\ Forall (fun y => node_ge h y target) L2 /\
    it_Seek compare_ extractor_ h target = Some (head L2) /\
    Contains compare_ extractor_ h target =
      Some (match head L2 with
            | Some y => match key_of h y with Some k => compare_ target k =? 0 | None => false end
            | None => false
            end).
Proof.
  intros Hsl Hkey. destruct (SL_split h L target Hsl Hkey) as (L1 & L2 & -> & H1 & H2).
  destruct (FindGreaterOrEqual_ok h L1 L2 target Hsl Hkey H1 H2) as (prev & obs & E & _).
  exists L1, L2. repeat (split; [done|]). unfold it_Seek, Contains. rewrite E. split; [done|].
  destruct L2 as [|y L2]; [done|]. simpl. destruct (SL_key h _ y Hsl) as (k & -> & _); [apply elem_of_app; right; left|done].
Qed.

Lemma it_ends_ok h L : SL h L -> it_SeekToFirst h = head L /\ it_SeekToLast h = Some (last L).
Proof.
  intros Hsl. split.
  - unfold it_SeekToFirst. rewrite (SL_next h L 0%nat 0 Hsl eq_refl). by destruct L.
  - unfold it_SeekToLast. rewrite (FindLast_ok h L Hsl). f_equal. eapply head_to_null_last; [exact Hsl|]. by rewrite drop_all, app_nil_r.
Qed.

Lemma it_moves_ok h L i y : SL h L -> L !! i = Some y ->
  it_Next h (Some y) = L !! S i /\ it_Prev compare_ h (Some y) = Some (match i with O => None | S j => L !! j end).
Proof.
  intros Hsl Hy. split.
  - unfold it_Next. by rewrite (SL_next h L y (S i) Hsl Hy).
  - pose proof (take_drop_middle L i y Hy) as EL. rewrite <- EL in Hsl.
    destruct (SL_key h _ y Hsl) as (k & Ek & Hd); [apply elem_of_app; right; left|].
    destruct (SL_split_at h _ y _ k Hsl Ek) as [H1 H2]. unfold it_Prev, it_key. rewrite Ek.
    rewrite (FindLessThan_ok h (take i L) (y :: drop (S i) L) k Hsl Hd H1 H2).
    f_equal. rewrite (head_to_null_last h _ (take i L) Hsl).
    + destruct i as [|j]; [by rewrite take_0|].
      destruct (lookup_lt_is_Some_2 L j) as [z Ez]; [apply lookup_lt_Some in Hy; lia|].
      by rewrite (take_S_r L j z Ez), last_snoc.
    + by rewrite drop_app_length.
Qed.
End Spec.

(** ** Claims *)

(** C25. Insert refines sorted insertion: on a skip list that represents a
    sorted list of nodes and holds no equal key, Insert with any height ends,
    and its result represents the same list with the new node inserted at the
    key's place; keys already present are unchanged.  All levels of links and
    all hints are again exact. *)
Theorem skiplist_insert_sorted {K} (compare_ : K -> K -> Z) (extractor_ : K -> Z) (dom : K -> Prop)
    (Hord : SkipOrder compare_ extractor_ dom) (h : heap K) (L : list nat) (key : K) (ht : nat)
    (Hsl : SL compare_ extractor_ dom h L) (Hkey : dom key)
    (Hnew : Forall (fun y => forall k, key_of h y = Some k -> compare_ k key <> 0) L)
    (Hht : (1 <= ht <= kMaxHeight)%nat) :
  exists L1 L2 g, L = L1 ++ L2 /\
    Forall (fun y => node_lt compare_ h y key) L1 /\ Forall (fun y => node_ge compare_ h y key) L2 /\
    Insert compare_ extractor_ h key ht = Some g /\
    SL compare_ extractor_ dom g (L1 ++ length h :: L2) /\ key_of g (length h) = Some key /\
    Forall (fun y => key_of g y = key_of h y) L.
Proof.
  destruct (SL_split compare_ extractor_ dom h L key Hsl Hkey) as (L1 & L2 & -> & H1 & H2).
  destruct (Insert_ok compare_ extractor_ dom h L1 L2 key ht Hsl Hkey H1) as (g & E & Hg & Hext & Hk).
  - apply Forall_app in Hnew as [_ Hnew]. apply Forall_forall. intros y Hy.
    rewrite Forall_forall in H2, Hnew. destruct (H2 y Hy) as (k & Ek & Hge).
    exists k. split; [done|]. specialize (Hnew y Hy k Ek). lia.
  - done.
  - exists L1, L2, g. repeat (split; [done|]). apply Forall_forall. intros y Hy.
    destruct (SL_key compare_ extractor_ dom h _ y Hsl Hy) as (k & Ek & _). rewrite Ek.
    by eapply ext_key_of.
Qed.

(** Searches and iteration refine the sorted list: Seek stops at the first
    node whose key is not before the target, Contains reports an equal key,
    SeekToFirst and SeekToLast stop at the ends, and Next and Prev move by one
    position, off either end to the invalid iterator; none of them runs out
    of steps or follows a null link. *)
Theorem skiplist_iteration {K} (compare_ : K -> K -> Z) (extractor_ : K -> Z) (dom : K -> Prop)
    (Hord : SkipOrder compare_ extractor_ dom) (h : heap K) (L : list nat) (target : K)
    (Hsl : SL compare_ extractor_ dom h L) (Hkey : dom target) :
  (exists L1 L2, L = L1 ++ L2 /\
     Forall (fun y => node_lt compare_ h y target) L1 /\ Forall (fun y => node_ge compare_ h y target) L2 /\
     it_Seek compare_ extractor_ h target = Some (head L2) /\
     Contains compare_ extractor_ h target =
       Some (match head L2 with
             | Some y => match key_of h y with Some k => compare_ target k =? 0 | None => false end
             | None => false
             end)) /\
  it_SeekToFirst h = head L /\ it_SeekToLast h = Some (last L) /\
  (forall i y, L !! i = Some y ->
     it_Next h (Some y) = L !! S i /\
     it_Prev compare_ h (Some y) = Some (match i with O => None | S j => L !! j end)).
Proof.
  split; [by apply (it_Seek_ok compare_ extractor_ dom)|]. destruct (it_ends_ok compare_ extractor_ dom h L Hsl) as [H1 H2]. split; [done|]. split; [done|].
  intros i y Hy. by apply (it_moves_ok compare_ extractor_ dom).
Qed.

(** Keys ordered by a number, with the number's upper part as hint. *)
#[export] Instance number_order : SkipOrder (fun a b : Z => a - b) (fun a => a / 16) (fun a => 0 <= a < 2 ^ 64).
Proof. split; intros; try lia; [unfold cmp_max|]; Z.div_mod_to_equations; lia. Qed.

Lemma skiplist_insert_sorted_witness :
  exists g, Insert (fun a b : Z => a - b) (fun a => a / 16) new_SkipList 5 2 = Some g /\
    SL (fun a b : Z => a - b) (fun a => a / 16) (fun a => 0 <= a < 2 ^ 64) g [1%nat].
Proof.
  destruct (skiplist_insert_sorted (fun a b : Z => a - b) (fun a => a / 16) (fun a => 0 <= a < 2 ^ 64)
    number_order new_SkipList [] 5 2) as (L1 & L2 & g & E & _ & _ & Ei & Hg & _).
  - apply new_SkipList_ok.
  - lia.
  - constructor.
  - unfold kMaxHeight. lia.
  - exists g. split; [exact Ei|]. symmetry in E. apply app_eq_nil in E as [-> ->]. exact Hg.
Defined.

Lemma skiplist_iteration_witness :
  it_Seek (fun a b : Z => a - b) (fun a => a / 16) new_SkipList 5 = Some None /\
  it_SeekToFirst (K := Z) new_SkipList = None.
Proof.
  destruct (skiplist_iteration (fun a b : Z => a - b) (fun a => a / 16) (fun a => 0 <= a < 2 ^ 64)
    number_order new_SkipList [] 5) as [(L1 & L2 & E & _ & _ & Es & _) [Ef _]].
  - apply new_SkipList_ok.
  - lia.
  - split; [|exact Ef]. symmetry in E. apply app_eq_nil in E as [-> ->]. exact Es.
Defined.
