(* ===== verification/Arena.v ===== *)
(** * The arena of the memtables (util/arena.cc, util/arena.h)

    Threads that insert into a memtable take their memory from one arena
    without a lock.  A call reserves its bytes in the newest block by a
    compare-and-swap on [rem], pushes a new block when too few are left, and
    then takes its place at one of the two ends of the block, aligned sizes at
    the upper end, all others at the lower one, by a second compare-and-swap.
    Allocations above a quarter of a block get a block of their own.

    The step relation interleaves the loads, stores and compare-and-swaps of
    any number of calls (sequentially consistent; every location is an atomic
    word).  The kernel answers mmap with any free pages, or with failure, and
    the allocator of Block objects with any free pointer, also one that a
    deleted block had. *)

From Stdlib Require Import ZArith Lia Bool.
From stdpp Require Import base list gmap relations.
From S2P Require Import Prelude.

Set Default Goal Selector "!".
Local Open Scope Z_scope.

Definition BLOCK_SIZE : Z := 65536.
(** align_, where a pointer has eight bytes. *)
Definition align_ : Z := 8.
(** Four pointers and two uint32_t fields, each padded to eight bytes. *)
Definition sizeof_Block : Z := 48.

(** A Block object, with the length of the mapping at [base] (which the kernel
    keeps: the field [size] has only 32 bits). *)
Record ArenaBlock := {
  next : option nat;
  rem : Z;
  next_lower : Z;
  next_upper : Z;
  base : Z;
  size : Z;
  map_len : Z;
}.
Definition new_ArenaBlock : ArenaBlock :=
  {| next := None; rem := 0; next_lower := 0; next_upper := 0; base := 0; size := 0; map_len := 0 |}.
Definition with_link (p : option nat) (b : ArenaBlock) : ArenaBlock :=
  {| next := p; rem := rem b; next_lower := next_lower b; next_upper := next_upper b; base := base b; size := size b; map_len := map_len b |}.
Definition with_rem (r : Z) (b : ArenaBlock) : ArenaBlock :=
  {| next := next b; rem := r; next_lower := next_lower b; next_upper := next_upper b; base := base b; size := size b; map_len := map_len b |}.
Definition with_lower (p : Z) (b : ArenaBlock) : ArenaBlock :=
  {| next := next b; rem := rem b; next_lower := p; next_upper := next_upper b; base := base b; size := size b; map_len := map_len b |}.
Definition with_upper (p : Z) (b : ArenaBlock) : ArenaBlock :=
  {| next := next b; rem := rem b; next_lower := next_lower b; next_upper := p; base := base b; size := size b; map_len := map_len b |}.

(** The arena and the Block objects in memory. *)
Record Arena := {
  memory_usage_ : Z;
  blocks_ : nat;
  large_ : option nat;
  heap : gmap nat ArenaBlock;
}.
Definition with_heap (f : gmap nat ArenaBlock -> gmap nat ArenaBlock) (a : Arena) : Arena :=
  {| memory_usage_ := memory_usage_ a; blocks_ := blocks_ a; large_ := large_ a; heap := f (heap a) |}.
Definition with_blocks (b : nat) (a : Arena) : Arena :=
  {| memory_usage_ := memory_usage_ a; blocks_ := b; large_ := large_ a; heap := heap a |}.
Definition with_large (b : option nat) (a : Arena) : Arena :=
  {| memory_usage_ := memory_usage_ a; blocks_ := blocks_ a; large_ := b; heap := heap a |}.
Definition increment_usage (n : Z) (a : Arena) : Arena :=
  {| memory_usage_ := u64 (memory_usage_ a + n); blocks_ := blocks_ a; large_ := large_ a; heap := heap a |}.

Definition MemoryUsage (a : Arena) : Z := memory_usage_ a.

(** (bytes + (align_-1)) & ~(align_-1) *)
Definition align_up (bytes : Z) : Z := Z.land (u64 (bytes + (align_ - 1))) (Z.lnot (align_ - 1)).

(** Where a call of Allocate stands; the comments name the next action. *)
Inductive ArenaPc :=
  | Start (bytes : Z)                                     (* the test for a large allocation *)
  | Load_blocks (bytes : Z)                               (* load blocks_ *)
  | Load_rem (bytes : Z) (b : nat)                        (* load b->rem *)
  | Try_rem (bytes : Z) (b : nat) (r : Z)                 (* the inner loop: swap b->rem, or NewBlock *)
  | Store_next (bytes : Z) (b nb : nat)                   (* nb->next = b *)
  | Push (bytes : Z) (b nb : nat)                         (* swap blocks_ *)
  | Count (bytes : Z)                                     (* memory_usage_ += sizeof(Block) *)
  | Large_load (bytes : Z) (nb : nat)                     (* load large_ *)
  | Large_store (bytes : Z) (nb : nat) (b : option nat)   (* nb->next = b *)
  | Large_swap (bytes : Z) (nb : nat) (b : option nat)    (* swap large_ *)
  | Large_count (bytes : Z) (nb : nat)                    (* memory_usage_ += sizeof(Block) *)
  | Final_load (bytes : Z) (b : nat)                      (* load *p *)
  | Final_swap (bytes : Z) (b : nat) (expected : Z)       (* swap *p *)
  | Final_lower (bytes : Z) (b : nat) (ret : Z)           (* load nl *)
  | Final_upper (bytes : Z) (b : nat) (ret nl : Z)        (* load nu, assert(nl <= nu) *)
  | Again (bytes : Z) (b : nat) (ret : Z)                 (* the second assert: one of the loads *)
  | Again_lower (bytes : Z) (b : nat) (ret nl : Z)        (* the other one *)
  | Again_upper (bytes : Z) (b : nat) (ret nu : Z)
  | Final_count (bytes : Z) (b : nat) (ret : Z)           (* memory_usage_ += bytes *)
  | Return (bytes : Z) (b : nat) (ret : Z)                (* back in the caller *)
  | Done (bytes : Z) (b : nat) (ret : Z)
  | Bad_alloc                                             (* std::bad_alloc was thrown *)
  | AssertFailed.

Section Arena.
Context (page_size_ : Z).

(** The length NewBlock asks mmap for. *)
Definition block_length (bytes : Z) : Z := Z.land (u64 (bytes + page_size_ - 1)) (Z.lnot (page_size_ - 1)).

(** [ptr] is the address of the new object, [mm] mmap's answer (None:
    MAP_FAILED; the object is then lost); the call goes on at [k]. *)
Definition NewBlock (ptr : nat) (mm : option Z) (bytes : Z) (a : Arena) (k : ArenaPc) : Arena * ArenaPc :=
  let sz := block_length bytes in
  if negb (sz / page_size_ * page_size_ =? sz) then (a, AssertFailed)
  else
    match mm with
    | None => (with_heap <[ptr := new_ArenaBlock]> a, Bad_alloc)
    | Some p =>
        let nb := {| next := None; rem := u32 sz; next_lower := p; next_upper := p + sz; base := p; size := u32 sz; map_len := sz |} in
        (with_heap <[ptr := nb]> a, k)
    end.

(** The end of the block that AllocateFinalize moves, by how much, and the
    offset of the result from the new value. *)
Definition finalize_upper (bytes : Z) : bool := bytes =? align_up bytes.
Definition end_of (bytes : Z) (b : ArenaBlock) : Z := if finalize_upper bytes then next_upper b else next_lower b.
Definition cas_diff (bytes : Z) : Z := if finalize_upper bytes then 0 - bytes else 0 + bytes.
Definition ret_diff (bytes : Z) : Z := if finalize_upper bytes then 0 else 0 - bytes.
Definition with_end (bytes p : Z) (b : ArenaBlock) : ArenaBlock := if finalize_upper bytes then with_upper p b else with_lower p b.

(** One action of a call ([aligned]: AllocateAligned).  [lower_first] is the
    order of the two loads of the second assertion.  None: a pointer to a
    deleted block is followed. *)
Definition advance (ptr : nat) (mm : option Z) (lower_first aligned : bool) (a : Arena) (pc : ArenaPc) : option (Arena * ArenaPc) :=
  match pc with
  | Start bytes =>
      Some (if negb (0 <? bytes) then (a, AssertFailed)
            else if Z.shiftr BLOCK_SIZE 2 <? bytes then NewBlock ptr mm bytes a (Large_load bytes ptr)
            else (a, Load_blocks bytes))
  | Load_blocks bytes => Some (a, Load_rem bytes (blocks_ a))
  | Load_rem bytes b => blk ← heap a !! b; Some (a, Try_rem bytes b (rem blk))
  | Try_rem bytes b r =>
      if bytes <=? r then
        blk ← heap a !! b;
        if rem blk =? r then Some (with_heap <[b := with_rem (u32 (r - bytes)) blk]> a, Final_load bytes b)
        else Some (a, Try_rem bytes b (rem blk))
      else Some (NewBlock ptr mm BLOCK_SIZE a (Store_next bytes b ptr))
  | Store_next bytes b nb => blk ← heap a !! nb; Some (with_heap <[nb := with_link (Some b) blk]> a, Push bytes b nb)
  | Push bytes b nb =>
      if decide (blocks_ a = b) then Some (with_blocks nb a, Count bytes)
      else _ ← heap a !! nb; Some (with_heap (delete nb) a, Load_blocks bytes)
  | Count bytes => Some (increment_usage sizeof_Block a, Load_blocks bytes)
  | Large_load bytes nb => Some (a, Large_store bytes nb (large_ a))
  | Large_store bytes nb b => blk ← heap a !! nb; Some (with_heap <[nb := with_link b blk]> a, Large_swap bytes nb b)
  | Large_swap bytes nb b =>
      if decide (large_ a = b) then Some (with_large (Some nb) a, Large_count bytes nb)
      else Some (a, Large_store bytes nb (large_ a))
  | Large_count bytes nb => Some (increment_usage sizeof_Block a, Final_load bytes nb)
  | Final_load bytes b => blk ← heap a !! b; Some (a, Final_swap bytes b (end_of bytes blk))
  | Final_swap bytes b expected =>
      blk ← heap a !! b;
      if end_of bytes blk =? expected then
        Some (with_heap <[b := with_end bytes (expected + cas_diff bytes) blk]> a,
              Final_lower bytes b (expected + cas_diff bytes + ret_diff bytes))
      else Some (a, Final_swap bytes b (end_of bytes blk))
  | Final_lower bytes b ret => blk ← heap a !! b; Some (a, Final_upper bytes b ret (next_lower blk))
  | Final_upper bytes b ret nl =>
      blk ← heap a !! b; Some (a, if nl <=? next_upper blk then Again bytes b ret else AssertFailed)
  | Again bytes b ret =>
      blk ← heap a !! b;
      Some (a, if lower_first then Again_lower bytes b ret (next_lower blk) else Again_upper bytes b ret (next_upper blk))
  | Again_lower bytes b ret nl =>
      blk ← heap a !! b; Some (a, if nl <=? next_upper blk then Final_count bytes b ret else AssertFailed)
  | Again_upper bytes b ret nu =>
      blk ← heap a !! b; Some (a, if next_lower blk <=? nu then Final_count bytes b ret else AssertFailed)
  | Final_count bytes b ret => Some (increment_usage bytes a, Return bytes b ret)
  | Return bytes b ret =>
      Some (a, if aligned && negb (Z.land ret (align_ - 1) =? 0) then AssertFailed else Done bytes b ret)
  | Done _ _ _ | Bad_alloc | AssertFailed => Some (a, pc)
  end.

(** The bytes the next action passes to NewBlock, if it is called. *)
Definition requested (pc : ArenaPc) : Z := match pc with Start bytes => bytes | _ => BLOCK_SIZE end.

Definition Allocate (bytes : Z) : ArenaPc := Start bytes.
Definition AllocateAligned (bytes : Z) : ArenaPc := Start (align_up bytes).

(** The constructor, when mmap finds [p]. *)
Definition new_Arena (ptr : nat) (p : Z) : Arena :=
  let a := {| memory_usage_ := sizeof_Block; blocks_ := 0; large_ := None; heap := ∅ |} in
  let '(a, _) := NewBlock ptr (Some p) (Z.shiftl 1 16) a (Start 0) in
  increment_usage sizeof_Block (with_blocks ptr a).

(** ** Calls that run at the same time *)
Record ArenaCall := { aligned : bool; pc : ArenaPc }.
Record Config := { arena : Arena; calls : list ArenaCall }.

Definition disjoint (p m q n : Z) : Prop := p + m <= q \/ q + n <= p.

(** What mmap may return: whole pages that nothing is mapped to. *)
Definition mmap_ok (a : Arena) (sz : Z) (mm : option Z) : Prop :=
  forall p, mm = Some p -> 0 < sz /\ 0 < p /\ p mod page_size_ = 0 /\ p + sz <= 2 ^ 64 /\
    forall b blk, heap a !! b = Some blk -> disjoint p sz (base blk) (map_len blk).

Inductive step : Config -> Config -> Prop :=
  | step_begin cfg bytes : 0 < bytes < 2 ^ 64 ->
      step cfg {| arena := arena cfg; calls := calls cfg ++ [{| aligned := false; pc := Allocate bytes |}] |}
  | step_begin_aligned cfg bytes : 0 < bytes <= 2 ^ 64 - align_ ->
      step cfg {| arena := arena cfg; calls := calls cfg ++ [{| aligned := true; pc := AllocateAligned bytes |}] |}
  | step_advance cfg i c ptr mm lower_first a' pc' :
      calls cfg !! i = Some c -> heap (arena cfg) !! ptr = None -> mmap_ok (arena cfg) (block_length (requested (pc c))) mm ->
      advance ptr mm lower_first (aligned c) (arena cfg) (pc c) = Some (a', pc') ->
      step cfg {| arena := a'; calls := <[i := {| aligned := aligned c; pc := pc' |}]> (calls cfg) |}.
End Arena.

(** ** The invariant *)

(** The bytes a call has reserved in block [b] and not yet taken. *)
Definition reserved (b : nat) (c : ArenaCall) : Z :=
  match pc c with
  | Large_load n nb | Large_store n nb _ | Large_swap n nb _ | Large_count n nb | Final_load n nb | Final_swap n nb _ => if decide (nb = b) then n else 0
  | _ => 0
  end.
Definition sum (f : ArenaCall -> Z) (cs : list ArenaCall) : Z := fold_right (fun c s => f c + s) 0 cs.

(** The place a call has taken: block, address and length. *)
Definition taken (p : ArenaPc) : option (nat * Z * Z) :=
  match p with
  | Final_lower n b r | Final_upper n b r _ | Again n b r | Again_lower n b r _ | Again_upper n b r _ | Final_count n b r | Return n b r | Done n b r => Some (b, r, n)
  | _ => None
  end.

(** The block a call has made and not yet published. *)
Definition owned (p : ArenaPc) : option nat := match p with Store_next _ _ nb | Push _ _ nb => Some nb | _ => None end.
(** The other blocks a call holds a pointer to. *)
Definition held (p : ArenaPc) : option nat :=
  match p with
  | Load_rem _ b | Try_rem _ b _ | Store_next _ b _ | Push _ b _ | Final_load _ b | Final_swap _ b _ => Some b
  | Large_load _ nb | Large_store _ nb _ | Large_swap _ nb _ | Large_count _ nb => Some nb
  | p => (fun x => fst (fst x)) <$> taken p
  end.

(** The size a call asks for. *)
Definition size_of (p : ArenaPc) : option Z :=
  match p with
  | Start n | Load_blocks n | Load_rem n _ | Try_rem n _ _ | Store_next n _ _ | Push n _ _ | Count n | Large_load n _ | Large_store n _ _
  | Large_swap n _ _ | Large_count n _ | Final_load n _ | Final_swap n _ _ => Some n
  | p => snd <$> taken p
  end.
Definition small_phase (p : ArenaPc) : bool := match p with Load_blocks _ | Load_rem _ _ | Try_rem _ _ _ | Store_next _ _ _ | Push _ _ _ | Count _ => true | _ => false end.

(** [small]: the blocks of the list blocks_ and those about to be pushed. *)
Definition pc_ok (a : Arena) (small : gset nat) (p : ArenaPc) : Prop :=
  (forall n, size_of p = Some n -> 0 < n < 2 ^ 64) /\
  match p with
  | Load_rem _ b | Store_next _ b _ | Push _ b _ => b ∈ small
  | Try_rem _ b r => b ∈ small /\ 0 <= r < 2 ^ 32
  | Final_upper _ b _ nl | Again_lower _ b _ nl => forall blk, heap a !! b = Some blk -> nl <= next_lower blk
  | Again_upper _ b _ nu => forall blk, heap a !! b = Some blk -> next_upper blk <= nu
  | AssertFailed => False
  | _ => True
  end.

Definition block_ok (small : gset nat) (cs : list ArenaCall) (b : nat) (blk : ArenaBlock) : Prop :=
  0 <= base blk /\ base blk <= next_lower blk /\ next_upper blk <= base blk + map_len blk /\ base blk + map_len blk <= 2 ^ 64 /\ 0 <= rem blk < 2 ^ 32 /\ next_upper blk mod align_ = 0 /\
  (if decide (b ∈ small) then rem blk else 0) + sum (reserved b) cs <= next_upper blk - next_lower blk.

(** The place of a call lies in what its block has given away. *)
Definition taken_ok (a : Arena) (al : bool) (p : ArenaPc) : Prop :=
  forall b r n, taken p = Some (b, r, n) -> exists blk, heap a !! b = Some blk /\ base blk <= r /\ r + n <= base blk + map_len blk /\
    (r + n <= next_lower blk \/ next_upper blk <= r) /\ (n mod align_ = 0 -> r mod align_ = 0).

Record inv (small : gset nat) (cfg : Config) : Prop := {
  inv_head : blocks_ (arena cfg) ∈ small;
  inv_small b : b ∈ small -> is_Some (heap (arena cfg) !! b);
  inv_pc i c : calls cfg !! i = Some c -> pc_ok (arena cfg) small (pc c);
  inv_aligned i c n : calls cfg !! i = Some c -> aligned c = true -> size_of (pc c) = Some n -> n mod align_ = 0;
  inv_held i c b : calls cfg !! i = Some c -> held (pc c) = Some b -> is_Some (heap (arena cfg) !! b);
  inv_owned i c b : calls cfg !! i = Some c -> owned (pc c) = Some b -> b ∈ small /\ b <> blocks_ (arena cfg) /\ held (pc c) <> Some b;
  inv_unique i j c d b : i <> j -> calls cfg !! i = Some c -> calls cfg !! j = Some d -> owned (pc c) = Some b -> owned (pc d) <> Some b /\ held (pc d) <> Some b;
  inv_block b blk : heap (arena cfg) !! b = Some blk -> block_ok small (calls cfg) b blk;
  inv_maps b1 b2 blk1 blk2 : b1 <> b2 -> heap (arena cfg) !! b1 = Some blk1 -> heap (arena cfg) !! b2 = Some blk2 ->
    disjoint (base blk1) (map_len blk1) (base blk2) (map_len blk2);
  inv_taken i c : calls cfg !! i = Some c -> taken_ok (arena cfg) (aligned c) (pc c);
  inv_disjoint i j c d b1 b2 r1 r2 n1 n2 : i <> j -> calls cfg !! i = Some c -> calls cfg !! j = Some d ->
    taken (pc c) = Some (b1, r1, n1) -> taken (pc d) = Some (b2, r2, n2) -> disjoint r1 n1 r2 n2;
}.

Lemma sum_app f cs ds : sum f (cs ++ ds) = sum f cs + sum f ds.
Proof. induction cs as [|c cs IH]; [done|]. simpl. lia. Qed.
Lemma sum_insert f cs : forall i c c', cs !! i = Some c -> sum f (<[i := c']> cs) = sum f cs - f c + f c'.
Proof.
  induction cs as [|d cs IH]; intros [|i] c c' Hi; [done|done| |].
  - injection Hi as ->. simpl. lia.
  - cbn in Hi. specialize (IH i c c' Hi). simpl. lia.
Qed.
Lemma sum_nonneg f cs : (forall c, c ∈ cs -> 0 <= f c) -> 0 <= sum f cs.
Proof.
  induction cs as [|c cs IH]; intros H; [done|]. simpl. specialize (IH (fun d Hd => H d (list_elem_of_further _ _ _ Hd))).
  specialize (H c (list_elem_of_here _ _)). lia.
Qed.
Lemma sum_ge f cs i c : (forall d, d ∈ cs -> 0 <= f d) -> cs !! i = Some c -> f c <= sum f cs.
Proof.
  revert i. induction cs as [|d cs IH]; intros [|i] H Hi; [done|done| |].
  - injection Hi as ->. simpl. pose proof (sum_nonneg f cs (fun d Hd => H d (list_elem_of_further _ _ _ Hd))). lia.
  - simpl. specialize (IH i (fun d Hd => H d (list_elem_of_further _ _ _ Hd)) Hi). specialize (H d (list_elem_of_here _ _)). lia.
Qed.
Lemma sum_zero f cs : (forall c, c ∈ cs -> f c = 0) -> sum f cs = 0.
Proof.
  induction cs as [|c cs IH]; intros H; [done|]. simpl. rewrite (H c (list_elem_of_here _ _)).
  rewrite IH; [done|]. intros d Hd. apply H. by right.
Qed.

(** A block keeps its mapping, and its free middle shrinks. *)
Definition shrinks (blk blk' : ArenaBlock) : Prop :=
  base blk' = base blk /\ map_len blk' = map_len blk /\ next_lower blk <= next_lower blk' /\ next_upper blk' <= next_upper blk.

Lemma pc_ok_mono a a' small small' p : (forall b blk', heap a' !! b = Some blk' -> exists blk, heap a !! b = Some blk /\ shrinks blk blk') \/ (forall b blk, held p = Some b -> heap a' !! b = Some blk -> heap a !! b = Some blk) ->
  (forall b, held p = Some b -> b ∈ small -> b ∈ small') -> pc_ok a small p -> pc_ok a' small' p.
Proof.
  intros Hh Hs [Hn Hp]. split; [done|]. destruct p; cbn [held taken fmap option_fmap option_map fst snd] in *; try done; try by eapply Hs.
  - destruct Hp. split; [by apply Hs|done].
  - intros blk' Hb. destruct Hh as [Hh|Hh]; [|by apply Hp, (Hh b)]. destruct (Hh b blk' Hb) as (blk & Hb' & _ & _ & ? & _). specialize (Hp blk Hb'). lia.
  - intros blk' Hb. destruct Hh as [Hh|Hh]; [|by apply Hp, (Hh b)]. destruct (Hh b blk' Hb) as (blk & Hb' & _ & _ & ? & _). specialize (Hp blk Hb'). lia.
  - intros blk' Hb. destruct Hh as [Hh|Hh]; [|by apply Hp, (Hh b)]. destruct (Hh b blk' Hb) as (blk & Hb' & _ & _ & _ & ?). specialize (Hp blk Hb'). lia.
Qed.

Lemma lookup_insert_cases {A} (l : list A) i j x y : <[i := x]> l !! j = Some y -> (j = i /\ y = x) \/ (j <> i /\ l !! j = Some y).
Proof.
  intros H. destruct (decide (i = j)) as [<-|Hne].
  - pose proof (lookup_lt_Some _ _ _ H) as Hlt. rewrite length_insert in Hlt. rewrite list_lookup_insert_eq in H by done. injection H as <-. by left.
  - rewrite list_lookup_insert_ne in H by done. right. split; [congruence|done].
Qed.

Section Change.
Context (small : gset nat) (cfg : Config) (i : nat) (c : ArenaCall) (a' : Arena) (pc' : ArenaPc) (HI : inv small cfg) (Hi : calls cfg !! i = Some c).
Notation cs' := (<[i := {| aligned := aligned c; pc := pc' |}]> (calls cfg)).

(** The steps that neither make nor delete a block. *)
Lemma inv_change :
  (forall b, is_Some (heap (arena cfg) !! b) -> is_Some (heap a' !! b)) ->
  (forall b blk', heap a' !! b = Some blk' -> exists blk, heap (arena cfg) !! b = Some blk /\ shrinks blk blk') ->
  (blocks_ a' = blocks_ (arena cfg) \/ owned (pc c) = Some (blocks_ a')) ->
  (forall b blk', heap a' !! b = Some blk' -> block_ok small cs' b blk') ->
  pc_ok a' small pc' ->
  (owned pc' = None \/ (owned pc' = owned (pc c) /\ held pc' = held (pc c) /\ blocks_ a' = blocks_ (arena cfg))) ->
  (forall n, size_of pc' = Some n -> size_of (pc c) = Some n) ->
  (forall b, held pc' = Some b -> held (pc c) = Some b \/ b = blocks_ (arena cfg)) ->
  (taken pc' = taken (pc c) \/ (taken_ok a' (aligned c) pc' /\ forall b r n, taken pc' = Some (b, r, n) -> exists blk,
    heap (arena cfg) !! b = Some blk /\ base blk <= r /\ r + n <= base blk + map_len blk /\ next_lower blk <= r /\ r + n <= next_upper blk)) ->
  inv small {| arena := a'; calls := cs' |}.
Proof.
  intros Hdom Hshr Hhead Hblock Hpc Hown Hsize Hheld Htaken. destruct HI as [I1 I2 I3 I4 I5 I6 I7 I8 I9 I10 I11].
  assert (forall b, is_Some (heap (arena cfg) !! b) -> is_Some (heap a' !! b)) as Hd by done.
  assert (forall b blk, heap (arena cfg) !! b = Some blk -> exists blk', heap a' !! b = Some blk' /\ shrinks blk blk') as Hfwd.
  { intros b blk Hb. destruct (Hdom b (ex_intro _ _ Hb)) as [blk' Hb']. exists blk'. split; [done|]. destruct (Hshr b blk' Hb') as (blk0 & E & Hs). rewrite Hb in E. by injection E as <-. }
  assert (forall al p, taken_ok (arena cfg) al p -> taken_ok a' al p) as Htok.
  { intros al p H b r n Ht. destruct (H b r n Ht) as (blk & Hb & H1 & H2 & H3 & H4). destruct (Hfwd b blk Hb) as (blk' & Hb' & E1 & E2 & ? & ?).
    exists blk'. rewrite E1, E2. split; [done|]. split; [done|]. split; [done|]. split; [lia|done]. }
  split; cbn [arena calls].
  - destruct Hhead as [->|H]; [done|]. by apply (I6 i c).
  - intros b Hb. by apply Hd, I2.
  - intros j d [[-> ->]|[Hj Hd']]%lookup_insert_cases; [done|]. eapply pc_ok_mono; [by left| |by eapply I3]. done.
  - intros j d n [[-> ->]|[Hj Hd']]%lookup_insert_cases; [|by apply (I4 j d)]. cbn [pc aligned]. intros Ha Hn. by apply (I4 i c); [..|apply Hsize].
  - intros j d b [[-> ->]|[Hj Hd']]%lookup_insert_cases; [|intros H; by eapply Hd, I5]. cbn [pc]. intros [H| ->]%Hheld; [by eapply Hd, I5|by apply Hd, I2].
  - intros j d b [[-> ->]|[Hj Hd']]%lookup_insert_cases Hb.
    + cbn [pc] in *. destruct Hown as [E|(E & -> & ->)]; [congruence|]. rewrite E in Hb. by apply (I6 i c).
    + destruct (I6 j d b Hd' Hb) as (H1 & H2 & H3). split; [done|]. split; [|done]. destruct Hhead as [->|H]; [done|]. intros ->. by destruct (I7 i j c d (blocks_ a') (not_eq_sym Hj) Hi Hd' H).
  - intros j k d e b Hjk [[-> ->]|[Hj Hd']]%lookup_insert_cases [[-> ->]|[Hk He']]%lookup_insert_cases Hb; cbn [pc] in *; [done| | |by apply (I7 j k d e)].
    + destruct Hown as [E|(E & _ & _)]; [congruence|]. rewrite E in Hb. by apply (I7 i k c e).
    + destruct (I7 j i d c b Hj Hd' Hi Hb) as [H1 H2]. destruct (I6 j d b Hd' Hb) as (_ & H3 & _). split.
      * destruct Hown as [->|(-> & _)]; done.
      * intros [H|H]%Hheld; congruence.
  - done.
  - intros b1 b2 blk1 blk2 Hne H1 H2. destruct (Hshr b1 blk1 H1) as (c1 & C1 & -> & -> & _), (Hshr b2 blk2 H2) as (c2 & C2 & -> & -> & _). by apply (I9 b1 b2).
  - intros j d [[-> ->]|[Hj Hd']]%lookup_insert_cases; [|by eapply Htok, I10]. cbn [pc aligned]. destruct Htaken as [E|[H _]]; [|done].
    intros b r n Ht. rewrite E in Ht. by apply (Htok (aligned c) (pc c) (I10 i c Hi)).
  - assert (forall j d b1 b2 r1 r2 n1 n2, i <> j -> calls cfg !! j = Some d -> taken pc' = Some (b1, r1, n1) -> taken (pc d) = Some (b2, r2, n2) -> disjoint r1 n1 r2 n2) as Hnew.
    { intros j d b1 b2 r1 r2 n1 n2 Hij Hj T1 T2. destruct Htaken as [E|[_ H]]; [rewrite E in T1; by eapply (I11 i j c d)|].
      destruct (H b1 r1 n1 T1) as (blk1 & B1 & ? & ? & ? & ?). destruct (I10 j d Hj b2 r2 n2 T2) as (blk2 & B2 & ? & ? & Hlu & _). unfold disjoint.
      destruct (decide (b1 = b2)) as [<-|Hb]; [rewrite B1 in B2; injection B2 as <-; lia|]. specialize (I9 b1 b2 blk1 blk2 Hb B1 B2). unfold disjoint in I9. lia. }
    intros j k d e b1 b2 r1 r2 n1 n2 Hjk [[-> ->]|[Hj Hd']]%lookup_insert_cases [[-> ->]|[Hk He']]%lookup_insert_cases T1 T2; cbn [pc] in *; [done| | |by apply (I11 j k d e b1 b2)].
    + by apply (Hnew k e b1 b2).
    + assert (disjoint r2 n2 r1 n1) as H by by apply (Hnew j d b2 b1). unfold disjoint in *. lia.
Qed.

Lemma block_ok_other small' b blk : (b ∈ small' -> b ∈ small) -> reserved b {| aligned := aligned c; pc := pc' |} = reserved b c ->
  block_ok small (calls cfg) b blk -> block_ok small' cs' b blk.
Proof.
  intros Hb Hr (H1 & H2 & H3 & H4 & H5 & H6 & H7). do 6 (split; [done|]). rewrite (sum_insert _ _ _ _ _ Hi), Hr.
  destruct (decide (b ∈ small')), (decide (b ∈ small)); [lia|by destruct n; auto|lia..].
Qed.

(** A new block. *)
Lemma inv_fresh small' ptr blk :
  heap (arena cfg) !! ptr = None -> heap a' = <[ptr := blk]> (heap (arena cfg)) -> blocks_ a' = blocks_ (arena cfg) ->
  (forall b, b ∈ small -> b ∈ small') -> (forall b, b ∈ small' -> b = ptr \/ b ∈ small) ->
  owned (pc c) = None -> taken pc' = None -> pc_ok a' small' pc' ->
  (forall b, owned pc' = Some b -> b = ptr /\ b ∈ small' /\ held pc' <> Some b) ->
  (forall b, held pc' = Some b -> b = ptr \/ held (pc c) = Some b) ->
  (forall n, size_of pc' = Some n -> size_of (pc c) = Some n) ->
  (forall b, b <> ptr -> reserved b {| aligned := aligned c; pc := pc' |} = reserved b c) ->
  block_ok small' cs' ptr blk ->
  (forall b blk', heap (arena cfg) !! b = Some blk' -> disjoint (base blk) (map_len blk) (base blk') (map_len blk')) ->
  inv small' {| arena := a'; calls := cs' |}.
Proof.
  intros Hfresh Hheap Hhead Hsub Hsup Hown Ht Hpc Hown' Hheld Hsize Hres Hblock Hdis. destruct HI as [I1 I2 I3 I4 I5 I6 I7 I8 I9 I10 I11].
  assert (forall b, is_Some (heap (arena cfg) !! b) -> b <> ptr) as Hne by (intros b [x Hx] ->; congruence).
  assert (forall b x, heap (arena cfg) !! b = Some x -> heap a' !! b = Some x) as Hfwd.
  { intros b x Hx. rewrite Hheap, lookup_insert_ne; [done|]. apply not_eq_sym, Hne. by exists x. }
  assert (forall b x, heap a' !! b = Some x -> (b = ptr /\ x = blk) \/ (b <> ptr /\ heap (arena cfg) !! b = Some x)) as Hbwd.
  { intros b x. rewrite Hheap, lookup_insert. case_decide as E; [intros [= <-]; left; by rewrite E|]. right. split; [congruence|done]. }
  assert (forall j d b, j <> i -> calls cfg !! j = Some d -> held (pc d) = Some b -> b <> ptr) as Hoh by (intros j d b _ Hd Hb; by eapply Hne, I5).
  split; cbn [arena calls].
  - rewrite Hhead. by apply Hsub.
  - intros b [->|Hb]%Hsup; [rewrite Hheap, lookup_insert_eq; by eexists|]. destruct (I2 b Hb) as [x Hx]. exists x. by apply Hfwd.
  - intros j d [[-> ->]|[Hj Hd]]%lookup_insert_cases; [done|]. eapply pc_ok_mono; [right|by intros b _; apply Hsub|by eapply I3].
    intros b x Hb [[-> _]|[_ ?]]%Hbwd; [|done]. by destruct (Hoh j d ptr Hj Hd Hb).
  - intros j d n [[-> ->]|[Hj Hd]]%lookup_insert_cases; [|by apply (I4 j d)]. cbn [pc aligned]. intros Ha Hn. by apply (I4 i c); [..|apply Hsize].
  - intros j d b [[-> ->]|[Hj Hd]]%lookup_insert_cases; cbn [pc].
    + intros [->|H]%Hheld; [rewrite Hheap, lookup_insert_eq; by eexists|]. destruct (I5 i c b Hi H) as [x Hx]. exists x. by apply Hfwd.
    + intros H. destruct (I5 j d b Hd H) as [x Hx]. exists x. by apply Hfwd.
  - intros j d b [[-> ->]|[Hj Hd]]%lookup_insert_cases Hb; rewrite Hhead; cbn [pc] in *.
    + destruct (Hown' b Hb) as (-> & H1 & H2). split; [done|]. split; [|done]. by apply not_eq_sym, Hne, I2.
    + destruct (I6 j d b Hd Hb) as (H1 & H2). split; [by apply Hsub|done].
  - intros j k d e b Hjk [[-> ->]|[Hj Hd]]%lookup_insert_cases [[-> ->]|[Hk He]]%lookup_insert_cases Hb; cbn [pc] in *; [done| | |by apply (I7 j k d e)].
    + destruct (Hown' b Hb) as (-> & _). split; intros H; [destruct (I6 k e ptr He H) as (H1 & _); by destruct (Hne ptr (I2 ptr H1))|by destruct (Hoh k e ptr Hk He H)].
    + destruct (I7 j i d c b Hj Hd Hi Hb) as [_ H2]. destruct (I6 j d b Hd Hb) as (H1 & _). apply I2, Hne in H1. split; intros H; [by destruct (Hown' b H)|by destruct (Hheld b H)].
  - intros b x [[-> ->]|[Hb Hx]]%Hbwd; [done|]. apply block_ok_other; [by intros [->|?]%Hsup|by apply Hres|by apply I8].
  - intros b1 b2 x1 x2 Hb [[-> ->]|[N1 H1]]%Hbwd [[-> ->]|[N2 H2]]%Hbwd; [done|by apply (Hdis b2)| |by apply (I9 b1 b2)].
    specialize (Hdis b1 x1 H1). unfold disjoint in *. lia.
  - intros j d [[-> ->]|[Hj Hd]]%lookup_insert_cases b r n T; cbn [pc aligned] in *; [congruence|]. destruct (I10 j d Hd b r n T) as (x & Hx & H). exists x. split; [by apply Hfwd|done].
  - intros j k d e b1 b2 r1 r2 n1 n2 Hjk [[-> ->]|[Hj Hd]]%lookup_insert_cases [[-> ->]|[Hk He]]%lookup_insert_cases T1 T2; cbn [pc] in *; [done|congruence|congruence|by apply (I11 j k d e b1 b2)].
Qed.

(** A block that lost the race is deleted. *)
Lemma inv_delete nb :
  owned (pc c) = Some nb -> heap a' = delete nb (heap (arena cfg)) -> blocks_ a' = blocks_ (arena cfg) ->
  owned pc' = None -> held pc' = None -> taken pc' = None -> pc_ok a' (small ∖ {[nb]}) pc' ->
  (forall n, size_of pc' = Some n -> size_of (pc c) = Some n) ->
  (forall b, reserved b {| aligned := aligned c; pc := pc' |} = reserved b c) ->
  inv (small ∖ {[nb]}) {| arena := a'; calls := cs' |}.
Proof.
  intros Hnb Hheap Hhead Hown Hheld Ht Hpc Hsize Hres. destruct HI as [I1 I2 I3 I4 I5 I6 I7 I8 I9 I10 I11]. destruct (I6 i c nb Hi Hnb) as (J1 & J2 & J3).
  assert (forall b x, heap a' !! b = Some x <-> b <> nb /\ heap (arena cfg) !! b = Some x) as Hh.
  { intros b x. rewrite Hheap, lookup_delete_Some. split; intros [? ?]; split; congruence. }
  assert (forall j d b, j <> i -> calls cfg !! j = Some d -> held (pc d) = Some b -> b <> nb) as Hoh.
  { intros j d b Hj Hd Hb ->. by destruct (I7 i j c d nb (not_eq_sym Hj) Hi Hd Hnb). }
  split; cbn [arena calls].
  - rewrite Hhead. set_solver.
  - intros b [Hb Hb']%elem_of_difference. destruct (I2 b Hb) as [x Hx]. exists x. apply Hh. set_solver.
  - intros j d [[-> ->]|[Hj Hd]]%lookup_insert_cases; [done|]. eapply pc_ok_mono; [right| |by eapply I3].
    + by intros b x _ [_ ?]%Hh.
    + intros b Hb Hs. specialize (Hoh j d b Hj Hd Hb). set_solver.
  - intros j d n [[-> ->]|[Hj Hd]]%lookup_insert_cases; [|by apply (I4 j d)]. cbn [pc aligned]. intros Ha Hn. by apply (I4 i c); [..|apply Hsize].
  - intros j d b [[-> ->]|[Hj Hd]]%lookup_insert_cases; cbn [pc]; [congruence|]. intros H. destruct (I5 j d b Hd H) as [x Hx]. exists x. apply Hh. split; [by apply (Hoh j d)|done].
  - intros j d b [[-> ->]|[Hj Hd]]%lookup_insert_cases Hb; rewrite Hhead; cbn [pc] in *; [congruence|]. destruct (I6 j d b Hd Hb) as (H1 & H2).
    split; [|done]. apply elem_of_difference. split; [done|]. intros ->%elem_of_singleton. by destruct (I7 i j c d nb (not_eq_sym Hj) Hi Hd Hnb).
  - intros j k d e b Hjk [[-> ->]|[Hj Hd]]%lookup_insert_cases [[-> ->]|[Hk He]]%lookup_insert_cases Hb; cbn [pc] in *; [done|congruence| |by apply (I7 j k d e)]. split; congruence.
  - intros b x [Hb Hx]%Hh. apply block_ok_other; [set_solver|by apply Hres|by apply I8].
  - intros b1 b2 x1 x2 Hb [_ H1]%Hh [_ H2]%Hh. by apply (I9 b1 b2).
  - intros j d [[-> ->]|[Hj Hd]]%lookup_insert_cases b r n T; cbn [pc aligned] in *; [congruence|]. destruct (I10 j d Hd b r n T) as (x & Hx & H). exists x. split; [|done]. apply Hh.
    split; [|done]. apply (Hoh j d); [done..|]. by destruct (pc d); try done; cbn in *; injection T as -> -> ->.
  - intros j k d e b1 b2 r1 r2 n1 n2 Hjk [[-> ->]|[Hj Hd]]%lookup_insert_cases [[-> ->]|[Hk He]]%lookup_insert_cases T1 T2; cbn [pc] in *; [done|congruence|congruence|by apply (I11 j k d e b1 b2)].
Qed.
End Change.

(** ** Sizes *)
Lemma land_lnot x p : 0 <= p -> Z.land x (Z.lnot (2 ^ p - 1)) = x / 2 ^ p * 2 ^ p.
Proof.
  intros Hp. replace (2 ^ p - 1) with (Z.ones p) by (rewrite Z.ones_equiv; lia).
  rewrite <- Z.ldiff_land, Z.ldiff_ones_r, Z.shiftl_mul_pow2, Z.shiftr_div_pow2 by done. done.
Qed.

Lemma align_up_eq x : align_up x = u64 (x + 7) / 8 * 8.
Proof. unfold align_up, align_. change (8 - 1) with (2 ^ 3 - 1) at 2. rewrite land_lnot by done. done. Qed.

Lemma finalize_upper_spec n : 0 < n < 2 ^ 64 -> finalize_upper n = (n mod align_ =? 0).
Proof.
  intros Hn. unfold finalize_upper, align_. rewrite align_up_eq. destruct (Z.eqb_spec (n mod 8) 0) as [E|E].
  - apply Z.eqb_eq. apply Z.mod_divide in E as [k ->]; [|lia]. rewrite u64_small by lia. rewrite Z.div_add_l by lia. change (7 / 8) with 0. lia.
  - apply Z.eqb_neq. intros H. apply E. rewrite H. by apply Z.mod_mul.
Qed.

Section Steps.
Context (page_bits : Z) (Hbits : 3 <= page_bits).
Notation page_size_ := (2 ^ page_bits).

Lemma block_length_eq n : block_length page_size_ n = u64 (n + page_size_ - 1) / page_size_ * page_size_.
Proof. unfold block_length. apply land_lnot. lia. Qed.

Lemma page_align x : x mod page_size_ = 0 -> x mod align_ = 0.
Proof.
  intros H. unfold align_. replace page_bits with (3 + (page_bits - 3)) in H by lia. rewrite Z.pow_add_r in H by lia. change (2 ^ 3) with 8 in H.
  assert (0 < 2 ^ (page_bits - 3)) by (apply Z.pow_pos_nonneg; lia). apply Z.mod_divide in H as [k ->]; [|lia]. apply Z.mod_divide; [lia|]. exists (k * 2 ^ (page_bits - 3)). lia.
Qed.

Lemma block_length_enough n : 0 < n < 2 ^ 64 -> 0 < block_length page_size_ n -> n <= block_length page_size_ n.
Proof.
  intros Hn. rewrite block_length_eq. assert (0 < page_size_) as Hp by (apply Z.pow_pos_nonneg; lia).
  destruct (Z.lt_ge_cases (n + page_size_ - 1) (2 ^ 64)) as [H|H].
  - rewrite u64_small by lia. intros _. pose proof (Z.div_mod (n + page_size_ - 1) page_size_ ltac:(lia)). pose proof (Z.mod_pos_bound (n + page_size_ - 1) page_size_ Hp). nia.
  - intros Hz. exfalso. destruct (Z.lt_ge_cases page_size_ (2 ^ 64)) as [Hs|Hs].
    + unfold u64 in Hz. replace (n + page_size_ - 1) with (n + page_size_ - 1 - 2 ^ 64 + 1 * 2 ^ 64) in Hz by lia. rewrite Z.mod_add, Z.mod_small, Z.div_small in Hz by lia. lia.
    + pose proof (u64_range (n + page_size_ - 1)). rewrite Z.div_small in Hz by lia. lia.
Qed.

Lemma block_length_multiple n : block_length page_size_ n / page_size_ * page_size_ = block_length page_size_ n.
Proof. rewrite block_length_eq. rewrite Z.div_mul; [done|]. pose proof (Z.pow_pos_nonneg 2 page_bits). lia. Qed.

Section OneStep.
Context (small : gset nat) (cfg : Config) (i : nat) (c : ArenaCall) (HI : inv small cfg) (Hi : calls cfg !! i = Some c).
Notation next_cfg a' pc' := {| arena := a'; calls := <[i := {| aligned := aligned c; pc := pc' |}]> (calls cfg) |}.

Lemma reserved_nonneg b d : d ∈ calls cfg -> 0 <= reserved b d.
Proof.
  intros [j Hj]%list_elem_of_lookup. destruct (inv_pc _ _ HI j d Hj) as [Hn _]. unfold reserved.
  destruct (pc d); try done; cbn [size_of] in Hn; destruct (decide _); try done; specialize (Hn _ eq_refl); lia.
Qed.

Lemma reserved_le b : reserved b c <= sum (reserved b) (calls cfg).
Proof. eapply sum_ge; [apply reserved_nonneg|done]. Qed.

(** Steps that leave the blocks alone. *)
Lemma inv_keep a' pc' : heap a' = heap (arena cfg) ->
  (blocks_ a' = blocks_ (arena cfg) \/ owned (pc c) = Some (blocks_ a')) ->
  (forall b, reserved b {| aligned := aligned c; pc := pc' |} = reserved b c) -> pc_ok a' small pc' ->
  (owned pc' = None \/ (owned pc' = owned (pc c) /\ held pc' = held (pc c) /\ blocks_ a' = blocks_ (arena cfg))) ->
  (forall n, size_of pc' = Some n -> size_of (pc c) = Some n) ->
  (forall b, held pc' = Some b -> held (pc c) = Some b \/ b = blocks_ (arena cfg)) -> taken pc' = taken (pc c) -> inv small (next_cfg a' pc').
Proof.
  intros Hh Hhead Hres Hpc Hown Hsize Hheld Ht. apply inv_change; [done|done|by rewrite Hh| |done| |done..|by left].
  - intros b blk' Hb. rewrite Hh in Hb. exists blk'. split; [done|]. repeat split; lia.
  - intros b blk Hb. rewrite Hh in Hb. eapply block_ok_other; [done|done|by apply Hres|by eapply inv_block].
Qed.

(** Steps that change one block. *)
Lemma inv_alter a' pc' b blk blk' : heap (arena cfg) !! b = Some blk -> heap a' = <[b := blk']> (heap (arena cfg)) -> shrinks blk blk' ->
  blocks_ a' = blocks_ (arena cfg) -> block_ok small (<[i := {| aligned := aligned c; pc := pc' |}]> (calls cfg)) b blk' ->
  (forall b', b' <> b -> reserved b' {| aligned := aligned c; pc := pc' |} = reserved b' c) -> pc_ok a' small pc' ->
  (owned pc' = None \/ (owned pc' = owned (pc c) /\ held pc' = held (pc c))) ->
  (forall n, size_of pc' = Some n -> size_of (pc c) = Some n) ->
  (forall b, held pc' = Some b -> held (pc c) = Some b \/ b = blocks_ (arena cfg)) ->
  (taken pc' = taken (pc c) \/ (exists r n, taken pc' = Some (b, r, n) /\ taken_ok a' (aligned c) pc' /\ next_lower blk <= r /\ r + n <= next_upper blk)) ->
  inv small (next_cfg a' pc').
Proof.
  intros Hb Hh Hs Hhead Hblock Hres Hpc Hown Hsize Hheld Ht. apply inv_change; try done.
  - intros b' H. rewrite Hh, lookup_insert. case_decide; [by eexists|done].
  - intros b' x. rewrite Hh, lookup_insert. case_decide as E; [intros [= <-]; exists blk; by rewrite <- E|]. intros Hx. exists x. split; [done|]. repeat split; lia.
  - by left.
  - intros b' x. rewrite Hh, lookup_insert. case_decide as E; [intros [= <-]; by rewrite <- E|]. intros Hx.
    eapply block_ok_other; [done|done|by apply Hres, not_eq_sym|by eapply inv_block].
  - destruct Hown as [?|[? ?]]; [by left|by right].
  - destruct Ht as [Ht|(r & n & Et & Hok & H1 & H2)]; [by left|]. right. split; [done|]. intros b' r' n' Ht'. rewrite Et in Ht'. injection Ht' as <- <- <-. exists blk.
    split; [done|]. destruct (inv_block _ _ HI b blk Hb) as (B1 & B2 & B3 & _). lia.
Qed.

(** NewBlock. *)
Lemma inv_NewBlock ptr mm n k a' pc' : heap (arena cfg) !! ptr = None -> mmap_ok page_size_ (arena cfg) (block_length page_size_ n) mm -> 0 < n < 2 ^ 64 ->
  owned (pc c) = None -> (forall b, reserved b c = 0) -> NewBlock page_size_ ptr mm n (arena cfg) k = (a', pc') ->
  ((exists bytes, k = Large_load bytes ptr /\ n = bytes /\ size_of (pc c) = Some bytes) \/
   (exists bytes b, k = Store_next bytes b ptr /\ b ∈ small /\ held (pc c) = Some b /\ size_of (pc c) = Some bytes)) ->
  exists small', inv small' (next_cfg a' pc').
Proof.
  intros Hfresh Hmm Hn Hown Hres E Hk. unfold NewBlock in E. rewrite block_length_multiple, Z.eqb_refl in E. cbn [negb] in E.
  assert (forall b, is_Some (heap (arena cfg) !! b) -> b <> ptr) as Hne by (intros b [x Hx] ->; congruence).
  assert (forall p, mm = Some p -> block_ok ∅ [] ptr {| next := None; rem := u32 (block_length page_size_ n); next_lower := p; next_upper := p + block_length page_size_ n; base := p;
    size := u32 (block_length page_size_ n); map_len := block_length page_size_ n |} /\ u32 (block_length page_size_ n) <= block_length page_size_ n) as Hblk.
  { intros p Ep. destruct (Hmm p Ep) as (H1 & H2 & H3 & H4 & _). split.
    - unfold block_ok. cbn [base next_lower next_upper map_len rem]. rewrite decide_False by set_solver. cbn [sum fold_right]. pose proof (u32_range (block_length page_size_ n)).
      split; [lia|]. split; [lia|]. split; [lia|]. split; [lia|]. split; [lia|]. split; [|lia]. apply page_align. rewrite <- block_length_multiple, Z.mod_add by lia. done.
    - unfold u32. apply Z.mod_le; lia. }
  assert (sum (reserved ptr) (calls cfg) = 0) as Hsum.
  { apply sum_zero. intros d [j Hj]%list_elem_of_lookup. unfold reserved. pose proof (inv_held _ _ HI j d) as Hh.
    destruct (pc d) eqn:Ed; try done; destruct (decide _) as [->|]; try done; specialize (Hh ptr Hj eq_refl); by apply Hne in Hh. }
  destruct mm as [p|].
  - specialize (Hblk p eq_refl) as [(B1 & B2 & B3 & B4 & B5 & B6 & B7) Hrem]. destruct (Hmm p eq_refl) as (M1 & _ & _ & _ & Mdis). rewrite decide_False in B7 by set_solver.
    cbn [base next_lower next_upper map_len rem] in *. injection E as <- <-. destruct Hk as [(bytes & -> & -> & Hsz)|(bytes & b & -> & Hb & Hheld & Hsz)].
    + exists small. assert (ptr ∉ small) as Hps by (intros H; by apply (inv_small _ _ HI), Hne in H). eapply inv_fresh; try done; cbn [owned taken held size_of].
      * by intros b; right.
      * by split; [cbn [size_of]; intros m [= <-]|].
      * intros b [= <-]. by left.
      * congruence.
      * intros b Hb. rewrite Hres. unfold reserved. cbn [pc]. by rewrite decide_False.
      * unfold block_ok. cbn [base map_len rem next_upper next_lower]. do 6 (split; [assumption|]). rewrite decide_False by done. rewrite (sum_insert _ _ _ _ _ Hi), Hsum, Hres. unfold reserved. cbn [pc].
        rewrite decide_True by done. pose proof (block_length_enough bytes Hn M1). lia.
    + exists (small ∪ {[ptr]}). eapply inv_fresh; try done; cbn [owned taken held size_of].
      * set_solver.
      * set_solver.
      * split; [cbn [size_of]; intros m [= <-]; by apply (inv_pc _ _ HI i c Hi)|]. set_solver.
      * intros b' [= <-]. split; [done|]. split; [set_solver|]. intros [= ->]. by apply (inv_small _ _ HI), Hne in Hb.
      * intros b' [= <-]. by right.
      * congruence.
      * unfold block_ok. cbn [base map_len rem next_upper next_lower]. do 6 (split; [assumption|]). rewrite decide_True by set_solver. rewrite (sum_insert _ _ _ _ _ Hi), Hsum, Hres. unfold reserved. cbn [pc]. lia.
  - injection E as <- <-. exists small. eapply inv_fresh; try done; cbn [owned taken held size_of].
    + by intros b; right.
    + unfold block_ok, new_ArenaBlock. cbn [base next_lower next_upper map_len rem]. rewrite (sum_insert _ _ _ _ _ Hi), Hsum, Hres. unfold reserved. cbn [pc]. destruct (decide _); repeat split; done.
    + intros b x Hx. unfold disjoint, new_ArenaBlock. cbn [base map_len]. destruct (inv_block _ _ HI b x Hx) as (H1 & H2 & H3 & _ & _ & _ & H7).
      pose proof (sum_nonneg (reserved b) (calls cfg) (fun d => reserved_nonneg b d)). lia.
Qed.

Lemma pc_ok_sizes a p p' : pc_ok (arena cfg) small p -> (forall n, size_of p' = Some n -> size_of p = Some n) ->
  match p' with
  | Load_rem _ b | Store_next _ b _ | Push _ b _ => b ∈ small
  | Try_rem _ b r => b ∈ small /\ 0 <= r < 2 ^ 32
  | Final_upper _ b _ nl | Again_lower _ b _ nl => forall blk, heap a !! b = Some blk -> nl <= next_lower blk
  | Again_upper _ b _ nu => forall blk, heap a !! b = Some blk -> next_upper blk <= nu
  | AssertFailed => False
  | _ => True
  end -> pc_ok a small p'.
Proof. intros [Hn _] Hs Hp. split; [|done]. intros n H. by apply Hn, Hs. Qed.

(** Solves the side conditions of a step that changes no block. *)
Ltac local_step Ep Hpc :=
  apply inv_keep; unfold reserved; rewrite ?Ep; cbn [owned taken held size_of pc heap blocks_ with_blocks with_large increment_usage fmap option_fmap option_map fst snd];
  try done; try (by left); try (by right); try (by intros ? [= <-]; (left + right)); try (eapply pc_ok_sizes; [exact Hpc|done|]); try exact I.

Lemma inv_step_local ptr mm lower_first a' pc' : advance page_size_ ptr mm lower_first (aligned c) (arena cfg) (pc c) = Some (a', pc') ->
  match pc c with Load_blocks _ | Load_rem _ _ | Count _ | Large_load _ _ | Large_swap _ _ _ | Large_count _ _ | Final_load _ _ | Final_lower _ _ _ | Final_upper _ _ _ _
    | Again _ _ _ | Again_lower _ _ _ _ | Again_upper _ _ _ _ | Final_count _ _ _ | Return _ _ _ | Done _ _ _ | Bad_alloc | AssertFailed => True | _ => False end ->
  inv small (next_cfg a' pc').
Proof.
  pose proof (inv_pc _ _ HI i c Hi) as Hpc. pose proof (inv_taken _ _ HI i c Hi) as Htk. pose proof (fun n => inv_aligned _ _ HI i c n Hi) as Hal.
  assert (forall b blk, heap (arena cfg) !! b = Some blk -> next_lower blk <= next_upper blk /\ 0 <= rem blk < 2 ^ 32) as Hord.
  { intros b blk Hb. destruct (inv_block _ _ HI b blk Hb) as (_ & _ & _ & _ & H5 & _ & H7). split; [|done].
    pose proof (sum_nonneg (reserved b) (calls cfg) (fun d => reserved_nonneg b d)). destruct (decide _); lia. }
  destruct (pc c) eqn:Ep; cbn [advance]; try done; intros E _.
  all: repeat match type of E with (?x ≫= _ = _) => destruct x as [blk|] eqn:Eb; [|discriminate]; cbn [mbind option_bind] in E | (if decide ?x then _ else _) = _ => destruct (decide x) as [Hdec|Hdec] end.
  all: injection E as <- <-.
  - local_step Ep Hpc. apply (inv_head _ _ HI).
  - local_step Ep Hpc. destruct Hpc as [_ Hpc]. split; [done|]. by apply (Hord b).
  - local_step Ep Hpc.
  - local_step Ep Hpc.
  - local_step Ep Hpc.
  - local_step Ep Hpc.
  - local_step Ep Hpc.
  - local_step Ep Hpc.
  - local_step Ep Hpc. intros blk' Hb'. rewrite Eb in Hb'. by injection Hb' as <-.
  - pose proof (proj2 Hpc blk Eb) as Hnl. destruct (Hord b blk Eb) as [Ho _]. rewrite (proj2 (Z.leb_le _ _)) by lia. local_step Ep Hpc.
  - destruct lower_first; local_step Ep Hpc; intros blk' Hb'; rewrite Eb in Hb'; by injection Hb' as <-.
  - pose proof (proj2 Hpc blk Eb) as Hnl. destruct (Hord b blk Eb) as [Ho _]. rewrite (proj2 (Z.leb_le _ _)) by lia. local_step Ep Hpc.
  - pose proof (proj2 Hpc blk Eb) as Hnl. destruct (Hord b blk Eb) as [Ho _]. rewrite (proj2 (Z.leb_le _ _)) by lia. local_step Ep Hpc.
  - local_step Ep Hpc.
  - assert (aligned c && negb (Z.land ret (align_ - 1) =? 0) = false) as ->; [|local_step Ep Hpc]. destruct (aligned c); [|done]. cbn [andb].
    destruct (Htk b ret bytes eq_refl) as (blk & _ & _ & _ & _ & H). specialize (H (Hal bytes eq_refl eq_refl)).
    change (align_ - 1) with (Z.ones 3). rewrite Z.land_ones by done. change (2 ^ 3) with align_. by rewrite H.
  - local_step Ep Hpc.
  - local_step Ep Hpc.
  - by destruct Hpc.
Qed.

(** The compare-and-swaps of AllocateFinalize that succeed. *)
Lemma inv_final_swap n b blk : pc c = Final_swap n b (end_of n blk) -> heap (arena cfg) !! b = Some blk ->
  inv small (next_cfg (with_heap <[b := with_end n (end_of n blk + cas_diff n) blk]> (arena cfg)) (Final_lower n b (end_of n blk + cas_diff n + ret_diff n))).
Proof.
  intros Ep Hb. pose proof (inv_pc _ _ HI i c Hi) as Hpc. destruct (inv_block _ _ HI b blk Hb) as (B1 & B2 & B3 & B4 & B5 & B6 & B7).
  pose proof (reserved_le b) as Hle. assert (reserved b c = n) as Hr by (unfold reserved; rewrite Ep; by rewrite decide_True). rewrite Hr in Hle. rewrite Ep in Hpc. destruct Hpc as [Hn Hpc]. specialize (Hn n eq_refl).
  assert (0 <= (if decide (b ∈ small) then rem blk else 0)) as Hrem by (destruct (decide _); lia).
  pose proof (finalize_upper_spec n Hn) as Hf. unfold end_of, cas_diff, ret_diff, with_end. destruct (finalize_upper n) eqn:Ef.
  - symmetry in Hf. apply Z.eqb_eq in Hf. assert ((next_upper blk - n) mod align_ = 0) as Hmod by (rewrite Zminus_mod, B6, Hf; reflexivity).
    replace (next_upper blk + (0 - n) + 0) with (next_upper blk - n) by lia. replace (next_upper blk + (0 - n)) with (next_upper blk - n) by lia.
    eapply (inv_alter _ _ b blk); try done; rewrite ?Ep; cbn [owned taken held size_of]; try done.
    + unfold shrinks. cbn. repeat split; lia.
    + unfold block_ok. cbn [base map_len rem next_upper next_lower with_upper]. split; [done|]. split; [done|]. split; [lia|]. split; [done|]. split; [done|]. split; [done|].
      rewrite (sum_insert _ _ _ _ _ Hi), Hr. change (reserved b {| aligned := aligned c; pc := _ |}) with 0. lia.
    + intros b' Hb'. unfold reserved. rewrite Ep. cbn [pc]. by rewrite decide_False.
    + split; [by intros m [= <-]|done].
    + by left.
    + intros b' [= <-]. by left.
    + right. exists (next_upper blk - n), n. split; [done|]. split; [|lia]. intros b' r' n' [= <- <- <-]. exists (with_upper (next_upper blk - n) blk).
      cbn [heap with_heap]. rewrite lookup_insert_eq. split; [done|]. cbn. repeat split; lia.
  - symmetry in Hf. apply Z.eqb_neq in Hf. replace (next_lower blk + (0 + n) + (0 - n)) with (next_lower blk) by lia. replace (next_lower blk + (0 + n)) with (next_lower blk + n) by lia.
    eapply (inv_alter _ _ b blk); try done; rewrite ?Ep; cbn [owned taken held size_of]; try done.
    + unfold shrinks. cbn. repeat split; lia.
    + unfold block_ok. cbn [base map_len rem next_upper next_lower with_lower]. split; [done|]. split; [lia|]. split; [done|]. split; [done|]. split; [done|]. split; [done|].
      rewrite (sum_insert _ _ _ _ _ Hi), Hr. change (reserved b {| aligned := aligned c; pc := _ |}) with 0. lia.
    + intros b' Hb'. unfold reserved. rewrite Ep. cbn [pc]. by rewrite decide_False.
    + split; [by intros m [= <-]|done].
    + by left.
    + intros b' [= <-]. by left.
    + right. exists (next_lower blk), n. split; [done|]. split; [|lia]. intros b' r' n' [= <- <- <-]. exists (with_lower (next_lower blk + n) blk).
      cbn [heap with_heap]. rewrite lookup_insert_eq. split; [done|]. cbn. repeat split; lia.
Qed.

(** The reservation of bytes in a block. *)
Lemma inv_reserve n b blk : pc c = Try_rem n b (rem blk) -> heap (arena cfg) !! b = Some blk -> n <= rem blk ->
  inv small (next_cfg (with_heap <[b := with_rem (u32 (rem blk - n)) blk]> (arena cfg)) (Final_load n b)).
Proof.
  intros Ep Hb Hle. pose proof (inv_pc _ _ HI i c Hi) as Hpc. rewrite Ep in Hpc. destruct Hpc as [Hn [Hs Hr]]. specialize (Hn n eq_refl).
  destruct (inv_block _ _ HI b blk Hb) as (B1 & B2 & B3 & B4 & B5 & B6 & B7). rewrite decide_True in B7 by done.
  assert (forall b', reserved b' c = 0) as Hr0 by (intros b'; unfold reserved; by rewrite Ep).
  eapply (inv_alter _ _ b blk); try done; rewrite ?Ep; cbn [owned taken held size_of]; try done.
  - unfold block_ok. cbn [base map_len rem next_upper next_lower with_rem]. do 4 (split; [done|]). rewrite u32_small by lia. split; [lia|]. split; [done|].
    rewrite decide_True by done. rewrite (sum_insert _ _ _ _ _ Hi), Hr0. unfold reserved at 2. cbn [pc]. rewrite decide_True by done. lia.
  - intros b' Hb'. rewrite Hr0. unfold reserved. cbn [pc]. by rewrite decide_False.
  - split; [by intros m [= <-]|done].
  - by left.
  - intros b' [= <-]. by left.
  - by left.
Qed.

(** nb->next is written. *)
Lemma inv_store_next b nb blk p pc' : heap (arena cfg) !! nb = Some blk ->
  (exists n, (pc c = Store_next n b nb /\ pc' = Push n b nb) \/ (exists q, pc c = Large_store n nb q /\ pc' = Large_swap n nb q)) ->
  inv small (next_cfg (with_heap <[nb := with_link p blk]> (arena cfg)) pc').
Proof.
  intros Hb (n & Hp). pose proof (inv_pc _ _ HI i c Hi) as Hpc. pose proof (inv_block _ _ HI nb blk Hb) as Hblk.
  assert (forall b', reserved b' {| aligned := aligned c; pc := pc' |} = reserved b' c) as Hres.
  { intros b'. unfold reserved. destruct Hp as [[-> ->]|(q & -> & ->)]; done. }
  eapply (inv_alter _ _ nb blk); try done.
  - eapply block_ok_other; [done|done|by apply Hres|]. exact Hblk.
  - destruct Hp as [[E ->]|(q & E & ->)]; rewrite E in Hpc; exact Hpc.
  - destruct Hp as [[-> ->]|(q & -> & ->)]; by right.
  - destruct Hp as [[-> ->]|(q & -> & ->)]; done.
  - destruct Hp as [[-> ->]|(q & -> & ->)]; cbn [held]; intros x [= <-]; by left.
  - destruct Hp as [[-> ->]|(q & -> & ->)]; by left.
Qed.

(** Every action keeps the invariant. *)
Lemma inv_advance ptr mm lower_first a' pc' : heap (arena cfg) !! ptr = None -> mmap_ok page_size_ (arena cfg) (block_length page_size_ (requested (pc c))) mm ->
  advance page_size_ ptr mm lower_first (aligned c) (arena cfg) (pc c) = Some (a', pc') -> exists small', inv small' (next_cfg a' pc').
Proof.
  intros Hfresh Hmm E. pose proof (inv_step_local ptr mm lower_first a' pc' E) as Hloc. pose proof (inv_pc _ _ HI i c Hi) as Hpc.
  destruct (pc c) eqn:Ep; try (exists small; by apply Hloc); clear Hloc; cbn [advance] in E; cbn [requested] in Hmm.
  - pose proof (proj1 Hpc _ eq_refl) as Hn. rewrite (proj2 (Z.ltb_lt 0 bytes)) in E by lia. cbn [negb] in E.
    destruct (Z.shiftr BLOCK_SIZE 2 <? bytes) eqn:El.
    + injection E as E. eapply (inv_NewBlock ptr mm bytes); try done; [by rewrite Ep|intros b; unfold reserved; by rewrite Ep|]. left. exists bytes. by rewrite Ep.
    + injection E as <- <-. exists small. local_step Ep Hpc.
  - pose proof (proj1 Hpc _ eq_refl) as Hn. destruct (proj2 Hpc) as [Hs Hr]. destruct (Z.leb_spec bytes r) as [Hle|Hgt].
    + destruct (heap (arena cfg) !! b) as [blk|] eqn:Eb; [|discriminate]. cbn [mbind option_bind] in E. destruct (Z.eqb_spec (rem blk) r) as [Er|Er]; injection E as <- <-; exists small.
      * subst r. by apply inv_reserve.
      * local_step Ep Hpc. split; [done|]. by apply (inv_block _ _ HI b blk).
    + injection E as E. eapply (inv_NewBlock ptr mm BLOCK_SIZE); try done; [by rewrite Ep|intros b'; unfold reserved; by rewrite Ep|]. right. exists bytes, b. by rewrite Ep.
  - destruct (heap (arena cfg) !! nb) as [blk|] eqn:Eb; [|discriminate]. injection E as <- <-. exists small. eapply (inv_store_next b); [done|]. exists bytes. by left.
  - destruct (decide _) as [Hb|Hb].
    + injection E as <- <-. exists small. local_step Ep Hpc.
    + destruct (heap (arena cfg) !! nb) as [blk|] eqn:Eb; [|discriminate]. injection E as <- <-. exists (small ∖ {[nb]}).
      apply inv_delete; rewrite ?Ep; try done; [|intros b'; unfold reserved; by rewrite Ep]. destruct Hpc as [Hn _]. by split.
  - destruct (heap (arena cfg) !! nb) as [blk|] eqn:Eb; [|discriminate]. injection E as <- <-. exists small. eapply (inv_store_next 0%nat); [done|]. exists bytes. right. by exists b.
  - destruct (heap (arena cfg) !! b) as [blk|] eqn:Eb; [|discriminate]. cbn [mbind option_bind] in E. destruct (Z.eqb_spec (end_of bytes blk) expected) as [Er|Er]; injection E as <- <-; exists small.
    + subst expected. by apply inv_final_swap.
    + local_step Ep Hpc.
Qed.
End OneStep.

(** A call begins. *)
Lemma inv_begin small cfg al n : inv small cfg -> 0 < n < 2 ^ 64 -> (al = true -> n mod align_ = 0) ->
  inv small {| arena := arena cfg; calls := calls cfg ++ [{| aligned := al; pc := Start n |}] |}.
Proof.
  intros [I1 I2 I3 I4 I5 I6 I7 I8 I9 I10 I11] Hn Hal.
  assert (forall j d, (calls cfg ++ [{| aligned := al; pc := Start n |}]) !! j = Some d -> calls cfg !! j = Some d \/ (d = {| aligned := al; pc := Start n |})) as Hc.
  { intros j d [H|(_ & H)]%lookup_app_Some; [by left|]. apply list_lookup_singleton_Some in H as [_ <-]. by right. }
  split; cbn [arena calls]; try done.
  - intros j d [H| ->]%Hc; [by apply (I3 j)|]. split; [by intros m [= <-]|done].
  - intros j d m [H| ->]%Hc; [by apply (I4 j)|]. by intros Ht [= <-]; apply Hal.
  - intros j d b [H| ->]%Hc; [by apply (I5 j)|done].
  - intros j d b [H| ->]%Hc; [by apply (I6 j)|done].
  - intros j k d e b Hjk [H| ->]%Hc [K| ->]%Hc; [by apply (I7 j k)|done..].
  - intros b blk Hb. destruct (I8 b blk Hb) as (B1 & B2 & B3 & B4 & B5 & B6 & B7). do 6 (split; [done|]). rewrite sum_app. change (sum (reserved b) [_]) with 0. lia.
  - intros j d [H| ->]%Hc; [by apply (I10 j)|done].
  - intros j k d e b1 b2 r1 r2 n1 n2 Hjk [H| ->]%Hc [K| ->]%Hc; [by apply (I11 j k d e b1 b2)|done..].
Qed.

(** What mmap gives the constructor. *)
Definition first_map_ok (p : Z) : Prop := 0 < p /\ p mod page_size_ = 0 /\ 0 < block_length page_size_ (Z.shiftl 1 16) /\ p + block_length page_size_ (Z.shiftl 1 16) <= 2 ^ 64.
Definition initial (ptr : nat) (p : Z) : Config := {| arena := new_Arena page_size_ ptr p; calls := [] |}.

Lemma new_Arena_eq ptr p : new_Arena page_size_ ptr p =
  {| memory_usage_ := 2 * sizeof_Block; blocks_ := ptr; large_ := None;
     heap := {[ ptr := {| next := None; rem := u32 (block_length page_size_ (Z.shiftl 1 16)); next_lower := p; next_upper := p + block_length page_size_ (Z.shiftl 1 16); base := p;
       size := u32 (block_length page_size_ (Z.shiftl 1 16)); map_len := block_length page_size_ (Z.shiftl 1 16) |} ]} |}.
Proof. unfold new_Arena, NewBlock. rewrite block_length_multiple, Z.eqb_refl. done. Qed.

Lemma inv_initial ptr p : first_map_ok p -> inv {[ptr]} (initial ptr p).
Proof.
  intros (H1 & H2 & H3 & H4). unfold initial. rewrite new_Arena_eq. set (sz := block_length page_size_ (Z.shiftl 1 16)) in *. split; cbn [arena calls blocks_ heap]; try done.
  - set_solver.
  - intros b ->%elem_of_singleton. rewrite lookup_singleton_eq. by eexists.
  - intros b blk [<- <-]%lookup_singleton_Some. unfold block_ok. cbn [base map_len rem next_upper next_lower]. pose proof (u32_range sz). assert (u32 sz <= sz) by (apply Z.mod_le; lia).
    do 5 (split; [lia|]). split; [|cbn [sum fold_right]; destruct (decide _); lia]. apply page_align. unfold sz. rewrite <- block_length_multiple, Z.mod_add by lia. done.
  - intros b1 b2 x1 x2 Hne [<- _]%lookup_singleton_Some [<- _]%lookup_singleton_Some. done.
Qed.

Lemma align_up_ok n : 0 < n <= 2 ^ 64 - align_ -> 0 < align_up n < 2 ^ 64 /\ align_up n mod align_ = 0.
Proof.
  unfold align_. intros Hn. rewrite align_up_eq, u64_small by lia. split; [|by apply Z.mod_mul].
  pose proof (Z.div_mod (n + 7) 8 ltac:(lia)). pose proof (Z.mod_pos_bound (n + 7) 8 ltac:(lia)). lia.
Qed.

Lemma inv_reachable ptr p cfg : first_map_ok p -> rtc (step page_size_) (initial ptr p) cfg -> exists small, inv small cfg.
Proof.
  intros Hp Hr. assert (exists small, inv small (initial ptr p)) as H0 by (eexists; by apply inv_initial). revert H0. induction Hr as [|x y z Hxy _ IH]; [done|]. intros [small HI]. apply IH. clear IH.
  inversion Hxy as [? n Hn|? n Hn|? i c q mm lf a' pc' Hi Hq Hmm E]; subst.
  - exists small. by apply inv_begin.
  - exists small. destruct (align_up_ok n Hn). by apply inv_begin.
  - by eapply inv_advance.
Qed.

(** No call follows a pointer to a deleted block. *)
Lemma advance_defined small cfg i c ptr mm lf : inv small cfg -> calls cfg !! i = Some c -> is_Some (advance page_size_ ptr mm lf (aligned c) (arena cfg) (pc c)).
Proof.
  intros HI Hi. pose proof (fun b => inv_held _ _ HI i c b Hi) as Hh. pose proof (fun b Hb => inv_small _ _ HI b (proj1 (inv_owned _ _ HI i c b Hi Hb))) as Ho.
  destruct (pc c) eqn:Ep; cbn [advance held taken owned fmap option_fmap option_map fst snd] in *; try (by eexists); try (destruct (Hh _ eq_refl) as [blk ->]; cbn [mbind option_bind]).
  all: repeat match goal with |- is_Some (Some _) => by eexists | |- is_Some (if ?b then _ else _) => destruct b end.
  all: destruct (Ho _ eq_refl) as [blk' ->]; by eexists.
Qed.

(** C26. The arena is a correct concurrent allocator.  In every state that any
    number of interleaved calls of Allocate and AllocateAligned lead to,
    whatever pages mmap finds and whenever it fails: no assertion of arena.cc
    has failed and no call is about to follow a pointer to a deleted block;
    the memory of every finished call lies in the mapping of a block that is
    still there, and is aligned for AllocateAligned; and the memory of two
    finished calls never overlaps. *)
Theorem arena_calls_safe ptr p cfg : first_map_ok p -> rtc (step page_size_) (initial ptr p) cfg ->
  (forall i c, calls cfg !! i = Some c -> pc c <> AssertFailed /\
    forall ptr' mm lower_first, is_Some (advance page_size_ ptr' mm lower_first (aligned c) (arena cfg) (pc c))) /\
  (forall i c n b r, calls cfg !! i = Some c -> pc c = Done n b r -> exists blk, heap (arena cfg) !! b = Some blk /\
    base blk <= r /\ r + n <= base blk + map_len blk /\ (aligned c = true -> r mod align_ = 0)) /\
  (forall i j c d n1 n2 b1 b2 r1 r2, i <> j -> calls cfg !! i = Some c -> calls cfg !! j = Some d ->
    pc c = Done n1 b1 r1 -> pc d = Done n2 b2 r2 -> disjoint r1 n1 r2 n2).
Proof.
  intros Hp Hr. destruct (inv_reachable ptr p cfg Hp Hr) as [small HI]. split; [|split].
  - intros i c Hi. split; [|intros; by eapply advance_defined]. intros E. pose proof (inv_pc _ _ HI i c Hi) as Hpc. rewrite E in Hpc. by destruct Hpc.
  - intros i c n b r Hi E. destruct (inv_taken _ _ HI i c Hi b r n) as (blk & Hb & H1 & H2 & _ & H4); [by rewrite E|]. exists blk. do 3 (split; [done|]).
    intros Ha. apply H4, (inv_aligned _ _ HI i c n Hi Ha). by rewrite E.
  - intros i j c d n1 n2 b1 b2 r1 r2 Hij Hi Hj E1 E2. eapply (inv_disjoint _ _ HI i j c d); [done..|by rewrite E1|by rewrite E2].
Qed.

(** ** MemoryUsage *)

(** Block objects of a call that are not yet counted (or lost), and the bytes of a call that are. *)
Definition uncounted (c : ArenaCall) : Z :=
  match pc c with
  | Store_next _ _ _ | Push _ _ _ | Count _ | Large_load _ _ | Large_store _ _ _ | Large_swap _ _ _ | Large_count _ _ | Bad_alloc => 1
  | _ => 0
  end.
Definition counted (c : ArenaCall) : Z := match pc c with Return n _ _ | Done n _ _ => n | _ => 0 end.
Definition usage (cfg : Config) : Z := sizeof_Block * (1 + Z.of_nat (base.size (heap (arena cfg))) - sum uncounted (calls cfg)) + sum counted (calls cfg).

Lemma usage_step cfg i c a' pc' k : calls cfg !! i = Some c -> MemoryUsage (arena cfg) = u64 (usage cfg) -> memory_usage_ a' = u64 (memory_usage_ (arena cfg) + k) ->
  k = sizeof_Block * (Z.of_nat (base.size (heap a')) - Z.of_nat (base.size (heap (arena cfg))) + uncounted c - uncounted {| aligned := aligned c; pc := pc' |}) +
    (counted {| aligned := aligned c; pc := pc' |} - counted c) ->
  MemoryUsage a' = u64 (usage {| arena := a'; calls := <[i := {| aligned := aligned c; pc := pc' |}]> (calls cfg) |}).
Proof.
  unfold MemoryUsage, usage. cbn [arena calls]. intros Hi HU -> Hk. rewrite !(sum_insert _ _ _ _ _ Hi), HU. unfold u64. rewrite Zplus_mod_idemp_l. f_equal. lia.
Qed.

Lemma usage_advance cfg i c ptr mm lf a' pc' : calls cfg !! i = Some c -> heap (arena cfg) !! ptr = None -> MemoryUsage (arena cfg) = u64 (usage cfg) ->
  pc c <> AssertFailed -> pc' <> AssertFailed -> advance page_size_ ptr mm lf (aligned c) (arena cfg) (pc c) = Some (a', pc') ->
  MemoryUsage a' = u64 (usage {| arena := a'; calls := <[i := {| aligned := aligned c; pc := pc' |}]> (calls cfg) |}).
Proof.
  intros Hi Hfresh HU Hok Hok' E.
  assert (u64 (memory_usage_ (arena cfg) + 0) = memory_usage_ (arena cfg)) as Hz by (unfold MemoryUsage in HU; rewrite Z.add_0_r, HU; apply Z.mod_mod; done).
  assert (forall n k, NewBlock page_size_ ptr mm n (arena cfg) k = (a', pc') -> pc' <> AssertFailed -> memory_usage_ a' = memory_usage_ (arena cfg) /\
    Z.of_nat (base.size (heap a')) = Z.of_nat (base.size (heap (arena cfg))) + 1 /\ (pc' = Bad_alloc \/ pc' = k)) as Hnew.
  { intros n k. unfold NewBlock. destruct (negb _); [intros [= <- <-]; done|]. destruct mm; intros [= <- <-] _; cbn [heap with_heap memory_usage_]; rewrite map_size_insert_None by done; (split; [done|]); (split; [lia|]); auto. }
  destruct (pc c) eqn:Ep; cbn [advance] in E.
  all: repeat match type of E with
    | ?x ≫= _ = _ => destruct x as [blk|] eqn:Eb; [|discriminate]; cbn [mbind option_bind] in E
    | Some (if ?b then _ else _) = _ => destruct b eqn:?
    | Some (_, if ?b then _ else _) = _ => destruct b eqn:?
    | (if ?b then _ else _) = _ => destruct b eqn:? end.
  all: try (injection E as E; destruct (Hnew _ _ E Hok') as (H1 & H2 & [-> | ->])).
  all: try (injection E as <- <-); try done.
  all: first [apply (usage_step cfg i c _ _ 0 Hi HU); [try rewrite H1; exact (eq_sym Hz)|] | by apply (usage_step cfg i c _ _ sizeof_Block Hi HU) | eapply (usage_step cfg i c _ _ _ Hi HU); [reflexivity|] | done].
  all: try (unfold uncounted, counted; cbn [pc]; rewrite Ep; cbn [heap with_heap with_blocks with_large increment_usage]; rewrite ?H2, ?map_size_insert, ?map_size_delete, ?Eb; unfold id, sizeof_Block; try pose proof (map_size_ne_0_lookup_2 _ _ (ex_intro _ _ Eb)); lia).
Qed.

(** MemoryUsage counts, modulo 2^64, a header for every block that has been
    published (and one more) and the bytes handed out: not the mapped bytes
    that are still free. *)
Theorem arena_memory_usage ptr p cfg : first_map_ok p -> rtc (step page_size_) (initial ptr p) cfg -> MemoryUsage (arena cfg) = u64 (usage cfg).
Proof.
  intros Hp Hr. apply (rtc_ind_r (fun x => MemoryUsage (arena x) = u64 (usage x)) (initial ptr p)) in Hr; [done|..].
  - unfold initial. rewrite new_Arena_eq. unfold MemoryUsage, usage. cbn [arena calls heap memory_usage_]. rewrite map_size_singleton. done.
  - intros x y Hx Hxy HU. destruct (inv_reachable ptr p x Hp Hx) as [small HI]. destruct (inv_reachable ptr p y Hp (rtc_r _ _ _ Hx Hxy)) as [small' HI'].
    inversion Hxy as [? n Hn|? n Hn|? i c q mm lf a' pc' Hi Hq Hmm E]; subst.
    1,2: unfold usage, MemoryUsage in *; cbn [arena calls]; rewrite !sum_app, HU; change (sum uncounted [_]) with 0; change (sum counted [_]) with 0; f_equal; lia.
    eapply usage_advance; [exact Hi|exact Hq|exact HU| | |exact E].
    + intros Ep. destruct (inv_pc _ _ HI i c Hi) as [_ H]. by rewrite Ep in H.
    + intros Ep. destruct (inv_pc _ _ HI' i {| aligned := aligned c; pc := pc' |}) as [_ H]; [cbn [calls]; rewrite list_lookup_insert_eq; [done|by eapply lookup_lt_Some]|]. cbn [pc] in H. by rewrite Ep in H.
Qed.

(** ** A call that runs alone returns *)
Context (Hsmall : page_bits < 32).
Definition small_limit : Z := Z.shiftr BLOCK_SIZE 2.
Record fits (cfg : Config) : Prop := {
  fits_size i c n : calls cfg !! i = Some c -> small_phase (pc c) = true -> size_of (pc c) = Some n -> n <= small_limit;
  fits_owned i c b blk : calls cfg !! i = Some c -> owned (pc c) = Some b -> heap (arena cfg) !! b = Some blk -> small_limit <= rem blk;
}.

Lemma new_block_room : small_limit <= u32 (block_length page_size_ BLOCK_SIZE).
Proof.
  assert (0 < page_size_) as Hp by (apply Z.pow_pos_nonneg; lia). assert (page_size_ <= 2 ^ 31) by (apply Z.pow_le_mono_r; lia). change (Z.shiftl 1 16) with BLOCK_SIZE.
  pose proof (block_length_eq BLOCK_SIZE) as E. rewrite u64_small in E by (unfold BLOCK_SIZE; lia). pose proof (Z.div_mod (BLOCK_SIZE + page_size_ - 1) page_size_ ltac:(lia)).
  pose proof (Z.mod_pos_bound (BLOCK_SIZE + page_size_ - 1) page_size_ Hp). change small_limit with 16384. unfold BLOCK_SIZE in *. rewrite u32_small by nia. nia.
Qed.

Ltac split_step E := repeat match type of E with
    | ?x ≫= _ = _ => destruct x as [blk|] eqn:Eb; [|discriminate]; cbn [mbind option_bind] in E
    | Some (if ?b then _ else _) = _ => destruct b eqn:?
    | Some (_, if ?b then _ else _) = _ => destruct b eqn:?
    | (if ?b then _ else _) = _ => destruct b eqn:? end.

(** Other blocks keep their free bytes. *)
Lemma rem_kept ptr mm lf al a p a' p' b blk' : advance page_size_ ptr mm lf al a p = Some (a', p') -> held p <> Some b -> b <> ptr -> heap a' !! b = Some blk' ->
  exists blk, heap a !! b = Some blk /\ rem blk' = rem blk.
Proof.
  assert (forall n k, NewBlock page_size_ ptr mm n a k = (a', p') -> b <> ptr -> heap a' !! b = Some blk' -> heap a !! b = Some blk') as Hnew.
  { intros n k. unfold NewBlock. destruct (negb _); [by intros [= <- _]|]. destruct mm; intros [= <- _] Hb; cbn [heap with_heap]; by rewrite lookup_insert_ne by done. }
  destruct p; cbn [advance]; intros E Hheld Hptr Hb; split_step E.
  all: try (injection E as E; exists blk'; split; [by eapply Hnew|done]).
  all: injection E as <- <-; try (by exists blk').
  all: cbn [heap with_heap] in Hb; try (apply lookup_delete_Some in Hb as [_ Hb]; by exists blk').
  all: rewrite lookup_insert in Hb; case_decide as Eq; [|by exists blk']; subst; try done; injection Hb as <-; by exists blk.
Qed.

Lemma small_phase_kept ptr mm lf al a p a' p' : advance page_size_ ptr mm lf al a p = Some (a', p') -> small_phase p' = true ->
  (small_phase p = true /\ size_of p' = size_of p) \/ (exists n, p = Start n /\ p' = Load_blocks n /\ n <= small_limit).
Proof.
  assert (forall n k, NewBlock page_size_ ptr mm n a k = (a', p') -> p' = AssertFailed \/ p' = Bad_alloc \/ p' = k) as Hnew.
  { intros n k. unfold NewBlock. destruct (negb _); [intros [= _ <-]; by left|]. destruct mm; intros [= _ <-]; auto. }
  destruct p; cbn [advance]; intros E Hp; split_step E.
  all: try (injection E as E; destruct (Hnew _ _ E) as [-> | [-> | ->]]; try done; by left).
  all: injection E as <- <-; try done; try (by left).
  right. exists bytes. split; [done|]. split; [done|]. unfold small_limit. lia.
Qed.

Lemma owned_from ptr mm lf al a p a' p' b : advance page_size_ ptr mm lf al a p = Some (a', p') -> owned p' = Some b ->
  owned p = Some b \/ (b = ptr /\ exists blk, heap a' !! b = Some blk /\ rem blk = u32 (block_length page_size_ BLOCK_SIZE)).
Proof.
  assert (forall n k, NewBlock page_size_ ptr mm n a k = (a', p') -> owned p' = Some b -> p' = k /\ exists blk, heap a' !! ptr = Some blk /\ rem blk = u32 (block_length page_size_ n)) as Hnew.
  { intros n k. unfold NewBlock. destruct (negb _); [by intros [= _ <-]|]. destruct mm; intros [= <- <-]; [|done]. intros _. split; [done|]. cbn [heap with_heap]. rewrite lookup_insert_eq. by eexists. }
  destruct p; cbn [advance]; intros E Hp; split_step E.
  all: lazymatch type of E with Some (NewBlock _ _ _ _ _ _) = _ => injection E as E; destruct (Hnew _ _ E Hp) as (-> & blk' & Hb & Hr); cbn [owned] in Hp; first [discriminate Hp | injection Hp as ->; right; split; [reflexivity|]; exists blk'; split; assumption] | _ => idtac end.
  all: injection E as <- <-; try done; by left.
Qed.

Lemma fits_reachable ptr p cfg : first_map_ok p -> rtc (step page_size_) (initial ptr p) cfg -> fits cfg.
Proof.
  intros Hp Hr. apply (rtc_ind_r fits (initial ptr p)) in Hr; [done|by split; intros|]. intros x y Hx Hxy [F1 F2]. destruct (inv_reachable ptr p x Hp Hx) as [small HI].
  inversion Hxy as [? n Hn|? n Hn|? i c q mm lf a' pc' Hi Hq Hmm E]; subst.
  1,2: split; cbn [calls arena]; intros i c m; [intros H|intros blk H]; apply lookup_app_Some in H as [H|[_ [_ <-]%list_lookup_singleton_Some]]; try done; first [by apply (F1 i c)|by apply (F2 i c)].
  split; cbn [calls arena].
  - intros j d n Hjd. apply lookup_insert_cases in Hjd as [[-> ->]|[Hj Hd]]; [|by apply (F1 j d)]. cbn [pc]. intros Hs Hn. destruct (small_phase_kept _ _ _ _ _ _ _ _ E Hs) as [[H1 H2]|(m & _ & -> & Hm)].
    + rewrite H2 in Hn. by apply (F1 i c).
    + by injection Hn as <-.
  - intros j d b blk' Hjd Ho Hb. apply lookup_insert_cases in Hjd as [[-> ->]|[Hj Hd]]; cbn [pc] in Ho.
    + destruct (owned_from _ _ _ _ _ _ _ _ _ E Ho) as [Ho'|(-> & blk & Hb' & Hrem)]; [|rewrite Hb in Hb'; injection Hb' as <-; rewrite Hrem; apply new_block_room].
      destruct (inv_owned _ _ HI i c b Hi Ho') as (H1 & _ & H3). destruct (inv_small _ _ HI b H1) as [blk Hblk].
      destruct (rem_kept _ _ _ _ _ _ _ _ b blk' E H3) as (blk0 & H4 & ->); [congruence|done|]. by apply (F2 i c b blk0).
    + destruct (inv_unique _ _ HI j i d c b Hj Hd Hi Ho) as [_ H3]. destruct (inv_owned _ _ HI j d b Hd Ho) as (H1 & _). destruct (inv_small _ _ HI b H1) as [blk Hblk].
      destruct (rem_kept _ _ _ _ _ _ _ _ b blk' E H3) as (blk0 & H4 & ->); [congruence|done|]. by apply (F2 j d b blk0).
Qed.

Definition ended (p : ArenaPc) : bool := match p with Done _ _ _ | Bad_alloc | AssertFailed => true | _ => false end.
Definition room (a : Arena) (n : Z) (b : nat) : bool := match heap a !! b with Some blk => n <=? rem blk | None => false end.

(** A bound on the actions a call still needs when no other call runs. *)
Definition rank (a : Arena) (p : ArenaPc) : Z :=
  match p with
  | Done _ _ _ | Bad_alloc | AssertFailed => 0
  | Return _ _ _ => 1 | Final_count _ _ _ => 2 | Again_lower _ _ _ _ | Again_upper _ _ _ _ => 3 | Again _ _ _ => 4 | Final_upper _ _ _ _ => 5 | Final_lower _ _ _ => 6
  | Final_swap n b e => match heap a !! b with Some blk => if end_of n blk =? e then 7 else 8 | None => 8 end
  | Final_load _ _ => 9
  | Large_count _ _ => 10
  | Large_swap _ _ b => if decide (large_ a = b) then 11 else 13
  | Large_store _ _ b => if decide (large_ a = b) then 12 else 14
  | Large_load _ _ => 13
  | Try_rem n b r => if n <=? r then match heap a !! b with Some blk => if rem blk =? r then 10 else 22 | None => 22 end else if decide (blocks_ a = b) then 16 else 21
  | Load_rem n b => if room a n b then 11 else if decide (blocks_ a = b) then 17 else 22
  | Load_blocks n => if room a n (blocks_ a) then 12 else 18
  | Count n => if room a n (blocks_ a) then 13 else 19
  | Push _ b _ => if decide (blocks_ a = b) then 14 else 19
  | Store_next _ b _ => if decide (blocks_ a = b) then 15 else 20
  | Start _ => 23
  end.

Lemma rank_decreases small cfg i c ptr mm lf a' pc' : inv small cfg -> fits cfg -> calls cfg !! i = Some c ->
  advance page_size_ ptr mm lf (aligned c) (arena cfg) (pc c) = Some (a', pc') -> ended (pc c) = false -> rank a' pc' < rank (arena cfg) (pc c).
Proof.
  intros HI HF Hi. pose proof (inv_pc _ _ HI i c Hi) as Hpc. pose proof (fun n => fits_size _ HF i c n Hi) as Hsz. pose proof (fun b blk => fits_owned _ HF i c b blk Hi) as Hroom.
  pose proof (fun b => inv_owned _ _ HI i c b Hi) as Hown. pose proof (inv_small _ _ HI) as Hsm.
  assert (forall n k, NewBlock page_size_ ptr mm n (arena cfg) k = (a', pc') -> blocks_ a' = blocks_ (arena cfg) /\ large_ a' = large_ (arena cfg) /\ (pc' = AssertFailed \/ pc' = Bad_alloc \/ pc' = k)) as Hnew.
  { intros n k. unfold NewBlock. destruct (negb _); [intros [= <- <-]; auto|]. destruct mm; intros [= <- <-]; auto. }
  destruct (pc c) eqn:Ep; cbn [advance ended]; intros E He; try discriminate; split_step E.
  all: try (injection E as E; destruct (Hnew _ _ E) as (Hb1 & Hl1 & [-> | [-> | ->]])).
  all: try (injection E as <- <-).
  all: cbn [rank heap blocks_ large_ with_heap with_blocks with_large increment_usage] in *; unfold room in *; cbn [heap with_heap with_blocks with_large increment_usage] in *.
  all: repeat match goal with
    | |- context [if decide ?P then _ else _] => destruct (decide P)
    | |- context [match ?x with Some _ => _ | None => _ end] => destruct x eqn:?
    | |- context [if ?b then _ else _] => destruct b eqn:? end; try congruence; simplify_eq; try lia.
  - pose proof (Hroom nb _ eq_refl ltac:(eassumption)). specialize (Hsz bytes eq_refl eq_refl). lia.
  - destruct (Hown nb eq_refl) as (Hnb & _). destruct (Hsm nb Hnb). congruence.
Qed.

(** ArenaCall [i] acts and no other one. *)
Definition alone (i : nat) (cfg cfg' : Config) : Prop := exists c ptr mm lower_first a' pc',
  calls cfg !! i = Some c /\ heap (arena cfg) !! ptr = None /\ mmap_ok page_size_ (arena cfg) (block_length page_size_ (requested (pc c))) mm /\
  advance page_size_ ptr mm lower_first (aligned c) (arena cfg) (pc c) = Some (a', pc') /\
  cfg' = {| arena := a'; calls := <[i := {| aligned := aligned c; pc := pc' |}]> (calls cfg) |}.

Lemma size_kept ptr mm lf al a p a' p' : advance page_size_ ptr mm lf al a p = Some (a', p') -> p' = Bad_alloc \/ p' = AssertFailed \/ size_of p' = size_of p.
Proof.
  assert (forall n k, NewBlock page_size_ ptr mm n a k = (a', p') -> p' = AssertFailed \/ p' = Bad_alloc \/ p' = k) as Hnew.
  { intros n k. unfold NewBlock. destruct (negb _); [intros [= _ <-]; by left|]. destruct mm; intros [= _ <-]; auto. }
  destruct p; cbn [advance]; intros E; split_step E.
  all: try (injection E as E; destruct (Hnew _ _ E) as [-> | [-> | ->]]; by auto).
  all: injection E as <- <-; by auto.
Qed.

Lemma ended_stays ptr mm lf al a p a' p' : ended p = true -> advance page_size_ ptr mm lf al a p = Some (a', p') -> p' = p.
Proof. by destruct p; cbn [advance ended]; try discriminate; intros _ [= _ <-]. Qed.

Lemma rank_range a p : 0 <= rank a p <= 23.
Proof. destruct p; cbn [rank]; repeat match goal with |- context [match ?x with _ => _ end] => destruct x end; lia. Qed.

Lemma rank_ended a p : rank a p = 0 -> ended p = true.
Proof. destruct p; cbn [rank ended]; repeat match goal with |- context [match ?x with _ => _ end] => destruct x end; done. Qed.

Lemma alone_step i x y : alone i x y -> step page_size_ x y.
Proof. intros (c & q & mm & lf & a' & p' & H1 & H2 & H3 & H4 & ->). by econstructor. Qed.

Lemma alone_run ptr p i n k : forall x y c, first_map_ok p -> rtc (step page_size_) (initial ptr p) x -> calls x !! i = Some c -> (pc c = Bad_alloc \/ size_of (pc c) = Some n) ->
  nsteps (alone i) k x y -> rtc (step page_size_) (initial ptr p) y /\ exists d, calls y !! i = Some d /\ (pc d = Bad_alloc \/ size_of (pc d) = Some n) /\
    (ended (pc d) = true \/ rank (arena y) (pc d) + Z.of_nat k <= rank (arena x) (pc c)).
Proof.
  induction k as [|k IH]; intros x y c Hp Hr Hi Hn Hk; inversion Hk as [|? ? z ? Hxz Hzy]; subst.
  - split; [done|]. exists c. split; [done|]. split; [done|]. right. lia.
  - pose proof (rtc_r _ _ _ Hr (alone_step i x z Hxz)) as Hz. destruct Hxz as (c0 & q & mm & lf & a' & p' & H1 & H2 & H3 & H4 & ->). rewrite Hi in H1. injection H1 as <-.
    destruct (inv_reachable ptr p x Hp Hr) as [small HI]. pose proof (fits_reachable ptr p x Hp Hr) as HF. destruct (inv_reachable ptr p _ Hp Hz) as [small' HI'].
    set (d := {| aligned := aligned c; pc := p' |}) in *. assert (calls {| arena := a'; calls := <[i := d]> (calls x) |} !! i = Some d) as Hd.
    { cbn [calls]. rewrite list_lookup_insert_eq; [done|by eapply lookup_lt_Some]. }
    assert (p' <> AssertFailed) as Hna. { intros Ep. destruct (inv_pc _ _ HI' i d Hd) as [_ H]. cbn [pc d] in H. by rewrite Ep in H. }
    assert (pc d = Bad_alloc \/ size_of (pc d) = Some n) as Hn'.
    { destruct Hn as [Hn|Hn]; [left; rewrite Hn in H4; by eapply ended_stays in H4|]. destruct (size_kept _ _ _ _ _ _ _ _ H4) as [?|[?|E]]; [by left|done|right]. cbn [pc d]. congruence. }
    destruct (IH _ _ d Hp Hz Hd Hn' Hzy) as (Hy & e & He & Hne & Hrank). split; [done|]. exists e. split; [done|]. split; [done|]. destruct Hrank as [?|Hrank]; [by left|].
    destruct (ended (pc c)) eqn:Ec.
    + pose proof (ended_stays _ _ _ _ _ _ _ _ Ec H4) as Ep. pose proof (rank_range (arena y) (pc e)). cbn [arena pc d] in Hrank. rewrite Ep in Hrank. left. apply (rank_ended (arena y)).
      assert (rank a' (pc c) = 0) by (destruct (pc c); done). lia.
    + right. pose proof (rank_decreases small x i c q mm lf a' p' HI HF Hi H4 Ec). cbn [arena pc d] in Hrank. lia.
Qed.

(** C27. A call of Allocate or AllocateAligned needs no other thread.  From every
    state that interleaved calls lead to, wherever the others stopped, a call
    can go on acting alone, and after at most 23 actions of its own it has
    returned its memory, or thrown because mmap failed. *)
Theorem allocate_finishes_alone ptr p cfg i c n : first_map_ok p -> rtc (step page_size_) (initial ptr p) cfg ->
  calls cfg !! i = Some c -> size_of (pc c) = Some n ->
  (forall k, exists cfg', nsteps (alone i) k cfg cfg') /\
  (forall k cfg', (23 <= k)%nat -> nsteps (alone i) k cfg cfg' -> exists c', calls cfg' !! i = Some c' /\ (pc c' = Bad_alloc \/ exists b r, pc c' = Done n b r)).
Proof.
  intros Hp Hr Hi Hn. split.
  - intros k. revert cfg c Hr Hi Hn. assert (forall cfg c, rtc (step page_size_) (initial ptr p) cfg -> calls cfg !! i = Some c -> exists cfg', nsteps (alone i) k cfg cfg') as H; [|eauto].
    induction k as [|k IH]; intros x d Hx Hd; [exists x; constructor|]. destruct (inv_reachable ptr p x Hp Hx) as [small HI].
    destruct (advance_defined small x i d (fresh (dom (heap (arena x)))) None true HI Hd) as [[a' p'] E].
    assert (alone i x {| arena := a'; calls := <[i := {| aligned := aligned d; pc := p' |}]> (calls x) |}) as Hstep.
    { exists d, (fresh (dom (heap (arena x)))), None, true, a', p'. split; [done|]. split; [apply not_elem_of_dom, is_fresh|]. by split. }
    destruct (IH _ {| aligned := aligned d; pc := p' |} (rtc_r _ _ _ Hx (alone_step i _ _ Hstep))) as [y Hy]; [cbn [calls]; rewrite list_lookup_insert_eq; [done|by eapply lookup_lt_Some]|].
    exists y. by econstructor.
  - intros k y Hk Hy. destruct (alone_run ptr p i n k cfg y c Hp Hr Hi (or_intror Hn) Hy) as (Hry & d & Hd & Hnd & Hrank). exists d. split; [done|].
    destruct (inv_reachable ptr p y Hp Hry) as [small HI]. destruct (inv_pc _ _ HI i d Hd) as [_ Hpc].
    assert (ended (pc d) = true) as He. { destruct Hrank as [?|Hrank]; [done|]. apply (rank_ended (arena y)). pose proof (rank_range (arena y) (pc d)). pose proof (rank_range (arena cfg) (pc c)). lia. }
    destruct (pc d) eqn:Ed; try discriminate; [|by left|done]. right. destruct Hnd as [?|[= <-]]; [done|]. by eexists _, _.
Qed.
End Steps.

(** ** Two calls that race for the first block *)

(** The calls act in this order; mmap fails if it is called, [ptr] is free. *)
Fixpoint exec (page_size_ : Z) (ptr : nat) (schedule : list nat) (cfg : Config) : option Config :=
  match schedule with
  | [] => Some cfg
  | i :: schedule =>
      c ← calls cfg !! i;
      if decide (heap (arena cfg) !! ptr = None) then
        r ← advance page_size_ ptr None true (aligned c) (arena cfg) (pc c);
        exec page_size_ ptr schedule {| arena := fst r; calls := <[i := {| aligned := aligned c; pc := snd r |}]> (calls cfg) |}
      else None
  end.

Lemma exec_steps page_size_ ptr schedule : forall cfg cfg', exec page_size_ ptr schedule cfg = Some cfg' -> rtc (step page_size_) cfg cfg'.
Proof.
  induction schedule as [|i schedule IH]; intros cfg cfg'; cbn [exec]; [by intros [= <-]|].
  destruct (calls cfg !! i) as [c|] eqn:Ei; [|done]. cbn [mbind option_bind]. destruct (decide _) as [Hptr|]; [|done].
  destruct (advance _ _ _ _ _ _ _) as [[a' p']|] eqn:E; [|done]. cbn [mbind option_bind fst snd]. intros H. eapply rtc_l; [|by apply IH]. cbn [fst snd]. by eapply (step_advance _ cfg i c ptr None true).
Qed.

Definition racing : Config :=
  {| arena := arena (initial 12 0 1048576); calls := [{| aligned := false; pc := Allocate 5 |}; {| aligned := true; pc := AllocateAligned 13 |}] |}.

Lemma racing_reachable : rtc (step (2 ^ 12)) (initial 12 0 1048576) racing.
Proof.
  eapply rtc_l; [apply (step_begin _ _ 5); lia|]. eapply rtc_l; [apply (step_begin_aligned _ _ 13); unfold align_; lia|]. apply rtc_refl.
Qed.

Definition interleaved : list nat := [0; 1; 0; 1; 0; 1; 0; 1; 1; 0; 1; 0; 1; 0; 1; 0; 1; 0; 1; 0; 1; 0; 1; 0; 1]%nat.
Definition raced : Config := default racing (exec (2 ^ 12) 9 interleaved racing).

Lemma raced_reachable : rtc (step (2 ^ 12)) (initial 12 0 1048576) raced.
Proof. eapply (transitivity (R := rtc (step (2 ^ 12)))); [exact racing_reachable|]. apply (exec_steps _ 9 interleaved). vm_compute. reflexivity. Qed.

Lemma arena_calls_safe_witness : exists r1 r2, pc <$> calls raced = [Done 5 0 r1; Done 16 0 r2] /\ disjoint r1 5 r2 16 /\ r2 mod align_ = 0.
Proof.
  assert (first_map_ok 12 1048576) as Hp by (vm_compute; repeat split; try discriminate; reflexivity).
  destruct (arena_calls_safe 12 ltac:(lia) 0 1048576 raced Hp raced_reachable) as (_ & H2 & H3).
  exists 1048576, 1114096. split; [vm_compute; reflexivity|]. split.
  - apply (H3 0%nat 1%nat {| aligned := false; pc := Done 5 0 1048576 |} {| aligned := true; pc := Done 16 0 1114096 |} 5 16 0%nat 0%nat); [lia|vm_compute; reflexivity..].
  - destruct (H2 1%nat {| aligned := true; pc := Done 16 0 1114096 |} 16 0%nat 1114096) as (blk & _ & _ & _ & H); [vm_compute; reflexivity|reflexivity|]. apply H. reflexivity.
Defined.

Lemma allocate_finishes_alone_witness : exists cfg' c', nsteps (alone 12 1) 23 racing cfg' /\ calls cfg' !! 1%nat = Some c' /\ (pc c' = Bad_alloc \/ exists b r, pc c' = Done 16 b r).
Proof.
  assert (first_map_ok 12 1048576) as Hp by (vm_compute; repeat split; try discriminate; reflexivity).
  destruct (allocate_finishes_alone 12 ltac:(lia) ltac:(lia) 0 1048576 racing 1 {| aligned := true; pc := AllocateAligned 13 |} 16 Hp racing_reachable) as [H1 H2]; [reflexivity|vm_compute; reflexivity|].
  destruct (H1 23%nat) as [cfg' Hs]. destruct (H2 23%nat cfg' ltac:(lia) Hs) as (c' & Hc & Hd). exists cfg', c'. split; [exact Hs|]. split; [exact Hc|exact Hd].
Defined.

(** A new arena has 64 KiB mapped and reports 96 bytes. *)
Example new_arena_usage : MemoryUsage (arena (initial 12 0 1048576)) = 96 /\
  map_len <$> heap (arena (initial 12 0 1048576)) !! 0%nat = Some 65536.
Proof. vm_compute. split; reflexivity. Qed.
