(* ===== verification/Snapshot.v ===== *)
(** * Snapshots (db/snapshot.h and their use in db/db_impl.cc)

    The database keeps its snapshots in a circular doubly linked list around a
    dummy node; a compaction takes the number of the oldest one as the bound
    below which only the newest entry of a key has to stay. *)

From Stdlib Require Import ZArith Lia Bool.
From stdpp Require Import base list gmap sorting relations.
From S2P Require Import Prelude.

Set Default Goal Selector "!".
Local Open Scope Z_scope.

(** [in_list] is list_ == this; it is false (NULL) for the dummy only. *)
Record SnapshotImpl := { number_ : Z; snap_prev_ : nat; snap_next_ : nat; in_list : bool }.
Notation Nodes := (gmap nat SnapshotImpl).
(** &list_ *)
Definition dummy : nat := 0.

Definition set_prev (a v : nat) (m : Nodes) : option Nodes :=
  n ← m !! a; Some (<[a := {| number_ := number_ n; snap_prev_ := v; snap_next_ := snap_next_ n; in_list := in_list n |}]> m).
Definition set_next (a v : nat) (m : Nodes) : option Nodes :=
  n ← m !! a; Some (<[a := {| number_ := number_ n; snap_prev_ := snap_prev_ n; snap_next_ := v; in_list := in_list n |}]> m).

Definition new_SnapshotList : Nodes := {[ dummy := {| number_ := 0; snap_prev_ := dummy; snap_next_ := dummy; in_list := false |} ]}.

Definition snap_empty (m : Nodes) : option bool := d ← m !! dummy; Some (bool_decide (snap_next_ d = dummy)).
(** None: assert(!empty()) fails. *)
Definition oldest (m : Nodes) : option nat :=
  e ← snap_empty m; if (e : bool) then None else d ← m !! dummy; Some (snap_next_ d).
Definition newest (m : Nodes) : option nat :=
  e ← snap_empty m; if (e : bool) then None else d ← m !! dummy; Some (snap_prev_ d).

(** [s] is the new object. *)
Definition snap_New (s : nat) (seq : Z) (m : Nodes) : option Nodes :=
  d ← m !! dummy;
  let m := <[s := {| number_ := seq; snap_prev_ := snap_prev_ d; snap_next_ := dummy; in_list := true |}]> m in
  n ← m !! s;
  m ← set_next (snap_prev_ n) s m;
  n ← m !! s;
  set_prev (snap_next_ n) s m.

Definition snap_Delete (s : nat) (m : Nodes) : option Nodes :=
  n ← m !! s;
  if negb (in_list n) then None
  else
    m ← set_next (snap_prev_ n) (snap_next_ n) m;
    n ← m !! s;
    m ← set_prev (snap_next_ n) (snap_prev_ n) m;
    Some (delete s m).

(** ** The database *)
Record Snapshots := { snapshots_ : Nodes; snap_last_sequence : Z }.
Definition new_Snapshots (last : Z) : Snapshots := {| snapshots_ := new_SnapshotList; snap_last_sequence := last |}.

(** GetSnapshot under mutex_; the wait for writers that follows is part of the write path. *)
Definition snap_GetSnapshot (s : nat) (st : Snapshots) : option Snapshots :=
  m ← snap_New s (snap_last_sequence st) (snapshots_ st); Some {| snapshots_ := m; snap_last_sequence := snap_last_sequence st |}.
Definition ReleaseSnapshot (s : nat) (st : Snapshots) : option Snapshots :=
  m ← snap_Delete s (snapshots_ st); Some {| snapshots_ := m; snap_last_sequence := snap_last_sequence st |}.

(** compact->smallest_snapshot, as DoCompactionWorkGuards sets it. *)
Definition smallest_snapshot_of (st : Snapshots) : option Z :=
  e ← snap_empty (snapshots_ st);
  if (e : bool) then Some (snap_last_sequence st)
  else s ← oldest (snapshots_ st); n ← snapshots_ st !! s; Some (number_ n).

(** The snapshots that clients hold, oldest first. *)
Notation Live := (list (nat * Z)).

(** Clients take and release snapshots while writers publish sequence numbers. *)
Inductive snap_step : Snapshots * Live -> Snapshots * Live -> Prop :=
  | snap_write st live seq : snap_last_sequence st <= seq ->
      snap_step (st, live) ({| snapshots_ := snapshots_ st; snap_last_sequence := seq |}, live)
  | snap_get st live s st' : snapshots_ st !! s = None -> snap_GetSnapshot s st = Some st' ->
      snap_step (st, live) (st', live ++ [(s, snap_last_sequence st)])
  | snap_release st live1 s seq live2 st' : ReleaseSnapshot s st = Some st' ->
      snap_step (st, live1 ++ (s, seq) :: live2) (st', live1 ++ live2).

(** ** Chains of nodes *)
Definition nxt (m : Nodes) (a : nat) : option nat := snap_next_ <$> m !! a.
Definition prv (m : Nodes) (a : nat) : option nat := snap_prev_ <$> m !! a.

Fixpoint chain (m : Nodes) (a : nat) (l : list nat) (b : nat) : Prop :=
  match l with
  | [] => nxt m a = Some b /\ prv m b = Some a
  | x :: l => nxt m a = Some x /\ prv m x = Some a /\ chain m x l b
  end.

Lemma chain_app m a l1 x l2 b : chain m a (l1 ++ x :: l2) b <-> chain m a l1 x /\ chain m x l2 b.
Proof. revert a. induction l1 as [|y l1 IH]; intros a; cbn [app chain]; [tauto|]. rewrite IH. tauto. Qed.

(** The last node of a chain before its end. *)
Lemma chain_end m a l b : chain m a l b -> prv m b = last (a :: l) /\ exists z, last (a :: l) = Some z /\ nxt m z = Some b.
Proof.
  revert a. induction l as [|x l IH]; intros a; cbn [chain]; [intros [H1 H2]; split; [done|]; by exists a|]. intros (_ & _ & H). exact (IH x H).
Qed.
Lemma chain_begin m a l b : chain m a l b -> nxt m a = head (l ++ [b]) /\ exists x, head (l ++ [b]) = Some x /\ prv m x = Some a.
Proof. destruct l as [|x l]; cbn [chain app head]; [intros [H1 H2]|intros (H1 & H2 & _)]; (split; [done|]); by eexists. Qed.

(** The same nodes with another end. *)
Lemma chain_new_end m m' a l b b' z : chain m a l b -> last (a :: l) = Some z -> NoDup (a :: l) ->
  (forall y, y ∈ a :: l -> y <> z -> nxt m' y = nxt m y) -> (forall y, y ∈ l -> prv m' y = prv m y) ->
  nxt m' z = Some b' -> prv m' b' = Some z -> chain m' a l b'.
Proof.
  revert a. induction l as [|x l IH]; intros a Hc Hz Hnd Hn Hp Hz1 Hz2; cbn [chain] in *.
  - injection Hz as ->. done.
  - destruct Hc as (H1 & H2 & H3). apply NoDup_cons in Hnd as [Ha Hnd]. split; [|split].
    + rewrite Hn; [done|left|]. intros ->. apply Ha. by apply last_Some_elem_of.
    + rewrite Hp; [done|left].
    + apply (IH x); try done; [intros y Hy Hyz; apply Hn; [by right|done]|intros y Hy; apply Hp; by right].
Qed.
Lemma snap_chain_frame m m' a l b : chain m a l b -> (forall y, y ∈ a :: l -> nxt m' y = nxt m y) -> (forall y, y ∈ l ++ [b] -> prv m' y = prv m y) -> chain m' a l b.
Proof.
  revert a. induction l as [|x l IH]; intros a Hc Hn Hp; cbn [chain app] in *.
  - destruct Hc. rewrite Hn, Hp by left. done.
  - destruct Hc as (H1 & H2 & H3). split; [rewrite Hn; [done|left]|]. split; [rewrite Hp; [done|left]|]. apply IH; [done|intros y Hy; apply Hn; by right|intros y Hy; apply Hp; by right].
Qed.

(** What stays of a node when its links change. *)
Definition data (m : Nodes) (a : nat) : option (Z * bool) := (fun n => (number_ n, in_list n)) <$> m !! a.

Lemma set_next_spec a v m : is_Some (m !! a) -> exists m', set_next a v m = Some m' /\ (forall y, nxt m' y = if decide (a = y) then Some v else nxt m y) /\
  (forall y, prv m' y = prv m y) /\ (forall y, data m' y = data m y).
Proof.
  intros [n Hn]. unfold set_next. rewrite Hn. cbn [mbind option_bind]. eexists. split; [done|]. unfold nxt, prv, data.
  split; [|split]; intros y; rewrite lookup_insert; case_decide as E; try done; subst; by rewrite Hn.
Qed.
Lemma set_prev_spec a v m : is_Some (m !! a) -> exists m', set_prev a v m = Some m' /\ (forall y, prv m' y = if decide (a = y) then Some v else prv m y) /\
  (forall y, nxt m' y = nxt m y) /\ (forall y, data m' y = data m y).
Proof.
  intros [n Hn]. unfold set_prev. rewrite Hn. cbn [mbind option_bind]. eexists. split; [done|]. unfold nxt, prv, data.
  split; [|split]; intros y; rewrite lookup_insert; case_decide as E; try done; subst; by rewrite Hn.
Qed.

Lemma chain_live m a l b y : chain m a l b -> y ∈ a :: l ++ [b] -> is_Some (m !! y).
Proof.
  revert a. induction l as [|x l IH]; intros a Hc Hy; cbn [chain app] in *.
  - destruct Hc as [H1 H2]. unfold nxt, prv in *. destruct (m !! a) eqn:Ea; [|done]. destruct (m !! b) eqn:Eb; [|done]. apply elem_of_cons in Hy as [->|Hy%list_elem_of_singleton]; [by eexists|subst; by eexists].
  - destruct Hc as (H1 & H2 & H3). apply elem_of_cons in Hy as [->|Hy]; [|by apply (IH x)]. unfold nxt in H1. destruct (m !! a) eqn:Ea; [by eexists|done].
Qed.

Lemma data_live m y q i : data m y = Some (q, i) -> exists n, m !! y = Some n /\ number_ n = q /\ in_list n = i.
Proof. unfold data. destruct (m !! y) as [n|]; [|done]. intros [= <- <-]. by exists n. Qed.

Record snap_rep (st : Snapshots) (live : Live) : Prop := {
  sr_chain : chain (snapshots_ st) dummy (map fst live) dummy;
  sr_distinct : NoDup (dummy :: map fst live);
  sr_data s q : (s, q) ∈ live -> data (snapshots_ st) s = Some (q, true);
  sr_sorted : Sorted.StronglySorted Z.le (map snd live);
  sr_bound : Forall (fun q => q <= snap_last_sequence st) (map snd live);
}.

Lemma snap_New_ok m l s seq : chain m dummy l dummy -> NoDup (dummy :: l) -> m !! s = None ->
  exists m', snap_New s seq m = Some m' /\ chain m' dummy (l ++ [s]) dummy /\ data m' s = Some (seq, true) /\ forall y, y <> s -> data m' y = data m y.
Proof.
  intros Hc Hnd Hs. destruct (chain_end m dummy l dummy Hc) as (Hpd & z & Hz & Hzn). rewrite Hz in Hpd.
  assert (is_Some (m !! z)) as Hzm by (unfold nxt in Hzn; destruct (m !! z); [by eexists|done]).
  assert (s <> dummy) as Hsd by (intros ->; destruct (chain_live m dummy l dummy dummy Hc (list_elem_of_here _ _)); congruence).
  assert (z <> s) as Hzs by (intros ->; destruct Hzm; congruence). unfold prv in Hpd. destruct (m !! dummy) as [d|] eqn:Ed; [|done]. cbn in Hpd. injection Hpd as Hd.
  unfold snap_New. rewrite Ed. cbn [mbind option_bind]. rewrite lookup_insert_eq. cbn [mbind option_bind snap_prev_]. rewrite Hd.
  set (n := {| number_ := seq; snap_prev_ := z; snap_next_ := dummy; in_list := true |}).
  destruct (set_next_spec z s (<[s := n]> m)) as (m2 & -> & N2 & P2 & D2); [by rewrite lookup_insert_ne|]. cbn [mbind option_bind].
  assert (nxt m2 s = Some dummy) as Hns by (rewrite N2, decide_False by done; unfold nxt; by rewrite lookup_insert_eq).
  unfold nxt in Hns. destruct (m2 !! s) as [n2|] eqn:E2; [|done]. injection Hns as Hns. cbn [mbind option_bind]. rewrite Hns.
  destruct (set_prev_spec dummy s m2) as (m3 & E3 & P3 & N3 & D3).
  { pose proof (P2 dummy) as H. unfold prv in H. rewrite lookup_insert_ne, Ed in H by done. destruct (m2 !! dummy); [by eexists|done]. }
  exists m3. split; [done|]. assert (forall y, nxt m3 y = if decide (z = y) then Some s else if decide (s = y) then Some dummy else nxt m y) as Nx.
  { intros y. rewrite N3, N2. destruct (decide (z = y)); [done|]. unfold nxt. rewrite lookup_insert. by case_decide. }
  assert (forall y, prv m3 y = if decide (dummy = y) then Some s else if decide (s = y) then Some z else prv m y) as Px.
  { intros y. rewrite P3, P2. destruct (decide (dummy = y)); [done|]. unfold prv. rewrite lookup_insert. by case_decide. }
  assert (forall y, y ∈ dummy :: l -> y <> s) as Hls by (intros y Hy ->; destruct (chain_live m dummy l dummy s Hc); [set_solver|congruence]).
  split; [|split].
  - apply chain_app. split.
    + apply (chain_new_end m m3 dummy l dummy s z); [done|done|done| | | |].
      * intros y Hy Hyz. rewrite Nx, !decide_False; [done|by apply not_eq_sym, Hls|congruence].
      * intros y Hy. apply NoDup_cons in Hnd as [Hnl _]. rewrite Px, !decide_False; [done|apply not_eq_sym, Hls; by right|by intros <-].
      * by rewrite Nx, decide_True.
      * by rewrite Px, decide_False, decide_True.
    + cbn [chain]. by rewrite Nx, Px, decide_False, !decide_True.
  - rewrite D3, D2. unfold data. by rewrite lookup_insert_eq.
  - intros y Hy. rewrite D3, D2. unfold data. by rewrite lookup_insert_ne.
Qed.

Lemma snap_Delete_ok m l1 s l2 q : chain m dummy (l1 ++ s :: l2) dummy -> NoDup (dummy :: l1 ++ s :: l2) -> data m s = Some (q, true) ->
  exists m', snap_Delete s m = Some m' /\ chain m' dummy (l1 ++ l2) dummy /\ forall y, y <> s -> data m' y = data m y.
Proof.
  intros Hc Hnd Hd. pose proof Hc as [C1 C2]%chain_app. destruct (chain_end m dummy l1 s C1) as (Hp & z & Hz & _). destruct (chain_begin m s l2 dummy C2) as (Hn & x & Hx & _).
  rewrite Hz in Hp. rewrite Hx in Hn. destruct (data_live _ _ _ _ Hd) as (n & Em & _ & Hin). unfold prv in Hp. unfold nxt in Hn. rewrite Em in Hp, Hn. injection Hp as Hp. injection Hn as Hn.
  assert (z ∈ dummy :: l1) as Hzl by (by apply last_Some_elem_of). assert (x ∈ l2 ++ [dummy]) as Hxl by (by apply head_Some_elem_of).
  assert (s ∉ dummy :: l1 ++ l2) as Hs by (rewrite NoDup_cons, NoDup_app, NoDup_cons in Hnd; clear - Hnd; set_solver).
  assert (z <> s) as Hzs by (clear - Hs Hzl; set_solver). assert (x <> s) as Hxs by (clear - Hs Hxl; set_solver).
  unfold snap_Delete. rewrite Em. cbn [mbind option_bind]. rewrite Hin. cbn [negb]. rewrite Hp, Hn.
  destruct (set_next_spec z x m) as (m1 & -> & N1 & P1 & D1); [eapply chain_live; [exact C1|clear - Hzl; set_solver]|]. cbn [mbind option_bind].
  assert (prv m1 s = Some z /\ nxt m1 s = Some x) as [Hp1 Hn1].
  { rewrite P1, N1, decide_False by done. unfold prv, nxt. rewrite Em. cbn. by rewrite Hp, Hn. }
  unfold prv in Hp1. unfold nxt in Hn1. destruct (m1 !! s) as [n1|] eqn:E1; [|done]. injection Hp1 as Hp1. injection Hn1 as Hn1. cbn [mbind option_bind]. rewrite Hp1, Hn1.
  destruct (set_prev_spec x z m1) as (m2 & -> & P2 & N2 & D2).
  { destruct (chain_live m s l2 dummy x C2) as [nx Hnx]; [clear - Hxl; set_solver|]. pose proof (D1 x) as H. unfold data in H. rewrite Hnx in H. destruct (m1 !! x); [by eexists|done]. }
  cbn [mbind option_bind]. eexists. split; [done|].
  assert (forall y, y <> s -> nxt (delete s m2) y = if decide (z = y) then Some x else nxt m y) as Nx.
  { intros y Hy. unfold nxt at 1. rewrite lookup_delete_ne by done. fold (nxt m2 y). by rewrite N2, N1. }
  assert (forall y, y <> s -> prv (delete s m2) y = if decide (x = y) then Some z else prv m y) as Px.
  { intros y Hy. unfold prv at 1. rewrite lookup_delete_ne by done. fold (prv m2 y). by rewrite P2, P1. }
  split; [|intros y Hy; unfold data; rewrite lookup_delete_ne by done; fold (data m2 y); by rewrite D2, D1].
  rewrite NoDup_cons, NoDup_app, NoDup_cons in Hnd. destruct Hnd as (H0 & H1 & H12 & H2 & H3).
  assert (chain (delete s m2) dummy l1 x) as Hfirst.
  { apply (chain_new_end m _ dummy l1 s x z); [done|done|apply NoDup_cons; clear - H0 H1; set_solver| | |by rewrite Nx, decide_True|by rewrite Px, decide_True].
    - intros y Hy Hyz. rewrite Nx, decide_False; [done|by apply not_eq_sym|]. clear - Hs Hy. set_solver.
    - intros y Hy. rewrite Px, decide_False; [done| |]; clear - Hs H0 H12 Hxl Hy; set_solver. }
  destruct l2 as [|w l2]; cbn [app head] in Hx; injection Hx as <-; [by rewrite app_nil_r|]. apply chain_app. split; [done|].
  cbn [chain] in C2. destruct C2 as (_ & _ & C2). apply (snap_chain_frame m); [done|..].
  - intros y Hy. rewrite Nx, decide_False; [done| |]; clear - Hs H0 H12 Hzl Hy; set_solver.
  - intros y Hy. apply NoDup_cons in H3. rewrite Px, decide_False; [done| |]; clear - Hs H0 H3 Hy; set_solver.
Qed.

Lemma snap_rep_step x y : snap_step x y -> snap_rep (fst x) (snd x) -> snap_rep (fst y) (snd y).
Proof.
  intros Hs [R1 R2 R3 R4 R5]. inversion Hs as [st live seq Hseq|st live s st' Hfresh E|st live1 s seq live2 st' E]; subst; cbn [fst snd] in *.
  - split; cbn [snapshots_ snap_last_sequence]; try done. eapply Forall_impl; [exact R5|]. cbn. lia.
  - destruct (snap_New_ok _ _ s (snap_last_sequence st) R1 R2 Hfresh) as (m' & E' & Hc & Hd & Hrest). unfold snap_GetSnapshot in E. rewrite E' in E. injection E as <-.
    assert (s ∉ dummy :: map fst live) as Hs'.
    { intros Hin. destruct (chain_live _ _ _ _ s R1) as [n Hn]; [clear - Hin; set_solver|]. congruence. }
    split; cbn [snapshots_ snap_last_sequence]; rewrite ?map_app; cbn [map fst snd].
    + done.
    + rewrite app_comm_cons. apply NoDup_app. split; [done|]. split; [clear - Hs'; set_solver|apply NoDup_singleton].
    + intros s' q' [H|H%list_elem_of_singleton]%elem_of_app; [|by injection H as -> ->]. rewrite Hrest; [by apply R3|]. intros ->. apply Hs'. right. by apply (list_elem_of_fmap_2 fst) in H.
    + apply StronglySorted_app. split; [|split; [done|by repeat constructor]]. intros a b Ha ->%list_elem_of_singleton. rewrite Forall_forall in R5. by apply R5.
    + apply Forall_app. split; [done|]. repeat constructor. lia.
  - rewrite map_app in R1, R2, R4, R5. cbn [map fst snd] in *. assert (data (snapshots_ st) s = Some (seq, true)) as Hd by (apply R3, elem_of_app; right; left).
    destruct (snap_Delete_ok _ _ s _ seq R1 R2 Hd) as (m' & E' & Hc & Hrest). unfold ReleaseSnapshot in E. rewrite E' in E. injection E as <-.
    assert (s ∉ map fst live1 ++ map fst live2) as Hs' by (rewrite NoDup_cons, NoDup_app, NoDup_cons in R2; clear - R2; set_solver).
    split; cbn [snapshots_ snap_last_sequence]; rewrite ?map_app.
    + done.
    + eapply sublist_NoDup; [exact R2|]. constructor. apply sublist_app; [done|]. by constructor.
    + intros s' q' H. rewrite Hrest; [apply R3; clear - H; set_solver|]. intros ->. apply Hs'. rewrite <- map_app. by apply (list_elem_of_fmap_2 fst) in H.
    + apply StronglySorted_app in R4 as (S1 & S2 & S3). inversion S3; subst. apply StronglySorted_app. split; [intros a b Ha Hb; apply S1; [done|by right]|done].
    + apply Forall_app in R5 as [F1 F2]. inversion F2; subst. by apply Forall_app.
Qed.

Lemma snap_rep_reachable last st live : rtc snap_step (new_Snapshots last, []) (st, live) -> snap_rep st live.
Proof.
  intros Hr. change (snap_rep (fst (st, live)) (snd (st, live))). apply (rtc_ind_r (fun x => snap_rep (fst x) (snd x)) (new_Snapshots last, [])) in Hr; [done|..].
  - split; cbn [fst snd map new_Snapshots snapshots_]; [done|apply NoDup_singleton|by intros s q ?%elem_of_nil|constructor|constructor].
  - intros x y _ Hxy. by apply snap_rep_step.
Qed.

(** C12. Compactions respect the snapshots.  In every state that taking and
    releasing snapshots leads to while sequence numbers are published, the list
    can be read without a failing assertion: the bound a compaction takes is
    the number of the oldest snapshot that is held, or the last sequence number
    when there is none, so that it is at most the number of every snapshot that
    is held; each of these still has the number it was made with; and taking a
    snapshot, or releasing one that is held, always succeeds. *)
Theorem snapshots_bound_compactions last st live : rtc snap_step (new_Snapshots last, []) (st, live) ->
  (exists bound, smallest_snapshot_of st = Some bound /\ bound <= snap_last_sequence st /\
    (forall s q, (s, q) ∈ live -> bound <= q /\ exists n, snapshots_ st !! s = Some n /\ number_ n = q) /\
    match live with [] => bound = snap_last_sequence st | (s, q) :: _ => bound = q /\ oldest (snapshots_ st) = Some s end) /\
  (forall s, snapshots_ st !! s = None -> is_Some (snap_GetSnapshot s st)) /\
  (forall s q, (s, q) ∈ live -> is_Some (ReleaseSnapshot s st)).
Proof.
  intros Hr. pose proof (snap_rep_reachable last st live Hr) as [R1 R2 R3 R4 R5]. split; [|split].
  - destruct (chain_begin _ _ _ _ R1) as (Hn & _). unfold nxt in Hn. unfold smallest_snapshot_of, oldest, snap_empty. destruct (snapshots_ st !! dummy) as [d|]; [|by destruct live as [|[? ?] ?]]. cbn [mbind option_bind].
    destruct live as [|[s q] live]; cbn [map fst app head] in Hn; injection Hn as ->.
    + rewrite bool_decide_true by done. exists (snap_last_sequence st). split; [done|]. split; [lia|]. split; [by intros s q ?%elem_of_nil|done].
    + cbn [map fst] in R2. rewrite bool_decide_false by (intros ->; apply NoDup_cons in R2 as [R2 _]; apply R2; left). cbn [mbind option_bind].
      destruct (data_live _ _ _ _ (R3 s q (list_elem_of_here _ _))) as (n & Hs & Hq & _). rewrite Hs. cbn [mbind option_bind]. exists q. rewrite Hq. split; [done|]. split; [by inversion R5|]. split; [|done].
      intros s' q' Hin. destruct (data_live _ _ _ _ (R3 s' q' Hin)) as (n' & Hs' & Hq' & _). split; [|by exists n']. apply elem_of_cons in Hin as [[= -> ->]|Hin]; [lia|].
      cbn [map snd] in R4. inversion R4 as [|? ? _ Hall]; subst. rewrite Forall_forall in Hall. apply Hall. by apply (list_elem_of_fmap_2 snd) in Hin.
  - intros s Hs. destruct (snap_New_ok _ _ s (snap_last_sequence st) R1 R2 Hs) as (m' & E & _). unfold snap_GetSnapshot. rewrite E. by eexists.
  - intros s q Hin. pose proof (R3 s q Hin) as Hd. apply list_elem_of_split in Hin as (l1 & l2 & ->). rewrite map_app in R1, R2. cbn [map fst] in *.
    destruct (snap_Delete_ok _ _ s _ q R1 R2 Hd) as (m' & E & _). unfold ReleaseSnapshot. rewrite E. by eexists.
Qed.

(** Snapshots at 5, 8 and 8; the first one is released. *)
Definition after_get (s : nat) (st : Snapshots) : Snapshots := default st (snap_GetSnapshot s st).
Definition at_sequence (seq : Z) (st : Snapshots) : Snapshots := {| snapshots_ := snapshots_ st; snap_last_sequence := seq |}.
Definition three : Snapshots := after_get 3 (after_get 2 (at_sequence 8 (after_get 1 (new_Snapshots 5)))).
Definition two : Snapshots := default three (ReleaseSnapshot 1 three).

Lemma snapshots_bound_compactions_witness : smallest_snapshot_of three = Some 5 /\ smallest_snapshot_of two = Some 8.
Proof.
  assert (rtc snap_step (new_Snapshots 5, []) (three, [(1%nat, 5); (2%nat, 8); (3%nat, 8)])) as H3.
  { eapply rtc_l; [apply (snap_get _ _ 1 (after_get 1 (new_Snapshots 5))); vm_compute; reflexivity|].
    eapply rtc_l; [apply (snap_write _ _ 8); vm_compute; discriminate|]. fold (at_sequence 8 (after_get 1 (new_Snapshots 5))).
    eapply rtc_l; [apply (snap_get _ _ 2 (after_get 2 (at_sequence 8 (after_get 1 (new_Snapshots 5))))); vm_compute; reflexivity|].
    eapply rtc_l; [apply (snap_get _ _ 3 three); vm_compute; reflexivity|]. apply rtc_refl. }
  assert (rtc snap_step (new_Snapshots 5, []) (two, [(2%nat, 8); (3%nat, 8)])) as H2.
  { eapply rtc_r; [exact H3|]. apply (snap_release three [] 1 5 _ two). vm_compute. reflexivity. }
  split.
  - destruct (snapshots_bound_compactions 5 three _ H3) as ((bound & E & _ & _ & Hb & _) & _). rewrite E. by rewrite Hb.
  - destruct (snapshots_bound_compactions 5 two _ H2) as ((bound & E & _ & _ & Hb & _) & _). rewrite E. by rewrite Hb.
Defined.
