(* ===== verification/MemTable.v ===== *)
(** * The memtable (db/memtable.cc) and inserting batches into it

    Entries are length-prefixed internal keys followed by length-prefixed
    values, kept in the skip list; MemTableInserter (db/write_batch.cc) numbers
    the operations of a batch and adds them. *)

From Stdlib Require Import ZArith Lia Bool.
From Stdlib Require Import Strings.String.
From stdpp Require Import base list sorting.
From S2P Require Import Prelude Coding Comparator DbFormat Status SkipList SkipListSpec WriteBatch.

Set Default Goal Selector "!".
Local Open Scope Z_scope.

(** GetLengthPrefixedSlice of a bare pointer: a varint32 never takes more than the five bytes of the limit. *)
Definition slice_at (data : bytes) : bytes :=
  match GetVarint32Ptr data with
  | Some (n, p) => take (Z.to_nat n) p
  | None => []
  end.

Section MemTable.
Context (ucmp : Comparator).
Notation icmp := (InternalKeyComparator ucmp).

Definition KeyComparator (aptr bptr : bytes) : Z := Compare icmp (slice_at aptr) (slice_at bptr).

Definition KeyExtractor (k : bytes) : Z :=
  match GetVarint32Ptr k with
  | Some (key_length, key_ptr) => KeyNum ucmp (take (Z.to_nat (key_length - 8)) key_ptr)
  | None => KeyNum ucmp []
  end.

Definition EncodeKey (target : bytes) : bytes := PutVarint32 [] (u32 (len target)) ++ target.

(** The members of MemTable: table_, with the generator rnd_ of the skip list,
    and num_entries.  comparator_ and extractor_ are parameters of the skip
    list's operations; the arena the entries are allocated from is Arena, and
    refs_ counts the holders of the object, which is a value here. *)
Record MemTable := { table_ : heap bytes; rnd_ : Z; num_entries : Z }.

Definition new_MemTable : MemTable :=
  {| table_ := new_SkipList; rnd_ := new_Random 0xdeadbeef; num_entries := 0 |}.

(** The buffer Add fills. *)
Definition memtable_entry (s type : Z) (key value : bytes) : bytes :=
  EncodeVarint32 (u32 (len key + 8)) ++ key ++
  EncodeFixed64 (Z.lor (u64 (Z.shiftl s 8)) type) ++
  EncodeVarint32 (u32 (len value)) ++ value.

Definition Add (m : MemTable) (s type : Z) (key value : bytes) : option MemTable :=
  let buf := memtable_entry s type key value in
  let (height, rnd) := RandomHeight (rnd_ m) in
  match Insert KeyComparator KeyExtractor (table_ m) buf height with
  | Some t => Some {| table_ := t; rnd_ := rnd; num_entries := num_entries m + 1 |}
  | None => None
  end.

(** true with a value, true with status NotFound, or false. *)
Inductive GetResult := GetFound (value : bytes) | GetDeleted | GetAbsent.

Definition Get (m : MemTable) (key : LookupKey) : option GetResult :=
  let memkey := memtable_key key in
  match it_Seek KeyComparator KeyExtractor (table_ m) memkey with
  | None => None
  | Some node =>
      match it_key (table_ m) node with
      | None => Some GetAbsent
      | Some entry =>
          match GetVarint32Ptr entry with
          | None => Some GetAbsent
          | Some (key_length, key_ptr) =>
              if Compare ucmp (take (Z.to_nat (key_length - 8)) key_ptr) (lk_user_key key) =? 0 then
                let tag := DecodeFixed64 (drop (Z.to_nat (key_length - 8)) key_ptr) in
                let type := Z.land tag 0xff in
                if type =? kTypeValue then
                  Some (GetFound (slice_at (drop (Z.to_nat key_length) key_ptr)))
                else if type =? kTypeDeletion then Some GetDeleted
                else Some GetAbsent
              else Some GetAbsent
          end
      end
  end.

(** ** MemTableInserter (write_batch.cc) *)

(** A guard handed to Version::AddToCompleteGuards: key and level. *)
Definition GuardAdded := (bytes * Z)%type.

(** [version_] is NULL for InsertInto; otherwise the guards added so far.
    [mi_mem] has no value once an assert has failed. *)
Record MemTableInserter := {
  mi_sequence : Z;
  mi_mem : option MemTable;
  mi_version : option (list GuardAdded);
}.

Definition mi_Add (i : MemTableInserter) (type : Z) (key value : bytes) : MemTableInserter :=
  {| mi_sequence := u64 (mi_sequence i + 1);
     mi_mem := match mi_mem i with Some m => Add m (mi_sequence i) type key value | None => None end;
     mi_version := mi_version i |}.

Definition mi_Put (i : MemTableInserter) (key value : bytes) : MemTableInserter :=
  mi_Add i kTypeValue key value.

Definition mi_Delete (i : MemTableInserter) (key : bytes) : MemTableInserter :=
  mi_Add i kTypeDeletion key [].

Definition mi_HandleGuard (i : MemTableInserter) (key : bytes) (level : Z) : MemTableInserter :=
  match mi_version i with
  | None => i
  | Some guards =>
      {| mi_sequence := u64 (mi_sequence i + 1);
         mi_mem := if level <? kNumLevels then mi_mem i else None;  (* assert(level < config::kNumLevels) *)
         mi_version := Some (guards ++ [(InternalKey key (mi_sequence i) kTypeValue, level)]) |}
  end.

Definition MemTableInserter_handler : Handler MemTableInserter :=
  {| h_Put := mi_Put; h_Delete := mi_Delete; h_HandleGuard := mi_HandleGuard |}.

Definition run_inserter (b : WriteBatch) (m : MemTable) (version : option (list GuardAdded)) :
    option (Status * MemTable * option (list GuardAdded)) :=
  match Iterate MemTableInserter_handler b
          {| mi_sequence := Sequence b; mi_mem := Some m; mi_version := version |} with
  | Some (s, i) => match mi_mem i with Some m => Some (s, m, mi_version i) | None => None end
  | None => None
  end.

Definition InsertInto (b : WriteBatch) (m : MemTable) : option (Status * MemTable) :=
  match run_inserter b m None with Some (s, m, _) => Some (s, m) | None => None end.

Definition InsertIntoVersion (b : WriteBatch) (m : MemTable) (version : list GuardAdded) :
    option (Status * MemTable * list GuardAdded) :=
  match run_inserter b m (Some version) with
  | Some (s, m, Some v) => Some (s, m, v)
  | _ => None
  end.
End MemTable.

(** ** Entries *)

(** An addition to the memtable. *)
Record Addition := { a_seq : Z; a_type : Z; a_key : bytes; a_value : bytes }.

Definition a_entry (a : Addition) : bytes := memtable_entry (a_seq a) (a_type a) (a_key a) (a_value a).
Definition a_tag (a : Addition) : Z := 256 * a_seq a + a_type a.
Definition a_ikey (a : Addition) : bytes := InternalKey (a_key a) (a_seq a) (a_type a).

Definition addition_ok (a : Addition) : Prop :=
  tag_ok (a_seq a) (a_type a) /\ len (a_key a) + 8 < 2 ^ 32 /\ len (a_value a) < 2 ^ 32.

(** Byte strings that start with a length-prefixed internal key. *)
Definition entry_of_ikey (ik e : bytes) : Prop :=
  is_ikey ik /\ len ik < 2 ^ 32 /\ exists rest, e = EncodeVarint32 (len ik) ++ ik ++ rest.

Definition entry_ok (e : bytes) : Prop := exists ik, entry_of_ikey ik e.

Lemma GetVarint32Ptr_entry ik e : entry_of_ikey ik e ->
  exists rest, e = EncodeVarint32 (len ik) ++ ik ++ rest /\ GetVarint32Ptr e = Some (len ik, ik ++ rest).
Proof.
  intros (_ & Hl & rest & ->). exists rest. split; [done|].
  apply (GetVarint32_EncodeVarint32 (len ik)). len_facts. lia.
Qed.

Lemma slice_at_entry ik e : entry_of_ikey ik e -> slice_at e = ik.
Proof.
  intros He. destruct (GetVarint32Ptr_entry ik e He) as (rest & _ & E).
  unfold slice_at. rewrite E. apply take_len_app. unfold len. lia.
Qed.

Lemma user_part ik rest : is_ikey ik -> take (Z.to_nat (len ik - 8)) (ik ++ rest) = ExtractUserKey ik.
Proof.
  unfold is_ikey, ExtractUserKey. intros Hk. rewrite take_app_le by (unfold len in *; lia). done.
Qed.

Lemma tag_part ik rest : is_ikey ik -> DecodeFixed64 (drop (Z.to_nat (len ik - 8)) (ik ++ rest)) = ExtractTag ik.
Proof.
  intros Hk. rewrite (ikey_split ik Hk) at 2. rewrite <- app_assoc, drop_len_app.
  - rewrite DecodeFixed64_EncodeFixed64. apply u64_small, ExtractTag_range.
  - pose proof (len_ExtractUserKey ik Hk). unfold len in *. lia.
Qed.

Lemma lor_tag s t : tag_ok s t -> Z.lor (u64 (Z.shiftl s 8)) t = 256 * s + t.
Proof.
  intros [Hs Ht]. rewrite <- (PackSequenceAndType_eq s t); [done|done|].
  unfold kValueTypeForSeek, kTypeValue in *. lia.
Qed.

Lemma a_entry_ikey a : addition_ok a ->
  a_entry a = EncodeVarint32 (len (a_ikey a)) ++ a_ikey a ++ EncodeVarint32 (len (a_value a)) ++ a_value a.
Proof.
  intros (Ht & Hk & Hv). unfold a_entry, memtable_entry, a_ikey.
  assert (0 <= a_type a < 256) by (destruct Ht as [_ Ht]; unfold kValueTypeForSeek, kTypeValue in *; lia).
  rewrite InternalKey_eq by (done || apply Ht). rewrite lor_tag by done.
  rewrite len_app, len_EncodeFixed64, !u32_small by (len_facts; lia). by rewrite <- !app_assoc.
Qed.

Lemma a_entry_ok a : addition_ok a -> entry_of_ikey (a_ikey a) (a_entry a).
Proof.
  intros Ha. pose proof (a_entry_ikey a Ha) as E. destruct Ha as (Ht & Hk & Hv).
  split; [apply is_ikey_InternalKey|]. split; [|by eexists].
  unfold a_ikey. assert (0 <= a_type a < 256) by (destruct Ht as [_ Ht]; unfold kValueTypeForSeek, kTypeValue in *; lia).
  rewrite InternalKey_eq, len_app, len_EncodeFixed64 by (done || apply Ht). lia.
Qed.

Lemma memtable_key_ok u s : 0 <= s <= kMaxSequenceNumber -> len u + 8 < 2 ^ 32 ->
  entry_of_ikey (InternalKey u s kValueTypeForSeek) (memtable_key (mkLookupKey u s)).
Proof.
  intros Hs Hu. assert (len (InternalKey u s kValueTypeForSeek) = len u + 8) as El.
  { rewrite InternalKey_eq, len_app, len_EncodeFixed64; [done|done|]. split; [discriminate|reflexivity]. }
  split; [apply is_ikey_InternalKey|]. split; [lia|]. exists []. rewrite app_nil_r, El.
  unfold memtable_key, mkLookupKey. simpl. rewrite u32_small by (len_facts; lia). f_equal.
Qed.

(** ** The memtable's order satisfies the skip list's requirements *)
Section Order.
Context (ucmp : Comparator) `{!ComparatorOk ucmp all_keys}.
Notation icmp := (InternalKeyComparator ucmp).

Lemma KeyComparator_entry ik1 e1 ik2 e2 :
  entry_of_ikey ik1 e1 -> entry_of_ikey ik2 e2 -> KeyComparator ucmp e1 e2 = Compare icmp ik1 ik2.
Proof. intros H1 H2. unfold KeyComparator. by rewrite (slice_at_entry _ _ H1), (slice_at_entry _ _ H2). Qed.

Lemma KeyExtractor_entry ik e : entry_of_ikey ik e -> KeyExtractor ucmp e = KeyNum ucmp (ExtractUserKey ik).
Proof.
  intros He. destruct (GetVarint32Ptr_entry ik e He) as (rest & _ & E). unfold KeyExtractor. rewrite E.
  by rewrite user_part by apply He.
Qed.

#[export] Instance memtable_order : SkipOrder (KeyComparator ucmp) (KeyExtractor ucmp) entry_ok.
Proof.
  split.
  - intros a b [ia Ha] [ib Hb]. rewrite (KeyComparator_entry ia a ib b), (KeyComparator_entry ib b ia a) by done.
    apply cmp_anti; [apply Ha|apply Hb].
  - intros a b d [ia Ha] [ib Hb] [id Hd].
    rewrite (KeyComparator_entry ia a ib b), (KeyComparator_entry ib b id d), (KeyComparator_entry ia a id d) by done.
    apply (cmp_lt_le_trans (dom := is_ikey)); [apply Ha|apply Hb|apply Hd].
  - intros a b d [ia Ha] [ib Hb] [id Hd].
    rewrite (KeyComparator_entry ia a ib b), (KeyComparator_entry ib b id d), (KeyComparator_entry ia a id d) by done.
    apply (cmp_le_lt_trans (dom := is_ikey)); [apply Ha|apply Hb|apply Hd].
  - intros a [ia Ha]. rewrite (KeyExtractor_entry ia a Ha).
    pose proof (cmp_keynum_range (c := ucmp) (ExtractUserKey ia)). unfold cmp_max. lia.
  - intros a b [ia Ha] [ib Hb]. rewrite (KeyExtractor_entry ia a Ha), (KeyExtractor_entry ib b Hb).
    rewrite (KeyComparator_entry ia a ib b) by done. intros Hk. apply ikc_lt_of_user.
    by apply (cmp_keynum (dom := all_keys)).
Qed.
End Order.

Lemma RandomHeight_loop_range fuel : forall height seed,
  (1 <= height <= kMaxHeight)%nat -> (1 <= fst (RandomHeight_loop fuel height seed) <= kMaxHeight)%nat.
Proof.
  induction fuel as [|fuel IH]; intros height seed Hh; cbn [RandomHeight_loop]; [done|].
  destruct (Nat.ltb_spec height kMaxHeight); [|done].
  destruct (Random_Next seed mod kBranching =? 0); [apply IH; lia|done].
Qed.

Lemma RandomHeight_range seed : (1 <= fst (RandomHeight seed) <= kMaxHeight)%nat.
Proof. apply RandomHeight_loop_range. unfold kMaxHeight. lia. Qed.

Section Contents.
Context (ucmp : Comparator) `{!ComparatorOk ucmp all_keys}.
Notation icmp := (InternalKeyComparator ucmp).
Notation SLm := (SL (KeyComparator ucmp) (KeyExtractor ucmp) entry_ok).

(** The memtable holds exactly the additions [adds]. *)
Definition memtable_rep (m : MemTable) (adds : list Addition) : Prop :=
  exists L, SLm (table_ m) L /\ Forall addition_ok adds /\
    (forall y, y ∈ L -> exists a, a ∈ adds /\ key_of (table_ m) y = Some (a_entry a)) /\
    (forall a, a ∈ adds -> exists y, y ∈ L /\ key_of (table_ m) y = Some (a_entry a)).

Lemma new_MemTable_rep : memtable_rep new_MemTable [].
Proof.
  exists []. split; [apply new_SkipList_ok|]. split; [constructor|]. split; intros ? Hy; by apply elem_of_nil in Hy.
Qed.

Lemma Add_rep m adds a :
  memtable_rep m adds -> addition_ok a -> Forall (fun b => a_ikey b <> a_ikey a) adds ->
  exists m', Add ucmp m (a_seq a) (a_type a) (a_key a) (a_value a) = Some m' /\
    memtable_rep m' (adds ++ [a]) /\ num_entries m' = num_entries m + 1.
Proof.
  intros (L & Hsl & Hok & HL & HA) Ha Hnew. unfold Add. fold (a_entry a).
  destruct (RandomHeight (rnd_ m)) as [ht rnd] eqn:Er.
  pose proof (RandomHeight_range (rnd_ m)) as Hht. rewrite Er in Hht. simpl in Hht.
  assert (entry_ok (a_entry a)) as Hea by (exists (a_ikey a); by apply a_entry_ok).
  destruct (SL_split _ _ _ (table_ m) L (a_entry a) Hsl Hea) as (L1 & L2 & -> & H1 & H2).
  assert (Forall (fun x => exists k, key_of (table_ m) x = Some k /\ 0 < KeyComparator ucmp k (a_entry a)) L2) as Hgt.
  { apply Forall_forall. intros y Hy. rewrite Forall_forall in H2. destruct (H2 y Hy) as (k & Ek & Hge).
    exists k. split; [done|]. destruct (HL y) as (b & Hb & Ekb); [apply elem_of_app; by right|].
    rewrite Ek in Ekb. injection Ekb as ->.
    rewrite Forall_forall in Hok, Hnew. pose proof (a_entry_ok b (Hok b Hb)) as Hbe.
    pose proof (a_entry_ok a Ha) as Hae. rewrite (KeyComparator_entry ucmp _ _ _ _ Hbe Hae) in *.
    assert (Compare icmp (a_ikey b) (a_ikey a) <> 0); [|lia].
    intros E0. apply (cmp_eq (dom := is_ikey)) in E0; [|apply Hbe|apply Hae]. by apply (Hnew b Hb). }
  destruct (Insert_ok _ _ _ (table_ m) L1 L2 (a_entry a) ht Hsl Hea H1 Hgt Hht) as (g & -> & Hg & Hext & Hk).
  eexists. split; [reflexivity|]. split; [|done]. exists (L1 ++ length (table_ m) :: L2).
  cbn [table_]. split; [done|]. split; [apply Forall_app; split; [done|by constructor]|]. split.
  - intros y Hy. assert (y = length (table_ m) \/ y ∈ L1 ++ L2) as [->|Hold].
    { rewrite elem_of_app, elem_of_cons in Hy. rewrite elem_of_app. tauto. }
    + exists a. split; [apply elem_of_app; right; left|done].
    + destruct (HL y Hold) as (b & Hb & Ek). exists b. split; [apply elem_of_app; by left|].
      by eapply ext_key_of.
  - intros b Hb. apply elem_of_app in Hb as [Hb|Hb].
    + destruct (HA b Hb) as (y & Hy & Ek). exists y. split; [|by eapply ext_key_of].
      rewrite elem_of_app in Hy. rewrite elem_of_app, elem_of_cons. tauto.
    + apply list_elem_of_singleton in Hb as ->. exists (length (table_ m)). split; [|done].
      apply elem_of_app. right. left.
Qed.

(** An addition for [u] that a reader at sequence [s] may see. *)
Definition visible (u : bytes) (s : Z) (a : Addition) : Prop := a_key a = u /\ a_seq a <= s.

(** The visible addition with the highest tag. *)
Definition latest (adds : list Addition) (u : bytes) (s : Z) (a : Addition) : Prop :=
  a ∈ adds /\ visible u s a /\ forall b, b ∈ adds -> visible u s b -> a_tag b <= a_tag a.

Definition result_of (a : Addition) : GetResult :=
  if a_type a =? kTypeValue then GetFound (a_value a) else GetDeleted.

(** Which entries Seek passes over. *)
Lemma entry_vs_lookup a u s :
  addition_ok a -> 0 <= s <= kMaxSequenceNumber -> len u + 8 < 2 ^ 32 ->
  let c := KeyComparator ucmp (a_entry a) (memtable_key (mkLookupKey u s)) in
  (a_key a = u -> (0 <= c <-> a_seq a <= s)) /\
  (0 <= c -> 0 <= Compare ucmp (a_key a) u) /\ (c <= 0 -> Compare ucmp (a_key a) u <= 0).
Proof.
  intros Ha Hs Hu c. subst c.
  rewrite (KeyComparator_entry ucmp _ _ _ _ (a_entry_ok a Ha) (memtable_key_ok u s Hs Hu)).
  destruct Ha as (Ht & _). assert (tag_ok s kValueTypeForSeek) as Ht' by (split; [done|split; [discriminate|lia]]).
  split; [|split].
  - intros Hk. unfold a_ikey. rewrite Hk, ikc_Compare_InternalKey by done.
    destruct Ht as [_ Ht]. unfold kValueTypeForSeek, kTypeValue in *. lia.
  - intros H. destruct (Z.lt_ge_cases (Compare ucmp (a_key a) u) 0) as [Hlt|]; [|done].
    assert (Compare icmp (a_ikey a) (InternalKey u s kValueTypeForSeek) < 0); [|lia].
    apply ikc_lt_of_user. unfold a_ikey. by rewrite !ExtractUserKey_InternalKey.
  - intros H. apply ikc_user_le in H. unfold a_ikey in H. by rewrite !ExtractUserKey_InternalKey in H.
Qed.

(** What Get makes of the entry it stops at. *)
Lemma Get_entry m node a u s :
  addition_ok a ->
  it_Seek (KeyComparator ucmp) (KeyExtractor ucmp) (table_ m) (memtable_key (mkLookupKey u s)) = Some (Some node) ->
  key_of (table_ m) node = Some (a_entry a) ->
  Get ucmp m (mkLookupKey u s) = Some (if decide (a_key a = u) then result_of a else GetAbsent).
Proof.
  intros Ha Eseek Ekey. unfold Get. rewrite Eseek. cbn [it_key]. rewrite Ekey.
  pose proof (a_entry_ok a Ha) as He. pose proof (a_entry_ikey a Ha) as Ee.
  destruct (GetVarint32Ptr_entry _ _ He) as (rest & Er & ->).
  assert (rest = EncodeVarint32 (len (a_value a)) ++ a_value a) as ->.
  { rewrite Ee in Er. by apply app_inv_head, app_inv_head in Er. }
  destruct Ha as (Ht & Hk & Hv).
  assert (0 <= a_type a < 256) as Hty by (destruct Ht as [_ Ht]; unfold kValueTypeForSeek, kTypeValue in *; lia).
  rewrite user_part, tag_part, lk_user_key_mkLookupKey by apply He.
  assert (Z.land (ExtractTag (a_ikey a)) 255 = a_type a) as Etype.
  { unfold a_ikey. rewrite ExtractTag_InternalKey by (done || apply Ht).
    change 255 with (Z.ones 8). rewrite Z.land_ones by lia. change (2 ^ 8) with 256.
    rewrite Z.add_comm, Z.mul_comm, Z_mod_plus_full, Z.mod_small by lia. done. }
  cbv zeta. rewrite Etype.
  assert (ExtractUserKey (a_ikey a) = a_key a) as -> by apply ExtractUserKey_InternalKey.
  assert (slice_at (drop (Z.to_nat (len (a_ikey a))) (a_ikey a ++ EncodeVarint32 (len (a_value a)) ++ a_value a))
    = a_value a) as ->.
  { rewrite drop_len_app by (unfold len; lia). unfold slice_at.
    change GetVarint32Ptr with GetVarint32.
    rewrite (GetVarint32_EncodeVarint32 (len (a_value a)) (a_value a)) by (len_facts; lia).
    rewrite <- (app_nil_r (a_value a)) at 2. apply take_len_app. unfold len. lia. }
  destruct (Z.eqb_spec (Compare ucmp (a_key a) u) 0) as [E0|E0].
  - apply (cmp_eq (dom := all_keys)) in E0; [|done..]. rewrite decide_True by done. unfold result_of.
    destruct (Z.eqb_spec (a_type a) kTypeValue); [done|].
    destruct (Z.eqb_spec (a_type a) kTypeDeletion); [done|exfalso].
    destruct Ht as [_ Ht]. unfold kValueTypeForSeek, kTypeValue, kTypeDeletion in *. lia.
  - rewrite decide_False; [done|]. intros Hk'. apply E0. rewrite Hk'. by apply (cmp_refl (dom := all_keys)).
Qed.

(** Get returns the latest visible addition, and nothing if there is none. *)
Lemma Get_rep m adds u s :
  memtable_rep m adds -> 0 <= s <= kMaxSequenceNumber -> len u + 8 < 2 ^ 32 ->
  (exists a, latest adds u s a /\ Get ucmp m (mkLookupKey u s) = Some (result_of a)) \/
  (Forall (fun a => ~ visible u s a) adds /\ Get ucmp m (mkLookupKey u s) = Some GetAbsent).
Proof.
  intros (L & Hsl & Hok & HL & HA) Hs Hu. rewrite Forall_forall in Hok.
  set (tgt := memtable_key (mkLookupKey u s)).
  assert (entry_ok tgt) as Htgt by (eexists; by apply memtable_key_ok).
  destruct (SL_split _ _ _ (table_ m) L tgt Hsl Htgt) as (L1 & L2 & -> & H1 & H2).
  destruct (FindGreaterOrEqual_ok _ _ _ (table_ m) L1 L2 tgt Hsl Htgt H1 H2) as (prev & obs & E & _).
  assert (it_Seek (KeyComparator ucmp) (KeyExtractor ucmp) (table_ m) tgt = Some (head L2)) as Eseek
    by (unfold it_Seek; by rewrite E).
  rewrite Forall_forall in H1, H2.
  assert (forall b, b ∈ adds -> visible u s b -> exists y, y ∈ L2 /\ key_of (table_ m) y = Some (a_entry b)) as Hin2.
  { intros b Hb [Hbk Hbs]. destruct (HA b Hb) as (y & Hy & Ek). exists y. split; [|done].
    apply elem_of_app in Hy as [Hy|Hy]; [|done]. exfalso. destruct (H1 y Hy) as (k & Ek' & Hlt).
    rewrite Ek in Ek'. injection Ek' as <-.
    destruct (entry_vs_lookup b u s (Hok b Hb) Hs Hu) as (Hv & _). specialize (Hv Hbk). fold tgt in Hv. lia. }
  destruct L2 as [|y L2'].
  { right. split.
    - apply Forall_forall. intros b Hb Hv. destruct (Hin2 b Hb Hv) as (y & Hy & _). by apply elem_of_nil in Hy.
    - unfold Get. fold tgt. by rewrite Eseek. }
  destruct (HL y) as (a & Ha & Ek); [apply elem_of_app; right; left|].
  rewrite (Get_entry m y a u s (Hok a Ha) Eseek Ek).
  destruct (H2 y ltac:(left)) as (k & Ek' & Hge). rewrite Ek in Ek'. injection Ek' as <-.
  destruct (entry_vs_lookup a u s (Hok a Ha) Hs Hu) as (Hv & Hu1 & _). fold tgt in Hv, Hu1.
  (* keys of later nodes are not before the first one *)
  assert (forall b, b ∈ adds -> visible u s b -> Compare icmp (a_ikey a) (a_ikey b) <= 0) as Hle.
  { intros b Hb Hvb. destruct (Hin2 b Hb Hvb) as (z & Hz & Ekz).
    pose proof (a_entry_ok a (Hok a Ha)) as Hae. pose proof (a_entry_ok b (Hok b Hb)) as Hbe.
    rewrite <- (KeyComparator_entry ucmp _ _ _ _ Hae Hbe).
    destruct (SL_split_at _ _ _ (table_ m) L1 y L2' (a_entry a) Hsl Ek) as [_ Hge2].
    rewrite Forall_forall in Hge2. destruct (Hge2 z Hz) as (kz & Ekz' & Hcmp).
    rewrite Ekz in Ekz'. injection Ekz' as <-.
    destruct (Z.le_gt_cases (KeyComparator ucmp (a_entry a) (a_entry b)) 0) as [|Hgt]; [done|].
    apply (so_anti (dom := entry_ok)) in Hgt; [lia|by eexists|by eexists]. }
  destruct (decide (a_key a = u)) as [Hk|Hk].
  - left. exists a. split; [|done]. split; [done|]. split; [split; [done|by apply Hv]|].
    intros b Hb Hvb. specialize (Hle b Hb Hvb). destruct Hvb as [Hbk _].
    unfold a_ikey in Hle. rewrite Hk, Hbk in Hle.
    rewrite ikc_Compare_InternalKey in Hle by (apply Hok; done). unfold a_tag. lia.
  - right. split; [|done]. apply Forall_forall. intros b Hb Hvb. specialize (Hle b Hb Hvb).
    apply ikc_user_le in Hle. unfold a_ikey in Hle. rewrite !ExtractUserKey_InternalKey in Hle.
    destruct Hvb as [Hbk _]. rewrite Hbk in Hle. specialize (Hu1 Hge).
    apply Hk. apply (cmp_eq (dom := all_keys) (a_key a) u); [done|done|lia].
Qed.

(** ** Inserting a batch *)

Definition is_some {A} (o : option A) : bool := match o with Some _ => true | None => false end.

(** The additions of a batch whose first operation has sequence [seq]; a guard
    record takes a number only if there is a version to put it into. *)
Fixpoint additions (version : bool) (seq : Z) (ops : list Op) : list Addition :=
  match ops with
  | [] => []
  | OpPut k v :: ops =>
      {| a_seq := seq; a_type := kTypeValue; a_key := k; a_value := v |} :: additions version (seq + 1) ops
  | OpDelete k :: ops =>
      {| a_seq := seq; a_type := kTypeDeletion; a_key := k; a_value := [] |} :: additions version (seq + 1) ops
  | OpGuard _ _ :: ops => additions version (if version then seq + 1 else seq) ops
  end.

Fixpoint guards_added (seq : Z) (ops : list Op) : list GuardAdded :=
  match ops with
  | [] => []
  | OpGuard k l :: ops => (InternalKey k seq kTypeValue, l) :: guards_added (seq + 1) ops
  | _ :: ops => guards_added (seq + 1) ops
  end.

(** Internal keys must fit their length prefix too. *)
Definition op_sized (o : Op) : Prop :=
  match o with
  | OpPut k v => len k + 8 < 2 ^ 32 /\ len v < 2 ^ 32
  | OpDelete k => len k + 8 < 2 ^ 32
  | OpGuard k l => len k + 8 < 2 ^ 32 /\ 0 <= l < kNumLevels
  end.

Lemma op_sized_ok o : op_sized o -> op_ok o.
Proof. destruct o; simpl; unfold kNumLevels; lia. Qed.

Lemma additions_seq ops : forall version seq,
  Forall (fun a => seq <= a_seq a < seq + len ops) (additions version seq ops).
Proof.
  induction ops as [|o ops IH]; intros version seq; cbn [additions]; [constructor|]. rewrite len_cons.
  assert (forall n, 0 <= n <= 1 ->
    Forall (fun a => seq <= a_seq a < seq + (1 + len ops)) (additions version (seq + n) ops)) as Hn.
  { intros n Hn. eapply Forall_impl; [apply IH|]. simpl. lia. }
  destruct o.
  - constructor; [simpl; len_facts; lia|]. apply Hn. lia.
  - constructor; [simpl; len_facts; lia|]. apply Hn. lia.
  - destruct version; [apply Hn; lia|]. specialize (Hn 0). rewrite Z.add_0_r in Hn. apply Hn. lia.
Qed.

(** No addition of the memtable has the number of a new one. *)
Definition fresh (adds news : list Addition) : Prop := forall b a, b ∈ adds -> a ∈ news -> a_seq b <> a_seq a.

Lemma fresh_below adds version seq ops : Forall (fun b => a_seq b < seq) adds -> fresh adds (additions version seq ops).
Proof.
  rewrite Forall_forall. intros Hlt b a Hb Ha. specialize (Hlt b Hb).
  pose proof (additions_seq ops version seq) as H. rewrite Forall_forall in H. specialize (H a Ha). lia.
Qed.

Lemma fresh_weaken adds a news : fresh adds (a :: news) -> Forall (fun b => a_seq b <> a_seq a) adds /\ fresh adds news.
Proof.
  intros H. split; [|intros x y Hx Hy; apply H; [done|by right]]. apply Forall_forall. intros b Hb. apply H; [done|left].
Qed.

Lemma inserter_add i m adds a :
  mi_mem i = Some m -> memtable_rep m adds -> addition_ok a -> mi_sequence i = a_seq a ->
  Forall (fun b => a_seq b <> a_seq a) adds ->
  exists m', mi_mem (mi_Add ucmp i (a_type a) (a_key a) (a_value a)) = Some m' /\ memtable_rep m' (adds ++ [a]).
Proof.
  intros Em Hrep Ha Es Hlt. unfold mi_Add. cbn [mi_mem]. rewrite Em, Es.
  destruct (Add_rep m adds a Hrep Ha) as (m' & -> & Hrep' & _).
  - pose proof Hrep as (_ & _ & Hok & _). rewrite Forall_forall in Hlt, Hok. apply Forall_forall. intros b Hb E.
    specialize (Hlt b Hb). apply (f_equal ExtractTag) in E. destruct (Hok b Hb) as ([Hbs Hbt] & _).
    destruct Ha as ([Has Hat] & _). unfold kValueTypeForSeek, kTypeValue in *.
    unfold a_ikey in E. rewrite !ExtractTag_InternalKey in E by lia. lia.
  - by exists m'.
Qed.

Lemma inserter_ops ops : forall i m adds,
  mi_mem i = Some m -> memtable_rep m adds -> Forall op_sized ops ->
  0 <= mi_sequence i -> mi_sequence i + len ops <= kMaxSequenceNumber ->
  fresh adds (additions (is_some (mi_version i)) (mi_sequence i) ops) ->
  let i' := fold_left (handle (MemTableInserter_handler ucmp)) ops i in
  exists m', mi_mem i' = Some m' /\
    memtable_rep m' (adds ++ additions (is_some (mi_version i)) (mi_sequence i) ops) /\
    mi_version i' = match mi_version i with
                    | Some g => Some (g ++ guards_added (mi_sequence i) ops)
                    | None => None
                    end.
Proof.
  induction ops as [|o ops IH]; intros i m adds Em Hrep Hops H0 Hmax Hlt; cbn [fold_left additions guards_added].
  { exists m. rewrite app_nil_r. split; [done|]. split; [done|].
    destruct (mi_version i); [by rewrite app_nil_r|done]. }
  rewrite len_cons in Hmax. apply Forall_cons in Hops as [Ho Hops].
  assert (kMaxSequenceNumber < 2 ^ 64) as Hmaxs by done.
  assert (forall a, addition_ok a -> a_seq a = mi_sequence i ->
    additions (is_some (mi_version i)) (mi_sequence i) (o :: ops) =
      a :: additions (is_some (mi_version i)) (mi_sequence i + 1) ops ->
    guards_added (mi_sequence i) (o :: ops) = guards_added (mi_sequence i + 1) ops ->
    let i' := fold_left (handle (MemTableInserter_handler ucmp)) ops
      (mi_Add ucmp i (a_type a) (a_key a) (a_value a)) in
    exists m', mi_mem i' = Some m' /\
      memtable_rep m' (adds ++ additions (is_some (mi_version i)) (mi_sequence i) (o :: ops)) /\
      mi_version i' = match mi_version i with
        | Some g => Some (g ++ guards_added (mi_sequence i) (o :: ops)) | None => None end) as Hadd.
  { intros a Ha Es Eadd ->. rewrite Eadd in Hlt |- *. apply fresh_weaken in Hlt as [Hna Hlt].
    destruct (inserter_add i m adds a Em Hrep Ha (eq_sym Es) Hna) as (m' & Em' & Hrep').
    destruct (IH (mi_Add ucmp i (a_type a) (a_key a) (a_value a)) m' (adds ++ [a]) Em' Hrep' Hops)
      as (m2 & Em2 & Hrep2 & Hv); cbn [mi_sequence mi_version mi_Add] in *; rewrite ?u64_small by (len_facts; lia).
    - lia.
    - lia.
    - intros x y [Hx|Hx%list_elem_of_singleton]%elem_of_app Hy; [by apply Hlt|]. subst x.
      pose proof (additions_seq ops (is_some (mi_version i)) (mi_sequence i + 1)) as H. rewrite Forall_forall in H.
      specialize (H y Hy). lia.
    - rewrite u64_small in Hrep2, Hv by (len_facts; lia). exists m2. split; [done|].
      split; [|done]. by rewrite <- app_assoc in Hrep2. }
  assert (0 <= mi_sequence i <= kMaxSequenceNumber) as Hs by (len_facts; lia).
  destruct o as [k v|k|k l]; cbn [handle h_Put h_Delete h_HandleGuard MemTableInserter_handler op_sized] in *.
  - apply (Hadd {| a_seq := mi_sequence i; a_type := kTypeValue; a_key := k; a_value := v |}); try done.
  - apply (Hadd {| a_seq := mi_sequence i; a_type := kTypeDeletion; a_key := k; a_value := [] |}); try done.
  - unfold mi_HandleGuard. rewrite (proj2 (Z.ltb_lt l kNumLevels)) by lia. destruct (mi_version i) as [g|] eqn:Ev; cbn [is_some].
    + destruct (IH {| mi_sequence := u64 (mi_sequence i + 1); mi_mem := mi_mem i;
        mi_version := Some (g ++ [(InternalKey k (mi_sequence i) kTypeValue, l)]) |} m adds Em Hrep Hops)
        as (m2 & Em2 & Hrep2 & Hv); cbn [mi_sequence mi_version is_some] in *; rewrite ?u64_small by (len_facts; lia).
      * lia.
      * lia.
      * exact Hlt.
      * rewrite u64_small in Em2, Hrep2, Hv by (len_facts; lia). exists m2. rewrite <- app_assoc in Hv.
        split; [exact Em2|split; [exact Hrep2|exact Hv]].
    + destruct (IH i m adds Em Hrep Hops H0) as (m2 & Em2 & Hrep2 & Hv); [lia|by rewrite Ev|].
      rewrite Ev in Hrep2, Hv. exists m2. split; [exact Em2|split; [exact Hrep2|exact Hv]].
Qed.

Lemma run_inserter_rep seq ops m adds version :
  memtable_rep m adds -> Forall op_sized ops -> 0 <= seq -> seq + len ops <= kMaxSequenceNumber ->
  len ops < 2 ^ 31 -> fresh adds (additions (is_some version) seq ops) ->
  exists m', run_inserter ucmp (batch_of seq ops) m version =
      Some (OK, m', match version with Some g => Some (g ++ guards_added seq ops) | None => None end) /\
    memtable_rep m' (adds ++ additions (is_some version) seq ops).
Proof.
  intros Hrep Hops H0 Hmax Hn Hlt. unfold run_inserter.
  assert (seq < 2 ^ 64) as Hseq by (assert (kMaxSequenceNumber < 2 ^ 64) by done; len_facts; lia).
  rewrite Sequence_batch by lia.
  rewrite Iterate_batch; [|by eapply Forall_impl; [exact Hops|]; apply op_sized_ok|done].
  destruct (inserter_ops ops {| mi_sequence := seq; mi_mem := Some m; mi_version := version |} m adds
    eq_refl Hrep Hops H0 Hmax Hlt) as (m' & -> & Hrep' & ->).
  exists m'. split; [by destruct version|done].
Qed.
End Contents.

(** ** Claims *)

(** Batches inserted one after the other. *)
Fixpoint insert_batches (ucmp : Comparator) (m : MemTable) (batches : list (Z * list Op)) : option MemTable :=
  match batches with
  | [] => Some m
  | (seq, ops) :: batches =>
      match InsertInto ucmp (SetSequence (build ops) seq) m with
      | Some (s, m) => if ok s then insert_batches ucmp m batches else None
      | None => None
      end
  end.

(** Sequence numbers grow from batch to batch, and everything fits. *)
Fixpoint batches_ok (next : Z) (batches : list (Z * list Op)) : Prop :=
  match batches with
  | [] => True
  | (seq, ops) :: batches =>
      next <= seq /\ seq + len ops <= kMaxSequenceNumber /\ len ops < 2 ^ 31 /\ Forall op_sized ops /\
      batches_ok (seq + len ops) batches
  end.

Definition all_additions (batches : list (Z * list Op)) : list Addition :=
  concat (map (fun b => additions false (fst b) (snd b)) batches).

Lemma insert_batches_rep (ucmp : Comparator) `{!ComparatorOk ucmp all_keys} batches : forall m adds next,
  memtable_rep ucmp m adds -> 0 <= next -> Forall (fun a => a_seq a < next) adds -> batches_ok next batches ->
  exists m', insert_batches ucmp m batches = Some m' /\ memtable_rep ucmp m' (adds ++ all_additions batches).
Proof.
  induction batches as [|[seq ops] batches IH]; intros m adds next Hrep H0 Hlt Hb; cbn [insert_batches].
  { exists m. unfold all_additions. simpl. by rewrite app_nil_r. }
  destruct Hb as (Hseq & Hmax & Hn & Hops & Hb).
  rewrite build_batch, SetSequence_batch by done. unfold InsertInto.
  assert (Forall (fun a => a_seq a < seq) adds) as Hlt' by (eapply Forall_impl; [exact Hlt|]; simpl; lia).
  destruct (run_inserter_rep ucmp seq ops m adds None Hrep Hops ltac:(lia) Hmax Hn (fresh_below _ _ _ _ Hlt')) as (m1 & -> & Hrep1).
  cbn [ok OK]. destruct (IH m1 _ (seq + len ops) Hrep1) as (m2 & -> & Hrep2).
  - len_facts. lia.
  - apply Forall_app. split.
    + eapply Forall_impl; [exact Hlt'|]. simpl. len_facts. lia.
    + eapply Forall_impl; [apply additions_seq|]. simpl. lia.
  - done.
  - exists m2. split; [done|]. unfold all_additions in *. cbn [map concat fst snd].
    by rewrite <- app_assoc in Hrep2.
Qed.

(** Snapshot reads from the memtable: insert any batches of Puts, Deletes
    and guards into a new memtable, each with sequence numbers above those of
    the batch before.  Insertion succeeds, and Get of a key at a sequence
    number returns the value of the last operation on that key with a
    sequence number up to it, Deleted if that operation is a deletion, and
    Absent only if there is no such operation. *)
Theorem memtable_snapshot_read (ucmp : Comparator) (Hcmp : ComparatorOk ucmp all_keys)
    (batches : list (Z * list Op)) (Hb : batches_ok 0 batches) :
  exists m, insert_batches ucmp new_MemTable batches = Some m /\
    forall u s, 0 <= s <= kMaxSequenceNumber -> len u + 8 < 2 ^ 32 ->
      (exists a, latest (all_additions batches) u s a /\ Get ucmp m (mkLookupKey u s) = Some (result_of a)) \/
      (Forall (fun a => ~ visible u s a) (all_additions batches) /\ Get ucmp m (mkLookupKey u s) = Some GetAbsent).
Proof.
  destruct (insert_batches_rep ucmp batches new_MemTable [] 0) as (m & E & Hrep);
    [apply new_MemTable_rep|lia|constructor|done|].
  exists m. split; [done|]. intros u s Hs Hu. by apply Get_rep.
Qed.

Lemma memtable_snapshot_read_witness :
  exists m, insert_batches BytewiseComparator new_MemTable
      [(1, [OpPut [Byte.x61] [Byte.x31]; OpDelete [Byte.x61]])] = Some m /\
    ((exists a, latest (all_additions [(1, [OpPut [Byte.x61] [Byte.x31]; OpDelete [Byte.x61]])]) [Byte.x61] 1 a /\
        Get BytewiseComparator m (mkLookupKey [Byte.x61] 1) = Some (result_of a)) \/
     (Forall (fun a => ~ visible [Byte.x61] 1 a)
        (all_additions [(1, [OpPut [Byte.x61] [Byte.x31]; OpDelete [Byte.x61]])]) /\
      Get BytewiseComparator m (mkLookupKey [Byte.x61] 1) = Some GetAbsent)).
Proof.
  destruct (memtable_snapshot_read BytewiseComparator BytewiseComparator_ok
    [(1, [OpPut [Byte.x61] [Byte.x31]; OpDelete [Byte.x61]])]) as (m & E & H).
  - repeat constructor; discriminate.
  - exists m. split; [exact E|]. apply (H [Byte.x61] 1).
    + split; discriminate.
    + reflexivity.
Defined.

(** A batch with guards inserted together with a version: all Puts,
    Deletes and guard records are numbered consecutively from the batch's
    sequence number; the memtable gets the additions, the version gets one
    guard per guard record, in order, whose key carries the record's sequence
    number and the type of a value.  The memtable may hold later entries
    already, as long as no number is used twice. *)
Theorem batch_into_version (ucmp : Comparator) (Hcmp : ComparatorOk ucmp all_keys)
    (m : MemTable) (adds : list Addition) (seq : Z) (ops : list Op) (guards : list GuardAdded)
    (Hrep : memtable_rep ucmp m adds) (Hops : Forall op_sized ops) (H0 : 0 <= seq)
    (Hmax : seq + len ops <= kMaxSequenceNumber) (Hn : len ops < 2 ^ 31)
    (Hfresh : fresh adds (additions true seq ops)) :
  exists m', InsertIntoVersion ucmp (batch_of seq ops) m guards = Some (OK, m', guards ++ guards_added seq ops) /\
    memtable_rep ucmp m' (adds ++ additions true seq ops).
Proof.
  destruct (run_inserter_rep ucmp seq ops m adds (Some guards) Hrep Hops H0 Hmax Hn Hfresh) as (m' & E & Hrep').
  exists m'. unfold InsertIntoVersion. by rewrite E.
Qed.

Lemma batch_into_version_witness :
  exists m', InsertIntoVersion BytewiseComparator (batch_of 5 [OpGuard [Byte.x61] 2; OpPut [Byte.x61] []])
      new_MemTable [] = Some (OK, m', guards_added 5 [OpGuard [Byte.x61] 2; OpPut [Byte.x61] []]).
Proof.
  destruct (batch_into_version BytewiseComparator BytewiseComparator_ok new_MemTable [] 5
    [OpGuard [Byte.x61] 2; OpPut [Byte.x61] []] []) as (m' & E & _).
  - apply new_MemTable_rep.
  - repeat constructor; discriminate.
  - discriminate.
  - discriminate.
  - reflexivity.
  - intros b a Hb _. by apply elem_of_nil in Hb.
  - exists m'. exact E.
Defined.
