(* ===== verification/MemIter.v ===== *)
(** * Iterating over the memtable (db/memtable.cc: MemTableIterator)

    MemTableIterator moves over the skip list and decodes the key and the value
    of the entry it is at.  It satisfies the Iterator contract for the entries
    that were added, in the order of their internal keys; so the flush to level
    0, the merging iterator and the database iterator can be used with it. *)

From Stdlib Require Import ZArith Lia Bool.
From stdpp Require Import base list sorting.
From S2P Require Import Prelude Coding Comparator DbFormat Status Iterator Block BlockSpec WriteBatch SkipList SkipListSpec MemTable.

Set Default Goal Selector "!".
Local Open Scope Z_scope.

Section MemIter.
Context (ucmp : Comparator).
Notation icmp := (InternalKeyComparator ucmp).

(** key_slice.data() + key_slice.size() *)
Definition after_key (entry : bytes) : bytes :=
  match GetVarint32Ptr entry with Some (n, p) => drop (Z.to_nat n) p | None => [] end.

Definition MemTableIterator (m : MemTable) : IterOps := {|
  St := option nat;
  Valid := it_Valid;
  Seek k _ := it_Seek (KeyComparator ucmp) (KeyExtractor ucmp) (table_ m) (EncodeKey k);
  SeekToFirst _ := Some (it_SeekToFirst (table_ m));
  SeekToLast _ := it_SeekToLast (table_ m);
  Next node := Some (it_Next (table_ m) node);
  Prev node := it_Prev (KeyComparator ucmp) (table_ m) node;
  key node := match it_key (table_ m) node with Some e => slice_at e | None => [] end;
  value node := match it_key (table_ m) node with Some e => slice_at (after_key e) | None => [] end;
  status _ := OK;
|}.

(** MemTable::NewIterator: the skip list iterator begins at no node. *)
Definition NewIterator (m : MemTable) : St (MemTableIterator m) := None.

Context `{Hc : !ComparatorOk ucmp all_keys}.
Notation SLm := (SL (KeyComparator ucmp) (KeyExtractor ucmp) entry_ok).

(** ** The entries of a memtable, in order *)
Definition a_pair (a : Addition) : entry := (a_ikey a, a_value a).

Definition node_entry (m : MemTable) (y : nat) : entry :=
  match key_of (table_ m) y with Some e => (slice_at e, slice_at (after_key e)) | None => ([], []) end.

Lemma decode_entry a : addition_ok a -> slice_at (a_entry a) = a_ikey a /\ slice_at (after_key (a_entry a)) = a_value a.
Proof.
  intros Ha. pose proof (a_entry_ok a Ha) as He. split; [by apply slice_at_entry|].
  destruct (GetVarint32Ptr_entry _ _ He) as (rest & E & Ep). unfold after_key. rewrite Ep. rewrite drop_len_app by (unfold len; lia).
  assert (rest = EncodeVarint32 (len (a_value a)) ++ a_value a) as ->.
  { rewrite (a_entry_ikey a Ha) in E. by apply app_inv_head, app_inv_head in E. }
  destruct Ha as (_ & _ & Hv). unfold slice_at.
  assert (GetVarint32Ptr (EncodeVarint32 (len (a_value a)) ++ a_value a) = Some (len (a_value a), a_value a)) as ->
    by (apply (GetVarint32_EncodeVarint32 (len (a_value a))); len_facts; lia).
  apply take_ge. unfold len. lia.
Qed.

(** The iterator is at the node of the position. *)
Definition at_node (L : list nat) (node : option nat) (p : pos) : Prop :=
  match p with Some i => node = L !! i /\ (i < length L)%nat | None => node = None end.

Lemma key_lt_ikey m x y ax ay : key_of (table_ m) x = Some (a_entry ax) -> key_of (table_ m) y = Some (a_entry ay) ->
  addition_ok ax -> addition_ok ay -> key_lt (KeyComparator ucmp) (table_ m) x y -> Compare icmp (a_ikey ax) (a_ikey ay) < 0.
Proof.
  intros Ex Ey Hx Hy (k & Ek & k' & Ek' & Hlt). rewrite Ey in Ek. rewrite Ex in Ek'. injection Ek as <-. injection Ek' as <-.
  by rewrite (KeyComparator_entry ucmp _ _ _ _ (a_entry_ok ax Hx) (a_entry_ok ay Hy)) in Hlt.
Qed.

Lemma EncodeKey_ok k : is_ikey k -> len k < 2 ^ 32 -> entry_of_ikey k (EncodeKey k).
Proof.
  intros Hk Hl. split; [done|]. split; [done|]. exists []. unfold EncodeKey, PutVarint32. rewrite u32_small by (len_facts; lia).
  by rewrite app_nil_r.
Qed.

(** The targets a Seek may have. *)
Definition mem_seekable (k : bytes) : Prop := is_ikey k /\ len k < 2 ^ 32.

Section Rep.
Context (m : MemTable) (adds : list Addition) (L : list nat) (Hsl : SLm (table_ m) L) (Hok : Forall addition_ok adds).
Context (HL : forall y, y ∈ L -> exists a, a ∈ adds /\ key_of (table_ m) y = Some (a_entry a)).

Lemma node_entry_of y : y ∈ L -> exists a, a ∈ adds /\ addition_ok a /\ key_of (table_ m) y = Some (a_entry a) /\ node_entry m y = a_pair a.
Proof.
  intros Hy. destruct (HL y Hy) as (a & Ha & Ek). rewrite Forall_forall in Hok. pose proof (Hok a Ha) as Hoka. exists a.
  split; [done|]. split; [done|]. split; [done|]. unfold node_entry. rewrite Ek. destruct (decode_entry a Hoka) as [-> ->]. done.
Qed.

Lemma node_entries_sorted : sorted_keys icmp (map (node_entry m) L).
Proof.
  intros i j a b Hij Ha Hb. apply list_lookup_fmap_Some in Ha as (x & -> & Hx). apply list_lookup_fmap_Some in Hb as (y & -> & Hy).
  pose proof (sl_sorted _ _ _ _ _ Hsl) as Hs.
  destruct (node_entry_of x) as (ax & _ & Hax & Ex & ->); [by eapply list_elem_of_lookup_2|].
  destruct (node_entry_of y) as (ay & _ & Hay & Ey & ->); [by eapply list_elem_of_lookup_2|].
  apply (key_lt_ikey m x y ax ay Ex Ey Hax Hay). clear -Hs Hx Hy Hij. revert i j Hij Hx Hy.
  induction Hs as [|z l Hs IH Hall]; intros i j Hij Hx Hy; [done|]. destruct i as [|i], j as [|j]; try lia; simpl in *.
  - injection Hx as <-. rewrite Forall_forall in Hall. apply Hall. by eapply list_elem_of_lookup_2.
  - apply (IH i j); [lia|done|done].
Qed.

Lemma seek_count target L1 L2 : L = L1 ++ L2 -> mem_seekable target ->
  Forall (fun y => node_lt (KeyComparator ucmp) (table_ m) y (EncodeKey target)) L1 ->
  Forall (fun y => node_ge (KeyComparator ucmp) (table_ m) y (EncodeKey target)) L2 ->
  seek_pos icmp (map (node_entry m) L) target = at_count (map (node_entry m) L) (length L1).
Proof.
  intros EL [Hk Hl] H1 H2. rewrite seek_pos_count. f_equal.
  assert (forall y a, key_of (table_ m) y = Some (a_entry a) -> addition_ok a ->
    KeyComparator ucmp (a_entry a) (EncodeKey target) = Compare icmp (a_ikey a) target) as Hcmp.
  { intros y a _ Ha. by rewrite (KeyComparator_entry ucmp _ _ _ _ (a_entry_ok a Ha) (EncodeKey_ok target Hk Hl)). }
  apply prefix_len_unique.
  - rewrite EL, length_map, length_app. lia.
  - intros i e Hi He. apply list_lookup_fmap_Some in He as (y & -> & Hy). rewrite EL, lookup_app_l in Hy by lia.
    destruct (node_entry_of y) as (a & _ & Ha & Ea & ->); [rewrite EL; apply elem_of_app; left; by eapply list_elem_of_lookup_2|].
    rewrite Forall_lookup in H1. destruct (H1 i y Hy) as (k & Ek & Hlt). rewrite Ea in Ek. injection Ek as <-.
    rewrite (Hcmp y a Ea Ha) in Hlt. by apply Z.ltb_lt.
  - intros e He. apply list_lookup_fmap_Some in He as (y & -> & Hy). rewrite EL, lookup_app_r, Nat.sub_diag in Hy by lia.
    destruct (node_entry_of y) as (a & _ & Ha & Ea & ->); [rewrite EL; apply elem_of_app; right; by eapply list_elem_of_lookup_2|].
    rewrite Forall_lookup in H2. destruct (H2 0%nat y Hy) as (k & Ek & Hge). rewrite Ea in Ek. injection Ek as <-.
    rewrite (Hcmp y a Ea Ha) in Hge. by apply Z.ltb_ge.
Qed.

Lemma at_node_pos i : at_node L (L !! i) (at_count (map (node_entry m) L) i).
Proof.
  unfold at_count, at_node. rewrite length_map. destruct (decide (i < length L)%nat); [done|]. apply lookup_ge_None. lia.
Qed.

Lemma MemTableIterator_ok : IterOk (MemTableIterator m) icmp mem_seekable (map (node_entry m) L) (at_node L).
Proof.
  split.
  - intros s [i|] H; simpl in *; [|by rewrite H]. destruct H as [-> Hi]. destruct (lookup_lt_is_Some_2 L i Hi) as [y ->]. done.
  - intros s i [-> Hi]. destruct (lookup_lt_is_Some_2 L i Hi) as [y Ey]. rewrite list_lookup_fmap, Ey. cbn. do 2 f_equal.
    unfold node_entry. by destruct (key_of (table_ m) y).
  - done.
  - intros s i [-> Hi]. destruct (lookup_lt_is_Some_2 L i Hi) as [y Ey]. eexists. split; [reflexivity|]. rewrite Ey.
    rewrite (proj1 (it_moves_ok _ _ _ _ _ _ _ Hsl Ey)). pose proof (at_node_pos (S i)) as H. unfold at_count in H. unfold next_pos. exact H.
  - intros s i [-> Hi]. destruct (lookup_lt_is_Some_2 L i Hi) as [y Ey]. eexists. rewrite Ey. cbn [Prev MemTableIterator].
    rewrite (proj2 (it_moves_ok _ _ _ _ _ _ _ Hsl Ey)). split; [reflexivity|]. destruct i as [|j]; [done|]. cbn. split; [done|lia].
  - intros s p _. eexists. split; [reflexivity|]. cbn. rewrite (proj1 (it_ends_ok _ _ _ _ _ Hsl)), length_map.
    destruct L as [|y l]; [done|]. unfold first_pos. rewrite decide_False by done. cbn [at_node]. split; [done|]. simpl. lia.
  - intros s p _. eexists. cbn. rewrite (proj2 (it_ends_ok _ _ _ _ _ Hsl)), length_map. split; [reflexivity|].
    destruct L as [|y l]; [done|]. rewrite last_lookup. cbn [at_node last_pos length]. split; [done|lia].
  - intros s p target _ Ht. destruct Ht as [Hk Hl].
    destruct (it_Seek_ok _ _ _ _ _ (EncodeKey target) Hsl) as (L1 & L2 & EL & H1 & H2 & E & _).
    { exists target. by apply EncodeKey_ok. }
    exists (head L2). split; [exact E|]. rewrite (seek_count target L1 L2 EL ltac:(done) H1 H2).
    replace (head L2) with (L !! length L1); [apply at_node_pos|]. rewrite EL, lookup_app_r, Nat.sub_diag by lia. by destruct L2.
Qed.
End Rep.

(** The iterator of a memtable with these additions. *)
Lemma memtable_iterates m adds : memtable_rep ucmp m adds -> exists l R,
  IterOk (MemTableIterator m) icmp mem_seekable l R /\ R (NewIterator m) None /\ sorted_keys icmp l /\
  (forall e, e ∈ l <-> exists a, a ∈ adds /\ e = a_pair a) /\ (length l < length (table_ m))%nat.
Proof.
  intros (L & Hsl & Hok & HL & HA). exists (map (node_entry m) L), (at_node L). split; [by eapply MemTableIterator_ok|].
  split; [done|]. split; [by eapply node_entries_sorted|]. split; [|rewrite length_map, (sl_count _ _ _ _ _ Hsl); lia]. intros e. split.
  - intros (y & -> & Hy)%list_elem_of_fmap. destruct (node_entry_of m adds L Hok HL y Hy) as (a & Ha & _ & _ & E). by exists a.
  - intros (a & Ha & ->). destruct (HA a Ha) as (y & Hy & Ek). apply list_elem_of_fmap. exists y. split; [|done].
    unfold node_entry. rewrite Ek. rewrite Forall_forall in Hok. destruct (decode_entry a (Hok a Ha)) as [-> ->]. done.
Qed.
End MemIter.

(** ** The claim *)

(** The memtable's iterator.  Over a memtable that got the entries [adds],
    MemTableIterator satisfies the Iterator contract: it moves in both directions,
    and seeks, over exactly these entries, each with its internal key and value,
    in ascending order of the internal keys. *)
Theorem memtable_iterator_contract (ucmp : Comparator) (Hcmp : ComparatorOk ucmp all_keys) (m : MemTable) (adds : list Addition)
    (Hrep : memtable_rep ucmp m adds) :
  exists l R, IterOk (MemTableIterator ucmp m) (InternalKeyComparator ucmp) mem_seekable l R /\ R (NewIterator ucmp m) None /\
    sorted_keys (InternalKeyComparator ucmp) l /\ forall e, e ∈ l <-> exists a, a ∈ adds /\ e = (a_ikey a, a_value a).
Proof. destruct (memtable_iterates ucmp m adds Hrep) as (l & R & H1 & H2 & H3 & H4 & _). by exists l, R. Qed.

Definition example_batches : list (Z * list Op) :=
  [(1, [OpPut [Byte.x62] [Byte.x31]; OpDelete [Byte.x61]]); (3, [OpPut [Byte.x61] [Byte.x32]])].

Lemma memtable_iterator_contract_witness : exists m l R,
  insert_batches BytewiseComparator new_MemTable example_batches = Some m /\
  IterOk (MemTableIterator BytewiseComparator m) (InternalKeyComparator BytewiseComparator) mem_seekable l R /\
  (InternalKey [Byte.x61] 3 kTypeValue, [Byte.x32]) ∈ l.
Proof.
  destruct (insert_batches_rep BytewiseComparator example_batches new_MemTable [] 0) as (m & E & Hrep).
  - apply new_MemTable_rep.
  - lia.
  - constructor.
  - repeat constructor; discriminate.
  - destruct (memtable_iterator_contract BytewiseComparator BytewiseComparator_ok m _ Hrep) as (l & R & HI & _ & _ & Hl).
    exists m, l, R. split; [exact E|]. split; [exact HI|]. apply Hl.
    exists {| a_seq := 3; a_type := kTypeValue; a_key := [Byte.x61]; a_value := [Byte.x32] |}. split; [|reflexivity].
    cbn. right. right. left.
Defined.
