(* ===== verification/WritePath.v ===== *)
(** * The write path (db/db_impl.cc: Write, SequenceWriteBegin,
    SequenceWriteEnd, WaitOutWriters, GetSnapshot)

    Writers run concurrently.  Each takes a number range from writers_upper_
    and joins a doubly linked queue of Writer objects, which live on the stacks
    of their threads; it appends its batch to the log without a lock, inserts
    it into the current memtable under mutex_, publishes its last sequence
    number and leaves the queue.  A thread that wants a snapshot reads the last
    sequence number and then joins the queue to wait for the writers before it.

    The actions below are the critical sections of these functions (between two
    of them other threads may run) and the appends to the log, which
    LogConcurrent shows to be atomic.  A thread that has to wait may try again at
    any time; WakeUps adds the condition variables and their signals.  The
    memtable, batch and guard operations are those of MemTable and WriteBatch. *)

From Stdlib Require Import ZArith Lia Bool.
From Stdlib Require Import Strings.String.
From stdpp Require Import base list gmap.
From S2P Require Import Prelude Coding Comparator DbFormat Status WriteBatch SkipList MemTable.

Set Default Goal Selector "!".
Local Open Scope Z_scope.

(** ** Writers and threads *)

(** The fields of DBImpl::Writer that matter to other threads; addresses are
    the numbers of the threads. *)
Record Writer := {
  linked_ : bool;
  has_imm_ : bool;
  wake_me_when_head_ : bool;
  prev_ : option nat;
  next_ : option nat;
  start_sequence_ : Z;
  end_sequence_ : Z;
  log_ : Z;
}.

Definition new_Writer : Writer :=
  {| linked_ := false; has_imm_ := false; wake_me_when_head_ := false; prev_ := None; next_ := None;
     start_sequence_ := 0; end_sequence_ := 0; log_ := 0 |}.

Definition with_links (w : Writer) (prev next : option nat) : Writer :=
  {| linked_ := linked_ w; has_imm_ := has_imm_ w; wake_me_when_head_ := wake_me_when_head_ w; prev_ := prev; next_ := next;
     start_sequence_ := start_sequence_ w; end_sequence_ := end_sequence_ w; log_ := log_ w |}.
Definition with_imm (w : Writer) (b : bool) : Writer :=
  {| linked_ := linked_ w; has_imm_ := b; wake_me_when_head_ := wake_me_when_head_ w; prev_ := prev_ w; next_ := next_ w;
     start_sequence_ := start_sequence_ w; end_sequence_ := end_sequence_ w; log_ := log_ w |}.
Definition with_wake (w : Writer) (b : bool) : Writer :=
  {| linked_ := linked_ w; has_imm_ := has_imm_ w; wake_me_when_head_ := b; prev_ := prev_ w; next_ := next_ w;
     start_sequence_ := start_sequence_ w; end_sequence_ := end_sequence_ w; log_ := log_ w |}.
Definition with_linked (w : Writer) : Writer :=
  {| linked_ := true; has_imm_ := has_imm_ w; wake_me_when_head_ := wake_me_when_head_ w; prev_ := prev_ w; next_ := None;
     start_sequence_ := start_sequence_ w; end_sequence_ := end_sequence_ w; log_ := log_ w |}.
Definition with_range (w : Writer) (first last : Z) : Writer :=
  {| linked_ := linked_ w; has_imm_ := has_imm_ w; wake_me_when_head_ := wake_me_when_head_ w; prev_ := prev_ w; next_ := next_ w;
     start_sequence_ := first; end_sequence_ := last; log_ := log_ w |}.
Definition with_log (w : Writer) (log : Z) : Writer :=
  {| linked_ := linked_ w; has_imm_ := has_imm_ w; wake_me_when_head_ := wake_me_when_head_ w; prev_ := prev_ w; next_ := next_ w;
     start_sequence_ := start_sequence_ w; end_sequence_ := end_sequence_ w; log_ := log |}.

(** What a thread runs: Write, with the operations of its batch (none: the
    batch is NULL, as for TEST_CompactMemTable) and options.sync, or
    GetSnapshot. *)
Inductive Call := CallWrite (updates : option (list Op)) (sync : bool) | CallGetSnapshot.

(** Where it stands. *)
Inductive Pc :=
| PcBegin                                   (** SequenceWriteBegin, under mutex_ *)
| PcEnqueue                                 (** SequenceWriteBegin, under writers_mutex_ *)
| PcTicket (ticket diff : Z)                (** waiting for a backup to end *)
| PcLog                                     (** the batch gets its numbers and guards and goes to the log *)
| PcSync (b : WriteBatch)
| PcEnd (b : option WriteBatch) (s : Status)    (** SequenceWriteEnd, under mutex_ *)
| PcUnlink (s : Status)                     (** SequenceWriteEnd, under writers_mutex_ *)
| PcImm (s : Status)                        (** the end of SequenceWriteEnd *)
| PcDone (s : Status)                       (** Write has returned *)
| PcSnapshot                                (** GetSnapshot, under mutex_ *)
| PcWaitOut (number : Z)                    (** WaitOutWriters joins the queue *)
| PcWaiting (number : Z)                    (** and waits to be its head *)
| PcWaitImm (number : Z)
| PcSnapshotDone (number : Z).

Record Thread := { t_call : Call; t_pc : Pc; t_writer : Writer }.

(** ** The database *)
Record DB := {
  writers_upper_ : Z;
  writers_tail_ : option nat;
  last_sequence_ : Z;
  next_file_number_ : Z;
  mem_ : MemTable;
  imm_ : option MemTable;
  has_imm_flag_ : bool;                (** DBImpl::has_imm_ is not NULL *)
  logfile_number_ : Z;
  bg_error_ : Status;
  backup_in_progress_ : bool;
  complete_guards_ : list GuardAdded;  (** those of the current version *)
  log_number_ : Z;                     (** of the version set: older logs are not needed *)
  (** the files: the records of each log, and the memtables that have been
      written to tables of level 0, oldest first *)
  logs : gmap Z (list bytes);
  tables : list MemTable;
}.

Record State := { st_db : DB; st_threads : list Thread }.

Definition with_queue (d : DB) (upper : Z) (tail : option nat) : DB :=
  {| writers_upper_ := upper; writers_tail_ := tail; last_sequence_ := last_sequence_ d; next_file_number_ := next_file_number_ d;
     mem_ := mem_ d; imm_ := imm_ d; has_imm_flag_ := has_imm_flag_ d; logfile_number_ := logfile_number_ d;
     bg_error_ := bg_error_ d; backup_in_progress_ := backup_in_progress_ d; complete_guards_ := complete_guards_ d;
     log_number_ := log_number_ d; logs := logs d; tables := tables d |}.
Definition with_flag (d : DB) (flag : bool) : DB :=
  {| writers_upper_ := writers_upper_ d; writers_tail_ := writers_tail_ d; last_sequence_ := last_sequence_ d;
     next_file_number_ := next_file_number_ d; mem_ := mem_ d; imm_ := imm_ d; has_imm_flag_ := flag;
     logfile_number_ := logfile_number_ d; bg_error_ := bg_error_ d; backup_in_progress_ := backup_in_progress_ d;
     complete_guards_ := complete_guards_ d; log_number_ := log_number_ d; logs := logs d; tables := tables d |}.
Definition with_backup (d : DB) (b : bool) : DB :=
  {| writers_upper_ := writers_upper_ d; writers_tail_ := writers_tail_ d; last_sequence_ := last_sequence_ d;
     next_file_number_ := next_file_number_ d; mem_ := mem_ d; imm_ := imm_ d; has_imm_flag_ := has_imm_flag_ d;
     logfile_number_ := logfile_number_ d; bg_error_ := bg_error_ d; backup_in_progress_ := b;
     complete_guards_ := complete_guards_ d; log_number_ := log_number_ d; logs := logs d; tables := tables d |}.
Definition with_logs (d : DB) (l : gmap Z (list bytes)) : DB :=
  {| writers_upper_ := writers_upper_ d; writers_tail_ := writers_tail_ d; last_sequence_ := last_sequence_ d;
     next_file_number_ := next_file_number_ d; mem_ := mem_ d; imm_ := imm_ d; has_imm_flag_ := has_imm_flag_ d;
     logfile_number_ := logfile_number_ d; bg_error_ := bg_error_ d; backup_in_progress_ := backup_in_progress_ d;
     complete_guards_ := complete_guards_ d; log_number_ := log_number_ d; logs := l; tables := tables d |}.
Definition with_inserted (d : DB) (m : MemTable) (guards : list GuardAdded) : DB :=
  {| writers_upper_ := writers_upper_ d; writers_tail_ := writers_tail_ d; last_sequence_ := last_sequence_ d;
     next_file_number_ := next_file_number_ d; mem_ := m; imm_ := imm_ d; has_imm_flag_ := has_imm_flag_ d;
     logfile_number_ := logfile_number_ d; bg_error_ := bg_error_ d; backup_in_progress_ := backup_in_progress_ d;
     complete_guards_ := guards; log_number_ := log_number_ d; logs := logs d; tables := tables d |}.

(** RecordBackgroundError: the first error stays. *)
Definition RecordBackgroundError (d : DB) (s : Status) : DB :=
  {| writers_upper_ := writers_upper_ d; writers_tail_ := writers_tail_ d; last_sequence_ := last_sequence_ d;
     next_file_number_ := next_file_number_ d; mem_ := mem_ d; imm_ := imm_ d; has_imm_flag_ := has_imm_flag_ d;
     logfile_number_ := logfile_number_ d; bg_error_ := if ok (bg_error_ d) then s else bg_error_ d;
     backup_in_progress_ := backup_in_progress_ d; complete_guards_ := complete_guards_ d; log_number_ := log_number_ d;
     logs := logs d; tables := tables d |}.

(** VersionSet::SetLastSequence. *)
Definition SetLastSequence (d : DB) (s : Z) : DB :=
  {| writers_upper_ := writers_upper_ d; writers_tail_ := writers_tail_ d;
     last_sequence_ := if last_sequence_ d <=? s then s else last_sequence_ d;
     next_file_number_ := next_file_number_ d; mem_ := mem_ d; imm_ := imm_ d; has_imm_flag_ := has_imm_flag_ d;
     logfile_number_ := logfile_number_ d; bg_error_ := bg_error_ d; backup_in_progress_ := backup_in_progress_ d;
     complete_guards_ := complete_guards_ d; log_number_ := log_number_ d; logs := logs d; tables := tables d |}.

(** The memtable is full: a new log, and the memtable becomes imm_. *)
Definition switch_memtable (d : DB) (log : Z) : DB :=
  {| writers_upper_ := writers_upper_ d; writers_tail_ := writers_tail_ d; last_sequence_ := last_sequence_ d;
     next_file_number_ := u64 (log + 1); mem_ := new_MemTable; imm_ := Some (mem_ d); has_imm_flag_ := has_imm_flag_ d;
     logfile_number_ := log; bg_error_ := bg_error_ d; backup_in_progress_ := backup_in_progress_ d;
     complete_guards_ := complete_guards_ d; log_number_ := log_number_ d; logs := <[log := []]> (logs d); tables := tables d |}.

(** NewFileNumber and then ReuseFileNumber. *)
Definition reused_file_number (d : DB) : DB :=
  let new_log_number := next_file_number_ d in
  let next := u64 (new_log_number + 1) in
  {| writers_upper_ := writers_upper_ d; writers_tail_ := writers_tail_ d; last_sequence_ := last_sequence_ d;
     next_file_number_ := if next =? u64 (new_log_number + 1) then new_log_number else next;
     mem_ := mem_ d; imm_ := imm_ d; has_imm_flag_ := has_imm_flag_ d;
     logfile_number_ := logfile_number_ d; bg_error_ := bg_error_ d; backup_in_progress_ := backup_in_progress_ d;
     complete_guards_ := complete_guards_ d; log_number_ := log_number_ d; logs := logs d; tables := tables d |}.

(** The memtable thread has written imm_ to level 0 and installed the edit,
    whose log number is logfile_number_; DeleteObsoleteFiles removes the logs
    before it, unless a backup runs or there is a background error. *)
Definition flushed (d : DB) (imm : MemTable) : DB :=
  {| writers_upper_ := writers_upper_ d; writers_tail_ := writers_tail_ d; last_sequence_ := last_sequence_ d;
     next_file_number_ := next_file_number_ d; mem_ := mem_ d; imm_ := None; has_imm_flag_ := false;
     logfile_number_ := logfile_number_ d; bg_error_ := bg_error_ d; backup_in_progress_ := backup_in_progress_ d;
     complete_guards_ := complete_guards_ d; log_number_ := logfile_number_ d;
     logs := if backup_in_progress_ d || negb (ok (bg_error_ d)) then logs d
             else filter (fun e => logfile_number_ d <= fst e) (logs d);
     tables := tables d ++ [imm] |}.

(** ** The actions *)
Section Actions.
Context (ucmp : Comparator).
(** MemTable::ApproximateMemoryUsage (the arena's) and options_.write_buffer_size *)
Context (ApproximateMemoryUsage : MemTable -> Z) (write_buffer_size : Z).

Definition set_pc (i : nat) (pc : Pc) (ts : list Thread) : list Thread :=
  alter (fun t => {| t_call := t_call t; t_pc := pc; t_writer := t_writer t |}) i ts.
Definition set_writer (i : nat) (f : Writer -> Writer) (ts : list Thread) : list Thread :=
  alter (fun t => {| t_call := t_call t; t_pc := t_pc t; t_writer := f (t_writer t) |}) i ts.

(** The first part of SequenceWriteBegin, under mutex_: [answer] is the status
    of NewConcurrentWritableFile, [force] that there is no batch.  No result:
    the thread waits on bg_fg_cv_. *)
Definition begin_memtable (force : bool) (answer : Status) (d : DB) : option (Status * bool * DB) :=
  if negb (ok (bg_error_ d)) then Some (bg_error_ d, false, d)
  else if negb force && (ApproximateMemoryUsage (mem_ d) <=? write_buffer_size) then Some (OK, false, d)
  else match imm_ d with
       | Some _ => None
       | None =>
           if ok answer then Some (OK, true, switch_memtable d (next_file_number_ d))
           else Some (answer, false, reused_file_number d)
       end.

(** A Writer joins the queue. *)
Definition enqueue (i : nat) (upper : Z) (st : State) : State :=
  let d := st_db st in
  let ts := set_writer i with_linked (st_threads st) in
  let ts := match writers_tail_ d with
            | Some t => set_writer i (fun w => with_links w (Some t) (next_ w))
                          (set_writer t (fun w => with_links w (prev_ w) (Some i)) ts)
            | None => ts
            end in
  {| st_db := with_queue d upper (Some i); st_threads := ts |}.

(** It leaves.  [hand_over]: w->has_imm_ goes to the writer before it.  (The
    signal to the next writer is WakeUps.signalled.) *)
Definition unlink (i : nat) (hand_over : bool) (st : State) : State :=
  let d := st_db st in
  match st_threads st !! i with
  | None => st
  | Some t =>
      let w := t_writer t in
      let ts := st_threads st in
      let ts := match prev_ w with
                | Some p =>
                    let ts := set_writer p (fun v => with_links v (prev_ v) (next_ w)) ts in
                    if hand_over && has_imm_ w
                    then set_writer i (fun w => with_imm w false) (set_writer p (fun v => with_imm v true) ts)
                    else ts
                | None => ts
                end in
      let ts := match next_ w with
                | Some n => set_writer n (fun v => with_links v (prev_ w) (next_ v)) ts
                | None => ts
                end in
      {| st_db := if bool_decide (writers_tail_ d = Some i) then with_queue d (writers_upper_ d) None else d;
         st_threads := ts |}
  end.

(** has_imm_.Release_Store(imm_) *)
Definition store_imm (d : DB) : DB := with_flag d (match imm_ d with Some _ => true | None => false end).

Definition updates_of (c : Call) : option (list Op) := match c with CallWrite u _ => u | CallGetSnapshot => None end.
Definition sync_of (c : Call) : bool := match c with CallWrite _ s => s | CallGetSnapshot => false end.
Definition batch_count (u : option (list Op)) : Z := match u with Some ops => Count (build ops) | None => 0 end.

(** The batch with its numbers and guards (the status of SetGuards is OK for
    the batches clients can build; it is asserted). *)
Definition number_batch (w : Writer) (ops : list Op) : option (Status * WriteBatch) :=
  let updates := SetSequence (build ops) (start_sequence_ w) in
  SetGuards updates updates.

Definition in_thread (i : nat) (st : State) (d : DB) (f : Writer -> Writer) (pc : Pc) : State :=
  {| st_db := d; st_threads := set_pc i pc (set_writer i f (st_threads st)) |}.

(** One action of thread [i]; [answer] is what the environment returns to the
    call the action makes, if it makes one. *)
Definition advance (answer : Status) (i : nat) (st : State) : option State :=
  t ← st_threads st !! i;
  let d := st_db st in
  let w := t_writer t in
  let u := updates_of (t_call t) in
  match t_pc t with
  | PcBegin =>
      '(s, switched, d) ← begin_memtable (match u with None => true | _ => false end) answer d;
      if ok s
      then Some (in_thread i st d (fun w => with_imm (with_log w (logfile_number_ d)) (if switched : bool then true else has_imm_ w)) PcEnqueue)
      else Some (in_thread i st d id (PcDone s))
  | PcEnqueue =>
      let diff := u64 (batch_count u) in
      let upper := u64 (writers_upper_ d + u64 (1 + diff)) in
      let st := enqueue i upper st in
      Some (in_thread i st (st_db st) id (PcTicket upper diff))
  | PcTicket ticket diff =>
      if backup_in_progress_ d then Some (in_thread i st d (fun w => with_wake w true) (PcTicket ticket diff))
      else Some (in_thread i st d (fun w => with_range (with_wake w false) (u64 (ticket - diff)) ticket)
             (match u with Some _ => PcLog | None => PcEnd None OK end))
  | PcLog =>
      ops ← u;
      '(s, b) ← number_batch w ops;
      if negb (ok s) then None  (* assert(0) *)
      else
        let d := if ok answer then with_logs d (alter (fun rs => rs ++ [b]) (log_ w) (logs d)) else d in
        Some (in_thread i st d id (if ok answer && sync_of (t_call t) then PcSync b else PcEnd (Some b) answer))
  | PcSync b => Some (in_thread i st d id (PcEnd (Some b) answer))
  | PcEnd b s =>
      '(s, d) ← (match b with
                 | Some b =>
                     if ok s then
                       '(s, m, guards) ← InsertIntoVersion ucmp b (mem_ d) (complete_guards_ d);
                       Some (s, with_inserted d m guards)
                     else Some (s, d)
                 | None => Some (s, d)
                 end);
      let d := if ok s then d else RecordBackgroundError d s in
      Some (in_thread i st (SetLastSequence d (end_sequence_ w)) id (PcUnlink s))
  | PcUnlink s =>
      let st := unlink i true st in
      Some (in_thread i st (st_db st) id (PcImm s))
  | PcImm s =>
      if has_imm_ w && (match prev_ w with None => true | Some _ => false end)
      then Some (in_thread i st (store_imm d) (fun w => with_imm w false) (PcDone s))
      else Some (in_thread i st d id (PcDone s))
  | PcSnapshot => Some (in_thread i st d id (PcWaitOut (last_sequence_ d)))
  | PcWaitOut number =>
      let st := enqueue i (writers_upper_ d) st in
      Some (in_thread i st (st_db st) (fun w => with_wake w (match prev_ w with Some _ => true | None => false end)) (PcWaiting number))
  | PcWaiting number =>
      match prev_ w with
      | Some _ => None
      | None => let st := unlink i false st in Some (in_thread i st (st_db st) id (PcWaitImm number))
      end
  | PcWaitImm number =>
      if has_imm_ w then Some (in_thread i st (store_imm d) (fun w => with_imm w false) (PcSnapshotDone number))
      else Some (in_thread i st d id (PcSnapshotDone number))
  | PcDone _ | PcSnapshotDone _ => None
  end.

(** ** What may happen *)
Inductive Action :=
| Start (c : Call)
| Advance (i : nat) (answer : Status)
| Flush (answer : Status)          (** the memtable thread; [answer]: of writing level 0 and LogAndApply *)
| Backup (on : bool).              (** LiveBackup sets and clears backup_in_progress_ *)

Definition act (a : Action) (st : State) : option State :=
  match a with
  | Start c =>
      Some {| st_db := st_db st;
              st_threads := st_threads st ++ [{| t_call := c; t_writer := new_Writer;
                t_pc := match c with CallWrite _ _ => PcBegin | CallGetSnapshot => PcSnapshot end |}] |}
  | Advance i answer => advance answer i st
  | Flush answer =>
      imm ← imm_ (st_db st);
      Some {| st_db := if ok answer then flushed (st_db st) imm else RecordBackgroundError (st_db st) answer;
              st_threads := st_threads st |}
  | Backup on => Some {| st_db := with_backup (st_db st) on; st_threads := st_threads st |}
  end.

Fixpoint run (acts : list Action) (st : State) : option State :=
  match acts with
  | [] => Some st
  | a :: acts => st ← act a st; run acts st
  end.

(** The batches clients can build: puts and deletes that fit. *)
Definition client_op (o : Op) : Prop := op_sized o /\ no_guard o.
Definition client_call (c : Call) : Prop :=
  match updates_of c with Some ops => Forall client_op ops /\ len ops < 2 ^ 28 | None => True end.
Definition action_ok (a : Action) : Prop := match a with Start c => client_call c | _ => True end.

Inductive reachable (st0 : State) : State -> Prop :=
| reach_start : reachable st0 st0
| reach_step st a st' : reachable st0 st -> action_ok a -> act a st = Some st' -> reachable st0 st'.
End Actions.

(** A database as DB::Open leaves it, with its log [log] and last sequence
    number [seq]. *)
Definition opened (seq log : Z) : State := {|
  st_db := {| writers_upper_ := seq; writers_tail_ := None; last_sequence_ := seq; next_file_number_ := u64 (log + 1);
              mem_ := new_MemTable; imm_ := None; has_imm_flag_ := false; logfile_number_ := log; bg_error_ := OK;
              backup_in_progress_ := false; complete_guards_ := []; log_number_ := log; logs := {[log := []]}; tables := [] |};
  st_threads := [];
|}.

(** ** Sequence numbers and contents *)

(** What an action of one thread leaves alone in the others: everything but the
    links and the imm_ duty. *)
Record Core := { k_call : Call; k_pc : Pc; k_linked : bool; k_start : Z; k_end : Z }.
Definition core (t : Thread) : Core :=
  {| k_call := t_call t; k_pc := t_pc t; k_linked := linked_ (t_writer t);
     k_start := start_sequence_ (t_writer t); k_end := end_sequence_ (t_writer t) |}.

Definition call_len (c : Call) : Z := match updates_of c with Some ops => len ops | None => 0 end.
Definition call_ops (c : Call) : list Op := default [] (updates_of c).

Definition is_write (c : Call) : bool := match c with CallWrite _ _ => true | CallGetSnapshot => false end.

(** The numbers a writer has got: from the first one to its ticket. *)
Definition range_of (k : Core) : option (Z * Z) :=
  if k_linked k && is_write (k_call k)
  then Some (match k_pc k with PcTicket ticket diff => (u64 (ticket - diff), ticket) | _ => (k_start k, k_end k) end)
  else None.

(** Where a writer is in the queue or past it, and where it is a writer. *)
Definition past_enqueue (pc : Pc) : bool :=
  match pc with PcTicket _ _ | PcLog | PcSync _ | PcEnd _ _ | PcUnlink _ | PcImm _ => true | _ => false end.
Definition write_pc (pc : Pc) : bool :=
  match pc with PcSnapshot | PcWaitOut _ | PcWaiting _ | PcWaitImm _ | PcSnapshotDone _ => false | _ => true end.

(** It has been through the first part of SequenceWriteEnd with this status. *)
Definition ended (k : Core) : option Status :=
  match k_pc k with
  | PcUnlink s | PcImm s => Some s
  | PcDone s => if k_linked k then Some s else None
  | _ => None
  end.

(** The entries it has put in a memtable. *)
Definition inserted (k : Core) : list Addition :=
  match ended k with
  | Some s => if ok s then additions true (k_start k) (call_ops (k_call k)) else []
  | None => []
  end.

Definition cost (k : Core) : Z := if k_linked k && is_write (k_call k) then 1 + call_len (k_call k) else 0.
Definition total (f : Core -> Z) (ks : list Core) : Z := foldr (fun k n => f k + n) 0 ks.
Definition issued (ks : list Core) : Z := total cost ks.

Definition overlap (r1 r2 : Z * Z) : Prop := fst r1 <= snd r2 /\ fst r2 <= snd r1.

(** The batch with its guard records, numbered from [first]. *)
Definition guarded (first : Z) (ops : list Op) : WriteBatch := batch_of first (ops ++ concat (map guard_ops ops)).

Record core_ok (seq0 upper : Z) (k : Core) : Prop := {
  ck_call : client_call (k_call k);
  ck_range r : range_of k = Some r -> seq0 < fst r /\ snd r = fst r + call_len (k_call k) /\ snd r <= upper;
  ck_ticket ticket diff : k_pc k = PcTicket ticket diff -> diff = call_len (k_call k);
  ck_unlinked : (k_pc k = PcBegin \/ k_pc k = PcEnqueue) -> k_linked k = false;
  ck_linked : past_enqueue (k_pc k) = true -> k_linked k = true;
  ck_write : is_write (k_call k) = write_pc (k_pc k);
  ck_batch b s : k_pc k = PcSync b \/ k_pc k = PcEnd (Some b) s ->
    exists ops, updates_of (k_call k) = Some ops /\ b = guarded (k_start k) ops;
  ck_log : k_pc k = PcLog -> exists ops, updates_of (k_call k) = Some ops;
  (** Write leaves SequenceWriteEnd without a batch only when it has none *)
  ck_null s : k_pc k = PcEnd None s -> updates_of (k_call k) = None;
}.

Section Contents.
Context (ucmp : Comparator) `{Hc : !ComparatorOk ucmp all_keys}.

Definition imm_rep (imm : option MemTable) (adds : list Addition) : Prop :=
  match imm with Some m => memtable_rep ucmp m adds | None => adds = [] end.

Record contents_ok (d : DB) (news : list Addition) : Prop := {
  ct_rep : exists am ai at_, memtable_rep ucmp (mem_ d) am /\ imm_rep (imm_ d) ai /\ Forall2 (memtable_rep ucmp) (tables d) at_ /\
    am ++ ai ++ concat at_ ≡ₚ news;
}.

Record inv (seq0 : Z) (d : DB) (ks : list Core) : Prop := {
  iv_upper : writers_upper_ d = seq0 + issued ks;
  iv_cores : Forall (core_ok seq0 (writers_upper_ d)) ks;
  iv_disjoint i j k1 k2 r1 r2 : i <> j -> ks !! i = Some k1 -> ks !! j = Some k2 ->
    range_of k1 = Some r1 -> range_of k2 = Some r2 -> ~ overlap r1 r2;
  iv_contents : contents_ok d (concat (map inserted ks));
  iv_last : seq0 <= last_sequence_ d <= writers_upper_ d;
  iv_ended k s : k ∈ ks -> ended k = Some s -> k_end k <= last_sequence_ d;
}.

(** *** Lists *)
Lemma total_app f a b : total f (a ++ b) = total f a + total f b.
Proof. induction a as [|k a IH]; simpl; [done|]. rewrite IH. lia. Qed.

Lemma total_insert f ks i k k' : ks !! i = Some k -> total f (<[i := k']> ks) = total f ks - f k + f k'.
Proof.
  intros Hi. pose proof (take_drop_middle ks i k Hi) as E.
  rewrite insert_take_drop by (by eapply lookup_lt_Some). rewrite <- E at 3. rewrite !total_app. simpl. lia.
Qed.

Lemma total_le f g ks : (forall k, f k <= g k) -> total f ks <= total g ks.
Proof. intros H. induction ks as [|k ks IH]; simpl; [lia|]. specialize (H k). lia. Qed.

Lemma concat_insert_nil {A} (ls : list (list A)) i l : ls !! i = Some [] -> concat (<[i := l]> ls) ≡ₚ concat ls ++ l.
Proof.
  intros Hi. pose proof (take_drop_middle ls i [] Hi) as E.
  rewrite insert_take_drop by (by eapply lookup_lt_Some). rewrite <- E at 3. rewrite !concat_app. simpl.
  rewrite <- !app_assoc. apply Permutation_app_head, Permutation_app_comm.
Qed.

Lemma elem_of_insert {A} (l : list A) i x y : y ∈ <[i := x]> l -> y = x \/ y ∈ l.
Proof.
  intros [j Hj]%list_elem_of_lookup. destruct (decide (i = j)) as [->|Hne].
  - apply list_lookup_insert_Some in Hj as [(_ & <- & _)|(? & _)]; [by left|done].
  - rewrite list_lookup_insert_ne in Hj by done. right. by eapply list_elem_of_lookup_2.
Qed.

Lemma map_insert_same {A B} (f : A -> B) (l : list A) i x y : l !! i = Some x -> f y = f x -> map f (<[i := y]> l) = map f l.
Proof. intros Hi E. change (map f) with (fmap (M := list) f). rewrite list_fmap_insert, E. apply list_insert_id. by rewrite list_lookup_fmap, Hi. Qed.

(** *** Batches with guards *)
Lemma guard_ops_spec o : Forall (fun g => exists k l, g = OpGuard k l) (guard_ops o) /\ len (guard_ops o) <= 7.
Proof.
  destruct o as [k v|k|k l]; cbn [guard_ops]; try (by split). split.
  - apply List.Forall_map, Forall_forall. intros l _. by eexists _, _.
  - unfold len. rewrite length_map. pose proof (filter_length_le (guard_at k) all_levels) as H. change (length all_levels) with 7%nat in H. lia.
Qed.

Lemma guard_ops_sized o : op_sized o -> Forall op_sized (guard_ops o).
Proof.
  destruct o as [k v|k|k l]; cbn [guard_ops op_sized]; [|done..]. intros [Hk _]. apply List.Forall_map, Forall_forall. intros l Hl.
  split; [done|]. apply list_elem_of_In, List.filter_In in Hl as [Hl _]. apply list_elem_of_In, list_elem_of_fmap in Hl as (n & -> & Hn).
  apply elem_of_seq in Hn. unfold kNumLevels in *. lia.
Qed.

Lemma all_guards_spec ops : Forall (fun g => exists k l, g = OpGuard k l) (concat (map guard_ops ops)) /\
  len (concat (map guard_ops ops)) <= 7 * len ops.
Proof.
  induction ops as [|o ops [IH1 IH2]]; simpl; [by split|]. destruct (guard_ops_spec o) as [H1 H2]. split; [by apply Forall_app|].
  rewrite len_app, len_cons. lia.
Qed.

Lemma additions_app seq ops1 : forall ops2, additions true seq (ops1 ++ ops2) = additions true seq ops1 ++ additions true (seq + len ops1) ops2.
Proof.
  revert seq. induction ops1 as [|o ops1 IH]; intros seq ops2; [simpl; by rewrite Z.add_0_r|].
  rewrite len_cons. replace (seq + (1 + len ops1)) with (seq + 1 + len ops1) by lia. destruct o; simpl; by rewrite IH.
Qed.

Lemma additions_guards seq gs : Forall (fun g => exists k l, g = OpGuard k l) gs -> additions true seq gs = [].
Proof. intros H. revert seq. induction H as [|g gs (k & l & ->) _ IH]; intros seq; [done|]. simpl. apply IH. Qed.

Lemma additions_guarded seq ops : additions true seq (ops ++ concat (map guard_ops ops)) = additions true seq ops.
Proof. rewrite additions_app, (additions_guards _ (concat _)); [by rewrite app_nil_r|]. apply all_guards_spec. Qed.

Lemma client_sized ops : Forall client_op ops -> Forall op_sized ops.
Proof. intros H. eapply Forall_impl; [exact H|]. by intros o []. Qed.

Lemma guarded_sized ops : Forall client_op ops -> Forall op_sized (ops ++ concat (map guard_ops ops)).
Proof.
  intros H%client_sized. apply Forall_app. split; [done|]. induction H as [|o ops Ho _ IH]; simpl; [done|].
  apply Forall_app. split; [by apply guard_ops_sized|done].
Qed.

Lemma number_batch_ok w ops : Forall client_op ops -> len ops < 2 ^ 28 ->
  number_batch w ops = Some (OK, guarded (start_sequence_ w) ops).
Proof.
  intros Hops Hn. unfold number_batch. rewrite build_batch, SetSequence_batch by lia.
  assert (Forall op_ok ops) as Hok.
  { eapply Forall_impl; [by apply client_sized|]. apply op_sized_ok. }
  rewrite SetGuards_ops; [|done|by eapply Forall_impl; [exact Hops|]; intros o [_ Ho]; destruct o|lia].
  pose proof (all_guards_spec ops) as [_ Hg]. rewrite add_ops_batch by lia. done.
Qed.

Lemma range_past seq0 u k : core_ok seq0 u k -> past_enqueue (k_pc k) = true -> (forall t df, k_pc k <> PcTicket t df) ->
  range_of k = Some (k_start k, k_end k).
Proof.
  intros Hk Hp Ht. unfold range_of. rewrite (ck_linked _ _ _ Hk Hp), (ck_write _ _ _ Hk). destruct (k_pc k); try done. by destruct (Ht ticket diff).
Qed.

(** *** Steps that keep the numbers and the contents *)
Definition same_data (d d' : DB) : Prop :=
  writers_upper_ d' = writers_upper_ d /\ last_sequence_ d' = last_sequence_ d /\
  mem_ d' = mem_ d /\ imm_ d' = imm_ d /\ tables d' = tables d.

Lemma core_ok_mono seq0 u u' k : u <= u' -> core_ok seq0 u k -> core_ok seq0 u' k.
Proof. intros Hu [H1 H2 H3 H4 H4' H4'' H5 H5' H6]. split; try done. intros r Hr. destruct (H2 r Hr). lia. Qed.

Lemma inv_data seq0 d d' ks : inv seq0 d ks -> same_data d d' -> inv seq0 d' ks.
Proof.
  intros [H1 H2 H3 [H4] H5 H6] (E1 & E2 & E3 & E4 & E5). split; rewrite ?E1, ?E2; try done.
  split. by rewrite E3, E4, E5.
Qed.

Lemma inv_local seq0 d ks i k k' : inv seq0 d ks -> ks !! i = Some k -> core_ok seq0 (writers_upper_ d) k' ->
  k_call k' = k_call k -> cost k' = cost k -> range_of k' = range_of k -> ended k' = ended k ->
  (ended k <> None -> k_start k' = k_start k /\ k_end k' = k_end k) -> inv seq0 d (<[i := k']> ks).
Proof.
  intros [H1 H2 H3 H4 H5 H6] Hi Hk Ecall Elk Er Ee Ese.
  assert (inserted k' = inserted k) as Ei.
  { unfold inserted. rewrite Ee. destruct (ended k); [|done]. destruct Ese as [-> _]; [done|]. by rewrite Ecall. }
  split.
  - unfold issued in *. rewrite (total_insert cost _ _ _ k' Hi). lia.
  - apply Forall_insert; done.
  - assert (forall j kj, <[i := k']> ks !! j = Some kj -> exists kj', ks !! j = Some kj' /\ range_of kj' = range_of kj) as Hl.
    { intros j kj [(<- & <- & _)|(_ & ?)]%list_lookup_insert_Some; eauto. }
    intros j1 j2 k1 k2 r1 r2 Hne (k1' & L1 & R1)%Hl (k2' & L2 & R2)%Hl. rewrite <- R1, <- R2. by eapply H3.
  - by rewrite (map_insert_same inserted ks i k k' Hi Ei).
  - done.
  - intros kx s [->|Hx]%elem_of_insert; [|by eapply H6]. rewrite Ee. intros Es.
    destruct Ese as [_ ->]; [by rewrite Es|]. eapply H6; [by eapply list_elem_of_lookup_2|done].
Qed.

(** *** A writer gets its numbers *)
Lemma batch_count_len c : client_call c -> u64 (batch_count (updates_of c)) = call_len c.
Proof.
  unfold client_call, batch_count, call_len. destruct (updates_of c) as [ops|]; [|done]. intros [_ Hn].
  pose proof (len_nonneg ops) as Hnn.
  rewrite build_batch by lia. unfold batch_of. rewrite Count_batch by lia. by rewrite u64_small by lia.
Qed.

Lemma inv_enqueue seq0 d ks i k k' upper : inv seq0 d ks -> ks !! i = Some k -> 0 <= seq0 ->
  k_pc k = PcEnqueue -> k_call k' = k_call k -> k_linked k' = true -> k_pc k' = PcTicket upper (call_len (k_call k)) ->
  upper = u64 (writers_upper_ d + u64 (1 + call_len (k_call k))) -> seq0 + issued (<[i := k']> ks) < 2 ^ 64 ->
  forall tail, inv seq0 (with_queue d upper tail) (<[i := k']> ks).
Proof.
  intros [H1 H2 H3 H4 H5 H6] Hi H0 Epc Ecall Elk Epc' Eu Hb tail.
  pose proof (proj1 (Forall_forall _ _) H2 k (list_elem_of_lookup_2 _ _ _ Hi)) as Hk.
  assert (is_write (k_call k) = true) as Ew by (rewrite (ck_write _ _ _ Hk), Epc; done).
  assert (0 <= call_len (k_call k)) as Hl by (unfold call_len; destruct (updates_of _); [apply len_nonneg|lia]).
  assert (k_linked k = false) as Er by (apply (ck_unlinked _ _ _ Hk); by right).
  assert (issued (<[i := k']> ks) = issued ks + (1 + call_len (k_call k))) as Ei.
  { unfold issued in *. rewrite (total_insert cost _ _ _ k' Hi). unfold cost. rewrite Er, Elk, Ecall, Ew. simpl. lia. }
  rewrite Ei in Hb.
  rewrite (u64_small (1 + _)), u64_small in Eu by lia.
  assert (range_of k' = Some (writers_upper_ d + 1, upper)) as Er'.
  { unfold range_of. rewrite Epc', Elk, Ecall, Ew. simpl. rewrite u64_small by lia. repeat f_equal. lia. }
  assert (ended k' = None) as Ee by (unfold ended; by rewrite Epc').
  assert (inserted k' = inserted k) as Eins by (unfold inserted, ended; by rewrite Epc, Epc').
  split; cbn [with_queue writers_upper_ last_sequence_].
  - rewrite Ei. lia.
  - apply Forall_insert; [eapply Forall_impl; [exact H2|]; intros; eapply core_ok_mono; [|done]; lia|].
    split; rewrite ?Ecall.
    + apply Hk.
    + intros r [= <-]%(eq_trans (eq_sym Er')). simpl. lia.
    + intros t df E. rewrite E in Epc'. by injection Epc'.
    + intros [E|E]; rewrite E in Epc'; discriminate.
    + done.
    + by rewrite Ew, Epc'.
    + intros b s [E|E]; rewrite E in Epc'; discriminate.
    + intros E. rewrite E in Epc'. discriminate.
    + intros s E. rewrite E in Epc'. discriminate.
  - assert (forall j kj r, j <> i -> ks !! j = Some kj -> range_of kj = Some r -> ~ overlap (writers_upper_ d + 1, upper) r) as Hnew.
    { intros j kj r _ Hj Hr. pose proof (proj1 (Forall_forall _ _) H2 kj (list_elem_of_lookup_2 _ _ _ Hj)) as Hkj.
      destruct (ck_range _ _ _ Hkj r Hr) as (_ & _ & Hle). unfold overlap. simpl. lia. }
    intros j1 j2 k1 k2 r1 r2 Hne L1 L2 R1 R2.
    apply list_lookup_insert_Some in L1 as [(<- & <- & _)|(N1 & L1)]; apply list_lookup_insert_Some in L2 as [(<- & <- & _)|(N2 & L2)].
    + done.
    + rewrite Er' in R1. injection R1 as <-. by eapply Hnew.
    + rewrite Er' in R2. injection R2 as <-. intros [O1 O2]. by eapply (Hnew j1); [..|split].
    + exact (H3 j1 j2 k1 k2 r1 r2 Hne L1 L2 R1 R2).
  - rewrite (map_insert_same inserted ks i k k' Hi Eins). by destruct H4 as [H4].
  - lia.
  - intros kx s [->|Hx]%elem_of_insert; [by rewrite Ee|by eapply H6].
Qed.

(** *** A writer inserts its batch *)
Lemma inv_end seq0 d d1 ks i k k' b s s' : inv seq0 d ks -> ks !! i = Some k -> k_pc k = PcEnd b s ->
  k_pc k' = PcUnlink s' -> k_call k' = k_call k -> k_linked k' = k_linked k -> k_start k' = k_start k -> k_end k' = k_end k ->
  writers_upper_ d1 = writers_upper_ d -> last_sequence_ d1 = last_sequence_ d ->
  contents_ok d1 (concat (map inserted (<[i := k']> ks))) -> inv seq0 (SetLastSequence d1 (k_end k)) (<[i := k']> ks).
Proof.
  intros [H1 H2 H3 H4 H5 H6] Hi Epc Epc' Ecall Elk' Es Een Eu El Hct.
  pose proof (proj1 (Forall_forall _ _) H2 k (list_elem_of_lookup_2 _ _ _ Hi)) as Hk.
  assert (k_linked k' = true) as Elk by (rewrite Elk'; apply (ck_linked _ _ _ Hk); by rewrite Epc).
  assert (range_of k = Some (k_start k, k_end k)) as Er by (by apply (range_past _ _ _ Hk); rewrite Epc).
  assert (range_of k' = range_of k) as Er'.
  { rewrite Er. unfold range_of. by rewrite Epc', Elk, Ecall, (ck_write _ _ _ Hk), Epc, Es, Een. }
  destruct (ck_range _ _ _ Hk _ Er) as (R1 & R2 & R3). cbn [fst snd] in *.
  split; cbn [SetLastSequence writers_upper_ last_sequence_]; rewrite ?Eu, ?El.
  - unfold issued in *. rewrite (total_insert cost _ _ _ k' Hi). assert (cost k' = cost k) by (unfold cost; by rewrite Elk', Ecall). lia.
  - apply Forall_insert; [done|]. split; rewrite ?Ecall.
    + apply Hk.
    + rewrite Er'. apply Hk.
    + intros t df E. rewrite E in Epc'. discriminate.
    + intros [E|E]; rewrite E in Epc'; discriminate.
    + by rewrite Elk.
    + by rewrite (ck_write _ _ _ Hk), Epc, Epc'.
    + intros b0 s0 [E|E]; rewrite E in Epc'; discriminate.
    + intros E. rewrite E in Epc'. discriminate.
    + intros s0 E. rewrite E in Epc'. discriminate.
  - assert (forall j kj, <[i := k']> ks !! j = Some kj -> exists kj', ks !! j = Some kj' /\ range_of kj' = range_of kj) as Hl.
    { intros j kj [(<- & <- & _)|(_ & ?)]%list_lookup_insert_Some; [exists k; by rewrite Er'|by exists kj]. }
    intros j1 j2 k1 k2 r1 r2 Hne (k1' & L1 & Q1)%Hl (k2' & L2 & Q2)%Hl. rewrite <- Q1, <- Q2. by eapply H3.
  - by destruct Hct.
  - unfold call_len in R2. destruct (Z.leb_spec (last_sequence_ d) (k_end k)); lia.
  - intros kx s0 [->|Hx]%elem_of_insert Hs0.
    + rewrite Een. destruct (Z.leb_spec (last_sequence_ d) (k_end k)); lia.
    + specialize (H6 kx s0 Hx Hs0). destruct (Z.leb_spec (last_sequence_ d) (k_end k)); lia.
Qed.

(** The numbers of the entries of a writer lie in its range. *)
Lemma inserted_range seq0 u k a : core_ok seq0 u k -> a ∈ inserted k ->
  exists r, range_of k = Some r /\ fst r <= a_seq a < snd r.
Proof.
  intros Hk. unfold inserted. destruct (ended k) as [s|] eqn:Ee; [|by intros ?%elem_of_nil].
  destruct (ok s); [|by intros ?%elem_of_nil]. intros Ha.
  assert (range_of k = Some (k_start k, k_end k)) as Er.
  { pose proof (ck_write _ _ _ Hk) as Hw. pose proof (ck_linked _ _ _ Hk) as Hl. unfold ended in Ee. unfold range_of.
    rewrite Hw. destruct (k_pc k); try discriminate; simpl in Hl; try (by rewrite Hl). by destruct (k_linked k). }
  exists (k_start k, k_end k). split; [done|]. destruct (ck_range _ _ _ Hk _ Er) as (_ & E & _). cbn [fst snd] in *.
  pose proof (additions_seq (call_ops (k_call k)) true (k_start k)) as Hs. rewrite Forall_forall in Hs. specialize (Hs a Ha).
  assert (len (call_ops (k_call k)) = call_len (k_call k)) as El by (unfold call_ops, call_len; by destruct (updates_of _)). lia.
Qed.

Lemma contents_insert seq0 d ks i k k' ops : inv seq0 d ks -> ks !! i = Some k -> 0 <= seq0 ->
  k_pc k = PcEnd (Some (guarded (k_start k) ops)) OK -> updates_of (k_call k) = Some ops ->
  k_pc k' = PcUnlink OK -> k_call k' = k_call k -> k_start k' = k_start k ->
  seq0 + issued ks <= kMaxSequenceNumber - 2 ^ 31 ->
  exists m, InsertIntoVersion ucmp (guarded (k_start k) ops) (mem_ d) (complete_guards_ d) =
      Some (OK, m, complete_guards_ d ++ guards_added (k_start k) (ops ++ concat (map guard_ops ops))) /\
    forall g, contents_ok (with_inserted d m g) (concat (map inserted (<[i := k']> ks))).
Proof.
  intros [H1 H2 H3 [(am & ai & at_ & Hm & Him & Hta & Hp)] H5 H6] Hi H0 Epc Eup Epc' Ecall Est Hb.
  pose proof (proj1 (Forall_forall _ _) H2 k (list_elem_of_lookup_2 _ _ _ Hi)) as Hk.
  assert (range_of k = Some (k_start k, k_end k)) as Er by (by apply (range_past _ _ _ Hk); rewrite Epc).
  destruct (ck_range _ _ _ Hk _ Er) as (R1 & R2 & R3). cbn [fst snd] in *.
  pose proof (ck_call _ _ _ Hk) as Hcall. unfold client_call in Hcall. rewrite Eup in Hcall. destruct Hcall as [Hops Hn].
  unfold call_len in R2. rewrite Eup in R2. destruct (all_guards_spec ops) as [_ Hg].
  assert (inserted k = []) as Ein by (unfold inserted, ended; by rewrite Epc).
  assert (inserted k' = additions true (k_start k) ops) as Ein'.
  { unfold inserted, ended. rewrite Epc', Ecall, Est. unfold call_ops. by rewrite Eup. }
  assert (fresh am (additions true (k_start k) (ops ++ concat (map guard_ops ops)))) as Hfresh.
  { rewrite additions_guarded. intros b a Hbm Ha E.
    assert (b ∈ concat (map inserted ks)) as Hbn by (rewrite <- Hp; apply elem_of_app; by left).
    apply list_elem_of_In, in_concat in Hbn as (l & Hl%list_elem_of_In & Hbl%list_elem_of_In).
    apply list_elem_of_fmap in Hl as (kb & -> & [j Hj]%list_elem_of_lookup).
    destruct (inserted_range seq0 (writers_upper_ d) kb b) as (r & Hr & Hrb); [|done|].
    { eapply Forall_forall; [exact H2|]. by eapply list_elem_of_lookup_2. }
    pose proof (additions_seq ops true (k_start k)) as Hs. rewrite Forall_forall in Hs. specialize (Hs a Ha).
    destruct (decide (i = j)) as [<-|Hne].
    - rewrite Hi in Hj. injection Hj as <-. rewrite Ein in Hbl. by apply elem_of_nil in Hbl.
    - apply (H3 i j k kb _ r Hne Hi Hj Er Hr). unfold overlap. simpl. lia. }
  destruct (run_inserter_rep ucmp (k_start k) (ops ++ concat (map guard_ops ops)) (mem_ d) am (Some (complete_guards_ d)))
    as (m & Em & Hrep); [done|by apply guarded_sized|lia|rewrite len_app; lia|rewrite len_app; lia|exact Hfresh|].
  exists m. split; [unfold InsertIntoVersion, guarded; by rewrite Em|]. intros g. split.
  exists (am ++ additions true (k_start k) ops), ai, at_. cbn [with_inserted mem_ imm_ tables].
  cbn [is_some] in Hrep. rewrite additions_guarded in Hrep. split; [done|]. split; [done|]. split; [done|].
  change (map inserted) with (fmap (M := list) inserted). rewrite list_fmap_insert, Ein'.
  rewrite concat_insert_nil by (by rewrite list_lookup_fmap, Hi, <- Ein). change (fmap inserted ks) with (map inserted ks).
  rewrite <- Hp. rewrite <- !app_assoc. apply Permutation_app_head.
  rewrite (Permutation_app_comm (additions _ _ _)). by rewrite <- app_assoc.
Qed.

(** *** The memtables *)
Lemma inv_contents seq0 d d' ks : inv seq0 d ks -> writers_upper_ d' = writers_upper_ d -> last_sequence_ d' = last_sequence_ d ->
  (forall news, contents_ok d news -> contents_ok d' news) -> inv seq0 d' ks.
Proof. intros [H1 H2 H3 H4 H5 H6] E1 E2 H. split; rewrite ?E1, ?E2; try done. by apply H. Qed.

Lemma contents_switch d log news : imm_ d = None -> contents_ok d news -> contents_ok (switch_memtable d log) news.
Proof.
  intros Ei [(am & ai & at_ & Hm & Him & Ht & Hp)]. rewrite Ei in Him. simpl in Him. subst ai. split.
  exists [], am, at_. split; [apply new_MemTable_rep|]. by split.
Qed.

Lemma contents_flush d imm news : imm_ d = Some imm -> contents_ok d news -> contents_ok (flushed d imm) news.
Proof.
  intros Ei [(am & ai & at_ & Hm & Him & Ht & Hp)]. rewrite Ei in Him. split. exists am, [], (at_ ++ [ai]). split; [done|]. split; [done|].
  split; [apply Forall2_app; [done|by constructor]|]. rewrite <- Hp, concat_app. simpl. rewrite app_nil_r.
  apply Permutation_app_head, Permutation_app_comm.
Qed.

Lemma contents_data d d' news : same_data d d' -> contents_ok d news -> contents_ok d' news.
Proof. intros (_ & _ & E1 & E2 & E3) [H]. split. by rewrite E1, E2, E3. Qed.

Lemma inv_start seq0 d ks c pc : inv seq0 d ks -> client_call c ->
  pc = match c with CallWrite _ _ => PcBegin | CallGetSnapshot => PcSnapshot end ->
  inv seq0 d (ks ++ [{| k_call := c; k_pc := pc; k_linked := false; k_start := 0; k_end := 0 |}]).
Proof.
  intros [H1 H2 H3 H4 H5 H6] Hcall ->. set (k := {| k_call := c |}).
  assert (range_of k = None) as Er by done. assert (ended k = None) as Ee by (by destruct c).
  split.
  - unfold issued in *. rewrite total_app. simpl. replace (cost k) with 0 by done. lia.
  - apply Forall_app. split; [done|]. constructor; [|done]. split; try (by destruct c).
    all: destruct c; intros; destruct_or?; discriminate.
  - assert (forall j kj r, (ks ++ [k]) !! j = Some kj -> range_of kj = Some r -> ks !! j = Some kj) as Hl.
    { intros j kj r [Hj|(_ & (_ & <-)%list_lookup_singleton_Some)]%lookup_app_Some; [done|]. by rewrite Er. }
    intros j1 j2 k1 k2 r1 r2 Hne L1 L2 R1 R2. eapply H3; [exact Hne|by eapply Hl..|done|done].
  - rewrite map_app, concat_app. unfold inserted at 2. simpl. by rewrite Ee, app_nil_r.
  - done.
  - intros kx s [Hx| ->%list_elem_of_singleton]%elem_of_app; [by eapply H6|]. by rewrite Ee.
Qed.

(** *** The cores of the threads *)
Definition cores (st : State) : list Core := map core (st_threads st).

(** The function keeps the core. *)
Definition keeps (f : Writer -> Writer) : Prop :=
  forall w, linked_ (f w) = linked_ w /\ start_sequence_ (f w) = start_sequence_ w /\ end_sequence_ (f w) = end_sequence_ w.

Lemma cores_set_writer i f ts : keeps f -> map core (set_writer i f ts) = map core ts.
Proof.
  intros Hf. unfold set_writer. change (map core) with (fmap (M := list) core).
  rewrite (list_fmap_alter core _ id); [by apply list_alter_id|].
  apply Forall_forall. intros t _. unfold core. simpl. by destruct (Hf (t_writer t)) as (-> & -> & ->).
Qed.

Lemma keeps_links g h : keeps (fun w => with_links w (g w) (h w)).
Proof. done. Qed.
Lemma keeps_imm g : keeps (fun w => with_imm w (g w)).
Proof. done. Qed.
Hint Resolve keeps_links keeps_imm : core.

(** Thread [i] has become [t']. *)
Lemma set_thread i f pc (ts : list Thread) t : ts !! i = Some t ->
  set_pc i pc (set_writer i f ts) = <[i := {| t_call := t_call t; t_pc := pc; t_writer := f (t_writer t) |}]> ts.
Proof.
  intros Hi. unfold set_pc, set_writer. apply list_eq. intros j.
  destruct (decide (i = j)) as [<-|Hne].
  - rewrite !list_lookup_alter_eq, list_lookup_insert_eq by (by eapply lookup_lt_Some). by rewrite Hi.
  - by rewrite !list_lookup_alter_ne, list_lookup_insert_ne.
Qed.

Lemma cores_in_thread i st d f pc t : st_threads st !! i = Some t ->
  cores (in_thread i st d f pc) = <[i := core {| t_call := t_call t; t_pc := pc; t_writer := f (t_writer t) |}]> (cores st).
Proof. intros Hi. unfold cores, in_thread. simpl. rewrite (set_thread i f pc _ t Hi). apply (list_fmap_insert core). Qed.

Lemma cores_unlink i h st : cores (unlink i h st) = cores st.
Proof.
  unfold cores, unlink. destruct (st_threads st !! i) as [t|]; [|done]. cbn [st_threads].
  destruct (next_ _); destruct (prev_ _); try destruct (h && _); rewrite ?cores_set_writer by done; done.
Qed.

Lemma unlink_thread i h st t : st_threads st !! i = Some t ->
  exists t', st_threads (unlink i h st) !! i = Some t' /\ core t' = core t.
Proof.
  intros Hi. pose proof (cores_unlink i h st) as E.
  assert (cores (unlink i h st) !! i = Some (core t)) as Ei by (rewrite E; unfold cores; by rewrite list_lookup_fmap, Hi).
  unfold cores in Ei. rewrite list_lookup_fmap in Ei. apply fmap_Some in Ei as (t' & ? & ->). by exists t'.
Qed.

Lemma enqueue_thread i u st t : st_threads st !! i = Some t ->
  exists t', st_threads (enqueue i u st) !! i = Some t' /\ core t' = {| k_call := t_call t; k_pc := t_pc t; k_linked := true;
      k_start := start_sequence_ (t_writer t); k_end := end_sequence_ (t_writer t) |} /\
    cores (enqueue i u st) = <[i := core t']> (cores st) /\ st_db (enqueue i u st) = with_queue (st_db st) u (Some i).
Proof.
  intros Hi. unfold enqueue. set (ts := set_writer i with_linked (st_threads st)).
  set (t1 := {| t_call := t_call t; t_pc := t_pc t; t_writer := with_linked (t_writer t) |}).
  assert (map core ts = <[i := core t1]> (cores st)) as E.
  { unfold ts, set_writer, cores. rewrite <- (list_fmap_insert core). change (map core) with (fmap (M := list) core). f_equal.
    apply list_eq. intros j. destruct (decide (i = j)) as [<-|Hne].
    - rewrite list_lookup_alter_eq, list_lookup_insert_eq by (by eapply lookup_lt_Some). by rewrite Hi.
    - by rewrite list_lookup_alter_ne, list_lookup_insert_ne. }
  assert (map core (st_threads (enqueue i u st)) = <[i := core t1]> (cores st)) as E'.
  { unfold enqueue. cbn [st_threads]. fold ts.
    destruct (writers_tail_ (st_db st)) as [n|]; [|exact E]. rewrite (cores_set_writer i), (cores_set_writer n) by done. exact E. }
  assert (exists t', st_threads (enqueue i u st) !! i = Some t' /\ core t' = core t1) as (t' & Ht' & Ec).
  { assert (map core (st_threads (enqueue i u st)) !! i = Some (core t1)) as H.
    { rewrite E'. apply list_lookup_insert_eq. unfold cores. rewrite length_map. by eapply lookup_lt_Some. }
    change (map core) with (fmap (M := list) core) in H. rewrite list_lookup_fmap in H.
    apply fmap_Some in H as (t' & ? & ?). by exists t'. }
  exists t'. split; [exact Ht'|]. split; [by rewrite Ec|]. split; [|done]. unfold cores at 1. by rewrite Ec.
Qed.

(** An action that only moves a thread. *)
Lemma inv_move seq0 d d' ks i k k' : inv seq0 d ks -> ks !! i = Some k -> same_data d d' ->
  k_call k' = k_call k -> k_linked k' = k_linked k -> range_of k' = range_of k -> ended k' = ended k ->
  (ended k <> None -> k_start k' = k_start k /\ k_end k' = k_end k) -> write_pc (k_pc k') = write_pc (k_pc k) ->
  ((k_pc k' = PcBegin \/ k_pc k' = PcEnqueue) -> k_linked k = false) ->
  (past_enqueue (k_pc k') = true -> k_linked k = true) ->
  (forall ticket diff, k_pc k' = PcTicket ticket diff -> diff = call_len (k_call k)) ->
  (forall b s, k_pc k' = PcSync b \/ k_pc k' = PcEnd (Some b) s -> exists ops, updates_of (k_call k) = Some ops /\ b = guarded (k_start k') ops) ->
  (k_pc k' = PcLog -> exists ops, updates_of (k_call k) = Some ops) ->
  (forall s, k_pc k' = PcEnd None s -> updates_of (k_call k) = None) ->
  inv seq0 d' (<[i := k']> ks).
Proof.
  intros Hinv Hi Hd Ec El Er Ee Ese Ew H1 H2 H3 H4 H5 H6. apply (inv_data seq0 d); [|done].
  pose proof (proj1 (Forall_forall _ _) (iv_cores _ _ _ Hinv) k (list_elem_of_lookup_2 _ _ _ Hi)) as Hk.
  eapply inv_local; [done|done| |done|unfold cost; by rewrite Ec, El|done..]. split; rewrite ?Ec, ?El, ?Er; try done.
  - apply Hk.
  - apply Hk.
  - by rewrite (ck_write _ _ _ Hk).
Qed.

Lemma issued_move ks i k k' : ks !! i = Some k -> k_call k' = k_call k -> k_linked k' = k_linked k -> issued (<[i := k']> ks) = issued ks.
Proof. intros Hi E1 E2. unfold issued in *. rewrite (total_insert cost _ _ _ k' Hi). unfold cost. rewrite E1, E2. lia. Qed.

Context (ApproximateMemoryUsage : MemTable -> Z) (write_buffer_size : Z).
Notation adv := (advance ucmp ApproximateMemoryUsage write_buffer_size).
Notation do_act := (act ucmp ApproximateMemoryUsage write_buffer_size).

Lemma same_data_refl d : same_data d d.
Proof. done. Qed.

Lemma core_move t t' pc : core t' = core t ->
  core {| t_call := t_call t'; t_pc := pc; t_writer := id (t_writer t') |} = core {| t_call := t_call t; t_pc := pc; t_writer := t_writer t |}.
Proof. unfold core, id. simpl. by intros [= -> _ -> -> ->]. Qed.

Lemma unlink_data i h st : same_data (st_db st) (st_db (unlink i h st)).
Proof. unfold unlink. destruct (st_threads st !! i); [|done]. cbn [st_db]. by case_bool_decide. Qed.

(** Moves a thread with unchanged numbers; the two states are related by
    computation. *)
Local Ltac moves Hinv Hk Epc :=
  eapply inv_move; [exact Hinv|exact Hk|done|done|done|..];
    unfold range_of, ended, core; cbn [k_call k_pc k_linked k_start k_end t_call t_pc t_writer]; rewrite ?Epc; try done;
    try (intros; destruct_or?; discriminate).

Lemma begin_inv seq0 d d' ks force answer s switched : inv seq0 d ks ->
  begin_memtable ApproximateMemoryUsage write_buffer_size force answer d = Some (s, switched, d') -> inv seq0 d' ks.
Proof.
  intros Hinv. unfold begin_memtable. destruct (negb (ok _)); [by intros [= <- <- <-]|]. destruct (_ && _); [by intros [= <- <- <-]|].
  destruct (imm_ d) eqn:Ei; [done|]. destruct (ok answer); intros [= <- <- <-].
  - eapply inv_contents; [exact Hinv|done|done|]. intros news. by apply contents_switch.
  - by eapply inv_data.
Qed.

Lemma advance_inv seq0 st st' answer i : 0 <= seq0 -> inv seq0 (st_db st) (cores st) -> adv answer i st = Some st' ->
  seq0 + issued (cores st') <= kMaxSequenceNumber - 2 ^ 31 -> inv seq0 (st_db st') (cores st').
Proof.
  intros H0 Hinv E Hb. unfold advance in E. destruct (st_threads st !! i) as [t|] eqn:Hi; [|done]. cbn [mbind option_bind] in E.
  assert (cores st !! i = Some (core t)) as Hk by (unfold cores; by rewrite list_lookup_fmap, Hi).
  pose proof (proj1 (Forall_forall _ _) (iv_cores _ _ _ Hinv) _ (list_elem_of_lookup_2 _ _ _ Hk)) as Hok.
  destruct (t_pc t) eqn:Epc.
  - (* SequenceWriteBegin *)
    destruct (begin_memtable _ _ _ _ _) as [[[s switched] d']|] eqn:Eb; [|done]. cbn [mbind option_bind] in E.
    pose proof (begin_inv _ _ _ _ _ _ _ _ Hinv Eb) as Hinv'.
    assert (linked_ (t_writer t) = false) as Elk by (apply (ck_unlinked _ _ _ Hok); by left).
    destruct (ok s); injection E as <-; rewrite (cores_in_thread _ _ _ _ _ _ Hi) in *; cbn [in_thread st_db].
    + moves Hinv' Hk Epc.
    + moves Hinv' Hk Epc. cbn [id]. by rewrite Elk.
  - (* the queue *)
    injection E as <-. rewrite (batch_count_len (t_call t)) in * by apply Hok.
    set (upper := u64 _) in *. destruct (enqueue_thread i upper st t Hi) as (t' & Hi' & Ec & Ecs & Ed).
    rewrite (cores_in_thread _ _ _ _ _ _ Hi'), Ecs, list_insert_insert_eq in *. cbn [in_thread st_db].
    assert (t_call t' = t_call t) as Ecall by (by injection Ec). assert (linked_ (t_writer t') = true) as Elk by (by injection Ec).
    eapply inv_enqueue; [exact Hinv|exact Hk|done|done|done|done|done|done|].
    assert (kMaxSequenceNumber < 2 ^ 64) by done. lia.
  - (* the ticket *)
    assert (diff = call_len (t_call t)) as -> by (by eapply (ck_ticket _ _ _ Hok)).
    assert (linked_ (t_writer t) = true) as Elk by (apply (ck_linked _ _ _ Hok); cbn; by rewrite Epc).
    destruct (backup_in_progress_ (st_db st)); injection E as <-; rewrite (cores_in_thread _ _ _ _ _ _ Hi) in *; cbn [in_thread st_db].
    + moves Hinv Hk Epc. intros ? ? [= _ <-]. done.
    + unfold updates_of. pose proof (ck_write _ _ _ Hok) as Hw. cbn in Hw. rewrite Epc in Hw. destruct (t_call t) as [[ops|] sync|] eqn:Ecall; [..|done].
      * moves Hinv Hk Epc; rewrite Ecall; [done|]. intros _. by exists ops.
      * moves Hinv Hk Epc; by rewrite Ecall.
  - (* the log *)
    destruct (updates_of (t_call t)) as [ops|] eqn:Eu; [|done]. cbn [mbind option_bind] in E.
    pose proof (ck_call _ _ _ Hok) as Hcall. unfold client_call in Hcall. cbn in Hcall. rewrite Eu in Hcall. destruct Hcall as [Hops Hn].
    rewrite number_batch_ok in E by done. cbn [mbind option_bind ok OK negb] in E. injection E as <-.
    assert (linked_ (t_writer t) = true) as Elk by (apply (ck_linked _ _ _ Hok); cbn; by rewrite Epc).
    rewrite (cores_in_thread _ _ _ _ _ _ Hi) in *. cbn [in_thread st_db].
    eapply (inv_data seq0 (st_db st)); [|by destruct (ok answer)]. destruct (ok answer && sync_of (t_call t)).
    + moves Hinv Hk Epc. intros b s [[= <-]|[=]]. by exists ops.
    + moves Hinv Hk Epc. intros b s [[=]|[= <- _]]. by exists ops.
  - (* the sync *)
    assert (linked_ (t_writer t) = true) as Elk by (apply (ck_linked _ _ _ Hok); cbn; by rewrite Epc).
    injection E as <-. rewrite (cores_in_thread _ _ _ _ _ _ Hi) in *. cbn [in_thread st_db].
    moves Hinv Hk Epc. intros b' s [[=]|[= <- _]]. apply (ck_batch _ _ _ Hok b OK). by left.
  - (* the insertion *)
    assert (linked_ (t_writer t) = true) as Elk by (apply (ck_linked _ _ _ Hok); cbn; by rewrite Epc).
    assert (forall s' d', writers_upper_ d' = writers_upper_ (st_db st) -> last_sequence_ d' = last_sequence_ (st_db st) ->
      contents_ok d' (concat (map inserted (<[i := core {| t_call := t_call t; t_pc := PcUnlink s'; t_writer := t_writer t |}]> (cores st)))) ->
      st' = in_thread i st (SetLastSequence d' (end_sequence_ (t_writer t))) id (PcUnlink s') -> inv seq0 (st_db st') (cores st')) as Hend.
    { intros s' d' E1 E2 Hct ->. rewrite (cores_in_thread _ _ _ _ _ _ Hi) in *. cbn [in_thread st_db].
      change (end_sequence_ (t_writer t)) with (k_end (core t)). eapply inv_end; [exact Hinv|exact Hk|done..|exact Hct]. }
    assert (forall d', same_data (st_db st) d' -> inserted (core {| t_call := t_call t; t_pc := PcUnlink s; t_writer := t_writer t |}) = [] ->
      st' = in_thread i st (SetLastSequence d' (end_sequence_ (t_writer t))) id (PcUnlink s) -> inv seq0 (st_db st') (cores st')) as Hnone.
    { intros d' Hd Hins ->. eapply Hend; [apply Hd|apply Hd| |done].
      rewrite (map_insert_same inserted (cores st) i (core t)); [|exact Hk|].
      - eapply contents_data; [exact Hd|]. apply Hinv.
      - rewrite Hins. unfold inserted, ended, core. cbn. by rewrite Epc. }
    destruct b as [b|].
    + destruct (ck_batch _ _ _ Hok b s ltac:(right; exact Epc)) as (ops & Eu & Eb). destruct s as [msg|]; cbn [ok] in E.
      { cbn [mbind option_bind ok] in E. injection E as E. eapply Hnone; [| |by rewrite <- E]; done. }
      set (k' := core {| t_call := t_call t; t_pc := PcUnlink OK; t_writer := t_writer t |}).
      destruct (contents_insert seq0 (st_db st) (cores st) i (core t) k' ops Hinv Hk H0) as (m & Em & Hct); try done.
      * cbn. by rewrite Epc, Eb.
      * assert (exists s' d', cores st' = <[i := core {| t_call := t_call t; t_pc := PcUnlink s'; t_writer := t_writer t |}]> (cores st) /\ d' = st_db st') as (s' & d' & Ecs & _).
        { destruct (InsertIntoVersion _ _ _ _) as [[[s2 m2] g2]|]; [|done]. cbn [mbind option_bind] in E. injection E as <-.
          eexists _, _. split; [|done]. by apply cores_in_thread. }
        rewrite Ecs in Hb. by rewrite (issued_move (cores st) i (core t)) in Hb.
      * rewrite Eb, Em in E. cbn [mbind option_bind ok OK] in E. injection E as E.
        eapply (Hend OK); [| |apply (Hct (complete_guards_ (st_db st) ++ guards_added (k_start (core t)) (ops ++ concat (map guard_ops ops))))|by rewrite <- E]; done.
    + pose proof (ck_null _ _ _ Hok s Epc) as Eu. cbn in E. injection E as E. eapply Hnone; [| |by rewrite <- E].
      * by destruct (ok s).
      * unfold inserted. cbn. destruct (ok s); [|done]. unfold call_ops. cbn in Eu. by rewrite Eu.
  - (* leaving the queue *)
    assert (linked_ (t_writer t) = true) as Elk by (apply (ck_linked _ _ _ Hok); cbn; by rewrite Epc).
    injection E as <-. destruct (unlink_thread i true st t Hi) as (t' & Hi' & Ec).
    rewrite (cores_in_thread _ _ _ _ _ _ Hi'), cores_unlink in *.
    rewrite (core_move t t' _ Ec) in *. cbn [in_thread st_db]. eapply inv_data; [|apply unlink_data].
    moves Hinv Hk Epc.
  - (* imm_ *)
    assert (linked_ (t_writer t) = true) as Elk by (apply (ck_linked _ _ _ Hok); cbn; by rewrite Epc).
    destruct (has_imm_ _ && _); injection E as <-; rewrite (cores_in_thread _ _ _ _ _ _ Hi) in *; cbn [in_thread st_db].
    + eapply (inv_data seq0 (st_db st)); [|done]. moves Hinv Hk Epc. cbn. by rewrite Elk.
    + moves Hinv Hk Epc. cbn. by rewrite Elk.
  - done.
  - injection E as <-. rewrite (cores_in_thread _ _ _ _ _ _ Hi) in *. cbn [in_thread st_db]. moves Hinv Hk Epc.
  - injection E as <-. destruct (enqueue_thread i (writers_upper_ (st_db st)) st t Hi) as (t' & Hi' & Ec & Ecs & Ed).
    rewrite (cores_in_thread _ _ _ _ _ _ Hi'), Ecs, list_insert_insert_eq in *. cbn [in_thread st_db].
    pose proof (ck_write _ _ _ Hok) as Hw. cbn in Hw. rewrite Epc in Hw. assert (t_call t' = t_call t) as Ecall by (by injection Ec).
    eapply (inv_data seq0 (st_db st)); [|done]. eapply inv_local; [exact Hinv|exact Hk| |..];
      unfold cost, range_of, ended, core; cbn [k_call k_pc k_linked k_start k_end t_call t_pc t_writer]; rewrite ?Ecall, ?Hw, ?andb_false_r, ?Epc; try done.
    split; cbn [k_call k_pc k_linked k_start k_end past_enqueue write_pc]; try (intros; destruct_or?; discriminate); [apply Hok| |done].
    unfold range_of. cbn [k_call k_linked]. by rewrite Hw, andb_false_r.
  - destruct (prev_ _); [done|]. injection E as <-. destruct (unlink_thread i false st t Hi) as (t' & Hi' & Ec).
    rewrite (cores_in_thread _ _ _ _ _ _ Hi'), cores_unlink in *.
    rewrite (core_move t t' _ Ec) in *. cbn [in_thread st_db]. eapply inv_data; [|apply unlink_data].
    moves Hinv Hk Epc.
  - destruct (has_imm_ _); injection E as <-; rewrite (cores_in_thread _ _ _ _ _ _ Hi) in *; cbn [in_thread st_db].
    + eapply (inv_data seq0 (st_db st)); [|done]. moves Hinv Hk Epc.
    + moves Hinv Hk Epc.
  - done.
Qed.

Lemma act_inv seq0 st st' a : 0 <= seq0 -> inv seq0 (st_db st) (cores st) -> action_ok a -> do_act a st = Some st' ->
  seq0 + issued (cores st') <= kMaxSequenceNumber - 2 ^ 31 -> inv seq0 (st_db st') (cores st').
Proof.
  intros H0 Hinv Ha E Hb. destruct a as [c|i answer|answer|on]; cbn in E.
  - injection E as <-. unfold cores in *. cbn [st_threads st_db] in *. rewrite map_app in *. by apply inv_start.
  - by eapply advance_inv.
  - destruct (imm_ (st_db st)) as [imm|] eqn:Ei; [|done]. cbn in E. injection E as <-. cbn [st_db]. unfold cores in *. cbn [st_threads] in *.
    destruct (ok answer); [|by eapply inv_data]. eapply inv_contents; [exact Hinv|done|done|]. intros news. by apply contents_flush.
  - injection E as <-. by eapply inv_data.
Qed.

(** *** The numbers handed out only grow *)

(** Thread [i] alone has changed; it runs the same call and stays linked. *)
Definition grows (i : nat) (st st' : State) : Prop :=
  exists t k', st_threads st !! i = Some t /\ cores st' = <[i := k']> (cores st) /\ k_call k' = t_call t /\
    (linked_ (t_writer t) = true -> k_linked k' = true).

Lemma grows_in_thread i st t d f pc : st_threads st !! i = Some t -> (forall w, linked_ (f w) = linked_ w) -> grows i st (in_thread i st d f pc).
Proof.
  intros Hi Hf. exists t. eexists. split; [done|]. split; [by apply cores_in_thread|]. split; [done|]. cbn. by rewrite Hf.
Qed.

Lemma grows_enqueue i u st t f pc : st_threads st !! i = Some t -> (forall w, linked_ (f w) = linked_ w) ->
  grows i st (in_thread i (enqueue i u st) (st_db (enqueue i u st)) f pc).
Proof.
  intros Hi Hf. destruct (enqueue_thread i u st t Hi) as (t' & Hi' & Ec & Ecs & _). exists t. eexists. split; [done|].
  split; [rewrite (cores_in_thread _ _ _ _ _ _ Hi'), Ecs; apply list_insert_insert_eq|]. split; [by injection Ec|]. cbn.
  rewrite Hf. by injection Ec.
Qed.

Lemma grows_unlink i h st t pc : st_threads st !! i = Some t -> grows i st (in_thread i (unlink i h st) (st_db (unlink i h st)) id pc).
Proof.
  intros Hi. destruct (unlink_thread i h st t Hi) as (t' & Hi' & Ec). exists t. eexists. split; [done|].
  split; [by rewrite (cores_in_thread _ _ _ _ _ _ Hi'), cores_unlink|]. rewrite (core_move t t' _ Ec). by split.
Qed.

Lemma advance_grows st st' answer i : adv answer i st = Some st' -> grows i st st'.
Proof.
  unfold advance. destruct (st_threads st !! i) as [t|] eqn:Hi; [|done]. cbn [mbind option_bind].
  destruct (t_pc t); intros E; repeat case_match; simplify_option_eq; repeat case_match; simplify_option_eq;
    by (eapply grows_in_thread || eapply grows_enqueue || eapply grows_unlink).
Qed.

Lemma issued_mono st st' a : do_act a st = Some st' -> issued (cores st) <= issued (cores st').
Proof.
  destruct a as [c|i answer|answer|on]; cbn; intros E.
  - injection E as <-. unfold cores. cbn [st_threads]. unfold issued in *. rewrite map_app, total_app. simpl. unfold cost at 3. simpl. lia.
  - destruct (advance_grows _ _ _ _ E) as (t & k' & Hi & -> & Ec & El).
    assert (cores st !! i = Some (core t)) as Hk by (unfold cores; by rewrite list_lookup_fmap, Hi).
    unfold issued in *. rewrite (total_insert cost _ _ _ k' Hk). assert (0 <= call_len (t_call t)) by (unfold call_len; destruct (updates_of _); [apply len_nonneg|lia]).
    unfold cost. cbn [core k_linked k_call]. rewrite Ec. destruct (linked_ (t_writer t)); [rewrite El by done; lia|].
    cbn [andb]. destruct (_ && _); lia.
  - destruct (imm_ _); [|done]. cbn in E. by injection E as <-.
  - by injection E as <-.
Qed.

Lemma opened_inv seq0 log : 0 <= seq0 -> inv seq0 (st_db (opened seq0 log)) (cores (opened seq0 log)).
Proof.
  intros H0. split; cbn [opened st_db cores st_threads map]; [simpl; lia|done|done| |simpl; lia|by intros k s ?%elem_of_nil].
  split. exists [], [], []. split; [apply new_MemTable_rep|]. by split.
Qed.

Lemma reachable_inv seq0 log st : 0 <= seq0 -> reachable ucmp ApproximateMemoryUsage write_buffer_size (opened seq0 log) st ->
  seq0 + issued (cores st) <= kMaxSequenceNumber - 2 ^ 31 -> inv seq0 (st_db st) (cores st).
Proof.
  intros H0. induction 1 as [|st a st' _ IH Ha E]; intros Hb; [by apply opened_inv|].
  pose proof (issued_mono _ _ _ E). eapply act_inv; [done|apply IH; lia|done..].
Qed.
End Contents.

(** ** The queue *)

(** The links of the members of the queue; no value for other addresses. *)
Definition links := nat -> option (option nat * option nat).

(** Both links of every member point to members, which point back; the tail is
    a member without a successor, and following prev_ ends. *)
Record queue_ok (q : links) (tail : option nat) : Prop := {
  q_prev i p n : q i = Some (Some p, n) -> exists p', q p = Some (p', Some i);
  q_next i p n : q i = Some (p, Some n) -> exists n', q n = Some (Some i, n');
  q_tail i : tail = Some i -> exists p, q i = Some (p, None);
  q_rank : exists (rank : nat -> nat) bound, (forall i x, q i = Some x -> (rank i < bound)%nat) /\
    (forall i p n, q i = Some (Some p, n) -> (rank p < rank i)%nat);
}.

Definition joined (q : links) (i : nat) (tail : option nat) : links := fun j =>
  if decide (j = i) then Some (tail, None)
  else if decide (tail = Some j) then (fun x => (fst x, Some i)) <$> q j else q j.

Definition unlinked (q : links) (i : nat) (p n : option nat) : links := fun j =>
  if decide (j = i) then None
  else (fun x => (if decide (n = Some j) then p else fst x, if decide (p = Some j) then n else snd x)) <$> q j.

Lemma queue_ok_ext q q' tail : queue_ok q tail -> (forall i, q' i = q i) -> queue_ok q' tail.
Proof.
  intros [H1 H2 H3 H4] E. split.
  - intros i p n. rewrite E. intros H. rewrite E. by eapply H1.
  - intros i p n. rewrite E. intros H. rewrite E. by eapply H2.
  - intros i H. rewrite E. by apply H3.
  - destruct H4 as (r & b & Hb & Hr). exists r, b. split; intros *; rewrite E; eauto.
Qed.

Lemma queue_ok_empty : queue_ok (fun _ => None) None.
Proof. split; try done. by exists (fun _ => 0%nat), 0%nat. Qed.

Lemma queue_join q i tail : q i = None -> queue_ok q tail -> queue_ok (joined q i tail) (Some i).
Proof.
  intros Hi [H1 H2 H3 (r & b & Hb & Hr)]. unfold joined. split.
  - intros j p n. destruct (decide (j = i)) as [->|Hj].
    + intros [= -> <-]. destruct (H3 p eq_refl) as [pp Ep]. exists pp. rewrite decide_False by congruence. by rewrite decide_True, Ep by done.
    + intros H. assert (exists n', q j = Some (Some p, n')) as [n' Ej].
      { destruct (decide (tail = Some j)); [|by exists n]. apply fmap_Some in H as ([a c] & E & [= -> ->]). by exists c. }
      destruct (H1 _ _ _ Ej) as [p' Ep]. exists p'. rewrite decide_False by congruence. rewrite decide_False; [done|].
      intros ->. destruct (H3 p eq_refl) as [x Ex]. congruence.
  - intros j p n. destruct (decide (j = i)) as [->|Hj]; [done|]. destruct (decide (tail = Some j)) as [->|Ht].
    + intros ([a c] & E & [= <- <-])%fmap_Some. exists None. by rewrite decide_True.
    + intros H. destruct (H2 _ _ _ H) as [n' En]. assert (n <> i) by congruence. rewrite decide_False by done.
      destruct (decide (tail = Some n)); [|by exists n']. rewrite En. eexists. done.
  - intros j [= <-]. exists tail. by rewrite decide_True.
  - exists (fun j => if decide (j = i) then b else r j), (S b). split.
    + intros j x. destruct (decide (j = i)); [lia|]. destruct (decide (tail = Some j)).
      * intros (y & E & _)%fmap_Some. specialize (Hb j y E). lia.
      * intros E. specialize (Hb j x E). lia.
    + intros j p n. destruct (decide (j = i)) as [->|Hj].
      * intros [= -> _]. destruct (H3 p eq_refl) as [x Ex]. specialize (Hb p _ Ex). rewrite decide_False by congruence. lia.
      * intros H. assert (exists n', q j = Some (Some p, n')) as [n' Ej].
        { destruct (decide (tail = Some j)); [|by exists n]. apply fmap_Some in H as ([a c] & E & [= -> ->]). by exists c. }
        specialize (Hr _ _ _ Ej). destruct (H1 _ _ _ Ej) as [p' Ep]. rewrite decide_False by congruence. lia.
Qed.

Lemma queue_leave q i p n tail : q i = Some (p, n) -> queue_ok q tail ->
  queue_ok (unlinked q i p n) (if bool_decide (tail = Some i) then None else tail).
Proof.
  intros Hi [H1 H2 H3 (r & b & Hb & Hr)]. unfold unlinked.
  assert (forall j a c, q j = Some (Some a, c) -> a <> j) as Hself by (intros j a c E ->; specialize (Hr _ _ _ E); lia).
  assert (forall j c a, q j = Some (c, Some a) -> a <> j) as Hself2.
  { intros j c a E ->. destruct (H2 _ _ _ E) as [x Ex]. by eapply Hself. }
  split.
  - intros j a c. destruct (decide (j = i)) as [|Hj]; [done|]. intros ([a0 c0] & Ej & [= Ea Ec])%fmap_Some. cbn [fst snd] in *.
    destruct (decide (n = Some j)) as [->|Hn].
    + subst p. destruct (H1 _ _ _ Hi) as [x Ex]. assert (a <> i) by (by eapply Hself). rewrite decide_False by done. rewrite Ex. cbn.
      eexists. by rewrite (decide_True (P := Some a = Some a)).
    + subst a0. destruct (H1 _ _ _ Ej) as [x Ex]. destruct (decide (a = i)) as [->|Hai]; [congruence|]. rewrite Ex. cbn.
      eexists. rewrite (decide_False (P := p = Some a)); [done|]. intros ->. destruct (H1 _ _ _ Hi). congruence.
  - intros j a c. destruct (decide (j = i)) as [|Hj]; [done|]. intros ([a0 c0] & Ej & [= Ea Ec])%fmap_Some. cbn [fst snd] in *.
    destruct (decide (p = Some j)) as [->|Hp].
    + subst n. destruct (H2 _ _ _ Hi) as [x Ex]. assert (c <> i) by (by eapply Hself2). rewrite decide_False by done. rewrite Ex. cbn.
      eexists. by rewrite (decide_True (P := Some c = Some c)).
    + subst c0. destruct (H2 _ _ _ Ej) as [x Ex]. destruct (decide (c = i)) as [->|Hci]; [congruence|]. rewrite Ex. cbn.
      eexists. rewrite (decide_False (P := n = Some c)); [done|]. intros ->. destruct (H2 _ _ _ Hi). congruence.
  - intros j. case_bool_decide as Ht; [done|]. intros ->. destruct (H3 j eq_refl) as [x Ex].
    rewrite decide_False by congruence. rewrite Ex. cbn. eexists. rewrite (decide_False (P := p = Some j)); [done|].
    intros ->. destruct (H1 _ _ _ Hi). congruence.
  - exists r, b. split.
    + intros j x. destruct (decide (j = i)); [done|]. intros (y & E & _)%fmap_Some. by eapply Hb.
    + intros j a c. destruct (decide (j = i)) as [|Hj]; [done|]. intros ([a0 c0] & Ej & [= Ea Ec])%fmap_Some. cbn [fst snd] in *.
      destruct (decide (n = Some j)) as [->|Hn]; [|subst a0; by eapply Hr].
      subst p. destruct (H2 _ _ _ Hi) as [x Ex]. pose proof (Hr _ _ _ Hi). pose proof (Hr _ _ _ Ex). lia.
Qed.

Definition in_queue (pc : Pc) : bool :=
  match pc with PcTicket _ _ | PcLog | PcSync _ | PcEnd _ _ | PcUnlink _ | PcWaiting _ => true | _ => false end.
Definition before_queue (pc : Pc) : bool :=
  match pc with PcBegin | PcEnqueue | PcSnapshot | PcWaitOut _ => true | _ => false end.

Definition thread_links (t : Thread) : option (option nat * option nat) :=
  if in_queue (t_pc t) then Some (prev_ (t_writer t), next_ (t_writer t)) else None.
Definition queue_of (st : State) : links := fun i => st_threads st !! i ≫= thread_links.

Record queue_inv (st : State) : Prop := {
  qi_ok : queue_ok (queue_of st) (writers_tail_ (st_db st));
  qi_fresh i t : st_threads st !! i = Some t -> before_queue (t_pc t) = true -> prev_ (t_writer t) = None;
}.

Section Queue.
Context (ucmp : Comparator) (ApproximateMemoryUsage : MemTable -> Z) (write_buffer_size : Z).
Notation adv := (advance ucmp ApproximateMemoryUsage write_buffer_size).
Notation do_act := (act ucmp ApproximateMemoryUsage write_buffer_size).

Lemma lookup_set_writer j f ts i : set_writer j f ts !! i =
  if decide (i = j) then (fun t => {| t_call := t_call t; t_pc := t_pc t; t_writer := f (t_writer t) |}) <$> ts !! i else ts !! i.
Proof. unfold set_writer. destruct (decide (i = j)) as [->|]; [by rewrite list_lookup_alter_eq|by rewrite list_lookup_alter_ne]. Qed.

Lemma lookup_in_thread i st d f pc t j : st_threads st !! i = Some t -> st_threads (in_thread i st d f pc) !! j =
  if decide (j = i) then Some {| t_call := t_call t; t_pc := pc; t_writer := f (t_writer t) |} else st_threads st !! j.
Proof.
  intros Hi. unfold in_thread. cbn [st_threads]. rewrite (set_thread i f pc _ t Hi).
  destruct (decide (j = i)) as [->|]; [apply list_lookup_insert_eq; by eapply lookup_lt_Some|by rewrite list_lookup_insert_ne].
Qed.

(** A thread moves without touching the links. *)
Lemma queue_move i st t d f pc : queue_inv st -> st_threads st !! i = Some t ->
  writers_tail_ d = writers_tail_ (st_db st) -> (forall w, prev_ (f w) = prev_ w /\ next_ (f w) = next_ w) ->
  in_queue pc = in_queue (t_pc t) -> (before_queue pc = true -> before_queue (t_pc t) = true) -> queue_inv (in_thread i st d f pc).
Proof.
  intros [Hq Hf] Hi Hd Hlinks Hin Hbe. split.
  - cbn [in_thread st_db]. rewrite Hd. eapply queue_ok_ext; [exact Hq|]. intros j. unfold queue_of.
    rewrite (lookup_in_thread _ _ _ _ _ _ _ Hi). destruct (decide (j = i)) as [->|]; [|done]. rewrite Hi. cbn. unfold thread_links. cbn.
    rewrite Hin. by destruct (Hlinks (t_writer t)) as [-> ->].
  - intros j tj. rewrite (lookup_in_thread _ _ _ _ _ _ _ Hi). destruct (decide (j = i)) as [->|]; [|by apply Hf].
    intros [= <-]. cbn. intros H. destruct (Hlinks (t_writer t)) as [-> _]. apply (Hf i t Hi). by apply Hbe.
Qed.

Lemma queue_enqueue i u st t f pc : queue_inv st -> st_threads st !! i = Some t -> before_queue (t_pc t) = true ->
  (forall w, prev_ (f w) = prev_ w /\ next_ (f w) = next_ w) -> in_queue pc = true -> before_queue pc = false ->
  queue_inv (in_thread i (enqueue i u st) (st_db (enqueue i u st)) f pc).
Proof.
  intros [Hq Hf] Hi Hbe Hlinks Hin Hbe'. pose proof (Hf i t Hi Hbe) as Hp.
  assert (queue_of st i = None) as Hni by (unfold queue_of, thread_links; rewrite Hi; cbn; by destruct (t_pc t)).
  assert (writers_tail_ (st_db st) <> Some i) as Hti.
  { intros E. destruct (q_tail _ _ Hq i E) as [p Ep]. congruence. }
  assert (forall j, j <> i -> st_threads (enqueue i u st) !! j =
    if decide (writers_tail_ (st_db st) = Some j)
    then (fun t => {| t_call := t_call t; t_pc := t_pc t; t_writer := with_links (t_writer t) (prev_ (t_writer t)) (Some i) |}) <$> st_threads st !! j
    else st_threads st !! j) as Hj.
  { intros j Hji. unfold enqueue. cbn [st_threads]. destruct (writers_tail_ (st_db st)) as [x|].
    - rewrite lookup_set_writer, decide_False, lookup_set_writer by done. rewrite lookup_set_writer, (decide_False (P := j = i)) by done.
      destruct (decide (j = x)) as [->|]; [by rewrite decide_True|by rewrite decide_False by congruence].
    - rewrite lookup_set_writer, decide_False by done. by rewrite decide_False. }
  assert (exists ti, st_threads (enqueue i u st) !! i = Some ti /\ prev_ (t_writer ti) = writers_tail_ (st_db st) /\ next_ (t_writer ti) = None)
    as (ti & Eti & Eprev & Enext).
  { unfold enqueue. cbn [st_threads]. destruct (writers_tail_ (st_db st)) as [x|].
    - rewrite lookup_set_writer, decide_True, lookup_set_writer, decide_False by congruence. rewrite lookup_set_writer, decide_True, Hi by done. by eexists.
    - rewrite lookup_set_writer, decide_True, Hi by done. eexists. split; [done|]. by split. }
  split.
  - cbn [in_thread st_db]. eapply queue_ok_ext; [exact (queue_join _ i _ Hni Hq)|]. intros j. unfold queue_of at 1.
    rewrite (lookup_in_thread _ _ _ _ _ _ _ Eti). unfold joined. destruct (decide (j = i)) as [->|Hji].
    + cbn. unfold thread_links. cbn. rewrite Hin. destruct (Hlinks (t_writer ti)) as [-> ->]. by rewrite Eprev, Enext.
    + rewrite Hj by done. destruct (decide (writers_tail_ (st_db st) = Some j)); [|done]. unfold queue_of.
      destruct (st_threads st !! j) as [tj|]; [|done]. cbn. unfold thread_links. cbn. by destruct (in_queue (t_pc tj)).
  - intros j tj. rewrite (lookup_in_thread _ _ _ _ _ _ _ Eti). destruct (decide (j = i)) as [->|Hji]; [by intros [= <-]; cbn; rewrite Hbe'|].
    rewrite Hj by done. destruct (decide _); [|by apply Hf]. intros (t0 & E0 & ->)%fmap_Some. cbn. exact (Hf j t0 E0).
Qed.

(** The links of the other threads after a writer has left. *)
Lemma unlink_other i h st t j : st_threads st !! i = Some t -> j <> i ->
  let p := prev_ (t_writer t) in let n := next_ (t_writer t) in
  match st_threads st !! j with
  | Some tj => exists tj', st_threads (unlink i h st) !! j = Some tj' /\ t_pc tj' = t_pc tj /\
      prev_ (t_writer tj') = (if decide (n = Some j) then p else prev_ (t_writer tj)) /\
      next_ (t_writer tj') = (if decide (p = Some j) then n else next_ (t_writer tj))
  | None => st_threads (unlink i h st) !! j = None
  end.
Proof.
  intros Hi Hj p n. unfold unlink. rewrite Hi. cbn [st_threads]. fold p n.
  set (ts1 := match p with Some _ => _ | None => _ end).
  assert (match st_threads st !! j with
    | Some tj => exists tj', ts1 !! j = Some tj' /\ t_pc tj' = t_pc tj /\ prev_ (t_writer tj') = prev_ (t_writer tj) /\
        next_ (t_writer tj') = (if decide (p = Some j) then n else next_ (t_writer tj))
    | None => ts1 !! j = None end) as H1.
  { unfold ts1. destruct p as [x|]; [|destruct (st_threads st !! j); [by eexists|done]].
    destruct (h && has_imm_ (t_writer t)); rewrite ?lookup_set_writer, ?(decide_False (P := j = i)) by done;
      rewrite ?lookup_set_writer; destruct (st_threads st !! j) as [tj|]; destruct (decide (j = x)) as [<-|]; cbn; try done;
      (eexists; split; [done|]; split; [done|]; split; [done|]);
      rewrite ?(decide_True (P := Some j = Some j)), ?decide_False by congruence; done. }
  destruct n as [y|].
  - rewrite lookup_set_writer. destruct (st_threads st !! j) as [tj|].
    + destruct H1 as (tj' & -> & E1 & E2 & E3). destruct (decide (j = y)) as [<-|].
      * eexists. split; [done|]. split; [done|]. rewrite decide_True by done. by split.
      * exists tj'. rewrite (decide_False (P := Some y = Some j)) by congruence. done.
    + rewrite H1. by destruct (decide (j = y)).
  - destruct (st_threads st !! j) as [tj|]; [|done]. destruct H1 as (tj' & -> & E1 & E2 & E3). by exists tj'.
Qed.

Lemma queue_unlink i h st t pc : queue_inv st -> st_threads st !! i = Some t -> in_queue (t_pc t) = true ->
  in_queue pc = false -> before_queue pc = false -> queue_inv (in_thread i (unlink i h st) (st_db (unlink i h st)) id pc).
Proof.
  intros [Hq Hf] Hi Hin Hin' Hbe'.
  assert (queue_of st i = Some (prev_ (t_writer t), next_ (t_writer t))) as Hqi by (unfold queue_of, thread_links; rewrite Hi; cbn; by rewrite Hin).
  destruct (unlink_thread i h st t Hi) as (t' & Hi' & _).
  assert (writers_tail_ (st_db (unlink i h st)) = if bool_decide (writers_tail_ (st_db st) = Some i) then None else writers_tail_ (st_db st)) as Et.
  { unfold unlink. rewrite Hi. cbn [st_db]. by case_bool_decide. }
  split.
  - cbn [in_thread st_db]. rewrite Et. eapply queue_ok_ext; [exact (queue_leave _ i _ _ _ Hqi Hq)|]. intros j. unfold queue_of at 1.
    rewrite (lookup_in_thread _ _ _ _ _ _ _ Hi'). unfold unlinked. destruct (decide (j = i)) as [->|Hj].
    + cbn. unfold thread_links. cbn. by rewrite Hin'.
    + pose proof (unlink_other i h st t j Hi Hj) as Ho. cbv zeta in Ho. unfold queue_of. destruct (st_threads st !! j) as [tj|]; [|by rewrite Ho].
      destruct Ho as (tj' & -> & E1 & E2 & E3). cbn. unfold thread_links. rewrite E1. destruct (in_queue (t_pc tj)); [|done]. cbn. by rewrite E2, E3.
  - intros j tj. rewrite (lookup_in_thread _ _ _ _ _ _ _ Hi'). destruct (decide (j = i)) as [->|Hj]; [by intros [= <-]; cbn; rewrite Hbe'|].
    pose proof (unlink_other i h st t j Hi Hj) as Ho. cbv zeta in Ho. destruct (st_threads st !! j) as [tj0|] eqn:Ej; [|by rewrite Ho].
    destruct Ho as (tj' & -> & E1 & E2 & _). intros [= <-]. rewrite E1, E2. intros Hb.
    destruct (decide _) as [En|]; [|by eapply Hf]. rewrite En in Hqi. destruct (q_next _ _ Hq _ _ _ Hqi) as [n' E].
    unfold queue_of, thread_links in E. rewrite Ej in E. cbn in E. by destruct (t_pc tj0).
Qed.

Lemma advance_queue st st' answer i : queue_inv st -> adv answer i st = Some st' -> queue_inv st'.
Proof.
  intros Hq. unfold advance. destruct (st_threads st !! i) as [t|] eqn:Hi; [|done]. cbn [mbind option_bind].
  destruct (t_pc t) eqn:Epc; intros E.
  - unfold begin_memtable in E. repeat case_match; simplify_option_eq; repeat case_match; simplify_option_eq; by eapply queue_move; rewrite ?Epc.
  - injection E as <-. by eapply queue_enqueue; rewrite ?Epc.
  - case_match; injection E as <-; eapply queue_move; rewrite ?Epc; try done. all: by case_match.
  - simplify_option_eq. repeat case_match; simplify_option_eq; eapply queue_move; rewrite ?Epc; try done; by repeat case_match.
  - injection E as <-. by eapply queue_move; rewrite ?Epc.
  - destruct (match b with Some _ => _ | None => _ end) as [[s' d']|] eqn:Eb; [|done]. cbn [mbind option_bind] in E. injection E as <-.
    assert (writers_tail_ d' = writers_tail_ (st_db st)) as Et by (repeat case_match; simplify_option_eq; repeat case_match; by simplify_eq).
    eapply queue_move; rewrite ?Epc; try done. by destruct (ok s').
  - injection E as <-. by eapply queue_unlink; rewrite ?Epc.
  - case_match; injection E as <-; by eapply queue_move; rewrite ?Epc.
  - done.
  - injection E as <-. by eapply queue_move; rewrite ?Epc.
  - injection E as <-. by eapply queue_enqueue; rewrite ?Epc.
  - case_match; [done|]. injection E as <-. by eapply queue_unlink; rewrite ?Epc.
  - case_match; injection E as <-; by eapply queue_move; rewrite ?Epc.
  - done.
Qed.

Lemma act_queue st st' a : queue_inv st -> do_act a st = Some st' -> queue_inv st'.
Proof.
  intros Hq. destruct a as [c|i answer|answer|on]; cbn; intros E.
  - injection E as <-. destruct Hq as [Hq Hf]. split.
    + cbn [st_db]. eapply queue_ok_ext; [exact Hq|]. intros j. unfold queue_of. cbn [st_threads].
      destruct (decide (j < length (st_threads st))%nat); [by rewrite lookup_app_l|].
      rewrite (lookup_ge_None_2 (st_threads st)) by lia. destruct (decide (j = length (st_threads st))) as [->|].
      * rewrite list_lookup_middle by done. by destruct c.
      * rewrite lookup_ge_None_2; [done|]. rewrite length_app. simpl. lia.
    + intros j tj [Hj|(_ & (_ & <-)%list_lookup_singleton_Some)]%lookup_app_Some; [by apply (Hf j)|done].
  - by eapply advance_queue.
  - destruct (imm_ _) as [imm|]; [|done]. cbn in E. injection E as <-. destruct Hq as [Hq Hf]. split; [|done]. cbn [st_db]. by destruct (ok answer).
  - injection E as <-. by destruct Hq.
Qed.

Lemma reachable_queue seq log st : reachable ucmp ApproximateMemoryUsage write_buffer_size (opened seq log) st -> queue_inv st.
Proof.
  induction 1 as [|st a st' _ IH _ E]; [|by eapply act_queue]. split; [|done]. eapply queue_ok_ext; [apply queue_ok_empty|done].
Qed.
End Queue.

(** ** Every call can finish *)
Definition steps_left (pc : Pc) : Z :=
  match pc with
  | PcBegin => 8 | PcEnqueue => 7 | PcTicket _ _ => 6 | PcLog => 5 | PcSync _ => 4 | PcEnd _ _ => 3 | PcUnlink _ => 2 | PcImm _ => 1
  | PcSnapshot => 4 | PcWaitOut _ => 3 | PcWaiting _ => 2 | PcWaitImm _ => 1
  | PcDone _ | PcSnapshotDone _ => 0
  end.
Definition finished (pc : Pc) : Prop := steps_left pc = 0.

(** The numbers the calls that have started take in all. *)
Definition demand (ks : list Core) : Z := total (fun k => if is_write (k_call k) then 1 + call_len (k_call k) else 0) ks.

Lemma issued_demand ks : issued ks <= demand ks.
Proof.
  apply total_le. intros k. unfold cost. assert (0 <= call_len (k_call k)) by (unfold call_len; destruct (updates_of _); [apply len_nonneg|lia]).
  destruct (k_linked k), (is_write (k_call k)); simpl; lia.
Qed.

Section Progress.
Context (ucmp : Comparator) `{Hc : !ComparatorOk ucmp all_keys} (ApproximateMemoryUsage : MemTable -> Z) (write_buffer_size : Z).
Notation adv := (advance ucmp ApproximateMemoryUsage write_buffer_size).
Notation do_act := (act ucmp ApproximateMemoryUsage write_buffer_size).
Notation runs := (run ucmp ApproximateMemoryUsage write_buffer_size).
Notation reach := (reachable ucmp ApproximateMemoryUsage write_buffer_size).

(** The action brings thread [i] nearer to its end. *)
Definition nearer (i : nat) (st st' : State) : Prop :=
  exists t k', st_threads st !! i = Some t /\ cores st' = <[i := k']> (cores st) /\ k_call k' = t_call t /\
    steps_left (k_pc k') < steps_left (t_pc t) /\ backup_in_progress_ (st_db st') = backup_in_progress_ (st_db st).

Lemma nearer_in_thread i st t st1 t1 d f pc : st_threads st !! i = Some t -> st_threads st1 !! i = Some t1 ->
  (exists k, cores st1 = <[i := k]> (cores st)) -> t_call t1 = t_call t -> steps_left pc < steps_left (t_pc t) ->
  backup_in_progress_ d = backup_in_progress_ (st_db st) -> nearer i st (in_thread i st1 d f pc).
Proof.
  intros Hi Hi1 [k Ek] Ec Hs Hb. exists t. eexists. split; [done|].
  split; [rewrite (cores_in_thread _ _ _ _ _ _ Hi1), Ek; apply list_insert_insert_eq|]. by split.
Qed.

Lemma same_cores i st t : st_threads st !! i = Some t -> exists k, cores st = <[i := k]> (cores st).
Proof. intros Hi. exists (core t). symmetry. apply list_insert_id. unfold cores. by rewrite list_lookup_fmap, Hi. Qed.

Lemma can_advance seq0 st i t : 0 <= seq0 -> inv ucmp seq0 (st_db st) (cores st) -> st_threads st !! i = Some t ->
  backup_in_progress_ (st_db st) = false -> seq0 + issued (cores st) <= kMaxSequenceNumber - 2 ^ 31 ->
  ~ finished (t_pc t) -> (t_pc t = PcBegin -> imm_ (st_db st) = None) ->
  (forall number, t_pc t = PcWaiting number -> prev_ (t_writer t) = None) ->
  exists st', adv OK i st = Some st' /\ nearer i st st'.
Proof.
  intros H0 Hinv Hi Hbk Hb Hnf Himm Hwait. unfold advance. rewrite Hi. cbn [mbind option_bind].
  assert (cores st !! i = Some (core t)) as Hk by (unfold cores; by rewrite list_lookup_fmap, Hi).
  pose proof (proj1 (Forall_forall _ _) (iv_cores _ _ _ _ Hinv) _ (list_elem_of_lookup_2 _ _ _ Hk)) as Hok.
  pose proof (same_cores i st t Hi) as Hsame.
  assert (forall d f pc, steps_left pc < steps_left (t_pc t) -> backup_in_progress_ d = backup_in_progress_ (st_db st) ->
    nearer i st (in_thread i st d f pc)) as Hmove by (intros; by eapply nearer_in_thread).
  assert (forall u f pc, steps_left pc < steps_left (t_pc t) -> nearer i st (in_thread i (enqueue i u st) (st_db (enqueue i u st)) f pc)) as Hen.
  { intros u f pc Hs. destruct (enqueue_thread i u st t Hi) as (t' & Hi' & Ec & Ecs & Ed).
    eapply nearer_in_thread; [exact Hi|exact Hi'|by eexists|by injection Ec|done|by rewrite Ed]. }
  assert (forall h pc, steps_left pc < steps_left (t_pc t) -> nearer i st (in_thread i (unlink i h st) (st_db (unlink i h st)) id pc)) as Hun.
  { intros h pc Hs. destruct (unlink_thread i h st t Hi) as (t' & Hi' & Ec).
    eapply nearer_in_thread; [exact Hi|exact Hi'|by rewrite cores_unlink|by injection Ec|done|].
    unfold unlink. rewrite Hi. cbn [st_db]. by case_bool_decide. }
  destruct (t_pc t) eqn:Epc; try (by destruct Hnf); unfold begin_memtable; rewrite ?Hbk; try (eexists; split; [reflexivity|]; apply Hmove || apply Hen || apply Hun; done).
  - rewrite Himm by done. destruct (ok (bg_error_ (st_db st))) eqn:Ee; cbn [negb].
    + destruct (_ && _); cbn [mbind option_bind ok OK]; eexists; (split; [reflexivity|]); by apply Hmove.
    + cbn [mbind option_bind]. rewrite Ee. eexists. split; [reflexivity|]. by apply Hmove.
  - eexists. split; [reflexivity|]. apply Hmove; [by destruct (updates_of _)|done].
  - pose proof (ck_call _ _ _ Hok) as Hcall. pose proof (ck_log _ _ _ Hok Epc) as [ops Eu]. unfold client_call in Hcall. cbn in Hcall, Eu. rewrite Eu in *.
    destruct Hcall as [Hops Hn]. cbn [mbind option_bind]. rewrite number_batch_ok by done. cbn [mbind option_bind ok OK negb].
    eexists. split; [reflexivity|]. apply Hmove; [by destruct (_ && _)|done].
  - assert (exists s' d', match b with
      | Some b => if ok s then '(s, m, guards) ← InsertIntoVersion ucmp b (mem_ (st_db st)) (complete_guards_ (st_db st)); Some (s, with_inserted (st_db st) m guards)
                  else Some (s, st_db st)
      | None => Some (s, st_db st) end = Some (s', d') /\ backup_in_progress_ d' = backup_in_progress_ (st_db st)) as (s' & d' & -> & Hbk').
    { destruct b as [b|]; [|by eexists _, _]. destruct s as [msg|]; [by eexists _, _|]. cbn [ok].
      destruct (ck_batch _ _ _ Hok b OK ltac:(right; exact Epc)) as (ops & Eu & Eb).
      set (k' := core {| t_call := t_call t; t_pc := PcUnlink OK; t_writer := t_writer t |}).
      destruct (contents_insert ucmp seq0 (st_db st) (cores st) i (core t) k' ops Hinv Hk H0) as (m & Em & _); try done.
      - cbn. by rewrite Epc, Eb.
      - rewrite Eb, Em. cbn [mbind option_bind]. by eexists _, _. }
    cbn [mbind option_bind]. eexists. split; [reflexivity|]. apply Hmove; [done|]. cbn. by destruct (ok s').
  - destruct (_ && _); eexists; (split; [reflexivity|]); by apply Hmove.
  - rewrite (Hwait _ eq_refl). eexists. split; [reflexivity|]. by apply Hun.
  - destruct (has_imm_ _); eexists; (split; [reflexivity|]); by apply Hmove.
Qed.

(** A member of the queue that can go on, from any member that cannot. *)
Lemma head_of_queue st i t : queue_inv st -> st_threads st !! i = Some t -> ~ finished (t_pc t) ->
  exists j tj, st_threads st !! j = Some tj /\ ~ finished (t_pc tj) /\ forall number, t_pc tj = PcWaiting number -> prev_ (t_writer tj) = None.
Proof.
  intros [Hq Hf]. destruct (q_rank _ _ Hq) as (r & b & _ & Hr). remember (r i) as n eqn:En. revert i t En.
  induction (lt_wf n) as [n _ IH]. intros i t -> Hi Hnf.
  destruct (t_pc t) eqn:Epc; try (exists i, t; rewrite Epc; by split).
  destruct (prev_ (t_writer t)) as [p|] eqn:Ep; [|exists i, t; rewrite Epc; by split].
  assert (queue_of st i = Some (Some p, next_ (t_writer t))) as Hqi by (unfold queue_of, thread_links; rewrite Hi; cbn; by rewrite Epc, Ep).
  destruct (q_prev _ _ Hq _ _ _ Hqi) as [p' Eqp]. pose proof (Hr _ _ _ Hqi) as Hlt.
  unfold queue_of, thread_links in Eqp. destruct (st_threads st !! p) as [tp|] eqn:Etp; [|done]. cbn in Eqp.
  apply (IH (r p) Hlt p tp eq_refl Etp). by destruct (t_pc tp).
Qed.

Lemma cores_lookup st i t : st_threads st !! i = Some t -> cores st !! i = Some (core t).
Proof. intros Hi. unfold cores. by rewrite list_lookup_fmap, Hi. Qed.

Lemma steps_left_nonneg pc : 0 <= steps_left pc.
Proof. by destruct pc. Qed.

Lemma all_finished st : total (fun k => steps_left (k_pc k)) (cores st) = 0 \/ exists i t, st_threads st !! i = Some t /\ ~ finished (t_pc t).
Proof.
  unfold cores. induction (st_threads st) as [|t ts IH]; [by left|]. destruct (decide (steps_left (t_pc t) = 0)) as [E|E].
  - destruct IH as [IH|(i & t' & Hi & Hn)]; [left; cbn [map total foldr]; unfold total in IH; rewrite IH; simpl; lia|].
    right. by exists (S i), t'.
  - right. by exists 0%nat, t.
Qed.

End Progress.

(** ** The claims *)

(** C19. Numbers and contents under concurrent writes.  In every state any
    number of concurrent Write and GetSnapshot calls, memtable flushes, backups
    and failures of the file system lead to, as long as fewer than 2^56 - 2^31
    numbers have been handed out: the ranges of different writers are disjoint
    and lie below writers_upper_, each as long as its batch; the memtable, the
    immutable memtable and the memtables written to tables hold together
    exactly the entries of the writers that have passed SequenceWriteEnd with
    OK, each under its own numbers and once; and the last sequence number is at
    or past the ranges of all of these and at most writers_upper_. *)
Theorem concurrent_writes_numbered (ucmp : Comparator) (Hc : ComparatorOk ucmp all_keys) (usage : MemTable -> Z) (size seq0 log : Z)
    (st : State) :
  0 <= seq0 -> reachable ucmp usage size (opened seq0 log) st -> seq0 + issued (cores st) <= kMaxSequenceNumber - 2 ^ 31 ->
  (forall i j k1 k2 r1 r2, i <> j -> cores st !! i = Some k1 -> cores st !! j = Some k2 ->
     range_of k1 = Some r1 -> range_of k2 = Some r2 -> ~ overlap r1 r2) /\
  (forall k r, k ∈ cores st -> range_of k = Some r ->
     seq0 < fst r /\ snd r = fst r + call_len (k_call k) /\ snd r <= writers_upper_ (st_db st)) /\
  (exists am ai at_, memtable_rep ucmp (mem_ (st_db st)) am /\ imm_rep ucmp (imm_ (st_db st)) ai /\
     Forall2 (memtable_rep ucmp) (tables (st_db st)) at_ /\ am ++ ai ++ concat at_ ≡ₚ concat (map inserted (cores st))) /\
  seq0 <= last_sequence_ (st_db st) <= writers_upper_ (st_db st) /\
  (forall k s, k ∈ cores st -> ended k = Some s -> k_end k <= last_sequence_ (st_db st)).
Proof.
  intros H0 Hr Hb. destruct (reachable_inv ucmp usage size seq0 log st H0 Hr Hb) as [_ H2 H3 [H4] H5 H6].
  split; [exact H3|]. split; [|done]. intros k r Hk. rewrite Forall_forall in H2. apply (H2 k Hk).
Qed.

(** C20. The queue of writers stays sound.  In every reachable state the links
    of the Writer objects in the queue, which live on the stacks of running
    calls, point to objects in the queue that point back, the tail is in the
    queue and has no successor (the assert in SequenceWriteEnd), and following
    prev_ from any writer ends; nothing outside the queue is pointed to. *)
Theorem writer_queue_sound (ucmp : Comparator) (usage : MemTable -> Z) (size seq0 log : Z) (st : State) :
  reachable ucmp usage size (opened seq0 log) st -> queue_ok (queue_of st) (writers_tail_ (st_db st)).
Proof. intros Hr. apply (reachable_queue _ _ _ _ _ _ Hr). Qed.

(** ** Schedules that show what concurrent writers can do *)
Definition put_k (v : byte) : Call := CallWrite (Some [OpPut [Byte.x6b] [v]]) true.
Definition put_j : Call := CallWrite (Some [OpPut [Byte.x6a] [Byte.x31]]) false.
Definition steps (i : nat) (n : nat) : list Action := replicate n (Advance i OK).
Definition run_from (acts : list Action) (st : State) : option State := run BytewiseComparator (fun _ => 0) 100 acts st.
Definition read_mem (m : MemTable) (number : Z) : option GetResult := Get BytewiseComparator m (mkLookupKey [Byte.x6b] number).
Definition pc_of (st : State) (i : nat) : option Pc := t_pc <$> st_threads st !! i.

(** A writes k and has its numbers, B writes j and returns; B was the tail, so
    the tail is NULL although A is still in the queue. *)
Definition tail_lost : list Action :=
  [Start (put_k Byte.x31)] ++ steps 0 3 ++ [Start put_j] ++ steps 1 7 ++ [Start CallGetSnapshot] ++ steps 2 4.

(** A snapshot changes after it was returned.  When the last writer of the
    queue leaves before the one ahead of it, writers_tail_ becomes NULL;
    GetSnapshot then waits for nobody and returns the number of the later
    writer, and the earlier writer adds an entry below that number afterwards:
    a read of k at the snapshot finds nothing first and a value later. *)
Theorem snapshot_changes_after_return :
  exists st1 st2 number,
    run_from tail_lost (opened 0 5) = Some st1 /\ pc_of st1 2 = Some (PcSnapshotDone number) /\
    read_mem (mem_ (st_db st1)) number = Some GetAbsent /\
    run_from (steps 0 5) st1 = Some st2 /\ pc_of st2 0 = Some (PcDone OK) /\
    read_mem (mem_ (st_db st2)) number = Some (GetFound [Byte.x31]).
Proof. eexists _, _, _. do 5 (split; [vm_compute; reflexivity|]). vm_compute. reflexivity. Qed.

(** A has the log 5 when a call without a batch (TEST_CompactMemTable) switches
    memtables; A logs to 5 and inserts into the new memtable. *)
Definition late_writer : list Action :=
  [Start (put_k Byte.x31)] ++ steps 0 3 ++ [Start (CallWrite None false)] ++ steps 1 6 ++ steps 0 5 ++ [Flush OK].

(** A synced write that has returned OK can be lost in a crash.  The writer
    took the old log and inserts into the memtable that is current when it
    ends; when the old memtable has been written to a table, the old log is
    deleted: no log and no table holds the entry, which is only in memory. *)
Theorem synced_write_not_durable :
  exists st, run_from late_writer (opened 0 5) = Some st /\ pc_of st 0 = Some (PcDone OK) /\
    map_to_list (logs (st_db st)) = [(6, [])] /\ map (fun m => read_mem m 9) (tables (st_db st)) = [Some GetAbsent] /\
    imm_ (st_db st) = None /\ read_mem (mem_ (st_db st)) 9 = Some (GetFound [Byte.x31]).
Proof. eexists. do 5 (split; [vm_compute; reflexivity|]). vm_compute. reflexivity. Qed.

(** A has the smaller numbers, B writes the same key and returns, the memtable
    is switched and A inserts into the new one. *)
Definition overtaken : list Action :=
  [Start (put_k Byte.x31)] ++ steps 0 3 ++ [Start (put_k Byte.x32)] ++ steps 1 8 ++ [Start (CallWrite None false)] ++ steps 2 6 ++ steps 0 5.

(** The memtable, which reads ask first, then has an older entry of the key
    than the immutable one: the value with the smaller number is returned. *)
Theorem memtable_hides_newer_entry :
  exists st imm, run_from overtaken (opened 0 5) = Some st /\ imm_ (st_db st) = Some imm /\
    read_mem (mem_ (st_db st)) 9 = Some (GetFound [Byte.x31]) /\ read_mem (mem_ (st_db st)) 1 = Some (GetFound [Byte.x31]) /\
    read_mem imm 9 = Some (GetFound [Byte.x32]) /\ read_mem imm 2 = Some GetAbsent.
Proof. eexists _, _. do 5 (split; [vm_compute; reflexivity|]). vm_compute. reflexivity. Qed.

(** *** Witnesses *)
Lemma reachable_run ucmp usage size acts : forall st0 st st', Forall action_ok acts -> reachable ucmp usage size st0 st ->
  run ucmp usage size acts st = Some st' -> reachable ucmp usage size st0 st'.
Proof.
  induction acts as [|a acts IH]; intros st0 st st' Hok Hr E; [by injection E as <-|]. apply Forall_cons in Hok as [Ha Hok]. cbn in E.
  destruct (act _ _ _ a st) as [st1|] eqn:E1; [|done]. cbn in E. eapply IH; [done| |exact E]. by eapply reach_step.
Qed.

Definition tail_lost_state : State := default (opened 0 5) (run_from tail_lost (opened 0 5)).

Lemma tail_lost_reached : reachable BytewiseComparator (fun _ => 0) 100 (opened 0 5) tail_lost_state.
Proof.
  eapply (reachable_run _ _ _ tail_lost); [repeat constructor; vm_compute; discriminate|apply reach_start|vm_compute; reflexivity].
Qed.

Lemma concurrent_writes_numbered_witness :
  exists am ai at_, memtable_rep BytewiseComparator (mem_ (st_db tail_lost_state)) am /\ imm_rep BytewiseComparator (imm_ (st_db tail_lost_state)) ai /\
    Forall2 (memtable_rep BytewiseComparator) (tables (st_db tail_lost_state)) at_ /\
    am ++ ai ++ concat at_ ≡ₚ [{| a_seq := 3; a_type := kTypeValue; a_key := [Byte.x6a]; a_value := [Byte.x31] |}].
Proof.
  destruct (concurrent_writes_numbered BytewiseComparator BytewiseComparator_ok (fun _ => 0) 100 0 5 tail_lost_state) as (_ & _ & H & _).
  - lia.
  - apply tail_lost_reached.
  - vm_compute. discriminate.
  - exact H.
Defined.

Lemma writer_queue_sound_witness : queue_ok (queue_of tail_lost_state) None.
Proof. apply (writer_queue_sound BytewiseComparator (fun _ => 0) 100 0 5 tail_lost_state). apply tail_lost_reached. Defined.
