(* ===== verification/WakeUps.v ===== *)
(** * Waiting and waking up (db/db_impl.cc: the condition variables of
    SequenceWriteBegin, SequenceWriteEnd, WaitOutWriters and
    CompactMemTableThread)

    WritePath lets a thread that has to wait try again at any time.  Here the
    threads sleep: a writer that finds imm_ full waits on bg_fg_cv_, a thread
    in WaitOutWriters that is not the head of the queue waits on the cv_ of its
    Writer, and the memtable thread waits on bg_memtable_cv_; a sleeping thread
    takes no step until it is signalled (or wakes up without a signal, which
    condition variables allow).  The steps between two waits are those of
    WritePath.  No backup runs: LiveBackup, whose own signals wake the writers
    it holds up, is not modelled. *)

From Stdlib Require Import ZArith Lia Bool.
From stdpp Require Import base list gmap.
From S2P Require Import Prelude Coding Comparator DbFormat Status WriteBatch SkipList MemTable WritePath.

Set Default Goal Selector "!".
Local Open Scope Z_scope.

(** The threads of the calls that sleep, and whether the memtable thread does. *)
Record Sleepers := { w_st : State; asleep : gset nat; memtable_asleep : bool }.

Section Waiting.
Context (ucmp : Comparator) (ApproximateMemoryUsage : MemTable -> Z) (write_buffer_size : Z).
Notation adv := (advance ucmp ApproximateMemoryUsage write_buffer_size).
Notation do_act := (act ucmp ApproximateMemoryUsage write_buffer_size).

(** The Writer whose cv_ is signalled when [i] leaves the queue: the next one,
    if [i] was the head and it wants to know. *)
Definition signalled (i : nat) (st : State) : gset nat :=
  match st_threads st !! i with
  | Some t =>
      match t_pc t, prev_ (t_writer t), next_ (t_writer t) with
      | (PcUnlink _ | PcWaiting _), None, Some n =>
          match st_threads st !! n with
          | Some tn => if wake_me_when_head_ (t_writer tn) then {[n]} else ∅
          | None => ∅
          end
      | _, _, _ => ∅
      end
  | None => ∅
  end.

(** The step of [i] signals bg_memtable_cv_: it stores imm_ in has_imm_. *)
Definition signals_memtable (i : nat) (st : State) : bool :=
  match st_threads st !! i with
  | Some t =>
      match t_pc t with
      | PcImm _ => has_imm_ (t_writer t) && bool_decide (prev_ (t_writer t) = None)
      | PcWaitImm _ => has_imm_ (t_writer t)
      | _ => false
      end
  | None => false
  end.

(** WaitOutWriters joins the queue and waits in one critical section, unless it
    is the head at once. *)
Definition joins_waiting (i : nat) (st : State) : bool :=
  match st_threads st !! i with
  | Some t => match t_pc t with PcWaitOut _ => bool_decide (writers_tail_ (st_db st) <> None) | _ => false end
  | None => false
  end.

(** The threads that wait on bg_fg_cv_. *)
Definition at_begin (st : State) (i : nat) : Prop := exists t, st_threads st !! i = Some t /\ t_pc t = PcBegin.
#[global] Instance at_begin_dec st i : Decision (at_begin st i).
Proof.
  refine (match st_threads st !! i as o return st_threads st !! i = o -> _ with
          | Some t => fun E => match t_pc t as p return t_pc t = p -> _ with
                               | PcBegin => fun E' => left _
                               | _ => fun E' => right _
                               end eq_refl
          | None => fun E => right _
          end eq_refl); try (by exists t); intros (t' & E1 & E2); congruence.
Defined.

(** One step of thread [i], or the wait it runs into. *)
Definition wake_advance (answer : Status) (i : nat) (ws : Sleepers) : option Sleepers :=
  let st := w_st ws in
  if decide (i ∈ asleep ws) then None
  else match adv answer i st with
       | Some st' =>
           Some {| w_st := st';
                   asleep := (asleep ws ∖ signalled i st) ∪ (if joins_waiting i st then {[i]} else ∅);
                   memtable_asleep := memtable_asleep ws && negb (signals_memtable i st) |}
       | None =>
           t ← st_threads st !! i;
           match t_pc t with
           | PcBegin => (* bg_memtable_cv_.Signal(); bg_fg_cv_.Wait() *)
               Some {| w_st := st; asleep := asleep ws ∪ {[i]}; memtable_asleep := false |}
           | PcWaiting _ => (* w.cv_.Wait() *)
               Some {| w_st := st; asleep := asleep ws ∪ {[i]}; memtable_asleep := memtable_asleep ws |}
           | _ => None
           end
       end.

(** One turn of CompactMemTableThread: it waits while there is no imm_; the
    attempt to write imm_ ends with bg_fg_cv_.SignalAll(), also when it fails. *)
Definition memtable_turn (answer : Status) (ws : Sleepers) : option Sleepers :=
  if memtable_asleep ws then None
  else match imm_ (st_db (w_st ws)) with
       | None => Some {| w_st := w_st ws; asleep := asleep ws; memtable_asleep := true |}
       | Some _ =>
           st' ← do_act (Flush answer) (w_st ws);
           Some {| w_st := st'; asleep := filter (fun i => ~ at_begin (w_st ws) i) (asleep ws); memtable_asleep := false |}
       end.

Inductive WakeAction :=
| WStart (c : Call)
| WAdvance (i : nat) (answer : Status)
| WMemtable (answer : Status)
| WSpurious (i : nat)           (** a wake-up that no step above sends *)
| WSpuriousMemtable.

Definition wake_act (a : WakeAction) (ws : Sleepers) : option Sleepers :=
  match a with
  | WStart c => st' ← do_act (Start c) (w_st ws); Some {| w_st := st'; asleep := asleep ws; memtable_asleep := memtable_asleep ws |}
  | WAdvance i answer => wake_advance answer i ws
  | WMemtable answer => memtable_turn answer ws
  | WSpurious i => Some {| w_st := w_st ws; asleep := asleep ws ∖ {[i]}; memtable_asleep := memtable_asleep ws |}
  | WSpuriousMemtable => Some {| w_st := w_st ws; asleep := asleep ws; memtable_asleep := false |}
  end.

Definition wake_action_ok (a : WakeAction) : Prop := match a with WStart c => client_call c | _ => True end.

(** Steps of calls and of the memtable thread, which succeed: no new calls, and
    no wake-up comes from nowhere. *)
Definition no_help (a : WakeAction) : Prop :=
  match a with WAdvance _ answer | WMemtable answer => answer = OK | _ => False end.

Fixpoint wake_run (acts : list WakeAction) (ws : Sleepers) : option Sleepers :=
  match acts with
  | [] => Some ws
  | a :: acts => ws ← wake_act a ws; wake_run acts ws
  end.

Inductive wake_reachable (ws0 : Sleepers) : Sleepers -> Prop :=
| wake_start : wake_reachable ws0 ws0
| wake_step ws a ws' : wake_reachable ws0 ws -> wake_action_ok a -> wake_act a ws = Some ws' -> wake_reachable ws0 ws'.
End Waiting.

(** DB::Open signals the memtable thread. *)
Definition awake (st : State) : Sleepers := {| w_st := st; asleep := ∅; memtable_asleep := false |}.

(** ** What a sleeping thread waits for *)

(** The thread has the duty to publish imm_ and will signal the memtable thread
    or hand the duty on. *)
Definition carries (t : Thread) : Prop :=
  has_imm_ (t_writer t) = true /\
  match t_pc t with
  | PcEnqueue | PcWaitImm _ => True
  | PcImm _ => prev_ (t_writer t) = None
  | pc => in_queue pc = true
  end.

(** It sleeps with good reason, and somebody is there to wake it up: the
    memtable thread is awake and imm_ is there to be written, or it is not the
    head of the queue and asks to be told. *)
Definition waits_for (ws : Sleepers) (t : Thread) : Prop :=
  match t_pc t with
  | PcBegin => imm_ (st_db (w_st ws)) <> None /\ memtable_asleep ws = false
  | PcWaiting _ => prev_ (t_writer t) <> None /\ wake_me_when_head_ (t_writer t) = true
  | _ => False
  end.

Record wake_ok (ws : Sleepers) : Prop := {
  wk_calls i : i ∈ asleep ws -> exists t, st_threads (w_st ws) !! i = Some t /\ waits_for ws t;
  wk_memtable : memtable_asleep ws = true -> imm_ (st_db (w_st ws)) <> None ->
    exists i t, st_threads (w_st ws) !! i = Some t /\ carries t;
  wk_flag i t number : st_threads (w_st ws) !! i = Some t -> t_pc t = PcWaiting number -> prev_ (t_writer t) <> None ->
    wake_me_when_head_ (t_writer t) = true;
  wk_backup : backup_in_progress_ (st_db (w_st ws)) = false;
}.

(** ** What a step of one thread does to the others *)
Definition leaving (pc : Pc) : bool := match pc with PcUnlink _ | PcWaiting _ => true | _ => false end.

(** Only a thread that leaves the queue changes a prev_, that of the next one. *)
Definition beside (i : nat) (t : Thread) (j : nat) (tj tj' : Thread) : Prop :=
  t_pc tj' = t_pc tj /\ wake_me_when_head_ (t_writer tj') = wake_me_when_head_ (t_writer tj) /\
  (has_imm_ (t_writer tj) = true -> has_imm_ (t_writer tj') = true) /\
  prev_ (t_writer tj') = if leaving (t_pc t) && bool_decide (next_ (t_writer t) = Some j) then prev_ (t_writer t) else prev_ (t_writer tj).

Section Effects.
Context (ucmp : Comparator) (ApproximateMemoryUsage : MemTable -> Z) (write_buffer_size : Z).
Notation adv := (advance ucmp ApproximateMemoryUsage write_buffer_size).

Lemma beside_in_thread i st t f pc j tj : st_threads st !! i = Some t -> leaving (t_pc t) = false -> j <> i ->
  st_threads st !! j = Some tj -> exists tj', set_pc i pc (set_writer i f (st_threads st)) !! j = Some tj' /\ beside i t j tj tj'.
Proof.
  intros Hi Hl Hj Ej. exists tj. change (set_pc _ _ _) with (st_threads (in_thread i st (st_db st) f pc)). rewrite (lookup_in_thread _ _ _ _ _ _ _ Hi), decide_False by done. split; [done|].
  unfold beside. by rewrite Hl.
Qed.

Lemma beside_enqueue i u st t f pc j tj : st_threads st !! i = Some t -> leaving (t_pc t) = false -> j <> i ->
  st_threads st !! j = Some tj ->
  exists tj', st_threads (in_thread i (enqueue i u st) (st_db (enqueue i u st)) f pc) !! j = Some tj' /\ beside i t j tj tj'.
Proof.
  intros Hi Hl Hj Ej. destruct (enqueue_thread i u st t Hi) as (t' & Hi' & _).
  rewrite (lookup_in_thread _ _ _ _ _ _ _ Hi'), decide_False by done. unfold enqueue. cbn [st_threads]. unfold beside. rewrite Hl. cbn [andb].
  destruct (writers_tail_ _) as [x|]; rewrite ?lookup_set_writer, ?(decide_False (P := j = i)), ?Ej by done; [|by eexists].
  destruct (decide (j = x)); by eexists.
Qed.

Lemma beside_unlink i h st t pc j tj : st_threads st !! i = Some t -> leaving (t_pc t) = true -> j <> i ->
  st_threads st !! j = Some tj ->
  exists tj', st_threads (in_thread i (unlink i h st) (st_db (unlink i h st)) id pc) !! j = Some tj' /\ beside i t j tj tj' /\
    (h && has_imm_ (t_writer t) = true -> prev_ (t_writer t) = Some j -> has_imm_ (t_writer tj') = true).
Proof.
  intros Hi Hl Hj Ej. destruct (unlink_thread i h st t Hi) as (t' & Hi' & _).
  rewrite (lookup_in_thread _ _ _ _ _ _ _ Hi'), decide_False by done. unfold beside. rewrite Hl. unfold unlink. rewrite Hi. cbn [st_threads andb].
  set (ts1 := match prev_ (t_writer t) with Some _ => _ | None => _ end).
  assert (exists tj', ts1 !! j = Some tj' /\ t_pc tj' = t_pc tj /\ wake_me_when_head_ (t_writer tj') = wake_me_when_head_ (t_writer tj) /\
    (has_imm_ (t_writer tj) = true -> has_imm_ (t_writer tj') = true) /\ prev_ (t_writer tj') = prev_ (t_writer tj) /\
    (h && has_imm_ (t_writer t) = true -> prev_ (t_writer t) = Some j -> has_imm_ (t_writer tj') = true)) as (tj' & E1 & E2 & E3 & E4 & E5 & E6).
  { unfold ts1. destruct (prev_ (t_writer t)) as [x|]; [|by exists tj].
    destruct (h && has_imm_ (t_writer t)); rewrite ?lookup_set_writer, ?(decide_False (P := j = i)) by done;
      rewrite ?lookup_set_writer, Ej; destruct (decide (j = x)) as [<-|]; cbn; eexists; (split; [done|]); split_and!; try done; congruence. }
  destruct (next_ (t_writer t)) as [y|].
  - rewrite lookup_set_writer, E1. destruct (decide (j = y)) as [<-|]; cbn.
    + eexists. split; [done|]. rewrite bool_decide_true by done. split_and!; done.
    + exists tj'. rewrite bool_decide_false by congruence. split_and!; done.
  - exists tj'. rewrite bool_decide_false by done. split_and!; done.
Qed.

(** The thread itself. *)
Lemma enqueue_own i u st t : st_threads st !! i = Some t -> exists t', st_threads (enqueue i u st) !! i = Some t' /\
  has_imm_ (t_writer t') = has_imm_ (t_writer t) /\
  prev_ (t_writer t') = match writers_tail_ (st_db st) with Some x => Some x | None => prev_ (t_writer t) end.
Proof.
  intros Hi. unfold enqueue. cbn [st_threads]. destruct (writers_tail_ _) as [x|]; rewrite ?lookup_set_writer, ?(decide_True (P := i = i)), ?Hi by done.
  - destruct (decide (i = x)); by eexists.
  - by eexists.
Qed.

Lemma unlink_own i h st t : st_threads st !! i = Some t -> prev_ (t_writer t) = None -> exists t', st_threads (unlink i h st) !! i = Some t' /\
  has_imm_ (t_writer t') = has_imm_ (t_writer t) /\ prev_ (t_writer t') = None.
Proof.
  intros Hi Hp. unfold unlink. rewrite Hi, Hp. cbn [st_threads]. destruct (next_ _) as [n|]; [|by exists t].
  rewrite lookup_set_writer, Hi. destruct (decide (i = n)); by eexists.
Qed.

Lemma own_in_thread i st t d f pc : st_threads st !! i = Some t ->
  st_threads (in_thread i st d f pc) !! i = Some {| t_call := t_call t; t_pc := pc; t_writer := f (t_writer t) |}.
Proof. intros Hi. by rewrite (lookup_in_thread _ _ _ _ _ _ _ Hi), decide_True. Qed.

(** imm_ appears when a writer switches memtables, and that writer has the duty. *)
Lemma advance_imm answer i st st' : adv answer i st = Some st' ->
  backup_in_progress_ (st_db st') = backup_in_progress_ (st_db st) /\
  (imm_ (st_db st') = imm_ (st_db st) \/ imm_ (st_db st) = None /\ exists t', st_threads st' !! i = Some t' /\ carries t').
Proof.
  unfold advance. destruct (st_threads st !! i) as [t|] eqn:Hi; [|done]. cbn [mbind option_bind]. destruct (t_pc t) eqn:Epc; intros E.
  - unfold begin_memtable in E. repeat case_match; simplify_option_eq; try (split; [done|]; by left).
    all: try (case_match; simplify_eq; split; [done|]; by left).
    all: split; [done|]; right; split; [done|]; eexists; split; [exact (own_in_thread i st t (st_db st) _ _ Hi)|]; by split.
  - injection E as <-. split; [done|]. by left.
  - case_match; simplify_eq; (split; [done|]); by left.
  - simplify_option_eq. case_match. destruct (negb (ok s)); [done|]. injection E as <-. cbn. destruct (ok answer); (split; [done|]); by left.
  - injection E as <-. split; [done|]. by left.
  - destruct (match b with Some _ => _ | None => _ end) as [[s' d']|] eqn:Eb; [|done]. cbn [mbind option_bind] in E. injection E as <-. cbn.
    assert (imm_ d' = imm_ (st_db st) /\ backup_in_progress_ d' = backup_in_progress_ (st_db st)) as [? ?]
      by (repeat case_match; simplify_option_eq; repeat case_match; by simplify_eq).
    destruct (ok s'); cbn; split; auto.
  - injection E as <-. unfold unlink. rewrite Hi. cbn. case_bool_decide; (split; [done|]); by left.
  - case_match; simplify_eq; (split; [done|]); by left.
  - done.
  - injection E as <-. split; [done|]. by left.
  - injection E as <-. split; [done|]. by left.
  - case_match; [done|]. injection E as <-. unfold unlink. rewrite Hi. cbn. case_bool_decide; (split; [done|]); by left.
  - case_match; simplify_eq; (split; [done|]); by left.
  - done.
Qed.

Lemma advance_beside answer i st st' t j tj : st_threads st !! i = Some t -> adv answer i st = Some st' -> j <> i ->
  st_threads st !! j = Some tj -> exists tj', st_threads st' !! j = Some tj' /\ beside i t j tj tj'.
Proof.
  intros Hi E Hj Ej. unfold advance in E. rewrite Hi in E. cbn [mbind option_bind] in E.
  destruct (t_pc t) eqn:Epc.
  all: try (injection E as <-; eapply (beside_enqueue i _ st t); rewrite ?Epc; done).
  all: try (repeat case_match; simplify_option_eq; repeat case_match; simplify_option_eq; eapply (beside_in_thread i st t); rewrite ?Epc; done).
  - injection E as <-. destruct (beside_unlink i true st t (PcImm s) j tj Hi ltac:(by rewrite Epc) Hj Ej) as (tj' & H1 & H2 & _). by exists tj'.
  - case_match; [done|]. injection E as <-.
    destruct (beside_unlink i false st t (PcWaitImm number) j tj Hi ltac:(by rewrite Epc) Hj Ej) as (tj' & H1 & H2 & _). by exists tj'.
Qed.

(** The neighbours of a member of the queue. *)
Lemma next_in_queue st i t j tj : queue_inv st -> st_threads st !! i = Some t -> in_queue (t_pc t) = true -> next_ (t_writer t) = Some j ->
  st_threads st !! j = Some tj -> in_queue (t_pc tj) = true /\ prev_ (t_writer tj) = Some i.
Proof.
  intros [Hq _] Hi Hin En Ej.
  assert (queue_of st i = Some (prev_ (t_writer t), Some j)) as Hqi by (unfold queue_of, thread_links; rewrite Hi; cbn; by rewrite Hin, En).
  destruct (q_next _ _ Hq _ _ _ Hqi) as [n' E]. unfold queue_of, thread_links in E. rewrite Ej in E. cbn in E.
  destruct (in_queue (t_pc tj)); [|done]. by injection E as -> _.
Qed.

Lemma prev_in_queue st i t p : queue_inv st -> st_threads st !! i = Some t -> in_queue (t_pc t) = true -> prev_ (t_writer t) = Some p ->
  p <> i /\ exists tp, st_threads st !! p = Some tp /\ in_queue (t_pc tp) = true.
Proof.
  intros [Hq _] Hi Hin Ep.
  assert (queue_of st i = Some (Some p, next_ (t_writer t))) as Hqi by (unfold queue_of, thread_links; rewrite Hi; cbn; by rewrite Hin, Ep).
  destruct (q_prev _ _ Hq _ _ _ Hqi) as [p' E]. destruct (q_rank _ _ Hq) as (r & b & _ & Hr). pose proof (Hr _ _ _ Hqi) as Hlt.
  split; [intros ->; lia|]. unfold queue_of, thread_links in E. destruct (st_threads st !! p) as [tp|]; [|done]. cbn in E.
  exists tp. split; [done|]. by destruct (in_queue (t_pc tp)).
Qed.

Lemma carries_in_queue t : has_imm_ (t_writer t) = true -> in_queue (t_pc t) = true -> carries t.
Proof. intros H1 H2. split; [done|]. by destruct (t_pc t). Qed.

(** Only members of the queue get another prev_, and only when they have one. *)
Lemma beside_prev st i t j tj tj' : queue_inv st -> st_threads st !! i = Some t -> st_threads st !! j = Some tj -> beside i t j tj tj' ->
  prev_ (t_writer tj') = prev_ (t_writer tj) \/
  leaving (t_pc t) = true /\ next_ (t_writer t) = Some j /\ in_queue (t_pc tj) = true /\ prev_ (t_writer tj) <> None /\
  prev_ (t_writer tj') = prev_ (t_writer t).
Proof.
  intros Hq Hi Ej (_ & _ & _ & ->). destruct (leaving (t_pc t)) eqn:El; [|by left]. cbn. case_bool_decide as En; [|by left]. right.
  destruct (next_in_queue st i t j tj Hq Hi ltac:(by destruct (t_pc t)) En Ej) as [H1 H2]. rewrite H2. done.
Qed.

Lemma beside_carries st i t j tj tj' : queue_inv st -> st_threads st !! i = Some t -> st_threads st !! j = Some tj -> beside i t j tj tj' ->
  carries tj -> carries tj'.
Proof.
  intros Hq Hi Ej Hb [H1 H2]. pose proof (beside_prev st i t j tj tj' Hq Hi Ej Hb) as Hp. destruct Hb as (Epc & _ & Himm & _).
  split; [auto|]. rewrite Epc. destruct (t_pc tj) eqn:Etj; try done. destruct Hp as [->|(_ & _ & Hin & _)]; done.
Qed.

Lemma advance_carries answer i st st' t : queue_inv st -> st_threads st !! i = Some t -> carries t -> adv answer i st = Some st' ->
  signals_memtable i st = true \/ exists j tj, st_threads st' !! j = Some tj /\ carries tj.
Proof.
  intros Hq Hi [Himm Hpc] E. unfold signals_memtable. rewrite Hi. unfold advance in E. rewrite Hi in E. cbn [mbind option_bind] in E.
  assert (forall f pc, in_queue pc = true -> has_imm_ (f (t_writer t)) = true ->
    exists j tj, set_pc i pc (set_writer i f (st_threads st)) !! j = Some tj /\ carries tj) as Hgo.
  { intros f pc Hin Hf. eexists i, _. split; [exact (own_in_thread i st t (st_db st) f pc Hi)|]. by apply carries_in_queue. }
  destruct (t_pc t) eqn:Epc; try done.
  - injection E as <-. right. destruct (enqueue_own i (u64 (writers_upper_ (st_db st) + u64 (1 + u64 (batch_count (updates_of (t_call t)))))) st t Hi) as (t' & Hi' & E1 & _).
    eexists i, _. split; [by apply own_in_thread|]. apply carries_in_queue; [cbn; congruence|done].
  - right. case_match; injection E as <-; apply Hgo; try done. by case_match.
  - right. simplify_option_eq. case_match. destruct (negb (ok s)); [done|]. injection E as <-. apply Hgo; [by destruct (ok answer && _)|done].
  - right. injection E as <-. by apply Hgo.
  - right. destruct (match b with Some _ => _ | None => _ end) as [[s' d']|]; [|done]. cbn [mbind option_bind] in E. injection E as <-. by apply Hgo.
  - right. injection E as <-. destruct (prev_ (t_writer t)) as [p|] eqn:Ep.
    + destruct (prev_in_queue st i t p Hq Hi ltac:(by rewrite Epc) Ep) as (Hpi & tp & Etp & Hin).
      destruct (beside_unlink i true st t (PcImm s) p tp Hi ltac:(by rewrite Epc) Hpi Etp) as (tp' & H1 & (H2 & _) & H3).
      exists p, tp'. split; [done|]. apply carries_in_queue; [by apply H3|]. by rewrite H2.
    + destruct (unlink_own i true st t Hi Ep) as (t' & Hi' & E1 & E2). eexists i, _. split; [by apply own_in_thread|]. split; [cbn; congruence|done].
  - left. rewrite Himm, Hpc. done.
  - right. destruct (prev_ (t_writer t)) eqn:Ep; [done|]. injection E as <-.
    destruct (unlink_own i false st t Hi Ep) as (t' & Hi' & E1 & E2). eexists i, _. split; [by apply own_in_thread|]. split; [cbn; congruence|done].
  - by left.
Qed.

(** Where the thread itself may wait next. *)
Lemma advance_own answer i st st' t : queue_inv st -> st_threads st !! i = Some t -> adv answer i st = Some st' ->
  exists t', st_threads st' !! i = Some t' /\
    (joins_waiting i st = true -> exists number, t_pc t' = PcWaiting number /\ prev_ (t_writer t') <> None) /\
    (forall number, t_pc t' = PcWaiting number -> prev_ (t_writer t') <> None -> wake_me_when_head_ (t_writer t') = true).
Proof.
  intros Hq Hi E. unfold joins_waiting. rewrite Hi. unfold advance in E. rewrite Hi in E. cbn [mbind option_bind] in E.
  assert (forall st1 t1 d f pc, st_threads st1 !! i = Some t1 -> (forall number, pc <> PcWaiting number) -> match t_pc t with PcWaitOut _ => False | _ => True end ->
    exists t', st_threads (in_thread i st1 d f pc) !! i = Some t' /\
    (match t_pc t with PcWaitOut _ => bool_decide (writers_tail_ (st_db st) <> None) | _ => false end = true ->
       exists number, t_pc t' = PcWaiting number /\ prev_ (t_writer t') <> None) /\
    (forall number, t_pc t' = PcWaiting number -> prev_ (t_writer t') <> None -> wake_me_when_head_ (t_writer t') = true)) as Hgo.
  { intros st1 t1 d f pc Hi1 Hpc Hno. eexists. split; [by apply own_in_thread|]. cbn. split; [by destruct (t_pc t)|]. intros number ->. by destruct (Hpc number). }
  destruct (t_pc t) eqn:Epc.
  - destruct (begin_memtable _ _ _ _ _) as [[[s sw] d]|]; [|done]. cbn [mbind option_bind] in E. case_match; injection E as <-; by eapply Hgo.
  - injection E as <-. destruct (enqueue_thread i (u64 (writers_upper_ (st_db st) + u64 (1 + u64 (batch_count (updates_of (t_call t)))))) st t Hi) as (t1 & Hi1 & _).
    by eapply Hgo.
  - destruct (backup_in_progress_ _); injection E as <-; eapply Hgo; try done. by destruct (updates_of _).
  - destruct (updates_of _) as [ops|]; [|done]. cbn [mbind option_bind] in E. destruct (number_batch _ _) as [[s b]|]; [|done]. cbn [mbind option_bind] in E.
    destruct (negb (ok s)); [done|]. injection E as <-. eapply Hgo; try done. by destruct (ok answer && _).
  - injection E as <-. by eapply Hgo.
  - destruct (match b with Some _ => _ | None => _ end) as [[s' d']|]; [|done]. cbn [mbind option_bind] in E. injection E as <-. by eapply Hgo.
  - injection E as <-. destruct (unlink_thread i true st t Hi) as (t1 & Hi1 & _). by eapply Hgo.
  - case_match; injection E as <-; by eapply Hgo.
  - done.
  - injection E as <-. by eapply Hgo.
  - injection E as <-. destruct (enqueue_own i (writers_upper_ (st_db st)) st t Hi) as (t1 & Hi1 & _ & Ep).
    rewrite (qi_fresh _ Hq i t Hi ltac:(by rewrite Epc)) in Ep. eexists. split; [by apply own_in_thread|]. cbn. rewrite Ep. split.
    + intros Ht%bool_decide_eq_true. exists number. split; [done|]. by destruct (writers_tail_ _).
    + intros n _. by destruct (writers_tail_ _).
  - case_match; [done|]. injection E as <-. destruct (unlink_thread i false st t Hi) as (t1 & Hi1 & _). by eapply Hgo.
  - case_match; injection E as <-; by eapply Hgo.
  - done.
Qed.

Lemma begin_waits answer i st t : st_threads st !! i = Some t -> t_pc t = PcBegin -> adv answer i st = None -> imm_ (st_db st) <> None.
Proof.
  intros Hi Epc E Himm. unfold advance in E. rewrite Hi in E. cbn [mbind option_bind] in E. rewrite Epc in E. unfold begin_memtable in E. rewrite Himm in E.
  repeat case_match; simplify_option_eq; repeat case_match; simplify_option_eq.
Qed.
End Effects.

(** ** No wake-up is lost *)
Section NoLostWakeUp.
Context (ucmp : Comparator) (ApproximateMemoryUsage : MemTable -> Z) (write_buffer_size : Z).
Notation adv := (advance ucmp ApproximateMemoryUsage write_buffer_size).
Notation wact := (wake_act ucmp ApproximateMemoryUsage write_buffer_size).
Notation wadv := (wake_advance ucmp ApproximateMemoryUsage write_buffer_size).

Lemma signalled_next i st t j tj : st_threads st !! i = Some t -> leaving (t_pc t) = true -> prev_ (t_writer t) = None ->
  next_ (t_writer t) = Some j -> st_threads st !! j = Some tj -> wake_me_when_head_ (t_writer tj) = true -> j ∈ signalled i st.
Proof.
  intros Hi Hl Hp Hn Ej Hw. unfold signalled. rewrite Hi, Hp, Hn, Ej, Hw. destruct (t_pc t); try done; by apply elem_of_singleton.
Qed.

Lemma wake_step_calls answer i ws st' : queue_inv (w_st ws) -> wake_ok ws -> i ∉ asleep ws -> adv answer i (w_st ws) = Some st' ->
  wake_ok {| w_st := st'; asleep := (asleep ws ∖ signalled i (w_st ws)) ∪ (if joins_waiting i (w_st ws) then {[i]} else ∅);
             memtable_asleep := memtable_asleep ws && negb (signals_memtable i (w_st ws)) |}.
Proof.
  intros Hq [Hcalls Hmem Hflag Hbk] Hna E. set (st := w_st ws) in *.
  destruct (st_threads st !! i) as [t|] eqn:Hi; [|by unfold advance in E; rewrite Hi in E].
  destruct (advance_imm _ _ _ _ _ _ _ E) as [Hbk' Himm]. destruct (advance_own _ _ _ _ _ _ _ _ Hq Hi E) as (ti & Hti & Hjoin & Hown).
  pose proof (fun j tj => advance_beside _ _ _ answer i st st' t j tj Hi E) as Hothers. split; cbn [w_st asleep memtable_asleep].
  - intros j [[Hj Hns]%elem_of_difference|Hj]%elem_of_union.
    + assert (j <> i) as Hji by (intros ->; done). destruct (Hcalls j Hj) as (tj & Ej & Hw).
      destruct (Hothers j tj Hji Ej) as (tj' & Ej' & Hb). exists tj'. split; [done|].
      pose proof (beside_prev st i t j tj tj' Hq Hi Ej Hb) as Hp. destruct Hb as (Epc & Ewake & _). unfold waits_for in *. cbn [w_st memtable_asleep]. rewrite Epc.
      destruct (t_pc tj) eqn:Etj; try done.
      * destruct Hw as [Hw1 Hw2]. rewrite Hw2. split; [|done]. by destruct Himm as [->|[? _]].
      * destruct Hw as [Hw1 Hw2]. rewrite Ewake. split; [|done]. destruct Hp as [->|(Hl & Hn & _ & _ & ->)]; [done|]. intros Hnone.
        by apply Hns, (signalled_next i st t j tj).
    + destruct (joins_waiting i st); [|by apply elem_of_empty in Hj]. apply elem_of_singleton in Hj as ->. exists ti. split; [done|].
      destruct (Hjoin eq_refl) as (number & E1 & E2). unfold waits_for. rewrite E1. split; [done|]. by eapply Hown.
  - intros [Hm Hs%negb_true_iff]%andb_true_iff Hi'. destruct Himm as [Himm|(_ & t' & ? & ?)]; [|by exists i, t'].
    rewrite Himm in Hi'. destruct (Hmem Hm Hi') as (j & tj & Ej & Hc). destruct (decide (j = i)) as [->|Hji].
    + rewrite Hi in Ej. injection Ej as <-. destruct (advance_carries _ _ _ _ _ _ _ _ Hq Hi Hc E) as [Hs'|H]; [by rewrite Hs in Hs'|done].
    + destruct (Hothers j tj Hji Ej) as (tj' & Ej' & Hb). exists j, tj'. split; [done|]. exact (beside_carries st i t j tj tj' Hq Hi Ej Hb Hc).
  - intros j tj' number Ej' Epc' Hp'. destruct (decide (j = i)) as [->|Hji]; [rewrite Hti in Ej'; injection Ej' as <-; by eapply Hown|].
    destruct (st_threads st !! j) as [tj|] eqn:Ej.
    + destruct (Hothers j tj Hji Ej) as (tj'' & Ej'' & Hb). rewrite Ej'' in Ej'. injection Ej' as ->.
      pose proof (beside_prev st i t j tj tj' Hq Hi Ej Hb) as Hp. destruct Hb as (Epc & -> & _). apply (Hflag j tj number); [done|congruence|].
      destruct Hp as [<-|(_ & _ & _ & ? & _)]; done.
    + destruct (advance_grows _ _ _ _ _ _ _ E) as (_ & k' & _ & Ek & _). apply (f_equal (lookup j)) in Ek.
      rewrite list_lookup_insert_ne in Ek by done. unfold cores in Ek. rewrite !list_lookup_fmap, Ej, Ej' in Ek. done.
  - rewrite Hbk'. exact Hbk.
Qed.

(** A thread goes to sleep for a reason. *)
Lemma wake_sleep ws i t m : wake_ok ws -> st_threads (w_st ws) !! i = Some t -> (m = true -> memtable_asleep ws = true) ->
  waits_for {| w_st := w_st ws; asleep := asleep ws ∪ {[i]}; memtable_asleep := m |} t ->
  wake_ok {| w_st := w_st ws; asleep := asleep ws ∪ {[i]}; memtable_asleep := m |}.
Proof.
  intros [Hcalls Hmem Hflag Hbk] Hi Hm Ht. split; cbn [w_st asleep memtable_asleep]; [|auto|done|done].
  intros j [Hj| ->%elem_of_singleton]%elem_of_union; [|by exists t]. destruct (Hcalls j Hj) as (tj & Ej & Hw). exists tj. split; [done|].
  unfold waits_for in *. cbn [w_st memtable_asleep] in *. destruct (t_pc tj); try done. destruct Hw as [? Hw]. split; [done|].
  destruct m; [|done]. by rewrite Hm in Hw.
Qed.

Lemma wake_advance_ok answer i ws ws' : queue_inv (w_st ws) -> wake_ok ws -> wadv answer i ws = Some ws' -> wake_ok ws'.
Proof.
  intros Hq Hw. unfold wake_advance. destruct (decide _) as [|Hna]; [done|]. destruct (adv answer i (w_st ws)) as [st'|] eqn:E.
  - intros [= <-]. by eapply wake_step_calls.
  - destruct (st_threads (w_st ws) !! i) as [t|] eqn:Hi; [|done]. cbn [mbind option_bind]. destruct (t_pc t) eqn:Epc; try done; intros [= <-].
    + eapply wake_sleep; [done|done|done|]. unfold waits_for. rewrite Epc. cbn. split; [|done]. by eapply begin_waits.
    + eapply wake_sleep; [done|done|done|]. unfold waits_for. rewrite Epc. cbn.
      assert (prev_ (t_writer t) <> None) as Hp by (intros Hp; unfold advance in E; rewrite Hi in E; cbn in E; by rewrite Epc, Hp in E).
      split; [done|]. by eapply wk_flag.
Qed.

Lemma memtable_turn_ok answer ws ws' : wake_ok ws -> memtable_turn ucmp ApproximateMemoryUsage write_buffer_size answer ws = Some ws' -> wake_ok ws'.
Proof.
  intros [Hcalls Hmem Hflag Hbk]. unfold memtable_turn. destruct (memtable_asleep ws) eqn:Em; [done|]. destruct (imm_ _) as [imm|] eqn:Eimm; cbn.
  - rewrite Eimm. cbn. intros [= <-]. split; cbn [w_st asleep memtable_asleep st_threads st_db]; [|done|done|by destruct (ok answer)].
    intros j [Hnb Hj]%elem_of_filter. destruct (Hcalls j Hj) as (tj & Ej & Hw). exists tj. split; [done|]. unfold waits_for in *. cbn.
    destruct (t_pc tj) eqn:Etj; try done. destruct Hnb. by exists tj.
  - intros [= <-]. split; cbn [w_st asleep memtable_asleep]; [|by rewrite Eimm|done|done].
    intros j Hj. destruct (Hcalls j Hj) as (tj & Ej & Hw). exists tj. split; [done|]. unfold waits_for in *. cbn. destruct (t_pc tj); try done. by destruct Hw.
Qed.

Lemma wake_act_ok a ws ws' : queue_inv (w_st ws) -> wake_ok ws -> wact a ws = Some ws' -> wake_ok ws'.
Proof.
  intros Hq Hw. destruct a as [c|i answer|answer|i|]; cbn; [|by apply wake_advance_ok|by apply memtable_turn_ok| |];
    intros [= <-]; destruct Hw as [Hcalls Hmem Hflag Hbk]; split; cbn [w_st asleep memtable_asleep st_threads st_db]; try done.
  - intros i Hi. destruct (Hcalls i Hi) as (t & Ei & Ht). exists t. split; [by apply lookup_app_l_Some|done].
  - intros Hm Hi. destruct (Hmem Hm Hi) as (i & t & Ei & Ht). exists i, t. split; [by apply lookup_app_l_Some|done].
  - intros i t number [Ei|(_ & (_ & <-)%list_lookup_singleton_Some)]%lookup_app_Some; [by apply (Hflag i)|]. by destruct c.
  - intros j [Hj _]%elem_of_difference. by apply Hcalls.
  - intros j Hj. destruct (Hcalls j Hj) as (t & Ei & Ht). exists t. split; [done|]. unfold waits_for in *. cbn. destruct (t_pc t); try done. by destruct Ht.
Qed.

(** The steps are those of the write path. *)
Notation reach := (reachable ucmp ApproximateMemoryUsage write_buffer_size).
Notation wreach := (wake_reachable ucmp ApproximateMemoryUsage write_buffer_size).

Lemma wake_act_projects st0 a ws ws' : wake_action_ok a -> wact a ws = Some ws' -> reach st0 (w_st ws) -> reach st0 (w_st ws').
Proof.
  intros Ha E Hr. destruct a as [c|i answer|answer|i|]; cbn in E.
  - injection E as <-. by eapply (reach_step _ _ _ _ _ (Start c)).
  - unfold wake_advance in E. destruct (decide _); [done|]. destruct (adv answer i (w_st ws)) as [st'|] eqn:Ea.
    + injection E as <-. by eapply (reach_step _ _ _ _ _ (Advance i answer)).
    + destruct (st_threads _ !! i) as [t|]; [|done]. cbn in E. destruct (t_pc t); try done; by injection E as <-.
  - unfold memtable_turn in E. destruct (memtable_asleep ws); [done|]. destruct (imm_ (st_db (w_st ws))) eqn:Eimm; [|by injection E as <-].
    destruct (act _ _ _ _ _) as [st'|] eqn:Ea; [|done]. cbn in E. injection E as <-. by eapply (reach_step _ _ _ _ _ (Flush answer)).
  - by injection E as <-.
  - by injection E as <-.
Qed.

Lemma wake_reachable_ok seq log ws : wreach (awake (opened seq log)) ws -> reach (opened seq log) (w_st ws) /\ wake_ok ws.
Proof.
  induction 1 as [|ws a ws' _ [IHr IHw] Ha E].
  - split; [apply reach_start|]. split; cbn; done.
  - split; [by eapply wake_act_projects|]. eapply wake_act_ok; [|exact IHw|exact E]. by eapply reachable_queue.
Qed.
End NoLostWakeUp.

(** ** Every call can finish, and the memtable is not forgotten *)
Section Finish.
Context (ucmp : Comparator) `{Hc : !ComparatorOk ucmp all_keys} (ApproximateMemoryUsage : MemTable -> Z) (write_buffer_size : Z).
Notation adv := (advance ucmp ApproximateMemoryUsage write_buffer_size).
Notation wact := (wake_act ucmp ApproximateMemoryUsage write_buffer_size).
Notation wruns := (wake_run ucmp ApproximateMemoryUsage write_buffer_size).
Notation wreach := (wake_reachable ucmp ApproximateMemoryUsage write_buffer_size).

Definition all_steps (st : State) : Z := total (fun k => steps_left (k_pc k)) (cores st).

Definition closer (st st' : State) : Prop := demand (cores st') = demand (cores st) /\ all_steps st' < all_steps st.

Lemma nearer_closer i st st' : nearer i st st' -> closer st st'.
Proof.
  intros (t & k' & Hi & Ek & Ecall & Hlt & _). unfold closer, demand, all_steps. rewrite Ek, !(total_insert _ _ _ _ _ (cores_lookup st i t Hi)).
  cbn [core k_call k_pc]. rewrite Ecall. split; lia.
Qed.

Lemma closer_threads st1 st st' : st_threads st1 = st_threads st -> closer st1 st' -> closer st st'.
Proof. unfold closer, all_steps, cores. by intros ->. Qed.

(** Whatever SequenceWriteBegin decides, unless it waits. *)
Lemma begin_nearer i st st' t : st_threads st !! i = Some t -> t_pc t = PcBegin -> adv OK i st = Some st' -> nearer i st st'.
Proof.
  intros Hi Epc E. unfold advance in E. rewrite Hi in E. cbn [mbind option_bind] in E. rewrite Epc in E.
  destruct (begin_memtable _ _ _ _ _) as [[[s sw] d]|] eqn:Eb; [|done]. cbn [mbind option_bind] in E.
  assert (backup_in_progress_ d = backup_in_progress_ (st_db st)) as Hbk by (unfold begin_memtable in Eb; repeat case_match; by simplify_eq).
  destruct (ok s); injection E as <-; (eapply nearer_in_thread; [done|done|by eapply same_cores|done|by rewrite Epc|done]).
Qed.

Lemma wake_run_app acts1 : forall acts2 ws, wruns (acts1 ++ acts2) ws = ws1 ← wruns acts1 ws; wruns acts2 ws1.
Proof. induction acts1 as [|a acts1 IH]; intros acts2 ws; [done|]. cbn [app wake_run]. destruct (wact a ws); cbn; [apply IH|done]. Qed.

Lemma wake_reachable_run acts : forall ws0 ws ws', Forall wake_action_ok acts -> wreach ws0 ws -> wruns acts ws = Some ws' -> wreach ws0 ws'.
Proof.
  induction acts as [|a acts IH]; intros ws0 ws ws' Hok Hr E; [by injection E as <-|]. apply Forall_cons in Hok as [Ha Hok]. cbn in E.
  destruct (wact a ws) as [ws1|] eqn:E1; [|done]. cbn in E. eapply IH; [done| |exact E]. by eapply wake_step.
Qed.

Lemma no_help_ok acts : Forall no_help acts -> Forall wake_action_ok acts.
Proof. intros H. eapply Forall_impl; [exact H|]. by intros [| | | |]. Qed.

Section Round.
Context (seq0 log : Z) (H0 : 0 <= seq0).

(** A thread that is awake and need not wait goes on. *)
Lemma awake_goes_on ws i t : wreach (awake (opened seq0 log)) ws -> seq0 + demand (cores (w_st ws)) <= kMaxSequenceNumber - 2 ^ 31 ->
  i ∉ asleep ws -> st_threads (w_st ws) !! i = Some t -> ~ finished (t_pc t) -> (t_pc t = PcBegin -> imm_ (st_db (w_st ws)) = None) ->
  (forall number, t_pc t = PcWaiting number -> prev_ (t_writer t) = None) ->
  exists ws', wact (WAdvance i OK) ws = Some ws' /\ closer (w_st ws) (w_st ws').
Proof.
  intros Hr Hd Hna Hi Hnf Himm Hwait. destruct (wake_reachable_ok _ _ _ _ _ _ Hr) as [Hr' Hw]. pose proof (issued_demand (cores (w_st ws))) as Hid.
  destruct (can_advance ucmp ApproximateMemoryUsage write_buffer_size seq0 (w_st ws) i t H0) as (st' & E & Hn); try done.
  - eapply reachable_inv; [done|done|exact Hr'|lia].
  - apply Hw.
  - lia.
  - cbn. unfold wake_advance. rewrite decide_False by done. rewrite E. eexists. split; [done|]. by eapply nearer_closer.
Qed.

(** The memtable thread, awake, writes imm_ and wakes up the writers that wait for it. *)
Lemma memtable_helps ws i t : wreach (awake (opened seq0 log)) ws -> seq0 + demand (cores (w_st ws)) <= kMaxSequenceNumber - 2 ^ 31 ->
  st_threads (w_st ws) !! i = Some t -> t_pc t = PcBegin -> imm_ (st_db (w_st ws)) <> None -> memtable_asleep ws = false ->
  exists ws', wruns [WMemtable OK; WAdvance i OK] ws = Some ws' /\ closer (w_st ws) (w_st ws').
Proof.
  intros Hr Hd Hi Epc Himm Hm. destruct (imm_ (st_db (w_st ws))) as [imm|] eqn:Eimm; [|done]. clear Himm.
  destruct (wact (WMemtable OK) ws) as [ws1|] eqn:E1; [|cbn in E1; unfold memtable_turn in E1; rewrite Hm, Eimm in E1; cbn in E1; by rewrite Eimm in E1].
  assert (wreach (awake (opened seq0 log)) ws1) as Hr1 by (by eapply (wake_step _ _ _ _ ws (WMemtable OK))).
  pose proof E1 as E1'. cbn in E1'. unfold memtable_turn in E1'. rewrite Hm, Eimm in E1'. cbn in E1'. rewrite Eimm in E1'. cbn in E1'. injection E1' as <-.
  destruct (awake_goes_on _ i t Hr1) as (ws' & E & Hcl); cbn [w_st asleep st_threads st_db]; try done.
  - intros [Hnb _]%elem_of_filter. apply Hnb. by exists t.
  - by rewrite Epc.
  - by rewrite Epc.
  - exists ws'. cbn [wake_run]. rewrite E1. cbn [mbind option_bind]. rewrite E. split; [done|]. exact (closer_threads _ (w_st ws) _ eq_refl Hcl).
Qed.

Lemma wake_round ws : wreach (awake (opened seq0 log)) ws -> seq0 + demand (cores (w_st ws)) <= kMaxSequenceNumber - 2 ^ 31 ->
  all_steps (w_st ws) <> 0 -> exists acts ws', wruns acts ws = Some ws' /\ Forall no_help acts /\ closer (w_st ws) (w_st ws').
Proof.
  intros Hr Hd Hn. destruct (wake_reachable_ok _ _ _ _ _ _ Hr) as [Hr' Hw]. destruct (all_finished (w_st ws)) as [|(i0 & t0 & Hi0 & Hn0)]; [done|].
  destruct (head_of_queue (w_st ws) i0 t0 (reachable_queue _ _ _ _ _ _ Hr') Hi0 Hn0) as (i & t & Hi & Hnf & Hwait).
  assert (i ∈ asleep ws -> waits_for ws t) as Hsleep.
  { intros Hin. destruct (wk_calls _ Hw i Hin) as (t' & Hi' & H). rewrite Hi in Hi'. by injection Hi' as <-. }
  destruct (decide (at_begin (w_st ws) i)) as [(t' & Hi' & Epc)|Hnb].
  - rewrite Hi in Hi'. injection Hi' as <-. unfold waits_for in Hsleep. rewrite Epc in Hsleep. destruct (imm_ (st_db (w_st ws))) as [imm|] eqn:Eimm.
    + destruct (memtable_asleep ws) eqn:Em.
      * assert (i ∉ asleep ws) as Hna by (intros Hin; by destruct (Hsleep Hin)).
        destruct (wact (WAdvance i OK) ws) as [ws1|] eqn:E1; cbn in E1; unfold wake_advance in E1; rewrite decide_False in E1 by done;
          destruct (adv OK i (w_st ws)) as [st'|] eqn:Ea; rewrite ?Hi in E1; cbn in E1; rewrite ?Epc in E1; try done; injection E1 as <-.
        -- exists [WAdvance i OK]. eexists. split; [cbn; unfold wake_advance; rewrite decide_False, Ea by done; reflexivity|].
           split; [by repeat constructor|]. by eapply nearer_closer, begin_nearer.
        -- set (ws1 := {| w_st := w_st ws; asleep := asleep ws ∪ {[i]}; memtable_asleep := false |}).
           assert (wact (WAdvance i OK) ws = Some ws1) as E1 by (cbn; unfold wake_advance; rewrite decide_False, Ea, Hi by done; cbn; by rewrite Epc).
           destruct (memtable_helps ws1 i t) as (ws' & E & Hcl); try done; [eapply (wake_step _ _ _ _ ws (WAdvance i OK)); done|cbn; by rewrite Eimm|].
           exists (WAdvance i OK :: [WMemtable OK; WAdvance i OK]), ws'. split; [cbn [wake_run] in *; by rewrite E1|]. split; [by repeat constructor|done].
      * destruct (memtable_helps ws i t) as (ws' & E & Hcl); try done; [by rewrite Eimm|].
        exists [WMemtable OK; WAdvance i OK], ws'. split; [done|]. split; [by repeat constructor|done].
    + destruct (awake_goes_on ws i t) as (ws' & E & Hcl); try done; [intros Hin; by destruct (Hsleep Hin)|].
      exists [WAdvance i OK], ws'. split; [cbn [wake_run]; by rewrite E|]. split; [by repeat constructor|done].
  - assert (t_pc t <> PcBegin) as Hnb' by (intros Epc; apply Hnb; by exists t).
    destruct (awake_goes_on ws i t) as (ws' & E & Hcl); try done.
    + intros Hin. apply Hsleep in Hin. unfold waits_for in Hin. destruct (t_pc t) eqn:Epc; try done. destruct Hin as [Hp _]. by rewrite (Hwait _ eq_refl) in Hp.
    + exists [WAdvance i OK], ws'. split; [cbn [wake_run]; by rewrite E|]. split; [by repeat constructor|done].
Qed.

Lemma all_steps_nonneg st : 0 <= all_steps st.
Proof.
  unfold all_steps, total. induction (cores st) as [|k ks IH]; cbn [foldr]; [lia|]. pose proof (steps_left_nonneg (k_pc k)). lia.
Qed.

Lemma all_steps_zero st : all_steps st = 0 -> Forall (fun t => finished (t_pc t)) (st_threads st).
Proof.
  unfold all_steps, cores. induction (st_threads st) as [|t ts IH]; [constructor|]. cbn [map total foldr core k_pc]. intros H.
  assert (0 <= foldr (fun k n => steps_left (k_pc k) + n) 0 (map core ts)) as Hpos.
  { clear. induction ts as [|t ts IH]; simpl; [lia|]. pose proof (steps_left_nonneg (t_pc t)). lia. }
  pose proof (steps_left_nonneg (t_pc t)). constructor; [unfold finished; lia|]. apply IH. unfold total. lia.
Qed.

Lemma wake_finish ws : wreach (awake (opened seq0 log)) ws -> seq0 + demand (cores (w_st ws)) <= kMaxSequenceNumber - 2 ^ 31 ->
  exists acts ws', wruns acts ws = Some ws' /\ Forall no_help acts /\ wreach (awake (opened seq0 log)) ws' /\ all_steps (w_st ws') = 0.
Proof.
  remember (Z.to_nat (all_steps (w_st ws))) as n eqn:En. revert ws En. induction (lt_wf n) as [n _ IH]. intros ws -> Hr Hd.
  destruct (decide (all_steps (w_st ws) = 0)) as [E|E]; [by exists [], ws|].
  destruct (wake_round ws Hr Hd E) as (acts & ws1 & E1 & Hno & Hd1 & Hlt). pose proof (all_steps_nonneg (w_st ws1)).
  assert (wreach (awake (opened seq0 log)) ws1) as Hr1 by (eapply wake_reachable_run; [by apply no_help_ok|exact Hr|exact E1]).
  destruct (IH (Z.to_nat (all_steps (w_st ws1))) ltac:(lia) ws1 eq_refl Hr1 ltac:(lia)) as (acts' & ws2 & E2 & Hno2 & H2).
  exists (acts ++ acts'), ws2. split; [by rewrite wake_run_app, E1|]. split; [by apply Forall_app|done].
Qed.
End Round.
End Finish.

(** ** The claim *)

(** C21. No wake-up is lost and every call can finish.  Take any state that
    concurrent Write and GetSnapshot calls, the memtable thread, failures of
    the file system and spurious wake-ups lead to, without backups.  A call
    that sleeps does so for a reason and will be told: either imm_ is there and
    the memtable thread is awake, or the call is not the head of the queue and
    its wake_me_when_head_ is set.  When the memtable thread sleeps although
    imm_ is there, some call still has the duty to publish imm_ and to signal
    it.  And there is a schedule of successful steps of threads that are awake,
    without any spurious wake-up, after which every call has returned, nobody
    sleeps and, if imm_ is there, the memtable thread is awake to write it. *)
Theorem no_lost_wakeup (ucmp : Comparator) (Hc : ComparatorOk ucmp all_keys) (usage : MemTable -> Z) (size seq0 log : Z) (ws : Sleepers) :
  0 <= seq0 -> wake_reachable ucmp usage size (awake (opened seq0 log)) ws ->
  seq0 + demand (cores (w_st ws)) <= kMaxSequenceNumber - 2 ^ 31 ->
  (forall i, i ∈ asleep ws -> exists t, st_threads (w_st ws) !! i = Some t /\ waits_for ws t) /\
  (memtable_asleep ws = true -> imm_ (st_db (w_st ws)) <> None -> exists i t, st_threads (w_st ws) !! i = Some t /\ carries t) /\
  exists acts ws', wake_run ucmp usage size acts ws = Some ws' /\ Forall no_help acts /\
    Forall (fun t => finished (t_pc t)) (st_threads (w_st ws')) /\ (forall i, i ∉ asleep ws') /\
    (imm_ (st_db (w_st ws')) <> None -> memtable_asleep ws' = false).
Proof.
  intros H0 Hr Hd. destruct (wake_reachable_ok _ _ _ _ _ _ Hr) as [_ Hw]. split; [apply Hw|]. split; [apply Hw|].
  destruct (wake_finish ucmp usage size seq0 log H0 ws Hr Hd) as (acts & ws' & E & Hno & Hr' & Hz%all_steps_zero).
  destruct (wake_reachable_ok _ _ _ _ _ _ Hr') as [_ Hw']. exists acts, ws'. split; [done|]. split; [done|]. split; [done|]. rewrite Forall_lookup in Hz. split.
  - intros i Hi. destruct (wk_calls _ Hw' i Hi) as (t & Ht & Hf). apply Hz in Ht. unfold waits_for in Hf. by destruct (t_pc t).
  - intros Himm. destruct (memtable_asleep ws') eqn:Em; [|done]. destruct (wk_memtable _ Hw' Em Himm) as (i & t & Ht & _ & Hf).
    apply Hz in Ht. by destruct (t_pc t).
Qed.

(** The memtable thread sleeps; 0 switches memtables and joins the queue, 1
    wants to switch too, sleeps and wakes up the memtable thread, 2 wants a
    snapshot and sleeps behind 0. *)
Definition two_asleep : list WakeAction :=
  [WMemtable OK; WStart (CallWrite None false); WAdvance 0 OK; WAdvance 0 OK; WStart (CallWrite None false); WAdvance 1 OK;
   WStart CallGetSnapshot; WAdvance 2 OK; WAdvance 2 OK].
Definition two_asleep_state : Sleepers :=
  default (awake (opened 0 5)) (wake_run BytewiseComparator (fun _ => 0) 100 two_asleep (awake (opened 0 5))).

Lemma no_lost_wakeup_witness :
  1%nat ∈ asleep two_asleep_state /\ 2%nat ∈ asleep two_asleep_state /\
  exists acts ws', wake_run BytewiseComparator (fun _ => 0) 100 acts two_asleep_state = Some ws' /\ Forall no_help acts /\
    Forall (fun t => finished (t_pc t)) (st_threads (w_st ws')) /\ (forall i, i ∉ asleep ws') /\
    (imm_ (st_db (w_st ws')) <> None -> memtable_asleep ws' = false).
Proof.
  split; [apply (bool_decide_eq_true_1 _); vm_compute; reflexivity|]. split; [apply (bool_decide_eq_true_1 _); vm_compute; reflexivity|].
  apply (no_lost_wakeup BytewiseComparator BytewiseComparator_ok (fun _ => 0) 100 0 5 two_asleep_state).
  - lia.
  - eapply (wake_reachable_run _ _ _ two_asleep); [repeat constructor|apply wake_start|vm_compute; reflexivity].
  - vm_compute. discriminate.
Defined.
