(* ===== verification/VersionEdit.v ===== *)
(** * Version edits (db/version_edit.h, db/version_edit.cc)

    A VersionEdit is the delta between two versions of the tree: files and
    guards added and deleted per level, and counters.  It is written to the
    MANIFEST as a sequence of tagged fields.  The file models the edit, the
    calls that fill it, EncodeTo and DecodeFrom, and proves that decoding an
    encoded edit gives its persistent part back. *)

From Stdlib Require Import ZArith Lia Bool String.
From stdpp Require Import base list.
From S2P Require Import Prelude Coding DbFormat Status.

Set Default Goal Selector "!".
Local Open Scope Z_scope.

(** ** Files and guards

    An InternalKey is the string it holds, empty for a key that is not set. *)
Record FileMetaData := {
  fm_refs : Z;
  fm_allowed_seeks : Z;
  fm_number : Z;
  fm_file_size : Z;
  fm_smallest : bytes;
  fm_largest : bytes;
}.

Definition new_FileMetaData : FileMetaData :=
  {| fm_refs := 0; fm_allowed_seeks := Z.shiftl 1 30; fm_number := 0; fm_file_size := 0;
     fm_smallest := []; fm_largest := [] |}.

Record GuardMetaData := {
  gm_refs : Z;
  gm_level : Z;
  gm_number_segments : Z;
  gm_guard_key : bytes;
  gm_smallest : bytes;
  gm_largest : bytes;
  gm_files : list Z;
  gm_file_metas : list FileMetaData;
}.

Definition new_GuardMetaData : GuardMetaData :=
  {| gm_refs := 0; gm_level := -1; gm_number_segments := 0; gm_guard_key := []; gm_smallest := [];
     gm_largest := []; gm_files := []; gm_file_metas := [] |}.

(** ** Arrays with one vector per level *)

Definition levels (A : Type) := list (list A).

Definition no_levels {A} : levels A := replicate (Z.to_nat kNumLevels) [].

Definition push_level {A} (level : Z) (x : A) (ls : levels A) : levels A :=
  alter (fun l => l ++ [x]) (Z.to_nat level) ls.

(** ** std::set as the ordered list of its elements *)
Section OrderedSet.
Context {A : Type} (less : A -> A -> bool).

Fixpoint set_insert (x : A) (l : list A) : list A :=
  match l with
  | [] => [x]
  | y :: l' => if less x y then x :: l else if less y x then y :: set_insert x l' else l
  end.
End OrderedSet.

(** The order of std::pair<int, uint64_t>. *)
Definition pair_less (p q : Z * Z) : bool :=
  (fst p <? fst q) || ((fst p =? fst q) && (snd p <? snd q)).

(** ** VersionEdit

    A counter with its has_ flag is an option; a counter that is not set has
    the value 0, and the comparator name the value of the empty string. *)
Record VersionEdit := {
  ve_comparator : option bytes;
  ve_log_number : option Z;
  ve_prev_log_number : option Z;
  ve_next_file_number : option Z;
  ve_last_sequence : option Z;
  ve_compact_pointers : list (Z * bytes);
  ve_deleted_files : list (Z * Z);
  ve_new_files : list (Z * FileMetaData);
  ve_sentinel_files : levels FileMetaData;
  ve_sentinel_file_nos : levels Z;
  ve_deleted_sentinel_files : list (Z * Z);
  ve_new_guards : levels GuardMetaData;
  ve_new_complete_guards : levels GuardMetaData;
  ve_deleted_guards : list (Z * bytes);
}.

(** The constructor, and Clear, which keeps what it does not name. *)
Definition new_VersionEdit : VersionEdit :=
  {| ve_comparator := None; ve_log_number := None; ve_prev_log_number := None; ve_next_file_number := None;
     ve_last_sequence := None; ve_compact_pointers := []; ve_deleted_files := []; ve_new_files := [];
     ve_sentinel_files := no_levels; ve_sentinel_file_nos := no_levels; ve_deleted_sentinel_files := [];
     ve_new_guards := no_levels; ve_new_complete_guards := no_levels; ve_deleted_guards := [] |}.

Definition ve_Clear (e : VersionEdit) : VersionEdit :=
  {| ve_comparator := None; ve_log_number := None; ve_prev_log_number := None; ve_next_file_number := None;
     ve_last_sequence := None; ve_compact_pointers := ve_compact_pointers e; ve_deleted_files := [];
     ve_new_files := []; ve_sentinel_files := no_levels; ve_sentinel_file_nos := ve_sentinel_file_nos e;
     ve_deleted_sentinel_files := []; ve_new_guards := no_levels;
     ve_new_complete_guards := ve_new_complete_guards e; ve_deleted_guards := [] |}.

(** The counters, set together; the calls below set one each. *)
Definition with_counters (e : VersionEdit) (c : option bytes) (l p n s : option Z) : VersionEdit :=
  {| ve_comparator := c; ve_log_number := l; ve_prev_log_number := p; ve_next_file_number := n;
     ve_last_sequence := s; ve_compact_pointers := ve_compact_pointers e; ve_deleted_files := ve_deleted_files e;
     ve_new_files := ve_new_files e; ve_sentinel_files := ve_sentinel_files e;
     ve_sentinel_file_nos := ve_sentinel_file_nos e; ve_deleted_sentinel_files := ve_deleted_sentinel_files e;
     ve_new_guards := ve_new_guards e; ve_new_complete_guards := ve_new_complete_guards e;
     ve_deleted_guards := ve_deleted_guards e |}.

Definition SetComparatorName (e : VersionEdit) (name : bytes) : VersionEdit :=
  with_counters e (Some name) (ve_log_number e) (ve_prev_log_number e) (ve_next_file_number e) (ve_last_sequence e).
Definition SetLogNumber (e : VersionEdit) (num : Z) : VersionEdit :=
  with_counters e (ve_comparator e) (Some num) (ve_prev_log_number e) (ve_next_file_number e) (ve_last_sequence e).
Definition SetPrevLogNumber (e : VersionEdit) (num : Z) : VersionEdit :=
  with_counters e (ve_comparator e) (ve_log_number e) (Some num) (ve_next_file_number e) (ve_last_sequence e).
Definition SetNextFile (e : VersionEdit) (num : Z) : VersionEdit :=
  with_counters e (ve_comparator e) (ve_log_number e) (ve_prev_log_number e) (Some num) (ve_last_sequence e).
Definition SetLastSequence (e : VersionEdit) (seq : Z) : VersionEdit :=
  with_counters e (ve_comparator e) (ve_log_number e) (ve_prev_log_number e) (ve_next_file_number e) (Some seq).

(** The containers, set together. *)
Definition with_containers (e : VersionEdit) (cp : list (Z * bytes)) (df : list (Z * Z))
    (nf : list (Z * FileMetaData)) (sf : levels FileMetaData) (sn : levels Z) (ds : list (Z * Z))
    (ng nc : levels GuardMetaData) (dg : list (Z * bytes)) : VersionEdit :=
  {| ve_comparator := ve_comparator e; ve_log_number := ve_log_number e; ve_prev_log_number := ve_prev_log_number e;
     ve_next_file_number := ve_next_file_number e; ve_last_sequence := ve_last_sequence e;
     ve_compact_pointers := cp; ve_deleted_files := df; ve_new_files := nf; ve_sentinel_files := sf;
     ve_sentinel_file_nos := sn; ve_deleted_sentinel_files := ds; ve_new_guards := ng;
     ve_new_complete_guards := nc; ve_deleted_guards := dg |}.

Definition SetCompactPointer (e : VersionEdit) (level : Z) (key : bytes) : VersionEdit :=
  with_containers e (ve_compact_pointers e ++ [(level, key)]) (ve_deleted_files e) (ve_new_files e)
    (ve_sentinel_files e) (ve_sentinel_file_nos e) (ve_deleted_sentinel_files e) (ve_new_guards e)
    (ve_new_complete_guards e) (ve_deleted_guards e).

Definition push_file (e : VersionEdit) (level : Z) (f : FileMetaData) : VersionEdit :=
  with_containers e (ve_compact_pointers e) (ve_deleted_files e) (ve_new_files e ++ [(level, f)])
    (ve_sentinel_files e) (ve_sentinel_file_nos e) (ve_deleted_sentinel_files e) (ve_new_guards e)
    (ve_new_complete_guards e) (ve_deleted_guards e).

(** A file with everything but number, size and range as constructed. *)
Definition file_meta (number file_size : Z) (smallest largest : bytes) : FileMetaData :=
  {| fm_refs := 0; fm_allowed_seeks := Z.shiftl 1 30; fm_number := number; fm_file_size := file_size;
     fm_smallest := smallest; fm_largest := largest |}.

Definition AddFile (e : VersionEdit) (level file file_size : Z) (smallest largest : bytes) : VersionEdit :=
  push_file e level (file_meta file file_size smallest largest).

Definition AddFileToSentinel (e : VersionEdit) (f : FileMetaData) (level : Z) : VersionEdit :=
  with_containers e (ve_compact_pointers e) (ve_deleted_files e) (ve_new_files e)
    (push_level level f (ve_sentinel_files e)) (ve_sentinel_file_nos e) (ve_deleted_sentinel_files e)
    (ve_new_guards e) (ve_new_complete_guards e) (ve_deleted_guards e).

(** The guard pointer the call also stores is not a field of the model. *)
Definition AddSentinelFile (e : VersionEdit) (level allowed_seeks file_size : Z) (largest smallest : bytes)
    (number refs : Z) : VersionEdit :=
  AddFileToSentinel e
    {| fm_refs := refs; fm_allowed_seeks := allowed_seeks; fm_number := number; fm_file_size := file_size;
       fm_smallest := smallest; fm_largest := largest |} level.

Definition AddSentinelFileNo (e : VersionEdit) (level number : Z) : VersionEdit :=
  with_containers e (ve_compact_pointers e) (ve_deleted_files e) (ve_new_files e) (ve_sentinel_files e)
    (push_level level number (ve_sentinel_file_nos e)) (ve_deleted_sentinel_files e)
    (ve_new_guards e) (ve_new_complete_guards e) (ve_deleted_guards e).

Definition AddGuardFromExisting (e : VersionEdit) (level : Z) (g : GuardMetaData) : VersionEdit :=
  with_containers e (ve_compact_pointers e) (ve_deleted_files e) (ve_new_files e) (ve_sentinel_files e)
    (ve_sentinel_file_nos e) (ve_deleted_sentinel_files e) (push_level level g (ve_new_guards e))
    (ve_new_complete_guards e) (ve_deleted_guards e).

Definition AddCompleteGuardFromExisting (e : VersionEdit) (level : Z) (g : GuardMetaData) : VersionEdit :=
  with_containers e (ve_compact_pointers e) (ve_deleted_files e) (ve_new_files e) (ve_sentinel_files e)
    (ve_sentinel_file_nos e) (ve_deleted_sentinel_files e) (ve_new_guards e)
    (push_level level g (ve_new_complete_guards e)) (ve_deleted_guards e).

(** A guard of a level with a key and nothing else. *)
Definition guard_meta (level : Z) (guard_key : bytes) : GuardMetaData :=
  {| gm_refs := 0; gm_level := level; gm_number_segments := 0; gm_guard_key := guard_key; gm_smallest := [];
     gm_largest := []; gm_files := []; gm_file_metas := [] |}.

Definition AddGuard (e : VersionEdit) (level : Z) (guard_key : bytes) : VersionEdit :=
  AddGuardFromExisting e level (guard_meta level guard_key).

Definition AddCompleteGuard (e : VersionEdit) (level : Z) (guard_key : bytes) : VersionEdit :=
  AddCompleteGuardFromExisting e level (guard_meta level guard_key).

Definition AddGuardWithFiles (e : VersionEdit) (level number_segments : Z) (guard_key smallest largest : bytes)
    (files : list Z) : VersionEdit :=
  AddGuardFromExisting e level
    {| gm_refs := 0; gm_level := level; gm_number_segments := number_segments; gm_guard_key := guard_key;
       gm_smallest := smallest; gm_largest := largest; gm_files := files; gm_file_metas := [] |}.

Definition DeleteFile (e : VersionEdit) (level file : Z) : VersionEdit :=
  with_containers e (ve_compact_pointers e) (set_insert pair_less (level, file) (ve_deleted_files e))
    (ve_new_files e) (ve_sentinel_files e) (ve_sentinel_file_nos e) (ve_deleted_sentinel_files e)
    (ve_new_guards e) (ve_new_complete_guards e) (ve_deleted_guards e).

Definition DeleteSentinelFile (e : VersionEdit) (level file : Z) : VersionEdit :=
  with_containers e (ve_compact_pointers e) (ve_deleted_files e) (ve_new_files e) (ve_sentinel_files e)
    (ve_sentinel_file_nos e) (set_insert pair_less (level, file) (ve_deleted_sentinel_files e))
    (ve_new_guards e) (ve_new_complete_guards e) (ve_deleted_guards e).

(** The order of deleted_guards_ calls through a comparator pointer that no
    constructor sets; [guard_less] is the order it happens to give. *)
Definition DeleteGuard (guard_less : Z * bytes -> Z * bytes -> bool) (e : VersionEdit) (level : Z) (guard : bytes)
    : VersionEdit :=
  with_containers e (ve_compact_pointers e) (ve_deleted_files e) (ve_new_files e) (ve_sentinel_files e)
    (ve_sentinel_file_nos e) (ve_deleted_sentinel_files e) (ve_new_guards e) (ve_new_complete_guards e)
    (set_insert guard_less (level, guard) (ve_deleted_guards e)).

(** Adds the number of new guards of each level to an array of counters. *)
Definition UpdateGuards (e : VersionEdit) (guard_array : list Z) : list Z :=
  zip_with (fun n gs => u64 (n + Z.of_nat (List.length gs))) guard_array (ve_new_guards e).

(** ** Encoding *)

Definition kComparator : Z := 1.
Definition kLogNumber : Z := 2.
Definition kNextFileNumber : Z := 3.
Definition kLastSequence : Z := 4.
Definition kCompactPointer : Z := 5.
Definition kDeletedFile : Z := 6.
Definition kNewFile : Z := 7.
Definition kPrevLogNumber : Z := 9.
Definition kDeletedGuard : Z := 10.
Definition kNewGuard : Z := 11.
Definition kFileInsideGuard : Z := 12.
Definition kNewSentinelFile : Z := 13.
Definition kDeletedSentinelFile : Z := 14.
Definition kNewCompleteGuard : Z := 15.
Definition kNewSentinelFileNo : Z := 16.

(** [if (has_x) { PutVarint32(dst, tag); PutVarint64(dst, x); }] *)
Definition put_counter (tag : Z) (dst : bytes) (x : option Z) : bytes :=
  match x with Some x => PutVarint64 (PutVarint32 dst tag) x | None => dst end.

(** A field with a level and a key: compaction pointers, deleted guards. *)
Definition put_level_key (tag : Z) (dst : bytes) (p : Z * bytes) : bytes :=
  PutLengthPrefixedSlice (PutVarint32 (PutVarint32 dst tag) (u32 (fst p))) (snd p).

(** A field with a level and a file number: deleted files. *)
Definition put_level_number (tag : Z) (dst : bytes) (p : Z * Z) : bytes :=
  PutVarint64 (PutVarint32 (PutVarint32 dst tag) (u32 (fst p))) (snd p).

Definition put_new_file (dst : bytes) (p : Z * FileMetaData) : bytes :=
  let f := snd p in
  let dst := PutVarint32 dst kNewFile in
  let dst := PutVarint32 dst (u32 (fst p)) in
  let dst := PutVarint64 dst (fm_number f) in
  let dst := PutVarint64 dst (fm_file_size f) in
  let dst := PutLengthPrefixedSlice dst (fm_smallest f) in
  PutLengthPrefixedSlice dst (fm_largest f).

(** A guard, without its files. *)
Definition put_guard (tag : Z) (dst : bytes) (g : GuardMetaData) : bytes :=
  let dst := PutVarint32 dst tag in
  let dst := PutVarint32 dst (u32 (gm_level g)) in
  let dst := PutVarint64 dst 0 in
  PutLengthPrefixedSlice dst (gm_guard_key g).

Definition EncodeTo (dst : bytes) (e : VersionEdit) : bytes :=
  let dst := match ve_comparator e with
             | Some name => PutLengthPrefixedSlice (PutVarint32 dst kComparator) name
             | None => dst
             end in
  let dst := put_counter kLogNumber dst (ve_log_number e) in
  let dst := put_counter kPrevLogNumber dst (ve_prev_log_number e) in
  let dst := put_counter kNextFileNumber dst (ve_next_file_number e) in
  let dst := put_counter kLastSequence dst (ve_last_sequence e) in
  let dst := fold_left (put_level_key kCompactPointer) (ve_compact_pointers e) dst in
  let dst := fold_left (put_level_number kDeletedFile) (ve_deleted_files e) dst in
  let dst := fold_left put_new_file (ve_new_files e) dst in
  let dst := fold_left (put_level_key kDeletedGuard) (ve_deleted_guards e) dst in
  let dst := fold_left (put_guard kNewGuard) (concat (ve_new_guards e)) dst in
  let dst := fold_left (put_guard kNewCompleteGuard) (concat (ve_new_complete_guards e)) dst in
  fold_left (put_level_number kDeletedSentinelFile) (ve_deleted_sentinel_files e) dst.

(** ** Decoding *)

Definition GetInternalKey (input : bytes) : option (bytes * bytes) := GetLengthPrefixedSlice input.

Definition GetLevel (input : bytes) : option (Z * bytes) :=
  match GetVarint32 input with
  | Some (v, input) => if v <? kNumLevels then Some (v, input) else None
  | None => None
  end.

(** The locals that live across rounds: the range of [g], which is only
    overwritten when a guard has segments, [tag2] and [fnumber]. *)
Record DecodeLocals := { d_smallest : bytes; d_largest : bytes; d_tag2 : Z; d_fnumber : Z }.

Definition get_level_key (input : bytes) : option (Z * bytes * bytes) :=
  match GetLevel input with
  | Some (level, input) =>
      match GetInternalKey input with Some (key, input) => Some (level, key, input) | None => None end
  | None => None
  end.

Definition get_level_number (input : bytes) : option (Z * Z * bytes) :=
  match GetLevel input with
  | Some (level, input) =>
      match GetVarint64 input with Some (n, input) => Some (level, n, input) | None => None end
  | None => None
  end.

Definition get_file (input : bytes) : option (Z * FileMetaData * bytes) :=
  match get_level_number input with
  | Some (level, number, input) =>
      match GetVarint64 input with
      | Some (file_size, input) =>
          match GetInternalKey input with
          | Some (smallest, input) =>
              match GetInternalKey input with
              | Some (largest, input) => Some (level, file_meta number file_size smallest largest, input)
              | None => None
              end
          | None => None
          end
      | None => None
      end
  | None => None
  end.

Definition get_guard (input : bytes) : option (Z * Z * bytes * bytes) :=
  match get_level_number input with
  | Some (level, number_segments, input) =>
      match GetInternalKey input with
      | Some (guard_key, input) => Some (level, number_segments, guard_key, input)
      | None => None
      end
  | None => None
  end.

(** The range of a guard with segments, read inside an assert. *)
Definition get_range (d : DecodeLocals) (input : bytes) : option (DecodeLocals * bytes) :=
  match GetInternalKey input with
  | Some (smallest, input) =>
      match GetInternalKey input with
      | Some (largest, input) =>
          Some ({| d_smallest := smallest; d_largest := largest; d_tag2 := d_tag2 d; d_fnumber := d_fnumber d |}, input)
      | None => None
      end
  | None => None
  end.

(** The files inside a guard: the results of GetVarint32 and GetVarint64 are
    not looked at, so a number that cannot be read keeps its last value. *)
Fixpoint get_guard_files (n : nat) (d : DecodeLocals) (files : list Z) (input : bytes)
    : option (DecodeLocals * list Z * bytes) :=
  match n with
  | O => Some (d, files, input)
  | S n =>
      let '(tag2, input) := match GetVarint32 input with Some (t, input) => (t, input) | None => (d_tag2 d, input) end in
      if negb (tag2 =? kFileInsideGuard) then None
      else
        let '(fnumber, input) :=
          match GetVarint64 input with Some (f, input) => (f, input) | None => (d_fnumber d, input) end in
        get_guard_files n {| d_smallest := d_smallest d; d_largest := d_largest d; d_tag2 := tag2; d_fnumber := fnumber |}
          (files ++ [fnumber]) input
  end.

(** One round of the loop of DecodeFrom, after the tag was read: the edit and
    the rest of the input, or the message of an error. *)
Definition decode_field (guard_less : Z * bytes -> Z * bytes -> bool) (tag : Z) (e : VersionEdit) (d : DecodeLocals)
    (input : bytes) : Outcome (VersionEdit * DecodeLocals * bytes + string) :=
  let counter (msg : string) (set : VersionEdit -> Z -> VersionEdit) :=
    match GetVarint64 input with Some (n, input) => Returned (inl (set e n, d, input)) | None => Returned (inr msg) end in
  let number (msg : string) (set : VersionEdit -> Z -> Z -> VersionEdit) :=
    match get_level_number input with
    | Some (level, n, input) => Returned (inl (set e level n, d, input))
    | None => Returned (inr msg)
    end in
  let level_key (msg : string) (set : VersionEdit -> Z -> bytes -> VersionEdit) :=
    match get_level_key input with
    | Some (level, k, input) => Returned (inl (set e level k, d, input))
    | None => Returned (inr msg)
    end in
  let file (msg : string) :=
    match get_file input with
    | Some (level, f, input) => Returned (inl (push_file e level f, d, input))
    | None => Returned (inr msg)
    end in
  if tag =? kComparator then
    match GetLengthPrefixedSlice input with
    | Some (str, input) => Returned (inl (SetComparatorName e str, d, input))
    | None => Returned (inr "comparator name"%string)
    end
  else if tag =? kLogNumber then counter "log number"%string SetLogNumber
  else if tag =? kPrevLogNumber then counter "previous log number"%string SetPrevLogNumber
  else if tag =? kNextFileNumber then counter "next file number"%string SetNextFile
  else if tag =? kLastSequence then counter "last sequence number"%string SetLastSequence
  else if tag =? kCompactPointer then level_key "compaction pointer"%string SetCompactPointer
  else if tag =? kDeletedFile then number "deleted file"%string DeleteFile
  else if tag =? kDeletedGuard then level_key "deleted guard"%string (DeleteGuard guard_less)
  else if tag =? kDeletedSentinelFile then number "deleted sentinel file"%string DeleteSentinelFile
  else if tag =? kNewFile then file "new-file entry"%string
  else if tag =? kNewSentinelFile then number "new-sentinel-file entry"%string AddSentinelFileNo
  else if tag =? kNewSentinelFileNo then file "new-sentinel-file entry"%string
  else if tag =? kNewGuard then
    match get_guard input with
    | Some (level, number_segments, guard_key, input) =>
        match if 0 <? number_segments then get_range d input else Some (d, input) with
        | None => AssertFailed
        | Some (d, input) =>
            match get_guard_files (Z.to_nat number_segments) d [] input with
            | None => AssertFailed
            | Some (d, files, input) =>
                Returned (inl (AddGuardFromExisting e level
                  {| gm_refs := 0; gm_level := level; gm_number_segments := number_segments; gm_guard_key := guard_key;
                     gm_smallest := d_smallest d; gm_largest := d_largest d; gm_files := files; gm_file_metas := [] |},
                  d, input))
            end
        end
    | None => Returned (inr "new-guard entry"%string)
    end
  else if tag =? kNewCompleteGuard then
    match get_guard input with
    | Some (level, number_segments, guard_key, input) =>
        match if 0 <? number_segments then get_range d input else Some (d, input) with
        | None => AssertFailed
        | Some (d, input) =>
            Returned (inl (AddCompleteGuardFromExisting e level
              {| gm_refs := 0; gm_level := level; gm_number_segments := number_segments; gm_guard_key := guard_key;
                 gm_smallest := d_smallest d; gm_largest := d_largest d; gm_files := []; gm_file_metas := [] |},
              d, input))
        end
    | None => Returned (inr "new-complete-guard entry"%string)
    end
  else Returned (inr "unknown tag"%string).

Definition decode_error (msg : string) : Status :=
  Corruption2 (bytes_of_string "VersionEdit") (bytes_of_string msg).

(** Each round reads at least the byte of its tag. *)
Fixpoint DecodeFrom_loop (fuel : nat) (guard_less : Z * bytes -> Z * bytes -> bool) (e : VersionEdit) (d : DecodeLocals)
    (input : bytes) : Outcome (Status * VersionEdit) :=
  match fuel with
  | O => NoFuel
  | S fuel =>
      match GetVarint32 input with
      | None =>
          match input with
          | [] => Returned (OK, e)
          | _ => Returned (decode_error "invalid tag", e)
          end
      | Some (tag, input) =>
          match decode_field guard_less tag e d input with
          | Returned (inl (e, d, input)) => DecodeFrom_loop fuel guard_less e d input
          | Returned (inr msg) => Returned (decode_error msg, e)
          | AssertFailed => AssertFailed
          | NoFuel => NoFuel
          end
      end
  end.

(** [tag2] and [fnumber] start with what is on the stack. *)
Definition DecodeFrom (guard_less : Z * bytes -> Z * bytes -> bool) (tag2 fnumber : Z) (e : VersionEdit) (src : bytes)
    : Outcome (Status * VersionEdit) :=
  DecodeFrom_loop (S (List.length src)) guard_less (ve_Clear e)
    {| d_smallest := []; d_largest := []; d_tag2 := tag2; d_fnumber := fnumber |} src.

(** ** Properties of the encoding *)
Section RoundTrip.
Context (guard_less : Z * bytes -> Z * bytes -> bool) (d : DecodeLocals).
Context (Hsmallest : d_smallest d = []) (Hlargest : d_largest d = []).

(** Decoding [b] in front of anything takes the edit [e] to [e']. *)
Definition steps (b : bytes) (e e' : VersionEdit) : Prop :=
  forall fuel rest, (List.length (b ++ rest) < fuel)%nat ->
    exists fuel', (List.length rest < fuel')%nat /\
      DecodeFrom_loop fuel guard_less e d (b ++ rest) = DecodeFrom_loop fuel' guard_less e' d rest.

Lemma steps_nil e : steps [] e e.
Proof. intros fuel rest Hf. by exists fuel. Qed.

Lemma steps_app b1 b2 e1 e2 e3 : steps b1 e1 e2 -> steps b2 e2 e3 -> steps (b1 ++ b2) e1 e3.
Proof.
  intros H1 H2 fuel rest Hf. rewrite <- app_assoc in *.
  destruct (H1 fuel (b2 ++ rest) Hf) as (f1 & Hf1 & ->). apply H2. exact Hf1.
Qed.

Lemma steps_field tag b e e' :
  0 <= tag < 2 ^ 32 ->
  (forall rest, decode_field guard_less tag e d (b ++ rest) = Returned (inl (e', d, rest))) ->
  steps (EncodeVarint32 tag ++ b) e e'.
Proof.
  intros Ht Hb [|fuel] rest Hf; [lia|]. cbn [DecodeFrom_loop].
  rewrite <- app_assoc in *. rewrite GetVarint32_EncodeVarint32 by done. rewrite Hb.
  exists fuel. split; [|done]. pose proof (len_EncodeVarint32_bounds tag) as Hl.
  rewrite !length_app in Hf. unfold len in Hl. lia.
Qed.

Lemma steps_fold {A} (enc : A -> bytes) (app_ : VersionEdit -> A -> VersionEdit)
    (ok_ : A -> Prop) (xs : list A) (e : VersionEdit) :
  (forall e x, ok_ x -> steps (enc x) e (app_ e x)) ->
  Forall ok_ xs -> steps (concat (map enc xs)) e (fold_left app_ xs e).
Proof.
  intros Hs H. revert e. induction H as [|x xs Hx _ IH]; intros e; simpl; [apply steps_nil|].
  eapply steps_app; [by apply Hs|]. apply IH.
Qed.

Lemma fold_put {A} (put : bytes -> A -> bytes) (enc : A -> bytes) xs dst :
  (forall dst x, put dst x = dst ++ enc x) -> fold_left put xs dst = dst ++ concat (map enc xs).
Proof.
  intros Hp. revert dst. induction xs as [|x xs IH]; intros dst; simpl; [by rewrite app_nil_r|].
  rewrite IH, Hp. by rewrite <- app_assoc.
Qed.

(** *** Single fields *)

(** Evaluates the switch on a known tag. *)
Ltac decode_tag :=
  unfold decode_field, kComparator, kLogNumber, kNextFileNumber, kLastSequence, kCompactPointer, kDeletedFile, kNewFile, kPrevLogNumber,
    kDeletedGuard, kNewGuard, kNewSentinelFile, kDeletedSentinelFile, kNewCompleteGuard, kNewSentinelFileNo;
  cbn [Z.eqb Pos.eqb].

Definition level_ok (l : Z) : Prop := 0 <= l < kNumLevels.
Definition number_ok (n : Z) : Prop := 0 <= n < 2 ^ 64.
Definition name_ok (s : bytes) : Prop := len s < 2 ^ 32.
(** InternalKey::Encode asserts that the key is not empty. *)
Definition key_ok (k : bytes) : Prop := k <> [] /\ name_ok k.

Lemma GetLevel_put l rest : level_ok l -> GetLevel (EncodeVarint32 (u32 l) ++ rest) = Some (l, rest).
Proof.
  intros [H0 H1]. unfold kNumLevels in H1. unfold GetLevel.
  rewrite u32_small, GetVarint32_EncodeVarint32 by lia. by rewrite (proj2 (Z.ltb_lt _ _)).
Qed.

Definition put_slice (s : bytes) : bytes := PutLengthPrefixedSlice [] s.

Lemma get_slice s rest : name_ok s -> GetLengthPrefixedSlice (put_slice s ++ rest) = Some (s, rest).
Proof. intros H. by apply GetLengthPrefixedSlice_Put. Qed.

Lemma get_key k rest : key_ok k -> GetLengthPrefixedSlice (put_slice k ++ rest) = Some (k, rest).
Proof. intros [_ H]. by apply get_slice. Qed.

Definition enc_counter (tag : Z) (x : option Z) : bytes :=
  match x with Some x => EncodeVarint32 tag ++ EncodeVarint64 x | None => [] end.
Definition enc_level_key (tag : Z) (p : Z * bytes) : bytes :=
  EncodeVarint32 tag ++ EncodeVarint32 (u32 (fst p)) ++ put_slice (snd p).
Definition enc_level_number (tag : Z) (p : Z * Z) : bytes :=
  EncodeVarint32 tag ++ EncodeVarint32 (u32 (fst p)) ++ EncodeVarint64 (snd p).
Definition enc_new_file (p : Z * FileMetaData) : bytes :=
  EncodeVarint32 kNewFile ++ EncodeVarint32 (u32 (fst p)) ++ EncodeVarint64 (fm_number (snd p)) ++
  EncodeVarint64 (fm_file_size (snd p)) ++ put_slice (fm_smallest (snd p)) ++ put_slice (fm_largest (snd p)).
Definition enc_guard (tag : Z) (g : GuardMetaData) : bytes :=
  EncodeVarint32 tag ++ EncodeVarint32 (u32 (gm_level g)) ++ EncodeVarint64 0 ++ put_slice (gm_guard_key g).

Lemma PutLengthPrefixedSlice_slice dst s : PutLengthPrefixedSlice dst s = dst ++ put_slice s.
Proof. apply PutLengthPrefixedSlice_app. Qed.

Ltac put_solve :=
  intros; unfold put_level_key, put_level_number, put_new_file, put_guard, put_counter, enc_level_key,
    enc_level_number, enc_new_file, enc_guard, enc_counter, PutVarint32, PutVarint64;
  rewrite ?PutLengthPrefixedSlice_slice; by rewrite <- ?app_assoc.

(** What of a file or guard is persistent. *)
Definition file_saved (f : FileMetaData) : FileMetaData :=
  file_meta (fm_number f) (fm_file_size f) (fm_smallest f) (fm_largest f).
Definition guard_saved (g : GuardMetaData) : GuardMetaData := guard_meta (gm_level g) (gm_guard_key g).

Definition file_ok (p : Z * FileMetaData) : Prop :=
  level_ok (fst p) /\ number_ok (fm_number (snd p)) /\ number_ok (fm_file_size (snd p)) /\
  key_ok (fm_smallest (snd p)) /\ key_ok (fm_largest (snd p)).
Definition guard_ok (g : GuardMetaData) : Prop := level_ok (gm_level g) /\ key_ok (gm_guard_key g).

Lemma get_level_key_put p rest :
  level_ok (fst p) -> key_ok (snd p) ->
  get_level_key (EncodeVarint32 (u32 (fst p)) ++ put_slice (snd p) ++ rest) = Some (fst p, snd p, rest).
Proof.
  intros Hl Hk. unfold get_level_key, GetInternalKey. rewrite GetLevel_put by done. by rewrite get_key.
Qed.

Lemma get_level_number_put p rest :
  level_ok (fst p) -> number_ok (snd p) ->
  get_level_number (EncodeVarint32 (u32 (fst p)) ++ EncodeVarint64 (snd p) ++ rest) = Some (fst p, snd p, rest).
Proof.
  intros Hl Hn. unfold get_level_number. rewrite GetLevel_put by done. by rewrite GetVarint64_EncodeVarint64.
Qed.

Lemma steps_level_key tag set e p :
  0 <= tag < 2 ^ 32 -> level_ok (fst p) -> key_ok (snd p) ->
  (forall input level k rest, get_level_key input = Some (level, k, rest) ->
     decode_field guard_less tag e d input = Returned (inl (set e level k, d, rest))) ->
  steps (enc_level_key tag p) e (set e (fst p) (snd p)).
Proof.
  intros Ht Hl Hk Hs. apply steps_field; [done|]. intros rest. rewrite <- !app_assoc.
  apply Hs. by apply get_level_key_put.
Qed.

Lemma steps_level_number tag set e p :
  0 <= tag < 2 ^ 32 -> level_ok (fst p) -> number_ok (snd p) ->
  (forall input level n rest, get_level_number input = Some (level, n, rest) ->
     decode_field guard_less tag e d input = Returned (inl (set e level n, d, rest))) ->
  steps (enc_level_number tag p) e (set e (fst p) (snd p)).
Proof.
  intros Ht Hl Hk Hs. apply steps_field; [done|]. intros rest. rewrite <- !app_assoc.
  apply Hs. by apply get_level_number_put.
Qed.

Lemma steps_new_file e p : file_ok p -> steps (enc_new_file p) e (push_file e (fst p) (file_saved (snd p))).
Proof.
  intros (Hl & Hn & Hs & Hk1 & Hk2). apply steps_field; [done|]. intros rest. rewrite <- !app_assoc.
  decode_tag. unfold get_file, GetInternalKey.
  rewrite (get_level_number_put (fst p, fm_number (snd p))) by done. cbn [fst snd].
  rewrite GetVarint64_EncodeVarint64 by done. rewrite get_key by done. by rewrite get_key by done.
Qed.

Lemma get_guard_put g rest :
  guard_ok g ->
  get_guard (EncodeVarint32 (u32 (gm_level g)) ++ EncodeVarint64 0 ++ put_slice (gm_guard_key g) ++ rest) =
    Some (gm_level g, 0, gm_guard_key g, rest).
Proof.
  intros [Hl Hk]. unfold get_guard, GetInternalKey. rewrite (get_level_number_put (gm_level g, 0)) by done.
  cbn [fst snd]. by rewrite get_key.
Qed.

Lemma steps_guard e g :
  guard_ok g -> steps (enc_guard kNewGuard g) e (AddGuardFromExisting e (gm_level g) (guard_saved g)).
Proof.
  intros Hg. apply steps_field; [done|]. intros rest. rewrite <- !app_assoc. decode_tag.
  rewrite get_guard_put by done. change (0 <? 0) with false. change (Z.to_nat 0) with 0%nat. cbn [get_guard_files].
  unfold guard_saved, guard_meta. by rewrite Hsmallest, Hlargest.
Qed.

Lemma steps_complete_guard e g :
  guard_ok g -> steps (enc_guard kNewCompleteGuard g) e (AddCompleteGuardFromExisting e (gm_level g) (guard_saved g)).
Proof.
  intros Hg. apply steps_field; [done|]. intros rest. rewrite <- !app_assoc. decode_tag.
  rewrite get_guard_put by done. change (0 <? 0) with false. change (Z.to_nat 0) with 0%nat. cbn [get_guard_files].
  unfold guard_saved, guard_meta. by rewrite Hsmallest, Hlargest.
Qed.

Lemma steps_counter tag set e x :
  0 <= tag < 2 ^ 32 -> match x with Some n => number_ok n | None => True end ->
  (forall input n rest, GetVarint64 input = Some (n, rest) ->
     decode_field guard_less tag e d input = Returned (inl (set e n, d, rest))) ->
  steps (enc_counter tag x) e (match x with Some n => set e n | None => e end).
Proof.
  intros Ht Hn Hs. destruct x as [n|]; [|apply steps_nil]. apply steps_field; [done|]. intros rest.
  apply Hs. by apply GetVarint64_EncodeVarint64.
Qed.

(** *** What the fields add up to *)

Lemma fold_SetCompactPointer xs e :
  fold_left (fun e p => SetCompactPointer e (fst p) (snd p)) xs e =
  with_containers e (ve_compact_pointers e ++ xs) (ve_deleted_files e) (ve_new_files e) (ve_sentinel_files e)
    (ve_sentinel_file_nos e) (ve_deleted_sentinel_files e) (ve_new_guards e) (ve_new_complete_guards e)
    (ve_deleted_guards e).
Proof.
  revert e. induction xs as [|[l k] xs IH]; intros e; simpl; [destruct e; simpl; by rewrite app_nil_r|].
  rewrite IH. destruct e; unfold with_containers; simpl. by rewrite <- app_assoc.
Qed.

Lemma fold_push_file xs e :
  fold_left (fun e p => push_file e (fst p) (file_saved (snd p))) xs e =
  with_containers e (ve_compact_pointers e) (ve_deleted_files e)
    (ve_new_files e ++ map (fun p => (fst p, file_saved (snd p))) xs) (ve_sentinel_files e)
    (ve_sentinel_file_nos e) (ve_deleted_sentinel_files e) (ve_new_guards e) (ve_new_complete_guards e)
    (ve_deleted_guards e).
Proof.
  revert e. induction xs as [|[l f] xs IH]; intros e; simpl; [destruct e; simpl; by rewrite app_nil_r|].
  rewrite IH. destruct e; unfold with_containers; simpl. by rewrite <- app_assoc.
Qed.

Lemma fold_DeleteFile xs e :
  fold_left (fun e p => DeleteFile e (fst p) (snd p)) xs e =
  with_containers e (ve_compact_pointers e)
    (fold_left (fun l p => set_insert pair_less (fst p, snd p) l) xs (ve_deleted_files e)) (ve_new_files e)
    (ve_sentinel_files e) (ve_sentinel_file_nos e) (ve_deleted_sentinel_files e) (ve_new_guards e)
    (ve_new_complete_guards e) (ve_deleted_guards e).
Proof. revert e. induction xs as [|[l f] xs IH]; intros e; simpl; [by destruct e|]. by rewrite IH. Qed.

Lemma fold_DeleteSentinelFile xs e :
  fold_left (fun e p => DeleteSentinelFile e (fst p) (snd p)) xs e =
  with_containers e (ve_compact_pointers e) (ve_deleted_files e) (ve_new_files e)
    (ve_sentinel_files e) (ve_sentinel_file_nos e)
    (fold_left (fun l p => set_insert pair_less (fst p, snd p) l) xs (ve_deleted_sentinel_files e))
    (ve_new_guards e) (ve_new_complete_guards e) (ve_deleted_guards e).
Proof. revert e. induction xs as [|[l f] xs IH]; intros e; simpl; [by destruct e|]. by rewrite IH. Qed.

Lemma fold_DeleteGuard xs e :
  fold_left (fun e p => DeleteGuard guard_less e (fst p) (snd p)) xs e =
  with_containers e (ve_compact_pointers e) (ve_deleted_files e) (ve_new_files e)
    (ve_sentinel_files e) (ve_sentinel_file_nos e) (ve_deleted_sentinel_files e)
    (ve_new_guards e) (ve_new_complete_guards e)
    (fold_left (fun l p => set_insert guard_less (fst p, snd p) l) xs (ve_deleted_guards e)).
Proof. revert e. induction xs as [|[l f] xs IH]; intros e; simpl; [by destruct e|]. by rewrite IH. Qed.

Definition push_guard (ls : levels GuardMetaData) (g : GuardMetaData) : levels GuardMetaData :=
  push_level (gm_level g) (guard_saved g) ls.

Lemma fold_AddGuard xs e :
  fold_left (fun e g => AddGuardFromExisting e (gm_level g) (guard_saved g)) xs e =
  with_containers e (ve_compact_pointers e) (ve_deleted_files e) (ve_new_files e)
    (ve_sentinel_files e) (ve_sentinel_file_nos e) (ve_deleted_sentinel_files e)
    (fold_left push_guard xs (ve_new_guards e)) (ve_new_complete_guards e) (ve_deleted_guards e).
Proof. revert e. induction xs as [|g xs IH]; intros e; simpl; [by destruct e|]. by rewrite IH. Qed.

Lemma fold_AddCompleteGuard xs e :
  fold_left (fun e g => AddCompleteGuardFromExisting e (gm_level g) (guard_saved g)) xs e =
  with_containers e (ve_compact_pointers e) (ve_deleted_files e) (ve_new_files e)
    (ve_sentinel_files e) (ve_sentinel_file_nos e) (ve_deleted_sentinel_files e)
    (ve_new_guards e) (fold_left push_guard xs (ve_new_complete_guards e)) (ve_deleted_guards e).
Proof. revert e. induction xs as [|g xs IH]; intros e; simpl; [by destruct e|]. by rewrite IH. Qed.

(** The elements of a std::set come in order. *)
Definition set_sorted {A} (less : A -> A -> bool) (l : list A) : Prop :=
  forall i j x y, (i < j)%nat -> l !! i = Some x -> l !! j = Some y -> less x y = true /\ less y x = false.

Lemma set_insert_last {A} (less : A -> A -> bool) l x :
  Forall (fun y => less y x = true /\ less x y = false) l -> set_insert less x l = l ++ [x].
Proof.
  induction 1 as [|y l [H1 H2] _ IH]; [done|]. simpl. by rewrite H2, H1, IH.
Qed.

Lemma fold_set_insert {A B} (less : A * B -> A * B -> bool) l : forall l0,
  set_sorted less (l0 ++ l) ->
  fold_left (fun l p => set_insert less (fst p, snd p) l) l l0 = l0 ++ l.
Proof.
  induction l as [|x l IH]; intros l0 Hs; simpl; [by rewrite app_nil_r|].
  assert (set_insert less (fst x, snd x) l0 = l0 ++ [x]) as ->.
  { rewrite <- (surjective_pairing x). apply set_insert_last, Forall_lookup_2. intros i y Hy.
    apply (Hs i (length l0) y x); [by eapply lookup_lt_Some|by apply lookup_app_l_Some|].
    by rewrite lookup_app_r, Nat.sub_diag. }
  rewrite IH; rewrite <- app_assoc; done.
Qed.

(** One vector per level, each guard in the vector of its level. *)
Definition guards_ok (gs : levels GuardMetaData) : Prop :=
  Z.of_nat (length gs) = kNumLevels /\
  (forall k l, gs !! k = Some l -> Forall (fun g => gm_level g = Z.of_nat k) l) /\
  Forall guard_ok (concat gs).

Lemma fold_push_guard k l : forall ls,
  Forall (fun g => gm_level g = Z.of_nat k) l ->
  fold_left push_guard l ls = alter (fun x => x ++ map guard_saved l) k ls.
Proof.
  induction l as [|g l IH]; intros ls H; simpl.
  - symmetry. apply list_alter_id. intros x. apply app_nil_r.
  - apply Forall_cons in H as [Hg H]. rewrite IH by done. unfold push_guard, push_level. rewrite Hg, Nat2Z.id.
    etrans; [apply list_alter_alter_eq|]. apply list_alter_ext; [|done]. intros x _. unfold compose. by rewrite <- app_assoc.
Qed.

Lemma fold_push_guards gs :
  guards_ok gs -> fold_left push_guard (concat gs) no_levels = map (map guard_saved) gs.
Proof.
  intros (Hlen & Hk & _). unfold kNumLevels in Hlen.
  destruct gs as [|g0 [|g1 [|g2 [|g3 [|g4 [|g5 [|g6 [|? ?]]]]]]]]; try (simpl in Hlen; lia).
  cbn [concat]. rewrite !fold_left_app. cbn [fold_left].
  rewrite (fold_push_guard 0 g0), (fold_push_guard 1 g1), (fold_push_guard 2 g2), (fold_push_guard 3 g3),
    (fold_push_guard 4 g4), (fold_push_guard 5 g5), (fold_push_guard 6 g6) by (by apply Hk). done.
Qed.

(** An edit that can be written: numbers and keys have the width of the
    format, sets are in order, guards are filed under their level. *)
Record edit_ok (e : VersionEdit) : Prop := {
  eo_comparator : match ve_comparator e with Some n => name_ok n | None => True end;
  eo_counters : Forall (fun x => match x with Some n => number_ok n | None => True end)
    [ve_log_number e; ve_prev_log_number e; ve_next_file_number e; ve_last_sequence e];
  eo_pointers : Forall (fun p => level_ok (fst p) /\ key_ok (snd p)) (ve_compact_pointers e);
  eo_deleted : Forall (fun p => level_ok (fst p) /\ number_ok (snd p)) (ve_deleted_files e);
  eo_deleted_set : set_sorted pair_less (ve_deleted_files e);
  eo_files : Forall file_ok (ve_new_files e);
  eo_sentinels : Forall (fun p => level_ok (fst p) /\ number_ok (snd p)) (ve_deleted_sentinel_files e);
  eo_sentinels_set : set_sorted pair_less (ve_deleted_sentinel_files e);
  eo_guards : guards_ok (ve_new_guards e);
  eo_complete : guards_ok (ve_new_complete_guards e);
  eo_deleted_guards : Forall (fun p => level_ok (fst p) /\ key_ok (snd p)) (ve_deleted_guards e);
  eo_deleted_guards_set : set_sorted guard_less (ve_deleted_guards e);
}.

(** What of an edit is written: not the sentinel files, which are computed
    again from the files and guards of the level. *)
Definition edit_saved (e : VersionEdit) : VersionEdit :=
  {| ve_comparator := ve_comparator e; ve_log_number := ve_log_number e; ve_prev_log_number := ve_prev_log_number e;
     ve_next_file_number := ve_next_file_number e; ve_last_sequence := ve_last_sequence e;
     ve_compact_pointers := ve_compact_pointers e; ve_deleted_files := ve_deleted_files e;
     ve_new_files := map (fun p => (fst p, file_saved (snd p))) (ve_new_files e);
     ve_sentinel_files := no_levels; ve_sentinel_file_nos := no_levels;
     ve_deleted_sentinel_files := ve_deleted_sentinel_files e;
     ve_new_guards := map (map guard_saved) (ve_new_guards e);
     ve_new_complete_guards := map (map guard_saved) (ve_new_complete_guards e);
     ve_deleted_guards := ve_deleted_guards e |}.

(** The containers of an edit, field by field. *)
Definition enc_containers (e : VersionEdit) : bytes :=
  concat (map (enc_level_key kCompactPointer) (ve_compact_pointers e)) ++
  concat (map (enc_level_number kDeletedFile) (ve_deleted_files e)) ++
  concat (map enc_new_file (ve_new_files e)) ++
  concat (map (enc_level_key kDeletedGuard) (ve_deleted_guards e)) ++
  concat (map (enc_guard kNewGuard) (concat (ve_new_guards e))) ++
  concat (map (enc_guard kNewCompleteGuard) (concat (ve_new_complete_guards e))) ++
  concat (map (enc_level_number kDeletedSentinelFile) (ve_deleted_sentinel_files e)).

Definition enc_counters (e : VersionEdit) : bytes :=
  match ve_comparator e with Some n => EncodeVarint32 kComparator ++ put_slice n | None => [] end ++
  enc_counter kLogNumber (ve_log_number e) ++ enc_counter kPrevLogNumber (ve_prev_log_number e) ++
  enc_counter kNextFileNumber (ve_next_file_number e) ++ enc_counter kLastSequence (ve_last_sequence e).

Lemma put_counter_enc tag dst x : put_counter tag dst x = dst ++ enc_counter tag x.
Proof. destruct x; [put_solve|]. symmetry. apply app_nil_r. Qed.

Lemma EncodeTo_fields dst e : EncodeTo dst e = dst ++ enc_counters e ++ enc_containers e.
Proof.
  unfold EncodeTo, enc_counters, enc_containers. rewrite !put_counter_enc.
  rewrite (fold_put _ (enc_level_number kDeletedSentinelFile)) by put_solve.
  rewrite (fold_put _ (enc_guard kNewCompleteGuard)) by put_solve.
  rewrite (fold_put _ (enc_guard kNewGuard)) by put_solve.
  rewrite (fold_put _ (enc_level_key kDeletedGuard)) by put_solve.
  rewrite (fold_put _ enc_new_file) by put_solve.
  rewrite (fold_put _ (enc_level_number kDeletedFile)) by put_solve.
  rewrite (fold_put _ (enc_level_key kCompactPointer)) by put_solve.
  destruct (ve_comparator e); [|by rewrite <- !app_assoc].
  rewrite PutLengthPrefixedSlice_slice. unfold PutVarint32. by rewrite <- !app_assoc.
Qed.

Lemma steps_counters e e0 :
  edit_ok e -> ve_comparator e0 = None -> ve_log_number e0 = None -> ve_prev_log_number e0 = None ->
  ve_next_file_number e0 = None -> ve_last_sequence e0 = None ->
  steps (enc_counters e) e0 (with_counters e0 (ve_comparator e) (ve_log_number e) (ve_prev_log_number e)
    (ve_next_file_number e) (ve_last_sequence e)).
Proof.
  intros [Hc Hn _ _ _ _ _ _ _ _ _ _] E1 E2 E3 E4 E5.
  apply Forall_cons in Hn as [Hn1 Hn]. apply Forall_cons in Hn as [Hn2 Hn].
  apply Forall_cons in Hn as [Hn3 Hn]. apply Forall_cons in Hn as [Hn4 _]. unfold enc_counters.
  eapply steps_app with (e2 := match ve_comparator e with Some n => SetComparatorName e0 n | None => e0 end).
  { destruct (ve_comparator e); [|apply steps_nil]. apply steps_field; [done|]. intros rest.
    decode_tag. by rewrite get_slice. }
  eapply steps_app; [apply (steps_counter _ SetLogNumber); [done|done|]|].
  { intros input n rest H. decode_tag. by rewrite H. }
  eapply steps_app; [apply (steps_counter _ SetPrevLogNumber); [done|done|]|].
  { intros input n rest H. decode_tag. by rewrite H. }
  eapply steps_app; [apply (steps_counter _ SetNextFile); [done|done|]|].
  { intros input n rest H. decode_tag. by rewrite H. }
  match goal with |- steps _ ?e4 ?e5 =>
    replace e5 with (match ve_last_sequence e with Some n => SetLastSequence e4 n | None => e4 end) end.
  - apply (steps_counter _ SetLastSequence); [done|done|].
    intros input n rest H. decode_tag. by rewrite H.
  - destruct e0. simpl in *. subst. unfold with_counters.
    by destruct (ve_comparator e), (ve_log_number e), (ve_prev_log_number e), (ve_next_file_number e), (ve_last_sequence e).
Qed.

(** Reduces the projections of an edit whose fields are known. *)
Ltac cbn_edit :=
  cbn [with_containers ve_comparator ve_log_number ve_prev_log_number ve_next_file_number ve_last_sequence
    ve_compact_pointers ve_deleted_files ve_new_files ve_sentinel_files ve_sentinel_file_nos
    ve_deleted_sentinel_files ve_new_guards ve_new_complete_guards ve_deleted_guards app].

Ltac field_reads := intros ? ? ? ? H; decode_tag; by rewrite H.

Lemma steps_containers e e0 :
  edit_ok e -> e0 = with_counters new_VersionEdit (ve_comparator e) (ve_log_number e) (ve_prev_log_number e)
    (ve_next_file_number e) (ve_last_sequence e) ->
  steps (enc_containers e) e0 (edit_saved e).
Proof.
  intros [_ _ Hcp Hdf Hdf' Hnf Hds Hds' Hg Hc Hdg Hdg'] ->. unfold enc_containers.
  eapply steps_app.
  { apply (steps_fold _ (fun e p => SetCompactPointer e (fst p) (snd p)) _ _ _)
      with (2 := Hcp). intros e' p [Hl Hk]. apply steps_level_key; [done..|]. field_reads. }
  eapply steps_app.
  { apply (steps_fold _ (fun e p => DeleteFile e (fst p) (snd p)) _ _ _)
      with (2 := Hdf). intros e' p [Hl Hk]. apply steps_level_number; [done..|]. field_reads. }
  eapply steps_app.
  { apply (steps_fold _ (fun e p => push_file e (fst p) (file_saved (snd p))) _ _ _)
      with (2 := Hnf). apply steps_new_file. }
  eapply steps_app.
  { apply (steps_fold _ (fun e p => DeleteGuard guard_less e (fst p) (snd p)) _ _ _)
      with (2 := Hdg). intros e' p [Hl Hk].
    apply (steps_level_key _ (DeleteGuard guard_less)); [done..|]. field_reads. }
  eapply steps_app.
  { apply (steps_fold _ (fun e g => AddGuardFromExisting e (gm_level g) (guard_saved g)) _ _ _)
      with (2 := proj2 (proj2 Hg)). apply steps_guard. }
  eapply steps_app.
  { apply (steps_fold _
      (fun e g => AddCompleteGuardFromExisting e (gm_level g) (guard_saved g)) _ _ _)
      with (2 := proj2 (proj2 Hc)). apply steps_complete_guard. }
  match goal with |- steps _ ?e1 ?e2 =>
    replace e2 with (fold_left (fun e p => DeleteSentinelFile e (fst p) (snd p)) (ve_deleted_sentinel_files e) e1) end.
  - apply (steps_fold _ (fun e p => DeleteSentinelFile e (fst p) (snd p)) _ _ _)
      with (2 := Hds). intros e' p [Hl Hk]. apply steps_level_number; [done..|]. field_reads.
  - unfold with_counters, new_VersionEdit. rewrite fold_SetCompactPointer. cbn_edit.
    rewrite fold_DeleteFile. cbn_edit. rewrite fold_push_file. cbn_edit. rewrite fold_DeleteGuard. cbn_edit.
    rewrite fold_AddGuard. cbn_edit. rewrite fold_AddCompleteGuard. cbn_edit.
    rewrite fold_DeleteSentinelFile. cbn_edit. unfold edit_saved.
    rewrite !fold_set_insert by done. by rewrite !fold_push_guards.
Qed.
End RoundTrip.

(** ** Decoding arbitrary input *)

Lemma GetLevel_len input l rest : GetLevel input = Some (l, rest) -> (List.length rest <= List.length input)%nat.
Proof.
  unfold GetLevel. destruct (GetVarint32 input) as [[v i]|] eqn:E; [|done]. destruct (v <? kNumLevels); [|done].
  intros [= _ <-]. apply GetVarint32_inv in E as (_ & pre & -> & _). rewrite length_app. lia.
Qed.

Lemma GetVarint64_len input n rest : GetVarint64 input = Some (n, rest) -> (List.length rest <= List.length input)%nat.
Proof. intros (_ & pre & -> & _)%GetVarint64_inv. rewrite length_app. lia. Qed.

Lemma slice_len input s rest :
  GetLengthPrefixedSlice input = Some (s, rest) -> (List.length rest <= List.length input)%nat.
Proof. intros (pre & -> & _)%GetLengthPrefixedSlice_inv. rewrite !length_app. lia. Qed.

(** Case analysis on the reads of a function, keeping what each one consumed. *)
Ltac reads :=
  repeat match goal with
  | |- context [match ?x with Some _ => _ | None => _ end] =>
      let E := fresh "E" in destruct x as [[? ?]|] eqn:E; [|try done];
      first [apply GetLevel_len in E | apply GetVarint64_len in E | apply slice_len in E | idtac]
  end.

Lemma get_level_key_len input l k rest :
  get_level_key input = Some (l, k, rest) -> (List.length rest <= List.length input)%nat.
Proof. unfold get_level_key, GetInternalKey. reads. intros [= _ _ <-]. lia. Qed.

Lemma get_level_number_len input l n rest :
  get_level_number input = Some (l, n, rest) -> (List.length rest <= List.length input)%nat.
Proof. unfold get_level_number. reads. intros [= _ _ <-]. lia. Qed.

Lemma get_file_len input l f rest :
  get_file input = Some (l, f, rest) -> (List.length rest <= List.length input)%nat.
Proof.
  unfold get_file, GetInternalKey. destruct (get_level_number input) as [[[l' n] i]|] eqn:E; [|done].
  apply get_level_number_len in E. reads. intros [= _ _ <-]. lia.
Qed.

Lemma get_guard_len input l n k rest :
  get_guard input = Some (l, n, k, rest) -> (List.length rest <= List.length input)%nat.
Proof.
  unfold get_guard, GetInternalKey. destruct (get_level_number input) as [[[l' n'] i]|] eqn:E; [|done].
  apply get_level_number_len in E. reads. intros [= _ _ _ <-]. lia.
Qed.

Lemma get_range_len d input d' rest :
  get_range d input = Some (d', rest) -> (List.length rest <= List.length input)%nat.
Proof. unfold get_range, GetInternalKey. reads. intros [= _ <-]. lia. Qed.

Lemma get_guard_files_len n : forall d files input d' files' rest,
  get_guard_files n d files input = Some (d', files', rest) -> (List.length rest <= List.length input)%nat.
Proof.
  induction n as [|n IH]; intros d files input d' files' rest; cbn [get_guard_files]; [by intros [= _ _ <-]|].
  assert (exists t i, match GetVarint32 input with Some (t, input) => (t, input) | None => (d_tag2 d, input) end = (t, i) /\
    (List.length i <= List.length input)%nat) as (t & i & -> & Hi).
  { destruct (GetVarint32 input) as [[t i]|] eqn:E; [|by eexists _, _].
    eexists _, _. split; [done|]. apply GetVarint32_inv in E as (_ & pre & -> & _). rewrite length_app. lia. }
  destruct (negb _); [done|].
  assert (exists f i2, match GetVarint64 i with Some (f, input) => (f, input) | None => (d_fnumber d, i) end = (f, i2) /\
    (List.length i2 <= List.length i)%nat) as (f & i2 & -> & Hi2).
  { destruct (GetVarint64 i) as [[f i2]|] eqn:E; [|by eexists _, _].
    eexists _, _. split; [done|]. by apply GetVarint64_len in E. }
  intros H%IH. lia.
Qed.

Lemma decode_field_total guard_less tag e d input :
  match decode_field guard_less tag e d input with
  | Returned (inl (_, _, rest)) => (List.length rest <= List.length input)%nat
  | Returned (inr _) | AssertFailed => True
  | NoFuel => False
  end.
Proof.
  unfold decode_field.
  repeat match goal with
  | |- context [if ?t =? ?k then _ else _] => destruct (t =? k)
  end; try done.
  all: try (destruct (get_file input) as [[[l f] rest]|] eqn:E; [|done]; by apply get_file_len in E).
  all: try (destruct (get_level_number input) as [[[l n] rest]|] eqn:E; [|done]; by apply get_level_number_len in E).
  all: try (destruct (get_level_key input) as [[[l k] rest]|] eqn:E; [|done]; by apply get_level_key_len in E).
  all: try (destruct (GetVarint64 input) as [[n rest]|] eqn:E; [|done]; by apply GetVarint64_len in E).
  all: try (destruct (GetLengthPrefixedSlice input) as [[n rest]|] eqn:E; [|done]; by apply slice_len in E).
  all: destruct (get_guard input) as [[[[l n] k] rest]|] eqn:E; [|done]; apply get_guard_len in E.
  all: destruct (if 0 <? n then get_range d rest else Some (d, rest)) as [[d1 rest1]|] eqn:E1; [|done].
  all: assert (List.length rest1 <= List.length rest)%nat
    by (destruct (0 <? n); [by eapply get_range_len|by injection E1 as _ ->]).
  - destruct (get_guard_files _ _ _ _) as [[[d2 files] rest2]|] eqn:E2; [|done]. apply get_guard_files_len in E2. lia.
  - lia.
Qed.

Lemma decode_error_corruption msg : IsCorruption (decode_error msg) = true.
Proof. unfold decode_error, IsCorruption, Corruption2. by rewrite code_mkStatus. Qed.

Lemma DecodeFrom_loop_total guard_less fuel : forall e d input,
  (List.length input < fuel)%nat ->
  match DecodeFrom_loop fuel guard_less e d input with
  | Returned (st, _) => st = OK \/ IsCorruption st = true
  | AssertFailed => True
  | NoFuel => False
  end.
Proof.
  induction fuel as [|fuel IH]; intros e d input Hf; [lia|]. cbn [DecodeFrom_loop].
  destruct (GetVarint32 input) as [[tag rest]|] eqn:E.
  - apply GetVarint32_inv in E as (_ & pre & -> & Hp). rewrite length_app in Hf.
    pose proof (decode_field_total guard_less tag e d rest) as H.
    destruct (decode_field guard_less tag e d rest) as [[[[e1 d1] r1]|msg]| |]; [|right; apply decode_error_corruption|done|done].
    apply IH. unfold len in Hp. lia.
  - destruct input; [by left|right; apply decode_error_corruption].
Qed.

Lemma DecodeFrom_EncodeTo (guard_less : Z * bytes -> Z * bytes -> bool) (tag2 fnumber : Z) (e : VersionEdit) :
  edit_ok guard_less e ->
  DecodeFrom guard_less tag2 fnumber new_VersionEdit (EncodeTo [] e) = Returned (OK, edit_saved e).
Proof.
  intros Hok.
  set (d := {| d_smallest := []; d_largest := []; d_tag2 := tag2; d_fnumber := fnumber |}).
  assert (steps guard_less d (EncodeTo [] e) new_VersionEdit (edit_saved e)) as H.
  { rewrite EncodeTo_fields, app_nil_l. eapply steps_app; [by apply steps_counters|]. by apply steps_containers. }
  destruct (H (S (List.length (EncodeTo [] e))) []) as (fuel & Hf & E); [rewrite app_nil_r; lia|].
  rewrite app_nil_r in E. unfold DecodeFrom. fold d. change (ve_Clear new_VersionEdit) with new_VersionEdit.
  rewrite E. by destruct fuel; [simpl in Hf; lia|].
Qed.

(** ** Properties *)

(** C29. Decoding an encoded edit: for an edit whose numbers and keys have the
    width of the format, DecodeFrom of what EncodeTo wrote returns OK and the
    persistent part of the edit (counters, comparator, compaction pointers,
    deleted files and guards in the order of the sets, new files with number,
    size and range, guards with level and key, sentinel deletions), with the
    sentinel files and the files inside guards left out. *)
Theorem version_edit_roundtrip (guard_less : Z * bytes -> Z * bytes -> bool) (tag2 fnumber : Z) (e : VersionEdit)
    (Hok : edit_ok guard_less e) :
  DecodeFrom guard_less tag2 fnumber new_VersionEdit (EncodeTo [] e) = Returned (OK, edit_saved e).
Proof. by apply DecodeFrom_EncodeTo. Qed.

Definition example_edit : VersionEdit :=
  AddGuard (AddFile (DeleteFile (DeleteFile (SetLogNumber (SetComparatorName new_VersionEdit [Byte.x61]) 7) 2 9) 1 300)
    1 12 4096 (InternalKey [Byte.x61] 5 1) (InternalKey [Byte.x62] 4 0)) 3 (InternalKey [Byte.x61] 6 1).

Lemma version_edit_roundtrip_witness :
  DecodeFrom (fun _ _ => false) 0 0 new_VersionEdit (EncodeTo [] example_edit) = Returned (OK, edit_saved example_edit).
Proof.
  apply (version_edit_roundtrip (fun _ _ => false) 0 0 example_edit). split; cbn.
  - reflexivity.
  - repeat constructor; discriminate.
  - constructor.
  - repeat constructor; discriminate.
  - intros [|[|i]] [|[|j]] x y Hij Hx Hy; simpl in *; simplify_eq; try lia; split; reflexivity.
  - repeat constructor; discriminate.
  - constructor.
  - intros i j x y _ H. by rewrite lookup_nil in H.
  - split; [reflexivity|]. split.
    + intros [|[|[|[|[|[|[|k]]]]]]] l Hl; simpl in Hl; simplify_eq; repeat constructor.
    + repeat constructor; discriminate.
  - split; [reflexivity|]. split.
    + intros [|[|[|[|[|[|[|k]]]]]]] l Hl; simpl in Hl; simplify_eq; repeat constructor.
    + constructor.
  - constructor.
  - intros i j x y _ H. by rewrite lookup_nil in H.
Defined.

(** Decoding arbitrary bytes: DecodeFrom ends with OK or a Corruption
    status, or at the assert on the files of a guard; it does not run on. *)
Theorem version_edit_decode_total (guard_less : Z * bytes -> Z * bytes -> bool) (tag2 fnumber : Z) (e : VersionEdit)
    (src : bytes) :
  match DecodeFrom guard_less tag2 fnumber e src with
  | Returned (st, _) => st = OK \/ IsCorruption st = true
  | AssertFailed => True
  | NoFuel => False
  end.
Proof. apply DecodeFrom_loop_total. lia. Qed.
