(* ===== verification/Guards.v ===== *)
(** * Searching files and guards (db/version_set.cc)

    The free functions of version_set.cc that look for files and guards of a
    level: FindFile, FindGuard, RangeFitsWithinAGuard, SomeFileOverlapsRange,
    and Version::GetOverlappingInputs and GetOverlappingInputsGuards, which
    collect the inputs of a compaction.

    A guard splits a level by user key: the guards of a level are sorted, the
    keys before the first guard belong to the sentinel and the keys from a
    guard up to the next one belong to that guard.  [guard_slot] numbers these
    parts, 0 for the sentinel and [i + 1] for the guard with index [i]. *)

From Stdlib Require Import ZArith Lia Bool.
From stdpp Require Import base list.
From S2P Require Import Prelude Coding Comparator DbFormat Status VersionEdit.

Set Default Goal Selector "!".
Local Open Scope Z_scope.

Section Search.
Context (ucmp : Comparator).
Notation icmp := (InternalKeyComparator ucmp).

(** ** FindFile *)

Fixpoint FindFile_loop (fuel : nat) (files : list FileMetaData) (key : bytes) (left_ right_ : Z) : option Z :=
  match fuel with
  | O => None
  | S fuel =>
      if left_ <? right_ then
        let mid := u32 (left_ + right_) / 2 in
        match files !! Z.to_nat mid with
        | Some f =>
            if Compare icmp (fm_largest f) key <? 0 then FindFile_loop fuel files key (mid + 1) right_
            else FindFile_loop fuel files key left_ mid
        | None => None
        end
      else Some right_
  end.

Definition FindFile (files : list FileMetaData) (key : bytes) : option Z :=
  FindFile_loop (S (length files)) files key 0 (u32 (len files)).

(** ** FindGuard *)

Definition guard_ukey (g : GuardMetaData) : bytes := ExtractUserKey (gm_guard_key g).

(** The special case for two candidates comes after [mid] is computed and
    before it is used. *)
Fixpoint FindGuard_loop (fuel : nat) (guards : list GuardMetaData) (ukey : bytes) (left_ right_ : Z) : option Z :=
  match fuel with
  | O => None
  | S fuel =>
      if left_ <? right_ then
        let mid := u32 (left_ + right_) / 2 in
        if u32 (left_ + 1) =? right_ then
          match guards !! Z.to_nat right_ with
          | Some g => Some (if 0 <=? Compare ucmp ukey (guard_ukey g) then right_ else left_)
          | None => None
          end
        else
          match guards !! Z.to_nat mid with
          | Some f =>
              if Compare ucmp ukey (guard_ukey f) <? 0 then FindGuard_loop fuel guards ukey left_ (u32 (mid - 1))
              else FindGuard_loop fuel guards ukey mid right_
          | None => None
          end
      else Some right_
  end.

Definition FindGuard (guards : list GuardMetaData) (key : bytes) : option Z :=
  if len guards =? 0 then Some 0
  else
    let parsed_key := snd (ParseInternalKey key ParsedInternalKey_default) in
    FindGuard_loop (S (length guards)) guards (user_key parsed_key) 0 (u32 (len guards - 1)).

(** ** Position of a user key relative to a file or a guard; a NULL key is
    before (or after) everything. *)

Definition AfterFile (k : option bytes) (f : FileMetaData) : bool :=
  match k with Some k => 0 <? Compare ucmp k (ExtractUserKey (fm_largest f)) | None => false end.
Definition BeforeFile (k : option bytes) (f : FileMetaData) : bool :=
  match k with Some k => Compare ucmp k (ExtractUserKey (fm_smallest f)) <? 0 | None => false end.
Definition AfterGuard (k : option bytes) (g : GuardMetaData) : bool :=
  match k with Some k => 0 <=? Compare ucmp k (guard_ukey g) | None => false end.
Definition BeforeGuard (k : option bytes) (g : GuardMetaData) : bool :=
  match k with Some k => Compare ucmp k (guard_ukey g) <? 0 | None => false end.

(** ** RangeFitsWithinAGuard: the loop over the guards from index [i] on. *)
Fixpoint range_fits_loop (i : nat) (guards : list GuardMetaData) (smallest largest : option bytes) : bool :=
  match guards with
  | [] => false
  | g :: rest =>
      if (if decide (i = 0)%nat then BeforeGuard largest g
          else match rest with
               | [] => AfterGuard smallest g
               | g' :: _ => AfterGuard smallest g && BeforeGuard largest g'
               end)
      then true
      else range_fits_loop (S i) rest smallest largest
  end.

Definition RangeFitsWithinAGuard (guards : list GuardMetaData) (smallest largest : option bytes) : bool :=
  range_fits_loop 0 guards smallest largest.

(** ** SomeFileOverlapsRange *)

(** The test of the linear scan. *)
Definition file_overlaps (smallest largest : option bytes) (f : FileMetaData) : bool :=
  negb (AfterFile smallest f || BeforeFile largest f).

Definition SomeFileOverlapsRange (disjoint_sorted_files : bool) (files : list FileMetaData)
    (smallest largest : option bytes) : option bool :=
  if negb disjoint_sorted_files then Some (existsb (file_overlaps smallest largest) files)
  else
    index ← match smallest with
            | Some k => FindFile files (InternalKey k kMaxSequenceNumber kValueTypeForSeek)
            | None => Some 0
            end;
    if len files <=? index then Some false
    else match files !! Z.to_nat index with
         | Some f => Some (negb (BeforeFile largest f))
         | None => None
         end.

(** ** Version::GetOverlappingInputs

    The loop over the files of the level; [ub] and [ue] are user_begin and
    user_end, absent when the argument is NULL. *)
Definition before_range (limit : bytes) (ub : option bytes) : bool :=
  match ub with Some b => Compare ucmp limit b <? 0 | None => false end.
Definition after_range (start : bytes) (ue : option bytes) : bool :=
  match ue with Some e => 0 <? Compare ucmp start e | None => false end.

Fixpoint overlapping_loop (fuel : nat) (files : list FileMetaData) (i : nat) (ub ue : option bytes)
    (inputs : list FileMetaData) : option (list FileMetaData) :=
  match fuel with
  | O => None
  | S fuel =>
      match files !! i with
      | None => Some inputs
      | Some f =>
          let i := S i in
          let file_start := ExtractUserKey (fm_smallest f) in
          let file_limit := ExtractUserKey (fm_largest f) in
          if before_range file_limit ub then overlapping_loop fuel files i ub ue inputs
          else if after_range file_start ue then overlapping_loop fuel files i ub ue inputs
          else
            let inputs := inputs ++ [f] in
            if before_range file_start ub then overlapping_loop fuel files 0 (Some file_start) ue []
            else if after_range file_limit ue then overlapping_loop fuel files 0 ub (Some file_limit) []
            else overlapping_loop fuel files i ub ue inputs
      end
  end.

(** Each restart moves an end of the range to the end of another file, so
    there are at most two restarts per file. *)
Definition overlapping_fuel (n : nat) : nat := (S n * S (2 * n))%nat.

Definition GetOverlappingInputs (files : list FileMetaData) (begin end_ : option bytes) : option (list FileMetaData) :=
  overlapping_loop (overlapping_fuel (length files)) files 0 (ExtractUserKey <$> begin) (ExtractUserKey <$> end_) [].

(** ** Version::GetOverlappingInputsGuards

    [Slice user_key()] asserts that the key has its eight tag bytes; a guard
    without files has an empty smallest and largest key. *)
Definition user_key_checked (k : bytes) : Outcome bytes :=
  if 8 <=? len k then Returned (ExtractUserKey k) else AssertFailed.

Definition range_skips (start limit : bytes) (ub ue : option bytes) : bool :=
  before_range limit ub || after_range start ue.

(** [inputs] gets the first number_segments entries of file_metas. *)
Fixpoint overlapping_guards_loop (guards : list GuardMetaData) (ub ue : option bytes)
    (inputs : list FileMetaData) (guard_inputs : list GuardMetaData)
    : Outcome (list FileMetaData * list GuardMetaData) :=
  match guards with
  | [] => Returned (inputs, guard_inputs)
  | g :: guards =>
      match user_key_checked (gm_smallest g), user_key_checked (gm_largest g) with
      | Returned guard_start, Returned guard_limit =>
          if range_skips guard_start guard_limit ub ue then overlapping_guards_loop guards ub ue inputs guard_inputs
          else overlapping_guards_loop guards ub ue
                 (inputs ++ take (Z.to_nat (gm_number_segments g)) (gm_file_metas g)) (guard_inputs ++ [g])
      | _, _ => AssertFailed
      end
  end.

Definition GetOverlappingInputsGuards (sentinel_files : list FileMetaData) (guards : list GuardMetaData)
    (begin end_ : option bytes) : Outcome (list FileMetaData * list GuardMetaData * list FileMetaData) :=
  let ub := ExtractUserKey <$> begin in
  let ue := ExtractUserKey <$> end_ in
  let add_sentinel_files :=
    existsb (fun f => negb (range_skips (ExtractUserKey (fm_smallest f)) (ExtractUserKey (fm_largest f)) ub ue))
      sentinel_files in
  let sentinel_inputs := if add_sentinel_files then sentinel_files else [] in
  match overlapping_guards_loop guards ub ue sentinel_inputs [] with
  | Returned (inputs, guard_inputs) => Returned (inputs, guard_inputs, sentinel_inputs)
  | AssertFailed => AssertFailed
  | NoFuel => NoFuel
  end.

(** ** The reference: parts of a level *)

(** Guards ascend strictly by user key. *)
Definition guards_sorted (guards : list GuardMetaData) : Prop :=
  forall i j g h, (i < j)%nat -> guards !! i = Some g -> guards !! j = Some h ->
    Compare ucmp (guard_ukey g) (guard_ukey h) < 0.

(** The guard key is at or before the user key. *)
Definition guard_at_or_before (ukey : bytes) (g : GuardMetaData) : bool := 0 <=? Compare ucmp ukey (guard_ukey g).

Definition guard_slot (guards : list GuardMetaData) (ukey : bytes) : nat :=
  prefix_len (guard_at_or_before ukey) guards.

(** Files ascend by largest key. *)
Definition files_by_largest (files : list FileMetaData) : Prop :=
  forall i j f g, (i < j)%nat -> files !! i = Some f -> files !! j = Some g ->
    Compare icmp (fm_largest f) (fm_largest g) <= 0.

Definition file_before (key : bytes) (f : FileMetaData) : bool := Compare icmp (fm_largest f) key <? 0.

(** The keys of a file are internal keys and its range is not empty. *)
Definition file_keys_ok (f : FileMetaData) : Prop :=
  is_ikey (fm_smallest f) /\ is_ikey (fm_largest f) /\ Compare icmp (fm_smallest f) (fm_largest f) <= 0.
End Search.

(** ** Binary searches *)
Section Facts.
Context {ucmp : Comparator} `{!ComparatorOk ucmp all_keys}.
Notation icmp := (InternalKeyComparator ucmp).

Lemma FindFile_loop_spec files key n : forall fuel l r,
  prefix_closed (file_before ucmp key) files -> n = Z.of_nat (prefix_len (file_before ucmp key) files) ->
  len files < 2 ^ 31 -> 0 <= l <= n -> n <= r <= len files -> r - l < Z.of_nat fuel ->
  FindFile_loop ucmp fuel files key l r = Some n.
Proof.
  induction fuel as [|fuel IH]; intros l r Hc Hn Hlen Hl Hr Hf; [lia|]. cbn [FindFile_loop].
  destruct (Z.ltb_spec l r); [|f_equal; lia]. rewrite u32_small by lia.
  pose proof (Z.div_mod (l + r) 2 ltac:(lia)). pose proof (Z.mod_pos_bound (l + r) 2 ltac:(lia)).
  set (mid := (l + r) / 2) in *.
  destruct (lookup_lt_is_Some_2 files (Z.to_nat mid)) as [f Hfile]; [unfold len in *; lia|]. rewrite Hfile.
  pose proof (prefix_len_closed _ _ _ _ Hc Hfile) as Hp. unfold file_before in Hp at 1.
  destruct (Compare icmp (fm_largest f) key <? 0).
  - destruct Hp as [Hp _]. specialize (Hp eq_refl). apply IH; try done; lia.
  - assert (~ (Z.to_nat mid < prefix_len (file_before ucmp key) files)%nat) by (rewrite <- Hp; done).
    apply IH; try done; lia.
Qed.

Lemma FindFile_prefix files key :
  prefix_closed (file_before ucmp key) files -> len files < 2 ^ 31 ->
  FindFile ucmp files key = Some (Z.of_nat (prefix_len (file_before ucmp key) files)).
Proof.
  intros Hc Hlen. pose proof (len_nonneg files). pose proof (prefix_len_le (file_before ucmp key) files).
  unfold FindFile. rewrite u32_small by lia. apply FindFile_loop_spec; try done; unfold len in *; lia.
Qed.

Lemma FindGuard_loop_spec guards ukey n : forall fuel l r,
  prefix_closed (guard_at_or_before ucmp ukey) guards ->
  n = Z.of_nat (pred (guard_slot ucmp guards ukey)) ->
  len guards < 2 ^ 31 -> 0 <= l <= n -> n <= r < len guards -> r - l < Z.of_nat fuel ->
  FindGuard_loop ucmp fuel guards ukey l r = Some n.
Proof.
  induction fuel as [|fuel IH]; intros l r Hc Hn Hlen Hl Hr Hf; [lia|]. cbn [FindGuard_loop].
  destruct (Z.ltb_spec l r); [|f_equal; lia]. rewrite !u32_small by lia.
  assert (forall i g, 0 <= i -> guards !! Z.to_nat i = Some g ->
    (0 <= Compare ucmp ukey (guard_ukey g) <-> i < Z.of_nat (guard_slot ucmp guards ukey))) as Hp.
  { intros i g Hi Hg. pose proof (prefix_len_closed _ _ _ _ Hc Hg) as H2. unfold guard_at_or_before in H2 at 1.
    rewrite Z.leb_le in H2. rewrite H2. unfold guard_slot. lia. }
  destruct (Z.eqb_spec (l + 1) r) as [E|E].
  - destruct (lookup_lt_is_Some_2 guards (Z.to_nat r)) as [g Hg]; [unfold len in *; lia|]. rewrite Hg. f_equal.
    apply Hp in Hg; [|lia]. destruct (Z.leb_spec 0 (Compare ucmp ukey (guard_ukey g))); lia.
  - pose proof (Z.div_mod (l + r) 2 ltac:(lia)). pose proof (Z.mod_pos_bound (l + r) 2 ltac:(lia)).
    set (mid := (l + r) / 2) in *.
    destruct (lookup_lt_is_Some_2 guards (Z.to_nat mid)) as [g Hg]; [unfold len in *; lia|]. rewrite Hg.
    apply Hp in Hg; [|lia]. destruct (Z.ltb_spec (Compare ucmp ukey (guard_ukey g)) 0).
    + rewrite u32_small by lia. apply IH; try done; lia.
    + apply IH; try done; lia.
Qed.

(** ** Sorted guards *)

Lemma guard_at_or_before_closed guards ukey :
  guards_sorted ucmp guards -> prefix_closed (guard_at_or_before ucmp ukey) guards.
Proof.
  intros Hs i j g h Hij Hg Hh. unfold guard_at_or_before. rewrite !Z.leb_le. intros Hp.
  destruct (Nat.eq_dec i j) as [->|]; [congruence|].
  pose proof (Hs i j g h ltac:(lia) Hg Hh) as Hlt.
  apply (cmp_ge_le (dom := all_keys)); [done..|]. apply (cmp_ge_le (dom := all_keys)) in Hp; [|done..].
  enough (Compare ucmp (guard_ukey g) ukey < 0) by lia.
  by apply (cmp_lt_le_trans (dom := all_keys) _ (guard_ukey h)).
Qed.

Lemma guard_slot_lookup guards ukey i g :
  guards_sorted ucmp guards -> guards !! i = Some g ->
  0 <= Compare ucmp ukey (guard_ukey g) <-> (i < guard_slot ucmp guards ukey)%nat.
Proof.
  intros Hs Hg. pose proof (prefix_len_closed _ _ _ _ (guard_at_or_before_closed guards ukey Hs) Hg) as H.
  unfold guard_at_or_before in H at 1. by rewrite Z.leb_le in H.
Qed.

Lemma guard_slot_le guards ukey : (guard_slot ucmp guards ukey <= length guards)%nat.
Proof. apply prefix_len_le. Qed.

Lemma guard_slot_mono guards a b :
  Compare ucmp a b <= 0 -> (guard_slot ucmp guards a <= guard_slot ucmp guards b)%nat.
Proof.
  intros Hab. apply prefix_len_mono, Forall_forall. intros g _. unfold guard_at_or_before. rewrite !Z.leb_le.
  intros H. apply (cmp_ge_le (dom := all_keys)); [done..|]. apply (cmp_ge_le (dom := all_keys)) in H; [|done..].
  by apply (cmp_le_trans (dom := all_keys) _ a).
Qed.

Lemma FindGuard_slot guards key :
  guards_sorted ucmp guards -> is_ikey key -> len guards < 2 ^ 31 ->
  FindGuard ucmp guards key = Some (Z.of_nat (pred (guard_slot ucmp guards (ExtractUserKey key)))).
Proof.
  intros Hs Hk Hlen. unfold FindGuard. destruct (Z.eqb_spec (len guards) 0) as [E|E].
  { apply len_0_nil in E as ->. done. }
  unfold ParseInternalKey, is_ikey in *. destruct (Z.ltb_spec (len key) 8); [lia|]. cbn [snd user_key].
  change (take _ key) with (ExtractUserKey key). pose proof (len_nonneg guards).
  pose proof (guard_slot_le guards (ExtractUserKey key)).
  rewrite u32_small by lia. apply FindGuard_loop_spec; try done; try (unfold len in *; lia).
  by apply guard_at_or_before_closed.
Qed.
End Facts.

(** ** GetOverlappingInputs: the least range closed under overlap *)
Section Overlap.
Context {ucmp : Comparator} `{!ComparatorOk ucmp all_keys}.

Definition file_start (f : FileMetaData) : bytes := ExtractUserKey (fm_smallest f).
Definition file_limit (f : FileMetaData) : bytes := ExtractUserKey (fm_largest f).

Definition in_range (ub ue : option bytes) (f : FileMetaData) : bool :=
  negb (range_skips ucmp (file_start f) (file_limit f) ub ue).

Definition contained (ub ue : option bytes) (f : FileMetaData) : bool :=
  negb (before_range ucmp (file_start f) ub || after_range ucmp (file_limit f) ue).

(** No file reaches out of the range. *)
Definition closed_range (files : list FileMetaData) (ub ue : option bytes) : Prop :=
  Forall (fun f => in_range ub ue f = true -> contained ub ue f = true) files.

(** [ub .. ue] is inside [ub' .. ue'], and an end is open in both or in none. *)
Definition begins_before (ub' ub : option bytes) : Prop :=
  match ub', ub with
  | Some b', Some b => Compare ucmp b' b <= 0
  | None, None => True
  | _, _ => False
  end.
Definition inside (ub ue ub' ue' : option bytes) : Prop := begins_before ub' ub /\ begins_before ue ue'.

Lemma begins_before_refl ub : begins_before ub ub.
Proof. destruct ub as [b|]; [|done]. simpl. rewrite (cmp_refl (dom := all_keys)); [lia|done]. Qed.

Lemma begins_before_trans a b c : begins_before a b -> begins_before b c -> begins_before a c.
Proof. destruct a, b, c; try done. simpl. by apply (cmp_le_trans (dom := all_keys)). Qed.

Lemma before_range_spec k b : before_range ucmp k (Some b) = false <-> Compare ucmp b k <= 0.
Proof.
  unfold before_range. rewrite Z.ltb_ge. split; intros H; by apply (cmp_ge_le (dom := all_keys)).
Qed.

Lemma after_range_spec k e : after_range ucmp k (Some e) = false <-> Compare ucmp k e <= 0.
Proof. unfold after_range. by rewrite Z.ltb_ge. Qed.

Lemma before_range_mono ub ub' k :
  begins_before ub' ub -> before_range ucmp k ub = false -> before_range ucmp k ub' = false.
Proof.
  destruct ub' as [b'|], ub as [b|]; try done. simpl begins_before. rewrite !before_range_spec.
  apply (cmp_le_trans (dom := all_keys)); done.
Qed.

Lemma after_range_mono ue ue' k :
  begins_before ue ue' -> after_range ucmp k ue = false -> after_range ucmp k ue' = false.
Proof.
  destruct ue' as [b'|], ue as [b|]; try done. simpl begins_before. rewrite !after_range_spec.
  intros H1 H2. by apply (cmp_le_trans (dom := all_keys) _ b).
Qed.

Lemma in_range_mono ub ue ub' ue' f :
  inside ub ue ub' ue' -> in_range ub ue f = true -> in_range ub' ue' f = true.
Proof.
  intros [H1 H2]. unfold in_range, range_skips. rewrite !negb_true_iff, !orb_false_iff. intros [Ha Hb].
  split; [by eapply before_range_mono|by eapply after_range_mono].
Qed.

(** Restarts still possible: files that begin before the range or end after it. *)
Definition restarts (files : list FileMetaData) (ub ue : option bytes) : nat :=
  (length (List.filter (fun f => before_range ucmp (file_start f) ub) files) +
   length (List.filter (fun f => after_range ucmp (file_limit f) ue) files))%nat.

Lemma length_filter_le {A} (p q : A -> bool) l :
  (forall x, p x = true -> q x = true) -> (length (List.filter p l) <= length (List.filter q l))%nat.
Proof.
  intros H. induction l as [|x l IH]; simpl; [lia|].
  specialize (H x). destruct (p x), (q x); simpl; try lia; try done; by discriminate H.
Qed.

Lemma length_filter_lt {A} (p q : A -> bool) l x :
  (forall x, p x = true -> q x = true) -> x ∈ l -> p x = false -> q x = true ->
  (length (List.filter p l) < length (List.filter q l))%nat.
Proof.
  intros H Hx Hp Hq. induction Hx as [y l|y z l Hx IH]; simpl.
  - rewrite Hp, Hq. simpl. pose proof (length_filter_le p q l H). lia.
  - specialize (IH Hp Hq). specialize (H z). destruct (p z), (q z); simpl; try lia; try done; by discriminate H.
Qed.

Lemma restarts_begin files ub ue f :
  f ∈ files -> before_range ucmp (file_start f) ub = true ->
  (restarts files (Some (file_start f)) ue < restarts files ub ue)%nat.
Proof.
  intros Hf Hb. unfold restarts. destruct ub as [b|]; [|done]. apply Nat.add_lt_mono_r.
  apply (length_filter_lt _ _ _ f); [|done| |done].
  - intros g. simpl in *. rewrite !Z.ltb_lt in *. intros Hg. by apply (cmp_lt_trans (dom := all_keys) _ (file_start f)).
  - simpl. rewrite (cmp_refl (dom := all_keys)); done.
Qed.

Lemma restarts_end files ub ue f :
  f ∈ files -> after_range ucmp (file_limit f) ue = true ->
  (restarts files ub (Some (file_limit f)) < restarts files ub ue)%nat.
Proof.
  intros Hf Hb. unfold restarts. destruct ue as [e|]; [|done]. apply Nat.add_lt_mono_l.
  apply (length_filter_lt _ _ _ f); [|done| |done].
  - intros g. simpl in *. rewrite !Z.ltb_lt in *. rewrite !(cmp_gt_lt (dom := all_keys)) in * by done.
    intros Hg. by apply (cmp_lt_trans (dom := all_keys) _ (file_limit f)).
  - simpl. rewrite (cmp_refl (dom := all_keys)); done.
Qed.

(** What the loop returns: the files of the least closed range. *)
Definition overlap_result (files : list FileMetaData) (ub ue : option bytes) (r : option (list FileMetaData)) : Prop :=
  exists ub' ue',
    r = Some (List.filter (in_range ub' ue') files) /\ inside ub ue ub' ue' /\ closed_range files ub' ue' /\
    forall b e, inside ub ue b e -> closed_range files b e -> inside ub' ue' b e.

Lemma overlap_result_restart files ub ue ub1 ue1 r :
  inside ub ue ub1 ue1 ->
  (forall b e, inside ub ue b e -> closed_range files b e -> inside ub1 ue1 b e) ->
  overlap_result files ub1 ue1 r -> overlap_result files ub ue r.
Proof.
  intros [H1 H2] Hleast (ub' & ue' & -> & [H3 H4] & Hc & Hl). exists ub', ue'. split; [done|].
  split; [split; by eapply begins_before_trans|]. split; [done|]. auto.
Qed.

Lemma overlapping_loop_spec files : forall fuel i ub ue inputs,
  inputs = List.filter (in_range ub ue) (take i files) ->
  Forall (fun f => in_range ub ue f = true -> contained ub ue f = true) (take i files) ->
  (i <= length files)%nat ->
  (restarts files ub ue * S (length files) + (length files - i) < fuel)%nat ->
  overlap_result files ub ue (overlapping_loop ucmp fuel files i ub ue inputs).
Proof.
  induction fuel as [|fuel IH]; intros i ub ue inputs Hin Hc Hi Hf; [lia|]. cbn [overlapping_loop].
  destruct (files !! i) as [f|] eqn:Ef.
  2:{ apply lookup_ge_None in Ef. rewrite take_ge in Hin, Hc by lia.
    exists ub, ue. subst inputs. split; [done|]. split; [split; apply begins_before_refl|]. done. }
  assert (f ∈ files) as Hel by (by eapply list_elem_of_lookup_2). pose proof (lookup_lt_Some _ _ _ Ef).
  pose proof (take_S_r _ _ _ Ef) as ET.
  assert (forall inputs', inputs' = inputs ++ List.filter (in_range ub ue) [f] ->
    (in_range ub ue f = true -> contained ub ue f = true) ->
    overlap_result files ub ue (overlapping_loop ucmp fuel files (S i) ub ue inputs')) as Hnext.
  { intros inputs' -> Hcf. apply IH; [|rewrite ET; apply Forall_app; split; [done|by constructor]|lia|lia].
    rewrite ET, List.filter_app. by rewrite Hin. }
  assert (forall ub1 ue1, (restarts files ub1 ue1 < restarts files ub ue)%nat ->
    overlap_result files ub1 ue1 (overlapping_loop ucmp fuel files 0 ub1 ue1 [])) as Hrestart.
  { intros ub1 ue1 Hr. apply IH; [done|constructor|lia|nia]. }
  fold (file_start f) (file_limit f).
  destruct (before_range ucmp (file_limit f) ub) eqn:E1.
  { apply Hnext; simpl; unfold in_range, range_skips; rewrite E1; simpl; [by rewrite app_nil_r|done]. }
  destruct (after_range ucmp (file_start f) ue) eqn:E2.
  { apply Hnext; simpl; unfold in_range, range_skips; rewrite E1, E2; simpl; [by rewrite app_nil_r|done]. }
  assert (in_range ub ue f = true) as Hfr by (unfold in_range, range_skips; by rewrite E1, E2).
  assert (forall b e, inside ub ue b e -> closed_range files b e -> contained b e f = true) as Hcont.
  { intros b e Hbe Hcl. unfold closed_range in Hcl. rewrite Forall_forall in Hcl. apply Hcl; [done|].
    by eapply in_range_mono. }
  unfold contained in Hcont. setoid_rewrite negb_true_iff in Hcont. setoid_rewrite orb_false_iff in Hcont.
  destruct (before_range ucmp (file_start f) ub) eqn:E3.
  { eapply overlap_result_restart; [| |by apply Hrestart, restarts_begin].
    - split; [|apply begins_before_refl]. destruct ub as [b|]; [|done]. simpl in *. apply Z.ltb_lt in E3. lia.
    - intros b e Hbe Hcl. destruct (Hcont b e Hbe Hcl) as [Hs _]. destruct Hbe as [Hb He]. split; [|done].
      destruct b as [b|]; [|by destruct ub]. by apply before_range_spec in Hs. }
  destruct (after_range ucmp (file_limit f) ue) eqn:E4.
  { eapply overlap_result_restart; [| |by apply Hrestart, restarts_end].
    - split; [apply begins_before_refl|]. destruct ue as [e|]; [|done]. simpl in *. apply Z.ltb_lt in E4.
      apply (cmp_gt_lt (dom := all_keys)) in E4; [lia|done..].
    - intros b e Hbe Hcl. destruct (Hcont b e Hbe Hcl) as [_ Hs]. destruct Hbe as [Hb He]. split; [done|].
      destruct e as [e|]; [|by destruct ue]. by apply after_range_spec in Hs. }
  apply Hnext; [simpl; by rewrite Hfr|]. intros _. unfold contained. by rewrite E3, E4.
Qed.

Lemma restarts_bound files ub ue : (restarts files ub ue <= 2 * length files)%nat.
Proof.
  unfold restarts.
  pose proof (List.filter_length_le (fun f => before_range ucmp (file_start f) ub) files).
  pose proof (List.filter_length_le (fun f => after_range ucmp (file_limit f) ue) files). lia.
Qed.

Lemma GetOverlappingInputs_spec files begin end_ :
  overlap_result files (ExtractUserKey <$> begin) (ExtractUserKey <$> end_)
    (GetOverlappingInputs ucmp files begin end_).
Proof.
  apply overlapping_loop_spec; [done|constructor|lia|]. unfold overlapping_fuel.
  pose proof (restarts_bound files (ExtractUserKey <$> begin) (ExtractUserKey <$> end_)). nia.
Qed.
End Overlap.

(** ** SomeFileOverlapsRange: the binary search agrees with the scan *)
Section Scan.
Context {ucmp : Comparator} `{!ComparatorOk ucmp all_keys}.
Notation icmp := (InternalKeyComparator ucmp).

(** Keys whose tag is at most the tag of a seek key. *)
Definition seekable (k : bytes) : Prop :=
  is_ikey k /\ ExtractTag k <= PackSequenceAndType kMaxSequenceNumber kValueTypeForSeek.

(** The files of a level whose ranges follow one another. *)
Definition files_disjoint (files : list FileMetaData) : Prop :=
  forall i j f g, (i < j)%nat -> files !! i = Some f -> files !! j = Some g ->
    Compare icmp (fm_largest f) (fm_smallest g) < 0.

Lemma existsb_at {A} (p : A -> bool) l n x :
  l !! n = Some x -> (forall i y, (i < n)%nat -> l !! i = Some y -> p y = false) ->
  (forall i y, (n < i)%nat -> l !! i = Some y -> p y = true -> p x = true) -> existsb p l = p x.
Proof.
  intros Hx Hb Ha. destruct (existsb p l) eqn:E.
  - apply existsb_exists in E as (y & Hy & Hp). apply list_elem_of_In, list_elem_of_lookup in Hy as [i Hi].
    destruct (Nat.lt_trichotomy i n) as [H|[->|H]]; [by rewrite (Hb i y) in Hp|congruence|by rewrite (Ha i y)].
  - destruct (p x) eqn:Ep; [|done]. assert (existsb p l = true) as H; [|by rewrite H in E].
    apply existsb_exists. exists x. split; [|done]. by apply list_elem_of_In, list_elem_of_lookup_2 with n.
Qed.

(** A key sorts before the seek key of [u] exactly when its user key does. *)
Lemma before_seek_key k u :
  seekable k ->
  Compare icmp k (InternalKey u kMaxSequenceNumber kValueTypeForSeek) < 0 <-> Compare ucmp (ExtractUserKey k) u < 0.
Proof.
  intros [Hk Ht]. destruct (ikc_Compare_cases (ucmp := ucmp) k (InternalKey u kMaxSequenceNumber kValueTypeForSeek))
    as [[_ ->]|[E ->]].
  - by rewrite ExtractUserKey_InternalKey.
  - rewrite ExtractUserKey_InternalKey in E. rewrite E, (cmp_refl (dom := all_keys)) by done.
    rewrite ExtractTag_InternalKey by (unfold kValueTypeForSeek, kTypeValue; vm_compute; split; congruence).
    rewrite PackSequenceAndType_eq in Ht by (unfold kValueTypeForSeek, kTypeValue; vm_compute; split; congruence).
    lia.
Qed.

Context (files : list FileMetaData).
Hypothesis Hkeys : Forall (file_keys_ok ucmp) files.
Hypothesis Hseek : Forall (fun f => seekable (fm_largest f)) files.

Lemma disjoint_largest i j f g :
  files_disjoint files -> (i < j)%nat -> files !! i = Some f -> files !! j = Some g ->
  Compare icmp (fm_largest f) (fm_largest g) < 0.
Proof.
  intros Hd Hij Hf Hg.
  destruct (Forall_lookup_1 _ _ _ _ Hkeys Hf) as (_ & H1 & _). destruct (Forall_lookup_1 _ _ _ _ Hkeys Hg) as (H2 & H3 & H4).
  apply (cmp_lt_le_trans (dom := is_ikey) _ (fm_smallest g)); try done. by apply (Hd i j).
Qed.

Lemma disjoint_smallest i j f g :
  files_disjoint files -> (i < j)%nat -> files !! i = Some f -> files !! j = Some g ->
  Compare ucmp (ExtractUserKey (fm_smallest f)) (ExtractUserKey (fm_smallest g)) <= 0.
Proof.
  intros Hd Hij Hf Hg.
  destruct (Forall_lookup_1 _ _ _ _ Hkeys Hf) as (H0 & H1 & H5). destruct (Forall_lookup_1 _ _ _ _ Hkeys Hg) as (H2 & H3 & H4).
  apply (ikc_user_le (ucmp := ucmp)).
  enough (Compare icmp (fm_smallest f) (fm_smallest g) < 0) by lia.
  apply (cmp_le_lt_trans (dom := is_ikey) _ (fm_largest f)); try done. by apply (Hd i j).
Qed.

Lemma file_before_closed key :
  is_ikey key -> files_disjoint files -> prefix_closed (file_before ucmp key) files.
Proof.
  intros Hk Hd i j f g Hij Hf Hg. unfold file_before. rewrite !Z.ltb_lt. intros H.
  destruct (Nat.eq_dec i j) as [->|]; [congruence|].
  destruct (Forall_lookup_1 _ _ _ _ Hkeys Hf) as (_ & H1 & _). destruct (Forall_lookup_1 _ _ _ _ Hkeys Hg) as (_ & H2 & _).
  apply (cmp_lt_trans (dom := is_ikey) _ (fm_largest g)); try done.
  apply (disjoint_largest i j); [done|lia|done..].
Qed.

(** The overlapping files start at the index the search gives. *)
Lemma scan_from n f smallest largest :
  files_disjoint files -> files !! n = Some f -> AfterFile ucmp smallest f = false ->
  (forall i g, (i < n)%nat -> files !! i = Some g -> AfterFile ucmp smallest g = true) ->
  existsb (file_overlaps ucmp smallest largest) files = negb (BeforeFile ucmp largest f).
Proof.
  intros Hd Hf Ha Hb. rewrite (existsb_at _ _ n f Hf).
  - unfold file_overlaps. by rewrite Ha.
  - intros i g Hi Hg. unfold file_overlaps. by rewrite (Hb i g).
  - intros i g Hi Hg. unfold file_overlaps. rewrite !negb_true_iff, !orb_false_iff. intros [_ Hbf].
    split; [done|]. unfold BeforeFile in *. destruct largest as [l|]; [|done]. rewrite Z.ltb_ge in *.
    apply (cmp_ge_le (dom := all_keys)); [done..|]. apply (cmp_ge_le (dom := all_keys)) in Hbf; [|done..].
    eapply (cmp_le_trans (dom := all_keys)); [done..| |done]. by eapply disjoint_smallest.
Qed.

Lemma AfterFile_seek k f :
  seekable (fm_largest f) ->
  AfterFile ucmp (Some k) f = file_before ucmp (InternalKey k kMaxSequenceNumber kValueTypeForSeek) f.
Proof.
  intros Hs. unfold AfterFile, file_before. apply eq_true_iff_eq. rewrite !Z.ltb_lt, before_seek_key by done.
  by rewrite (cmp_gt_lt (dom := all_keys)).
Qed.

Lemma SomeFileOverlapsRange_scan disjoint smallest largest :
  (disjoint = true -> files_disjoint files) -> len files < 2 ^ 31 ->
  SomeFileOverlapsRange ucmp disjoint files smallest largest =
  Some (existsb (file_overlaps ucmp smallest largest) files).
Proof.
  intros Hd Hlen. destruct disjoint; [|done]. specialize (Hd eq_refl). unfold SomeFileOverlapsRange. cbn [negb].
  assert (exists n, match smallest with
     | Some k => FindFile ucmp files (InternalKey k kMaxSequenceNumber kValueTypeForSeek) | None => Some 0 end
     = Some (Z.of_nat n) /\ (forall i f, files !! i = Some f -> AfterFile ucmp smallest f = true <-> (i < n)%nat))
    as (n & -> & Hn).
  { destruct smallest as [k|]; [|exists 0%nat; split; [done|]; intros; split; [done|lia]].
    set (sk := InternalKey k kMaxSequenceNumber kValueTypeForSeek).
    assert (prefix_closed (file_before ucmp sk) files) as Hc by (apply file_before_closed; [apply is_ikey_InternalKey|done]).
    exists (prefix_len (file_before ucmp sk) files). split; [by apply FindFile_prefix|].
    intros i f Hf. rewrite AfterFile_seek by (by apply (Forall_lookup_1 _ _ _ _ Hseek Hf)). by apply prefix_len_closed. }
  cbn [mbind option_bind]. destruct (Z.leb_spec (len files) (Z.of_nat n)) as [H|H].
  - f_equal. symmetry. apply not_true_is_false. intros (f & Hf & Ho)%existsb_exists.
    apply list_elem_of_In, list_elem_of_lookup in Hf as [i Hi]. unfold file_overlaps in Ho.
    rewrite (proj2 (Hn i f Hi)) in Ho; [done|]. apply lookup_lt_Some in Hi. unfold len in H. lia.
  - rewrite Nat2Z.id. destruct (lookup_lt_is_Some_2 files n) as [f Hf]; [unfold len in H; lia|]. rewrite Hf.
    f_equal. symmetry. apply (scan_from n); [done..| |].
    + apply not_true_is_false. rewrite (Hn n f Hf). lia.
    + intros i g Hi Hg. by apply (Hn i g Hg).
Qed.
End Scan.

(** ** RangeFitsWithinAGuard and GetOverlappingInputsGuards *)
Section GuardRanges.
Context {ucmp : Comparator} `{!ComparatorOk ucmp all_keys}.
Notation icmp := (InternalKeyComparator ucmp).

Lemma guard_slot_before guards k i g :
  guards_sorted ucmp guards -> guards !! i = Some g -> BeforeGuard ucmp (Some k) g = true ->
  (guard_slot ucmp guards k <= i)%nat.
Proof.
  intros Hs Hg. unfold BeforeGuard. rewrite Z.ltb_lt. intros H.
  pose proof (guard_slot_lookup guards k i g Hs Hg). lia.
Qed.

Lemma guard_slot_after guards k i g :
  guards_sorted ucmp guards -> guards !! i = Some g -> AfterGuard ucmp (Some k) g = true ->
  (i < guard_slot ucmp guards k)%nat.
Proof. intros Hs Hg. unfold AfterGuard. rewrite Z.leb_le. by apply guard_slot_lookup. Qed.

Lemma range_fits_loop_sound s l rest : forall pre,
  guards_sorted ucmp (pre ++ rest) -> Compare ucmp s l <= 0 ->
  range_fits_loop ucmp (length pre) rest (Some s) (Some l) = true ->
  guard_slot ucmp (pre ++ rest) s = guard_slot ucmp (pre ++ rest) l.
Proof.
  induction rest as [|g rest IH]; intros pre Hs Hsl; [done|]. cbn [range_fits_loop].
  assert ((pre ++ g :: rest) !! length pre = Some g) as Hg by (by apply list_lookup_middle).
  pose proof (guard_slot_mono (pre ++ g :: rest) s l Hsl) as Hm.
  destruct (if decide _ then _ else _) eqn:E.
  2:{ intros H. rewrite cons_middle, app_assoc in *. apply IH; [done..|]. by rewrite length_app, Nat.add_comm. }
  intros _. destruct (decide (length pre = 0)%nat) as [E0|E0].
  - pose proof (guard_slot_before _ _ _ _ Hs Hg E). lia.
  - destruct rest as [|g' rest].
    + pose proof (guard_slot_after _ _ _ _ Hs Hg E). pose proof (guard_slot_le (ucmp := ucmp) (pre ++ [g]) l) as Hle.
      rewrite length_app in Hle. simpl in Hle. lia.
    + apply andb_true_iff in E as [Ea Eb]. pose proof (guard_slot_after _ _ _ _ Hs Hg Ea).
      assert ((pre ++ g :: g' :: rest) !! S (length pre) = Some g') as Hg'.
      { rewrite lookup_app_r by lia. by replace (S (length pre) - length pre)%nat with 1%nat by lia. }
      pose proof (guard_slot_before _ _ _ _ Hs Hg' Eb). lia.
Qed.

Lemma RangeFitsWithinAGuard_sound guards s l :
  guards_sorted ucmp guards -> Compare ucmp s l <= 0 ->
  RangeFitsWithinAGuard ucmp guards (Some s) (Some l) = true ->
  guard_slot ucmp guards s = guard_slot ucmp guards l.
Proof. apply (range_fits_loop_sound s l guards []). Qed.

(** The files a guard serves. *)
Definition guard_files (g : GuardMetaData) : list FileMetaData :=
  take (Z.to_nat (gm_number_segments g)) (gm_file_metas g).

(** A guard with a range that covers its files, as a populated guard has. *)
Definition guard_has_range (g : GuardMetaData) : Prop := is_ikey (gm_smallest g) /\ is_ikey (gm_largest g).
Definition guard_covers_files (g : GuardMetaData) : Prop :=
  Forall (fun f => Compare icmp (gm_smallest g) (fm_smallest f) <= 0 /\ Compare icmp (fm_largest f) (gm_largest g) <= 0)
    (guard_files g).

Definition guard_in_range (ub ue : option bytes) (g : GuardMetaData) : bool :=
  negb (range_skips ucmp (ExtractUserKey (gm_smallest g)) (ExtractUserKey (gm_largest g)) ub ue).

Lemma user_key_checked_ok k : is_ikey k -> user_key_checked k = Returned (ExtractUserKey k).
Proof. unfold is_ikey, user_key_checked. intros H. by rewrite (proj2 (Z.leb_le _ _) H). Qed.

Lemma overlapping_guards_loop_spec guards ub ue : forall inputs gi,
  Forall guard_has_range guards ->
  overlapping_guards_loop ucmp guards ub ue inputs gi =
  Returned (inputs ++ concat (map guard_files (List.filter (guard_in_range ub ue) guards)),
            gi ++ List.filter (guard_in_range ub ue) guards).
Proof.
  induction guards as [|g guards IH]; intros inputs gi Hg; simpl; [by rewrite !app_nil_r|].
  apply Forall_cons in Hg as [[Hs Hl] Hg]. rewrite !user_key_checked_ok by done.
  replace (range_skips _ _ _ _ _) with (negb (guard_in_range ub ue g)) by apply negb_involutive.
  fold (guard_files g). destruct (guard_in_range ub ue g); simpl; rewrite IH by done; [|done].
  by rewrite <- !app_assoc.
Qed.

(** A file inside the range of its guard overlaps only if the guard does. *)
Lemma guard_in_range_file ub ue g f :
  guard_covers_files g -> f ∈ guard_files g -> in_range (ucmp := ucmp) ub ue f = true -> guard_in_range ub ue g = true.
Proof.
  intros Hc Hf. unfold guard_covers_files in Hc. rewrite Forall_forall in Hc. destruct (Hc f Hf) as [H1 H2].
  apply (ikc_user_le (ucmp := ucmp)) in H1, H2.
  unfold in_range, guard_in_range, range_skips. rewrite !negb_true_iff, !orb_false_iff. intros [Ha Hb].
  fold (file_start f) in H1. fold (file_limit f) in H2. split.
  - destruct ub as [b|]; [|done]. rewrite !before_range_spec in *. by eapply (cmp_le_trans (dom := all_keys)).
  - destruct ue as [e|]; [|done]. rewrite !after_range_spec in *. by eapply (cmp_le_trans (dom := all_keys)).
Qed.
End GuardRanges.

(** ** Properties *)

(** FindGuard: on guards in ascending order of user key the search returns
    the last guard at or before the user key of the lookup key, and index 0
    when there is none (the callers then compare with guard 0 to tell the
    sentinel from guard 0).  A guard is at or before the key exactly when its
    index is below the slot. *)
Theorem find_guard_correct (ucmp : Comparator) (guards : list GuardMetaData) (key : bytes)
    (Hucmp : ComparatorOk ucmp all_keys) (Hs : guards_sorted ucmp guards) (Hk : is_ikey key)
    (Hlen : len guards < 2 ^ 31) :
  let slot := guard_slot ucmp guards (ExtractUserKey key) in
  FindGuard ucmp guards key = Some (Z.of_nat (pred slot)) /\
  forall j g, guards !! j = Some g ->
    (Compare ucmp (guard_ukey g) (ExtractUserKey key) <= 0 <-> (j < slot)%nat).
Proof.
  intros slot. split; [by apply FindGuard_slot|]. intros j g Hg.
  rewrite <- (cmp_ge_le (dom := all_keys)) by done. by apply guard_slot_lookup.
Qed.

Definition example_guards : list GuardMetaData :=
  [guard_meta 1 (InternalKey [Byte.x64] 5 kTypeGuard); guard_meta 1 (InternalKey [Byte.x68] 3 kTypeGuard);
   guard_meta 1 (InternalKey [Byte.x70] 9 kTypeGuard)].

Lemma find_guard_correct_witness :
  FindGuard BytewiseComparator example_guards (InternalKey [Byte.x69] 7 kTypeValue) = Some 1.
Proof.
  destruct (find_guard_correct BytewiseComparator example_guards (InternalKey [Byte.x69] 7 kTypeValue)) as [H _].
  - apply BytewiseComparator_ok.
  - intros [|[|[|i]]] [|[|[|j]]] g h Hij; simpl; try (intros; lia || done);
      intros [= <-] [= <-]; vm_compute; reflexivity.
  - vm_compute. discriminate.
  - vm_compute. reflexivity.
  - exact H.
Defined.

(** C33. GetOverlappingInputs ends, and returns exactly the files that overlap
    the least range that contains [begin, end] and that no file reaches out
    of: every restart after widening the range is accounted for. *)
Theorem overlapping_inputs_least_closed (ucmp : Comparator) (files : list FileMetaData) (begin end_ : option bytes)
    (Hucmp : ComparatorOk ucmp all_keys) :
  exists ub ue,
    GetOverlappingInputs ucmp files begin end_ = Some (List.filter (in_range (ucmp := ucmp) ub ue) files) /\
    inside (ucmp := ucmp) (ExtractUserKey <$> begin) (ExtractUserKey <$> end_) ub ue /\
    closed_range (ucmp := ucmp) files ub ue /\
    forall b e, inside (ucmp := ucmp) (ExtractUserKey <$> begin) (ExtractUserKey <$> end_) b e ->
      closed_range (ucmp := ucmp) files b e -> inside (ucmp := ucmp) ub ue b e.
Proof. apply GetOverlappingInputs_spec. Qed.

(** Files a-f and e-k of a level; asking for g-h widens the range to a-k. *)
Definition example_files : list FileMetaData :=
  [file_meta 1 100 (InternalKey [Byte.x61] 1 1) (InternalKey [Byte.x66] 2 1);
   file_meta 2 100 (InternalKey [Byte.x65] 3 1) (InternalKey [Byte.x6b] 4 1);
   file_meta 3 100 (InternalKey [Byte.x6d] 5 1) (InternalKey [Byte.x70] 6 1)].

Lemma overlapping_inputs_least_closed_witness :
  exists ub ue,
    Some (take 2 example_files) = Some (List.filter (in_range (ucmp := BytewiseComparator) ub ue) example_files) /\
    closed_range (ucmp := BytewiseComparator) example_files ub ue.
Proof.
  destruct (overlapping_inputs_least_closed BytewiseComparator example_files
    (Some (InternalKey [Byte.x67] 9 1)) (Some (InternalKey [Byte.x68] 0 1)) BytewiseComparator_ok)
    as (ub & ue & H1 & _ & H2 & _).
  exists ub, ue. split; [|exact H2]. rewrite <- H1. vm_compute. reflexivity.
Defined.

(** SomeFileOverlapsRange: on files whose ranges follow one another the
    binary search gives what the scan over all files gives; without that
    promise the code scans. *)
Theorem some_file_overlaps_scan (ucmp : Comparator) (disjoint_sorted_files : bool) (files : list FileMetaData)
    (smallest largest : option bytes)
    (Hucmp : ComparatorOk ucmp all_keys) (Hkeys : Forall (file_keys_ok ucmp) files)
    (Hseek : Forall (fun f => seekable (fm_largest f)) files)
    (Hd : disjoint_sorted_files = true -> files_disjoint (ucmp := ucmp) files) (Hlen : len files < 2 ^ 31) :
  SomeFileOverlapsRange ucmp disjoint_sorted_files files smallest largest =
  Some (existsb (file_overlaps ucmp smallest largest) files).
Proof. by apply SomeFileOverlapsRange_scan. Qed.

Lemma some_file_overlaps_scan_witness :
  SomeFileOverlapsRange BytewiseComparator true (drop 1 example_files) (Some [Byte.x6c]) (Some [Byte.x6c]) = Some false.
Proof.
  rewrite (some_file_overlaps_scan BytewiseComparator true (drop 1 example_files) (Some [Byte.x6c]) (Some [Byte.x6c])).
  - vm_compute. reflexivity.
  - apply BytewiseComparator_ok.
  - repeat constructor; vm_compute; discriminate.
  - repeat constructor; vm_compute; discriminate.
  - intros _ [|[|i]] [|[|j]] f g Hij; simpl; try (intros; lia || done); intros [= <-] [= <-]; vm_compute; reflexivity.
  - vm_compute. reflexivity.
Defined.

(** The files of a PebblesDB level above 0 overlap inside a guard, yet
    OverlapInLevel asks for the binary search there: the file a-z below serves
    g, and the search reports no overlap. *)
Lemma overlap_in_level_misses :
  let files := [file_meta 1 100 (InternalKey [Byte.x61] 1 1) (InternalKey [Byte.x7a] 2 1);
                file_meta 2 100 (InternalKey [Byte.x62] 3 1) (InternalKey [Byte.x63] 4 1);
                file_meta 3 100 (InternalKey [Byte.x70] 5 1) (InternalKey [Byte.x71] 6 1)] in
  SomeFileOverlapsRange BytewiseComparator true files (Some [Byte.x67]) (Some [Byte.x68]) = Some false /\
  existsb (file_overlaps BytewiseComparator (Some [Byte.x67]) (Some [Byte.x68])) files = true.
Proof. vm_compute. split; reflexivity. Qed.

(** GetOverlappingInputsGuards: when every guard of the level has a range
    that covers its files, the inputs are whole parts of the level (the
    sentinel or nothing, and the chosen guards), and every file of the level
    that overlaps the range is among them. *)
Theorem overlapping_guards_cover (ucmp : Comparator) (sentinel_files : list FileMetaData)
    (guards : list GuardMetaData) (begin end_ : option bytes)
    (Hucmp : ComparatorOk ucmp all_keys) (Hr : Forall guard_has_range guards)
    (Hc : Forall (guard_covers_files (ucmp := ucmp)) guards) :
  exists inputs gi si,
    GetOverlappingInputsGuards ucmp sentinel_files guards begin end_ = Returned (inputs, gi, si) /\
    inputs = si ++ concat (map guard_files gi) /\ gi ⊆ guards /\ (si = sentinel_files \/ si = []) /\
    forall f, (f ∈ sentinel_files \/ exists g, g ∈ guards /\ f ∈ guard_files g) ->
      in_range (ucmp := ucmp) (ExtractUserKey <$> begin) (ExtractUserKey <$> end_) f = true -> f ∈ inputs.
Proof.
  unfold GetOverlappingInputsGuards. rewrite overlapping_guards_loop_spec by done.
  set (ub := ExtractUserKey <$> begin). set (ue := ExtractUserKey <$> end_).
  eexists _, _, _. split; [reflexivity|]. split; [done|]. split.
  { intros g. cbn [app]. rewrite !list_elem_of_In, List.filter_In. by intros []. }
  split; [destruct (existsb _ _); auto|]. intros f Hf Hin. apply elem_of_app.
  destruct Hf as [Hf|(g & Hg & Hf)].
  - left. replace (existsb _ _) with true; [done|]. symmetry. apply existsb_exists. exists f.
    by rewrite <- list_elem_of_In.
  - right. apply list_elem_of_In, in_concat. exists (guard_files g). split; [|by apply list_elem_of_In].
    apply in_map, List.filter_In. split; [by apply list_elem_of_In|].
    rewrite Forall_forall in Hc. eapply guard_in_range_file; eauto.
Qed.

Definition example_guard : GuardMetaData :=
  {| gm_refs := 1; gm_level := 1; gm_number_segments := 3; gm_guard_key := InternalKey [Byte.x61] 1 kTypeGuard;
     gm_smallest := InternalKey [Byte.x61] 1 1; gm_largest := InternalKey [Byte.x70] 6 1; gm_files := [1; 2; 3];
     gm_file_metas := example_files |}.

Lemma overlapping_guards_cover_witness :
  exists inputs gi si,
    GetOverlappingInputsGuards BytewiseComparator [] [example_guard] (Some (InternalKey [Byte.x6c] 0 1)) None
      = Returned (inputs, gi, si) /\ inputs = si ++ concat (map guard_files gi).
Proof.
  destruct (overlapping_guards_cover BytewiseComparator [] [example_guard] (Some (InternalKey [Byte.x6c] 0 1)) None)
    as (inputs & gi & si & H1 & H2 & _).
  - apply BytewiseComparator_ok.
  - repeat constructor; vm_compute; discriminate.
  - repeat constructor; vm_compute; discriminate.
  - exists inputs, gi, si. split; [exact H1|exact H2].
Defined.

(** A guard that has no files yet has no smallest key: collecting the inputs
    of a range in a level with such a guard fails the assert of user_key(),
    whatever the range and the sentinel files are. *)
Theorem overlapping_guards_empty_guard (ucmp : Comparator) (sentinel_files : list FileMetaData)
    (before after : list GuardMetaData) (level : Z) (guard_key : bytes) (begin end_ : option bytes)
    (Hr : Forall guard_has_range before) :
  GetOverlappingInputsGuards ucmp sentinel_files (before ++ guard_meta level guard_key :: after) begin end_
  = AssertFailed.
Proof.
  unfold GetOverlappingInputsGuards.
  assert (forall ub ue gi inputs, overlapping_guards_loop ucmp (before ++ guard_meta level guard_key :: after) ub ue
    inputs gi = AssertFailed) as ->; [|done].
  intros ub ue. induction Hr as [|g gs [Hs Hl] _ IH]; intros gi inputs; [done|]. cbn [overlapping_guards_loop app].
  rewrite !user_key_checked_ok by done. destruct (range_skips _ _ _ _ _); apply IH.
Qed.

Lemma overlapping_guards_empty_guard_witness :
  GetOverlappingInputsGuards BytewiseComparator [] ([example_guard] ++ [guard_meta 1 (InternalKey [Byte.x71] 8 2)])
    None None = AssertFailed.
Proof.
  apply (overlapping_guards_empty_guard BytewiseComparator [] [example_guard] [] 1 (InternalKey [Byte.x71] 8 2) None None).
  repeat constructor; vm_compute; discriminate.
Defined.
