(* ===== verification/VersionBuilder.v ===== *)
(** * Building versions (db/version_set.cc: VersionSet::Builder)

    A Builder applies version edits to a base version: [Apply] collects the
    files and guards each edit adds and deletes per level, [SaveTo] merges them
    with the base, and [PopulateFilesToGuardsAndSentinels] distributes the
    files of a level over its guards and the sentinel.

    File and guard objects are values here.  Their reference counts, which
    decide when they are freed, are left out; nothing else about a file
    changes after it is added. *)

From Stdlib Require Import ZArith Lia Bool.
From stdpp Require Import base list.
From S2P Require Import Prelude Coding Comparator DbFormat Status VersionEdit Guards.

Set Default Goal Selector "!".
Local Open Scope Z_scope.

(** ** The parts of a Version the builder fills *)
Record Version := {
  v_files : levels FileMetaData;
  v_guards : levels GuardMetaData;
  v_complete_guards : levels GuardMetaData;
  v_sentinel_files : levels FileMetaData;
  v_num_complete_guards : list Z;
}.

(** Version(vset): no files, no guards. *)
Definition new_Version : Version :=
  {| v_files := no_levels; v_guards := no_levels; v_complete_guards := no_levels; v_sentinel_files := no_levels;
     v_num_complete_guards := replicate (Z.to_nat kNumLevels) 0 |}.

Definition level_of {A} (ls : levels A) (level : nat) : list A := default [] (ls !! level).

(** [uint64_t] to [int]: the low 32 bits, as a signed number. *)
Definition to_int (z : Z) : Z := (z + 2 ^ 31) mod 2 ^ 32 - 2 ^ 31.

Section Builder.
Context (ucmp : Comparator).
Notation icmp := (InternalKeyComparator ucmp).

(** ** The orders of the builder's sets *)
Definition BySmallestKey (f1 f2 : FileMetaData) : bool :=
  let r := Compare icmp (fm_smallest f1) (fm_smallest f2) in
  if negb (r =? 0) then r <? 0 else fm_number f1 <? fm_number f2.
Definition BySmallestGuard (g1 g2 : GuardMetaData) : bool :=
  Compare ucmp (ExtractUserKey (gm_guard_key g1)) (ExtractUserKey (gm_guard_key g2)) <? 0.
Definition BySmallestInternalKey (k1 k2 : bytes) : bool := Compare icmp k1 k2 <? 0.

Record LevelState := {
  deleted_files : list Z;
  added_guards : list GuardMetaData;
  added_complete_guards : list GuardMetaData;
  deleted_guards : list bytes;
  added_files : list FileMetaData;
}.

Definition new_LevelState : LevelState :=
  {| deleted_files := []; added_guards := []; added_complete_guards := []; deleted_guards := []; added_files := [] |}.

(** [b_compact_pointer] is vset_->compact_pointer_, which Apply updates. *)
Record Builder := {
  b_compact_pointer : list bytes;
  b_base : Version;
  b_levels : list LevelState;
}.

Definition new_Builder (compact_pointer : list bytes) (base : Version) : Builder :=
  {| b_compact_pointer := compact_pointer; b_base := base;
     b_levels := replicate (Z.to_nat kNumLevels) new_LevelState |}.

(** ** Apply *)

Definition at_level (level : Z) (f : LevelState -> LevelState) (b : Builder) : Builder :=
  {| b_compact_pointer := b_compact_pointer b; b_base := b_base b;
     b_levels := alter f (Z.to_nat level) (b_levels b) |}.

Definition apply_compact_pointer (b : Builder) (p : Z * bytes) : Builder :=
  {| b_compact_pointer := <[Z.to_nat (fst p) := snd p]> (b_compact_pointer b); b_base := b_base b;
     b_levels := b_levels b |}.

Definition apply_deleted_file (b : Builder) (p : Z * Z) : Builder :=
  at_level (fst p) (fun l =>
    {| deleted_files := set_insert Z.ltb (snd p) (deleted_files l); added_guards := added_guards l;
       added_complete_guards := added_complete_guards l; deleted_guards := deleted_guards l;
       added_files := added_files l |}) b.

Definition file_allowed_seeks (file_size : Z) : Z :=
  let allowed_seeks := to_int (file_size / 16384) in
  if allowed_seeks <? 100 then 100 else allowed_seeks.

Definition apply_new_file (b : Builder) (p : Z * FileMetaData) : Builder :=
  let f0 := snd p in
  let f := {| fm_refs := 1; fm_allowed_seeks := file_allowed_seeks (fm_file_size f0); fm_number := fm_number f0;
              fm_file_size := fm_file_size f0; fm_smallest := fm_smallest f0; fm_largest := fm_largest f0 |} in
  at_level (fst p) (fun l =>
    {| deleted_files := List.filter (fun n => negb (n =? fm_number f)) (deleted_files l);
       added_guards := added_guards l; added_complete_guards := added_complete_guards l;
       deleted_guards := deleted_guards l; added_files := set_insert BySmallestKey f (added_files l) |}) b.

Definition apply_deleted_guard (b : Builder) (p : Z * bytes) : Builder :=
  at_level (fst p) (fun l =>
    {| deleted_files := deleted_files l; added_guards := added_guards l;
       added_complete_guards := added_complete_guards l;
       deleted_guards := set_insert BySmallestInternalKey (snd p) (deleted_guards l);
       added_files := added_files l |}) b.

(** A copy of the guard of the edit, with level [j] and without files. *)
Definition new_guard (j : nat) (g : GuardMetaData) : GuardMetaData :=
  {| gm_refs := 1; gm_level := Z.of_nat j; gm_number_segments := 0; gm_guard_key := gm_guard_key g;
     gm_smallest := gm_smallest g; gm_largest := gm_largest g; gm_files := []; gm_file_metas := gm_file_metas g |}.

Definition apply_new_guard (j : nat) (b : Builder) (g : GuardMetaData) : Builder :=
  at_level (Z.of_nat j) (fun l =>
    {| deleted_files := deleted_files l; added_guards := set_insert BySmallestGuard (new_guard j g) (added_guards l);
       added_complete_guards := added_complete_guards l; deleted_guards := deleted_guards l;
       added_files := added_files l |}) b.

Definition apply_new_complete_guard (j : nat) (b : Builder) (g : GuardMetaData) : Builder :=
  at_level (Z.of_nat j) (fun l =>
    {| deleted_files := deleted_files l; added_guards := added_guards l;
       added_complete_guards := set_insert BySmallestGuard (new_guard j g) (added_complete_guards l);
       deleted_guards := deleted_guards l; added_files := added_files l |}) b.

Definition Apply (edit : VersionEdit) (b : Builder) : Builder :=
  let b := fold_left apply_compact_pointer (ve_compact_pointers edit) b in
  let b := fold_left apply_deleted_file (ve_deleted_files edit) b in
  let b := fold_left apply_new_file (ve_new_files edit) b in
  let b := fold_left apply_deleted_guard (ve_deleted_guards edit) b in
  fold_left (fun b j =>
    let b := fold_left (apply_new_guard j) (level_of (ve_new_guards edit) j) b in
    fold_left (apply_new_complete_guard j) (level_of (ve_new_complete_guards edit) j) b)
    (seq 0 (Z.to_nat kNumLevels)) b.

(** ** SaveTo *)

(** The merge of a sorted vector with an ordered set that SaveTo writes three
    times: before each element of the set, the elements of the vector up to
    std::upper_bound of it, the first one that is greater. *)
Fixpoint save_merge {A S} (less : A -> A -> bool) (add : S -> A -> S) (base added : list A) (s : S) : S :=
  match added with
  | [] => fold_left add base s
  | a :: added =>
      let n := prefix_len (fun b => negb (less a b)) base in
      save_merge less add (drop n base) added (add (fold_left add (take n base) s) a)
  end.

Definition MaybeAddFile (l : LevelState) (files : list FileMetaData) (f : FileMetaData) : list FileMetaData :=
  if existsb (Z.eqb (fm_number f)) (deleted_files l) then files else files ++ [f].

(** std::set::count: some element is equivalent to the key. *)
Definition guard_deleted (l : LevelState) (guard_key : bytes) : bool :=
  existsb (fun k => negb (BySmallestInternalKey k guard_key) && negb (BySmallestInternalKey guard_key k))
    (deleted_guards l).

(** The guards so far and *last_inserted. *)
Definition same_guard_key (g : GuardMetaData) (last_inserted : option GuardMetaData) : bool :=
  match last_inserted with
  | Some h => Compare ucmp (ExtractUserKey (gm_guard_key g)) (ExtractUserKey (gm_guard_key h)) =? 0
  | None => false
  end.

Definition MaybeAddGuard (l : LevelState) (s : list GuardMetaData * option GuardMetaData) (g : GuardMetaData)
    : list GuardMetaData * option GuardMetaData :=
  let '(guards, last_inserted) := s in
  if same_guard_key g last_inserted then s
  else if guard_deleted l (gm_guard_key g) then s
  else
    let new_g := {| gm_refs := 1; gm_level := gm_level g; gm_number_segments := 0; gm_guard_key := gm_guard_key g;
                    gm_smallest := []; gm_largest := []; gm_files := []; gm_file_metas := [] |} in
    (guards ++ [new_g], Some g).

Definition AddCompleteGuard (l : LevelState) (complete_guards : list GuardMetaData) (g : GuardMetaData)
    : list GuardMetaData :=
  if guard_deleted l (gm_guard_key g) then complete_guards else complete_guards ++ [g].

Definition MaybeAddCompleteGuard (l : LevelState) (s : list GuardMetaData * option GuardMetaData) (g : GuardMetaData)
    : list GuardMetaData * option GuardMetaData :=
  let '(complete_guards, last_inserted) := s in
  if same_guard_key g last_inserted then s
  else if guard_deleted l (gm_guard_key g) then s
  else (complete_guards ++ [g], Some g).

(** The index from [i] on of the first guard that is smaller than the one
    before it, if any ([n] guards to look at). *)
Fixpoint first_unsorted (n i : nat) (guards : list GuardMetaData) : option nat :=
  match n with
  | O => None
  | S n =>
      match guards !! i, guards !! pred i with
      | Some g, Some h =>
          if Compare ucmp (ExtractUserKey (gm_guard_key g)) (ExtractUserKey (gm_guard_key h)) <? 0 then Some i
          else first_unsorted n (S i) guards
      | _, _ => None
      end
  end.

Definition add_to_edit (level : nat) (edit : option VersionEdit) (g : GuardMetaData) : option VersionEdit :=
  (fun e => AddCompleteGuardFromExisting e (Z.of_nat level) g) <$> edit.

(** The complete guards of a level, and the edit with the ones that were not
    persisted before. *)
Definition save_complete_guards (level : nat) (base_complete : list GuardMetaData) (base_num : Z) (l : LevelState)
    (edit : option VersionEdit) : list GuardMetaData * option VersionEdit :=
  match base_complete with
  | [] => (fold_left (AddCompleteGuard l) (added_complete_guards l) [], edit)
  | _ =>
      let start := Z.to_nat (if base_num <=? 0 then 1 else base_num) in
      let unsorted_start :=
        default (length base_complete) (first_unsorted (length base_complete - start) start base_complete) in
      let unsorted := drop unsorted_start base_complete in
      let combined := fold_left (fun s g => set_insert BySmallestGuard g s) unsorted (added_complete_guards l) in
      let edit := fold_left (add_to_edit level) unsorted edit in
      let edit := fold_left (add_to_edit level)
        (rev (drop (Z.to_nat base_num) (take unsorted_start base_complete))) edit in
      (fst (save_merge BySmallestGuard (MaybeAddCompleteGuard l) (take unsorted_start base_complete) combined ([], None)),
       edit)
  end.

(** ** PopulateFilesToGuardsAndSentinels *)

Definition IsFileAlreadyPresent (files : list Z) (current_file_number : Z) : bool :=
  existsb (Z.eqb current_file_number) files.

(** The test of the inner loop; [limit] is the key of guard guard_no, absent
    for the last round. *)
Definition before_limit (limit : option bytes) (f : FileMetaData) : bool :=
  match limit with Some k => Compare icmp (fm_largest f) k <? 0 | None => true end.

(** The inner loop while guard_no is 0: files go to the sentinel. *)
Fixpoint populate_sentinel (limit : option bytes) (files sentinel_files : list FileMetaData)
    : list FileMetaData * list FileMetaData :=
  match files with
  | [] => (sentinel_files, [])
  | f :: rest =>
      if before_limit limit f then populate_sentinel limit rest (sentinel_files ++ [f]) else (sentinel_files, files)
  end.

Definition add_file_to_guard (g : GuardMetaData) (first_entry : bool) (f : FileMetaData) : GuardMetaData :=
  {| gm_refs := gm_refs g; gm_level := gm_level g; gm_number_segments := gm_number_segments g + 1;
     gm_guard_key := gm_guard_key g;
     gm_smallest := if first_entry then fm_smallest f
                    else if Compare icmp (fm_smallest f) (gm_smallest g) <? 0 then fm_smallest f else gm_smallest g;
     gm_largest := if first_entry then fm_largest f
                   else if 0 <? Compare icmp (fm_largest f) (gm_largest g) then fm_largest f else gm_largest g;
     gm_files := gm_files g ++ [fm_number f]; gm_file_metas := gm_file_metas g ++ [f] |}.

(** The inner loop for guard guard_no - 1. *)
Fixpoint populate_guard (limit : option bytes) (g : GuardMetaData) (first_entry : bool) (files : list FileMetaData)
    : GuardMetaData * list FileMetaData :=
  match files with
  | [] => (g, [])
  | f :: rest =>
      if before_limit limit f then
        if IsFileAlreadyPresent (gm_files g) (fm_number f) then populate_guard limit g first_entry rest
        else populate_guard limit (add_file_to_guard g first_entry f) false rest
      else (g, files)
  end.

Definition clear_guard (g : GuardMetaData) : GuardMetaData :=
  {| gm_refs := gm_refs g; gm_level := gm_level g; gm_number_segments := 0; gm_guard_key := gm_guard_key g;
     gm_smallest := gm_smallest g; gm_largest := gm_largest g; gm_files := []; gm_file_metas := gm_file_metas g |}.

(** The rounds guard_no = 1, 2, ... over the guards. *)
Fixpoint populate_guards (guards : list GuardMetaData) (files : list FileMetaData) : list GuardMetaData :=
  match guards with
  | [] => []
  | g :: guards =>
      let '(g, files) := populate_guard (gm_guard_key <$> head guards) (clear_guard g) true files in
      g :: populate_guards guards files
  end.

(** The guards with their files and the sentinel files of the level. *)
Definition PopulateFilesToGuardsAndSentinels (guards : list GuardMetaData) (files sentinel_files : list FileMetaData)
    : list GuardMetaData * list FileMetaData :=
  match guards with
  | [] => ([], sentinel_files ++ files)
  | g :: _ =>
      let '(sentinel_files, files) := populate_sentinel (Some (gm_guard_key g)) files [] in
      (populate_guards guards files, sentinel_files)
  end.

(** ** SaveTo, one level and all levels *)
Record SavedLevel := {
  sl_files : list FileMetaData;
  sl_guards : list GuardMetaData;
  sl_complete_guards : list GuardMetaData;
  sl_sentinel_files : list FileMetaData;
  sl_num_complete_guards : Z;
}.

(** [v] is a version without files and guards. *)
Definition SaveTo_level (b : Builder) (level : nat) (l : LevelState) (edit : option VersionEdit)
    : SavedLevel * option VersionEdit :=
  let base := b_base b in
  let files := save_merge BySmallestKey (MaybeAddFile l) (level_of (v_files base) level) (added_files l) [] in
  let guards := fst (save_merge BySmallestGuard (MaybeAddGuard l) (level_of (v_guards base) level) (added_guards l)
    ([], None)) in
  let '(complete, edit) := save_complete_guards level (level_of (v_complete_guards base) level)
    (default 0 (v_num_complete_guards base !! level)) l edit in
  let '(guards, sentinel_files) := PopulateFilesToGuardsAndSentinels guards files [] in
  ({| sl_files := files; sl_guards := guards; sl_complete_guards := complete; sl_sentinel_files := sentinel_files;
      sl_num_complete_guards := len complete |}, edit).

Fixpoint SaveTo_levels (b : Builder) (level : nat) (ls : list LevelState) (edit : option VersionEdit)
    : list SavedLevel * option VersionEdit :=
  match ls with
  | [] => ([], edit)
  | l :: ls =>
      let '(s, edit) := SaveTo_level b level l edit in
      let '(ss, edit) := SaveTo_levels b (S level) ls edit in
      (s :: ss, edit)
  end.

Definition SaveTo (b : Builder) (edit : option VersionEdit) : Version * option VersionEdit :=
  let '(ss, edit) := SaveTo_levels b 0 (b_levels b) edit in
  ({| v_files := map sl_files ss; v_guards := map sl_guards ss; v_complete_guards := map sl_complete_guards ss;
      v_sentinel_files := map sl_sentinel_files ss; v_num_complete_guards := map sl_num_complete_guards ss |}, edit).
End Builder.

(** Version::AddToCompleteGuards: the writers append the guards they choose. *)
Definition AddToCompleteGuards (v : Version) (g : GuardMetaData) (level : Z) : Version :=
  {| v_files := v_files v; v_guards := v_guards v; v_complete_guards := push_level level g (v_complete_guards v);
     v_sentinel_files := v_sentinel_files v; v_num_complete_guards := v_num_complete_guards v |}.
