(* ===== verification/VersionBuilderSpec.v ===== *)
(** * Correctness of the builder (db/version_set.cc: VersionSet::Builder)

    The orders of the builder's sets, the merge of SaveTo, and the
    distribution of the files of a level over its guards: every version that
    arises is in order, an edit changes exactly the files it names, no file is
    lost, and a file lies in the part of the level where lookups search. *)

From Stdlib Require Import ZArith Lia Bool Sorting.Sorted.
From stdpp Require Import base list sets sorting.
From S2P Require Import Prelude Coding Comparator DbFormat Status VersionEdit Guards VersionBuilder.

Set Default Goal Selector "!".
Local Open Scope Z_scope.
#[local] Arguments Compare : simpl never.

(** ** Strict weak orders, ordered sets and the merge *)
Class StrictWeak {A} (less : A -> A -> bool) : Prop := {
  sw_asym a b : less a b = true -> less b a = false;
  sw_split a b c : less a c = true -> less a b = true \/ less b c = true;
}.

Section Merge.
Context {A : Type} (less : A -> A -> bool) `{!StrictWeak less}.

(** Not greater: the order in which a vector is sorted. *)
Definition ordered (a b : A) : Prop := less b a = false.
Definition strictly (a b : A) : Prop := less a b = true.

#[export] Instance ordered_trans : Transitive ordered.
Proof.
  intros a b c H1 H2. unfold ordered in *. apply not_true_is_false. intros H.
  destruct (sw_split c b a H); congruence.
Qed.

Lemma strictly_ordered a b : strictly a b -> ordered a b.
Proof. apply sw_asym. Qed.

Lemma strictly_ordered_trans a b c : strictly a b -> ordered b c -> strictly a c.
Proof. unfold strictly, ordered. intros H1 H2. destruct (sw_split a c b H1); congruence. Qed.

Lemma ordered_strictly_trans a b c : ordered a b -> strictly b c -> strictly a c.
Proof. unfold strictly, ordered. intros H1 H2. destruct (sw_split b a c H2); congruence. Qed.

Lemma Sorted_strictly_ordered l : StronglySorted strictly l -> StronglySorted ordered l.
Proof.
  induction 1 as [|a l _ IH H]; constructor; [done|]. eapply Forall_impl; [exact H|apply strictly_ordered].
Qed.

(** *** Ordered sets *)

Lemma set_insert_elem x y l : y ∈ set_insert less x l -> y = x \/ y ∈ l.
Proof.
  induction l as [|z l IH]; simpl.
  - rewrite list_elem_of_singleton. auto.
  - destruct (less x z); [set_solver|]. destruct (less z x); [set_solver|auto].
Qed.

Lemma set_insert_old x y l : y ∈ l -> y ∈ set_insert less x l.
Proof.
  induction l as [|z l IH]; simpl; [by rewrite elem_of_nil|].
  destruct (less x z); [set_solver|]. destruct (less z x); [set_solver|done].
Qed.

(** The new element is in the set, or an equivalent one is. *)
Lemma set_insert_new x l : exists y, y ∈ set_insert less x l /\ less x y = false /\ less y x = false /\ (y = x \/ y ∈ l).
Proof.
  assert (less x x = false) as Hx.
  { apply not_true_is_false. intros H. by rewrite (sw_asym x x H) in H. }
  induction l as [|z l IH]; simpl.
  - exists x. rewrite list_elem_of_singleton. auto.
  - destruct (less x z) eqn:E1; [exists x; rewrite elem_of_cons; auto|].
    destruct (less z x) eqn:E2.
    + destruct IH as (y & Hy & H1 & H2 & H3). exists y. set_solver.
    + exists z. set_solver.
Qed.

Lemma set_insert_sorted x l : StronglySorted strictly l -> StronglySorted strictly (set_insert less x l).
Proof.
  induction l as [|z l IH]; simpl; [by repeat constructor|]. intros [Hz Hl]%StronglySorted_cons.
  destruct (less x z) eqn:E1.
  - apply StronglySorted_cons. split; [|by apply StronglySorted_cons]. apply Forall_cons. split; [done|].
    eapply Forall_impl; [exact Hz|]. intros y Hy. eapply strictly_ordered_trans; [exact E1|by apply strictly_ordered].
  - destruct (less z x) eqn:E2; [|by apply StronglySorted_cons].
    apply StronglySorted_cons. split; [|auto]. rewrite Forall_forall in *. intros y [->|Hy]%set_insert_elem; auto.
Qed.

(** *** The merge *)
Fixpoint merge_sets (base added : list A) : list A :=
  match added with
  | [] => base
  | a :: added =>
      let n := prefix_len (fun b => negb (less a b)) base in
      take n base ++ a :: merge_sets (drop n base) added
  end.

Lemma save_merge_fold {S} (add : S -> A -> S) added : forall base s,
  save_merge less add base added s = fold_left add (merge_sets base added) s.
Proof.
  induction added as [|a added IH]; intros base s; simpl; [done|]. rewrite IH, fold_left_app. done.
Qed.

Lemma merge_sets_perm added : forall base, merge_sets base added ≡ₚ base ++ added.
Proof.
  induction added as [|a added IH]; intros base; simpl; [by rewrite app_nil_r|].
  rewrite IH. set (n := prefix_len _ base). rewrite <- (take_drop n base) at 3.
  rewrite <- app_assoc. apply Permutation_app_head. apply Permutation_middle.
Qed.

Lemma drop_prefix_above a base :
  StronglySorted ordered base -> Forall (strictly a) (drop (prefix_len (fun b => negb (less a b)) base) base).
Proof.
  set (n := prefix_len _ base). intros Hs. destruct (drop n base) as [|b l] eqn:E; [constructor|].
  assert (less a b = true) as Hb.
  { assert (base !! n = Some b) as Hn by (rewrite <- (Nat.add_0_r n), <- lookup_drop, E; done).
    apply prefix_len_at in Hn. by apply negb_false_iff in Hn. }
  rewrite <- (take_drop n base), E in Hs. apply StronglySorted_app_1_r in Hs.
  apply StronglySorted_cons in Hs as [Hl _]. constructor; [done|].
  eapply Forall_impl; [exact Hl|]. intros x Hx. by apply (strictly_ordered_trans _ b).
Qed.

Lemma merge_sets_sorted added : forall base,
  StronglySorted ordered base -> StronglySorted ordered added -> StronglySorted ordered (merge_sets base added).
Proof.
  induction added as [|a added IH]; intros base Hb Ha; simpl; [done|].
  apply StronglySorted_cons in Ha as [Ha1 Ha]. pose proof (drop_prefix_above a base Hb) as Hd.
  set (n := prefix_len _ base) in *. pose proof Hb as Hb0. rewrite <- (take_drop n base) in Hb0.
  apply StronglySorted_app in Hb0 as (Hcross & Htake & Hdrop).
  assert (forall y, y ∈ merge_sets (drop n base) added <-> y ∈ drop n base \/ y ∈ added) as Hel.
  { intros y. by rewrite merge_sets_perm, elem_of_app. }
  assert (forall x, x ∈ take n base -> ordered x a) as Hx.
  { intros x [i [Hi Hlt]%lookup_take_Some]%list_elem_of_lookup.
    pose proof (prefix_len_before _ _ _ _ Hlt Hi) as E. by apply negb_true_iff in E. }
  rewrite Forall_forall in Ha1, Hd.
  apply StronglySorted_app. split; [|split; [done|]].
  - intros x y Hxt [->|Hy]%elem_of_cons; [auto|]. apply Hel in Hy as [Hy|Hy]; [by apply Hcross|].
    apply (transitivity (y := a)); auto.
  - apply StronglySorted_cons. split; [|by apply IH]. apply Forall_forall.
    intros y [Hy|Hy]%Hel; [by apply strictly_ordered, Hd|auto].
Qed.
End Merge.

(** ** The builder's orders are strict weak orders *)
Section Orders.
Context {ucmp : Comparator} `{!ComparatorOk ucmp all_keys}.
Notation icmp := (InternalKeyComparator ucmp).

(** The comparison of internal keys is a preorder on all byte strings. *)
Lemma ikc_le_trans a b d : Compare icmp a b <= 0 -> Compare icmp b d <= 0 -> Compare icmp a d <= 0.
Proof.
  pose proof (fun P Q => cmp_le_trans (dom := all_keys) (ExtractUserKey a) (ExtractUserKey b)
    (ExtractUserKey d) I I I P Q) as Ht.
  intros H1 H2. pose proof (ikc_user_le (ucmp := ucmp) a b H1) as U1. pose proof (ikc_user_le (ucmp := ucmp) b d H2) as U2.
  specialize (Ht U1 U2).
  destruct (ikc_Compare_cases (ucmp := ucmp) a d) as [[Hne ->]|[Ead Ead']]; [done|]. rewrite Ead'.
  assert (ExtractUserKey a = ExtractUserKey b) as Eab.
  { apply (cmp_eq (c := ucmp) (dom := all_keys)); [done..|]. rewrite <- Ead in U2.
    apply (cmp_ge_le (dom := all_keys)) in U2; [|done..]. lia. }
  rewrite (ikc_Compare_same (ucmp := ucmp) a b Eab) in H1. rewrite (ikc_Compare_same (ucmp := ucmp) b d) in H2 by congruence.
  lia.
Qed.

Lemma ikc_ge_le a b : 0 <= Compare icmp a b <-> Compare icmp b a <= 0.
Proof. pose proof (ikc_anti (ucmp := ucmp) a b). pose proof (ikc_anti (ucmp := ucmp) b a). lia. Qed.

#[export] Instance BySmallestGuard_weak : StrictWeak (BySmallestGuard ucmp).
Proof.
  unfold BySmallestGuard. split.
  - intros g h. rewrite Z.ltb_lt, Z.ltb_ge. intros H. apply (cmp_anti (dom := all_keys)) in H; [lia|done..].
  - intros g h k. rewrite !Z.ltb_lt. intros H.
    destruct (Z.lt_ge_cases (Compare ucmp (ExtractUserKey (gm_guard_key g)) (ExtractUserKey (gm_guard_key h))) 0)
      as [|Hge]; [by left|right]. apply (cmp_ge_le (dom := all_keys)) in Hge; [|done..].
    by apply (cmp_le_lt_trans (dom := all_keys) _ (ExtractUserKey (gm_guard_key g))).
Qed.

Lemma BySmallestKey_spec f g :
  BySmallestKey ucmp f g = true <->
  Compare icmp (fm_smallest f) (fm_smallest g) < 0 \/
  (Compare icmp (fm_smallest f) (fm_smallest g) = 0 /\ fm_number f < fm_number g).
Proof.
  unfold BySmallestKey. destruct (Z.eqb_spec (Compare icmp (fm_smallest f) (fm_smallest g)) 0) as [E|E];
    cbn [negb]; rewrite Z.ltb_lt; lia.
Qed.

#[export] Instance BySmallestKey_weak : StrictWeak (BySmallestKey ucmp).
Proof.
  split.
  - intros f g H. apply not_true_is_false. rewrite BySmallestKey_spec in *.
    pose proof (ikc_anti (ucmp := ucmp) (fm_smallest f) (fm_smallest g)).
    pose proof (ikc_anti (ucmp := ucmp) (fm_smallest g) (fm_smallest f)). lia.
  - intros f g h. rewrite !BySmallestKey_spec. intros H.
    set (a := fm_smallest f) in *. set (b := fm_smallest g) in *. set (d := fm_smallest h) in *.
    pose proof (ikc_ge_le a b). pose proof (ikc_ge_le b a). pose proof (ikc_ge_le b d). pose proof (ikc_ge_le d b).
    pose proof (ikc_ge_le a d). pose proof (ikc_ge_le d a).
    pose proof (ikc_le_trans a b d). pose proof (ikc_le_trans d b a). pose proof (ikc_le_trans b a d).
    pose proof (ikc_le_trans d a b). pose proof (ikc_le_trans a d b). pose proof (ikc_le_trans b d a). lia.
Qed.
End Orders.

(** ** What SaveTo keeps *)
Section Saved.
Context {ucmp : Comparator} `{!ComparatorOk ucmp all_keys}.
Notation icmp := (InternalKeyComparator ucmp).
Notation file_le := (ordered (BySmallestKey ucmp)).
Notation guard_lt := (strictly (BySmallestGuard ucmp)).
Notation guard_le := (ordered (BySmallestGuard ucmp)).

Lemma StronglySorted_filter {A} (R : A -> A -> Prop) p l :
  StronglySorted R l -> StronglySorted R (List.filter p l).
Proof.
  induction 1 as [|a l _ IH H]; simpl; [constructor|]. destruct (p a); [|done]. constructor; [done|].
  rewrite Forall_forall in *. intros x Hx. apply H. rewrite list_elem_of_In in *. by apply List.filter_In in Hx as [Hx _].
Qed.

(** *** Files *)
Definition file_kept (l : LevelState) (f : FileMetaData) : bool := negb (existsb (Z.eqb (fm_number f)) (deleted_files l)).

Lemma fold_MaybeAddFile l fs s : fold_left (MaybeAddFile l) fs s = s ++ List.filter (file_kept l) fs.
Proof.
  revert s. induction fs as [|f fs IH]; intros s; simpl; [by rewrite app_nil_r|]. rewrite IH.
  unfold MaybeAddFile, file_kept. destruct (existsb _ _); simpl; [done|]. by rewrite <- app_assoc.
Qed.

Lemma save_files l base :
  save_merge (BySmallestKey ucmp) (MaybeAddFile l) base (added_files l) [] =
  List.filter (file_kept l) (merge_sets (BySmallestKey ucmp) base (added_files l)).
Proof. by rewrite save_merge_fold, fold_MaybeAddFile. Qed.

(** *** Guards: [mk] is what is stored for a guard *)
Definition add_guard (mk : GuardMetaData -> GuardMetaData) (l : LevelState)
    (s : list GuardMetaData * option GuardMetaData) (g : GuardMetaData) : list GuardMetaData * option GuardMetaData :=
  let '(guards, last_inserted) := s in
  if same_guard_key ucmp g last_inserted then s
  else if guard_deleted ucmp l (gm_guard_key g) then s
  else (guards ++ [mk g], Some g).

Definition fresh_guard (g : GuardMetaData) : GuardMetaData :=
  {| gm_refs := 1; gm_level := gm_level g; gm_number_segments := 0; gm_guard_key := gm_guard_key g;
     gm_smallest := []; gm_largest := []; gm_files := []; gm_file_metas := [] |}.

Lemma MaybeAddGuard_add l s g : MaybeAddGuard ucmp l s g = add_guard fresh_guard l s g.
Proof. by destruct s. Qed.
Lemma MaybeAddCompleteGuard_add l s g : MaybeAddCompleteGuard ucmp l s g = add_guard (fun g => g) l s g.
Proof. by destruct s. Qed.

Lemma fold_left_ext {A B} (f g : A -> B -> A) l a : (forall a b, f a b = g a b) -> fold_left f l a = fold_left g l a.
Proof. intros H. revert a. induction l as [|b l IH]; intros a; simpl; [done|]. by rewrite H. Qed.

Context (mk : GuardMetaData -> GuardMetaData).
Hypothesis Hmk : forall g, gm_guard_key (mk g) = gm_guard_key g.

(** The guards so far ascend and end at the one inserted last. *)
Definition guards_so_far (s : list GuardMetaData * option GuardMetaData) : Prop :=
  match snd s with
  | None => fst s = []
  | Some h => exists gs, fst s = gs ++ [mk h] /\ StronglySorted guard_lt (gs ++ [mk h])
  end.

Lemma guard_lt_mk g h : guard_lt (mk g) (mk h) <-> guard_lt g h.
Proof. unfold strictly, BySmallestGuard. by rewrite !Hmk. Qed.

Lemma same_guard_key_lt g h : guard_le h g -> same_guard_key ucmp g (Some h) = false -> guard_lt h g.
Proof.
  unfold ordered, strictly, BySmallestGuard, same_guard_key. rewrite Z.ltb_ge, Z.ltb_lt, Z.eqb_neq. intros H1 H2.
  apply (cmp_gt_lt (dom := all_keys)); [done..|lia].
Qed.

Lemma add_guard_step l s g :
  guards_so_far s -> (forall h, snd s = Some h -> guard_le h g) -> guards_so_far (add_guard mk l s g).
Proof.
  destruct s as [gs last]. intros Hs Hg. unfold add_guard.
  destruct (same_guard_key ucmp g last) eqn:E; [done|]. destruct (guard_deleted ucmp l (gm_guard_key g)); [done|].
  exists gs. split; [done|]. destruct last as [h|]; unfold guards_so_far in Hs; simpl in *; subst.
  - destruct Hs as (gs' & -> & Hs). assert (guard_lt (mk h) (mk g)) as Hlt.
    { apply guard_lt_mk, same_guard_key_lt; [|done]. by apply Hg. }
    apply StronglySorted_app. split; [|split; [done|repeat constructor]].
    intros x y Hx ->%list_elem_of_singleton. apply elem_of_app in Hx as [Hx| ->%list_elem_of_singleton]; [|done].
    assert (guard_lt x (mk h)) by (eapply StronglySorted_app_1_elem_of; [exact Hs|done|by apply list_elem_of_singleton]).
    eapply (strictly_ordered_trans (BySmallestGuard ucmp)); [exact H|]. by apply (strictly_ordered _).
  - repeat constructor.
Qed.

Lemma fold_add_guard_sorted l gs : forall s,
  guards_so_far s -> StronglySorted guard_le gs -> (forall h, snd s = Some h -> Forall (guard_le h) gs) ->
  StronglySorted guard_lt (fst (fold_left (add_guard mk l) gs s)).
Proof.
  induction gs as [|g gs IH]; intros s Hs Hgs Hlast; simpl.
  - destruct s as [gs [h|]]; unfold guards_so_far in Hs; simpl in *; [by destruct Hs as (? & -> & ?)|].
    subst. constructor.
  - apply StronglySorted_cons in Hgs as [Hg Hgs].
    assert (forall h, snd s = Some h -> guard_le h g) as Hh.
    { intros h E. specialize (Hlast h E). by apply Forall_cons in Hlast as []. }
    apply IH; [by apply add_guard_step|done|]. intros h. destruct s as [gs0 last]. unfold add_guard.
    destruct (same_guard_key ucmp g last); [|destruct (guard_deleted ucmp l (gm_guard_key g))].
    + intros E. specialize (Hlast h E). by apply Forall_cons in Hlast as [].
    + intros E. specialize (Hlast h E). by apply Forall_cons in Hlast as [].
    + intros [= <-]. done.
Qed.

(** With no guard deleted, the guard keys that come out are those that go in. *)
Lemma fold_add_guard_keys l u gs : forall s,
  deleted_guards l = [] -> (forall h, snd s = Some h -> mk h ∈ fst s) ->
  u ∈ map guard_ukey (fst (fold_left (add_guard mk l) gs s)) <->
  u ∈ map guard_ukey (fst s) \/ u ∈ map guard_ukey gs.
Proof.
  induction gs as [|g gs IH]; intros s Hd Hs; cbn [fold_left].
  { simpl. rewrite elem_of_nil. tauto. }
  assert (guard_deleted ucmp l (gm_guard_key g) = false) as Hdel by (unfold guard_deleted; by rewrite Hd).
  assert (guard_ukey (mk g) = guard_ukey g) as Eg by (unfold guard_ukey; by rewrite Hmk).
  destruct s as [gs0 last]. unfold add_guard at 2. rewrite Hdel. simpl in Hs. cbn [map fst].
  destruct (same_guard_key ucmp g last) eqn:E.
  - rewrite IH by done. cbn [fst]. rewrite elem_of_cons. split; [tauto|]. intros [?|[->|?]]; [tauto| |tauto]. left.
    destruct last as [h|]; [|done]. simpl in E. apply Z.eqb_eq, (cmp_eq (dom := all_keys)) in E; [|done..].
    apply list_elem_of_In, in_map_iff. exists (mk h). split; [unfold guard_ukey; by rewrite Hmk|].
    apply list_elem_of_In. by apply Hs.
  - rewrite IH; [|done|]; cbn [fst snd].
    + rewrite map_app, elem_of_app, elem_of_cons. cbn [map]. rewrite list_elem_of_singleton, Eg. tauto.
    + intros h [= <-]. apply elem_of_app. right. by apply list_elem_of_singleton.
Qed.
End Saved.

(** ** Invariants of builders and versions *)
Section Invariant.
Context {ucmp : Comparator} `{!ComparatorOk ucmp all_keys}.
Notation icmp := (InternalKeyComparator ucmp).
Notation file_lt := (strictly (BySmallestKey ucmp)).
Notation file_le := (ordered (BySmallestKey ucmp)).
Notation guard_lt := (strictly (BySmallestGuard ucmp)).
Notation guard_le := (ordered (BySmallestGuard ucmp)).

Lemma guards_sorted_iff gs : guards_sorted ucmp gs <-> StronglySorted guard_lt gs.
Proof.
  induction gs as [|g gs IH]; [split; [constructor|by intros _ i j ? ? _ ?]|].
  rewrite StronglySorted_cons, <- IH. split.
  - intros H. split.
    + apply Forall_lookup. intros i h Hh. apply Z.ltb_lt. apply (H 0%nat (S i)); [lia|done..].
    + intros i j a b Hij Ha Hb. apply (H (S i) (S j)); [lia|done..].
  - intros [Hg Hs] [|i] [|j] a b Hij Ha Hb; try lia; simpl in *.
    + injection Ha as <-. apply Z.ltb_lt. by apply (Forall_lookup_1 _ _ _ _ Hg Hb).
    + apply (Hs i j); [lia|done..].
Qed.

(** The complete guards: the ones counted are in order, later ones are in the
    order in which they were chosen. *)
Definition complete_ok (complete_guards : list GuardMetaData) (num : Z) : Prop :=
  0 <= num <= len complete_guards /\ StronglySorted guard_le (take (Z.to_nat num) complete_guards).

Record level_ok_at (v : Version) (level : nat) : Prop := {
  lo_files : StronglySorted file_le (level_of (v_files v) level);
  lo_guards : guards_sorted ucmp (level_of (v_guards v) level);
  lo_complete : complete_ok (level_of (v_complete_guards v) level) (default 0 (v_num_complete_guards v !! level));
}.

Definition version_ok (v : Version) : Prop := forall level, level_ok_at v level.

Record level_state_ok (l : LevelState) : Prop := {
  ls_files : StronglySorted file_lt (added_files l);
  ls_guards : StronglySorted guard_lt (added_guards l);
  ls_complete : StronglySorted guard_lt (added_complete_guards l);
}.

Definition builder_ok (b : Builder) : Prop := version_ok (b_base b) /\ Forall level_state_ok (b_levels b).

(** *** Apply keeps the sets in order *)

Lemma at_level_ok level f b :
  (forall l, level_state_ok l -> level_state_ok (f l)) -> builder_ok b -> builder_ok (at_level level f b).
Proof.
  intros Hf [Hb Hl]. split; [done|]. simpl. apply Forall_lookup. intros i l.
  destruct (decide (i = Z.to_nat level)) as [->|Hne].
  - rewrite list_lookup_alter_eq. intros (l0 & H0 & ->)%fmap_Some. by apply Hf, (Forall_lookup_1 _ _ _ _ Hl H0).
  - rewrite list_lookup_alter_ne by done. apply (Forall_lookup_1 _ _ _ _ Hl).
Qed.

Lemma apply_new_file_ok b p : builder_ok b -> builder_ok (apply_new_file ucmp b p).
Proof. apply at_level_ok. intros l [H1 H2 H3]. split; simpl; [|done..]. by apply set_insert_sorted; [apply _|]. Qed.

Lemma apply_new_guard_ok j b g : builder_ok b -> builder_ok (apply_new_guard ucmp j b g).
Proof. apply at_level_ok. intros l [H1 H2 H3]. split; simpl; [done| |done]. by apply set_insert_sorted; [apply _|]. Qed.

Lemma apply_new_complete_guard_ok j b g : builder_ok b -> builder_ok (apply_new_complete_guard ucmp j b g).
Proof. apply at_level_ok. intros l [H1 H2 H3]. split; simpl; [done..|]. by apply set_insert_sorted; [apply _|]. Qed.

Lemma Apply_ok edit b : builder_ok b -> builder_ok (Apply ucmp edit b).
Proof.
  intros Hb. unfold Apply. apply fold_left_ok.
  { intros b' j Hb'. apply fold_left_ok; [apply apply_new_complete_guard_ok|].
    apply fold_left_ok; [apply apply_new_guard_ok|done]. }
  apply fold_left_ok.
  { intros b' p. apply at_level_ok. by intros l [? ? ?]. }
  apply fold_left_ok; [apply apply_new_file_ok|].
  apply fold_left_ok.
  { intros b' p. apply at_level_ok. by intros l [? ? ?]. }
  apply fold_left_ok; [|done]. by intros b' p [? ?].
Qed.

Lemma new_Builder_ok cp base : version_ok base -> builder_ok (new_Builder cp base).
Proof.
  intros H. split; [done|]. apply Forall_replicate. split; constructor.
Qed.

(** *** Complete guards *)

Lemma StronglySorted_snoc {A} (R : A -> A -> Prop) l x y :
  Transitive R -> StronglySorted R (l ++ [x]) -> R x y -> StronglySorted R ((l ++ [x]) ++ [y]).
Proof.
  intros HR Hs Hxy. apply StronglySorted_app. split; [|split; [done|repeat constructor]].
  intros a b Ha ->%list_elem_of_singleton. apply elem_of_app in Ha as [Ha| ->%list_elem_of_singleton]; [|done].
  transitivity x; [|done]. eapply StronglySorted_app_1_elem_of; [exact Hs|done|by apply list_elem_of_singleton].
Qed.

Lemma first_unsorted_sorted gs n : forall i,
  (1 <= i)%nat -> (i + n = length gs)%nat -> StronglySorted guard_le (take i gs) ->
  StronglySorted guard_le (take (default (length gs) (first_unsorted ucmp n i gs)) gs).
Proof.
  induction n as [|n IH]; intros i Hi Hn Hs; cbn [first_unsorted].
  { simpl. by replace (length gs) with i by lia. }
  destruct (lookup_lt_is_Some_2 gs i) as [g Hg]; [lia|].
  destruct (lookup_lt_is_Some_2 gs (pred i)) as [h Hh]; [lia|]. rewrite Hg, Hh.
  fold (BySmallestGuard ucmp g h). destruct (BySmallestGuard ucmp g h) eqn:E; [done|].
  apply IH; [lia..|]. rewrite (take_S_r _ _ _ Hg).
  replace i with (S (pred i)) in Hs |- * by lia. rewrite (take_S_r _ _ _ Hh) in Hs |- *.
  by apply StronglySorted_snoc; [apply ordered_trans; apply _|..].
Qed.

Lemma fold_add_sorted (mk : GuardMetaData -> GuardMetaData) l base added :
  (forall g, gm_guard_key (mk g) = gm_guard_key g) ->
  StronglySorted guard_le base -> StronglySorted guard_lt added ->
  StronglySorted guard_lt
    (fst (fold_left (add_guard (ucmp := ucmp) mk l) (merge_sets (BySmallestGuard ucmp) base added) ([], None))).
Proof.
  intros Hmk Hb Ha. apply fold_add_guard_sorted; [done|done| |done].
  apply merge_sets_sorted; [apply _|done|]. by apply Sorted_strictly_ordered; [apply _|].
Qed.

Lemma save_guards_sorted l base added :
  StronglySorted guard_lt base -> StronglySorted guard_lt added ->
  StronglySorted guard_lt
    (fst (save_merge (BySmallestGuard ucmp) (MaybeAddGuard ucmp l) base added ([], None))).
Proof.
  intros Hb Ha. rewrite save_merge_fold, (fold_left_ext _ _ _ _ (MaybeAddGuard_add l)).
  apply fold_add_sorted; [done| |done]. by apply Sorted_strictly_ordered; [apply _|].
Qed.

Lemma fold_keep_complete_guard l gs s :
  fold_left (AddCompleteGuard ucmp l) gs s = s ++ List.filter (fun g => negb (guard_deleted ucmp l (gm_guard_key g))) gs.
Proof.
  revert s. induction gs as [|g gs IH]; intros s; simpl; [by rewrite app_nil_r|]. rewrite IH.
  unfold AddCompleteGuard. destruct (guard_deleted _ _ _); simpl; [done|]. by rewrite <- app_assoc.
Qed.

Lemma save_complete_guards_sorted level base num l edit :
  complete_ok base num -> level_state_ok l ->
  StronglySorted guard_lt (fst (save_complete_guards ucmp level base num l edit)).
Proof.
  intros [Hnum Hs] [_ _ Hl]. unfold save_complete_guards. destruct base as [|g0 base].
  { simpl. rewrite fold_keep_complete_guard. by apply StronglySorted_filter. }
  set (bc := g0 :: base) in *. set (start := Z.to_nat _). cbn [fst].
  rewrite save_merge_fold, (fold_left_ext _ _ _ _ (MaybeAddCompleteGuard_add l)).
  apply fold_add_sorted; [done| |].
  - assert (1 <= length bc)%nat by (simpl; lia). unfold len in Hnum.
    assert (1 <= start <= length bc)%nat as Hst by (unfold start; destruct (Z.leb_spec num 0); lia).
    apply first_unsorted_sorted; [lia|lia|]. unfold start. destruct (Z.leb_spec num 0); [|done].
    change (take (Z.to_nat 1) bc) with [g0]. repeat constructor.
  - apply fold_left_ok; [|done]. intros s g Hss. by apply set_insert_sorted; [apply _|].
Qed.
End Invariant.

(** ** Distributing the files of a level *)
Section Populate.
Context {ucmp : Comparator} `{!ComparatorOk ucmp all_keys}.
Notation icmp := (InternalKeyComparator ucmp).
Notation file_le := (ordered (BySmallestKey ucmp)).

Lemma populate_sentinel_spec limit files : forall acc,
  let n := prefix_len (before_limit ucmp limit) files in
  populate_sentinel ucmp limit files acc = (acc ++ take n files, drop n files).
Proof.
  induction files as [|f files IH]; intros acc; simpl; [by rewrite app_nil_r|].
  destruct (before_limit ucmp limit f); simpl; [|by rewrite app_nil_r]. rewrite IH. by rewrite <- app_assoc.
Qed.

(** [g'] is [g] with the files [fs] added. *)
Record filled (g g' : GuardMetaData) (fs : list FileMetaData) : Prop := {
  fi_key : gm_guard_key g' = gm_guard_key g;
  fi_level : gm_level g' = gm_level g;
  fi_files : gm_files g' = gm_files g ++ map fm_number fs;
  fi_metas : gm_file_metas g' = gm_file_metas g ++ fs;
  fi_segments : gm_number_segments g' = gm_number_segments g + len fs;
}.

Lemma populate_guard_spec limit files : forall g first,
  NoDup (map fm_number files) -> (forall f, f ∈ files -> fm_number f ∉ gm_files g) ->
  let n := prefix_len (before_limit ucmp limit) files in
  let r := populate_guard ucmp limit g first files in
  snd r = drop n files /\ filled g (fst r) (take n files).
Proof.
  induction files as [|f files IH]; intros g first Hnd Hnew; cbn [populate_guard prefix_len].
  { split; [done|]. split; simpl; rewrite ?app_nil_r; try done. len_solve. }
  destruct (before_limit ucmp limit f).
  2:{ split; [done|]. split; simpl; rewrite ?app_nil_r; try done. len_solve. }
  assert (fm_number f ∉ gm_files g) as Hf by (apply Hnew; left).
  assert (IsFileAlreadyPresent (gm_files g) (fm_number f) = false) as ->.
  { apply not_true_is_false. intros (x & Hx & E)%existsb_exists. apply Z.eqb_eq in E. subst x.
    by apply Hf, list_elem_of_In. }
  simpl in Hnd. apply NoDup_cons in Hnd as [Hnf Hnd].
  destruct (IH (add_file_to_guard ucmp g first f) false Hnd) as [Hr [H1 H2 H3 H4 H5]].
  { intros f' Hf'. simpl. rewrite elem_of_app, list_elem_of_singleton. intros [H|H].
    - revert H. apply Hnew. by right.
    - apply Hnf. rewrite <- H. by apply list_elem_of_In, in_map, list_elem_of_In. }
  split; [done|]. cbn [take]. split.
  - by rewrite H1.
  - by rewrite H2.
  - rewrite H3. simpl. by rewrite <- app_assoc.
  - rewrite H4. simpl. by rewrite <- app_assoc.
  - rewrite H5. simpl. len_solve.
Qed.

(** The range of a guard is that of its files. *)
Definition range_covers (g : GuardMetaData) : Prop :=
  Forall (fun f => Compare icmp (gm_smallest g) (fm_smallest f) <= 0 /\ Compare icmp (fm_largest f) (gm_largest g) <= 0)
    (gm_file_metas g) /\
  (Forall (file_keys_ok ucmp) (gm_file_metas g) -> gm_file_metas g <> [] -> guard_has_range g).

Lemma ikc_refl a : Compare icmp a a = 0.
Proof. rewrite ikc_Compare_same by done. lia. Qed.

Lemma add_file_covers g first f :
  (first = true -> gm_file_metas g = []) -> (first = false -> gm_file_metas g <> []) -> range_covers g ->
  range_covers (add_file_to_guard ucmp g first f).
Proof.
  intros H1 H0 [H2 H3]. split; simpl.
  - apply Forall_app. split; [|apply Forall_singleton].
    + destruct first; [rewrite H1 by done; constructor|]. eapply Forall_impl; [exact H2|].
      simpl. intros f' [Ha Hb]. split.
      * destruct (Z.ltb_spec (Compare icmp (fm_smallest f) (gm_smallest g)) 0) as [Hlt|]; [|done].
        eapply ikc_le_trans; [|exact Ha]. lia.
      * destruct (Z.ltb_spec 0 (Compare icmp (fm_largest f) (gm_largest g))) as [Hlt|]; [|done].
        eapply ikc_le_trans; [exact Hb|]. apply ikc_ge_le. lia.
    + destruct first; [rewrite !ikc_refl; lia|]. split.
      * destruct (Z.ltb_spec (Compare icmp (fm_smallest f) (gm_smallest g)) 0); [rewrite ikc_refl; lia|].
        by apply ikc_ge_le.
      * destruct (Z.ltb_spec 0 (Compare icmp (fm_largest f) (gm_largest g))); [rewrite ikc_refl; lia|done].
  - intros Hk _. apply Forall_app in Hk as [Hk Hf]. apply Forall_cons in Hf as [(Hs & Hl & _) _].
    unfold guard_has_range. simpl. destruct first; [done|]. destruct (H3 Hk (H0 eq_refl)) as [Hgs Hgl].
    split; [by destruct (_ <? _)|by destruct (_ <? _)].
Qed.

Lemma populate_guard_covers limit files : forall g first,
  (first = true -> gm_file_metas g = []) -> (first = false -> gm_file_metas g <> []) -> range_covers g ->
  range_covers (fst (populate_guard ucmp limit g first files)).
Proof.
  induction files as [|f files IH]; intros g first H1 H0 Hc; simpl; [done|].
  destruct (before_limit ucmp limit f); [|done]. destruct (IsFileAlreadyPresent _ _); [by apply IH|].
  apply IH; [done| |by apply add_file_covers]. intros _. simpl. intros H%(f_equal length).
  rewrite length_app in H. simpl in H. lia.
Qed.

(** *** Splitting a sorted list at a downward closed test *)
Lemma filter_split {A} (R : A -> A -> Prop) (p : A -> bool) l :
  StronglySorted R l -> (forall x y, R x y -> p y = true -> p x = true) ->
  take (prefix_len p l) l = List.filter p l /\ drop (prefix_len p l) l = List.filter (fun x => negb (p x)) l.
Proof.
  intros Hs Hp. induction Hs as [|x l Hs IH Hx]; simpl; [done|].
  destruct (p x) eqn:E; simpl; [by destruct IH as [-> ->]|].
  assert (Forall (fun y => p y = false) l) as Hf.
  { eapply Forall_impl; [exact Hx|]. intros y HR. apply not_true_is_false. intros Hy. by rewrite (Hp x y HR Hy) in E. }
  clear Hs IH Hx. induction Hf as [|y l Hy _ IH]; simpl; [done|]. rewrite Hy. simpl. destruct IH as [<- E2].
  split; congruence.
Qed.

Lemma filter_filter {A} (p q : A -> bool) l : List.filter p (List.filter q l) = List.filter (fun x => q x && p x) l.
Proof.
  induction l as [|x l IH]; simpl; [done|]. destruct (q x); simpl; [|done]. destruct (p x); [by rewrite IH|done].
Qed.

(** A file lies in one part of the level, and its largest internal key is on
    the same side of every guard key as its largest user key. *)
Definition file_fits (guards : list GuardMetaData) (f : FileMetaData) : Prop :=
  guard_slot ucmp guards (file_start f) = guard_slot ucmp guards (file_limit f) /\
  Forall (fun g => Compare icmp (fm_largest f) (gm_guard_key g) < 0 <-> Compare ucmp (file_limit f) (guard_ukey g) < 0)
    guards.

Definition slot_of (guards : list GuardMetaData) (f : FileMetaData) : nat := guard_slot ucmp guards (file_limit f).

Lemma file_le_slots guards files :
  Forall (file_fits guards) files -> StronglySorted file_le files ->
  StronglySorted (fun f g => slot_of guards f <= slot_of guards g)%nat files.
Proof.
  intros Hf Hs. induction Hs as [|f fs Hs IH Hh]; [constructor|]. apply Forall_cons in Hf as [Hff Hf].
  constructor; [by apply IH|]. rewrite Forall_forall in *. intros g Hg. unfold slot_of.
  rewrite <- (proj1 Hff), <- (proj1 (Hf g Hg)). apply guard_slot_mono.
  apply (ikc_user_le (ucmp := ucmp)). specialize (Hh g Hg). unfold ordered in Hh. apply not_true_iff_false in Hh.
  rewrite BySmallestKey_spec in Hh. apply ikc_ge_le. lia.
Qed.

(** The test of a round is the test on slots. *)
Lemma before_limit_slot guards k f :
  guards_sorted ucmp guards -> file_fits guards f ->
  before_limit ucmp (gm_guard_key <$> guards !! k) f = (slot_of guards f <=? k)%nat.
Proof.
  intros Hs [_ Hf]. unfold slot_of. destruct (guards !! k) as [g|] eqn:E; simpl.
  - pose proof (guard_slot_lookup guards (file_limit f) k g Hs E).
    pose proof (Forall_lookup_1 _ _ _ _ Hf E) as Hg. simpl in Hg.
    destruct (Z.ltb_spec (Compare icmp (fm_largest f) (gm_guard_key g)) 0), (Nat.leb_spec (guard_slot ucmp guards (file_limit f)) k); lia.
  - apply lookup_ge_None in E. pose proof (guard_slot_le (ucmp := ucmp) guards (file_limit f)). symmetry.
    apply Nat.leb_le. lia.
Qed.

(** What a part of the level gets. *)
Definition part (guards : list GuardMetaData) (files : list FileMetaData) (k : nat) : list FileMetaData :=
  List.filter (fun f => slot_of guards f =? k)%nat files.
Definition parts_from (guards : list GuardMetaData) (files : list FileMetaData) (k : nat) : list FileMetaData :=
  List.filter (fun f => k <=? slot_of guards f)%nat files.

Lemma round_split guards files k :
  guards_sorted ucmp guards -> Forall (file_fits guards) files -> StronglySorted file_le files ->
  let rem := parts_from guards files k in
  let n := prefix_len (before_limit ucmp (gm_guard_key <$> guards !! k)) rem in
  take n rem = part guards files k /\ drop n rem = parts_from guards files (S k).
Proof.
  intros Hs Hf Hsort rem n. assert (Forall (file_fits guards) rem) as Hfr.
  { rewrite Forall_forall in *. intros f Hin. apply Hf. rewrite list_elem_of_In in *. by apply List.filter_In in Hin as []. }
  assert (n = prefix_len (fun f => slot_of guards f <=? k)%nat rem) as ->.
  { apply prefix_len_ext. eapply Forall_impl; [exact Hfr|]. intros f. by apply before_limit_slot. }
  destruct (filter_split (fun f g => slot_of guards f <= slot_of guards g)%nat
    (fun f => slot_of guards f <=? k)%nat rem) as [-> ->].
  - by apply StronglySorted_filter, file_le_slots.
  - intros f g Hle. rewrite !Nat.leb_le. lia.
  - unfold rem, parts_from, part. rewrite !filter_filter. split; apply List.filter_ext; intros f.
    + destruct (Nat.leb_spec k (slot_of guards f)), (Nat.leb_spec (slot_of guards f) k),
        (Nat.eqb_spec (slot_of guards f) k); simpl; try done; lia.
    + destruct (Nat.leb_spec k (slot_of guards f)), (Nat.leb_spec (slot_of guards f) k),
        (Nat.leb_spec (S k) (slot_of guards f)); simpl; try done; lia.
Qed.
End Populate.

(** ** The populated level *)
Section Populated.
Context {ucmp : Comparator} `{!ComparatorOk ucmp all_keys}.
Notation icmp := (InternalKeyComparator ucmp).
Notation file_le := (ordered (BySmallestKey ucmp)).

Lemma NoDup_map_filter {A B} (f : A -> B) (p : A -> bool) l : NoDup (map f l) -> NoDup (map f (List.filter p l)).
Proof.
  induction l as [|x l IH]; simpl; [done|]. intros [Hx Hl]%NoDup_cons. destruct (p x); [|auto]. simpl.
  apply NoDup_cons. split; [|auto]. rewrite list_elem_of_In, in_map_iff in *. intros (y & E & Hy). apply Hx.
  apply List.filter_In in Hy as [Hy _]. by exists y.
Qed.

Lemma NoDup_drop {A B} (f : A -> B) n l : NoDup (map f l) -> NoDup (map f (drop n l)).
Proof. rewrite <- (take_drop n l) at 1. rewrite map_app, NoDup_app. by intros (_ & _ & ?). Qed.

(** Guards as MaybeAddGuard makes them. *)
Definition fresh (g : GuardMetaData) : Prop := gm_file_metas g = [] /\ gm_smallest g = [] /\ gm_largest g = [].

Lemma clear_fresh g : fresh g -> gm_file_metas (clear_guard g) = [] /\ range_covers (ucmp := ucmp) (clear_guard g).
Proof. intros (E & _ & _). split; [done|]. unfold range_covers. simpl. rewrite E. split; [constructor|done]. Qed.

(** A round on a fresh guard. *)
Lemma populate_round limit g files :
  fresh g -> NoDup (map fm_number files) ->
  let n := prefix_len (before_limit ucmp limit) files in
  let r := populate_guard ucmp limit (clear_guard g) true files in
  snd r = drop n files /\ filled (clear_guard g) (fst r) (take n files) /\ range_covers (ucmp := ucmp) (fst r).
Proof.
  intros Hg Hnd n r. destruct (populate_guard_spec (ucmp := ucmp) limit files (clear_guard g) true Hnd) as [H1 H2].
  { intros f _. apply not_elem_of_nil. }
  split; [done|]. split; [done|]. destruct (clear_fresh g Hg). by apply populate_guard_covers.
Qed.

Lemma prefix_len_all {A} (p : A -> bool) l : (forall x, p x = true) -> prefix_len p l = length l.
Proof. intros H. induction l as [|x l IH]; simpl; [done|]. by rewrite H, IH. Qed.

(** The sentinel round is the same with and without guards. *)
Lemma populate_eq gs fs :
  let n := prefix_len (before_limit ucmp (gm_guard_key <$> gs !! 0%nat)) fs in
  PopulateFilesToGuardsAndSentinels ucmp gs fs [] = (populate_guards ucmp gs (drop n fs), take n fs).
Proof.
  unfold PopulateFilesToGuardsAndSentinels. destruct gs as [|g gs]; cbv zeta.
  - rewrite prefix_len_all by done. by rewrite take_ge by lia.
  - by rewrite populate_sentinel_spec.
Qed.

(** *** No file is lost: the parts concatenate to the files of the level. *)
Lemma populate_guards_concat guards : forall files,
  guards <> [] -> Forall fresh guards -> NoDup (map fm_number files) ->
  concat (map gm_file_metas (populate_guards ucmp guards files)) = files.
Proof.
  induction guards as [|g guards IH]; intros files Hne Hf Hnd; [done|]. apply Forall_cons in Hf as [Hg Hf].
  cbn [populate_guards]. destruct (populate_round (gm_guard_key <$> head guards) g files Hg Hnd) as (E & [_ _ _ Hm _] & _).
  destruct (populate_guard _ _ _ _ _) as [g' rest]. simpl in *. destruct Hg as [Hg _]. rewrite Hm, Hg, E.
  destruct guards as [|h guards].
  - simpl. rewrite prefix_len_all, take_ge by (done || lia). apply app_nil_r.
  - rewrite IH; [|done|done|by apply NoDup_drop]. apply take_drop.
Qed.

Lemma populate_all_files guards files :
  Forall fresh guards -> NoDup (map fm_number files) ->
  let r := PopulateFilesToGuardsAndSentinels ucmp guards files [] in
  snd r ++ concat (map gm_file_metas (fst r)) = files.
Proof.
  intros Hf Hnd. rewrite populate_eq. cbn [fst snd]. destruct guards as [|g guards].
  - simpl. rewrite prefix_len_all, take_ge by (done || lia). apply app_nil_r.
  - rewrite populate_guards_concat; [apply take_drop|done|done|by apply NoDup_drop].
Qed.

(** *** Every part gets the files of its slot *)
Context (guards : list GuardMetaData) (files : list FileMetaData).
Hypothesis Hguards : guards_sorted ucmp guards.
Hypothesis Hfresh : Forall fresh guards.
Hypothesis Hfits : Forall (file_fits (ucmp := ucmp) guards) files.
Hypothesis Hfiles : StronglySorted file_le files.
Hypothesis Hnd : NoDup (map fm_number files).

Lemma populate_guards_spec todo : forall pre i g',
  guards = pre ++ todo ->
  populate_guards ucmp todo (parts_from (ucmp := ucmp) guards files (S (length pre))) !! i = Some g' ->
  exists g, todo !! i = Some g /\
    filled (clear_guard g) g' (part (ucmp := ucmp) guards files (S (length pre + i))) /\ range_covers (ucmp := ucmp) g'.
Proof.
  induction todo as [|g todo IH]; intros pre i g' E; [done|]. cbn [populate_guards].
  assert (gm_guard_key <$> head todo = gm_guard_key <$> guards !! S (length pre)) as ->.
  { rewrite E, lookup_app_r by lia. replace (S (length pre) - length pre)%nat with 1%nat by lia. by destruct todo. }
  assert (fresh g) as Hg.
  { rewrite E in Hfresh. apply Forall_app in Hfresh as [_ H]. by apply Forall_cons in H as []. }
  destruct (populate_round (gm_guard_key <$> guards !! S (length pre)) g
    (parts_from (ucmp := ucmp) guards files (S (length pre))) Hg) as (E1 & E2 & E3); [by apply NoDup_map_filter|].
  destruct (round_split (ucmp := ucmp) guards files (S (length pre)) Hguards Hfits Hfiles) as [R1 R2].
  rewrite R1 in E2. rewrite R2 in E1. destruct (populate_guard _ _ _ _ _) as [g1 rest]. simpl in E1, E2, E3. subst rest.
  destruct i as [|i]; simpl.
  - intros [= <-]. exists g. rewrite Nat.add_0_r. done.
  - intros H. destruct (IH (pre ++ [g]) i g') as (h & Hh & H1 & H2).
    + by rewrite <- app_assoc.
    + rewrite length_app, Nat.add_comm. exact H.
    + exists h. split; [done|]. split; [|done]. rewrite length_app in H1. simpl in H1.
      by replace (S (length pre + S i)) with (S (length pre + 1 + i)) by lia.
Qed.

Lemma length_populate_guards todo : forall fs, length (populate_guards ucmp todo fs) = length todo.
Proof.
  induction todo as [|g todo IH]; intros fs; simpl; [done|]. destruct (populate_guard _ _ _ _ _). simpl. by rewrite IH.
Qed.

Lemma parts_from_0 : parts_from (ucmp := ucmp) guards files 0 = files.
Proof. unfold parts_from. clear. induction files as [|f fs IH]; [done|]. simpl. f_equal. exact IH. Qed.

Lemma populate_spec :
  let r := PopulateFilesToGuardsAndSentinels ucmp guards files [] in
  snd r = part (ucmp := ucmp) guards files 0 /\ length (fst r) = length guards /\
  forall i g', fst r !! i = Some g' ->
    exists g, guards !! i = Some g /\ gm_guard_key g' = gm_guard_key g /\
      guard_files g' = part (ucmp := ucmp) guards files (S i) /\ range_covers (ucmp := ucmp) g' /\
      gm_file_metas g' = guard_files g'.
Proof.
  destruct (round_split (ucmp := ucmp) guards files 0 Hguards Hfits Hfiles) as [R1 R2]. rewrite parts_from_0 in R1, R2.
  rewrite populate_eq. cbn [fst snd]. rewrite R1, R2. split; [done|].
  split; [apply length_populate_guards|]. intros i g' Hg'.
  destruct (populate_guards_spec guards [] i g') as (h & Hh & [K1 _ K3 K4 K5] & Hc); [done|exact Hg'|].
  exists h. split; [done|]. split; [done|].
  assert (gm_file_metas g' = part (ucmp := ucmp) guards files (S i)) as Em.
  { rewrite K4. simpl. by destruct (Forall_lookup_1 _ _ _ _ Hfresh Hh) as [-> _]. }
  assert (guard_files g' = gm_file_metas g') as Ef.
  { unfold guard_files. rewrite K5. change (gm_number_segments (clear_guard h)) with 0.
    by rewrite Z.add_0_l, Em, to_nat_len, take_ge by done. }
  by rewrite Ef.
Qed.
End Populated.

(** ** Levels of the saved version *)
Section SavedVersion.
Context {ucmp : Comparator} `{!ComparatorOk ucmp all_keys}.
Notation icmp := (InternalKeyComparator ucmp).
Notation file_le := (ordered (BySmallestKey ucmp)).
Notation guard_lt := (strictly (BySmallestGuard ucmp)).
Notation guard_le := (ordered (BySmallestGuard ucmp)).

Lemma populate_guard_key limit fs : forall g first,
  gm_guard_key (fst (populate_guard ucmp limit g first fs)) = gm_guard_key g.
Proof.
  induction fs as [|f fs IH]; intros g first; simpl; [done|]. destruct (before_limit ucmp limit f); [|done].
  destruct (IsFileAlreadyPresent _ _); [apply IH|]. by rewrite IH.
Qed.

Lemma populate_guards_keys gs : forall fs,
  map gm_guard_key (populate_guards ucmp gs fs) = map gm_guard_key gs.
Proof.
  induction gs as [|g gs IH]; intros fs; simpl; [done|].
  pose proof (populate_guard_key (gm_guard_key <$> head gs) fs (clear_guard g) true) as E.
  destruct (populate_guard _ _ _ _ _) as [g' rest]. simpl in *. by rewrite E, IH.
Qed.

Lemma guards_sorted_keys gs gs' :
  map gm_guard_key gs' = map gm_guard_key gs -> guards_sorted ucmp gs -> guards_sorted ucmp gs'.
Proof.
  intros E Hs i j g h Hij Hg Hh.
  assert (forall k x, gs' !! k = Some x -> exists y, gs !! k = Some y /\ gm_guard_key x = gm_guard_key y) as Hk.
  { intros k x Hx. assert (map gm_guard_key gs !! k = Some (gm_guard_key x)) as H
      by (rewrite <- E; apply (list_lookup_fmap_Some_2 gm_guard_key _ _ _ Hx)).
    apply list_lookup_fmap_Some in H as (y & ? & ?). by exists y. }
  destruct (Hk i g Hg) as (y & Hy & E1), (Hk j h Hh) as (z & Hz & E2).
  unfold guard_ukey. rewrite E1, E2. by apply (Hs i j).
Qed.

Lemma guard_slot_keys gs gs' u :
  map gm_guard_key gs' = map gm_guard_key gs -> guard_slot ucmp gs' u = guard_slot ucmp gs u.
Proof.
  unfold guard_slot. revert gs'. induction gs as [|g gs IH]; intros [|h hs]; try done.
  intros [= E1 E2]. simpl. unfold guard_at_or_before, guard_ukey at 1 3. rewrite E1. by erewrite IH.
Qed.

Lemma file_fits_keys gs gs' f :
  map gm_guard_key gs' = map gm_guard_key gs -> file_fits (ucmp := ucmp) gs' f -> file_fits (ucmp := ucmp) gs f.
Proof.
  intros E [H1 H2]. split; [by rewrite <- !(guard_slot_keys _ _ _ E)|].
  rewrite Forall_lookup in *. intros i g Hg.
  assert (map gm_guard_key gs' !! i = Some (gm_guard_key g)) as H
    by (rewrite E; apply (list_lookup_fmap_Some_2 gm_guard_key _ _ _ Hg)).
  apply list_lookup_fmap_Some in H as (y & Hy & Ey). specialize (H2 i _ Ey). unfold guard_ukey in *. simpl in H2.
  by rewrite <- Hy in H2.
Qed.

(** The guards SaveTo stores are fresh. *)
Lemma fold_add_guard_fresh l gs : forall s,
  Forall fresh (fst s) -> Forall fresh (fst (fold_left (add_guard (ucmp := ucmp) fresh_guard l) gs s)).
Proof.
  induction gs as [|g gs IH]; intros s Hs; simpl; [done|]. apply IH. destruct s as [gs0 last]. unfold add_guard.
  destruct (same_guard_key _ _ _); [done|]. destruct (guard_deleted _ _ _); [done|]. simpl.
  apply Forall_app. split; [done|]. repeat constructor.
Qed.

Definition state_at (b : Builder) (level : nat) : LevelState := default new_LevelState (b_levels b !! level).

(** *** The saved levels, one by one *)
Definition saved_level (b : Builder) (level : nat) (edit : option VersionEdit) : SavedLevel :=
  fst (SaveTo_level ucmp b level (state_at b level) edit).

(** The edit only collects complete guards; the saved level does not depend on it. *)
Lemma save_complete_edit level base num l e e' :
  fst (save_complete_guards ucmp level base num l e) = fst (save_complete_guards ucmp level base num l e').
Proof. unfold save_complete_guards. by destruct base. Qed.

Lemma SaveTo_level_edit b level l e e' :
  fst (SaveTo_level ucmp b level l e) = fst (SaveTo_level ucmp b level l e').
Proof.
  unfold SaveTo_level. pose proof (save_complete_edit level (level_of (v_complete_guards (b_base b)) level)
    (default 0 (v_num_complete_guards (b_base b) !! level)) l e e') as E.
  destruct (save_complete_guards _ _ _ _ _ e) as [c1 e1], (save_complete_guards _ _ _ _ _ e') as [c2 e2].
  simpl in E. subst c2. by destruct (PopulateFilesToGuardsAndSentinels _ _ _ _).
Qed.

Lemma SaveTo_levels_lookup b ls : forall level edit i,
  fst (SaveTo_levels ucmp b level ls edit) !! i =
  (fun l => fst (SaveTo_level ucmp b (level + i) l None)) <$> ls !! i.
Proof.
  induction ls as [|l ls IH]; intros level edit i; simpl; [done|].
  destruct (SaveTo_level ucmp b level l edit) as [s e1] eqn:E.
  specialize (IH (S level) e1). destruct (SaveTo_levels ucmp b (S level) ls e1) as [ss e2].
  destruct i as [|i]; simpl.
  - rewrite Nat.add_0_r. f_equal. rewrite (SaveTo_level_edit _ _ _ None edit). by rewrite E.
  - specialize (IH i). cbn [fst] in IH. rewrite IH. by rewrite Nat.add_succ_comm.
Qed.

Lemma level_of_map {A B} (f : A -> list B) ls level :
  level_of (map f ls) level = default [] (f <$> ls !! level).
Proof. unfold level_of. by rewrite <- list_lookup_fmap. Qed.

Definition saved_none : SavedLevel :=
  {| sl_files := []; sl_guards := []; sl_complete_guards := []; sl_sentinel_files := []; sl_num_complete_guards := 0 |}.

Definition saved_at (b : Builder) (level : nat) : SavedLevel :=
  default saved_none ((fun l => fst (SaveTo_level ucmp b level l None)) <$> b_levels b !! level).

Lemma SaveTo_at b edit level :
  let v := fst (SaveTo ucmp b edit) in
  level_of (v_files v) level = sl_files (saved_at b level) /\
  level_of (v_guards v) level = sl_guards (saved_at b level) /\
  level_of (v_complete_guards v) level = sl_complete_guards (saved_at b level) /\
  level_of (v_sentinel_files v) level = sl_sentinel_files (saved_at b level) /\
  default 0 (v_num_complete_guards v !! level) = sl_num_complete_guards (saved_at b level).
Proof.
  unfold SaveTo, saved_at. pose proof (SaveTo_levels_lookup b (b_levels b) 0 edit level) as E. simpl in E.
  destruct (SaveTo_levels ucmp b 0 (b_levels b) edit) as [ss e]. simpl in E |- *.
  rewrite !level_of_map.
  change (map sl_num_complete_guards ss) with (sl_num_complete_guards <$> ss). rewrite list_lookup_fmap, E.
  by destruct (b_levels b !! level).
Qed.

Lemma saved_level_ok b level l :
  version_ok (ucmp := ucmp) (b_base b) -> level_state_ok (ucmp := ucmp) l ->
  let s := fst (SaveTo_level ucmp b level l None) in
  StronglySorted file_le (sl_files s) /\ guards_sorted ucmp (sl_guards s) /\
  StronglySorted guard_lt (sl_complete_guards s) /\ sl_num_complete_guards s = len (sl_complete_guards s).
Proof.
  intros Hv Hl. destruct (Hv level) as [Hf Hg Hc]. pose proof Hl as [Hlf Hlg Hlc]. unfold SaveTo_level.
  pose proof (save_complete_guards_sorted level _ _ l None Hc Hl) as Hcs.
  destruct (save_complete_guards _ _ _ _ _ _) as [c e]. rewrite populate_eq. simpl in *.
  split; [|split; [|done]].
  - rewrite save_files. apply StronglySorted_filter, merge_sets_sorted; [apply _|done|].
    by apply Sorted_strictly_ordered; [apply _|].
  - eapply guards_sorted_keys; [apply populate_guards_keys|]. apply guards_sorted_iff, save_guards_sorted; [|done].
    by apply guards_sorted_iff.
Qed.

Lemma SaveTo_ok b edit : builder_ok (ucmp := ucmp) b -> version_ok (ucmp := ucmp) (fst (SaveTo ucmp b edit)).
Proof.
  intros [Hv Hl] level. destruct (SaveTo_at b edit level) as (E1 & E2 & E3 & _ & E5).
  assert (StronglySorted file_le (sl_files (saved_at b level)) /\ guards_sorted ucmp (sl_guards (saved_at b level)) /\
    StronglySorted guard_lt (sl_complete_guards (saved_at b level)) /\
    sl_num_complete_guards (saved_at b level) = len (sl_complete_guards (saved_at b level))) as (H1 & H2 & H3 & H4).
  { unfold saved_at. destruct (b_levels b !! level) as [l|] eqn:E; simpl.
    - apply saved_level_ok; [done|]. by apply (Forall_lookup_1 _ _ _ _ Hl E).
    - split; [constructor|]. split; [by intros ? ? ? ? _ ?|]. split; [constructor|done]. }
  split; [by rewrite E1|by rewrite E2|]. rewrite E3, E5, H4. split; [pose proof (len_nonneg (sl_complete_guards (saved_at b level))); lia|].
  rewrite to_nat_len, take_ge by lia. by apply Sorted_strictly_ordered; [apply _|].
Qed.
End SavedVersion.

(** ** The files after an edit *)
Section EditFiles.
Context {ucmp : Comparator} `{!ComparatorOk ucmp all_keys}.

Lemma state_at_at_level level f b k :
  (k < length (b_levels b))%nat ->
  state_at (at_level level f b) k = if decide (Z.to_nat level = k) then f (state_at b k) else state_at b k.
Proof.
  intros Hk. unfold state_at, at_level. simpl. destruct (decide (Z.to_nat level = k)) as [->|Hne].
  - rewrite list_lookup_alter_eq. destruct (lookup_lt_is_Some_2 _ _ Hk) as [l ->]. done.
  - by rewrite list_lookup_alter_ne.
Qed.

(** What a fold of the builder's steps changes at one level. *)
Lemma fold_levels_length {B} (f : Builder -> B -> Builder) xs b :
  (forall b x, length (b_levels (f b x)) = length (b_levels b)) ->
  length (b_levels (fold_left f xs b)) = length (b_levels b).
Proof. intros Hf. revert b. induction xs as [|x xs IH]; intros b; simpl; [done|]. by rewrite IH, Hf. Qed.

Definition same_files (b b' : Builder) (k : nat) : Prop :=
  length (b_levels b') = length (b_levels b) /\
  deleted_files (state_at b' k) = deleted_files (state_at b k) /\
  added_files (state_at b' k) = added_files (state_at b k).

Lemma same_files_at_level level f b k :
  (forall l, deleted_files (f l) = deleted_files l /\ added_files (f l) = added_files l) ->
  (k < length (b_levels b))%nat -> same_files b (at_level level f b) k.
Proof.
  intros Hf Hk. split; [by simpl; rewrite length_alter|]. rewrite state_at_at_level by done.
  destruct (decide _); [apply Hf|done].
Qed.

Lemma same_files_fold {B} (f : Builder -> B -> Builder) xs b k :
  (forall b x, (k < length (b_levels b))%nat -> same_files b (f b x) k) ->
  (k < length (b_levels b))%nat -> same_files b (fold_left f xs b) k.
Proof.
  intros Hf. revert b. induction xs as [|x xs IH]; intros b Hk; simpl; [done|].
  destruct (Hf b x Hk) as (H1 & H2 & H3). destruct (IH (f b x)) as (H4 & H5 & H6); [lia|]. split; [lia|]. split; congruence.
Qed.

(** The numbers of the new files of a level, and of its deleted files. *)
Definition new_numbers (k : nat) (nf : list (Z * FileMetaData)) : list Z :=
  map (fun p => fm_number (snd p)) (List.filter (fun p => Z.to_nat (fst p) =? k)%nat nf).
Definition deleted_numbers (k : nat) (df : list (Z * Z)) : list Z :=
  map snd (List.filter (fun p => Z.to_nat (fst p) =? k)%nat df).

#[export] Instance Zltb_weak : StrictWeak Z.ltb.
Proof. split; intros *; rewrite ?Z.ltb_lt, ?Z.ltb_ge; lia. Qed.

Lemma set_insert_Z n x l : n ∈ set_insert Z.ltb x l <-> n = x \/ n ∈ l.
Proof.
  split; [apply (set_insert_elem Z.ltb)|]. intros [->|H]; [|by apply (set_insert_old Z.ltb)].
  destruct (set_insert_new Z.ltb x l) as (y & Hy & H1 & H2 & _).
  apply Z.ltb_ge in H1, H2. assert (y = x) as -> by lia. done.
Qed.

(** Equivalent files have the same number. *)
Lemma set_insert_number n f l :
  n ∈ map fm_number (set_insert (BySmallestKey ucmp) f l) <-> n = fm_number f \/ n ∈ map fm_number l.
Proof.
  rewrite !list_elem_of_In, !in_map_iff. setoid_rewrite <- list_elem_of_In. split.
  - intros (g & <- & [->|Hg]%(set_insert_elem (BySmallestKey ucmp))); [by left|right; by exists g].
  - intros [->|(g & <- & Hg)].
    + destruct (set_insert_new (BySmallestKey ucmp) f l) as (y & Hy & H1 & H2 & _). exists y. split; [|done].
      apply not_true_iff_false in H1, H2. rewrite BySmallestKey_spec in H1, H2.
      pose proof (ikc_anti (ucmp := ucmp) (fm_smallest f) (fm_smallest y)).
      pose proof (ikc_anti (ucmp := ucmp) (fm_smallest y) (fm_smallest f)). lia.
    + exists g. split; [done|]. by apply (set_insert_old (BySmallestKey ucmp)).
Qed.

Lemma fold_deleted_files k df : forall b,
  (k < length (b_levels b))%nat ->
  let b' := fold_left apply_deleted_file df b in
  length (b_levels b') = length (b_levels b) /\ added_files (state_at b' k) = added_files (state_at b k) /\
  forall n, n ∈ deleted_files (state_at b' k) <-> n ∈ deleted_files (state_at b k) \/ n ∈ deleted_numbers k df.
Proof.
  induction df as [|p df IH]; intros b Hk; cbn [fold_left].
  { split; [done|]. split; [done|]. intros n. unfold deleted_numbers. simpl. rewrite elem_of_nil. tauto. }
  destruct (IH (apply_deleted_file b p)) as (H1 & H2 & H3); [simpl; by rewrite length_alter|].
  split; [rewrite H1; simpl; by rewrite length_alter|].
  unfold apply_deleted_file in H2, H3. rewrite state_at_at_level in H2, H3 by done.
  unfold deleted_numbers in *. simpl. destruct (decide (Z.to_nat (fst p) = k)) as [E|E].
  - split; [done|]. intros n. rewrite H3. simpl. rewrite set_insert_Z, (proj2 (Nat.eqb_eq _ _) E). simpl.
    rewrite elem_of_cons. tauto.
  - split; [done|]. intros n. rewrite H3. by rewrite (proj2 (Nat.eqb_neq _ _) E).
Qed.

Lemma fold_new_files k nf : forall b,
  (k < length (b_levels b))%nat ->
  let b' := fold_left (apply_new_file ucmp) nf b in
  length (b_levels b') = length (b_levels b) /\
  (forall n, n ∈ deleted_files (state_at b' k) <-> n ∈ deleted_files (state_at b k) /\ n ∉ new_numbers k nf) /\
  (forall n, n ∈ map fm_number (added_files (state_at b' k)) <->
     n ∈ map fm_number (added_files (state_at b k)) \/ n ∈ new_numbers k nf).
Proof.
  induction nf as [|p nf IH]; intros b Hk; cbn [fold_left].
  { split; [done|]. unfold new_numbers. simpl. split; intros n; rewrite elem_of_nil; tauto. }
  destruct (IH (apply_new_file ucmp b p)) as (H1 & H2 & H3); [simpl; by rewrite length_alter|].
  split; [rewrite H1; simpl; by rewrite length_alter|].
  unfold apply_new_file in H2, H3. rewrite state_at_at_level in H2, H3 by done.
  unfold new_numbers in *. simpl. destruct (decide (Z.to_nat (fst p) = k)) as [E|E].
  - rewrite (proj2 (Nat.eqb_eq _ _) E). simpl. split; intros n.
    + rewrite H2. simpl. rewrite list_elem_of_In, List.filter_In, <- list_elem_of_In, negb_true_iff, Z.eqb_neq, not_elem_of_cons.
      tauto.
    + rewrite H3. simpl. rewrite set_insert_number, elem_of_cons. simpl. tauto.
  - rewrite (proj2 (Nat.eqb_neq _ _) E). done.
Qed.

Lemma Apply_files edit b k :
  (k < length (b_levels b))%nat ->
  (forall n, n ∈ deleted_files (state_at (Apply ucmp edit b) k) <->
     (n ∈ deleted_files (state_at b k) \/ n ∈ deleted_numbers k (ve_deleted_files edit)) /\
     n ∉ new_numbers k (ve_new_files edit)) /\
  (forall n, n ∈ map fm_number (added_files (state_at (Apply ucmp edit b) k)) <->
     n ∈ map fm_number (added_files (state_at b k)) \/ n ∈ new_numbers k (ve_new_files edit)).
Proof.
  intros Hk. unfold Apply.
  set (b1 := fold_left apply_compact_pointer _ b). assert (same_files b b1 k) as (E1 & E2 & E3) by (by apply same_files_fold).
  set (b2 := fold_left apply_deleted_file _ b1).
  destruct (fold_deleted_files k (ve_deleted_files edit) b1) as (F1 & F2 & F3); [lia|]. fold b2 in F1, F2, F3.
  set (b3 := fold_left (apply_new_file ucmp) _ b2).
  destruct (fold_new_files k (ve_new_files edit) b2) as (G1 & G2 & G3); [lia|]. fold b3 in G1, G2, G3.
  set (b4 := fold_left (apply_deleted_guard ucmp) _ b3). assert (same_files b3 b4 k) as (H1 & H2 & H3).
  { apply same_files_fold; [|lia]. intros b' p Hb'. by apply same_files_at_level. }
  match goal with |- context [state_at ?b5 k] => assert (same_files b4 b5 k) as (K1 & K2 & K3) end.
  { apply same_files_fold; [|lia]. intros b' j Hb'.
    assert (same_files b' (fold_left (apply_new_guard ucmp j) (level_of (ve_new_guards edit) j) b') k) as (L1 & L2 & L3).
    { apply same_files_fold; [|lia]. intros b'' g Hb''. by apply same_files_at_level. }
    assert (same_files (fold_left (apply_new_guard ucmp j) (level_of (ve_new_guards edit) j) b')
      (fold_left (apply_new_complete_guard ucmp j) (level_of (ve_new_complete_guards edit) j)
        (fold_left (apply_new_guard ucmp j) (level_of (ve_new_guards edit) j) b')) k) as (M1 & M2 & M3).
    { apply same_files_fold; [|lia]. intros b'' g Hb''. by apply same_files_at_level. }
    split; [lia|]. split; congruence. }
  split; intros n.
  - rewrite K2, H2, G2, F3, E2. done.
  - rewrite K3, H3, G3, F2, E3. done.
Qed.

Lemma saved_numbers b level n :
  (level < length (b_levels b))%nat ->
  n ∈ map fm_number (level_of (v_files (fst (SaveTo ucmp b None))) level) <->
  (n ∈ map fm_number (level_of (v_files (b_base b)) level) \/ n ∈ map fm_number (added_files (state_at b level))) /\
  n ∉ deleted_files (state_at b level).
Proof.
  intros Hk. destruct (SaveTo_at (ucmp := ucmp) b None level) as (-> & _). unfold saved_at, state_at.
  destruct (lookup_lt_is_Some_2 _ _ Hk) as [l ->]. simpl. unfold SaveTo_level.
  destruct (save_complete_guards _ _ _ _ _ _) as [c e]. rewrite populate_eq. simpl. rewrite save_files.
  rewrite !list_elem_of_In, !in_map_iff. setoid_rewrite List.filter_In. setoid_rewrite <- list_elem_of_In.
  setoid_rewrite (merge_sets_perm (BySmallestKey ucmp) (added_files l)). setoid_rewrite elem_of_app.
  assert (forall f, file_kept l f = true <-> fm_number f ∉ deleted_files l) as Hkept.
  { intros f. unfold file_kept. rewrite negb_true_iff, <- not_true_iff_false, existsb_exists, list_elem_of_In. split.
    - intros H Hin. apply H. exists (fm_number f). by rewrite Z.eqb_refl.
    - intros H (x & Hx & E%Z.eqb_eq). by subst. }
  setoid_rewrite Hkept. naive_solver.
Qed.
End EditFiles.

(** ** Where lookups search *)

(** When every file of the level lies in
    one part (its largest key being on the same side of each guard key as an
    internal key and as a user key), each file is found where a lookup of any
    user key in its range searches: in the sentinel when the key is before all
    guards, and otherwise among the files of the last guard at or before the
    key; and the range of a guard covers its files. *)
Lemma populate_serves_lookups (ucmp : Comparator) (guards : list GuardMetaData) (files : list FileMetaData)
    (f : FileMetaData) (u : bytes)
    (Hucmp : ComparatorOk ucmp all_keys) (Hguards : guards_sorted ucmp guards) (Hfresh : Forall fresh guards)
    (Hfits : Forall (file_fits (ucmp := ucmp) guards) files)
    (Hfiles : StronglySorted (ordered (BySmallestKey ucmp)) files) (Hnd : NoDup (map fm_number files))
    (Hf : f ∈ files) (Hu : Compare ucmp (file_start f) u <= 0 /\ Compare ucmp u (file_limit f) <= 0) :
  let r := PopulateFilesToGuardsAndSentinels ucmp guards files [] in
  guards_sorted ucmp (fst r) /\
  match guard_slot ucmp (fst r) u with
  | O => f ∈ snd r
  | S i => exists g, fst r !! i = Some g /\ f ∈ guard_files g /\ guard_covers_files (ucmp := ucmp) g
  end.
Proof.
  intros r. destruct (populate_spec (ucmp := ucmp) guards files Hguards Hfresh Hfits Hfiles Hnd) as (H1 & H2 & H3).
  fold r in H1, H2, H3.
  assert (map gm_guard_key (fst r) = map gm_guard_key guards) as Ek
    by (unfold r; rewrite populate_eq; apply populate_guards_keys).
  split; [by eapply guards_sorted_keys|].
  rewrite (guard_slot_keys _ _ _ Ek).
  assert (guard_slot ucmp guards u = slot_of (ucmp := ucmp) guards f) as Es.
  { rewrite Forall_forall in Hfits. destruct (Hfits f Hf) as [Hfit _]. destruct Hu as [Hu1 Hu2].
    pose proof (guard_slot_mono guards _ _ Hu1). pose proof (guard_slot_mono guards _ _ Hu2). unfold slot_of. lia. }
  assert (f ∈ part (ucmp := ucmp) guards files (guard_slot ucmp guards u)) as Hpart.
  { apply list_elem_of_In, List.filter_In. split; [by apply list_elem_of_In|]. by apply Nat.eqb_eq. }
  destruct (guard_slot ucmp guards u) as [|i] eqn:Eu; [by rewrite H1|].
  pose proof (guard_slot_le (ucmp := ucmp) guards u).
  destruct (lookup_lt_is_Some_2 (fst r) i) as [g Hg]; [lia|].
  destruct (H3 i g Hg) as (g0 & _ & _ & Efiles & [Hc _] & Em). exists g. split; [done|]. rewrite Efiles. split; [done|].
  unfold guard_covers_files. by rewrite <- Em.
Qed.

(** ** Versions that can arise

    From the empty version, by applying edits through a builder and by the
    writers' AddToCompleteGuards, which appends guards as keys arrive. *)
Definition apply_edits (ucmp : Comparator) (cp : list bytes) (v : Version) (edits : list VersionEdit)
    (edit : option VersionEdit) : Version :=
  fst (SaveTo ucmp (fold_left (fun b e => Apply ucmp e b) edits (new_Builder cp v)) edit).

Inductive reachable (ucmp : Comparator) : Version -> Prop :=
| reach_new : reachable ucmp new_Version
| reach_edits v cp edits edit : reachable ucmp v -> reachable ucmp (apply_edits ucmp cp v edits edit)
| reach_guard v g level : reachable ucmp v -> reachable ucmp (AddToCompleteGuards v g level).

Lemma new_Version_ok ucmp `{!ComparatorOk ucmp all_keys} : version_ok (ucmp := ucmp) new_Version.
Proof.
  intros level. assert (forall A, level_of (@no_levels A) level = []) as E.
  { intros A. unfold level_of, no_levels. destruct (_ !! level) eqn:H; [|done].
    by apply lookup_replicate in H as [-> _]. }
  assert (default 0 (v_num_complete_guards new_Version !! level) = 0) as En.
  { unfold new_Version, v_num_complete_guards. destruct (_ !! level) eqn:H; [|done].
    by apply lookup_replicate in H as [-> _]. }
  split; rewrite ?En; simpl; rewrite ?E; [constructor|by intros ? ? ? ? _ ?|]. split; [done|constructor].
Qed.

Lemma AddToCompleteGuards_ok ucmp `{!ComparatorOk ucmp all_keys} v g level :
  version_ok (ucmp := ucmp) v -> version_ok (ucmp := ucmp) (AddToCompleteGuards v g level).
Proof.
  intros Hv k. destruct (Hv k) as [H1 H2 [H3 H4]]. split; [done|done|]. simpl.
  assert (exists tl, level_of (push_level level g (v_complete_guards v)) k = level_of (v_complete_guards v) k ++ tl)
    as [tl ->].
  { unfold level_of, push_level. generalize (v_complete_guards v). unfold levels. intros cg.
    destruct (decide (k = Z.to_nat level)) as [->|Hne].
    - rewrite list_lookup_alter_eq. destruct (cg !! Z.to_nat level) as [x|]; simpl; [by exists [g]|by exists []].
    - rewrite list_lookup_alter_ne by done. exists []. by rewrite app_nil_r. }
  split; [len_solve|]. rewrite take_app_le; [done|]. unfold len in H3. lia.
Qed.

(** ** Properties *)

(** C32. Every version that arises from the empty one by builders and by the
    writers' guards is in order: in each level the files ascend by smallest
    key, the guards ascend strictly by user key, and the counted complete
    guards ascend. *)
Theorem reachable_version_ok (ucmp : Comparator) (v : Version)
    (Hucmp : ComparatorOk ucmp all_keys) (Hv : reachable ucmp v) : version_ok (ucmp := ucmp) v.
Proof.
  induction Hv as [|v cp edits edit _ IH|v g level _ IH].
  - by apply new_Version_ok.
  - apply SaveTo_ok, fold_left_ok; [intros b e; apply Apply_ok|by apply new_Builder_ok].
  - by apply AddToCompleteGuards_ok.
Qed.

Definition example_files_edit : VersionEdit :=
  AddGuard (AddFile (AddFile new_VersionEdit 1 7 100 (InternalKey [Byte.x66] 3 1) (InternalKey [Byte.x67] 4 1))
    1 5 100 (InternalKey [Byte.x61] 1 1) (InternalKey [Byte.x62] 2 1)) 1 (InternalKey [Byte.x64] 9 kTypeGuard).

Lemma reachable_version_ok_witness :
  version_ok (ucmp := BytewiseComparator) (apply_edits BytewiseComparator [] new_Version [example_files_edit] None).
Proof.
  apply (reachable_version_ok BytewiseComparator (apply_edits BytewiseComparator [] new_Version [example_files_edit] None)).
  - apply BytewiseComparator_ok.
  - apply reach_edits. apply reach_new.
Defined.

(** The files of a level after an edit: a file number is in the level
    exactly when the edit adds it there, or the base has it and the edit does
    not delete it there. *)
Theorem edit_files_applied (ucmp : Comparator) (cp : list bytes) (base : Version) (edit : VersionEdit) (level : nat) (n : Z)
    (Hucmp : ComparatorOk ucmp all_keys) (Hlevel : Z.of_nat level < kNumLevels) :
  n ∈ map fm_number (level_of (v_files (apply_edits ucmp cp base [edit] None)) level) <->
  n ∈ new_numbers level (ve_new_files edit) \/
  (n ∈ map fm_number (level_of (v_files base) level) /\ n ∉ deleted_numbers level (ve_deleted_files edit)).
Proof.
  unfold apply_edits. cbn [fold_left]. set (b := new_Builder cp base).
  assert (length (b_levels b) = 7%nat) as Hlen by done. unfold kNumLevels in Hlevel.
  destruct (Apply_files (ucmp := ucmp) edit b level) as [Hd Ha]; [lia|].
  assert (b_base (Apply ucmp edit b) = base /\ length (b_levels (Apply ucmp edit b)) = 7%nat) as [Hb Hl].
  { unfold Apply. apply fold_left_ok; [|repeat (apply fold_left_ok; [intros ? ? [? ?]; split; [done|simpl; rewrite ?length_alter; done]|]); done].
    intros b' j Hb'. repeat (apply fold_left_ok; [intros ? ? [? ?]; split; [done|simpl; rewrite ?length_alter; done]|]). done. }
  rewrite saved_numbers by lia. rewrite Hb, Hd, Ha.
  assert (state_at b level = new_LevelState) as ->.
  { unfold state_at, b. simpl. by do 7 (destruct level as [|level]; [done|]). }
  simpl. rewrite !elem_of_nil. destruct (decide (n ∈ new_numbers level (ve_new_files edit))); naive_solver.
Qed.

Lemma edit_files_applied_witness :
  7 ∈ map fm_number (level_of (v_files (apply_edits BytewiseComparator [] new_Version [example_files_edit] None)) 1).
Proof.
  apply (edit_files_applied BytewiseComparator [] new_Version example_files_edit 1 7).
  - apply BytewiseComparator_ok.
  - vm_compute. reflexivity.
  - left. vm_compute. apply list_elem_of_here.
Defined.

Definition example_level_files : list FileMetaData :=
  [file_meta 5 100 (InternalKey [Byte.x61] 1 1) (InternalKey [Byte.x62] 2 1);
   file_meta 7 100 (InternalKey [Byte.x66] 3 1) (InternalKey [Byte.x67] 4 1)].

(** No file is lost or duplicated: for files with distinct numbers and
    fresh guards, the sentinel files followed by the files of the guards in
    order are exactly the files of the level, wherever the keys lie. *)
Theorem populate_keeps_every_file (ucmp : Comparator) (guards : list GuardMetaData) (files : list FileMetaData)
    (Hucmp : ComparatorOk ucmp all_keys) (Hfresh : Forall fresh guards) (Hnd : NoDup (map fm_number files)) :
  let r := PopulateFilesToGuardsAndSentinels ucmp guards files [] in
  snd r ++ concat (map gm_file_metas (fst r)) = files.
Proof. by apply populate_all_files. Qed.

Lemma populate_keeps_every_file_witness :
  let r := PopulateFilesToGuardsAndSentinels BytewiseComparator example_guards example_level_files [] in
  snd r ++ concat (map gm_file_metas (fst r)) = example_level_files.
Proof.
  apply (populate_keeps_every_file BytewiseComparator example_guards example_level_files).
  - apply BytewiseComparator_ok.
  - repeat constructor.
  - repeat constructor; vm_compute; intros H; repeat (apply elem_of_cons in H as [H|H]; [discriminate H|]);
      by apply elem_of_nil in H.
Defined.
