(* ===== verification/VersionHistory.v ===== *)
(** * Histories of version edits (db/version_set.cc: VersionSet::Builder)

    While the database runs, every edit goes through a Builder of its own over
    the current version.  When it is opened again, one Builder over the empty
    version gets all edits of the MANIFEST, the first of which is a snapshot of
    the version at the time the MANIFEST was begun.  The files, guards and
    sentinel files of each level come out the same. *)

From Stdlib Require Import ZArith Lia Bool Sorting.Sorted.
From stdpp Require Import base list sorting.
From S2P Require Import Prelude Coding Comparator DbFormat Status VersionEdit Guards VersionBuilder VersionBuilderSpec.

Set Default Goal Selector "!".
Local Open Scope Z_scope.

Section History.
Context (ucmp : Comparator) `{Hc : !ComparatorOk ucmp all_keys}.
Notation icmp := (InternalKeyComparator ucmp).
Notation file_le := (ordered (BySmallestKey ucmp)).
Notation guard_lt := (strictly (BySmallestGuard ucmp)).
Notation guard_le := (ordered (BySmallestGuard ucmp)).

(** ** What an edit does to one level *)

(** The file the builder makes of a file of an edit. *)
Definition installed (f : FileMetaData) : FileMetaData :=
  {| fm_refs := 1; fm_allowed_seeks := file_allowed_seeks (fm_file_size f); fm_number := fm_number f;
     fm_file_size := fm_file_size f; fm_smallest := fm_smallest f; fm_largest := fm_largest f |}.

Definition level_adds (k : nat) (e : VersionEdit) : list FileMetaData :=
  map (fun p => installed (snd p)) (List.filter (fun p => Z.to_nat (fst p) =? k)%nat (ve_new_files e)).
Definition level_deletes (k : nat) (e : VersionEdit) : list Z := deleted_numbers k (ve_deleted_files e).
Definition edit_guards (k : nat) (e : VersionEdit) : list GuardMetaData := map (new_guard k) (level_of (ve_new_guards e) k).

Definition guard_set (gs s : list GuardMetaData) : list GuardMetaData := fold_left (fun s g => set_insert (BySmallestGuard ucmp) g s) gs s.
Definition file_set (fs s : list FileMetaData) : list FileMetaData := fold_left (fun s f => set_insert (BySmallestKey ucmp) f s) fs s.

Lemma new_numbers_adds k e : new_numbers k (ve_new_files e) = map fm_number (level_adds k e).
Proof. unfold new_numbers, level_adds. by rewrite map_map. Qed.

Lemma fold_new_files_set k nf : forall b, (k < length (b_levels b))%nat ->
  added_files (state_at (fold_left (apply_new_file ucmp) nf b) k) =
    file_set (map (fun p => installed (snd p)) (List.filter (fun p => Z.to_nat (fst p) =? k)%nat nf)) (added_files (state_at b k)).
Proof.
  induction nf as [|p nf IH]; intros b Hk; cbn [fold_left]; [done|]. rewrite IH by (simpl; by rewrite length_alter).
  unfold apply_new_file. rewrite state_at_at_level by done. simpl. destruct (decide (Z.to_nat (fst p) = k)) as [E|E].
  - rewrite (proj2 (Nat.eqb_eq _ _) E). done.
  - by rewrite (proj2 (Nat.eqb_neq _ _) E).
Qed.

(** Steps that leave the files, or the guards, of a level alone. *)
Definition same_guards (b b' : Builder) (k : nat) : Prop :=
  length (b_levels b') = length (b_levels b) /\ added_guards (state_at b' k) = added_guards (state_at b k) /\
  deleted_guards (state_at b' k) = deleted_guards (state_at b k).

Lemma same_guards_at_level level f b k :
  (forall l, added_guards (f l) = added_guards l /\ deleted_guards (f l) = deleted_guards l) ->
  (k < length (b_levels b))%nat -> same_guards b (at_level level f b) k.
Proof.
  intros Hf Hk. split; [by simpl; rewrite length_alter|]. rewrite state_at_at_level by done.
  destruct (decide _); [apply Hf|done].
Qed.

Lemma same_guards_trans b1 b2 b3 k : same_guards b1 b2 k -> same_guards b2 b3 k -> same_guards b1 b3 k.
Proof. intros (H1 & H2 & H3) (H4 & H5 & H6). split; [lia|]. split; congruence. Qed.

Lemma same_guards_fold {B} (f : Builder -> B -> Builder) xs b k :
  (forall b x, (k < length (b_levels b))%nat -> same_guards b (f b x) k) ->
  (k < length (b_levels b))%nat -> same_guards b (fold_left f xs b) k.
Proof.
  intros Hf. revert b. induction xs as [|x xs IH]; intros b Hk; simpl; [done|].
  pose proof (Hf b x Hk) as H. eapply same_guards_trans; [exact H|]. apply IH. destruct H as [-> _]. done.
Qed.

Lemma fold_new_guards k gs : forall b, (k < length (b_levels b))%nat ->
  let b' := fold_left (apply_new_guard ucmp k) gs b in
  length (b_levels b') = length (b_levels b) /\
  added_guards (state_at b' k) = guard_set (map (new_guard k) gs) (added_guards (state_at b k)) /\
  deleted_guards (state_at b' k) = deleted_guards (state_at b k).
Proof.
  induction gs as [|g gs IH]; intros b Hk; cbn [fold_left]; [done|].
  destruct (IH (apply_new_guard ucmp k b g)) as (H1 & H2 & H3); [simpl; by rewrite length_alter|].
  split; [rewrite H1; simpl; by rewrite length_alter|]. rewrite H2, H3. unfold apply_new_guard.
  rewrite state_at_at_level, decide_True by (done || lia). done.
Qed.

Lemma fold_guards_levels k (ng nc : nat -> list GuardMetaData) js : forall b, (k < length (b_levels b))%nat ->
  let step := fun b j => fold_left (apply_new_complete_guard ucmp j) (nc j) (fold_left (apply_new_guard ucmp j) (ng j) b) in
  NoDup js ->
  let b' := fold_left step js b in
  length (b_levels b') = length (b_levels b) /\
  added_guards (state_at b' k) = guard_set (if decide (k ∈ js) then map (new_guard k) (ng k) else []) (added_guards (state_at b k)) /\
  deleted_guards (state_at b' k) = deleted_guards (state_at b k).
Proof.
  induction js as [|j js IH]; intros b Hk step Hnd; cbn [fold_left]; [done|]. apply NoDup_cons in Hnd as [Hj Hnd].
  set (b1 := fold_left (apply_new_guard ucmp j) (ng j) b). set (b2 := step b j).
  assert (same_guards b1 b2 k /\ (j <> k -> same_guards b b1 k) /\ length (b_levels b1) = length (b_levels b)) as ((E1 & E2 & E3) & Hne & El).
  { assert (length (b_levels b1) = length (b_levels b)) as El by (apply fold_levels_length; intros; simpl; apply length_alter).
    split; [|split; [|done]].
    - apply same_guards_fold; [|fold b1; lia]. intros b' g Hb'. by apply same_guards_at_level.
    - intros Hne. apply same_guards_fold; [|done]. intros b' g Hb'. split; [simpl; apply length_alter|].
      unfold apply_new_guard. rewrite state_at_at_level by done. rewrite Nat2Z.id. by destruct (decide (j = k)). }
  destruct (IH b2) as (F1 & F2 & F3); [lia|done|]. fold step in F1, F2, F3. rewrite F1, F2, F3, E1, E2, E3, El. split; [done|].
  destruct (decide (j = k)) as [->|Hjk].
  - rewrite (decide_False (P := k ∈ js)), (decide_True (P := k ∈ k :: js)) by (done || left).
    destruct (fold_new_guards k (ng k) b Hk) as (_ & G2 & G3). fold b1 in G2, G3. by rewrite G2, G3.
  - destruct (Hne Hjk) as (_ & -> & ->). split; [|done]. f_equal.
    destruct (decide (k ∈ js)) as [H|H]; [rewrite decide_True by (by right)|rewrite decide_False by (intros [->|?]%elem_of_cons; done)]; done.
Qed.

Record applied (k : nat) (e : VersionEdit) (l l' : LevelState) : Prop := {
  ap_deleted n : n ∈ deleted_files l' <-> (n ∈ deleted_files l \/ n ∈ level_deletes k e) /\ n ∉ map fm_number (level_adds k e);
  ap_files : added_files l' = file_set (level_adds k e) (added_files l);
  ap_guards : added_guards l' = guard_set (edit_guards k e) (added_guards l);
  ap_deleted_guards : ve_deleted_guards e = [] -> deleted_guards l' = deleted_guards l;
}.

Lemma files_keep_guards cp df nf b k : (k < length (b_levels b))%nat ->
  same_guards b (fold_left (apply_new_file ucmp) nf (fold_left apply_deleted_file df (fold_left apply_compact_pointer cp b))) k.
Proof.
  intros Hk. set (b1 := fold_left apply_compact_pointer cp b). set (b2 := fold_left apply_deleted_file df b1).
  assert (length (b_levels b1) = length (b_levels b)) as L1 by (by apply fold_levels_length).
  assert (length (b_levels b2) = length (b_levels b1)) as L2 by (apply fold_levels_length; intros; simpl; apply length_alter).
  apply (same_guards_trans _ b1); [by apply same_guards_fold|].
  apply (same_guards_trans _ b2); apply same_guards_fold; first [intros; by apply same_guards_at_level|by rewrite ?L2, L1].
Qed.

Lemma Apply_applied e b k : (k < length (b_levels b))%nat -> (k < Z.to_nat kNumLevels)%nat -> applied k e (state_at b k) (state_at (Apply ucmp e b) k).
Proof.
  intros Hk Hk7. destruct (Apply_files (ucmp := ucmp) e b k Hk) as [Hd _]. rewrite new_numbers_adds in Hd.
  split; [exact Hd|..]; clear Hd; unfold Apply;
    set (b1 := fold_left apply_compact_pointer _ b); set (b2 := fold_left apply_deleted_file _ b1);
    set (b3 := fold_left (apply_new_file ucmp) _ b2); set (b4 := fold_left (apply_deleted_guard ucmp) _ b3).
  - assert (same_files b b1 k) as (E1 & _ & E3) by (by apply same_files_fold).
    destruct (fold_deleted_files k (ve_deleted_files e) b1) as (F1 & F2 & _); [lia|]. fold b2 in F1, F2.
    assert (length (b_levels b3) = length (b_levels b2)) as G1 by (apply fold_levels_length; intros; simpl; apply length_alter).
    pose proof (fold_new_files_set k (ve_new_files e) b2 ltac:(lia)) as G3. fold b3 in G3.
    assert (same_files b3 b4 k) as (H1 & _ & H3).
    { apply same_files_fold; [|lia]. intros b' p Hb'. by apply same_files_at_level. }
    match goal with |- added_files (state_at ?b5 k) = _ => assert (same_files b4 b5 k) as (_ & _ & ->) end.
    2:{ rewrite H3, G3, F2, E3. done. }
    apply same_files_fold; [|lia]. intros b' j Hb'.
    assert (same_files b' (fold_left (apply_new_guard ucmp j) (level_of (ve_new_guards e) j) b') k) as (L1 & L2 & L3).
    { apply same_files_fold; [|lia]. intros b'' g Hb''. by apply same_files_at_level. }
    assert (same_files (fold_left (apply_new_guard ucmp j) (level_of (ve_new_guards e) j) b')
      (fold_left (apply_new_complete_guard ucmp j) (level_of (ve_new_complete_guards e) j)
        (fold_left (apply_new_guard ucmp j) (level_of (ve_new_guards e) j) b')) k) as (M1 & M2 & M3).
    { apply same_files_fold; [|lia]. intros b'' g Hb''. by apply same_files_at_level. }
    split; [lia|]. split; congruence.
  - assert (same_guards b b3 k) as (E1 & E2 & _) by (by apply files_keep_guards).
    assert (length (b_levels b4) = length (b_levels b3) /\ added_guards (state_at b4 k) = added_guards (state_at b3 k)) as [E4 E5].
    { unfold b4. assert (k < length (b_levels b3))%nat as Hb3 by lia. clearbody b3. clear -Hb3. revert b3 Hb3.
      induction (ve_deleted_guards e) as [|p dg IH]; intros b3 Hb3; cbn [fold_left]; [done|].
      destruct (IH (apply_deleted_guard ucmp b3 p)) as [-> ->]; [simpl; by rewrite length_alter|]. split; [simpl; apply length_alter|].
      unfold apply_deleted_guard. rewrite state_at_at_level by done. by destruct (decide _). }
    destruct (fold_guards_levels k (level_of (ve_new_guards e)) (level_of (ve_new_complete_guards e)) (seq 0 (Z.to_nat kNumLevels)) b4
      ltac:(lia) (NoDup_seq _ _)) as (_ & -> & _). rewrite decide_True by (apply elem_of_seq; lia). by rewrite E5, E2.
  - intros Hdg. unfold b4. rewrite Hdg. cbn [fold_left]. assert (same_guards b b3 k) as (E1 & _ & E2) by (by apply files_keep_guards).
    destruct (fold_guards_levels k (level_of (ve_new_guards e)) (level_of (ve_new_complete_guards e)) (seq 0 (Z.to_nat kNumLevels)) b3
      ltac:(lia) (NoDup_seq _ _)) as (_ & _ & ->). done.
Qed.

(** ** Guards of a level, by user key *)
Definition look (u : bytes) (gs : list GuardMetaData) : option GuardMetaData :=
  head (List.filter (fun g => bool_decide (guard_ukey g = u)) gs).

Lemma guard_less_trich g h : (BySmallestGuard ucmp g h = false /\ BySmallestGuard ucmp h g = false) <-> guard_ukey g = guard_ukey h.
Proof.
  unfold BySmallestGuard. change (ExtractUserKey (gm_guard_key g)) with (guard_ukey g). change (ExtractUserKey (gm_guard_key h)) with (guard_ukey h).
  rewrite !Z.ltb_ge. split.
  - intros [H1 H2]. apply (cmp_eq (c := ucmp) (dom := all_keys)); [done..|]. apply (cmp_ge_le (dom := all_keys)) in H2; [lia|done..].
  - intros ->. rewrite (cmp_refl (dom := all_keys)) by done. lia.
Qed.

Lemma look_app u a b : look u (a ++ b) = match look u a with Some g => Some g | None => look u b end.
Proof. unfold look. rewrite List.filter_app. by destruct (List.filter _ a). Qed.

Lemma look_cons u g gs : look u (g :: gs) = if bool_decide (guard_ukey g = u) then Some g else look u gs.
Proof. unfold look. simpl. by destruct (bool_decide _). Qed.

Lemma look_elem u gs g : look u gs = Some g -> g ∈ gs /\ guard_ukey g = u.
Proof.
  intros H. assert (In g (List.filter (fun g => bool_decide (guard_ukey g = u)) gs)) as Hin.
  { unfold look in H. destruct (List.filter _ gs); [done|]. injection H as ->. by left. }
  apply List.filter_In in Hin as [Hin Hu%bool_decide_eq_true]. split; [by apply list_elem_of_In|done].
Qed.

Lemma look_map (mk : GuardMetaData -> GuardMetaData) u gs : (forall g, gm_guard_key (mk g) = gm_guard_key g) -> look u (map mk gs) = mk <$> look u gs.
Proof.
  intros Hmk. induction gs as [|g gs IH]; [done|]. cbn [map]. rewrite !look_cons.
  replace (guard_ukey (mk g)) with (guard_ukey g) by (unfold guard_ukey; by rewrite Hmk). by destruct (bool_decide _).
Qed.

(** Keys below the first guard of a sorted list are not in it. *)
Lemma look_above g gs : Forall (guard_lt g) gs -> look (guard_ukey g) gs = None.
Proof.
  intros H. destruct (look (guard_ukey g) gs) as [h|] eqn:E; [|done]. apply look_elem in E as [Hin Hu]. rewrite Forall_forall in H.
  specialize (H h Hin). pose proof (proj2 (guard_less_trich g h) ltac:(done)) as [H1 _]. unfold strictly in H. congruence.
Qed.

(** Sorted lists with the same guard for each user key are the same. *)
Lemma look_ext gs : forall hs, StronglySorted guard_lt gs -> StronglySorted guard_lt hs -> (forall u, look u gs = look u hs) -> gs = hs.
Proof.
  intros hs Hg Hh E. assert (forall gs g, StronglySorted guard_lt gs -> g ∈ gs <-> look (guard_ukey g) gs = Some g) as Hel.
  { clear -Hc. intros gs g. induction 1 as [|h gs Hs IH Hall]; [rewrite elem_of_nil; done|]. rewrite elem_of_cons, look_cons.
    case_bool_decide as Eq.
    - split; [|intros [= ->]; by left]. intros [->|Hin]; [done|]. apply look_above in Hall. rewrite Eq in Hall.
      apply IH in Hin. congruence.
    - rewrite <- IH. split; [intros [->|?]; done|by right]. }
  apply (StronglySorted_unique_strong guard_lt); [|done|done|].
  - intros x1 x2 _ _ H1 H2. apply (strictly_ordered (BySmallestGuard ucmp)) in H1. unfold ordered, strictly in *. congruence.
  - assert (forall l, StronglySorted guard_lt l -> NoDup l) as Hnd.
    { clear -Hc. induction 1 as [|x l Hs IH Hall]; constructor; [|done]. intros Hin. rewrite Forall_forall in Hall.
      specialize (Hall x Hin). pose proof (proj2 (guard_less_trich x x) eq_refl) as [H1 _]. unfold strictly in Hall. congruence. }
    apply NoDup_Permutation; [by apply Hnd..|]. intros x. by rewrite (Hel gs), (Hel hs), E.
Qed.

(** A set keeps the first guard of a key. *)
Lemma look_insert u g s : StronglySorted guard_lt s -> look u (set_insert (BySmallestGuard ucmp) g s) = look u (s ++ [g]).
Proof.
  induction 1 as [|h s Hs IH Hall]; [done|]. cbn [set_insert]. destruct (BySmallestGuard ucmp g h) eqn:E1; [|destruct (BySmallestGuard ucmp h g) eqn:E2].
  - assert (look (guard_ukey g) (h :: s) = None) as Hno.
    { apply look_above. constructor; [done|]. eapply Forall_impl; [exact Hall|]. intros x Hx.
      eapply (strictly_ordered_trans (BySmallestGuard ucmp)); [exact E1|]. by apply strictly_ordered, Hx; apply _. }
    rewrite look_app, (look_cons u g), (look_cons u g). case_bool_decide as Eq; [by rewrite <- Eq, Hno|]. by destruct (look u (h :: s)).
  - cbn [app]. by rewrite !look_cons, IH.
  - cbn [app]. rewrite !look_cons. case_bool_decide as Eq; [done|]. rewrite look_app. destruct (look u s); [done|].
    rewrite look_cons. destruct (proj1 (guard_less_trich g h) ltac:(done)). by rewrite bool_decide_false.
Qed.

Lemma guard_set_sorted gs : forall s, StronglySorted guard_lt s -> StronglySorted guard_lt (guard_set gs s).
Proof. induction gs as [|g gs IH]; intros s Hs; [done|]. apply IH. by apply set_insert_sorted; [apply _|]. Qed.

Lemma look_set u gs : forall s, StronglySorted guard_lt s -> look u (guard_set gs s) = look u (s ++ gs).
Proof.
  induction gs as [|g gs IH]; intros s Hs; [by rewrite app_nil_r|]. unfold guard_set. cbn [fold_left].
  change (look u (guard_set gs (set_insert (BySmallestGuard ucmp) g s)) = look u (s ++ g :: gs)).
  rewrite IH by (by apply set_insert_sorted; [apply _|]). rewrite look_app, look_insert by done.
  rewrite (app_assoc s [g] gs : s ++ g :: gs = _), (look_app u (s ++ [g])). done.
Qed.

(** The merge is stable. *)
Lemma look_merge u added : forall base, StronglySorted guard_le base -> look u (merge_sets (BySmallestGuard ucmp) base added) = look u (base ++ added).
Proof.
  induction added as [|a added IH]; intros base Hb; [by rewrite app_nil_r|]. cbn [merge_sets].
  pose proof (drop_prefix_above (BySmallestGuard ucmp) a base Hb) as Hd. set (n := prefix_len _ base) in *.
  replace (base ++ a :: added) with (take n base ++ drop n base ++ a :: added) by (by rewrite app_assoc, take_drop).
  rewrite look_app, look_cons, IH.
  - rewrite !look_app. destruct (look u (take n base)); [done|]. rewrite look_cons.
    case_bool_decide as Eq; [|done]. apply look_above in Hd. rewrite Eq in Hd. by rewrite Hd.
  - rewrite <- (take_drop n base) in Hb. by apply StronglySorted_app_1_r in Hb.
Qed.

(** MaybeAddGuard stores the first guard of each key. *)
Lemma look_fold_guards u l gs : deleted_guards l = [] -> StronglySorted guard_le gs ->
  look u (fst (fold_left (add_guard (ucmp := ucmp) fresh_guard l) gs ([], None))) = fresh_guard <$> look u gs.
Proof.
  intros Hd Hs. revert u.
  assert ((forall u, look u (fst (fold_left (add_guard (ucmp := ucmp) fresh_guard l) gs ([], None))) = fresh_guard <$> look u gs) /\ snd (fold_left (add_guard (ucmp := ucmp) fresh_guard l) gs ([], None)) = (g ← last gs; look (guard_ukey g) gs)) as [H _]; [|exact H].
  induction gs as [|g gs IH] using rev_ind; [done|]. apply StronglySorted_app in Hs as (Hcross & Hs & _). destruct (IH Hs) as [IH1 IH2]. clear IH.
  rewrite fold_left_app. cbn [fold_left]. destruct (fold_left _ gs _) as [acc lst]. cbn [fst snd] in IH1, IH2. unfold add_guard.
  assert (guard_deleted ucmp l (gm_guard_key g) = false) as -> by (unfold guard_deleted; by rewrite Hd). rewrite last_snoc. cbn [mbind option_bind].
  assert (if same_guard_key ucmp g lst then lst = look (guard_ukey g) gs /\ is_Some lst else look (guard_ukey g) gs = None) as Hsame.
  { destruct (last gs) as [h|] eqn:El; cbn [mbind option_bind] in IH2; [|apply last_None in El; by subst].
    apply last_Some in El as [gs' ->]. assert (exists f, look (guard_ukey h) (gs' ++ [h]) = Some f) as [f Ef].
    { rewrite look_app, look_cons, bool_decide_true by done. destruct (look _ gs'); by eexists. }
    rewrite Ef in IH2. subst lst. pose proof (look_elem _ _ _ Ef) as [_ Eu]. unfold same_guard_key.
    change (ExtractUserKey (gm_guard_key g)) with (guard_ukey g). change (ExtractUserKey (gm_guard_key f)) with (guard_ukey f). rewrite Eu.
    destruct (Z.eqb_spec (Compare ucmp (guard_ukey g) (guard_ukey h)) 0) as [E0|E0].
    - apply (cmp_eq (dom := all_keys)) in E0; [|done..]. rewrite E0, Ef. split; [done|by eexists].
    - destruct (look (guard_ukey g) (gs' ++ [h])) as [x|] eqn:Ex; [|done]. apply look_elem in Ex as [Hx Eux]. destruct E0.
      assert (guard_ukey g = guard_ukey h) as ->; [|by apply (cmp_refl (dom := all_keys))]. rewrite <- Eux. symmetry.
      apply guard_less_trich. assert (guard_le h g) as H1 by (apply Hcross; [apply elem_of_app; right; left|left]).
      unfold ordered in H1. unfold BySmallestGuard in H1 |- *. unfold guard_ukey in Eux. rewrite Eux. split; [|exact H1].
      apply StronglySorted_app in Hs as (Hc2 & _ & _). apply elem_of_app in Hx as [Hx|Hx]; [|].
      + specialize (Hc2 x h Hx ltac:(left)). unfold ordered, BySmallestGuard in Hc2. by rewrite Eux in Hc2.
      + apply list_elem_of_singleton in Hx as ->. rewrite Eux in H1 |- *. done. }
  destruct (same_guard_key ucmp g lst); cbn [fst snd].
  - destruct Hsame as [-> [h Eh]]. split.
    + intros u. rewrite look_app, IH1. destruct (look u gs) eqn:E; [done|]. rewrite look_cons. case_bool_decide as Eq; [|done]. subst u. congruence.
    + by rewrite look_app, Eh.
  - split.
    + intros u. rewrite !look_app, IH1. destruct (look u gs); [done|]. rewrite !look_cons. cbn. by destruct (bool_decide _).
    + rewrite look_app, Hsame, look_cons, bool_decide_true by done. done.
Qed.

(** ** Files of a level *)
Lemma file_insert_elem x y s : fm_number x ∉ map fm_number s -> y ∈ set_insert (BySmallestKey ucmp) x s <-> y = x \/ y ∈ s.
Proof.
  intros Hx. split; [apply (set_insert_elem (BySmallestKey ucmp))|]. intros [->|H]; [|by apply (set_insert_old (BySmallestKey ucmp))].
  destruct (set_insert_new (BySmallestKey ucmp) x s) as (y & Hy & H1 & H2 & [->|Hin]); [done|]. destruct Hx.
  replace (fm_number x) with (fm_number y); [by apply (list_elem_of_fmap_2 fm_number)|].
  apply not_true_iff_false in H1, H2. rewrite BySmallestKey_spec in H1, H2.
  pose proof (ikc_anti (ucmp := ucmp) (fm_smallest x) (fm_smallest y)). pose proof (ikc_anti (ucmp := ucmp) (fm_smallest y) (fm_smallest x)). lia.
Qed.

Lemma insert_numbers f s : fm_number f ∉ map fm_number s -> NoDup (map fm_number s) ->
  NoDup (map fm_number (set_insert (BySmallestKey ucmp) f s)).
Proof.
  induction s as [|x s IH]; cbn [set_insert map]; [repeat constructor; apply not_elem_of_nil|].
  intros [Hne Hfn]%not_elem_of_cons [Hx Hs]%NoDup_cons.
  destruct (BySmallestKey ucmp f x); [|destruct (BySmallestKey ucmp x f)]; cbn [map]; apply NoDup_cons.
  - split; [by apply not_elem_of_cons|]. by apply NoDup_cons.
  - split; [|by apply IH]. rewrite list_elem_of_In, in_map_iff. setoid_rewrite <- list_elem_of_In.
    intros (z & Ez & [->|Hz]%(set_insert_elem (BySmallestKey ucmp))); [done|]. apply Hx. rewrite <- Ez. by apply (list_elem_of_fmap_2 fm_number).
  - done.
Qed.

Lemma file_set_elem y fs : forall s, NoDup (map fm_number (s ++ fs)) -> y ∈ file_set fs s <-> y ∈ s \/ y ∈ fs.
Proof.
  induction fs as [|f fs IH]; intros s Hnd; [unfold file_set; simpl; rewrite elem_of_nil; tauto|].
  unfold file_set. cbn [fold_left]. change (y ∈ file_set fs (set_insert (BySmallestKey ucmp) f s) <-> y ∈ s \/ y ∈ f :: fs).
  rewrite map_app in Hnd. cbn [map] in Hnd. pose proof Hnd as (Hs & Hcr & [Hf Hfs]%NoDup_cons)%NoDup_app.
  assert (fm_number f ∉ map fm_number s) as Hfn by (intros H; apply (Hcr _ H); left).
  rewrite IH.
  - rewrite file_insert_elem, elem_of_cons by done. tauto.
  - rewrite map_app. apply NoDup_app. split; [|split; [|done]].
    + by apply insert_numbers.
    + intros n Hn Hin. rewrite list_elem_of_In, in_map_iff in Hn. setoid_rewrite <- list_elem_of_In in Hn.
      destruct Hn as (z & <- & [->|Hz]%(set_insert_elem (BySmallestKey ucmp))); [done|].
      apply (Hcr (fm_number z)); [by apply (list_elem_of_fmap_2 fm_number)|by right].
Qed.

(** Sorted lists of files with distinct numbers and the same files are the same. *)
Lemma files_ext fs gs : StronglySorted file_le fs -> StronglySorted file_le gs -> NoDup (map fm_number fs) -> NoDup (map fm_number gs) ->
  (forall f, f ∈ fs <-> f ∈ gs) -> fs = gs.
Proof.
  intros Hf Hg Hnf Hng E. apply (StronglySorted_unique_strong file_le); [|done|done|].
  - intros x y Hx Hy H1 H2. apply E in Hx. unfold ordered in H1, H2. apply not_true_iff_false in H1, H2. rewrite BySmallestKey_spec in H1, H2.
    assert (fm_number x = fm_number y) as En.
    { pose proof (ikc_anti (ucmp := ucmp) (fm_smallest x) (fm_smallest y)). pose proof (ikc_anti (ucmp := ucmp) (fm_smallest y) (fm_smallest x)). lia. }
    apply list_elem_of_lookup in Hx as [i Hi], Hy as [j Hj].
    assert (i = j) as ->; [|congruence]. eapply (NoDup_lookup (map fm_number gs)); [done|..].
    + by apply (list_lookup_fmap_Some_2 fm_number).
    + rewrite En. by apply (list_lookup_fmap_Some_2 fm_number).
  - apply NoDup_Permutation; [by eapply NoDup_fmap_1..|done].
Qed.

(** ** One builder over many edits *)
Definition history_builder (cp : list bytes) (base : Version) (es : list VersionEdit) : Builder :=
  fold_left (fun b e => Apply ucmp e b) es (new_Builder cp base).

Definition all_adds (k : nat) (es : list VersionEdit) : list FileMetaData := concat (map (level_adds k) es).

(** A level gets a file number at most once, and guards are not deleted. *)
Definition history_ok (es : list VersionEdit) : Prop :=
  (forall k, NoDup (map fm_number (all_adds k es))) /\ Forall (fun e => ve_deleted_guards e = []) es.

Lemma history_ok_snoc es e : history_ok (es ++ [e]) -> history_ok es.
Proof.
  intros [H1 H2]. split; [|by apply Forall_app in H2 as [? _]]. intros k. specialize (H1 k). unfold all_adds in H1.
  rewrite map_app, concat_app, map_app in H1. by apply NoDup_app in H1 as [? _].
Qed.

Lemma history_builder_snoc cp base es e : history_builder cp base (es ++ [e]) = Apply ucmp e (history_builder cp base es).
Proof. unfold history_builder. by rewrite fold_left_app. Qed.

Lemma Apply_shape e b : b_base (Apply ucmp e b) = b_base b /\ length (b_levels (Apply ucmp e b)) = length (b_levels b).
Proof.
  unfold Apply. apply fold_left_ok; [|repeat (apply fold_left_ok; [intros ? ? [? ?]; split; [done|simpl; rewrite ?length_alter; done]|]); done].
  intros b' j Hb'. repeat (apply fold_left_ok; [intros ? ? [? ?]; split; [done|simpl; rewrite ?length_alter; done]|]). done.
Qed.

Lemma history_shape cp base es : b_base (history_builder cp base es) = base /\ length (b_levels (history_builder cp base es)) = Z.to_nat kNumLevels.
Proof.
  induction es as [|e es IH] using rev_ind; [done|]. rewrite history_builder_snoc. destruct (Apply_shape e (history_builder cp base es)) as [-> ->]. done.
Qed.

Lemma history_state cp base es k : (k < Z.to_nat kNumLevels)%nat -> Forall (fun e => ve_deleted_guards e = []) es ->
  let l := state_at (history_builder cp base es) k in
  added_files l = file_set (all_adds k es) [] /\ added_guards l = guard_set (concat (map (edit_guards k) es)) [] /\ deleted_guards l = [].
Proof.
  intros Hk. induction es as [|e es IH] using rev_ind; intros Hd.
  { cbn. unfold state_at. simpl. unfold kNumLevels in *. by do 7 (destruct k as [|k]; [done|]). }
  apply Forall_app in Hd as [Hd [He _]%Forall_cons]. destruct (IH Hd) as (H1 & H2 & H3). clear IH.
  rewrite history_builder_snoc. destruct (history_shape cp base es) as [_ Hlen].
  destruct (Apply_applied e (history_builder cp base es) k ltac:(lia) Hk) as [_ F G D]. cbv zeta. rewrite F, G, D by done.
  unfold all_adds, file_set, guard_set in *. rewrite !map_app, !concat_app, !fold_left_app, H1, H2. cbn [map concat]. by rewrite !app_nil_r.
Qed.

(** ** What SaveTo makes of a level *)
Definition saved_files (base : list FileMetaData) (l : LevelState) : list FileMetaData :=
  List.filter (file_kept l) (merge_sets (BySmallestKey ucmp) base (added_files l)).
Definition saved_guards (base : list GuardMetaData) (l : LevelState) : list GuardMetaData :=
  fst (fold_left (add_guard (ucmp := ucmp) fresh_guard l) (merge_sets (BySmallestGuard ucmp) base (added_guards l)) ([], None)).

Lemma SaveTo_parts b edit k : (k < length (b_levels b))%nat ->
  let v := fst (SaveTo ucmp b edit) in
  let l := state_at b k in
  let files := saved_files (level_of (v_files (b_base b)) k) l in
  let guards := saved_guards (level_of (v_guards (b_base b)) k) l in
  level_of (v_files v) k = files /\
  (level_of (v_guards v) k, level_of (v_sentinel_files v) k) = PopulateFilesToGuardsAndSentinels ucmp guards files [].
Proof.
  intros Hk v l files guards. destruct (SaveTo_at (ucmp := ucmp) b edit k) as (E1 & E2 & _ & E4 & _). fold v in E1, E2, E4. rewrite E1, E2, E4.
  unfold saved_at. destruct (lookup_lt_is_Some_2 _ _ Hk) as [l' El]. assert (l = l') as El' by (unfold l, state_at; by rewrite El). rewrite El. subst l'.
  simpl. unfold SaveTo_level. destruct (save_complete_guards _ _ _ _ _ _) as [c e].
  rewrite (save_files l), save_merge_fold, (fold_left_ext _ _ _ _ (MaybeAddGuard_add l)). unfold files, guards, saved_files, saved_guards.
  by destruct (PopulateFilesToGuardsAndSentinels ucmp _ _ []).
Qed.

Lemma file_kept_spec l f : file_kept l f = true <-> fm_number f ∉ deleted_files l.
Proof.
  unfold file_kept. rewrite negb_true_iff, <- not_true_iff_false, existsb_exists, list_elem_of_In. split.
  - intros H Hin. apply H. exists (fm_number f). by rewrite Z.eqb_refl.
  - intros H (x & Hx & E%Z.eqb_eq). by subst.
Qed.

Lemma saved_files_elem base l f : f ∈ saved_files base l <-> (f ∈ base \/ f ∈ added_files l) /\ fm_number f ∉ deleted_files l.
Proof.
  unfold saved_files. rewrite list_elem_of_In, List.filter_In, <- list_elem_of_In, file_kept_spec, (merge_sets_perm (BySmallestKey ucmp)), elem_of_app. done.
Qed.

Lemma saved_files_numbers base l : NoDup (map fm_number (base ++ added_files l)) -> NoDup (map fm_number (saved_files base l)).
Proof.
  intros H. unfold saved_files. apply NoDup_map_filter. by rewrite (Permutation_map fm_number (merge_sets_perm (BySmallestKey ucmp) (added_files l) base)).
Qed.

Lemma file_set_numbers fs : forall s, NoDup (map fm_number (s ++ fs)) -> NoDup (map fm_number (file_set fs s)).
Proof.
  induction fs as [|f fs IH]; intros s Hnd; [by rewrite app_nil_r in Hnd|]. unfold file_set. cbn [fold_left]. apply IH.
  rewrite map_app in Hnd |- *. cbn [map] in Hnd. apply NoDup_app in Hnd as (Hs & Hcr & [Hf Hfs]%NoDup_cons).
  assert (fm_number f ∉ map fm_number s) as Hfn by (intros H; apply (Hcr _ H); left).
  apply NoDup_app. split; [by apply insert_numbers|]. split; [|done]. intros n Hn Hin.
  rewrite list_elem_of_In, in_map_iff in Hn. setoid_rewrite <- list_elem_of_In in Hn.
  destruct Hn as (z & <- & [->|Hz]%(set_insert_elem (BySmallestKey ucmp))); [done|].
  apply (Hcr (fm_number z)); [by apply (list_elem_of_fmap_2 fm_number)|by right].
Qed.

Lemma file_set_sorted fs : forall s, StronglySorted (strictly (BySmallestKey ucmp)) s -> StronglySorted (strictly (BySmallestKey ucmp)) (file_set fs s).
Proof. induction fs as [|f fs IH]; intros s Hs; [done|]. apply IH. by apply set_insert_sorted; [apply _|]. Qed.

Lemma saved_files_sorted base l : StronglySorted file_le base -> StronglySorted (strictly (BySmallestKey ucmp)) (added_files l) ->
  StronglySorted file_le (saved_files base l).
Proof.
  intros Hb Ha. apply StronglySorted_filter, merge_sets_sorted; [apply _|done|]. by apply Sorted_strictly_ordered; [apply _|].
Qed.

(** *** An edit over the version, and after the history *)
Section Step.
Context (k : nat) (adds0 : list FileMetaData) (e e' : VersionEdit) (l l1 le : LevelState).
Context (Hl : added_files l = file_set adds0 []) (Hnd : NoDup (map fm_number (adds0 ++ level_adds k e))).
Context (H1 : applied k e' l l1) (He : applied k e new_LevelState le).
Context (Eadds : level_adds k e' = level_adds k e) (Edels : level_deletes k e' = level_deletes k e).

Lemma step_files : saved_files (saved_files [] l) le = saved_files [] l1.
Proof.
  pose proof Hnd as Hnd'. rewrite map_app in Hnd'. apply NoDup_app in Hnd' as (Hn0 & Hcr & Hne).
  pose proof (ap_files _ _ _ _ He) as Ae. pose proof (ap_files _ _ _ _ H1) as A1. rewrite Eadds, Hl in A1. simpl in Ae.
  assert (added_files l1 = file_set (adds0 ++ level_adds k e) []) as A1' by (rewrite A1; unfold file_set; by rewrite fold_left_app).
  assert (forall f, f ∈ added_files l <-> f ∈ adds0) as Ml.
  { intros f. rewrite Hl, file_set_elem by done. rewrite elem_of_nil. tauto. }
  assert (forall f, f ∈ added_files le <-> f ∈ level_adds k e) as Me.
  { intros f. rewrite Ae, file_set_elem by done. rewrite elem_of_nil. tauto. }
  assert (forall f, f ∈ added_files l1 <-> f ∈ adds0 \/ f ∈ level_adds k e) as M1.
  { intros f. rewrite A1', file_set_elem by done. rewrite elem_of_nil, elem_of_app. tauto. }
  assert (NoDup (map fm_number (saved_files [] l ++ added_files le))) as Hnl.
  { rewrite map_app. apply NoDup_app. split; [apply saved_files_numbers; rewrite Hl; by apply file_set_numbers|].
    split; [|rewrite Ae; by apply file_set_numbers]. intros n Hn Hin.
    rewrite list_elem_of_In, in_map_iff in Hn, Hin. setoid_rewrite <- list_elem_of_In in Hn. setoid_rewrite <- list_elem_of_In in Hin.
    destruct Hn as (f & <- & [[[]%elem_of_nil|Hf%Ml] _]%saved_files_elem). destruct Hin as (g & Eg & Hg%Me).
    apply (Hcr (fm_number f)); [by apply (list_elem_of_fmap_2 fm_number)|]. rewrite <- Eg. by apply (list_elem_of_fmap_2 fm_number). }
  apply files_ext.
  - apply saved_files_sorted; [apply saved_files_sorted; [constructor|rewrite Hl; apply file_set_sorted; constructor]|].
    rewrite Ae. apply file_set_sorted. constructor.
  - apply saved_files_sorted; [constructor|]. rewrite A1'. apply file_set_sorted. constructor.
  - by apply saved_files_numbers.
  - apply saved_files_numbers. rewrite app_nil_l, A1'. by apply file_set_numbers.
  - intros f. rewrite !saved_files_elem, elem_of_nil, Ml, Me, M1, (ap_deleted _ _ _ _ He), (ap_deleted _ _ _ _ H1), Eadds, Edels. simpl. rewrite elem_of_nil.
    assert (f ∈ level_adds k e -> fm_number f ∈ map fm_number (level_adds k e)) as Hin by apply (list_elem_of_fmap_2 fm_number).
    assert (f ∈ adds0 -> fm_number f ∉ map fm_number (level_adds k e)) as Hout.
    { intros Hf. apply Hcr. by apply (list_elem_of_fmap_2 fm_number). }
    clear -Hin Hout. destruct (decide (fm_number f ∈ map fm_number (level_adds k e))); tauto.
Qed.
End Step.

(** *** Guards *)
Lemma saved_guards_look u base l : StronglySorted guard_lt base -> StronglySorted guard_lt (added_guards l) -> deleted_guards l = [] ->
  look u (saved_guards base l) = fresh_guard <$> look u (base ++ added_guards l).
Proof.
  intros Hb Ha Hd. unfold saved_guards. rewrite look_fold_guards, look_merge; [done|..|done|].
  - by apply Sorted_strictly_ordered; [apply _|].
  - apply merge_sets_sorted; [apply _|..]; by apply Sorted_strictly_ordered; [apply _|].
Qed.

Lemma saved_guards_sorted base l : StronglySorted guard_lt base -> StronglySorted guard_lt (added_guards l) ->
  StronglySorted guard_lt (saved_guards base l).
Proof. intros Hb Ha. apply fold_add_sorted; [done| |done]. by apply Sorted_strictly_ordered; [apply _|]. Qed.

Lemma saved_guards_fresh base l : map fresh_guard (saved_guards base l) = saved_guards base l.
Proof.
  unfold saved_guards. set (gs := merge_sets _ _ _). assert (map fresh_guard (fst (@nil GuardMetaData, @None GuardMetaData)) = []) as H by done.
  change (@nil GuardMetaData) with (fst (@nil GuardMetaData, @None GuardMetaData)) in H at 2. revert H.
  generalize (@nil GuardMetaData, @None GuardMetaData). induction gs as [|g gs IH]; intros s Hs; [done|]. cbn [fold_left]. apply IH.
  destruct s as [acc lst]. unfold add_guard. destruct (same_guard_key _ _ _); [done|]. destruct (guard_deleted _ _ _); [done|].
  cbn [fst] in *. by rewrite map_app, Hs.
Qed.

Lemma populate_guard_fresh limit fs : forall g first, fresh_guard (fst (populate_guard ucmp limit g first fs)) = fresh_guard g.
Proof.
  induction fs as [|f fs IH]; intros g first; simpl; [done|]. destruct (before_limit ucmp limit f); [|done].
  destruct (IsFileAlreadyPresent _ _); [apply IH|]. by rewrite IH.
Qed.

Lemma populate_fresh gs fs : map fresh_guard (fst (PopulateFilesToGuardsAndSentinels ucmp gs fs [])) = map fresh_guard gs.
Proof.
  rewrite populate_eq. cbn [fst]. generalize (drop (prefix_len (before_limit ucmp (gm_guard_key <$> gs !! 0%nat)) fs) fs).
  induction gs as [|g gs IH]; intros l; [done|]. cbn [populate_guards].
  pose proof (populate_guard_fresh (gm_guard_key <$> head gs) l (clear_guard g) true) as E.
  destruct (populate_guard _ _ _ _ _) as [g' rest]. cbn [map fst] in *. by rewrite E, IH.
Qed.

Lemma sorted_keys_lt gs gs' : map gm_guard_key gs' = map gm_guard_key gs -> StronglySorted guard_lt gs -> StronglySorted guard_lt gs'.
Proof. rewrite <- !guards_sorted_iff. apply guards_sorted_keys. Qed.

Lemma step_guards k e e' l l1 le base : StronglySorted guard_lt base -> map fresh_guard base = saved_guards [] l ->
  applied k e' l l1 -> applied k e new_LevelState le -> StronglySorted guard_lt (added_guards l) -> deleted_guards l = [] ->
  ve_deleted_guards e = [] -> ve_deleted_guards e' = [] ->
  (forall u, fresh_guard <$> look u (edit_guards k e) = fresh_guard <$> look u (edit_guards k e')) ->
  saved_guards base le = saved_guards [] l1.
Proof.
  intros Hb Eb H1 He Hl Hd Hde Hde' Esame.
  assert (added_guards le = guard_set (edit_guards k e) []) as Ae by exact (ap_guards _ _ _ _ He).
  pose proof (ap_guards _ _ _ _ H1) as A1.
  assert (StronglySorted guard_lt (added_guards le)) as Hle by (rewrite Ae; apply guard_set_sorted; constructor).
  assert (StronglySorted guard_lt (added_guards l1)) as Hl1 by (rewrite A1; by apply guard_set_sorted).
  assert (deleted_guards le = []) as De by exact (ap_deleted_guards _ _ _ _ He Hde).
  assert (deleted_guards l1 = []) as D1 by (rewrite (ap_deleted_guards _ _ _ _ H1 Hde'); done).
  apply look_ext; [by apply saved_guards_sorted|by apply saved_guards_sorted; [constructor|]|]. intros u.
  rewrite !saved_guards_look, Ae, A1 by (done || constructor). rewrite app_nil_l, look_app, look_set by constructor. rewrite app_nil_l.
  rewrite (look_set u (edit_guards k e')), look_app by done.
  assert (fresh_guard <$> look u base = fresh_guard <$> look u (added_guards l)) as Elook.
  { rewrite <- (look_map fresh_guard) by done. rewrite Eb, saved_guards_look by (done || constructor). done. }
  destruct (look u base), (look u (added_guards l)); done.
Qed.

(** ** Versions with the same tree *)
Definition same_tree (v v' : Version) : Prop :=
  forall k, (k < Z.to_nat kNumLevels)%nat ->
    level_of (v_files v) k = level_of (v_files v') k /\ level_of (v_guards v) k = level_of (v_guards v') k /\
    level_of (v_sentinel_files v) k = level_of (v_sentinel_files v') k.

#[export] Instance same_tree_equivalence : Equivalence same_tree.
Proof.
  split.
  - by intros v k Hk.
  - intros v w H k Hk. destruct (H k Hk) as (? & ? & ?). done.
  - intros u v w H1 H2 k Hk. destruct (H1 k Hk) as (-> & -> & ->). by apply H2.
Qed.

(** The edits do the same to the files and guards of every level. *)
Definition same_edit (e e' : VersionEdit) : Prop :=
  ve_deleted_guards e = [] /\ ve_deleted_guards e' = [] /\
  forall k, level_adds k e' = level_adds k e /\ level_deletes k e' = level_deletes k e /\
    forall u, fresh_guard <$> look u (edit_guards k e) = fresh_guard <$> look u (edit_guards k e').

Lemma level_of_new {A} k : level_of (@no_levels A) k = [].
Proof. unfold level_of, no_levels. destruct (_ !! k) eqn:H; [|done]. by apply lookup_replicate in H as [-> _]. Qed.

(** The parts of the version one builder makes of a history. *)
Lemma history_parts cp es edit k : (k < Z.to_nat kNumLevels)%nat ->
  let v := apply_edits ucmp cp new_Version es edit in
  let l := state_at (history_builder cp new_Version es) k in
  level_of (v_files v) k = saved_files [] l /\
  (level_of (v_guards v) k, level_of (v_sentinel_files v) k) =
    PopulateFilesToGuardsAndSentinels ucmp (saved_guards [] l) (saved_files [] l) [].
Proof.
  intros Hk. destruct (history_shape cp new_Version es) as [Eb El].
  pose proof (SaveTo_parts (history_builder cp new_Version es) edit k ltac:(lia)) as H. rewrite Eb in H. simpl in H. rewrite !level_of_new in H. exact H.
Qed.

Lemma adds_snoc k es e e' : level_adds k e' = level_adds k e -> all_adds k (es ++ [e']) = all_adds k es ++ level_adds k e.
Proof. intros <-. unfold all_adds. rewrite map_app, concat_app. cbn [map concat]. by rewrite app_nil_r. Qed.

(** One more edit: over the version that runs, or after the history. *)
Lemma same_tree_step cp cp' es e e' v edit edit' :
  history_ok (es ++ [e']) -> same_edit e e' -> same_tree v (apply_edits ucmp cp new_Version es None) ->
  same_tree (apply_edits ucmp cp' v [e] edit) (apply_edits ucmp cp new_Version (es ++ [e']) edit').
Proof.
  intros Hok (Hde & Hde' & Hsame) Hv k Hk. destruct (Hsame k) as (Eadds & Edels & Eguards). destruct (Hv k Hk) as (Vf & Vg & _).
  pose proof (history_ok_snoc _ _ Hok) as [_ Hdel]. destruct Hok as [Hnd _]. specialize (Hnd k). rewrite (adds_snoc k es e e' Eadds) in Hnd.
  destruct (history_parts cp es None k Hk) as [Pf Pg]. destruct (history_parts cp (es ++ [e']) edit' k Hk) as [Qf Qg].
  destruct (history_shape cp' v [e]) as [Bb Bl]. destruct (history_shape cp new_Version es) as [_ Hl0].
  pose proof (SaveTo_parts (history_builder cp' v [e]) edit k ltac:(lia)) as [Rf Rg]. rewrite Bb in Rf, Rg.
  set (l := state_at (history_builder cp new_Version es) k) in *.
  set (l1 := state_at (history_builder cp new_Version (es ++ [e'])) k) in *. set (le := state_at (history_builder cp' v [e]) k) in *.
  destruct (history_state cp new_Version es k Hk Hdel) as (Sf & Sg & Sd). fold l in Sf, Sg, Sd.
  assert (applied k e' l l1) as A1 by (unfold l1; rewrite history_builder_snoc; apply Apply_applied; lia).
  assert (applied k e new_LevelState le) as Ae.
  { pose proof (Apply_applied e (new_Builder cp' v) k Hk Hk) as H.
    replace (state_at (new_Builder cp' v) k) with new_LevelState in H; [exact H|]. unfold state_at, kNumLevels in *. simpl.
    by do 7 (destruct k as [|k]; [done|]). }
  assert (StronglySorted guard_lt (added_guards l)) as Hsl by (rewrite Sg; apply guard_set_sorted; constructor).
  assert (saved_files (level_of (v_files v) k) le = saved_files [] l1) as Ef.
  { rewrite Vf, Pf. by eapply step_files. }
  assert (saved_guards (level_of (v_guards v) k) le = saved_guards [] l1) as Eg.
  { rewrite Vg. assert (level_of (v_guards (apply_edits ucmp cp new_Version es None)) k =
      fst (PopulateFilesToGuardsAndSentinels ucmp (saved_guards [] l) (saved_files [] l) [])) as Epop by (by rewrite <- Pg).
    eapply (step_guards k e e' l); try done.
    - eapply (sorted_keys_lt (saved_guards [] l)); [|by apply saved_guards_sorted; [constructor|]].
      rewrite Epop, populate_eq. apply populate_guards_keys.
    - rewrite Epop, populate_fresh. apply saved_guards_fresh. }
  unfold apply_edits at 1 3 5. fold (history_builder cp' v [e]). rewrite Rf, Qf, Ef. split; [done|].
  rewrite Ef, Eg in Rg. rewrite <- Qg in Rg. by injection Rg as -> ->.
Qed.

(** A history that begins with a snapshot of the version. *)
Lemma same_tree_snapshot cp es e v : history_ok es -> same_tree v (apply_edits ucmp cp new_Version es None) -> ve_deleted_guards e = [] ->
  (forall k, (k < Z.to_nat kNumLevels)%nat -> level_adds k e = level_of (v_files v) k /\ level_deletes k e = [] /\
     forall u, fresh_guard <$> look u (edit_guards k e) = fresh_guard <$> look u (level_of (v_guards v) k)) ->
  same_tree v (apply_edits ucmp cp new_Version [e] None) /\
  forall k, (k < Z.to_nat kNumLevels)%nat -> NoDup (map fm_number (level_of (v_files v) k)).
Proof.
  intros [Hnd Hdel] Hv Hde Hsame.
  assert (forall k, (k < Z.to_nat kNumLevels)%nat -> let l := state_at (history_builder cp new_Version es) k in
    level_of (v_files v) k = saved_files [] l /\ StronglySorted file_le (saved_files [] l) /\ NoDup (map fm_number (saved_files [] l)) /\
    level_of (v_guards v) k = fst (PopulateFilesToGuardsAndSentinels ucmp (saved_guards [] l) (saved_files [] l) []) /\
    level_of (v_sentinel_files v) k = snd (PopulateFilesToGuardsAndSentinels ucmp (saved_guards [] l) (saved_files [] l) []) /\
    StronglySorted guard_lt (saved_guards [] l)) as Hparts.
  { intros k Hk l. destruct (Hv k Hk) as (-> & -> & ->). destruct (history_parts cp es None k Hk) as [Pf Pg]. fold l in Pf, Pg.
    destruct (history_state cp new_Version es k Hk Hdel) as (Sf & Sg & Sd). fold l in Sf, Sg, Sd. rewrite Pf, <- Pg. split; [done|].
    split; [apply saved_files_sorted; [constructor|rewrite Sf; apply file_set_sorted; constructor]|].
    split; [apply saved_files_numbers; rewrite app_nil_l, Sf; apply file_set_numbers, Hnd|]. do 2 (split; [done|]).
    apply saved_guards_sorted; [constructor|]. rewrite Sg. apply guard_set_sorted. constructor. }
  split; [|intros k Hk; by destruct (Hparts k Hk) as (-> & _ & ? & _)].
  intros k Hk. destruct (Hsame k Hk) as (Eadds & Edels & Eguards). destruct (Hparts k Hk) as (Vf & Fs & Fn & Vg & Vs & Gs).
  set (l := state_at (history_builder cp new_Version es) k) in *. destruct (history_parts cp [e] None k Hk) as [Qf Qg].
  destruct (history_state cp new_Version [e] k Hk ltac:(by constructor)) as (Sf & Sg & Sd).
  unfold all_adds in Sf. cbn [map concat] in Sf, Sg. rewrite app_nil_r, Eadds, Vf in Sf. rewrite app_nil_r in Sg.
  assert (applied k e new_LevelState (state_at (history_builder cp new_Version [e]) k)) as Ae.
  { pose proof (Apply_applied e (new_Builder cp new_Version) k Hk Hk) as H.
    replace (state_at (new_Builder cp new_Version) k) with new_LevelState in H; [exact H|]. unfold state_at, kNumLevels in *. simpl.
    by do 7 (destruct k as [|k]; [done|]). }
  set (le := state_at (history_builder cp new_Version [e]) k) in *.
  assert (saved_files [] le = saved_files [] l) as Ef.
  { apply files_ext; [apply saved_files_sorted; [constructor|rewrite Sf; apply file_set_sorted; constructor]|done| |done|].
    - apply saved_files_numbers. rewrite app_nil_l, Sf. by apply file_set_numbers.
    - intros f. rewrite saved_files_elem, Sf, file_set_elem, !elem_of_nil by done. rewrite (ap_deleted _ _ _ _ Ae), Edels. simpl. rewrite !elem_of_nil. tauto. }
  assert (saved_guards [] le = saved_guards [] l) as Eg.
  { assert (StronglySorted guard_lt (added_guards le)) as Hle by (rewrite Sg; apply guard_set_sorted; constructor).
    apply look_ext; [by apply saved_guards_sorted; [constructor|]|done|]. intros u.
    rewrite saved_guards_look, Sg, app_nil_l, look_set by (done || constructor). rewrite app_nil_l, Eguards, Vg, <- (look_map fresh_guard) by done.
    by rewrite populate_fresh, saved_guards_fresh. }
  rewrite Vf, Vg, Vs, Qf, Ef. split; [done|]. rewrite Ef, Eg in Qg. by rewrite <- Qg.
Qed.

(** ** What is written of an edit *)
Lemma level_adds_saved k e : level_adds k (edit_saved e) = level_adds k e.
Proof.
  unfold level_adds, edit_saved. cbn [ve_new_files]. induction (ve_new_files e) as [|p nf IH]; [done|]. cbn [map List.filter fst snd].
  destruct (Z.to_nat (fst p) =? k)%nat; cbn [map]; [|exact IH]. by rewrite IH.
Qed.

Lemma edit_saved_same e : ve_deleted_guards e = [] -> same_edit e (edit_saved e).
Proof.
  intros Hd. split; [done|]. split; [done|]. intros k. split; [apply level_adds_saved|]. split; [done|].
  intros u. unfold edit_guards, edit_saved. cbn [ve_new_guards].
  replace (level_of (map (map guard_saved) (ve_new_guards e)) k) with (map guard_saved (level_of (ve_new_guards e) k)).
  2:{ rewrite level_of_map. unfold level_of. generalize (ve_new_guards e). unfold levels. intros ls. by destruct (ls !! k). }
  rewrite <- !(look_map fresh_guard) by done. rewrite !map_map. done.
Qed.

Lemma history_ok_saved es : history_ok es -> history_ok (map edit_saved es).
Proof.
  intros [H1 H2]. split.
  - intros k. unfold all_adds. rewrite map_map, (map_ext _ (level_adds k)); [apply H1|]. intros e. apply level_adds_saved.
  - rewrite Forall_forall in *. intros e (e0 & -> & He)%list_elem_of_fmap. exact (H2 e0 He).
Qed.
End History.

(** ** The claim *)

(** C18. One builder over a history makes the version that runs.  Apply the edits
    of a history one by one, each through a builder of its own over the version
    before it, as LogAndApply does; and apply what is written of them to a
    single builder over the empty version, as Recover does: the files, the
    guards with their files, and the sentinel files of every level are the
    same, when a level gets each file number at most once and no guard is
    deleted. *)
Theorem history_rebuilds_version (ucmp : Comparator) (es : list VersionEdit) (cp : list bytes) (cps : VersionEdit -> list bytes)
    (Hucmp : ComparatorOk ucmp all_keys) (Hok : history_ok es) :
  same_tree (fold_left (fun v e => apply_edits ucmp (cps e) v [e] (Some e)) es new_Version)
    (apply_edits ucmp cp new_Version (map edit_saved es) None).
Proof.
  induction es as [|e es IH] using rev_ind.
  - cbn [map fold_left]. intros k Hk. destruct (history_parts ucmp cp [] None k Hk) as [-> E]. simpl v_files. simpl v_guards. simpl v_sentinel_files.
    rewrite !level_of_new.
    assert (state_at (history_builder ucmp cp new_Version []) k = new_LevelState) as El.
    { unfold state_at, kNumLevels in *. simpl. by do 7 (destruct k as [|k]; [done|]). }
    rewrite El in E |- *. split; [done|]. by injection E as -> ->.
  - rewrite map_app, fold_left_app. cbn [fold_left map].
    pose proof (history_ok_saved _ Hok) as Hok'. rewrite map_app in Hok'.
    apply same_tree_step; [done..| |by apply IH, (history_ok_snoc _ e)].
    apply edit_saved_same. destruct Hok as [_ H]. apply Forall_app in H as [_ H]. by apply Forall_cons in H as [? _].
Qed.

Definition history_edits : list VersionEdit :=
  [AddGuard (AddFile (AddFile new_VersionEdit 1 5 100 (InternalKey [Byte.x61] 1 1) (InternalKey [Byte.x62] 2 1))
     1 7 100 (InternalKey [Byte.x66] 3 1) (InternalKey [Byte.x67] 4 1)) 1 (InternalKey [Byte.x64] 9 kTypeGuard);
   AddFile (DeleteFile new_VersionEdit 1 5) 2 8 90 (InternalKey [Byte.x61] 1 1) (InternalKey [Byte.x62] 2 1)].

Lemma history_rebuilds_version_witness :
  level_of (v_files (apply_edits BytewiseComparator [] new_Version (map edit_saved history_edits) None)) 1 =
  level_of (v_files (fold_left (fun v e => apply_edits BytewiseComparator [] v [e] (Some e)) history_edits new_Version)) 1.
Proof.
  destruct (history_rebuilds_version BytewiseComparator history_edits [] (fun _ => []) BytewiseComparator_ok) with (k := 1%nat) as [E _].
  - split; [|repeat constructor]. intros k. apply (bool_decide_unpack _).
    do 3 (destruct k as [|k]; [vm_compute; exact I|]). vm_compute. exact I.
  - vm_compute. lia.
  - symmetry. exact E.
Defined.
