(* ===== verification/VersionGet.v ===== *)
(** * Reading from a version (db/version_set.cc: Version::Get)

    Version::Get looks for a key level by level: FindGuard gives the part of
    the level (a guard or the sentinel), the files of the part whose range
    contains the user key are tried from the newest to the oldest, each behind
    its file-level bloom filter, and the first file with an entry for the user
    key decides.  The table cache is the interface [TableReader]: what
    TableCache::Get promises about a file with given entries. *)

From Stdlib Require Import ZArith Lia Bool Sorting.Sorted.
From Stdlib Require Import Strings.String.
From stdpp Require Import base list sets sorting.
From S2P Require Import Prelude Coding Comparator DbFormat Status Iterator Bloom VersionEdit.
From S2P Require Import Guards VersionBuilder VersionBuilderSpec.

Set Default Goal Selector "!".
Local Open Scope Z_scope.
#[local] Arguments Compare : simpl never.

(** ** Saver (db/version_set.h) *)
Module Saver.
Inductive SaverState := kNotFound | kFound | kDeleted | kCorrupt.
End Saver.

(** The state and *value. *)
Record Saver := { s_state : Saver.SaverState; s_value : bytes }.

Section Get.
Context (ucmp : Comparator).
Notation icmp := (InternalKeyComparator ucmp).

Definition SaveValue (user_key : bytes) (s : Saver) (ikey v : bytes) : Saver :=
  let '(valid, parsed_key) := ParseInternalKey ikey ParsedInternalKey_default in
  if negb valid then {| s_state := Saver.kCorrupt; s_value := s_value s |}
  else if Compare ucmp (DbFormat.user_key parsed_key) user_key =? 0 then
    if type_ parsed_key =? kTypeValue then {| s_state := Saver.kFound; s_value := v |}
    else {| s_state := Saver.kDeleted; s_value := s_value s |}
  else s.

(** TableCache::Get(options, file_number, file_size, k, arg, saver): its status
    and the key and value it calls the saver with, if it does. *)
Definition TableReader := Z -> Z -> bytes -> Status * option entry.
Context (table_cache_Get : TableReader).
(** vset_->file_level_bloom_filter and options_->filter_policy *)
Context (file_level_bloom_filter : Z -> option bytes) (filter_policy : FilterPolicy).

Record GetStats := { seek_file : option FileMetaData; seek_file_level : Z }.

(** The locals of Get, *stats, *value and num_files_read. *)
Record GetState := {
  g_stats : GetStats;
  last_file_read : option FileMetaData;
  last_file_read_level : Z;
  num_files_read : Z;
  g_value : bytes;
}.

Definition newest_first (a b : FileMetaData) : Prop := fm_number b <= fm_number a.
#[export] Instance newest_first_dec a b : Decision (newest_first a b).
Proof. unfold newest_first. apply _. Defined.

(** std::sort with NewestFirst *)
Definition sort_newest (files : list FileMetaData) : list FileMetaData := merge_sort newest_first files.

Definition key_in_file (user_key : bytes) (f : FileMetaData) : bool :=
  (0 <=? Compare ucmp user_key (ExtractUserKey (fm_smallest f))) &&
  (Compare ucmp user_key (ExtractUserKey (fm_largest f)) <=? 0).

(** The files to search in a level that has files. *)
Definition files_to_search (guards : list GuardMetaData) (sentinel_files : list FileMetaData) (ikey user_key : bytes)
    : option (list FileMetaData) :=
  guard_index ← FindGuard ucmp guards ikey;
  let g := guards !! Z.to_nat guard_index in
  if (len guards =? 0) ||
     ((guard_index =? 0) && match g with Some g => 0 <? Compare ucmp (guard_ukey g) user_key | None => false end)
  then Some (sort_newest (List.filter (key_in_file user_key) sentinel_files))
  else
    g ← g;
    if 0 <? gm_number_segments g
    then Some (sort_newest (List.filter (key_in_file user_key)
           (take (Z.to_nat (gm_number_segments g)) (gm_file_metas g))))
    else Some [].

(** The statements before the table is read: the first file read is charged
    once a second one is needed. *)
Definition note_file (level : Z) (f : FileMetaData) (st : GetState) : GetState :=
  let stats := match last_file_read st, seek_file (g_stats st) with
               | Some last, None => {| seek_file := Some last; seek_file_level := last_file_read_level st |}
               | _, _ => g_stats st
               end in
  {| g_stats := stats; last_file_read := Some f; last_file_read_level := level;
     num_files_read := num_files_read st; g_value := g_value st |}.

Definition key_may_match (ikey : bytes) (f : FileMetaData) : bool :=
  match file_level_bloom_filter (fm_number f) with
  | Some filter_string => KeyMayMatch filter_policy ikey filter_string
  | None => true
  end.

(** The loop over the files of a level: the status Get returns, if it does. *)
Fixpoint get_files (ikey user_key : bytes) (level : Z) (files : list FileMetaData) (st : GetState)
    : GetState * option Status :=
  match files with
  | [] => (st, None)
  | f :: files =>
      let st := note_file level f st in
      if negb (key_may_match ikey f) then get_files ikey user_key level files st
      else
        let '(s, found) := table_cache_Get (fm_number f) (fm_file_size f) ikey in
        let saver := {| s_state := Saver.kNotFound; s_value := g_value st |} in
        let saver := match found with Some (k, v) => SaveValue user_key saver k v | None => saver end in
        let st := {| g_stats := g_stats st; last_file_read := last_file_read st;
                     last_file_read_level := last_file_read_level st;
                     num_files_read := num_files_read st + 1; g_value := s_value saver |} in
        if negb (ok s) then (st, Some s)
        else match s_state saver with
             | Saver.kNotFound => get_files ikey user_key level files st
             | Saver.kFound => (st, Some OK)
             | Saver.kDeleted => (st, Some (NotFound []))
             | Saver.kCorrupt => (st, Some (Corruption2 (bytes_of_string "corrupted key for ") user_key))
             end
  end.

Definition get_level (v : Version) (ikey user_key : bytes) (level : nat) (st : GetState)
    : option (GetState * option Status) :=
  if len (level_of (v_files v) level) =? 0 then Some (st, None)
  else
    files ← files_to_search (level_of (v_guards v) level) (level_of (v_sentinel_files v) level) ikey user_key;
    Some (get_files ikey user_key (Z.of_nat level) files st).

(** The loop over [n] levels from [level] on. *)
Fixpoint get_levels (v : Version) (ikey user_key : bytes) (n level : nat) (st : GetState) : option (Status * GetState) :=
  match n with
  | O => Some (NotFound [], st)
  | S n =>
      match get_level v ikey user_key level st with
      | Some (st, Some s) => Some (s, st)
      | Some (st, None) => get_levels v ikey user_key n (S level) st
      | None => None
      end
  end.

Definition Version_Get (v : Version) (k : LookupKey) (value : bytes) : option (Status * GetState) :=
  get_levels v (internal_key k) (lk_user_key k) (Z.to_nat kNumLevels) 0
    {| g_stats := {| seek_file := None; seek_file_level := -1 |}; last_file_read := None;
       last_file_read_level := -1; num_files_read := 0; g_value := value |}.
End Get.

(** ** What the version holds, and what a reader may rely on *)
Section Spec.
Context (ucmp : Comparator).
Notation icmp := (InternalKeyComparator ucmp).
Context (table_cache_Get : TableReader).
Context (file_level_bloom_filter : Z -> option bytes) (filter_policy : FilterPolicy).
(** The entries of each file. *)
Context (contents : FileMetaData -> list entry).

(** The entry a seek in the file finds. *)
Definition seek_entry (f : FileMetaData) (k : bytes) : option entry :=
  i ← seek_pos icmp (contents f) k; contents f !! i.

(** TableCache::Get on a sound file: OK, and the saver is called with the entry
    a seek finds; it may be left out when it is for another user key (the
    entry then starts the next block, and the key of the index block tells). *)
Definition reads_file (f : FileMetaData) : Prop :=
  forall k, is_ikey k -> exists r,
    table_cache_Get (fm_number f) (fm_file_size f) k = (OK, r) /\
    (r = seek_entry f k \/
     (r = None /\ forall e, seek_entry f k = Some e -> ExtractUserKey (fst e) <> ExtractUserKey k)).

(** The filter of the file, if it has one, lets its user keys through. *)
Definition filter_ok (f : FileMetaData) : Prop :=
  forall e k, e ∈ contents f -> is_ikey k -> ExtractUserKey (fst e) = ExtractUserKey k ->
    key_may_match file_level_bloom_filter filter_policy k f = true.

(** The entries ascend, are values or deletions, and lie in the file's range. *)
Record contents_ok (f : FileMetaData) : Prop := {
  co_sorted : sorted_keys icmp (contents f);
  co_entries : Forall (fun e => exists u s t, fst e = InternalKey u s t /\ tag_ok s t) (contents f);
  co_range : Forall (fun e => Compare ucmp (file_start f) (ExtractUserKey (fst e)) <= 0 /\
                              Compare ucmp (ExtractUserKey (fst e)) (file_limit f) <= 0) (contents f);
}.

(** The part of the level that lookups of [u] search. *)
Definition part_of (v : Version) (level : nat) (u : bytes) : list FileMetaData :=
  match guard_slot ucmp (level_of (v_guards v) level) u with
  | O => level_of (v_sentinel_files v) level
  | S i => match level_of (v_guards v) level !! i with Some g => guard_files g | None => [] end
  end.

Record readable (v : Version) : Prop := {
  rd_guards level : guards_sorted ucmp (level_of (v_guards v) level) /\ len (level_of (v_guards v) level) < 2 ^ 31;
  rd_files level f : f ∈ level_of (v_files v) level -> contents_ok f /\ reads_file f /\ filter_ok f;
  rd_numbers level f g : f ∈ level_of (v_files v) level -> g ∈ level_of (v_files v) level ->
    fm_number f = fm_number g -> f = g;
  rd_parts level u f : f ∈ part_of v level u -> f ∈ level_of (v_files v) level;
  (** files are where lookups search for their keys *)
  rd_serves level u f : f ∈ level_of (v_files v) level ->
    Compare ucmp (file_start f) u <= 0 -> Compare ucmp u (file_limit f) <= 0 -> f ∈ part_of v level u;
  (** a lower level, and within a level a larger file number, has newer entries *)
  rd_recent lf lg f g a b :
    f ∈ level_of (v_files v) lf -> g ∈ level_of (v_files v) lg ->
    (lf < lg)%nat \/ (lf = lg /\ fm_number g < fm_number f) ->
    a ∈ contents f -> b ∈ contents g -> ExtractUserKey (fst a) = ExtractUserKey (fst b) ->
    Compare icmp (fst a) (fst b) < 0;
}.

(** The entries of user key [u] that a snapshot [s] sees. *)
Definition seen (u : bytes) (s : Z) (e : entry) : Prop :=
  ExtractUserKey (fst e) = u /\ Compare icmp (InternalKey u s kValueTypeForSeek) (fst e) <= 0.

Definition version_entry (v : Version) (e : entry) : Prop :=
  exists level f, (Z.of_nat level < kNumLevels) /\ f ∈ level_of (v_files v) level /\ e ∈ contents f.

Definition newest_seen (v : Version) (u : bytes) (s : Z) (e : entry) : Prop :=
  version_entry v e /\ seen u s e /\
  forall e', version_entry v e' -> seen u s e' -> Compare icmp (fst e) (fst e') <= 0.

(** What a lookup reports of the entry it finds. *)
Definition reports (e : entry) (value0 : bytes) (s : Status) (value : bytes) : Prop :=
  if ExtractValueType (fst e) =? kTypeValue then s = OK /\ value = snd e else s = NotFound [] /\ value = value0.
End Spec.

(** ** One file *)
Section Lookup.
Context {ucmp : Comparator} `{!ComparatorOk ucmp all_keys}.
Notation icmp := (InternalKeyComparator ucmp).
Context (table_cache_Get : TableReader).
Context (file_level_bloom_filter : Z -> option bytes) (filter_policy : FilterPolicy).
Context (contents : FileMetaData -> list entry).
Context (u : bytes) (s : Z) (Hs : 0 <= s <= kMaxSequenceNumber).
Notation ikey := (InternalKey u s kValueTypeForSeek).
Notation visible := (seen ucmp u s).

(** [e] is the newest entry of the file that is seen. *)
Definition newest_in (f : FileMetaData) (e : entry) : Prop :=
  e ∈ contents f /\ visible e /\ forall e', e' ∈ contents f -> visible e' -> Compare icmp (fst e) (fst e') <= 0.

Lemma seek_newest f e :
  contents_ok ucmp contents f -> e ∈ contents f -> visible e ->
  exists e0, seek_entry ucmp contents f ikey = Some e0 /\ newest_in f e0.
Proof.
  intros [Hsort _ _] He [Hu Hle]. unfold seek_entry.
  destruct (seek_pos icmp (contents f) ikey) as [i|] eqn:E.
  2:{ apply seek_pos_None in E. rewrite Forall_forall in E. specialize (E e He). apply ikc_ge_le in Hle. lia. }
  apply seek_pos_Some in E as (e0 & Hi & Hge & Hbefore). exists e0. split; [exact Hi|].
  assert (forall e', e' ∈ contents f -> 0 <= Compare icmp (fst e') ikey -> Compare icmp (fst e0) (fst e') <= 0) as Hmin.
  { intros e' He' Hge'. apply list_elem_of_lookup in He' as [j Hj].
    destruct (Nat.lt_trichotomy i j) as [H|[<-|H]].
    - specialize (Hsort i j e0 e' H Hi Hj). lia.
    - assert (e' = e0) as -> by congruence. rewrite ikc_refl. lia.
    - specialize (Hbefore j e' H Hj). lia. }
  split; [by eapply list_elem_of_lookup_2|]. split.
  - split; [|by apply ikc_ge_le]. apply (cmp_eq (c := ucmp) (dom := all_keys)); [done..|].
    assert (Compare icmp (fst e0) (fst e) <= 0) as H1 by (apply Hmin; [done|by apply ikc_ge_le]).
    apply (ikc_user_le (ucmp := ucmp)) in H1. rewrite Hu in H1.
    apply ikc_ge_le, (ikc_user_le (ucmp := ucmp)) in Hge. rewrite ExtractUserKey_InternalKey in Hge.
    apply (cmp_ge_le (dom := all_keys)) in Hge; [|done..]. lia.
  - intros e' He' [_ Hle']. apply Hmin; [done|]. by apply ikc_ge_le.
Qed.

(** The saver after a read of the file. *)
Definition saver_of (f : FileMetaData) (value0 : bytes) (r : option entry) : Saver :=
  let saver := {| s_state := Saver.kNotFound; s_value := value0 |} in
  match r with Some (k, v) => SaveValue ucmp u saver k v | None => saver end.

Definition saver_reports (e : entry) (value0 : bytes) : Saver :=
  if ExtractValueType (fst e) =? kTypeValue then {| s_state := Saver.kFound; s_value := snd e |}
  else {| s_state := Saver.kDeleted; s_value := value0 |}.

Lemma SaveValue_entry value0 e u' s' t :
  fst e = InternalKey u' s' t -> tag_ok s' t ->
  SaveValue ucmp u {| s_state := Saver.kNotFound; s_value := value0 |} (fst e) (snd e) =
  if Compare ucmp u' u =? 0 then saver_reports e value0 else {| s_state := Saver.kNotFound; s_value := value0 |}.
Proof.
  intros E [Ht1 Ht2]. unfold kValueTypeForSeek, kTypeValue in Ht2. unfold SaveValue, saver_reports. rewrite E.
  rewrite ParseInternalKey_InternalKey, ExtractValueType_InternalKey by lia. unfold kTypeValue.
  assert ((t <=? 1) = true) as -> by (apply Z.leb_le; lia). cbn [negb DbFormat.user_key type_].
  destruct (Compare ucmp u' u =? 0); [|done]. by destruct (t =? 1).
Qed.

Lemma read_file f value0 :
  contents_ok ucmp contents f -> reads_file ucmp table_cache_Get contents f ->
  exists r, table_cache_Get (fm_number f) (fm_file_size f) ikey = (OK, r) /\
    ((exists e, newest_in f e /\ saver_of f value0 r = saver_reports e value0) \/
     (Forall (fun e => ~ visible e) (contents f) /\
      saver_of f value0 r = {| s_state := Saver.kNotFound; s_value := value0 |})).
Proof.
  intros Hco Hr. destruct (Hr ikey (is_ikey_InternalKey _ _ _)) as (r & E & Hcase). exists r. split; [exact E|].
  assert (Forall (fun e => ~ visible e) (contents f) \/ exists e, e ∈ contents f /\ visible e) as [Hnone|(e & He & Hseen)].
  { assert (forall e, Decision (visible e)) as Hdec by (intros e; unfold seen; apply _).
    destruct (decide (Exists visible (contents f))) as [H|H]; [right; by apply Exists_exists in H|left].
    by apply not_Exists_Forall in H. }
  - right. split; [done|]. destruct Hcase as [->|[-> _]]; [|done]. unfold saver_of.
    destruct (seek_entry ucmp contents f ikey) as [[k v]|] eqn:Es; [|done].
    unfold seek_entry in Es. destruct (seek_pos _ _ _) as [i|] eqn:Ep; [|done]. simpl in Es.
    apply seek_pos_Some in Ep as (e0 & Hi & Hge & _). rewrite Es in Hi. injection Hi as <-.
    pose proof (list_elem_of_lookup_2 _ _ _ Es) as Hel.
    destruct Hco as [_ Hent _]. rewrite Forall_forall in Hent, Hnone.
    destruct (Hent _ Hel) as (u' & s' & t & Ek & Ht). change k with (fst (k, v)). change v with (snd (k, v)) at 2.
    rewrite (SaveValue_entry _ _ _ _ _ Ek Ht).
    destruct (Z.eqb_spec (Compare ucmp u' u) 0) as [Eu|]; [|done].
    exfalso. apply (Hnone _ Hel). apply (cmp_eq (c := ucmp) (dom := all_keys)) in Eu; [|done..]. subst u'.
    split; [simpl in Ek |- *; subst k; apply ExtractUserKey_InternalKey|by apply ikc_ge_le].
  - left. destruct (seek_newest f e Hco He Hseen) as (e0 & Es & Hn). exists e0. split; [done|].
    pose proof Hn as (Hel & [Hu _] & _).
    destruct Hcase as [->|[_ Hno]]; [|exfalso; apply (Hno e0 Es); by rewrite Hu, ExtractUserKey_InternalKey].
    rewrite Es. unfold saver_of. destruct Hco as [_ Hent _]. rewrite Forall_forall in Hent.
    destruct (Hent _ Hel) as (u' & s' & t & Ek & Ht). destruct e0 as [k v].
    change k with (fst (k, v)) at 1. change v with (snd (k, v)) at 1. rewrite (SaveValue_entry _ _ _ _ _ Ek Ht).
    assert (u' = u) as -> by (rewrite <- Hu, Ek; symmetry; apply ExtractUserKey_InternalKey).
    rewrite (cmp_refl (dom := all_keys)) by done. done.
Qed.

(** ** The files of a level, from the newest to the oldest *)
Notation search := (get_files ucmp table_cache_Get file_level_bloom_filter filter_policy).

Definition file_readable (f : FileMetaData) : Prop :=
  contents_ok ucmp contents f /\ reads_file ucmp table_cache_Get contents f /\
  filter_ok file_level_bloom_filter filter_policy contents f.

(** The search ends at the first file that has an entry, and reports it. *)
Definition level_outcome (files : list FileMetaData) (value0 : bytes) (r : GetState * option Status) : Prop :=
  (exists pre f post e st, files = pre ++ f :: post /\ Forall (fun g => Forall (fun e => ~ visible e) (contents g)) pre /\
     newest_in f e /\ snd r = Some st /\ reports e value0 st (g_value (fst r))) \/
  (Forall (fun g => Forall (fun e => ~ visible e) (contents g)) files /\ snd r = None /\ g_value (fst r) = value0).

Lemma level_outcome_cons f files value0 r :
  Forall (fun e => ~ visible e) (contents f) -> level_outcome files value0 r -> level_outcome (f :: files) value0 r.
Proof.
  intros Hf [(pre & g & post & e & st & -> & Hp & H)|(Hn & H)].
  - left. exists (f :: pre), g, post, e, st. split; [done|]. split; [by constructor|done].
  - right. split; [by constructor|done].
Qed.

Lemma get_files_outcome level files : forall st,
  Forall file_readable files -> level_outcome files (g_value st) (search ikey u level files st).
Proof.
  induction files as [|f files IH]; intros st Hall; cbn [get_files].
  { right. done. }
  apply Forall_cons in Hall as [(Hco & Hr & Hfi) Hall].
  change (g_value st) with (g_value (note_file level f st)). set (st1 := note_file level f st) in *.
  destruct (key_may_match file_level_bloom_filter filter_policy ikey f) eqn:Em; cbn [negb].
  2:{ apply level_outcome_cons; [|by apply IH]. apply Forall_forall. intros e He [Hu _].
    rewrite (Hfi e ikey He) in Em; [done|apply is_ikey_InternalKey|]. by rewrite Hu, ExtractUserKey_InternalKey. }
  destruct (read_file f (g_value st1) Hco Hr) as (r & -> & Hcase). fold (saver_of f (g_value st1) r).
  change (negb (ok OK)) with false. cbv iota.
  destruct Hcase as [(e & Hn & ->)|(Hn & ->)].
  - left. unfold saver_reports, reports. exists [], f, files, e.
    destruct (ExtractValueType (fst e) =? kTypeValue); simpl; eexists; (split; [done|]); (split; [constructor|]);
      (split; [done|]); by split.
  - simpl s_state. cbv iota. apply level_outcome_cons; [done|].
    match goal with |- level_outcome _ _ (search _ _ _ _ ?st2) => change (g_value st1) with (g_value st2) end. by apply IH.
Qed.
End Lookup.

(** ** A level and the whole version *)
Section VersionLookup.
Context {ucmp : Comparator} `{!ComparatorOk ucmp all_keys}.
Notation icmp := (InternalKeyComparator ucmp).
Context (table_cache_Get : TableReader).
Context (file_level_bloom_filter : Z -> option bytes) (filter_policy : FilterPolicy).
Context (contents : FileMetaData -> list entry).
Context (u : bytes) (s : Z) (Hs : 0 <= s <= kMaxSequenceNumber).
Notation ikey := (InternalKey u s kValueTypeForSeek).
Notation visible := (seen ucmp u s).
Context (v : Version).
Hypothesis Hv : readable ucmp table_cache_Get file_level_bloom_filter filter_policy contents v.

Lemma files_to_search_part level :
  files_to_search ucmp (level_of (v_guards v) level) (level_of (v_sentinel_files v) level) ikey u =
  Some (sort_newest (List.filter (key_in_file ucmp u) (part_of ucmp v level u))).
Proof.
  destruct (rd_guards _ _ _ _ _ _ Hv level) as [Hg Hlen]. unfold files_to_search, part_of.
  set (gs := level_of (v_guards v) level) in *. set (sent := level_of (v_sentinel_files v) level).
  rewrite (FindGuard_slot (ucmp := ucmp)) by (done || apply is_ikey_InternalKey). rewrite ExtractUserKey_InternalKey.
  cbn [mbind option_bind]. rewrite Nat2Z.id.
  destruct (guard_slot ucmp gs u) as [|i] eqn:Es.
  - simpl pred. change (Z.of_nat 0 =? 0) with true. cbn [andb].
    destruct gs as [|g gs']; [done|]. simpl lookup. cbv iota.
    assert ((0 <? Compare ucmp (guard_ukey g) u) = true) as ->; [|by rewrite orb_true_r].
    pose proof (guard_slot_lookup (g :: gs') u 0 g Hg eq_refl) as H. rewrite Es in H.
    apply Z.ltb_lt, (cmp_gt_lt (dom := all_keys)); [done..|]. lia.
  - simpl pred. pose proof (guard_slot_le (ucmp := ucmp) gs u).
    destruct (lookup_lt_is_Some_2 gs i) as [g Hi]; [lia|]. rewrite Hi.
    pose proof (proj2 (guard_slot_lookup gs u i g Hg Hi) ltac:(lia)) as Hge.
    assert ((len gs =? 0) = false) as ->.
    { apply Z.eqb_neq. apply lookup_lt_Some in Hi. unfold len. lia. }
    assert ((0 <? Compare ucmp (guard_ukey g) u) = false) as ->.
    { apply Z.ltb_ge. by apply (cmp_ge_le (dom := all_keys)). }
    rewrite andb_false_r. cbn [orb mbind option_bind]. fold (guard_files g).
    destruct (Z.ltb_spec 0 (gm_number_segments g)) as [Hp|Hp]; [done|].
    unfold guard_files. by replace (Z.to_nat (gm_number_segments g)) with 0%nat by lia.
Qed.

#[local] Instance newest_first_trans : Transitive newest_first.
Proof. unfold newest_first. intros a b c. lia. Qed.
#[local] Instance newest_first_total : Total newest_first.
Proof. unfold newest_first. intros a b. lia. Qed.

(** Every file of the level with an entry for the key is searched. *)
Lemma searched_files level f e :
  f ∈ level_of (v_files v) level -> e ∈ contents f -> visible e ->
  f ∈ sort_newest (List.filter (key_in_file ucmp u) (part_of ucmp v level u)).
Proof.
  intros Hf He [Hu _]. unfold sort_newest. rewrite merge_sort_Permutation, list_elem_of_In, List.filter_In, <- list_elem_of_In.
  destruct (rd_files _ _ _ _ _ _ Hv level f Hf) as ([_ _ Hrange] & _ & _).
  rewrite Forall_forall in Hrange. destruct (Hrange e He) as [H1 H2]. rewrite Hu in H1, H2.
  split; [by apply (rd_serves _ _ _ _ _ _ Hv)|]. unfold key_in_file. apply andb_true_iff. rewrite !Z.leb_le.
  split; [by apply (cmp_ge_le (dom := all_keys))|done].
Qed.

Lemma searched_in_level level f :
  f ∈ sort_newest (List.filter (key_in_file ucmp u) (part_of ucmp v level u)) -> f ∈ level_of (v_files v) level.
Proof.
  unfold sort_newest. rewrite merge_sort_Permutation, list_elem_of_In, List.filter_In, <- list_elem_of_In.
  intros [H _]. by eapply (rd_parts _ _ _ _ _ _ Hv).
Qed.

(** [e] is the newest entry of the level that is seen. *)
Definition newest_in_level (level : nat) (e : entry) : Prop :=
  (exists f, f ∈ level_of (v_files v) level /\ e ∈ contents f) /\ visible e /\
  forall g e', g ∈ level_of (v_files v) level -> e' ∈ contents g -> visible e' -> Compare icmp (fst e) (fst e') <= 0.

Lemma first_file_newest level pre f post e :
  sort_newest (List.filter (key_in_file ucmp u) (part_of ucmp v level u)) = pre ++ f :: post ->
  Forall (fun g => Forall (fun e => ~ visible e) (contents g)) pre -> newest_in (ucmp := ucmp) contents u s f e ->
  newest_in_level level e.
Proof.
  intros E Hpre (He & Hvis & Hmin).
  assert (f ∈ level_of (v_files v) level) as Hf.
  { apply searched_in_level. rewrite E, elem_of_app, elem_of_cons. auto. }
  split; [by exists f|]. split; [done|]. intros g e' Hg He' Hvis'.
  pose proof (searched_files level g e' Hg He' Hvis') as Hin.
  assert (StronglySorted newest_first (pre ++ f :: post)) as Hsort.
  { rewrite <- E. apply StronglySorted_merge_sort; apply _. }
  rewrite E, elem_of_app, elem_of_cons in Hin. destruct Hin as [Hin|[->|Hin]].
  - exfalso. rewrite Forall_forall in Hpre. specialize (Hpre g Hin). rewrite Forall_forall in Hpre. by apply (Hpre e').
  - by apply Hmin.
  - apply StronglySorted_app_1_r, StronglySorted_cons in Hsort as [Hh _]. rewrite Forall_forall in Hh.
    specialize (Hh g Hin). unfold newest_first in Hh.
    destruct (Z.eq_dec (fm_number g) (fm_number f)) as [En|En].
    + rewrite (rd_numbers _ _ _ _ _ _ Hv level g f Hg Hf En) in He'. by apply Hmin.
    + enough (Compare icmp (fst e) (fst e') < 0) by lia.
      apply (rd_recent _ _ _ _ _ _ Hv level level f g e e'); [done|done|right; lia|done|done|].
      destruct Hvis as [-> _], Hvis' as [-> _]. done.
Qed.

Lemma get_level_outcome level st :
  exists r, get_level ucmp table_cache_Get file_level_bloom_filter filter_policy v ikey u level st = Some r /\
    ((exists e status, newest_in_level level e /\ snd r = Some status /\ reports e (g_value st) status (g_value (fst r))) \/
     ((forall g e, g ∈ level_of (v_files v) level -> e ∈ contents g -> ~ visible e) /\ snd r = None /\
      g_value (fst r) = g_value st)).
Proof.
  unfold get_level. destruct (Z.eqb_spec (len (level_of (v_files v) level)) 0) as [E|E].
  { apply len_0_nil in E. eexists. split; [reflexivity|]. right. rewrite E. split; [|done].
    intros g e Hg. by apply elem_of_nil in Hg. }
  rewrite files_to_search_part. cbn [mbind option_bind]. eexists. split; [reflexivity|].
  set (files := sort_newest _).
  assert (Forall (file_readable (ucmp := ucmp) table_cache_Get file_level_bloom_filter filter_policy contents) files) as Hall.
  { apply Forall_forall. intros f Hf%searched_in_level. by apply (rd_files _ _ _ _ _ _ Hv level). }
  destruct (get_files_outcome (ucmp := ucmp) table_cache_Get file_level_bloom_filter filter_policy contents u s
    (Z.of_nat level) files st Hall) as [(pre & f & post & e & status & Ef & Hpre & Hn & H1 & H2)|(Hn & H)].
  - left. exists e, status. split; [by eapply first_file_newest|done].
  - right. split; [|done]. intros g e Hg He Hvis. rewrite Forall_forall in Hn.
    specialize (Hn g (searched_files level g e Hg He Hvis)). rewrite Forall_forall in Hn. by apply (Hn e).
Qed.

Lemma get_levels_outcome n : forall level st,
  (forall l g e, (l < level)%nat -> g ∈ level_of (v_files v) l -> e ∈ contents g -> ~ visible e) ->
  Z.of_nat (level + n) = kNumLevels ->
  exists status st', get_levels ucmp table_cache_Get file_level_bloom_filter filter_policy v ikey u n level st
      = Some (status, st') /\
    ((exists e, newest_seen ucmp contents v u s e /\ reports e (g_value st) status (g_value st')) \/
     ((forall e, version_entry contents v e -> ~ visible e) /\ status = NotFound [] /\ g_value st' = g_value st)).
Proof.
  induction n as [|n IH]; intros level st Hbefore Hl; cbn [get_levels].
  { exists (NotFound []), st. split; [done|]. right. split; [|done]. intros e (l & g & Hlt & Hg & He).
    apply (Hbefore l g e); [lia|done..]. }
  destruct (get_level_outcome level st) as ([st1 o] & -> & Hcase). simpl in Hcase.
  destruct Hcase as [(e & status & Hn & -> & Hr)|(Hnone & -> & Ev)].
  - exists status, st1. split; [done|]. left. exists e. split; [|done].
    destruct Hn as ((f & Hf & He) & Hvis & Hmin). split; [exists level, f; split; [lia|done]|]. split; [done|].
    intros e' (l & g & Hlt & Hg & He') Hvis'. destruct (Nat.lt_trichotomy l level) as [H|[->|H]].
    + by destruct (Hbefore l g e' H Hg He').
    + by apply (Hmin g).
    + enough (Compare icmp (fst e) (fst e') < 0) by lia.
      apply (rd_recent _ _ _ _ _ _ Hv level l f g e e'); [done|done|left; lia|done|done|].
      destruct Hvis as [-> _], Hvis' as [-> _]. done.
  - rewrite <- Ev. apply IH; [|lia]. intros l g e Hlt. destruct (Nat.eq_dec l level) as [->|]; [apply Hnone|].
    apply Hbefore. lia.
Qed.
End VersionLookup.

(** ** The versions the builder saves *)
Section SavedParts.
Context {ucmp : Comparator} `{!ComparatorOk ucmp all_keys}.

(** A saved level is a populated one. *)
Lemma saved_level_populated b edit level :
  builder_ok (ucmp := ucmp) b ->
  let v := fst (SaveTo ucmp b edit) in
  exists guards, guards_sorted ucmp guards /\ Forall fresh guards /\
    map gm_guard_key (level_of (v_guards v) level) = map gm_guard_key guards /\
    (level_of (v_guards v) level, level_of (v_sentinel_files v) level) =
      PopulateFilesToGuardsAndSentinels ucmp guards (level_of (v_files v) level) [].
Proof.
  intros [Hv Hl] v. destruct (SaveTo_at (ucmp := ucmp) b edit level) as (E1 & E2 & _ & E4 & _). fold v in E1, E2, E4.
  rewrite E1, E2, E4. unfold saved_at. destruct (b_levels b !! level) as [l|] eqn:E; simpl.
  2:{ exists []. split; [by intros ? ? ? ? _ ?|]. split; [constructor|]. done. }
  pose proof (Forall_lookup_1 _ _ _ _ Hl E) as Hlok. destruct (Hv level) as [_ Hg _]. unfold SaveTo_level.
  set (gs := fst (save_merge (BySmallestGuard ucmp) (MaybeAddGuard ucmp l) _ _ _)).
  exists gs. destruct (save_complete_guards _ _ _ _ _ _) as [c e].
  destruct (PopulateFilesToGuardsAndSentinels ucmp gs _ []) as [gs' sent] eqn:Ep. simpl.
  assert (map gm_guard_key gs' = map gm_guard_key gs) as Ek.
  { rewrite populate_eq in Ep. injection Ep as <- _. apply populate_guards_keys. }
  split; [|split; [|by rewrite Ep]].
  - apply guards_sorted_iff, save_guards_sorted; [by apply guards_sorted_iff|apply Hlok].
  - unfold gs. rewrite save_merge_fold, (fold_left_ext _ _ _ _ (MaybeAddGuard_add l)).
    by apply fold_add_guard_fresh.
Qed.

Lemma part_of_populated v level guards u :
  map gm_guard_key (level_of (v_guards v) level) = map gm_guard_key guards -> Forall fresh guards ->
  NoDup (map fm_number (level_of (v_files v) level)) ->
  (level_of (v_guards v) level, level_of (v_sentinel_files v) level) =
    PopulateFilesToGuardsAndSentinels ucmp guards (level_of (v_files v) level) [] ->
  forall f, f ∈ part_of ucmp v level u -> f ∈ level_of (v_files v) level.
Proof.
  intros Ek Hfresh Hnd Ep f. pose proof (populate_all_files (ucmp := ucmp) guards _ Hfresh Hnd) as Hall. simpl in Hall.
  rewrite <- Ep in Hall. simpl in Hall. rewrite <- Hall, elem_of_app. unfold part_of.
  destruct (guard_slot _ _ _) as [|i]; [by left|].
  destruct (level_of (v_guards v) level !! i) as [g|] eqn:Eg; [|intros H; by apply elem_of_nil in H].
  intros Hf. right. apply list_elem_of_In, in_concat. exists (gm_file_metas g). split.
  - apply in_map, list_elem_of_In. by eapply list_elem_of_lookup_2.
  - apply list_elem_of_In. unfold guard_files in Hf. by apply subseteq_take in Hf.
Qed.
(** *** Files that end before a guard as internal keys *)
Notation ends_before g := (fun f => Compare (InternalKeyComparator ucmp) (fm_largest f) (gm_guard_key g) < 0).

Lemma prefix_len_ge {A} (p : A -> bool) l m : Forall (fun x => p x = true) (take m l) -> (min m (length l) <= prefix_len p l)%nat.
Proof.
  revert m. induction l as [|x l IH]; intros [|m] H; simpl in *; try lia. apply Forall_cons in H as [-> H]. specialize (IH m H). simpl. lia.
Qed.

Lemma populate_guards_cons g gs files : populate_guards ucmp (g :: gs) files =
  let r := populate_guard ucmp (gm_guard_key <$> head gs) (clear_guard g) true files in fst r :: populate_guards ucmp gs (snd r).
Proof. cbn [populate_guards]. by destruct (populate_guard _ _ _ _ _). Qed.

(** The rounds before that of guard [g] take all the files in front that end
    before it. *)
Lemma populate_guards_before g post : forall pre h files m, Forall fresh (h :: pre ++ g :: post) -> NoDup (map fm_number files) -> (m <= length files)%nat ->
  Forall (ends_before g) (take m files) -> exists n, (m <= n)%nat /\
    concat (map gm_file_metas (drop (S (length pre)) (populate_guards ucmp (h :: pre ++ g :: post) files))) = drop n files.
Proof.
  induction pre as [|h' pre IH]; intros h files m Hf Hnd Hm Hall; pose proof Hf as [Hh Hf']%Forall_cons; cbn [app length]; rewrite populate_guards_cons; cbv zeta; rewrite skipn_cons.
  - destruct (populate_round (ucmp := ucmp) (gm_guard_key <$> head (g :: post)) h files Hh Hnd) as (-> & _).
    exists (prefix_len (before_limit ucmp (Some (gm_guard_key g))) files). split.
    + pose proof (prefix_len_ge (before_limit ucmp (Some (gm_guard_key g))) files m) as Hp. assert (min m (length files) = m) as Hmin by lia. rewrite Hmin in Hp. apply Hp.
      eapply Forall_impl; [exact Hall|]. intros f Hlt. by apply Z.ltb_lt.
    + rewrite drop_0. apply (populate_guards_concat (ucmp := ucmp)); [done|done|by apply NoDup_drop].
  - destruct (populate_round (ucmp := ucmp) (gm_guard_key <$> head (h' :: pre ++ g :: post)) h files Hh Hnd) as (-> & _). set (n1 := prefix_len _ files).
    destruct (IH h' (drop n1 files) (m - n1)%nat Hf') as (n & Hn & E); [by apply NoDup_drop|rewrite length_drop; lia| |].
    { destruct (Nat.le_gt_cases m n1) as [Hle|Hgt]; [replace (m - n1)%nat with 0%nat by lia; constructor|].
      rewrite <- skipn_firstn_comm. by apply Forall_drop. }
    exists (n1 + n)%nat. split; [lia|]. by rewrite drop_drop in E.
Qed.

(** The parts from the one of a guard on hold none of the files in front that end
    before it. *)
Lemma populated_from gs fs i g m : Forall fresh gs -> NoDup (map fm_number fs) -> gs !! i = Some g -> (m <= length fs)%nat -> Forall (ends_before g) (take m fs) ->
  exists n, (m <= n)%nat /\ concat (map gm_file_metas (drop i (fst (PopulateFilesToGuardsAndSentinels ucmp gs fs [])))) = drop n fs.
Proof.
  intros Hf Hnd Hi Hm Hall. rewrite populate_eq. cbn [fst]. set (n0 := prefix_len _ fs). pose proof (take_drop_middle gs i g Hi) as Eg.
  destruct (take i gs) as [|h pre] eqn:Et.
  - assert (i = 0%nat) as ->. { destruct i; [done|]. destruct gs; [done|]. simpl in Et. discriminate. }
    exists n0. split.
    + unfold n0. rewrite Hi. cbn [fmap option_fmap option_map]. pose proof (prefix_len_ge (before_limit ucmp (Some (gm_guard_key g))) fs m) as Hp.
      assert (min m (length fs) = m) as Hmin by lia. rewrite Hmin in Hp. apply Hp. eapply Forall_impl; [exact Hall|]. intros f Hlt. by apply Z.ltb_lt.
    + rewrite drop_0. apply (populate_guards_concat (ucmp := ucmp)); [by intros ->|done|by apply NoDup_drop].
  - assert (i = S (length pre)) as ->.
    { apply (f_equal length) in Et. rewrite length_take_le in Et; [done|]. apply lookup_lt_Some in Hi. lia. }
    simpl in Eg. destruct (populate_guards_before g (drop (S (S (length pre))) gs) pre h (drop n0 fs) (m - n0)%nat) as (n & Hn & E).
    + by rewrite Eg.
    + by apply NoDup_drop.
    + rewrite length_drop. lia.
    + destruct (Nat.le_gt_cases m n0) as [Hle|Hgt]; [replace (m - n0)%nat with 0%nat by lia; constructor|]. rewrite <- skipn_firstn_comm. by apply Forall_drop.
    + rewrite Eg in E. exists (n0 + n)%nat. split; [lia|]. by rewrite drop_drop in E.
Qed.

Lemma not_in_part v level gs k i f g u : Forall fresh gs -> map gm_guard_key (level_of (v_guards v) level) = map gm_guard_key gs ->
  (level_of (v_guards v) level, level_of (v_sentinel_files v) level) = PopulateFilesToGuardsAndSentinels ucmp gs (level_of (v_files v) level) [] ->
  NoDup (map fm_number (level_of (v_files v) level)) -> level_of (v_files v) level !! k = Some f -> level_of (v_guards v) level !! i = Some g ->
  Forall (ends_before g) (take (S k) (level_of (v_files v) level)) -> (i < guard_slot ucmp (level_of (v_guards v) level) u)%nat -> f ∉ part_of ucmp v level u.
Proof.
  intros Hfresh Ek Ep Hnd Hk Hi Hall Hslot Hin. assert (exists g0, gs !! i = Some g0 /\ gm_guard_key g0 = gm_guard_key g) as (g0 & Hg0 & Eg).
  { assert (map gm_guard_key (level_of (v_guards v) level) !! i = Some (gm_guard_key g)) as E1 by (rewrite list_lookup_fmap, Hi; done).
    rewrite Ek, list_lookup_fmap in E1. destruct (gs !! i) as [g0|]; [|done]. exists g0. split; [done|]. by injection E1. }
  destruct (populated_from gs (level_of (v_files v) level) i g0 (S k) Hfresh Hnd Hg0) as (n & Hn & E); [by apply lookup_lt_Some in Hk|by rewrite Eg|].
  rewrite <- Ep in E. cbn [fst] in E. unfold part_of in Hin. destruct (guard_slot _ _ _) as [|j]; [lia|].
  destruct (level_of (v_guards v) level !! j) as [h|] eqn:Ej; [|by apply elem_of_nil in Hin]. apply subseteq_take in Hin.
  assert (f ∈ drop n (level_of (v_files v) level)) as Hd.
  { rewrite <- E. apply list_elem_of_In, in_concat. exists (gm_file_metas h). split; [|by apply list_elem_of_In]. apply in_map, list_elem_of_In, list_elem_of_lookup.
    exists (j - i)%nat. rewrite lookup_drop. by replace (i + (j - i))%nat with j by lia. }
  apply list_elem_of_lookup in Hd as [x Hx]. rewrite lookup_drop in Hx.
  assert (k = (n + x)%nat); [|lia]. eapply (NoDup_lookup (map fm_number (level_of (v_files v) level)) k (n + x) (fm_number f)); [done|..]; rewrite list_lookup_fmap; by rewrite ?Hk, ?Hx.
Qed.
End SavedParts.

(** ** Properties *)

(** C30. The versions the builder saves keep files where reads look for them: if
    in a saved level every file lies in one part (its largest key on the same
    side of each guard key as internal key and as user key) and file numbers
    are distinct, then a lookup of any user key in the range of a file searches
    a part that has the file, and every part holds files of the level only. *)
Theorem saved_version_serves_lookups (ucmp : Comparator) (b : Builder) (edit : option VersionEdit) (level : nat) (u : bytes)
    (Hucmp : ComparatorOk ucmp all_keys) (Hb : builder_ok (ucmp := ucmp) b)
    (Hfits : Forall (file_fits (ucmp := ucmp) (level_of (v_guards (fst (SaveTo ucmp b edit))) level))
      (level_of (v_files (fst (SaveTo ucmp b edit))) level))
    (Hnd : NoDup (map fm_number (level_of (v_files (fst (SaveTo ucmp b edit))) level))) :
  let v := fst (SaveTo ucmp b edit) in
  (forall f, f ∈ part_of ucmp v level u -> f ∈ level_of (v_files v) level) /\
  (forall f, f ∈ level_of (v_files v) level -> Compare ucmp (file_start f) u <= 0 -> Compare ucmp u (file_limit f) <= 0 ->
     f ∈ part_of ucmp v level u).
Proof.
  intros v. destruct (saved_level_populated (ucmp := ucmp) b edit level Hb) as (gs & Hgs & Hfresh & Ek & Ep).
  fold v in Hfits, Hnd, Ek, Ep. split; [by eapply part_of_populated|]. intros f Hf Hu1 Hu2.
  destruct (populate_serves_lookups ucmp gs (level_of (v_files v) level) f u) as [_ H]; try done.
  - eapply Forall_impl; [exact Hfits|]. intros g. by apply file_fits_keys.
  - by destruct (SaveTo_ok (ucmp := ucmp) b edit Hb level).
  - rewrite <- Ep in H. simpl in H. unfold part_of. destruct (guard_slot ucmp _ u) as [|i]; [done|].
    by destruct H as (g & -> & ? & _).
Qed.

Lemma saved_version_serves_lookups_witness :
  let v := fst (SaveTo BytewiseComparator (Apply BytewiseComparator example_files_edit (new_Builder [] new_Version)) None) in
  Forall (fun f => Compare BytewiseComparator (file_start f) [Byte.x66] <= 0 ->
    Compare BytewiseComparator [Byte.x66] (file_limit f) <= 0 -> f ∈ part_of BytewiseComparator v 1 [Byte.x66])
    (level_of (v_files v) 1).
Proof.
  apply Forall_forall, (saved_version_serves_lookups BytewiseComparator
    (Apply BytewiseComparator example_files_edit (new_Builder [] new_Version)) None 1 [Byte.x66]).
  - apply BytewiseComparator_ok.
  - apply Apply_ok, new_Builder_ok, new_Version_ok. apply BytewiseComparator_ok.
  - repeat constructor; vm_compute; congruence.
  - vm_compute. repeat constructor; intros H; repeat (apply elem_of_cons in H as [H|H]; [discriminate H|]);
      by apply elem_of_nil in H.
Defined.

(** Version::Get reports the newest entry that the snapshot sees. *)
Lemma Version_Get_ok (ucmp : Comparator) (table_cache_Get : TableReader)
    (file_level_bloom_filter : Z -> option bytes) (filter_policy : FilterPolicy) (contents : FileMetaData -> list entry)
    (v : Version) (u : bytes) (s : Z) (value0 : bytes)
    (Hucmp : ComparatorOk ucmp all_keys) (Hs : 0 <= s <= kMaxSequenceNumber)
    (Hv : readable ucmp table_cache_Get file_level_bloom_filter filter_policy contents v) :
  exists status st,
    Version_Get ucmp table_cache_Get file_level_bloom_filter filter_policy v (mkLookupKey u s) value0
      = Some (status, st) /\
    ((exists e, newest_seen ucmp contents v u s e /\ reports e value0 status (g_value st)) \/
     ((forall e, version_entry contents v e -> ~ seen ucmp u s e) /\ status = NotFound [] /\ g_value st = value0)).
Proof.
  unfold Version_Get. rewrite internal_key_mkLookupKey, lk_user_key_mkLookupKey by done.
  match goal with |- context [get_levels _ _ _ _ _ _ _ _ _ ?st0] =>
    destruct (get_levels_outcome (ucmp := ucmp) table_cache_Get file_level_bloom_filter filter_policy contents u s v Hv
      (Z.to_nat kNumLevels) 0 st0) as (status & st & E & H) end.
  - lia.
  - reflexivity.
  - exists status, st. split; [exact E|exact H].
Qed.

(** C2. Version::Get: in a version whose files are placed where lookups search
    them, with filters that let their keys through and with newer entries in
    lower levels and larger file numbers, a lookup of user key [u] at snapshot
    [s] always ends; it reports the newest entry of the whole version with
    that user key and a sequence number at most [s] (its value, or NotFound
    for a deletion), and NotFound exactly when there is no such entry. *)
Theorem version_get_newest (ucmp : Comparator) (table_cache_Get : TableReader)
    (file_level_bloom_filter : Z -> option bytes) (filter_policy : FilterPolicy) (contents : FileMetaData -> list entry)
    (v : Version) (u : bytes) (s : Z) (value0 : bytes)
    (Hucmp : ComparatorOk ucmp all_keys) (Hs : 0 <= s <= kMaxSequenceNumber)
    (Hv : readable ucmp table_cache_Get file_level_bloom_filter filter_policy contents v) :
  exists status st,
    Version_Get ucmp table_cache_Get file_level_bloom_filter filter_policy v (mkLookupKey u s) value0
      = Some (status, st) /\
    ((exists e, newest_seen ucmp contents v u s e /\ reports e value0 status (g_value st)) \/
     ((forall e, version_entry contents v e -> ~ seen ucmp u s e) /\ status = NotFound [] /\ g_value st = value0)).
Proof. by apply Version_Get_ok. Qed.

(** A version with the file 7 in level 1, which holds d at sequence 9. *)
Definition entry_d9 : entry := (InternalKey [Byte.x64] 9 kTypeValue, [Byte.x76]).
Definition file_7 : FileMetaData := file_meta 7 100 (fst entry_d9) (fst entry_d9).
Definition contents_7 (f : FileMetaData) : list entry := if fm_number f =? 7 then [entry_d9] else [].
Definition reader_7 : TableReader := fun number _ k =>
  (OK, if number =? 7 then
         if bool_decide (0 <= Compare (InternalKeyComparator BytewiseComparator) (fst entry_d9) k) then Some entry_d9
         else None
       else None).
Definition version_7 : Version :=
  {| v_files := [[]; [file_7]]; v_guards := []; v_complete_guards := []; v_sentinel_files := [[]; [file_7]];
     v_num_complete_guards := [] |}.

Lemma version_7_file level f : f ∈ level_of [[]; [file_7]] level -> level = 1%nat /\ f = file_7.
Proof.
  destruct level as [|[|level]]; simpl; try (intros H; by apply elem_of_nil in H).
  unfold level_of. simpl. intros H. by apply list_elem_of_singleton in H.
Qed.

Lemma version_7_readable :
  readable BytewiseComparator reader_7 (fun _ => None) (BloomFilterPolicy 10) contents_7 version_7.
Proof.
  assert (forall level u, part_of BytewiseComparator version_7 level u = level_of [[]; [file_7]] level) as Hpart.
  { intros level u. unfold part_of. by assert (level_of (v_guards version_7) level = []) as ->. }
  assert (forall e, e ∈ contents_7 file_7 -> e = entry_d9) as Hd by (intros e He; by apply list_elem_of_singleton in He).
  split.
  - intros level. split; [by intros ? ? ? ? _ ?|done].
  - intros level f [_ ->]%version_7_file. split; [|split; [|by intros e k]].
    + split.
      * intros [|i] [|j] a b Hij Ha Hb; try lia; done.
      * repeat constructor. exists [Byte.x64], 9, kTypeValue. split; [done|]. split; vm_compute; split; discriminate.
      * repeat constructor; vm_compute; discriminate.
    + intros k Hk. eexists. split; [reflexivity|]. left. unfold seek_entry, seek_pos, contents_7. simpl.
      rewrite decide_bool_decide. by destruct (bool_decide _).
  - by intros level f g [_ ->]%version_7_file [_ ->]%version_7_file _.
  - intros level u f. by rewrite Hpart.
  - intros level u f Hf _ _. by rewrite Hpart.
  - intros lf lg f g a b [-> ->]%version_7_file [-> ->]%version_7_file. lia.
Qed.

Lemma version_get_newest_witness :
  exists status st,
    Version_Get BytewiseComparator reader_7 (fun _ => None) (BloomFilterPolicy 10) version_7
      (mkLookupKey [Byte.x64] 10) [] = Some (status, st) /\ status = OK /\ g_value st = [Byte.x76].
Proof.
  destruct (version_get_newest BytewiseComparator reader_7 (fun _ => None) (BloomFilterPolicy 10) contents_7 version_7
    [Byte.x64] 10 []) as (status & st & E & _).
  - apply BytewiseComparator_ok.
  - vm_compute. split; discriminate.
  - apply version_7_readable.
  - exists status, st. split; [exact E|]. vm_compute in E. injection E as <- <-. split; reflexivity.
Defined.

(** C31. Where the builder and the lookups disagree.  In a saved level with
    distinct file numbers, take a guard and a file whose largest key has the
    guard's user key but sorts before the guard key as an internal key (its
    sequence number is larger), as do the largest keys of the files before it in
    the level.  Then the part of the level that lookups of that user key search
    does not have the file, though the file's range ends with that user key. *)
Theorem file_before_guard_not_searched (ucmp : Comparator) (b : Builder) (edit : option VersionEdit) (level k i : nat) (f : FileMetaData) (g : GuardMetaData)
    (Hucmp : ComparatorOk ucmp all_keys) (Hb : builder_ok (ucmp := ucmp) b) :
  let v := fst (SaveTo ucmp b edit) in
  NoDup (map fm_number (level_of (v_files v) level)) ->
  level_of (v_files v) level !! k = Some f -> level_of (v_guards v) level !! i = Some g -> file_limit f = guard_ukey g ->
  Forall (fun f' => Compare (InternalKeyComparator ucmp) (fm_largest f') (gm_guard_key g) < 0) (take (S k) (level_of (v_files v) level)) ->
  f ∉ part_of ucmp v level (file_limit f).
Proof.
  intros v Hnd Hk Hi Hu Hall. destruct (saved_level_populated (ucmp := ucmp) b edit level Hb) as (gs & Hgs & Hfresh & Ek & Ep). fold v in Ek, Ep.
  eapply (not_in_part v level gs k i f g); try done. apply (guard_slot_lookup (ucmp := ucmp) _ _ i g); [by eapply guards_sorted_keys|done|].
  rewrite Hu, (cmp_refl (dom := all_keys)) by done. done.
Qed.

Definition guard_d_edit : VersionEdit :=
  AddGuard (AddFile new_VersionEdit 1 7 100 (fst entry_d9) (fst entry_d9)) 1 (InternalKey [Byte.x64] 5 kTypeGuard).

Definition guard_d_builder : Builder := Apply BytewiseComparator guard_d_edit (new_Builder [] new_Version).
Definition guard_d_file : FileMetaData := nth 0 (level_of (v_files (fst (SaveTo BytewiseComparator guard_d_builder None))) 1) new_FileMetaData.
Definition guard_d : GuardMetaData := nth 0 (level_of (v_guards (fst (SaveTo BytewiseComparator guard_d_builder None))) 1) new_GuardMetaData.

Lemma file_before_guard_not_searched_witness : file_limit guard_d_file = [Byte.x64] /\
  guard_d_file ∉ part_of BytewiseComparator (fst (SaveTo BytewiseComparator guard_d_builder None)) 1 (file_limit guard_d_file).
Proof.
  split; [reflexivity|]. apply (file_before_guard_not_searched BytewiseComparator guard_d_builder None 1 0 0 guard_d_file guard_d).
  - apply BytewiseComparator_ok.
  - apply Apply_ok, new_Builder_ok, new_Version_ok. apply BytewiseComparator_ok.
  - vm_compute. repeat constructor. intros H. by apply elem_of_nil in H.
  - vm_compute. reflexivity.
  - vm_compute. reflexivity.
  - vm_compute. reflexivity.
  - vm_compute. repeat constructor.
Defined.

(** So after an edit that adds the guard d (sequence 5) and a file with the single
    entry d (sequence 9) to level 1, the version holds the entry and a read of d
    reports NotFound. *)
Theorem guard_key_file_not_found :
  let v := apply_edits BytewiseComparator [] new_Version [guard_d_edit] None in
  (exists f, f ∈ level_of (v_files v) 1 /\ contents_7 f = [entry_d9]) /\
  exists st,
    Version_Get BytewiseComparator reader_7 (fun _ => None) (BloomFilterPolicy 10) v (mkLookupKey [Byte.x64] 10) []
    = Some (NotFound [], st).
Proof.
  cbv zeta. split.
  - eexists. split; [apply list_elem_of_here|vm_compute; reflexivity].
  - eexists. vm_compute. reflexivity.
Qed.
