(* ===== verification/LevelIter.v ===== *)
(** * Iterators over a level (db/version_set.cc)

    A level is walked by a two-level iterator: LevelGuardNumIterator goes over
    the parts of the level (the sentinel files, then the guards) and names the
    files of each, and GetGuardIterator merges the tables of these files.  The
    table cache is an interface: an iterator per table file. *)

From Stdlib Require Import ZArith Lia Bool.
From Stdlib Require Import Strings.String.
From stdpp Require Import base list sorting.
From S2P Require Import Prelude Coding Comparator DbFormat Status Iterator Merger TwoLevel VersionEdit Guards VersionBuilder VersionBuilderSpec.

Set Default Goal Selector "!".
Local Open Scope Z_scope.
#[local] Arguments Compare : simpl never.

(** ** LevelGuardNumIterator *)

(** [lg_index]: -1 is the sentinel, [len glist] and what is below -1 are not valid. *)
Record LevelGuardNumIterator := {
  lg_glist : list GuardMetaData;
  lg_sentinel_list : list FileMetaData;
  lg_index : Z;
  lg_number : Z;
}.

Definition new_LevelGuardNumIterator (glist : list GuardMetaData) (sentinel_list : list FileMetaData) (num : Z) : LevelGuardNumIterator :=
  {| lg_glist := glist; lg_sentinel_list := sentinel_list; lg_index := len glist; lg_number := num |}.

Definition with_lg_index (it : LevelGuardNumIterator) (index : Z) : LevelGuardNumIterator :=
  {| lg_glist := lg_glist it; lg_sentinel_list := lg_sentinel_list it; lg_index := index; lg_number := lg_number it |}.

(** The number and size of the files of a part, as the loops over it see them. *)
Definition sentinel_pairs (files : list FileMetaData) : list (Z * Z) := map (fun f => (fm_number f, fm_file_size f)) files.
Definition guard_pairs (g : GuardMetaData) : list (Z * Z) :=
  take (Z.to_nat (gm_number_segments g)) (zip (gm_files g) (map fm_file_size (gm_file_metas g))).

(** Files with a number past [number]. *)
Definition newer_files (number : Z) (pairs : list (Z * Z)) : list (Z * Z) := List.filter (fun p => number <? fst p) pairs.
Definition has_newer (number : Z) (numbers : list Z) : bool := existsb (fun n => number <? n) numbers.

Definition sentinel_has (it : LevelGuardNumIterator) : bool := has_newer (lg_number it) (map fm_number (lg_sentinel_list it)).
Definition guard_has (it : LevelGuardNumIterator) (g : GuardMetaData) : bool :=
  has_newer (lg_number it) (take (Z.to_nat (gm_number_segments g)) (gm_files g)).

(** while (index_ < glist_->size()); [gs] are the guards from [index] on. *)
Fixpoint bump_guards (it : LevelGuardNumIterator) (gs : list GuardMetaData) (index : Z) : Z :=
  match gs with
  | [] => index
  | g :: gs => if guard_has it g then index else bump_guards it gs (index + 1)
  end.

Definition Bump (it : LevelGuardNumIterator) : LevelGuardNumIterator :=
  if lg_index it =? -1 then
    if sentinel_has it then it else with_lg_index it (bump_guards it (lg_glist it) 0)
  else with_lg_index it (bump_guards it (drop (Z.to_nat (lg_index it)) (lg_glist it)) (lg_index it)).

(** while (index_ >= -1) with [index_ = k - 1]. *)
Fixpoint bump_reverse (it : LevelGuardNumIterator) (k : nat) : Z :=
  match k with
  | O => if sentinel_has it then -1 else -2
  | S k => match lg_glist it !! k with
           | Some g => if guard_has it g then Z.of_nat k else bump_reverse it k
           | None => bump_reverse it k
           end
  end.

Definition BumpReverse (it : LevelGuardNumIterator) : LevelGuardNumIterator :=
  if -1 <=? lg_index it then with_lg_index it (bump_reverse it (Z.to_nat (lg_index it + 1))) else it.

Definition lg_Valid (it : LevelGuardNumIterator) : bool := (lg_index it <? len (lg_glist it)) && (-1 <=? lg_index it).

Definition lg_SeekToFirst (it : LevelGuardNumIterator) : LevelGuardNumIterator := Bump (with_lg_index it (-1)).
Definition lg_SeekToLast (it : LevelGuardNumIterator) : LevelGuardNumIterator := BumpReverse (with_lg_index it (len (lg_glist it) - 1)).

(** The part of the target: -1 before the first guard. *)
Definition seek_index (ucmp : Comparator) (glist : list GuardMetaData) (target : bytes) : option Z :=
  if len glist =? 0 then Some (-1)
  else
    index ← FindGuard ucmp glist target;
    if index =? 0 then
      g ← glist !! 0%nat;
      let parsed_key := snd (ParseInternalKey target ParsedInternalKey_default) in
      Some (if Compare ucmp (user_key parsed_key) (guard_ukey g) <? 0 then -1 else index)
    else Some index.

Definition lg_Seek (ucmp : Comparator) (target : bytes) (it : LevelGuardNumIterator) : option LevelGuardNumIterator :=
  index ← seek_index ucmp (lg_glist it) target; Some (Bump (with_lg_index it index)).

Definition lg_Next (it : LevelGuardNumIterator) : option LevelGuardNumIterator :=
  if lg_Valid it then Some (Bump (with_lg_index it (lg_index it + 1))) else None.

Definition lg_Prev (it : LevelGuardNumIterator) : option LevelGuardNumIterator :=
  if lg_Valid it && (lg_number it =? 0) then
    Some (if lg_index it =? -1 then with_lg_index it (len (lg_glist it)) else BumpReverse (with_lg_index it (lg_index it - 1)))
  else None.

(** The largest of the sentinel files' largest keys. *)
Definition sentinel_largest (ucmp : Comparator) (files : list FileMetaData) : bytes :=
  match files with
  | [] => []
  | f :: files =>
      fold_left (fun largest f => if 0 <? Compare (InternalKeyComparator ucmp) (fm_largest f) largest then fm_largest f else largest) files (fm_largest f)
  end.

Definition lg_key (ucmp : Comparator) (it : LevelGuardNumIterator) : bytes :=
  if lg_index it =? -1 then sentinel_largest ucmp (lg_sentinel_list it)
  else match lg_glist it !! Z.to_nat (lg_index it) with Some g => gm_largest g | None => [] end.

Definition encode_files (pairs : list (Z * Z)) : bytes :=
  EncodeFixed64 (len pairs) ++ concat (map (fun p => EncodeFixed64 (fst p) ++ EncodeFixed64 (snd p)) pairs).

(** The bytes of value(); the code writes them to a buffer of 16384. *)
Definition lg_value (it : LevelGuardNumIterator) : bytes :=
  encode_files (newer_files (lg_number it)
    (if lg_index it =? -1 then sentinel_pairs (lg_sentinel_list it)
     else match lg_glist it !! Z.to_nat (lg_index it) with Some g => guard_pairs g | None => [] end)).

Definition value_buf_size : Z := 16384.

Definition LevelGuardNum (ucmp : Comparator) : IterOps := {|
  St := LevelGuardNumIterator;
  Valid := lg_Valid;
  SeekToFirst it := Some (lg_SeekToFirst it);
  SeekToLast it := Some (lg_SeekToLast it);
  Seek := lg_Seek ucmp;
  Next := lg_Next;
  Prev := lg_Prev;
  Iterator.key := lg_key ucmp;
  Iterator.value := lg_value;
  Iterator.status _ := OK;
|}.

(** ** GetGuardIterator *)

(** The files named by [file_values]; [None]: an assert fails. *)
Fixpoint decode_pairs (n : nat) (data : bytes) : list (Z * Z) :=
  match n with
  | O => []
  | S n => (DecodeFixed64 data, DecodeFixed64 (drop 8 data)) :: decode_pairs n (drop 16 data)
  end.

Definition files_of_value (file_values : bytes) : option (list (Z * Z)) :=
  let num_files := (len file_values - 8) / 16 in
  if (0 <? num_files) && (num_files =? DecodeFixed64 file_values) then Some (decode_pairs (Z.to_nat num_files) (drop 8 file_values)) else None.

Section Level.
Context `{!StdHeap} (ucmp : Comparator).
Notation icmp := (InternalKeyComparator ucmp).
(** TableCache::NewIterator *)
Context (T : IterOps) (table_NewIterator : Z -> Z -> St T).

(** GetGuardIteratorSeq: NewMergingIteratorForFiles differs from
    NewMergingIterator only in its timers.  After a failed assert there is no
    iterator; the model then has one without entries. *)
Definition GetGuardIterator (file_values : bytes) : St (Merged icmp T) :=
  NewMergingIterator icmp T (map (fun p => table_NewIterator (fst p) (snd p)) (default [] (files_of_value file_values))).

Definition LevelIterator (fuel : nat) : IterOps :=
  TwoLevelGuards (LevelGuardNum ucmp) (Merged icmp T) unit (fun _ => GetGuardIterator) tt fuel.

Definition NewConcatenatingIterator (v : Version) (level : nat) (num : Z) : TwoLevelIterator (LevelGuardNum ucmp) (Merged icmp T) :=
  new_TwoLevelIterator (LevelGuardNum ucmp) (Merged icmp T)
    (new_LevelGuardNumIterator (level_of (v_guards v) level) (level_of (v_sentinel_files v) level) num).

Definition AddSomeIteratorsGuards (v : Version) (num : Z) : list (TwoLevelIterator (LevelGuardNum ucmp) (Merged icmp T)) :=
  map (fun level => NewConcatenatingIterator v level num)
    (List.filter (fun level => negb (len (level_of (v_files v) level) =? 0)) (seq 0 (Z.to_nat kNumLevels))).
End Level.

(** ** The parts of a level *)
Lemma filter_app_take {A} (P : A -> bool) (l : list A) i x : l !! i = Some x -> P x = true ->
  List.filter P l !! length (List.filter P (take i l)) = Some x.
Proof.
  intros Hi Hp. pose proof (take_drop_middle l i x Hi) as E. apply (f_equal (List.filter P)) in E. rewrite List.filter_app in E. cbn [List.filter] in E.
  rewrite Hp in E. rewrite <- E. by rewrite lookup_app_r, Nat.sub_diag by lia.
Qed.

Definition nonempty {A} (l : list A) : bool := match l with [] => false | _ :: _ => true end.

(** The files a guard names are those it has the meta data of. *)
Definition guard_listed (g : GuardMetaData) : Prop := take (Z.to_nat (gm_number_segments g)) (gm_files g) = map fm_number (guard_files g).

Lemma take_zip {A B} n : forall (l : list A) (k : list B), take n (zip l k) = zip (take n l) (take n k).
Proof. induction n as [|n IH]; intros [|a l] [|b k]; try done. cbn [take zip zip_with]. f_equal. apply IH. Qed.

Lemma guard_pairs_listed g : guard_listed g -> guard_pairs g = sentinel_pairs (guard_files g).
Proof.
  intros H. unfold guard_pairs. rewrite take_zip, H, <- fmap_take. fold (guard_files g). unfold sentinel_pairs. clear H.
  induction (guard_files g) as [|f fs IH]; [done|]. cbn [map zip zip_with fmap list_fmap]. f_equal. exact IH.
Qed.

Section Parts.
Context (ucmp : Comparator) `{Hucmp : !ComparatorOk ucmp all_keys}.
Notation icmp := (InternalKeyComparator ucmp).
Context (guards : list GuardMetaData) (sentinels : list FileMetaData).
Context (Hsorted : guards_sorted ucmp guards) (Hlen : len guards < 2 ^ 31).
Context (Hlisted : Forall guard_listed guards).

Definition parts : list (list FileMetaData) := sentinels :: map guard_files guards.
Context (Hnumbers : forall fs f, fs ∈ parts -> f ∈ fs -> 0 < fm_number f).
Notation n := (length guards).

Definition cnt (i : nat) : nat := length (List.filter nonempty (take i parts)).
Definition part_handles : list bytes := map (fun fs => encode_files (sentinel_pairs fs)) (List.filter nonempty parts).
(** The first part with files from [i] on. *)
Definition pos_from (i : nat) : pos := if decide (cnt i < cnt (S n))%nat then Some (cnt i) else None.

Definition lg_rel (it : LevelGuardNumIterator) (p : pos) : Prop :=
  lg_glist it = guards /\ lg_sentinel_list it = sentinels /\ lg_number it = 0 /\
  match p with
  | Some k => exists i fs, lg_index it = Z.of_nat i - 1 /\ parts !! i = Some fs /\ nonempty fs = true /\ k = cnt i
  | None => lg_Valid it = false
  end.

Lemma length_parts : length parts = S n.
Proof. unfold parts. simpl. by rewrite length_map. Qed.

Lemma cnt_S i fs : parts !! i = Some fs -> cnt (S i) = (cnt i + if nonempty fs then 1 else 0)%nat.
Proof. intros Hi. unfold cnt. rewrite (take_S_r _ _ _ Hi), List.filter_app, length_app. cbn [List.filter]. destruct (nonempty fs); simpl; lia. Qed.

Lemma cnt_mono i j : (i <= j)%nat -> (cnt i <= cnt j)%nat.
Proof.
  intros H. unfold cnt. rewrite <- (take_drop i (take j parts)), List.filter_app, length_app, take_take. rewrite Nat.min_l by lia. lia.
Qed.

Lemma cnt_all : cnt (S n) = length part_handles.
Proof. unfold cnt, part_handles. rewrite take_ge by (rewrite length_parts; lia). by rewrite length_map. Qed.

Lemma has_newer_nonempty fs : fs ∈ parts -> has_newer 0 (map fm_number fs) = nonempty fs.
Proof.
  intros Hfs. destruct fs as [|f fs]; [done|]. cbn [map has_newer existsb nonempty]. rewrite (proj2 (Z.ltb_lt _ _)); [done|]. apply (Hnumbers (f :: fs)); [done|left].
Qed.

Lemma newer_all fs : fs ∈ parts -> newer_files 0 (sentinel_pairs fs) = sentinel_pairs fs.
Proof.
  intros Hfs. unfold newer_files. assert (forall f, f ∈ fs -> 0 < fm_number f) as H by (intros f; by apply Hnumbers). clear Hfs.
  induction fs as [|f fs IH]; [done|]. cbn [sentinel_pairs map List.filter fst]. rewrite (proj2 (Z.ltb_lt _ _)) by (apply H; left).
  f_equal. apply IH. intros g Hg. apply H. by right.
Qed.

Definition of_level (it : LevelGuardNumIterator) : Prop := lg_glist it = guards /\ lg_sentinel_list it = sentinels /\ lg_number it = 0.

Lemma guard_part i g : guards !! i = Some g -> parts !! S i = Some (guard_files g).
Proof. intros Hi. unfold parts. simpl. by rewrite list_lookup_fmap, Hi. Qed.

Lemma guard_has_spec it i g : of_level it -> guards !! i = Some g -> guard_has it g = nonempty (guard_files g).
Proof.
  intros (_ & _ & E) Hi. unfold guard_has. rewrite E, (Forall_lookup_1 _ _ _ _ Hlisted Hi).
  apply has_newer_nonempty. eapply list_elem_of_lookup_2. by apply guard_part.
Qed.

Lemma sentinel_has_spec it : of_level it -> sentinel_has it = nonempty sentinels.
Proof. intros (_ & E1 & E2). unfold sentinel_has. rewrite E1, E2. apply has_newer_nonempty. left. Qed.

(** Where a search for a part with files, from [i] on, ends. *)
Lemma land it i j : of_level it -> (i <= j)%nat -> cnt j = cnt i ->
  (j = S n \/ exists fs, parts !! j = Some fs /\ nonempty fs = true) -> lg_rel (with_lg_index it (Z.of_nat j - 1)) (pos_from i).
Proof.
  intros (E1 & E2 & E3) Hij Hc Hj. unfold lg_rel, pos_from. cbn [with_lg_index lg_glist lg_sentinel_list lg_number lg_index]. split; [done|]. split; [done|]. split; [done|].
  destruct Hj as [->|(fs & Hfs & Hne)].
  - rewrite decide_False by lia. unfold lg_Valid. cbn [with_lg_index lg_index lg_glist]. rewrite E1. unfold len.
    by rewrite (proj2 (Z.ltb_ge _ _)) by lia.
  - pose proof (cnt_S j fs Hfs) as Hs. rewrite Hne in Hs. pose proof (lookup_lt_Some _ _ _ Hfs) as Hlt. rewrite length_parts in Hlt.
    pose proof (cnt_mono (S j) (S n) ltac:(lia)). rewrite decide_True by lia. exists j, fs. done.
Qed.

Lemma bump_guards_ok it : of_level it -> forall gs i, drop i guards = gs -> (i <= n)%nat ->
  exists j, bump_guards it gs (Z.of_nat i) = Z.of_nat j /\ (i <= j)%nat /\ cnt (S j) = cnt (S i) /\
    (S j = S n \/ exists fs, parts !! S j = Some fs /\ nonempty fs = true).
Proof.
  intros Hit. induction gs as [|g gs IH]; intros i Hd Hi; cbn [bump_guards].
  - exists i. split; [done|]. split; [done|]. split; [done|]. left. apply (f_equal length) in Hd. rewrite length_drop in Hd. simpl in Hd. lia.
  - assert (guards !! i = Some g) as Hg by (rewrite <- (Nat.add_0_r i), <- lookup_drop, Hd; done). rewrite (guard_has_spec it i g Hit Hg).
    pose proof (lookup_lt_Some _ _ _ Hg). destruct (nonempty (guard_files g)) eqn:En.
    + exists i. split; [done|]. split; [done|]. split; [done|]. right. exists (guard_files g). split; [by apply guard_part|done].
    + destruct (IH (S i)) as (j & E & Hij & Hc & Hj); [replace (S i) with (i + 1)%nat by lia; by rewrite <- drop_drop, Hd|lia|].
      exists j. rewrite Z.add_1_r, <- Nat2Z.inj_succ, E. split; [done|]. split; [lia|]. split; [|done].
      rewrite Hc, (cnt_S (S i) _ (guard_part i g Hg)), En. lia.
Qed.

Lemma Bump_ok it i : of_level it -> (i <= S n)%nat -> lg_rel (Bump (with_lg_index it (Z.of_nat i - 1))) (pos_from i).
Proof.
  intros Hit Hi. assert (forall idx, of_level (with_lg_index it idx)) as Hit' by (by intros idx). unfold Bump.
  destruct i as [|i]; cbn [with_lg_index lg_index lg_glist].
  - change (Z.of_nat 0 - 1 =? -1) with true. cbv iota. rewrite sentinel_has_spec by done. destruct (nonempty sentinels) eqn:En.
    + apply (land it 0 0); [done|lia|done|]. right. by exists sentinels.
    + rewrite (proj1 Hit). destruct (bump_guards_ok (with_lg_index it (Z.of_nat 0 - 1)) (Hit' _) guards 0) as (j & E & Hij & Hc & Hj); [done|lia|].
      change (Z.of_nat 0) with 0 in E at 2. rewrite E. replace (Z.of_nat j) with (Z.of_nat (S j) - 1) by lia.
      apply (land (with_lg_index it (Z.of_nat 0 - 1)) 0 (S j)); [done|lia| |done]. rewrite Hc, (cnt_S 0 sentinels eq_refl), En. lia.
  - rewrite (proj2 (Z.eqb_neq _ _)) by lia. replace (Z.of_nat (S i) - 1) with (Z.of_nat i) by lia. rewrite Nat2Z.id, (proj1 Hit).
    destruct (bump_guards_ok (with_lg_index it (Z.of_nat i)) (Hit' _) (drop i guards) i) as (j & E & Hij & Hc & Hj); [done|lia|].
    rewrite E. replace (Z.of_nat j) with (Z.of_nat (S j) - 1) by lia. apply (land (with_lg_index it (Z.of_nat i)) (S i) (S j)); [done|lia|done|done].
Qed.

Lemma bump_reverse_ok it : of_level it -> forall k, (k <= n)%nat -> lg_rel (with_lg_index it (bump_reverse it k)) (prev_pos (cnt (S k))).
Proof.
  intros Hit. pose proof Hit as (E1 & E2 & E3). assert (forall i fs, parts !! i = Some fs -> nonempty fs = true -> lg_rel (with_lg_index it (Z.of_nat i - 1)) (Some (cnt i))) as Hat.
  { intros i fs Hi Hne. split; [done|]. split; [done|]. split; [done|]. by exists i, fs. }
  induction k as [|k IH]; intros Hk; cbn [bump_reverse].
  - rewrite (cnt_S 0 sentinels eq_refl), sentinel_has_spec by done. destruct (nonempty sentinels) eqn:En; cbn [prev_pos].
    + by apply (Hat 0%nat sentinels).
    + split; [done|]. split; [done|]. split; [done|]. unfold lg_Valid. cbn [with_lg_index lg_index]. by rewrite andb_false_r.
  - destruct (lookup_lt_is_Some_2 guards k ltac:(lia)) as [g Hg]. rewrite E1, Hg, (guard_has_spec it k g Hit Hg), (cnt_S (S k) _ (guard_part k g Hg)).
    destruct (nonempty (guard_files g)) eqn:En.
    + rewrite Nat.add_1_r. cbn [prev_pos]. replace (Z.of_nat k) with (Z.of_nat (S k) - 1) by lia. eapply Hat; [by apply guard_part|done].
    + rewrite Nat.add_0_r. apply IH. lia.
Qed.

Lemma seek_index_slot target : is_ikey target -> seek_index ucmp guards target = Some (Z.of_nat (guard_slot ucmp guards (ExtractUserKey target)) - 1).
Proof.
  intros Hk. unfold seek_index. destruct (Z.eqb_spec (len guards) 0) as [E|E].
  { apply len_0_nil in E as ->. done. }
  rewrite FindGuard_slot by done. cbn [mbind option_bind]. destruct guards as [|g gs] eqn:Eg; [done|]. rewrite <- Eg.
  assert (user_key (snd (ParseInternalKey target ParsedInternalKey_default)) = ExtractUserKey target) as Eu.
  { unfold ParseInternalKey, is_ikey in *. destruct (Z.ltb_spec (len target) 8); [lia|]. done. }
  destruct (Z.eqb_spec (Z.of_nat (pred (guard_slot ucmp guards (ExtractUserKey target)))) 0) as [E0|E0]; [|f_equal; lia].
  rewrite Eg at 1. cbn [lookup list_lookup mbind option_bind]. cbv zeta. rewrite Eu. f_equal.
  assert (guard_slot ucmp guards (ExtractUserKey target) = 0%nat <-> Compare ucmp (ExtractUserKey target) (guard_ukey g) < 0) as Hs.
  { unfold guard_slot. rewrite Eg. cbn [prefix_len]. unfold guard_at_or_before at 1. destruct (Z.leb_spec 0 (Compare ucmp (ExtractUserKey target) (guard_ukey g))); split; intros; lia. }
  destruct (Z.ltb_spec (Compare ucmp (ExtractUserKey target) (guard_ukey g)) 0); lia.
Qed.

(** The guard iterator of a level is an index over its parts with files. *)
Lemma LevelGuardNum_ok : IndexOk (LevelGuardNum ucmp) is_ikey part_handles (fun target => pos_from (guard_slot ucmp guards (ExtractUserKey target))) lg_rel.
Proof.
  assert (forall it p, lg_rel it p -> of_level it) as Hof by (by intros it p (? & ? & ? & _)).
  assert (forall it i fs, of_level it -> lg_index it = Z.of_nat i - 1 -> parts !! i = Some fs -> lg_Valid it = true /\ (i < S n)%nat) as Hval.
  { intros it i fs (E1 & _) E Hi. pose proof (lookup_lt_Some _ _ _ Hi) as Hlt. rewrite length_parts in Hlt. split; [|done]. unfold lg_Valid. rewrite E, E1. unfold len.
    rewrite andb_true_iff, Z.ltb_lt, Z.leb_le. lia. }
  split; cbn [St Valid SeekToFirst SeekToLast Seek Next Prev Iterator.value Iterator.status LevelGuardNum].
  - intros it [k|] H; [|by destruct H as (_ & _ & _ & ?)]. pose proof (Hof _ _ H) as Hl. destruct H as (_ & _ & _ & i & fs & Ei & Hi & _ & _). by apply (Hval it i fs).
  - intros it k H. pose proof (Hof _ _ H) as (E1 & E2 & E3). destruct H as (_ & _ & _ & i & fs & Ei & Hi & Hne & ->). unfold part_handles.
    rewrite list_lookup_fmap. unfold cnt. rewrite (filter_app_take nonempty parts i fs Hi Hne). cbn [fmap option_fmap option_map]. f_equal.
    unfold lg_value. rewrite Ei, E1, E2, E3. destruct i as [|i].
    + change (Z.of_nat 0 - 1 =? -1) with true. cbv iota. injection Hi as <-. rewrite newer_all; [done|left].
    + rewrite (proj2 (Z.eqb_neq _ _)) by lia. replace (Z.to_nat (Z.of_nat (S i) - 1)) with i by lia. unfold parts in Hi. simpl in Hi. rewrite list_lookup_fmap in Hi.
      destruct (guards !! i) as [g|] eqn:Eg; [|done]. injection Hi as <-. rewrite (guard_pairs_listed g) by (by eapply Forall_lookup_1).
      rewrite newer_all; [done|]. eapply list_elem_of_lookup_2. by apply guard_part.
  - done.
  - intros it k H. pose proof (Hof _ _ H) as Hl. destruct H as (_ & _ & _ & i & fs & Ei & Hi & Hne & ->). destruct (Hval it i fs Hl Ei Hi) as [Hv Hlt].
    unfold lg_Next. rewrite Hv, Ei. eexists. split; [done|]. replace (Z.of_nat i - 1 + 1) with (Z.of_nat (S i) - 1) by lia.
    replace (next_pos (length part_handles) (cnt i)) with (pos_from (S i)); [apply Bump_ok; [done|lia]|].
    unfold pos_from, next_pos. rewrite cnt_all, (cnt_S i fs Hi), Hne, Nat.add_1_r. done.
  - intros it k H. pose proof (Hof _ _ H) as Hl. destruct H as (_ & _ & E3 & i & fs & Ei & Hi & Hne & ->). destruct (Hval it i fs Hl Ei Hi) as [Hv Hlt].
    unfold lg_Prev. rewrite Hv, E3, Ei. cbn [andb Z.eqb]. eexists. split; [done|]. destruct i as [|i].
    + change (Z.of_nat 0 - 1 =? -1) with true. cbv iota. destruct Hl as (H1 & H2 & H3). split; [done|]. split; [done|]. split; [done|].
      change (prev_pos (cnt 0)) with (@None nat). unfold lg_Valid. cbn [with_lg_index lg_index lg_glist]. by rewrite Z.ltb_irrefl.
    + rewrite (proj2 (Z.eqb_neq _ _)) by lia. unfold BumpReverse. cbn [with_lg_index lg_index]. rewrite (proj2 (Z.leb_le _ _)) by lia.
      replace (Z.to_nat (Z.of_nat (S i) - 1 - 1 + 1)) with i by lia.
      apply (bump_reverse_ok (with_lg_index it (Z.of_nat (S i) - 1 - 1))); [exact Hl|lia].
  - intros it p H. eexists. split; [done|]. replace (first_pos (length part_handles)) with (pos_from 0).
    + apply (Bump_ok it 0); [by eapply Hof|lia].
    + unfold pos_from, first_pos. rewrite cnt_all. change (cnt 0) with 0%nat. repeat case_decide; lia || done.
  - intros it p H. eexists. split; [done|]. pose proof (Hof _ _ H) as Hl. unfold lg_SeekToLast, BumpReverse. cbn [with_lg_index lg_index]. rewrite (proj1 Hl).
    rewrite (proj2 (Z.leb_le _ _)) by (unfold len; lia). replace (Z.to_nat (len guards - 1 + 1)) with n by (unfold len; lia).
    replace (last_pos (length part_handles)) with (prev_pos (cnt (S n))) by (rewrite cnt_all; by destruct (length part_handles)).
    apply (bump_reverse_ok (with_lg_index it (len guards - 1))); [exact Hl|lia].
  - intros it p target H Ht. pose proof (Hof _ _ H) as Hl. unfold lg_Seek. rewrite (proj1 Hl), (seek_index_slot target Ht). cbn [mbind option_bind]. eexists. split; [done|].
    apply Bump_ok; [done|]. pose proof (guard_slot_le (ucmp := ucmp) guards (ExtractUserKey target)). lia.
Qed.
End Parts.

(** ** Entries in order *)
Section Sorted.
Context (ucmp : Comparator) `{Hucmp : !ComparatorOk ucmp all_keys}.
Notation icmp := (InternalKeyComparator ucmp).

Definition key_le (a b : entry) : Prop := Compare icmp (fst a) (fst b) <= 0.
#[global] Instance key_le_dec a b : Decision (key_le a b).
Proof. unfold key_le. apply _. Defined.

#[global] Instance key_le_trans : Transitive key_le.
Proof. intros a b d. apply ikc_le_trans. Qed.

#[global] Instance key_le_total : Total key_le.
Proof. intros a b. unfold key_le. destruct (Z.le_gt_cases (Compare icmp (fst a) (fst b)) 0); [by left|right]. pose proof (proj2 (ikc_anti (ucmp := ucmp) (fst b) (fst a))). lia. Qed.

Definition sort_entries (l : list entry) : list entry := merge_sort key_le l.

Lemma sort_entries_perm l : sort_entries l ≡ₚ l.
Proof. apply merge_sort_Permutation. Qed.

(** Entries with distinct internal keys are sorted strictly. *)
Lemma sort_entries_sorted l : Forall (fun e => is_ikey (fst e)) l -> NoDup (map fst l) -> sorted_keys icmp (sort_entries l).
Proof.
  intros Hk Hnd. apply sorted_keys_strongly. assert (NoDup (map fst (sort_entries l))) as Hnd' by (by rewrite sort_entries_perm).
  assert (Forall (fun e => is_ikey (fst e)) (sort_entries l)) as Hk' by (by rewrite sort_entries_perm).
  pose proof (StronglySorted_merge_sort key_le l) as Hs. fold (sort_entries l) in Hs. clear Hk Hnd. induction Hs as [|a m Hs IH Hall]; [constructor|].
  cbn [map] in Hnd'. apply NoDup_cons in Hnd' as [Ha Hnd']. apply Forall_cons in Hk' as [Hka Hkm]. constructor; [by apply IH|].
  rewrite Forall_forall in Hall, Hkm |- *. intros b Hb. specialize (Hall b Hb). unfold key_le in Hall. specialize (Hkm b Hb).
  assert (Compare icmp (fst a) (fst b) <> 0); [|lia]. intros E. apply (ikc_eq (ucmp := ucmp)) in E; [|done..]. apply Ha. rewrite E. by apply list_elem_of_fmap_2.
Qed.
End Sorted.

(** ** The value of an index entry names its files *)
Lemma decode_pairs_ok pairs rest : Forall (fun p => 0 <= fst p < 2 ^ 64 /\ 0 <= snd p < 2 ^ 64) pairs ->
  decode_pairs (length pairs) (concat (map (fun p => EncodeFixed64 (fst p) ++ EncodeFixed64 (snd p)) pairs) ++ rest) = pairs.
Proof.
  induction 1 as [|[a b] pairs [Ha Hb] _ IH]; [done|]. cbn [length decode_pairs map concat fst snd] in *. rewrite <- !app_assoc, DecodeFixed64_EncodeFixed64, u64_small by done.
  assert (length (EncodeFixed64 a) = 8%nat /\ length (EncodeFixed64 b) = 8%nat) as [La Lb].
  { pose proof (len_EncodeFixed64 a). pose proof (len_EncodeFixed64 b). unfold len in *. lia. }
  rewrite drop_app_length' by done. rewrite DecodeFixed64_EncodeFixed64, u64_small by done.
  f_equal. rewrite app_assoc, drop_app_length' by (rewrite length_app; lia). exact IH.
Qed.

Lemma files_of_value_ok pairs : pairs <> [] -> len pairs < 2 ^ 64 -> Forall (fun p => 0 <= fst p < 2 ^ 64 /\ 0 <= snd p < 2 ^ 64) pairs ->
  files_of_value (encode_files pairs) = Some pairs.
Proof.
  intros Hne Hlen Hp. unfold files_of_value, encode_files.
  assert (len (concat (map (fun p => EncodeFixed64 (fst p) ++ EncodeFixed64 (snd p)) pairs)) = 16 * len pairs) as El.
  { clear. induction pairs as [|p pairs IH]; [done|]. cbn [map concat]. rewrite !len_app, !len_EncodeFixed64, len_cons, IH. lia. }
  rewrite len_app, len_EncodeFixed64, El. replace ((8 + 16 * len pairs - 8) / 16) with (len pairs) by (replace (8 + 16 * len pairs - 8) with (len pairs * 16) by lia; by rewrite Z.div_mul).
  assert (0 < len pairs) as Hpos by (destruct pairs; [done|unfold len; simpl; lia]).
  rewrite DecodeFixed64_EncodeFixed64, u64_small by lia. rewrite (proj2 (Z.ltb_lt _ _)) by done. rewrite Z.eqb_refl. cbn [andb]. f_equal.
  rewrite drop_app_length' by (pose proof (len_EncodeFixed64 (len pairs)); unfold len in *; lia).
  replace (Z.to_nat (len pairs)) with (length pairs) by (unfold len; lia). rewrite <- (app_nil_r (concat _)). by apply decode_pairs_ok.
Qed.

(** ** Iterators without their relation *)

(** [s] is at [p] of an Iterator over [l]. *)
Definition iterates (I : IterOps) (c : Comparator) (dom : bytes -> Prop) (l : list entry) (s : St I) (p : pos) : Prop :=
  exists R, IterOk I c dom l R /\ R s p.

Lemma iterates_ok I c dom l : IterOk I c dom l (iterates I c dom l).
Proof.
  split.
  - intros s p (R & H & Hs). by eapply io_valid.
  - intros s i (R & H & Hs). by eapply io_entry.
  - intros s p (R & H & Hs). by eapply io_status.
  - intros s i (R & H & Hs). destruct (io_next s i Hs) as (s' & E & Hs'). exists s'. split; [done|]. by exists R.
  - intros s i (R & H & Hs). destruct (io_prev s i Hs) as (s' & E & Hs'). exists s'. split; [done|]. by exists R.
  - intros s p (R & H & Hs). destruct (io_first s p Hs) as (s' & E & Hs'). exists s'. split; [done|]. by exists R.
  - intros s p (R & H & Hs). destruct (io_last s p Hs) as (s' & E & Hs'). exists s'. split; [done|]. by exists R.
  - intros s p target (R & H & Hs) Ht. destruct (io_seek s p target Hs Ht) as (s' & E & Hs'). exists s'. split; [done|]. by exists R.
Qed.

Lemma IterOk_weaken I c (dom dom' : bytes -> Prop) l R : (forall k, dom' k -> dom k) -> IterOk I c dom l R -> IterOk I c dom' l R.
Proof. intros Hd []. split; eauto. Qed.

Lemma IndexOk_weaken X (dom dom' : bytes -> Prop) hs seek R : (forall k, dom' k -> dom k) -> IndexOk X dom hs seek R -> IndexOk X dom' hs seek R.
Proof. intros Hd []. split; eauto. Qed.

(** ** A level *)
Section LevelOk.
Context `{Hheap : !StdHeap} `{Hheapok : !StdHeapOk} (ucmp : Comparator) `{Hucmp : !ComparatorOk ucmp all_keys}.
Notation icmp := (InternalKeyComparator ucmp).
Context (dom : bytes -> Prop) (Hdom : forall k, dom k -> is_ikey k) `{Hicmp : !ComparatorOk icmp dom}.
Context (T : IterOps) (table_NewIterator : Z -> Z -> St T) (file_entries : Z -> list entry).

(** What TableCache::NewIterator promises for a file of a version. *)
Record iterable (f : FileMetaData) : Prop := {
  it_number : 0 < fm_number f < 2 ^ 64;
  it_size : 0 <= fm_file_size f < 2 ^ 64;
  it_sorted : sorted_keys icmp (file_entries (fm_number f));
  it_dom : Forall (fun e => dom (fst e)) (file_entries (fm_number f));
  it_iterates : iterates T icmp dom (file_entries (fm_number f)) (table_NewIterator (fm_number f) (fm_file_size f)) None;
}.

Definition part_entries (fs : list FileMetaData) : list entry := concat (map (fun f => file_entries (fm_number f)) fs).

(** The files of each part hold the keys of the part, each key once; the buffer of
    value() has room for them. *)
Record level_scannable (guards : list GuardMetaData) (sentinels : list FileMetaData) : Prop := {
  ls_guards : guards_sorted ucmp guards;
  ls_few : len guards < 2 ^ 31;
  ls_listed : Forall guard_listed guards;
  ls_files : forall fs f, fs ∈ parts guards sentinels -> f ∈ fs -> iterable f;
  ls_buffer : forall fs, fs ∈ parts guards sentinels -> 16 * len fs + 8 <= value_buf_size;
  ls_slot : forall i fs e, parts guards sentinels !! i = Some fs -> e ∈ part_entries fs -> guard_slot ucmp guards (ExtractUserKey (fst e)) = i;
  ls_distinct : forall fs, fs ∈ parts guards sentinels -> NoDup (map fst (part_entries fs));
}.

Section OneLevel.
Context (guards : list GuardMetaData) (sentinels : list FileMetaData) (HL : level_scannable guards sentinels).
Notation ps := (parts guards sentinels).

Definition handle_entries (h : bytes) : list entry :=
  sort_entries ucmp (concat (map (fun p => file_entries (fst p)) (default [] (files_of_value h)))).

Lemma part_value fs : fs ∈ ps -> nonempty fs = true -> files_of_value (encode_files (sentinel_pairs fs)) = Some (sentinel_pairs fs).
Proof.
  intros Hfs Hne. pose proof (ls_buffer _ _ HL fs Hfs) as Hb. unfold value_buf_size in Hb. apply files_of_value_ok.
  - by destruct fs.
  - unfold sentinel_pairs. unfold len in *. rewrite length_map. lia.
  - apply Forall_map, Forall_forall. intros f Hf. destruct (ls_files _ _ HL fs f Hfs Hf) as [H1 H2 _ _ _]. cbn [fst snd]. lia.
Qed.

Lemma handle_entries_part fs : fs ∈ ps -> nonempty fs = true -> handle_entries (encode_files (sentinel_pairs fs)) = sort_entries ucmp (part_entries fs).
Proof.
  intros Hfs Hne. unfold handle_entries. rewrite (part_value fs Hfs Hne). cbn [default from_option id].
  unfold part_entries, sentinel_pairs. by rewrite map_map.
Qed.

Lemma part_dom fs : fs ∈ ps -> Forall (fun e => dom (fst e)) (part_entries fs).
Proof.
  intros Hfs. unfold part_entries. apply Forall_concat, Forall_map, Forall_forall. intros f Hf. apply (it_dom _ (ls_files _ _ HL fs f Hfs Hf)).
Qed.

Lemma part_sorted fs : fs ∈ ps -> sorted_keys icmp (sort_entries ucmp (part_entries fs)).
Proof.
  intros Hfs. apply (sort_entries_sorted ucmp (Hucmp := Hucmp)); [|by apply (ls_distinct _ _ HL)]. eapply Forall_impl; [by apply part_dom|]. intros e. apply Hdom.
Qed.

(** GetGuardIterator merges the files of the part. *)
Lemma GetGuardIterator_ok fs : fs ∈ ps -> nonempty fs = true ->
  iterates (Merged icmp T) icmp dom (sort_entries ucmp (part_entries fs)) (GetGuardIterator ucmp T table_NewIterator (encode_files (sentinel_pairs fs))) None.
Proof.
  intros Hfs Hne. unfold GetGuardIterator. rewrite (part_value fs Hfs Hne). cbn [default from_option id].
  destruct (NewMergingIterator_ok Hheapok icmp dom Hicmp T (map (fun f => file_entries (fm_number f)) fs)
    (fun i => match fs !! i with Some f => iterates T icmp dom (file_entries (fm_number f)) | None => fun _ _ => False end)
    (sort_entries ucmp (part_entries fs)) (map (fun p => table_NewIterator (fst p) (snd p)) (sentinel_pairs fs))) as (R & HR & Hn).
  - intros i l Hi. rewrite list_lookup_fmap in Hi. destruct (fs !! i) as [f|]; [|done]. injection Hi as <-. apply iterates_ok.
  - apply Forall_map, Forall_forall. intros f Hf. apply (it_sorted _ (ls_files _ _ HL fs f Hfs Hf)).
  - by apply part_sorted.
  - rewrite sort_entries_perm. by apply part_dom.
  - apply sort_entries_perm.
  - apply Forall2_same_length_lookup_2; [unfold sentinel_pairs; by rewrite length_seq, !length_map|]. intros i x s Hx Hs. apply lookup_seq in Hx as [-> Hlt].
    unfold sentinel_pairs in Hs. rewrite map_map, list_lookup_fmap in Hs. cbn [Nat.add]. destruct (fs !! i) as [f|] eqn:Ef; [|done]. injection Hs as <-. cbn [fst snd].
    apply (it_iterates _ (ls_files _ _ HL fs f Hfs (list_elem_of_lookup_2 _ _ _ Ef))).
  - by exists R.
Qed.

Definition level_entries : list entry := concat (map (fun fs => sort_entries ucmp (part_entries fs)) ps).

Lemma handles_entries : concat (map handle_entries (part_handles guards sentinels)) = level_entries.
Proof.
  unfold part_handles, level_entries. assert (forall fs, fs ∈ ps -> fs ∈ ps) as H by done. revert H. generalize ps at 1 3 4. intros l. induction l as [|fs l IH]; intros H; [done|].
  cbn [List.filter map concat]. rewrite <- IH by (intros x Hx; apply H; by right). destruct (nonempty fs) eqn:E.
  - cbn [map concat]. by rewrite (handle_entries_part fs (H fs ltac:(left)) E).
  - destruct fs; [|done]. done.
Qed.

(** Seek goes to the part that separates. *)
Lemma level_separates : index_separates icmp dom (part_handles guards sentinels) handle_entries
  (fun target => pos_from guards sentinels (guard_slot ucmp guards (ExtractUserKey target))).
Proof.
  assert (forall k h, part_handles guards sentinels !! k = Some h -> exists i fs, ps !! i = Some fs /\ nonempty fs = true /\ cnt guards sentinels i = k /\
    handle_entries h = sort_entries ucmp (part_entries fs)) as Hk.
  { intros k h Hh. unfold part_handles in Hh. rewrite list_lookup_fmap in Hh. destruct (List.filter nonempty ps !! k) as [fs|] eqn:E; [|done]. injection Hh as <-.
    assert (exists i, ps !! i = Some fs /\ nonempty fs = true /\ cnt guards sentinels i = k) as (i & Hi & Hne & Hc).
    { unfold cnt. revert k E. induction ps as [|x l IH]; intros k E; [done|]. cbn [List.filter] in E. destruct (nonempty x) eqn:Ex.
      - destruct k as [|k]; [injection E as ->; exists 0%nat; done|]. simpl in E. destruct (IH k E) as (i & Hi & Hne & Hc). exists (S i). split; [done|]. split; [done|].
        cbn [take List.filter]. rewrite Ex. simpl. lia.
      - destruct (IH k E) as (i & Hi & Hne & Hc). exists (S i). split; [done|]. split; [done|]. cbn [take List.filter]. by rewrite Ex. }
    exists i, fs. split; [done|]. split; [done|]. split; [done|]. apply handle_entries_part; [by eapply list_elem_of_lookup_2|done]. }
  assert (forall k h e, part_handles guards sentinels !! k = Some h -> e ∈ handle_entries h ->
    exists i, cnt guards sentinels i = k /\ guard_slot ucmp guards (ExtractUserKey (fst e)) = i /\ (cnt guards sentinels (S i) = S k)) as He.
  { intros k h e Hh He. destruct (Hk k h Hh) as (i & fs & Hi & Hne & Hc & E). rewrite E, sort_entries_perm in He. exists i. split; [done|]. split; [by eapply (ls_slot _ _ HL)|].
    rewrite (cnt_S guards sentinels i fs Hi), Hne. lia. }
  assert (forall a b, (guard_slot ucmp guards a < guard_slot ucmp guards b)%nat -> Compare ucmp a b < 0) as Hslot.
  { intros a b Hab. destruct (Z.lt_ge_cases (Compare ucmp a b) 0) as [|Hge]; [done|]. apply (cmp_ge_le (dom := all_keys)) in Hge; [|done..].
    apply (guard_slot_mono (ucmp := ucmp) guards) in Hge. lia. }
  intros target Ht. set (i0 := guard_slot ucmp guards (ExtractUserKey target)). unfold pos_from. case_decide as Hd.
  - split; [by rewrite <- cnt_all|]. split.
    + intros k h e Hlt Hh Hin. destruct (He k h e Hh Hin) as (i & Hc & Hs & _). apply ikc_lt_of_user, Hslot. rewrite Hs. fold i0.
      destruct (Nat.lt_ge_cases i i0) as [|Hge]; [done|]. pose proof (cnt_mono guards sentinels i0 i Hge). lia.
    + intros k h e Hlt Hh Hin. destruct (He k h e Hh Hin) as (i & Hc & Hs & Hc'). 
      assert (i0 < i)%nat as Hi. { destruct (Nat.lt_ge_cases i0 i) as [|Hge]; [done|]. pose proof (cnt_mono guards sentinels i i0 Hge). lia. }
      pose proof (Hslot (ExtractUserKey target) (ExtractUserKey (fst e))) as H. rewrite Hs in H. specialize (H Hi). apply ikc_lt_of_user, ikc_anti in H. lia.
  - intros h e [k Hh]%list_elem_of_lookup Hin. destruct (He k h e Hh Hin) as (i & Hc & Hs & Hc'). apply ikc_lt_of_user, Hslot. rewrite Hs. fold i0.
    destruct (Nat.lt_ge_cases i i0) as [|Hge]; [done|]. pose proof (cnt_mono guards sentinels i0 i Hge). pose proof (cnt_mono guards sentinels (S i) (S (length guards))).
    pose proof (guard_slot_le (ucmp := ucmp) guards (ExtractUserKey (fst e))). lia.
Qed.

(** The entries of a level ascend. *)
Lemma level_sorted : sorted_keys icmp level_entries.
Proof.
  pose proof (ls_slot _ _ HL) as Hslot. unfold level_entries. apply sorted_keys_strongly.
  assert (forall i l, drop i ps = l -> Sorted.StronglySorted (fun a b : entry => Compare icmp (fst a) (fst b) < 0) (concat (map (fun fs => sort_entries ucmp (part_entries fs)) l))) as H.
  { intros i l. revert i. induction l as [|fs l IH]; intros i Hd; [constructor|]. cbn [map concat].
    assert (ps !! i = Some fs) as Hi by (rewrite <- (Nat.add_0_r i), <- lookup_drop, Hd; done).
    assert (drop (S i) ps = l) as Hd' by (replace (S i) with (i + 1)%nat by lia; by rewrite <- drop_drop, Hd).
    apply StronglySorted_app. split; [|split; [|by apply (IH (S i))]].
    - intros a b Ha Hb. rewrite sort_entries_perm in Ha. pose proof (Hslot i fs a Hi Ha) as Hsa.
      apply list_elem_of_In, in_concat in Hb as (es & Hes & Hb). apply in_map_iff in Hes as (fs' & <- & Hfs'). apply list_elem_of_In in Hb, Hfs'. rewrite sort_entries_perm in Hb.
      apply list_elem_of_lookup in Hfs' as [k Hk]. assert (ps !! (S i + k)%nat = Some fs') as Hi' by (rewrite <- lookup_drop, Hd'; done).
      pose proof (Hslot _ fs' b Hi' Hb) as Hsb. apply ikc_lt_of_user.
      destruct (Z.lt_ge_cases (Compare ucmp (ExtractUserKey (fst a)) (ExtractUserKey (fst b))) 0) as [|Hge]; [done|].
      apply (cmp_ge_le (dom := all_keys)) in Hge; [|done..]. apply (guard_slot_mono (ucmp := ucmp) guards) in Hge. lia.
    - apply sorted_keys_strongly, part_sorted. by eapply list_elem_of_lookup_2. }
  by apply (H 0%nat).
Qed.

Lemma level_dom : Forall (fun e => dom (fst e)) level_entries.
Proof.
  unfold level_entries. apply Forall_concat, Forall_map, Forall_forall. intros fs Hfs. rewrite sort_entries_perm. by apply part_dom.
Qed.

Lemma level_elem e : e ∈ level_entries <-> exists fs f, fs ∈ ps /\ f ∈ fs /\ e ∈ file_entries (fm_number f).
Proof.
  unfold level_entries. rewrite list_elem_of_In, in_concat. split.
  - intros (es & Hes & He). apply in_map_iff in Hes as (fs & <- & Hfs). apply list_elem_of_In in Hfs, He. rewrite sort_entries_perm in He.
    unfold part_entries in He. apply list_elem_of_In, in_concat in He as (es & Hes & He). apply in_map_iff in Hes as (f & <- & Hf). apply list_elem_of_In in Hf, He. by exists fs, f.
  - intros (fs & f & Hfs & Hf & He). exists (sort_entries ucmp (part_entries fs)). split; [apply in_map_iff; exists fs; split; [done|by apply list_elem_of_In]|].
    apply list_elem_of_In. rewrite sort_entries_perm. unfold part_entries. apply list_elem_of_In, in_concat. exists (file_entries (fm_number f)).
    split; [apply in_map_iff; exists f; split; [done|by apply list_elem_of_In]|by apply list_elem_of_In].
Qed.

(** The iterator of the level walks its entries. *)
Lemma LevelIterator_ok fuel num : num = 0 -> (length guards + 3 < fuel)%nat ->
  iterates (LevelIterator ucmp T table_NewIterator fuel) icmp dom level_entries
    (new_TwoLevelIterator (LevelGuardNum ucmp) (Merged icmp T) (new_LevelGuardNumIterator guards sentinels num)) None.
Proof.
  intros -> Hf. assert (forall fs f, fs ∈ ps -> f ∈ fs -> 0 < fm_number f) as Hpos by (intros fs f H1 H2; apply (it_number _ (ls_files _ _ HL fs f H1 H2))).
  pose proof (IndexOk_weaken _ _ dom _ _ _ Hdom (LevelGuardNum_ok ucmp guards sentinels (ls_guards _ _ HL) (ls_few _ _ HL) (ls_listed _ _ HL) Hpos)) as HX.
  assert (forall h, h ∈ part_handles guards sentinels -> exists fs, fs ∈ ps /\ nonempty fs = true /\ h = encode_files (sentinel_pairs fs)) as Hh.
  { intros h Hh. unfold part_handles in Hh. apply list_elem_of_fmap in Hh as (fs & -> & Hfs). apply list_elem_of_In, filter_In in Hfs as [H1 H2]. apply list_elem_of_In in H1. by exists fs. }
  rewrite <- handles_entries.
  exists (two_rel (LevelGuardNum ucmp) (Merged icmp T) (part_handles guards sentinels) handle_entries (lg_rel guards sentinels)
    (fun h => iterates (Merged icmp T) icmp dom (handle_entries h))).
  split.
  - apply (TwoLevel_ok icmp dom (LevelGuardNum ucmp) (Merged icmp T) (GetGuardIterator ucmp T table_NewIterator) (part_handles guards sentinels) handle_entries
      (fun target => pos_from guards sentinels (guard_slot ucmp guards (ExtractUserKey target)))).
    + exact HX.
    + intros h _. apply iterates_ok.
    + intros h (fs & Hfs & Hne & ->)%Hh. rewrite (handle_entries_part fs Hfs Hne). by apply GetGuardIterator_ok.
    + rewrite <- cnt_all. assert (cnt guards sentinels (S (length guards)) <= S (length guards))%nat; [|lia]. unfold cnt.
      etransitivity; [apply List.filter_length_le|]. rewrite length_take. lia.
    + apply level_separates.
  - apply new_TwoLevelIterator_ok. split; [done|]. split; [done|]. split; [done|]. unfold lg_Valid. cbn [new_LevelGuardNumIterator lg_index lg_glist]. by rewrite Z.ltb_irrefl.
Qed.
End OneLevel.
End LevelOk.
