(* ===== verification/Compaction.v ===== *)
(** * Choosing what to compact (db/version_set.cc)

    VersionSet::Finalize scores the parts of every level of a new version,
    PickCompactionLevel chooses a level, PickCompactionForGuards and
    CompactRange collect the input files, guards and sentinel files of a
    Compaction, whose methods tell the compaction loop where its outputs may
    not cross and whether a deletion is still needed.

    Scores are doubles, kept as the binary64 numbers of [SpecFloat]. *)

From Stdlib Require Import ZArith Lia Bool Floats.SpecFloat.
From stdpp Require Import base list sorting.
From S2P Require Import Prelude Comparator DbFormat Status VersionEdit Guards VersionBuilder.

Set Default Goal Selector "!".
Local Open Scope Z_scope.

(** ** double *)
Notation double := spec_float.
Definition d_of_Z (z : Z) : double := binary_normalize 53 1024 z 0 false.
Definition d_div : double -> double -> double := SFdiv 53 1024.
Definition d_mul : double -> double -> double := SFmul 53 1024.
Definition d_lt : double -> double -> bool := SFltb.
Definition d_le : double -> double -> bool := SFleb.
Definition d_ge (x y : double) : bool := SFleb y x.
Definition d_gt (x y : double) : bool := SFltb y x.
(** std::max *)
Definition d_max (x y : double) : double := if SFltb x y then y else x.
(** The conversion to uint64_t of a number in its range drops the fraction. *)
Definition d_to_u64 (x : double) : Z :=
  match x with S754_finite false m e => u64 (Z.shiftl (Zpos m) e) | _ => 0 end.
Definition d_1 : double := d_of_Z 1.
Definition d_25 : double := d_of_Z 25.
Definition d_1_5 : double := d_div (d_of_Z 3) (d_of_Z 2).

(** ** Limits per level *)
Definition MB : Z := 1048576.

Definition MaxBytesForLevel (level : nat) : double :=
  d_of_Z (nth level [64; 128; 512; 4096; 32768; 262144; 2097152] 0 * MB).
Definition MaxBytesPerGuardForLevel (level : nat) : double :=
  d_of_Z (nth level [64; 128; 256; 512; 512; 1024; 2048] 0 * MB).
Definition MinFileSizeForLevel (level : nat) : Z := nth level [1; 1; 1; 1; 8; 16; 32] 0 * MB.
Definition MaxFileSizeForLevel (level : nat) : Z := nth level [64; 64; 64; 64; 128; 256; 512] 0 * MB.
Definition MaxFilesPerGuardForLevel (level : nat) : Z := nth level [-1; -1; -1; -1; -1; -1; -1] 0.

Definition kL0_SentinelCompactionTrigger : Z := 2.
Definition FORCE_COMPACT_SIZE_THRESHOLD_IN_MB : Z := 10 * 1024.

(** The sum in an int64_t. *)
Definition to_int64 (z : Z) : Z := (z + 2 ^ 63) mod 2 ^ 64 - 2 ^ 63.
Definition TotalFileSize (files : list FileMetaData) : Z :=
  fold_left (fun sum f => to_int64 (sum + fm_file_size f)) files 0.

(** ** Finalize *)
Record Scores := {
  compaction_scores : list double;
  guard_compaction_scores : list (list double);
  sentinel_compaction_scores : list double;
}.

Definition max_files_per_segment (level : nat) : Z :=
  if 0 <? MaxFilesPerGuardForLevel level then MaxFilesPerGuardForLevel level else kMaxFilesPerGuardSentinel.

(** The larger of the ratios of bytes and of files to their limits. *)
Definition size_score (level : nat) (bytes_ files : Z) : double :=
  let score1 := d_div (d_of_Z bytes_) (MaxBytesPerGuardForLevel level) in
  let score2 := d_div (d_of_Z files) (d_of_Z (max_files_per_segment level + 1)) in
  d_max score1 score2.

(** The scores of the sentinel and of the guards of a level. *)
Definition level_scores (v : Version) (level : nat) : double * list double :=
  let sentinel_files := level_of (v_sentinel_files v) level in
  let guards := level_of (v_guards v) level in
  match level with
  | O => (d_div (d_of_Z (len sentinel_files)) (d_of_Z kL0_SentinelCompactionTrigger),
          map (fun g => d_div (d_of_Z (len (gm_files g))) (d_of_Z kL0_GuardCompactionTrigger)) guards)
  | _ => (size_score level (u64 (TotalFileSize sentinel_files)) (len sentinel_files),
          map (fun g => size_score level (u64 (TotalFileSize (gm_file_metas g))) (len (gm_files g))) guards)
  end.

Definition Finalize (v : Version) : Scores :=
  let per_level := map (level_scores v) (seq 0 (Z.to_nat kNumLevels)) in
  {| compaction_scores := map (fun s => fold_left d_max (snd s) (fst s)) per_level;
     guard_compaction_scores := map snd per_level;
     sentinel_compaction_scores := map fst per_level |}.

(** The current version with its scores and the file that seeks single out. *)
Record Current := {
  cur_version : Version;
  cur_scores : Scores;
  file_to_compact_ : option FileMetaData;
  file_to_compact_level_ : Z;
}.

Definition score (l : list double) (level : nat) : double := nth level l S754_nan.

(** ** PickCompactionLevel *)
Section PickLevel.
Context (locked : list bool).
(** An access past the end of the array, which nothing guards, is [None]. *)
Definition lock (level : Z) : option bool := if level <? 0 then None else locked !! Z.to_nat level.

(** The first loop: levels 1 to 5. *)
Fixpoint first_full_level (scores : list double) (n i : nat) : option nat :=
  match n with
  | O => Some (Z.to_nat kNumLevels)
  | S n =>
      a ← lock (Z.of_nat i); b ← (if a : bool then Some true else lock (Z.of_nat (i + 1)));
      if b : bool then first_full_level scores n (S i)
      else if d_ge (score scores i) d_1 && d_ge (score scores i) (score scores (S i)) then Some i
      else first_full_level scores n (S i)
  end.

(** The levels that have files, from the last one down. *)
Fixpoint last_level_with_files (v : Version) (n : nat) : option nat :=
  match n with
  | O => None
  | S i => match level_of (v_files v) i with [] => last_level_with_files v i | _ => Some i end
  end.

(** The loop over the levels [n - 1], ..., 0 that looks for a level with little
    data; no_horizontal_compact and count_guard_scores are carried from one
    round to the next. *)
Fixpoint force_loop (c : Current) (n : nat) (no_horizontal : bool) (count : Z) : option (option nat) :=
  match n with
  | O => Some None
  | S i =>
      let v := cur_version c in
      let s := cur_scores c in
      if (Z.to_nat kNumLevels - 1 <=? i)%nat then force_loop c i no_horizontal count
      else
        a ← lock (Z.of_nat i); b ← (if a : bool then Some true else lock (Z.of_nat (i + 1)));
        if (b : bool) || (len (level_of (v_files v) i) =? 0) then force_loop c i no_horizontal count
        else
          let current_level_size := TotalFileSize (level_of (v_files v) i) in
          let next_level_size := TotalFileSize (level_of (v_files v) (S i)) in
          let next_level_size_in_mb := Z.quot next_level_size (1024 * 1024) in
          if current_level_size =? 0 then force_loop c i no_horizontal count
          else
            let inter_level_ratio := d_of_Z (Z.quot next_level_size current_level_size) in
            if d_le inter_level_ratio d_25 || (next_level_size_in_mb <? FORCE_COMPACT_SIZE_THRESHOLD_IN_MB) then
              let guard_scores := nth i (guard_compaction_scores s) [] in
              let '(no_horizontal, count) :=
                if d_gt inter_level_ratio d_25 && d_lt (score (compaction_scores s) i) d_1 &&
                   d_lt (score (sentinel_compaction_scores s) i) d_1
                then
                  let count := count + len (List.filter (fun x => d_lt x d_1) guard_scores) in
                  (if count =? len guard_scores then true else no_horizontal, count)
                else (no_horizontal, count) in
              if no_horizontal then force_loop c i no_horizontal count else Some (Some i)
            else force_loop c i no_horizontal count
  end.

(** The level (kNumLevels for none), *force_compact and the version, whose
    file_to_compact_ is used up. *)
Definition PickCompactionLevel (c : Current) (seek_driven : bool) : option (nat * bool * Current) :=
  let none := Z.to_nat kNumLevels in
  let cs := compaction_scores (cur_scores c) in
  level ← first_full_level cs 5 1;
  '(level, c) ←
    (if seek_driven && (level =? none)%nat then
       match file_to_compact_ c with
       | Some _ =>
           a ← lock (file_to_compact_level_ c); b ← (if a : bool then Some true else lock (file_to_compact_level_ c + 1));
           if b : bool then Some (level, c)
           else Some (Z.to_nat (file_to_compact_level_ c),
                      {| cur_version := cur_version c; cur_scores := cur_scores c; file_to_compact_ := None;
                         file_to_compact_level_ := -1 |})
       | None => Some (level, c)
       end
     else Some (level, c));
  last_locked ← lock (kNumLevels - 1);
  let level := if (level =? none)%nat && d_ge (score cs (none - 1)) d_1 && negb last_locked then (none - 1)%nat else level in
  l0 ← lock 0; l1 ← lock 1;
  let level := if negb l0 && negb l1 && d_ge (score cs 0) d_1 && d_le (score cs 1) d_1 then 0%nat else level in
  if seek_driven && ((level =? none)%nat || d_lt (score cs level) d_1) then
    match last_level_with_files (cur_version c) none with
    | None => Some (level, false, c)
    | Some max_level =>
        found ← force_loop c (S max_level) false 0;
        match found with Some i => Some (i, true, c) | None => Some (level, false, c) end
    end
  else Some (level, false, c).

(** NeedsCompaction *)
Definition NeedsCompaction (c : Current) (seek_driven : bool) : option bool :=
  '(level, _, _) ← PickCompactionLevel c seek_driven;
  Some (negb (level =? Z.to_nat kNumLevels)%nat).
End PickLevel.

(** ** Compaction *)
Record Compaction := {
  c_level : nat;
  c_min_output_file_size : Z;
  c_max_output_file_size : Z;
  c_input_version : Version;
  c_edit : VersionEdit;
  (** inputs_[0], inputs_[1] and the guards and sentinel files they come from *)
  c_inputs : list FileMetaData * list FileMetaData;
  c_guard_inputs : list GuardMetaData * list GuardMetaData;
  c_sentinel_inputs : list FileMetaData * list FileMetaData;
  c_boundaries : list (Z * bytes);
  c_level_ptrs : list nat;
  c_is_horizontal : bool;
}.

(** Compaction(l) with its version and inputs set. *)
Definition new_Compaction (level : nat) (v : Version) (horizontal : bool)
    (in0 in1 : list FileMetaData * list GuardMetaData * list FileMetaData) : Compaction :=
  let '(inputs0, guards0, sentinel0) := in0 in
  let '(inputs1, guards1, sentinel1) := in1 in
  {| c_level := level; c_min_output_file_size := MinFileSizeForLevel level;
     c_max_output_file_size := MaxFileSizeForLevel level; c_input_version := v; c_edit := new_VersionEdit;
     c_inputs := (inputs0, inputs1); c_guard_inputs := (guards0, guards1); c_sentinel_inputs := (sentinel0, sentinel1);
     c_boundaries := []; c_level_ptrs := replicate (Z.to_nat kNumLevels) 0%nat; c_is_horizontal := horizontal |}.

Section Compaction.
Context (ucmp : Comparator).

(** *** PickCompactionForGuards *)

Definition by_guard_key (g1 g2 : GuardMetaData) : Prop := Compare ucmp (guard_ukey g1) (guard_ukey g2) <= 0.
#[local] Instance by_guard_key_dec g1 g2 : Decision (by_guard_key g1 g2).
Proof. unfold by_guard_key. apply _. Defined.

(** The loop that erases a guard with the user key of the one before. *)
Fixpoint drop_same_keys (prev : GuardMetaData) (guards : list GuardMetaData) : list GuardMetaData :=
  match guards with
  | [] => []
  | g :: guards =>
      if Compare ucmp (guard_ukey g) (guard_ukey prev) =? 0 then drop_same_keys prev guards
      else g :: drop_same_keys g guards
  end.

(** The sorted copy of the complete guards of a level without duplicates.
    Which of several guards with one user key std::sort leaves in front is
    open; only the user keys are used. *)
Definition complete_guards_copy (v : Version) (level : nat) : list GuardMetaData :=
  match merge_sort by_guard_key (level_of (v_complete_guards v) level) with
  | [] => []
  | g :: guards => g :: drop_same_keys g guards
  end.

(** The choice a horizontal compaction makes file by file. *)
Definition pick_small (add_all : bool) (total_size max_files_per_guard : Z) (f : FileMetaData) : bool :=
  let avg_file_size := d_to_u64 (d_div (d_of_Z total_size) (d_of_Z kMaxFilesPerGuardSentinel)) in
  add_all || (fm_file_size f <? avg_file_size) ||
  (let ratio := d_div (d_mul (d_of_Z (fm_file_size f)) d_1) (d_mul d_1 (d_of_Z avg_file_size)) in
   d_le ratio d_1_5 || (max_files_per_guard =? 1)).

(** A file that leaves the range of its complete guard. *)
Definition outside_guard (guard_key : bytes) (next_guard_key : option bytes) (f : FileMetaData) : bool :=
  let file_smallest := ExtractUserKey (fm_smallest f) in
  let file_largest := ExtractUserKey (fm_largest f) in
  (Compare ucmp file_smallest guard_key <? 0) ||
  match next_guard_key with Some k => 0 <=? Compare ucmp file_largest k | None => false end.

(** The guard from index [i] on that has the key, and where the search goes on. *)
Fixpoint find_guard_from (n i : nat) (guards : list GuardMetaData) (guard_key : bytes) : option nat * nat :=
  match n with
  | O => (None, i)
  | S n =>
      match guards !! i with
      | None => (None, i)
      | Some g =>
          let compare := Compare ucmp (guard_ukey g) guard_key in
          if compare =? 0 then (Some i, S i)
          else if 0 <? compare then (None, i)
          else find_guard_from n (S i) guards guard_key
      end
  end.

(** guards_to_add_to_compaction with guards_compaction_add_all_files; the
    complete guards are walked with an index into the guards. *)
Fixpoint guards_to_add (which : nat) (force_compact : bool) (scores : list double) (guards complete : list GuardMetaData)
    (guard_index_iter : nat) : list (GuardMetaData * bool) :=
  match complete with
  | [] => []
  | cg :: complete =>
      let guard_key := guard_ukey cg in
      let '(guard_index, guard_index_iter) :=
        find_guard_from (length guards) guard_index_iter guards guard_key in
      let rest := guards_to_add which force_compact scores guards complete guard_index_iter in
      match (i ← guard_index; g ← guards !! i; Some (i, g)) with
      | None => rest
      | Some (i, g) =>
          if existsb (outside_guard guard_key (guard_ukey <$> head complete)) (take (length (gm_files g)) (gm_file_metas g))
          then (g, true) :: rest
          else if (which =? 0)%nat && (force_compact || d_ge (score scores i) d_1) then (g, false) :: rest
          else rest
      end
  end.

(** The inputs from level [level + which]. *)
Definition pick_inputs (v : Version) (s : Scores) (level which : nat) (horizontal force_compact : bool)
    (complete : list GuardMetaData) : list FileMetaData * list GuardMetaData * list FileMetaData :=
  let current_level := (level + which)%nat in
  let sentinel_files := level_of (v_sentinel_files v) current_level in
  let outside := existsb (fun f => match complete with
                                   | cg :: _ => 0 <=? Compare ucmp (ExtractUserKey (fm_largest f)) (guard_ukey cg)
                                   | [] => false
                                   end) sentinel_files in
  let add_sentinel_files := outside ||
    ((which =? 0)%nat && (force_compact || d_ge (score (sentinel_compaction_scores s) current_level) d_1)) in
  let max_files_per_guard := max_files_per_segment current_level in
  let sentinel :=
    if add_sentinel_files then
      if horizontal then List.filter (pick_small outside (u64 (TotalFileSize sentinel_files)) max_files_per_guard) sentinel_files
      else sentinel_files
    else [] in
  let chosen := guards_to_add which force_compact (nth current_level (guard_compaction_scores s) [])
    (level_of (v_guards v) current_level) complete 0 in
  let guard_inputs := map (fun ga : GuardMetaData * bool =>
      let '(g, add_all) := ga in
      if horizontal then
        let files := List.filter (pick_small add_all (u64 (TotalFileSize (gm_file_metas g))) max_files_per_guard)
          (take (Z.to_nat (gm_number_segments g)) (gm_file_metas g)) in
        {| gm_refs := 0; gm_level := -1; gm_number_segments := len files; gm_guard_key := gm_guard_key g;
           gm_smallest := gm_smallest g; gm_largest := gm_largest g; gm_files := map fm_number files; gm_file_metas := files |}
      else g) chosen in
  (sentinel ++ concat (map guard_files guard_inputs), guard_inputs, sentinel).

(** The compaction (NULL: nothing to do) and the guards its outputs are split at. *)
Definition PickCompactionForGuards (c : Current) (level : nat) (force_compact : bool)
    : option Compaction * list GuardMetaData :=
  let v := cur_version c in
  if len (level_of (v_files v) level) =? 0 then (None, [])
  else
    let horizontal :=
      if (level =? Z.to_nat kNumLevels - 1)%nat then true
      else if (level =? Z.to_nat kNumLevels - 2)%nat then
        let current_level_size := TotalFileSize (level_of (v_files v) level) in
        let next_level_size := TotalFileSize (level_of (v_files v) (S level)) in
        (0 <? current_level_size) && d_gt (d_of_Z (Z.quot next_level_size current_level_size)) d_25
      else false in
    let complete0 := complete_guards_copy v level in
    let complete1 := if horizontal then [] else complete_guards_copy v (S level) in
    let in0 := pick_inputs v (cur_scores c) level 0 horizontal force_compact complete0 in
    let in1 := if horizontal then ([], [], []) else pick_inputs v (cur_scores c) level 1 horizontal force_compact complete1 in
    (Some (new_Compaction level v horizontal in0 in1), if horizontal then complete0 else complete1).

(** *** CompactRange *)
Definition CompactRange (v : Version) (level : nat) (begin end_ : option bytes) : Outcome (option Compaction) :=
  let inputs_of l := GetOverlappingInputsGuards ucmp (level_of (v_sentinel_files v) l) (level_of (v_guards v) l) begin end_ in
  match inputs_of level, inputs_of (S level) with
  | Returned in0, Returned in1 =>
      match fst (fst in0) with [] => Returned None | _ => Returned (Some (new_Compaction level v false in0 in1)) end
  | AssertFailed, _ | Returned _, AssertFailed => AssertFailed
  | _, _ => NoFuel
  end.

(** *** The methods of a Compaction *)

(** boundaries_ from index *hint on; the answer and *hint. *)
Fixpoint crosses_loop (lower_num upper_num : Z) (old_key new_key : bytes) (boundaries : list (Z * bytes)) (hint : nat)
    : bool * nat :=
  match boundaries with
  | [] => (false, hint)
  | (num, key) :: boundaries =>
      let lower := (lower_num <? num) || ((lower_num =? num) && (Compare ucmp old_key key <=? 0)) in
      let upper := (num <? upper_num) || ((upper_num =? num) && (0 <? Compare ucmp new_key key)) in
      if lower && upper then (true, hint)
      else if negb upper then (false, hint)
      else crosses_loop lower_num upper_num old_key new_key boundaries (S hint)
  end.

Definition CrossesBoundary (c : Compaction) (old_key new_key : bytes) (hint : nat) : bool * nat :=
  crosses_loop (KeyNum ucmp old_key) (KeyNum ucmp new_key) old_key new_key (drop hint (c_boundaries c)) hint.

Definition AddInputDeletions (c : Compaction) (ed : VersionEdit) : VersionEdit :=
  let deletions ed which (files : list FileMetaData) :=
    fold_left (fun ed f => DeleteFile ed (Z.of_nat (c_level c) + which) (fm_number f)) files ed in
  deletions (deletions ed 0 (fst (c_inputs c))) 1 (snd (c_inputs c)).

(** The inner loop of IsBaseLevelForKey over the files from index [ptr] on:
    whether the key falls in a file, and the index. *)
Fixpoint key_in_level (user_key : bytes) (files : list FileMetaData) (ptr : nat) : bool * nat :=
  match files with
  | [] => (false, ptr)
  | f :: files =>
      if Compare ucmp user_key (ExtractUserKey (fm_largest f)) <=? 0
      then (0 <=? Compare ucmp user_key (ExtractUserKey (fm_smallest f)), ptr)
      else key_in_level user_key files (S ptr)
  end.

(** The loop over [n] levels from [lvl] on; level_ptrs_ is updated as far as
    the loop gets. *)
Fixpoint base_level_loop (v : Version) (user_key : bytes) (n lvl : nat) (level_ptrs : list nat) : bool * list nat :=
  match n with
  | O => (true, level_ptrs)
  | S n =>
      let ptr := nth lvl level_ptrs 0%nat in
      let '(found, ptr) := key_in_level user_key (drop ptr (level_of (v_files v) lvl)) ptr in
      let level_ptrs := <[lvl := ptr]> level_ptrs in
      if found then (false, level_ptrs) else base_level_loop v user_key n (S lvl) level_ptrs
  end.

Definition IsBaseLevelForKey (c : Compaction) (user_key : bytes) (level_ptrs : list nat) : bool * list nat :=
  base_level_loop (c_input_version c) user_key (Z.to_nat kNumLevels - (c_level c + 2)) (c_level c + 2) level_ptrs.
End Compaction.

(** Version::AddGuardsToEdit *)
Definition AddGuardsToEdit (v : Version) (edit : VersionEdit) (load_complete_guards : list nat) : VersionEdit :=
  fold_left (fun edit i =>
    if existsb (Nat.eqb i) load_complete_guards
    then fold_left (fun edit g => AddGuardFromExisting edit (Z.of_nat i) g) (level_of (v_complete_guards v) i) edit
    else edit) (seq 0 (Z.to_nat kNumLevels)) edit.

(** ** Lemmas *)
Section CompactionSpec.
Context (ucmp : Comparator) `{Hc : !ComparatorOk ucmp all_keys}.

(** The file holds the user key in its range. *)
Definition covers (u : bytes) (f : FileMetaData) : Prop :=
  Compare ucmp (file_start f) u <= 0 /\ Compare ucmp u (file_limit f) <= 0.

(** Files in the order of their smallest user keys, as a version keeps them. *)
Definition files_by_start (files : list FileMetaData) : Prop :=
  forall i j f g, (i < j)%nat -> files !! i = Some f -> files !! j = Some g -> Compare ucmp (file_start f) (file_start g) <= 0.

(** The files before [ptr] end before the key. *)
Definition ptr_ok (files : list FileMetaData) (ptr : nat) (u : bytes) : Prop :=
  forall i f, (i < ptr)%nat -> files !! i = Some f -> Compare ucmp (file_limit f) u < 0.

Lemma ptr_ok_mono files ptr u u' : ptr_ok files ptr u -> Compare ucmp u u' <= 0 -> ptr_ok files ptr u'.
Proof. intros H Hu i f Hi Hf. eapply (cmp_lt_le_trans (dom := all_keys)); [done..| |done]. by eapply H. Qed.

Lemma key_in_level_spec u files n : files_by_start files -> ptr_ok files n u ->
  let '(found, ptr) := key_in_level ucmp u (drop n files) n in
  (found = true <-> Exists (covers u) files) /\ ptr_ok files ptr u.
Proof.
  intros Hs. remember (drop n files) as rest eqn:Erest. revert n Erest.
  induction rest as [|f rest IH]; intros n Erest Hp; cbn [key_in_level].
  - split; [|done]. split; [done|]. intros (f & [i Hf]%list_elem_of_lookup & _ & Hle)%Exists_exists. exfalso.
    assert (Compare ucmp (file_limit f) u < 0) as Hlt.
    { apply (Hp i); [|done]. apply lookup_lt_Some in Hf. apply (f_equal length) in Erest. rewrite length_drop in Erest. simpl in Erest. lia. }
    apply (cmp_ge_le (dom := all_keys)) in Hle; [lia|done..].
  - assert (files !! n = Some f) as Hf by (rewrite <- (Nat.add_0_r n), <- lookup_drop, <- Erest; done).
    change (ExtractUserKey (fm_largest f)) with (file_limit f). change (ExtractUserKey (fm_smallest f)) with (file_start f).
    destruct (Z.leb_spec (Compare ucmp u (file_limit f)) 0) as [Hle|Hgt].
    + split; [|done]. rewrite Z.leb_le. split.
      * intros Hge. apply Exists_exists. exists f. split; [by eapply list_elem_of_lookup_2|]. split; [|done].
        by apply (cmp_ge_le (dom := all_keys)).
      * intros (g & [i Hg]%list_elem_of_lookup & Hsm & Hla)%Exists_exists.
        apply (cmp_ge_le (dom := all_keys)); [done..|].
        destruct (Nat.lt_trichotomy i n) as [Hlt| [-> |Hlt]].
        -- specialize (Hp i g Hlt Hg). apply (cmp_ge_le (dom := all_keys)) in Hla; [lia|done..].
        -- congruence.
        -- eapply (cmp_le_trans (dom := all_keys)); [done..|by apply (Hs n i f g)|done].
    + apply IH.
      * replace (S n) with (n + 1)%nat by lia. by rewrite <- drop_drop, <- Erest.
      * intros i g Hi Hg. destruct (decide (i = n)) as [->|]; [|by apply (Hp i); [lia|]].
        rewrite Hf in Hg. injection Hg as <-. by apply (cmp_gt_lt (dom := all_keys)).
Qed.

(** Levels [lvl], ..., [lvl + n - 1] have a file over the key. *)
Definition level_covers (v : Version) (u : bytes) (n lvl : nat) : Prop :=
  exists l, (lvl <= l < lvl + n)%nat /\ Exists (covers u) (level_of (v_files v) l).

Definition ptrs_ok (v : Version) (ptrs : list nat) (u : bytes) : Prop :=
  forall l, ptr_ok (level_of (v_files v) l) (nth l ptrs 0%nat) u.

Lemma nth_list_insert {A} (l : list A) i j x d :
  nth j (<[i := x]> l) d = if decide (i = j /\ (i < length l)%nat) then x else nth j l d.
Proof.
  rewrite !nth_lookup. destruct (decide _) as [[-> Hlt]|Hn]; [by rewrite list_lookup_insert_eq|].
  destruct (decide (i = j)) as [->|]; [|by rewrite list_lookup_insert_ne].
  by rewrite list_insert_ge by lia.
Qed.

Lemma base_level_loop_spec v u n : (forall l, files_by_start (level_of (v_files v) l)) -> forall lvl ptrs, ptrs_ok v ptrs u ->
  let '(base, ptrs') := base_level_loop ucmp v u n lvl ptrs in
  (base = true <-> ~ level_covers v u n lvl) /\ ptrs_ok v ptrs' u.
Proof.
  intros Hs. induction n as [|n IH]; intros lvl ptrs Hp; cbn [base_level_loop].
  { split; [|done]. split; [|done]. intros _ (l & Hl & _). lia. }
  pose proof (key_in_level_spec u _ (nth lvl ptrs 0%nat) (Hs lvl) (Hp lvl)) as Hk.
  destruct (key_in_level _ _ _ _) as [found ptr]. destruct Hk as [Hfound Hptr].
  assert (ptrs_ok v (<[lvl := ptr]> ptrs) u) as Hp'.
  { intros l. rewrite nth_list_insert. destruct (decide _) as [[<- _]|]; [done|apply Hp]. }
  destruct found.
  - split; [|done]. split; [done|]. intros Hno. exfalso. apply Hno. exists lvl. split; [lia|by apply Hfound].
  - specialize (IH (S lvl) _ Hp'). destruct (base_level_loop _ _ _ _ _ _) as [base ptrs']. destruct IH as [Hb Hp'']. split; [|done].
    rewrite Hb. split; intros H (l & Hl & Hcov); apply H.
    + destruct (decide (l = lvl)) as [->|]; [by apply Hfound in Hcov|]. exists l. split; [lia|done].
    + exists l. split; [lia|done].
Qed.
End CompactionSpec.
