(* ===== verification/Manifest.v ===== *)
(** * The MANIFEST (db/version_set.cc, db/filename.cc, util/env.cc)

    VersionSet::LogAndApply makes a new version and logs the edit to the
    MANIFEST; the first call after the database was opened begins a new MANIFEST
    with a snapshot of the current version and lets CURRENT name it.
    VersionSet::Recover reads the MANIFEST that CURRENT names.

    Every call of the environment may fail; a write that fails leaves any part
    of its data in the file.  A crash keeps what was synced of each file and any
    part of what was written after it.  RenameFile is atomic, as POSIX has it. *)

From Stdlib Require Import ZArith Lia Bool.
From Stdlib Require Import Strings.String.
From stdpp Require Import base list gmap.
From S2P Require Import Prelude Coding Comparator DbFormat Status FileName Log.
From S2P Require Import VersionEdit Guards VersionBuilder Compaction.

Set Default Goal Selector "!".
Local Open Scope Z_scope.

(** ** Files that survive crashes *)

(** The contents of a file, and how much of it Sync has made durable. *)
Record File := { f_data : bytes; f_synced : nat }.

Definition new_file : File := {| f_data := []; f_synced := 0 |}.

(** The files by name, and what the next calls return: a status and, for a
    write that fails, 0 when nothing is written and [S n] when [n] bytes are. *)
Record Env := { env_files : gmap bytes File; env_script : list (Status * nat) }.

Definition next_call (env : Env) : Status * nat * Env :=
  let '(s, n) := default (OK, 0%nat) (head (env_script env)) in
  (s, n, {| env_files := env_files env; env_script := tail (env_script env) |}).

Definition set_file (name : bytes) (f : File) (env : Env) : Env :=
  {| env_files := <[name := f]> (env_files env); env_script := env_script env |}.

(** NewWritableFile and NewConcurrentWritableFile truncate the file. *)
Definition CreateFile (name : bytes) (env : Env) : Status * Env :=
  let '(s, _, env) := next_call env in (s, if ok s then set_file name new_file env else env).

Definition WriteFileAt (name : bytes) (env : Env) (offset : Z) (data : bytes) : Status * Env :=
  let '(s, n, env) := next_call env in
  let f := default new_file (env_files env !! name) in
  let write data := set_file name {| f_data := write_at (f_data f) offset data; f_synced := f_synced f |} env in
  (s, if ok s then write data else match n with O => env | S n => write (take n data) end).

#[export] Instance EnvFile (name : bytes) : ConcurrentWritableFile Env := {| WriteAt := WriteFileAt name |}.

Definition AppendFile (name : bytes) (data : bytes) (env : Env) : Status * Env :=
  WriteFileAt name env (len (f_data (default new_file (env_files env !! name)))) data.

Definition SyncFile (name : bytes) (env : Env) : Status * Env :=
  let '(s, _, env) := next_call env in
  let f := default new_file (env_files env !! name) in
  (s, if ok s then set_file name {| f_data := f_data f; f_synced := length (f_data f) |} env else env).

Definition CloseFile (env : Env) : Status * Env := let '(s, _, env) := next_call env in (s, env).

Definition RemoveFile (name : bytes) (env : Env) : Env :=
  let '(s, _, env) := next_call env in
  if ok s then {| env_files := delete name (env_files env); env_script := env_script env |} else env.

Definition RenameFile (src target : bytes) (env : Env) : Status * Env :=
  let '(s, _, env) := next_call env in
  match env_files env !! src with
  | Some f => (s, if ok s then {| env_files := <[target := f]> (delete src (env_files env)); env_script := env_script env |} else env)
  | None => (if ok s then IOError [] else s, env)
  end.

(** ** util/env.cc *)
Definition DoWriteStringToFile (data fname : bytes) (should_sync : bool) (env : Env) : Status * Env :=
  let '(s, env) := CreateFile fname env in
  if negb (ok s) then (s, env)
  else
    let '(s, env) := AppendFile fname data env in
    let '(s, env) := if ok s && should_sync then SyncFile fname env else (s, env) in
    let '(s, env) := if ok s then CloseFile env else (s, env) in
    (s, if ok s then env else RemoveFile fname env).

Definition WriteStringToFileSync (data fname : bytes) (env : Env) : Status * Env := DoWriteStringToFile data fname true env.

(** NewSequentialFile: the file with the reads that will fail. *)
Definition NewSequentialFile (fname : bytes) (env : Env) : Status * SequentialFile * Env :=
  let '(s, _, env) := next_call env in
  match env_files env !! fname with
  | Some f => (s, {| sf_rest := f_data f; sf_fails := map (fun c => negb (ok (fst c))) (env_script env); sf_skip_fails := false |}, env)
  | None => (if ok s then IOError fname else s, sf_open [], env)
  end.

Definition kBufferSize : Z := 8192.

Fixpoint read_fragments (fuel : nat) (file : SequentialFile) (data : bytes) : option (Status * bytes) :=
  match fuel with
  | O => None
  | S fuel =>
      let '(s, fragment, file) := sf_Read file kBufferSize in
      if negb (ok s) then Some (s, data)
      else if len fragment =? 0 then Some (s, data ++ fragment)
      else read_fragments fuel file (data ++ fragment)
  end.

Definition ReadFileToString (fname : bytes) (env : Env) : option (Status * bytes * Env) :=
  let '(s, file, env) := NewSequentialFile fname env in
  if negb (ok s) then Some (s, [], env)
  else '(s, data) ← read_fragments (S (length (sf_rest file))) file []; Some (s, data, env).

(** ** SetCurrentFile *)
Definition SetCurrentFile (dbname : bytes) (descriptor_number : Z) (env : Env) : Status * Env :=
  let contents := drop (S (length dbname)) (DescriptorFileName dbname descriptor_number) in
  let tmp := TempFileName dbname descriptor_number in
  let '(s, env) := WriteStringToFileSync (contents ++ [z2b 10]) tmp env in
  let '(s, env) := if ok s then RenameFile tmp (CurrentFileName dbname) env else (s, env) in
  (s, if ok s then env else RemoveFile tmp env).

(** ** VersionSet *)
Record VersionSet := {
  next_file_number_ : Z;
  manifest_file_number_ : Z;
  last_sequence_ : Z;
  log_number_ : Z;
  prev_log_number_ : Z;
  descriptor_log_ : option Z;            (** the writer's offset_, NULL before the first LogAndApply *)
  current_ : Current;
  compact_pointer_ : list bytes;
}.

Definition as_current (v : Version) : Current :=
  {| cur_version := v; cur_scores := Finalize v; file_to_compact_ := None; file_to_compact_level_ := -1 |}.

Definition new_VersionSet : VersionSet :=
  {| next_file_number_ := 2; manifest_file_number_ := 0; last_sequence_ := 0; log_number_ := 0; prev_log_number_ := 0;
     descriptor_log_ := None; current_ := as_current new_Version; compact_pointer_ := replicate (Z.to_nat kNumLevels) [] |}.

Definition MarkFileNumberUsed (number : Z) (vs : VersionSet) : VersionSet :=
  {| next_file_number_ := if next_file_number_ vs <=? number then u64 (number + 1) else next_file_number_ vs;
     manifest_file_number_ := manifest_file_number_ vs; last_sequence_ := last_sequence_ vs; log_number_ := log_number_ vs;
     prev_log_number_ := prev_log_number_ vs; descriptor_log_ := descriptor_log_ vs; current_ := current_ vs;
     compact_pointer_ := compact_pointer_ vs |}.

Section Manifest.
Context (ucmp : Comparator) (dbname : bytes) (comparator_name : bytes).
(** What DecodeFrom takes from uninitialised memory. *)
Context (guard_less : Z * bytes -> Z * bytes -> bool) (tag2 fnumber : Z).

(** *** WriteSnapshot *)

(** sentinel_file_nos_ of a version is never filled, so the loop over it adds
    nothing to the edit. *)
Definition snapshot_level (edit : VersionEdit) (v : Version) (level : nat) : VersionEdit :=
  let edit := fold_left (fun e f => AddFile e (Z.of_nat level) (fm_number f) (fm_file_size f) (fm_smallest f) (fm_largest f))
    (level_of (v_files v) level) edit in
  let edit := fold_left (fun e g =>
    if 0 <? gm_number_segments g
    then AddGuardWithFiles e (Z.of_nat level) (gm_number_segments g) (gm_guard_key g) (gm_smallest g) (gm_largest g) (gm_files g)
    else VersionEdit.AddGuard e (Z.of_nat level) (gm_guard_key g)) (level_of (v_guards v) level) edit in
  fold_left (fun e g => VersionEdit.AddCompleteGuard e (Z.of_nat level) (gm_guard_key g)) (level_of (v_complete_guards v) level) edit.

Definition snapshot_edit (vs : VersionSet) : VersionEdit :=
  let edit := SetComparatorName new_VersionEdit comparator_name in
  let edit := fold_left (fun e level =>
    let key := default [] (compact_pointer_ vs !! level) in
    if len key =? 0 then e else SetCompactPointer e (Z.of_nat level) key) (seq 0 (Z.to_nat kNumLevels)) edit in
  fold_left (fun e level => snapshot_level e (cur_version (current_ vs)) level) (seq 0 (Z.to_nat kNumLevels)) edit.

(** log->AddRecord on the descriptor file; [offset] is the writer's offset_. *)
Definition AddManifestRecord (name : bytes) (offset : Z) (record : bytes) (env : Env) : Status * Z * Env :=
  let '(s, w) := @AddRecord Env (EnvFile name) {| dest_ := env; offset_ := offset |} record in
  (s, offset_ w, dest_ w).

Definition WriteSnapshot (name : bytes) (offset : Z) (vs : VersionSet) (env : Env) : Status * Z * Env :=
  AddManifestRecord name offset (EncodeTo [] (snapshot_edit vs)) env.

(** *** LogAndApply *)

(** The edit with what LogAndApply adds; an assert fails on a log number out of
    range. *)
Definition complete_edit (edit : VersionEdit) (vs : VersionSet) : option VersionEdit :=
  edit ← match ve_log_number edit with
         | Some n => if (log_number_ vs <=? n) && (n <? next_file_number_ vs) then Some edit else None
         | None => Some (SetLogNumber edit (log_number_ vs))
         end;
  let edit := match ve_prev_log_number edit with Some _ => edit | None => SetPrevLogNumber edit (prev_log_number_ vs) end in
  Some (SetLastSequence (SetNextFile edit (next_file_number_ vs)) (last_sequence_ vs)).

(** What writers do while the mutex is released. *)
Definition add_guards (added : list (Z * GuardMetaData)) (v : Version) : Version :=
  fold_left (fun v p => AddToCompleteGuards v (snd p) (fst p)) added v.

(** The complete guards from index [sizes] on, copied to the new version. *)
Definition sync_complete_guards (old new : Version) (sizes : list nat) : Version :=
  fold_left (fun v level =>
    fold_left (fun v g =>
      AddToCompleteGuards v {| gm_refs := 1; gm_level := Z.of_nat level; gm_number_segments := 0; gm_guard_key := gm_guard_key g;
                               gm_smallest := []; gm_largest := []; gm_files := []; gm_file_metas := [] |} (Z.of_nat level))
      (drop (nth level sizes 0%nat) (level_of (v_complete_guards old) level)) v) (seq 0 (Z.to_nat kNumLevels)) new.

Definition with_version (vs : VersionSet) (current : Current) (log prev : Z) (descriptor : option Z) (cp : list bytes) : VersionSet :=
  {| next_file_number_ := next_file_number_ vs; manifest_file_number_ := manifest_file_number_ vs; last_sequence_ := last_sequence_ vs;
     log_number_ := log; prev_log_number_ := prev; descriptor_log_ := descriptor; current_ := current; compact_pointer_ := cp |}.

Definition with_cur (c : Current) (v : Version) : Current :=
  {| cur_version := v; cur_scores := cur_scores c; file_to_compact_ := file_to_compact_ c; file_to_compact_level_ := file_to_compact_level_ c |}.

(** [added]: the guards writers add to the current version while the mutex is
    released for the write.  Returns the status, the state and the edit. *)
Definition LogAndApply (edit : VersionEdit) (added : list (Z * GuardMetaData)) (vs : VersionSet) (env : Env)
    : option (Status * VersionSet * VersionEdit * Env) :=
  edit ← complete_edit edit vs;
  let cur := current_ vs in
  let builder := Apply ucmp edit (new_Builder (compact_pointer_ vs) (cur_version cur)) in
  let cg_sizes := map (fun level => length (level_of (v_complete_guards (cur_version cur)) level)) (seq 0 (Z.to_nat kNumLevels)) in
  let '(v, saved) := SaveTo ucmp builder (Some edit) in
  let edit := default edit saved in
  let new_current := as_current v in
  let name := DescriptorFileName dbname (manifest_file_number_ vs) in
  let is_new := match descriptor_log_ vs with None => true | Some _ => false end in
  let '(s, descriptor, env) :=
    match descriptor_log_ vs with
    | Some offset => (OK, Some offset, env)
    | None =>
        let '(s, env) := CreateFile name env in
        if ok s then let '(s, offset, env) := WriteSnapshot name 0 vs env in (s, Some offset, env) else (s, None, env)
    end in
  (* the mutex is released *)
  let '(s, descriptor, env) :=
    match descriptor with
    | Some offset =>
        if ok s then
          let '(s, offset, env) := AddManifestRecord name offset (EncodeTo [] edit) env in
          let '(s, env) := if ok s then SyncFile name env else (s, env) in
          (s, Some offset, env)
        else (s, Some offset, env)
    | None => (s, None, env)
    end in
  let '(s, env) := if ok s && is_new then SetCurrentFile dbname (manifest_file_number_ vs) env else (s, env) in
  let old := with_cur cur (add_guards added (cur_version cur)) in
  let cp := b_compact_pointer builder in
  (* the mutex is held again *)
  if ok s then
    let v := sync_complete_guards (cur_version old) (cur_version new_current) cg_sizes in
    Some (s, with_version vs (with_cur new_current v) (default 0 (ve_log_number edit)) (default 0 (ve_prev_log_number edit)) descriptor cp, edit, env)
  else
    let '(descriptor, env) := if is_new then (None, RemoveFile name env) else (descriptor, env) in
    Some (s, with_version vs old (log_number_ vs) (prev_log_number_ vs) descriptor cp, edit, env).

(** *** Recover *)

(** LogReporter::Corruption keeps the first status that is reported. *)
Definition reported (s : Status) (before after : Reader) : Status :=
  match rev (take (length (reports after) - length (reports before)) (reports after)) with
  | (_, c) :: _ => if ok s then c else s
  | [] => s
  end.

(** The builder and the counters so far. *)
Record Recovered := {
  rc_builder : Builder;
  rc_log_number : option Z;
  rc_prev_log_number : option Z;
  rc_next_file : option Z;
  rc_last_sequence : option Z;
}.

Definition or_else (n : option Z) (m : option Z) : option Z := match n with Some _ => n | None => m end.

Definition check_comparator (edit : VersionEdit) : Status :=
  match ve_comparator edit with
  | Some name =>
      if bool_decide (name = comparator_name) then OK
      else mkStatus kInvalidArgument (name ++ bytes_of_string " does not match existing comparator ") comparator_name
  | None => OK
  end.

Definition recover_edit (edit : VersionEdit) (s : Status) (st : Recovered) : Status * Recovered :=
  let s := if ok s then check_comparator edit else s in
  (s, {| rc_builder := if ok s then Apply ucmp edit (rc_builder st) else rc_builder st;
         rc_log_number := or_else (ve_log_number edit) (rc_log_number st);
         rc_prev_log_number := or_else (ve_prev_log_number edit) (rc_prev_log_number st);
         rc_next_file := or_else (ve_next_file_number edit) (rc_next_file st);
         rc_last_sequence := or_else (ve_last_sequence edit) (rc_last_sequence st) |}).

Fixpoint recover_loop (fuel : nat) (r : Reader) (s : Status) (st : Recovered) : option (Status * Recovered) :=
  match fuel with
  | O => None
  | S fuel =>
      '(res, r') ← ReadRecord r;
      let s := reported s r r' in
      match res with
      | Some record =>
          if ok s then
            match DecodeFrom guard_less tag2 fnumber new_VersionEdit record with
            | Returned (s, edit) => let '(s, st) := recover_edit edit s st in recover_loop fuel r' s st
            | _ => None
            end
          else Some (s, st)
      | None => Some (s, st)
      end
  end.

(** What Recover does once the MANIFEST is read. *)
Definition finish_recovery (vs : VersionSet) (s : Status) (st : Recovered) : Status * VersionSet :=
  let vs := with_version vs (current_ vs) (log_number_ vs) (prev_log_number_ vs) (descriptor_log_ vs) (b_compact_pointer (rc_builder st)) in
  if ok s then
    let s := match rc_next_file st, rc_log_number st, rc_last_sequence st with
             | None, _, _ => Corruption (bytes_of_string "no meta-nextfile entry in descriptor")
             | _, None, _ => Corruption (bytes_of_string "no meta-lognumber entry in descriptor")
             | _, _, None => Corruption (bytes_of_string "no last-sequence-number entry in descriptor")
             | _, _, _ => OK
             end in
    let prev_log_number := default 0 (rc_prev_log_number st) in
    let log_number := default 0 (rc_log_number st) in
    let next_file := default 0 (rc_next_file st) in
    let vs := MarkFileNumberUsed log_number (MarkFileNumberUsed prev_log_number vs) in
    if ok s then
      let '(v, _) := SaveTo ucmp (rc_builder st) None in
      (s, {| next_file_number_ := u64 (next_file + 1); manifest_file_number_ := next_file;
             last_sequence_ := default 0 (rc_last_sequence st); log_number_ := log_number; prev_log_number_ := prev_log_number;
             descriptor_log_ := descriptor_log_ vs; current_ := as_current v; compact_pointer_ := compact_pointer_ vs |})
    else (s, vs)
  else (s, vs).

(** Each record takes at least a header of the file, which bounds the loop. *)
Definition Recover (vs : VersionSet) (env : Env) : option (Status * VersionSet) :=
  '(s, curfile, env) ← ReadFileToString (CurrentFileName dbname) env;
  if negb (ok s) then Some (s, vs)
  else if (len curfile =? 0) || negb (bool_decide (last curfile = Some (z2b 10))) then
    Some (Corruption (bytes_of_string "CURRENT file does not end with newline"), vs)
  else
    let dscname := dbname ++ bytes_of_string "/" ++ take (length curfile - 1) curfile in
    let '(s, file, env) := NewSequentialFile dscname env in
    if negb (ok s) then Some (s, vs)
    else
      let st := {| rc_builder := new_Builder (compact_pointer_ vs) (cur_version (current_ vs)); rc_log_number := None;
                   rc_prev_log_number := None; rc_next_file := None; rc_last_sequence := None |} in
      '(s, st) ← recover_loop (S (length (sf_rest file))) (new_reader file true true 0) s st;
      Some (finish_recovery vs s st).

(** *** DBImpl::NewDB *)
Definition NewDB (env : Env) : Status * Env :=
  let new_db := SetLastSequence (SetNextFile (SetLogNumber (SetComparatorName new_VersionEdit comparator_name) 0) 2) 0 in
  let manifest := DescriptorFileName dbname 1 in
  let '(s, env) := CreateFile manifest env in
  if negb (ok s) then (s, env)
  else
    let '(s, _, env) := AddManifestRecord manifest 0 (EncodeTo [] new_db) env in
    let '(s, env) := if ok s then CloseFile env else (s, env) in
    if ok s then SetCurrentFile dbname 1 env else (s, RemoveFile manifest env).
End Manifest.
