(* ===== verification/ManifestSpec.v ===== *)
(** * Crash safety of the MANIFEST (db/version_set.cc: LogAndApply, Recover)

    An edit that LogAndApply reports as logged is there after a crash; one that
    fails leaves the database as it was, or as the edit would have made it.  The
    environment's calls may fail in any way, and a crash keeps of each file what
    was synced and any part of what was written after it. *)

From Stdlib Require Import ZArith Lia Bool.
From Stdlib Require Import Strings.String.
From stdpp Require Import base list gmap.
From S2P Require Import Prelude Coding Comparator DbFormat Status FileName Log LogSpec.
From S2P Require Import VersionEdit Guards VersionBuilder VersionBuilderSpec VersionHistory Compaction Manifest.

Set Default Goal Selector "!".
Local Open Scope Z_scope.

(** ** Writes that may fail *)

(** Writing past the end, with zero bytes in between. *)
Lemma write_at_past f o d : len f <= o -> write_at f o d = f ++ replicate (Z.to_nat o - length f) Byte.x00 ++ d.
Proof.
  intros Ho. rewrite write_at_gap, write_at_end by (done || (rewrite len_app; unfold len in *; rewrite length_replicate; lia)).
  by rewrite app_assoc.
Qed.

(** What a failing write leaves of the bytes [T] the file would have had. *)
Definition grows (name : bytes) (d : bytes) (k : nat) (T : bytes) (done : bool) (env env' : Env) : Prop :=
  exists d', env_files env' = <[name := {| f_data := d'; f_synced := k |}]> (env_files env) /\
    d `prefix_of` d' /\ d' `prefix_of` T /\ (done = true -> d' = T).

Lemma WriteFileAt_grows name env d k offset data :
  env_files env !! name = Some {| f_data := d; f_synced := k |} -> len d <= offset ->
  let '(s, env') := WriteFileAt name env offset data in
  grows name d k (d ++ replicate (Z.to_nat offset - length d) Byte.x00 ++ data) (ok s) env env'.
Proof.
  intros Hf Ho. unfold WriteFileAt, next_call. destruct (default _ _) as [s n]. cbn [env_files]. rewrite Hf. cbn [default f_data f_synced id].
  destruct (ok s) eqn:Hs; [|destruct n as [|n]]; unfold grows; cbn [set_file env_files].
  - eexists. split; [reflexivity|]. rewrite write_at_past by done. split; [by apply prefix_app_r|]. done.
  - exists d. split; [by rewrite insert_id|]. split; [done|]. split; [by apply prefix_app_r|done].
  - eexists. split; [reflexivity|]. rewrite write_at_past by done. split; [by apply prefix_app_r|]. split; [|done].
    do 2 apply prefix_app. exists (drop n data). by rewrite take_drop.
Qed.

Lemma grows_refl name d k T env : env_files env !! name = Some {| f_data := d; f_synced := k |} -> d `prefix_of` T -> grows name d k T false env env.
Proof. intros Hf HT. exists d. by rewrite insert_id. Qed.

Lemma grows_trans name d k T T' b b' env env1 env' : grows name d k T b env env1 ->
  (forall d1, env_files env1 !! name = Some {| f_data := d1; f_synced := k |} -> d `prefix_of` d1 -> d1 `prefix_of` T ->
     (b = true -> d1 = T) -> grows name d1 k T' b' env1 env') ->
  grows name d k T' b' env env'.
Proof.
  intros (d1 & E1 & P1 & P2 & Hb) H. destruct (H d1) as (d2 & E2 & Q1 & Q2 & Hb'); [by rewrite E1, lookup_insert_eq|done..|].
  exists d2. rewrite E2, E1, insert_insert_eq. split; [done|]. split; [by etrans|]. done.
Qed.

Lemma grows_weaken name d k T T' env env' b : grows name d k T b env env' -> T `prefix_of` T' -> grows name d k T' false env env'.
Proof. intros (d' & E & P1 & P2 & _) HT. exists d'. split; [done|]. split; [done|]. split; [by etrans|done]. Qed.

Lemma EmitPhysicalRecordAt_grows name env d k t ptr offset :
  env_files env !! name = Some {| f_data := d; f_synced := k |} -> len d <= offset ->
  let '(s, env') := @EmitPhysicalRecordAt Env (EnvFile name) t ptr offset env in
  grows name d k (d ++ replicate (Z.to_nat offset - length d) Byte.x00 ++ record_header t ptr ++ ptr) (ok s) env env'.
Proof.
  intros Hf Ho. unfold EmitPhysicalRecordAt. cbn [WriteAt EnvFile].
  pose proof (WriteFileAt_grows name env d k offset (record_header t ptr) Hf Ho) as H1.
  destruct (WriteFileAt name env offset _) as [s1 env1]. destruct (ok s1) eqn:Hs1.
  - destruct (WriteFileAt name env1 (offset + kHeaderSize) ptr) as [s2 env2] eqn:E2. eapply grows_trans; [exact H1|].
    intros d1 Hf1 _ _ Hd1. specialize (Hd1 eq_refl).
    assert (len d1 = offset + kHeaderSize) as Hl.
    { subst d1. rewrite !len_app, len_record_header. unfold len in *. rewrite length_replicate. lia. }
    pose proof (WriteFileAt_grows name env1 d1 k (offset + kHeaderSize) ptr Hf1 ltac:(lia)) as H2. rewrite E2 in H2.
    replace (Z.to_nat (offset + kHeaderSize) - length d1)%nat with 0%nat in H2 by (unfold len in Hl; lia).
    rewrite Hd1 in H2 |- *. cbn [replicate app] in H2. by rewrite <- !app_assoc in H2.
  - rewrite Hs1. eapply grows_weaken; [exact H1|]. do 2 apply prefix_app. by apply prefix_app_r.
Qed.

(** Zero bytes already there, or still missing. *)
Lemma zeros_complete (d d1 : bytes) (n : nat) : d `prefix_of` d1 -> d1 `prefix_of` d ++ replicate n Byte.x00 ->
  d1 ++ replicate (length d + n - length d1) Byte.x00 = d ++ replicate n Byte.x00.
Proof.
  intros [z ->] Hp. apply prefix_app_inv in Hp. pose proof (prefix_length _ _ Hp) as Hl. destruct Hp as [z' Hz].
  assert (z = replicate (length z) Byte.x00) as ->.
  { symmetry. apply replicate_as_Forall_2; [done|]. assert (Forall (Byte.x00 =.) (replicate n Byte.x00)) as H by (by apply Forall_replicate).
    rewrite Hz in H. by apply Forall_app in H as [H _]. }
  rewrite !length_app, !length_replicate in *. rewrite <- app_assoc, <- replicate_add. do 2 f_equal. lia.
Qed.

Lemma emit_loop_grows name k fuel : forall begin ptr offset env d,
  env_files env !! name = Some {| f_data := d; f_synced := k |} -> offset = len d ->
  let '(s, env') := @emit_loop Env (EnvFile name) fuel begin ptr offset env in
  grows name d k (d ++ log_image fuel begin ptr offset) (ok s) env env'.
Proof.
  induction fuel as [|fuel IH]; intros begin ptr offset env d Hf Ho.
  { cbn. exists d. rewrite app_nil_r, insert_id by done. done. }
  rewrite emit_loop_step. cbn [WriteAt EnvFile log_image]. cbv zeta.
  set (n := Z.min (len ptr) (block_avail offset)). set (pad := block_pad offset).
  set (t := record_type begin (len ptr =? n)). set (frag := take (Z.to_nat n) ptr).
  pose proof (block_pad_range offset) as Hpr. fold pad in Hpr. pose proof (block_avail_range offset) as Har.
  match goal with |- context [if ?c then snd ?w else env] => set (env0 := if c then snd w else env) end.
  assert (grows name d k (d ++ replicate (Z.to_nat pad) Byte.x00) false env env0) as H0.
  { unfold env0. destruct (_ <? _); [|by apply grows_refl; [|apply prefix_app_r]].
    pose proof (WriteFileAt_grows name env d k offset (replicate (Z.to_nat pad) Byte.x00) Hf ltac:(lia)) as H.
    destruct (WriteFileAt _ _ _ _) as [s1 env1]. cbn [snd]. eapply grows_weaken; [exact H|].
    replace (Z.to_nat offset - length d)%nat with 0%nat by (unfold len in Ho; lia). done. }
  destruct (EmitPhysicalRecordAt t frag (offset + pad) env0) as [s1 env1] eqn:E1.
  assert (grows name d k (d ++ replicate (Z.to_nat pad) Byte.x00 ++ record_header t frag ++ frag) (ok s1) env env1) as H1.
  { eapply grows_trans; [exact H0|]. intros d1 Hf1 P1 P2 _.
    pose proof (prefix_length _ _ P2) as Hl. rewrite length_app, length_replicate in Hl.
    pose proof (EmitPhysicalRecordAt_grows name env0 d1 k t frag (offset + pad) Hf1 ltac:(unfold len in *; lia)) as H. rewrite E1 in H.
    pose proof (zeros_complete _ _ _ P1 P2) as Hz. rewrite app_assoc in H |- *. rewrite <- Hz. rewrite <- app_assoc in H |- *.
    replace (length d + Z.to_nat pad - length d1)%nat with (Z.to_nat (offset + pad) - length d1)%nat by (unfold len in Ho; lia). exact H. }
  destruct (ok s1) eqn:Hs1; cbn [andb]; [|rewrite Hs1; eapply grows_weaken; [exact H1|]; rewrite !app_assoc; by apply prefix_app_r].
  destruct (n <? len ptr) eqn:Hn; [|rewrite Hs1, app_nil_r; exact H1].
  destruct (emit_loop fuel false _ _ env1) as [s2 env2] eqn:E2. eapply grows_trans; [exact H1|].
  intros d1 Hf1 _ _ Hd1. specialize (Hd1 eq_refl).
  assert (offset + pad + kHeaderSize + n = len d1) as Hl.
  { subst d1. rewrite !len_app, len_record_header. unfold frag. apply Z.ltb_lt in Hn. unfold len in *. rewrite length_replicate, length_take. lia. }
  pose proof (IH false (drop (Z.to_nat n) ptr) _ env1 d1 Hf1 Hl) as H2. fold pad in H2. rewrite E2 in H2.
  rewrite Hd1 in H2 |- *. by rewrite <- !app_assoc in H2.
Qed.

Lemma AddManifestRecord_grows name env d k record :
  env_files env !! name = Some {| f_data := d; f_synced := k |} ->
  let '(s, offset, env') := AddManifestRecord name (len d) record env in
  offset = reserve (len d) (len record) /\ grows name d k (d ++ record_image (len d) record) (ok s) env env'.
Proof.
  intros Hf. unfold AddManifestRecord, AddRecord, record_image. cbn [offset_ dest_].
  pose proof (emit_loop_grows name k (emit_fuel record) true record (len d) env d Hf eq_refl) as H.
  destruct (emit_loop _ _ _ _ _) as [s env']. cbn [offset_ dest_]. done.
Qed.

Lemma log_file_snoc records d : forall P, log_file P (records ++ [d]) = log_file P records ++ record_image (P + len (log_file P records)) d.
Proof.
  induction records as [|r records IH]; intros P; cbn [log_file app].
  - len_nils. by rewrite Z.add_0_r, app_nil_r.
  - rewrite IH, len_app, <- app_assoc. do 3 f_equal. lia.
Qed.

Lemma no_exact_fill_snoc records d : forall P, no_exact_fill P (records ++ [d]) = true ->
  no_exact_fill P records = true /\ exact_fill (P + len (log_file P records)) (len d) = false.
Proof.
  induction records as [|r records IH]; intros P; cbn [log_file app no_exact_fill].
  - len_nils. rewrite Z.add_0_r, andb_true_r, negb_true_iff. done.
  - intros [H1 [H2 H3]%IH]%andb_true_iff. rewrite H1, H2, len_app. split; [done|]. rewrite <- H3. f_equal. lia.
Qed.

(** ** Calls on one file leave the others *)
Ltac not_in := repeat (apply not_elem_of_cons; split; [congruence|]); apply not_elem_of_nil.

Definition only (names : list bytes) (env env' : Env) : Prop := forall n, n ∉ names -> env_files env' !! n = env_files env !! n.

Lemma only_trans names env env1 env' : only names env env1 -> only names env1 env' -> only names env env'.
Proof. intros H1 H2 n Hn. by rewrite H2, H1. Qed.

Lemma only_weaken names names' env env' : only names env env' -> names ⊆ names' -> only names' env env'.
Proof. intros H Hs n Hn. apply H. set_solver. Qed.

Lemma next_call_files env : let '(s, n, env') := next_call env in env_files env' = env_files env.
Proof. unfold next_call. by destruct (default _ _). Qed.

Ltac next env :=
  let H := fresh "Hnext" in
  let s := fresh "s" in let w := fresh "written" in let e := fresh "env_next" in
  pose proof (next_call_files env) as H; destruct (next_call env) as [[s w] e]; cbn [env_files] in H.

Lemma RemoveFile_only name env : only [name] env (RemoveFile name env).
Proof.
  unfold RemoveFile. next env. destruct (ok _); intros n Hn; cbn [env_files]; rewrite ?Hnext; [|done].
  apply lookup_delete_ne. set_solver.
Qed.

Lemma grows_only name d k T b env env' : grows name d k T b env env' -> only [name] env env'.
Proof. intros (d' & E & _) n Hn. rewrite E. apply lookup_insert_ne. set_solver. Qed.

Lemma CreateFile_spec name env : let '(s, env') := CreateFile name env in
  only [name] env env' /\ (ok s = true -> env_files env' !! name = Some new_file).
Proof.
  unfold CreateFile. next env. destruct (ok _); split; try done.
  - intros n Hn. cbn [set_file env_files]. rewrite Hnext. apply lookup_insert_ne. set_solver.
  - intros _. apply lookup_insert_eq.
  - intros n Hn. by rewrite Hnext.
Qed.

Lemma SyncFile_spec name env d k : env_files env !! name = Some {| f_data := d; f_synced := k |} -> let '(s, env') := SyncFile name env in
  env_files env' = <[name := {| f_data := d; f_synced := if ok s then length d else k |}]> (env_files env).
Proof.
  intros Hf. unfold SyncFile. next env. cbv zeta. destruct (ok s); cbn [set_file env_files]; rewrite ?Hnext, ?Hf; [done|].
  by rewrite insert_id.
Qed.

Lemma DoWriteStringToFile_spec data fname env : let '(s, env') := DoWriteStringToFile data fname true env in
  only [fname] env env' /\ (ok s = true -> env_files env' !! fname = Some {| f_data := data; f_synced := length data |}).
Proof.
  unfold DoWriteStringToFile. pose proof (CreateFile_spec fname env) as H1. destruct (CreateFile fname env) as [s1 env1]. destruct H1 as [O1 F1].
  destruct (ok s1) eqn:Hs1; cbn [negb]; [|by rewrite Hs1]. specialize (F1 eq_refl). unfold AppendFile. rewrite F1. cbn [default id f_data new_file].
  pose proof (WriteFileAt_grows fname env1 [] 0 (len []) data F1 ltac:(done)) as H2. destruct (WriteFileAt fname env1 _ data) as [s2 env2].
  pose proof (grows_only _ _ _ _ _ _ _ H2) as O2. destruct H2 as (d2 & E2 & _ & _ & D2). cbn [app replicate] in D2.
  assert (only [fname] env env2) as O3 by (by eapply only_trans).
  destruct (ok s2) eqn:Hs2; cbn [andb]; rewrite ?Hs2.
  - assert (d2 = data) as -> by (by apply D2).
    assert (env_files env2 !! fname = Some {| f_data := data; f_synced := 0 |}) as F2 by (rewrite E2; apply lookup_insert_eq).
    pose proof (SyncFile_spec fname env2 data 0 F2) as H3. destruct (SyncFile fname env2) as [s3 env3].
    assert (only [fname] env env3) as O4. { eapply only_trans; [exact O3|]. intros n Hn. rewrite H3. apply lookup_insert_ne. set_solver. }
    destruct (ok s3) eqn:Hs3.
    + unfold CloseFile. next env3. destruct (ok s) eqn:Hs.
      * split; [by intros n' Hn'; rewrite Hnext, O4|]. intros _. rewrite Hnext, H3. apply lookup_insert_eq.
      * split; [|done]. eapply only_trans; [|apply RemoveFile_only]. intros n' Hn'. by rewrite Hnext, O4.
    + rewrite Hs3. split; [|done]. eapply only_trans; [exact O4|apply RemoveFile_only].
  - split; [|done]. eapply only_trans; [exact O3|apply RemoveFile_only].
Qed.

(** What CURRENT holds for a descriptor. *)
Definition current_contents (number : Z) : bytes := bytes_of_string "MANIFEST-" ++ pad6 number ++ [z2b 10].

Lemma SetCurrentFile_contents dbname number :
  drop (S (length dbname)) (DescriptorFileName dbname number) ++ [z2b 10] = current_contents number.
Proof.
  unfold DescriptorFileName, current_contents. change (bytes_of_string "/MANIFEST-" ++ pad6 number) with (z2b 47 :: bytes_of_string "MANIFEST-" ++ pad6 number).
  change (drop (S (length dbname))) with (base_name dbname). rewrite base_name_app. by rewrite <- app_assoc.
Qed.

Lemma file_name_distinct dbname n m : 0 <= n < 2 ^ 64 -> 0 <= m < 2 ^ 64 ->
  DescriptorFileName dbname n <> CurrentFileName dbname /\ DescriptorFileName dbname n <> TempFileName dbname m /\
  TempFileName dbname m <> CurrentFileName dbname /\ (DescriptorFileName dbname n = DescriptorFileName dbname m -> n = m).
Proof.
  intros Hn Hm. destruct (file_names_parse dbname n Hn) as (_ & _ & _ & T1 & D1 & C1 & _).
  destruct (file_names_parse dbname m Hm) as (_ & _ & _ & T2 & D2 & _).
  repeat split; intros E; [rewrite E in D1|rewrite E in D1|rewrite E in T2|rewrite E in D1]; congruence.
Qed.

Lemma SetCurrentFile_spec dbname number env : 0 <= number < 2 ^ 64 ->
  let '(s, env') := SetCurrentFile dbname number env in
  only [TempFileName dbname number; CurrentFileName dbname] env env' /\
  env_files env' !! CurrentFileName dbname =
    if ok s then Some {| f_data := current_contents number; f_synced := length (current_contents number) |}
    else env_files env !! CurrentFileName dbname.
Proof.
  intros Hn. destruct (file_name_distinct dbname number number Hn Hn) as (_ & _ & Hne & _). unfold SetCurrentFile, WriteStringToFileSync.
  rewrite SetCurrentFile_contents. set (tmp := TempFileName dbname number) in *. set (cur := CurrentFileName dbname) in *.
  pose proof (DoWriteStringToFile_spec (current_contents number) tmp env) as H1. destruct (DoWriteStringToFile _ _ _ _) as [s1 env1].
  destruct H1 as [O1 F1]. assert (cur ∉ [tmp]) as Hcur by not_in.
  assert (forall e, only [tmp] env e -> only [tmp; cur] env (RemoveFile tmp e) /\ env_files (RemoveFile tmp e) !! cur = env_files env !! cur) as Hfail.
  { intros e He. assert (only [tmp] env (RemoveFile tmp e)) as H by (eapply only_trans; [exact He|apply RemoveFile_only]).
    split; [eapply only_weaken; [exact H|set_solver]|by apply H]. }
  destruct (ok s1) eqn:Hs1; [|rewrite Hs1; by apply Hfail]. specialize (F1 eq_refl). unfold RenameFile. next env1. rewrite Hnext, F1.
  destruct (ok s) eqn:Hs; [|apply Hfail; intros n Hn'; by rewrite Hnext, O1]. cbn [env_files]. split; [|apply lookup_insert_eq].
  intros n Hn'. cbn [env_files]. rewrite lookup_insert_ne, lookup_delete_ne by set_solver. apply O1. set_solver.
Qed.

(** ** Reading files back *)
Lemma read_fragments_all fuel : forall rest data skip, (length rest < fuel)%nat ->
  read_fragments fuel {| sf_rest := rest; sf_fails := []; sf_skip_fails := skip |} data = Some (OK, data ++ rest).
Proof.
  induction fuel as [|fuel IH]; intros rest data skip Hf; [lia|]. cbn [read_fragments sf_Read sf_rest sf_fails]. cbn [ok OK negb tail].
  destruct rest as [|c rest].
  - rewrite take_nil. len_nils. done.
  - destruct (Z.eqb_spec (len (take (Z.to_nat kBufferSize) (c :: rest))) 0) as [E|E].
    { exfalso. unfold len in E. rewrite length_take in E. unfold kBufferSize in E. simpl length in E. lia. }
    rewrite IH, <- app_assoc, take_drop; [done|]. rewrite length_drop. unfold kBufferSize. simpl length in *. lia.
Qed.

Lemma ReadFileToString_ok fname env f : env_files env !! fname = Some f -> env_script env = [] ->
  ReadFileToString fname env = Some (OK, f_data f, env).
Proof.
  intros Hf Hs. unfold ReadFileToString, NewSequentialFile, next_call. rewrite Hs. cbn [default head id env_files env_script tail map]. rewrite Hf.
  cbn [ok OK negb]. rewrite read_fragments_all by (simpl; lia). cbn [mbind option_bind app]. do 2 f_equal. by destruct env; simpl in *; subst.
Qed.

(** ** A crash *)

(** What was synced of each file is kept, and any part of the rest; then the
    calls succeed. *)
Definition reopened (env env' : Env) : Prop :=
  env_script env' = [] /\
  forall name, match env_files env !! name with
    | Some f => exists m, (f_synced f <= m)%nat /\
        env_files env' !! name = Some {| f_data := take m (f_data f); f_synced := length (take m (f_data f)) |}
    | None => env_files env' !! name = None
    end.

Section ManifestSpec.
Context (ucmp : Comparator) `{Hc : !ComparatorOk ucmp all_keys} (dbname comparator_name : bytes).
Context (guard_less : Z * bytes -> Z * bytes -> bool) (tag2 fnumber : Z).
Notation edit_ok := (edit_ok guard_less).
Notation record e := (EncodeTo [] e) (only parsing).

(** ** What Recover makes of a list of edits *)
Definition recover_step (st : Recovered) (e : VersionEdit) : Recovered := snd (recover_edit ucmp comparator_name (edit_saved e) OK st).

Definition comparator_ok (e : VersionEdit) : Prop := ve_comparator e = None \/ ve_comparator e = Some comparator_name.

Lemma recover_edit_ok e st : comparator_ok e -> recover_edit ucmp comparator_name (edit_saved e) OK st = (OK, recover_step st e).
Proof.
  intros He. unfold recover_step, recover_edit, check_comparator. cbn [ok OK ve_comparator edit_saved].
  destruct He as [-> | ->]; [done|]. by rewrite bool_decide_eq_true_2.
Qed.

Lemma reported_same s r r' : same_config r r' -> reported s r r' = s.
Proof. intros (E & _). unfold reported. by rewrite E, Nat.sub_diag. Qed.

(** Recover applies the edits whose records are whole. *)
Lemma recover_loop_prefix es : forall P m r st fuel, Forall edit_ok es -> Forall comparator_ok es ->
  reads r P (take m (log_file P (map (EncodeTo []) es))) -> (length (take m (log_file P (map (EncodeTo []) es))) < fuel)%nat ->
  exists j, (j <= length es)%nat /\
    (forall i, (i <= length es)%nat -> (length (log_file P (map (EncodeTo []) (take i es))) <= m)%nat -> (i <= j)%nat) /\
    recover_loop ucmp comparator_name guard_less tag2 fnumber fuel r OK st = Some (OK, fold_left recover_step (take j es) st).
Proof.
  induction es as [|e es IH]; intros P m r st fuel Hok Hcmp Hr Hf; (destruct fuel as [|fuel]; [lia|]); cbn [recover_loop].
  - exists 0%nat. cbn [map log_file] in Hr. rewrite take_nil in Hr. destruct (ReadRecord_end r P Hr) as (r' & -> & Hcfg).
    cbn [mbind option_bind]. rewrite reported_same by done. split; [done|]. split; [|done]. intros i Hi. simpl in Hi. lia.
  - apply Forall_cons in Hok as [He Hok]. apply Forall_cons in Hcmp as [Hce Hcmp]. cbn [map] in Hr, Hf.
    destruct (ReadRecord_prefix r P m _ _ Hr) as (r' & Hcfg & Hres). destruct (decide _) as [Hm|Hm].
    + exists 0%nat. rewrite Hres. cbn [mbind option_bind]. rewrite reported_same by done. split; [lia|]. split; [|done].
      intros [|i] _ Hi; [lia|]. cbn [take map log_file] in Hi. rewrite length_app in Hi. lia.
    + destruct Hres as [-> Hr']. cbn [mbind option_bind]. rewrite reported_same by done. cbn [ok OK].
      rewrite DecodeFrom_EncodeTo, recover_edit_ok by done.
      pose proof (record_image_length P (EncodeTo [] e)) as Hpos. cbn [log_file] in Hf. rewrite !length_take, length_app in Hf.
      edestruct (IH _ _ r' (recover_step st e) fuel Hok Hcmp Hr') as (j & Hj & Hmax & ->); [rewrite !length_take; lia|].
      exists (S j). split; [simpl; lia|]. split; [|done]. intros [|i] Hi Hlen; [lia|]. cbn [take map log_file] in Hlen. rewrite length_app in Hlen.
      simpl in Hi. specialize (Hmax i ltac:(lia) ltac:(lia)). lia.
Qed.

(** The last value an edit gives to a counter. *)
Definition last_counter (f : VersionEdit -> option Z) (es : list VersionEdit) : option Z :=
  fold_left (fun n e => or_else (f e) n) es None.

Lemma last_counter_snoc f es e : last_counter f (es ++ [e]) = or_else (f e) (last_counter f es).
Proof. unfold last_counter. by rewrite fold_left_app. Qed.

Definition no_pointers : list bytes := replicate (Z.to_nat kNumLevels) [].

(** The state the edits stand for. *)
Definition replayed (es : list VersionEdit) : VersionSet :=
  let next := default 0 (last_counter ve_next_file_number es) in
  {| next_file_number_ := u64 (next + 1); manifest_file_number_ := next;
     last_sequence_ := default 0 (last_counter ve_last_sequence es);
     log_number_ := default 0 (last_counter ve_log_number es);
     prev_log_number_ := default 0 (last_counter ve_prev_log_number es);
     descriptor_log_ := None;
     current_ := as_current (apply_edits ucmp no_pointers new_Version (map edit_saved es) None);
     compact_pointer_ := b_compact_pointer (history_builder ucmp no_pointers new_Version (map edit_saved es)) |}.

Definition has_counters (es : list VersionEdit) : Prop :=
  is_Some (last_counter ve_next_file_number es) /\ is_Some (last_counter ve_log_number es) /\ is_Some (last_counter ve_last_sequence es).

Definition nothing_recovered : Recovered :=
  {| rc_builder := new_Builder no_pointers new_Version; rc_log_number := None; rc_prev_log_number := None; rc_next_file := None;
     rc_last_sequence := None |}.

Lemma recover_fold es : Forall comparator_ok es -> fold_left recover_step es nothing_recovered =
  {| rc_builder := history_builder ucmp no_pointers new_Version (map edit_saved es); rc_log_number := last_counter ve_log_number es;
     rc_prev_log_number := last_counter ve_prev_log_number es; rc_next_file := last_counter ve_next_file_number es;
     rc_last_sequence := last_counter ve_last_sequence es |}.
Proof.
  induction es as [|e es IH] using rev_ind; intros Hcmp; [done|]. apply Forall_app in Hcmp as [Hcmp [He _]%Forall_cons].
  rewrite fold_left_app, IH by done. cbn [fold_left]. rewrite map_app, !last_counter_snoc. cbn [map]. rewrite history_builder_snoc.
  unfold recover_step, recover_edit, check_comparator. cbn [ok OK ve_comparator edit_saved snd].
  destruct He as [-> | ->]; [done|]. by rewrite bool_decide_eq_true_2.
Qed.

Lemma Recover_opens n env f : env_script env = [] -> f_data <$> env_files env !! CurrentFileName dbname = Some (current_contents n) ->
  env_files env !! DescriptorFileName dbname n = Some f ->
  Recover ucmp dbname comparator_name guard_less tag2 fnumber new_VersionSet env =
    '(s, st) ← recover_loop ucmp comparator_name guard_less tag2 fnumber (S (length (f_data f))) (new_reader (sf_open (f_data f)) true true 0) OK nothing_recovered;
    Some (finish_recovery ucmp new_VersionSet s st).
Proof.
  intros Hs Hcur Hdesc. destruct (env_files env !! CurrentFileName dbname) as [cf|] eqn:Ecf; [|done]. injection Hcur as Hcur.
  unfold Recover. rewrite (ReadFileToString_ok _ _ _ Ecf Hs), Hcur. cbn [mbind option_bind ok OK negb].
  assert ((len (current_contents n) =? 0) = false) as -> by done.
  assert (last (current_contents n) = Some (z2b 10)) as Hlast. { unfold current_contents. rewrite app_assoc. apply last_snoc. }
  rewrite bool_decide_eq_true_2 by done. cbn [orb negb].
  assert (dbname ++ bytes_of_string "/" ++ take (length (current_contents n) - 1) (current_contents n) = DescriptorFileName dbname n) as ->.
  { unfold current_contents, DescriptorFileName. rewrite !app_assoc, length_app, Nat.add_sub. rewrite take_app_length.
    by rewrite <- !app_assoc. }
  unfold NewSequentialFile, next_call. rewrite Hs. cbn [default head id env_files env_script tail map]. rewrite Hdesc. done.
Qed.

Lemma Recover_prefix es n m k env : Forall edit_ok es -> Forall comparator_ok es -> len (log_file 0 (map (EncodeTo []) es)) < 2 ^ 64 ->
  env_script env = [] -> f_data <$> env_files env !! CurrentFileName dbname = Some (current_contents n) ->
  env_files env !! DescriptorFileName dbname n = Some {| f_data := take m (log_file 0 (map (EncodeTo []) es)); f_synced := k |} ->
  exists j, (j <= length es)%nat /\
    (forall i, (i <= length es)%nat -> (length (log_file 0 (map (EncodeTo []) (take i es))) <= m)%nat -> (i <= j)%nat) /\
    (has_counters (take j es) ->
     Recover ucmp dbname comparator_name guard_less tag2 fnumber new_VersionSet env = Some (OK, replayed (take j es))).
Proof.
  intros Hok Hcmp Hsize Hs Hcur Hdesc. rewrite (Recover_opens n env _ Hs Hcur Hdesc). cbn [f_data].
  set (stream := take m (log_file 0 (map (EncodeTo []) es))) in *.
  assert (len stream < 2 ^ 64) as Hst. { unfold stream, len in *. rewrite length_take. lia. }
  destruct (recover_loop_prefix es 0 m (new_reader (sf_open stream) true true 0) nothing_recovered (S (length stream)) Hok Hcmp)
    as (j & Hj & Hmax & ->); [by apply reads_new_reader|fold stream; lia|].
  exists j. split; [done|]. split; [done|]. intros ([next En] & [lg El] & [sq Eq]). rewrite recover_fold by (by apply Forall_take).
  unfold finish_recovery, replayed, apply_edits. fold (history_builder ucmp no_pointers new_Version (map edit_saved (take j es))).
  cbn [mbind option_bind ok OK rc_next_file rc_log_number rc_last_sequence rc_builder rc_prev_log_number]. rewrite En, El, Eq.
  cbn [ok OK default id]. destruct (SaveTo _ _ _) as [v ?]. done.
Qed.

(** ** The snapshot *)
Definition snapshot_file (level : nat) (f : FileMetaData) : Z * FileMetaData :=
  (Z.of_nat level, file_meta (fm_number f) (fm_file_size f) (fm_smallest f) (fm_largest f)).
Definition snapshot_guard (level : nat) (g : GuardMetaData) : GuardMetaData :=
  if 0 <? gm_number_segments g
  then {| gm_refs := 0; gm_level := Z.of_nat level; gm_number_segments := gm_number_segments g; gm_guard_key := gm_guard_key g;
          gm_smallest := gm_smallest g; gm_largest := gm_largest g; gm_files := gm_files g; gm_file_metas := [] |}
  else guard_meta (Z.of_nat level) (gm_guard_key g).

(** The parts of an edit the snapshot of files and guards leaves alone. *)
Definition rest_of (e : VersionEdit) :=
  (ve_comparator e, ve_log_number e, ve_prev_log_number e, ve_next_file_number e, ve_last_sequence e, ve_deleted_files e, ve_deleted_guards e).

Lemma fold_AddFile level fs : forall e,
  let e' := fold_left (fun e f => AddFile e (Z.of_nat level) (fm_number f) (fm_file_size f) (fm_smallest f) (fm_largest f)) fs e in
  ve_new_files e' = ve_new_files e ++ map (snapshot_file level) fs /\ ve_new_guards e' = ve_new_guards e /\ rest_of e' = rest_of e.
Proof.
  induction fs as [|f fs IH]; intros e; cbn [fold_left map]; [by rewrite app_nil_r|].
  destruct (IH (AddFile e (Z.of_nat level) (fm_number f) (fm_file_size f) (fm_smallest f) (fm_largest f))) as (-> & -> & ->).
  cbn. by rewrite <- app_assoc.
Qed.

Lemma fold_AddGuards level gs : forall e,
  let e' := fold_left (fun e g =>
    if 0 <? gm_number_segments g
    then AddGuardWithFiles e (Z.of_nat level) (gm_number_segments g) (gm_guard_key g) (gm_smallest g) (gm_largest g) (gm_files g)
    else VersionEdit.AddGuard e (Z.of_nat level) (gm_guard_key g)) gs e in
  ve_new_files e' = ve_new_files e /\ ve_new_guards e' = alter (.++ map (snapshot_guard level) gs) level (ve_new_guards e) /\ rest_of e' = rest_of e.
Proof.
  induction gs as [|g gs IH]; intros e; cbn [fold_left map].
  { split; [done|]. split; [|done]. symmetry. apply list_alter_id. intros x. apply app_nil_r. }
  match goal with |- context [fold_left _ gs ?e1] => destruct (IH e1) as (-> & -> & ->); set (e2 := e1) end.
  assert (ve_new_guards e2 = push_level (Z.of_nat level) (snapshot_guard level g) (ve_new_guards e)) as ->.
  { unfold e2, snapshot_guard. by destruct (0 <? _). }
  split; [unfold e2; by destruct (0 <? _)|]. split; [|unfold e2; by destruct (0 <? _)].
  unfold push_level. rewrite Nat2Z.id. etrans; [apply list_alter_alter_eq|]. apply list_alter_ext; [|done]. intros x _. unfold compose.
  by rewrite <- app_assoc.
Qed.

Lemma snapshot_level_spec e v level : let e' := snapshot_level e v level in
  ve_new_files e' = ve_new_files e ++ map (snapshot_file level) (level_of (v_files v) level) /\
  ve_new_guards e' = alter (.++ map (snapshot_guard level) (level_of (v_guards v) level)) level (ve_new_guards e) /\ rest_of e' = rest_of e.
Proof.
  unfold snapshot_level. destruct (fold_AddFile level (level_of (v_files v) level) e) as (E1 & E2 & E3). cbv zeta in E1, E2, E3 |- *.
  set (e1 := fold_left _ (level_of (v_files v) level) e) in *.
  set (same := fun a b => ve_new_files b = ve_new_files a /\ ve_new_guards b = ve_new_guards a /\ rest_of b = rest_of a).
  destruct (fold_AddGuards level (level_of (v_guards v) level) e1) as (G1 & G2 & G3). cbv zeta in G1, G2, G3.
  set (e3 := fold_left _ (level_of (v_guards v) level) e1) in *.
  assert (same e3 (fold_left (fun e g => VersionEdit.AddCompleteGuard e (Z.of_nat level) (gm_guard_key g)) (level_of (v_complete_guards v) level) e3)) as (-> & -> & ->)
    by (by apply (fold_left_ok (same e3))).
  by rewrite G1, G2, G3, E1, E2, E3.
Qed.

Lemma level_adds_app k e fs : ve_new_files e = fs -> level_adds k e = map (fun p => installed (snd p)) (List.filter (fun p => Z.to_nat (fst p) =? k)%nat fs).
Proof. by intros <-. Qed.

Lemma snapshot_file_adds k level fs :
  map (fun p => installed (snd p)) (List.filter (fun p => Z.to_nat (fst p) =? k)%nat (map (snapshot_file level) fs)) =
  if decide (k = level) then map installed fs else [].
Proof.
  induction fs as [|f fs IH]; [by destruct (decide _)|]. cbn [map List.filter snapshot_file fst]. rewrite Nat2Z.id.
  destruct (decide (k = level)) as [->|Hne]; [rewrite Nat.eqb_refl|rewrite (proj2 (Nat.eqb_neq level k)) by done]; cbn [map]; rewrite IH; done.
Qed.

Lemma level_of_alter {A} k j (f : list A -> list A) (ls : list (list A)) : (k < length ls)%nat ->
  level_of (alter f j ls : list (list A)) k = if decide (k = j) then f (level_of ls k) else level_of ls k.
Proof.
  intros Hk. unfold level_of, levels. destruct (decide (k = j)) as [->|Hne]; [|by rewrite list_lookup_alter_ne].
  rewrite list_lookup_alter_eq. apply lookup_lt_is_Some in Hk as [l ->]. done.
Qed.

Lemma snapshot_levels k v js : forall e, NoDup js -> (k < length (ve_new_guards e))%nat ->
  let e' := fold_left (fun e level => snapshot_level e v level) js e in
  level_adds k e' = level_adds k e ++ (if decide (k ∈ js) then map installed (level_of (v_files v) k) else []) /\
  level_of (ve_new_guards e') k = level_of (ve_new_guards e) k ++ (if decide (k ∈ js) then map (snapshot_guard k) (level_of (v_guards v) k) else []) /\
  rest_of e' = rest_of e.
Proof.
  induction js as [|j js IH]; intros e Hnd Hk; cbn [fold_left]; [rewrite !app_nil_r; done|]. apply NoDup_cons in Hnd as [Hj Hnd].
  destruct (snapshot_level_spec e v j) as (E1 & E2 & E3). cbv zeta in E1, E2, E3. set (e1 := snapshot_level e v j) in *.
  assert (length (ve_new_guards e1) = length (ve_new_guards e)) as El by (rewrite E2; apply length_alter).
  destruct (IH e1 Hnd) as (-> & -> & ->); [by rewrite El|]. clear El. rewrite E3. split; [|split; [|done]].
  - rewrite (level_adds_app k e1 _ E1), List.filter_app, map_app, snapshot_file_adds, <- app_assoc. f_equal.
    destruct (decide (k = j)) as [->|Hne].
    + rewrite decide_False, (decide_True (P := j ∈ j :: js)), app_nil_r by (done || left). done.
    + cbn [app]. destruct (decide (k ∈ js)); [rewrite decide_True by (by right)|rewrite decide_False by set_solver]; done.
  - assert (level_of (ve_new_guards e1) k = if decide (k = j) then level_of (ve_new_guards e) k ++ map (snapshot_guard j) (level_of (v_guards v) j)
      else level_of (ve_new_guards e) k) as -> by (rewrite E2; exact (level_of_alter k j (.++ map (snapshot_guard j) (level_of (v_guards v) j)) (ve_new_guards e) Hk)).
    destruct (decide (k = j)) as [->|Hne].
    + rewrite (decide_False (P := j ∈ js)), (decide_True (P := j ∈ j :: js)), app_nil_r by (done || left). done.
    + destruct (decide (k ∈ js)); [rewrite decide_True by (by right)|rewrite decide_False by set_solver]; done.
Qed.

Lemma snapshot_edit_spec vs k : (k < Z.to_nat kNumLevels)%nat ->
  let e := snapshot_edit comparator_name vs in
  level_adds k e = map installed (level_of (v_files (cur_version (current_ vs))) k) /\
  level_of (ve_new_guards e) k = map (snapshot_guard k) (level_of (v_guards (cur_version (current_ vs))) k) /\
  rest_of e = rest_of (SetComparatorName new_VersionEdit comparator_name).
Proof.
  intros Hk. unfold snapshot_edit. set (e0 := fold_left _ (seq 0 _) (SetComparatorName _ _)).
  set (same := fun e => ve_new_files e = [] /\ ve_new_guards e = no_levels /\ rest_of e = rest_of (SetComparatorName new_VersionEdit comparator_name)).
  assert (same e0) as (E1 & E2 & E3).
  { apply (fold_left_ok same); [|done]. intros e level He. by destruct (len _ =? 0). }
  destruct (snapshot_levels k (cur_version (current_ vs)) (seq 0 (Z.to_nat kNumLevels)) e0) as (-> & -> & ->).
  - apply NoDup_seq.
  - rewrite E2. unfold no_levels. by rewrite length_replicate.
  - rewrite !decide_True by (apply elem_of_seq; lia). rewrite (level_adds_app k e0 _ E1), E2, level_of_new. done.
Qed.

(** Files of a version that edits made are as the builder makes them. *)
Lemma apply_edits_installed es k f : (k < Z.to_nat kNumLevels)%nat -> history_ok es ->
  f ∈ level_of (v_files (apply_edits ucmp no_pointers new_Version es None)) k -> f ∈ all_adds k es /\ installed f = f.
Proof.
  intros Hk [Hnd Hdel] Hf. destruct (history_parts ucmp no_pointers es None k Hk) as [E _]. rewrite E in Hf. clear E.
  destruct (history_state ucmp no_pointers new_Version es k Hk Hdel) as (Sf & _ & _).
  apply saved_files_elem in Hf as [[Hf|Hf] _]; [by apply elem_of_nil in Hf|]. rewrite Sf in Hf. rewrite (file_set_elem ucmp) in Hf by apply Hnd. destruct Hf as [Hf|Hf]; [by apply elem_of_nil in Hf|].
  split; [done|]. unfold all_adds in Hf. apply list_elem_of_In, in_concat in Hf as (l & Hl & Hf). apply in_map_iff in Hl as (e & <- & _).
  unfold level_adds in Hf. apply in_map_iff in Hf as (p & <- & _). done.
Qed.

Lemma add_guard_elem l gs h : forall acc lst, h ∈ fst (fold_left (add_guard (ucmp := ucmp) fresh_guard l) gs (acc, lst)) ->
  h ∈ acc \/ exists g, g ∈ gs /\ h = fresh_guard g.
Proof.
  induction gs as [|g gs IH]; intros acc lst Hh; cbn [fold_left] in Hh; [by left|].
  unfold add_guard at 2 in Hh. destruct (same_guard_key _ _ _); [|destruct (guard_deleted _ _ _)].
  1,2: apply IH in Hh as [Hh|(g' & Hg & ->)]; [by left|right; exists g'; split; [by right|done]].
  apply IH in Hh as [[Hh| ->%list_elem_of_singleton]%elem_of_app|(g' & Hg & ->)]; [by left|..]; right; eexists; (split; [|done]); [left|by right].
Qed.

Lemma guard_set_elem g gs : forall s, g ∈ guard_set ucmp gs s -> g ∈ s \/ g ∈ gs.
Proof.
  induction gs as [|h gs IH]; intros s Hg; [by left|]. unfold guard_set in Hg. cbn [fold_left] in Hg. apply IH in Hg as [Hg|Hg]; [|right; by right].
  apply (set_insert_elem (BySmallestGuard ucmp)) in Hg as [->|Hg]; [right; left|by left].
Qed.

(** Guards of a version that edits made are filed under their level. *)
Lemma apply_edits_guard_level es k g : (k < Z.to_nat kNumLevels)%nat -> Forall (fun e => ve_deleted_guards e = []) es ->
  g ∈ level_of (v_guards (apply_edits ucmp no_pointers new_Version es None)) k -> gm_level g = Z.of_nat k.
Proof.
  intros Hk Hdel Hg. destruct (history_parts ucmp no_pointers es None k Hk) as [_ E].
  destruct (history_state ucmp no_pointers new_Version es k Hk Hdel) as (_ & Sg & _). cbv zeta in Sg, E.
  set (l := state_at _ k) in *. apply (f_equal fst) in E. cbn [fst] in E.
  assert (map fresh_guard (level_of (v_guards (apply_edits ucmp no_pointers new_Version es None)) k) = saved_guards ucmp [] l) as E'.
  { rewrite E, populate_fresh. apply saved_guards_fresh. }
  assert (fresh_guard g ∈ saved_guards ucmp [] l) as Hg' by (rewrite <- E'; by apply (list_elem_of_fmap_2 fresh_guard)).
  clear Hg. rename Hg' into Hg. change (gm_level g) with (gm_level (fresh_guard g)). revert Hg. generalize (fresh_guard g). clear g E E'. intros h Hh.
  apply add_guard_elem in Hh as [Hh|(g & Hg & ->)]; [by apply elem_of_nil in Hh|]. cbn [fresh_guard gm_level].
  rewrite (merge_sets_perm (BySmallestGuard ucmp)), app_nil_l, Sg in Hg. apply guard_set_elem in Hg as [Hg|Hg]; [by apply elem_of_nil in Hg|].
  apply list_elem_of_In, in_concat in Hg as (gs & Hgs & Hg). apply in_map_iff in Hgs as (e & <- & _). apply in_map_iff in Hg as (g' & <- & _). done.
Qed.

Lemma level_of_map_map {A B} (f : A -> B) (ls : list (list A)) k : level_of (map (map f) ls) k = map f (level_of ls k).
Proof. rewrite level_of_map. unfold level_of, levels. by destruct (ls !! k). Qed.

Lemma snapshot_history_same vs es : history_ok es ->
  same_tree (cur_version (current_ vs)) (apply_edits ucmp no_pointers new_Version es None) ->
  let e := edit_saved (snapshot_edit comparator_name vs) in
  same_tree (cur_version (current_ vs)) (apply_edits ucmp no_pointers new_Version [e] None) /\
  (forall k, (k < Z.to_nat kNumLevels)%nat -> level_adds k e = level_of (v_files (cur_version (current_ vs))) k) /\
  (forall k, (k < Z.to_nat kNumLevels)%nat -> NoDup (map fm_number (level_of (v_files (cur_version (current_ vs))) k))).
Proof.
  intros Hok Hv. set (v := cur_version (current_ vs)) in *. cbv zeta. set (e := snapshot_edit comparator_name vs).
  assert (ve_deleted_guards e = [] /\ ve_deleted_files e = []) as [Hdg Hdf].
  { destruct (snapshot_edit_spec vs 0 ltac:(vm_compute; lia)) as (_ & _ & H). fold e in H. unfold rest_of in H. by injection H. }
  assert (forall k, (k < Z.to_nat kNumLevels)%nat -> level_adds k (edit_saved e) = level_of (v_files v) k) as Hadds.
  { intros k Hk. destruct (snapshot_edit_spec vs k Hk) as (H & _ & _). fold e v in H. rewrite level_adds_saved, H.
    rewrite <- (map_id (level_of (v_files v) k)) at 2. apply map_ext_in. intros f Hf%list_elem_of_In. destruct (Hv k Hk) as (Ef & _).
    rewrite Ef in Hf. by apply (apply_edits_installed es k f Hk Hok) in Hf as [_ Hf]. }
  destruct (same_tree_snapshot ucmp no_pointers es (edit_saved e) v Hok Hv) as [H1 H2]; [done| |by split; [|split]].
  intros k Hk. split; [by apply Hadds|]. split; [unfold level_deletes, edit_saved; cbn [ve_deleted_files]; by rewrite Hdf|].
  intros u. destruct (snapshot_edit_spec vs k Hk) as (_ & Hg & _). fold e v in Hg.
  rewrite <- !(look_map fresh_guard) by done. f_equal. unfold edit_guards, edit_saved. cbn [ve_new_guards].
  rewrite level_of_map_map, Hg, !map_map. apply map_ext_in. intros g Hin%list_elem_of_In. destruct (Hv k Hk) as (_ & Eg & _). rewrite Eg in Hin.
  apply apply_edits_guard_level in Hin; [|done|by destruct Hok]. unfold snapshot_guard, fresh_guard.
  destruct (0 <? _); cbn; by rewrite Hin.
Qed.

(** ** The state on disk *)
Definition on_disk (env : Env) (n : Z) (data : bytes) (synced : nat) : Prop :=
  env_files env !! CurrentFileName dbname = Some {| f_data := current_contents n; f_synced := length (current_contents n) |} /\
  env_files env !! DescriptorFileName dbname n = Some {| f_data := data; f_synced := synced |}.

Lemma prefix_take (d T : bytes) : d `prefix_of` T -> d = take (length d) T.
Proof. intros [z ->]. by rewrite take_app_length. Qed.

(** The edits of [es] are synced, and at most one more was being written. *)
Lemma reopened_recovers env env' n es es' d k : on_disk env n d k -> reopened env env' ->
  d `prefix_of` log_file 0 (map (EncodeTo []) es') -> es `prefix_of` es' -> (length es' <= S (length es))%nat ->
  (length (log_file 0 (map (EncodeTo []) es)) <= k)%nat -> (length (log_file 0 (map (EncodeTo []) es)) <= length d)%nat ->
  Forall edit_ok es' -> Forall comparator_ok es' -> has_counters es -> has_counters es' ->
  len (log_file 0 (map (EncodeTo []) es')) < 2 ^ 64 ->
  exists es'', (es'' = es \/ es'' = es') /\
    (k = length (log_file 0 (map (EncodeTo []) es')) -> d = log_file 0 (map (EncodeTo []) es') -> es'' = es') /\
    Recover ucmp dbname comparator_name guard_less tag2 fnumber new_VersionSet env' = Some (OK, replayed es'').
Proof.
  intros [Hcur Hman] [Hs Hcrash] Hd Hes Hlen Hk Hkd Hok Hcmp Hce Hce' Hsize.
  pose proof (Hcrash (CurrentFileName dbname)) as Hc1. rewrite Hcur in Hc1. destruct Hc1 as (m1 & Hm1 & Hc1). cbn [f_data f_synced] in Hm1, Hc1.
  rewrite take_ge in Hc1 by done.
  pose proof (Hcrash (DescriptorFileName dbname n)) as Hc2. rewrite Hman in Hc2. destruct Hc2 as (m & Hm & Hc2). cbn [f_data f_synced] in Hm, Hc2.
  rewrite (prefix_take _ _ Hd), take_take in Hc2.
  destruct (Recover_prefix es' n (m `min` length d) _ env' Hok Hcmp Hsize Hs ltac:(by rewrite Hc1) Hc2) as (j & Hj & Hmax & Hrec).
  assert (take (length es) es' = es) as Et by (destruct Hes as [z ->]; apply take_app_length).
  pose proof (prefix_length _ _ Hes) as Hle.
  assert (length es <= j)%nat as Hge. { apply Hmax; [done|]. rewrite Et. lia. }
  assert (k = length (log_file 0 (map (EncodeTo []) es')) -> d = log_file 0 (map (EncodeTo []) es') -> j = length es') as Hall.
  { intros Ek Ed. assert (length es' <= j)%nat; [|lia]. apply Hmax; [done|]. rewrite firstn_all. rewrite Ed. lia. }
  destruct (decide (j = length es')) as [->|Hne].
  - exists es'. rewrite firstn_all in Hrec. split; [by right|]. split; [done|]. by apply Hrec.
  - exists es. replace j with (length es) in Hrec by lia. rewrite Et in Hrec. split; [by left|]. split; [|by apply Hrec].
    intros Ek Ed. destruct Hne. by apply Hall.
Qed.

(** A record and Sync. *)
Lemma log_record_spec name env d k record :
  env_files env !! name = Some {| f_data := d; f_synced := k |} -> (k <= length d)%nat ->
  let '(s, offset, env1) := AddManifestRecord name (len d) record env in
  let '(s, env2) := if ok s then SyncFile name env1 else (s, env1) in
  let T := d ++ record_image (len d) record in
  offset = reserve (len d) (len record) /\ only [name] env env2 /\
  exists d' k', env_files env2 !! name = Some {| f_data := d'; f_synced := k' |} /\
    d `prefix_of` d' /\ d' `prefix_of` T /\ (k <= k')%nat /\ (ok s = true -> d' = T /\ k' = length T).
Proof.
  intros Hf Hk. pose proof (AddManifestRecord_grows name env d k record Hf) as H.
  destruct (AddManifestRecord name (len d) record env) as [[s offset] env1]. destruct H as [Ho Hg].
  pose proof (grows_only _ _ _ _ _ _ _ Hg) as Hon. destruct Hg as (d1 & E1 & P1 & P2 & D1).
  assert (env_files env1 !! name = Some {| f_data := d1; f_synced := k |}) as F1 by (rewrite E1; apply lookup_insert_eq).
  destruct (ok s) eqn:Hs.
  - rewrite (D1 eq_refl) in *. pose proof (SyncFile_spec name env1 _ k F1) as H2. destruct (SyncFile name env1) as [s2 env2].
    split; [done|]. split. { eapply only_trans; [exact Hon|]. intros n Hn. rewrite H2. apply lookup_insert_ne. set_solver. }
    eexists _, _. rewrite H2, lookup_insert_eq. split; [reflexivity|]. split; [done|]. split; [done|].
    apply prefix_length in P1. destruct (ok s2); (split; [lia|done]).
  - split; [done|]. split; [done|]. exists d1, k. split; [done|]. split; [done|]. split; [done|]. by rewrite Hs.
Qed.

(** ** The invariant: the running state is the one the synced edits stand for *)
Record manifest_ok (vs : VersionSet) (env : Env) (n : Z) (es : list VersionEdit) : Prop := {
  mo_numbers : 0 <= n < 2 ^ 64 /\ 0 <= manifest_file_number_ vs < 2 ^ 64;
  mo_disk : on_disk env n (log_file 0 (map (EncodeTo []) es)) (length (log_file 0 (map (EncodeTo []) es)));
  mo_writer : match descriptor_log_ vs with
    | Some offset => n = manifest_file_number_ vs /\ offset = len (log_file 0 (map (EncodeTo []) es))
    | None => n <> manifest_file_number_ vs
    end;
  mo_edits : Forall edit_ok es;
  mo_comparator : Forall comparator_ok es;
  mo_counters : has_counters es;
  mo_history : history_ok es;
  mo_size : len (log_file 0 (map (EncodeTo []) es)) < 2 ^ 64;
  mo_tree : same_tree (cur_version (current_ vs)) (cur_version (current_ (replayed es)));
  mo_log_number : log_number_ vs = log_number_ (replayed es);
  mo_prev_log_number : prev_log_number_ vs = prev_log_number_ (replayed es);
}.

(** The edits of the MANIFEST after LogAndApply. *)
Definition next_history (vs : VersionSet) (es : list VersionEdit) (edit : VersionEdit) : list VersionEdit :=
  match descriptor_log_ vs with Some _ => es ++ [edit] | None => [snapshot_edit comparator_name vs; edit] end.

(** *** The edit that is logged *)
Definition same_but_complete (e e' : VersionEdit) : Prop :=
  ve_new_files e' = ve_new_files e /\ ve_new_guards e' = ve_new_guards e /\ rest_of e' = rest_of e.

Lemma SaveTo_levels_edit b ls : forall level e, exists e', snd (SaveTo_levels ucmp b level ls (Some e)) = Some e' /\ same_but_complete e e'.
Proof.
  assert (forall level gs e, exists e', fold_left (add_to_edit level) gs (Some e) = Some e' /\ same_but_complete e e') as Hadd.
  { intros level gs. induction gs as [|g gs IH]; intros e; [by exists e|]. cbn [fold_left add_to_edit fmap option_fmap option_map].
    edestruct IH as (e' & -> & He). by exists e'. }
  induction ls as [|l ls IH]; intros level e; cbn [SaveTo_levels]; [by exists e|]. unfold SaveTo_level.
  assert (exists e1, snd (save_complete_guards ucmp level (level_of (v_complete_guards (b_base b)) level)
    (default 0 (v_num_complete_guards (b_base b) !! level)) l (Some e)) = Some e1 /\ same_but_complete e e1) as (e1 & E1 & H1).
  { unfold save_complete_guards. destruct (level_of _ _) as [|g gs]; [by exists e|]. cbn [snd].
    match goal with |- context [fold_left (add_to_edit level) ?u (Some e)] => destruct (Hadd level u e) as (e1 & -> & H1) end.
    match goal with |- context [fold_left (add_to_edit level) ?u (Some e1)] => destruct (Hadd level u e1) as (e2 & -> & H2) end.
    exists e2. split; [done|]. destruct H1 as (A1 & A2 & A3), H2 as (B1 & B2 & B3). split; [congruence|]. split; congruence. }
  destruct (save_complete_guards _ _ _ _ _ _) as [complete edit]. cbn [snd] in E1. rewrite E1.
  destruct (PopulateFilesToGuardsAndSentinels _ _ _ _) as [guards sentinels]. destruct (IH (S level) e1) as (e2 & E2 & H2).
  destruct (SaveTo_levels ucmp b (S level) ls (Some e1)) as [ss edit2]. cbn [snd] in E2 |- *. exists e2. split; [done|].
  destruct H1 as (A1 & A2 & A3), H2 as (B1 & B2 & B3). split; [congruence|]. split; congruence.
Qed.

(** The edit with its counters, and what SaveTo adds to it. *)
Lemma logged_edit edit vs e0 : complete_edit edit vs = Some e0 ->
  exists v e1, SaveTo ucmp (Apply ucmp e0 (new_Builder (compact_pointer_ vs) (cur_version (current_ vs)))) (Some e0) = (v, Some e1) /\
    v = apply_edits ucmp (compact_pointer_ vs) (cur_version (current_ vs)) [e0] (Some e0) /\ same_but_complete e0 e1 /\
    ve_next_file_number e1 = Some (next_file_number_ vs) /\ ve_last_sequence e1 = Some (last_sequence_ vs) /\
    is_Some (ve_log_number e1) /\ is_Some (ve_prev_log_number e1).
Proof.
  intros He. unfold apply_edits, SaveTo. cbn [fold_left]. set (b := Apply _ _ _).
  destruct (SaveTo_levels_edit b (b_levels b) 0 e0) as (e1 & E & Hsame). destruct (SaveTo_levels ucmp b 0 (b_levels b) (Some e0)) as [ss ed].
  cbn [snd] in E. subst ed. eexists _, e1. split; [reflexivity|]. split; [done|]. split; [done|]. destruct Hsame as (_ & _ & Hr). clear -He Hr.
  unfold rest_of in Hr. injection Hr as _ Hl Hp Hn Hs _ _. rewrite Hl, Hp, Hn, Hs. clear -He.
  unfold complete_edit in He. destruct (ve_log_number edit) as [n|] eqn:En; [destruct (_ && _); [|done]|]; cbn [mbind option_bind] in He; injection He as <-.
  1,2: cbn; rewrite ?En; destruct (ve_prev_log_number edit) eqn:Ep; cbn; rewrite ?En, ?Ep; cbn; eauto.
Qed.

(** *** The tree *)
Lemma complete_guards_tree old v sizes : same_tree (sync_complete_guards old v sizes) v.
Proof.
  set (P := fun w => v_files w = v_files v /\ v_guards w = v_guards v /\ v_sentinel_files w = v_sentinel_files v).
  assert (P (sync_complete_guards old v sizes)) as (H1 & H2 & H3).
  { apply (fold_left_ok P); [|done]. intros w level Hw. by apply (fold_left_ok P). }
  intros k Hk. by rewrite H1, H2, H3.
Qed.

Lemma add_guards_tree added v : same_tree (add_guards added v) v.
Proof.
  set (P := fun w => v_files w = v_files v /\ v_guards w = v_guards v /\ v_sentinel_files w = v_sentinel_files v).
  assert (P (add_guards added v)) as (H1 & H2 & H3) by (by apply (fold_left_ok P)). intros k Hk. by rewrite H1, H2, H3.
Qed.

Lemma same_edit_logged e0 e1 : same_but_complete e0 e1 -> ve_deleted_guards e1 = [] -> same_edit e0 (edit_saved e1).
Proof.
  intros (H1 & H2 & H3) Hd. destruct (edit_saved_same e1 Hd) as (_ & _ & H). unfold rest_of in H3. injection H3 as _ _ _ _ _ Hdf Hdg.
  split; [by rewrite <- Hdg|]. split; [done|]. intros k. destruct (H k) as (-> & -> & Hg).
  split; [unfold level_adds; by rewrite H1|]. split; [unfold level_deletes; by rewrite Hdf|].
  intros u. rewrite <- Hg. unfold edit_guards. by rewrite H2.
Qed.

Lemma level_adds_range k e : edit_ok e -> (Z.to_nat kNumLevels <= k)%nat -> level_adds k e = [].
Proof.
  intros He Hk. unfold level_adds. apply eo_files in He. induction He as [|p nf Hp _ IH]; [done|]. cbn [List.filter].
  destruct Hp as (Hl & _). unfold level_ok, kNumLevels in *. rewrite (proj2 (Nat.eqb_neq _ _)) by lia. done.
Qed.

Lemma new_files_fresh vs es e k n : history_ok (es ++ [e]) -> (k < Z.to_nat kNumLevels)%nat ->
  same_tree (cur_version (current_ vs)) (cur_version (current_ (replayed es))) ->
  n ∈ map fm_number (level_of (v_files (cur_version (current_ vs))) k) -> n ∉ map fm_number (level_adds k e).
Proof.
  intros Hok Hk Htree Hn Hin. pose proof (history_ok_saved _ (history_ok_snoc _ _ Hok)) as Hok1. destruct Hok as [Hnd _]. specialize (Hnd k).
  unfold all_adds in Hnd. rewrite map_app, concat_app, map_app in Hnd. cbn [map concat] in Hnd. rewrite app_nil_r in Hnd.
  apply NoDup_app in Hnd as (_ & Hcr & _). apply (Hcr n); [|done]. apply list_elem_of_fmap in Hn as (f & -> & Hf).
  destruct (Htree k Hk) as (Ef & _). rewrite Ef in Hf. apply (apply_edits_installed _ _ _ Hk Hok1) in Hf as [Hf _].
  apply (list_elem_of_fmap_2 fm_number). unfold all_adds in Hf. rewrite map_map, (map_ext _ (level_adds k)) in Hf by apply level_adds_saved. done.
Qed.

(** The new version has the tree of the new history. *)
Lemma logged_tree vs env n es e0 e1 : manifest_ok vs env n es -> same_but_complete e0 e1 -> history_ok (es ++ [e1]) -> edit_ok e1 ->
  (descriptor_log_ vs = None -> edit_ok (snapshot_edit comparator_name vs)) ->
  history_ok (next_history vs es e1) /\
  same_tree (apply_edits ucmp (compact_pointer_ vs) (cur_version (current_ vs)) [e0] (Some e0)) (cur_version (current_ (replayed (next_history vs es e1)))).
Proof.
  intros Hm Hsame Hok He1 Hsnap. pose proof (mo_tree _ _ _ _ Hm) as Htree.
  assert (ve_deleted_guards e1 = []) as Hd1. { destruct Hok as [_ H]. apply Forall_app in H as [_ H]. by apply Forall_cons in H as [? _]. }
  pose proof (same_edit_logged _ _ Hsame Hd1) as Hse.
  unfold next_history. destruct (descriptor_log_ vs) as [o|] eqn:Edesc.
  - split; [done|]. cbn [replayed current_ as_current cur_version]. rewrite map_app. apply same_tree_step; [done|..|done|done].
    apply history_ok_saved in Hok. by rewrite map_app in Hok.
  - set (snap := snapshot_edit comparator_name vs) in *. specialize (Hsnap eq_refl).
    destruct (snapshot_history_same vs _ (history_ok_saved _ (mo_history _ _ _ _ Hm)) Htree) as (Hs1 & Hs2 & Hs3). fold snap in Hs1, Hs2, Hs3.
    assert (history_ok [snap; e1]) as Hok2.
    { split.
      - intros k. unfold all_adds. cbn [map concat]. rewrite app_nil_r, map_app. destruct (decide (k < Z.to_nat kNumLevels)%nat) as [Hk|Hk].
        + rewrite <- (level_adds_saved k snap), Hs2 by done. apply NoDup_app. split; [by apply Hs3|]. split; [intros x; by apply (new_files_fresh vs es)|].
          destruct Hok as [Hnd _]. specialize (Hnd k). unfold all_adds in Hnd. rewrite map_app, concat_app, map_app in Hnd. cbn [map concat] in Hnd.
          rewrite app_nil_r in Hnd. by apply NoDup_app in Hnd as (_ & _ & ?).
        + rewrite !level_adds_range by (done || lia). constructor.
      - repeat constructor; [|done]. destruct (snapshot_edit_spec vs 0 ltac:(vm_compute; lia)) as (_ & _ & H). fold snap in H. unfold rest_of in H. by injection H. }
    split; [done|]. cbn [replayed current_ as_current cur_version map].
    apply (same_tree_step ucmp no_pointers _ [edit_saved snap]); [by apply (history_ok_saved _ Hok2)|done|done].
Qed.

(** *** LogAndApply *)

(** The new version is installed with the edit's log numbers; or nothing
    changes, apart from the guards writers added meanwhile. *)
Definition installs (vs vs' : VersionSet) (e : VersionEdit) (offset : Z) (v : Version) : Prop :=
  same_tree (cur_version (current_ vs')) v /\ log_number_ vs' = default 0 (ve_log_number e) /\
  prev_log_number_ vs' = default 0 (ve_prev_log_number e) /\ last_sequence_ vs' = last_sequence_ vs /\
  next_file_number_ vs' = next_file_number_ vs /\ manifest_file_number_ vs' = manifest_file_number_ vs /\ descriptor_log_ vs' = Some offset.

Definition unchanged (vs vs' : VersionSet) : Prop :=
  same_tree (cur_version (current_ vs')) (cur_version (current_ vs)) /\ log_number_ vs' = log_number_ vs /\
  prev_log_number_ vs' = prev_log_number_ vs /\ last_sequence_ vs' = last_sequence_ vs /\
  next_file_number_ vs' = next_file_number_ vs /\ manifest_file_number_ vs' = manifest_file_number_ vs.

(** What is in the MANIFEST that CURRENT names after a failure: the old edits,
    and part of the new one. *)
Definition half_logged (env : Env) (n : Z) (es es' : list VersionEdit) : Prop :=
  exists es2 d k, on_disk env n d k /\ (es2 = es \/ es2 = es') /\ es `prefix_of` es2 /\ (length es2 <= S (length es))%nat /\
    d `prefix_of` log_file 0 (map (EncodeTo []) es2) /\ (length (log_file 0 (map (EncodeTo []) es)) <= k)%nat /\
    (length (log_file 0 (map (EncodeTo []) es)) <= length d)%nat.

Definition writable (es : list VersionEdit) : Prop :=
  no_exact_fill 0 (map (EncodeTo []) es) = true /\ len (log_file 0 (map (EncodeTo []) es)) < 2 ^ 32 - 14.

Definition log_outcome (vs vs' : VersionSet) (env env' : Env) (n : Z) (es : list VersionEdit) (e0 e1 : VersionEdit) (s : Status) : Prop :=
  let es' := next_history vs es e1 in
  let T := log_file 0 (map (EncodeTo []) es') in
  if ok s
  then installs vs vs' e1 (len T) (apply_edits ucmp (compact_pointer_ vs) (cur_version (current_ vs)) [e0] (Some e0)) /\
       on_disk env' (manifest_file_number_ vs) T (length T)
  else unchanged vs vs' /\ half_logged env' n es es'.

Lemma log_file_offset es e : writable (es ++ [e]) ->
  reserve (len (log_file 0 (map (EncodeTo []) es))) (len (EncodeTo [] e)) = len (log_file 0 (map (EncodeTo []) (es ++ [e]))).
Proof.
  intros [Hx Hsize]. rewrite map_app in *. cbn [map] in *. apply no_exact_fill_snoc in Hx as [_ Hx]. rewrite log_file_snoc, len_app in *.
  rewrite Z.add_0_l in *. apply reserve_image; [len_facts; lia|done|done].
Qed.

Lemma LogAndApply_append edit added vs env n es e0 v e1 offset s vs' e' env' : manifest_ok vs env n es -> descriptor_log_ vs = Some offset ->
  complete_edit edit vs = Some e0 ->
  SaveTo ucmp (Apply ucmp e0 (new_Builder (compact_pointer_ vs) (cur_version (current_ vs)))) (Some e0) = (v, Some e1) ->
  v = apply_edits ucmp (compact_pointer_ vs) (cur_version (current_ vs)) [e0] (Some e0) ->
  writable (next_history vs es e1) ->
  LogAndApply ucmp dbname comparator_name edit added vs env = Some (s, vs', e', env') ->
  e' = e1 /\ log_outcome vs vs' env env' n es e0 e1 s.
Proof.
  intros Hm Hdesc He0 Hsave Hv Hw. unfold LogAndApply, log_outcome. rewrite He0. cbn [mbind option_bind]. rewrite Hsave, Hdesc. cbn [default id ok OK].
  pose proof (mo_writer _ _ _ _ Hm) as Hwr. rewrite Hdesc in Hwr. destruct Hwr as [Hn ->]. destruct (mo_disk _ _ _ _ Hm) as [Hcur Hman].
  unfold next_history in *. rewrite Hdesc in *. set (name := DescriptorFileName dbname (manifest_file_number_ vs)). rewrite Hn in Hman. fold name in Hman.
  pose proof (log_record_spec name env _ _ (EncodeTo [] e1) Hman ltac:(done)) as H.
  destruct (AddManifestRecord name _ _ env) as [[s1 off] env1]. destruct (if ok s1 then SyncFile name env1 else (s1, env1)) as [s2 env2].
  destruct H as (-> & Hon & d & k & Hf & P1 & P2 & Hk & Hall). rewrite log_file_offset by done.
  destruct (mo_numbers _ _ _ _ Hm) as [_ Hnum].
  assert (name <> CurrentFileName dbname) as Hne by (by apply (file_name_distinct dbname (manifest_file_number_ vs) 0)).
  assert (env_files env2 !! CurrentFileName dbname = env_files env !! CurrentFileName dbname) as Hcur2 by (apply Hon; not_in).
  rewrite andb_false_r.
  assert (log_file 0 (map (EncodeTo []) (es ++ [e1])) = log_file 0 (map (EncodeTo []) es) ++ record_image (len (log_file 0 (map (EncodeTo []) es))) (EncodeTo [] e1)) as ET.
  { rewrite map_app. cbn [map]. rewrite log_file_snoc, Z.add_0_l. done. }
  rewrite <- ET in P2, Hall. clear ET. destruct (ok s2) eqn:Hs2; intros [= <- <- <- <-]; (split; [done|]); rewrite Hs2.
  - destruct (Hall eq_refl) as [-> ->]. split; [|split; [by rewrite Hcur2, <- Hn|done]]. unfold installs. cbn. split; [|done].
    rewrite <- Hv. apply complete_guards_tree.
  - split; [unfold unchanged; cbn; split; [apply add_guards_tree|done]|]. exists (es ++ [e1]), d, k. rewrite Hn in *.
    split; [split; [by rewrite Hcur2|done]|]. split; [by right|]. split; [by apply prefix_app_r|]. split; [rewrite length_app; simpl; lia|].
    split; [done|]. split; [done|]. by apply prefix_length.
Qed.

(** A new MANIFEST up to Sync. *)
Lemma begin_manifest_spec vs env e1 : descriptor_log_ vs = None -> writable [snapshot_edit comparator_name vs; e1] ->
  let name := DescriptorFileName dbname (manifest_file_number_ vs) in
  let '(s, descriptor, env1) :=
    let '(s, env) := CreateFile name env in
    if ok s then let '(s, offset, env) := WriteSnapshot comparator_name name 0 vs env in (s, Some offset, env) else (s, None, env) in
  let '(s, descriptor, env2) :=
    match descriptor with
    | Some offset =>
        if ok s then
          let '(s, offset, env) := AddManifestRecord name offset (EncodeTo [] e1) env1 in
          let '(s, env) := if ok s then SyncFile name env else (s, env) in
          (s, Some offset, env)
        else (s, Some offset, env1)
    | None => (s, None, env1)
    end in
  let T := log_file 0 (map (EncodeTo []) [snapshot_edit comparator_name vs; e1]) in
  only [name] env env2 /\ (ok s = true -> descriptor = Some (len T) /\ env_files env2 !! name = Some {| f_data := T; f_synced := length T |}).
Proof.
  intros Hdesc Hw name. set (snap := snapshot_edit comparator_name vs) in *.
  assert (writable [snap]) as Hw1.
  { destruct Hw as [Hx Hs]. change [snap; e1] with ([snap] ++ [e1]) in *. rewrite map_app in *. cbn [map] in *. split; [by apply no_exact_fill_snoc in Hx as [? _]|].
    cbn [map]. rewrite log_file_snoc, len_app in Hs. pose proof (len_nonneg (record_image (0 + len (log_file 0 [EncodeTo [] snap])) (EncodeTo [] e1))). lia. }
  pose proof (CreateFile_spec name env) as H0. destruct (CreateFile name env) as [s0 env0]. destruct H0 as [O0 F0].
  destruct (ok s0) eqn:Hs0; [|split; [done|by rewrite Hs0]]. specialize (F0 eq_refl). unfold WriteSnapshot. fold snap.
  pose proof (AddManifestRecord_grows name env0 [] 0 (EncodeTo [] snap) F0) as H1. len_nils.
  destruct (AddManifestRecord name 0 (EncodeTo [] snap) env0) as [[s1 off1] env1]. destruct H1 as [Ho1 Hg1].
  assert (only [name] env env1) as O1 by (eapply only_trans; [exact O0|by eapply grows_only]).
  destruct (ok s1) eqn:Hs1; [|split; [done|by rewrite Hs1]]. destruct Hg1 as (d1 & E1 & _ & _ & D1). specialize (D1 eq_refl).
  assert (d1 = log_file 0 (map (EncodeTo []) [snap])) as Ed1 by (rewrite D1; cbn [map log_file]; by rewrite app_nil_r).
  assert (env_files env1 !! name = Some {| f_data := d1; f_synced := 0 |}) as F1 by (rewrite E1; apply lookup_insert_eq).
  assert (off1 = len d1) as ->. { rewrite Ho1, Ed1. exact (log_file_offset [] snap Hw1). }
  pose proof (log_record_spec name env1 d1 0 (EncodeTo [] e1) F1 ltac:(lia)) as H2.
  destruct (AddManifestRecord name (len d1) (EncodeTo [] e1) env1) as [[s2 off2] env2].
  destruct (if ok s2 then SyncFile name env2 else (s2, env2)) as [s3 env3]. destruct H2 as (-> & O2 & d & k & F3 & _ & _ & _ & Hall).
  split; [by eapply only_trans|]. intros Hs3. destruct (Hall Hs3) as [-> ->]. change [snap; e1] with ([snap] ++ [e1]) in Hw |- *.
  rewrite <- (log_file_offset [snap] e1 Hw), <- Ed1. split; [done|]. rewrite map_app. cbn [map]. rewrite log_file_snoc, Z.add_0_l.
  cbn [map] in Ed1. rewrite <- Ed1. exact F3.
Qed.

Lemma LogAndApply_new edit added vs env n es e0 v e1 s vs' e' env' : manifest_ok vs env n es -> descriptor_log_ vs = None ->
  complete_edit edit vs = Some e0 ->
  SaveTo ucmp (Apply ucmp e0 (new_Builder (compact_pointer_ vs) (cur_version (current_ vs)))) (Some e0) = (v, Some e1) ->
  v = apply_edits ucmp (compact_pointer_ vs) (cur_version (current_ vs)) [e0] (Some e0) ->
  writable (next_history vs es e1) ->
  LogAndApply ucmp dbname comparator_name edit added vs env = Some (s, vs', e', env') ->
  e' = e1 /\ log_outcome vs vs' env env' n es e0 e1 s.
Proof.
  intros Hm Hdesc He0 Hsave Hv Hw. unfold LogAndApply, log_outcome. rewrite He0. cbn [mbind option_bind]. rewrite Hsave, Hdesc. cbn [default id ok OK].
  pose proof (mo_writer _ _ _ _ Hm) as Hn. rewrite Hdesc in Hn. destruct (mo_disk _ _ _ _ Hm) as [Hcur Hman]. destruct (mo_numbers _ _ _ _ Hm) as [Hn64 Hm64].
  unfold next_history in *. rewrite Hdesc in *. pose proof (begin_manifest_spec vs env e1 Hdesc Hw) as H. cbv zeta in H.
  set (name := DescriptorFileName dbname (manifest_file_number_ vs)) in *. set (T := log_file 0 (map (EncodeTo []) [snapshot_edit comparator_name vs; e1])) in *.
  match type of H with let (_, _) := ?x in _ => destruct x as [[s1 desc1] env1] end.
  match type of H with let (_, _) := ?x in _ => destruct x as [[s2 desc2] env2] end. destruct H as [O2 D2]. rewrite andb_true_r.
  destruct (file_name_distinct dbname n (manifest_file_number_ vs) Hn64 Hm64) as (N1 & N2 & N3 & N4).
  destruct (file_name_distinct dbname (manifest_file_number_ vs) (manifest_file_number_ vs) Hm64 Hm64) as (N5 & N6 & _). fold name in N4, N5, N6.
  set (tmp := TempFileName dbname (manifest_file_number_ vs)) in *. set (cur := CurrentFileName dbname) in *. set (old := DescriptorFileName dbname n) in *.
  assert (old <> name) as N7 by (intros E; by apply Hn, N4).
  assert (forall e, (env_files e !! cur = env_files env !! cur) -> (env_files e !! old = env_files env !! old) ->
    half_logged (RemoveFile name e) n es [snapshot_edit comparator_name vs; e1]) as Hfail.
  { intros e Ec Eo. pose proof (RemoveFile_only name e) as Hr. exists es, (log_file 0 (map (EncodeTo []) es)), (length (log_file 0 (map (EncodeTo []) es))).
    split; [split; [fold cur|fold old]; rewrite Hr, ?Ec, ?Eo by not_in; done|]. repeat split; try done; [by left|lia]. }
  destruct (ok s2) eqn:Hs2.
  - destruct (D2 eq_refl) as [-> F2]. clear D2. pose proof (SetCurrentFile_spec dbname (manifest_file_number_ vs) env2 Hm64) as H3.
    destruct (SetCurrentFile dbname (manifest_file_number_ vs) env2) as [s3 env3]. destruct H3 as [O3 F3]. fold tmp cur in O3, F3.
    destruct (ok s3) eqn:Hs3; intros [= <- <- <- <-]; (split; [done|]); rewrite Hs3.
    + split; [unfold installs; cbn; split; [rewrite <- Hv; apply complete_guards_tree|done]|]. split; [done|]. fold name. rewrite O3 by not_in. done.
    + split; [unfold unchanged; cbn; split; [apply add_guards_tree|done]|]. apply Hfail; [rewrite F3; apply O2; not_in|].
      rewrite O3, O2 by not_in. done.
  - rewrite Hs2. intros [= <- <- <- <-]. split; [done|]. rewrite Hs2. split; [unfold unchanged; cbn; split; [apply add_guards_tree|done]|]. apply Hfail; apply O2; not_in.
Qed.

Lemma LogAndApply_edit edit added vs env e0 v e1 s vs' e' env' : complete_edit edit vs = Some e0 ->
  SaveTo ucmp (Apply ucmp e0 (new_Builder (compact_pointer_ vs) (cur_version (current_ vs)))) (Some e0) = (v, Some e1) ->
  LogAndApply ucmp dbname comparator_name edit added vs env = Some (s, vs', e', env') -> e' = e1.
Proof.
  intros He0 Hsave. unfold LogAndApply. rewrite He0. cbn [mbind option_bind]. rewrite Hsave. cbn [default id].
  repeat match goal with |- context [let (_, _) := ?x in _] => destruct x end. destruct (ok _); [|repeat match goal with |- context [let (_, _) := ?x in _] => destruct x end];
    by intros [= <- <- <- <-].
Qed.

Lemma next_history_ok vs es e : Forall edit_ok es -> Forall comparator_ok es -> edit_ok e -> comparator_ok e ->
  (descriptor_log_ vs = None -> edit_ok (snapshot_edit comparator_name vs)) ->
  is_Some (ve_next_file_number e) -> is_Some (ve_last_sequence e) -> is_Some (ve_log_number e) ->
  let es' := next_history vs es e in
  Forall edit_ok es' /\ Forall comparator_ok es' /\ has_counters es' /\
  forall f, is_Some (f e) -> last_counter f es' = f e.
Proof.
  intros Hes Hces He Hce Hsnap Hn Hq Hl es'.
  assert (exists es0, es' = es0 ++ [e] /\ Forall edit_ok es0 /\ Forall comparator_ok es0) as (es0 & -> & H1 & H2).
  { unfold es', next_history. destruct (descriptor_log_ vs); [by exists es|]. exists [snapshot_edit comparator_name vs]. split; [done|].
    split; [apply Forall_singleton; by apply Hsnap|]. apply Forall_singleton. right.
    destruct (snapshot_edit_spec vs 0 ltac:(vm_compute; lia)) as (_ & _ & H). unfold rest_of in H. by injection H. }
  assert (forall f, is_Some (f e) -> last_counter f (es0 ++ [e]) = f e) as Hlast by (intros f [x Ex]; by rewrite last_counter_snoc, Ex).
  split; [by apply Forall_app_2; [|constructor]|]. split; [by apply Forall_app_2; [|constructor]|].
  split; [|done]. unfold has_counters. by rewrite !Hlast.
Qed.

Lemma LogAndApply_atomic edit added vs env n es s vs' e env' :
  manifest_ok vs env n es -> LogAndApply ucmp dbname comparator_name edit added vs env = Some (s, vs', e, env') ->
  edit_ok e -> comparator_ok e -> history_ok (es ++ [e]) ->
  (descriptor_log_ vs = None -> edit_ok (snapshot_edit comparator_name vs)) ->
  let es' := next_history vs es e in
  writable es' ->
  (ok s = true -> manifest_ok vs' env' (manifest_file_number_ vs) es' /\
     last_sequence_ (replayed es') = last_sequence_ vs /\ manifest_file_number_ (replayed es') = next_file_number_ vs) /\
  (ok s = false -> unchanged vs vs') /\
  forall env'', reopened env' env'' -> exists es'', (es'' = es \/ es'' = es') /\ (ok s = true -> es'' = es') /\
    Recover ucmp dbname comparator_name guard_less tag2 fnumber new_VersionSet env'' = Some (OK, replayed es'').
Proof.
  intros Hm Hrun He Hce Hhist Hsnap es' Hw.
  destruct (complete_edit edit vs) as [e0|] eqn:He0; [|by unfold LogAndApply in Hrun; rewrite He0 in Hrun].
  destruct (logged_edit edit vs e0 He0) as (v & e1 & Hsave & Hv & Hsame & Hn & Hq & Hl & Hp).
  pose proof (LogAndApply_edit _ _ _ _ _ _ _ _ _ _ _ He0 Hsave Hrun) as E. subst e.
  destruct (next_history_ok vs es e1 (mo_edits _ _ _ _ Hm) (mo_comparator _ _ _ _ Hm) He Hce Hsnap) as (H1 & H2 & H3 & Hlast); [by rewrite Hn|by rewrite Hq|done|].
  fold es' in H1, H2, H3, Hlast. destruct (logged_tree vs env n es e0 e1 Hm Hsame Hhist He Hsnap) as [Hok' Htree]. fold es' in Hok', Htree.
  assert (log_outcome vs vs' env env' n es e0 e1 s) as Hout.
  { destruct (descriptor_log_ vs) eqn:Edesc.
    - exact (proj2 (LogAndApply_append _ _ _ _ _ _ _ _ _ _ _ _ _ _ Hm Edesc He0 Hsave Hv Hw Hrun)).
    - exact (proj2 (LogAndApply_new _ _ _ _ _ _ _ _ _ _ _ _ _ Hm Edesc He0 Hsave Hv Hw Hrun)). }
  unfold log_outcome in Hout. fold es' in Hout. clear Hrun. destruct Hw as [_ Hsize].
  assert (len (log_file 0 (map (EncodeTo []) es')) < 2 ^ 64) as Hsize64 by lia.
  destruct (ok s).
  - destruct Hout as [(It & Il & Ip & Iq & In & Imn & Id) Hdisk]. split; [|split; [done|]].
    + intros _. split; [|cbn [replayed last_sequence_ manifest_file_number_]; by rewrite !Hlast, Hq, Hn by (by rewrite ?Hq, ?Hn)].
      split; rewrite ?Id, ?Imn; try done; [by destruct (mo_numbers _ _ _ _ Hm)|by rewrite It|by rewrite Il; cbn; rewrite Hlast|by rewrite Ip; cbn; rewrite Hlast].
    + intros env'' Hre. destruct (reopened_recovers env' env'' _ es' es' _ _ Hdisk Hre) as (es2 & [->| ->] & _ & Hrec); try done; try lia; eauto.
  - destruct Hout as [Hun (es2 & d & k & Hdisk & Hes2 & P1 & P2 & P3 & P4 & P5)]. split; [done|]. split; [done|]. intros env'' Hre.
    assert (Forall edit_ok es2 /\ Forall comparator_ok es2 /\ has_counters es2 /\ len (log_file 0 (map (EncodeTo []) es2)) < 2 ^ 64) as (Q1 & Q2 & Q3 & Q4).
    { destruct Hes2 as [-> | ->]; [|done]. split; [apply Hm|]. split; [apply Hm|]. split; apply Hm. }
    destruct (reopened_recovers env' env'' n es es2 d k Hdisk Hre) as (es3 & H & _ & Hrec); try done; [apply Hm|].
    exists es3. split; [|done]. destruct H as [-> | ->]; [by left|done].
Qed.
End ManifestSpec.

(** ** NewDB *)
Definition new_db_edit (comparator_name : bytes) : VersionEdit :=
  SetLastSequence (SetNextFile (SetLogNumber (SetComparatorName new_VersionEdit comparator_name) 0) 2) 0.

(** A crash that keeps [data] of the file [name] and everything else. *)
Definition keep (name data : bytes) (env : Env) : Env :=
  {| env_files := <[name := {| f_data := data; f_synced := length data |}]>
       ((fun f => {| f_data := f_data f; f_synced := length (f_data f) |}) <$> env_files env);
     env_script := [] |}.

Lemma keep_reopened name m env f : env_files env !! name = Some f -> (f_synced f <= m)%nat -> reopened env (keep name (take m (f_data f)) env).
Proof.
  intros Hf Hm. split; [done|]. intros n. cbn [keep env_files]. destruct (decide (n = name)) as [->|Hne].
  - rewrite Hf, lookup_insert_eq. by exists m.
  - rewrite lookup_insert_ne, lookup_fmap by done. destruct (env_files env !! n) as [g|] eqn:Eg; [|done]. exists (f_synced g + length (f_data g))%nat.
    split; [lia|]. by rewrite take_ge by lia.
Qed.

Lemma new_db_edit_ok guard_less comparator_name : name_ok comparator_name -> edit_ok guard_less (new_db_edit comparator_name).
Proof.
  intros Hn. split; cbn; try done; try (repeat constructor; discriminate); try (intros i j x y _ H; by rewrite lookup_nil in H).
  all: split; [done|]; split; [|constructor]; intros k l Hl; destruct k as [|[|[|[|[|[|[|k]]]]]]]; simpl in Hl; simplify_eq; constructor.
Qed.

Lemma NewDB_disk dbname comparator_name env s env' : NewDB dbname comparator_name env = (s, env') -> ok s = true ->
  on_disk dbname env' 1 (log_file 0 [EncodeTo [] (new_db_edit comparator_name)]) 0.
Proof.
  unfold NewDB. fold (new_db_edit comparator_name). set (name := DescriptorFileName dbname 1).
  pose proof (CreateFile_spec name env) as H0. destruct (CreateFile name env) as [s0 env0]. destruct H0 as [_ F0].
  destruct (ok s0) eqn:Hs0; cbn [negb]; [|intros [= <- <-]; by rewrite Hs0]. specialize (F0 eq_refl).
  pose proof (AddManifestRecord_grows name env0 [] 0 (EncodeTo [] (new_db_edit comparator_name)) F0) as H1. len_nils.
  destruct (AddManifestRecord name 0 _ env0) as [[s1 off] env1]. destruct H1 as [_ (d & E1 & _ & _ & D1)].
  destruct (ok s1) eqn:Hs1; [|rewrite Hs1; intros [= <- <-]; by rewrite Hs1]. unfold CloseFile. next env1. destruct (ok s2) eqn:Hs2; [|intros [= <- <-]; by rewrite Hs2].
  pose proof (SetCurrentFile_spec dbname 1 env_next ltac:(done)) as H3. intros E. rewrite E in H3. destruct H3 as [O3 F3]. intros Hs. rewrite Hs in F3.
  split; [done|]. destruct (file_name_distinct dbname 1 1 ltac:(done) ltac:(done)) as (N1 & N2 & _). fold name in N1, N2 |- *.
  rewrite O3, Hnext, E1, lookup_insert_eq, (D1 eq_refl) by not_in. cbn [log_file map app]. by rewrite app_nil_r.
Qed.

Lemma Recover_nothing ucmp dbname comparator_name guard_less tag2 fnumber env n k : env_script env = [] ->
  f_data <$> env_files env !! CurrentFileName dbname = Some (current_contents n) ->
  env_files env !! DescriptorFileName dbname n = Some {| f_data := []; f_synced := k |} ->
  exists vs, Recover ucmp dbname comparator_name guard_less tag2 fnumber new_VersionSet env =
    Some (Corruption (bytes_of_string "no meta-nextfile entry in descriptor"), vs).
Proof.
  intros Hs Hcur Hdesc. rewrite (Recover_opens _ _ _ _ _ _ n env _ Hs Hcur Hdesc). cbn [f_data length recover_loop].
  destruct (ReadRecord_end (new_reader (sf_open []) true true 0) 0) as (r' & -> & Hcfg); [by apply reads_new_reader|].
  cbn [mbind option_bind]. rewrite reported_same by done. eexists. reflexivity.
Qed.

(** A new database is not durable.  NewDB closes the first MANIFEST without
    syncing it, then lets CURRENT name it.  When NewDB reports success, a crash
    may leave the database whole, and Recover then finds the empty database; but
    another crash leaves the MANIFEST empty, and Recover then reports a
    corruption. *)
Theorem newdb_manifest_not_synced (ucmp : Comparator) (dbname comparator_name : bytes) (guard_less : Z * bytes -> Z * bytes -> bool)
    (tag2 fnumber : Z) (env env' : Env) (s : Status)
    (Hname : name_ok comparator_name)
    (Hsize : len (log_file 0 [EncodeTo [] (new_db_edit comparator_name)]) < 2 ^ 64)
    (Hrun : NewDB dbname comparator_name env = (s, env')) (Hs : ok s = true) :
  let recover := Recover ucmp dbname comparator_name guard_less tag2 fnumber new_VersionSet in
  (exists env'', reopened env' env'' /\ recover env'' = Some (OK, replayed ucmp [new_db_edit comparator_name])) /\
  (exists env'' vs, reopened env' env'' /\ recover env'' = Some (Corruption (bytes_of_string "no meta-nextfile entry in descriptor"), vs)).
Proof.
  destruct (NewDB_disk _ _ _ _ _ Hrun Hs) as [Hcur Hman]. set (e := new_db_edit comparator_name) in *. set (T := log_file 0 [EncodeTo [] e]) in *.
  set (name := DescriptorFileName dbname 1) in *. cbv zeta.
  destruct (file_name_distinct dbname 1 1 ltac:(done) ltac:(done)) as (N1 & _). fold name in N1.
  assert (forall d, env_script (keep name d env') = [] /\ f_data <$> env_files (keep name d env') !! CurrentFileName dbname = Some (current_contents 1) /\
    env_files (keep name d env') !! name = Some {| f_data := d; f_synced := length d |}) as Hkeep.
  { intros d. split; [done|]. cbn [keep env_files]. rewrite lookup_insert_ne, lookup_fmap, Hcur, lookup_insert_eq by done. done. }
  split.
  - exists (keep name (take (length T) T) env'). split; [by apply (keep_reopened name (length T) env' {| f_data := T; f_synced := 0 |}); [|simpl; lia]|].
    destruct (Hkeep (take (length T) T)) as (K1 & K2 & K3).
    destruct (Recover_prefix ucmp dbname comparator_name guard_less tag2 fnumber [e] 1 (length T) _ _ ltac:(apply Forall_singleton; by apply new_db_edit_ok)
      ltac:(apply Forall_singleton; by right) Hsize K1 K2 K3) as (j & Hj & Hmax & Hrec).
    specialize (Hmax 1%nat ltac:(done) ltac:(done)). assert (j = 1%nat) as -> by (simpl in Hj; lia). apply Hrec. split; [by eexists|]. split; by eexists.
  - destruct (Hkeep []) as (K1 & K2 & K3). destruct (Recover_nothing ucmp dbname comparator_name guard_less tag2 fnumber _ 1 _ K1 K2 K3) as [vs Hvs].
    exists (keep name [] env'), vs. split; [|done]. by apply (keep_reopened name 0 env' {| f_data := T; f_synced := 0 |}).
Qed.


(** ** Claims *)

(** C16. LogAndApply is atomic.  Start in a state in which CURRENT names a synced
    MANIFEST whose edits stand for the running version (a state that a success
    leads to again, but not a failed write to the MANIFEST), with edits that fit,
    name a file once in a level and lay out no record that exactly fills a
    block, and a MANIFEST below 4 GiB.  However the calls of the
    environment fail: when LogAndApply reports success, the same holds of the
    new version, with the edit appended, or after a snapshot in a new MANIFEST;
    when it fails, the version and the counters are as before.  After any crash
    (that is also a crash at any point of LogAndApply, which is a script whose
    calls fail from there on), Recover succeeds and finds the state of the old
    edits or of the new ones, and of the new ones if LogAndApply reported
    success. *)
Theorem manifest_atomic (ucmp : Comparator) (dbname comparator_name : bytes) (guard_less : Z * bytes -> Z * bytes -> bool)
    (tag2 fnumber : Z) (edit : VersionEdit) (added : list (Z * GuardMetaData)) (vs : VersionSet) (env : Env) (n : Z) (es : list VersionEdit)
    (s : Status) (vs' : VersionSet) (e : VersionEdit) (env' : Env)
    (Hucmp : ComparatorOk ucmp all_keys)
    (Hstate : manifest_ok ucmp dbname comparator_name guard_less vs env n es)
    (Hrun : LogAndApply ucmp dbname comparator_name edit added vs env = Some (s, vs', e, env'))
    (Hedit : edit_ok guard_less e) (Hcomparator : comparator_ok comparator_name e)
    (Hhistory : history_ok (es ++ [e]))
    (Hsnapshot : descriptor_log_ vs = None -> edit_ok guard_less (snapshot_edit comparator_name vs)) :
  let es' := next_history comparator_name vs es e in
  writable es' ->
  (ok s = true -> manifest_ok ucmp dbname comparator_name guard_less vs' env' (manifest_file_number_ vs) es' /\
     last_sequence_ (replayed ucmp es') = last_sequence_ vs /\ manifest_file_number_ (replayed ucmp es') = next_file_number_ vs) /\
  (ok s = false -> unchanged vs vs') /\
  forall env'', reopened env' env'' -> exists es'', (es'' = es \/ es'' = es') /\ (ok s = true -> es'' = es') /\
    Recover ucmp dbname comparator_name guard_less tag2 fnumber new_VersionSet env'' = Some (OK, replayed ucmp es'').
Proof. exact (LogAndApply_atomic ucmp dbname comparator_name guard_less tag2 fnumber edit added vs env n es s vs' e env' Hstate Hrun Hedit Hcomparator Hhistory Hsnapshot). Qed.

(** A database as NewDB leaves it, with the MANIFEST synced. *)
Definition db : bytes := bytes_of_string "db".
Definition cmp_name : bytes := bytes_of_string "leveldb.BytewiseComparator".
Definition fresh_db : Env :=
  let data := log_file 0 [EncodeTo [] (new_db_edit cmp_name)] in
  {| env_files := <[CurrentFileName db := {| f_data := current_contents 1; f_synced := length (current_contents 1) |}]>
       (<[DescriptorFileName db 1 := {| f_data := data; f_synced := length data |}]> ∅);
     env_script := [] |}.
Definition fresh_vs : VersionSet := replayed BytewiseComparator [new_db_edit cmp_name].
Definition first_edit : VersionEdit := AddFile new_VersionEdit 0 3 100 (InternalKey [Byte.x61] 1 1) (InternalKey [Byte.x62] 2 1).
Definition no_guard_order (p q : Z * bytes) : bool := false.

Lemma fresh_db_ok : manifest_ok BytewiseComparator db cmp_name no_guard_order fresh_vs fresh_db 1 [new_db_edit cmp_name].
Proof.
  split.
  - split; vm_compute; split; congruence.
  - split; by vm_compute.
  - by vm_compute.
  - apply Forall_singleton. by apply new_db_edit_ok.
  - apply Forall_singleton. by right.
  - repeat split; by eexists.
  - split; [|repeat constructor]. intros k. cbn. constructor.
  - by vm_compute.
  - reflexivity.
  - reflexivity.
  - reflexivity.
Qed.

Definition first_logged : VersionEdit := SetPrevLogNumber (SetLastSequence (SetNextFile (SetLogNumber first_edit 0) 3) 0) 0.

Lemma first_edit_ok : edit_ok no_guard_order first_logged.
Proof.
  split; cbn; try done; try (repeat constructor; discriminate); try (intros i j x y _ H; by rewrite lookup_nil in H).
  all: split; [done|]; split; [|constructor]; intros k l Hl; destruct k as [|[|[|[|[|[|[|k]]]]]]]; simpl in Hl; simplify_eq; constructor.
Qed.

Lemma first_snapshot_ok : edit_ok no_guard_order (snapshot_edit cmp_name fresh_vs).
Proof.
  assert (snapshot_edit cmp_name fresh_vs = SetComparatorName new_VersionEdit cmp_name) as -> by (vm_compute; reflexivity).
  split; cbn; try done; try (repeat constructor; discriminate); try (intros i j x y _ H; by rewrite lookup_nil in H).
  all: split; [done|]; split; [|constructor]; intros k l Hl; destruct k as [|[|[|[|[|[|[|k]]]]]]]; simpl in Hl; simplify_eq; constructor.
Qed.

(** The status and the edit LogAndApply returned, to evaluate them alone. *)
Definition logged (r : option (Status * VersionSet * VersionEdit * Env)) : option (Status * VersionEdit) :=
  '(s, _, e, _) ← r; Some (s, e).

Lemma logged_inv r s e : logged r = Some (s, e) -> exists vs env, r = Some (s, vs, e, env).
Proof. destruct r as [[[[s' vs] e'] env]|]; cbn; [|done]. intros [= <- <-]. eauto. Qed.

Lemma first_edit_logged : logged (LogAndApply BytewiseComparator db cmp_name first_edit [] fresh_vs fresh_db) = Some (OK, first_logged).
Proof. vm_compute. reflexivity. Qed.

Lemma first_edit_writable : writable (next_history cmp_name fresh_vs [new_db_edit cmp_name] first_logged).
Proof. split; vm_compute; reflexivity. Qed.

Lemma manifest_atomic_witness : exists vs' env',
  LogAndApply BytewiseComparator db cmp_name first_edit [] fresh_vs fresh_db = Some (OK, vs', first_logged, env') /\
  forall env'', reopened env' env'' ->
    Recover BytewiseComparator db cmp_name no_guard_order 0 0 new_VersionSet env'' =
      Some (OK, replayed BytewiseComparator [snapshot_edit cmp_name fresh_vs; first_logged]).
Proof.
  destruct (logged_inv _ _ _ first_edit_logged) as (vs' & env' & E). exists vs', env'. split; [exact E|]. intros env'' Hre.
  destruct (manifest_atomic BytewiseComparator db cmp_name no_guard_order 0 0 first_edit [] fresh_vs fresh_db 1 [new_db_edit cmp_name] OK vs'
    first_logged env' BytewiseComparator_ok fresh_db_ok E first_edit_ok) as (_ & _ & H).
  - left. reflexivity.
  - split; [|repeat constructor]. intros k. apply (bool_decide_unpack _). destruct k as [|k]; vm_compute; exact I.
  - intros _. apply first_snapshot_ok.
  - apply first_edit_writable.
  - destruct (H env'' Hre) as (es'' & _ & Hes & Hrec). rewrite Hrec, (Hes eq_refl). reflexivity.
Defined.

Lemma new_db_created : (NewDB db cmp_name {| env_files := ∅; env_script := [] |}).1 = OK.
Proof. vm_compute. reflexivity. Qed.

Lemma newdb_manifest_not_synced_witness : exists env',
  NewDB db cmp_name {| env_files := ∅; env_script := [] |} = (OK, env') /\
  exists env'' vs, reopened env' env'' /\ Recover BytewiseComparator db cmp_name no_guard_order 0 0 new_VersionSet env'' =
    Some (Corruption (bytes_of_string "no meta-nextfile entry in descriptor"), vs).
Proof.
  pose proof new_db_created as Es. destruct (NewDB db cmp_name {| env_files := ∅; env_script := [] |}) as [s env'] eqn:E.
  cbn [fst] in Es. subst s. exists env'. split; [reflexivity|].
  destruct (newdb_manifest_not_synced BytewiseComparator db cmp_name no_guard_order 0 0 {| env_files := ∅; env_script := [] |} env' OK) as [_ H].
  - vm_compute. reflexivity.
  - vm_compute. reflexivity.
  - exact E.
  - reflexivity.
  - exact H.
Defined.
