(* ===== verification/DbIter.v ===== *)
(** * Database iterators (db/db_iter.cc)

    DBIter turns the entries of the database, internal keys in ascending order,
    into what a snapshot sees: for each user key the newest entry at or before
    the snapshot's sequence number, unless it is a deletion.  It is proved to
    be an Iterator over exactly that list, against the Iterator contract of the
    iterator inside.

    The sampling of reads (bytes_counter_, rnd_, tombstones_counter_ and
    DBImpl::RecordReadSample) only schedules compactions and is left out. *)

From Stdlib Require Import ZArith Lia Bool Sorting.Sorted.
From Stdlib Require Import Strings.String.
From stdpp Require Import base list sorting.
From S2P Require Import Prelude Coding Comparator DbFormat Status Iterator Block BlockSpec.

Set Default Goal Selector "!".
Local Open Scope Z_scope.
#[local] Arguments Compare : simpl never.

Section DBIter.
Context (user_comparator : Comparator) (I : IterOps) (sequence_ : Z).

Record DBIter := {
  iter_ : St I;
  status_ : Status;
  saved_key_ : bytes;
  saved_value_ : bytes;
  direction_ : Direction;
  valid_ : bool;
}.

Definition new_DBIter (iter : St I) : DBIter :=
  {| iter_ := iter; status_ := OK; saved_key_ := []; saved_value_ := []; direction_ := kForward; valid_ := false |}.

Definition with_iter (d : DBIter) (s : St I) : DBIter :=
  {| iter_ := s; status_ := status_ d; saved_key_ := saved_key_ d; saved_value_ := saved_value_ d;
     direction_ := direction_ d; valid_ := valid_ d |}.

(** A step of the iterator inside. *)
Definition move (f : St I -> option (St I)) (d : DBIter) : option DBIter := with_iter d <$> f (iter_ d).

Definition ParseKey (d : DBIter) : DBIter * bool * ParsedInternalKey :=
  let '(valid, ikey) := ParseInternalKey (Iterator.key I (iter_ d)) ParsedInternalKey_default in
  if negb valid then
    ({| iter_ := iter_ d; status_ := Corruption (bytes_of_string "corrupted internal key in DBIter");
        saved_key_ := saved_key_ d; saved_value_ := saved_value_ d; direction_ := direction_ d; valid_ := valid_ d |},
     false, ikey)
  else (d, true, ikey).

Definition set_saved (d : DBIter) (key value : bytes) (direction : Direction) (valid : bool) : DBIter :=
  {| iter_ := iter_ d; status_ := status_ d; saved_key_ := key; saved_value_ := value; direction_ := direction;
     valid_ := valid |}.

(** The do loop; [skip] points to saved_key_ in every call. *)
Fixpoint FindNextUserEntry (fuel : nat) (skipping : bool) (d : DBIter) : option DBIter :=
  match fuel with
  | O => None
  | S fuel =>
      let '(d, parsed, ikey) := ParseKey d in
      let next (skipping : bool) (d : DBIter) :=
        d ← move (Next I) d;
        if Valid I (iter_ d) then FindNextUserEntry fuel skipping d
        else Some (set_saved d [] (saved_value_ d) (direction_ d) false) in
      if parsed && (sequence ikey <=? sequence_) then
        if type_ ikey =? kTypeDeletion then
          next true (set_saved d (user_key ikey) (saved_value_ d) (direction_ d) (valid_ d))
        else if type_ ikey =? kTypeValue then
          if skipping && (Compare user_comparator (user_key ikey) (saved_key_ d) <=? 0) then next skipping d
          else Some (set_saved d [] (saved_value_ d) (direction_ d) true)
        else next skipping d
      else next skipping d
  end.

(** The do loop of FindPrevUserEntry, with value_type; the iterator and
    value_type at the end. *)
Fixpoint find_prev_loop (fuel : nat) (value_type : Z) (d : DBIter) : option (DBIter * Z) :=
  match fuel with
  | O => None
  | S fuel =>
      let '(d, parsed, ikey) := ParseKey d in
      let prev (value_type : Z) (d : DBIter) :=
        d ← move (Prev I) d;
        if Valid I (iter_ d) then find_prev_loop fuel value_type d else Some (d, value_type) in
      if parsed && (sequence ikey <=? sequence_) then
        if negb (value_type =? kTypeDeletion) && (Compare user_comparator (user_key ikey) (saved_key_ d) <? 0)
        then Some (d, value_type)
        else
          let value_type := type_ ikey in
          if value_type =? kTypeDeletion then prev value_type (set_saved d [] [] (direction_ d) (valid_ d))
          else
            let raw_value := Iterator.value I (iter_ d) in
            prev value_type
              (set_saved d (ExtractUserKey (Iterator.key I (iter_ d))) raw_value (direction_ d) (valid_ d))
      else prev value_type d
  end.

Definition FindPrevUserEntry (fuel : nat) (d : DBIter) : option DBIter :=
  '(d, value_type) ← (if Valid I (iter_ d) then find_prev_loop fuel kTypeDeletion d else Some (d, kTypeDeletion));
  if value_type =? kTypeDeletion then Some (set_saved d [] [] kForward false)
  else Some (set_saved d (saved_key_ d) (saved_value_ d) (direction_ d) true).

Context (fuel : nat).

Definition dbiter_Next (d : DBIter) : option DBIter :=
  match direction_ d with
  | kReverse =>
      let d := set_saved d (saved_key_ d) (saved_value_ d) kForward (valid_ d) in
      d ← (if negb (Valid I (iter_ d)) then move (SeekToFirst I) d else move (Next I) d);
      if negb (Valid I (iter_ d)) then Some (set_saved d [] (saved_value_ d) (direction_ d) false)
      else FindNextUserEntry fuel true d
  | kForward =>
      FindNextUserEntry fuel true
        (set_saved d (ExtractUserKey (Iterator.key I (iter_ d))) (saved_value_ d) (direction_ d) (valid_ d))
  end.

(** The loop of Prev that leaves the entries of the current user key; [false]:
    the beginning was reached. *)
Fixpoint leave_key (fuel : nat) (d : DBIter) : option (DBIter * bool) :=
  match fuel with
  | O => None
  | S fuel =>
      d ← move (Prev I) d;
      if negb (Valid I (iter_ d)) then Some (set_saved d [] [] (direction_ d) false, false)
      else if Compare user_comparator (ExtractUserKey (Iterator.key I (iter_ d))) (saved_key_ d) <? 0 then Some (d, true)
      else leave_key fuel d
  end.

Definition dbiter_Prev (d : DBIter) : option DBIter :=
  match direction_ d with
  | kForward =>
      match leave_key fuel
        (set_saved d (ExtractUserKey (Iterator.key I (iter_ d))) (saved_value_ d) (direction_ d) (valid_ d)) with
      | Some (d, true) => FindPrevUserEntry fuel (set_saved d (saved_key_ d) (saved_value_ d) kReverse (valid_ d))
      | Some (d, false) => Some d
      | None => None
      end
  | kReverse => FindPrevUserEntry fuel d
  end.

Definition dbiter_Seek (target : bytes) (d : DBIter) : option DBIter :=
  let d := set_saved d (AppendInternalKey [] {| user_key := target; sequence := sequence_; type_ := kValueTypeForSeek |})
             [] kForward (valid_ d) in
  d ← move (Seek I (saved_key_ d)) d;
  if Valid I (iter_ d) then FindNextUserEntry fuel false d
  else Some (set_saved d (saved_key_ d) (saved_value_ d) (direction_ d) false).

Definition dbiter_SeekToFirst (d : DBIter) : option DBIter :=
  let d := set_saved d (saved_key_ d) [] kForward (valid_ d) in
  d ← move (SeekToFirst I) d;
  if Valid I (iter_ d) then FindNextUserEntry fuel false d
  else Some (set_saved d (saved_key_ d) (saved_value_ d) (direction_ d) false).

Definition dbiter_SeekToLast (d : DBIter) : option DBIter :=
  let d := set_saved d (saved_key_ d) [] kReverse (valid_ d) in
  d ← move (SeekToLast I) d;
  FindPrevUserEntry fuel d.

(** NewDBIterator: the operations of the Iterator interface. *)
Definition DBIterator : IterOps := {|
  St := DBIter;
  Valid := valid_;
  SeekToFirst := dbiter_SeekToFirst;
  SeekToLast := dbiter_SeekToLast;
  Seek := dbiter_Seek;
  Next := dbiter_Next;
  Prev := dbiter_Prev;
  Iterator.key d := match direction_ d with
                    | kForward => ExtractUserKey (Iterator.key I (iter_ d))
                    | kReverse => saved_key_ d
                    end;
  Iterator.value d := match direction_ d with kForward => Iterator.value I (iter_ d) | kReverse => saved_value_ d end;
  status d := if ok (status_ d) then status I (iter_ d) else status_ d;
|}.
End DBIter.

(** ** What a snapshot sees *)
Section View.
Context (ucmp : Comparator) (l : list entry) (sequence_ : Z).
Notation icmp := (InternalKeyComparator ucmp).

Definition e_user (e : entry) : bytes := ExtractUserKey (fst e).
Definition e_seq (e : entry) : Z := Z.shiftr (ExtractTag (fst e)) 8.
Definition e_type (e : entry) : Z := ExtractValueType (fst e).

(** Keys as AppendInternalKey makes them for values and deletions. *)
Definition entry_valid (e : entry) : Prop := exists u s t, fst e = InternalKey u s t /\ tag_ok s t.

Definition at_snapshot (e : entry) : bool := e_seq e <=? sequence_.

(** The entry with index [i] is a value and the first (newest) one of its user
    key that the snapshot sees. *)
Definition yields (i : nat) : bool :=
  match l !! i with
  | Some e =>
      at_snapshot e && (e_type e =? kTypeValue) &&
      negb (existsb (fun e' => at_snapshot e' && (Compare ucmp (e_user e') (e_user e) =? 0)) (take i l))
  | None => false
  end.

(** The user keys and values of the yielding entries, in order. *)
Definition user_view : list entry :=
  map (fun i => let e := nth i l ([], []) in (e_user e, snd e)) (List.filter yields (seq 0 (length l))).

(** The number of yielding entries before index [i]. *)
Definition rank (i : nat) : nat := length (List.filter yields (seq 0 i)).

Lemma rank_S i : rank (S i) = if yields i then S (rank i) else rank i.
Proof.
  unfold rank. rewrite seq_S, List.filter_app, length_app. simpl. destruct (yields i); simpl; lia.
Qed.

Lemma rank_gap a b : (a <= b)%nat -> (forall k, (a <= k < b)%nat -> yields k = false) -> rank a = rank b.
Proof.
  intros Hab. induction b as [|b IH]; intros H; [by replace a with 0%nat by lia|].
  destruct (Nat.eq_dec a (S b)) as [->|]; [done|]. rewrite rank_S, H by lia. apply IH; [lia|]. intros k Hk. apply H. lia.
Qed.

Lemma length_user_view : length user_view = rank (length l).
Proof. unfold user_view, rank. by rewrite length_map. Qed.

Lemma user_view_rank c e : yields c = true -> l !! c = Some e -> user_view !! rank c = Some (e_user e, snd e).
Proof.
  intros Hy He. pose proof (lookup_lt_Some _ _ _ He) as Hlt. unfold user_view, rank.
  replace (length l) with (c + S (length l - S c))%nat by lia. rewrite seq_app, List.filter_app, map_app.
  rewrite lookup_app_r by (rewrite length_map; lia). rewrite length_map, Nat.sub_diag. simpl. rewrite Hy. simpl.
  f_equal. by rewrite (nth_lookup_Some _ _ _ _ He).
Qed.

Lemma user_view_lookup n x :
  user_view !! n = Some x ->
  exists c e, yields c = true /\ l !! c = Some e /\ n = rank c /\ x = (e_user e, snd e).
Proof.
  unfold user_view, rank. intros H.
  assert (forall m n, map (fun i => let e := nth i l ([], []) in (e_user e, snd e)) (List.filter yields (seq 0 m)) !! n = Some x ->
    (m <= length l)%nat -> exists c e, yields c = true /\ l !! c = Some e /\ n = length (List.filter yields (seq 0 c)) /\
      x = (e_user e, snd e)) as Hm.
  { intros m. clear H n. induction m as [|m IH]; intros n H Hm; [done|].
    rewrite seq_S, List.filter_app, map_app in H.
    apply lookup_app_Some in H as [H|[Hle H]]; [apply IH; [done|lia]|].
    rewrite length_map in Hle, H. simpl in H. destruct (yields m) eqn:E; [|done]. simpl in H.
    destruct (n - length (List.filter yields (seq 0 m)))%nat as [|k] eqn:Ek; [|done].
    injection H as <-. destruct (lookup_lt_is_Some_2 l m) as [e He]; [lia|].
    exists m, e. split; [done|]. split; [done|]. split; [lia|]. by rewrite (nth_lookup_Some _ _ _ _ He). }
  apply (Hm (length l)); [done|lia].
Qed.

Lemma parse_entry e r :
  entry_valid e ->
  ParseInternalKey (fst e) r = (true, {| user_key := e_user e; sequence := e_seq e; type_ := e_type e |}) /\
  (e_type e = kTypeDeletion \/ e_type e = kTypeValue).
Proof.
  intros (u & s & t & E & Hs & Ht). unfold kValueTypeForSeek, kTypeValue in Ht.
  assert (e_user e = u /\ e_seq e = s /\ e_type e = t) as (Eu & Es & Et).
  { unfold e_user, e_seq, e_type. rewrite E, ExtractUserKey_InternalKey, ExtractValueType_InternalKey by lia.
    rewrite ExtractTag_InternalKey by lia. split; [done|]. split; [|done]. rewrite Z.shiftr_div_pow2 by lia.
    change (2 ^ 8) with 256. Z.div_mod_to_equations; lia. }
  rewrite E, ParseInternalKey_InternalKey, Eu, Es, Et by lia. split.
  - f_equal. apply Z.leb_le. unfold kTypeValue. lia.
  - unfold kTypeDeletion, kTypeValue. lia.
Qed.
End View.

(** ** DBIter over an iterator that keeps the contract *)
Section DBIterOk.
Context (ucmp : Comparator) `{Hucmp : !ComparatorOk ucmp all_keys}.
Context (I : IterOps) (l : list entry) (R : St I -> pos -> Prop).
Notation icmp := (InternalKeyComparator ucmp).
Context (dom udom : bytes -> Prop) `{HI : !IterOk I icmp dom l R}.
Context (Hsorted : sorted_keys icmp l) (Hvalid : Forall entry_valid l).
Context (sequence_ : Z) (Hseq : 0 <= sequence_ <= kMaxSequenceNumber).
(** Seek(user key) seeks the internal iterator to a key it can seek to. *)
Context (Hdom : forall u, udom u -> dom (InternalKey u sequence_ kValueTypeForSeek)).
Notation yld := (yields ucmp l sequence_).
Notation rk := (rank ucmp l sequence_).
Notation view := (user_view ucmp l sequence_).

(** Entry [i], its user key, and whether the snapshot sees it. *)
Definition ent (i : nat) : entry := nth i l ([], []).
Definition ukey (i : nat) : bytes := e_user (ent i).
Definition vis (i : nat) : Prop := (i < length l)%nat /\ e_seq (ent i) <= sequence_.
Definition ult (a b : bytes) : Prop := Compare ucmp a b < 0.
Definition ule (a b : bytes) : Prop := Compare ucmp a b <= 0.
(** No visible entry before [i] has its user key. *)
Definition fresh (i : nat) : Prop := forall j, (j < i)%nat -> vis j -> ult (ukey j) (ukey i).

Lemma ule_refl a : ule a a.
Proof. unfold ule. rewrite (cmp_refl (c := ucmp) (dom := all_keys)); [lia|done]. Qed.

Lemma ult_ule a b : ult a b -> ule a b.
Proof. unfold ult, ule. lia. Qed.

Lemma ule_trans a b c : ule a b -> ule b c -> ule a c.
Proof. by apply (cmp_le_trans (dom := all_keys)). Qed.

Lemma ule_ult a b c : ule a b -> ult b c -> ult a c.
Proof. by apply (cmp_le_lt_trans (dom := all_keys)). Qed.

Lemma ult_ule_trans a b c : ult a b -> ule b c -> ult a c.
Proof. by apply (cmp_lt_le_trans (dom := all_keys)). Qed.

Lemma ule_not_ult a b : ule a b <-> ~ ult b a.
Proof.
  unfold ule, ult. pose proof (cmp_ge_le (c := ucmp) (dom := all_keys) b a) as H. specialize (H Logic.I Logic.I). lia.
Qed.

Lemma ent_lookup i : (i < length l)%nat -> l !! i = Some (ent i).
Proof. intros H. unfold ent. destruct (lookup_lt_is_Some_2 l i H) as [e He]. by rewrite (nth_lookup_Some _ _ _ _ He). Qed.

Lemma ukey_mono i j : (i <= j)%nat -> (j < length l)%nat -> ule (ukey i) (ukey j).
Proof.
  intros Hij Hj. destruct (Nat.eq_dec i j) as [->|]; [apply ule_refl|]. unfold ule, ukey, e_user.
  apply (ikc_user_le (ucmp := ucmp)). enough (Compare icmp (fst (ent i)) (fst (ent j)) < 0) by lia.
  apply (Hsorted i j); [lia|apply ent_lookup; lia..].
Qed.

Lemma yields_spec i : yld i = true <-> vis i /\ e_type (ent i) = kTypeValue /\ fresh i.
Proof.
  unfold yields, vis, fresh. destruct (decide (i < length l)%nat) as [Hi|Hi].
  2:{ rewrite lookup_ge_None_2 by lia. split; [done|]. intros [[? _] _]. lia. }
  rewrite (ent_lookup i Hi), !andb_true_iff, Z.eqb_eq, negb_true_iff. unfold at_snapshot.
  rewrite Z.leb_le, <- not_true_iff_false, existsb_exists. split.
  - intros [[Hs Ht] Hn]. split; [done|]. split; [done|]. intros j Hj [Hlt Hv].
    pose proof (ukey_mono j i ltac:(lia) Hi) as Hm. unfold ule, ult, ukey in *.
    destruct (Z.eq_dec (Compare ucmp (e_user (ent j)) (e_user (ent i))) 0) as [E|]; [|lia]. destruct Hn.
    exists (ent j). split.
    + apply list_elem_of_In, (list_elem_of_lookup_2 _ j). rewrite lookup_take_lt by lia. by apply ent_lookup.
    + by rewrite andb_true_iff, Z.leb_le, Z.eqb_eq.
  - intros ([_ Hs] & Ht & Hf). split; [done|]. intros (e & Hin & Hb).
    apply list_elem_of_In, list_elem_of_lookup in Hin as [j Hj]. apply lookup_take_Some in Hj as [Hj Hlt].
    rewrite andb_true_iff, Z.leb_le, Z.eqb_eq in Hb. destruct Hb as [Hv E].
    pose proof (lookup_lt_Some _ _ _ Hj). rewrite ent_lookup in Hj by done. injection Hj as <-.
    specialize (Hf j Hlt (conj H Hv)). unfold ult, ukey in Hf. lia.
Qed.

Lemma not_yields i : ~ (vis i /\ e_type (ent i) = kTypeValue /\ fresh i) -> yld i = false.
Proof. intros H. apply not_true_iff_false. by rewrite yields_spec. Qed.

Lemma entry_at s i : R s (Some i) ->
  (i < length l)%nat /\ Iterator.key I s = fst (ent i) /\ Iterator.value I s = snd (ent i) /\
  ParseInternalKey (Iterator.key I s) ParsedInternalKey_default =
    (true, {| user_key := ukey i; sequence := e_seq (ent i); type_ := e_type (ent i) |}) /\
  (e_type (ent i) = kTypeDeletion \/ e_type (ent i) = kTypeValue).
Proof.
  intros H. pose proof (io_bound s i H) as Hi. destruct (io_key s i _ H (ent_lookup i Hi)) as [-> ->].
  split; [done|]. split; [done|]. split; [done|]. apply parse_entry.
  by apply (Forall_lookup_1 _ _ _ _ Hvalid (ent_lookup i Hi)).
Qed.

Lemma ParseKey_at (d : DBIter I) i : R (iter_ I d) (Some i) ->
  ParseKey I d = (d, true, {| user_key := ukey i; sequence := e_seq (ent i); type_ := e_type (ent i) |}).
Proof. intros H. unfold ParseKey. by destruct (entry_at _ _ H) as (_ & _ & _ & -> & _). Qed.

Lemma move_at (f : St I -> option (St I)) (d : DBIter I) p :
  (exists s', f (iter_ I d) = Some s' /\ R s' p) ->
  exists s', move I f d = Some (with_iter I d s') /\ R s' p /\ Valid I s' = match p with Some _ => true | None => false end.
Proof.
  intros (s' & E & H). exists s'. unfold move. rewrite E. split; [done|]. split; [done|]. by apply io_valid.
Qed.

(** *** Forward: FindNextUserEntry *)

(** At entry [i] with the key to skip, the loop can tell the fresh entries at
    or past [lo] by what it sees from [i] on. *)
Definition skip_inv (lo i : nat) (skipping : bool) (skip : bytes) : Prop :=
  (forall k, (i <= k)%nat -> vis k ->
    ((lo <= k)%nat /\ fresh k <->
     (forall j, (i <= j < k)%nat -> vis j -> ult (ukey j) (ukey k)) /\ (skipping = true -> ult skip (ukey k)))) /\
  (skipping = true -> forall k, (i <= k)%nat -> vis k -> ule skip (ukey k)).

(** The first yielding entry at or past both [lo] and [i]. *)
Definition first_yield (lo i : nat) (p : pos) : Prop :=
  match p with
  | Some k => (i <= k)%nat /\ (lo <= k)%nat /\ yld k = true /\ forall j, (lo <= j)%nat -> (i <= j < k)%nat -> yld j = false
  | None => forall j, (lo <= j)%nat -> (i <= j)%nat -> yld j = false
  end.

Lemma skip_inv_invisible lo i skipping skip : skip_inv lo i skipping skip -> ~ vis i -> skip_inv lo (S i) skipping skip.
Proof.
  intros [H1 H2] Hi. split; [|intros Hs k Hk; apply H2; [done|lia]]. intros k Hk Hv. rewrite (H1 k) by (done || lia).
  split; intros [Hj Hs]; (split; [|done]); intros j Hjk Hvj; apply Hj; try done; [lia|].
  destruct (Nat.eq_dec j i) as [->|]; [done|lia].
Qed.

Lemma skip_inv_deletion lo i skipping skip :
  skip_inv lo i skipping skip -> vis i -> skip_inv lo (S i) true (ukey i).
Proof.
  intros [H1 H2] Hi. split.
  - intros k Hk Hv. rewrite (H1 k) by (done || lia). split.
    + intros [Hj _]. split; [intros j Hjk; apply Hj; lia|]. intros _. apply Hj; [lia|done].
    + intros [Hj Hs]. split.
      * intros j Hjk Hvj. destruct (Nat.eq_dec j i) as [->|]; [by apply Hs|apply Hj; [lia|done]].
      * intros Hsk. eapply ule_ult; [apply (H2 Hsk i); [lia|done]|by apply Hs].
  - intros _ k Hk [Hlt _]. apply ukey_mono; [lia|done].
Qed.

Lemma skip_inv_hidden lo i skip : skip_inv lo i true skip -> ule (ukey i) skip -> skip_inv lo (S i) true skip.
Proof.
  intros [H1 H2] Hi. split; [|intros Hs k Hk; apply H2; [done|lia]]. intros k Hk Hv. rewrite (H1 k) by (done || lia).
  split; intros [Hj Hs]; (split; [|done]); intros j Hjk Hvj.
  - apply Hj; [lia|done].
  - destruct (Nat.eq_dec j i) as [->|]; [|apply Hj; [lia|done]]. eapply ule_ult; [exact Hi|by apply Hs].
Qed.

Lemma first_yield_S lo i p : ((lo <= i)%nat -> yld i = false) -> first_yield lo (S i) p -> first_yield lo i p.
Proof.
  intros Hi. destruct p as [k|]; simpl.
  - intros (Hik & Hlo & Hy & Hj). split; [lia|]. split; [done|]. split; [done|]. intros j Hl Hk.
    destruct (Nat.eq_dec j i) as [->|]; [by apply Hi|apply Hj; lia].
  - intros Hj j Hl Hk. destruct (Nat.eq_dec j i) as [->|]; [by apply Hi|apply Hj; lia].
Qed.

(** The state FindNextUserEntry leaves. *)
Definition forward_state (d : DBIter I) (p : pos) : Prop :=
  status_ I d = OK /\ direction_ I d = kForward /\ R (iter_ I d) p /\
  valid_ I d = match p with Some _ => true | None => false end.

Lemma forward_next lo i fuel skipping (d : DBIter I) :
  R (iter_ I d) (Some i) -> status_ I d = OK -> direction_ I d = kForward -> ((lo <= i)%nat -> yld i = false) ->
  (forall s', R s' (Some (S i)) ->
    exists d' p, FindNextUserEntry ucmp I sequence_ fuel skipping (with_iter I d s') = Some d' /\
      forward_state d' p /\ first_yield lo (S i) p) ->
  exists d' p,
    (d ← move I (Next I) d;
     if Valid I (iter_ I d) then FindNextUserEntry ucmp I sequence_ fuel skipping d
     else Some (set_saved I d [] (saved_value_ I d) (direction_ I d) false)) = Some d' /\
    forward_state d' p /\ first_yield lo i p.
Proof.
  intros Hr Hst Hdir Hi Hrec. pose proof (io_bound _ _ Hr) as Hlt.
  destruct (move_at (Next I) d (next_pos (length l) i) (io_next _ _ Hr)) as (s' & -> & Hs' & Hv).
  cbn. rewrite Hv. unfold next_pos in *. destruct (decide (S i < length l)%nat) as [Hn|Hn].
  - destruct (Hrec s' Hs') as (d' & p & E & Hf & Hy). exists d', p. split; [done|]. split; [done|]. by apply first_yield_S.
  - exists (set_saved I (with_iter I d s') [] (saved_value_ I d) (direction_ I d) false), None.
    split; [done|]. split; [by repeat split|]. intros j Hl Hj. destruct (Nat.eq_dec j i) as [->|]; [by apply Hi|].
    unfold yields. by rewrite lookup_ge_None_2 by lia.
Qed.

Lemma FindNextUserEntry_ok lo fuel : forall i skipping (d : DBIter I),
  R (iter_ I d) (Some i) -> status_ I d = OK -> direction_ I d = kForward ->
  (length l - i <= fuel)%nat -> skip_inv lo i skipping (saved_key_ I d) ->
  exists d' p, FindNextUserEntry ucmp I sequence_ fuel skipping d = Some d' /\ forward_state d' p /\ first_yield lo i p.
Proof.
  induction fuel as [|fuel IH]; intros i skipping d Hr Hst Hdir Hfuel Hinv.
  { pose proof (io_bound _ _ Hr). lia. }
  pose proof (io_bound _ _ Hr) as Hlt. destruct (entry_at _ _ Hr) as (_ & _ & _ & _ & Htype).
  cbn [FindNextUserEntry]. rewrite (ParseKey_at _ _ Hr). cbn [user_key sequence type_ andb].
  destruct (Z.leb_spec (e_seq (ent i)) sequence_) as [Hvis|Hinvis].
  2:{ apply forward_next; [done..| |].
      - intros _. apply not_yields. intros [[_ ?] _]. lia.
      - intros s' Hs'. apply IH; [done..|lia|]. apply skip_inv_invisible; [done|]. intros [_ ?]. lia. }
  destruct Htype as [Ht|Ht]; rewrite Ht.
  - change (kTypeDeletion =? kTypeDeletion) with true. cbv iota. apply forward_next; [done..| |].
    + intros _. apply not_yields. intros (_ & Hv & _). rewrite Ht in Hv. discriminate Hv.
    + intros s' Hs'. apply IH; [done..|lia|]. by eapply skip_inv_deletion.
  - change (kTypeValue =? kTypeDeletion) with false. change (kTypeValue =? kTypeValue) with true. cbv iota.
    pose proof Hinv as [H1 _]. specialize (H1 i (le_n i) (conj Hlt Hvis)).
    destruct (skipping && _) eqn:E.
    + apply andb_true_iff in E as [-> E%Z.leb_le]. apply forward_next; [done..| |].
      * intros Hlo. apply not_yields. intros (_ & _ & Hf). destruct H1 as [H1 _].
        destruct (H1 (conj Hlo Hf)) as [_ H]. by apply ule_not_ult in E; apply E, H.
      * intros s' Hs'. apply IH; [done..|lia|]. by apply skip_inv_hidden.
    + eexists _, (Some i). split; [done|]. split; [by repeat split|].
      destruct H1 as [_ [Hlo Hf]].
      { split; [intros j Hj; lia|]. intros ->. cbn [andb] in E. apply Z.leb_gt in E.
        by apply (cmp_gt_lt (dom := all_keys)) in E. }
      split; [done|]. split; [done|]. split; [by apply yields_spec|]. intros j _ Hj. lia.
Qed.

(** *** Backward: FindPrevUserEntry *)

(** The last visible entry before [c]; it has a smaller user key. *)
Definition last_below (c : nat) (q : pos) : Prop :=
  match q with
  | Some q => (q < c)%nat /\ vis q /\ ult (ukey q) (ukey c) /\ forall j, (q < j < c)%nat -> ~ vis j
  | None => forall j, (j < c)%nat -> ~ vis j
  end.

(** The loop at the entries below [n] has passed those from [n] to [top]: none
    of them can yield but the value [m] it has saved, if any. *)
Definition prev_inv (top n : nat) (value_type : Z) (d : DBIter I) (m : pos) : Prop :=
  match m with
  | None => value_type = kTypeDeletion /\ forall j, (n <= j < top)%nat -> yld j = false
  | Some m =>
      value_type = kTypeValue /\ (n <= m < top)%nat /\ vis m /\ e_type (ent m) = kTypeValue /\
      saved_key_ I d = ukey m /\ saved_value_ I d = snd (ent m) /\
      (forall j, (n <= j < m)%nat -> ~ vis j) /\ (forall j, (m < j < top)%nat -> yld j = false)
  end.

(** The last yielding entry below [top], saved, with the iterator before the
    entries of its user key. *)
Definition prev_result (top : nat) (value_type : Z) (d : DBIter I) (p : pos) : Prop :=
  match p with
  | None => value_type = kTypeDeletion /\ (forall j, (j < top)%nat -> yld j = false) /\ exists q, R (iter_ I d) q
  | Some c =>
      value_type = kTypeValue /\ (c < top)%nat /\ yld c = true /\ (forall j, (c < j < top)%nat -> yld j = false) /\
      saved_key_ I d = ukey c /\ saved_value_ I d = snd (ent c) /\ exists q, R (iter_ I d) q /\ last_below c q
  end.

Lemma prev_inv_stop top n value_type (d : DBIter I) m q :
  prev_inv top n value_type d m -> R (iter_ I d) q ->
  match q with
  | Some i => n = S i /\ vis i /\ exists c, m = Some c /\ ult (ukey i) (ukey c)
  | None => n = 0%nat
  end -> prev_result top value_type d m.
Proof.
  intros Hinv Hr Hq. destruct m as [m|].
  - destruct Hinv as (Hvt & Hm & Hv & Ht & Hk & Hval & Hno & Hy).
    assert (last_below m q) as Hb.
    { destruct q as [i|]; simpl.
      - destruct Hq as (-> & Hvi & c & [= <-] & Hlt). split; [lia|]. split; [done|]. split; [done|].
        intros j Hj. apply Hno. lia.
      - subst n. intros j Hj. apply Hno. lia. }
    split; [done|]. split; [lia|]. cut (yld m = true); [by eauto 10|].
    apply yields_spec. split; [done|]. split; [done|]. intros j Hj Hvj. destruct q as [i|]; simpl in Hb.
    + destruct Hb as (Him & Hvi & Hlt & Hbtw). destruct (le_lt_dec j i) as [Hji|Hji].
      * eapply ule_ult; [apply (ukey_mono j i); [done|apply Hvi]|done].
      * by destruct (Hbtw j ltac:(lia)).
    + by destruct (Hb j Hj).
  - destruct Hinv as [Hvt Hno]. destruct q as [i|].
    + by destruct Hq as (_ & _ & c & E & _).
    + subst n. split; [done|]. split; [|eauto]. intros j Hj. apply Hno. lia.
Qed.

Lemma prev_inv_invisible top n value_type d s' m :
  prev_inv top (S n) value_type d m -> ~ vis n -> prev_inv top n value_type (with_iter I d s') m.
Proof.
  intros Hinv Hn. destruct m as [m|]; simpl in *.
  - destruct Hinv as (Hvt & Hm & Hv & Ht & Hk & Hval & Hno & Hy). repeat (split; [done || lia|]). split; [|done].
    intros j Hj. destruct (Nat.eq_dec j n) as [->|]; [done|apply Hno; lia].
  - destruct Hinv as [Hvt Hno]. split; [done|]. intros j Hj. destruct (Nat.eq_dec j n) as [->|]; [|apply Hno; lia].
    apply not_yields. by intros [? _].
Qed.

(** A saved value is hidden by another visible entry of its user key. *)
Lemma prev_inv_past top n value_type d m :
  prev_inv top (S n) value_type d m -> vis n ->
  (forall c, m = Some c -> ~ ult (ukey n) (ukey c)) ->
  forall j, (n < j < top)%nat -> yld j = false.
Proof.
  intros Hinv Hn Hsame j Hj. destruct m as [m|]; [|by apply Hinv].
  destruct Hinv as (Hvt & Hm & Hv & Ht & Hk & Hval & Hno & Hy).
  destruct (Nat.lt_trichotomy j m) as [H|[->|H]].
  - apply not_yields. intros [Hvj _]. by destruct (Hno j ltac:(lia)).
  - apply not_yields. intros (_ & _ & Hf). apply (Hsame m eq_refl), Hf; [lia|done].
  - apply Hy. lia.
Qed.

Lemma backward_prev dir top n fuel value_type (d : DBIter I) m :
  R (iter_ I d) (Some n) -> status_ I d = OK -> direction_ I d = dir ->
  (forall s', prev_inv top n value_type (with_iter I d s') m) ->
  (forall n' s', n = S n' -> R s' (Some n') ->
    exists d' vt p, find_prev_loop ucmp I sequence_ fuel value_type (with_iter I d s') = Some (d', vt) /\
      status_ I d' = OK /\ direction_ I d' = dir /\ prev_result top vt d' p) ->
  exists d' vt p,
    (d ← move I (Prev I) d;
     if Valid I (iter_ I d) then find_prev_loop ucmp I sequence_ fuel value_type d else Some (d, value_type)) = Some (d', vt) /\
    status_ I d' = OK /\ direction_ I d' = dir /\ prev_result top vt d' p.
Proof.
  intros Hr Hst Hdir Hinv Hrec.
  destruct (move_at (Prev I) d (prev_pos n) (io_prev _ _ Hr)) as (s' & -> & Hs' & Hv).
  cbn. rewrite Hv. destruct n as [|n']; cbn [prev_pos] in *; [|by apply (Hrec n' s')].
  exists (with_iter I d s'), value_type, m. split; [done|]. split; [done|]. split; [done|].
  by eapply (prev_inv_stop _ _ _ _ _ None); [apply Hinv|..].
Qed.

Lemma find_prev_loop_ok dir top fuel : forall n value_type (d : DBIter I) m,
  R (iter_ I d) (Some n) -> status_ I d = OK -> direction_ I d = dir -> (n < fuel)%nat -> prev_inv top (S n) value_type d m -> (n < top)%nat ->
  exists d' vt p, find_prev_loop ucmp I sequence_ fuel value_type d = Some (d', vt) /\
    status_ I d' = OK /\ direction_ I d' = dir /\ prev_result top vt d' p.
Proof.
  induction fuel as [|fuel IH]; intros n value_type d m Hr Hst Hdir Hfuel Hinv Htop; [lia|].
  pose proof (io_bound _ _ Hr) as Hlt. destruct (entry_at _ _ Hr) as (_ & Hkey & Hvalue & _ & Htype).
  cbn [find_prev_loop]. rewrite (ParseKey_at _ _ Hr). cbn [user_key sequence type_ andb].
  destruct (Z.leb_spec (e_seq (ent n)) sequence_) as [Hvis|Hinvis].
  2:{ assert (forall s', prev_inv top n value_type (with_iter I d s') m) as Hinv'.
      { intros s'. apply prev_inv_invisible; [done|]. intros [_ ?]. lia. }
      eapply backward_prev; [done..|exact Hinv'|]. intros n' s' -> Hs'. eapply (IH n' _ (with_iter I d s') m); [done..|lia|apply Hinv'|lia]. }
  assert (vis n) as Hn by by split.
  destruct (negb (value_type =? kTypeDeletion) && _) eqn:E.
  - apply andb_true_iff in E as [E1 E2%Z.ltb_lt]. exists d, value_type, m. split; [done|]. split; [done|]. split; [done|].
    eapply (prev_inv_stop _ _ _ _ _ (Some n)); [done..|]. split; [done|]. split; [done|].
    destruct m as [m|]; [|destruct Hinv as [-> _]; done].
    exists m. split; [done|]. destruct Hinv as (_ & _ & _ & _ & Hk & _). unfold ult. by rewrite <- Hk.
  - assert (forall j, (n < j < top)%nat -> yld j = false) as Hpast.
    { eapply prev_inv_past; [done..|]. intros c ->. destruct Hinv as (-> & _ & _ & _ & Hk & _).
      change (kTypeValue =? kTypeDeletion) with false in E. cbn [negb andb] in E. unfold ult. rewrite <- Hk.
      apply Z.ltb_ge in E. lia. }
    destruct Htype as [Ht|Ht]; rewrite Ht.
    + change (kTypeDeletion =? kTypeDeletion) with true. cbv iota.
      assert (forall j, (n <= j < top)%nat -> yld j = false) as Hno.
      { intros j Hj. destruct (Nat.eq_dec j n) as [->|]; [|apply Hpast; lia]. apply not_yields.
        intros (_ & Hv & _). rewrite Ht in Hv. discriminate Hv. }
      apply (backward_prev dir top n fuel kTypeDeletion _ None); [done..|].
      intros n' s' -> Hs'. apply (IH n' _ (with_iter I _ s') None); [done..|lia|done|lia].
    + change (kTypeValue =? kTypeDeletion) with false. cbv iota. rewrite Hkey, Hvalue.
      assert (forall s', prev_inv top n kTypeValue
        (with_iter I (set_saved I d (ExtractUserKey (fst (ent n))) (snd (ent n)) (direction_ I d) (valid_ I d)) s') (Some n)) as Hinv'.
      { intros s'. simpl. split; [done|]. split; [lia|]. do 4 (split; [done|]). split; [intros j Hj; lia|exact Hpast]. }
      eapply backward_prev; [done..|exact Hinv'|].
      intros n' s' -> Hs'.
      eapply (IH n' _ (with_iter I _ s') (Some (S n'))); [done..|lia|apply Hinv'|lia].
Qed.

(** *** The contract *)

(** The iterator stands at the [n]-th entry of the view, the entry [c] below. *)
Definition dbiter_rel (d : DBIter I) (p : pos) : Prop :=
  status_ I d = OK /\
  match p with
  | None => valid_ I d = false /\ exists q, R (iter_ I d) q
  | Some n =>
      valid_ I d = true /\ exists c, yld c = true /\ n = rk c /\
        match direction_ I d with
        | kForward => R (iter_ I d) (Some c)
        | kReverse => saved_key_ I d = ukey c /\ saved_value_ I d = snd (ent c) /\
                      exists q, R (iter_ I d) q /\ last_below c q
        end
  end.

Lemma yields_lt c : yld c = true -> (c < length l)%nat.
Proof. by intros ((? & _) & _)%yields_spec. Qed.

Lemma view_at c : yld c = true -> view !! rk c = Some (ukey c, snd (ent c)).
Proof. intros H. apply user_view_rank; [done|]. by apply ent_lookup, yields_lt. Qed.

Lemma rank_le a b : (a <= b)%nat -> (rk a <= rk b)%nat.
Proof. induction 1 as [|b _ IH]; [done|]. rewrite rank_S. destruct (yld b); lia. Qed.

Lemma rank_next lo i p : (i <= lo)%nat -> (lo <= length l)%nat -> first_yield lo i p ->
  rk <$> p = (if decide (rk lo < length view)%nat then Some (rk lo) else None).
Proof.
  intros Hi Hlo. rewrite length_user_view. destruct p as [k|]; simpl.
  - intros (_ & Hk & Hy & Hj). rewrite <- (rank_gap _ _ _ lo k Hk) by (intros j Hjk; apply Hj; lia).
    rewrite decide_True; [done|]. pose proof (yields_lt k Hy). pose proof (rank_le (S k) (length l) ltac:(lia)) as H1.
    rewrite rank_S, Hy in H1. pose proof (rank_le lo k Hk). lia.
  - intros Hj. rewrite decide_False; [done|]. rewrite (rank_gap _ _ _ lo (length l) Hlo); [lia|].
    intros k Hk. apply Hj; lia.
Qed.

(** The last yielding entry below [top]. *)
Definition last_yield (top : nat) (p : pos) : Prop :=
  match p with
  | Some c => (c < top)%nat /\ yld c = true /\ forall j, (c < j < top)%nat -> yld j = false
  | None => forall j, (j < top)%nat -> yld j = false
  end.

Lemma rank_prev top p : last_yield top p -> rk <$> p = prev_pos (rk top).
Proof.
  destruct p as [c|]; simpl.
  - intros (Hc & Hy & Hj). rewrite <- (rank_gap _ _ _ (S c) top Hc) by (intros j Hjk; apply Hj; lia).
    by rewrite rank_S, Hy.
  - intros Hj. by rewrite <- (rank_gap _ _ _ 0 top) by (lia || (intros j Hjk; apply Hj; lia)).
Qed.

Lemma forward_rel d lo i p : forward_state d p -> first_yield lo i p -> dbiter_rel d (rk <$> p).
Proof.
  intros (Hst & Hdir & Hr & Hv) Hy. split; [done|]. destruct p as [k|]; simpl.
  - split; [done|]. exists k. rewrite Hdir. by destruct Hy as (_ & _ & ? & _).
  - split; [done|]. eauto.
Qed.

Context (fuel : nat) (Hfuel : (length l < fuel)%nat).

Lemma FindPrevUserEntry_ok (d : DBIter I) q top :
  R (iter_ I d) q -> status_ I d = OK -> direction_ I d = kReverse ->
  match q with
  | Some n => (n < top)%nat /\ forall j, (n < j < top)%nat -> yld j = false
  | None => forall j, (j < top)%nat -> yld j = false
  end ->
  exists d', FindPrevUserEntry ucmp I sequence_ fuel d = Some d' /\ dbiter_rel d' (prev_pos (rk top)).
Proof.
  intros Hr Hst Hdir Hq. unfold FindPrevUserEntry. rewrite (io_valid _ _ Hr).
  assert (exists d' vt p,
    (if match q with Some _ => true | None => false end then find_prev_loop ucmp I sequence_ fuel kTypeDeletion d
     else Some (d, kTypeDeletion)) = Some (d', vt) /\
    status_ I d' = OK /\ direction_ I d' = kReverse /\ prev_result top vt d' p) as (d' & vt & p & -> & Hst' & Hdir' & Hp).
  { destruct q as [n|].
    - destruct Hq as [Htop Hno]. apply (find_prev_loop_ok kReverse top fuel n kTypeDeletion d None); try done.
      pose proof (io_bound _ _ Hr). lia.
    - exists d, kTypeDeletion, None. split; [done|]. split; [done|]. split; [done|]. split; [done|]. split; [done|]. by exists None. }
  cbn. destruct p as [c|]; simpl in Hp.
  - destruct Hp as (-> & Hc & Hy & Hno & Hk & Hv & q' & Hq' & Hb). eexists. split; [done|].
    rewrite <- (rank_prev top (Some c)) by done. split; [done|]. split; [done|]. exists c. split; [done|]. split; [done|].
    cbn. rewrite Hdir'. eauto 6.
  - destruct Hp as (-> & Hno & q' & Hq'). eexists. split; [done|].
    rewrite <- (rank_prev top None) by done. split; [done|]. split; [done|]. by exists q'.
Qed.

Lemma leave_key_ok c : yld c = true -> forall n f (d : DBIter I),
  R (iter_ I d) (Some n) -> status_ I d = OK -> (n <= c)%nat -> (n < f)%nat -> saved_key_ I d = ukey c ->
  (forall j, (n < j <= c)%nat -> ~ ult (ukey j) (ukey c)) -> ~ ult (ukey n) (ukey c) ->
  exists d' b, leave_key ucmp I f d = Some (d', b) /\ status_ I d' = OK /\
    if b then exists q, R (iter_ I d') (Some q) /\ (q < c)%nat /\ forall j, (q < j < c)%nat -> ~ ult (ukey j) (ukey c)
    else valid_ I d' = false /\ R (iter_ I d') None /\ forall j, (j < c)%nat -> ~ ult (ukey j) (ukey c).
Proof.
  intros Hy n. induction n as [n IH] using lt_wf_ind. intros [|f] d Hr Hst Hnc Hf Hk Hge Hn; [lia|].
  cbn [leave_key]. destruct (move_at (Prev I) d (prev_pos n) (io_prev _ _ Hr)) as (s' & -> & Hs' & Hv).
  cbn. rewrite Hv. destruct n as [|n']; cbn [prev_pos negb] in *.
  - eexists _, false. split; [done|]. split; [done|]. split; [done|]. split; [done|]. intros j Hj.
    destruct j as [|j]; [done|apply Hge; lia].
  - destruct (entry_at _ _ Hs') as (Hlt & Hkey & _). rewrite Hkey, Hk.
    change (ExtractUserKey (fst (ent n'))) with (ukey n').
    destruct (Z.ltb_spec (Compare ucmp (ukey n') (ukey c)) 0) as [Hc|Hc].
    + eexists _, true. split; [done|]. split; [done|]. exists n'. split; [done|]. split; [lia|]. intros j Hj.
      destruct (Nat.eq_dec j (S n')) as [->|]; [done|apply Hge; lia].
    + apply (IH n'); try done; try lia.
      * intros j Hj. destruct (Nat.eq_dec j (S n')) as [->|]; [done|apply Hge; lia].
      * unfold ult. lia.
Qed.

Lemma skip_after c i :
  (i <= c)%nat -> vis c -> (forall k, (i <= k)%nat -> vis k -> ule (ukey c) (ukey k)) -> skip_inv (S c) i true (ukey c).
Proof.
  intros Hi Hc Hge. split; [|done]. intros k Hk Hv. split.
  - intros [Hlt Hf]. split; [intros j Hj; apply Hf; lia|]. intros _. apply Hf; [lia|done].
  - intros [Hj Hs]. specialize (Hs eq_refl). split.
    + destruct (le_lt_dec k c) as [Hle|]; [|done]. exfalso. revert Hs.
      apply ule_not_ult, ukey_mono; [done|apply Hc].
    + intros j Hjk Hvj. destruct (le_lt_dec i j) as [?|Hji]; [by apply Hj|].
      eapply ule_ult; [apply (ukey_mono j c); [lia|apply Hc]|done].
Qed.

Lemma dbiter_Next_ok d n : dbiter_rel d (Some n) ->
  exists d', dbiter_Next ucmp I sequence_ fuel d = Some d' /\ dbiter_rel d' (next_pos (length view) n).
Proof.
  intros (Hst & Hv & c & Hy & -> & Hd). pose proof (proj1 (yields_spec c) Hy) as (Hc & _ & Hf).
  assert (forall i d', (i <= c)%nat -> R (iter_ I d') (Some i) -> status_ I d' = OK -> direction_ I d' = kForward ->
    saved_key_ I d' = ukey c -> (forall k, (i <= k)%nat -> vis k -> ule (ukey c) (ukey k)) ->
    exists d'', FindNextUserEntry ucmp I sequence_ fuel true d' = Some d'' /\
      dbiter_rel d'' (next_pos (length view) (rk c))) as Hgo.
  { intros i d' Hi Hr Hst' Hdir Hk Hge.
    destruct (FindNextUserEntry_ok (S c) fuel i true d') as (d'' & p & E & Hfs & Hp); [done..|lia|rewrite Hk; by apply skip_after|].
    exists d''. split; [done|]. unfold next_pos. assert (S (rk c) = rk (S c)) as -> by (by rewrite rank_S, Hy).
    destruct Hc as [Hlt _]. rewrite <- (rank_next (S c) i p) by (done || lia). by eapply forward_rel. }
  unfold dbiter_Next. destruct (direction_ I d) eqn:Hdir.
  - destruct (entry_at _ _ Hd) as (Hlt & -> & _). apply (Hgo c); [done..|].
    intros k Hk [Hk' _]. by apply ukey_mono.
  - destruct Hd as (Hk & _ & q & Hq & Hb). cbn [iter_ set_saved]. rewrite (io_valid _ _ Hq).
    set (d0 := set_saved I d (saved_key_ I d) (saved_value_ I d) kForward (valid_ I d)).
    assert (exists s' i, (if negb match q with Some _ => true | None => false end then move I (SeekToFirst I) d0
        else move I (Next I) d0) = Some (with_iter I d0 s') /\ R s' (Some i) /\ (i <= c)%nat /\
      forall k, (i <= k)%nat -> vis k -> ule (ukey c) (ukey k)) as (s' & i & -> & Hs' & Hi & Hge).
    { destruct Hc as [Hlt _]. destruct q as [q|]; simpl in Hb |- *.
      - destruct Hb as (Hqc & _ & _ & Hno).
        destruct (move_at (Next I) d0 _ (io_next _ _ Hq)) as (s' & E & Hs' & _).
        unfold next_pos in Hs'. rewrite decide_True in Hs' by lia. exists s', (S q). split; [done|]. split; [done|].
        split; [lia|]. intros k Hk' Hvk. destruct (le_lt_dec c k); [by apply ukey_mono; [|apply Hvk]|].
        by destruct (Hno k ltac:(lia)).
      - destruct (move_at (SeekToFirst I) d0 _ (io_first _ _ Hq)) as (s' & E & Hs' & _).
        unfold first_pos in Hs'. rewrite decide_False in Hs' by lia. exists s', 0%nat. split; [done|]. split; [done|].
        split; [lia|]. intros k Hk' Hvk. destruct (le_lt_dec c k); [by apply ukey_mono; [|apply Hvk]|].
        by destruct (Hb k ltac:(lia)). }
    cbn. rewrite (io_valid _ _ Hs'). cbn. by apply (Hgo i).
Qed.

Lemma dbiter_Prev_ok d n : dbiter_rel d (Some n) ->
  exists d', dbiter_Prev ucmp I sequence_ fuel d = Some d' /\ dbiter_rel d' (prev_pos n).
Proof.
  intros (Hst & Hv & c & Hy & -> & Hd). pose proof (proj1 (yields_spec c) Hy) as (Hc & _ & Hf).
  assert (forall j, (j < c)%nat -> ~ ult (ukey j) (ukey c) -> yld j = false) as Hno.
  { intros j Hj Hn. apply not_yields. intros [Hvj _]. by apply Hn, Hf. }
  unfold dbiter_Prev. destruct (direction_ I d) eqn:Hdir.
  - destruct (entry_at _ _ Hd) as (Hlt & -> & _).
    assert (~ ult (ukey c) (ukey c)) as Hcc by (apply ule_not_ult, ule_refl).
    destruct (leave_key_ok c Hy c fuel
      (set_saved I d (ExtractUserKey (fst (ent c))) (saved_value_ I d) kForward (valid_ I d))) as (d' & b & -> & Hst' & Hb);
      [done..|lia|done|intros j Hj; lia|done|].
    destruct b.
    + destruct Hb as (q & Hq & Hqc & Hge). cbn. apply (FindPrevUserEntry_ok _ (Some q)); [done..|].
      split; [done|]. intros j Hj. apply Hno; [lia|]. by apply Hge.
    + destruct Hb as (Hv' & Hr & Hge). exists d'. split; [done|]. rewrite <- (rank_prev c None).
      * split; [done|]. split; [done|]. by exists None.
      * intros j Hj. by apply Hno, Hge.
  - destruct Hd as (_ & _ & q & Hq & Hb). apply (FindPrevUserEntry_ok _ q); [done..|]. destruct q as [q|].
    + destruct Hb as (Hqc & _ & _ & Hnv). split; [done|]. intros j Hj. apply not_yields. intros [Hvj _].
      by apply (Hnv j).
    + intros j Hj. apply not_yields. intros [Hvj _]. by apply (Hb j).
Qed.

(** A seek key of user key [u] at the snapshot separates the visible entries
    with smaller user keys from the rest. *)
Lemma seek_key_below i u :
  (i < length l)%nat -> Compare icmp (fst (ent i)) (InternalKey u sequence_ kValueTypeForSeek) < 0 -> vis i -> ult (ukey i) u.
Proof.
  intros Hi Hlt [_ Hv]. unfold ult, ukey, e_user.
  destruct (ikc_Compare_cases (ucmp := ucmp) (fst (ent i)) (InternalKey u sequence_ kValueTypeForSeek)) as [[_ E]|[Hu E]];
    rewrite E in Hlt; [by rewrite ExtractUserKey_InternalKey in Hlt|].
  pose proof (Forall_lookup_1 _ _ _ _ Hvalid (ent_lookup i Hi)) as (u' & s & t & Ek & Hs & Ht).
  assert (e_seq (ent i) = s) as Es.
  { unfold e_seq. unfold kValueTypeForSeek, kTypeValue in Ht. rewrite Ek, ExtractTag_InternalKey by lia. rewrite Z.shiftr_div_pow2 by lia.
    change (2 ^ 8) with 256. Z.div_mod_to_equations; lia. }
  unfold kValueTypeForSeek, kTypeValue in *. rewrite Ek, !ExtractTag_InternalKey in Hlt by lia. lia.
Qed.

Lemma seek_key_above i u :
  (i < length l)%nat -> 0 <= Compare icmp (fst (ent i)) (InternalKey u sequence_ kValueTypeForSeek) -> ule u (ukey i).
Proof.
  intros Hi Hge. unfold ule, ukey, e_user. apply (cmp_ge_le (dom := all_keys)); [done..|].
  destruct (ikc_Compare_cases (ucmp := ucmp) (fst (ent i)) (InternalKey u sequence_ kValueTypeForSeek)) as [[_ E]|[Hu E]].
  - rewrite E in Hge. by rewrite ExtractUserKey_InternalKey in Hge.
  - rewrite Hu, ExtractUserKey_InternalKey, (cmp_refl (c := ucmp) (dom := all_keys)); [lia|done].
Qed.

(** Looking for the first entry of the view from entry [i] on. *)
Lemma seek_view i u p :
  (i <= length l)%nat -> (forall j, (j < i)%nat -> vis j -> ult (ukey j) u) ->
  (forall k, (i <= k)%nat -> (k < length l)%nat -> ule u (ukey k)) ->
  first_yield i i p -> rk <$> p = seek_pos ucmp view u.
Proof.
  intros Hi Hlt Hge Hp.
  assert (forall n kv, (n < rk i)%nat -> view !! n = Some kv -> Compare ucmp (fst kv) u < 0) as Hbelow.
  { intros n kv Hn (c & e & Hy & He & -> & ->)%user_view_lookup. pose proof (yields_lt c Hy) as Hc.
    rewrite ent_lookup in He by done. injection He as <-. apply Hlt; [|by apply yields_spec].
    destruct (le_lt_dec i c) as [H%rank_le|]; [lia|done]. }
  rewrite (rank_next i i p) by done. destruct (decide _) as [Hd|Hd]; symmetry.
  - destruct (lookup_lt_is_Some_2 view (rk i) Hd) as [kv Hkv]. apply seek_pos_Some. exists kv. split; [done|].
    split; [|by eauto]. apply user_view_lookup in Hkv as (c & e & Hy & He & Er & ->). pose proof (yields_lt c Hy) as Hc.
    rewrite ent_lookup in He by done. injection He as <-. apply (cmp_ge_le (dom := all_keys)); [done..|].
    apply Hge; [|done]. destruct (le_lt_dec i c) as [|H]; [done|]. apply (rank_le (S c) i) in H.
    rewrite rank_S, Hy in H. lia.
  - apply seek_pos_None, Forall_lookup. intros n kv Hkv. apply (Hbelow n); [|done]. apply lookup_lt_Some in Hkv. lia.
Qed.

Lemma start_inv i : (forall j k, (j < i)%nat -> (i <= k)%nat -> vis j -> vis k -> ult (ukey j) (ukey k)) ->
  forall skip, skip_inv i i false skip.
Proof.
  intros Hlt skip. split; [|done]. intros k Hk Hv. split.
  - intros [_ Hf]. split; [|done]. intros j Hj. apply Hf. lia.
  - intros [Hj _]. split; [done|]. intros j Hjk Hvj. destruct (le_lt_dec i j); [by apply Hj|by apply Hlt].
Qed.

(** SeekToFirst and Seek: the iterator inside moves to entry [i], or past the
    last one, and the search goes on from there. *)
Lemma start_forward (d : DBIter I) i p :
  status_ I d = OK -> direction_ I d = kForward -> R (iter_ I d) p ->
  match p with Some n => n = i | None => i = length l end ->
  (forall j k, (j < i)%nat -> (i <= k)%nat -> vis j -> vis k -> ult (ukey j) (ukey k)) ->
  exists d' p, (if Valid I (iter_ I d) then FindNextUserEntry ucmp I sequence_ fuel false d
    else Some (set_saved I d (saved_key_ I d) (saved_value_ I d) (direction_ I d) false)) = Some d' /\
    first_yield i i p /\ dbiter_rel d' (rk <$> p).
Proof.
  intros Hst Hdir Hr Hi Hlt. rewrite (io_valid _ _ Hr). destruct p as [n|].
  - subst n. destruct (FindNextUserEntry_ok i fuel i false d) as (d' & p & E & Hf & Hp); [done..|lia|by apply start_inv|].
    exists d', p. split; [done|]. split; [done|]. by eapply forward_rel.
  - eexists _, None. split; [done|]. split.
    + intros j Hl _. unfold yields. by rewrite lookup_ge_None_2 by lia.
    + split; [done|]. split; [done|]. by exists None.
Qed.

Lemma dbiter_rel_inside d p : dbiter_rel d p -> status_ I d = OK /\ exists q, R (iter_ I d) q.
Proof.
  intros [Hst Hp]. split; [done|]. destruct p as [n|]; [|by destruct Hp]. destruct Hp as (_ & c & _ & _ & Hd).
  destruct (direction_ I d); [eauto|]. destruct Hd as (_ & _ & q & Hq & _). eauto.
Qed.

Lemma dbiter_SeekToFirst_ok d p : dbiter_rel d p ->
  exists d', dbiter_SeekToFirst ucmp I sequence_ fuel d = Some d' /\ dbiter_rel d' (first_pos (length view)).
Proof.
  intros [Hst [q Hq]]%dbiter_rel_inside. unfold dbiter_SeekToFirst.
  destruct (move_at (SeekToFirst I) (set_saved I d (saved_key_ I d) [] kForward (valid_ I d)) _ (io_first _ _ Hq))
    as (s' & -> & Hs' & _). cbn [mbind option_bind].
  destruct (start_forward (with_iter I (set_saved I d (saved_key_ I d) [] kForward (valid_ I d)) s') 0 _ Hst eq_refl Hs')
    as (d' & p' & E & Hp' & Hrel).
  - unfold first_pos. destruct (decide _); congruence.
  - intros j k Hj. lia.
  - exists d'. split; [exact E|]. rewrite (rank_next 0 0) in Hrel by (done || lia). unfold first_pos.
    change (rk 0) with 0%nat in Hrel. repeat destruct (decide _); try done; lia.
Qed.

Lemma dbiter_SeekToLast_ok d p : dbiter_rel d p ->
  exists d', dbiter_SeekToLast ucmp I sequence_ fuel d = Some d' /\ dbiter_rel d' (last_pos (length view)).
Proof.
  intros [Hst [q Hq]]%dbiter_rel_inside. unfold dbiter_SeekToLast.
  destruct (move_at (SeekToLast I) (set_saved I d (saved_key_ I d) [] kReverse (valid_ I d)) _ (io_last _ _ Hq))
    as (s' & -> & Hs' & _). cbn [mbind option_bind].
  rewrite length_user_view. change (last_pos (rk (length l))) with (prev_pos (rk (length l))).
  apply (FindPrevUserEntry_ok _ (last_pos (length l))); [done..|]. destruct (length l) as [|m]; simpl; intros; [lia|].
  split; [lia|]. intros j Hj. lia.
Qed.

Lemma dbiter_Seek_ok d p target : dbiter_rel d p -> udom target ->
  exists d', dbiter_Seek ucmp I sequence_ fuel target d = Some d' /\ dbiter_rel d' (seek_pos ucmp view target).
Proof.
  intros [Hst [q Hq]]%dbiter_rel_inside Ht. unfold dbiter_Seek.
  fold (InternalKey target sequence_ kValueTypeForSeek). set (ikey := InternalKey target sequence_ kValueTypeForSeek).
  cbn [saved_key_ set_saved].
  destruct (move_at (Seek I ikey) (set_saved I d ikey [] kForward (valid_ I d)) _ (io_seek _ _ ikey Hq (Hdom target Ht)))
    as (s' & -> & Hs' & _). cbn [mbind option_bind].
  assert (exists i, match seek_pos icmp l ikey with Some n => n = i | None => i = length l end /\ (i <= length l)%nat /\
    (forall j, (j < i)%nat -> vis j -> ult (ukey j) target) /\
    (forall k, (i <= k)%nat -> (k < length l)%nat -> ule target (ukey k))) as (i & Ei & Hi & Hlt & Hge).
  { destruct (seek_pos icmp l ikey) as [i|] eqn:E.
    - apply seek_pos_Some in E as (kv & Hkv & Hge & Hlt). pose proof (lookup_lt_Some _ _ _ Hkv) as Hi.
      rewrite ent_lookup in Hkv by done. injection Hkv as <-. exists i. split; [done|]. split; [lia|]. split.
      + intros j Hj Hv. apply seek_key_below; [lia| |done]. apply (Hlt j); [done|]. apply ent_lookup. lia.
      + intros k Hk Hlen. eapply ule_trans; [by apply (seek_key_above i)|by apply ukey_mono].
    - apply seek_pos_None in E. exists (length l). split; [done|]. split; [done|]. split; [|intros k Hk; lia].
      intros j Hj Hv. apply seek_key_below; [done| |done]. apply (Forall_lookup_1 _ _ _ _ E (ent_lookup j Hj)). }
  destruct (start_forward (with_iter I (set_saved I d ikey [] kForward (valid_ I d)) s') i _ Hst eq_refl Hs' Ei)
    as (d' & p' & E & Hp' & Hrel).
  - intros j k Hj Hk Hvj [Hvk _]. eapply ult_ule_trans; [by apply Hlt|by apply Hge].
  - exists d'. split; [exact E|]. by rewrite <- (seek_view i target p').
Qed.

Lemma DBIterator_ok : IterOk (DBIterator ucmp I sequence_ fuel) ucmp udom view dbiter_rel.
Proof.
  split; cbn [St Valid SeekToFirst SeekToLast Seek Next Prev Iterator.key Iterator.value status DBIterator].
  - intros d p [_ Hp]. destruct p; by destruct Hp.
  - intros d n (_ & _ & c & Hy & -> & Hd). rewrite view_at by done. destruct (direction_ I d).
    + by destruct (entry_at _ _ Hd) as (_ & -> & -> & _).
    + by destruct Hd as (-> & -> & _).
  - intros d p [Hst [q Hq]]%dbiter_rel_inside. rewrite Hst. simpl. by eapply io_status.
  - intros d n. apply dbiter_Next_ok.
  - intros d n. apply dbiter_Prev_ok.
  - intros d p. apply dbiter_SeekToFirst_ok.
  - intros d p. apply dbiter_SeekToLast_ok.
  - intros d p target. apply dbiter_Seek_ok.
Qed.
End DBIterOk.

(** ** The view, stated on the entries *)
Section ViewSpec.
Context (ucmp : Comparator) `{Hucmp : !ComparatorOk ucmp all_keys} (l : list entry).
Notation icmp := (InternalKeyComparator ucmp).
Context (Hsorted : sorted_keys icmp l) (sequence_ : Z).
Notation view := (user_view ucmp l sequence_).

(** [e] is the newest entry of its user key at the snapshot. *)
Definition newest_at (e : entry) : Prop :=
  e ∈ l /\ e_seq e <= sequence_ /\
  forall e', e' ∈ l -> e_user e' = e_user e -> e_seq e' <= sequence_ -> Compare icmp (fst e) (fst e') <= 0.

Lemma view_sorted : sorted_keys ucmp view.
Proof.
  intros n m a b Hnm Ha Hb.
  apply user_view_lookup in Ha as (i & e & Hi & He & -> & ->). apply user_view_lookup in Hb as (j & e' & Hj & He' & -> & ->).
  assert (i < j)%nat as Hij.
  { destruct (le_lt_dec j i) as [H|]; [|done]. apply (rank_le ucmp l sequence_) in H. lia. }
  pose proof (proj1 (yields_spec ucmp l Hsorted sequence_ j) Hj) as (_ & _ & Hf).
  pose proof (proj1 (yields_spec ucmp l Hsorted sequence_ i) Hi) as (Hv & _).
  specialize (Hf i Hij Hv). unfold ult, ukey in Hf.
  rewrite (ent_lookup l i (proj1 Hv)) in He. injection He as <-. pose proof (lookup_lt_Some _ _ _ He') as Hlt.
  rewrite (ent_lookup l j Hlt) in He'. by injection He' as <-.
Qed.

Lemma yields_newest i e : l !! i = Some e ->
  yields ucmp l sequence_ i = true <-> newest_at e /\ e_type e = kTypeValue.
Proof.
  intros He. pose proof (lookup_lt_Some _ _ _ He) as Hi. assert (e = ent l i) as Ee.
  { rewrite (ent_lookup l i Hi) in He. by injection He. }
  rewrite (yields_spec ucmp l Hsorted), <- Ee. unfold newest_at, vis, fresh. rewrite <- Ee. split.
  - intros ([_ Hs] & Ht & Hf). split; [|done]. split; [by eapply list_elem_of_lookup_2|]. split; [done|].
    intros e' [j Hj]%list_elem_of_lookup Hu Hs'. pose proof (lookup_lt_Some _ _ _ Hj) as Hlt.
    destruct (Nat.lt_trichotomy i j) as [H|[<-|H]].
    + specialize (Hsorted i j e e' H He Hj). lia.
    + rewrite He in Hj. injection Hj as <-.
      destruct (ikc_Compare_cases (ucmp := ucmp) (fst e) (fst e)) as [[H _]|[_ ->]]; [|lia].
      by rewrite (cmp_refl (dom := all_keys)) in H by done.
    + specialize (Hf j H). unfold ult, ukey, ent in Hf. rewrite (nth_lookup_Some _ _ _ _ Hj), (nth_lookup_Some _ _ _ _ He), Hu in Hf.
      rewrite (cmp_refl (dom := all_keys)) in Hf by done. unfold vis, ent in Hf.
      rewrite (nth_lookup_Some _ _ _ _ Hj) in Hf. specialize (Hf (conj Hlt Hs')). lia.
  - intros [(_ & Hs & Hn) Ht]. split; [done|]. split; [done|]. intros j Hj [Hlt Hv].
    pose proof (ent_lookup l j Hlt) as Hj'. unfold ukey. rewrite <- Ee.
    pose proof (ukey_mono ucmp l Hsorted j i ltac:(lia) Hi) as Hle. unfold ule, ult, ukey in *. rewrite <- Ee in Hle.
    destruct (Z.eq_dec (Compare ucmp (e_user (ent l j)) (e_user e)) 0) as [E|]; [|lia].
    apply (cmp_eq (dom := all_keys)) in E; [|done..].
    specialize (Hn _ (list_elem_of_lookup_2 _ _ _ Hj') E Hv). specialize (Hsorted j i _ _ Hj Hj' He).
    apply (ikc_anti (ucmp := ucmp)) in Hsorted. lia.
Qed.

Lemma view_elem u v :
  (u, v) ∈ view <-> exists e, newest_at e /\ e_type e = kTypeValue /\ e_user e = u /\ snd e = v.
Proof.
  rewrite list_elem_of_lookup. split.
  - intros [n (c & e & Hy & He & -> & [= -> ->])%user_view_lookup]. exists e.
    by apply (yields_newest c e He) in Hy as [? ?].
  - intros (e & Hn & Ht & <- & <-). pose proof Hn as [[c Hc]%list_elem_of_lookup _]. exists (rank ucmp l sequence_ c).
    apply user_view_rank; [|done]. by apply (yields_newest c e Hc).
Qed.
End ViewSpec.

(** C6. DBIter over any iterator that keeps the contract for a sorted list of
    internal keys is itself an Iterator over what the snapshot sees: one entry
    per user key, in the user order, with the value of the newest entry at or
    before the snapshot, and none where that is a deletion.  All seven
    operations end and land where the contract says, whichever direction the
    iterator moved before. *)
Theorem db_iterator_contract (ucmp : Comparator) (Hucmp : ComparatorOk ucmp all_keys)
    (I : IterOps) (l : list entry) (R : St I -> pos -> Prop)
    (HI : IterOk I (InternalKeyComparator ucmp) is_ikey l R)
    (Hsorted : sorted_keys (InternalKeyComparator ucmp) l) (Hvalid : Forall entry_valid l)
    (sequence_ : Z) (Hseq : 0 <= sequence_ <= kMaxSequenceNumber) (fuel : nat) (Hfuel : (length l < fuel)%nat)
    (s : St I) (p : pos) (Hs : R s p) :
  let view := user_view ucmp l sequence_ in
  (exists R', IterOk (DBIterator ucmp I sequence_ fuel) ucmp all_keys view R' /\ R' (new_DBIter I s) None) /\
  sorted_keys ucmp view /\
  forall u v, (u, v) ∈ view <->
    exists e, newest_at ucmp l sequence_ e /\ e_type e = kTypeValue /\ e_user e = u /\ snd e = v.
Proof.
  split; [|split].
  - exists (dbiter_rel ucmp I l R sequence_). split; [apply (DBIterator_ok ucmp I l R is_ikey all_keys); try done; intros u _; apply is_ikey_InternalKey|].
    split; [done|]. split; [done|]. by exists p.
  - by apply view_sorted.
  - intros u v. by apply view_elem.
Qed.

(** Values and a deletion of three user keys, as a block holds them. *)
Definition snapshot_entries : list entry :=
  [(InternalKey [Byte.x61] 7 kTypeValue, [Byte.x32]); (InternalKey [Byte.x61] 3 kTypeValue, [Byte.x31]);
   (InternalKey [Byte.x62] 6 kTypeDeletion, []); (InternalKey [Byte.x62] 2 kTypeValue, [Byte.x33]);
   (InternalKey [Byte.x63] 4 kTypeValue, [Byte.x34])].

Lemma db_iterator_contract_witness :
  exists it R',
    NewBlockIterator (new_Block (fst (bb_Finish (build_block 16 snapshot_entries)))) = inr it /\
    IterOk (DBIterator BytewiseComparator (BlockIter (InternalKeyComparator BytewiseComparator)) 6 6)
      BytewiseComparator all_keys [([Byte.x61], [Byte.x31]); ([Byte.x63], [Byte.x34])] R' /\
    R' (new_DBIter (BlockIter (InternalKeyComparator BytewiseComparator)) it) None.
Proof.
  assert (sorted_keys (InternalKeyComparator BytewiseComparator) snapshot_entries) as Hsorted.
  { intros [|[|[|[|[|i]]]]] [|[|[|[|[|j]]]]] a b Hij Ha Hb; simpl in Ha, Hb; simplify_eq; try lia; vm_compute; reflexivity. }
  destruct (built_block_ok (InternalKeyComparator BytewiseComparator) is_ikey
    InternalKeyComparator_ok 16 snapshot_entries) as (it & R & E & HI & Hr).
  { exact Hsorted. }
  { repeat constructor; vm_compute; discriminate. }
  { repeat constructor; vm_compute; reflexivity. }
  { vm_compute. reflexivity. }
  destruct (db_iterator_contract BytewiseComparator BytewiseComparator_ok _ snapshot_entries R HI Hsorted
    ltac:(repeat (constructor; [eexists _, _, _; split; [reflexivity|split; vm_compute; split; discriminate]|]); constructor)
    6 ltac:(vm_compute; split; discriminate) 6 ltac:(simpl; lia) it None Hr) as [(R' & HR' & Hn) _].
  exists it, R'. split; [exact E|]. split; [exact HR'|exact Hn].
Defined.
