(* ===== verification/Reads.v ===== *)
(** * Reading the database (db/db_impl.cc: NewInternalIterator, NewIterator, Get;
    db/version_set.cc: UpdateStats, ForEachOverlapping, RecordReadSample)

    A scan and a lookup read the same three sources: the memtable, the one
    being written out, and the current version.  A scan merges their iterators
    and puts the snapshot iterator on top; a lookup asks them one after the
    other and stops at the first that knows the key.  The main theorem says
    that they agree: both see, for each user key, the newest entry of all the
    sources at the snapshot. *)

From Stdlib Require Import ZArith Lia Bool Sorting.Sorted.
From Stdlib Require Import Strings.String.
From stdpp Require Import base list sets sorting relations.
From S2P Require Import Prelude Coding Comparator DbFormat Status Iterator Block BlockSpec Merger TwoLevel Bloom WriteBatch.
From S2P Require Import SkipList SkipListSpec MemTable MemIter VersionEdit Guards VersionBuilder VersionBuilderSpec.
From S2P Require Import VersionGet LevelIter Compaction DbIter.

Set Default Goal Selector "!".
Local Open Scope Z_scope.
#[local] Arguments Compare : simpl never.

(** ** Seek statistics (Version::UpdateStats)

    FileMetaData objects are shared: each copy of the file's record in the
    version is the same object. *)
Definition seek_charged (number : Z) (f : FileMetaData) : FileMetaData :=
  if fm_number f =? number then
    {| fm_refs := fm_refs f; fm_allowed_seeks := fm_allowed_seeks f - 1; fm_number := fm_number f;
       fm_file_size := fm_file_size f; fm_smallest := fm_smallest f; fm_largest := fm_largest f |}
  else f.

Definition guard_charged (number : Z) (g : GuardMetaData) : GuardMetaData :=
  {| gm_refs := gm_refs g; gm_level := gm_level g; gm_number_segments := gm_number_segments g; gm_guard_key := gm_guard_key g;
     gm_smallest := gm_smallest g; gm_largest := gm_largest g; gm_files := gm_files g;
     gm_file_metas := map (seek_charged number) (gm_file_metas g) |}.

Definition version_charged (number : Z) (v : Version) : Version :=
  {| v_files := map (map (seek_charged number)) (v_files v); v_guards := map (map (guard_charged number)) (v_guards v);
     v_complete_guards := map (map (guard_charged number)) (v_complete_guards v);
     v_sentinel_files := map (map (seek_charged number)) (v_sentinel_files v);
     v_num_complete_guards := v_num_complete_guards v |}.

Definition UpdateStats (stats : GetStats) (c : Current) : Current * bool :=
  match seek_file stats with
  | None => (c, false)
  | Some f =>
      let f' := seek_charged (fm_number f) f in
      let v := version_charged (fm_number f) (cur_version c) in
      match file_to_compact_ c with
      | None =>
          if fm_allowed_seeks f' <=? 0 then
            ({| cur_version := v; cur_scores := cur_scores c; file_to_compact_ := Some f';
                file_to_compact_level_ := seek_file_level stats |}, true)
          else ({| cur_version := v; cur_scores := cur_scores c; file_to_compact_ := None;
                   file_to_compact_level_ := file_to_compact_level_ c |}, false)
      | Some g =>
          ({| cur_version := v; cur_scores := cur_scores c; file_to_compact_ := Some (seek_charged (fm_number f) g);
              file_to_compact_level_ := file_to_compact_level_ c |}, false)
      end
  end.

(** ** Version::RecordReadSample *)
Section Sample.
Context (ucmp : Comparator).
Notation icmp := (InternalKeyComparator ucmp).

(** The callback of ForEachOverlapping: the new argument, and whether to go on. *)
Definition Visitor (S : Set) : Set := S -> Z -> FileMetaData -> S * bool.

Fixpoint visit_files {S} (func : Visitor S) (level : Z) (files : list FileMetaData) (arg : S) : S * bool :=
  match files with
  | [] => (arg, true)
  | f :: files => let (arg, more) := func arg level f in if more then visit_files func level files arg else (arg, false)
  end.

(** Level 0, from the newest file to the oldest. *)
Definition overlapping_0 (v : Version) (user_key : bytes) : list FileMetaData :=
  sort_newest (List.filter (fun f =>
    (0 <=? Compare ucmp user_key (ExtractUserKey (fm_smallest f))) &&
    (Compare ucmp user_key (ExtractUserKey (fm_largest f)) <=? 0)) (level_of (v_files v) 0)).

(** The file FindFile gives, if it does not lie past the user key. *)
Definition overlapping_at (v : Version) (user_key internal_key : bytes) (level : nat) : option (list FileMetaData) :=
  let files := level_of (v_files v) level in
  if len files =? 0 then Some []
  else
    index ← FindFile ucmp files internal_key;
    if index <? len files then
      f ← files !! Z.to_nat index;
      Some (if Compare ucmp user_key (ExtractUserKey (fm_smallest f)) <? 0 then [] else [f])
    else Some [].

Fixpoint visit_levels {S} (func : Visitor S) (v : Version) (user_key internal_key : bytes) (levels : list nat) (arg : S) : option S :=
  match levels with
  | [] => Some arg
  | level :: levels =>
      files ← overlapping_at v user_key internal_key level;
      let (arg, more) := visit_files func (Z.of_nat level) files arg in
      if more then visit_levels func v user_key internal_key levels arg else Some arg
  end.

Definition ForEachOverlapping {S} (func : Visitor S) (v : Version) (user_key internal_key : bytes) (arg : S) : option S :=
  let (arg, more) := visit_files func 0 (overlapping_0 v user_key) arg in
  if more then visit_levels func v user_key internal_key (seq 1 (Z.to_nat kNumLevels - 1)) arg else Some arg.

Record SampleState := { sample_stats : GetStats; matches : Z }.

Definition Match : Visitor SampleState := fun state level f =>
  let m := matches state + 1 in
  ({| sample_stats := if m =? 1 then {| seek_file := Some f; seek_file_level := level |} else sample_stats state; matches := m |}, m <? 2).

Definition RecordReadSample (internal_key : bytes) (c : Current) : option (Current * bool) :=
  let (parsed, ikey) := ParseInternalKey internal_key ParsedInternalKey_default in
  if negb parsed then Some (c, false)
  else
    state ← ForEachOverlapping Match (cur_version c) (user_key ikey) internal_key
      {| sample_stats := {| seek_file := None; seek_file_level := 0 |}; matches := 0 |};
    Some (if 2 <=? matches state then UpdateStats (sample_stats state) c else (c, false)).
End Sample.

(** ** The database as its readers see it *)
Record Database := {
  db_mem : MemTable;
  db_imm : option MemTable;
  db_current : Current;
  last_sequence : Z;      (** versions_->LastSequence() *)
  straight_reads_ : Z;
  seed_ : Z;
}.

Definition with_db_current (d : Database) (c : Current) : Database :=
  {| db_mem := db_mem d; db_imm := db_imm d; db_current := c; last_sequence := last_sequence d;
     straight_reads_ := straight_reads_ d; seed_ := seed_ d |}.

Section Reads.
Context `{!StdHeap} (ucmp : Comparator).
Notation icmp := (InternalKeyComparator ucmp).
(** TableCache::NewIterator and TableCache::Get *)
Context (T : IterOps) (table_NewIterator : Z -> Z -> St T) (table_cache_Get : TableReader).
Context (file_level_bloom_filter : Z -> option bytes) (filter_policy : FilterPolicy).
Context (fuel : nat).

(** *** NewInternalIterator: one child for the memtable, one for the memtable
    being written out, one for each level that has files. *)
Definition Child (d : Database) : IterOps :=
  SumIterator (MemTableIterator ucmp (db_mem d))
    (SumIterator (MemTableIterator ucmp (default new_MemTable (db_imm d))) (LevelIterator ucmp T table_NewIterator fuel)).

Definition mem_child (d : Database) : St (Child d) := inl (NewIterator ucmp (db_mem d)).
Definition imm_child (d : Database) : St (Child d) := inr (inl (NewIterator ucmp (default new_MemTable (db_imm d)))).
Definition level_child (d : Database) (s : St (LevelIterator ucmp T table_NewIterator fuel)) : St (Child d) := inr (inr s).

Definition read_children (number : Z) (d : Database) : list (St (Child d)) :=
  mem_child d :: match db_imm d with Some _ => [imm_child d] | None => [] end
  ++ map (level_child d) (AddSomeIteratorsGuards ucmp T (cur_version (db_current d)) number).

Definition Internal (d : Database) : IterOps := Merged icmp (Child d).

(** The iterator, *latest_snapshot and *seed. *)
Definition NewInternalIterator (number : Z) (d : Database) : St (Internal d) * Z * Z * Database :=
  let d' := {| db_mem := db_mem d; db_imm := db_imm d; db_current := db_current d; last_sequence := last_sequence d;
               straight_reads_ := u64 (straight_reads_ d + 1); seed_ := u32 (seed_ d + 1) |} in
  (NewMergingIterator icmp (Child d) (read_children number d), last_sequence d, seed_ d', d').

(** *** NewIterator: [snapshot] is options.snapshot->number_ *)
Definition read_sequence (snapshot : option Z) (d : Database) : Z :=
  match snapshot with Some number => number | None => last_sequence d end.

Definition Scan (snapshot : option Z) (d : Database) : IterOps := DBIterator ucmp (Internal d) (read_sequence snapshot d) fuel.

Definition DBImpl_NewIterator (d : Database) : DBIter (Internal d) * Database :=
  let '(iter, _, _, d') := NewInternalIterator 0 d in (new_DBIter (Internal d) iter, d').

(** *** Get: the status, *value, the database after, and whether
    bg_compaction_cv_ is signalled. *)
Record GetOutcome := { go_status : Status; go_value : bytes; go_db : Database; go_signal : bool }.

Definition found_in_table (r : GetResult) (value : bytes) : option (Status * bytes) :=
  match r with
  | GetFound v => Some (OK, v)
  | GetDeleted => Some (NotFound [], value)
  | GetAbsent => None
  end.

Definition DBImpl_Get (snapshot : option Z) (key value : bytes) (d : Database) : option GetOutcome :=
  let lkey := mkLookupKey key (read_sequence snapshot d) in
  in_mem ← MemTable.Get ucmp (db_mem d) lkey;
  match found_in_table in_mem value with
  | Some (s, v) => Some {| go_status := s; go_value := v; go_db := d; go_signal := false |}
  | None =>
      in_imm ← match db_imm d with Some imm => MemTable.Get ucmp imm lkey | None => Some GetAbsent end;
      match found_in_table in_imm value with
      | Some (s, v) => Some {| go_status := s; go_value := v; go_db := d; go_signal := false |}
      | None =>
          '(s, st) ← Version_Get ucmp table_cache_Get file_level_bloom_filter filter_policy (cur_version (db_current d)) lkey value;
          let (c, signal) := UpdateStats (g_stats st) (db_current d) in
          Some {| go_status := s; go_value := g_value st; go_db := with_db_current d c; go_signal := signal |}
      end
  end.

(** *** RecordReadSample *)
Definition DBImpl_RecordReadSample (key : bytes) (d : Database) : option (Database * bool) :=
  '(c, signal) ← RecordReadSample ucmp key (db_current d);
  Some ({| db_mem := db_mem d; db_imm := db_imm d; db_current := c; last_sequence := last_sequence d;
           straight_reads_ := u64 (straight_reads_ d + 1); seed_ := seed_ d |}, signal).
End Reads.

(** ** Internal keys short enough for a memtable *)
Lemma shorter_key (a tmp : bytes) : len tmp < len (ExtractUserKey a) -> mem_seekable a ->
  len (tmp ++ EncodeFixed64 (PackSequenceAndType kMaxSequenceNumber kValueTypeForSeek)) < 2 ^ 32.
Proof.
  intros Hlt [Ha Hl]. rewrite len_app, len_EncodeFixed64. unfold ExtractUserKey in Hlt. unfold is_ikey, len in *.
  rewrite length_take in Hlt. lia.
Qed.

#[export] Instance InternalKeyComparator_seekable (ucmp : Comparator) `{!ComparatorOk ucmp all_keys} :
  ComparatorOk (InternalKeyComparator ucmp) mem_seekable.
Proof.
  split.
  - intros a b [Ha _] [Hb _]. by apply ikc_eq.
  - intros a b _ _. apply ikc_anti.
  - intros a b d _ _ _. apply ikc_lt_trans.
  - intros a b Ha [Hb Hbl] Hlt. destruct (ikc_separator (ucmp := ucmp) a b (proj1 Ha) Hb Hlt) as (H1 & H2 & H3).
    split; [|done]. split; [done|]. cbn [InternalKeyComparator FindShortestSeparator]. unfold ikc_FindShortestSeparator. cbv zeta.
    case_match eqn:E; [|apply Ha]. apply andb_true_iff in E as [E%Z.ltb_lt _]. by apply (shorter_key a).
  - intros a _. apply ikc_separator_same.
  - intros a Ha. destruct (ikc_successor (ucmp := ucmp) a (proj1 Ha)) as (H1 & H2).
    split; [|done]. split; [done|]. cbn [InternalKeyComparator FindShortSuccessor]. unfold ikc_FindShortSuccessor. cbv zeta.
    case_match eqn:E; [|apply Ha]. apply andb_true_iff in E as [E%Z.ltb_lt _]. by apply (shorter_key a).
  - simpl. lia.
  - simpl. lia.
Qed.

Lemma seek_key_short u s t : len u + 8 < 2 ^ 32 -> mem_seekable (InternalKey u s t).
Proof.
  intros Hu. split; [apply is_ikey_InternalKey|]. unfold InternalKey, AppendInternalKey, PutFixed64. cbn [user_key app].
  rewrite len_app, len_EncodeFixed64. lia.
Qed.

(** ** The iterators of the sources *)
Lemma iterates_inl A B c dom l s p : iterates A c dom l s p -> iterates (SumIterator A B) c dom l (inl s) p.
Proof. intros (R & HR & Hs). exists (sum_rel (A := A) (B := B) R (fun _ _ => False)). split; [apply _|done]. Qed.

Lemma iterates_inr A B c dom l s p : iterates B c dom l s p -> iterates (SumIterator A B) c dom l (inr s) p.
Proof. intros (R & HR & Hs). exists (sum_rel (A := A) (B := B) (fun _ _ => False) R). split; [apply _|done]. Qed.

(** The merge of sorted lists that share no key. *)
Lemma merged_iterates `{Hheap : !StdHeap} `{!StdHeapOk} (c : Comparator) (dom : bytes -> Prop) `{!ComparatorOk c dom} (I : IterOps)
    (ls : list (list entry)) (m : list entry) (children : list (St I)) :
  Forall2 (fun l s => iterates I c dom l s None) ls children -> Forall (sorted_keys c) ls -> sorted_keys c m ->
  Forall (fun e => dom (fst e)) m -> m ≡ₚ concat ls ->
  iterates (Merged c I) c dom m (NewMergingIterator c I children) None.
Proof.
  intros Hch Hls Hm Hd Hp. eapply (NewMergingIterator_ok _ c dom _ I ls
    (fun i => match ls !! i with Some l => iterates I c dom l | None => fun _ _ => False end)); try done.
  - intros i l ->. apply iterates_ok.
  - apply Forall2_same_length_lookup_2; [rewrite length_seq; by eapply Forall2_length|].
    intros i x s [-> Hi]%lookup_seq Hs. cbn [Nat.add]. destruct (ls !! i) as [l|] eqn:El.
    + by apply (Forall2_lookup_lr _ _ _ _ _ _ Hch El Hs).
    + apply lookup_ge_None in El. lia.
Qed.

Lemma sorted_keys_NoDup (c : Comparator) (dom : bytes -> Prop) `{!ComparatorOk c dom} (l : list entry) :
  sorted_keys c l -> Forall (fun e => dom (fst e)) l -> NoDup (map fst l).
Proof.
  intros Hs Hd. apply NoDup_alt. intros i j k Hi Hj. rewrite list_lookup_fmap in Hi, Hj.
  apply fmap_Some in Hi as (a & Ha & ->), Hj as (b & Hb & E). rewrite Forall_lookup in Hd. pose proof (Hd i a Ha) as Hda.
  assert (Compare c (fst a) (fst a) = 0) as E0 by by apply (cmp_refl (dom := dom)).
  destruct (Nat.lt_trichotomy i j) as [H|[H|H]]; [|done|]; exfalso.
  - specialize (Hs i j a b H Ha Hb). rewrite <- E in Hs. lia.
  - specialize (Hs j i b a H Hb Ha). rewrite <- E in Hs. lia.
Qed.

Lemma NoDup_map_app (l k : list entry) : NoDup (map fst l) -> NoDup (map fst k) -> (forall a b, a ∈ l -> b ∈ k -> fst a <> fst b) -> NoDup (map fst (l ++ k)).
Proof.
  intros Hl Hk Hd. rewrite map_app. apply NoDup_app. split; [done|]. split; [|done].
  intros x (a & -> & Ha)%list_elem_of_fmap (b & E & Hb)%list_elem_of_fmap. by apply (Hd a b).
Qed.

(** ** What the database holds *)
Section Contents.
Context (ucmp : Comparator).
Notation icmp := (InternalKeyComparator ucmp).
Context (T : IterOps) (table_NewIterator : Z -> Z -> St T) (table_cache_Get : TableReader).
Context (file_level_bloom_filter : Z -> option bytes) (filter_policy : FilterPolicy).
(** The entries of the file with a given number. *)
Context (file_entries : Z -> list entry).
Definition contents_of (f : FileMetaData) : list entry := file_entries (fm_number f).

Definition version_of (d : Database) : Version := cur_version (db_current d).

(** The memtables hold the additions [madds] and [iadds], the files are where
    lookups and scans look for them, and for each user key a memtable is newer
    than the one being written out, and this one newer than the files. *)
Record database_ok (d : Database) (madds iadds : list Addition) : Prop := {
  do_mem : memtable_rep ucmp (db_mem d) madds;
  do_imm : match db_imm d with Some imm => memtable_rep ucmp imm iadds | None => iadds = [] end;
  do_readable : readable ucmp table_cache_Get file_level_bloom_filter filter_policy contents_of (version_of d);
  do_levels level : level_scannable ucmp mem_seekable T table_NewIterator file_entries
    (level_of (v_guards (version_of d)) level) (level_of (v_sentinel_files (version_of d)) level);
  do_recent_mem a b : a ∈ madds -> b ∈ iadds -> a_key a = a_key b -> Compare icmp (a_ikey a) (a_ikey b) < 0;
  do_recent_files a e : a ∈ madds ++ iadds -> version_entry contents_of (version_of d) e -> a_key a = ExtractUserKey (fst e) ->
    Compare icmp (a_ikey a) (fst e) < 0;
}.

Definition db_entry (d : Database) (madds iadds : list Addition) (e : entry) : Prop :=
  (exists a, a ∈ madds /\ e = a_pair a) \/ (exists a, a ∈ iadds /\ e = a_pair a) \/ version_entry contents_of (version_of d) e.

(** The entries of a level, as its iterator gives them, and fuel for all of them. *)
Definition level_list (v : Version) (level : nat) : list entry :=
  level_entries ucmp file_entries (level_of (v_guards v) level) (level_of (v_sentinel_files v) level).

Definition live_levels (v : Version) : list nat :=
  List.filter (fun level => negb (len (level_of (v_files v) level) =? 0)) (seq 0 (Z.to_nat kNumLevels)).

Definition read_fuel (d : Database) : nat :=
  (length (table_ (db_mem d)) + length (table_ (default new_MemTable (db_imm d)))
   + list_sum (map (fun level => length (level_list (version_of d) level) + length (level_of (v_guards (version_of d)) level) + 4)
       (live_levels (version_of d))))%nat.
End Contents.

Section ReadOk.
Context `{Hheap : !StdHeap} `{Hheapok : !StdHeapOk} (ucmp : Comparator) `{Hucmp : !ComparatorOk ucmp all_keys}.
Notation icmp := (InternalKeyComparator ucmp).
Context (T : IterOps) (table_NewIterator : Z -> Z -> St T) (table_cache_Get : TableReader).
Context (file_level_bloom_filter : Z -> option bytes) (filter_policy : FilterPolicy).
Context (file_entries : Z -> list entry) (d : Database) (madds iadds : list Addition).
Context (Hok : database_ok ucmp T table_NewIterator table_cache_Get file_level_bloom_filter filter_policy file_entries d madds iadds).
Notation v := (version_of d).
Notation contents := (contents_of file_entries).
Notation vguards level := (level_of (v_guards v) level).
Notation vsentinels level := (level_of (v_sentinel_files v) level).

(** *** The files of a level are the files of its parts *)
Lemma part_of_slot level u : (guard_slot ucmp (vguards level) u <= length (vguards level))%nat ->
  parts (vguards level) (vsentinels level) !! guard_slot ucmp (vguards level) u = Some (part_of ucmp v level u).
Proof.
  intros Hle. unfold part_of, parts. destruct (guard_slot ucmp (vguards level) u) as [|i]; [done|].
  cbn [lookup]. change (map guard_files (vguards level) !! i = Some match vguards level !! i with Some g => guard_files g | None => [] end).
  rewrite list_lookup_fmap. destruct (vguards level !! i) as [g|] eqn:E; [done|]. apply lookup_ge_None in E. lia.
Qed.

Lemma level_list_elem level e : e ∈ level_list ucmp file_entries v level <-> exists f, f ∈ level_of (v_files v) level /\ e ∈ contents f.
Proof.
  pose proof (do_levels _ _ _ _ _ _ _ _ _ _ Hok level) as HL. pose proof (do_readable _ _ _ _ _ _ _ _ _ _ Hok) as Hv.
  unfold level_list. rewrite level_elem by done. split.
  - intros (fs & f & Hfs & Hf & He). exists f. split; [|done]. apply list_elem_of_lookup in Hfs as [i Hi].
    assert (guard_slot ucmp (vguards level) (ExtractUserKey (fst e)) = i) as Es.
    { apply (ls_slot _ _ _ _ _ _ _ HL i fs e Hi). unfold part_entries. apply list_elem_of_In, in_concat.
      exists (file_entries (fm_number f)). split; [|by apply list_elem_of_In]. apply in_map_iff. exists f. split; [done|]. by apply list_elem_of_In. }
    apply (rd_parts _ _ _ _ _ _ Hv level (ExtractUserKey (fst e))).
    pose proof (lookup_lt_Some _ _ _ Hi) as Hlt. rewrite length_parts in Hlt.
    pose proof (part_of_slot level (ExtractUserKey (fst e)) ltac:(lia)) as Hp. rewrite Es, Hi in Hp. by injection Hp as <-.
  - intros (f & Hf & He). destruct (rd_files _ _ _ _ _ _ Hv level f Hf) as (Hc & _). pose proof (co_range _ _ _ Hc) as Hr.
    rewrite Forall_forall in Hr. destruct (Hr e He) as [H1 H2]. pose proof (rd_serves _ _ _ _ _ _ Hv level _ f Hf H1 H2) as Hin.
    exists (part_of ucmp v level (ExtractUserKey (fst e))), f. split; [|done].
    destruct (decide (guard_slot ucmp (vguards level) (ExtractUserKey (fst e)) <= length (vguards level))%nat) as [Hle|Hgt].
    + eapply list_elem_of_lookup_2. by apply part_of_slot.
    + exfalso. unfold part_of in Hin. destruct (guard_slot _ _ _) as [|i]; [lia|]. rewrite lookup_ge_None_2 in Hin by lia. by apply elem_of_nil in Hin.
Qed.

(** *** The entries of each source *)
Lemma memtable_list m adds : memtable_rep ucmp m adds -> exists l,
  iterates (MemTableIterator ucmp m) icmp mem_seekable l (NewIterator ucmp m) None /\ sorted_keys icmp l /\
  (forall e, e ∈ l <-> exists a, a ∈ adds /\ e = a_pair a) /\ (length l < length (table_ m))%nat /\
  Forall (fun e => mem_seekable (fst e)) l.
Proof.
  intros Hm. destruct (memtable_iterates ucmp m adds Hm) as (l & R & HR & Hn & Hs & He & Hlen).
  exists l. split; [by exists R|]. split; [done|]. split; [done|]. split; [done|].
  destruct Hm as (_ & _ & Ha & _). rewrite Forall_forall in Ha. apply Forall_forall. intros e (a & Hin & ->)%He.
  destruct (Ha a Hin) as (_ & Hk & _). by apply seek_key_short.
Qed.

Lemma version_entry_of level f e : In level (live_levels v) -> f ∈ level_of (v_files v) level -> e ∈ contents f -> version_entry contents v e.
Proof.
  intros [Hl%in_seq _]%filter_In Hf He. exists level, f. split; [|done]. unfold kNumLevels in *. lia.
Qed.

Lemma version_entry_list e : version_entry contents v e <-> exists level, In level (live_levels v) /\ e ∈ level_list ucmp file_entries v level.
Proof.
  split.
  - intros (level & f & Hlt & Hf & He). exists level. split; [|apply level_list_elem; by exists f].
    apply filter_In. split; [apply in_seq; unfold kNumLevels in *; lia|]. destruct (level_of (v_files v) level); [by apply elem_of_nil in Hf|].
    unfold len. cbn [length]. apply negb_true_iff, Z.eqb_neq. lia.
  - intros (level & Hl & (f & Hf & He)%level_list_elem). by eapply version_entry_of.
Qed.

Lemma level_list_dom level : Forall (fun e => mem_seekable (fst e)) (level_list ucmp file_entries v level).
Proof. eapply level_dom, (do_levels _ _ _ _ _ _ _ _ _ _ Hok). Qed.

Lemma level_list_sorted level : sorted_keys icmp (level_list ucmp file_entries v level).
Proof. eapply (level_sorted ucmp mem_seekable); [by intros k [? _]|apply (do_levels _ _ _ _ _ _ _ _ _ _ Hok)]. Qed.

Lemma ikey_irrefl k : ~ Compare icmp k k < 0.
Proof. intros H. pose proof (proj1 (ikc_anti (ucmp := ucmp) k k) H). lia. Qed.

(** Two levels share no key: the entries of the lower one are newer. *)
Lemma levels_disjoint l1 l2 a b : l1 <> l2 -> a ∈ level_list ucmp file_entries v l1 -> b ∈ level_list ucmp file_entries v l2 -> fst a <> fst b.
Proof.
  intros Hne (f & Hf & Ha)%level_list_elem (g & Hg & Hb)%level_list_elem E. pose proof (do_readable _ _ _ _ _ _ _ _ _ _ Hok) as Hv.
  destruct (Nat.lt_gt_cases l1 l2) as [[H|H] _]; [done|..].
  - pose proof (rd_recent _ _ _ _ _ _ Hv l1 l2 f g a b Hf Hg (or_introl H) Ha Hb ltac:(by rewrite E)) as Hc. rewrite E in Hc. by apply ikey_irrefl in Hc.
  - pose proof (rd_recent _ _ _ _ _ _ Hv l2 l1 g f b a Hg Hf (or_introl H) Hb Ha ltac:(by rewrite E)) as Hc. rewrite E in Hc. by apply ikey_irrefl in Hc.
Qed.

Lemma levels_NoDup levels : NoDup levels -> NoDup (map fst (concat (map (level_list ucmp file_entries v) levels))).
Proof.
  induction 1 as [|level levels Hni _ IH]; [constructor|]. cbn [map concat]. apply NoDup_map_app; [|done|].
  - apply (sorted_keys_NoDup icmp mem_seekable); [apply level_list_sorted|apply level_list_dom].
  - intros a b Ha Hb. apply list_elem_of_In, in_concat in Hb as (es & Hes & Hb). apply in_map_iff in Hes as (level' & <- & Hl').
    apply (levels_disjoint level level'); [|done|by apply list_elem_of_In]. intros ->. by apply Hni, list_elem_of_In.
Qed.

(** *** All the sources *)
Definition imm_lists (li : list entry) : list (list entry) := match db_imm d with Some _ => [li] | None => [] end.
Definition sources (lm li : list entry) : list (list entry) :=
  lm :: imm_lists li ++ map (level_list ucmp file_entries v) (live_levels v).

Lemma live_levels_NoDup : NoDup (live_levels v).
Proof. apply NoDup_ListNoDup, List.NoDup_filter, seq_NoDup. Qed.

Lemma imm_list : exists li,
  Forall2 (fun l s => iterates (MemTableIterator ucmp (default new_MemTable (db_imm d))) icmp mem_seekable l s None)
    (imm_lists li) (match db_imm d with Some _ => [NewIterator ucmp (default new_MemTable (db_imm d))] | None => [] end) /\
  sorted_keys icmp li /\ (forall e, e ∈ li <-> exists a, a ∈ iadds /\ e = a_pair a) /\
  (length li <= length (table_ (default new_MemTable (db_imm d))))%nat /\ Forall (fun e => mem_seekable (fst e)) li /\
  concat (imm_lists li) = li.
Proof.
  pose proof (do_imm _ _ _ _ _ _ _ _ _ _ Hok) as Hi. unfold imm_lists. destruct (db_imm d) as [imm|]; cbn [default from_option id].
  - destruct (memtable_list imm iadds Hi) as (li & H1 & H2 & H3 & H4 & H5). exists li.
    split; [by repeat constructor|]. split; [done|]. split; [done|]. split; [lia|]. split; [done|]. cbn [concat]. apply app_nil_r.
  - rewrite Hi. exists []. split; [constructor|]. split; [by intros i j a b _ Ha|]. split.
    { intros e. split; [by intros ?%elem_of_nil|]. by intros (a & ?%elem_of_nil & _). }
    split; [apply Nat.le_0_l|]. split; [constructor|done].
Qed.

Lemma sources_NoDup lm li : sorted_keys icmp lm -> sorted_keys icmp li ->
  Forall (fun e => mem_seekable (fst e)) lm -> Forall (fun e => mem_seekable (fst e)) li ->
  (forall e, e ∈ lm <-> exists a, a ∈ madds /\ e = a_pair a) -> (forall e, e ∈ li <-> exists a, a ∈ iadds /\ e = a_pair a) ->
  NoDup (map fst (lm ++ li ++ concat (map (level_list ucmp file_entries v) (live_levels v)))).
Proof.
  intros Hsm Hsi Hdm Hdi Hm Hi.
  assert (forall a e, a ∈ madds ++ iadds -> e ∈ concat (map (level_list ucmp file_entries v) (live_levels v)) -> a_ikey a <> fst e) as Hfiles.
  { intros a e Ha He E. apply list_elem_of_In, in_concat in He as (es & Hes & He). apply in_map_iff in Hes as (level & <- & Hl). apply list_elem_of_In in He.
    assert (Compare icmp (a_ikey a) (fst e) < 0) as H.
    { apply (do_recent_files _ _ _ _ _ _ _ _ _ _ Hok); [done|apply version_entry_list; by exists level|].
      rewrite <- E. unfold a_ikey. by rewrite ExtractUserKey_InternalKey. }
    rewrite E in H. by apply ikey_irrefl in H. }
  apply NoDup_map_app; [by apply (sorted_keys_NoDup icmp mem_seekable)| |].
  - apply NoDup_map_app; [by apply (sorted_keys_NoDup icmp mem_seekable)|apply levels_NoDup, live_levels_NoDup|].
    intros x e (a & Ha & ->)%Hi He. apply Hfiles; [apply elem_of_app; by right|done].
  - intros x e (a & Ha & ->)%Hm [He|He]%elem_of_app; [|apply Hfiles; [apply elem_of_app; by left|done]].
    apply Hi in He as (b & Hb & ->). intros E. cbn [a_pair fst] in E.
    pose proof (do_recent_mem _ _ _ _ _ _ _ _ _ _ Hok a b Ha Hb) as H. rewrite E in H. apply ikey_irrefl with (k := a_ikey b), H.
    apply (f_equal ExtractUserKey) in E. unfold a_ikey in E. by rewrite !ExtractUserKey_InternalKey in E.
Qed.

Lemma list_sum_in (f : nat -> nat) x l : In x l -> (f x <= list_sum (map f l))%nat.
Proof. induction l as [|y l IH]; [done|]. intros [->|H]; cbn; [lia|]. specialize (IH H). unfold list_sum in IH. lia. Qed.

Lemma length_concat_map {A B} (f : A -> list B) (g : A -> nat) l : (forall x, length (f x) <= g x)%nat -> (length (concat (map f l)) <= list_sum (map g l))%nat.
Proof. intros H. induction l as [|x l IH]; cbn; [lia|]. rewrite length_app. specialize (H x). unfold list_sum in IH. lia. Qed.

Lemma level_children fuel : (read_fuel ucmp file_entries d < fuel)%nat ->
  Forall2 (fun l s => iterates (Child ucmp T table_NewIterator fuel d) icmp mem_seekable l s None)
    (map (level_list ucmp file_entries v) (live_levels v))
    (map (level_child ucmp T table_NewIterator fuel d) (AddSomeIteratorsGuards ucmp T v 0)).
Proof.
  intros Hf. unfold AddSomeIteratorsGuards. rewrite map_map. fold (live_levels v). apply Forall2_fmap, Forall_Forall2_diag, Forall_forall.
  intros level Hl. apply iterates_inr, iterates_inr. unfold level_list, NewConcatenatingIterator.
  apply (LevelIterator_ok ucmp mem_seekable ltac:(by intros k [? _]) T table_NewIterator file_entries _ _ (do_levels _ _ _ _ _ _ _ _ _ _ Hok level)); [done|].
  apply list_elem_of_In in Hl. apply (list_sum_in (fun level => length (level_list ucmp file_entries v level) + length (vguards level) + 4)%nat) in Hl.
  unfold read_fuel in Hf. cbv beta in Hl. lia.
Qed.

(** NewInternalIterator walks all the entries of the database. *)
Lemma internal_iterates fuel : (read_fuel ucmp file_entries d < fuel)%nat -> exists l,
  sorted_keys icmp l /\ (forall e, e ∈ l <-> db_entry file_entries d madds iadds e) /\ (length l < fuel)%nat /\
  iterates (Internal ucmp T table_NewIterator fuel d) icmp mem_seekable l
    (NewMergingIterator icmp (Child ucmp T table_NewIterator fuel d) (read_children ucmp T table_NewIterator fuel 0 d)) None.
Proof.
  intros Hf. destruct (memtable_list _ _ (do_mem _ _ _ _ _ _ _ _ _ _ Hok)) as (lm & Hm1 & Hm2 & Hm3 & Hm4 & Hm5).
  destruct imm_list as (li & Hi1 & Hi2 & Hi3 & Hi4 & Hi5 & Hi6).
  assert (concat (sources lm li) = lm ++ li ++ concat (map (level_list ucmp file_entries v) (live_levels v))) as Ec.
  { unfold sources. cbn [concat]. by rewrite concat_app, Hi6. }
  assert (Forall (fun e => mem_seekable (fst e)) (concat (sources lm li))) as Hd.
  { rewrite Ec. apply Forall_app. split; [done|]. apply Forall_app. split; [done|]. apply Forall_concat, Forall_map, Forall_true. apply level_list_dom. }
  assert (sorted_keys icmp (sort_entries ucmp (concat (sources lm li)))) as Hs.
  { apply (sort_entries_sorted ucmp (Hucmp := Hucmp)); [by eapply Forall_impl; [exact Hd|]; intros e [? _]|]. rewrite Ec. by apply sources_NoDup. }
  exists (sort_entries ucmp (concat (sources lm li))). split; [done|]. split; [|split].
  - intros e. rewrite sort_entries_perm, Ec, !elem_of_app, Hm3, Hi3. unfold db_entry. rewrite version_entry_list.
    rewrite (list_elem_of_In (concat _)), in_concat. setoid_rewrite in_map_iff.
    split; (intros [H|[H|H]]; [by left|by right; left|right; right]).
    + destruct H as (es & (level & <- & Hl) & He). exists level. split; [done|]. by apply list_elem_of_In.
    + destruct H as (level & Hl & He). exists (level_list ucmp file_entries v level). split; [by exists level|]. by apply list_elem_of_In.
  - rewrite (Permutation_length (sort_entries_perm ucmp _)), Ec, !length_app.
    pose proof (length_concat_map (level_list ucmp file_entries v) (fun level => length (level_list ucmp file_entries v level) + length (vguards level) + 4)%nat
      (live_levels v) ltac:(intros; cbv beta; lia)) as H. unfold read_fuel in Hf. lia.
  - apply (merged_iterates icmp mem_seekable _ (sources lm li)); [| |done|by rewrite sort_entries_perm|apply sort_entries_perm].
    + unfold sources, read_children. constructor; [by apply iterates_inl|]. apply Forall2_app; [|by apply level_children].
      unfold imm_lists in *. destruct (db_imm d) as [imm|] eqn:Ei; [|constructor]. constructor; [|constructor].
      apply iterates_inr, iterates_inl. rewrite Ei. by inversion_clear Hi1.
    + unfold sources, imm_lists. constructor; [done|]. apply Forall_app. split; [by destruct (db_imm d); repeat constructor|].
      apply Forall_map, Forall_true. apply level_list_sorted.
Qed.

(** *** Lookups *)
Context (s : Z) (Hs : 0 <= s <= kMaxSequenceNumber).

Definition db_newest (u : bytes) (e : entry) : Prop :=
  db_entry file_entries d madds iadds e /\ seen ucmp u s e /\
  forall e', db_entry file_entries d madds iadds e' -> seen ucmp u s e' -> Compare icmp (fst e) (fst e') <= 0.

Lemma seen_seq e u : entry_valid e -> seen ucmp u s e <-> e_user e = u /\ e_seq e <= s.
Proof.
  intros (u' & s' & t & E & Ht). unfold seen, e_user, e_seq. rewrite E, ExtractUserKey_InternalKey.
  assert (tag_ok s kValueTypeForSeek) as Hts by (split; [done|split; [discriminate|lia]]). pose proof Ht as [Hs' Ht'].
  unfold kValueTypeForSeek, kTypeValue in *.
  assert (Z.shiftr (ExtractTag (InternalKey u' s' t)) 8 = s') as ->.
  { rewrite ExtractTag_InternalKey by lia. rewrite Z.shiftr_div_pow2 by lia. change (2 ^ 8) with 256.
    rewrite Z.mul_comm, Z.div_add_l by lia. rewrite Z.div_small by lia. lia. }
  split; intros [<- H]; (split; [done|]); revert H; rewrite ikc_Compare_InternalKey by done; lia.
Qed.

Lemma addition_entry_valid adds m a : memtable_rep ucmp m adds -> a ∈ adds -> entry_valid (a_pair a).
Proof. intros (_ & _ & Ha & _) Hin. rewrite Forall_forall in Ha. destruct (Ha a Hin) as [Ht _]. by exists (a_key a), (a_seq a), (a_type a). Qed.

Lemma seen_visible adds m a u : memtable_rep ucmp m adds -> a ∈ adds -> seen ucmp u s (a_pair a) <-> visible u s a.
Proof.
  intros Hm Ha. pose proof Hm as (_ & _ & Hok' & _). rewrite Forall_forall in Hok'. destruct (Hok' a Ha) as [Ht _].
  assert (tag_ok s kValueTypeForSeek) as Hts by (split; [done|split; [discriminate|lia]]). pose proof Ht as [Hs' Ht'].
  unfold seen, visible, a_pair, a_ikey, kValueTypeForSeek, kTypeValue in *. cbn [fst]. rewrite ExtractUserKey_InternalKey.
  split; intros [<- H]; (split; [done|]); revert H; rewrite ikc_Compare_InternalKey by done; lia.
Qed.

Lemma db_entry_valid e : db_entry file_entries d madds iadds e -> entry_valid e.
Proof.
  intros [(a & Ha & ->)|[(a & Ha & ->)|(level & f & _ & Hf & He)]].
  - by eapply addition_entry_valid; [apply (do_mem _ _ _ _ _ _ _ _ _ _ Hok)|].
  - pose proof (do_imm _ _ _ _ _ _ _ _ _ _ Hok) as Hi. destruct (db_imm d); [by eapply addition_entry_valid|]. subst. by apply elem_of_nil in Ha.
  - destruct (rd_files _ _ _ _ _ _ (do_readable _ _ _ _ _ _ _ _ _ _ Hok) level f Hf) as (Hc & _). pose proof (co_entries _ _ _ Hc) as H.
    rewrite Forall_forall in H. by apply H.
Qed.

(** What a memtable answers, as what the sources below it leave to be found. *)
Lemma table_found m adds u value : memtable_rep ucmp m adds -> len u + 8 < 2 ^ 32 ->
  exists r, MemTable.Get ucmp m (mkLookupKey u s) = Some r /\
  ((exists a status value', a ∈ adds /\ seen ucmp u s (a_pair a) /\ found_in_table r value = Some (status, value') /\ reports (a_pair a) value status value' /\
      forall b, b ∈ adds -> seen ucmp u s (a_pair b) -> Compare icmp (a_ikey a) (a_ikey b) <= 0) \/
   (found_in_table r value = None /\ forall a, a ∈ adds -> ~ seen ucmp u s (a_pair a))).
Proof.
  intros Hm Hu. destruct (Get_rep ucmp m adds u s Hm Hs Hu) as [(a & (Ha & Hv & Hmax) & ->)|[Hnone ->]].
  - eexists. split; [done|]. left. pose proof Hm as (_ & _ & Hok' & _). rewrite Forall_forall in Hok'. destruct (Hok' a Ha) as [Ht _].
    assert (forall b, b ∈ adds -> seen ucmp u s (a_pair b) -> Compare icmp (a_ikey a) (a_ikey b) <= 0) as Hmin.
    { intros b Hb Hsb. destruct (Hok' b Hb) as [Htb _]. apply (seen_visible adds m b u Hm Hb) in Hsb. specialize (Hmax b Hb Hsb).
      destruct Hv as [Hka _], Hsb as [Hkb _]. unfold a_ikey, a_tag in *. rewrite Hka, Hkb, ikc_Compare_InternalKey by done. lia. }
    assert (ExtractValueType (fst (a_pair a)) = a_type a) as Ety 
      by (apply ExtractValueType_InternalKey; destruct Ht as [? Ht]; unfold kValueTypeForSeek, kTypeValue in *; lia).
    unfold result_of. exists a. destruct (Z.eqb_spec (a_type a) kTypeValue) as [E|E]; eexists _, _; cbn [found_in_table];
      (split; [done|]; split; [by apply (seen_visible adds m a u Hm Ha)|]; split; [done|]; split; [|done]);
      unfold reports; rewrite Ety; [by rewrite (proj2 (Z.eqb_eq _ _) E)|by rewrite (proj2 (Z.eqb_neq _ _) E)].
  - eexists. split; [done|]. right. split; [done|]. rewrite Forall_forall in Hnone. intros a Ha Hsa. apply (Hnone a Ha). by apply (seen_visible adds m a u Hm Ha).
Qed.

Lemma imm_found u value : len u + 8 < 2 ^ 32 ->
  exists r, match db_imm d with Some imm => MemTable.Get ucmp imm (mkLookupKey u s) | None => Some GetAbsent end = Some r /\
  ((exists a status value', a ∈ iadds /\ seen ucmp u s (a_pair a) /\ found_in_table r value = Some (status, value') /\ reports (a_pair a) value status value' /\
      forall b, b ∈ iadds -> seen ucmp u s (a_pair b) -> Compare icmp (a_ikey a) (a_ikey b) <= 0) \/
   (found_in_table r value = None /\ forall a, a ∈ iadds -> ~ seen ucmp u s (a_pair a))).
Proof.
  intros Hu. pose proof (do_imm _ _ _ _ _ _ _ _ _ _ Hok) as Hi. destruct (db_imm d) as [imm|]; [by apply table_found|].
  exists GetAbsent. split; [done|]. right. split; [done|]. rewrite Hi. by intros a ?%elem_of_nil.
Qed.

Lemma lookup_ok snapshot u value : read_sequence snapshot d = s -> len u + 8 < 2 ^ 32 -> exists o,
  DBImpl_Get ucmp table_cache_Get file_level_bloom_filter filter_policy snapshot u value d = Some o /\
  ((exists e, db_newest u e /\ reports e value (go_status o) (go_value o)) \/
   ((forall e, db_entry file_entries d madds iadds e -> ~ seen ucmp u s e) /\ go_status o = NotFound [] /\ go_value o = value)).
Proof.
  intros Eseq Hu. unfold DBImpl_Get. rewrite Eseq.
  assert (forall a u, seen ucmp u s (a_pair a) -> a_key a = u) as Huser by (intros a u' [H _]; unfold a_pair, a_ikey in H; cbn [fst] in H; by rewrite ExtractUserKey_InternalKey in H).
  destruct (table_found (db_mem d) madds u value (do_mem _ _ _ _ _ _ _ _ _ _ Hok) Hu) as (r & -> & Hr). cbn [mbind option_bind].
  destruct Hr as [(a & status & value' & Ha & Hsa & -> & Hrep & Hmin)|(-> & Hnm)].
  { eexists. split; [done|]. left. exists (a_pair a). split; [|done]. split; [left; by exists a|]. split; [done|].
    intros e' [(b & Hb & ->)|[(b & Hb & ->)|He']] Hse'; [by apply Hmin|..]; apply Z.lt_le_incl.
    - apply (do_recent_mem _ _ _ _ _ _ _ _ _ _ Hok); [done..|]. by rewrite (Huser a u Hsa), (Huser b u Hse').
    - apply (do_recent_files _ _ _ _ _ _ _ _ _ _ Hok); [apply elem_of_app; by left|done|]. destruct Hse' as [-> _]. by apply Huser. }
  destruct (imm_found u value Hu) as (ri & -> & Hri). cbn [mbind option_bind].
  destruct Hri as [(a & status & value' & Ha & Hsa & -> & Hrep & Hmin)|(-> & Hni)].
  { eexists. split; [done|]. left. exists (a_pair a). split; [|done]. split; [right; left; by exists a|]. split; [done|].
    intros e' [(b & Hb & ->)|[(b & Hb & ->)|He']] Hse'; [by destruct (Hnm b Hb Hse')|by apply Hmin|]. apply Z.lt_le_incl.
    apply (do_recent_files _ _ _ _ _ _ _ _ _ _ Hok); [apply elem_of_app; by right|done|]. destruct Hse' as [-> _]. by apply Huser. }
  change (cur_version (db_current d)) with v. destruct (Version_Get_ok ucmp table_cache_Get file_level_bloom_filter filter_policy contents v u s value Hucmp Hs (do_readable _ _ _ _ _ _ _ _ _ _ Hok))
    as (status & st & -> & Hst). cbn [mbind option_bind]. destruct (UpdateStats (g_stats st) (db_current d)) as [c signal].
  eexists. split; [done|]. cbn [go_status go_value].
  destruct Hst as [(e & (He & Hse & Hmin) & Hrep)|(Hnone & -> & ->)].
  - left. exists e. split; [|done]. split; [by right; right|]. split; [done|].
    intros e' [(b & Hb & ->)|[(b & Hb & ->)|He']] Hse'; [by destruct (Hnm b Hb Hse')|by destruct (Hni b Hb Hse')|by apply Hmin].
  - right. split; [|done]. intros e' [(b & Hb & ->)|[(b & Hb & ->)|He']]; [by apply Hnm|by apply Hni|by apply Hnone].
Qed.

(** *** Scans: the view of the database at the snapshot *)
Lemma scan_ok fuel snapshot : read_sequence snapshot d = s -> (read_fuel ucmp file_entries d < fuel)%nat -> exists l,
  sorted_keys icmp l /\ (forall e, e ∈ l <-> db_entry file_entries d madds iadds e) /\
  iterates (Scan ucmp T table_NewIterator fuel snapshot d) ucmp (fun u => len u + 8 < 2 ^ 32) (user_view ucmp l s)
    (fst (DBImpl_NewIterator ucmp T table_NewIterator fuel d)) None.
Proof.
  intros Eseq Hf. destruct (internal_iterates fuel Hf) as (l & Hsorted & Hl & Hlen & R & HR & Hn). exists l. split; [done|]. split; [done|].
  unfold Scan. rewrite Eseq. exists (dbiter_rel ucmp (Internal ucmp T table_NewIterator fuel d) l R s). split.
  - apply (DBIterator_ok ucmp _ l R mem_seekable); try done.
    + apply Forall_forall. intros e He. by apply db_entry_valid, Hl.
    + intros u Hu. by apply seek_key_short.
  - split; [done|]. split; [done|]. by exists None.
Qed.

(** A lookup finds what the view has. *)
Lemma lookup_view l u e : sorted_keys icmp l -> (forall e, e ∈ l <-> db_entry file_entries d madds iadds e) ->
  db_newest u e <-> newest_at ucmp l s e /\ e_user e = u.
Proof.
  intros Hsorted Hl. unfold db_newest, newest_at. split.
  - intros (He & Hse & Hmin). pose proof (proj1 (seen_seq e u (db_entry_valid e He)) Hse) as [Eu Es].
    split; [|done]. split; [by apply Hl|]. split; [done|]. intros e' He' Eu' Es'. apply Hl in He'. apply Hmin; [done|].
    apply seen_seq; [by apply db_entry_valid|]. by rewrite Eu', Eu.
  - intros [(He & Es & Hmin) Eu]. apply Hl in He. split; [done|]. split; [by apply seen_seq; [apply db_entry_valid|]|].
    intros e' He' Hse'. apply seen_seq in Hse' as [Eu' Es']; [|by apply db_entry_valid]. apply Hmin; [by apply Hl|by rewrite Eu', Eu|done].
Qed.
End ReadOk.

(** The newest entry of a user key is unique. *)
Lemma newest_unique (ucmp : Comparator) `{Hucmp : !ComparatorOk ucmp all_keys} l : sorted_keys (InternalKeyComparator ucmp) l -> forall s e e',
  newest_at ucmp l s e -> newest_at ucmp l s e' -> e_user e' = e_user e -> e' = e.
Proof.
  intros Hs s e e' (He & Es & Hmin) (He' & Es' & Hmin') Eu. specialize (Hmin e' He' Eu Es'). specialize (Hmin' e He (eq_sym Eu) Es).
  apply list_elem_of_lookup in He as [i Hi], He' as [j Hj]. destruct (Nat.lt_trichotomy i j) as [H|[->|H]].
  - specialize (Hs i j e e' H Hi Hj). apply (ikc_anti (ucmp := ucmp)) in Hs. lia.
  - rewrite Hi in Hj. by injection Hj.
  - specialize (Hs j i e' e H Hj Hi). apply (ikc_anti (ucmp := ucmp)) in Hs. lia.
Qed.

(** ** The claim *)

(** C1. Scans and lookups agree.  In a database whose memtables hold given
    additions and whose files are placed where reads look for them, newer
    entries in the memtable, then in the one being written out, then in the
    files, there is one sorted list of all the entries such that: the iterator
    that DBImpl::NewIterator returns moves and seeks in both directions over
    the view of that list at the snapshot (for each user key the newest value,
    nothing for a deletion), in ascending key order; and DBImpl::Get always
    returns, with OK and the value of the view for the keys of the view, and
    with NotFound and an untouched result for all others. *)
Theorem reads_agree `{Hheap : !StdHeap} (Hheapok : StdHeapOk) (ucmp : Comparator) (Hucmp : ComparatorOk ucmp all_keys)
    (T : IterOps) (table_NewIterator : Z -> Z -> St T) (table_cache_Get : TableReader)
    (file_level_bloom_filter : Z -> option bytes) (filter_policy : FilterPolicy) (file_entries : Z -> list entry)
    (d : Database) (madds iadds : list Addition)
    (Hok : database_ok ucmp T table_NewIterator table_cache_Get file_level_bloom_filter filter_policy file_entries d madds iadds)
    (snapshot : option Z) (Hseq : 0 <= read_sequence snapshot d <= kMaxSequenceNumber)
    (fuel : nat) (Hfuel : (read_fuel ucmp file_entries d < fuel)%nat) :
  exists l, sorted_keys (InternalKeyComparator ucmp) l /\ (forall e, e ∈ l <-> db_entry file_entries d madds iadds e) /\
    let view := user_view ucmp l (read_sequence snapshot d) in
    sorted_keys ucmp view /\
    iterates (Scan ucmp T table_NewIterator fuel snapshot d) ucmp (fun u => len u + 8 < 2 ^ 32) view
      (fst (DBImpl_NewIterator ucmp T table_NewIterator fuel d)) None /\
    forall u value, len u + 8 < 2 ^ 32 -> exists o,
      DBImpl_Get ucmp table_cache_Get file_level_bloom_filter filter_policy snapshot u value d = Some o /\
      ((go_status o = OK /\ (u, go_value o) ∈ view) \/
       (go_status o = NotFound [] /\ go_value o = value /\ forall v, ~ (u, v) ∈ view)).
Proof.
  destruct (scan_ok ucmp T table_NewIterator table_cache_Get file_level_bloom_filter filter_policy file_entries d madds iadds Hok
    (read_sequence snapshot d) Hseq fuel snapshot eq_refl Hfuel) as (l & Hs & Hl & Hscan).
  exists l. split; [done|]. split; [done|]. split; [by apply view_sorted|]. split; [done|]. intros u value Hu.
  destruct (lookup_ok ucmp T table_NewIterator table_cache_Get file_level_bloom_filter filter_policy file_entries d madds iadds Hok
    (read_sequence snapshot d) Hseq snapshot u value eq_refl Hu) as (o & -> & Ho). exists o. split; [done|].
  assert (forall e, db_newest ucmp file_entries d madds iadds (read_sequence snapshot d) u e <->
    newest_at ucmp l (read_sequence snapshot d) e /\ e_user e = u) as Hnew by (intros e; by eapply lookup_view).
  destruct Ho as [(e & He & Hrep)|(Hnone & -> & ->)].
  - pose proof (proj1 (Hnew e) He) as [Hn Eu]. unfold reports in Hrep. change (ExtractValueType (fst e)) with (e_type e) in Hrep.
    destruct (Z.eqb_spec (e_type e) kTypeValue) as [Et|Et]; destruct Hrep as [-> ->].
    + left. split; [done|]. apply (view_elem ucmp l Hs). by exists e.
    + right. split; [done|]. split; [done|]. intros v (e' & Hn' & Et' & Eu' & _)%(view_elem ucmp l Hs).
      assert (e' = e) as -> by (by eapply (newest_unique ucmp l Hs); [| |rewrite Eu']). done.
  - right. split; [done|]. split; [done|]. intros v (e' & Hn' & Et' & Eu' & _)%(view_elem ucmp l Hs).
    destruct (proj2 (Hnew e') (conj Hn' Eu')) as (He' & Hse' & _). by apply (Hnone e').
Qed.

(** *** A database with an entry in each source *)
Definition file_7_entries (number : Z) : list entry := if number =? 7 then [entry_d9] else [].
Definition BlockOrError : IterOps := SumIterator EmptyIterator (BlockIter (InternalKeyComparator BytewiseComparator)).
Definition file_7_iterator (number size : Z) : St BlockOrError :=
  match NewBlockIterator (new_Block (fst (bb_Finish (build_block 16 (file_7_entries number))))) with inl s => inl s | inr it => inr it end.

Lemma file_7_iterates number size : iterates BlockOrError (InternalKeyComparator BytewiseComparator) mem_seekable (file_7_entries number) (file_7_iterator number size) None.
Proof.
  unfold file_7_iterator, file_7_entries. destruct (number =? 7).
  - destruct (built_block_ok (InternalKeyComparator BytewiseComparator) is_ikey InternalKeyComparator_ok 16 [entry_d9]) as (it & R & E & HI & Hr).
    + by intros [|i] [|j] a b Hij Ha Hb; simpl in Hb; try lia.
    + repeat constructor; vm_compute; discriminate.
    + repeat constructor; vm_compute; reflexivity.
    + vm_compute. reflexivity.
    + rewrite E. apply iterates_inr. exists R. split; [|done]. eapply IterOk_weaken; [|exact HI]. by intros k [? _].
  - destruct (built_block_ok (InternalKeyComparator BytewiseComparator) is_ikey InternalKeyComparator_ok 16 []) as (it & R & E & HI & Hr).
    + by intros i j a b Hij Ha.
    + constructor.
    + constructor.
    + vm_compute. reflexivity.
    + rewrite E. apply iterates_inr. exists R. split; [|done]. eapply IterOk_weaken; [|exact HI]. by intros k [? _].
Qed.

Lemma file_7_scannable level : level_scannable BytewiseComparator mem_seekable BlockOrError file_7_iterator file_7_entries
  (level_of (v_guards version_7) level) (level_of (v_sentinel_files version_7) level).
Proof.
  assert (level_of (v_guards version_7) level = []) as -> by done.
  assert (forall fs f, fs ∈ parts [] (level_of (v_sentinel_files version_7) level) -> f ∈ fs -> f = file_7) as Hfile.
  { intros fs f Hfs%list_elem_of_singleton Hf. subst fs. by apply version_7_file in Hf as [_ ->]. }
  split.
  - by intros i j a b _ Ha.
  - done.
  - constructor.
  - intros fs f Hfs Hf. rewrite (Hfile fs f Hfs Hf). split; [done|done| |by repeat constructor|apply file_7_iterates].
    by intros [|i] [|j] a b Hij Ha Hb; simpl in Hb; try lia.
  - intros fs ->%list_elem_of_singleton. by destruct level as [|[|[|level]]].
  - intros [|i] fs e Hi _; [done|]. by destruct i.
  - intros fs ->%list_elem_of_singleton. destruct level as [|[|[|level]]]; vm_compute; repeat constructor; set_solver.
Qed.

Definition read_batches : list (Z * list Op) := [(12, [OpPut [Byte.x61] [Byte.x31]])].
Definition imm_batches : list (Z * list Op) := [(10, [OpDelete [Byte.x64]; OpPut [Byte.x65] [Byte.x32]])].
Definition database_of (mem imm : MemTable) : Database :=
  {| db_mem := mem; db_imm := Some imm; last_sequence := 12; straight_reads_ := 0; seed_ := 0;
     db_current := {| cur_version := version_7; cur_scores := Finalize version_7; file_to_compact_ := None; file_to_compact_level_ := -1 |} |}.

Lemma read_database_ok : exists mem imm,
  insert_batches BytewiseComparator new_MemTable read_batches = Some mem /\
  insert_batches BytewiseComparator new_MemTable imm_batches = Some imm /\
  database_ok BytewiseComparator BlockOrError file_7_iterator reader_7 (fun _ => None) (BloomFilterPolicy 10) file_7_entries
    (database_of mem imm) (all_additions read_batches) (all_additions imm_batches).
Proof.
  destruct (insert_batches_rep BytewiseComparator read_batches new_MemTable [] 0) as (mem & Em & Hm);
    [apply new_MemTable_rep|lia|constructor|by repeat constructor|].
  destruct (insert_batches_rep BytewiseComparator imm_batches new_MemTable [] 0) as (imm & Ei & Hi);
    [apply new_MemTable_rep|lia|constructor|by repeat constructor|].
  exists mem, imm. split; [exact Em|]. split; [exact Ei|]. split.
  - exact Hm.
  - exact Hi.
  - exact version_7_readable.
  - exact file_7_scannable.
  - intros a b Ha Hb E. apply list_elem_of_singleton in Ha as ->. vm_compute in Hb, E.
    apply elem_of_cons in Hb as [->|Hb%list_elem_of_singleton]; [|subst b]; discriminate E.
  - intros a e Ha (level & f & _ & Hf & He) E. apply version_7_file in Hf as [_ ->]. apply list_elem_of_singleton in He as ->.
    vm_compute in Ha. apply elem_of_cons in Ha as [->|Ha]; [discriminate E|]. apply elem_of_cons in Ha as [->|Ha]; [vm_compute; reflexivity|].
    apply list_elem_of_singleton in Ha as ->. discriminate E.
Qed.

#[local] Existing Instance SortedHeap.sorted_heap.

Lemma reads_agree_witness : exists mem imm l fuel,
  insert_batches BytewiseComparator new_MemTable read_batches = Some mem /\
  insert_batches BytewiseComparator new_MemTable imm_batches = Some imm /\
  iterates (Scan BytewiseComparator BlockOrError file_7_iterator fuel (Some 9) (database_of mem imm))
    BytewiseComparator (fun u => len u + 8 < 2 ^ 32) (user_view BytewiseComparator l 9)
    (fst (DBImpl_NewIterator BytewiseComparator BlockOrError file_7_iterator fuel (database_of mem imm))) None /\
  entry_d9 ∈ l /\ ~ (forall v, ~ ([Byte.x64], v) ∈ user_view BytewiseComparator l 9).
Proof.
  destruct read_database_ok as (mem & imm & Em & Ei & Hok).
  destruct (reads_agree SortedHeap.sorted_heap_ok BytewiseComparator BytewiseComparator_ok BlockOrError file_7_iterator reader_7 (fun _ => None)
    (BloomFilterPolicy 10) file_7_entries (database_of mem imm) (all_additions read_batches) (all_additions imm_batches) Hok (Some 9)
    ltac:(vm_compute; split; discriminate) (S (read_fuel BytewiseComparator file_7_entries (database_of mem imm))) (Nat.lt_succ_diag_r _))
    as (l & _ & Hl & _ & Hscan & Hget).
  exists mem, imm, l, (S (read_fuel BytewiseComparator file_7_entries (database_of mem imm))).
  split; [exact Em|]. split; [exact Ei|]. split; [exact Hscan|]. split.
  - apply Hl. right. right. exists 1%nat, file_7. split; [reflexivity|]. split; left.
  - destruct (Hget [Byte.x64] [] ltac:(vm_compute; reflexivity)) as (o & E & Ho). intros Hno. vm_compute in Em, Ei. injection Em as <-. injection Ei as <-.
    vm_compute in E. injection E as <-. destruct Ho as [[_ Hin]|[Hs _]]; [exact (Hno _ Hin)|discriminate Hs].
Defined.

(** ** Reads leave the contents as they are *)
Section Charged.
Context (number : Z).
Notation charged := (seek_charged number).

Lemma charged_fields f : fm_number (charged f) = fm_number f /\ fm_file_size (charged f) = fm_file_size f /\
  fm_smallest (charged f) = fm_smallest f /\ fm_largest (charged f) = fm_largest f.
Proof. unfold seek_charged. by destruct (fm_number f =? number). Qed.

Lemma charged_number f : fm_number (charged f) = fm_number f.
Proof. apply charged_fields. Qed.

Lemma level_of_charged {A} (h : A -> A) (ls : levels A) level : level_of (map (map h) ls) level = map h (level_of ls level).
Proof. revert level. induction ls as [|l ls IH]; intros [|level]; [done..|apply IH]. Qed.

Lemma guard_files_charged g : guard_files (guard_charged number g) = map charged (guard_files g).
Proof. unfold guard_files. cbn [guard_charged gm_number_segments gm_file_metas]. symmetry. apply fmap_take. Qed.

Context (ucmp : Comparator).
Notation icmp := (InternalKeyComparator ucmp).

Lemma prefix_len_map {A B} (h : A -> B) (p : A -> bool) (q : B -> bool) l : (forall x, q (h x) = p x) -> prefix_len q (map h l) = prefix_len p l.
Proof. intros H. induction l as [|x l IH]; [done|]. cbn [map prefix_len]. rewrite H. by destruct (p x); rewrite ?IH. Qed.

Lemma guard_slot_charged guards u : guard_slot ucmp (map (guard_charged number) guards) u = guard_slot ucmp guards u.
Proof. by apply prefix_len_map. Qed.

Lemma guards_sorted_charged guards : guards_sorted ucmp guards -> guards_sorted ucmp (map (guard_charged number) guards).
Proof.
  intros Hs i j g h Hij Hg Hh. rewrite list_lookup_fmap in Hg, Hh. apply fmap_Some in Hg as (g' & Hg & ->), Hh as (h' & Hh & ->).
  by apply (Hs i j g' h').
Qed.

Lemma part_of_charged v level u : part_of ucmp (version_charged number v) level u = map charged (part_of ucmp v level u).
Proof.
  unfold part_of. cbn [version_charged v_guards v_sentinel_files]. rewrite !level_of_charged, guard_slot_charged.
  destruct (guard_slot ucmp (level_of (v_guards v) level) u) as [|i]; [done|]. rewrite list_lookup_fmap.
  destruct (level_of (v_guards v) level !! i) as [g|]; [apply guard_files_charged|done].
Qed.

Lemma parts_charged guards sentinels : parts (map (guard_charged number) guards) (map charged sentinels) = map (map charged) (parts guards sentinels).
Proof. unfold parts. cbn [map]. f_equal. rewrite !map_map. apply map_ext. intros g. apply guard_files_charged. Qed.

Lemma part_entries_charged file_entries fs : part_entries file_entries (map charged fs) = part_entries file_entries fs.
Proof. unfold part_entries. rewrite map_map. f_equal. apply map_ext. intros f. by rewrite charged_number. Qed.

Lemma map_number_charged fs : map fm_number (map charged fs) = map fm_number fs.
Proof. rewrite map_map. apply map_ext. intros f. apply charged_number. Qed.

Context (T : IterOps) (table_NewIterator : Z -> Z -> St T) (table_cache_Get : TableReader).
Context (file_level_bloom_filter : Z -> option bytes) (filter_policy : FilterPolicy) (file_entries : Z -> list entry).
Notation contents := (contents_of file_entries).

Lemma contents_charged f : contents (charged f) = contents f.
Proof. unfold contents_of. by rewrite charged_number. Qed.

Lemma version_entry_charged v e : version_entry contents (version_charged number v) e <-> version_entry contents v e.
Proof.
  unfold version_entry. cbn [version_charged v_files]. setoid_rewrite level_of_charged. split.
  - intros (level & f & Hl & (g & -> & Hg)%list_elem_of_fmap & He). rewrite contents_charged in He. by exists level, g.
  - intros (level & f & Hl & Hf & He). exists level, (charged f). split; [done|]. split; [by apply list_elem_of_fmap_2|]. by rewrite contents_charged.
Qed.

Lemma file_ok_charged f :
  contents_ok ucmp contents f /\ reads_file ucmp table_cache_Get contents f /\ filter_ok file_level_bloom_filter filter_policy contents f ->
  contents_ok ucmp contents (charged f) /\ reads_file ucmp table_cache_Get contents (charged f) /\
  filter_ok file_level_bloom_filter filter_policy contents (charged f).
Proof.
  pose proof (charged_fields f) as (En & Es & Ea & Eb). intros ([H1 H2 H3] & H4 & H5). split; [split|split].
  - by rewrite contents_charged.
  - by rewrite contents_charged.
  - unfold file_start, file_limit. by rewrite contents_charged, Ea, Eb.
  - intros k Hk. unfold seek_entry. rewrite contents_charged, En, Es. by apply H4.
  - intros e k He. rewrite contents_charged in He. unfold key_may_match. rewrite En. by apply H5.
Qed.

Lemma readable_charged v : readable ucmp table_cache_Get file_level_bloom_filter filter_policy contents v ->
  readable ucmp table_cache_Get file_level_bloom_filter filter_policy contents (version_charged number v).
Proof.
  intros [H1 H2 H3 H4 H5 H6]. split; cbn [version_charged v_files v_guards]; intros level; rewrite ?level_of_charged.
  - destruct (H1 level) as [Hs Hl]. split; [by apply guards_sorted_charged|]. unfold len in *. by rewrite length_map.
  - intros f' (f & -> & Hf)%list_elem_of_fmap. apply file_ok_charged. by apply (H2 level).
  - intros f' g' (f & -> & Hf)%list_elem_of_fmap (g & -> & Hg)%list_elem_of_fmap. rewrite !charged_number. intros E. by rewrite (H3 level f g).
  - intros u f. rewrite part_of_charged. intros (g & -> & Hg)%list_elem_of_fmap. by apply list_elem_of_fmap_2, (H4 level u).
  - intros u f' (f & -> & Hf)%list_elem_of_fmap. unfold file_start, file_limit. pose proof (charged_fields f) as (_ & _ & -> & ->).
    intros Ha Hb. rewrite part_of_charged. by apply list_elem_of_fmap_2, (H5 level u).
  - intros lg f' g' a b (f & -> & Hf)%list_elem_of_fmap. rewrite level_of_charged. intros (g & -> & Hg)%list_elem_of_fmap.
    rewrite !charged_number, !contents_charged. by apply H6.
Qed.

Lemma level_scannable_charged dom guards sentinels : level_scannable ucmp dom T table_NewIterator file_entries guards sentinels ->
  level_scannable ucmp dom T table_NewIterator file_entries (map (guard_charged number) guards) (map charged sentinels).
Proof.
  intros [H1 H2 H3 H4 H5 H6 H7]. split; rewrite ?parts_charged.
  - by apply guards_sorted_charged.
  - unfold len in *. by rewrite length_map.
  - apply Forall_map. eapply Forall_impl; [exact H3|]. intros g Hg. unfold guard_listed in *. by rewrite guard_files_charged, map_number_charged.
  - intros fs' f' (fs & -> & Hfs)%list_elem_of_fmap (f & -> & Hf)%list_elem_of_fmap. pose proof (charged_fields f) as (En & Es & _).
    destruct (H4 fs f Hfs Hf) as [I1 I2 I3 I4 I5]. split; by rewrite ?En, ?Es.
  - intros fs' (fs & -> & Hfs)%list_elem_of_fmap. specialize (H5 fs Hfs). unfold len in *. by rewrite length_map.
  - intros i fs' e Hi. rewrite list_lookup_fmap in Hi. apply fmap_Some in Hi as (fs & Hi & ->).
    rewrite part_entries_charged, guard_slot_charged. by apply H6.
  - intros fs' (fs & -> & Hfs)%list_elem_of_fmap. rewrite part_entries_charged. by apply H7.
Qed.
End Charged.

Lemma UpdateStats_version stats c : cur_version (fst (UpdateStats stats c)) = cur_version c \/
  exists f, seek_file stats = Some f /\ cur_version (fst (UpdateStats stats c)) = version_charged (fm_number f) (cur_version c).
Proof.
  unfold UpdateStats. destruct (seek_file stats) as [f|]; [|by left]. right. exists f. split; [done|].
  destruct (file_to_compact_ c); [done|]. by destruct (fm_allowed_seeks _ <=? 0).
Qed.

(** The search of FindFile ends, also in a level whose files are in no order. *)
Lemma FindFile_loop_total (ucmp : Comparator) files key : len files < 2 ^ 31 -> forall fuel l r,
  0 <= l <= r -> r <= len files -> r - l < Z.of_nat fuel -> exists i, FindFile_loop ucmp fuel files key l r = Some i /\ l <= i <= r.
Proof.
  intros Hlen. induction fuel as [|fuel IH]; intros l r Hl Hr Hf; [lia|]. cbn [FindFile_loop].
  destruct (Z.ltb_spec l r) as [Hlt|Hge]; [|exists r; split; [done|lia]]. rewrite u32_small by lia. cbv zeta.
  assert (l <= (l + r) / 2 < r) as Hmid by (Z.div_mod_to_equations; lia).
  destruct (files !! Z.to_nat ((l + r) / 2)) as [f|] eqn:Ef; [|apply lookup_ge_None in Ef; unfold len in *; lia].
  destruct (Compare (InternalKeyComparator ucmp) (fm_largest f) key <? 0).
  - destruct (IH ((l + r) / 2 + 1) r) as (i & -> & Hi); [lia..|]. exists i. split; [done|lia].
  - destruct (IH l ((l + r) / 2)) as (i & -> & Hi); [lia..|]. exists i. split; [done|lia].
Qed.

Lemma overlapping_at_total (ucmp : Comparator) v user_key internal_key level : len (level_of (v_files v) level) < 2 ^ 31 ->
  exists files, overlapping_at ucmp v user_key internal_key level = Some files /\ (length files <= 1)%nat.
Proof.
  intros Hlen. unfold overlapping_at. cbv zeta. destruct (len (level_of (v_files v) level) =? 0); [by exists []; cbn; split; [|lia]|].
  unfold FindFile. assert (0 <= len (level_of (v_files v) level)) by (unfold len; lia). rewrite u32_small by lia.
  destruct (FindFile_loop_total ucmp (level_of (v_files v) level) internal_key Hlen (S (length (level_of (v_files v) level))) 0 (len (level_of (v_files v) level)))
    as (i & -> & Hi); [lia|lia|unfold len; lia|]. cbn [mbind option_bind].
  destruct (Z.ltb_spec i (len (level_of (v_files v) level))) as [Hlt|]; [|by exists []; cbn; split; [|lia]].
  destruct (level_of (v_files v) level !! Z.to_nat i) as [f|] eqn:Ef; [|apply lookup_ge_None in Ef; unfold len in *; lia].
  cbn [mbind option_bind]. case_match; eexists; (split; [done|cbn; lia]).
Qed.

Lemma visit_levels_total {S} (ucmp : Comparator) (func : Visitor S) v user_key internal_key levels :
  (forall level, len (level_of (v_files v) level) < 2 ^ 31) -> forall arg, exists arg', visit_levels ucmp func v user_key internal_key levels arg = Some arg'.
Proof.
  intros Hlen. induction levels as [|level levels IH]; intros arg; cbn [visit_levels]; [by exists arg|].
  destruct (overlapping_at_total ucmp v user_key internal_key level (Hlen level)) as (files & -> & _). cbn [mbind option_bind].
  destruct (visit_files func (Z.of_nat level) files arg) as [arg' [|]]; [apply IH|by exists arg'].
Qed.

Lemma RecordReadSample_total (ucmp : Comparator) key c : (forall level, len (level_of (v_files (cur_version c)) level) < 2 ^ 31) ->
  exists stats r, RecordReadSample ucmp key c = Some r /\ (r = (c, false) \/ r = UpdateStats stats c).
Proof.
  intros Hlen. unfold RecordReadSample. destruct (ParseInternalKey key ParsedInternalKey_default) as [[|] ikey]; cbn [negb].
  - unfold ForEachOverlapping. destruct (visit_files Match 0 (overlapping_0 ucmp (cur_version c) (user_key ikey)) _) as [arg more].
    assert (exists state, (if more then visit_levels ucmp Match (cur_version c) (user_key ikey) key (seq 1 (Z.to_nat kNumLevels - 1)) arg else Some arg) = Some state) as (state & ->).
    { destruct more; [by apply visit_levels_total|by exists arg]. }
    cbn [mbind option_bind]. exists (sample_stats state). eexists. split; [done|]. case_match; [by right|by left].
  - exists {| seek_file := None; seek_file_level := 0 |}. eexists. split; [done|]. by left.
Qed.

(** ** The reads of a database, one after the other *)
Section Steps.
Context `{!StdHeap} (ucmp : Comparator) (T : IterOps) (table_NewIterator : Z -> Z -> St T) (table_cache_Get : TableReader).
Context (file_level_bloom_filter : Z -> option bytes) (filter_policy : FilterPolicy) (fuel : nat).

Inductive read_step (d : Database) : Database -> Prop :=
| step_get snapshot key value o :
    DBImpl_Get ucmp table_cache_Get file_level_bloom_filter filter_policy snapshot key value d = Some o -> read_step d (go_db o)
| step_scan : read_step d (snd (DBImpl_NewIterator ucmp T table_NewIterator fuel d))
| step_sample key d' signal : DBImpl_RecordReadSample ucmp key d = Some (d', signal) -> read_step d d'.
End Steps.

(** [d'] differs from [d] at most in its counters. *)
Definition same_contents (d d' : Database) : Prop :=
  db_mem d' = db_mem d /\ db_imm d' = db_imm d /\ last_sequence d' = last_sequence d /\
  (version_of d' = version_of d \/ exists number, version_of d' = version_charged number (version_of d)).

Section StepsOk.
Context `{!StdHeap} (ucmp : Comparator) (T : IterOps) (table_NewIterator : Z -> Z -> St T) (table_cache_Get : TableReader).
Context (file_level_bloom_filter : Z -> option bytes) (filter_policy : FilterPolicy) (fuel : nat) (file_entries : Z -> list entry).
Notation step := (read_step ucmp T table_NewIterator table_cache_Get file_level_bloom_filter filter_policy fuel).
Notation db_ok := (database_ok ucmp T table_NewIterator table_cache_Get file_level_bloom_filter filter_policy file_entries).

Lemma update_stats_same d stats : same_contents d (with_db_current d (fst (UpdateStats stats (db_current d)))).
Proof.
  split; [done|]. split; [done|]. split; [done|]. unfold version_of. cbn [with_db_current db_current].
  destruct (UpdateStats_version stats (db_current d)) as [->|(f & _ & ->)]; [by left|right]. by exists (fm_number f).
Qed.

Lemma get_same snapshot key value d o :
  DBImpl_Get ucmp table_cache_Get file_level_bloom_filter filter_policy snapshot key value d = Some o -> same_contents d (go_db o).
Proof.
  assert (same_contents d d) as Hrefl by (split; [done|split; [done|split; [done|by left]]]).
  unfold DBImpl_Get. intros (r & _ & Hg)%bind_Some. destruct (found_in_table r value) as [[st v']|]; [by injection Hg as <-|].
  apply bind_Some in Hg as (ri & _ & Hg). destruct (found_in_table ri value) as [[st v']|]; [by injection Hg as <-|].
  apply bind_Some in Hg as ([st gs] & _ & Hg). destruct (UpdateStats (g_stats gs) (db_current d)) as [c signal] eqn:E. injection Hg as <-. cbn [go_db].
  pose proof (update_stats_same d (g_stats gs)) as Hs. by rewrite E in Hs.
Qed.

Lemma sample_same key d d' signal : DBImpl_RecordReadSample ucmp key d = Some (d', signal) -> same_contents d d'.
Proof.
  unfold DBImpl_RecordReadSample. intros ([c sig] & Hc & [= <- <-])%bind_Some. split; [done|]. split; [done|]. split; [done|].
  unfold version_of. cbn [db_current]. unfold RecordReadSample in Hc.
  destruct (ParseInternalKey key ParsedInternalKey_default) as [[|] ikey]; cbn [negb] in Hc; [|injection Hc as <- _; by left].
  apply bind_Some in Hc as (state & _ & Hc). case_match; [|injection Hc as <- _; by left]. injection Hc as Hc.
  pose proof (UpdateStats_version (sample_stats state) (db_current d)) as HU. rewrite Hc in HU. cbn [fst] in HU.
  destruct HU as [->|(f & _ & ->)]; [by left|right]. by exists (fm_number f).
Qed.

Lemma step_same d d' : step d d' -> same_contents d d'.
Proof.
  intros [snapshot key value o Hg| |key d1 signal Hg]; [by eapply get_same| |by eapply sample_same].
  split; [done|]. split; [done|]. split; [done|by left].
Qed.

Lemma same_entries d d' madds iadds e : same_contents d d' -> db_entry file_entries d' madds iadds e <-> db_entry file_entries d madds iadds e.
Proof.
  intros (_ & _ & _ & [E|(number & E)]); unfold db_entry; rewrite E; [done|]. by rewrite version_entry_charged.
Qed.

Lemma same_database_ok d d' madds iadds : same_contents d d' -> db_ok d madds iadds -> db_ok d' madds iadds.
Proof.
  intros (Em & Ei & _ & Hv) [H1 H2 H3 H4 H5 H6]. split; rewrite ?Em, ?Ei; [done..| | |done|].
  - destruct Hv as [->|(number & ->)]; [done|by apply readable_charged].
  - intros level. destruct Hv as [->|(number & ->)]; [done|]. cbn [version_charged v_guards v_sentinel_files]. rewrite !level_of_charged. by apply level_scannable_charged.
  - intros a e Ha He. apply H6; [done|]. destruct Hv as [Ev|(number & Ev)]; rewrite Ev in He; [done|by apply version_entry_charged in He].
Qed.
End StepsOk.

(** ** What reads may change *)

(** A file, a guard and a version without their seek counters. *)
Definition without_seeks (f : FileMetaData) : FileMetaData :=
  {| fm_refs := fm_refs f; fm_allowed_seeks := 0; fm_number := fm_number f; fm_file_size := fm_file_size f;
     fm_smallest := fm_smallest f; fm_largest := fm_largest f |}.
Definition guard_without_seeks (g : GuardMetaData) : GuardMetaData :=
  {| gm_refs := gm_refs g; gm_level := gm_level g; gm_number_segments := gm_number_segments g; gm_guard_key := gm_guard_key g;
     gm_smallest := gm_smallest g; gm_largest := gm_largest g; gm_files := gm_files g; gm_file_metas := map without_seeks (gm_file_metas g) |}.
Definition version_without_seeks (v : Version) : Version :=
  {| v_files := map (map without_seeks) (v_files v); v_guards := map (map guard_without_seeks) (v_guards v);
     v_complete_guards := map (map guard_without_seeks) (v_complete_guards v);
     v_sentinel_files := map (map without_seeks) (v_sentinel_files v); v_num_complete_guards := v_num_complete_guards v |}.

(** [f'] is [f] after some seeks. *)
Definition seeks_spent (f f' : FileMetaData) : Prop := without_seeks f' = without_seeks f /\ fm_allowed_seeks f' <= fm_allowed_seeks f.

(** From [c] to [c'] only seek counters were counted down, and a file was marked
    for compaction at most if none was, once its seeks were used up. *)
Record counted (c c' : Current) : Prop := {
  ct_version : version_without_seeks (cur_version c') = version_without_seeks (cur_version c);
  ct_seeks : Forall2 (Forall2 seeks_spent) (v_files (cur_version c)) (v_files (cur_version c'));
  ct_scores : cur_scores c' = cur_scores c;
  ct_mark : match file_to_compact_ c, file_to_compact_ c' with
            | Some f, Some f' => seeks_spent f f' /\ file_to_compact_level_ c' = file_to_compact_level_ c
            | Some _, None => False
            | None, Some f' => fm_allowed_seeks f' <= 0
            | None, None => file_to_compact_level_ c' = file_to_compact_level_ c
            end;
}.

Lemma seeks_spent_refl f : seeks_spent f f.
Proof. split; [done|lia]. Qed.
Lemma seeks_spent_trans f g h : seeks_spent f g -> seeks_spent g h -> seeks_spent f h.
Proof. intros [E1 H1] [E2 H2]. split; [congruence|lia]. Qed.
Lemma seeks_spent_charged number f : seeks_spent f (seek_charged number f).
Proof. unfold seeks_spent, seek_charged. destruct (_ =? _); split; [done|cbn; lia|done|lia]. Qed.

Lemma counted_refl c : counted c c.
Proof.
  split; [done| |done|].
  - apply Forall_Forall2_diag, Forall_forall. intros l _. apply Forall_Forall2_diag, Forall_forall. intros f _. apply seeks_spent_refl.
  - destruct (file_to_compact_ c); [split; [apply seeks_spent_refl|done]|done].
Qed.

Lemma counted_trans c1 c2 c3 : counted c1 c2 -> counted c2 c3 -> counted c1 c3.
Proof.
  intros [V1 S1 C1 M1] [V2 S2 C2 M2]. split; [congruence| |congruence|].
  - eapply Forall2_trans; [|exact S1|exact S2]. intros a b c Hab Hbc. eapply Forall2_trans; [|exact Hab|exact Hbc]. intros f g h. apply seeks_spent_trans.
  - destruct (file_to_compact_ c1), (file_to_compact_ c2), (file_to_compact_ c3); try done.
    + destruct M1 as [M1 E1], M2 as [M2 E2]. split; [by eapply seeks_spent_trans|congruence].
    + destruct M2 as [[_ M2] _]. lia.
    + congruence.
Qed.

Lemma without_seeks_charged number f : without_seeks (seek_charged number f) = without_seeks f.
Proof. apply seeks_spent_charged. Qed.
Lemma guard_without_seeks_charged number g : guard_without_seeks (guard_charged number g) = guard_without_seeks g.
Proof. unfold guard_without_seeks, guard_charged. cbn. f_equal. rewrite map_map. apply map_ext. intros f. apply without_seeks_charged. Qed.
Lemma version_without_seeks_charged number v : version_without_seeks (version_charged number v) = version_without_seeks v.
Proof.
  unfold version_without_seeks, version_charged. cbn. rewrite !map_map.
  f_equal; apply map_ext; intros l; rewrite map_map; apply map_ext; intros x; apply without_seeks_charged || apply guard_without_seeks_charged.
Qed.

Lemma UpdateStats_counted stats c : counted c (fst (UpdateStats stats c)).
Proof.
  unfold UpdateStats. destruct (seek_file stats) as [f|]; [|apply counted_refl].
  assert (Forall2 (Forall2 seeks_spent) (v_files (cur_version c)) (v_files (version_charged (fm_number f) (cur_version c)))) as Hs.
  { cbn. apply Forall2_fmap_r, Forall_Forall2_diag, Forall_forall. intros l _. apply Forall2_fmap_r, Forall_Forall2_diag, Forall_forall. intros x _. apply seeks_spent_charged. }
  destruct (file_to_compact_ c) as [g|] eqn:E; [|destruct (Z.leb_spec (fm_allowed_seeks (seek_charged (fm_number f) f)) 0)];
    (split; cbn [fst cur_version cur_scores file_to_compact_ file_to_compact_level_]; [apply version_without_seeks_charged|done|done|rewrite E]); try done.
  split; [apply seeks_spent_charged|done].
Qed.

Lemma RecordReadSample_counted ucmp key c c' signal : RecordReadSample ucmp key c = Some (c', signal) -> counted c c'.
Proof.
  unfold RecordReadSample. destruct (ParseInternalKey key ParsedInternalKey_default) as [[|] ikey]; cbn [negb]; [|intros [= <- _]; apply counted_refl].
  intros (state & _ & Hc)%bind_Some. case_match; [|injection Hc as <- _; apply counted_refl]. injection Hc as Hc.
  pose proof (UpdateStats_counted (sample_stats state) c) as H1. by rewrite Hc in H1.
Qed.

Lemma read_step_counted `{!StdHeap} ucmp T table_NewIterator table_cache_Get filters policy fuel d d' :
  read_step ucmp T table_NewIterator table_cache_Get filters policy fuel d d' -> db_mem d' = db_mem d /\ db_imm d' = db_imm d /\ counted (db_current d) (db_current d').
Proof.
  intros [snapshot key value o Hg| |key d1 signal Hg].
  - unfold DBImpl_Get in Hg. apply bind_Some in Hg as (r & _ & Hg). destruct (found_in_table r value) as [[st v']|]; [injection Hg as <-; repeat split; apply counted_refl|].
    apply bind_Some in Hg as (ri & _ & Hg). destruct (found_in_table ri value) as [[st v']|]; [injection Hg as <-; repeat split; apply counted_refl|].
    apply bind_Some in Hg as ([st gs] & _ & Hg). pose proof (UpdateStats_counted (g_stats gs) (db_current d)) as Hc.
    destruct (UpdateStats (g_stats gs) (db_current d)) as [c signal]. by injection Hg as <-.
  - repeat split; apply counted_refl.
  - unfold DBImpl_RecordReadSample in Hg. apply bind_Some in Hg as ([c sig] & Hc & [= <- <-]). split; [done|]. split; [done|]. by eapply RecordReadSample_counted.
Qed.

(** C3. Reads do not disturb each other.  Whatever lookups, scans and read samples
    run before, they leave a readable database readable, with the same entries,
    memtables and last sequence number.  Of the current version they change
    nothing but the seek counters of files, which only go down: the files with
    their numbers, sizes, ranges and references, the guards, the sentinels and
    the scores stay; a file that was marked for compaction stays marked, with its
    level, and a file is marked only when none was and its seeks are used up. *)
Theorem reads_keep_contents `{!StdHeap} (ucmp : Comparator) (T : IterOps) (table_NewIterator : Z -> Z -> St T) (table_cache_Get : TableReader)
    (file_level_bloom_filter : Z -> option bytes) (filter_policy : FilterPolicy) (file_entries : Z -> list entry) (fuel : nat)
    (d d' : Database) (madds iadds : list Addition)
    (Hok : database_ok ucmp T table_NewIterator table_cache_Get file_level_bloom_filter filter_policy file_entries d madds iadds)
    (Hsteps : rtc (read_step ucmp T table_NewIterator table_cache_Get file_level_bloom_filter filter_policy fuel) d d') :
  database_ok ucmp T table_NewIterator table_cache_Get file_level_bloom_filter filter_policy file_entries d' madds iadds /\
  (forall e, db_entry file_entries d' madds iadds e <-> db_entry file_entries d madds iadds e) /\
  last_sequence d' = last_sequence d /\ db_mem d' = db_mem d /\ db_imm d' = db_imm d /\ counted (db_current d) (db_current d').
Proof.
  induction Hsteps as [d|d d1 d' Hstep _ IH]; [do 5 (split; [done|]); apply counted_refl|]. apply step_same in Hstep as Hsame. apply read_step_counted in Hstep as (Em & Ei & Hc).
  destruct (IH (same_database_ok ucmp T table_NewIterator table_cache_Get file_level_bloom_filter filter_policy file_entries d d1 madds iadds Hsame Hok)) as (H1 & H2 & H3 & H4 & H5 & H6).
  split; [done|]. split; [intros e; rewrite H2; by apply same_entries|]. split; [rewrite H3; apply Hsame|]. split; [congruence|]. split; [congruence|by eapply counted_trans].
Qed.

Lemma reads_keep_contents_witness : exists mem imm d',
  rtc (read_step BytewiseComparator BlockOrError file_7_iterator reader_7 (fun _ => None) (BloomFilterPolicy 10) 9) (database_of mem imm) d' /\
  database_ok BytewiseComparator BlockOrError file_7_iterator reader_7 (fun _ => None) (BloomFilterPolicy 10) file_7_entries
    d' (all_additions read_batches) (all_additions imm_batches) /\ straight_reads_ d' = 1 /\ file_to_compact_ (db_current d') = None.
Proof.
  destruct read_database_ok as (mem & imm & Em & Ei & Hok).
  exists mem, imm, (snd (DBImpl_NewIterator BytewiseComparator BlockOrError file_7_iterator 9 (database_of mem imm))).
  assert (rtc (read_step BytewiseComparator BlockOrError file_7_iterator reader_7 (fun _ => None) (BloomFilterPolicy 10) 9) (database_of mem imm)
    (snd (DBImpl_NewIterator BytewiseComparator BlockOrError file_7_iterator 9 (database_of mem imm)))) as Hsteps.
  { eapply rtc_l; [|eapply rtc_l; [apply step_scan|apply rtc_refl]].
    apply (step_get _ _ _ _ _ _ _ (database_of mem imm) None [Byte.x64] []
      {| go_status := NotFound []; go_value := []; go_db := database_of mem imm; go_signal := false |}).
    vm_compute in Em, Ei. injection Em as <-. injection Ei as <-. vm_compute. reflexivity. }
  split; [exact Hsteps|]. split; [|split; reflexivity].
  apply (reads_keep_contents BytewiseComparator BlockOrError file_7_iterator reader_7 (fun _ => None) (BloomFilterPolicy 10) file_7_entries 9
    (database_of mem imm) _ _ _ Hok Hsteps).
Defined.
