(* ===== verification/FileFilters.v ===== *)
(** * File-level filters (db/version_set.cc: PopulateFileLevelBloomFilter,
    PopulateBloomFilterForFile, AddFileLevelBloomFilterInfo)

    With FILE_LEVEL_FILTER every table has one filter in memory, which
    Version::Get asks before it reads the file.  When a database is opened, the
    filters of all tables are built by reading the tables.  The theorem gives
    the promise about filters that reads rely on; a second one shows what comes
    of not looking at the status of the iterator. *)

From Stdlib Require Import ZArith Lia Bool.
From Stdlib Require Import Strings.String.
From stdpp Require Import base list gmap.
From S2P Require Import Prelude Coding Comparator DbFormat Status Iterator Block BlockSpec Bloom FilterBlock VersionEdit VersionBuilder VersionGet LevelIter.
From S2P Require Import Reads.

Set Default Goal Selector "!".
Local Open Scope Z_scope.
#[local] Arguments Compare : simpl never.

Definition AddFileLevelBloomFilterInfo (file_number : Z) (filter_string : bytes) (filters : gmap Z bytes) : gmap Z bytes :=
  <[file_number := filter_string]> filters.

Section Populate.
Context (policy : option FilterPolicy) (T : IterOps) (table_NewIterator : Z -> Z -> St T) (fuel : nat).

(** while (iter->Valid()): the builder and how many keys it got. *)
Fixpoint add_keys (fuel : nat) (iter : St T) (builder : FileLevelFilterBuilder) (cnt : Z) : option (FileLevelFilterBuilder * Z) :=
  match fuel with
  | O => None
  | S fuel =>
      if Valid T iter then
        iter' ← Next T iter;
        add_keys fuel iter' (fl_AddKey policy builder (key T iter)) (cnt + 1)
      else Some (builder, cnt)
  end.

Definition PopulateBloomFilterForFile (file : FileMetaData) (builder : FileLevelFilterBuilder) (filters : gmap Z bytes)
    : option (FileLevelFilterBuilder * gmap Z bytes) :=
  match filters !! fm_number file with
  | Some _ => Some (builder, filters)
  | None =>
      iter ← SeekToFirst T (table_NewIterator (fm_number file) (fm_file_size file));
      '(builder, cnt) ← add_keys fuel iter builder 0;
      if 0 <? cnt then
        let '(filter_string, builder) := fl_GenerateFilter policy builder in
        filter_string ← filter_string;
        Some (builder, AddFileLevelBloomFilterInfo (fm_number file) filter_string filters)
      else Some (builder, filters)
  end.

Fixpoint populate_files (files : list FileMetaData) (builder : FileLevelFilterBuilder) (filters : gmap Z bytes)
    : option (FileLevelFilterBuilder * gmap Z bytes) :=
  match files with
  | [] => Some (builder, filters)
  | file :: files =>
      '(builder, filters) ← PopulateBloomFilterForFile file builder filters;
      populate_files files builder filters
  end.

Definition files_by_level (v : Version) : list FileMetaData :=
  concat (map (fun level => level_of (v_files v) level) (seq 0 (Z.to_nat kNumLevels))).

Definition PopulateFileLevelBloomFilter (current : Version) (filters : gmap Z bytes) : option (gmap Z bytes) :=
  match policy with
  | None => Some filters
  | Some _ => snd <$> populate_files (files_by_level current) fl_Clear filters
  end.
End Populate.

Lemma elem_files_by_level v f : f ∈ files_by_level v <-> exists level, Z.of_nat level < kNumLevels /\ f ∈ level_of (v_files v) level.
Proof.
  unfold files_by_level. rewrite list_elem_of_In, in_concat. split.
  - intros (fs & Hfs & Hf). apply in_map_iff in Hfs as (level & <- & Hl%in_seq). exists level. split; [unfold kNumLevels in *; lia|by apply list_elem_of_In].
  - intros (level & Hl & Hf). exists (level_of (v_files v) level). split; [|by apply list_elem_of_In]. apply in_map_iff. exists level.
    split; [done|]. apply in_seq. unfold kNumLevels in *. lia.
Qed.

Section PopulateOk.
Context (ucmp : Comparator).
Notation icmp := (InternalKeyComparator ucmp).
Context (p : FilterPolicy) (dom seek_dom : bytes -> Prop) `{Hp : !FilterPolicyOk p dom}.
Notation policy := (InternalFilterPolicy p).
Context (T : IterOps) (table_NewIterator : Z -> Z -> St T) (fuel : nat) (contents : FileMetaData -> list entry).

(** The table of the file can be read. *)
Record filterable (f : FileMetaData) : Prop := {
  fi_iterates : iterates T icmp seek_dom (contents f) (table_NewIterator (fm_number f) (fm_file_size f)) None;
  fi_keys : Forall (fun e => dom (ExtractUserKey (fst e))) (contents f);
  fi_count : len (contents f) < 2 ^ 31 /\ (length (contents f) < fuel)%nat;
}.

Lemma add_keys_walks l (R : St T -> pos -> Prop) : IterOk T icmp seek_dom l R -> forall rest pre fuel iter b cnt, l = pre ++ rest ->
  R iter (at_count l (length pre)) -> (length rest < fuel)%nat ->
  add_keys (Some policy) T fuel iter b cnt = Some (fold_left (fl_AddKey (Some policy)) (map fst rest) b, cnt + len rest).
Proof.
  intros HI. induction rest as [|e rest IH]; intros pre n iter b cnt El Hr Hn; (destruct n as [|n]; [cbn in Hn; lia|]); cbn [add_keys map fold_left].
  - rewrite app_nil_r in El. subst pre. rewrite (io_at_end iter Hr). by rewrite Z.add_0_r.
  - destruct (io_at_entry iter pre e rest El Hr) as (-> & -> & _ & iter' & -> & Hr'). cbn [mbind option_bind].
    rewrite (IH (pre ++ [e]) n iter' _ (cnt + 1)); [rewrite len_cons; f_equal; f_equal; lia|by rewrite <- app_assoc|done|cbn in Hn; lia].
Qed.

Notation filters_ok filters f := (filter_ok (fun n => filters !! n) policy contents f).

(** One file: its filter, if it has one afterwards, lets its keys through. *)
Lemma populate_one file filters : filterable file -> filters_ok filters file ->
  exists filters', PopulateBloomFilterForFile (Some policy) T table_NewIterator fuel file fl_Clear filters = Some (fl_Clear, filters') /\
    filters_ok filters' file /\ (contents file <> [] -> is_Some (filters' !! fm_number file)) /\
    forall n, n <> fm_number file \/ is_Some (filters !! n) -> filters' !! n = filters !! n.
Proof.
  intros [(R & HR & Hr) Hkeys [Hcount Hfuel]] Hold. unfold PopulateBloomFilterForFile.
  destruct (filters !! fm_number file) as [s|] eqn:Ef; [exists filters; split; [done|]; split; [done|]; split; [intros _; by exists s|done]|].
  destruct (io_at_first _ _ Hr) as (iter & -> & Hi). cbn [mbind option_bind].
  rewrite (add_keys_walks (contents file) R HR (contents file) [] fuel iter fl_Clear 0 eq_refl Hi Hfuel). cbn [mbind option_bind].
  destruct (Z.ltb_spec 0 (0 + len (contents file))) as [Hpos|Hzero].
  - destruct (contents file) as [|e0 es] eqn:Ec; [by unfold len in Hpos|]. rewrite <- Ec in *.
    assert (forall k, k ∈ map fst (contents file) -> exists filter, fl_GenerateFilter (Some policy) (fold_left (fl_AddKey (Some policy)) (map fst (contents file)) fl_Clear)
      = (Some filter, fl_Clear) /\ KeyMayMatch policy k filter = true) as Hgen.
    { intros k Hk. apply (file_level_filter_no_false_negatives policy (fun k => dom (ExtractUserKey k))); [apply _|by apply Forall_map|unfold len in *; by rewrite length_map|done]. }
    destruct (Hgen (fst e0)) as (filter & Eg & _); [rewrite Ec; left|]. rewrite Eg. cbn [mbind option_bind].
    eexists. split; [reflexivity|]. unfold AddFileLevelBloomFilterInfo. split; [|split].
    + intros e k He Hk Eu. unfold key_may_match. rewrite lookup_insert_eq.
      destruct (Hgen (fst e)) as (filter' & Eg' & Hm); [by apply list_elem_of_fmap_2|]. rewrite Eg in Eg'. injection Eg' as <-.
      cbn [KeyMayMatch InternalFilterPolicy] in *. by rewrite <- Eu.
    + intros _. rewrite lookup_insert_eq. by eexists.
    + intros n [Hn|[x Hn]]; [by rewrite lookup_insert_ne|]. destruct (decide (n = fm_number file)) as [->|]; [congruence|by rewrite lookup_insert_ne].
  - assert (contents file = []) as Ec by (apply len_0_nil; unfold len in *; lia). rewrite Ec. exists filters. split; [done|]. split; [done|]. split; [done|done].
Qed.

Lemma populate_all files : forall filters, Forall filterable files -> (forall f, f ∈ files -> filters_ok filters f) ->
  (forall f g, f ∈ files -> g ∈ files -> fm_number f = fm_number g -> f = g) ->
  exists filters', populate_files (Some policy) T table_NewIterator fuel files fl_Clear filters = Some (fl_Clear, filters') /\
    (forall f, f ∈ files -> filters_ok filters' f /\ (contents f <> [] -> is_Some (filters' !! fm_number f))) /\
    forall n, is_Some (filters !! n) -> filters' !! n = filters !! n.
Proof.
  induction files as [|file files IH]; intros filters Hall Hold Hinj; cbn [populate_files].
  { exists filters. split; [done|]. split; [by intros f ?%elem_of_nil|done]. }
  apply Forall_cons in Hall as [Hf Hall]. destruct (populate_one file filters Hf (Hold file ltac:(left))) as (filters1 & -> & H1 & H2 & H3). cbn [mbind option_bind].
  assert (forall f, f ∈ file :: files -> filters_ok filters1 f) as Hmid.
  { intros f Hin. destruct (decide (fm_number f = fm_number file)) as [E|Hne]; [by rewrite (Hinj f file Hin ltac:(left) E)|].
    intros e k He Hk Eu. specialize (Hold f Hin e k He Hk Eu). unfold key_may_match in *. by rewrite H3 by (by left). }
  destruct (IH filters1 Hall) as (filters' & -> & H4 & H5).
  { intros f Hin. apply Hmid. by right. }
  { intros f g Hin Hg. apply Hinj; by right. }
  exists filters'. split; [done|]. split.
  - intros f [->|Hin]%elem_of_cons; [|by apply H4]. split.
    + intros e k He Hk Eu. specialize (H1 e k He Hk Eu). unfold key_may_match in *.
      destruct (filters1 !! fm_number file) as [s|] eqn:Es; [by rewrite H5, Es by (by eexists)|].
      exfalso. destruct H2 as [s Hs]; [|discriminate Hs]. intros Ec. rewrite Ec in He. by apply elem_of_nil in He.
    + intros Hne. destruct (H2 Hne) as [s Hs]. rewrite H5 by (by eexists). by eexists.
  - intros n Hn. rewrite H5; [apply H3; by right|]. rewrite H3 by (by right). done.
Qed.
End PopulateOk.

(** ** Claims *)

(** C39. The file-level filters.  When the tables of a version can be read and the
    filters that are there already let the keys of their files through,
    PopulateFileLevelBloomFilter ends; then every file of the version has, unless
    it is empty, a filter, every filter lets the keys of its file through (the
    promise that Version::Get relies on), and the filters that were there are
    unchanged. *)
Theorem file_filters_populated (ucmp : Comparator) (p : FilterPolicy) (dom seek_dom : bytes -> Prop) (Hp : FilterPolicyOk p dom)
    (T : IterOps) (table_NewIterator : Z -> Z -> St T) (fuel : nat) (contents : FileMetaData -> list entry) (v : Version) (filters : gmap Z bytes)
    (Hfiles : forall level f, Z.of_nat level < kNumLevels -> f ∈ level_of (v_files v) level ->
       filterable ucmp dom seek_dom T table_NewIterator fuel contents f /\ filter_ok (fun n => filters !! n) (InternalFilterPolicy p) contents f)
    (Hnumbers : forall l1 l2 f g, f ∈ level_of (v_files v) l1 -> g ∈ level_of (v_files v) l2 -> fm_number f = fm_number g -> f = g) :
  exists filters', PopulateFileLevelBloomFilter (Some (InternalFilterPolicy p)) T table_NewIterator fuel v filters = Some filters' /\
    (forall level f, Z.of_nat level < kNumLevels -> f ∈ level_of (v_files v) level ->
       filter_ok (fun n => filters' !! n) (InternalFilterPolicy p) contents f /\ (contents f <> [] -> is_Some (filters' !! fm_number f))) /\
    forall n, is_Some (filters !! n) -> filters' !! n = filters !! n.
Proof.
  destruct (populate_all ucmp p dom seek_dom T table_NewIterator fuel contents (files_by_level v) filters) as (filters' & E & H1 & H2).
  - apply Forall_forall. intros f (level & Hl & Hf)%elem_files_by_level. by apply (Hfiles level).
  - intros f (level & Hl & Hf)%elem_files_by_level. by apply (Hfiles level).
  - intros f g (l1 & _ & Hf)%elem_files_by_level (l2 & _ & Hg)%elem_files_by_level. by apply (Hnumbers l1 l2).
  - exists filters'. unfold PopulateFileLevelBloomFilter. rewrite E. split; [done|]. split; [|done].
    intros level f Hl Hf. apply H1, elem_files_by_level. by exists level.
Qed.

Lemma file_filters_populated_witness : exists filters',
  PopulateFileLevelBloomFilter (Some (InternalFilterPolicy (BloomFilterPolicy 10))) BlockOrError file_7_iterator 5 version_7 ∅ = Some filters' /\
  filter_ok (fun n => filters' !! n) (InternalFilterPolicy (BloomFilterPolicy 10)) (contents_of file_7_entries) file_7 /\ is_Some (filters' !! 7).
Proof.
  destruct (file_filters_populated BytewiseComparator (BloomFilterPolicy 10) (fun _ => True) MemIter.mem_seekable
    (BloomFilterPolicy_ok 10 (TCEq_refl _) (TCEq_refl _)) BlockOrError file_7_iterator 5 (contents_of file_7_entries) version_7 ∅) as (filters' & E & H & _).
  - intros level f _ Hf. apply version_7_file in Hf as [_ ->]. split; [split; [apply file_7_iterates|by repeat constructor|split; [vm_compute; reflexivity|cbn; lia]]|].
    intros e k _ _ _. reflexivity.
  - intros l1 l2 f g Hf Hg _. apply version_7_file in Hf as [_ ->], Hg as [_ ->]. reflexivity.
  - exists filters'. split; [exact E|]. destruct (H 1%nat file_7) as [H1 H2]; [reflexivity|left|]. split; [exact H1|]. apply H2. discriminate.
Defined.

(** *** A table that cannot be read to its end *)
Definition entry_e9 : entry := (InternalKey [Byte.x65] 9 kTypeValue, [Byte.x77]).
Definition read_error : Status := IOError (bytes_of_string "block read"%string).

(** The iterator over d and e when the block of e cannot be read at the moment. *)
Definition FlakyTable : IterOps := {|
  St := nat;
  Valid s := (s =? 0)%nat;
  SeekToFirst _ := Some 0%nat;
  SeekToLast _ := Some 1%nat;
  Seek _ _ := Some 1%nat;
  Next s := Some (S s);
  Prev s := Some (S s);
  key _ := fst entry_d9;
  value _ := snd entry_d9;
  status s := if (s =? 0)%nat then OK else read_error;
|}.

Definition file_8 : FileMetaData := file_meta 8 100 (fst entry_d9) (fst entry_e9).
Definition version_8 : Version :=
  {| v_files := [[]; [file_8]]; v_guards := []; v_complete_guards := []; v_sentinel_files := [[]; [file_8]]; v_num_complete_guards := [] |}.
Definition reader_8 : TableReader := fun _ _ k =>
  (OK, List.find (fun e => 0 <=? Compare (InternalKeyComparator BytewiseComparator) (fst e) k) [entry_d9; entry_e9]).
Definition read_e (filters : gmap Z bytes) : option (Status * bytes) :=
  '(s, st) ← Version_Get BytewiseComparator reader_8 (fun n => filters !! n) (InternalFilterPolicy (BloomFilterPolicy 10)) version_8
    (mkLookupKey [Byte.x65] 10) [];
  Some (s, g_value st).

(** A read error while the filters are built hides keys for good: the loop over
    the table ends at the error, whose status nobody looks at, and the filter of
    the keys before it is installed.  When the table can be read again, a lookup
    of a key behind the error reports NotFound, where it finds the value without
    the filter. *)
Theorem read_error_hides_keys : exists filters,
  PopulateFileLevelBloomFilter (Some (InternalFilterPolicy (BloomFilterPolicy 10))) FlakyTable (fun _ _ => 0%nat) 5 version_8 ∅ = Some filters /\
  read_e filters = Some (NotFound [], []) /\ read_e ∅ = Some (OK, snd entry_e9).
Proof. eexists. split; [vm_compute; reflexivity|]. split; vm_compute; reflexivity. Qed.
