(* ===== verification/CompactionInput.v ===== *)
(** * The input of a compaction (db/version_set.cc:
    MakeInputIteratorForGuardsInALevel)

    A compaction reads the guards and sentinel files it was given, level by
    level, through the level iterators that reads use too.  The theorem closes
    the gap between the choice of a compaction and its work: from a version
    whose levels can be scanned, the iterator of the compaction that
    PickCompactionForGuards chooses walks exactly the entries of its inputs. *)

From Stdlib Require Import ZArith Lia Bool.
From stdpp Require Import base list sorting.
From S2P Require Import Prelude Coding Comparator DbFormat Status Iterator Merger TwoLevel VersionEdit Guards VersionBuilder VersionBuilderSpec.
From S2P Require Import VersionGet LevelIter Compaction MemIter DbIter Reads.

Set Default Goal Selector "!".
Local Open Scope Z_scope.
#[local] Arguments Compare : simpl never.

Section Input.
Context `{!StdHeap} (ucmp : Comparator).
Notation icmp := (InternalKeyComparator ucmp).
Context (T : IterOps) (table_NewIterator : Z -> Z -> St T) (fuel : nat).

(** The child for inputs_[which]. *)
Definition input_child (inputs : list FileMetaData) (guards : list GuardMetaData) (sentinels : list FileMetaData)
    : list (St (LevelIterator ucmp T table_NewIterator fuel)) :=
  match inputs with
  | [] => []
  | _ :: _ => [new_TwoLevelIterator (LevelGuardNum ucmp) (Merged icmp T) (new_LevelGuardNumIterator guards sentinels 0)]
  end.

Definition MakeInputIteratorForGuardsInALevel (c : Compaction) : St (Merged icmp (LevelIterator ucmp T table_NewIterator fuel)) :=
  NewMergingIterator icmp (LevelIterator ucmp T table_NewIterator fuel)
    (input_child (fst (c_inputs c)) (fst (c_guard_inputs c)) (fst (c_sentinel_inputs c)) ++
     input_child (snd (c_inputs c)) (snd (c_guard_inputs c)) (snd (c_sentinel_inputs c))).
End Input.

(** ** The guards a compaction takes, in the order of the level *)
Record selected (guards guards' : list GuardMetaData) (idx : list nat) : Prop := {
  se_length : length idx = length guards';
  se_lookup k g' : guards' !! k = Some g' -> exists i g, idx !! k = Some i /\ guards !! i = Some g /\
    gm_guard_key g' = gm_guard_key g /\ guard_files g' `sublist_of` guard_files g /\ guard_listed g';
  se_order j k a b : (j < k)%nat -> idx !! j = Some a -> idx !! k = Some b -> (a < b)%nat;
}.

Section Selection.
Context (ucmp : Comparator) `{Hucmp : !ComparatorOk ucmp all_keys}.

Lemma find_guard_from_spec n : forall i guards key, let '(r, i') := find_guard_from ucmp n i guards key in
  (i <= i')%nat /\ forall j, r = Some j -> (i <= j < i')%nat.
Proof.
  induction n as [|n IH]; intros i guards key; cbn [find_guard_from]; [split; [lia|done]|].
  destruct (guards !! i) as [g|]; [|split; [lia|done]]. destruct (Compare ucmp (guard_ukey g) key =? 0); [split; [lia|intros j [= <-]; lia]|].
  destruct (0 <? Compare ucmp (guard_ukey g) key); [split; [lia|done]|].
  specialize (IH (S i) guards key). destruct (find_guard_from ucmp n (S i) guards key) as [r i']. destruct IH as [H1 H2]. split; [lia|].
  intros j Hj. specialize (H2 j Hj). lia.
Qed.

(** The indices of the guards that are added ascend. *)
Lemma guards_to_add_indices which force scores guards complete : forall iter,
  exists idx, Forall2 (fun i ga => guards !! i = Some (fst ga)) idx (guards_to_add ucmp which force scores guards complete iter) /\
    Forall (fun i => (iter <= i)%nat) idx /\ forall j k a b, (j < k)%nat -> idx !! j = Some a -> idx !! k = Some b -> (a < b)%nat.
Proof.
  induction complete as [|cg complete IH]; intros iter; cbn [guards_to_add]; [exists []; repeat split; [constructor|constructor|done]|].
  pose proof (find_guard_from_spec (length guards) iter guards (guard_ukey cg)) as Hfind.
  destruct (find_guard_from ucmp (length guards) iter guards (guard_ukey cg)) as [r iter']. destruct Hfind as [Hle Hr].
  destruct (IH iter') as (idx & H1 & H2 & H3).
  assert (exists idx0, Forall2 (fun i ga => guards !! i = Some (fst ga)) idx0 (guards_to_add ucmp which force scores guards complete iter') /\
    Forall (fun i => (iter <= i)%nat) idx0 /\ forall j k a b, (j < k)%nat -> idx0 !! j = Some a -> idx0 !! k = Some b -> (a < b)%nat) as Hrest.
  { exists idx. split; [done|]. split; [eapply Forall_impl; [exact H2|]; cbn; lia|done]. }
  destruct r as [i|]; cbn [mbind option_bind]; [|exact Hrest]. destruct (guards !! i) as [g|] eqn:Eg; cbn [mbind option_bind]; [|exact Hrest].
  specialize (Hr i eq_refl).
  assert (forall add, exists idx0, Forall2 (fun i ga => guards !! i = Some (fst ga)) idx0 ((g, add) :: guards_to_add ucmp which force scores guards complete iter') /\
    Forall (fun i => (iter <= i)%nat) idx0 /\ forall j k a b, (j < k)%nat -> idx0 !! j = Some a -> idx0 !! k = Some b -> (a < b)%nat) as Hadd.
  { intros add. exists (i :: idx). split; [by constructor|]. split; [constructor; [lia|eapply Forall_impl; [exact H2|]; cbn; lia]|].
    intros [|j] [|k] a b Hjk Ha Hb; [lia| |lia|apply (H3 j k); [lia|done..]]. injection Ha as <-. cbn in Hb. rewrite Forall_lookup in H2. specialize (H2 k b Hb). cbn in H2. lia. }
  destruct (existsb _ _); [apply Hadd|]. destruct (_ && _); [apply Hadd|exact Hrest].
Qed.

Section Sub.
Context (dom : bytes -> Prop) (T : IterOps) (table_NewIterator : Z -> Z -> St T) (file_entries : Z -> list entry).
Context (guards guards' : list GuardMetaData) (sentinels sentinels' : list FileMetaData) (idx : list nat).
Context (HL : level_scannable ucmp dom T table_NewIterator file_entries guards sentinels).
Context (Hsel : selected guards guards' idx) (Hsent : sentinels' `sublist_of` sentinels).

(** A key in the part of a guard that is taken. *)
Lemma selected_slot k i u : idx !! k = Some i -> guard_slot ucmp guards u = S i -> guard_slot ucmp guards' u = S k.
Proof.
  intros Hk Hslot. pose proof (lookup_lt_Some _ _ _ Hk) as Hlt. rewrite (se_length _ _ _ Hsel) in Hlt. apply prefix_len_unique; [done|..].
  - intros j g' Hj Hg'. destruct (se_lookup _ _ _ Hsel j g' Hg') as (a & g & Ha & Hg & Ekey & _).
    assert (a < S i)%nat as Hai. { destruct (Nat.eq_dec j k) as [->|]; [rewrite Hk in Ha; injection Ha; lia|]. specialize (se_order _ _ _ Hsel j k a i ltac:(lia) Ha Hk). lia. }
    unfold guard_slot in Hslot. rewrite <- Hslot in Hai. pose proof (prefix_len_before _ _ _ _ Hai Hg) as H.
    unfold guard_at_or_before, guard_ukey in *. by rewrite Ekey.
  - intros g' Hg'. destruct (se_lookup _ _ _ Hsel (S k) g' Hg') as (a & g & Ha & Hg & Ekey & _). pose proof (se_order _ _ _ Hsel k (S k) i a ltac:(lia) Hk Ha) as Hia.
    unfold guard_at_or_before, guard_ukey. rewrite Ekey. fold (guard_ukey g). fold (guard_at_or_before ucmp u g).
    destruct (guard_at_or_before ucmp u g) eqn:E; [|done]. apply (prefix_len_closed _ guards a g) in E; [|by apply guard_at_or_before_closed, (ls_guards _ _ _ _ _ _ _ HL)|done].
    unfold guard_slot in Hslot. lia.
Qed.

(** A key before the first guard of the level. *)
Lemma selected_slot_0 u : guard_slot ucmp guards u = 0%nat -> guard_slot ucmp guards' u = 0%nat.
Proof.
  intros Hslot. apply prefix_len_unique; [lia|intros i g' Hi; lia|]. intros g' Hg'. destruct (se_lookup _ _ _ Hsel 0%nat g' Hg') as (a & g & Ha & Hg & Ekey & _).
  unfold guard_at_or_before, guard_ukey. rewrite Ekey. fold (guard_ukey g). fold (guard_at_or_before ucmp u g).
  destruct (guard_at_or_before ucmp u g) eqn:E; [|done]. apply (prefix_len_closed _ guards a g) in E; [|by apply guard_at_or_before_closed, (ls_guards _ _ _ _ _ _ _ HL)|done].
  unfold guard_slot in Hslot. lia.
Qed.

(** The parts of the selection are sublists of parts of the level. *)
Lemma selected_part k fs' : parts guards' sentinels' !! k = Some fs' -> exists i fs, parts guards sentinels !! i = Some fs /\ fs' `sublist_of` fs /\
  forall u, guard_slot ucmp guards u = i -> guard_slot ucmp guards' u = k.
Proof.
  destruct k as [|k]; cbn [parts].
  - intros [= <-]. exists 0%nat, sentinels. split; [done|]. split; [done|]. apply selected_slot_0.
  - intros H. change (map guard_files guards' !! k = Some fs') in H. rewrite list_lookup_fmap in H. apply fmap_Some in H as (g' & Hg' & ->).
    destruct (se_lookup _ _ _ Hsel k g' Hg') as (i & g & Hi & Hg & _ & Hsub & _). exists (S i), (guard_files g). split; [by apply guard_part|]. split; [done|].
    intros u. by apply selected_slot.
Qed.

Lemma part_entries_sublist fs' fs : fs' `sublist_of` fs -> part_entries file_entries fs' `sublist_of` part_entries file_entries fs.
Proof.
  unfold part_entries. induction 1 as [|f fs' fs _ IH|f fs' fs _ IH]; cbn [map concat]; [constructor|by apply sublist_app|by apply sublist_inserts_l].
Qed.

Lemma selected_count : (length guards' <= length guards)%nat.
Proof.
  destruct (length guards') as [|n] eqn:En; [lia|].
  assert (forall k i, idx !! k = Some i -> (k <= i)%nat) as Hge.
  { induction k as [|k IHk]; intros i Hi; [lia|]. destruct (lookup_lt_is_Some_2 idx k) as [j Hj]; [apply lookup_lt_Some in Hi; lia|].
    specialize (IHk j Hj). pose proof (se_order _ _ _ Hsel k (S k) j i ltac:(lia) Hj Hi). lia. }
  destruct (lookup_lt_is_Some_2 guards' n) as [g' Hg']; [lia|]. destruct (se_lookup _ _ _ Hsel n g' Hg') as (i & g & Hi & Hg & _).
  apply Hge in Hi. apply lookup_lt_Some in Hg. lia.
Qed.

Lemma selected_scannable : level_scannable ucmp dom T table_NewIterator file_entries guards' sentinels'.
Proof.
  pose proof selected_count as Hcount. destruct HL as [L1 L2 L3 L4 L5 L6 L7].
  assert (forall fs' : list FileMetaData, fs' ∈ parts guards' sentinels' -> exists fs, fs ∈ parts guards sentinels /\ fs' `sublist_of` fs) as Hsub.
  { intros fs' [k Hk]%list_elem_of_lookup. destruct (selected_part k fs' Hk) as (i & fs & Hi & Hs & _). exists fs. split; [by eapply list_elem_of_lookup_2|done]. }
  split.
  - intros i j a b Hij Ha Hb. destruct (se_lookup _ _ _ Hsel i a Ha) as (i0 & a0 & Hi0 & Ha0 & Ka & _), (se_lookup _ _ _ Hsel j b Hb) as (j0 & b0 & Hj0 & Hb0 & Kb & _).
    unfold guard_ukey. rewrite Ka, Kb. apply (L1 i0 j0 a0 b0); [|done..]. by apply (se_order _ _ _ Hsel i j).
  - unfold len in *. lia.
  - apply Forall_lookup. intros k g' Hg'. by destruct (se_lookup _ _ _ Hsel k g' Hg') as (i & g & _ & _ & _ & _ & Hl).
  - intros fs' f Hfs' Hf. destruct (Hsub fs' Hfs') as (fs & Hfs & Hs). apply (L4 fs f Hfs). eapply elem_of_submseteq; [exact Hf|by apply sublist_submseteq].
  - intros fs' Hfs'. destruct (Hsub fs' Hfs') as (fs & Hfs & Hs). specialize (L5 fs Hfs). apply sublist_length in Hs. unfold len in *. lia.
  - intros k fs' e Hk He. destruct (selected_part k fs' Hk) as (i & fs & Hi & Hs & Hslot). apply Hslot. apply (L6 i fs e Hi).
    eapply elem_of_submseteq; [exact He|]. apply sublist_submseteq. by apply part_entries_sublist.
  - intros fs' Hfs'. destruct (Hsub fs' Hfs') as (fs & Hfs & Hs). specialize (L7 fs Hfs). eapply sublist_NoDup; [exact L7|].
    apply (fmap_sublist fst). by apply part_entries_sublist.
Qed.
End Sub.
End Selection.

(** ** What PickCompactionForGuards chooses *)
Section Picked.
Context (ucmp : Comparator) `{Hucmp : !ComparatorOk ucmp all_keys}.
Notation icmp := (InternalKeyComparator ucmp).

Lemma filter_sublist {A} (p : A -> bool) (l : list A) : List.filter p l `sublist_of` l.
Proof. induction l as [|x l IH]; cbn [List.filter]; [constructor|]. destruct (p x); by constructor. Qed.

Lemma pick_inputs_selected v s level which horizontal force complete inputs guards' sentinels' : Forall guard_listed (level_of (v_guards v) (level + which)) ->
  pick_inputs ucmp v s level which horizontal force complete = (inputs, guards', sentinels') ->
  (exists idx, selected (level_of (v_guards v) (level + which)) guards' idx) /\ sentinels' `sublist_of` level_of (v_sentinel_files v) (level + which) /\
  inputs = concat (parts guards' sentinels').
Proof.
  intros Hlisted. unfold pick_inputs. cbv zeta.
  set (guards := level_of (v_guards v) (level + which)) in *. set (sent := level_of (v_sentinel_files v) (level + which)).
  destruct (guards_to_add_indices ucmp which force (nth (level + which) (guard_compaction_scores s) []) guards complete 0) as (idx & H1 & _ & H3).
  set (chosen := guards_to_add _ _ _ _ _ _ _) in *. intros [= <- <- <-]. split; [|split; [|done]].
  - exists idx. split; [by rewrite length_map; eapply Forall2_length| |done].
    intros k g' Hk. rewrite list_lookup_fmap in Hk. apply fmap_Some in Hk as ([g add] & Hg & ->).
    destruct (Forall2_lookup_r _ _ _ _ _ H1 Hg) as (i & Hi & Hgi). cbn [fst] in Hgi. exists i, g. split; [done|]. split; [done|].
    destruct horizontal.
    + cbn [gm_guard_key]. unfold guard_listed, guard_files. cbn [gm_number_segments gm_file_metas gm_files]. unfold len. rewrite Nat2Z.id.
      rewrite !take_ge by (rewrite ?length_map; lia). split; [done|]. split; [apply filter_sublist|]. rewrite ?take_ge by (rewrite ?length_map; lia). reflexivity.
    + split; [done|]. split; [done|]. rewrite Forall_lookup in Hlisted. by apply (Hlisted i).
  - destruct (_ || _); [|apply sublist_nil_l]. destruct horizontal; [apply filter_sublist|done].
Qed.

Context `{Hheap : !StdHeap} `{Hheapok : !StdHeapOk} (dom : bytes -> Prop) (Hdom : forall k, dom k -> is_ikey k) `{Hicmp : !ComparatorOk icmp dom}.
Context (T : IterOps) (table_NewIterator : Z -> Z -> St T) (file_entries : Z -> list entry) (fuel : nat).
Notation LI := (LevelIterator ucmp T table_NewIterator fuel).

(** The entries a child walks are those of its files, and they have distinct keys. *)
Definition child_walks (inputs : list FileMetaData) (guards : list GuardMetaData) (sentinels : list FileMetaData) : Prop :=
  exists ls l, Forall2 (fun l s => iterates LI icmp dom l s None) ls (input_child ucmp T table_NewIterator fuel inputs guards sentinels) /\
    concat ls = l /\ Forall (sorted_keys icmp) ls /\ NoDup (map fst l) /\ Forall (fun e => dom (fst e)) l /\
    forall e, e ∈ l <-> exists f, f ∈ inputs /\ e ∈ file_entries (fm_number f).

(** The child of one level. *)
Lemma input_child_ok guards sentinels inputs : level_scannable ucmp dom T table_NewIterator file_entries guards sentinels ->
  inputs = concat (parts guards sentinels) -> (length guards + 3 < fuel)%nat -> child_walks inputs guards sentinels.
Proof.
  intros HL -> Hf. unfold child_walks. pose proof (level_sorted ucmp dom Hdom T table_NewIterator file_entries guards sentinels HL) as Hs.
  pose proof (level_dom ucmp dom T table_NewIterator file_entries guards sentinels HL) as Hd.
  destruct (concat (parts guards sentinels)) as [|f0 fs] eqn:Ei; cbn [input_child].
  - exists [], []. split; [constructor|]. split; [done|]. split; [constructor|]. split; [constructor|]. split; [constructor|].
    intros e. split; [by intros ?%elem_of_nil|]. by intros (f & ?%elem_of_nil & _).
  - rewrite <- Ei. exists [level_entries ucmp file_entries guards sentinels], (level_entries ucmp file_entries guards sentinels).
    split; [constructor; [|constructor]; by apply LevelIterator_ok|]. split; [cbn [concat]; apply app_nil_r|]. split; [by constructor|].
    split; [by apply (sorted_keys_NoDup icmp dom)|]. split; [done|].
    intros e. rewrite level_elem. split.
    + intros (fs' & f & Hfs & Hf' & He). exists f. split; [|done]. apply list_elem_of_In, in_concat. exists fs'. split; by apply list_elem_of_In.
    + intros (f & Hf' & He). apply list_elem_of_In, in_concat in Hf' as (fs' & Hfs & Hf'). exists fs', f. split; [by apply list_elem_of_In|]. split; [by apply list_elem_of_In|done].
Qed.

(** One of the two levels of the compaction. *)
Lemma pick_input_child v s level which horizontal force complete inputs guards' sentinels' :
  level_scannable ucmp dom T table_NewIterator file_entries (level_of (v_guards v) (level + which)) (level_of (v_sentinel_files v) (level + which)) ->
  (length (level_of (v_guards v) (level + which)) + 3 < fuel)%nat ->
  pick_inputs ucmp v s level which horizontal force complete = (inputs, guards', sentinels') -> 
  child_walks inputs guards' sentinels' /\
  forall f, f ∈ inputs -> f ∈ concat (parts (level_of (v_guards v) (level + which)) (level_of (v_sentinel_files v) (level + which))).
Proof.
  intros HL Hf E. destruct (pick_inputs_selected _ _ _ _ _ _ _ _ _ _ (ls_listed _ _ _ _ _ _ _ HL) E) as ((idx & Hsel) & Hsent & Ei).
  split.
  - apply input_child_ok; [by eapply selected_scannable|done|]. pose proof (selected_count _ _ _ Hsel). lia.
  - intros f. rewrite Ei. intros (fs' & Hfs' & Hf')%list_elem_of_In%in_concat. apply list_elem_of_In in Hfs', Hf'. apply list_elem_of_lookup in Hfs' as [k Hk].
    destruct (selected_part ucmp dom T table_NewIterator file_entries _ _ _ _ idx HL Hsel Hsent k fs' Hk) as (i & fs & Hi & Hs & _).
    apply list_elem_of_In, in_concat. exists fs. split; [by eapply list_elem_of_In, list_elem_of_lookup_2|].
    apply list_elem_of_In. eapply elem_of_submseteq; [exact Hf'|by apply sublist_submseteq].
Qed.

Definition files_of_level (v : Version) (level : nat) : list FileMetaData := concat (parts (level_of (v_guards v) level) (level_of (v_sentinel_files v) level)).
Definition level_ready (v : Version) (level : nat) : Prop :=
  level_scannable ucmp dom T table_NewIterator file_entries (level_of (v_guards v) level) (level_of (v_sentinel_files v) level) /\
  (length (level_of (v_guards v) level) + 3 < fuel)%nat.

(** C9. The input of a compaction is exactly its files.  When the two levels of
    a version can be scanned (guards sorted, every entry in the part of its
    guard, fewer than 1024 files in a part, every table iterator walking its
    file) and no key is in both, the iterator MakeInputIteratorForGuardsInALevel makes for the compaction that
    PickCompactionForGuards chose, horizontal or not, walks the entries of the
    chosen files and no others, in the order of the internal keys, from an
    initial position that is not valid; and the chosen files are files of the
    two levels. *)
Theorem compaction_reads_its_inputs (cur : Current) (level : nat) (force : bool) (c : Compaction) (complete : list GuardMetaData) :
  level_ready (cur_version cur) level -> level_ready (cur_version cur) (S level) ->
  (forall f g a b, f ∈ files_of_level (cur_version cur) level -> g ∈ files_of_level (cur_version cur) (S level) ->
    a ∈ file_entries (fm_number f) -> b ∈ file_entries (fm_number g) -> fst a <> fst b) ->
  PickCompactionForGuards ucmp cur level force = (Some c, complete) ->
  exists l, sorted_keys icmp l /\
    iterates (Merged icmp LI) icmp dom l (MakeInputIteratorForGuardsInALevel ucmp T table_NewIterator fuel c) None /\
    (forall e, e ∈ l <-> exists f, f ∈ fst (c_inputs c) ++ snd (c_inputs c) /\ e ∈ file_entries (fm_number f)) /\
    (forall f, f ∈ fst (c_inputs c) -> f ∈ files_of_level (cur_version cur) level) /\
    (forall f, f ∈ snd (c_inputs c) -> f ∈ files_of_level (cur_version cur) (S level)).
Proof.
  intros [HL0 Hf0] [HL1 Hf1] Hdist. unfold PickCompactionForGuards. destruct (_ =? 0); [done|]. set (horizontal := if (level =? _)%nat then _ else _). cbv zeta.
  rewrite <- (Nat.add_0_r level) in HL0, Hf0. rewrite <- (Nat.add_1_r level) in HL1, Hf1.
  destruct (pick_inputs ucmp (cur_version cur) (cur_scores cur) level 0 horizontal force _) as [[i0 g0] s0] eqn:E0.
  destruct (pick_input_child _ _ _ _ _ _ _ _ _ _ HL0 Hf0 E0) as [(ls0 & l0 & C0 & L0 & S0 & N0 & D0 & M0) F0]. rewrite Nat.add_0_r in F0.
  set (in1 := if horizontal then _ else _).
  assert (let '(i1, g1, s1) := in1 in child_walks i1 g1 s1 /\ forall f, f ∈ i1 -> f ∈ files_of_level (cur_version cur) (S level)) as H1.
  { subst in1. destruct horizontal.
    - split; [|by intros f ?%elem_of_nil]. exists [], []. split; [constructor|]. repeat split; try constructor; [by intros ?%elem_of_nil|by intros (f & ?%elem_of_nil & _)].
    - destruct (pick_inputs ucmp (cur_version cur) (cur_scores cur) level 1 _ force _) as [[i1 g1] s1] eqn:E1.
      rewrite <- (Nat.add_1_r level). by apply (pick_input_child _ _ _ _ _ _ _ _ _ _ HL1 Hf1 E1). }
  clearbody in1. destruct in1 as [[i1 g1] s1]. destruct H1 as ((ls1 & l1 & C1 & L1 & S1 & N1 & D1 & M1) & F1). intros [= <- _].
  cbn [new_Compaction c_inputs fst snd].
  assert (forall e, e ∈ sort_entries ucmp (l0 ++ l1) <-> exists f, f ∈ i0 ++ i1 /\ e ∈ file_entries (fm_number f)) as Hl.
  { intros e. rewrite sort_entries_perm, elem_of_app, M0, M1. setoid_rewrite elem_of_app. clear. naive_solver. }
  assert (Forall (fun e => dom (fst e)) (l0 ++ l1)) as Hd by (by apply Forall_app).
  assert (sorted_keys icmp (sort_entries ucmp (l0 ++ l1))) as Hs.
  { apply sort_entries_sorted; [done|eapply Forall_impl; [exact Hd|]; intros e; apply Hdom|]. apply NoDup_map_app; [done..|].
    intros a b Ha Hb. apply M0 in Ha as (f & Hf & Ha). apply M1 in Hb as (g & Hg & Hb). by apply (Hdist f g); [apply F0|apply F1|..]. }
  exists (sort_entries ucmp (l0 ++ l1)). split; [done|]. split; [|by repeat split; try apply Hl].
  apply (merged_iterates icmp dom LI (ls0 ++ ls1)); [by apply Forall2_app|by apply Forall_app|done|by rewrite sort_entries_perm|].
  rewrite sort_entries_perm, concat_app. by subst l0 l1.
Qed.
End Picked.

(** Compaction of the level of file 7, asked for explicitly. *)
Definition current_7 : Current := {| cur_version := version_7; cur_scores := Finalize version_7; file_to_compact_ := None; file_to_compact_level_ := -1 |}.
#[local] Existing Instance SortedHeap.sorted_heap.

Lemma compaction_reads_its_inputs_witness : exists c complete,
  PickCompactionForGuards BytewiseComparator current_7 1 true = (Some c, complete) /\ fst (c_inputs c) = [file_7] /\
  exists l, iterates (Merged (InternalKeyComparator BytewiseComparator) (LevelIterator BytewiseComparator BlockOrError file_7_iterator 4)) (InternalKeyComparator BytewiseComparator) mem_seekable l
    (MakeInputIteratorForGuardsInALevel BytewiseComparator BlockOrError file_7_iterator 4 c) None /\ entry_d9 ∈ l.
Proof.
  destruct (PickCompactionForGuards BytewiseComparator current_7 1 true) as [[c|] complete] eqn:E; [|discriminate].
  exists c, complete. split; [done|].
  assert (fst (c_inputs c) = [file_7]) as Hc by (injection E as <- _; reflexivity). split; [done|].
  destruct (compaction_reads_its_inputs (Hheapok := SortedHeap.sorted_heap_ok) BytewiseComparator mem_seekable (fun k Hk => proj1 Hk) BlockOrError file_7_iterator file_7_entries 4 current_7 1 true c complete) as (l & _ & Hl & He & _); [split; [apply file_7_scannable|simpl; lia]|split; [apply file_7_scannable|simpl; lia]| |done|].
  - intros f g a b _ Hg. by apply elem_of_nil in Hg.
  - exists l. split; [exact Hl|]. apply He. exists file_7. rewrite Hc. split; [apply list_elem_of_here|]. vm_compute. constructor.
Defined.
