(* ===== verification/Background.v ===== *)
(** * Background compactions and their level locks (db/db_impl.cc:
    BackgroundCompactionGuards, CompactLevelThread, CompactRange of a level)

    A compaction thread chooses a compaction under mutex_, marks its two levels
    in levels_locked_, works without the mutex, and unmarks them.  The model
    has the choice and the marks, for any number of threads, manual compactions
    included; the work in between is the subject of CompactionInput and
    CompactionWork. *)

From Stdlib Require Import ZArith Lia Bool.
From stdpp Require Import base list gmap relations.
From S2P Require Import Prelude Comparator DbFormat Status VersionEdit Guards VersionBuilder Compaction.

Set Default Goal Selector "!".
Local Open Scope Z_scope.

Notation levels := (Z.to_nat kNumLevels).

(** A manual compaction, as TEST_CompactRange asks for it. *)
Record ManualCompaction := { m_level : nat; m_done : bool; m_begin : option bytes; m_end : option bytes }.
Definition with_done (d : bool) (m : ManualCompaction) : ManualCompaction :=
  {| m_level := m_level m; m_done := d; m_begin := m_begin m; m_end := m_end m |}.
Definition with_begin (b : bytes) (m : ManualCompaction) : ManualCompaction :=
  {| m_level := m_level m; m_done := m_done m; m_begin := Some b; m_end := m_end m |}.

(** TEST_CompactRange's keys. *)
Definition new_ManualCompaction (level : nat) (begin end_ : option bytes) : ManualCompaction :=
  {| m_level := level; m_done := false; m_begin := (fun k => InternalKey k kMaxSequenceNumber kValueTypeForSeek) <$> begin;
     m_end := (fun k => InternalKey k 0 0) <$> end_ |}.

Record Background := {
  levels_locked_ : list bool;
  manual_compaction_ : option ManualCompaction;
  bg_current : Current;
}.

(** What a thread holds while it works. *)
Record Running := { r_compaction : option Compaction; r_guards : list GuardMetaData; r_manual : bool; r_manual_end : bytes }.

Section Background.
Context (ucmp : Comparator).

(** levels_locked_[level] = true, with the assertion before it. *)
Definition lock_level (level : nat) (locked : list bool) : option (list bool) :=
  l ← locked !! level; if (l : bool) then None else Some (<[level := true]> locked).

(** The marks of a new compaction. *)
Definition lock_levels (level : nat) (locked : list bool) : option (list bool) :=
  l ← locked !! level;
  if (l : bool) then None
  else
    locked ← (if (level + 1 <? levels)%nat then lock_level (level + 1) locked else Some locked);
    Some (<[level := true]> locked).

(** The first half of BackgroundCompactionGuards; None: an assertion fails, or
    an array is read past its end. *)
Definition begin_compaction (seek_driven : bool) (st : Background) : option (Running * Background) :=
  match manual_compaction_ st with
  | Some m =>
      match CompactRange ucmp (cur_version (bg_current st)) (m_level m) (m_begin m) (m_end m) with
      | Returned c =>
          let m := with_done (match c with None => true | Some _ => false end) m in
          manual_end ← match c with None => Some [] | Some c => fm_largest <$> last (fst (c_inputs c)) end;
          Some ({| r_compaction := c; r_guards := []; r_manual := true; r_manual_end := manual_end |},
                {| levels_locked_ := levels_locked_ st; manual_compaction_ := Some m; bg_current := bg_current st |})
      | _ => None
      end
  | None =>
      '(level, force_compact, current) ← PickCompactionLevel (levels_locked_ st) (bg_current st) seek_driven;
      let '(c, guards) := if (level =? levels)%nat then (None, []) else PickCompactionForGuards ucmp current level force_compact in
      locked ← match c with None => Some (levels_locked_ st) | Some c => lock_levels (c_level c) (levels_locked_ st) end;
      Some ({| r_compaction := c; r_guards := guards; r_manual := false; r_manual_end := [] |},
            {| levels_locked_ := locked; manual_compaction_ := None; bg_current := current |})
  end.

(** Both marks are removed; the flag tells whether both are in the array. *)
Definition unlock_levels (level : nat) (locked : list bool) : list bool * bool :=
  (<[(level + 1)%nat := false]> (<[level := false]> locked), (level + 1 <? length locked)%nat).

(** What the caller of a manual compaction finds in its object. *)
Definition manual_left (r : Running) (status : Status) (m : ManualCompaction) : ManualCompaction :=
  let m := if ok status then m else with_done true m in
  if m_done m then m else with_begin (r_manual_end r) m.
(** The second half, after the work ended with [status]: the state, the flag of
    unlock_levels and the object of a manual compaction as its caller finds it.
    None: manual_compaction_, which a manual compaction looks at again, is NULL. *)
Definition end_compaction (r : Running) (status : Status) (st : Background) : option (Background * bool * option ManualCompaction) :=
  let '(locked, in_range) := match r_compaction r with None => (levels_locked_ st, true) | Some c => unlock_levels (c_level c) (levels_locked_ st) end in
  '(manual, rest) ← (if r_manual r then m ← manual_compaction_ st; Some (None, Some (manual_left r status m)) else Some (manual_compaction_ st, None));
  Some ({| levels_locked_ := locked; manual_compaction_ := manual; bg_current := bg_current st |}, in_range, rest).
End Background.

(** ** Threads *)
Record BgState := { bg : Background; running : gmap nat Running }.
Definition with_manual (m : option ManualCompaction) (st : Background) : Background :=
  {| levels_locked_ := levels_locked_ st; manual_compaction_ := m; bg_current := bg_current st |}.
Definition with_bg_current (c : Current) (st : Background) : Background :=
  {| levels_locked_ := levels_locked_ st; manual_compaction_ := manual_compaction_ st; bg_current := c |}.

Section Threads.
(** num_bg_compaction_threads_ *)
Context (ucmp : Comparator) (threads : nat).

(** A manual compaction is started only when there is one compaction thread
    (assert(manual_compaction_ == NULL || num_bg_threads_ == 2)); a version can
    be installed at any time by the memtable thread and by the work of
    compactions; TEST_CompactRange sets manual_compaction_ and, when the
    database shuts down or has failed, withdraws it. *)
Inductive bg_step : BgState -> BgState -> Prop :=
  | bg_begin s tid seek_driven r st' : (tid < threads)%nat -> running s !! tid = None -> (manual_compaction_ (bg s) = None \/ threads = 1%nat) ->
      begin_compaction ucmp seek_driven (bg s) = Some (r, st') -> bg_step s {| bg := st'; running := <[tid := r]> (running s) |}
  | bg_end s tid r status st' in_range rest : running s !! tid = Some r -> end_compaction r status (bg s) = Some (st', in_range, rest) ->
      bg_step s {| bg := st'; running := delete tid (running s) |}
  | bg_install s c : bg_step s {| bg := with_bg_current c (bg s); running := running s |}
  | bg_request s m : (m_level m + 1 < levels)%nat -> manual_compaction_ (bg s) = None -> bg_step s {| bg := with_manual (Some m) (bg s); running := running s |}
  | bg_withdraw s : bg_step s {| bg := with_manual None (bg s); running := running s |}.

Definition new_Background (c : Current) : BgState :=
  {| bg := {| levels_locked_ := replicate levels false; manual_compaction_ := None; bg_current := c |}; running := ∅ |}.

(** The levels a compaction reads and writes. *)
Definition uses (c : Compaction) (l : nat) : Prop := (l < levels)%nat /\ (l = c_level c \/ l = c_level c + 1)%nat.

(** ** What PickCompactionLevel returns is not locked *)
Definition free_at (locked : list bool) (level : nat) : Prop :=
  (level < levels)%nat /\ locked !! level = Some false /\ ((level + 1 < levels)%nat -> locked !! (level + 1)%nat = Some false).

Lemma lock_Some locked z b : lock locked z = Some b -> 0 <= z /\ locked !! Z.to_nat z = Some b.
Proof. unfold lock. by destruct (Z.ltb_spec z 0). Qed.

Lemma both_free locked level : length locked = levels -> (a ← lock locked level; b ← (if a : bool then Some true else lock locked (level + 1)); Some b) = Some false ->
  free_at locked (Z.to_nat level).
Proof.
  intros Hlen. destruct (lock locked level) as [[|]|] eqn:E1; cbn [mbind option_bind]; [done| |done]. destruct (lock locked (level + 1)) as [[|]|] eqn:E2; [done| |done]. intros _.
  apply lock_Some in E1 as [H0 E1], E2 as [_ E2]. pose proof (lookup_lt_Some _ _ _ E1). split; [lia|]. split; [done|]. intros _. by replace (Z.to_nat level + 1)%nat with (Z.to_nat (level + 1)) by lia.
Qed.

Lemma first_full_level_free locked scores n : length locked = levels -> forall i level, first_full_level locked scores n i = Some level -> level = levels \/ free_at locked level.
Proof.
  intros Hlen. induction n as [|n IH]; intros i level; cbn [first_full_level]; [intros [= <-]; by left|]. pose proof (both_free locked (Z.of_nat i) Hlen) as Hfree.
  destruct (lock locked (Z.of_nat i)) as [a|] eqn:Ea; [|done]. cbn [mbind option_bind] in *. replace (Z.of_nat (i + 1)) with (Z.of_nat i + 1) by lia.
  destruct (if a then Some true else lock locked (Z.of_nat i + 1)) as [[|]|] eqn:Eb; cbn [mbind option_bind] in *; [by apply IH| |done].
  destruct (_ && _); [|by apply IH]. intros [= <-]. right. rewrite Nat2Z.id in Hfree. by apply Hfree.
Qed.

Lemma force_loop_free locked c n : length locked = levels -> forall nh count i, force_loop locked c n nh count = Some (Some i) -> free_at locked i.
Proof.
  intros Hlen. induction n as [|n IH]; intros nh count i; cbn [force_loop]; [done|]. destruct (Nat.leb_spec (levels - 1) n); [by apply IH|]. pose proof (both_free locked (Z.of_nat n) Hlen) as Hfree.
  destruct (lock locked (Z.of_nat n)) as [a|] eqn:Ea; [|done]. cbn [mbind option_bind] in *. replace (Z.of_nat (n + 1)) with (Z.of_nat n + 1) by lia.
  destruct (if a then Some true else lock locked (Z.of_nat n + 1)) as [[|]|] eqn:Eb; cbn [mbind option_bind orb] in *; [by apply IH| |done].
  destruct (len _ =? 0); [by apply IH|]. destruct (TotalFileSize _ =? 0); [by apply IH|]. destruct (_ || _); [|by apply IH].
  match goal with |- context [let '(_, _) := ?x in _] => destruct x as [nh' count'] end. destruct nh'; [by apply IH|]. intros [= <-]. rewrite Nat2Z.id in Hfree. by apply Hfree.
Qed.

Lemma PickCompactionLevel_free locked c seek level force c' : length locked = levels -> PickCompactionLevel locked c seek = Some (level, force, c') -> level = levels \/ free_at locked level.
Proof.
  intros Hlen. unfold PickCompactionLevel. destruct (first_full_level locked _ 5 1) as [l0|] eqn:E0; [|done]. cbn [mbind option_bind]. apply (first_full_level_free locked _ 5 Hlen) in E0.
  match goal with |- context [(if seek && _ then ?x else ?y) ≫= _] => set (second := if seek && (l0 =? levels)%nat then x else y) end.
  assert (forall l1 c1, second = Some (l1, c1) -> l1 = levels \/ free_at locked l1) as H1.
  { intros l1 c1. subst second. destruct (seek && _); [|by intros [= <- _]]. destruct (file_to_compact_ c); [|by intros [= <- _]]. pose proof (both_free locked (file_to_compact_level_ c) Hlen) as Hfree.
    destruct (lock locked (file_to_compact_level_ c)) as [a|]; [|done]. cbn [mbind option_bind] in *. destruct (if a then Some true else lock locked (file_to_compact_level_ c + 1)) as [[|]|]; cbn [mbind option_bind] in *; [by intros [= <- _]| |done].
    intros [= <- _]. right. by apply Hfree. }
  destruct second as [[l1 c1]|]; [|done]. specialize (H1 l1 c1 eq_refl). cbn [mbind option_bind]. destruct (lock locked (kNumLevels - 1)) as [last|] eqn:El; [|done]. cbn [mbind option_bind].
  set (l2 := if _ && negb last then _ else l1). assert (l2 = levels \/ free_at locked l2) as H2.
  { subst l2. destruct (_ && d_ge _ _); [|done]. destruct last; [done|]. cbn [negb andb]. right. apply lock_Some in El as [_ El]. split; [vm_compute; lia|]. split; [exact El|]. vm_compute. lia. }
  clearbody l2. destruct (lock locked 0) as [a0|] eqn:Ea; [|done]. destruct (lock locked 1) as [a1|] eqn:Eb; [|done]. cbn [mbind option_bind].
  set (l3 := if negb a0 && _ && _ && _ then _ else l2). assert (l3 = levels \/ free_at locked l3) as H3.
  { subst l3. destruct a0, a1; cbn [negb andb]; try done. destruct (_ && _); [|done]. right. apply lock_Some in Ea as [_ Ea], Eb as [_ Eb]. split; [vm_compute; lia|]. split; [exact Ea|]. intros _. exact Eb. }
  clearbody l3. destruct (seek && _); [|by intros [= <- _ _]]. destruct (last_level_with_files _ _) as [max|]; [|by intros [= <- _ _]].
  destruct (force_loop _ _ _ _ _) as [[i|]|] eqn:Ef; cbn [mbind option_bind]; [|by intros [= <- _ _]|done]. intros [= <- _ _]. right. by eapply force_loop_free.
Qed.

Lemma PickCompactionForGuards_level c level force comp guards : PickCompactionForGuards ucmp c level force = (Some comp, guards) -> c_level comp = level.
Proof.
  unfold PickCompactionForGuards. destruct (_ =? 0); [done|]. cbv zeta. generalize (if (level =? levels - 1)%nat then true else if (level =? levels - 2)%nat then
    (0 <? TotalFileSize (level_of (v_files (cur_version c)) level)) && d_gt (d_of_Z (Z.quot (TotalFileSize (level_of (v_files (cur_version c)) (S level))) (TotalFileSize (level_of (v_files (cur_version c)) level)))) d_25 else false).
  intros hor. unfold new_Compaction. destruct (pick_inputs _ _ _ _ 0 _ _ _) as [[? ?] ?]. destruct hor; [by intros [= <- _]|]. destruct (pick_inputs _ _ _ _ 1 _ _ _) as [[? ?] ?]. by intros [= <- _].
Qed.

Lemma CompactRange_level v level b e c : CompactRange ucmp v level b e = Returned (Some c) -> c_level c = level.
Proof.
  unfold CompactRange. destruct (GetOverlappingInputsGuards _ _ _ _ _) as [[[i0 g0] s0]| |]; [|done|done].
  destruct (GetOverlappingInputsGuards _ _ _ _ _) as [[[i1 g1] s1]| |]; [|done|done]. destruct i0; [done|]. by intros [= <-].
Qed.

Record bg_inv (s : BgState) : Prop := {
  bi_length : length (levels_locked_ (bg s)) = levels;
  bi_thread tid r : running s !! tid = Some r -> (tid < threads)%nat;
  bi_manual tid r : running s !! tid = Some r -> r_manual r = true -> threads = 1%nat;
  bi_level tid r c : running s !! tid = Some r -> r_compaction r = Some c -> (c_level c < levels)%nat;
  bi_locked l : levels_locked_ (bg s) !! l = Some true <-> exists tid r c, running s !! tid = Some r /\ r_manual r = false /\ r_compaction r = Some c /\ uses c l;
  bi_disjoint tid tid' r r' c c' l : tid <> tid' -> running s !! tid = Some r -> running s !! tid' = Some r' -> r_compaction r = Some c -> r_compaction r' = Some c' -> uses c l -> ~ uses c' l;
  bi_request m : manual_compaction_ (bg s) = Some m -> (m_level m + 1 < levels)%nat;
}.

Lemma lock_levels_spec level locked : length locked = levels -> free_at locked level -> exists locked', lock_levels level locked = Some locked' /\ length locked' = levels /\
  forall l, locked' !! l = Some true <-> locked !! l = Some true \/ ((l < levels)%nat /\ (l = level \/ l = level + 1)%nat).
Proof.
  intros Hlen (H1 & H2 & H3). unfold lock_levels, lock_level. rewrite H2. cbn [mbind option_bind].
  assert (forall (k : list bool) i l, length k = levels -> <[i := true]> k !! l = Some true <-> k !! l = Some true \/ ((l < levels)%nat /\ l = i)) as Hins.
  { intros k i l Hk. rewrite list_lookup_insert_Some. split; [intros [(-> & _ & ?)|[? ?]]; [right; lia|by left]|]. intros [Hl|[Hl ->]]; [|left; split; [done|]; split; [done|]; lia].
    destruct (decide (i = l)) as [<-|]; [left; split; [done|]; split; [done|]; by eapply lookup_lt_Some|by right]. }
  destruct (Nat.ltb_spec (level + 1) levels) as [Hlt|Hge].
  - rewrite (H3 Hlt). cbn [mbind option_bind]. eexists. split; [done|]. split; [by rewrite !length_insert|]. intros l. rewrite !Hins by (by rewrite ?length_insert). tauto.
  - cbn [mbind option_bind]. eexists. split; [done|]. split; [by rewrite length_insert|]. intros l. rewrite Hins by done. split; [tauto|]. intros [?|[? [?|?]]]; [by left|by right|lia].
Qed.

Lemma unlock_levels_spec level locked l : fst (unlock_levels level locked) !! l = Some true <-> locked !! l = Some true /\ ~ (l = level \/ l = level + 1)%nat.
Proof.
  unfold unlock_levels. cbn [fst]. destruct (decide (l = level + 1)%nat) as [->|H1].
  - split; [|intros [_ ?]; tauto]. destruct (decide (level + 1 < length (<[level:=false]> locked))%nat); [by rewrite list_lookup_insert_eq|]. by rewrite lookup_ge_None_2 by (rewrite length_insert; lia).
  - rewrite list_lookup_insert_ne by lia. destruct (decide (l = level)) as [->|H2].
    + split; [|intros [_ ?]; tauto]. destruct (decide (level < length locked)%nat); [by rewrite list_lookup_insert_eq|]. by rewrite lookup_ge_None_2 by (rewrite length_insert; lia).
    + rewrite list_lookup_insert_ne by done. tauto.
Qed.

(** begin_compaction, case by case. *)
Lemma begin_cases seek st r st' : begin_compaction ucmp seek st = Some (r, st') -> length (levels_locked_ st) = levels -> (forall m, manual_compaction_ st = Some m -> (m_level m + 1 < levels)%nat) ->
  length (levels_locked_ st') = levels /\ (forall m, manual_compaction_ st' = Some m -> (m_level m + 1 < levels)%nat) /\
  (forall c, r_compaction r = Some c -> (c_level c < levels)%nat) /\ (r_manual r = true -> is_Some (manual_compaction_ st)) /\
  (forall l, levels_locked_ st' !! l = Some true <-> levels_locked_ st !! l = Some true \/ exists c, r_manual r = false /\ r_compaction r = Some c /\ uses c l) /\
  (forall c l, r_manual r = false -> r_compaction r = Some c -> uses c l -> levels_locked_ st !! l = Some false).
Proof.
  intros E Hlen Hreq. unfold begin_compaction in E. destruct (manual_compaction_ st) as [m|] eqn:Em.
  - destruct (CompactRange ucmp _ _ _ _) as [c| |] eqn:Ec; [|done|done]. destruct (match c with None => Some [] | Some c => fm_largest <$> last (fst (c_inputs c)) end) as [me|]; [|done]. cbn [mbind option_bind] in E. injection E as <- <-.
    cbn [levels_locked_ manual_compaction_ r_compaction r_manual]. split; [done|]. split; [intros m' [= <-]; exact (Hreq m eq_refl)|]. split.
    { intros c' ->. apply CompactRange_level in Ec. rewrite Ec. specialize (Hreq m eq_refl). lia. }
    split; [by eexists|]. split; [|done]. intros l. split; [by left|]. intros [?|(? & ? & _)]; done.
  - destruct (PickCompactionLevel (levels_locked_ st) (bg_current st) seek) as [[[level force] cur]|] eqn:Ep; [|done]. cbn [mbind option_bind] in E. apply (PickCompactionLevel_free _ _ _ _ _ _ Hlen) in Ep.
    destruct (if (level =? levels)%nat then (None, []) else PickCompactionForGuards ucmp cur level force) as [c guards] eqn:Ec.
    destruct (match c with None => Some (levels_locked_ st) | Some c => lock_levels (c_level c) (levels_locked_ st) end) as [locked|] eqn:El; [|done]. cbn [mbind option_bind] in E. injection E as <- <-.
    cbn [levels_locked_ manual_compaction_ r_compaction r_manual]. destruct c as [c|]; [|injection El as <-; split; [done|]; split; [done|]; split; [done|]; split; [done|]; split; [|done]; intros l; split; [by left|]; by intros [?|(? & _ & ? & _)]].
    destruct (Nat.eqb_spec level levels) as [|Hne]; [done|]. destruct Ep as [?|Hfree]; [done|]. apply PickCompactionForGuards_level in Ec. subst level.
    destruct (lock_levels_spec _ _ Hlen Hfree) as (locked' & E' & Hlen' & Hl). rewrite E' in El. injection El as <-. split; [done|]. split; [done|]. split; [intros c' [= <-]; by apply Hfree|]. split; [done|]. split.
    + intros l. rewrite Hl. split; (intros [?|Hu]; [by left|right]); [exists c; split; [reflexivity|]; split; [reflexivity|exact Hu]|]. destruct Hu as (c' & _ & [= <-] & Hu). exact Hu.
    + intros c' l _ [= <-] [Hl' [-> | ->]]; [apply Hfree|by apply Hfree].
Qed.

(** With one thread only that thread runs. *)
Lemma one_thread s tid tid' r r' : bg_inv s -> threads = 1%nat -> running s !! tid = Some r -> running s !! tid' = Some r' -> tid = tid'.
Proof. intros HI Ht H1%(bi_thread _ HI) H2%(bi_thread _ HI). lia. Qed.

Lemma bg_inv_begin s tid seek r st' : bg_inv s -> (tid < threads)%nat -> running s !! tid = None -> (manual_compaction_ (bg s) = None \/ threads = 1%nat) ->
  begin_compaction ucmp seek (bg s) = Some (r, st') -> bg_inv {| bg := st'; running := <[tid := r]> (running s) |}.
Proof.
  intros HI Ht Hn Hm E. pose proof HI as [I1 I2 I3 I4 I5 I6 I7]. destruct (begin_cases _ _ _ _ E I1 I7) as (C1 & C2 & C3 & C4 & C5 & C6).
  assert (r_manual r = true -> threads = 1%nat) as Hman by (intros [m Em]%C4; destruct Hm; [congruence|done]).
  assert (forall t' r' c c' l, running s !! t' = Some r' -> r_compaction r = Some c -> r_compaction r' = Some c' -> uses c l -> ~ uses c' l) as Hnew.
  { intros t' r' c c' l Hr' Hc Hc' Hu Hu'. assert (threads <> 1%nat) as Hmany by (intros H1; apply I2 in Hr' as Ht'; assert (t' = tid) by lia; congruence).
    assert (r_manual r = false) as Hr by (destruct (r_manual r); [by destruct Hmany; apply Hman|done]). assert (r_manual r' = false) as Hr0 by (destruct (r_manual r') eqn:E'; [by destruct Hmany; apply (I3 t' r')|done]).
    pose proof (C6 c l Hr Hc Hu) as Hfree. assert (levels_locked_ (bg s) !! l = Some true) as Htrue by (apply I5; by exists t', r', c'). congruence. }
  split; cbn [bg running]; try done.
  - intros t' r'. rewrite lookup_insert. case_decide; [by intros; subst|by apply I2].
  - intros t' r'. rewrite lookup_insert. case_decide; [by intros [= <-]|by apply I3].
  - intros t' r' c. rewrite lookup_insert. case_decide; [by intros [= <-]; apply C3|by apply I4].
  - intros l. rewrite C5, I5. split.
    + intros [(t' & r' & c & H1 & H2)|(c & H2 & H3)]; [exists t', r', c; rewrite lookup_insert_ne by congruence; done|]. exists tid, r, c. by rewrite lookup_insert_eq.
    + intros (t' & r' & c & H1 & H2 & H3 & H4). rewrite lookup_insert in H1. case_decide; [injection H1 as <-; right; by exists c|left; by exists t', r', c].
  - intros t1 t2 r1 r2 c1 c2 l Hne. rewrite !lookup_insert. repeat case_decide; [congruence| | |by apply (I6 t1 t2)].
    + intros [= <-] H2 H3 H4. by apply (Hnew t2 r2).
    + intros H1 [= <-] H3 H4 H5 H6. by destruct (Hnew t1 r1 c2 c1 l H1 H4 H3 H6).
Qed.

Lemma bg_inv_end s tid r status st' in_range rest : bg_inv s -> running s !! tid = Some r -> end_compaction r status (bg s) = Some (st', in_range, rest) ->
  bg_inv {| bg := st'; running := delete tid (running s) |}.
Proof.
  intros HI Hr E. pose proof HI as [I1 I2 I3 I4 I5 I6 I7]. unfold end_compaction in E.
  set (pair := match r_compaction r with None => (levels_locked_ (bg s), true) | Some c => unlock_levels (c_level c) (levels_locked_ (bg s)) end) in E.
  assert (length (fst pair) = levels) as Hlen by (subst pair; destruct (r_compaction r); [unfold unlock_levels; cbn [fst]; by rewrite !length_insert|done]).
  assert (forall l, fst pair !! l = Some true <-> levels_locked_ (bg s) !! l = Some true /\ ~ exists c, r_compaction r = Some c /\ uses c l) as Hl.
  { intros l. subst pair. destruct (r_compaction r) as [c|].
    - rewrite unlock_levels_spec. split; intros [H1 H2]; (split; [done|]).
      + intros (c' & [= <-] & _ & Hu). tauto.
      + intros Hu. apply H2. exists c. split; [done|]. split; [|done]. apply lookup_lt_Some in H1. lia.
    - cbn [fst]. split; [|tauto]. intros H. split; [done|]. by intros (c & ? & _). }
  clearbody pair. destruct pair as [locked rng]. cbn [fst] in *.
  destruct (if r_manual r then m ← manual_compaction_ (bg s); Some (None, Some (manual_left r status m)) else Some (manual_compaction_ (bg s), None)) as [[manual lft]|] eqn:Em; [|done]. cbn [mbind option_bind] in E. injection E as <- _ _.
  assert (forall m, manual = Some m -> manual_compaction_ (bg s) = Some m) as Hmanual.
  { intros m ->. destruct (r_manual r); [|by injection Em]. destruct (manual_compaction_ (bg s)); done. }
  split; cbn [bg running levels_locked_ manual_compaction_]; try done.
  - intros t' r' [_ H]%lookup_delete_Some. by apply I2 in H.
  - intros t' r' [_ H]%lookup_delete_Some. by apply (I3 t' r').
  - intros t' r' c [_ H]%lookup_delete_Some. by apply (I4 t' r').
  - intros l. rewrite Hl, I5. split.
    + intros [(t' & r' & c & H1 & H2 & H3 & H4) Hno]. exists t', r', c. split; [|done]. apply lookup_delete_Some. split; [|done]. intros <-. apply Hno. exists c. rewrite Hr in H1. injection H1 as <-. done.
    + intros (t' & r' & c & [Hne H1]%lookup_delete_Some & H2 & H3 & H4). split; [by exists t', r', c|]. intros (c' & Hc' & Hu'). by apply (I6 tid t' r r' c' c l).
  - intros t1 t2 r1 r2 c1 c2 l Hne [_ H1]%lookup_delete_Some [_ H2]%lookup_delete_Some. by apply (I6 t1 t2).
  - intros m Hm. by apply I7, Hmanual.
Qed.

Lemma bg_inv_reachable c s : rtc bg_step (new_Background c) s -> bg_inv s.
Proof.
  intros Hr. apply (rtc_ind_r bg_inv (new_Background c)) in Hr; [done|..].
  - split; cbn [new_Background bg running levels_locked_ manual_compaction_]; try done. intros l. split; [|by intros (? & ? & ? & ? & _)]. intros H. apply lookup_replicate in H as [? _]. done.
  - intros x y _ Hxy HI. pose proof HI as [I1 I2 I3 I4 I5 I6 I7]. inversion Hxy as [? tid seek r st' H1 H2 H3 E|? tid r status st' rng lft H1 E|? c'|? m H1 H2|?]; subst; [by eapply bg_inv_begin|by eapply bg_inv_end|by split..| |].
    + split; cbn [bg running with_manual levels_locked_ manual_compaction_]; try done. by intros m' [= <-].
    + split; cbn [bg running with_manual levels_locked_ manual_compaction_]; done.
Qed.

(** C8. Compactions that run at the same time work on different levels.  In
    every state that compaction threads, new versions and manual compactions
    lead to, two compactions in progress have no level in common; exactly the
    levels of the chosen compactions in progress are marked in levels_locked_;
    and the assertions with which BackgroundCompactionGuards marks the levels
    of its choice hold: it fails only where the choice of a level reads past
    the marks. *)
Theorem running_compactions_disjoint c s : rtc bg_step (new_Background c) s ->
  (forall tid tid' r r' c c' l, tid <> tid' -> running s !! tid = Some r -> running s !! tid' = Some r' ->
    r_compaction r = Some c -> r_compaction r' = Some c' -> uses c l -> ~ uses c' l) /\
  (forall l, levels_locked_ (bg s) !! l = Some true <->
    exists tid r c, running s !! tid = Some r /\ r_manual r = false /\ r_compaction r = Some c /\ uses c l) /\
  (forall seek_driven, manual_compaction_ (bg s) = None ->
    is_Some (PickCompactionLevel (levels_locked_ (bg s)) (bg_current (bg s)) seek_driven) -> is_Some (begin_compaction ucmp seek_driven (bg s))).
Proof.
  intros Hr. pose proof (bg_inv_reachable c s Hr) as HI. split; [apply (bi_disjoint _ HI)|]. split; [apply (bi_locked _ HI)|].
  intros seek Hm [[[level force] cur] Ep]. unfold begin_compaction. rewrite Hm, Ep. cbn [mbind option_bind]. apply (PickCompactionLevel_free _ _ _ _ _ _ (bi_length _ HI)) in Ep.
  destruct (Nat.eqb_spec level levels) as [|Hne]; [by eexists|]. destruct (PickCompactionForGuards ucmp cur level force) as [[comp|] guards] eqn:Ec; [|by eexists].
  destruct Ep as [?|Hfree]; [done|]. apply PickCompactionForGuards_level in Ec. subst level. destruct (lock_levels_spec _ _ (bi_length _ HI) Hfree) as (locked' & -> & _). by eexists.
Qed.
End Threads.

(** ** Two threads, and what goes wrong *)
Definition one_file (number : Z) : FileMetaData := file_meta number 100 (InternalKey [Byte.x61] 5 kTypeValue) (InternalKey [Byte.x62] 4 kTypeValue).

(** A version with one file in a level, whose score asks for a compaction. *)
Definition with_file_at (level : nat) : Current :=
  {| cur_version := {| v_files := <[level := [one_file 7]]> (replicate levels []); v_guards := []; v_complete_guards := [];
                       v_sentinel_files := <[level := [one_file 7]]> (replicate levels []); v_num_complete_guards := [] |};
     cur_scores := {| compaction_scores := <[level := d_1]> (replicate levels (d_of_Z 0)); guard_compaction_scores := []; sentinel_compaction_scores := <[level := d_1]> (replicate levels (d_of_Z 0)) |};
     file_to_compact_ := None; file_to_compact_level_ := -1 |}.

Definition begun (tid : nat) (s : BgState) : BgState :=
  match begin_compaction BytewiseComparator false (bg s) with Some (r, st) => {| bg := st; running := <[tid := r]> (running s) |} | None => s end.
Definition installed (c : Current) (s : BgState) : BgState := {| bg := with_bg_current c (bg s); running := running s |}.

Lemma begun_step threads tid s : (tid < threads)%nat -> running s !! tid = None -> manual_compaction_ (bg s) = None \/ threads = 1%nat -> is_Some (begin_compaction BytewiseComparator false (bg s)) ->
  bg_step BytewiseComparator threads s (begun tid s).
Proof. intros H1 H2 H3 [[r st] E]. unfold begun. rewrite E. by econstructor. Qed.

Definition two_running : BgState := begun 1 (installed (with_file_at 3) (begun 0 (new_Background (with_file_at 1)))).

Lemma running_compactions_disjoint_witness : exists r0 r1 c0 c1, running two_running !! 0%nat = Some r0 /\ running two_running !! 1%nat = Some r1 /\
  r_compaction r0 = Some c0 /\ r_compaction r1 = Some c1 /\ c_level c0 = 1%nat /\ c_level c1 = 3%nat /\ ~ uses c1 2 /\
  levels_locked_ (bg two_running) = [false; true; true; true; true; false; false].
Proof.
  assert (rtc (bg_step BytewiseComparator 2) (new_Background (with_file_at 1)) two_running) as Hr.
  { eapply rtc_l; [apply (begun_step 2 0); [lia|reflexivity|by left|vm_compute; by eexists]|]. eapply rtc_l; [apply (bg_install _ _ _ (with_file_at 3))|].
    eapply rtc_l; [apply (begun_step 2 1); [lia|vm_compute; reflexivity|left; vm_compute; reflexivity|vm_compute; by eexists]|]. apply rtc_refl. }
  destruct (running_compactions_disjoint BytewiseComparator 2 _ _ Hr) as (Hd & _).
  destruct (running two_running !! 0%nat) as [r0|] eqn:E0; [|vm_compute in E0; discriminate]. destruct (running two_running !! 1%nat) as [r1|] eqn:E1; [|vm_compute in E1; discriminate].
  destruct (r_compaction r0) as [c0|] eqn:F0; [|vm_compute in E0; injection E0 as <-; discriminate]. destruct (r_compaction r1) as [c1|] eqn:F1; [|vm_compute in E1; injection E1 as <-; discriminate].
  exists r0, r1, c0, c1. split; [done|]. split; [done|]. split; [done|]. split; [done|].
  assert (c_level c0 = 1%nat) as G0 by (vm_compute in E0; injection E0 as <-; vm_compute in F0; injection F0 as <-; reflexivity).
  assert (c_level c1 = 3%nat) as G1 by (vm_compute in E1; injection E1 as <-; vm_compute in F1; injection F1 as <-; reflexivity).
  split; [done|]. split; [done|]. split; [|vm_compute; reflexivity].
  apply (Hd 0%nat 1%nat r0 r1 c0 c1 2%nat); [lia|done..|]. split; [vm_compute; lia|]. rewrite G0. by right.
Defined.

(** A compaction of the last level removes a mark that is not there: the write
    levels_locked_[kNumLevels] is past the end of the array. *)
Theorem last_level_unlock_past_end : exists s r c, rtc (bg_step BytewiseComparator 1) (new_Background (with_file_at 6)) s /\
  running s !! 0%nat = Some r /\ r_compaction r = Some c /\ c_level c = 6%nat /\
  forall status, exists st', end_compaction r status (bg s) = Some (st', false, None).
Proof.
  set (s := begun 0 (new_Background (with_file_at 6))). destruct (running s !! 0%nat) as [r|] eqn:E; [|vm_compute in E; discriminate]. destruct (r_compaction r) as [c|] eqn:F; [|vm_compute in E; injection E as <-; discriminate].
  exists s, r, c. split; [apply rtc_once, (begun_step 1 0); [lia|reflexivity|by left|vm_compute; by eexists]|]. split; [done|]. split; [done|].
  assert (c_level c = 6%nat /\ r_manual r = false) as [G M] by (vm_compute in E; injection E as <-; vm_compute in F; injection F as <-; split; reflexivity).
  split; [done|]. intros status. eexists. unfold end_compaction. rewrite F, G, M. cbn [unlock_levels]. change (length (levels_locked_ (bg s))) with 7%nat. reflexivity.
Qed.

(** A manual compaction that was withdrawn while it ran ends in a NULL pointer:
    TEST_CompactRange stops waiting when the database shuts down or has failed
    and sets manual_compaction_ to NULL, and BackgroundCompactionGuards, which
    worked without the mutex, then follows manual_compaction_. *)
Theorem withdrawn_manual_compaction_crashes : exists s r c, rtc (bg_step BytewiseComparator 1) (new_Background (with_file_at 1)) s /\
  running s !! 0%nat = Some r /\ r_compaction r = Some c /\ forall status, end_compaction r status (bg s) = None.
Proof.
  set (s0 := new_Background (with_file_at 1)). set (s1 := {| bg := with_manual (Some (new_ManualCompaction 1 None None)) (bg s0); running := running s0 |}). set (s2 := begun 0 s1).
  destruct (running s2 !! 0%nat) as [r|] eqn:E; [|vm_compute in E; discriminate]. destruct (r_compaction r) as [c|] eqn:F; [|vm_compute in E; injection E as <-; discriminate].
  exists {| bg := with_manual None (bg s2); running := running s2 |}, r, c. split.
  - eapply rtc_l; [apply (bg_request _ _ s0 (new_ManualCompaction 1 None None)); [vm_compute; lia|reflexivity]|].
    eapply rtc_l; [apply (begun_step 1 0); [lia|reflexivity|by right|vm_compute; by eexists]|]. apply rtc_once, bg_withdraw.
  - split; [exact E|]. split; [done|]. assert (r_manual r = true) as M by (vm_compute in E; injection E as <-; reflexivity).
    intros status. unfold end_compaction. rewrite M. by destruct (r_compaction r).
Qed.
