(* ===== verification/TableFiles.v ===== *)
(** * Writing table files

    What a flush of the memtable (db/builder.cc) and a compaction
    (db/db_impl.cc) share: file numbers, files whose every call may fail, a
    TableBuilder that gets sorted entries, and the guards that cut the output.

    The answers of the environment to the next NewWritableFile calls, and the
    statuses of every call on the files they create, are part of [World]. *)

From Stdlib Require Import ZArith Lia Bool.
From stdpp Require Import base list.
From S2P Require Import Prelude Coding Comparator DbFormat Status Iterator Block FileName Bloom FilterBlock Format Table.
From S2P Require Import VersionEdit Guards DbIter TableSpec.

Set Default Goal Selector "!".
Local Open Scope Z_scope.

(** ** The files and their numbers *)
Record World := {
  wd_next_file_number : Z;
  wd_pending_outputs : list Z;
  (** the answers to the next NewWritableFile calls, each with the statuses of
      the calls on the new file; OK when the list is used up *)
  wd_creates : list (Status * list Status);
  (** the files that have been written, the newest first *)
  wd_disk : list (bytes * bytes);
}.

Definition NewFileNumber (w : World) : Z * World :=
  (wd_next_file_number w,
   {| wd_next_file_number := u64 (wd_next_file_number w + 1); wd_pending_outputs := wd_pending_outputs w;
      wd_creates := wd_creates w; wd_disk := wd_disk w |}).

Definition add_pending (w : World) (number : Z) : World :=
  {| wd_next_file_number := wd_next_file_number w; wd_pending_outputs := set_insert Z.ltb number (wd_pending_outputs w);
     wd_creates := wd_creates w; wd_disk := wd_disk w |}.

(** env_->NewWritableFile *)
Definition NewWritableFile (w : World) : Status * WritableFile * World :=
  let '(s, script) := default (OK, []) (head (wd_creates w)) in
  (s, {| wf_contents := []; wf_script := script |},
   {| wd_next_file_number := wd_next_file_number w; wd_pending_outputs := wd_pending_outputs w;
      wd_creates := tail (wd_creates w); wd_disk := wd_disk w |}).

(** What the file holds when its WritableFile is deleted. *)
Definition close_file (w : World) (fname : bytes) (f : WritableFile) : World :=
  {| wd_next_file_number := wd_next_file_number w; wd_pending_outputs := wd_pending_outputs w;
     wd_creates := wd_creates w; wd_disk := (fname, wf_contents f) :: wd_disk w |}.

(** Sync and Close, like every call on the file, return the next status. *)
Definition Sync (f : WritableFile) : Status * WritableFile := Flush_file f.
Definition Close (f : WritableFile) : Status * WritableFile := Flush_file f.

(** env_->DeleteFile; its status is ignored. *)
Definition DeleteFile_env (w : World) (fname : bytes) : World :=
  {| wd_next_file_number := wd_next_file_number w; wd_pending_outputs := wd_pending_outputs w; wd_creates := wd_creates w;
     wd_disk := List.filter (fun f => negb (bool_decide (fst f = fname))) (wd_disk w) |}.

(** ** Sorted entries and guards *)
Section Slots.
Context {ucmp : Comparator} `{Hc : !ComparatorOk ucmp all_keys} {guards : list GuardMetaData}.
Notation icmp := (InternalKeyComparator ucmp).

Lemma user_sorted l1 e l2 e' : sorted_keys icmp (l1 ++ e :: l2) -> e' ∈ l2 ->
  Compare ucmp (e_user e) (e_user e') <= 0 /\ (e_user e' = e_user e -> e_seq e' <= e_seq e).
Proof.
  intros Hs [j Hj]%list_elem_of_lookup.
  assert (Compare icmp (fst e) (fst e') < 0) as Hlt.
  { apply (Hs (length l1) (S (length l1 + j))); [lia| |].
    - by rewrite lookup_app_r, Nat.sub_diag by lia.
    - rewrite lookup_app_r by lia. by replace (S (length l1 + j) - length l1)%nat with (S j) by lia. }
  split; [apply ikc_user_le; lia|]. intros Eu. unfold e_user, e_seq in *.
  rewrite ikc_Compare_same in Hlt by done. rewrite !Z.shiftr_div_pow2 by lia.
  apply Z.div_le_mono; [lia|]. lia.
Qed.

(** The guard slot of a user key: how many guards it has reached. *)
Definition slot_of (u : bytes) : nat := prefix_len (fun g => 0 <=? Compare ucmp u (guard_ukey g)) guards.

(** The entries of one file belong to one guard. *)
Definition one_slot (es : list entry) : Prop := exists n, Forall (fun e => slot_of (e_user e) = n) es.

(** The first [n] guards are at or before the user key. *)
Definition passed (n : nat) (u : bytes) : Prop :=
  (n <= length guards)%nat /\ Forall (fun g => 0 <= Compare ucmp u (guard_ukey g)) (take n guards).

Lemma passed_le n u u' : passed n u -> Compare ucmp u u' <= 0 -> passed n u'.
Proof.
  intros [Hn Hall] Hle. split; [done|]. eapply Forall_impl; [exact Hall|]. intros g Hg.
  apply (cmp_ge_le (dom := all_keys)); [done..|]. eapply (cmp_le_trans (dom := all_keys)); [done..| |exact Hle].
  by apply (cmp_ge_le (dom := all_keys)).
Qed.

Lemma passed_slot u : passed (slot_of u) u.
Proof.
  split; [apply prefix_len_le|]. apply Forall_lookup. intros i g (Hg & Hi)%lookup_take_Some.
  pose proof (prefix_len_before _ _ _ _ Hi Hg) as H. by apply Z.leb_le in H.
Qed.

Lemma passed_before n u g : passed n u -> guards !! n = Some g -> Compare ucmp u (guard_ukey g) < 0 -> slot_of u = n.
Proof.
  intros [Hn Hall] Hg Hlt. apply prefix_len_unique; [done| |].
  - intros i g' Hi Hg'. apply Z.leb_le. rewrite Forall_lookup in Hall. apply (Hall i). by apply lookup_take_Some.
  - intros g' Hg'. assert (g' = g) as -> by congruence. by apply Z.leb_gt.
Qed.

Lemma passed_all u : passed (length guards) u -> slot_of u = length guards.
Proof.
  intros [_ Hall]. rewrite firstn_all in Hall. apply prefix_len_unique; [done| |].
  - intros i g _ Hg. apply Z.leb_le. rewrite Forall_lookup in Hall. by apply (Hall i).
  - intros g Hg. apply lookup_lt_Some in Hg. lia.
Qed.

Lemma passed_next n u g : passed n u -> guards !! n = Some g -> 0 <= Compare ucmp u (guard_ukey g) -> passed (S n) u.
Proof.
  intros [Hn Hall] Hg Hle. split; [apply lookup_lt_Some in Hg; lia|]. rewrite (take_S_r _ _ _ Hg). apply Forall_app. split; [done|]. by constructor.
Qed.

(** Sorted entries with proper keys. *)
Definition good (l : list entry) : Prop := sorted_keys icmp l /\ Forall entry_valid l.

Lemma good_sub l1 l l2 : good (l1 ++ l ++ l2) -> good l.
Proof.
  intros [Hs Hv]. split; [|apply Forall_app in Hv as [_ Hv]; by apply Forall_app in Hv as [? _]].
  intros i j a b Hij Ha Hb. apply (Hs (length l1 + i)%nat (length l1 + j)%nat); [lia|..].
  - rewrite lookup_app_r by lia. replace (length l1 + i - length l1)%nat with i by lia. by apply lookup_app_l_Some.
  - rewrite lookup_app_r by lia. replace (length l1 + j - length l1)%nat with j by lia. by apply lookup_app_l_Some.
Qed.

Lemma pend_good k1 l files (pend : list entry) : good (k1 ++ l) -> concat files ++ pend = k1 -> good pend.
Proof. intros Hg <-. rewrite <- app_assoc in Hg. by eapply good_sub. Qed.

End Slots.
Arguments slot_of : clear implicits.
Arguments one_slot : clear implicits.
Arguments passed : clear implicits.
Arguments good : clear implicits.

(** ** What a builder has got *)
Section Builds.
Context `{Hsnappy : !Snappy} {options : TableOptions} (dbname : bytes) {ucmp : Comparator} `{Hc : !ComparatorOk ucmp all_keys}.
Notation icmp := (InternalKeyComparator ucmp).
Notation T := TableBuilder.

(** [b] has got the entries [es]. *)
Definition builds (b : T) (es : list entry) : Prop :=
  exists script, add_all options (new_TableBuilder options {| wf_contents := []; wf_script := script |}) es = Some b.

(** A table with the entries [es] and their range, finished in the file that has
    the number. *)
Definition table_written (world : World) (number size : Z) (smallest largest : bytes) (es : list entry) : Prop :=
  (exists e f, head es = Some e /\ last es = Some f /\ smallest = fst e /\ largest = fst f) /\
  exists b b', builds b es /\ Finish options b = Some (OK, b') /\ size = FileSize b' /\
    (TableFileName dbname number, wf_contents (r_file b')) ∈ wd_disk world.

(** Sync and Close on the file succeed. *)
Definition synced_and_closed (file : WritableFile) : Prop := fst (Sync file) = OK /\ fst (Close (snd (Sync file))) = OK.

(** It was synced and closed too. *)
Definition table_installed (world : World) (number size : Z) (smallest largest : bytes) (es : list entry) : Prop :=
  (exists e f, head es = Some e /\ last es = Some f /\ smallest = fst e /\ largest = fst f) /\
  exists b b', builds b es /\ Finish options b = Some (OK, b') /\ size = FileSize b' /\ synced_and_closed (r_file b') /\
    (TableFileName dbname number, wf_contents (r_file b')) ∈ wd_disk world.

Lemma table_installed_mono wd wd' number size smallest largest es : (forall x, x ∈ wd_disk wd -> x ∈ wd_disk wd') ->
  table_installed wd number size smallest largest es -> table_installed wd' number size smallest largest es.
Proof. intros Hsub (H & b & b' & H1 & H2 & H3 & H4 & H5). split; [done|]. exists b, b'. do 4 (split; [done|]). by apply Hsub. Qed.

Lemma table_written_mono wd wd' number size smallest largest es : (forall x, x ∈ wd_disk wd -> x ∈ wd_disk wd') ->
  table_written wd number size smallest largest es -> table_written wd' number size smallest largest es.
Proof. intros Hsub (H & b & b' & H1 & H2 & H3 & H4). split; [done|]. exists b, b'. auto. Qed.

(** What Sync and Close leave of a status and a file. *)
Lemma sync_close s f s3 f3 s4 f4 : (if ok s then Sync f else (s, f)) = (s3, f3) -> (if ok s3 then Close f3 else (s3, f3)) = (s4, f4) ->
  wf_contents f4 = wf_contents f /\ (ok s4 = true -> s = OK /\ synced_and_closed f) /\ (s = OK -> wf_script f = [] -> s4 = OK).
Proof.
  intros E3 E4. destruct s as [m|]; cbn [ok] in E3.
  - injection E3 as <- <-. injection E4 as <- <-. done.
  - unfold synced_and_closed. rewrite E3. cbn [fst snd]. assert (f3 = {| wf_contents := wf_contents f; wf_script := tail (wf_script f) |} /\ s3 = next_status f) as [Ef3 Es3] by (by injection E3 as <- <-).
    destruct s3 as [m|]; cbn [ok] in E4.
    + injection E4 as <- <-. split; [by rewrite Ef3|]. split; [done|]. intros _ Hs. unfold next_status in Es3. by rewrite Hs in Es3.
    + rewrite E4. split; [by injection E4 as _ <-; rewrite Ef3|]. split; [intros Hok; split; [done|]; split; [done|]; by apply ok_iff|].
      intros _ Hs. injection E4 as <- _. rewrite Ef3. unfold next_status. cbn [wf_script]. by rewrite Hs.
Qed.

(** *** The builder *)
Lemma Flush_num b b' : Flush options b = Some b' -> NumEntries b' = NumEntries b.
Proof.
  unfold Flush. destruct (negb _); [by intros [= <-]|]. destruct (bb_empty _); [by intros [= <-]|].
  unfold WriteBlock. destruct (block_to_write _ _) as [[data type]|]; [|done]. cbn [mbind option_bind].
  unfold WriteRawBlock, Append. destruct (ok (next_status (r_file b))); cbn [mbind option_bind]; intros [= <-]; by repeat case_match.
Qed.

Lemma Add_num b k v b' : Table.Add options b k v = Some b' ->
  NumEntries b <= NumEntries b' /\ (ok (r_status b) = true -> NumEntries b' = NumEntries b + 1).
Proof.
  unfold Table.Add, Table.builder_ok. destruct (ok (r_status b)) eqn:E; cbn [negb]; [|intros [= <-]; split; [lia|done]].
  set (b1 := with_entry _ _ _). assert (NumEntries b1 = NumEntries b + 1) as E1 by (unfold b1; by destruct (r_pending_index_entry b)).
  destruct (_ <=? _); [intros H%Flush_num; rewrite H, E1; lia|intros [= <-]; rewrite E1; lia].
Qed.

Lemma add_all_snoc b es k v : add_all options b (es ++ [(k, v)]) = (b' ← add_all options b es; Table.Add options b' k v).
Proof. unfold add_all. by rewrite foldl_app. Qed.

Lemma add_all_num es : forall b b', add_all options b es = Some b' -> NumEntries b <= NumEntries b'.
Proof.
  induction es as [|[k v] es IH] using rev_ind; intros b b'; [intros [= <-]; lia|]. rewrite add_all_snoc.
  destruct (add_all options b es) as [b1|] eqn:E; [|done]. cbn [mbind option_bind]. intros [H _]%Add_num. specialize (IH _ _ E). lia.
Qed.

(** The offset only grows, and a finished table has a footer. *)
Lemma WriteRawBlock_grows b data type : r_offset b <= r_offset (fst (WriteRawBlock b data type)).
Proof.
  unfold WriteRawBlock. pose proof (len_nonneg data). repeat case_match; cbn [fst with_file r_offset]; unfold kBlockTrailerSize; lia.
Qed.

Lemma WriteBlock_grows b blk b' h : WriteBlock options b blk = Some (b', h) -> r_offset b <= r_offset b'.
Proof.
  unfold WriteBlock. destruct (block_to_write _ _) as [[data type]|]; [|done]. cbn [mbind option_bind]. intros [= E].
  pose proof (WriteRawBlock_grows b data type) as H. by rewrite E in H.
Qed.

Lemma Flush_grows b b' : Flush options b = Some b' -> r_offset b <= r_offset b'.
Proof.
  unfold Flush. destruct (negb _); [by intros [= <-]|]. destruct (bb_empty _); [by intros [= <-]|].
  destruct (WriteBlock _ _ _) as [[b1 h]|] eqn:E; [|done]. apply WriteBlock_grows in E. cbn [mbind option_bind].
  intros [= <-]. by repeat case_match.
Qed.

Lemma Add_grows b k v b' : Table.Add options b k v = Some b' -> r_offset b <= r_offset b'.
Proof.
  unfold Table.Add. destruct (negb _); [by intros [= <-]|]. set (b1 := with_entry _ _ _).
  assert (r_offset b1 = r_offset b) as <- by (unfold b1; by destruct (r_pending_index_entry b)).
  destruct (_ <=? _); [apply Flush_grows|by intros [= <-]].
Qed.

Lemma add_all_grows es : forall b b', add_all options b es = Some b' -> r_offset b <= r_offset b'.
Proof.
  induction es as [|[k v] es IH] using rev_ind; intros b b'; [intros [= <-]; lia|]. rewrite add_all_snoc.
  destruct (add_all options b es) as [b1|] eqn:E; [|done]. cbn [mbind option_bind]. intros H%Add_grows. specialize (IH _ _ E). lia.
Qed.

Lemma Finish_grows b b' : Finish options b = Some (OK, b') -> r_offset b < FileSize b'.
Proof.
  unfold Finish. destruct (Flush options b) as [b1|] eqn:E1; [|done]. cbn [mbind option_bind]. apply Flush_grows in E1.
  destruct (match r_filter_block (close b1) with Some _ => _ | None => _ end) as [b2 fh] eqn:E2.
  assert (r_offset b1 <= r_offset b2) as H2.
  { revert E2. pose proof (WriteRawBlock_grows (close b1)) as Hw. repeat case_match; intros E2; try (injection E2 as <- <-; simpl; lia).
    specialize (Hw (fb_Finish f0 f) kNoCompression). rewrite E2 in Hw. exact Hw. }
  clear E2. set (m := if builder_ok b2 then _ else _). destruct m as [[b3 mh]|] eqn:E3; [|done]. cbn [mbind option_bind].
  assert (r_offset b2 <= r_offset b3) as H3.
  { unfold m in E3. destruct (builder_ok b2); [by apply WriteBlock_grows in E3|by injection E3 as <- <-]. }
  clear E3 m. set (m := if builder_ok b3 then _ else _). destruct m as [[b4 ih]|] eqn:E4; [|done]. cbn [mbind option_bind].
  assert (r_offset b3 <= r_offset b4) as H4.
  { unfold m in E4. destruct (builder_ok b3); [|by injection E4 as <- <-].
    set (b5 := if r_pending_index_entry b3 then _ else b3) in E4.
    assert (r_offset b5 = r_offset b3) as E5 by (unfold b5; by destruct (r_pending_index_entry b3)).
    destruct (WriteBlock options b5 (r_index_block b5)) as [[b6 h]|] eqn:E6; [|done]. apply WriteBlock_grows in E6.
    injection E4 as <- <-. simpl. lia. }
  clear E4 m. unfold builder_ok. destruct (ok (r_status b4)) eqn:Eok.
  - destruct (Footer_bytes {| metaindex_handle := mh; index_handle := ih |}) as (pad & E & Hlen).
    assert (0 < len (Footer_EncodeTo [] {| metaindex_handle := mh; index_handle := ih |})) as Hpos.
    { by rewrite E, len_app, Hlen, len_app, !len_EncodeFixed32. }
    clear E. set (footer := Footer_EncodeTo _ _) in *. clearbody footer.
    destruct (Append (r_file b4) footer) as [s file]. intros [= Es <-]. simpl in Es. subst s. unfold FileSize. simpl. lia.
  - intros [= Es <-]. by rewrite Es in Eok.
Qed.

Lemma add_all_cons b e es : add_all options b (e :: es) = (b' ← Table.Add options b (fst e) (snd e); add_all options b' es).
Proof.
  unfold add_all. cbn [foldl mbind option_bind]. destruct (Table.Add options b (fst e) (snd e)); cbn [mbind option_bind]; [done|].
  by induction es.
Qed.

Lemma builds_num b es : builds b es -> NumEntries b = 0 <-> es = [].
Proof.
  intros [script H]. destruct es as [|e es]; [injection H as <-; done|]. split; [|done]. intros E. exfalso.
  rewrite add_all_cons in H. destruct (Table.Add options _ (fst e) (snd e)) as [b1|] eqn:E1; [|done]. cbn [mbind option_bind] in H.
  destruct (Add_num _ _ _ _ E1) as [_ Hn]. specialize (Hn eq_refl). apply add_all_num in H. rewrite Hn in H. simpl in H. lia.
Qed.

Lemma builds_Add b es k v b' : builds b es -> Table.Add options b k v = Some b' -> builds b' (es ++ [(k, v)]).
Proof. intros [script H] E. exists script. by rewrite add_all_snoc, H. Qed.

Context (Hcmp : o_comparator options = icmp).
Context (Hcomp : o_compression options = kNoCompression \/ o_compression options = kSnappyCompression).

Lemma good_keys l : good ucmp l -> sorted_keys (o_comparator options) l /\ Forall (fun e => is_ikey (fst e)) l.
Proof.
  intros [Hs Hv]. rewrite Hcmp. split; [done|]. eapply Forall_impl; [exact Hv|].
  intros e (u & s & t & -> & _). apply is_ikey_InternalKey.
Qed.

#[local] Instance options_cmp_ok : ComparatorOk (o_comparator options) is_ikey.
Proof. rewrite Hcmp. apply _. Qed.

Lemma options_short : short_keys (o_comparator options).
Proof. rewrite Hcmp. apply InternalKeyComparator_short. Qed.

Lemma builds_Add_total b es k v : builds b es -> good ucmp (es ++ [(k, v)]) -> exists b', Table.Add options b k v = Some b'.
Proof.
  intros [script H] Hg. destruct (good_keys _ Hg) as [Hs Hd].
  destruct (add_all_ok options is_ikey Hcomp options_short {| wf_contents := []; wf_script := script |} (es ++ [(k, v)]) eq_refl Hs Hd)
    as (r & E & _).
  rewrite add_all_snoc, H in E. by exists r.
Qed.

Lemma builds_Finish_total b es : builds b es -> good ucmp es -> exists s b', Finish options b = Some (s, b').
Proof.
  intros [script H] Hg. destruct (good_keys _ Hg) as [Hs Hd].
  destruct (add_all_ok options is_ikey Hcomp options_short {| wf_contents := []; wf_script := script |} es eq_refl Hs Hd)
    as (r & E & Hr).
  rewrite H in E. injection E as <-. destruct (ok (r_status b)) eqn:Hok.
  - destruct (Hr eq_refl) as (blocks & ix & pend & Hrep & E). rewrite <- E in Hs, Hd.
    destruct (Finish_ok options is_ikey Hcomp options_short b blocks ix pend Hrep Hs Hd) as (s & b' & Ef & _). eauto.
  - destruct (Finish_failed options b Hok) as [b' Ef]. eauto.
Qed.

Lemma clean_file b : clean b -> wf_script (r_file b) = [].
Proof. by intros [? _]. Qed.

End Builds.
Arguments builds {Hsnappy} options b es.
Arguments table_written {Hsnappy} options dbname world number size smallest largest es.
Arguments table_installed {Hsnappy} options dbname world number size smallest largest es.
