(* ===== verification/TableCache.v ===== *)
(** * The table cache (db/table_cache.cc)

    Open tables are kept in an LRU cache under their file numbers.  FindTable
    opens a table that is not there; Get looks a key up in a table, NewIterator
    walks one and keeps its handle until the iterator is deleted, Evict forgets
    a file.  Reads of a version rely on what is proved here: whatever tables the
    cache holds, a table that was written with given entries is read with
    exactly these. *)

From Stdlib Require Import ZArith Lia Bool.
From stdpp Require Import base list relations.
From S2P Require Import Prelude Coding Comparator DbFormat Status Iterator Block FileName Hash Cache CacheSpec TwoLevel Format Table TableSpec.
From S2P Require Import VersionEdit VersionGet LevelIter DbIter TableFiles.

Set Default Goal Selector "!".
Local Open Scope Z_scope.
#[local] Arguments Compare : simpl never.

(** What the cache keeps for a file. *)
Record TableAndFile := { tf_file : RandomAccessFile; tf_table : Table }.

Section TableCache.
Context `{!Snappy} (options : TableOptions) (dbname : bytes).
Notation TCache := (@ShardedLRUCache TableAndFile).
Notation D := (SumIterator EmptyIterator (BlockIter (o_comparator options))).

(** Env::NewRandomAccessFile, as it answers during a call. *)
Context (NewRandomAccessFile : bytes -> Status * RandomAccessFile).
(** The id that Table::Open gets from the block cache, and what is in that cache. *)
Context (cache_id : Z) (block_cache : option (bytes -> option Block)) (ro : ReadOptions).

Definition table_key (file_number : Z) : bytes := EncodeFixed64 file_number.

(** The file under its name, or under the name LevelDB used. *)
Definition open_table_file (file_number : Z) : Status * RandomAccessFile :=
  let '(s, file) := NewRandomAccessFile (TableFileName dbname file_number) in
  if ok s then (s, file)
  else
    let '(s', file') := NewRandomAccessFile (LDBTableFileName dbname file_number) in
    if ok s' then (OK, file') else (s, file).

(** [e] is the address that malloc gives to a new node of the cache. *)
Definition FindTable (e : nat) (file_number file_size : Z) (c : TCache) : option (Status * option nat * TCache) :=
  '(c, handle) ← cache_Lookup c (table_key file_number);
  match handle with
  | Some h => Some (OK, Some h, c)
  | None =>
      let '(s, file) := open_table_file file_number in
      '(s, table) ← (if ok s then Open options file file_size cache_id else Some (s, None));
      match table with
      | None => if ok s then None else Some (s, None, c)
      | Some t =>
          if ok s then
            '(c, h) ← cache_Insert c e (table_key file_number) {| tf_file := file; tf_table := t |} 1;
            Some (s, Some h, c)
          else None
      end
  end.

(** Get: the status, what the saver gets, and the cache afterwards. *)
Definition tc_Get (e : nat) (file_number file_size : Z) (k : bytes) (c : TCache) : option (Status * option entry * TCache) :=
  '(s, handle, c) ← FindTable e file_number file_size c;
  if ok s then
    h ← handle;
    tf ← cache_Value c h;
    '(s, saved) ← InternalGet options (tf_table tf) block_cache ro k;
    c ← cache_Release c h;
    Some (s, saved, c)
  else Some (s, None, c).

(** Iterators over tables: the table is part of the iterator. *)
Definition OpenTable (fuel : nat) : IterOps := {|
  St := Table * TwoLevelIterator D D;
  Valid s := Valid (TableIterator options (fst s) block_cache ro fuel) (snd s);
  SeekToFirst s := pair (fst s) <$> SeekToFirst (TableIterator options (fst s) block_cache ro fuel) (snd s);
  SeekToLast s := pair (fst s) <$> SeekToLast (TableIterator options (fst s) block_cache ro fuel) (snd s);
  Seek target s := pair (fst s) <$> Seek (TableIterator options (fst s) block_cache ro fuel) target (snd s);
  Next s := pair (fst s) <$> Next (TableIterator options (fst s) block_cache ro fuel) (snd s);
  Prev s := pair (fst s) <$> Prev (TableIterator options (fst s) block_cache ro fuel) (snd s);
  key s := key (TableIterator options (fst s) block_cache ro fuel) (snd s);
  value s := value (TableIterator options (fst s) block_cache ro fuel) (snd s);
  status s := status (TableIterator options (fst s) block_cache ro fuel) (snd s);
|}.

Definition FileIterator (fuel : nat) : IterOps := SumIterator EmptyIterator (OpenTable fuel).

(** NewIterator: the iterator, the handle that its cleanup function releases
    (UnrefEntry), and the cache. *)
Definition tc_NewIterator (fuel e : nat) (file_number file_size : Z) (c : TCache) : option (St (FileIterator fuel) * option nat * TCache) :=
  '(s, handle, c) ← FindTable e file_number file_size c;
  if ok s then
    h ← handle;
    tf ← cache_Value c h;
    Some (inr (tf_table tf, NewTableIterator options (tf_table tf)), Some h, c)
  else Some (inl (NewErrorIterator s), None, c).

Definition UnrefEntry (h : nat) (c : TCache) : option TCache := cache_Release c h.

Definition Evict (file_number : Z) (c : TCache) : option TCache := cache_Erase c (table_key file_number).
End TableCache.

(** ** Tables that hold given entries *)
Section Holds.
Context `{Hsnappy : !Snappy} `{Hsnappyok : !SnappyOk} (options : TableOptions) (dom : bytes -> Prop).
Notation c := (o_comparator options).
Context `{Hc : !ComparatorOk c dom}.
Context (Hname : match o_filter_policy options with Some (name, _) => len name < 2 ^ 30 | None => True end).

(** The bytes of a table with the entries [es]. *)
Record table_holds (contents : bytes) (es : list entry) : Prop := {
  th_layout : exists blocks ix, table_file options dom contents blocks ix /\ concat (map fst blocks) = es;
  th_sorted : sorted_keys c es;
  th_dom : Forall (fun e => dom (fst e)) es;
  th_weight : weight 64 es < 2 ^ 31;
  th_len : len contents < 2 ^ 63;
}.

(** A finished builder leaves such a file. *)
Lemma built_table_holds b b' es :
  o_compression options = kNoCompression \/ o_compression options = kSnappyCompression -> short_keys c ->
  builds options b es -> Finish options b = Some (OK, b') ->
  sorted_keys c es -> Forall (fun e => dom (fst e)) es -> weight 64 es < 2 ^ 31 -> len (wf_contents (r_file b')) < 2 ^ 63 ->
  table_holds (wf_contents (r_file b')) es.
Proof.
  intros Hcomp Hshort (script & Eb) Ef Hs Hd Hw Hl. split; [|done..].
  destruct (add_all_ok options dom Hcomp Hshort {| wf_contents := []; wf_script := script |} es eq_refl Hs Hd) as (r & Ea & Hr).
  rewrite Ea in Eb. injection Eb as ->. destruct (ok (r_status b)) eqn:Hok.
  - destruct (Hr eq_refl) as (blocks & ix & pend & Hrep & E). rewrite <- E in Hs, Hd.
    destruct (Finish_ok options dom Hcomp Hshort b blocks ix pend Hrep Hs Hd) as (s & r' & Ef' & Hfin). rewrite Ef in Ef'. injection Ef' as <- <-.
    destruct (Hfin eq_refl) as (blocks' & ix' & Ht & E'). exists blocks', ix'. by rewrite E', E.
  - destruct (Finish_failed options b Hok) as [r' E]. rewrite Ef in E. injection E as E _. by rewrite <- E in Hok.
Qed.

(** [t] is open on a file with these contents. *)
Definition table_opened (t : Table) (contents : bytes) : Prop :=
  file_reads (tb_file t) contents /\ exists id, Open options (tb_file t) (len contents) id = Some (OK, Some t).

(** The block cache has no wrong block of the table. *)
Definition coherent_for (block_cache : option (bytes -> option Block)) (t : Table) : Prop :=
  forall contents blocks ix, file_reads (tb_file t) contents -> table_file options dom contents blocks ix -> cache_coherent options blocks t block_cache.

Lemma Open_holds contents es file id : table_holds contents es -> file_reads file contents ->
  exists t, Open options file (len contents) id = Some (OK, Some t) /\ table_opened t contents /\ tb_cache_id t = id.
Proof.
  intros [(blocks & ix & Ht & <-) Hs Hd Hw Hl] Hf.
  destruct (Open_ok options dom file contents blocks ix Hf Hl Ht Hw Hname id) as (t & Eo & Htf & Hid & _).
  exists t. split; [done|]. split; [|done]. split; [by rewrite Htf|]. exists id. by rewrite Htf.
Qed.

Lemma opened_index t contents blocks ix : table_opened t contents -> table_file options dom contents blocks ix -> weight 64 (concat (map fst blocks)) < 2 ^ 31 ->
  len contents < 2 ^ 63 -> tb_index_block t = new_Block (raw_block 1 ix).
Proof.
  intros [Hf [id Eo]] Ht Hw Hl. destruct (Open_ok options dom (tb_file t) contents blocks ix Hf Hl Ht Hw Hname id) as (t' & Eo' & _ & _ & Hti).
  rewrite Eo in Eo'. injection Eo' as ->. done.
Qed.

Lemma opened_get t contents es block_cache ro k : table_holds contents es -> table_opened t contents -> coherent_for block_cache t -> dom k ->
  exists saved, InternalGet options t block_cache ro k = Some (OK, saved) /\ get_finds options es k saved.
Proof.
  intros [(blocks & ix & Ht & <-) Hs Hd Hw Hl] Ho Hbc Hk. pose proof (opened_index t contents blocks ix Ho Ht Hw Hl) as Hti. destruct Ho as [Hf _].
  apply (InternalGet_ok options dom (tb_file t) contents blocks ix Hf Hl Ht Hs Hd Hw t eq_refl Hti block_cache ro k); [by apply (Hbc contents blocks ix)|done].
Qed.

Lemma opened_iterates t contents es block_cache ro fuel : table_holds contents es -> table_opened t contents -> coherent_for block_cache t ->
  (length es + 2 < fuel)%nat -> iterates (OpenTable options block_cache ro fuel) c dom es (t, NewTableIterator options t) None.
Proof.
  intros [(blocks & ix & Ht & <-) Hs Hd Hw Hl] Ho Hbc Hfuel. pose proof (opened_index t contents blocks ix Ho Ht Hw Hl) as Hti. destruct Ho as [Hf _].
  assert (length blocks <= length (concat (map fst blocks)))%nat as Hle.
  { destruct Ht as (_ & _ & _ & Hne & _). clear -Hne. induction Hne as [|[l h] blocks Hl _ IH]; simpl; [lia|]. simpl in Hl.
    rewrite length_app. destruct l; [done|]. simpl. lia. }
  destruct (TableIterator_ok options dom (tb_file t) contents blocks ix Hf Hl Ht Hs Hd Hw t eq_refl Hti block_cache ro fuel) as [HI Hn];
    [by apply (Hbc contents blocks ix)|lia|].
  exists (fun s p => fst s = t /\ table_rel options dom blocks ix (snd s) p). split; [|by split].
  destruct HI as [I1 I2 I3 I4 I5 I6 I7 I8]. split; cbn [OpenTable St Valid SeekToFirst SeekToLast Seek Next Prev key value status].
  - intros [t' s] p [E H]; cbn [fst snd] in *; subst t'. by apply (I1).
  - intros [t' s] p [E H]; cbn [fst snd] in *; subst t'. by apply (I2).
  - intros [t' s] p [E H]; cbn [fst snd] in *; subst t'. by apply (I3 s p).
  - intros [t' s] p [E H]; cbn [fst snd] in *; subst t'. destruct (I4 s p H) as (s' & -> & H'). by exists (t, s').
  - intros [t' s] p [E H]; cbn [fst snd] in *; subst t'. destruct (I5 s p H) as (s' & -> & H'). by exists (t, s').
  - intros [t' s] p [E H]; cbn [fst snd] in *; subst t'. destruct (I6 s p H) as (s' & -> & H'). by exists (t, s').
  - intros [t' s] p [E H]; cbn [fst snd] in *; subst t'. destruct (I7 s p H) as (s' & -> & H'). by exists (t, s').
  - intros [t' s] p target [E H] Hd'; cbn [fst snd] in *; subst t'. destruct (I8 s p target H Hd') as (s' & -> & H'). by exists (t, s').
Qed.
End Holds.

(** ** Facts about the cache *)
Lemma lookup_miss {V} (c : @ShardedLRUCache V) key c' : cache_Lookup c key = Some (c', None) -> c' = c.
Proof.
  unfold cache_Lookup. generalize (HashSlice key) as hash. intros hash. unfold on_shard. generalize (Z.to_nat (Shard hash)) as i. intros i.
  destruct c as [shards id]. cbn [shard_ last_id_].
  intros (s & Hs & H)%bind_Some. apply bind_Some in H as ([s' r] & Hl & [= <- ->]). unfold Lookup in Hl.
  apply bind_Some in Hl as (e & _ & Hl). destruct e as [p|]; [|injection Hl as <-; by rewrite list_insert_id].
  repeat (apply bind_Some in Hl as (? & _ & Hl)). discriminate Hl.
Qed.

Lemma handle_value {V} (st : @Client V) ms p v : sound st ms -> (p, v) ∈ cl_handles st -> cache_Value (cl_cache st) p = Some v.
Proof.
  intros S Hp. destruct (so_values _ _ S p v Hp) as (i & m & e & Hm & He & <- & <-). destruct (cache_node_ok _ _ _ _ _ (so_rep _ _ S) Hm He) as (h & Hh & _ & Ev).
  unfold cache_Value. by rewrite Hh.
Qed.

Lemma table_key_inj m n : 0 <= m < 2 ^ 64 -> 0 <= n < 2 ^ 64 -> table_key m = table_key n -> m = n.
Proof.
  intros Hm Hn E. apply (f_equal (fun k => DecodeFixed64 (k ++ []))) in E. unfold table_key in E. rewrite !DecodeFixed64_EncodeFixed64 in E.
  by rewrite !u64_small in E by lia.
Qed.

(** ** The cache over a disk *)
Section Cached.
Context `{Hsnappy : !Snappy} `{Hsnappyok : !SnappyOk} (options : TableOptions) (dom : bytes -> Prop).
Notation c := (o_comparator options).
Context `{Hc : !ComparatorOk c dom}.
Context (Hname : match o_filter_policy options with Some (name, _) => len name < 2 ^ 30 | None => True end).
Context (dbname : bytes).
(** The table files, by number. *)
Context (disk : Z -> option bytes).

(** The tables in the cache are open on the files of the disk. *)
Record cached (st : @Client TableAndFile) : Prop := {
  ca_sound : exists ms, sound st ms;
  ca_tables : forall n tf contents, 0 <= n < 2 ^ 64 -> cl_latest st (table_key n) = Some tf -> disk n = Some contents -> table_opened options (tf_table tf) contents;
}.

Lemma cached_start entries : cached (CacheSpec.start entries).
Proof. split; [apply start_sound|done]. Qed.

Section Calls.
Context (NewRandomAccessFile : bytes -> Status * RandomAccessFile) (cache_id : Z) (e : nat) (st : @Client TableAndFile).
Context (Hst : cached st) (Hfew : few st) (He : cache_node (cl_cache st) e = None).
Context (n : Z) (contents : bytes) (es : list entry).
Context (Hn : 0 <= n < 2 ^ 64) (Hdisk : disk n = Some contents) (Hholds : table_holds options dom contents es).
Notation found := (open_table_file dbname NewRandomAccessFile n).
(** A file that can be table_opened reads as what is on the disk. *)
Context (Hopen : ok (fst found) = true -> file_reads (snd found) contents).

Lemma FindTable_ok :
  (exists h tf st', FindTable options dbname NewRandomAccessFile cache_id e n (len contents) (cl_cache st) = Some (OK, Some h, cl_cache st') /\
     cached st' /\ cl_handles st' = (h, tf) :: cl_handles st /\ table_opened options (tf_table tf) contents /\
     (cl_latest st (table_key n) = Some tf \/ tb_cache_id (tf_table tf) = cache_id)) \/
  (ok (fst found) = false /\ FindTable options dbname NewRandomAccessFile cache_id e n (len contents) (cl_cache st) = Some (fst found, None, cl_cache st)).
Proof.
  destruct Hst as [(ms & S) Htab]. unfold FindTable.
  destruct (lookup_sound st ms (table_key n) S (proj1 Hfew)) as (c1 & r & ms1 & El & Hr). rewrite El. cbn [mbind option_bind].
  destruct r as [h|].
  - destruct Hr as (tf & Ev & Elat & S1). left. eexists h, tf, {| cl_cache := c1; cl_handles := (h, tf) :: cl_handles st; cl_inserted := cl_inserted st; cl_latest := cl_latest st |}.
    split; [done|]. split; [split; [by exists ms1|done]|]. split; [done|]. split; [by apply (Htab n)|by left].
  - apply lookup_miss in El as ->. destruct found as [s file] eqn:Ef. cbn [fst snd] in Hopen. destruct (ok s) eqn:Eok; [|right; split; [done|by cbn [mbind option_bind]; rewrite Eok]].
    left. destruct (Open_holds options dom Hname contents es file cache_id Hholds (Hopen eq_refl)) as (t & Eo & Ho & Eid). rewrite Eo. cbn [mbind option_bind ok OK].
    destruct (insert_sound st ms e (table_key n) {| tf_file := file; tf_table := t |} 1 S He Hfew) as (c' & ms' & -> & S'). cbn [mbind option_bind].
    match type of S' with sound ?x _ => exists e, {| tf_file := file; tf_table := t |}, x end. split; [reflexivity|]. split; [|split; [reflexivity|split; [done|by right]]].
    split; [by exists ms'|]. intros m tf contents' Hm Hlat Hd. cbn [cl_latest] in Hlat. unfold set_latest in Hlat. destruct (decide (table_key m = table_key n)) as [Ek|_].
    + apply table_key_inj in Ek as ->; [|done..]. injection Hlat as <-. rewrite Hdisk in Hd. by injection Hd as <-.
    + by apply (Htab m).
Qed.

(** The block cache is right about the table, whether it is in the table cache or
    table_opened now. *)
Context (block_cache : option (bytes -> option Block)) (ro : ReadOptions).
Context (Hbc : forall t, table_opened options t contents -> (exists tf, cl_latest st (table_key n) = Some tf /\ tf_table tf = t) \/ tb_cache_id t = cache_id ->
  coherent_for options dom block_cache t).

(** What FindTable gives when it does not fail. *)
Definition finds (h : nat) (tf : TableAndFile) (st' : @Client TableAndFile) : Prop :=
  FindTable options dbname NewRandomAccessFile cache_id e n (len contents) (cl_cache st) = Some (OK, Some h, cl_cache st') /\
  cached st' /\ cl_handles st' = (h, tf) :: cl_handles st /\ table_opened options (tf_table tf) contents /\
  (cl_latest st (table_key n) = Some tf \/ tb_cache_id (tf_table tf) = cache_id).

Lemma finds_coherent h tf st' : finds h tf st' -> coherent_for options dom block_cache (tf_table tf).
Proof. intros (_ & _ & _ & Ho & [?|?]); apply Hbc; [done|left; by exists tf|done|by right]. Qed.

Lemma tc_Get_ok h tf st1 k : finds h tf st1 -> dom k -> exists saved st',
  tc_Get options dbname NewRandomAccessFile cache_id block_cache ro e n (len contents) k (cl_cache st) = Some (OK, saved, cl_cache st') /\
  get_finds options es k saved /\ cached st' /\ cl_handles st' = cl_handles st.
Proof.
  intros Hfinds Hk. pose proof (finds_coherent _ _ _ Hfinds) as Hcoh. destruct Hfinds as (E & Hst1 & Eh & Ho & _).
  unfold tc_Get. rewrite E. cbn [mbind option_bind ok OK]. destruct Hst1 as [(ms1 & S1) Ht1].
  rewrite (handle_value st1 ms1 h tf S1) by (rewrite Eh; left). cbn [mbind option_bind].
  destruct (opened_get options dom Hname (tf_table tf) contents es block_cache ro k Hholds Ho Hcoh Hk) as (saved & -> & Hg). cbn [mbind option_bind].
  destruct (release_sound st1 ms1 h tf (cl_handles st) S1) as (c2 & ms2 & -> & S2); [by rewrite Eh|]. cbn [mbind option_bind].
  match type of S2 with sound ?x _ => exists saved, x end. split; [reflexivity|]. split; [done|]. split; [|reflexivity]. split; [by exists ms2|exact Ht1].
Qed.

Lemma tc_NewIterator_ok h tf st1 fuel : finds h tf st1 -> (length es + 2 < fuel)%nat -> exists it,
  tc_NewIterator options dbname NewRandomAccessFile cache_id block_cache ro fuel e n (len contents) (cl_cache st) = Some (it, Some h, cl_cache st1) /\
  iterates (FileIterator options block_cache ro fuel) c dom es it None.
Proof.
  intros Hfinds Hf. pose proof (finds_coherent _ _ _ Hfinds) as Hcoh. destruct Hfinds as (E & Hst1 & Eh & Ho & _).
  unfold tc_NewIterator. rewrite E. cbn [mbind option_bind ok OK]. destruct Hst1 as [(ms1 & S1) _].
  rewrite (handle_value st1 ms1 h tf S1) by (rewrite Eh; left). cbn [mbind option_bind].
  eexists. split; [reflexivity|].
  destruct (opened_iterates options dom Hname (tf_table tf) contents es block_cache ro fuel Hholds Ho Hcoh Hf) as (R & HR & Hr).
  exists (sum_rel (A := EmptyIterator) (B := OpenTable options block_cache ro fuel) (fun _ _ => False) R). split; [apply _|done].
Qed.
End Calls.

Lemma Evict_ok st n : cached st -> exists st', Evict n (cl_cache st) = Some (cl_cache st') /\ cached st' /\ cl_handles st' = cl_handles st /\ cl_latest st' (table_key n) = None.
Proof.
  intros [(ms & S) Htab]. unfold Evict. destruct (erase_sound st ms (table_key n) S) as (c' & ms' & -> & S').
  match type of S' with sound ?x _ => exists x end. split; [reflexivity|]. split; [|split; [reflexivity|]].
  - split; [by exists ms'|]. intros m tf contents Hm Hlat. cbn [cl_latest] in Hlat. unfold set_latest in Hlat. destruct (decide _); [done|by apply Htab].
  - cbn [cl_latest]. unfold set_latest. by rewrite decide_True.
Qed.

Lemma UnrefEntry_ok st h tf hs : cached st -> cl_handles st ≡ₚ (h, tf) :: hs -> exists st', UnrefEntry h (cl_cache st) = Some (cl_cache st') /\ cached st' /\ cl_handles st' = hs.
Proof.
  intros [(ms & S) Htab] Hh. unfold UnrefEntry. destruct (release_sound st ms h tf hs S Hh) as (c' & ms' & -> & S').
  match type of S' with sound ?x _ => exists x end. split; [reflexivity|]. split; [|reflexivity]. split; [by exists ms'|exact Htab].
Qed.
End Cached.

(** ** The interface of reads *)

(** An entry that InternalGet leaves out is for another user key. *)
Lemma get_finds_user (ucmp : Comparator) `{!ComparatorOk ucmp all_keys} (options : TableOptions) es k saved : o_comparator options = InternalKeyComparator ucmp ->
  Forall (fun e => is_ikey (fst e)) es -> is_ikey k -> get_finds options es k saved ->
  saved = seek_kv options es k \/ (saved = None /\ forall e, seek_kv options es k = Some e -> ExtractUserKey (fst e) <> ExtractUserKey k).
Proof.
  intros Ec Hes Hk [->|(-> & a & e & Es & Ha & He & Hak & Hae & Hsep)]; [by left|right; split; [done|]]. rewrite Es. intros e' [= <-] Eu.
  rewrite Ec in Hak, Hae, Hsep. rewrite Forall_forall in Hes. cbn [InternalKeyComparator FindShortestSeparator] in Hsep.
  unfold ikc_FindShortestSeparator in Hsep. cbv zeta in Hsep.
  destruct (andb _ _) eqn:Et in Hsep; [|apply (ikc_anti (ucmp := ucmp)) in Hak; lia].
  apply andb_true_iff in Et as [Hl%Z.ltb_lt Hlt%Z.ltb_lt]. set (tmp := FindShortestSeparator ucmp (ExtractUserKey (fst a)) (ExtractUserKey (fst e))) in *.
  assert (Compare ucmp (ExtractUserKey (fst a)) (ExtractUserKey (fst e)) <= 0) as Hle by (apply (ikc_user_le (ucmp := ucmp)); lia).
  assert (Compare ucmp tmp (ExtractUserKey (fst e)) < 0) as Hte.
  { destruct (Z.eq_dec (Compare ucmp (ExtractUserKey (fst a)) (ExtractUserKey (fst e))) 0) as [E0|].
    - apply (cmp_eq (dom := all_keys)) in E0; [|done..]. subst tmp. rewrite <- E0, cmp_separator_same in Hl by done. lia.
    - apply (cmp_separator (dom := all_keys)); [done..|lia]. }
  apply (ikc_user_le (ucmp := ucmp)) in Hsep. unfold PutFixed64 in Hsep. rewrite ExtractUserKey_app, <- Eu in Hsep by reflexivity.
  apply (cmp_anti (c := ucmp) (dom := all_keys)) in Hte; [lia|done..].
Qed.

(** A table that a builder has written: the bytes on the disk. *)
Definition table_bytes `{!Snappy} (options : TableOptions) (contents : bytes) (es : list entry) : Prop :=
  exists b b', builds options b es /\ Finish options b = Some (OK, b') /\ contents = wf_contents (r_file b').

(** TableCache::Get as Version::Get uses it. *)
Definition cached_reader `{!Snappy} (options : TableOptions) (dbname : bytes) (open : bytes -> Status * RandomAccessFile) (cache_id : Z)
    (block_cache : option (bytes -> option Block)) (ro : ReadOptions) (e : nat) (st : @Client TableAndFile) : TableReader :=
  fun number size k =>
    match tc_Get options dbname open cache_id block_cache ro e number size k (cl_cache st) with
    | Some (s, saved, _) => (s, saved)
    | None => (NewErrorIterator (NotFound []), None)
    end.

(** ** The claim *)

(** C5. The table cache.  Let the cache hold any tables that are open on the
    files of the disk, and let file [n] be a table that a TableBuilder wrote with
    the entries [es].  If the table is not cached and its file cannot be table_opened,
    under neither name, Get and NewIterator report the error of the first open
    and leave the cache as it was.  Otherwise Get reports OK and the entry that a
    seek finds (or none, when that entry is for another user key), which is what
    Version::Get relies on, and has released its handle; NewIterator gives an
    iterator over exactly [es] and keeps its handle, which UnrefEntry releases;
    in all cases the tables in the cache are still open on the files of the disk.
    After Evict the table is not in the cache. *)
Theorem table_cache_serves_reads `{Hsnappy : !Snappy} `{Hsnappyok : !SnappyOk} (options : TableOptions) (dbname : bytes) (ucmp : Comparator)
    (Hucmp : ComparatorOk ucmp all_keys) (Hcmp : o_comparator options = InternalKeyComparator ucmp)
    (Hcomp : o_compression options = kNoCompression \/ o_compression options = kSnappyCompression)
    (Hname : match o_filter_policy options with Some (name, _) => len name < 2 ^ 30 | None => True end)
    (disk : Z -> option bytes) (st : @Client TableAndFile) (Hst : cached options disk st) (Hfew : few st)
    (e : nat) (He : cache_node (cl_cache st) e = None)
    (f : FileMetaData) (contents : bytes) (es : list entry) (Hf : 0 <= fm_number f < 2 ^ 64 /\ fm_file_size f = len contents)
    (Hdisk : disk (fm_number f) = Some contents) (Htable : table_bytes options contents es)
    (Hes : sorted_keys (InternalKeyComparator ucmp) es /\ Forall (fun e => is_ikey (fst e)) es) (Hsize : weight 64 es < 2 ^ 31 /\ len contents < 2 ^ 63)
    (open : bytes -> Status * RandomAccessFile) (cache_id : Z) (block_cache : option (bytes -> option Block)) (ro : ReadOptions)
    (Hopen : let found := open_table_file dbname open (fm_number f) in ok (fst found) = true -> file_reads (snd found) contents)
    (Hbc : forall t, table_opened options t contents ->
       (exists tf, cl_latest st (table_key (fm_number f)) = Some tf /\ tf_table tf = t) \/ tb_cache_id t = cache_id -> coherent_for options is_ikey block_cache t)
    (fuel : nat) (Hfuel : (length es + 2 < fuel)%nat) :
  let found := open_table_file dbname open (fm_number f) in
  let get k := tc_Get options dbname open cache_id block_cache ro e (fm_number f) (fm_file_size f) k (cl_cache st) in
  let new_iterator := tc_NewIterator options dbname open cache_id block_cache ro fuel e (fm_number f) (fm_file_size f) (cl_cache st) in
  (ok (fst found) = false /\ (forall k, is_ikey k -> get k = Some (fst found, None, cl_cache st)) /\
     new_iterator = Some (inl (NewErrorIterator (fst found)), None, cl_cache st) \/
   reads_file ucmp (cached_reader options dbname open cache_id block_cache ro e st) (fun _ => es) f /\
   (forall k, is_ikey k -> exists saved st', get k = Some (OK, saved, cl_cache st') /\ cached options disk st' /\ cl_handles st' = cl_handles st) /\
   exists it h tf st', new_iterator = Some (it, Some h, cl_cache st') /\
     iterates (FileIterator options block_cache ro fuel) (InternalKeyComparator ucmp) is_ikey es it None /\
     cached options disk st' /\ cl_handles st' = (h, tf) :: cl_handles st /\
     exists st'', UnrefEntry h (cl_cache st') = Some (cl_cache st'') /\ cached options disk st'' /\ cl_handles st'' = cl_handles st) /\
  exists st', Evict (fm_number f) (cl_cache st) = Some (cl_cache st') /\ cached options disk st' /\ cl_latest st' (table_key (fm_number f)) = None.
Proof.
  cbv zeta in *. rewrite (proj2 Hf). destruct Hf as [Hn Esize], Hes as [Hs Hd], Hsize as [Hw Hl].
  assert (ComparatorOk (o_comparator options) is_ikey) as Hc by (rewrite Hcmp; apply _).
  assert (table_holds options is_ikey contents es) as Hholds.
  { destruct Htable as (b & b' & Hb & Ef & ->). eapply built_table_holds; try done; rewrite Hcmp; [apply InternalKeyComparator_short|done]. }
  split; [|destruct (Evict_ok options disk st (fm_number f) Hst) as (st' & E & H1 & _ & H2); by exists st'].
  destruct (FindTable_ok options is_ikey Hname dbname disk open cache_id e st Hst Hfew He (fm_number f) contents es Hn Hdisk Hholds Hopen)
    as [(h & tf & st1 & Hfinds)|[Eok Ef]]; [right|left].
  - assert (forall k, is_ikey k -> exists saved st', tc_Get options dbname open cache_id block_cache ro e (fm_number f) (len contents) k (cl_cache st) =
      Some (OK, saved, cl_cache st') /\ get_finds options es k saved /\ cached options disk st' /\ cl_handles st' = cl_handles st) as Hget
      by (intros k Hk; by eapply tc_Get_ok).
    split; [|split].
    + intros k Hk. destruct (Hget k Hk) as (saved & st' & E & Hg & _). exists saved. unfold cached_reader.
      rewrite Esize, E. split; [done|]. apply (get_finds_user ucmp options es k saved Hcmp Hd Hk) in Hg.
      unfold seek_entry. unfold seek_kv in Hg. by rewrite Hcmp in Hg.
    + intros k Hk. destruct (Hget k Hk) as (saved & st' & E & _ & H1 & H2). by exists saved, st'.
    + destruct (tc_NewIterator_ok options is_ikey Hname dbname disk open cache_id e st (fm_number f) contents es Hholds block_cache ro Hbc h tf st1 fuel Hfinds Hfuel)
        as (it & E & Hit). destruct Hfinds as (_ & Hst1 & Eh & _). exists it, h, tf, st1. rewrite <- Hcmp. split; [done|]. split; [done|]. split; [done|]. split; [done|].
      apply (UnrefEntry_ok options disk st1 h tf (cl_handles st) Hst1). by rewrite Eh.
  - split; [done|]. split.
    + intros k Hk. unfold tc_Get. rewrite Ef. cbn [mbind option_bind]. by rewrite Eok.
    + unfold tc_NewIterator. rewrite Ef. cbn [mbind option_bind]. by rewrite Eok.
Qed.

(** File 7 with one entry, in a cache that is empty. *)
Definition cache_options : TableOptions :=
  {| o_comparator := InternalKeyComparator BytewiseComparator; o_block_size := 4096; o_block_restart_interval := 16;
     o_compression := kNoCompression; o_filter_policy := None |}.

Definition table_7 : bytes :=
  match (b ← add_all cache_options (new_TableBuilder cache_options {| wf_contents := []; wf_script := [] |}) [entry_d9]; Finish cache_options b) with
  | Some (_, b') => wf_contents (r_file b')
  | None => []
  end.
Definition disk_7 (n : Z) : option bytes := if n =? 7 then Some table_7 else None.
Definition meta_7 : FileMetaData := file_meta 7 (len table_7) (fst entry_d9) (fst entry_d9).
Definition open_7 (name : bytes) : Status * RandomAccessFile := (OK, memory_file table_7).
Definition plain_reads : ReadOptions := {| verify_checksums := true; fill_cache := true |}.

Lemma table_cache_serves_reads_witness : exists saved st',
  tc_Get cache_options [] open_7 1 None plain_reads 1 (fm_number meta_7) (fm_file_size meta_7) (InternalKey [Byte.x64] 10 kValueTypeForSeek)
    (cl_cache (CacheSpec.start 10)) = Some (OK, saved, cl_cache st') /\
  reads_file BytewiseComparator (cached_reader cache_options [] open_7 1 None plain_reads 1 (CacheSpec.start 10)) (fun _ => [entry_d9]) meta_7 /\
  cached cache_options disk_7 st'.
Proof.
  destruct (table_cache_serves_reads cache_options [] BytewiseComparator BytewiseComparator_ok eq_refl (or_introl eq_refl) I disk_7 (CacheSpec.start 10)
    (cached_start cache_options disk_7 10) ltac:(split; vm_compute; reflexivity) 1 ltac:(vm_compute; reflexivity) meta_7 table_7 [entry_d9]
    ltac:(split; [vm_compute; split; [discriminate|reflexivity]|reflexivity]) eq_refl) with (open := open_7) (cache_id := 1) (block_cache := @None (bytes -> option Block)) (ro := plain_reads) (fuel := 4%nat)
    as [[(Hno & _)|(Hread & Hget & _)] _].
  - eexists _, _. split; [exists []; vm_compute; reflexivity|]. split; vm_compute; reflexivity.
  - split; [|repeat constructor; vm_compute; discriminate]. by intros [|i] [|j] a b Hij Ha Hb; simpl in Hb; try lia.
  - split; vm_compute; reflexivity.
  - cbv zeta. intros _ offset n _ _ _. by exists true.
  - intros t _ _ contents blocks ix _ _ lookup b Hl. discriminate Hl.
  - simpl. lia.
  - discriminate Hno.
  - destruct (Hget (InternalKey [Byte.x64] 10 kValueTypeForSeek)) as (saved & st' & E & Hst' & _); [vm_compute; discriminate|].
    exists saved, st'. split; [exact E|]. split; [exact Hread|exact Hst'].
Defined.
