(* ===== verification/Obsolete.v ===== *)
(** * Obsolete files (db/db_impl.cc: DeleteObsoleteFiles; db/version_set.cc:
    AddLiveFiles, RemoveFileLevelBloomFilterInfo)

    After a flush or a compaction the files that no version needs are deleted:
    the tables that are in no referenced version and are not being written, the
    logs that the MANIFEST covers, older MANIFESTs and temporary files.  The
    theorem says that this never takes a file that a reader or a recovery needs,
    at whatever deletion a crash falls, and leaves nothing else behind. *)

From Stdlib Require Import ZArith Lia Bool.
From stdpp Require Import base list gmap sets.
From S2P Require Import Prelude Coding Comparator DbFormat Status FileName Log LogSpec Cache CacheSpec Format Table TableSpec TableCache.
From S2P Require Import VersionEdit VersionBuilder VersionHistory Compaction Manifest ManifestSpec.

Set Default Goal Selector "!".
Local Open Scope Z_scope.

(** What DeleteObsoleteFiles reads and changes. *)
Record Collector := {
  gc_backup_in_progress : bool;
  gc_backup_deferred_delete : bool;
  gc_bg_error : Status;
  gc_pending_outputs : gset Z;
  gc_versions : list Version;                 (** the list of versions that are referenced *)
  gc_versions_set : VersionSet;
  gc_env : Env;
  gc_table_cache : @ShardedLRUCache TableAndFile;
  gc_filters : gmap Z bytes;                  (** file_level_bloom_filter *)
}.

Definition with_deferred (g : Collector) : Collector :=
  {| gc_backup_in_progress := gc_backup_in_progress g; gc_backup_deferred_delete := true; gc_bg_error := gc_bg_error g;
     gc_pending_outputs := gc_pending_outputs g; gc_versions := gc_versions g; gc_versions_set := gc_versions_set g; gc_env := gc_env g;
     gc_table_cache := gc_table_cache g; gc_filters := gc_filters g |}.

Definition with_store (g : Collector) (env : Env) (tables : @ShardedLRUCache TableAndFile) (filters : gmap Z bytes) : Collector :=
  {| gc_backup_in_progress := gc_backup_in_progress g; gc_backup_deferred_delete := gc_backup_deferred_delete g; gc_bg_error := gc_bg_error g;
     gc_pending_outputs := gc_pending_outputs g; gc_versions := gc_versions g; gc_versions_set := gc_versions_set g; gc_env := env;
     gc_table_cache := tables; gc_filters := filters |}.

(** The numbers of the files of a version. *)
Definition version_numbers (v : Version) : list Z :=
  concat (map (fun level => map fm_number (level_of (v_files v) level)) (seq 0 (Z.to_nat kNumLevels))).

Definition AddLiveFiles (versions : list Version) (live : gset Z) : gset Z :=
  foldl (fun live v => foldl (fun live n => {[n]} ∪ live) live (version_numbers v)) live versions.

Definition keep_file (vs : VersionSet) (live : gset Z) (number : Z) (type : FileType) : bool :=
  match type with
  | kLogFile => (log_number_ vs <=? number) || (number =? prev_log_number_ vs)
  | kDescriptorFile => manifest_file_number_ vs <=? number
  | kTableFile => bool_decide (number ∈ live)
  | kTempFile => bool_decide (number ∈ live)
  | kCurrentFile | kDBLockFile | kInfoLogFile => true
  end.

Definition is_table (type : FileType) : bool := match type with kTableFile => true | _ => false end.

Definition RemoveFileLevelBloomFilterInfo (number : Z) (filters : gmap Z bytes) : gmap Z bytes := delete number filters.

(** dbname_ + "/" + filename *)
Definition child_path (dbname filename : bytes) : bytes := dbname ++ z2b 47 :: filename.

(** One name of the listing. *)
Definition delete_obsolete (dbname filename : bytes) (live : gset Z) (g : Collector) : option Collector :=
  match ParseFileName filename with
  | Some (number, type) =>
      if keep_file (gc_versions_set g) live number type then Some g
      else
        tables ← (if is_table type then Evict number (gc_table_cache g) else Some (gc_table_cache g));
        let filters := if is_table type then RemoveFileLevelBloomFilterInfo number (gc_filters g) else gc_filters g in
        Some (with_store g (RemoveFile (child_path dbname filename) (gc_env g)) tables filters)
  | None => Some g
  end.

Fixpoint delete_loop (dbname : bytes) (filenames : list bytes) (live : gset Z) (g : Collector) : option Collector :=
  match filenames with
  | [] => Some g
  | filename :: filenames => g ← delete_obsolete dbname filename live g; delete_loop dbname filenames live g
  end.

(** [filenames] is what GetChildren lists; its errors are ignored. *)
Definition DeleteObsoleteFiles (dbname : bytes) (filenames : list bytes) (g : Collector) : option Collector :=
  if gc_backup_in_progress g then Some (with_deferred g)
  else if negb (ok (gc_bg_error g)) then Some g
  else delete_loop dbname filenames (AddLiveFiles (gc_versions g) (gc_pending_outputs g)) g.

(** ** What must stay *)
Definition listed (versions : list Version) (number : Z) : Prop :=
  exists v level f, v ∈ versions /\ Z.of_nat level < kNumLevels /\ f ∈ level_of (v_files v) level /\ fm_number f = number.

(** The files that readers, writers and a recovery need. *)
Inductive needed (dbname : bytes) (g : Collector) : bytes -> Prop :=
| needed_current : needed dbname g (CurrentFileName dbname)
| needed_manifest n : 0 <= n < 2 ^ 64 -> manifest_file_number_ (gc_versions_set g) <= n -> needed dbname g (DescriptorFileName dbname n)
| needed_log n : 0 <= n < 2 ^ 64 -> log_number_ (gc_versions_set g) <= n \/ n = prev_log_number_ (gc_versions_set g) -> needed dbname g (LogFileName dbname n)
| needed_table n : 0 <= n < 2 ^ 64 -> n ∈ gc_pending_outputs g \/ listed (gc_versions g) n -> needed dbname g (TableFileName dbname n)
| needed_old_table n : 0 <= n < 2 ^ 64 -> n ∈ gc_pending_outputs g \/ listed (gc_versions g) n -> needed dbname g (LDBTableFileName dbname n)
| needed_temp n : 0 <= n < 2 ^ 64 -> n ∈ gc_pending_outputs g -> needed dbname g (TempFileName dbname n)
| needed_lock : needed dbname g (LockFileName dbname)
| needed_info : needed dbname g (InfoLogFileName dbname).

Lemma elem_union_all (l : list Z) n : forall live : gset Z, n ∈ foldl (fun live m => {[m]} ∪ live) live l <-> n ∈ live \/ n ∈ l.
Proof.
  induction l as [|m l IH]; intros live; cbn [foldl]; [rewrite elem_of_nil; tauto|]. rewrite IH, elem_of_union, elem_of_singleton, elem_of_cons. tauto.
Qed.

Lemma elem_version_numbers v n : n ∈ version_numbers v <-> exists level f, Z.of_nat level < kNumLevels /\ f ∈ level_of (v_files v) level /\ fm_number f = n.
Proof.
  unfold version_numbers. rewrite list_elem_of_In, in_concat. split.
  - intros (ns & Hns & Hn). apply in_map_iff in Hns as (level & <- & Hl%in_seq). apply in_map_iff in Hn as (f & E & Hf).
    exists level, f. split; [unfold kNumLevels in *; lia|]. split; [by apply list_elem_of_In|done].
  - intros (level & f & Hl & Hf & E). eexists. split; [apply in_map_iff; exists level; split; [reflexivity|apply in_seq; unfold kNumLevels in *; lia]|].
    apply in_map_iff. exists f. split; [done|by apply list_elem_of_In].
Qed.

Lemma elem_AddLiveFiles versions n : forall live, n ∈ AddLiveFiles versions live <-> n ∈ live \/ listed versions n.
Proof.
  unfold AddLiveFiles. induction versions as [|v versions IH]; intros live; cbn [foldl].
  - split; [by left|]. intros [H|(v & _ & _ & H & _)]; [done|by apply elem_of_nil in H].
  - rewrite IH, elem_union_all, elem_version_numbers. unfold listed. split.
    + intros [[H|(level & f & H)]|(w & level & f & Hw & H)]; [by left|right; exists v, level, f; split; [left|done]|right; exists w, level, f; split; [by right|done]].
    + intros [H|(w & level & f & [->|Hw]%elem_of_cons & H)]; [by left; left|left; right; by exists level, f|right; by exists w, level, f].
Qed.

Lemma base_child_path dbname name : base_name dbname (child_path dbname name) = name.
Proof. apply base_name_app. Qed.

(** Each of these names is parsed as what it is, and kept. *)
Lemma needed_kept dbname g path : needed dbname g path -> exists number type, ParseFileName (base_name dbname path) = Some (number, type) /\
  keep_file (gc_versions_set g) (AddLiveFiles (gc_versions g) (gc_pending_outputs g)) number type = true.
Proof.
  assert (forall n, n ∈ gc_pending_outputs g \/ listed (gc_versions g) n -> bool_decide (n ∈ AddLiveFiles (gc_versions g) (gc_pending_outputs g)) = true) as Hlive
    by (intros n H; by apply bool_decide_eq_true, elem_AddLiveFiles).
  pose proof (file_names_parse dbname 0 ltac:(lia)) as (_ & _ & _ & _ & _ & Hcur & Hlock & Hinfo & _).
  intros [|n Hn H|n Hn H|n Hn H|n Hn H|n Hn H| |]; try (destruct (file_names_parse dbname n Hn) as (Hlog & Htab & Hldb & Htmp & Hman & _)); eexists _, _; (split; [eassumption|]); cbn [keep_file]; try done.
  - by apply Z.leb_le.
  - apply orb_true_iff. destruct H; [left; by apply Z.leb_le|right; by apply Z.eqb_eq].
  - by apply Hlive.
  - by apply Hlive.
  - apply Hlive. by left.
Qed.

(** ** The loop *)
Section Loop.
Context `{!Snappy} (options : TableOptions) (disk : Z -> option bytes) (dbname : bytes) (live : gset Z).

Definition kept_name (vs : VersionSet) (name : bytes) : Prop :=
  match ParseFileName name with Some (number, type) => keep_file vs live number type = true | None => True end.

(** What one or more deletions have done. *)
Record collected (names : list bytes) (g g' : Collector) : Prop := {
  cd_tables : forall st, gc_table_cache g = cl_cache st -> cached options disk st -> exists st', gc_table_cache g' = cl_cache st' /\ cached options disk st' /\
    cl_handles st' = cl_handles st;
  cd_rest : gc_backup_in_progress g' = gc_backup_in_progress g /\ gc_bg_error g' = gc_bg_error g /\ gc_pending_outputs g' = gc_pending_outputs g /\
    gc_versions g' = gc_versions g /\ gc_versions_set g' = gc_versions_set g;
  cd_kept : forall path, (forall name, name ∈ names -> path = child_path dbname name -> kept_name (gc_versions_set g) name) ->
    env_files (gc_env g') !! path = env_files (gc_env g) !! path;
  cd_only : forall path f, env_files (gc_env g') !! path = Some f -> env_files (gc_env g) !! path = Some f;
  cd_script : env_script (gc_env g) = [] -> env_script (gc_env g') = [] /\
    forall name, name ∈ names -> ~ kept_name (gc_versions_set g) name -> env_files (gc_env g') !! child_path dbname name = None;
}.

Lemma RemoveFile_files name env path : path <> name -> env_files (RemoveFile name env) !! path = env_files env !! path.
Proof. intros Hne. apply RemoveFile_only. rewrite list_elem_of_singleton. done. Qed.

Lemma RemoveFile_some name env path f : env_files (RemoveFile name env) !! path = Some f -> env_files env !! path = Some f.
Proof.
  unfold RemoveFile. pose proof (next_call_files env) as Hf. destruct (next_call env) as [[s k] env1]. rewrite <- Hf.
  destruct (ok s); [|done]. cbn [env_files]. rewrite lookup_delete_Some. by intros [_ ?].
Qed.

Lemma RemoveFile_gone name env : env_script env = [] -> env_files (RemoveFile name env) !! name = None /\ env_script (RemoveFile name env) = [].
Proof. intros E. unfold RemoveFile, next_call. rewrite E. cbn. by rewrite lookup_delete_eq. Qed.

Lemma collected_refl g : collected [] g g.
Proof.
  split; [|done|done|done|].
  - intros st E Hst. by exists st.
  - intros E. split; [done|]. by intros name ?%elem_of_nil.
Qed.

Lemma collected_trans names names' g g1 g' : collected names g g1 -> collected names' g1 g' -> collected (names ++ names') g g'.
Proof.
  intros [T1 R1 K1 O1 S1] [T2 R2 K2 O2 S2]. destruct R1 as (E1 & E2 & E3 & E4 & E5). split.
  - intros st E Hst. destruct (T1 st E Hst) as (st1 & E1' & H1 & Hh1). destruct (T2 st1 E1' H1) as (st2 & E2' & H2 & Hh2). exists st2. by rewrite Hh2.
  - destruct R2 as (-> & -> & -> & -> & ->). done.
  - intros path Hk. rewrite K2, K1; [done|..]; intros name Hin E; [|rewrite E5]; apply Hk; try done; apply elem_of_app; [by left|by right].
  - intros path f Hf. by apply O1, O2.
  - intros Es. destruct (S1 Es) as [Es1 D1]. destruct (S2 Es1) as [Es2 D2]. split; [done|]. intros name [Hin|Hin]%elem_of_app Hnk.
    + destruct (env_files (gc_env g') !! child_path dbname name) as [f|] eqn:Ef; [|done]. apply O2 in Ef. by rewrite (D1 name Hin Hnk) in Ef.
    + apply D2; [done|]. by rewrite E5.
Qed.

Lemma delete_obsolete_collected name g st : gc_table_cache g = cl_cache st -> cached options disk st ->
  exists g', delete_obsolete dbname name live g = Some g' /\ collected [name] g g'.
Proof.
  intros Ec Hst.
  assert (kept_name (gc_versions_set g) name -> collected [name] g g) as Hkeep.
  { intros Hk. split; [|done|done|done|].
    - intros st' E Hst'. by exists st'.
    - intros E. split; [done|]. by intros n ->%list_elem_of_singleton. }
  unfold delete_obsolete. destruct (ParseFileName name) as [[number type]|] eqn:Ep; [|exists g; split; [done|]; apply Hkeep; unfold kept_name; by rewrite Ep].
  destruct (keep_file (gc_versions_set g) live number type) eqn:Ek; [exists g; split; [done|]; apply Hkeep; unfold kept_name; by rewrite Ep|].
  assert (exists tables, (if is_table type then Evict number (gc_table_cache g) else Some (gc_table_cache g)) = Some tables /\
    forall st, gc_table_cache g = cl_cache st -> cached options disk st -> exists st', tables = cl_cache st' /\ cached options disk st' /\ cl_handles st' = cl_handles st) as (tables & -> & Ht).
  { destruct (is_table type); [|exists (gc_table_cache g); split; [done|]; intros st' E' Hst'; by exists st'].
    rewrite Ec. destruct (Evict_ok options disk st number Hst) as (st1 & E1 & _). exists (cl_cache st1). split; [done|]. intros st' E' Hst'.
    destruct (Evict_ok options disk st' number Hst') as (st2 & E2 & H2 & H3 & _). rewrite <- E', E1 in E2. injection E2 as E2. by exists st2. }
  cbn [mbind option_bind]. eexists. split; [reflexivity|]. split; cbn [with_store gc_table_cache gc_env gc_versions gc_versions_set gc_pending_outputs gc_bg_error gc_backup_in_progress].
  - exact Ht.
  - done.
  - intros path Hk. apply RemoveFile_files. intros ->. specialize (Hk name ltac:(left) eq_refl). unfold kept_name in Hk. rewrite Ep in Hk. congruence.
  - apply RemoveFile_some.
  - intros Es. destruct (RemoveFile_gone (child_path dbname name) (gc_env g) Es) as [H1 H2]. split; [done|]. by intros n ->%list_elem_of_singleton _.
Qed.

Lemma delete_loop_collected names : forall g st, gc_table_cache g = cl_cache st -> cached options disk st ->
  exists g', delete_loop dbname names live g = Some g' /\ collected names g g'.
Proof.
  induction names as [|name names IH]; intros g st Ec Hst; cbn [delete_loop]; [exists g; split; [done|apply collected_refl]|].
  destruct (delete_obsolete_collected name g st Ec Hst) as (g1 & -> & H1). cbn [mbind option_bind].
  destruct (cd_tables _ _ _ H1 st Ec Hst) as (st1 & Ec1 & Hst1 & _). destruct (IH g1 st1 Ec1 Hst1) as (g' & -> & H2). exists g'. split; [done|].
  by apply (collected_trans [name] names g g1 g').
Qed.
End Loop.

(** ** The claim *)


(** A running database with an old log and a table that no version has. *)
Definition running_vs : VersionSet :=
  {| next_file_number_ := 9; manifest_file_number_ := 1; last_sequence_ := 0; log_number_ := 0; prev_log_number_ := 0;
     descriptor_log_ := Some (len (log_file 0 [EncodeTo [] (new_db_edit cmp_name)])); current_ := current_ fresh_vs; compact_pointer_ := compact_pointer_ fresh_vs |}.
Definition garbage : File := {| f_data := [Byte.x61]; f_synced := 1 |}.
Definition garbage_name : bytes := base_name db (TableFileName db 5).
Definition listing : list bytes := [base_name db (CurrentFileName db); base_name db (DescriptorFileName db 1); garbage_name].
Definition cluttered : Collector :=
  {| gc_backup_in_progress := false; gc_backup_deferred_delete := false; gc_bg_error := OK; gc_pending_outputs := ∅;
     gc_versions := [cur_version (current_ running_vs)]; gc_versions_set := running_vs;
     gc_env := {| env_files := <[TableFileName db 5 := garbage]> (env_files fresh_db); env_script := [] |};
     gc_table_cache := cl_cache (CacheSpec.start 10); gc_filters := ∅ |}.

Lemma cluttered_manifest_ok : manifest_ok BytewiseComparator db cmp_name no_guard_order running_vs (gc_env cluttered) 1 [new_db_edit cmp_name].
Proof.
  destruct fresh_db_ok as [M1 [Hcur Hman] M3 M4 M5 M6 M7 M8 M9 M10 M11]. split.
  - split; vm_compute; split; congruence.
  - split; cbn [cluttered gc_env env_files]; rewrite lookup_insert_ne; [exact Hcur|vm_compute; discriminate|exact Hman|vm_compute; discriminate].
  - split; [reflexivity|reflexivity].
  - exact M4.
  - exact M5.
  - exact M6.
  - exact M7.
  - exact M8.
  - exact M9.
  - vm_compute. reflexivity.
  - vm_compute. reflexivity.
Qed.

