(* ===== verification/CompactionWork.v ===== *)
(** * The compaction loop (db/db_impl.cc: DBImpl::DoCompactionWorkGuards)

    A compaction reads the merged entries of its input files, drops the ones
    no snapshot can see, and writes the others to output tables that are split
    at the guards of the output level.

    The model keeps every call that may fail: the environment's answers to the
    next NewWritableFile calls, and the statuses of every call on the files
    they create, are part of [World]. *)

From Stdlib Require Import ZArith Lia Bool Sorting.Sorted.
From Stdlib Require Import Strings.String.
From stdpp Require Import base list sorting.
From S2P Require Import Prelude Coding Comparator DbFormat Status Iterator Block FileName Bloom FilterBlock Format Table.
From S2P Require Import BlockSpec VersionEdit Guards VersionBuilder VersionBuilderSpec VersionGet Compaction Merger DbIter TableSpec TableFiles.

Set Default Goal Selector "!".
Local Open Scope Z_scope.

(** ** CompactionState *)
Record Output := { out_number : Z; out_file_size : Z; out_smallest : bytes; out_largest : bytes }.

Record CompactionState := {
  cs_outputs : list Output;
  cs_outfile : option WritableFile;
  cs_builder : option TableBuilder;
  cs_total_bytes : Z;
}.

Definition new_CompactionState : CompactionState :=
  {| cs_outputs := []; cs_outfile := None; cs_builder := None; cs_total_bytes := 0 |}.

(** The state of the loop. *)
Record DropState := {
  dk_current_key : option bytes;     (** the user key of current_key, if has_current_key *)
  dk_last_sequence : Z;              (** last_sequence_for_key *)
  dk_level_ptrs : list nat;
}.

Record Work := {
  wk_world : World;
  wk_compact : CompactionState;
  wk_drop : DropState;
  wk_boundary_hint : nat;
  wk_current_guard : nat;
  wk_filter : FileLevelFilterBuilder;
  wk_file_numbers : list Z;
  wk_file_level_filters : list (option bytes);
}.

(** ** Statements of the loop: they change the state and go on, or break with a
    status.  [None]: abort() in the table builder. *)
Inductive Flow (A : Type) := Go (a : A) | Break (s : Status).
Arguments Go {A} a.
Arguments Break {A} s.

Definition Stmt (A : Type) := Work -> option (Work * Flow A).
Definition ret {A} (a : A) : Stmt A := fun w => Some (w, Go a).
Definition bind {A B} (m : Stmt A) (f : A -> Stmt B) : Stmt B := fun w =>
  match m w with
  | Some (w, Go a) => f a w
  | Some (w, Break s) => Some (w, Break s)
  | None => None
  end.
Definition get : Stmt Work := fun w => Some (w, Go w).
Definition put (w : Work) : Stmt unit := fun _ => Some (w, Go tt).
(** if (!status.ok()) break; *)
Definition check (s : Status) : Stmt unit := fun w => Some (w, if ok s then Go tt else Break s).

Declare Scope stmt_scope.
Delimit Scope stmt_scope with stmt.
Notation "x <- m ;; k" := (bind m (fun x => k)) (at level 90, m at next level, right associativity) : stmt_scope.
Notation "m1 ;;; m2" := (bind m1 (fun _ => m2)) (at level 90, right associativity) : stmt_scope.
Local Open Scope stmt_scope.

Section DoCompactionWork.
Context `{Hsnappy : !Snappy} (options : TableOptions) (dbname : bytes) (ucmp : Comparator).
Notation icmp := (InternalKeyComparator ucmp).
(** table_cache_->NewIterator(ReadOptions(), number, size)->status() *)
Context (table_cache_status : World -> Z -> Z -> Status).
Context (compaction : Compaction) (smallest_snapshot manual_garbage_cutoff : Z) (guards : list GuardMetaData).

Definition policy : option FilterPolicy := snd <$> o_filter_policy options.

Definition with_compact (w : Work) (world : World) (c : CompactionState) : Work :=
  {| wk_world := world; wk_compact := c; wk_drop := wk_drop w; wk_boundary_hint := wk_boundary_hint w;
     wk_current_guard := wk_current_guard w; wk_filter := wk_filter w; wk_file_numbers := wk_file_numbers w;
     wk_file_level_filters := wk_file_level_filters w |}.

Definition with_output (outputs : list Output) (f : Output -> Output) : list Output :=
  match rev outputs with o :: os => rev (f o :: os) | [] => [] end.

Definition OpenCompactionOutputFile : Stmt Status := fun w =>
  let '(file_number, world) := NewFileNumber (wk_world w) in
  let world := add_pending world file_number in
  let out := {| out_number := file_number; out_file_size := 0; out_smallest := []; out_largest := [] |} in
  let outputs := cs_outputs (wk_compact w) ++ [out] in
  let '(s, outfile, world) := NewWritableFile world in
  Some (with_compact w world
    {| cs_outputs := outputs; cs_outfile := if ok s then Some outfile else None;
       cs_builder := if ok s then Some (new_TableBuilder options outfile) else cs_builder (wk_compact w);
       cs_total_bytes := cs_total_bytes (wk_compact w) |}, Go s).

(** [input_status] is input->status(). *)
Definition FinishCompactionOutputFile (input_status : Status) : Stmt Status := fun w =>
  let c := wk_compact w in
  match cs_builder c, last (cs_outputs c) with
  | Some builder, Some out =>
      let current_entries := NumEntries builder in
      '(s, builder) ← (if ok input_status then Finish options builder else Some (input_status, Abandon builder));
      let current_bytes := FileSize builder in
      let outputs := with_output (cs_outputs c) (fun o =>
        {| out_number := out_number o; out_file_size := current_bytes; out_smallest := out_smallest o;
           out_largest := out_largest o |}) in
      let outfile := r_file builder in
      let '(s, outfile) := if ok s then Sync outfile else (s, outfile) in
      let '(s, outfile) := if ok s then Close outfile else (s, outfile) in
      let world := close_file (wk_world w) (TableFileName dbname (out_number out)) outfile in
      let '(filters, filter) :=
        match policy with
        | Some _ => let '(filter_string, _) := fl_GenerateFilter policy (wk_filter w) in
                    (wk_file_level_filters w ++ [filter_string], fl_Clear)
        | None => (wk_file_level_filters w, wk_filter w)
        end in
      let s := if ok s && (0 <? current_entries)
               then table_cache_status world (out_number out) current_bytes else s in
      Some ({| wk_world := world;
               wk_compact := {| cs_outputs := outputs; cs_outfile := None; cs_builder := None;
                                cs_total_bytes := u64 (cs_total_bytes c + current_bytes) |};
               wk_drop := wk_drop w; wk_boundary_hint := wk_boundary_hint w; wk_current_guard := wk_current_guard w;
               wk_filter := filter; wk_file_numbers := wk_file_numbers w ++ [out_number out];
               wk_file_level_filters := filters |}, Go s)
  | _, _ => None
  end.

(** *** Which entries are dropped *)

(** The drop decision for a parsed key whose user key is current, and the state
    after it. *)
Definition drop_entry (ikey : ParsedInternalKey) (d : DropState) : bool * DropState :=
  let '(drop, level_ptrs) :=
    if dk_last_sequence d <=? smallest_snapshot then (true, dk_level_ptrs d)
    else if (type_ ikey =? kTypeDeletion) && (sequence ikey <=? smallest_snapshot)
    then IsBaseLevelForKey ucmp compaction (user_key ikey) (dk_level_ptrs d)
    else (false, dk_level_ptrs d) in
  let drop := if drop && (dk_last_sequence d =? kMaxSequenceNumber) && (manual_garbage_cutoff <=? sequence ikey)
              then false else drop in
  (drop, {| dk_current_key := dk_current_key d; dk_last_sequence := sequence ikey; dk_level_ptrs := level_ptrs |}).

(** Is it the first occurrence of the user key? *)
Definition new_user_key (ikey : ParsedInternalKey) (d : DropState) : bool :=
  match dk_current_key d with
  | None => true
  | Some u => negb (Compare ucmp (user_key ikey) u =? 0)
  end.

Definition start_key (ikey : ParsedInternalKey) (d : DropState) : DropState :=
  if new_user_key ikey d
  then {| dk_current_key := Some (user_key ikey); dk_last_sequence := kMaxSequenceNumber; dk_level_ptrs := dk_level_ptrs d |}
  else d.

Definition corrupt_key (d : DropState) : DropState :=
  {| dk_current_key := None; dk_last_sequence := kMaxSequenceNumber; dk_level_ptrs := dk_level_ptrs d |}.

(** The decision for a key, as the loop makes it. *)
Definition decide_drop (key : bytes) (d : DropState) : bool * DropState :=
  let '(valid, ikey) := ParseInternalKey key ParsedInternalKey_default in
  if negb valid then (false, corrupt_key d) else drop_entry ikey (start_key ikey d).

Definition with_drop (d : DropState) : Stmt unit := fun w =>
  Some ({| wk_world := wk_world w; wk_compact := wk_compact w; wk_drop := d; wk_boundary_hint := wk_boundary_hint w;
           wk_current_guard := wk_current_guard w; wk_filter := wk_filter w; wk_file_numbers := wk_file_numbers w;
           wk_file_level_filters := wk_file_level_filters w |}, Go tt).

(** *** The body of the loop *)

(** The output is cut where two user keys lie on different sides of a boundary. *)
Definition cut_at_boundary (input_status : Status) (ikey : ParsedInternalKey) : Stmt unit :=
  w <- get ;;
  match dk_current_key (wk_drop w), cs_builder (wk_compact w) with
  | Some u, Some builder =>
      if new_user_key ikey (wk_drop w) && (c_min_output_file_size compaction <=? FileSize builder) then
        let '(crosses, hint) := CrossesBoundary ucmp compaction u (user_key ikey) (wk_boundary_hint w) in
        put {| wk_world := wk_world w; wk_compact := wk_compact w; wk_drop := wk_drop w; wk_boundary_hint := hint;
               wk_current_guard := wk_current_guard w; wk_filter := wk_filter w; wk_file_numbers := wk_file_numbers w;
               wk_file_level_filters := wk_file_level_filters w |} ;;;
        if crosses then (s <- FinishCompactionOutputFile input_status ;; check s) else ret tt
      else ret tt
  | _, _ => ret tt
  end.

Definition open_if_needed : Stmt unit :=
  w <- get ;;
  match cs_builder (wk_compact w) with
  | None => s <- OpenCompactionOutputFile ;; check s
  | Some _ => ret tt
  end.

(** The guards from index [temp] on that the user key has reached. *)
Definition reached_guards (u : bytes) (temp : nat) : nat :=
  (temp + prefix_len (fun g => (0 <=? Compare ucmp u (guard_ukey g))%Z) (drop temp guards))%nat.

Definition split_at_guards (input_status : Status) (key : bytes) : Stmt unit :=
  w <- get ;;
  let temp := reached_guards (ExtractUserKey key) (wk_current_guard w) in
  if (wk_current_guard w <? temp)%nat then
    s <- (match cs_builder (wk_compact w) with
          | Some builder => if 0 <? NumEntries builder then FinishCompactionOutputFile input_status else ret OK
          | None => ret OK
          end) ;;
    w <- get ;;
    put {| wk_world := wk_world w; wk_compact := wk_compact w; wk_drop := wk_drop w;
           wk_boundary_hint := wk_boundary_hint w; wk_current_guard := temp; wk_filter := wk_filter w;
           wk_file_numbers := wk_file_numbers w; wk_file_level_filters := wk_file_level_filters w |} ;;;
    check s
  else ret tt.

(** The entry goes to the open table. *)
Definition add_entry (key value : bytes) : Stmt unit := fun w =>
  match cs_builder (wk_compact w) with
  | None => None
  | Some builder =>
      let outputs := with_output (cs_outputs (wk_compact w)) (fun o =>
        {| out_number := out_number o; out_file_size := out_file_size o;
           out_smallest := if NumEntries builder =? 0 then key else out_smallest o; out_largest := key |}) in
      builder ← Table.Add options builder key value;
      Some ({| wk_world := wk_world w;
               wk_compact := {| cs_outputs := outputs; cs_outfile := cs_outfile (wk_compact w);
                                cs_builder := Some builder; cs_total_bytes := cs_total_bytes (wk_compact w) |};
               wk_drop := wk_drop w; wk_boundary_hint := wk_boundary_hint w; wk_current_guard := wk_current_guard w;
               wk_filter := fl_AddKey policy (wk_filter w) key; wk_file_numbers := wk_file_numbers w;
               wk_file_level_filters := wk_file_level_filters w |}, Go tt)
  end.

Definition finish_if_big (input_status : Status) : Stmt unit :=
  w <- get ;;
  match cs_builder (wk_compact w) with
  | Some builder =>
      if c_max_output_file_size compaction <=? FileSize builder
      then (s <- FinishCompactionOutputFile input_status ;; check s) else ret tt
  | None => ret tt
  end.

Definition compaction_body (input_status : Status) (key value : bytes) : Stmt unit :=
  (let '(valid, ikey) := ParseInternalKey key ParsedInternalKey_default in
   if valid then cut_at_boundary input_status ikey else ret tt) ;;;
  w <- get ;;
  let '(drop, d) := decide_drop key (wk_drop w) in
  with_drop d ;;;
  if drop then ret tt
  else
    open_if_needed ;;;
    split_at_guards input_status key ;;;
    open_if_needed ;;;
    add_entry key value ;;;
    finish_if_big input_status.

(** *** The loop over the input *)
Context (I : IterOps).
(** shutting_down_.Acquire_Load() in each round *)
Context (shutting_down : nat -> bool).

(** The state, the input and the status at the end of the loop. *)
Fixpoint compaction_loop (fuel round : nat) (input : St I) (w : Work) : option (Work * St I * Status) :=
  match fuel with
  | O => None
  | S fuel =>
      if Valid I input && negb (shutting_down round) then
        match compaction_body (Iterator.status I input) (Iterator.key I input) (Iterator.value I input) w with
        | Some (w, Go _) => input ← Next I input; compaction_loop fuel (S round) input w
        | Some (w, Break s) => Some (w, input, s)
        | None => None
        end
      else Some (w, input, if shutting_down round then IOError (bytes_of_string "Deleting DB during compaction"%string) else OK)
  end.

Definition start_work (world : World) (filter : FileLevelFilterBuilder) : Work := {|
  wk_world := world; wk_compact := new_CompactionState;
  wk_drop := {| dk_current_key := None; dk_last_sequence := kMaxSequenceNumber;
                dk_level_ptrs := c_level_ptrs compaction |};
  wk_boundary_hint := 0; wk_current_guard := 0; wk_filter := filter; wk_file_numbers := []; wk_file_level_filters := [];
|}.

(** InstallCompactionResults up to LogAndApply: the edit. *)
Definition results_edit (outputs : list Output) : VersionEdit :=
  let level_written_to := Z.of_nat (if c_is_horizontal compaction then c_level compaction else S (c_level compaction)) in
  fold_left (fun edit out => AddFile edit level_written_to (out_number out) (out_file_size out) (out_smallest out) (out_largest out))
    outputs (AddInputDeletions compaction (c_edit compaction)).

(** DoCompactionWorkGuards up to LogAndApply: the status, the state and the
    edit to install when the status is OK.  [input] is what
    MakeInputIteratorForGuardsInALevel returns. *)
Definition DoCompactionWorkGuards (fuel : nat) (input : St I) (world : World) (filter : FileLevelFilterBuilder)
    : option (Status * Work * VersionEdit) :=
  match c_inputs compaction with
  | ([], []) => Some (OK, start_work world filter, c_edit compaction)
  | _ =>
      input ← SeekToFirst I input;
      '(w, input, status) ← compaction_loop fuel 0 input (start_work world filter);
      '(w, status) ←
        (match ok status, cs_builder (wk_compact w) with
         | true, Some _ =>
             match FinishCompactionOutputFile (Iterator.status I input) w with
             | Some (w, Go s) => Some (w, s)
             | _ => None
             end
         | _, _ => Some (w, status)
         end);
      let status := if ok status then Iterator.status I input else status in
      Some (status, w, results_edit (cs_outputs (wk_compact w)))
  end.
End DoCompactionWork.

(** ** What is dropped *)
Section Drops.
Context (ucmp : Comparator) `{Hc : !ComparatorOk ucmp all_keys}.
Notation icmp := (InternalKeyComparator ucmp).
Context (compaction : Compaction) (smallest_snapshot manual_garbage_cutoff : Z).
Context (Hsmall : smallest_snapshot < kMaxSequenceNumber).

(** The entries of the input that are written. *)
Fixpoint kept (d : DropState) (l : list entry) : list entry :=
  match l with
  | [] => []
  | e :: l =>
      let '(drop, d) := decide_drop ucmp compaction smallest_snapshot manual_garbage_cutoff (fst e) d in
      if drop then kept d l else e :: kept d l
  end.

(** The state after the entries. *)
Definition drop_after (d : DropState) (l : list entry) : DropState :=
  fold_left (fun d e => snd (decide_drop ucmp compaction smallest_snapshot manual_garbage_cutoff (fst e) d)) l d.

Lemma kept_app a : forall d b, kept d (a ++ b) = kept d a ++ kept (drop_after d a) b.
Proof.
  induction a as [|e a IH]; intros d b; [done|]. unfold drop_after. cbn [kept app fold_left].
  destruct (decide_drop _ _ _ _ _ _) as [[] d'] eqn:E; cbn [snd]; by rewrite IH.
Qed.

Lemma kept_sub l : forall d e, e ∈ kept d l -> e ∈ l.
Proof.
  induction l as [|e l IH]; intros d e'; [done|]. cbn [kept]. destruct (decide_drop _ _ _ _ _ _) as [[] d'].
  - intros H. right. by eapply IH.
  - intros [->|H]%elem_of_cons; [left|right; by eapply IH].
Qed.

Lemma kept_sorted l : forall d, sorted_keys icmp l -> sorted_keys icmp (kept d l).
Proof.
  induction l as [|e l IH]; intros d Hs; [done|]. rewrite sorted_keys_strongly in Hs. apply StronglySorted_inv in Hs as [Hs Hall].
  apply sorted_keys_strongly in Hs. cbn [kept]. destruct (decide_drop _ _ _ _ _ _) as [[] d']; [by apply IH|].
  apply sorted_keys_strongly. constructor; [by apply sorted_keys_strongly, IH|].
  rewrite Forall_forall in Hall. apply Forall_forall. intros e' He'. by apply Hall, (kept_sub _ d').
Qed.

Lemma decide_valid e d : entry_valid e ->
  decide_drop ucmp compaction smallest_snapshot manual_garbage_cutoff (fst e) d =
    let ikey := {| user_key := e_user e; sequence := e_seq e; type_ := e_type e |} in
    drop_entry ucmp compaction smallest_snapshot manual_garbage_cutoff ikey (start_key ucmp ikey d).
Proof. intros Hv. unfold decide_drop. by destruct (parse_entry e ParsedInternalKey_default Hv) as [-> _]. Qed.

(** The state stands at user key [u] with [q] the sequence number of its last
    entry. *)
Definition stands_at (d : DropState) (u : bytes) (q : Z) : Prop := dk_current_key d = Some u /\ dk_last_sequence d = q.

Lemma drop_state_valid e d : entry_valid e ->
  stands_at (snd (decide_drop ucmp compaction smallest_snapshot manual_garbage_cutoff (fst e) d)) (e_user e) (e_seq e).
Proof.
  intros Hv. rewrite decide_valid by done. cbv zeta. unfold drop_entry. destruct (if _ <=? _ then _ else _) as [drop ptrs].
  cbn [snd]. split; cbn [dk_current_key dk_last_sequence]; [|done]. unfold start_key, new_user_key. cbn [user_key].
  destruct (dk_current_key d) as [u|] eqn:E; [|done]. destruct (Z.eqb_spec (Compare ucmp (e_user e) u) 0) as [Eq|]; [|done].
  cbn [negb]. rewrite E. apply (cmp_eq (dom := all_keys)) in Eq; [by rewrite Eq|done..].
Qed.

Lemma drop_after_last l e d : Forall entry_valid (l ++ [e]) -> stands_at (drop_after d (l ++ [e])) (e_user e) (e_seq e).
Proof.
  intros [_ Hv]%Forall_app. apply Forall_cons in Hv as [Hv _]. unfold drop_after. rewrite fold_left_app. simpl.
  by apply drop_state_valid.
Qed.

(** Once an entry at or below the smallest snapshot has been seen, the rest of
    its user key is dropped. *)
Lemma kept_none l : forall l1 e d q, sorted_keys icmp (l1 ++ e :: l) -> Forall entry_valid l ->
  stands_at d (e_user e) q -> e_seq e <= q -> q <= smallest_snapshot ->
  forall e', e' ∈ kept d l -> e_user e' <> e_user e.
Proof.
  induction l as [|f l IH]; intros l1 e d q Hs Hv [Hcur Hlast] Hq Hle e' He' Eu; [by apply not_elem_of_nil in He'|].
  apply Forall_cons in Hv as [Hf Hv]. pose proof (drop_state_valid f d Hf) as Hst.
  assert (e_user f = e_user e) as Ef.
  { destruct (user_sorted l1 e (f :: l) f Hs ltac:(left)) as [H1 _]. assert (e' ∈ f :: l) as Hin by (by eapply kept_sub).
    apply elem_of_cons in Hin as [->|Hin]; [done|].
    replace (l1 ++ e :: f :: l) with ((l1 ++ [e]) ++ f :: l) in Hs by (by rewrite <- app_assoc).
    destruct (user_sorted _ f l e' Hs Hin) as [H2 _]. rewrite Eu in H2.
    apply (cmp_eq (c := ucmp) (dom := all_keys)); [done..|]. apply (cmp_ge_le (dom := all_keys)) in H1; [lia|done..]. }
  assert (e_seq f <= q) as Hfq.
  { destruct (user_sorted l1 e (f :: l) f Hs ltac:(left)) as [_ H]. specialize (H Ef). lia. }
  revert He'. cbn [kept]. rewrite decide_valid in * by done. cbv zeta in *.
  assert (start_key ucmp {| user_key := e_user f; sequence := e_seq f; type_ := e_type f |} d = d) as Ed.
  { unfold start_key, new_user_key. rewrite Hcur. cbn [user_key]. rewrite Ef, (cmp_refl (dom := all_keys)) by done. done. }
  rewrite Ed in Hst |- *. unfold drop_entry in *. rewrite Hlast, (proj2 (Z.leb_le _ _) Hle) in *.
  rewrite (proj2 (Z.eqb_neq q _)) in * by lia. cbn [andb snd] in *. intros He'.
  replace (l1 ++ e :: f :: l) with ((l1 ++ [e]) ++ f :: l) in Hs by (by rewrite <- app_assoc).
  refine (IH (l1 ++ [e]) f _ (e_seq f) Hs Hv Hst ltac:(lia) ltac:(lia) e' He' _). congruence.
Qed.

(** The entry a snapshot sees is kept, or it is a deletion at or below the
    smallest snapshot and no older entry of its key is kept. *)
Lemma seen_kept pre e post d : sorted_keys icmp (pre ++ e :: post) -> Forall entry_valid (pre ++ e :: post) ->
  dk_current_key d = None -> dk_last_sequence d = kMaxSequenceNumber ->
  Forall (fun f => e_user f = e_user e -> smallest_snapshot < e_seq f) pre ->
  let '(drop, d') := decide_drop ucmp compaction smallest_snapshot manual_garbage_cutoff (fst e) (drop_after d pre) in
  drop = true -> e_type e = kTypeDeletion /\ e_seq e <= smallest_snapshot /\ forall e', e' ∈ kept d' post -> e_user e' <> e_user e.
Proof.
  intros Hs Hv Hd1 Hd2 Hpre. pose proof Hv as [Hvpre [He Hvpost]%Forall_cons]%Forall_app.
  pose proof (drop_state_valid e (drop_after d pre) He) as Hst.
  assert (smallest_snapshot < dk_last_sequence (start_key ucmp {| user_key := e_user e; sequence := e_seq e; type_ := e_type e |}
    (drop_after d pre))) as Hlast.
  { unfold start_key, new_user_key. cbn [user_key]. destruct pre as [|p pre _] using rev_ind.
    - simpl. rewrite Hd1. simpl. done.
    - destruct (drop_after_last pre p d Hvpre) as [-> Hq].
      destruct (Z.eqb_spec (Compare ucmp (e_user e) (e_user p)) 0) as [Eq|]; [|done]. cbn [negb]. rewrite Hq.
      apply (cmp_eq (dom := all_keys)) in Eq; [|done..]. apply Forall_app in Hpre as [_ [H _]%Forall_cons]. by apply H. }
  rewrite decide_valid in * by done. cbv zeta in *. unfold drop_entry in *.
  rewrite (proj2 (Z.leb_gt _ _) Hlast) in *. cbn [type_ sequence user_key] in *.
  destruct (Z.eqb_spec (e_type e) kTypeDeletion) as [Et|]; [|done].
  destruct (Z.leb_spec (e_seq e) smallest_snapshot) as [Hle|]; [|done]. cbn [andb] in *.
  destruct (IsBaseLevelForKey _ _ _ _) as [base ptrs]. cbn [snd] in *. intros _. split; [done|]. split; [done|].
  intros e' He'. eapply (kept_none post pre e _ (e_seq e)); [done..|lia|done|exact He'].
Qed.

Context (d0 : DropState) (Hd0 : dk_current_key d0 = None /\ dk_last_sequence d0 = kMaxSequenceNumber).
Context (l : list entry) (Hsorted : sorted_keys icmp l) (Hvalid : Forall entry_valid l).

Lemma sorted_NoDup (l' : list entry) : sorted_keys ucmp l' -> NoDup l'.
Proof.
  intros Hs. apply NoDup_alt. intros i j e Hi Hj. destruct (Nat.lt_trichotomy i j) as [H|[H|H]]; [|done|].
  - specialize (Hs i j e e H Hi Hj). rewrite (cmp_refl (dom := all_keys)) in Hs by done. lia.
  - specialize (Hs j i e e H Hj Hi). rewrite (cmp_refl (dom := all_keys)) in Hs by done. lia.
Qed.

Lemma newest_split s e : newest_at ucmp l s e ->
  exists pre post, l = pre ++ e :: post /\ Forall (fun f => e_user f = e_user e -> s < e_seq f) pre.
Proof.
  intros ([i Hi]%list_elem_of_lookup & He & Hn). exists (take i l), (drop (S i) l). split; [by rewrite take_drop_middle|].
  apply Forall_lookup. intros j f (Hf & Hj)%lookup_take_Some Eu. destruct (Z.ltb_spec s (e_seq f)) as [|Hle]; [done|].
  specialize (Hn f (list_elem_of_lookup_2 _ _ _ Hf) Eu Hle). specialize (Hsorted j i f e Hj Hf Hi).
  apply ikc_anti in Hsorted. lia.
Qed.

Lemma first_seen s e : e ∈ l -> e_seq e <= s -> exists e', newest_at ucmp l s e' /\ e_user e' = e_user e.
Proof.
  intros Hin Hs. destruct (list_find (fun f => e_user f = e_user e /\ e_seq f <= s) l) as [[i f]|] eqn:E.
  - apply list_find_Some in E as (Hi & [Hu Hf] & Hfirst). exists f. split; [|done].
    split; [by eapply list_elem_of_lookup_2|]. split; [done|]. intros e' [j Hj]%list_elem_of_lookup Eu Hle.
    destruct (Nat.lt_trichotomy i j) as [H|[->|H]].
    + specialize (Hsorted i j _ _ H Hi Hj). lia.
    + assert (f = e') as -> by congruence. destruct (ikc_Compare_cases (ucmp := ucmp) (fst e') (fst e')) as [[H _]|[_ ->]]; [|lia].
      by rewrite (cmp_refl (dom := all_keys)) in H by done.
    + destruct (Hfirst j e' Hj H). split; [congruence|done].
  - apply list_find_None in E. rewrite Forall_forall in E. by destruct (E e Hin).
Qed.

(** The entries the snapshot sees are the same, deletions aside. *)
Lemma kept_newest s e : smallest_snapshot <= s -> e_type e = kTypeValue ->
  newest_at ucmp (kept d0 l) s e <-> newest_at ucmp l s e.
Proof.
  intros Hsm Ht. destruct Hd0 as [Hcur Hlast]. split.
  - intros (Hin & Hle & Hn). destruct (first_seen s e (kept_sub _ _ _ Hin) Hle) as (e1 & Hn1 & Eu).
    destruct (newest_split s e1 Hn1) as (pre & post & El & Hpre). pose proof Hn1 as (_ & Hle1 & Hmin).
    pose proof (seen_kept pre e1 post d0) as Hk. rewrite <- El in Hk.
    specialize (Hk Hsorted Hvalid Hcur Hlast (Forall_impl _ _ _ Hpre (fun f H E => Z.le_lt_trans _ _ _ Hsm (H E)))).
    rewrite El, kept_app in Hin. cbn [kept] in Hin.
    assert (e ∉ kept d0 pre) as Hnot.
    { intros H%kept_sub. rewrite Forall_forall in Hpre. specialize (Hpre e H ltac:(done)). lia. }
    rewrite El, kept_app in Hn. cbn [kept] in Hn.
    destruct (decide_drop _ _ _ _ _ _) as [[] d'].
    + destruct (Hk eq_refl) as (_ & _ & Hno). apply elem_of_app in Hin as [|Hin]; [done|]. by destruct (Hno e Hin).
    + (* e1 is kept, so e is not newer and not older *)
      assert (e1 ∈ kept d0 pre ++ e1 :: kept d' post) as H1 by (apply elem_of_app; right; left).
      specialize (Hn e1 H1 Eu Hle1). specialize (Hmin e). rewrite El in Hmin.
      apply elem_of_app in Hin as [|[->|Hin%kept_sub]%elem_of_cons]; [done|exact Hn1|]. exfalso.
      rewrite El in Hsorted. apply list_elem_of_lookup in Hin as [j Hj].
      specialize (Hsorted (length pre) (S (length pre + j)) e1 e ltac:(lia)). rewrite !lookup_app_r, Nat.sub_diag in Hsorted by lia.
      replace (S (length pre + j) - length pre)%nat with (S j) in Hsorted by lia. specialize (Hsorted eq_refl Hj).
      apply ikc_anti in Hsorted. lia.
  - intros Hn. pose proof Hn as (_ & Hle & Hmin). destruct (newest_split s e Hn) as (pre & post & El & Hpre).
    pose proof (seen_kept pre e post d0) as Hk. rewrite <- El in Hk.
    specialize (Hk Hsorted Hvalid Hcur Hlast (Forall_impl _ _ _ Hpre (fun f H E => Z.le_lt_trans _ _ _ Hsm (H E)))).
    split; [|split; [done|intros e' He'; by apply Hmin, (kept_sub _ d0)]].
    rewrite El, kept_app. cbn [kept]. apply elem_of_app. right. destruct (decide_drop _ _ _ _ _ _) as [[] d']; [|left].
    destruct (Hk eq_refl) as (Et & _). rewrite Et in Ht. discriminate.
Qed.

Lemma kept_view s : smallest_snapshot <= s -> user_view ucmp (kept d0 l) s = user_view ucmp l s.
Proof.
  intros Hs. pose proof (view_sorted ucmp l Hsorted s) as H1. pose proof (view_sorted ucmp (kept d0 l) (kept_sorted l d0 Hsorted) s) as H2.
  apply (sorted_keys_unique ucmp all_keys); [done..|by apply Forall_forall|].
  apply NoDup_Permutation; [by apply sorted_NoDup..|]. intros [u v].
  rewrite !view_elem by (try apply kept_sorted; done). split; intros (e & Hn & Ht & Eu & Ev); exists e; (split; [|done]);
    by apply kept_newest.
Qed.

(** *** Why an entry is dropped *)
Context (Hfiles : forall lvl, files_by_start ucmp (level_of (v_files (c_input_version compaction)) lvl)).
Context (Hptrs : forall u, ptrs_ok ucmp (c_input_version compaction) (dk_level_ptrs d0) u).
Notation v := (c_input_version compaction).

Lemma IsBaseLevelForKey_spec u ptrs : ptrs_ok ucmp v ptrs u ->
  let '(base, ptrs') := IsBaseLevelForKey ucmp compaction u ptrs in
  (base = true <-> ~ level_covers ucmp v u (Z.to_nat kNumLevels - (c_level compaction + 2)) (c_level compaction + 2)) /\
  ptrs_ok ucmp v ptrs' u.
Proof. intros H. by apply base_level_loop_spec. Qed.

Lemma ptrs_ok_mono ptrs u u' : ptrs_ok ucmp v ptrs u -> Compare ucmp u u' <= 0 -> ptrs_ok ucmp v ptrs u'.
Proof. intros H Hle lvl. by eapply ptr_ok_mono. Qed.

(** The pointers of IsBaseLevelForKey stay behind the keys to come. *)
Lemma ptrs_after pre : forall u, sorted_keys icmp pre -> Forall entry_valid pre -> Forall (fun f => Compare ucmp (e_user f) u <= 0) pre ->
  ptrs_ok ucmp v (dk_level_ptrs (drop_after d0 pre)) u.
Proof.
  induction pre as [|p pre IH] using rev_ind; intros u Hs Hv Hu; [apply Hptrs|].
  apply Forall_app in Hv as [Hv [Hp _]%Forall_cons]. apply Forall_app in Hu as [Hu [Hpu _]%Forall_cons].
  assert (sorted_keys icmp pre) as Hs'.
  { intros i j a b Hij Ha Hb. by apply (Hs i j); [|apply lookup_app_l_Some..]. }
  assert (ptrs_ok ucmp v (dk_level_ptrs (drop_after d0 pre)) (e_user p)) as Hat.
  { apply IH; [done..|]. apply Forall_forall. intros f (l1 & l2 & ->)%list_elem_of_split. rewrite <- app_assoc in Hs. simpl in Hs.
    apply (user_sorted l1 f (l2 ++ [p]) p Hs). apply elem_of_app. right. left. }
  unfold drop_after. rewrite fold_left_app. cbn [fold_left]. change (fold_left _ pre d0) with (drop_after d0 pre).
  rewrite decide_valid by done. cbv zeta. unfold drop_entry. cbn [user_key sequence type_].
  set (d := start_key _ _ _).
  assert (dk_level_ptrs d = dk_level_ptrs (drop_after d0 pre)) as Ed by (unfold d, start_key; by destruct (new_user_key _ _ _)).
  rewrite Ed. destruct (dk_last_sequence d <=? smallest_snapshot); [by apply IH|].
  destruct (_ && _); [|by apply IH]. pose proof (IsBaseLevelForKey_spec (e_user p) _ Hat) as Hb.
  destruct (IsBaseLevelForKey _ _ _ _) as [base ptrs]. simpl. by eapply ptrs_ok_mono; [apply Hb|].
Qed.

(** A newer entry of the same key, which every snapshot sees first. *)
Definition hidden (e : entry) : Prop :=
  exists e', e' ∈ l /\ e_user e' = e_user e /\ Compare icmp (fst e') (fst e) < 0 /\ e_seq e' <= smallest_snapshot.

(** A deletion of a key that no file of the levels from c_level + 2 on covers:
    what IsBaseLevelForKey asks. *)
Definition obsolete_deletion (e : entry) : Prop :=
  e_type e = kTypeDeletion /\ e_seq e <= smallest_snapshot /\
  ~ level_covers ucmp v (e_user e) (Z.to_nat kNumLevels - (c_level compaction + 2)) (c_level compaction + 2).

(** A newer entry of the same key. *)
Definition superseded (e : entry) : Prop :=
  exists e', e' ∈ l /\ e_user e' = e_user e /\ Compare icmp (fst e') (fst e) < 0 /\ e_seq e' <> kMaxSequenceNumber.

Section Entry.
Context (pre post : list entry) (e : entry) (El : pre ++ e :: post = l).
Let ikey : ParsedInternalKey := {| user_key := e_user e; sequence := e_seq e; type_ := e_type e |}.
Let d := start_key ucmp ikey (drop_after d0 pre).

Lemma before_in_pre e' : e' ∈ l -> Compare icmp (fst e') (fst e) < 0 -> e' ∈ pre.
Proof.
  intros [i Hi]%list_elem_of_lookup Hlt. apply list_elem_of_lookup. exists i. destruct (Nat.lt_ge_cases i (length pre)) as [H|H].
  - rewrite <- El in Hi. by rewrite lookup_app_l in Hi.
  - exfalso. assert (l !! length pre = Some e) as He by (rewrite <- El; by rewrite lookup_app_r, Nat.sub_diag by lia).
    destruct (decide (i = length pre)) as [->|Hne].
    + assert (e' = e) as -> by congruence. assert (Compare icmp (fst e) (fst e) = 0); [|lia]. pose proof (ikc_anti (ucmp := ucmp) (fst e) (fst e)). lia.
    + specialize (Hsorted (length pre) i e e' ltac:(lia) He Hi). apply ikc_anti in Hsorted. lia.
Qed.

Lemma pre_before e' : e' ∈ pre -> e' ∈ l /\ Compare icmp (fst e') (fst e) < 0.
Proof.
  intros [i Hi]%list_elem_of_lookup. pose proof (lookup_lt_Some _ _ _ Hi). assert (l !! i = Some e') as Hl by (rewrite <- El; by apply lookup_app_l_Some).
  split; [by eapply list_elem_of_lookup_2|]. apply (Hsorted i (length pre)); [done|done|]. rewrite <- El. by rewrite lookup_app_r, Nat.sub_diag by lia.
Qed.

(** last_sequence_for_key is the least number of a newer entry of the key, or
    kMaxSequenceNumber when there is none. *)
Lemma last_sequence_least : (forall e', e' ∈ pre -> e_user e' = e_user e -> dk_last_sequence d <= e_seq e') /\
  (dk_last_sequence d = kMaxSequenceNumber \/ exists e', e' ∈ pre /\ e_user e' = e_user e /\ e_seq e' = dk_last_sequence d).
Proof.
  pose proof Hvalid as Hv. rewrite <- El in Hv. apply Forall_app in Hv as [Hvpre _]. pose proof Hsorted as Hs. rewrite <- El in Hs.
  unfold d, start_key, new_user_key. cbn [user_key ikey]. destruct pre as [|p pre' _] eqn:Epre using rev_ind.
  { simpl. rewrite (proj1 Hd0). simpl. split; [by intros e' ?%elem_of_nil|by left]. }
  destruct (drop_after_last pre' p d0 Hvpre) as [-> Hq]. destruct (Z.eqb_spec (Compare ucmp (e_user e) (e_user p)) 0) as [Eq|Ene]; cbn [negb].
  - rewrite Hq. apply (cmp_eq (dom := all_keys)) in Eq; [|done..]. split; [|right; exists p; split; [apply elem_of_app; right; left|done]].
    intros e' [He'|He']%elem_of_app Eu; [|apply list_elem_of_singleton in He' as ->; lia]. apply list_elem_of_split in He' as (l1 & l2 & ->).
    rewrite <- !app_assoc in Hs. apply (user_sorted l1 e' (l2 ++ [p] ++ e :: post) p Hs); [apply elem_of_app; right; left|congruence].
  - cbn [dk_last_sequence]. split; [|by left]. intros e' He' Eu. exfalso. apply Ene, (cmp_eq (dom := all_keys)); [done..|].
    assert (e_user p = e_user e' \/ Compare ucmp (e_user e') (e_user p) <= 0) as Hp.
    { apply elem_of_app in He' as [He'|He']; [|apply list_elem_of_singleton in He' as ->; by left]. right. apply list_elem_of_split in He' as (l1 & l2 & ->).
      rewrite <- !app_assoc in Hs. apply (user_sorted l1 e' (l2 ++ [p] ++ e :: post) p Hs). apply elem_of_app. right. left. }
    destruct Hp as [->|Hp]; [done|]. rewrite <- app_assoc in Hs. destruct (user_sorted pre' p (e :: post) e Hs ltac:(left)) as [Hpe _].
    rewrite Eu in Hp. apply (cmp_eq (dom := all_keys)); [done..|]. apply (cmp_ge_le (dom := all_keys)) in Hpe; [lia|done..].
Qed.
End Entry.

Lemma valid_seq e : entry_valid e -> e_seq e <= kMaxSequenceNumber.
Proof.
  intros (u & s & t & E & [[Hs0 Hs] Ht]). unfold e_seq. rewrite E, ExtractTag_InternalKey by (done || (unfold kValueTypeForSeek, kTypeValue in *; lia)).
  rewrite Z.shiftr_div_pow2 by lia. change (2 ^ 8) with 256. unfold kValueTypeForSeek, kTypeValue in *. Z.div_mod_to_equations. lia.
Qed.

(** What the loop drops: the entries that a newer one hides from every snapshot,
    and the obsolete deletions, but not the newest entry of a key at or past the
    cutoff for garbage. *)
Definition dropped (e : entry) : Prop := hidden e \/ obsolete_deletion e /\ (manual_garbage_cutoff <= e_seq e -> superseded e).

Lemma decide_dropped pre e post : pre ++ e :: post = l ->
  fst (decide_drop ucmp compaction smallest_snapshot manual_garbage_cutoff (fst e) (drop_after d0 pre)) = true <-> dropped e.
Proof.
  intros El. pose proof (last_sequence_least pre post e El) as [Hleast Hcase]. pose proof (before_in_pre pre post e El) as Hpre. pose proof (pre_before pre post e El) as Hpost.
  pose proof Hvalid as Hv. rewrite <- El in Hv. apply Forall_app in Hv as [Hvpre [He _]%Forall_cons]. pose proof Hsorted as Hs. rewrite <- El in Hs.
  assert (sorted_keys icmp pre) as Hspre by (intros a b x y Hab Hx Hy; by apply (Hs a b); [|apply lookup_app_l_Some..]).
  assert (ptrs_ok ucmp v (dk_level_ptrs (drop_after d0 pre)) (e_user e)) as Hp.
  { apply ptrs_after; [done..|]. apply Forall_forall. intros f (l1 & l2 & E)%list_elem_of_split. rewrite E, <- app_assoc in Hs.
    apply (user_sorted l1 f (l2 ++ e :: post) e Hs). apply elem_of_app. right. left. }
  rewrite decide_valid by done. cbv zeta. unfold drop_entry. cbn [user_key sequence type_].
  set (ikey := {| user_key := e_user e; sequence := e_seq e; type_ := e_type e |}) in *. set (d := start_key ucmp ikey (drop_after d0 pre)) in *.
  assert (dk_level_ptrs d = dk_level_ptrs (drop_after d0 pre)) as -> by (unfold d, start_key; by destruct (new_user_key _ _ _)).
  assert (dk_last_sequence d <= smallest_snapshot <-> hidden e) as Hhid.
  { split.
    - intros Hle. destruct Hcase as [E|(e' & He' & Eu & Es)]; [lia|]. destruct (Hpost e' He'). exists e'. split; [done|]. split; [done|]. split; [done|lia].
    - intros (e' & Hin & Eu & Hlt & Hle). specialize (Hleast e' (Hpre e' Hin Hlt) Eu). lia. }
  assert (dk_last_sequence d = kMaxSequenceNumber <-> ~ superseded e) as Hsup.
  { split.
    - intros E (e' & Hin & Eu & Hlt & Hne). specialize (Hleast e' (Hpre e' Hin Hlt) Eu). rewrite Forall_forall in Hvalid. pose proof (valid_seq e' (Hvalid e' Hin)). lia.
    - intros Hno. destruct Hcase as [E|(e' & He' & Eu & Es)]; [done|]. destruct (Z.eq_dec (dk_last_sequence d) kMaxSequenceNumber) as [E|E]; [done|].
      destruct Hno. destruct (Hpost e' He'). exists e'. split; [done|]. split; [done|]. split; [done|congruence]. }
  unfold dropped, obsolete_deletion. destruct (Z.leb_spec (dk_last_sequence d) smallest_snapshot) as [Hle|Hgt].
  - rewrite (proj2 (Z.eqb_neq _ _)) by lia. cbn [andb fst]. split; [intros _; left; by apply Hhid|done].
  - assert (~ hidden e) as Hnh by (intros H%Hhid; lia). destruct (Z.eqb_spec (e_type e) kTypeDeletion) as [Et|Et]; cbn [andb fst]; [|split; [done|intros [?|[[? _] _]]; done]].
    destruct (Z.leb_spec (e_seq e) smallest_snapshot) as [Hseq|Hseq]; cbn [andb fst]; [|split; [done|intros [?|[[_ [? _]] _]]; [done|lia]]].
    pose proof (IsBaseLevelForKey_spec (e_user e) _ Hp) as Hb. destruct (IsBaseLevelForKey _ _ _ _) as [base ptrs]. destruct Hb as [Hb _]. cbn [fst].
    destruct base; cbn [andb]; [|split; [done|]; intros [?|[(_ & _ & Hcov) _]]; [done|by apply Hb]].
    destruct (Z.eqb_spec (dk_last_sequence d) kMaxSequenceNumber) as [Em|Em]; cbn [andb].
    + destruct (Z.leb_spec manual_garbage_cutoff (e_seq e)) as [Hcut|Hcut].
      * split; [done|]. intros [?|[_ H]]; [done|]. exfalso. by apply Hsup in Em; apply Em, H.
      * split; [|done]. intros _. right. split; [by repeat split; [..|apply Hb]|lia].
    + split; [|done]. intros _. right. split; [by repeat split; [..|apply Hb]|]. intros _. destruct Hcase as [E|(e' & He' & Eu & Es)]; [done|].
      destruct (Hpost e' He'). exists e'. split; [done|]. split; [done|]. split; [done|congruence].
Qed.

(** An entry of the input is written unless it is one to drop. *)
Lemma dropped_iff e : e ∈ l -> e ∉ kept d0 l <-> dropped e.
Proof.
  intros [i Hi]%list_elem_of_lookup. pose proof (take_drop_middle l i e Hi) as El. rewrite <- (decide_dropped _ _ _ El). rewrite <- El at 1. rewrite kept_app. cbn [kept].
  set (pre := take i l) in *. set (post := drop (S i) l) in *.
  assert (e ∉ pre) as Hpre. { intros H. destruct (pre_before pre post e El e H) as [_ Hlt]. apply ikc_anti in Hlt as Hlt'. lia. }
  assert (e ∉ post) as Hpost.
  { intros [j Hj]%list_elem_of_lookup. assert (l !! (S i + j)%nat = Some e) as Hl by (unfold post in Hj; by rewrite lookup_drop in Hj). specialize (Hsorted i (S i + j)%nat e e ltac:(lia) Hi Hl). apply ikc_anti in Hsorted as Hlt'. lia. }
  destruct (decide_drop _ _ _ _ _ _) as [[] d']; cbn [fst]; rewrite not_elem_of_app.
  - split; [done|]. intros _. split; [by intros ?%kept_sub|]. by intros ?%kept_sub.
  - split; [|done]. intros [_ H]. destruct H. left.
Qed.
End Drops.

(** ** What is written *)
Section Writes.
Context `{Hsnappy : !Snappy} (options : TableOptions) (dbname : bytes) (ucmp : Comparator) `{Hc : !ComparatorOk ucmp all_keys}.
Notation icmp := (InternalKeyComparator ucmp).
Context (Hcmp : o_comparator options = icmp).
Context (Hcomp : o_compression options = kNoCompression \/ o_compression options = kSnappyCompression).
Context (table_cache_status : World -> Z -> Z -> Status).
Context (compaction : Compaction) (smallest_snapshot manual_garbage_cutoff : Z) (guards : list GuardMetaData).
Notation T := TableBuilder.
Notation slot_of := (slot_of ucmp guards).
Notation one_slot := (one_slot ucmp guards).
Notation passed := (passed ucmp guards).
Notation good := (good ucmp).
Notation builds := (builds options).

(** An output with the entries [es]: its range is theirs, and the file it names
    was finished with them, synced and closed, and opened again to verify it. *)
Definition written (world : World) (out : Output) (es : list entry) : Prop :=
  table_installed options dbname world (out_number out) (out_file_size out) (out_smallest out) (out_largest out) es /\
  exists closed, table_cache_status closed (out_number out) (out_file_size out) = OK.

(** No call fails. *)
Definition faultless (w : Work) : Prop :=
  wd_creates (wk_world w) = [] /\ match cs_builder (wk_compact w) with Some b => clean b | None => True end.

(** The outputs: those of the whole files, and the open one. *)
Definition outputs_ok (w : Work) (files : list (list entry)) (pend : list entry) : Prop :=
  exists outs, Forall2 (written (wk_world w)) outs files /\
  match cs_builder (wk_compact w) with
  | Some b => builds b pend /\ exists out, cs_outputs (wk_compact w) = outs ++ [out] /\
      forall e f, head pend = Some e -> last pend = Some f -> out_smallest out = fst e /\ out_largest out = fst f
  | None => pend = [] /\ cs_outputs (wk_compact w) = outs
  end.

(** The kept entries so far: whole files, and those of the open file. *)
Record writes (w : Work) (files : list (list entry)) (pend : list entry) : Prop := {
  wr_outputs : outputs_ok w files pend;
  wr_slots : Forall one_slot files;
  wr_pend : Forall (fun e => slot_of (e_user e) = wk_current_guard w) pend;
}.

(** *** The statements *)
Notation FinishOutput := (FinishCompactionOutputFile options dbname table_cache_status).
Notation OpenOutput := (OpenCompactionOutputFile options).

Lemma with_output_snoc os o f : with_output (os ++ [o]) f = os ++ [f o].
Proof. unfold with_output. rewrite rev_app_distr. simpl. by rewrite rev_involutive. Qed.

Lemma written_mono wd wd' out es : (forall x, x ∈ wd_disk wd -> x ∈ wd_disk wd') -> written wd out es -> written wd' out es.
Proof. intros Hsub [H1 H2]. split; [by eapply table_installed_mono|done]. Qed.

Lemma written_all_mono wd wd' outs files : (forall x, x ∈ wd_disk wd -> x ∈ wd_disk wd') ->
  Forall2 (written wd) outs files -> Forall2 (written wd') outs files.
Proof. intros Hsub H. eapply Forall2_impl; [exact H|]. intros out es. by apply written_mono. Qed.

(** A table that can be opened after it has been written. *)
Definition tables_open : Prop := forall world number size, table_cache_status world number size = OK.

Lemma finish_output_spec st w files pend b : writes w files pend -> cs_builder (wk_compact w) = Some b -> good pend -> pend <> [] ->
  exists w' s, FinishOutput st w = Some (w', Go s) /\ wk_drop w' = wk_drop w /\ wk_current_guard w' = wk_current_guard w /\
    cs_builder (wk_compact w') = None /\
    (s = OK -> writes w' (files ++ [pend]) []) /\
    (faultless w -> st = OK -> tables_open -> s = OK /\ faultless w').
Proof.
  intros [(outs & Hw & Hopen) Hslots Hpend] Eb Hg Hne. rewrite Eb in Hopen. destruct Hopen as (Hb & out & Eo & Hrange).
  unfold FinishCompactionOutputFile. rewrite Eb, Eo, last_snoc.
  assert (exists s b', (if ok st then Finish options b else Some (st, Abandon b)) = Some (s, b') /\
    (s = OK -> Finish options b = Some (OK, b')) /\ (clean b -> st = OK -> s = OK /\ clean b')) as (s & b' & -> & Hfin & Hcl).
  { destruct st as [m|].
    - exists (Some m), (Abandon b). split; [done|]. split; [by intros [=]|by intros _ [=]].
    - cbn [ok]. destruct (builds_Finish_total Hcmp Hcomp b pend Hb Hg) as (s & b' & E). exists s, b'. split; [done|].
      split; [by intros <-|]. intros Hclean _. by eapply Finish_clean. }
  cbn [mbind option_bind]. rewrite with_output_snoc.
  destruct (if ok s then Sync (r_file b') else (s, r_file b')) as [s1 f1] eqn:E1.
  destruct (if ok s1 then Close f1 else (s1, f1)) as [s2 f2] eqn:E2.
  destruct (match policy options with Some _ => _ | None => _ end) as [filters filter].
  destruct (sync_close _ _ _ _ _ _ E1 E2) as (Ef & Es & Hfine).
  eexists _, _. split; [reflexivity|]. split; [done|]. split; [done|]. split; [done|]. split.
  - intros Eok. assert (s2 = OK) as Hs2 by (destruct s2; [discriminate|done]). destruct (Es (proj2 (ok_iff _) Hs2)) as [Es1 Hsync]. specialize (Hfin Es1).
    assert (0 < NumEntries b) as Hnum.
    { pose proof (builds_num b pend Hb) as H0. assert (NumEntries b <> 0) by (intros H1; by apply Hne, H0). destruct Hb as [script Hb']. apply add_all_num in Hb'. simpl in Hb'. lia. }
    rewrite Hs2, (proj2 (Z.ltb_lt _ _) Hnum) in Eok. cbn [ok andb OK] in Eok.
    destruct (head pend) as [e|] eqn:Ehd; [|by destruct pend]. destruct (last pend) as [f|] eqn:Elast; [|by apply last_None in Elast].
    destruct (Hrange e f eq_refl eq_refl) as [Hsm Hla].
    split; cbn [wk_current_guard wk_compact wk_world cs_builder cs_outputs]; [|apply Forall_app; split; [done|]; constructor; [by eexists|done]|done].
    eexists. split; [|split; reflexivity]. apply Forall2_app; [eapply written_all_mono; [|exact Hw]; intros x Hx; by right|].
    constructor; [|done]. split; [|eexists; exact Eok]. split; [by exists e, f|]. exists b, b'. do 4 (split; [done|]).
    cbn [out_number wk_world wd_disk close_file]. rewrite Ef. left.
  - intros [Hcr Hcb] -> Htab. rewrite Eb in Hcb. destruct (Hcl Hcb eq_refl) as [-> Hb']. pose proof (clean_file _ Hb') as Hscr.
    cbn [ok OK] in E1. unfold Sync, Flush_file, next_status in E1. rewrite Hscr in E1. injection E1 as <- <-.
    cbn in E2. injection E2 as <- <-. cbn [ok andb]. rewrite Htab. destruct (0 <? _); by repeat split.
Qed.

Lemma open_output_spec w files pend : writes w files pend -> cs_builder (wk_compact w) = None ->
  exists w' s, OpenOutput w = Some (w', Go s) /\ wk_drop w' = wk_drop w /\ wk_current_guard w' = wk_current_guard w /\
    (s = OK -> writes w' files [] /\ exists b, cs_builder (wk_compact w') = Some b) /\
    (faultless w -> s = OK /\ faultless w').
Proof.
  intros [(outs & Hw & Hopen) Hslots Hpend] Eb. rewrite Eb in Hopen. destruct Hopen as [-> Eo].
  unfold OpenCompactionOutputFile, NewFileNumber, NewWritableFile, add_pending. cbn [wd_creates wd_disk wd_next_file_number wd_pending_outputs].
  destruct (default (OK, []) (head (wd_creates (wk_world w)))) as [s script] eqn:Ec.
  eexists _, _. split; [reflexivity|]. split; [done|]. split; [done|]. split.
  - intros ->. split; [|by eexists]. split; [|done..]. cbn [with_compact wk_world wk_compact cs_outputs cs_builder ok OK].
    exists outs. split; [eapply written_all_mono; [|exact Hw]; auto|]. split; [by exists script|].
    eexists. split; [by rewrite Eo|]. by intros.
  - intros [Hcr _]. rewrite Hcr in Ec. injection Ec as <- <-. split; [done|]. split; [|by split]. cbn. by rewrite Hcr.
Qed.

(** A statement runs to its end: it goes on in a state with [P], or breaks with
    a failure; it goes on when nothing fails. *)
Definition runs (st : Status) (m : Stmt unit) (w : Work) (P : Work -> Prop) : Prop :=
  exists w' r, m w = Some (w', r) /\ (r = Go tt -> P w') /\ (forall s, r = Break s -> s <> OK) /\
    (faultless w -> st = OK -> tables_open -> r = Go tt /\ faultless w').

Lemma runs_ret st w (P : Work -> Prop) : P w -> runs st (ret tt) w P.
Proof. intros H. exists w, (Go tt). by split; [|split; [|split]]. Qed.

Lemma runs_bind st (m m' : Stmt unit) w (P Q : Work -> Prop) :
  runs st m w P -> (forall w', P w' -> runs st m' w' Q) -> runs st (m ;;; m') w Q.
Proof.
  intros (w1 & r1 & E1 & HP & Hb & Hf) Hm. destruct r1 as [[]|s].
  - destruct (Hm w1 (HP eq_refl)) as (w2 & r2 & E2 & HQ & Hb2 & Hf2). exists w2, r2. unfold bind. rewrite E1.
    split; [done|]. split; [done|]. split; [done|]. intros H1 H2 H3. destruct (Hf H1 H2 H3) as [_ H]. by apply Hf2.
  - exists w1, (Break s). unfold bind. rewrite E1. split; [done|]. split; [by intros [=]|]. split; [by apply Hb|].
    intros H1 H2 H3. by destruct (Hf H1 H2 H3).
Qed.

Lemma runs_get st (k : Work -> Stmt unit) w (P : Work -> Prop) : runs st (k w) w P -> runs st (w <- get ;; k w) w P.
Proof. done. Qed.

(** s = call; if (!s.ok()) break; *)
Lemma runs_check st (m : Stmt Status) w w' s (P : Work -> Prop) :
  m w = Some (w', Go s) -> (s = OK -> P w') -> (faultless w -> st = OK -> tables_open -> s = OK /\ faultless w') ->
  runs st (s <- m ;; check s) w P.
Proof.
  intros E HP Hf. exists w', (if ok s then Go tt else Break s). unfold bind, check. rewrite E. split; [done|].
  destruct s; cbn [ok].
  - split; [done|]. split; [by intros s [= <-]|]. intros H1 H2 H3. by destruct (Hf H1 H2 H3).
  - split; [by auto|]. split; [done|]. intros H1 H2 H3. by destruct (Hf H1 H2 H3).
Qed.

(** *** The invariant of the loop *)

Lemma reached_slot u n : passed n u -> reached_guards ucmp guards u n = slot_of u.
Proof.
  intros [Hn Hall]. unfold reached_guards, slot_of. symmetry. rewrite <- (take_drop n guards) at 1.
  rewrite prefix_len_app; [by rewrite length_take_le|]. eapply Forall_impl; [exact Hall|]. intros g. apply Z.leb_le.
Qed.

(** [k1] has been written, some of it to the open file. *)
Definition stage (k1 : list entry) (d : DropState) (n : nat) (Q : option T -> list entry -> Prop) (w : Work) : Prop :=
  exists files pend, writes w files pend /\ concat files ++ pend = k1 /\ wk_drop w = d /\ wk_current_guard w = n /\
    Q (cs_builder (wk_compact w)) pend.
Definition no_empty (b : option T) (pend : list entry) : Prop := b <> None -> pend <> [].
Definition is_open (b : option T) (pend : list entry) : Prop := exists b', b = Some b'.
Definition any (b : option T) (pend : list entry) : Prop := True.

Section Body.
Context (k1 : list entry) (st : Status).

Lemma runs_finish w d n l : good (k1 ++ l) -> stage k1 d n (fun b p => is_open b p /\ p <> []) w ->
  runs st (s <- FinishOutput st ;; check s) w (stage k1 d n no_empty).
Proof.
  intros Hg (files & pend & Hw & Ek & Ed & En & (b & Eb) & Hne).
  destruct (finish_output_spec st w files pend b Hw Eb (pend_good _ _ _ _ Hg Ek) Hne) as (w' & s & E & Hd' & Hn' & Hb' & Hok & Hf).
  eapply runs_check; [exact E| |exact Hf]. intros Es. exists (files ++ [pend]), []. split; [by apply Hok|].
  split; [rewrite concat_app; cbn [concat]; by rewrite !app_nil_r|]. split; [congruence|]. split; [congruence|]. rewrite Hb'. by intros [].
Qed.

Lemma runs_cut ikey w d n l : good (k1 ++ l) -> stage k1 d n no_empty w ->
  runs st (cut_at_boundary options dbname ucmp table_cache_status compaction st ikey) w (stage k1 d n no_empty).
Proof.
  intros Hg H. apply runs_get. pose proof H as (files & pend & [Ho Hs Hp] & Ek & Ed & En & HQ).
  destruct (dk_current_key (wk_drop w)); [|by apply runs_ret].
  destruct (cs_builder (wk_compact w)) as [b'|] eqn:Eb; [|by apply runs_ret].
  destruct (_ && _); [|by apply runs_ret]. destruct (CrossesBoundary _ _ _ _ _) as [crosses hint].
  eapply runs_bind with (P := fun w => stage k1 d n no_empty w /\ is_open (cs_builder (wk_compact w)) []).
  - eexists _, (Go tt). split; [reflexivity|]. split.
    + intros _. split; [|by eexists]. exists files, pend. split; [by split|]. cbn. rewrite Eb. done.
    + split; [done|]. intros Hf _ _. split; [done|]. exact Hf.
  - intros w' [Hw' [b1 Eb1]]. destruct crosses; [|by apply runs_ret]. eapply runs_finish; [exact Hg|].
    destruct Hw' as (files' & pend' & Hw' & Ek' & Ed' & En' & HQ'). exists files', pend'. do 4 (split; [done|]).
    split; [by eexists|]. apply HQ'. by rewrite Eb1.
Qed.

Lemma runs_open w d n : stage k1 d n any w -> runs st (open_if_needed options) w (stage k1 d n is_open).
Proof.
  intros (files & pend & Hw & Ek & Ed & En & _). apply runs_get.
  destruct (cs_builder (wk_compact w)) as [b|] eqn:Eb.
  - apply runs_ret. exists files, pend. do 4 (split; [done|]). by eexists.
  - destruct (open_output_spec w files pend Hw Eb) as (w' & s & E & Hd' & Hn' & Hok & Hf).
    eapply runs_check; [exact E| |by auto]. intros Es. destruct (Hok Es) as [Hw' Hb'].
    pose proof Hw as [(outs & _ & Hopen) _ _]. rewrite Eb in Hopen. destruct Hopen as [-> _].
    exists files, []. split; [done|]. split; [done|]. split; [congruence|]. by split; [congruence|].
Qed.

Lemma writes_move w w' files : writes w files [] -> wk_world w' = wk_world w -> wk_compact w' = wk_compact w -> writes w' files [].
Proof. intros [Ho Hs _] E1 E2. split; [|done|done]. unfold outputs_ok. by rewrite E1, E2. Qed.

Lemma runs_split key w d n l : good (k1 ++ l) -> passed n (ExtractUserKey key) -> stage k1 d n is_open w ->
  runs st (split_at_guards options dbname ucmp table_cache_status guards st key) w (stage k1 d (slot_of (ExtractUserKey key)) any).
Proof.
  intros Hg Hpass (files & pend & Hw & Ek & Ed & En & b & Eb). apply runs_get. cbv zeta. rewrite En, reached_slot by done.
  destruct (Nat.ltb_spec n (slot_of (ExtractUserKey key))) as [Hlt|Hle].
  2:{ apply runs_ret. replace (slot_of _) with n; [exists files, pend; split; [exact Hw|]; split; [exact Ek|]; split; [exact Ed|]; split; [exact En|]; exact Logic.I|].
      pose proof (reached_slot _ _ Hpass) as E. unfold reached_guards in E. lia. }
  rewrite Eb. pose proof Hw as [(outs & _ & Hopen) _ _]. rewrite Eb in Hopen. destruct Hopen as [Hb _].
  unfold runs, bind, get, put, check. destruct (Z.ltb_spec 0 (NumEntries b)) as [Hnum|Hnum].
  - assert (pend <> []) as Hne by (rewrite <- (builds_num b) by done; lia).
    destruct (finish_output_spec st w files pend b Hw Eb (pend_good _ _ _ _ Hg Ek) Hne) as (w' & s & -> & Hd' & Hn' & Hb' & Hok & Hf).
    eexists _, _. split; [reflexivity|]. destruct s as [m|]; cbn [ok].
    + split; [done|]. split; [by intros s [= <-]|]. intros H1 H2 H3. by destruct (Hf H1 H2 H3).
    + split; [|split; [done|intros H1 H2 H3; split; [done|]; exact (proj2 (Hf H1 H2 H3))]]. intros _.
      exists (files ++ [pend]), []. split; [by eapply writes_move; [exact (Hok eq_refl)|..]|].
      split; [rewrite concat_app; cbn [concat]; by rewrite !app_nil_r|]. split; [cbn [wk_drop]; congruence|]. by split; [|exact Logic.I].
  - assert (pend = []) as ->.
    { apply (builds_num b _ Hb). destruct Hb as [script Hb]. apply add_all_num in Hb. simpl in Hb. lia. }
    eexists _, _. split; [reflexivity|]. cbn [ok OK]. split; [|split; [done|intros H1 _ _; by split]]. intros _.
    exists files, []. split; [by eapply writes_move|]. split; [done|]. split; [done|]. by split; [|exact Logic.I].
Qed.

Lemma runs_add key value w d : good (k1 ++ [(key, value)]) -> stage k1 d (slot_of (ExtractUserKey key)) is_open w ->
  runs st (add_entry options key value) w (stage (k1 ++ [(key, value)]) d (slot_of (ExtractUserKey key)) (fun b p => is_open b p /\ p <> [])).
Proof.
  intros Hg (files & pend & [(outs & Ho & Hopen) Hs Hp] & Ek & Ed & En & b & Eb). rewrite Eb in Hopen. destruct Hopen as (Hb & out & Eo & Hr).
  assert (good (pend ++ [(key, value)])) as Hg'.
  { apply (good_sub (concat files) _ []). by rewrite app_nil_r, app_assoc, Ek. }
  destruct (builds_Add_total Hcmp Hcomp b pend key value Hb Hg') as [b' Ea].
  unfold runs, add_entry. rewrite Eb, Eo, with_output_snoc, Ea. cbn [mbind option_bind]. eexists _, _. split; [reflexivity|].
  split; [|split; [done|]].
  - intros _. exists files, (pend ++ [(key, value)]). split; [|split; [by rewrite app_assoc, Ek|]; split; [done|]; split; [done|]].
    2:{ split; [by eexists|]. by destruct pend. }
    split; [|done|].
    + exists outs. split; [done|]. cbn [wk_compact cs_builder cs_outputs]. split; [by eapply builds_Add|]. eexists. split; [done|].
      intros e f He Hf. rewrite last_snoc in Hf. injection Hf as <-. split; [|done]. cbn [out_smallest].
      destruct (Z.eqb_spec (NumEntries b) 0) as [E0|E0].
      * apply (builds_num b pend Hb) in E0 as ->. simpl in He. by injection He as <-.
      * destruct pend as [|p pend]; [by rewrite (proj2 (builds_num b [] Hb)) in E0|]. injection He as <-.
        destruct (last (p :: pend)) as [f|] eqn:El; [|by apply last_None in El]. by apply (Hr p f).
    + cbn [wk_current_guard]. apply Forall_app. split; [done|]. by constructor.
  - intros [H1 H2] _ _. split; [done|]. split; [done|]. cbn [wk_compact cs_builder]. rewrite Eb in H2. by eapply Add_clean.
Qed.

Lemma runs_big w d n l : good (k1 ++ l) -> stage k1 d n (fun b p => is_open b p /\ p <> []) w ->
  runs st (finish_if_big options dbname table_cache_status compaction st) w (stage k1 d n no_empty).
Proof.
  intros Hg H. apply runs_get. pose proof H as (files & pend & Hw & Ek & Ed & En & (b & Eb) & Hne). rewrite Eb.
  destruct (_ <=? _); [by eapply runs_finish|]. apply runs_ret. exists files, pend. do 4 (split; [done|]). by intros _.
Qed.
End Body.

Lemma stage_weaken k d n (Q Q' : option T -> list entry -> Prop) w : stage k d n Q w -> (forall b p, Q b p -> Q' b p) -> stage k d n Q' w.
Proof. intros (f & p & H1 & H2 & H3 & H4 & H5) H. exists f, p. do 4 (split; [done|]). by apply H. Qed.

(** A dropped entry changes nothing that is written; a kept one is written to
    the file of its guard. *)
Lemma runs_body k1 st e l w d n : good (k1 ++ e :: l) -> passed n (e_user e) -> stage k1 d n no_empty w ->
  let '(drop, d') := decide_drop ucmp compaction smallest_snapshot manual_garbage_cutoff (fst e) d in
  let '(k2, n') := if drop then (k1, n) else (k1 ++ [e], slot_of (e_user e)) in
  runs st (compaction_body options dbname ucmp table_cache_status compaction smallest_snapshot manual_garbage_cutoff guards st (fst e) (snd e)) w
    (stage k2 d' n' no_empty).
Proof.
  intros Hg Hpass H0. destruct (decide_drop _ _ _ _ _ _) as [drop d'] eqn:Ed.
  destruct (if drop then _ else _) as [k2 n'] eqn:Ek2.
  eapply runs_bind with (P := stage k1 d n no_empty).
  { destruct (ParseInternalKey _ _) as [[] ikey]; [by eapply runs_cut|by apply runs_ret]. }
  clear w H0. intros w H. apply runs_get. pose proof H as (files & pend & _ & _ & Ewd & _). rewrite Ewd, Ed.
  eapply runs_bind with (P := stage k1 d' n no_empty).
  { destruct H as (files' & pend' & Hw & Ek & _ & En & HQ). eexists _, (Go tt). split; [reflexivity|]. split; [|by split].
    intros _. exists files', pend'. destruct Hw. do 4 (split; [done|]). exact HQ. }
  clear w H Ewd. intros w H. destruct drop; injection Ek2 as <- <-; [by apply runs_ret|].
  assert (good (k1 ++ [e])) as Hg1.
  { apply (good_sub [] _ l). by rewrite <- app_assoc. }
  eapply runs_bind; [by eapply runs_open, (stage_weaken _ _ _ no_empty)|]. clear w H. intros w H.
  eapply runs_bind; [by eapply runs_split|]. clear w H. intros w H.
  eapply runs_bind; [by eapply runs_open|]. clear w H. intros w H.
  destruct e as [key value].
  eapply runs_bind; [by eapply runs_add|]. clear w H. intros w H.
  apply (runs_big (k1 ++ [(key, value)]) st w _ _ []); [by rewrite app_nil_r|done].
Qed.

(** *** The loop *)
Context (I : IterOps) (l : list entry) (final : Status).
Context (shutting_down : nat -> bool).
Notation kept := (kept ucmp compaction smallest_snapshot manual_garbage_cutoff).
Notation loop := (compaction_loop options dbname ucmp table_cache_status compaction smallest_snapshot manual_garbage_cutoff
  guards I shutting_down).

Lemma good_kept k1 d l1 : good (k1 ++ l1) -> forall e l2, l1 = e :: l2 ->
  let '(drop, d') := decide_drop ucmp compaction smallest_snapshot manual_garbage_cutoff (fst e) d in
  good ((if drop then k1 else k1 ++ [e]) ++ l2).
Proof.
  intros [Hs Hv] e l2 ->. destruct (decide_drop _ _ _ _ _ _) as [drop d']. destruct drop; [|rewrite <- app_assoc; by split].
  apply Forall_app in Hv as [Hv1 [_ Hv2]%Forall_cons]. split; [|by apply Forall_app].
  apply sorted_keys_strongly in Hs. apply sorted_keys_strongly. apply StronglySorted_app in Hs as (Hs & H1 & H2).
  apply StronglySorted_inv in H2 as [H2 _]. apply StronglySorted_app. split; [|done]. intros x y Hx Hy. apply Hs; [done|by right].
Qed.

Lemma loop_spec rest : forall fuel round input w k1 d n, (length rest < fuel)%nat ->
  delivers I input rest final -> good (k1 ++ rest) -> Forall (fun e => passed n (e_user e)) rest ->
  stage k1 d n no_empty w ->
  exists w' input' s, loop fuel round input w = Some (w', input', s) /\ (s = OK -> Iterator.status I input' = final) /\
    (s = OK -> exists d' n', stage (k1 ++ kept d rest) d' n' no_empty w') /\
    (faultless w -> tables_open -> (forall r, shutting_down r = false) -> final = OK -> s = OK /\ faultless w').
Proof.
  induction rest as [|e rest IH]; intros fuel round input w k1 d n Hfuel HR Hg Hpass Hst;
    (destruct fuel as [|fuel]; [simpl in Hfuel; lia|]); cbn [compaction_loop delivers] in *.
  - destruct HR as [-> Hfin]. cbn [andb]. eexists _, _, _. split; [reflexivity|]. split; [done|]. split.
    + intros _. exists d, n. cbn [kept]. by rewrite app_nil_r.
    + intros Hf _ Hd _. by rewrite Hd.
  - destruct HR as (-> & Ek & Ev & Hst' & input' & Enext & HR'). cbn [andb]. destruct (shutting_down round) eqn:Eshut; cbn [negb].
    { eexists _, _, _. split; [reflexivity|]. split; [done|]. split; [done|]. intros _ _ Hd. by rewrite Hd in Eshut. }
    rewrite Ek, Ev. apply Forall_cons in Hpass as [Hpe Hpass].
    pose proof (runs_body k1 (Iterator.status I input) e rest w d n Hg Hpe Hst) as Hbody.
    pose proof (good_kept k1 d _ Hg e rest eq_refl) as Hg'. cbn [kept].
    destruct (decide_drop _ _ _ _ _ _) as [drop d']. destruct (if drop then _ else _) as [k2 n'] eqn:Ek2.
    destruct Hbody as (w1 & r & -> & Hgo & Hbr & Hf). destruct r as [[]|s].
    2:{ eexists _, _, _. split; [reflexivity|]. split; [intros Es; by destruct (Hbr s eq_refl)|]. split; [intros Es; by destruct (Hbr s eq_refl)|].
        intros H1 H2 H3 H4. by destruct (Hf H1 (Hst' H4) H2) as [[=] _]. }
    rewrite Enext. cbn [mbind option_bind].
    destruct (IH fuel (S round) input' w1 k2 d' n') as (w2 & input2 & s & E & Hs2 & Hst2 & Hf2).
    + simpl in Hfuel. lia.
    + done.
    + destruct drop; injection Ek2 as <- <-; done.
    + destruct drop; injection Ek2 as <- <-; [done|]. destruct Hg as [Hs _].
      apply Forall_forall. intros e' He'. eapply passed_le; [apply passed_slot|].
      by destruct (user_sorted k1 e rest e' Hs He').
    + by apply Hgo.
    + exists w2, input2, s. split; [done|]. split; [done|]. split.
      * intros Es. destruct (Hst2 Es) as (d2 & n2 & H). exists d2, n2.
        destruct drop; injection Ek2 as <- <-; [done|]. by rewrite <- app_assoc in H.
      * intros H1 H2 H3 H4. apply Hf2; [|done..]. by apply Hf; [|apply Hst'|].
Qed.

(** *** The whole compaction *)
Notation DoWork := (DoCompactionWorkGuards options dbname ucmp table_cache_status compaction smallest_snapshot manual_garbage_cutoff
  guards I shutting_down).

Lemma stage_start world filter : stage [] (wk_drop (start_work compaction world filter)) 0 no_empty (start_work compaction world filter).
Proof.
  exists [], []. split; [split; [exists []; by split|done..]|]. do 3 (split; [done|]). by intros [].
Qed.

(** The files a level gets. *)
Definition output_files (outputs : list Output) : list (Z * FileMetaData) :=
  map (fun out => (Z.of_nat (if c_is_horizontal compaction then c_level compaction else S (c_level compaction)),
                   file_meta (out_number out) (out_file_size out) (out_smallest out) (out_largest out))) outputs.

Lemma deletions_new_files ed : ve_new_files (AddInputDeletions compaction ed) = ve_new_files ed.
Proof.
  unfold AddInputDeletions. assert (forall which fs ed, ve_new_files (fold_left (fun ed f =>
    DeleteFile ed (Z.of_nat (c_level compaction) + which) (fm_number f)) fs ed) = ve_new_files ed) as H.
  { intros which fs. induction fs as [|f fs IH]; intros ed'; [done|]. simpl. by rewrite IH. }
  by rewrite !H.
Qed.

Lemma results_new_files outputs : ve_new_files (results_edit compaction outputs) = ve_new_files (c_edit compaction) ++ output_files outputs.
Proof.
  unfold results_edit. rewrite <- (deletions_new_files (c_edit compaction)). generalize (AddInputDeletions compaction (c_edit compaction)).
  induction outputs as [|o os IH]; intros ed; simpl; [by rewrite app_nil_r|]. rewrite IH. simpl. by rewrite <- app_assoc.
Qed.

Lemma DoWork_spec fuel input first world filter : c_inputs compaction <> ([], []) -> good l -> SeekToFirst I input = Some first -> delivers I first l final -> (length l < fuel)%nat ->
  exists status w edit, DoWork fuel input world filter = Some (status, w, edit) /\
    (status = OK -> final = OK /\ exists files, Forall2 (written (wk_world w)) (cs_outputs (wk_compact w)) files /\ Forall one_slot files /\
       concat files = kept (wk_drop (start_work compaction world filter)) l /\
       ve_new_files edit = ve_new_files (c_edit compaction) ++ output_files (cs_outputs (wk_compact w))) /\
    (wd_creates world = [] -> tables_open -> (forall r, shutting_down r = false) -> final = OK -> status = OK).
Proof.
  intros Hin Hg Efirst HR Hfuel. unfold DoCompactionWorkGuards.
  destruct (loop_spec l fuel 0 first (start_work compaction world filter) []
    (wk_drop (start_work compaction world filter)) 0 Hfuel HR Hg) as
    (w1 & input1 & s1 & Eloop & Hst & Hwr & Hf); [|apply stage_start|].
  { apply Forall_forall. intros e _. split; [lia|constructor]. }
  assert (exists w2 s2, match ok s1, cs_builder (wk_compact w1) with
    | true, Some _ => match FinishOutput (Iterator.status I input1) w1 with Some (w, Go s) => Some (w, s) | _ => None end
    | _, _ => Some (w1, s1) end = Some (w2, s2) /\
    (s2 = OK -> s1 = OK /\ exists files, writes w2 files [] /\ cs_builder (wk_compact w2) = None /\
       concat files = kept (wk_drop (start_work compaction world filter)) l) /\
    (s1 = OK -> faultless w1 -> tables_open -> final = OK -> s2 = OK)) as (w2 & s2 & Efin & Hfiles & Hf2).
  { destruct s1 as [m|]; cbn [ok]; [exists w1, (Some m); split; [done|]; by split|].
    destruct (Hwr eq_refl) as (d' & n' & files & pend & Hw & Ek & _ & _ & HQ).
    assert (good pend) as Hgp.
    { eapply (pend_good _ [] files); [|exact Ek]. rewrite app_nil_r. simpl. destruct Hg as [Hs Hv]. split; [by apply kept_sorted|].
      rewrite Forall_forall in Hv. apply Forall_forall. intros e He. by eapply Hv, kept_sub. }
    destruct (cs_builder (wk_compact w1)) as [b|] eqn:Eb.
    - destruct (finish_output_spec (Iterator.status I input1) w1 files pend b Hw Eb Hgp (HQ ltac:(done)))
        as (w' & s & -> & _ & _ & Hb' & Hok & Hfl).
      exists w', s. split; [done|]. split.
      + intros Es. split; [done|]. exists (files ++ [pend]). split; [by apply Hok|]. split; [done|]. rewrite concat_app. simpl. by rewrite app_nil_r.
      + intros _ H1 H2 H3. apply Hfl; [done| |done]. by rewrite (Hst eq_refl).
    - pose proof Hw as [(outs & _ & Hopen) _ _]. rewrite Eb in Hopen. destruct Hopen as [-> _].
      exists w1, OK. split; [done|]. split; [|done]. intros _. split; [done|]. exists files. split; [done|]. split; [done|]. by rewrite app_nil_r in Ek. }
  exists (if ok s2 then Iterator.status I input1 else s2), w2, (results_edit compaction (cs_outputs (wk_compact w2))).
  split; [|split].
  - destruct (c_inputs compaction) as [[|] [|]]; [done|..]; rewrite Efirst; cbn [mbind option_bind]; rewrite Eloop;
      cbn [mbind option_bind]; rewrite Efin; done.
  - intros Es. destruct s2; [done|]. destruct (Hfiles eq_refl) as (E1 & files & [(outs & Hw & Hopen) Hs _] & Eb & Ek). rewrite Eb in Hopen.
    destruct Hopen as [_ ->]. cbn [ok] in Es. split; [by rewrite <- (Hst E1)|]. exists files. split; [done|]. split; [done|]. split; [done|]. apply results_new_files.
  - intros H1 H2 H3 H4. destruct Hf as [-> Hfl]; [by split|done..|]. rewrite (Hf2 eq_refl Hfl H2 H4). cbn [ok OK]. by rewrite (Hst eq_refl).
Qed.
End Writes.

(** ** The claims *)


(** C11. What a compaction drops.  Over a sorted input, for every snapshot at or
    past smallest_snapshot, the entries that are kept show the same keys and
    values as the input.  With the files of each level in order, an entry is
    dropped exactly when a newer entry of its key at or below smallest_snapshot
    hides it, or it is a deletion at or below smallest_snapshot of a key that no
    file of the levels from c_level + 2 on covers (level c_level + 1 is not asked,
    whether its files are among the inputs or not), unless it is the newest entry
    of its key and at or past the cutoff for garbage. *)
Theorem compaction_drops_unseen (ucmp : Comparator) (Hc : ComparatorOk ucmp all_keys) (compaction : Compaction)
    (smallest_snapshot manual_garbage_cutoff : Z) (l : list entry) (world : World) (filter : FileLevelFilterBuilder) :
  let d0 := wk_drop (start_work compaction world filter) in
  let out := kept ucmp compaction smallest_snapshot manual_garbage_cutoff d0 l in
  smallest_snapshot < kMaxSequenceNumber ->
  sorted_keys (InternalKeyComparator ucmp) l -> Forall entry_valid l ->
  (forall s, smallest_snapshot <= s -> user_view ucmp out s = user_view ucmp l s) /\
  ((forall lvl, files_by_start ucmp (level_of (v_files (c_input_version compaction)) lvl)) ->
   (forall u, ptrs_ok ucmp (c_input_version compaction) (c_level_ptrs compaction) u) ->
   forall e, e ∈ l -> (e ∉ out <-> hidden ucmp smallest_snapshot l e \/
     obsolete_deletion ucmp compaction smallest_snapshot e /\ (manual_garbage_cutoff <= e_seq e -> superseded ucmp l e))).
Proof.
  intros d0 out Hsmall Hs Hv. split.
  - intros s. by apply kept_view.
  - intros Hfiles Hptrs e. by apply dropped_iff.
Qed.

(** ** An example, and where a deletion is dropped too early *)

Definition work_options : TableOptions := {|
  o_comparator := InternalKeyComparator BytewiseComparator; o_block_size := 64; o_block_restart_interval := 4;
  o_compression := kNoCompression; o_filter_policy := None |}.

(** Level 1 has the files 11 to 13, the level below it file 10, which holds an
    older value of the key that file 12 deletes. *)
Definition put_a : entry := (InternalKey [Byte.x61] 6 kTypeValue, [Byte.x31]).
Definition del_k : entry := (InternalKey [Byte.x6b] 5 kTypeDeletion, []).
Definition put_z : entry := (InternalKey [Byte.x7a] 7 kTypeValue, [Byte.x32]).
Definition old_k : entry := (InternalKey [Byte.x6b] 3 kTypeValue, [Byte.x33]).

Definition add_single (ed : VersionEdit) (level number : Z) (e : entry) : VersionEdit :=
  AddFile ed level number 100 (fst e) (fst e).
Definition before_edit : VersionEdit :=
  add_single (add_single (add_single (add_single new_VersionEdit 2 10 old_k) 1 11 put_a) 1 12 del_k) 1 13 put_z.
Definition before_version : Version := apply_edits BytewiseComparator [] new_Version [before_edit] None.
Definition before : Current := {| cur_version := before_version; cur_scores := Finalize before_version;
  file_to_compact_ := None; file_to_compact_level_ := -1 |}.


Definition work_entries : list entry := [put_a; del_k; put_z].
Definition work_world (next_file : Z) : World :=
  {| wd_next_file_number := next_file; wd_pending_outputs := []; wd_creates := []; wd_disk := [] |}.
Definition picked : Compaction :=
  default (new_Compaction 0 new_Version false ([], [], []) ([], [], [])) (fst (PickCompactionForGuards BytewiseComparator before 1 false)).

(** The compaction of [picked], with smallest_snapshot 10. *)
Definition run_picked (input : Iter) :=
  DoCompactionWorkGuards work_options [] BytewiseComparator (fun _ _ _ => OK) picked 10 kMaxSequenceNumber
    (snd (PickCompactionForGuards BytewiseComparator before 1 false)) (BlockIter (InternalKeyComparator BytewiseComparator))
    (fun _ => false) 4 input (work_world 20) fl_Clear.

(** What the files of [before_version] hold, and a reader that finds a table on
    the disk, or one of these. *)
Definition single_contents (number : Z) : list entry :=
  if number =? 10 then [old_k] else if number =? 11 then [put_a] else if number =? 12 then [del_k]
  else if number =? 13 then [put_z] else [].
Definition read_table (contents k : bytes) : Status * option entry :=
  match Open work_options (memory_file contents) (len contents) 0 with
  | Some (OK, Some t) => default (Corruption [], None) (InternalGet work_options t None {| verify_checksums := true; fill_cache := false |} k)
  | _ => (Corruption [], None)
  end.
Definition single_reader (disk : list (bytes * bytes)) : TableReader := fun number _ k =>
  match find (fun f => bool_decide (fst f = TableFileName [] number)) disk with
  | Some f => read_table (snd f) k
  | None => (OK, find (fun e => 0 <=? Compare (InternalKeyComparator BytewiseComparator) (fst e) k) (single_contents number))
  end.
Definition read_k (disk : list (bytes * bytes)) (v : Version) : option (Status * bytes) :=
  '(s, st) ← Version_Get BytewiseComparator (single_reader disk) (fun _ => None) (BloomFilterPolicy 10) v (mkLookupKey [Byte.x6b] 9) [];
  Some (s, g_value st).

(** A compaction can bring a deleted key back.  Level 1 has three files, so
    the sentinel is due for compaction; file 12 deletes k at sequence 5 and
    file 10 of level 2 holds the value of k at sequence 3.  The compaction
    takes the three files of level 1 and none of level 2, IsBaseLevelForKey
    looks at the levels from 3 on and the deletion is dropped.  Before the
    compaction a read of k reports NotFound, after it, from the tables it wrote,
    the old value. *)
Theorem compaction_resurrects_deleted_key :
  exists it w edit,
    NewBlockIterator (new_Block (fst (bb_Finish (build_block 16 work_entries)))) = inr it /\
    PickCompactionLevel (replicate 7 false) before false = Some (1%nat, false, before) /\
    run_picked it = Some (OK, w, edit) /\ map fm_number (fst (c_inputs picked)) = [11; 12; 13] /\ snd (c_inputs picked) = [] /\
    read_k [] before_version = Some (NotFound [], []) /\
    read_k (wd_disk (wk_world w)) (apply_edits BytewiseComparator [] before_version [edit] None) = Some (OK, snd old_k).
Proof. eexists _, _, _. do 6 (split; [vm_compute; reflexivity|]). vm_compute. reflexivity. Qed.

Lemma work_entries_ok : sorted_keys (InternalKeyComparator BytewiseComparator) work_entries /\ Forall entry_valid work_entries.
Proof.
  split.
  - intros [|[|[|i]]] [|[|[|j]]] a b Hij Ha Hb; simpl in Ha, Hb; simplify_eq; try lia; vm_compute; reflexivity.
  - repeat (constructor; [eexists _, _, _; split; [reflexivity|split; vm_compute; split; discriminate]|]). constructor.
Qed.


Lemma compaction_drops_unseen_witness :
  (forall s, 10 <= s -> user_view BytewiseComparator
     (kept BytewiseComparator picked 10 kMaxSequenceNumber (wk_drop (start_work picked (work_world 20) fl_Clear)) work_entries) s =
     user_view BytewiseComparator work_entries s) /\
  (hidden BytewiseComparator 10 work_entries del_k \/ obsolete_deletion BytewiseComparator picked 10 del_k /\
     (kMaxSequenceNumber <= e_seq del_k -> superseded BytewiseComparator work_entries del_k)).
Proof.
  destruct (compaction_drops_unseen BytewiseComparator BytewiseComparator_ok picked 10 kMaxSequenceNumber work_entries (work_world 20) fl_Clear)
    as [Hview Hdrop].
  - vm_compute. reflexivity.
  - apply work_entries_ok.
  - apply work_entries_ok.
  - split; [exact Hview|]. apply Hdrop.
    + intros [|[|[|[|[|[|[|lvl]]]]]]] [|[|[|i]]] [|[|[|j]]] f g Hij Hf Hg; vm_compute in Hf, Hg; simplify_eq; try lia; vm_compute; discriminate.
    + intros u lvl i f Hi. replace (nth lvl (c_level_ptrs picked) 0%nat) with 0%nat in Hi; [lia|].
      change (c_level_ptrs picked) with (replicate 7 0%nat). by do 8 (destruct lvl as [|lvl]; [done|]).
    + right. left.
    + apply (bool_decide_unpack _). vm_compute. exact Logic.I.
Defined.
