(* ===== verification/Level0.v ===== *)
(** * Writing the memtable to level 0 (db/builder.cc, DBImpl::WriteLevel0TableGuards)

    BuildLevel0Tables writes the entries of an iterator to one table per guard
    of level 0, BuildTable to a single table.  The file numbers, the failures of
    the environment and the table builder are those of TableFiles. *)

From Stdlib Require Import ZArith Lia Bool.
From Stdlib Require Import Strings.String.
From stdpp Require Import base list.
From S2P Require Import Prelude Coding Comparator DbFormat Status Iterator Block FileName Bloom FilterBlock Format Table.
From S2P Require Import BlockSpec VersionEdit Guards DbIter TableSpec TableFiles.

Set Default Goal Selector "!".
Local Open Scope Z_scope.

Record Build := {
  bl_world : World;
  bl_reserved : list Z;                  (** reserved_file_numbers from file_number_index on *)
  bl_meta : FileMetaData;
  bl_builder : option TableBuilder;
  bl_count : Z;
  bl_metas : list FileMetaData;          (** *meta_list *)
  bl_filters : list (option bytes);      (** *filter_list *)
  bl_filter : FileLevelFilterBuilder;
  bl_status : Status;
}.

Section Level0.
Context `{Hsnappy : !Snappy} (options : TableOptions) (dbname : bytes) (ucmp : Comparator).
(** table_cache->NewIterator(ReadOptions(), number, size)->status() *)
Context (table_cache_status : World -> Z -> Z -> Status).

Definition filter_policy : option FilterPolicy := snd <$> o_filter_policy options.

Definition with_meta (m : FileMetaData) (number size : Z) (smallest largest : bytes) : FileMetaData :=
  {| fm_refs := fm_refs m; fm_allowed_seeks := fm_allowed_seeks m; fm_number := number; fm_file_size := size;
     fm_smallest := smallest; fm_largest := largest |}.

(** The next file: a reserved number or a new one.  No builder after it: the
    file could not be created and BuildLevel0Tables returns the status. *)
Definition open_file (key : bytes) (st : Build) : Build :=
  let '(number, reserved, world) :=
    match bl_reserved st with
    | n :: rest => (n, rest, bl_world st)
    | [] => let '(n, world) := NewFileNumber (bl_world st) in (n, [], add_pending world n)
    end in
  let '(s, file, world) := NewWritableFile world in
  let m := bl_meta st in
  {| bl_world := world; bl_reserved := reserved;
     bl_meta := with_meta m number (fm_file_size m) (if ok s then key else fm_smallest m) (fm_largest m);
     bl_builder := if ok s then Some (new_TableBuilder options file) else None;
     bl_count := bl_count st; bl_metas := bl_metas st; bl_filters := bl_filters st; bl_filter := bl_filter st; bl_status := s |}.

Definition add_one (key value : bytes) (st : Build) : option Build :=
  match bl_builder st with
  | None => None
  | Some builder =>
      builder ← Table.Add options builder key value;
      let m := bl_meta st in
      Some {| bl_world := bl_world st; bl_reserved := bl_reserved st;
              bl_meta := with_meta m (fm_number m) (fm_file_size m) (fm_smallest m) key;
              bl_builder := Some builder; bl_count := bl_count st + 1; bl_metas := bl_metas st; bl_filters := bl_filters st;
              bl_filter := fl_AddKey filter_policy (bl_filter st) key; bl_status := bl_status st |}
  end.

(** The status is passed by value: what Sync, Close and the verification report
    decides whether the file is deleted, and is lost. *)
Definition FinishFileCompletion (s : Status) (meta : FileMetaData) (file : WritableFile) (fname : bytes) (world : World) : World :=
  let '(s, file) := if ok s then Sync file else (s, file) in
  let '(s, file) := if ok s then Close file else (s, file) in
  let world := close_file world fname file in
  let s := if ok s then table_cache_status world (fm_number meta) (fm_file_size meta) else s in
  if ok s && (0 <? fm_file_size meta) then world else DeleteFile_env world fname.

Definition AddFilterString (st : Build) : list (option bytes) * FileLevelFilterBuilder :=
  match filter_policy with
  | Some _ => let '(filter_string, _) := fl_GenerateFilter filter_policy (bl_filter st) in (bl_filters st ++ [filter_string], fl_Clear)
  | None => (bl_filters st, bl_filter st)
  end.

(** if (count > 0) { ... } *)
Definition finish_file (st : Build) : option Build :=
  if 0 <? bl_count st then
    match bl_builder st with
    | None => None
    | Some builder =>
        '(s, builder) ← Finish options builder;
        let m := bl_meta st in
        let meta := if ok s then with_meta m (fm_number m) (FileSize builder) (fm_smallest m) (fm_largest m) else m in
        let '(filters, filter) := if ok s then AddFilterString st else (bl_filters st, bl_filter st) in
        Some {| bl_world := FinishFileCompletion s meta (r_file builder) (TableFileName dbname (fm_number meta)) (bl_world st);
                bl_reserved := bl_reserved st; bl_meta := meta; bl_builder := None; bl_count := 0;
                bl_metas := if ok s then bl_metas st ++ [meta] else bl_metas st;
                bl_filters := filters; bl_filter := filter; bl_status := s |}
    end
  else Some st.

Context (I : IterOps).

(** How a loop over the input ends: at its end or with a return. *)
Inductive Ends := Ended | Returned.

(** The entries before [limit], the user key of the guard, or all of them. *)
Fixpoint file_loop (fuel : nat) (limit : option bytes) (st : Build) (iter : St I) : option (Build * St I * Ends) :=
  match fuel with
  | O => None
  | S fuel =>
      if negb (Valid I iter) then Some (st, iter, Ended)
      else
        let key := Iterator.key I iter in
        let before := match limit with
                      | Some g => let '(_, parsed_key) := ParseInternalKey key ParsedInternalKey_default in
                                  Compare ucmp (user_key parsed_key) g <? 0
                      | None => true
                      end in
        if before then
          let st := if bl_count st =? 0 then open_file key st else st in
          if (bl_count st =? 0) && negb (ok (bl_status st)) then Some (st, iter, Returned)
          else
            st ← add_one key (Iterator.value I iter) st;
            iter ← Next I iter;
            file_loop fuel limit st iter
        else st ← finish_file st; Some (st, iter, Ended)
  end.

Fixpoint guard_loop (fuel : nat) (guards : list GuardMetaData) (st : Build) (iter : St I) : option (Build * St I * Ends) :=
  match guards with
  | [] => Some (st, iter, Ended)
  | g :: guards =>
      '(st, iter, e) ← file_loop fuel (Some (guard_ukey g)) st iter;
      match e with
      | Ended => guard_loop fuel guards st iter
      | Returned => Some (st, iter, Returned)
      end
  end.

(** The status that is returned, and the state. *)
Definition BuildLevel0Tables (fuel : nat) (iter : St I) (guards : list GuardMetaData) (world : World) (reserved : list Z)
    (filter : FileLevelFilterBuilder) : option (Status * Build) :=
  let st := {| bl_world := world; bl_reserved := reserved; bl_meta := file_meta 0 0 [] []; bl_builder := None; bl_count := 0;
               bl_metas := []; bl_filters := []; bl_filter := filter; bl_status := OK |} in
  iter ← SeekToFirst I iter;
  let last st iter := Some (if ok (Iterator.status I iter) then bl_status st else Iterator.status I iter, st) in
  if Valid I iter then
    '(st, iter, e) ← guard_loop fuel guards st iter;
    match e with
    | Returned => Some (bl_status st, st)
    | Ended =>
        st ← finish_file st;
        '(st, iter, e) ← file_loop fuel None st iter;
        match e with
        | Returned => Some (bl_status st, st)
        | Ended => st ← finish_file st; last st iter
        end
    end
  else last st iter.

(** ** BuildTable *)
Fixpoint add_rest (fuel : nat) (builder : TableBuilder) (meta : FileMetaData) (iter : St I) : option (TableBuilder * FileMetaData * St I) :=
  match fuel with
  | O => None
  | S fuel =>
      if negb (Valid I iter) then Some (builder, meta, iter)
      else
        let key := Iterator.key I iter in
        let meta := with_meta meta (fm_number meta) (fm_file_size meta) (fm_smallest meta) key in
        builder ← Table.Add options builder key (Iterator.value I iter);
        iter ← Next I iter;
        add_rest fuel builder meta iter
  end.

Definition BuildTable (fuel : nat) (iter : St I) (world : World) (meta : FileMetaData) : option (Status * FileMetaData * World) :=
  let meta := with_meta meta (fm_number meta) 0 (fm_smallest meta) (fm_largest meta) in
  iter ← SeekToFirst I iter;
  let fname := TableFileName dbname (fm_number meta) in
  '(s, meta, world, iter, early) ←
    (if Valid I iter then
       let '(s, file, world) := NewWritableFile world in
       if negb (ok s) then Some (s, meta, world, iter, true)
       else
         let meta := with_meta meta (fm_number meta) 0 (Iterator.key I iter) (fm_largest meta) in
         '(builder, meta, iter) ← add_rest fuel (new_TableBuilder options file) meta iter;
         '(s, builder) ← Finish options builder;
         let meta := if ok s then with_meta meta (fm_number meta) (FileSize builder) (fm_smallest meta) (fm_largest meta) else meta in
         let file := r_file builder in
         let '(s, file) := if ok s then Sync file else (s, file) in
         let '(s, file) := if ok s then Close file else (s, file) in
         let world := close_file world fname file in
         let s := if ok s then table_cache_status world (fm_number meta) (fm_file_size meta) else s in
         Some (s, meta, world, iter, false)
     else Some (OK, meta, world, iter, false));
  if early : bool then Some (s, meta, world)
  else
    let s := if ok (Iterator.status I iter) then s else Iterator.status I iter in
    Some (s, meta, if ok s && (0 <? fm_file_size meta) then world else DeleteFile_env world fname).

(** ** WriteLevel0TableGuards *)
Fixpoint reserve_numbers (n : nat) (w : World) : list Z * World :=
  match n with
  | O => ([], w)
  | S n =>
      let '(number, w) := NewFileNumber w in
      let '(rest, w) := reserve_numbers n (add_pending w number) in
      (number :: rest, w)
  end.

(** [iter] is mem->NewIterator(), [guards] the guards of level 0 of the base
    version.  Returns the status, the edit and the file numbers. *)
Definition WriteLevel0TableGuards (fuel : nat) (iter : St I) (guards : list GuardMetaData) (world : World)
    (filter : FileLevelFilterBuilder) (edit : VersionEdit) : option (Status * VersionEdit * list Z * Build) :=
  let '(reserved_file_numbers, world) := reserve_numbers (S (length guards)) world in
  '(s, st) ← BuildLevel0Tables fuel iter guards world reserved_file_numbers filter;
  let added := if ok s then List.filter (fun m => 0 <? fm_file_size m) (bl_metas st) else [] in
  let edit := fold_left (fun ed m => AddFile ed 0 (fm_number m) (fm_file_size m) (fm_smallest m) (fm_largest m)) added edit in
  Some (s, edit, map fm_number added ++ drop (length (bl_metas st)) reserved_file_numbers, st).
End Level0.

(** ** What level 0 gets *)
Section Built.
Context `{Hsnappy : !Snappy} (options : TableOptions) (dbname : bytes) (ucmp : Comparator) `{Hc : !ComparatorOk ucmp all_keys}.
Notation icmp := (InternalKeyComparator ucmp).
Context (Hcmp : o_comparator options = icmp).
Context (Hcomp : o_compression options = kNoCompression \/ o_compression options = kSnappyCompression).
Context (table_cache_status : World -> Z -> Z -> Status) (guards : list GuardMetaData) (reserved : list Z) (start : World).
Context (Htab : forall world number size, table_cache_status world number size = OK).
Notation slot_of := (slot_of ucmp guards).
Notation one_slot := (one_slot ucmp guards).
Notation passed := (passed ucmp guards).
Notation good := (good ucmp).
Notation policy := (filter_policy options).

Definition meta_written (world : World) (m : FileMetaData) (es : list entry) : Prop :=
  table_written options dbname world (fm_number m) (fm_file_size m) (fm_smallest m) (fm_largest m) es.

(** The filter over the keys of a file. *)
Definition file_filter (es : list entry) : option bytes :=
  fst (fl_GenerateFilter policy (fold_left (fl_AddKey policy) (map fst es) fl_Clear)).

(** The open file has the entries [pend]. *)
Definition open_with (st : Build) (pend : list entry) : Prop :=
  exists b, bl_builder st = Some b /\ builds options b pend /\ clean b /\
  forall e f, head pend = Some e -> last pend = Some f -> fm_smallest (bl_meta st) = fst e /\ fm_largest (bl_meta st) = fst f.

(** The entries so far: those of the whole files, and those of the open one. *)
Record built (st : Build) (files : list (list entry)) (pend : list entry) : Prop := {
  bt_files : Forall2 (meta_written (bl_world st)) (bl_metas st) files;
  bt_slots : Forall one_slot files;
  bt_pend : one_slot pend;
  bt_filters : bl_filters st = match policy with Some _ => map file_filter files | None => [] end;
  bt_filter : bl_filter st = fold_left (fl_AddKey policy) (map fst pend) fl_Clear;
  bt_open : pend <> [] -> open_with st pend;
  bt_count : bl_count st = len pend;
  bt_numbers : map fm_number (bl_metas st) ++ (match pend with [] => [] | _ => [fm_number (bl_meta st)] end) ++ bl_reserved st = reserved;
  bt_status : bl_status st = OK;
  bt_creates : wd_creates (bl_world st) = [];
  bt_world : (forall x, x ∈ wd_disk start -> x ∈ wd_disk (bl_world st)) /\ wd_next_file_number (bl_world st) = wd_next_file_number start;
}.

Lemma built_metas st files pend : built st files pend -> length (bl_metas st) = length files.
Proof. intros H. apply (Forall2_length _ _ _ (bt_files _ _ _ H)). Qed.

(** An entry goes to the open file, or to a new one with the next number. *)
Lemma add_step st files pend e : built st files pend -> (pend = [] -> length files < length reserved)%nat ->
  good (pend ++ [e]) -> one_slot (pend ++ [e]) ->
  let st1 := if bl_count st =? 0 then open_file options (fst e) st else st in
  (bl_count st1 =? 0) && negb (ok (bl_status st1)) = false /\
  exists st', add_one options (fst e) (snd e) st1 = Some st' /\ built st' files (pend ++ [e]).
Proof.
  intros H Hroom Hg Hone st1. pose proof H as [Hf Hs _ Hfs Hfl Hop Hcnt Hnum Hst Hcr [Hsub Hnext]].
  assert (bl_status st1 = OK /\ bl_count st1 = bl_count st /\ bl_metas st1 = bl_metas st /\ bl_filters st1 = bl_filters st /\
    bl_filter st1 = bl_filter st /\ wd_creates (bl_world st1) = [] /\ wd_disk (bl_world st1) = wd_disk (bl_world st) /\ wd_next_file_number (bl_world st1) = wd_next_file_number (bl_world st) /\
    map fm_number (bl_metas st1) ++ [fm_number (bl_meta st1)] ++ bl_reserved st1 = reserved /\
    (pend = [] -> fm_smallest (bl_meta st1) = fst e) /\ open_with st1 pend) as (E1 & E2 & E3 & E4 & E5 & E6 & E7 & E7' & E8 & E9 & (b & Eb & Hb & Hcl & Hr)).
  { unfold st1. destruct (Z.eqb_spec (bl_count st) 0) as [E0|E0]; rewrite Hcnt in E0.
    - apply len_0_nil in E0 as ->. destruct (bl_reserved st) as [|n rest] eqn:Er.
      { exfalso. specialize (Hroom eq_refl). rewrite <- Hnum, length_app, length_map in Hroom.
        rewrite (built_metas _ _ _ H) in Hroom. simpl in Hroom. lia. }
      unfold open_file. rewrite Er. unfold NewWritableFile. rewrite Hcr. cbn. repeat (split; [done|]).
      eexists. split; [reflexivity|]. split; [by eexists|]. by split.
    - destruct pend as [|p pend]; [done|]. repeat (split; [done|]). by apply Hop. }
  rewrite E1, E2. cbn [ok OK negb]. split; [by rewrite andb_false_r|].
  destruct e as [key value]. destruct (builds_Add_total Hcmp Hcomp b pend key value Hb Hg) as [b' Ea].
  unfold add_one. rewrite Eb. cbn [fst snd]. rewrite Ea. cbn [mbind option_bind]. eexists. split; [reflexivity|].
  split; cbn [bl_world bl_metas bl_filters bl_filter bl_builder bl_meta bl_count bl_reserved bl_status]; [|done|done|congruence|..|done|done|by rewrite E7, E7'].
  - rewrite E3. eapply Forall2_impl; [exact Hf|]. intros m es. apply table_written_mono. intros x. by rewrite E7.
  - rewrite E5, Hfl, map_app, fold_left_app. done.
  - intros _. exists b'. split; [done|]. split; [by eapply builds_Add|]. split; [by eapply Add_clean|].
    intros p q Hp Hq. rewrite last_snoc in Hq. injection Hq as <-. cbn [bl_meta with_meta fm_smallest fm_largest]. split; [|done].
    destruct pend as [|p' pend]; [injection Hp as <-; by apply E9|]. injection Hp as ->.
    destruct (last (p :: pend)) as [q|] eqn:El; [|by apply last_None in El]. by apply (Hr p q).
  - by rewrite E2, Hcnt, len_app.
  - rewrite <- E8, E3. by destruct pend.
Qed.

(** The open file is finished; without one nothing happens. *)
Lemma finish_step st files pend : built st files pend -> good pend ->
  exists st', finish_file options dbname table_cache_status st = Some st' /\
    built st' (files ++ if decide (pend = []) then [] else [pend]) [].
Proof.
  intros H Hg. pose proof H as [Hf Hs Hone Hfs Hfl Hop Hcnt Hnum Hst Hcr [Hsub Hnext]]. unfold finish_file. rewrite Hcnt.
  destruct (decide (pend = [])) as [->|Hne]; [exists st; split; [done|]; by rewrite app_nil_r|].
  destruct pend as [|p pend]; [done|]. clear Hne. set (es := p :: pend) in *.
  rewrite (proj2 (Z.ltb_lt 0 (len es))) by (unfold es; rewrite len_cons; pose proof (len_nonneg pend); lia).
  destruct (Hop ltac:(done)) as (b & Eb & Hb & Hcl & Hr). rewrite Eb.
  destruct (builds_Finish_total Hcmp Hcomp b es Hb Hg) as (s & b' & Ef). destruct (Finish_clean _ _ _ _ Hcl Ef) as [-> Hcl'].
  rewrite Ef. cbn [mbind option_bind ok OK].
  assert (0 < FileSize b') as Hpos.
  { destruct Hb as [script Hb]. apply add_all_grows in Hb. pose proof (Finish_grows _ _ Ef). simpl in Hb. lia. }
  destruct (AddFilterString options st) as [filters filter] eqn:Efs.
  assert (filters = match policy with Some _ => map file_filter (files ++ [es]) | None => [] end /\ filter = fl_Clear) as [-> ->].
  { revert Efs. unfold AddFilterString. destruct policy as [pol|] eqn:Ep.
    - rewrite Hfs, Hfl, map_app. cbn [map]. unfold file_filter at 3. rewrite Ep. destruct (fl_GenerateFilter _ _) as [flt b1]. by intros [= <- <-].
    - intros [= <- <-]. split; [done|]. rewrite Hfl. generalize (map fst es). intros ks. by induction ks. }
  eexists. split; [reflexivity|].
  assert (forall m, 0 < fm_file_size m -> FinishFileCompletion table_cache_status OK m (r_file b') (TableFileName dbname (fm_number m)) (bl_world st) =
    close_file (bl_world st) (TableFileName dbname (fm_number m)) (r_file b')) as HF.
  { intros m Hm. unfold FinishFileCompletion, Sync, Close, Flush_file, next_status. rewrite (clean_file _ Hcl'). cbn [ok OK head default tail].
    rewrite Htab. cbn [ok OK]. rewrite (proj2 (Z.ltb_lt 0 (fm_file_size m)) Hm). done. }
  rewrite HF by (simpl; lia).
  split; cbn [bl_world bl_metas bl_filters bl_filter bl_builder bl_meta bl_count bl_reserved bl_status];
    [| |by exists 0%nat|done|done|done|done| |done|done|].
  - apply Forall2_app; [eapply Forall2_impl; [exact Hf|]; intros m x; apply table_written_mono; intros y Hy; by right|].
    constructor; [|constructor]. destruct (last es) as [f|] eqn:El; [|by apply last_None in El].
    destruct (Hr p f eq_refl eq_refl) as [H1 H2]. split; [exists p, f; cbn; done|]. exists b, b'. do 3 (split; [done|]). left.
  - apply Forall_app. split; [done|]. by constructor.
  - rewrite map_app, <- app_assoc. exact Hnum.
  - split; [|done]. intros x Hx. right. by apply Hsub.
Qed.


Context (I : IterOps) (dom : bytes -> Prop) (l : list entry) (R : St I -> pos -> Prop) `{HI : !IterOk I icmp dom l R} (Hgood : good l).
Notation loop := (file_loop options dbname ucmp table_cache_status I).

(** The input stands before [rest], and what is before it has been added. *)
Record reached (st : Build) (iter : St I) (files : list (list entry)) (pend rest : list entry) : Prop := {
  re_all : l = (concat files ++ pend) ++ rest;
  re_at : R iter (at_count l (length (concat files ++ pend)));
  re_built : built st files pend;
}.

(** The entries before the guard [n], or all after the last guard. *)
Definition loop_limit (limit : option bytes) (n : nat) : Prop :=
  match limit with Some u => exists g, guards !! n = Some g /\ guard_ukey g = u | None => n = length guards end.

(** Between two guards: what is left has passed the first [n] of them. *)
Definition between (n : nat) (files : list (list entry)) (pend rest : list entry) : Prop :=
  rest = [] \/
  (length files <= n)%nat /\ Forall (fun e => slot_of (e_user e) = n) pend /\ Forall (fun e => passed n (e_user e)) rest.

Lemma reached_valid st iter files pend e rest : reached st iter files pend (e :: rest) -> entry_valid e.
Proof. intros [El _ _]. destruct Hgood as [_ Hv]. rewrite El in Hv. apply Forall_app in Hv as [_ Hv]. by apply Forall_cons in Hv as [? _]. Qed.

Lemma reached_good st iter files pend rest : reached st iter files pend rest -> good pend.
Proof. intros [El _ _]. pose proof Hgood as Hg. rewrite El, <- app_assoc in Hg. by eapply good_sub. Qed.

Lemma reached_end st iter files pend : reached st iter files pend [] -> Valid I iter = false.
Proof. intros [El HR _]. rewrite app_nil_r in El. rewrite <- El in HR. by apply io_at_end in HR. Qed.

Lemma passed_rest pre e rest n : good (pre ++ e :: rest) -> passed n (e_user e) -> Forall (fun e => passed n (e_user e)) (e :: rest).
Proof.
  intros [Hs _] Hp. constructor; [done|]. apply Forall_forall. intros e' He'. eapply passed_le; [exact Hp|].
  by destruct (user_sorted pre e rest e' Hs He').
Qed.

Lemma reached_finish st iter files pend rest : reached st iter files pend rest ->
  exists st' files', finish_file options dbname table_cache_status st = Some st' /\ reached st' iter files' [] rest /\
    (length files' <= S (length files))%nat /\ (pend = [] -> files' = files).
Proof.
  intros H. pose proof H as [El HR Hb]. destruct (finish_step _ _ _ Hb (reached_good _ _ _ _ _ H)) as (st' & E & Hb').
  exists st', (files ++ if decide (pend = []) then [] else [pend]). split; [exact E|].
  assert (concat (files ++ (if decide (pend = []) then [] else [pend])) = concat files ++ pend) as Ec.
  { destruct (decide (pend = [])) as [->|]; [by rewrite !app_nil_r|]. rewrite concat_app. simpl. by rewrite app_nil_r. }
  split; [|split; [rewrite length_app; destruct (decide (pend = [])); simpl; lia|intros ->; apply app_nil_r]].
  split; [|rewrite app_nil_r, Ec|]; [|done..]. by rewrite app_nil_r, Ec.
Qed.

Lemma file_loop_spec limit n rest : loop_limit limit n -> (n < length reserved)%nat ->
  forall fuel st iter files pend, (length rest < fuel)%nat -> reached st iter files pend rest -> between n files pend rest ->
  exists st' iter' files' pend' rest', loop fuel limit st iter = Some (st', iter', Ended) /\
    reached st' iter' files' pend' rest' /\ (rest' = [] \/ is_Some limit /\ pend' = [] /\ between (S n) files' pend' rest').
Proof.
  intros Hlim Hres. induction rest as [|e rest IH]; intros fuel st iter files pend Hfuel H Hbt;
    (destruct fuel as [|fuel]; [simpl in Hfuel; lia|]); cbn [file_loop].
  { rewrite (reached_end _ _ _ _ H). cbn [negb]. do 5 eexists. split; [done|]. split; [exact H|]. by left. }
  pose proof (reached_valid _ _ _ _ _ _ H) as Hv. pose proof (reached_finish _ _ _ _ _ H) as Hfin. pose proof H as [El HR Hb].
  destruct (io_at_entry _ _ _ _ El HR) as (-> & Ek & Ev & iter' & Enext & HR'). rewrite Ek, Ev. cbn [negb].
  destruct Hbt as [|(Hlen & Hslot & Hpass)]; [done|]. pose proof Hpass as [Hpe Hpass']%Forall_cons.
  set (before := match limit with Some _ => _ | None => true end).
  assert (if before then slot_of (e_user e) = n else is_Some limit /\ passed (S n) (e_user e)) as Hbefore.
  { unfold before. destruct limit as [u|]; [|cbn in Hlim; rewrite Hlim in Hpe |- *; by apply passed_all].
    destruct (parse_entry e ParsedInternalKey_default Hv) as [-> _]. cbn [user_key]. destruct Hlim as (g & Eg & <-).
    destruct (Z.ltb_spec (Compare ucmp (e_user e) (guard_ukey g)) 0); [by eapply passed_before|].
    split; [by eexists|]. by eapply passed_next. }
  destruct before.
  - pose proof Hgood as Hg. rewrite El in Hg. rewrite (app_assoc _ [e] rest : _ ++ e :: rest = _), <- (app_assoc (concat files)) in El, Hg.
    destruct (add_step st files pend e Hb) as (Eret & st' & Eadd & Hb').
    + intros _. lia.
    + rewrite <- app_assoc in Hg. by eapply good_sub.
    + exists n. apply Forall_app. split; [done|]. by constructor.
    + rewrite Eret, Eadd. cbn [mbind option_bind]. rewrite Enext. cbn [mbind option_bind]. apply (IH fuel _ _ files (pend ++ [e])).
      * simpl in Hfuel. lia.
      * split; [done|by rewrite app_assoc|done].
      * right. split; [done|]. split; [apply Forall_app; split; [done|by constructor]|done].
  - destruct Hbefore as [Hsome Hp]. destruct Hfin as (st' & files' & -> & Hre & Hlen' & _). cbn [mbind option_bind].
    do 5 eexists. split; [done|]. split; [exact Hre|]. right. split; [done|]. split; [done|]. right. split; [lia|]. split; [constructor|].
    eapply passed_rest; [|exact Hp]. rewrite <- El. exact Hgood.
Qed.

Lemma guard_loop_spec fuel gs : forall done st iter files pend rest, guards = done ++ gs -> (length l < fuel)%nat ->
  (length guards < length reserved)%nat -> reached st iter files pend rest -> (rest = [] \/ pend = []) ->
  between (length done) files pend rest ->
  exists st' iter' files' pend' rest', guard_loop options dbname ucmp table_cache_status I fuel gs st iter = Some (st', iter', Ended) /\
    reached st' iter' files' pend' rest' /\ (rest' = [] \/ pend' = []) /\ between (length guards) files' pend' rest'.
Proof.
  induction gs as [|g gs IH]; intros dn st iter files pend rest Eg Hfuel Hres H Hpd Hbt; cbn [guard_loop].
  { rewrite app_nil_r in Eg. subst dn. do 5 eexists. split; [done|]. done. }
  assert (length rest < fuel)%nat as Hfuel' by (pose proof (re_all _ _ _ _ _ H) as El; rewrite El, length_app in Hfuel; lia).
  assert (loop_limit (Some (guard_ukey g)) (length dn)) as Hlim.
  { exists g. split; [|done]. by rewrite Eg, lookup_app_r, Nat.sub_diag. }
  assert (length dn < length reserved)%nat as Hroom by (rewrite Eg, length_app in Hres; simpl in Hres; lia).
  destruct (file_loop_spec _ _ rest Hlim Hroom fuel st iter files pend Hfuel' H Hbt) as (st' & iter' & files' & pend' & rest' & -> & Hre & Hbt').
  cbn [mbind option_bind]. apply (IH (dn ++ [g]) _ _ files' pend' rest'); [by rewrite <- app_assoc|done|done|done| |].
  - destruct Hbt' as [->|(_ & -> & _)]; auto.
  - rewrite length_app, Nat.add_1_r. destruct Hbt' as [->|(_ & _ & Hbt')]; [by left|done].
Qed.


Lemma BuildLevel0Tables_spec fuel iter p world : world = start -> wd_creates world = [] -> (length guards < length reserved)%nat -> R iter p ->
  (length l < fuel)%nat ->
  exists st files, BuildLevel0Tables options dbname ucmp table_cache_status I fuel iter guards world reserved fl_Clear = Some (OK, st) /\
    concat files = l /\ built st files [].
Proof.
  intros Hw Hcr Hres HR Hfuel. unfold BuildLevel0Tables. set (st0 := {| bl_world := world |}).
  destruct (io_at_first _ _ HR) as (iter0 & -> & HR0). cbn [mbind option_bind].
  assert (reached st0 iter0 [] [] l) as H0.
  { split; [done|done|]. split; try done; [by exists 0%nat|by destruct policy|by subst]. }
  assert (exists st files iter', (if Valid I iter0 then _ else _) = Some (if ok (Iterator.status I iter') then bl_status st else Iterator.status I iter', st) /\
    reached st iter' files [] []) as (st & files & iter' & -> & [El HR' Hb]).
  2:{ exists st, files. rewrite (io_status _ _ HR'), (bt_status _ _ _ Hb). split; [done|]. rewrite !app_nil_r in El. by split. }
  destruct (Valid I iter0) eqn:Ev.
  2:{ exists st0, [], iter0. split; [done|]. replace (@nil entry) with l at 2; [done|]. rewrite (io_valid _ _ HR0) in Ev.
      unfold at_count in Ev. destruct (decide (0 < length l)%nat) as [|Hl]; [done|]. apply length_zero_iff_nil. lia. }
  destruct (guard_loop_spec fuel guards [] st0 iter0 [] [] l eq_refl Hfuel Hres H0) as (st1 & iter1 & files1 & pend1 & rest1 & -> & H1 & Hpd & Hbt1).
  { by right. }
  { right. split; [done|]. split; [done|]. apply Forall_forall. intros x _. split; [simpl; lia|constructor]. }
  cbn [mbind option_bind]. destruct (reached_finish _ _ _ _ _ H1) as (st2 & files2 & -> & H2 & _ & Hsame). cbn [mbind option_bind].
  assert (between (length guards) files2 [] rest1) as Hbt2.
  { destruct Hbt1 as [->|(Hlen & Hslot & Hpass)]; [by left|]. destruct Hpd as [->|Hpd]; [by left|]. rewrite (Hsame Hpd). right. by split; [|split]. }
  assert (length rest1 < fuel)%nat as Hfuel2 by (pose proof (re_all _ _ _ _ _ H1) as E; rewrite E, length_app in Hfuel; lia).
  destruct (file_loop_spec None (length guards) rest1 eq_refl Hres fuel st2 iter1 files2 [] Hfuel2 H2 Hbt2) as
    (st3 & iter3 & files3 & pend3 & rest3 & -> & H3 & [->|([? ?] & _)]); [|done].
  cbn [mbind option_bind]. destruct (reached_finish _ _ _ _ _ H3) as (st4 & files4 & -> & H4 & _). cbn [mbind option_bind].
  by exists st4, files4, iter3.
Qed.

(** *** WriteLevel0TableGuards *)
Lemma reserve_numbers_spec n : forall w numbers w', reserve_numbers n w = (numbers, w') ->
  length numbers = n /\ wd_creates w' = wd_creates w /\ wd_disk w' = wd_disk w /\
  (0 <= wd_next_file_number w -> wd_next_file_number w + Z.of_nat n <= 2 ^ 64 - 1 ->
   numbers = seqZ (wd_next_file_number w) (Z.of_nat n) /\ wd_next_file_number w' = wd_next_file_number w + Z.of_nat n).
Proof.
  induction n as [|n IH]; intros w numbers w'; cbn [reserve_numbers].
  { intros [= <- <-]. do 3 (split; [done|]). intros _ _. split; [done|]. simpl. lia. }
  destruct (NewFileNumber w) as [number w1] eqn:E1. destruct (reserve_numbers n (add_pending w1 number)) as [rs w2] eqn:E2.
  intros [= <- <-]. destruct (IH _ _ _ E2) as (Hl & Hcr & Hd & Hnum). unfold NewFileNumber in E1. injection E1 as <- <-. split; [simpl; lia|].
  split; [done|]. split; [done|]. intros H0 Hmax. simpl in Hnum. rewrite u64_small in Hnum by lia.
  destruct Hnum as [-> ->]; [lia..|]. split; [|lia]. rewrite (seqZ_cons (wd_next_file_number w)) by lia. f_equal. f_equal; lia.
Qed.

Lemma add_files_edit metas : forall edit,
  ve_new_files (fold_left (fun ed m => AddFile ed 0 (fm_number m) (fm_file_size m) (fm_smallest m) (fm_largest m)) metas edit) =
    ve_new_files edit ++ map (fun m => (0, file_meta (fm_number m) (fm_file_size m) (fm_smallest m) (fm_largest m))) metas.
Proof. induction metas as [|m metas IH]; intros edit; simpl; [by rewrite app_nil_r|]. rewrite IH. simpl. by rewrite <- app_assoc. Qed.

Lemma meta_written_size world m es : meta_written world m es -> 0 < fm_file_size m.
Proof.
  intros (_ & b & b' & [script Hb] & Ef & -> & _). apply add_all_grows in Hb. pose proof (Finish_grows _ _ Ef). simpl in Hb. lia.
Qed.

Lemma metas_kept world metas files : Forall2 (meta_written world) metas files -> List.filter (fun m => 0 <? fm_file_size m) metas = metas.
Proof.
  induction 1 as [|m es metas files Hm _ IH]; [done|]. simpl. apply meta_written_size in Hm. by rewrite (proj2 (Z.ltb_lt _ _) Hm), IH.
Qed.


(** *** BuildTable *)
Lemma add_rest_spec final rest : forall fuel pre b meta iter, l = pre ++ rest -> delivers I iter rest final -> builds options b pre ->
  (length rest < fuel)%nat -> (forall e, last pre = Some e -> fm_largest meta = fst e) ->
  exists b' meta' iter', add_rest options I fuel b meta iter = Some (b', meta', iter') /\ builds options b' l /\ (clean b -> clean b') /\
    Iterator.status I iter' = final /\ (forall e, last l = Some e -> fm_largest meta' = fst e) /\
    fm_number meta' = fm_number meta /\ fm_file_size meta' = fm_file_size meta /\ fm_smallest meta' = fm_smallest meta.
Proof.
  induction rest as [|e rest IH]; intros fuel pre b meta iter El HR Hb Hfuel Hlast; (destruct fuel as [|fuel]; [simpl in Hfuel; lia|]); cbn [add_rest delivers] in *.
  { rewrite app_nil_r in El. rewrite <- El in Hb, Hlast. destruct HR as [-> Hfin]. cbn [negb]. exists b, meta, iter. done. }
  destruct HR as (-> & -> & -> & _ & iter' & Enext & HR'). cbn [negb]. destruct e as [k v]. cbn [fst snd].
  assert (good (pre ++ [(k, v)])) as Hg.
  { pose proof Hgood as Hg. rewrite El, (app_assoc pre [(k, v)] rest : pre ++ (k, v) :: rest = _) in Hg. by apply (good_sub [] _ rest). }
  destruct (builds_Add_total Hcmp Hcomp b pre k v Hb Hg) as [b1 E1]. rewrite E1. cbn [mbind option_bind]. rewrite Enext. cbn [mbind option_bind].
  destruct (IH fuel (pre ++ [(k, v)]) b1 (with_meta meta (fm_number meta) (fm_file_size meta) (fm_smallest meta) k) iter') as
    (b' & meta' & iter2 & E & Hb' & Hcl & H).
  - by rewrite <- app_assoc.
  - done.
  - by eapply builds_Add.
  - simpl in Hfuel. lia.
  - intros e. rewrite last_snoc. by intros [= <-].
  - exists b', meta', iter2. split; [done|]. split; [done|]. split; [|done]. intros Hcl0. eapply Hcl, Add_clean; [exact Hcl0|exact E1].
Qed.

Lemma close_deleted world fname f c :
  (fname, c) ∈ wd_disk (DeleteFile_env (close_file world fname f) fname) -> (fname, c) ∈ wd_disk world.
Proof.
  intros H%list_elem_of_In. simpl in H. rewrite bool_decide_true in H by done. simpl in H. apply filter_In in H as [H _]. by apply list_elem_of_In.
Qed.

End Built.

(** The flush when no call fails. *)
Lemma WriteLevel0TableGuards_ok `{Hsnappy : !Snappy} (options : TableOptions) (dbname : bytes) (ucmp : Comparator)
    `{Hc : !ComparatorOk ucmp all_keys} (table_cache_status : World -> Z -> Z -> Status) (guards : list GuardMetaData) (I : IterOps)
    (dom : bytes -> Prop) (l : list entry) (R : St I -> pos -> Prop) `{HI : !IterOk I (InternalKeyComparator ucmp) dom l R}
    (fuel : nat) (iter : St I) (p : pos) (world : World) (edit : VersionEdit) :
  o_comparator options = InternalKeyComparator ucmp ->
  o_compression options = kNoCompression \/ o_compression options = kSnappyCompression ->
  (forall world number size, table_cache_status world number size = OK) -> wd_creates world = [] ->
  sorted_keys (InternalKeyComparator ucmp) l -> Forall entry_valid l -> R iter p -> (length l < fuel)%nat ->
  0 <= wd_next_file_number world -> wd_next_file_number world + len guards + 1 < 2 ^ 64 ->
  exists st files,
    let numbers := seqZ (wd_next_file_number world) (len guards + 1) in
    WriteLevel0TableGuards options dbname ucmp table_cache_status I fuel iter guards world fl_Clear edit =
      Some (OK, fold_left (fun ed m => AddFile ed 0 (fm_number m) (fm_file_size m) (fm_smallest m) (fm_largest m)) (bl_metas st) edit, numbers, st) /\
    Forall2 (meta_written options dbname (bl_world st)) (bl_metas st) files /\
    concat files = l /\ Forall (one_slot ucmp guards) files /\
    map fm_number (bl_metas st) = take (length files) numbers /\
    bl_filters st = match filter_policy options with Some _ => map (file_filter options) files | None => [] end /\
    (forall x, x ∈ wd_disk world -> x ∈ wd_disk (bl_world st)) /\ wd_creates (bl_world st) = [] /\
    wd_next_file_number (bl_world st) = wd_next_file_number world + len guards + 1 /\ bl_filter st = fl_Clear.
Proof.
  intros Hcmp Hcomp Htab Hcr Hs Hv HR Hfuel Hlo Hhi. unfold WriteLevel0TableGuards.
  destruct (reserve_numbers (S (length guards)) world) as [reserved w1] eqn:Er. destruct (reserve_numbers_spec _ _ _ _ Er) as (Hlen & Hcr1 & Hd1 & Hnum).
  rewrite Hcr in Hcr1. unfold len in Hhi |- *. destruct (Hnum Hlo ltac:(lia)) as [Hres Hnext].
  rewrite Nat2Z.inj_succ, <- Z.add_1_r in Hres. rewrite <- Hres.
  destruct (BuildLevel0Tables_spec options dbname ucmp Hcmp Hcomp table_cache_status guards reserved w1 Htab I dom l R ltac:(by split)
    fuel iter p w1 eq_refl Hcr1 ltac:(lia) HR Hfuel) as (st & files & -> & Ec & Hb).
  cbn [mbind option_bind ok OK]. rewrite (metas_kept _ _ _ _ _ (bt_files _ _ _ _ _ _ _ _ _ Hb)).
  pose proof (bt_numbers _ _ _ _ _ _ _ _ _ Hb) as En. cbn [app] in En. destruct (bt_world _ _ _ _ _ _ _ _ _ Hb) as [Hsub Hnext'].
  assert (length (bl_metas st) = length files) as Elen by (eapply built_metas; exact Hb).
  exists st, files. split; [do 3 f_equal|].
  - rewrite <- En, <- (length_map fm_number (bl_metas st)). by rewrite drop_app_length.
  - split; [apply Hb|]. split; [done|]. split; [apply Hb|].
    split; [by rewrite <- En, <- Elen, <- (length_map fm_number (bl_metas st)), take_app_length|]. split; [apply Hb|].
    split; [intros x Hx; apply Hsub; by rewrite Hd1|]. split; [apply Hb|]. split; [lia|]. apply Hb.
Qed.

(** ** The claims *)

(** C13. A flush of the memtable.  When no call fails, WriteLevel0TableGuards
    over a memtable with sorted valid internal keys returns OK; the edit gets
    one level-0 file per table written, and nothing else; each table was
    finished with the entries it stands for and has their first and last key as
    its range; the tables hold, one after the other, exactly the entries of the
    memtable, those of one table all in one guard of level 0; every table has
    the file-level filter of its keys; and the numbers to be released are the
    reserved ones, in a row from the next file number. *)
Theorem level0_gets_memtable `{Hsnappy : !Snappy} (options : TableOptions) (dbname : bytes) (ucmp : Comparator)
    (Hc : ComparatorOk ucmp all_keys) (table_cache_status : World -> Z -> Z -> Status) (guards : list GuardMetaData) (I : IterOps)
    (dom : bytes -> Prop) (l : list entry) (R : St I -> pos -> Prop) (HI : IterOk I (InternalKeyComparator ucmp) dom l R)
    (fuel : nat) (iter : St I) (p : pos) (world : World) (edit : VersionEdit) :
  o_comparator options = InternalKeyComparator ucmp ->
  o_compression options = kNoCompression \/ o_compression options = kSnappyCompression ->
  (forall world number size, table_cache_status world number size = OK) -> wd_creates world = [] ->
  sorted_keys (InternalKeyComparator ucmp) l -> Forall entry_valid l -> R iter p -> (length l < fuel)%nat ->
  0 <= wd_next_file_number world -> wd_next_file_number world + len guards + 1 < 2 ^ 64 ->
  exists edit' st files,
    let numbers := seqZ (wd_next_file_number world) (len guards + 1) in
    WriteLevel0TableGuards options dbname ucmp table_cache_status I fuel iter guards world fl_Clear edit = Some (OK, edit', numbers, st) /\
    ve_new_files edit' = ve_new_files edit ++
      map (fun m => (0, file_meta (fm_number m) (fm_file_size m) (fm_smallest m) (fm_largest m))) (bl_metas st) /\
    Forall2 (meta_written options dbname (bl_world st)) (bl_metas st) files /\
    concat files = l /\ Forall (one_slot ucmp guards) files /\
    map fm_number (bl_metas st) = take (length files) numbers /\
    (is_Some (filter_policy options) -> bl_filters st = map (file_filter options) files).
Proof.
  intros Hcmp Hcomp Htab Hcr Hs Hv HR Hfuel Hlo Hhi.
  destruct (WriteLevel0TableGuards_ok options dbname ucmp table_cache_status guards I dom l R fuel iter p world edit Hcmp Hcomp Htab Hcr Hs Hv HR Hfuel
    Hlo Hhi) as (st & files & E & Hf & Ec & Hslots & Hnum & Hfilters & _).
  eexists _, st, files. split; [exact E|]. split; [apply add_files_edit|]. do 4 (split; [done|]). intros [pol Epol]. by rewrite Hfilters, Epol.
Qed.


(** ** An example, and the tables that are lost *)

Definition flush_options : TableOptions := {|
  o_comparator := InternalKeyComparator BytewiseComparator; o_block_size := 64; o_block_restart_interval := 4;
  o_compression := kNoCompression; o_filter_policy := Some (bytes_of_string "bloom", BloomFilterPolicy 10) |}.

(** One guard, m, between the keys a and z. *)
Definition flush_guards : list GuardMetaData := [guard_meta 0 (InternalKey [Byte.x6d] 1 kTypeGuard)].
Definition flush_a : entry := (InternalKey [Byte.x61] 6 kTypeValue, [Byte.x31]).
Definition flush_z : entry := (InternalKey [Byte.x7a] 7 kTypeValue, [Byte.x32]).
Definition flush_entries : list entry := [flush_a; flush_z].
Definition flush_world (creates : list (Status * list Status)) : World :=
  {| wd_next_file_number := 20; wd_pending_outputs := []; wd_creates := creates; wd_disk := [] |}.
Definition flush_run (creates : list (Status * list Status)) (it : Iter) :=
  WriteLevel0TableGuards flush_options [] BytewiseComparator (fun _ _ _ => OK) (BlockIter (InternalKeyComparator BytewiseComparator)) 3 it
    flush_guards (flush_world creates) fl_Clear new_VersionEdit.

Lemma flush_entries_ok : sorted_keys (InternalKeyComparator BytewiseComparator) flush_entries /\ Forall entry_valid flush_entries.
Proof.
  split.
  - intros [|[|i]] [|[|j]] a b Hij Ha Hb; simpl in Ha, Hb; simplify_eq; try lia; vm_compute; reflexivity.
  - repeat (constructor; [eexists _, _, _; split; [reflexivity|split; vm_compute; split; discriminate]|]). constructor.
Qed.

(** The numbers of the level-0 files of an edit. *)
Definition level0_numbers (edit : VersionEdit) : list Z := map (fun f => fm_number (snd f)) (ve_new_files edit).

(** A flush can report success and lose entries.  The keys a and z are on
    both sides of a guard.  When the first write to the first table fails,
    Finish reports it, but the status is overwritten by that of the second
    table: WriteLevel0TableGuards returns OK, the edit has only the table of z,
    no file has a, and the number of the first table stays in pending_outputs
    although the numbers to release have another one twice.  When Sync of the
    first table fails, FinishFileCompletion deletes the file and its status is
    lost: the edit names a file that is not on disk. *)
Theorem flush_reports_lost_table :
  exists it edit1 st1 edit2 st2,
    NewBlockIterator (new_Block (fst (bb_Finish (build_block 16 flush_entries)))) = inr it /\
    flush_run [(OK, [IOError []])] it = Some (OK, edit1, [21; 21], st1) /\
    level0_numbers edit1 = [21] /\ map fst (wd_disk (bl_world st1)) = [TableFileName [] 21] /\
    map (fun f => fm_smallest (snd f)) (ve_new_files edit1) = [fst flush_z] /\ wd_pending_outputs (bl_world st1) = [20; 21] /\
    flush_run [(OK, replicate 10 OK ++ [IOError []])] it = Some (OK, edit2, [20; 21], st2) /\
    level0_numbers edit2 = [20; 21] /\ map fst (wd_disk (bl_world st2)) = [TableFileName [] 21].
Proof. eexists _, _, _, _, _. do 8 (split; [vm_compute; reflexivity|]). vm_compute. reflexivity. Qed.

Lemma level0_gets_memtable_witness :
  exists it edit st files,
    NewBlockIterator (new_Block (fst (bb_Finish (build_block 16 flush_entries)))) = inr it /\
    flush_run [] it = Some (OK, edit, [20; 21], st) /\ Forall2 (meta_written flush_options [] (bl_world st)) (bl_metas st) files /\
    concat files = flush_entries.
Proof.
  destruct (built_block_ok (InternalKeyComparator BytewiseComparator) is_ikey InternalKeyComparator_ok 16 flush_entries)
    as (it & R & E & HI & Hr);
    [apply flush_entries_ok|repeat constructor; vm_compute; discriminate|repeat constructor; vm_compute; reflexivity|vm_compute; reflexivity|].
  destruct (level0_gets_memtable flush_options [] BytewiseComparator BytewiseComparator_ok (fun _ _ _ => OK) flush_guards
    (BlockIter (InternalKeyComparator BytewiseComparator)) is_ikey flush_entries R HI 3 it None (flush_world []) new_VersionEdit)
    as (edit & st & files & H1 & _ & H2 & H3 & _).
  - reflexivity.
  - left. reflexivity.
  - reflexivity.
  - reflexivity.
  - apply flush_entries_ok.
  - apply flush_entries_ok.
  - exact Hr.
  - simpl. lia.
  - simpl. lia.
  - vm_compute. reflexivity.
  - exists it, edit, st, files. split; [exact E|]. split; [exact H1|]. split; [exact H2|exact H3].
Defined.

