(* ===== verification/Recovery.v ===== *)
(** * Recovering the log (db/db_impl.cc: DBImpl::RecoverLogFile, DBImpl::Recover)

    When the database is opened, every log that the MANIFEST does not cover is
    read, its batches are inserted into memtables, and the memtables are written
    to level 0.  The logs, the memtables with their guards, and the flush are
    those of the other files. *)

From Stdlib Require Import ZArith Lia Bool.
From Stdlib Require Import Strings.String.
From stdpp Require Import base list sorting.
From S2P Require Import Prelude Coding Comparator DbFormat Status Iterator FileName Log LogSpec Bloom FilterBlock Format Table.
From S2P Require Import WriteBatch SkipList SkipListSpec MemTable MemIter VersionEdit Guards VersionBuilder Compaction DbIter TableSpec TableFiles Level0.

Set Default Goal Selector "!".
Local Open Scope Z_scope.

(** Version::AddCompleteGuardsToEdit *)
Definition AddCompleteGuardsToEdit (v : Version) (edit : VersionEdit) : VersionEdit :=
  fold_left (fun edit i => fold_left (fun edit g => AddCompleteGuardFromExisting edit (Z.of_nat i) g) (level_of (v_complete_guards v) i) edit)
    (seq 0 (Z.to_nat kNumLevels)) edit.

(** The guards a batch brings, as HandleGuard makes them. *)
Definition batch_guard (g : GuardAdded) : GuardMetaData :=
  {| gm_refs := 1; gm_level := snd g; gm_number_segments := 0; gm_guard_key := fst g; gm_smallest := []; gm_largest := []; gm_files := [];
     gm_file_metas := [] |}.

Definition add_batch_guards (v : Version) (gs : list GuardAdded) : Version :=
  fold_left (fun v g => AddToCompleteGuards v (batch_guard g) (snd g)) gs v.

Definition erase_pending (numbers : list Z) (w : World) : World :=
  {| wd_next_file_number := wd_next_file_number w;
     wd_pending_outputs := List.filter (fun n => negb (existsb (Z.eqb n) numbers)) (wd_pending_outputs w);
     wd_creates := wd_creates w; wd_disk := wd_disk w |}.

Record Recovering := {
  rl_world : World;
  rl_version : Version;                       (** versions_->current() *)
  rl_edit : VersionEdit;
  rl_max_sequence : Z;
  rl_filters : list (Z * option bytes);       (** file_level_bloom_filter, the latest first *)
}.

Section Recovery.
Context `{Hsnappy : !Snappy} (options : TableOptions) (dbname : bytes) (ucmp : Comparator).
Context (table_cache_status : World -> Z -> Z -> Status).
Context (paranoid_checks : bool) (write_buffer_size : Z).
(** mem->ApproximateMemoryUsage(): what the arena has allocated for the memtable. *)
Context (ApproximateMemoryUsage : MemTable -> Z).

Definition MaybeIgnoreError (s : Status) : Status := if ok s || paranoid_checks then s else OK.

(** LogReporter::Corruption; the status is NULL without paranoid_checks. *)
Definition report (status c : Status) : Status := if paranoid_checks && ok status then c else status.

Definition report_new (status : Status) (before after : Reader) : Status :=
  fold_left (fun status r => report status (snd r)) (rev (take (length (reports after) - length (reports before)) (reports after))) status.

(** The skip list has one node more than the memtable has entries, which is
    enough for the loops over the memtable. *)
Definition flush (mem : MemTable) (st : Recovering) (filter : FileLevelFilterBuilder)
    : option (Status * list Z * list (option bytes) * Recovering * FileLevelFilterBuilder) :=
  '(s, edit, numbers, b) ← WriteLevel0TableGuards options dbname ucmp table_cache_status (MemTableIterator ucmp mem) (length (table_ mem))
    (NewIterator ucmp mem) (level_of (v_guards (rl_version st)) 0) (rl_world st) filter (rl_edit st);
  Some (s, numbers, bl_filters b,
    {| rl_world := bl_world b; rl_version := rl_version st; rl_edit := edit; rl_max_sequence := rl_max_sequence st; rl_filters := rl_filters st |},
    bl_filter b).

(** AddFileLevelBloomFilterInfo for every number that has a filter. *)
Definition register_filters (numbers : list Z) (filters : list (option bytes)) (st : Recovering) : Recovering :=
  {| rl_world := rl_world st; rl_version := rl_version st; rl_edit := rl_edit st; rl_max_sequence := rl_max_sequence st;
     rl_filters := rev (zip numbers filters) ++ rl_filters st |}.

(** One record: its batch goes to the memtable and the version. *)
Definition insert_record (record : bytes) (mem : option MemTable) (st : Recovering) : option (Status * MemTable * Recovering) :=
  let batch := SetContents record in
  '(s, m, guards) ← InsertIntoVersion ucmp batch (default new_MemTable mem) [];
  let version := add_batch_guards (rl_version st) guards in
  let status := MaybeIgnoreError s in
  let last_seq := u64 (Sequence batch + Count batch - 1) in
  Some (status, m,
    {| rl_world := rl_world st; rl_version := version; rl_edit := rl_edit st;
       rl_max_sequence := if ok status && (rl_max_sequence st <? last_seq) then last_seq else rl_max_sequence st;
       rl_filters := rl_filters st |}).

Fixpoint recover_records (fuel : nat) (r : Reader) (status : Status) (mem : option MemTable) (filter : FileLevelFilterBuilder) (st : Recovering)
    : option (Status * option MemTable * FileLevelFilterBuilder * Recovering) :=
  match fuel with
  | O => None
  | S fuel =>
      '(res, r') ← ReadRecord r;
      let status := report_new status r r' in
      match res with
      | None => Some (status, mem, filter, st)
      | Some record =>
          if negb (ok status) then Some (status, mem, filter, st)
          else if len record <? 12 then
            recover_records fuel r' (report status (Corruption (bytes_of_string "log record too small"))) mem filter st
          else
            '(status, m, st) ← insert_record record mem st;
            if negb (ok status) then Some (status, Some m, filter, st)
            else if write_buffer_size <? ApproximateMemoryUsage m then
              '(s, numbers, filters, st, filter) ← flush m st filter;
              if negb (ok s) then Some (s, Some m, filter, st)
              else recover_records fuel r' s None filter (register_filters numbers filters st)
            else recover_records fuel r' status (Some m) filter st
      end
  end.

(** How RecoverLogFile ends: with a status, or reading file_level_filters past
    its end. *)
Inductive LogOutcome := LogRecovered (s : Status) (st : Recovering) | ReadPastFilters.

(** The last loop over the numbers; [None]: a filter is read past the end. *)
Definition register_all (numbers : list Z) (filters : list (option bytes)) (st : Recovering) : option Recovering :=
  match filter_policy options with
  | Some _ => if (length filters <? length numbers)%nat then None else Some (register_filters numbers filters st)
  | None => Some st
  end.

Definition RecoverLogFile (open : Status * SequentialFile) (st : Recovering) : option LogOutcome :=
  let '(status, file) := open in
  if negb (ok status) then Some (LogRecovered (MaybeIgnoreError status) st)
  else
    '(status, mem, filter, st) ← recover_records (S (length (sf_rest file))) (new_reader file true true 0) status None fl_Clear st;
    let edit := AddCompleteGuardsToEdit (rl_version st) (AddGuardsToEdit (rl_version st) (rl_edit st) []) in
    let st := {| rl_world := rl_world st; rl_version := rl_version st; rl_edit := edit; rl_max_sequence := rl_max_sequence st;
                 rl_filters := rl_filters st |} in
    match mem with
    | Some m =>
        if ok status then
          '(status, numbers, filters, st, filter) ← flush m st filter;
          Some match register_all numbers filters st with
               | Some st => LogRecovered status
                   {| rl_world := erase_pending numbers (rl_world st); rl_version := rl_version st; rl_edit := rl_edit st;
                      rl_max_sequence := rl_max_sequence st; rl_filters := rl_filters st |}
               | None => ReadPastFilters
               end
        else Some (LogRecovered status st)
    | None => Some (LogRecovered status st)
    end.

(** ** DBImpl::Recover, once the MANIFEST is read *)
Definition parsed_names (names : list bytes) : list (Z * FileType) := omap ParseFileName names.

Definition is_log (t : FileType) : bool := match t with kLogFile => true | _ => false end.

(** The numbers of the logs to read, in order. *)
Definition logs_to_recover (names : list bytes) (min_log prev_log : Z) : list Z :=
  merge_sort Z.le (map fst (List.filter (fun p => is_log (snd p) && ((min_log <=? fst p) || (fst p =? prev_log))) (parsed_names names))).

(** AddLiveFiles of the only version there is, as a set. *)
Definition live_files (v : Version) : list Z :=
  fold_left (fun live f => set_insert Z.ltb (fm_number f) live) (concat (v_files v)) [].

(** Files of the version that are not in the directory. *)
Definition missing_files (names : list bytes) (live : list Z) : list Z :=
  List.filter (fun n => negb (existsb (fun p => fst p =? n) (parsed_names names))) live.

Definition mark_used (number : Z) (st : Recovering) : Recovering :=
  let w := rl_world st in
  {| rl_world := {| wd_next_file_number := if wd_next_file_number w <=? number then u64 (number + 1) else wd_next_file_number w;
                    wd_pending_outputs := wd_pending_outputs w; wd_creates := wd_creates w; wd_disk := wd_disk w |};
     rl_version := rl_version st; rl_edit := rl_edit st; rl_max_sequence := rl_max_sequence st; rl_filters := rl_filters st |}.

(** The status of the last log is the one that is kept. *)
Fixpoint recover_logs (logs : list Z) (open : Z -> Status * SequentialFile) (status : Status) (st : Recovering) : option LogOutcome :=
  match logs with
  | [] => Some (LogRecovered status st)
  | n :: logs =>
      res ← RecoverLogFile (open n) st;
      match res with
      | LogRecovered status st => recover_logs logs open status (mark_used n st)
      | ReadPastFilters => Some ReadPastFilters
      end
  end.

(** [children]: the directory; [open]: NewSequentialFile of a log.  Returns the
    status, LastSequence() and the rest of the state; [None] too when filters
    are read past their end. *)
Definition recover_from_logs (children : Status * list bytes) (open : Z -> Status * SequentialFile) (log_number prev_log_number last_sequence : Z)
    (st : Recovering) : option (Status * Z * Recovering) :=
  let '(s, names) := children in
  if negb (ok s) then Some (s, last_sequence, st)
  else
    match missing_files names (live_files (rl_version st)) with
    | n :: rest =>
        Some (Corruption2 (NumberToString (len (n :: rest)) ++ bytes_of_string " missing files; e.g.") (TableFileName dbname n), last_sequence, st)
    | [] =>
        let st := {| rl_world := rl_world st; rl_version := rl_version st; rl_edit := rl_edit st; rl_max_sequence := 0; rl_filters := rl_filters st |} in
        res ← recover_logs (logs_to_recover names log_number prev_log_number) open s st;
        match res with
        | LogRecovered s st => Some (s, if ok s && (last_sequence <? rl_max_sequence st) then rl_max_sequence st else last_sequence, st)
        | ReadPastFilters => None
        end
    end.
End Recovery.

(** ** What recovery restores *)
Notation batch := (Z * list Op)%type.
Notation batch_record b := (batch_of (fst b) (snd b)).
Notation batch_additions b := (additions true (fst b) (snd b)).

Definition history_additions (bs : list batch) : list Addition := concat (map (fun b => batch_additions b) bs).
Definition history_guards (bs : list batch) : list GuardAdded := concat (map (fun b => guards_added (fst b) (snd b)) bs).
Definition last_seq (b : batch) : Z := u64 (fst b + len (snd b) - 1).

Definition writes (b : batch) : Prop := batch_additions b <> [].

(** Batches in the order of the log; no sequence number is used twice. *)
Fixpoint numbered (adds : list Addition) (bs : list batch) : Prop :=
  match bs with
  | [] => True
  | b :: bs =>
      0 <= fst b /\ fst b + len (snd b) <= kMaxSequenceNumber /\ len (snd b) < 2 ^ 31 /\ Forall op_sized (snd b) /\
      MemTable.fresh adds (batch_additions b) /\ numbered (adds ++ batch_additions b) bs
  end.

Lemma fresh_sub adds adds' news : MemTable.fresh adds' news -> (forall a, a ∈ adds -> a ∈ adds') -> MemTable.fresh adds news.
Proof. intros H Hs b a Hb Ha. apply (H b a); auto. Qed.

Section RecoverySpec.
Context `{Hsnappy : !Snappy} (options : TableOptions) (dbname : bytes) (ucmp : Comparator) `{Hc : !ComparatorOk ucmp all_keys}.
Notation icmp := (InternalKeyComparator ucmp).
Context (Hcmp : o_comparator options = icmp).
Context (Hcomp : o_compression options = kNoCompression \/ o_compression options = kSnappyCompression).
Context (table_cache_status : World -> Z -> Z -> Status) (Htab : forall world number size, table_cache_status world number size = OK).
Context (paranoid_checks : bool) (write_buffer_size : Z) (ApproximateMemoryUsage : MemTable -> Z).

(** The tables that were written since [st0] hold exactly the additions. *)
Definition tables_hold (st0 st : Recovering) (adds : list Addition) : Prop :=
  exists metas files,
    ve_new_files (rl_edit st) = ve_new_files (rl_edit st0) ++
      map (fun m => (0, file_meta (fm_number m) (fm_file_size m) (fm_smallest m) (fm_largest m))) metas /\
    Forall2 (meta_written options dbname (rl_world st)) metas files /\
    forall e, e ∈ concat files <-> exists a, a ∈ adds /\ e = a_pair a.

(** The memtable, if there is one, holds these additions: some, if every batch
    brings some. *)
Definition mem_holds (bs : list batch) (mem : option MemTable) (adds : list Addition) : Prop :=
  match mem with Some m => memtable_rep ucmp m adds /\ (Forall writes bs -> adds <> []) | None => adds = [] end.

Lemma additions_valid m adds l : memtable_rep ucmp m adds -> (forall e, e ∈ l <-> exists a, a ∈ adds /\ e = a_pair a) -> Forall entry_valid l.
Proof.
  intros (L & _ & Hok & _) Hl. apply Forall_forall. intros e He. apply Hl in He as (a & Ha & ->). rewrite Forall_forall in Hok.
  destruct (Hok a Ha) as (Ht & _). by exists (a_key a), (a_seq a), (a_type a).
Qed.

Notation do_flush := (flush options dbname ucmp table_cache_status).

Definition room (n : nat) (st : Recovering) : Prop :=
  0 <= wd_next_file_number (rl_world st) /\
  wd_next_file_number (rl_world st) + (len (level_of (v_guards (rl_version st)) 0) + 1) * Z.of_nat n < 2 ^ 64 /\
  wd_creates (rl_world st) = [].

Lemma flush_ok n mem held st : memtable_rep ucmp mem held -> room (S n) st ->
  exists numbers filters st', do_flush mem st fl_Clear = Some (OK, numbers, filters, st', fl_Clear) /\
    rl_version st' = rl_version st /\ rl_max_sequence st' = rl_max_sequence st /\ rl_filters st' = rl_filters st /\ room n st' /\
    (forall st0 flushed, tables_hold st0 st flushed -> tables_hold st0 st' (flushed ++ held)) /\
    len numbers = len (level_of (v_guards (rl_version st)) 0) + 1 /\
    (exists files, (filter_policy options = None \/ length filters = length files) /\
       (forall e, e ∈ concat files <-> exists a, a ∈ held /\ e = a_pair a) /\ Forall (one_slot ucmp (level_of (v_guards (rl_version st)) 0)) files).
Proof.
  intros Hrep (H0 & Hmax & Hcr). destruct (memtable_iterates ucmp mem held Hrep) as (l & R & HI & HR & Hs & Hl & Hlen).
  set (guards := level_of (v_guards (rl_version st)) 0) in *. pose proof (len_nonneg guards) as Hg.
  destruct (WriteLevel0TableGuards_ok (HI := HI) options dbname ucmp table_cache_status guards (MemTableIterator ucmp mem) mem_seekable l R (length (table_ mem))
    (NewIterator ucmp mem) None (rl_world st) (rl_edit st)) as (b & files & E & Hf & Ec & Hslots & _ & Hfl & Hsub & Hcr' & Hnext & Hclear);
    [done|done|done|done|done|by eapply additions_valid|done|done|done|lia|].
  unfold flush. fold guards. rewrite E. cbn [mbind option_bind]. do 3 eexists. split; [by rewrite Hclear|].
  cbn [rl_version rl_max_sequence rl_filters]. do 3 (split; [done|]).
  split; [split; [cbn [rl_world]; lia|]; split; [cbn [rl_world rl_version]; fold guards; lia|done]|].
  split; [|split; [unfold len; rewrite length_seqZ; lia|]].
  - intros st0 flushed (metas & fs & Ee & Hfs & Hel). exists (metas ++ bl_metas b), (fs ++ files). cbn [rl_edit rl_world].
    split; [by rewrite add_files_edit, Ee, map_app, app_assoc|]. split.
    + apply Forall2_app; [|done]. eapply Forall2_impl; [exact Hfs|]. intros m es. by apply table_written_mono.
    + intros e. rewrite concat_app, elem_of_app, Hel, Ec, Hl. split.
      * intros [(a & Ha & ->)|(a & Ha & ->)]; exists a; (split; [|done]); apply elem_of_app; auto.
      * intros (a & [Ha|Ha]%elem_of_app & ->); eauto.
  - exists files. split; [|split; [by rewrite Ec|done]]. rewrite Hfl. destruct (filter_policy options); [right; by rewrite length_map|by left].
Qed.

Notation insert := (insert_record ucmp paranoid_checks).
Notation records_loop := (recover_records options dbname ucmp table_cache_status paranoid_checks write_buffer_size ApproximateMemoryUsage).

Definition after_batch (st : Recovering) (b : batch) : Recovering :=
  {| rl_world := rl_world st; rl_version := add_batch_guards (rl_version st) (guards_added (fst b) (snd b)); rl_edit := rl_edit st;
     rl_max_sequence := Z.max (rl_max_sequence st) (last_seq b); rl_filters := rl_filters st |}.

Lemma insert_record_ok bs b mem held st : mem_holds bs mem held -> 0 <= fst b -> fst b + len (snd b) <= kMaxSequenceNumber -> len (snd b) < 2 ^ 31 ->
  Forall op_sized (snd b) -> MemTable.fresh held (batch_additions b) ->
  exists m', insert (batch_record b) mem st = Some (OK, m', after_batch st b) /\ memtable_rep ucmp m' (held ++ batch_additions b).
Proof.
  intros Hmem H0 Hmax Hn Hops Hfresh. destruct b as [seq ops]. cbn [fst snd] in *. unfold insert_record, InsertIntoVersion, SetContents.
  assert (memtable_rep ucmp (default new_MemTable mem) held) as Hrep.
  { destruct mem as [m|]; [by destruct Hmem|]. simpl in Hmem. subst held. apply new_MemTable_rep. }
  destruct (run_inserter_rep ucmp seq ops _ held (Some []) Hrep Hops H0 Hmax Hn Hfresh) as (m' & -> & Hrep').
  cbn [mbind option_bind app]. exists m'. split; [|exact Hrep']. unfold MaybeIgnoreError. cbn [ok OK orb].
  assert (kMaxSequenceNumber < 2 ^ 64) as Hk by done.
  rewrite Sequence_batch by (len_facts; lia). unfold batch_of at 1 2. rewrite Count_batch by (len_facts; lia).
  unfold after_batch, last_seq. cbn [fst snd andb]. do 3 f_equal.
  destruct (Z.ltb_spec (rl_max_sequence st) (u64 (seq + len ops - 1))); [by rewrite Z.max_r by lia|by rewrite Z.max_l by lia].
Qed.

Lemma add_batch_guards_tables v gs : v_guards (add_batch_guards v gs) = v_guards v /\ v_files (add_batch_guards v gs) = v_files v.
Proof. unfold add_batch_guards. revert v. induction gs as [|g gs IH]; intros v; [done|]. cbn [fold_left]. by destruct (IH (AddToCompleteGuards v (batch_guard g) (snd g))) as [-> ->]. Qed.

Lemma add_batch_guards_app v gs gs' : add_batch_guards v (gs ++ gs') = add_batch_guards (add_batch_guards v gs) gs'.
Proof. apply fold_left_app. Qed.

(** The state after the batches [bs], of which [held] is in the memtable. *)
Record restored (st0 st : Recovering) (bs : list batch) (held : list Addition) : Prop := {
  rs_split : exists flushed, flushed ++ held = history_additions bs /\ tables_hold st0 st flushed;
  rs_version : rl_version st = add_batch_guards (rl_version st0) (history_guards bs);
  rs_max : rl_max_sequence st = fold_left Z.max (map last_seq bs) (rl_max_sequence st0);
}.

Lemma restored_snoc st0 st bs held b : restored st0 st bs held -> restored st0 (after_batch st b) (bs ++ [b]) (held ++ batch_additions b).
Proof.
  intros [(flushed & E & Ht) Hv Hm]. split.
  - exists flushed. split; [|exact Ht]. unfold history_additions. rewrite map_app, concat_app. cbn [map concat]. rewrite app_nil_r.
    rewrite app_assoc. by rewrite E.
  - cbn. rewrite Hv. unfold history_guards. rewrite map_app, concat_app. cbn [map concat]. rewrite app_nil_r. symmetry. apply add_batch_guards_app.
  - cbn. rewrite Hm, map_app, fold_left_app. done.
Qed.

Lemma len_batch_record b : (len (batch_record b) <? 12) = false.
Proof. apply Z.ltb_ge. unfold batch_of. rewrite !len_app, len_EncodeFixed64, len_EncodeFixed32. pose proof (len_nonneg (records (snd b))). lia. Qed.

Lemma report_new_same status r r' : same_config r r' -> report_new paranoid_checks status r r' = status.
Proof. intros (E & _). unfold report_new. by rewrite E, Nat.sub_diag. Qed.

Lemma history_additions_snoc bs b : history_additions (bs ++ [b]) = history_additions bs ++ batch_additions b.
Proof. unfold history_additions. rewrite map_app, concat_app. cbn [map concat]. by rewrite app_nil_r. Qed.

Lemma recover_records_spec st0 rest : forall done P m r mem held st fuel,
  restored st0 st done held -> mem_holds done mem held -> numbered (history_additions done) rest -> room (S (length rest)) st ->
  reads r P (take m (log_file P (map (fun b => batch_record b) rest))) ->
  (length (take m (log_file P (map (fun b => batch_record b) rest))) < fuel)%nat ->
  exists j mem' held' st', (j <= length rest)%nat /\
    (forall i, (i <= length rest)%nat -> (length (log_file P (map (fun b => batch_record b) (take i rest))) <= m)%nat -> (i <= j)%nat) /\
    records_loop fuel r OK mem fl_Clear st = Some (OK, mem', fl_Clear, st') /\
    restored st0 st' (done ++ take j rest) held' /\ mem_holds (done ++ take j rest) mem' held' /\ room 1 st'.
Proof.
  induction rest as [|b rest IH]; intros dn P m r mem held st fuel Hst Hmem Hnum Hroom Hr Hf; (destruct fuel as [|fuel]; [lia|]); cbn [recover_records].
  - cbn [map log_file] in Hr. rewrite take_nil in Hr. destruct (ReadRecord_end r P Hr) as (r' & -> & Hcfg). cbn [mbind option_bind].
    rewrite report_new_same by done. exists 0%nat, mem, held, st. rewrite app_nil_r. split; [done|]. split; [intros i Hi; simpl in Hi; lia|]. done.
  - cbn [map] in Hr, Hf. destruct (ReadRecord_prefix r P m _ _ Hr) as (r' & Hcfg & Hres). destruct (decide _) as [Hm|Hm].
    + rewrite Hres. cbn [mbind option_bind]. rewrite report_new_same by done. exists 0%nat, mem, held, st. rewrite app_nil_r. split; [lia|].
      split. { intros [|i] _ Hi; [lia|]. cbn [take map log_file] in Hi. rewrite length_app in Hi. lia. }
      split; [done|]. split; [done|]. split; [done|]. destruct Hroom as (R1 & R2 & R3). split; [done|]. split; [|done].
      pose proof (len_nonneg (level_of (v_guards (rl_version st)) 0)). nia.
    + destruct Hres as [-> Hr']. cbn [mbind option_bind]. rewrite report_new_same by done. cbn [ok OK negb]. rewrite len_batch_record.
      destruct Hnum as (N1 & N2 & N3 & N4 & N5 & Hnum). pose proof (rs_split _ _ _ _ Hst) as (flushed & Esplit & _).
      destruct (insert_record_ok dn b mem held st Hmem N1 N2 N3 N4) as (m' & -> & Hrep').
      { eapply fresh_sub; [exact N5|]. intros a Ha. rewrite <- Esplit. apply elem_of_app. by right. }
      cbn [mbind option_bind ok OK negb]. pose proof (restored_snoc _ _ _ _ b Hst) as Hst'. rewrite <- history_additions_snoc in Hnum.
      assert (room (S (S (length rest))) (after_batch st b)) as Hroom'.
      { destruct Hroom as (R1 & R2 & R3). unfold room. cbn [after_batch rl_world rl_version]. rewrite (proj1 (add_batch_guards_tables _ _)). done. }
      pose proof (record_image_length P (batch_record b)) as Hpos. cbn [log_file] in Hf. rewrite !length_take, length_app in Hf.
      assert (exists mem2 held2 st2,
        (if write_buffer_size <? ApproximateMemoryUsage m' then
           '(s, numbers, filters, st, filter) ← do_flush m' (after_batch st b) fl_Clear;
           if negb (ok s) then Some (s, Some m', filter, st) else records_loop fuel r' s None filter (register_filters numbers filters st)
         else records_loop fuel r' OK (Some m') fl_Clear (after_batch st b)) = records_loop fuel r' OK mem2 fl_Clear st2 /\
        restored st0 st2 (dn ++ [b]) held2 /\ mem_holds (dn ++ [b]) mem2 held2 /\ room (S (length rest)) st2) as (mem2 & held2 & st2 & -> & S1 & S2 & S3).
      { destruct (write_buffer_size <? _).
        - destruct (flush_ok _ m' _ _ Hrep' Hroom') as (numbers & filters & st2 & -> & F1 & F2 & F3 & F4 & F5 & _). cbn [mbind option_bind ok OK negb].
          exists None, [], (register_filters numbers filters st2). split; [done|]. split; [|done].
          destruct Hst' as [(fl & E & Ht) Hv Hmx]. split; [|cbn; congruence|cbn; congruence].
          exists (fl ++ held ++ batch_additions b). rewrite app_nil_r. split; [done|]. apply F5 in Ht. exact Ht.
        - exists (Some m'), (held ++ batch_additions b), (after_batch st b). split; [done|]. split; [done|].
          split. { split; [done|]. intros [_ [Hwr _]%Forall_cons]%Forall_app [_ Hnil]%app_nil. done. }
          destruct Hroom' as (R1 & R2 & R3). split; [done|]. split; [|done]. pose proof (len_nonneg (level_of (v_guards (rl_version (after_batch st b))) 0)). nia. }
      edestruct (IH (dn ++ [b]) _ _ r' mem2 held2 st2 fuel S1 S2 Hnum S3 Hr') as (j & mem3 & held3 & st3 & Hj & Hmax & E & T1 & T2 & T3);
        [rewrite !length_take; lia|].
      exists (S j), mem3, held3, st3. split; [simpl; lia|]. split; [|rewrite <- app_assoc in T1, T2; done].
      intros [|i] Hi Hlen; [lia|]. cbn [take map log_file] in Hlen. rewrite length_app in Hlen.
      simpl in Hi. specialize (Hmax i ltac:(lia) ltac:(lia)). lia.
Qed.

Lemma AddCompleteGuardsToEdit_files v e : ve_new_files (AddCompleteGuardsToEdit v (AddGuardsToEdit v e [])) = ve_new_files e.
Proof.
  assert (AddGuardsToEdit v e [] = e) as ->. { unfold AddGuardsToEdit. cbn [existsb]. by induction (seq 0 (Z.to_nat kNumLevels)). }
  unfold AddCompleteGuardsToEdit. apply fold_left_ok; [|done]. intros ed i He. by apply fold_left_ok.
Qed.

Lemma RecoverLogFile_ok batches m st : numbered [] batches -> room (S (length batches)) st ->
  len (log_file 0 (map (fun b => batch_record b) batches)) < 2 ^ 64 ->
  filter_policy options = None \/ level_of (v_guards (rl_version st)) 0 = [] /\ Forall writes batches ->
  exists j st', (j <= length batches)%nat /\
    (forall i, (i <= length batches)%nat -> (length (log_file 0 (map (fun b => batch_record b) (take i batches))) <= m)%nat -> (i <= j)%nat) /\
    RecoverLogFile options dbname ucmp table_cache_status paranoid_checks write_buffer_size ApproximateMemoryUsage
      (OK, sf_open (take m (log_file 0 (map (fun b => batch_record b) batches)))) st = Some (LogRecovered OK st') /\
    restored st st' (take j batches) [].
Proof.
  intros Hnum Hroom Hsize Hfilter. set (contents := take m _). unfold RecoverLogFile. cbn [ok OK negb].
  destruct (recover_records_spec st batches [] 0 m (new_reader (sf_open contents) true true 0) None [] st (S (length (sf_rest (sf_open contents)))))
    as (j & mem & held & st1 & Hj & Hmax & -> & Hst & Hmem & Hroom1); [|done|done|done|apply reads_new_reader|fold contents; simpl; lia|].
  { split; [|done|done]. exists []. split; [done|]. exists [], []. rewrite app_nil_r. split; [done|]. split; [constructor|]. intros e. split; [by intros H%elem_of_nil|].
    by intros (a & Ha%elem_of_nil & _). }
  { unfold contents, len in *. rewrite length_take. lia. }
  cbn [mbind option_bind app] in *. exists j.
  set (st2 := {| rl_world := rl_world st1; rl_version := rl_version st1; rl_edit := _; rl_max_sequence := rl_max_sequence st1; rl_filters := rl_filters st1 |}).
  assert (restored st st2 (take j batches) held) as Hst2.
  { destruct Hst as [(flushed & E & Ht) Hv Hmx]. split; [|done|done]. exists flushed. split; [done|]. destruct Ht as (metas & files & He & Ht).
    exists metas, files. unfold st2. cbn [rl_edit rl_world]. by rewrite AddCompleteGuardsToEdit_files. }
  destruct mem as [mm|]; [|exists st2; simpl in Hmem; subst held; done]. destruct Hmem as [Hrep Hwr]. cbn [ok OK].
  destruct (flush_ok 0 mm held st2 Hrep Hroom1) as (numbers & filters & st3 & -> & F1 & F2 & F3 & _ & F5 & F6 & (files & F7 & F8 & _)).
  cbn [mbind option_bind].
  assert (exists st4, register_all options numbers filters st3 = Some st4 /\ rl_world st4 = rl_world st3 /\ rl_version st4 = rl_version st3 /\
    rl_edit st4 = rl_edit st3 /\ rl_max_sequence st4 = rl_max_sequence st3) as (st4 & -> & E1 & E2 & E3 & E4).
  { unfold register_all. destruct (filter_policy options) as [pol|] eqn:Epol; [|by exists st3]. destruct Hfilter as [?|[Hg Hall]]; [done|].
    rewrite (proj2 (Nat.ltb_ge (length filters) (length numbers))); [by eexists|].
    assert (rl_version st2 = add_batch_guards (rl_version st) (history_guards (take j batches))) as Ev by apply Hst2.
    rewrite Ev, (proj1 (add_batch_guards_tables _ _)), Hg in F6. destruct F7 as [?|F7]; [done|]. rewrite F7.
    assert (files <> []) as Hne; [|destruct files; [done|]; unfold len in F6; simpl in *; lia]. intros ->.
    assert (held <> []) as Hh by (apply Hwr; by apply Forall_take). destruct held as [|a held]; [done|].
    assert (a_pair a ∈ concat (@nil (list entry))) as Hin by (apply F8; exists a; split; [left|done]). by apply elem_of_nil in Hin. }
  eexists. split; [done|]. split; [done|]. split; [reflexivity|]. destruct Hst2 as [(flushed & E & Ht) Hv Hmx].
  split; cbn [rl_version rl_max_sequence]; [|congruence|congruence].
  exists (flushed ++ held). rewrite app_nil_r. split; [done|]. apply F5 in Ht as (metas & fs & T1 & T2 & T3).
  exists metas, fs. cbn [rl_edit rl_world]. rewrite E3. split; [done|]. split; [|done]. eapply Forall2_impl; [exact T2|].
  intros x es. apply table_written_mono. intros y Hy. cbn [erase_pending wd_disk]. by rewrite E1.
Qed.
End RecoverySpec.

(** ** Claims *)

(** C15. Recovery restores what the log holds.  Take a log to which batches were
    written one after the other, no sequence number twice, and of which a crash
    left any prefix.  When no call fails, RecoverLogFile returns OK, whatever the
    memory usage at which memtables are flushed, and with or without
    paranoid_checks: it takes in the first [j] batches, among them all whose
    records are whole; the new level-0 tables hold exactly their puts and
    deletes, with their sequence numbers, the guards are with the version, and
    the largest sequence number is theirs.  The log is laid out as the reader
    expects it, which the writer does unless a record exactly fills the last
    block it spills into; and there is no filter policy, or level 0 has no guards
    and every batch has a put or a deletion (otherwise a flush may return fewer
    filters than file numbers, and the loop over them reads past their end). *)
Theorem recovery_restores_log `{Hsnappy : !Snappy} (options : TableOptions) (dbname : bytes) (ucmp : Comparator)
    (table_cache_status : World -> Z -> Z -> Status) (paranoid_checks : bool) (write_buffer_size : Z) (ApproximateMemoryUsage : MemTable -> Z)
    (batches : list (Z * list Op)) (m : nat) (st : Recovering)
    (Hucmp : ComparatorOk ucmp all_keys) (Hcmp : o_comparator options = InternalKeyComparator ucmp)
    (Hcomp : o_compression options = kNoCompression \/ o_compression options = kSnappyCompression)
    (Htable : forall world number size, table_cache_status world number size = OK)
    (Hnumbered : numbered [] batches) (Hroom : room (S (length batches)) st)
    (Hsize : len (log_file 0 (map (fun b => batch_of (fst b) (snd b)) batches)) < 2 ^ 64)
    (Hfilters : filter_policy options = None \/ level_of (v_guards (rl_version st)) 0 = [] /\ Forall writes batches) :
  let records bs := map (fun b => batch_of (fst b) (snd b)) bs in
  exists j st', (j <= length batches)%nat /\
    (forall i, (i <= length batches)%nat -> (length (log_file 0 (records (take i batches))) <= m)%nat -> (i <= j)%nat) /\
    RecoverLogFile options dbname ucmp table_cache_status paranoid_checks write_buffer_size ApproximateMemoryUsage
      (OK, sf_open (take m (log_file 0 (records batches)))) st = Some (LogRecovered OK st') /\
    tables_hold options dbname st st' (history_additions (take j batches)) /\
    rl_version st' = add_batch_guards (rl_version st) (history_guards (take j batches)) /\
    rl_max_sequence st' = fold_left Z.max (map last_seq (take j batches)) (rl_max_sequence st).
Proof.
  intros records. destruct (RecoverLogFile_ok options dbname ucmp Hcmp Hcomp table_cache_status Htable paranoid_checks write_buffer_size
    ApproximateMemoryUsage batches m st Hnumbered Hroom Hsize Hfilters) as (j & st' & Hj & Hmax & E & [(flushed & Ef & Ht) Hv Hm]).
  exists j, st'. rewrite app_nil_r in Ef. subst flushed. done.
Qed.

(** A log that fails is passed over.  When the log [n] cannot be opened and
    there is a later log, DBImpl::Recover keeps only the status of the last one:
    with paranoid_checks too, the database opens as if the log [n] were not
    there. *)
Theorem recovery_hides_failed_log `{Hsnappy : !Snappy} (options : TableOptions) (dbname : bytes) (ucmp : Comparator)
    (table_cache_status : World -> Z -> Z -> Status) (write_buffer_size : Z) (ApproximateMemoryUsage : MemTable -> Z)
    (n n' : Z) (logs : list Z) (open : Z -> Status * SequentialFile) (st : Recovering) (s : Status) (f : SequentialFile)
    (Hopen : open n = (s, f)) (Hs : ok s = false) :
  let recover := recover_logs options dbname ucmp table_cache_status true write_buffer_size ApproximateMemoryUsage in
  recover (n :: n' :: logs) open OK st = recover (n' :: logs) open OK (mark_used n st).
Proof.
  cbv zeta. cbn [recover_logs].
  assert (RecoverLogFile options dbname ucmp table_cache_status true write_buffer_size ApproximateMemoryUsage (open n) st = Some (LogRecovered s st)) as ->.
  { unfold RecoverLogFile. rewrite Hopen, Hs. unfold MaybeIgnoreError. by rewrite orb_true_r. }
  done.
Qed.

(** ** An example *)
Definition log_batches : list (Z * list Op) := [(5, [OpPut [Byte.x61] [Byte.x31]; OpGuard [Byte.x6d] 1]); (7, [OpDelete [Byte.x62]])].
Definition log_bytes : bytes := log_file 0 (map (fun b => batch_of (fst b) (snd b)) log_batches).

Definition recovery_start (guards : list GuardMetaData) : Recovering :=
  {| rl_world := {| wd_next_file_number := 20; wd_pending_outputs := []; wd_creates := []; wd_disk := [] |};
     rl_version := {| v_files := no_levels; v_guards := guards :: replicate 6 []; v_complete_guards := no_levels; v_sentinel_files := no_levels;
                      v_num_complete_guards := replicate 7 0 |};
     rl_edit := new_VersionEdit; rl_max_sequence := 0; rl_filters := [] |}.

Definition recovery_run (guards : list GuardMetaData) (contents : bytes) : option LogOutcome :=
  RecoverLogFile flush_options [] BytewiseComparator (fun _ _ _ => OK) false 4194304 (fun _ => 4096) (OK, sf_open contents) (recovery_start guards).

Lemma recovery_restores_log_witness : exists j st', (1 <= j)%nat /\ recovery_run [] (take 80 log_bytes) = Some (LogRecovered OK st') /\
  tables_hold flush_options [] (recovery_start []) st' (history_additions (take j log_batches)).
Proof.
  destruct (recovery_restores_log flush_options [] BytewiseComparator (fun _ _ _ => OK) false 4194304 (fun _ => 4096) log_batches 80 (recovery_start []))
    as (j & st' & Hj & Hmax & E & Ht & _).
  - apply BytewiseComparator_ok.
  - reflexivity.
  - left. reflexivity.
  - reflexivity.
  - assert (forall o, op_sized o -> forall ops, Forall op_sized ops -> Forall op_sized (o :: ops)) as Hcons by (intros; by constructor).
    unfold log_batches. cbn [numbered fst snd].
    split; [discriminate|]. split; [vm_compute; discriminate|]. split; [reflexivity|].
    split; [repeat apply Hcons; try apply Forall_nil_2; vm_compute; repeat split; congruence|].
    split; [by intros b a Hb%elem_of_nil|]. split; [discriminate|]. split; [vm_compute; discriminate|]. split; [reflexivity|].
    split; [apply Hcons, Forall_nil_2; reflexivity|]. split; [|exact I].
    intros b a Hb%list_elem_of_singleton Ha%list_elem_of_singleton. subst. discriminate.
  - split; [discriminate|]. split; [reflexivity|reflexivity].
  - vm_compute. reflexivity.
  - right. split; [reflexivity|]. repeat constructor; vm_compute; congruence.
  - exists j, st'. split; [|split; [exact E|exact Ht]]. apply (Hmax 1%nat); [vm_compute; lia|]. apply Nat.leb_le. vm_compute. reflexivity.
Defined.

(** Recovery can read past the filters.  With a filter policy and a guard in
    level 0, a log whose entries are all on one side of the guard gives one table
    and one filter, but two reserved numbers: the loop after the last flush asks
    for the filter of each number and reads past the end of the vector. *)
Theorem recovery_reads_past_filters :
  recovery_run [guard_meta 0 (InternalKey [Byte.x6d] 1 kTypeGuard)] log_bytes = Some ReadPastFilters.
Proof. vm_compute. reflexivity. Qed.

