(* ===== verification/Replay.v ===== *)
(** * Replaying writes (db/replay_iterator.cc, db/db_impl.cc: GetReplayTimestamp
    to ReleaseReplayIterator)

    A replay iterator first walks an iterator over the whole database and then
    the memtables, one after the other, and shows of every key the newest entry
    that is not older than a timestamp.  A timestamp is a file number and a
    sequence number, as two varints. *)

From Stdlib Require Import ZArith Lia Bool String.
From stdpp Require Import base list.
From S2P Require Import Prelude Coding Comparator DbFormat Status Iterator Merger LevelIter DbIter.
From S2P Require Import WriteBatch SkipList MemTable MemIter Bloom VersionEdit Guards VersionBuilder VersionGet Compaction Reads.

Set Default Goal Selector "!".
Local Open Scope Z_scope.
#[local] Arguments Compare : simpl never.

Section Replay.
Context (ucmp : Comparator) (I : IterOps).
(** mem->NewIterator(), for the memtables by their address. *)
Context (mem_NewIterator : nat -> St I).

Record ReplayState := { rs_mem_ : option nat; rs_iter_ : option (St I); rs_seq_start_ : Z; rs_seq_limit_ : Z }.

(** [mems_] holds memtables with their seq_start_. *)
Record ReplayIteratorImpl := {
  re_valid_ : bool;
  re_status_ : Status;
  has_current_user_key_ : bool;
  current_user_key_ : bytes;
  current_user_sequence_ : Z;
  rs_ : ReplayState;
  mems_ : list (nat * Z);
}.

Definition new_ReplayIteratorImpl (iter : St I) (m : nat) (s : Z) : ReplayIteratorImpl :=
  {| re_valid_ := false; re_status_ := OK; has_current_user_key_ := false; current_user_key_ := []; current_user_sequence_ := 0;
     rs_ := {| rs_mem_ := None; rs_iter_ := Some iter; rs_seq_start_ := s; rs_seq_limit_ := kMaxSequenceNumber |};
     mems_ := [(m, s)] |}.

Definition with_iter (s : St I) (it : ReplayIteratorImpl) : ReplayIteratorImpl :=
  {| re_valid_ := re_valid_ it; re_status_ := re_status_ it; has_current_user_key_ := has_current_user_key_ it; current_user_key_ := current_user_key_ it;
     current_user_sequence_ := current_user_sequence_ it;
     rs_ := {| rs_mem_ := rs_mem_ (rs_ it); rs_iter_ := Some s; rs_seq_start_ := rs_seq_start_ (rs_ it); rs_seq_limit_ := rs_seq_limit_ (rs_ it) |}; mems_ := mems_ it |}.
Definition with_result (valid : bool) (s : Status) (it : ReplayIteratorImpl) : ReplayIteratorImpl :=
  {| re_valid_ := valid; re_status_ := s; has_current_user_key_ := has_current_user_key_ it; current_user_key_ := current_user_key_ it;
     current_user_sequence_ := current_user_sequence_ it; rs_ := rs_ it; mems_ := mems_ it |}.
Definition with_key (has : bool) (k : bytes) (seq : Z) (it : ReplayIteratorImpl) : ReplayIteratorImpl :=
  {| re_valid_ := re_valid_ it; re_status_ := re_status_ it; has_current_user_key_ := has; current_user_key_ := k; current_user_sequence_ := seq;
     rs_ := rs_ it; mems_ := mems_ it |}.

Definition replay_enqueue (m : nat) (s : Z) (it : ReplayIteratorImpl) : ReplayIteratorImpl :=
  {| re_valid_ := re_valid_ it; re_status_ := re_status_ it; has_current_user_key_ := has_current_user_key_ it; current_user_key_ := current_user_key_ it;
     current_user_sequence_ := current_user_sequence_ it; rs_ := rs_ it; mems_ := mems_ it ++ [(m, s)] |}.

(** ** Prime *)

(** The test of an entry. *)
Definition accepts (has : bool) (k : bytes) (seq start : Z) (ikey : ParsedInternalKey) : bool :=
  (negb has || negb (Compare ucmp (user_key ikey) k =? 0) || (seq <=? sequence ikey)) &&
  ((start <=? sequence ikey) && ((type_ ikey =? kTypeDeletion) || (type_ ikey =? kTypeValue))).

(** How the inner loop ends. *)
Inductive Scanned := Found (ikey : ParsedInternalKey) | Exhausted | Corrupted.

Fixpoint scan (fuel : nat) (has : bool) (k : bytes) (seq start : Z) (s : St I) : option (Scanned * St I) :=
  match fuel with
  | O => None
  | S fuel =>
      if Valid I s then
        let '(parsed, ikey) := ParseInternalKey (key I s) ParsedInternalKey_default in
        if negb parsed then Some (Corrupted, s)
        else if accepts has k seq start ikey then Some (Found ikey, s)
        else s ← Next I s; scan fuel has k seq start s
      else Some (Exhausted, s)
  end.

(** The next source of the iterator: rs_.mem_, rs_.seq_start_ and mems_. *)
Definition next_source (it : ReplayIteratorImpl) : option nat * Z * list (nat * Z) :=
  match mems_ it with
  | [] => (rs_mem_ (rs_ it), rs_seq_limit_ (rs_ it), [])
  | (m, s) :: mems => if rs_seq_limit_ (rs_ it) <? s then (rs_mem_ (rs_ it), rs_seq_limit_ (rs_ it), (m, s) :: mems) else (Some m, s, mems)
  end.

(** The outer loop; [lasts] are the answers of LastSequence.  None: an assertion
    fails or NULL is followed, or [fuel] or the answers run out. *)
Fixpoint prime_loop (fuel : nat) (lasts : list Z) (it : ReplayIteratorImpl) : option ReplayIteratorImpl :=
  s ← rs_iter_ (rs_ it);
  r ← scan fuel (has_current_user_key_ it) (current_user_key_ it) (current_user_sequence_ it) (rs_seq_start_ (rs_ it)) s;
  match r with
  | (Corrupted, s) => Some (with_result false (Corruption (bytes_of_string "corrupted internal key in ReplayIteratorImpl"%string)) (with_iter s it))
  | (Found ikey, s) => Some (with_result true (re_status_ it) (with_key true (user_key ikey) (sequence ikey) (with_iter s it)))
  | (Exhausted, s) =>
      if negb (ok (status I s)) then Some (with_result false (status I s) (with_iter s it))
      else
        let '(mem, start, mems) := next_source it in
        match lasts with
        | [] => None
        | last :: lasts =>
            m ← mem;
            s ← SeekToFirst I (mem_NewIterator m);
            if negb (start <=? last) then None
            else
              let it := {| re_valid_ := false; re_status_ := re_status_ it; has_current_user_key_ := false; current_user_key_ := []; current_user_sequence_ := kMaxSequenceNumber;
                           rs_ := {| rs_mem_ := Some m; rs_iter_ := Some s; rs_seq_start_ := start; rs_seq_limit_ := last |}; mems_ := mems |} in
              if start =? last then Some it else prime_loop fuel lasts it
        end
  end.

Definition Prime (fuel : nat) (lasts : list Z) (it : ReplayIteratorImpl) : option ReplayIteratorImpl :=
  let it := with_result false (re_status_ it) it in
  if negb (ok (re_status_ it)) then Some it else prime_loop fuel lasts it.

(** ** The operations of a client *)
Definition replay_Valid (fuel : nat) (lasts : list Z) (it : ReplayIteratorImpl) : option (bool * ReplayIteratorImpl) :=
  it ← Prime fuel lasts it; Some (re_valid_ it, it).
Definition replay_Next (it : ReplayIteratorImpl) : option ReplayIteratorImpl :=
  s ← rs_iter_ (rs_ it); s ← Next I s; Some (with_iter s it).
Definition replay_SkipTo (target : bytes) (it : ReplayIteratorImpl) : option ReplayIteratorImpl :=
  s ← rs_iter_ (rs_ it); s ← Seek I (AppendInternalKey [] {| user_key := target; sequence := kMaxSequenceNumber; type_ := kValueTypeForSeek |}) s; Some (with_iter s it).
Fixpoint skip_all (fuel : nat) (s : St I) : option (St I) :=
  if Valid I s then match fuel with O => None | S fuel => s ← Next I s; skip_all fuel s end else Some s.
Definition replay_SkipToLast (fuel : nat) (it : ReplayIteratorImpl) : option ReplayIteratorImpl :=
  s ← rs_iter_ (rs_ it); s ← SeekToLast I s; s ← skip_all fuel s; Some (with_iter s it).
Definition replay_HasValue (it : ReplayIteratorImpl) : option (bool * ReplayIteratorImpl) :=
  s ← rs_iter_ (rs_ it);
  let '(parsed, ikey) := ParseInternalKey (key I s) ParsedInternalKey_default in
  Some (if parsed then (type_ ikey =? kTypeValue, it)
        else (false, with_result (re_valid_ it) (Corruption (bytes_of_string "corrupted internal key in ReplayIteratorImpl"%string)) it)).
(** None: assert(valid_) fails. *)
Definition replay_key (it : ReplayIteratorImpl) : option bytes :=
  if re_valid_ it then s ← rs_iter_ (rs_ it); Some (ExtractUserKey (key I s)) else None.
Definition replay_value (it : ReplayIteratorImpl) : option bytes :=
  if re_valid_ it then s ← rs_iter_ (rs_ it); Some (value I s) else None.
Definition replay_status (it : ReplayIteratorImpl) : option Status :=
  if negb (ok (re_status_ it)) then Some (re_status_ it) else s ← rs_iter_ (rs_ it); Some (status I s).

(** A client that reads until the iterator is not valid: the keys with their
    values, None for deletions.  The database is at rest: LastSequence is
    [last]. *)
Fixpoint replay_run (n fuel : nat) (last : Z) (it : ReplayIteratorImpl) : option (list (bytes * option bytes) * ReplayIteratorImpl) :=
  match n with
  | O => None
  | S n =>
      '(v, it) ← replay_Valid fuel [last; last] it;
      if (v : bool) then
        k ← replay_key it; x ← replay_value it;
        '(has, it) ← replay_HasValue it;
        it ← replay_Next it;
        '(rest, it) ← replay_run n fuel last it;
        Some ((k, if (has : bool) then Some x else None) :: rest, it)
      else Some ([], it)
  end.
End Replay.

(** ** What is replay_of *)
Section Spec.
Context (ucmp : Comparator) `{Hucmp : !ComparatorOk ucmp all_keys}.
Notation icmp := (InternalKeyComparator ucmp).
Context (I : IterOps) (mem_NewIterator : nat -> St I).
Notation RI := (ReplayIteratorImpl I).

Definition parsed (e : entry) : ParsedInternalKey := {| user_key := e_user e; sequence := e_seq e; type_ := e_type e |}.

(** The entries that Prime accepts one after the other. *)
Fixpoint replay_of (start : Z) (has : bool) (k : bytes) (seq : Z) (l : list entry) : list entry :=
  match l with
  | [] => []
  | e :: l => if accepts ucmp has k seq start (parsed e) then e :: replay_of start true (e_user e) (e_seq e) l else replay_of start has k seq l
  end.
Definition show (e : entry) : bytes * option bytes := (e_user e, if e_type e =? kTypeValue then Some (snd e) else None).

Lemma replay_of_split start has k seq l : (replay_of start has k seq l = [] /\ Forall (fun e => accepts ucmp has k seq start (parsed e) = false) l) \/
  exists pre e post, l = pre ++ e :: post /\ Forall (fun e => accepts ucmp has k seq start (parsed e) = false) pre /\ accepts ucmp has k seq start (parsed e) = true /\
    replay_of start has k seq l = e :: replay_of start true (e_user e) (e_seq e) post.
Proof.
  induction l as [|e l IH]; cbn [replay_of]; [left; split; [done|constructor]|]. destruct (accepts ucmp has k seq start (parsed e)) eqn:E.
  - right. exists [], e, l. split; [done|]. split; [constructor|done].
  - destruct IH as [[H1 H2]|(pre & x & post & -> & H1 & H2 & H3)]; [left; split; [done|by constructor]|]. right. exists (e :: pre), x, post. split; [done|]. split; [by constructor|done].
Qed.

(** The positions of an iterator and the entries from there on. *)
Definition rest_at (l : list entry) (p : pos) (rest : list entry) : Prop := match p with Some i => rest = drop i l /\ (i < length l)%nat | None => rest = [] end.

Context (dom : bytes -> Prop).

Lemma prime_scan_ok l has k seq start : Forall entry_valid l -> forall rest fuel s p, iterates I icmp dom l s p -> rest_at l p rest -> (length rest < fuel)%nat ->
  (Forall (fun e => accepts ucmp has k seq start (parsed e) = false) rest -> exists s', scan ucmp I fuel has k seq start s = Some (Exhausted, s') /\ iterates I icmp dom l s' None) /\
  (forall pre e post, rest = pre ++ e :: post -> Forall (fun e => accepts ucmp has k seq start (parsed e) = false) pre -> accepts ucmp has k seq start (parsed e) = true ->
    exists s' i, scan ucmp I fuel has k seq start s = Some (Found (parsed e), s') /\ iterates I icmp dom l s' (Some i) /\ l !! i = Some e /\ rest_at l (next_pos (length l) i) post).
Proof.
  intros Hl. pose proof (iterates_ok I icmp dom l) as Hio. induction rest as [|e rest IH]; intros fuel s p Hs Hp Hfuel; (destruct fuel as [|fuel]; [simpl in Hfuel; lia|]); cbn [scan]; rewrite (io_valid _ _ Hs).
  - assert (p = None) as ->. { destruct p as [i|]; [|done]. destruct Hp as [Hd Hi]. apply (f_equal length) in Hd. rewrite length_drop in Hd. simpl in Hd. lia. }
    split; [intros _; by exists s|]. intros pre e post E. by destruct pre.
  - destruct p as [i|]; [|done]. destruct Hp as [Hd Hi]. pose proof (io_entry _ _ Hs) as He. destruct (lookup_lt_is_Some_2 l i Hi) as [x Hx]. rewrite (drop_S _ _ _ Hx) in Hd. injection Hd as -> Hd. rewrite Hx in He. injection He as ->.
    rewrite Forall_lookup in Hl. destruct (parse_entry _ ParsedInternalKey_default (Hl i _ Hx)) as [Ep _]. cbn [fst] in Ep. rewrite Ep. cbn [negb]. fold (parsed (key I s, value I s)).
    assert (rest_at l (next_pos (length l) i) rest) as Hrest. { unfold next_pos, rest_at. destruct (decide _); [done|]. rewrite Hd. apply drop_ge. lia. }
    destruct (accepts ucmp has k seq start (parsed (key I s, value I s))) eqn:Ea.
    + split; [intros Hall; inversion Hall; congruence|]. intros [|y pre] e post E Hpre Hacc; [|injection E as <- _; inversion Hpre; congruence]. injection E as <- <-. exists s, i. done.
    + destruct (io_next _ _ Hs) as (s' & -> & Hs'). cbn [mbind option_bind]. destruct (IH fuel s' _ Hs' Hrest) as [IH1 IH2]; [simpl in Hfuel; lia|]. split.
      * intros Hall. apply IH1. by inversion Hall.
      * intros [|y pre] e post E Hpre Hacc; [injection E as <- _; congruence|]. injection E as <- ->. inversion Hpre; subst. by apply (IH2 pre).
Qed.

(** The iterator stands in a source with the entries [l], before [rest]. *)
Record in_source (it : RI) (l : list entry) (start : Z) (rest : list entry) : Prop := {
  is_valid_entries : Forall entry_valid l;
  is_status : re_status_ I it = OK;
  is_start : rs_seq_start_ I (rs_ I it) = start;
  is_iter : exists s p, rs_iter_ I (rs_ I it) = Some s /\ iterates I icmp dom l s p /\ rest_at l p rest;
}.
Notation todo it rest := (replay_of (rs_seq_start_ I (rs_ I it)) (has_current_user_key_ I it) (current_user_key_ I it) (current_user_sequence_ I it) rest).

Lemma prime_found fuel lasts it l start rest e es : in_source it l start rest -> (length rest < fuel)%nat -> todo it rest = e :: es ->
  exists it1 it2 post, Prime ucmp I mem_NewIterator fuel lasts it = Some it1 /\ re_valid_ I it1 = true /\ replay_key I it1 = Some (e_user e) /\ replay_value I it1 = Some (snd e) /\
    replay_HasValue I it1 = Some (e_type e =? kTypeValue, it1) /\ replay_Next I it1 = Some it2 /\
    in_source it2 l start post /\ (length post < length rest)%nat /\ todo it2 post = es /\ mems_ I it2 = mems_ I it /\
    rs_mem_ I (rs_ I it2) = rs_mem_ I (rs_ I it) /\ rs_seq_limit_ I (rs_ I it2) = rs_seq_limit_ I (rs_ I it).
Proof.
  intros [Hl Hst Hstart (s & p & Hs & Hi & Hr)] Hfuel Htodo. destruct (replay_of_split (rs_seq_start_ I (rs_ I it)) (has_current_user_key_ I it) (current_user_key_ I it) (current_user_sequence_ I it) rest) as [[H _]|(pre & x & post & E & Hpre & Hacc & Hrep)]; [congruence|].
  rewrite Htodo in Hrep. injection Hrep as <- ->. destruct (prime_scan_ok l (has_current_user_key_ I it) (current_user_key_ I it) (current_user_sequence_ I it) (rs_seq_start_ I (rs_ I it)) Hl rest fuel s p Hi Hr Hfuel) as [_ Hscan]. destruct (Hscan pre e post E Hpre Hacc) as (s' & i & Esc & Hi' & He & Hpost).
  pose proof (iterates_ok I icmp dom l) as Hio. pose proof (io_entry _ _ Hi') as Hent. rewrite He in Hent. injection Hent as ->. destruct (io_next _ _ Hi') as (s2 & En & Hs2).
  rewrite Forall_lookup in Hl. destruct (parse_entry _ ParsedInternalKey_default (Hl i _ He)) as [Ep _]. cbn [fst] in Ep.
  eexists _, _, post. split.
  { unfold Prime. cbn [with_result re_status_]. rewrite Hst. cbn [ok negb OK]. destruct lasts; cbn [prime_loop with_result rs_ has_current_user_key_ current_user_key_ current_user_sequence_]; rewrite Hs; cbn [mbind option_bind]; rewrite Esc; cbn [mbind option_bind]; reflexivity. }
  split; [done|]. split; [done|]. split; [done|]. split; [unfold replay_HasValue; cbn [with_result with_key with_iter rs_ rs_iter_ mbind option_bind]; by rewrite Ep|].
  split; [unfold replay_Next; cbn [with_result with_key with_iter rs_ rs_iter_ mbind option_bind]; rewrite En; reflexivity|].
  split; [split; cbn [with_result with_key with_iter rs_ rs_iter_ re_status_ rs_seq_start_]; [by apply Forall_lookup|done|done|by exists s2, (next_pos (length l) i)]|].
  split; [rewrite E, length_app; simpl; lia|]. done.
Qed.

(** A source without further entries to show. *)
Lemma prime_exhausted fuel last lasts it l start rest : in_source it l start rest -> (length rest < fuel)%nat -> todo it rest = [] ->
  Prime ucmp I mem_NewIterator fuel (last :: lasts) it = (let '(mem, start, mems) := next_source I it in
    m ← mem; s ← SeekToFirst I (mem_NewIterator m);
    if negb (start <=? last) then None
    else let it := {| re_valid_ := false; re_status_ := OK; has_current_user_key_ := false; current_user_key_ := []; current_user_sequence_ := kMaxSequenceNumber;
                      rs_ := {| rs_mem_ := Some m; rs_iter_ := Some s; rs_seq_start_ := start; rs_seq_limit_ := last |}; mems_ := mems |} in
         if start =? last then Some it else prime_loop ucmp I mem_NewIterator fuel lasts it).
Proof.
  intros [Hl Hst Hstart (s & p & Hs & Hi & Hr)] Hfuel Htodo. destruct (replay_of_split (rs_seq_start_ I (rs_ I it)) (has_current_user_key_ I it) (current_user_key_ I it) (current_user_sequence_ I it) rest) as [[_ Hall]|(pre & x & post & E & Hpre & Hacc & Hrep)]; [|congruence].
  destruct (prime_scan_ok l (has_current_user_key_ I it) (current_user_key_ I it) (current_user_sequence_ I it) (rs_seq_start_ I (rs_ I it)) Hl rest fuel s p Hi Hr Hfuel) as [Hscan _]. destruct (Hscan Hall) as (s' & Esc & Hi'). pose proof (iterates_ok I icmp dom l) as Hio.
  unfold Prime. cbn [with_result re_status_]. rewrite Hst. cbn [ok negb OK prime_loop with_result rs_ has_current_user_key_ current_user_key_ current_user_sequence_]. rewrite Hs. cbn [mbind option_bind]. rewrite Esc. cbn [mbind option_bind].
  rewrite (io_status _ _ Hi'). cbn [negb]. reflexivity.
Qed.

(** The entries of a source are shown one after the other. *)
Lemma run_source n fuel last l start es : forall it rest, in_source it l start rest -> (length rest < fuel)%nat -> todo it rest = es ->
  exists it' rest', in_source it' l start rest' /\ (length rest' < fuel)%nat /\ todo it' rest' = [] /\ mems_ I it' = mems_ I it /\
    rs_mem_ I (rs_ I it') = rs_mem_ I (rs_ I it) /\ rs_seq_limit_ I (rs_ I it') = rs_seq_limit_ I (rs_ I it) /\
    replay_run ucmp I mem_NewIterator (length es + n) fuel last it = ('(tl, itf) ← replay_run ucmp I mem_NewIterator n fuel last it'; Some (map show es ++ tl, itf)).
Proof.
  induction es as [|e es IH]; intros it rest Hin Hfuel Htodo.
  - exists it, rest. do 6 (split; [done|]). cbn [length Nat.add map app]. by destruct (replay_run ucmp I mem_NewIterator n fuel last it) as [[tl itf]|].
  - destruct (prime_found fuel [last; last] it l start rest e es Hin Hfuel Htodo) as (it1 & it2 & post & E1 & Ev & Ek & Ex & Eh & En & Hin2 & Hlen & Htodo2 & Em & Emem & Elim).
    destruct (IH it2 post Hin2 ltac:(lia) Htodo2) as (it' & rest' & H1 & H2 & H3 & H4 & H5 & H6 & H7). exists it', rest'. split; [done|]. split; [done|]. split; [done|]. split; [congruence|]. split; [congruence|]. split; [congruence|].
    cbn [length Nat.add replay_run]. unfold replay_Valid. rewrite E1. cbn [mbind option_bind]. rewrite Ev, Ek. cbn [mbind option_bind]. rewrite Ex. cbn [mbind option_bind]. rewrite Eh. cbn [mbind option_bind]. rewrite En. cbn [mbind option_bind]. rewrite H7.
    destruct (replay_run ucmp I mem_NewIterator n fuel last it') as [[tl itf]|]; [|done]. cbn [mbind option_bind map app]. done.
Qed.

(** Prime's test of a valid entry. *)
Lemma accepts_ok has k seq start e : entry_valid e ->
  accepts ucmp has k seq start (parsed e) = true <-> start <= e_seq e /\ (has = true -> e_user e = k -> seq <= e_seq e).
Proof.
  intros Hv. destruct (parse_entry e ParsedInternalKey_default Hv) as [_ Htype]. unfold accepts, parsed. cbn [user_key sequence type_].
  assert ((e_type e =? kTypeDeletion) || (e_type e =? kTypeValue) = true) as -> by (destruct Htype as [-> | ->]; done). rewrite andb_true_r, andb_true_iff, Z.leb_le.
  rewrite !orb_true_iff, !negb_true_iff, Z.eqb_neq, Z.leb_le, (cmp_eq (dom := all_keys)) by done. destruct has; [|intuition congruence]. split.
  - intros [[[?|?]|?] ?]; (split; [done|]); intros _ ?; [done|congruence|done].
  - intros [H1 H2]. split; [|done]. destruct (decide (e_user e = k)) as [E|E]; [right; by apply H2|left; by right].
Qed.

(** The replayed entries: the newest of their keys, not older than the start. *)
Lemma replay_of_elem start l : forall has k seq, Sorted.StronglySorted (fun a b : entry => Compare icmp (fst a) (fst b) < 0) l -> Forall entry_valid l ->
  (has = true -> Forall (fun e => Compare ucmp k (e_user e) <= 0) l) ->
  forall e, e ∈ replay_of start has k seq l <-> e ∈ l /\ start <= e_seq e /\ (forall e', e' ∈ l -> e_user e' = e_user e -> e_seq e' <= e_seq e) /\ (has = true -> e_user e = k -> seq <= e_seq e).
Proof.
  induction l as [|x l IH]; intros has k seq Hs Hv Hk e; cbn [replay_of]; [split; [by intros ?%elem_of_nil|by intros [?%elem_of_nil _]]|].
  inversion Hs as [|? ? Hs' Hx]; subst. apply Forall_cons in Hv as [Hvx Hv]. rewrite Forall_forall in Hx.
  assert (forall y, y ∈ l -> Compare ucmp (e_user x) (e_user y) <= 0) as Hle by (intros y Hy; apply ikc_user_le; specialize (Hx y Hy); lia).
  assert (forall y, y ∈ l -> e_user y = e_user x -> e_seq y <= e_seq x) as Hseq.
  { intros y Hy Hu. specialize (Hx y Hy). rewrite (ikc_Compare_same (fst x) (fst y) (eq_sym Hu)) in Hx. unfold e_seq. rewrite !Z.shiftr_div_pow2 by lia. apply Z.div_le_mono; lia. }
  pose proof (accepts_ok has k seq start x Hvx) as Hacc.
  destruct (accepts ucmp has k seq start (parsed x)) eqn:Ea.
  - destruct (proj1 Hacc eq_refl) as [A1 A2]. rewrite elem_of_cons, (IH true (e_user x) (e_seq x) Hs' Hv) by (intros _; by apply Forall_forall). split.
    + intros [->|(H1 & H2 & H3 & H4)].
      * split; [left|]. split; [done|]. split; [|done]. intros e' [->|He']%elem_of_cons Hu; [lia|by apply Hseq].
      * split; [by right|]. split; [done|]. split; [intros e' [->|He']%elem_of_cons Hu; [by apply H4|by apply H3]|]. intros Hhas Hu. specialize (Hk Hhas). apply Forall_cons in Hk as [Hkx _].
        assert (e_user x = k) as Exk. { specialize (Hle e H1). rewrite Hu in Hle. apply (cmp_eq (dom := all_keys)); [done|done|]. pose proof (proj2 (cmp_ge_le (dom := all_keys) (e_user x) k Logic.I Logic.I)). lia. }
        specialize (A2 Hhas Exk). specialize (H4 eq_refl). rewrite Hu, <- Exk in H4. specialize (H4 eq_refl). lia.
    + intros ([->|H1]%elem_of_cons & H2 & H3 & H4); [by left|]. right. split; [done|]. split; [done|]. split; [intros e' He'; apply H3; by right|]. intros _ Hu. apply H3; [left|done].
  - rewrite (IH has k seq Hs' Hv) by (intros Hhas; specialize (Hk Hhas); by apply Forall_cons in Hk as [_ ?]). split.
    + intros (H1 & H2 & H3 & H4). split; [by right|]. split; [done|]. split; [|done]. intros e' [->|He']%elem_of_cons Hu; [|by apply H3].
      destruct (Z.le_gt_cases (e_seq x) (e_seq e)) as [|Hgt]; [done|]. exfalso. assert (start <= e_seq x /\ (has = true -> e_user x = k -> seq <= e_seq x)) as H; [|apply Hacc in H; congruence].
      split; [lia|]. intros Hhas Hux. rewrite Hu in Hux. specialize (H4 Hhas Hux). lia.
    + intros ([->|H1]%elem_of_cons & H2 & H3 & H4); [apply proj2 in Hacc; specialize (Hacc (conj H2 H4)); congruence|]. split; [done|]. split; [done|]. split; [intros e' He'; apply H3; by right|done].
Qed.

(** The entries of a source that a replay from [start] on shows: of every key
    the newest one, when it is not older than [start]. *)
Definition newest_since (start : Z) (l : list entry) (e : entry) : Prop :=
  e ∈ l /\ start <= e_seq e /\ forall e', e' ∈ l -> e_user e' = e_user e -> e_seq e' <= e_seq e.

Lemma replay_of_newest start seq l e : sorted_keys icmp l -> Forall entry_valid l -> e ∈ replay_of start false [] seq l <-> newest_since start l e.
Proof. intros Hs%sorted_keys_strongly Hv. rewrite (replay_of_elem start l false [] seq Hs Hv) by done. unfold newest_since. split; [by intros (? & ? & ? & _)|by intros (? & ? & ?)]. Qed.

Lemma replay_of_sublist start l : forall has k seq, replay_of start has k seq l `sublist_of` l.
Proof. induction l as [|e l IH]; intros has k seq; cbn [replay_of]; [done|]. destruct (accepts _ _ _ _ _ _); by constructor. Qed.

(** Once the queue is empty and LastSequence does not move, one answer is enough. *)
Lemma prime_at_rest fuel last lasts lasts' it : mems_ I it = [] -> rs_seq_limit_ I (rs_ I it) = last ->
  prime_loop ucmp I mem_NewIterator fuel (last :: lasts) it = prime_loop ucmp I mem_NewIterator fuel (last :: lasts') it.
Proof.
  intros Hm Hl. cbn [prime_loop]. destruct (rs_iter_ I (rs_ I it)) as [s|]; [|done]. cbn [mbind option_bind]. destruct (scan _ _ _ _ _ _ _ s) as [[[ikey| |] s']|]; [done| |done|done]. cbn [mbind option_bind].
  destruct (negb _); [done|]. unfold next_source. rewrite Hm. rewrite Hl. destruct (rs_mem_ I (rs_ I it)); [|done]. cbn [mbind option_bind]. destruct (SeekToFirst I _); [|done]. cbn [mbind option_bind]. by rewrite Z.eqb_refl.
Qed.

(** An iterator at the first entry of its source. *)
Lemma source_at_first it l s p : Forall entry_valid l -> re_status_ I it = OK -> rs_iter_ I (rs_ I it) = Some s -> iterates I icmp dom l s p -> p = first_pos (length l) ->
  in_source it l (rs_seq_start_ I (rs_ I it)) l.
Proof.
  intros Hl Hst Hit Hi ->. split; [done..|]. exists s, (first_pos (length l)). split; [done|]. split; [done|]. unfold first_pos. destruct (decide _) as [E|E]; cbn [rest_at]; [by apply nil_length_inv in E|]. split; [done|lia].
Qed.

(** The memtable after the database, with the database at rest. *)
Lemma run_memtable n fuel last it lm m : in_source it lm (rs_seq_start_ I (rs_ I it)) lm -> iterates I icmp dom lm (mem_NewIterator m) None ->
  rs_mem_ I (rs_ I it) = Some m -> mems_ I it = [] -> rs_seq_limit_ I (rs_ I it) = last -> (length lm < fuel)%nat ->
  (length (todo it lm) < n)%nat -> exists itf st, replay_run ucmp I mem_NewIterator n fuel last it = Some (map show (todo it lm), itf) /\ re_valid_ I itf = false /\ replay_status I itf = Some st /\ ok st = true.
Proof.
  intros Hin Hnew Hmem Hq Hlim Hfuel Hn. destruct (run_source (n - length (todo it lm)) fuel last lm _ _ it lm Hin Hfuel eq_refl) as (it' & rest' & H1 & H2 & H3 & H4 & H5 & H6 & H7).
  replace (length (todo it lm) + (n - length (todo it lm)))%nat with n in H7 by lia. rewrite H7. destruct (n - length (todo it lm))%nat as [|k] eqn:En; [lia|]. cbn [replay_run]. unfold replay_Valid.
  rewrite (prime_exhausted _ _ _ _ _ _ _ H1 H2 H3). unfold next_source. rewrite H4, Hq, H5, H6, Hlim, Hmem. pose proof (iterates_ok I icmp dom lm) as Hio. cbn [mbind option_bind].
  destruct (io_first _ _ Hnew) as (s' & -> & Hs'). cbn [mbind option_bind]. rewrite Z.leb_refl, Z.eqb_refl. cbn [negb mbind option_bind re_valid_]. rewrite app_nil_r. eexists _, (status I s'). split; [reflexivity|]. split; [done|]. split; [done|]. by apply (io_status _ _ Hs').
Qed.

(** What is shown of the two sources. *)
Definition shown (start last : Z) (l lm : list entry) : list entry :=
  replay_of start false [] 0 l ++ (if start =? last then [] else replay_of start false [] kMaxSequenceNumber lm).

Lemma replay_run_shown n fuel start last l lm s m : Forall entry_valid l -> Forall entry_valid lm ->
  iterates I icmp dom l s (first_pos (length l)) -> iterates I icmp dom lm (mem_NewIterator m) None -> start <= last -> start <= kMaxSequenceNumber ->
  (length l < fuel)%nat -> (length lm < fuel)%nat -> (length (shown start last l lm) < n)%nat ->
  exists itf st, replay_run ucmp I mem_NewIterator n fuel last (new_ReplayIteratorImpl I s m start) = Some (map show (shown start last l lm), itf) /\
    re_valid_ I itf = false /\ replay_status I itf = Some st /\ ok st = true.
Proof.
  intros Hl Hlm Hs Hnew Hle Hmax Hf1 Hf2 Hn. unfold shown in *. rewrite length_app in Hn. rewrite map_app. set (it := new_ReplayIteratorImpl I s m start). set (es := replay_of start false [] 0 l) in *.
  destruct (run_source (n - length es) fuel last l start es it l) as (it' & rest' & H1 & H2 & H3 & H4 & H5 & H6 & H7); [by apply (source_at_first it l s (first_pos (length l)))|done|done|].
  replace (length es + (n - length es))%nat with n in H7 by lia. rewrite H7. destruct (n - length es)%nat as [|k] eqn:En; [lia|]. pose proof (iterates_ok I icmp dom lm) as Hio. destruct (io_first _ _ Hnew) as (sm & Esm & Hsm).
  assert (Prime ucmp I mem_NewIterator fuel [last; last] it' = (let it2 := {| re_valid_ := false; re_status_ := OK; has_current_user_key_ := false; current_user_key_ := []; current_user_sequence_ := kMaxSequenceNumber;
     rs_ := {| rs_mem_ := Some m; rs_iter_ := Some sm; rs_seq_start_ := start; rs_seq_limit_ := last |}; mems_ := [] |} in if start =? last then Some it2 else prime_loop ucmp I mem_NewIterator fuel [last] it2)) as Ep.
  { rewrite (prime_exhausted _ _ _ _ _ _ _ H1 H2 H3). unfold next_source. rewrite H4, H6. cbn [it new_ReplayIteratorImpl mems_ rs_ rs_seq_limit_]. rewrite (proj2 (Z.ltb_ge _ _) Hmax). cbn [mbind option_bind]. rewrite Esm. cbn [mbind option_bind]. by rewrite (proj2 (Z.leb_le _ _) Hle). }
  destruct (start =? last) eqn:Esl.
  - cbn [replay_run]. unfold replay_Valid. rewrite Ep. cbn [mbind option_bind re_valid_ map]. eexists _, (status I sm). split; [reflexivity|]. split; [done|]. split; [done|]. by apply (io_status _ _ Hsm).
  - set (it2 := {| re_valid_ := false |}) in Ep. destruct (run_memtable (S k) fuel last it2 lm m) as (itf & st & E & Hv & Hst & Hok); [by apply (source_at_first it2 lm sm (first_pos (length lm)))|done..|simpl; lia|].
    exists itf, st. split; [|done]. assert (replay_run ucmp I mem_NewIterator (S k) fuel last it' = replay_run ucmp I mem_NewIterator (S k) fuel last it2) as ->; [|by rewrite E].
    cbn [replay_run]. unfold replay_Valid. rewrite Ep. cbn zeta. rewrite (prime_at_rest fuel last [] [last] it2) by done. done.
Qed.

End Spec.

(** ** Timestamps *)
Definition all_ts : bytes := bytes_of_string "all"%string.
Definition now_ts : bytes := bytes_of_string "now"%string.

(** file = versions_->NewFileNumber(); versions_->ReuseFileNumber(file): the
    number and next_file_number_. *)
Definition peek_file_number (next_file_number : Z) : Z * Z :=
  let file := next_file_number in
  let next_file_number := u64 (next_file_number + 1) in
  (file, if next_file_number =? u64 (file + 1) then file else next_file_number).

(** The timestamp and next_file_number_; WaitOutWriters, which comes before the
    encoding, waits and changes neither. *)
Definition GetReplayTimestamp (next_file_number last_sequence : Z) : bytes * Z :=
  let '(file, next) := peek_file_number next_file_number in
  (PutVarint64 (PutVarint64 [] file) last_sequence, next).

Definition decode_timestamp (ts : bytes) : option (Z * Z) :=
  '(file, ts) ← GetVarint64 ts; '(seqno, _) ← GetVarint64 ts; Some (file, seqno).

(** manual_garbage_cutoff_ *)
Definition AllowGarbageCollectBeforeTimestamp (last_sequence : Z) (ts : bytes) (manual_garbage_cutoff : Z) : Z :=
  if bool_decide (ts = all_ts) then manual_garbage_cutoff
  else if bool_decide (ts = now_ts) then (if manual_garbage_cutoff <? last_sequence then last_sequence else manual_garbage_cutoff)
  else match decode_timestamp ts with
       | Some (_, seqno) => if manual_garbage_cutoff <? seqno then seqno else manual_garbage_cutoff
       | None => manual_garbage_cutoff
       end.

Definition ValidateTimestamp (ts : bytes) : bool :=
  bool_decide (ts = all_ts) || bool_decide (ts = now_ts) || match decode_timestamp ts with Some _ => true | None => false end.

(** The sequence number that CompareTimestamps takes; it does not look at the
    results of GetVarint64. *)
Definition timestamp_seqno (now : Z) (ts : bytes) : Z :=
  if bool_decide (ts = all_ts) then 0
  else if bool_decide (ts = now_ts) then now
  else
    let ts := match GetVarint64 ts with Some (_, rest) => rest | None => ts end in
    match GetVarint64 ts with Some (seqno, _) => seqno | None => 0 end.

Definition CompareTimestamps (last_sequence : Z) (lhs rhs : bytes) : Z :=
  let lhs_seqno := timestamp_seqno last_sequence lhs in
  let rhs_seqno := timestamp_seqno last_sequence rhs in
  if lhs_seqno <? rhs_seqno then -1 else if rhs_seqno <? lhs_seqno then 1 else 0.

Section GetReplayIterator.
Context `{!StdHeap} (ucmp : Comparator) (T : IterOps) (table_NewIterator : Z -> Z -> St T) (fuel : nat).

(** rs_.iter_ is the iterator over the whole database first and one over the
    memtable later. *)
Definition Replayed (d : Database) : IterOps :=
  SumIterator (Internal ucmp T table_NewIterator fuel d) (MemTableIterator ucmp (db_mem d)).
Definition replayed_mem (d : Database) (mem : nat) : St (Replayed d) := inr (NewIterator ucmp (db_mem d)).

(** [mem] is the address of mem_.  The status, the iterator, next_file_number_ and
    the database, whose read counters change. *)
Definition GetReplayIterator (d : Database) (mem : nat) (next_file_number : Z) (ts : bytes) :
    option (Status * option (ReplayIteratorImpl (Replayed d)) * Z * Database) :=
  let open file seqno next :=
    let '(iter, _, _, d') := NewInternalIterator ucmp T table_NewIterator fuel file d in
    iter ← SeekToFirst (Replayed d) (inl iter);
    Some (OK, Some (new_ReplayIteratorImpl (Replayed d) iter mem seqno), next, d') in
  if bool_decide (ts = all_ts) then open 0 0 next_file_number
  else if bool_decide (ts = now_ts) then let '(file, next) := peek_file_number next_file_number in open file (last_sequence d) next
  else match decode_timestamp ts with
       | None => Some (InvalidArgument (bytes_of_string "Timestamp is not valid"%string), None, next_file_number, d)
       | Some (file, seqno) => open file seqno next_file_number
       end.
End GetReplayIterator.

(** A new memtable is announced to all the iterators (SequenceWriteBegin). *)
Definition enqueue_mem (I : IterOps) (m : nat) (start_sequence : Z) (replay_iters : list (ReplayIteratorImpl I)) : list (ReplayIteratorImpl I) :=
  map (replay_enqueue I m start_sequence) replay_iters.

#[local] Ltac ltb_cases := repeat match goal with |- context [?a <? ?b] => destruct (Z.ltb_spec a b) end.

Lemma peek_file_number_id next : peek_file_number next = (next, next).
Proof. unfold peek_file_number. by rewrite Z.eqb_refl. Qed.

Lemma decode_encoded file seqno : 0 <= file < 2 ^ 64 -> 0 <= seqno < 2 ^ 64 -> decode_timestamp (EncodeVarint64 file ++ EncodeVarint64 seqno) = Some (file, seqno).
Proof.
  intros Hf Hs. unfold decode_timestamp. rewrite GetVarint64_EncodeVarint64 by done. cbn [mbind option_bind].
  rewrite <- (app_nil_r (EncodeVarint64 seqno)), GetVarint64_EncodeVarint64 by done. done.
Qed.

(** A timestamp is not one of the two words: both would be three varints. *)
Lemma encoded_not_word file seqno w x y r c r' : 0 <= file < 2 ^ 64 -> 0 <= seqno < 2 ^ 64 -> GetVarint64 w = Some (x, r) -> GetVarint64 r = Some (y, c :: r') ->
  EncodeVarint64 file ++ EncodeVarint64 seqno <> w.
Proof.
  intros Hf Hs E1 E2 E. rewrite <- E, GetVarint64_EncodeVarint64 in E1 by done. injection E1 as -> <-.
  rewrite <- (app_nil_r (EncodeVarint64 seqno)), GetVarint64_EncodeVarint64 in E2 by done. discriminate.
Qed.

Lemma timestamp_eq next last : fst (GetReplayTimestamp next last) = EncodeVarint64 next ++ EncodeVarint64 last.
Proof. unfold GetReplayTimestamp. rewrite peek_file_number_id. done. Qed.

Lemma timestamp_not_all next last : 0 <= next < 2 ^ 64 -> 0 <= last < 2 ^ 64 -> fst (GetReplayTimestamp next last) <> all_ts.
Proof. intros Hn Hl. rewrite timestamp_eq. by eapply encoded_not_word; [| |vm_compute; reflexivity|vm_compute; reflexivity]. Qed.
Lemma timestamp_not_now next last : 0 <= next < 2 ^ 64 -> 0 <= last < 2 ^ 64 -> fst (GetReplayTimestamp next last) <> now_ts.
Proof. intros Hn Hl. rewrite timestamp_eq. by eapply encoded_not_word; [| |vm_compute; reflexivity|vm_compute; reflexivity]. Qed.

Lemma timestamp_seqno_ok now next last : 0 <= next < 2 ^ 64 -> 0 <= last < 2 ^ 64 -> timestamp_seqno now (fst (GetReplayTimestamp next last)) = last.
Proof.
  intros Hn Hl. unfold timestamp_seqno. rewrite !bool_decide_eq_false_2 by (by apply timestamp_not_all || by apply timestamp_not_now). rewrite timestamp_eq, GetVarint64_EncodeVarint64 by done.
  rewrite <- (app_nil_r (EncodeVarint64 last)), GetVarint64_EncodeVarint64 by done. done.
Qed.

(** C34. Replay timestamps.  A timestamp that GetReplayTimestamp returned leaves
    the file number as it was, decodes to the file number and the sequence number
    it was taken at, is accepted by ValidateTimestamp and is neither of the words
    "all" and "now"; two such timestamps compare as their sequence numbers do,
    "all" is not after any and "now" not before any that is not in the future; and
    AllowGarbageCollectBeforeTimestamp moves the cutoff to its sequence number,
    never back.  The file number and the sequence number are any uint64_t. *)
Theorem timestamp_round_trip (next last next' last' now cutoff : Z) :
  0 <= next < 2 ^ 64 -> 0 <= last < 2 ^ 64 -> 0 <= next' < 2 ^ 64 -> 0 <= last' < 2 ^ 64 ->
  let '(ts, n) := GetReplayTimestamp next last in
  let '(ts', _) := GetReplayTimestamp next' last' in
  n = next /\ decode_timestamp ts = Some (next, last) /\ ValidateTimestamp ts = true /\ ts <> all_ts /\ ts <> now_ts /\
  CompareTimestamps now ts ts' = Z.sgn (last - last') /\ CompareTimestamps now all_ts ts <= 0 /\ (last <= now -> 0 <= CompareTimestamps now now_ts ts) /\
  AllowGarbageCollectBeforeTimestamp now ts cutoff = Z.max cutoff last.
Proof.
  intros Hn Hl Hn' Hl'. destruct (GetReplayTimestamp next last) as [ts n] eqn:E. destruct (GetReplayTimestamp next' last') as [ts' n'] eqn:E'.
  pose proof (timestamp_eq next last) as T. pose proof (timestamp_not_all next last Hn Hl). pose proof (timestamp_not_now next last Hn Hl).
  pose proof (timestamp_seqno_ok now next last Hn Hl) as S1. pose proof (timestamp_seqno_ok now next' last' Hn' Hl') as S2. rewrite E in *. rewrite E' in *. cbn [fst] in *.
  unfold GetReplayTimestamp in E. rewrite peek_file_number_id in E. injection E as _ <-. assert (decode_timestamp ts = Some (next, last)) as D by (rewrite T; by apply decode_encoded).
  split; [done|]. split; [done|]. split; [unfold ValidateTimestamp; by rewrite D, orb_true_r|]. split; [done|]. split; [done|].
  assert (timestamp_seqno now all_ts = 0) as A by done. assert (timestamp_seqno now now_ts = now) as N by done.
  unfold CompareTimestamps. rewrite S1, S2, A, N. split; [|split; [|split]]; [ltb_cases; lia..|].
  unfold AllowGarbageCollectBeforeTimestamp. rewrite !bool_decide_eq_false_2 by done. rewrite D. ltb_cases; lia.
Qed.

Lemma timestamp_round_trip_witness :
  let '(ts, _) := GetReplayTimestamp 9 300 in
  decode_timestamp ts = Some (9, 300) /\ CompareTimestamps 400 ts (fst (GetReplayTimestamp 11 301)) = -1 /\
  AllowGarbageCollectBeforeTimestamp 400 ts 50 = 300.
Proof.
  pose proof (timestamp_round_trip 9 300 11 301 400 50 ltac:(lia) ltac:(lia) ltac:(lia) ltac:(lia)) as (_ & H1 & _ & _ & _ & H2 & _ & _ & H3).
  split; [exact H1|]. split; [exact H2|]. exact H3.
Defined.

(** A cutoff for garbage never moves back. *)
Lemma AllowGarbageCollect_mono last ts cutoff : cutoff <= AllowGarbageCollectBeforeTimestamp last ts cutoff.
Proof. unfold AllowGarbageCollectBeforeTimestamp. repeat case_bool_decide; [lia| |]; [|destruct (decode_timestamp ts) as [[file seqno]|]; [|lia]]; ltb_cases; lia. Qed.

Lemma memtable_entries_valid ucmp m adds (l : list entry) : memtable_rep ucmp m adds -> (forall e, e ∈ l <-> exists a, a ∈ adds /\ e = a_pair a) -> Forall entry_valid l.
Proof.
  intros (_ & _ & Hok & _) Hl. apply Forall_forall. rewrite Forall_forall in Hok. intros e (a & Ha & ->)%Hl. exists (a_key a), (a_seq a), (a_type a). split; [reflexivity|]. exact (proj1 (Hok a Ha)).
Qed.

(** A timestamp, its file number and its sequence number. *)
Definition stands_for (next last : Z) (ts : bytes) (file start : Z) : Prop :=
  (ts = all_ts /\ file = 0 /\ start = 0) \/ (ts = now_ts /\ file = next /\ start = last) \/
  (ts = fst (GetReplayTimestamp file start) /\ 0 <= file < 2 ^ 64 /\ 0 <= start < 2 ^ 64).

Lemma opened_at `{!StdHeap} ucmp T table_NewIterator fuel d mem next ts file start s :
  stands_for next (last_sequence d) ts file start ->
  SeekToFirst (Replayed ucmp T table_NewIterator fuel d) (inl (NewMergingIterator (InternalKeyComparator ucmp) (Child ucmp T table_NewIterator fuel d)
    (read_children ucmp T table_NewIterator fuel file d))) = Some s ->
  exists d', GetReplayIterator ucmp T table_NewIterator fuel d mem next ts =
    Some (OK, Some (new_ReplayIteratorImpl (Replayed ucmp T table_NewIterator fuel d) s mem start), next, d').
Proof.
  intros Hts Es. unfold GetReplayIterator, NewInternalIterator. cbv beta iota zeta. destruct Hts as [(-> & -> & ->)|[(-> & -> & ->)|(-> & Hf & Hs)]].
  - rewrite bool_decide_true by done. eexists. apply bind_Some. exists s. split; [exact Es|reflexivity].
  - rewrite bool_decide_false, bool_decide_true by done. rewrite peek_file_number_id. eexists. apply bind_Some. exists s. split; [exact Es|reflexivity].
  - rewrite !bool_decide_eq_false_2 by (by apply timestamp_not_all || by apply timestamp_not_now). rewrite timestamp_eq, decode_encoded by done.
    eexists. apply bind_Some. exists s. split; [exact Es|reflexivity].
Qed.

(** What a replay iterator shows.  The iterator that GetReplayIterator opens for
    "all", "now" or a timestamp that GetReplayTimestamp returned, with the sequence
    number [start], read to its end while no write happens, shows in the order of
    the keys the newest entry of every key that is not older than [start] among the
    entries [l] NewInternalIterator gives for the file number, as a value or a
    deletion, then those of the memtable unless nothing was written since
    [start]; then it is invalid with an OK status. *)
Theorem replay_shows_newest `{Hheap : !StdHeap} (ucmp : Comparator) (Hcmp : ComparatorOk ucmp all_keys) (T : IterOps)
    (table_NewIterator : Z -> Z -> St T) (d : Database) (madds : list Addition) (mem : nat) (ts : bytes) (file start next : Z) (l : list entry) (n fuel : nat)
    (Hts : stands_for next (last_sequence d) ts file start) (Hstart : start <= last_sequence d <= kMaxSequenceNumber)
    (Hl : sorted_keys (InternalKeyComparator ucmp) l) (Hvl : Forall entry_valid l) (Hmem : memtable_rep ucmp (db_mem d) madds)
    (Hi : iterates (Internal ucmp T table_NewIterator fuel d) (InternalKeyComparator ucmp) mem_seekable l
      (NewMergingIterator (InternalKeyComparator ucmp) (Child ucmp T table_NewIterator fuel d) (read_children ucmp T table_NewIterator fuel file d)) None)
    (Hn : (length l + length (table_ (db_mem d)) < n)%nat) (Hfuel : (length l < fuel)%nat) (Hfuel' : (length (table_ (db_mem d)) <= fuel)%nat) :
  let I := Replayed ucmp T table_NewIterator fuel d in
  exists it d' itf st out outm lm,
    GetReplayIterator ucmp T table_NewIterator fuel d mem next ts = Some (OK, Some it, next, d') /\
    replay_run ucmp I (replayed_mem ucmp T table_NewIterator fuel d) n fuel (last_sequence d) it = Some (map show (out ++ outm), itf) /\
    re_valid_ I itf = false /\ replay_status I itf = Some st /\ ok st = true /\
    out `sublist_of` l /\ (forall e, e ∈ out <-> newest_since start l e) /\
    (forall e, e ∈ lm <-> exists a, a ∈ madds /\ e = a_pair a) /\
    (start = last_sequence d -> outm = []) /\ (start <> last_sequence d -> outm `sublist_of` lm /\ forall e, e ∈ outm <-> newest_since start lm e).
Proof.
  intros I. destruct (memtable_list ucmp _ _ Hmem) as (lm & Hm1 & Hm2 & Hm3 & Hm4 & _). pose proof (memtable_entries_valid _ _ _ _ Hmem Hm3) as Hvlm.
  apply (iterates_inl _ (MemTableIterator ucmp (db_mem d))) in Hi. apply (iterates_inr (Internal ucmp T table_NewIterator fuel d)) in Hm1.
  pose proof (iterates_ok I (InternalKeyComparator ucmp) mem_seekable l) as Hio. destruct (io_first _ _ Hi) as (s & Es & Hs).
  set (last := last_sequence d) in *.
  destruct (replay_run_shown ucmp I (replayed_mem ucmp T table_NewIterator fuel d) mem_seekable n fuel start last l lm s mem) as (itf & st & Erun & Hv & Hst & Hok);
    [done|done|done|done|lia|lia|lia|lia| |].
  { unfold shown. rewrite length_app. pose proof (sublist_length _ _ (replay_of_sublist ucmp start l false [] 0)).
    pose proof (sublist_length _ _ (replay_of_sublist ucmp start lm false [] kMaxSequenceNumber)). destruct (start =? last); simpl; lia. }
  destruct (opened_at ucmp T table_NewIterator fuel d mem next ts file start s Hts Es) as [d' Eopen].
  exists (new_ReplayIteratorImpl I s mem start), d', itf, st, (replay_of ucmp start false [] 0 l),
    (if start =? last then [] else replay_of ucmp start false [] kMaxSequenceNumber lm), lm.
  do 5 (split; [done|]). split; [apply replay_of_sublist|]. split; [intros e; apply (replay_of_newest ucmp mem_seekable start 0 l e Hl Hvl)|]. split; [done|]. split.
  - intros ->. by rewrite Z.eqb_refl.
  - intros Hne. rewrite (proj2 (Z.eqb_neq _ _) Hne). split; [apply replay_of_sublist|]. intros e. by apply (replay_of_newest ucmp mem_seekable).
Qed.

#[local] Existing Instance SortedHeap.sorted_heap.

Lemma exist_nat_above (a b : nat) : exists fuel : nat, (a < fuel)%nat /\ (b < fuel)%nat.
Proof. exists (S (a + b)). lia. Qed.

(** From "all", over a database with an entry in each of its sources. *)
Lemma replay_shows_newest_witness : exists mem imm (fuel : nat), let d := database_of mem imm in exists it d' itf out outm,
  insert_batches BytewiseComparator new_MemTable read_batches = Some mem /\
  GetReplayIterator BytewiseComparator BlockOrError file_7_iterator fuel d 0 7 all_ts = Some (OK, Some it, 7, d') /\
  replay_run BytewiseComparator (Replayed BytewiseComparator BlockOrError file_7_iterator fuel d)
    (replayed_mem BytewiseComparator BlockOrError file_7_iterator fuel d) (fuel + fuel) fuel 12 it = Some (map show (out ++ outm), itf) /\
  a_pair {| a_seq := 12; a_type := kTypeValue; a_key := [Byte.x61]; a_value := [Byte.x31] |} ∈ outm.
Proof.
  destruct read_database_ok as (mem & imm & Em & Ei & Hok). set (d := database_of mem imm) in *.
  destruct (exist_nat_above (read_fuel BytewiseComparator file_7_entries d) (length (table_ mem))) as (fuel & Hf1 & Hf2).
  destruct (internal_iterates (Hheapok := SortedHeap.sorted_heap_ok) BytewiseComparator BlockOrError file_7_iterator reader_7 (fun _ => None) (BloomFilterPolicy 10) file_7_entries d _ _ Hok fuel Hf1)
    as (l & Hs & Hl & Hlen & Hi).
  assert (Forall entry_valid l) as Hv.
  { apply Forall_forall. intros e [(a & Ha & ->)|[(a & Ha & ->)|(level & f & _ & Hf & He)]]%Hl.
    - vm_compute in Ha. apply list_elem_of_singleton in Ha as ->. eexists _, _, _. split; [reflexivity|]. vm_compute; repeat split; discriminate || (left; reflexivity) || (right; reflexivity).
    - vm_compute in Ha. apply elem_of_cons in Ha as [->|Ha%list_elem_of_singleton]; [|subst a]; eexists _, _, _; (split; [reflexivity|]); vm_compute; repeat split; discriminate || (left; reflexivity) || (right; reflexivity).
    - apply version_7_file in Hf as [_ ->]. apply list_elem_of_singleton in He as ->. eexists _, _, _. split; [reflexivity|]. vm_compute; repeat split; discriminate || (left; reflexivity) || (right; reflexivity). }
  destruct (replay_shows_newest BytewiseComparator BytewiseComparator_ok BlockOrError file_7_iterator d (all_additions read_batches) 0 all_ts 0 0 7 l (fuel + fuel) fuel)
    as (it & d' & itf & st & out & outm & lm & E1 & E2 & _ & _ & _ & _ & _ & Hlm & _ & Hm).
  - left. split; [reflexivity|split; reflexivity].
  - vm_compute. split; discriminate.
  - exact Hs.
  - exact Hv.
  - apply Hok.
  - exact Hi.
  - change (db_mem d) with mem. lia.
  - exact Hlen.
  - change (db_mem d) with mem. lia.
  - exists mem, imm, fuel. cbv zeta. exists it, d', itf, out, outm. split; [exact Em|]. split; [exact E1|]. split; [exact E2|].
    apply Hm; [discriminate|]. split; [apply Hlm; eexists; split; [left|reflexivity]|]. split; [vm_compute; discriminate|].
    intros e' (a & ->%list_elem_of_singleton & ->)%Hlm _. vm_compute. discriminate.
Defined.

(** ** Polling an iterator *)
Definition example_mem : MemTable := default new_MemTable (insert_batches BytewiseComparator new_MemTable example_batches).
Definition example_db : Database :=
  {| db_mem := example_mem; db_imm := None; last_sequence := 3; straight_reads_ := 0; seed_ := 0;
     db_current := {| cur_version := new_Version; cur_scores := Finalize new_Version; file_to_compact_ := None; file_to_compact_level_ := -1 |} |}.

(** A client that opens an iterator for the timestamp and reads one write, and then
    asks twice if there are more, with LastSequence 3: the answers of Valid and
    the keys with their sequence numbers. *)
Definition poll (ts : bytes) : option (list (bool * option bytes * Z)) :=
  let I := Replayed BytewiseComparator BlockOrError file_7_iterator 9 example_db in
  let valid := replay_Valid BytewiseComparator I (replayed_mem BytewiseComparator BlockOrError file_7_iterator 9 example_db) 9 [3; 3] in
  let seen (v : bool) it := (v, replay_key I it, current_user_sequence_ I it) in
  '(_, it, _, _) ← GetReplayIterator BytewiseComparator BlockOrError file_7_iterator 9 example_db 0 7 ts;
  it ← it;
  '(v1, it1) ← valid it;
  it2 ← replay_Next I it1;
  '(v2, it2) ← valid it2;
  '(v3, it3) ← valid it2;
  Some [seen v1 it1; seen v2 it2; seen v3 it3].

(** "Return a ReplayIterator that returns every write operation performed after the
    timestamp": an iterator for "now" shows the last write before it, then is
    at its end, and the next call of Valid shows the same write again, though
    nothing was written. *)
Theorem replay_shows_write_before_now :
  poll now_ts = Some [(true, Some [Byte.x61], 3); (false, None, kMaxSequenceNumber); (true, Some [Byte.x61], 3)].
Proof. vm_compute. reflexivity. Qed.
